(* ===== verification/_CoqProject ===== *)
-Q . S2P
Prelude.v
GoStr.v
Json.v
Chat.v
EventHub.v
Compaction.v
Tools.v
Rules.v
Hooks.v
Runner.v
Resume.v
Goals.v
Fuzzy.v
Patch.v
PatchText.v
Assembler.v
Reflection.v
Citations.v
AutoCompact.v
Loop.v
Stream.v
ModelTurn.v
Outbox.v
TurnStore.v
TurnWorker.v
TurnInvariant.v
TurnSafety.v
TurnSystem.v
TurnHandlers.v
TurnStart.v
Redact.v
Evidence.v
Threads.v
MemoryDomain.v
MemoryWrites.v
DurableMemory.v
DurableSystem.v
DurableHandlers.v
Projection.v
Documents.v
Chunker.v
Ingestion.v
IngestionView.v
Jwt.v
Auth.v
AuthSafety.v
