(* ===== verification/Prelude.v ===== *)
(** AgentCanvas: the agent runtime, verified.

    * The program

    AgentCanvas (src/, a Go service) runs LLM agents as durable turns.  A turn
    worker takes a queued turn, the runtime assembles its context (system prompt,
    rules, compacted history), asks the model, executes the tools the model calls
    and goes round until the model answers, a limit is met or a human must decide.
    While the run is alive its events go through an in-process hub to the
    subscribers of an HTTP stream; a thread may have a persistent goal whose token
    budget the runs are charged to.  The parts that decide what happens (and in
    what order) are modelled here as executable definitions; transports, storage
    and the model itself are parameters or interfaces.

    * The files, in dependency order

    - [Prelude]: results (Go's value-or-error pairs), the tactics and the hint
      database of the development, lemmas on lists, sorting and sums.
    - [GoStr]: Go byte strings and what the code uses of strings, unicode/utf8,
      unicode and strconv: rune decoding, TrimSpace, EqualFold, Quote, Itoa, ...
    - [Json]: decoded JSON values, and the tool-argument validator of
      internal/runtime/agent/tool_schema_validator.go.
    - [Chat]: messages, tool calls and usage counters
      (internal/infrastructure/llm/chat_client.go).
    - [EventHub]: internal/runtime/eventhub (hub.go, memory_hub.go, legacy.go):
      [MemoryHub] with its runs, rings, subscribers and channel store; one
      definition per method ([Prepare], [PublishPrepared], [CloseRun],
      [Subscribe] and its [cancel], [PurgeExpired], [Close], ...), each of which
      is one critical section of the Go code.
    - [Compaction]: internal/runtime/compaction (compact.go, entry.go, retain.go)
      and internal/pkg/tokencounter: [FromChat], [ToChat], [RetainEntriesByRole],
      [TruncateToTokens], [Compact] with its retry loop.
    - [Tools]: the tool boundary of internal/runtime/agent and
      internal/runtime/toolruntime/tool.go: [NormalizeBatch], [PlanToolBatch],
      [ExecuteToolBatch], allowed hosts, the delegation guard.  The goroutines of
      a parallel segment are the step relation [segment_step].
    - [Rules]: internal/runtime/harness/rules: activation, selection under a
      token budget, validation, hashed snapshots, policy bindings.
    - [Hooks]: internal/runtime/harness/hooks/tool_hooks.go: the policy hook
      before a tool ([BeforeToolUse]), the observation hook after it
      ([AfterToolUse]), rule bindings, approvals, redaction.
    - [Runner]: [executeToolBatch] of internal/runtime/agent/runner.go, which
      composes the three files above, and the transcript helpers of that file.
    - [Resume]: [BuildResumeRequest] and [ValidateUserInputAnswers] of
      internal/runtime/agent/resumer.go, and the first batch of a resumed run.
    - [Goals]: the run status machine (internal/domain/agent/run.go), the goal
      domain, its MySQL table, the goal use cases and tools, and the charging of
      runs to goals (internal/application/agent_usecase/goal.go, turn_worker.go).
    - [Fuzzy]: the text matcher of the patch tools
      (internal/runtime/toolruntime/filesystem_fuzzy.go), its nine strategies, the
      similarity measure and the replacement.
    - [Patch]: V4A patches (filesystem_v4a.go): parser, simulation, version
      checks, application to the file system and rollback; the replace mode of
      filesystem_patch.go.  [PatchText]: the printer of the patch grammar.
    - [Assembler]: context_assembler.go and rule_planner.go: which context blocks
      and rules a turn gets, under which budget.
    - [Reflection]: reflection.go and internal/domain/reflection: when a run
      reflects on its failures and what it accepts.
    - [Citations]: internal/domain/memory/citation.go.
    - [AutoCompact]: auto_compaction.go: the token limits of a run, the compaction
      of its transcript and the snapshot protocol.
    - [Loop]: [Runner.Run] itself: the rounds of steering, compaction, planning,
      model turn, tool batch, reflection and persistence; the resumed run; and
      [RunIn], a run in a [World] of everything it asks of its surroundings.
    - [Stream]: internal/infrastructure/llm: stream events, the proposed-plan
      parser (tool_stream.go), the accumulator (tool_stream_accumulator.go) and the
      OpenAI-compatible client (chat_client.go), as a tree of callbacks.
    - [ModelTurn]: [executeModelTurn] of model_turn.go over any such client.
    - [Outbox]: the context-resource outbox (internal/domain/contextresource and
      internal/infrastructure/mysql/context_resource_repo.go): its table, leases
      and workers, whose interleavings are the step relation [outbox_step].
    - [TurnStore]: the tables of turns, runs, approvals, checkpoints and steps with
      the transactions of agent_repo.go, run_repo.go and approval_repo.go
      (internal/infrastructure/mysql), leases and unique keys included.
    - [TurnWorker]: the handlers of internal/application/agent_usecase
      (turn_worker.go, run_control.go, subagent.go) as programs: trees of calls to
      the tables, the clock and the rest of the service.  [perform] says what a call
      does, under a fault or not.
    - [TurnInvariant], [TurnSafety], [TurnSystem]: workers, heartbeats, recoveries,
      cancellations, decisions, requests and subagents side by side on those tables
      ([sstep]), one call at a time, under [Calm] or [Rough] conditions.  The first file has the invariant and what each call may
      assume and must respect, the second proves it of each handler, the third
      composes them and runs sample schedules.
    - [TurnHandlers]: properties of single handlers, over all answers of their
      calls.  [TurnStart]: [StartTurn] of service.go.
    - [Redact]: the secret patterns of durable memory
      (internal/application/memory_usecase/durable_memory_pipeline.go), matched over
      decoded runes.  [Evidence]: evidence_renderer.go and evidence_chunker.go, from
      message rows to the chunks that a model is asked about.
    - [Threads]: programs of calls on shared tables in general, with the predicate
      transformer [safe] for their interleavings, triples, and transactions that fail
      before or after their commit.
    - [MemoryDomain]: internal/domain/memory (memory.go, policy.go, files.go,
      runtime_service.go): scopes, policies, explicit requests, and the read path with
      the usage counters and the recall log that it writes.
    - [MemoryWrites]: the write pipeline (memory_write_pipeline.go, write_adapters.go)
      over its job table and the memories with their outbox events
      (memory_schema_repos.go, memory_repo.go).
    - [DurableMemory], [DurableSystem], [DurableHandlers]: durable extraction
      (durable_memory_pipeline.go, extraction_write_adapter.go, extraction_repo.go):
      its handlers as programs; the handlers, heartbeats and write workers side by
      side with their invariant; properties of single handlers over all answers.
    - [Projection]: the consolidation of memories into versioned artifacts
      (consolidation_projection.go and its entry points).
    - [Documents]: the text and OCR parsers (internal/infrastructure/parser) and
      internal/pkg/textutil/faq.go.  [Chunker]: internal/infrastructure/chunker, over
      any tokenizer (class [Tokenizer]).
    - [Ingestion]: internal/application/ingestion_usecase/service.go with the tables of
      documents, knowledge bases, chunks and jobs, and what index calls do.
      [IngestionView]: what a search sees of a document while workers are at it.
    - [Jwt]: access tokens (internal/infrastructure/crypto/jwt.go) and base64url.
      [Auth]: internal/application/auth_usecase/service.go with its tables and Redis
      keys, the middleware that admits requests and the handlers of the auth routes
      (internal/interface/http).  [AuthSafety]: their properties, with calls of other
      handlers between any two ([ends]).

    * Modelling choices

    Go's int and int64 are Z.  The hub's uint64 sequence numbers wrap around in
    the model ([u64_wrap]); token counts, sizes and limits are far from 2^63 and
    do not.  A pair (T, error) is a [result] (or an option where the error is only
    tested).  Maps are gmaps, except where the code sorts or iterates over them.
    A method that mutates its receiver returns the new state; a mutex section or a
    database transaction is one step.  Third-party code is a parameter: JSON
    encoding and decoding, SHA-256, the tiktoken encoders, the model's answers, a
    tool's behaviour, UUIDs.  Their documented behaviour, where a theorem needs it,
    is a class or a named hypothesis ([PolicyDecoder], [UnicodeTables],
    [GoalRepositoryLaws], [Collation]), each with an instance.

    A handler of turns is a value of type [prog], so its steps can be interleaved
    and its paths be quantified over; a database transaction is one call.  A call
    may fail before it does anything, or after its statements ran ([FaultLate], the
    commit fails), and a process may stop between two calls.  A transaction that fails
    leaves the tables as they were, but the process may have changed its copy of a row:
    [Calm] conditions exclude late faults of the transactions that give up a lease, and
    errors of a resumed runtime and subagents; [Rough] conditions allow everything.  Text columns are compared by a
    [Collation], since the unique keys of turns ignore case and accents.  The memory pipelines are
    values of [program] in [Threads], which is the same idea with the calls, the
    tables and the invariant as parameters; the answers of the model, the message
    store and the locks are arbitrary there, also inconsistent ones.

    Loops that are not structural carry fuel.  The ring-trimming loop of the hub runs on
    [trim_fuel], a quadratic bound proved sufficient by [trim_terminates_iff]
    whenever the Go loop ends; the same theorem shows that no fuel is enough
    otherwise.  The summarizer's retry loop runs on three attempts per entry,
    proved sufficient by [compact_total].  The binary search of [TruncateToTokens]
    runs on the length of its interval, which is what [truncate_search_spec]
    needs.  The search for exact matches runs on one more than the length of the
    content, since every step goes forward.  [CancelRun] recurses over the children of a
    run; the number of active runs is enough ([cancel_cascades]).  The loops over runes
    and lines of the parsers and chunkers run on a length, since each round takes a rune
    or a line; [fixed_chunks_cover] and [recursive_chunks_complete] show that nothing is
    left.  All other definitions are structural; the rounds of a run recurse on the
    iterations that are left.

    * What the theorems show

    - Event delivery: the hub's invariant over every operation ([hub_invariant]);
      a subscriber that reconnects, is told of no gap and stays registered gets each
      later event once and in order, but for the non-terminal ones below a threshold that
      the trimmed ring hides ([subscribe_no_gap_no_duplicate]); a reported gap comes with
      a snapshot ([subscribe_gap_snapshot]); closed runs are final ([closed_run_final]).  Three theorems delimit this: the
      trimming loop can diverge ([trim_terminates_iff]), and two situations lose
      events without a snapshot ([oversized_event_silences_replay],
      [midrun_terminal_hides_events]).
    - Whole runs: every tool that any run executes was permitted by the hooks or
      approved by a human for that call ([run_executes_only_permitted]); the run
      keeps to its limits of iterations and calls ([run_bounded]), ends in a
      described way ([run_ends_described]), never gives two transcript entries one
      id ([run_entry_ids_unique]), and a run resumed from a checkpoint continues
      the counters and ids of the first ([resumed_run_continues]).
    - Model turns: a turn shows its callback exactly one terminal event however
      the client behaves ([turn_one_terminal]); a streamed response is the one its
      chunks describe ([streamed_response_reassembled]); what was streamed is what
      is returned ([streamed_text_is_final]), but for the cases of
      [reasoning_splits_plan] and [usage_ends_call_early].
    - The outbox: rows move along their life cycle under every interleaving of
      workers ([outbox_refines_lifecycle], [outbox_invariant]);
      [stale_version_wins] and [completion_conflict_repeats] show what the leases
      do not prevent.
    - Turns: under every interleaving of [Calm] conditions, the statuses of a turn and
      of its run belong together and attempts stay within their limit
      ([turn_and_run_agree]); run statuses refine the status machine and terminal ones
      are final ([run_statuses_refine]); a worker without the lease cannot disturb its
      holder ([lease_fences]).  Under [Rough] conditions each of these is lost, with a
      run to a bad state for each reason ([late_failure_mixes_statuses],
      [resume_error_overwrites_retry], [subagent_overwrites_cancelled]); also under
      [Calm] ones, [recovery_stops_at_queued_run], [unread_run_is_orphaned] and
      [resume_of_exhausted_turn_stalls] show turns that nothing takes up again.  A run is
      queued again only while its newest reading of the steps shows no tool step
      ([requeue_after_clear_steps]); a cancellation cancels the run with its active
      descendants and their open turns, and nothing else ([cancel_cascades]); requests
      are idempotent up to the collation of their keys ([start_turn_idempotent], but see
      [user_message_never_indexed]); claims, decisions and continuations
      ([ClaimNext_spec], [approval_decided_once], [continuation_single_shot]).
    - Memory: a write happens once whatever is repeated, fails or crashes
      ([memory_writes_exactly_once]); completed extraction jobs leave no message of
      their conversation out ([durable_windows_cover]); a window is completed only after
      every accepted candidate of it was enqueued with its own content
      ([window_completed_after_writes], [extracted_positions_have_jobs]); a resumed
      extraction asks only for what is missing ([resume_asks_only_missing]); replies are parsed
      strictly ([candidates_parsed_strictly]); evidence is rendered as specified and
      chunked without loss ([render_is_declarative], [chunks_cover_units],
      [slices_reassemble]); no assigned secret is left in a redacted text, and nothing
      else is changed ([assigned_secrets_redacted]); a read answers with exactly the
      visible rows of the best hits ([keyword_read_in_scope], [resolved_scope_valid]); the projection takes what is warm or protected and is
      not repeated ([projection_selects], [project_idempotent]).  Where it ends:
      [moved_window_drops_candidate], [two_pending_jobs], [json_secret_kept],
      [private_key_kept], [secret_content_not_empty], [single_quotes_never_close],
      [write_drops_metadata], [failed_summary_never_retried],
      [newest_sources_cut_off].
    - Documents: with one worker on it and a clock past the document's generations, a
      document changes over to a new generation at once, whatever fails
      ([generation_switched_at_once]); chunks cover the text, within their budget and
      without loss ([fixed_chunks_cover], [recursive_chunks_complete]), and so do the
      blocks of a text file ([text_blocks_complete]).  Two workers, or a user, can still
      get in each other's way ([cleanup_removes_new_generation],
      [ingestion_restores_deleted], [ingestion_enables_again]); see also
      [uploads_hidden_by_generations], [question_hides_document],
      [overlap_becomes_chunk], [empty_fields_dropped].
    - Accounts: an API token is admitted where its scopes allow and nowhere else, until
      it expires or is revoked ([api_token_admitted_iff]); a refresh token is good for one use
      ([refresh_token_spent]) and carries its session on ([refresh_same_user]); a login
      needs the password of an active account ([login_authenticates]); access tokens say
      who their user is until they expire ([access_token_roundtrip], [Verify_sound]).
      One use after the other, that is: [refreshed_twice], [login_code_exchanged_twice];
      see also [disabled_account_refreshes], [second_user_without_email],
      [registration_half_done], [client_errors_are_internal].
    - Tool safety: from the model's raw call to its execution.  Arguments conform
      to the schema ([validate_iff_conforms], [normalize_batch_safe]); the hooks
      allow exactly what the policy and the rules say ([pre_hook_allows_iff]), rules only
      restrict it ([rule_bindings_only_restrict]) and mandatory risk rules are
      enforced ([risk_rule_enforced]); a tool runs only if permitted
      ([executed_only_if_permitted]) and within the call limit
      ([tool_calls_bounded]); a human decision is respected
      ([decision_respected]); results are redacted and bounded
      ([output_redacted_and_bounded]).
    - Batches: the plan partitions the calls ([plan_partitions]), every schedule
      of the executor refines the in-order execution ([execute_batch_in_order]),
      and every call gets its tool message ([batch_answers_every_call]).
      [write_executed_twice] and [approved_call_has_no_timeout] record where the
      composition with approvals falls short.
    - Context: what the assembler shows, cuts, drops and reports ([assembled_context],
      [mandatory_rules_whole]), the planner's budget ([rule_plan_within_budget]),
      rule selection and snapshots ([optional_rules_greedy],
      [mandatory_rules_all_loaded], [snapshot_roundtrip], [runtime_rules_total]),
      compaction ([compact_total], [retain_newest_within_budget],
      [truncate_longest_fitting], [chat_entries_roundtrip]) and its use in a run
      ([unreached_limit_leaves_room], [compacted_transcript]).
    - Workspace patches: the contents of a workspace change by the whole patch or not
      at all ([patch_all_or_nothing]), in a shared workspace only over the versions it was
      made for ([shared_patch_checks_versions]); the parser inverts the printer
      ([patch_roundtrip]); the matcher measures a longest common subsequence
      ([similarity_is_lcs]) and edits one region ([fuzzy_edits_one_region]).
      [rollback_widens_permissions] and [overlapping_matches_corrupt] delimit this.
    - Reflection and citations: the signal is chosen by the documented rule
      ([reflection_signal_rule]); stripped text shows no citation
      ([citations_never_visible]).
    - Runs and goals: the status machine ([run_status_machine]), the life of a
      goal against any lawful repository ([goal_lifecycle]), what a run is charged
      ([run_charged_once], [cumulative_reports_charged_once]) and when a goal can
      be created ([create_goal_iff], [create_after_complete_fails]).

    * What is not modelled

    Latencies, logs and metrics; the HTTP, MySQL, Redis, Milvus and queue adapters
    (I/O over third-party clients) but for the goal, outbox, turn, run, approval,
    memory, document and account tables; PDF extraction; retrieval and its query plans;
    the git, sandbox, HTTP and MCP tools; the tickers of the polling loops and the Redis
    locks; the fallback of the extraction for repositories without leases; the
    application services besides turns, goals, memory, ingestion and accounts; the HTTP
    handlers but for those of accounts; the frontend. *)
From stdpp Require Export base gmap list strings sorting fin_maps.
From Stdlib Require Export ZArith Lia.

(** ** Notations of the development *)

Declare Scope go_scope.
Delimit Scope go_scope with go.

(** ** Results: a value or an error, as Go's [(T, error)] pairs *)

Inductive result (E A : Type) : Type :=
| Ok (a : A)
| Err (e : E).
Arguments Ok {E A} a.
Arguments Err {E A} e.

Definition rbind {E A B} (m : result E A) (k : A → result E B) : result E B :=
  match m with
  | Ok a => k a
  | Err e => Err e
  end.

Definition rmap {E A B} (f : A → B) (m : result E A) : result E B :=
  match m with
  | Ok a => Ok (f a)
  | Err e => Err e
  end.

Definition is_Ok {E A} (m : result E A) : Prop := ∃ a, m = Ok a.

Notation "'let!' x := m 'in' k" := (rbind m (λ x, k))
  (at level 10, x pattern, m at level 100, k at level 200) : go_scope.

(** Go strings are byte strings: one [ascii] per byte. *)
Definition zlen {A} (l : list A) : Z := Z.of_nat (length l).
Definition slen (s : string) : Z := Z.of_nat (String.length s).

(** Machine words: Go's [uint64] wraps around, [int64] and [int] are two's
    complement. *)
Definition u64_max : Z := 2 ^ 64 - 1.
Definition u64_wrap (x : Z) : Z := x `mod` 2 ^ 64.

(** ** Tactics *)

(** Case analysis on the scrutinee of a [match] or an [if] in the goal, or in
    a hypothesis. *)
Ltac split_match :=
  match goal with
  | |- context [match ?x with _ => _ end] => destruct x eqn:?
  end.
Ltac split_match_in H :=
  match type of H with
  | context [match ?x with _ => _ end] => destruct x eqn:?
  end.

(** Boolean comparisons of the executable definitions, turned into
    propositions that [lia] understands. *)
Ltac bool_prop :=
  repeat match goal with
  | H : (_ && _)%bool = true |- _ => apply andb_true_iff in H; destruct H
  | H : (_ && _)%bool = false |- _ => apply andb_false_iff in H
  | H : (_ || _)%bool = true |- _ => apply orb_true_iff in H
  | H : (_ || _)%bool = false |- _ => apply orb_false_iff in H; destruct H
  | H : negb _ = true |- _ => apply negb_true_iff in H
  | H : negb _ = false |- _ => apply negb_false_iff in H
  | H : bool_decide _ = true |- _ => apply bool_decide_eq_true in H
  | H : bool_decide _ = false |- _ => apply bool_decide_eq_false in H
  | H : (_ =? _)%Z = true |- _ => apply Z.eqb_eq in H
  | H : (_ =? _)%Z = false |- _ => apply Z.eqb_neq in H
  | H : (_ <? _)%Z = true |- _ => apply Z.ltb_lt in H
  | H : (_ <? _)%Z = false |- _ => apply Z.ltb_ge in H
  | H : (_ <=? _)%Z = true |- _ => apply Z.leb_le in H
  | H : (_ <=? _)%Z = false |- _ => apply Z.leb_gt in H
  | H : (_ =? _)%string = true |- _ => apply String.eqb_eq in H
  | H : (_ =? _)%string = false |- _ => apply String.eqb_neq in H
  end.

(** ** Hint database of the development *)
Create HintDb canvas discriminated.
#[export] Hint Constants Opaque : canvas.
#[export] Hint Variables Opaque : canvas.

(** ** Sums over lists *)

Definition sum_by {A} (f : A → Z) (l : list A) : Z := foldr (λ a acc, f a + acc)%Z 0%Z l.

Lemma sum_by_app {A} (f : A → Z) l k : sum_by f (l ++ k) = (sum_by f l + sum_by f k)%Z.
Proof. induction l as [|a l IH]; simpl; [done|]. rewrite IH. lia. Qed.

Lemma sum_by_perm {A} (f : A → Z) l k : l ≡ₚ k → sum_by f l = sum_by f k.
Proof. induction 1; simpl in *; lia. Qed.

Lemma sum_by_nonneg {A} (f : A → Z) l : (∀ a, a ∈ l → (0 ≤ f a)%Z) → (0 ≤ sum_by f l)%Z.
Proof.
  induction l as [|a l IH]; intros Hf; simpl; [lia|].
  pose proof (Hf a ltac:(left)). specialize (IH (λ x Hx, Hf x ltac:(by right))). lia.
Qed.

(** ** Stable sorting ([sort.SliceStable], and [sort.Slice] up to the order of
    elements that compare equal) *)

Section StableSort.
Context {A : Type} (less : A → A → bool).

Fixpoint insert_stable (x : A) (l : list A) : list A :=
  match l with
  | [] => [x]
  | y :: l' => if less y x then y :: insert_stable x l' else x :: y :: l'
  end.

Definition sort_stable (l : list A) : list A := foldr insert_stable [] l.

Lemma insert_stable_perm x l : insert_stable x l ≡ₚ x :: l.
Proof.
  induction l as [|y l IH]; simpl; [done|].
  destruct (less y x); [|done]. rewrite IH. apply perm_swap.
Qed.

Lemma sort_stable_perm l : sort_stable l ≡ₚ l.
Proof. induction l as [|x l IH]; simpl; [done|]. by rewrite insert_stable_perm, IH. Qed.

Lemma elem_of_sort_stable x l : x ∈ sort_stable l ↔ x ∈ l.
Proof. by rewrite sort_stable_perm. Qed.

Lemma length_sort_stable l : length (sort_stable l) = length l.
Proof. by rewrite sort_stable_perm. Qed.

(** On a list that is already ordered the stable sort is the identity. *)
Lemma sort_stable_id l :
  StronglySorted (λ x y, less y x = false) l → sort_stable l = l.
Proof.
  induction 1 as [|x l Hl IH Hx]; simpl; [done|]. rewrite IH.
  destruct l as [|y l]; simpl; [done|]. inversion Hx as [|?? Hyx _]. by rewrite Hyx.
Qed.

Hypothesis less_asym : ∀ x y, less x y = true → less y x = false.
Hypothesis ge_trans : ∀ x y z, less y x = false → less z y = false → less z x = false.

Lemma insert_stable_sorted x l :
  StronglySorted (λ x y, less y x = false) l →
  StronglySorted (λ x y, less y x = false) (insert_stable x l).
Proof.
  induction 1 as [|y l Hl IH Hy]; simpl; [by repeat constructor|].
  destruct (less y x) eqn:Hyx.
  - constructor; [done|]. rewrite insert_stable_perm. constructor; eauto.
  - constructor; [by constructor|]. constructor; [done|].
    eapply Forall_impl; [exact Hy|]. intros z Hz. by eapply ge_trans.
Qed.

Lemma sort_stable_sorted l : StronglySorted (λ x y, less y x = false) (sort_stable l).
Proof. induction l; simpl; [constructor|]. by apply insert_stable_sorted. Qed.
End StableSort.

(** ** Lists in strictly increasing order of a key *)

Section KeySorted.
Context {A : Type} (key : A → Z).

Definition key_lt (x y : A) : Prop := (key x < key y)%Z.

Lemma key_sorted_snoc l x :
  StronglySorted key_lt l → (∀ y, y ∈ l → (key y < key x)%Z) →
  StronglySorted key_lt (l ++ [x]).
Proof.
  induction 1 as [|y l Hl IH Hy]; intros Hx; simpl; [by repeat constructor|].
  constructor.
  - apply IH. intros z Hz. apply Hx. by right.
  - apply Forall_app. split; [done|]. constructor; [|constructor].
    apply Hx. left.
Qed.

Lemma key_sorted_suffix l k :
  StronglySorted key_lt l → k `suffix_of` l → StronglySorted key_lt k.
Proof.
  intros Hl [p ->]. induction p as [|x p IH]; simpl in *; [done|]. inv Hl. by apply IH.
Qed.

Lemma key_sorted_split p k x y :
  StronglySorted key_lt (p ++ k) → x ∈ p → y ∈ k → (key x < key y)%Z.
Proof.
  induction p as [|z p IH]; intros Hs Hx Hy; [by apply elem_of_nil in Hx|].
  inversion Hs as [|?? Hs' Hz]; subst. apply elem_of_cons in Hx as [->|Hx]; [|by apply IH].
  rewrite Forall_forall in Hz. apply Hz. apply elem_of_app. by right.
Qed.

(** Two strictly increasing lists with the same elements are equal. *)
Lemma key_sorted_unique l k :
  StronglySorted key_lt l → StronglySorted key_lt k → l ≡ₚ k → l = k.
Proof.
  intros Hl. revert k. induction Hl as [|x l Hl IH Hx]; intros k Hk Hp.
  { by apply Permutation_nil_l in Hp. }
  destruct Hk as [|y k Hk Hy]; [by apply Permutation_nil_r in Hp|].
  assert (x = y) as <-.
  { assert (x ∈ y :: k) as Hxk by (rewrite <- Hp; left).
    assert (y ∈ x :: l) as Hyl by (rewrite Hp; left).
    apply elem_of_cons in Hxk as [->|Hxk]; [done|].
    apply elem_of_cons in Hyl as [->|Hyl]; [done|].
    rewrite Forall_forall in Hx, Hy. specialize (Hx _ Hyl). specialize (Hy _ Hxk).
    unfold key_lt in *. lia. }
  f_equal. apply IH; [done|]. by apply Permutation_cons_inv in Hp.
Qed.
End KeySorted.

(** ** Filters and suffixes *)

Lemma filter_all {A} (P : A → Prop) `{!∀ x, Decision (P x)} (l : list A) :
  (∀ x, x ∈ l → P x) → filter P l = l.
Proof.
  induction l as [|x l IH]; intros Hall; [done|].
  rewrite filter_cons_True by (apply Hall; left).
  f_equal. apply IH. intros y Hy. apply Hall. by right.
Qed.

Lemma filter_none {A} (P : A → Prop) `{!∀ x, Decision (P x)} (l : list A) :
  (∀ x, x ∈ l → ¬ P x) → filter P l = [].
Proof.
  induction l as [|x l IH]; intros Hall; [done|].
  rewrite filter_cons_False by (apply Hall; left).
  apply IH. intros y Hy. apply Hall. by right.
Qed.

Lemma suffix_tail {A} (x : A) l k : x :: l `suffix_of` k → l `suffix_of` k.
Proof. intros [p ->]. exists (p ++ [x]). by rewrite <- (assoc_L (++)). Qed.

Lemma suffix_snoc_both {A} (x : A) l k : l `suffix_of` k → l ++ [x] `suffix_of` k ++ [x].
Proof. intros [p ->]. exists p. by rewrite (assoc_L (++)). Qed.

(** A weakly increasing list whose keys are distinct is strictly increasing. *)
Lemma key_sorted_strict {A} (key : A → Z) l :
  StronglySorted (λ x y, (key y <? key x)%Z = false) l → NoDup (key <$> l) →
  StronglySorted (key_lt key) l.
Proof.
  induction 1 as [|x l Hl IH Hx]; intros Hnd; [constructor|].
  rewrite fmap_cons in Hnd. apply NoDup_cons in Hnd as [Hnin Hnd].
  constructor; [by apply IH|]. rewrite Forall_forall in Hx |- *.
  intros y Hy. specialize (Hx _ Hy). apply Z.ltb_ge in Hx.
  assert (key x ≠ key y); [|unfold key_lt; lia].
  intros E. apply Hnin. rewrite E. by apply list_elem_of_fmap_2.
Qed.

Lemma key_sorted_NoDup {A} (key : A → Z) l : StronglySorted (key_lt key) l → NoDup (key <$> l).
Proof.
  induction 1 as [|x l Hl IH Hx]; simpl; constructor; [|done].
  intros Hin. apply list_elem_of_fmap in Hin as (y & Hy & Hin).
  rewrite Forall_forall in Hx. specialize (Hx _ Hin). unfold key_lt in Hx. lia.
Qed.

Lemma StronglySorted_weaken {A} (R S : relation A) l :
  (∀ x y, R x y → S x y) → StronglySorted R l → StronglySorted S l.
Proof.
  intros HRS. induction 1 as [|x l Hl IH Hx]; constructor; [done|].
  eapply Forall_impl; [exact Hx|]. auto.
Qed.

(** ** Updating a list by index *)

Lemma Forall2_update {A B} (P : A → B → Prop) l k i y :
  Forall2 P l k → (∀ x, l !! i = Some x → P x y) → Forall2 P l (<[i := y]> k).
Proof.
  intros Hf. revert i. induction Hf as [|a b l k Hab Hf IH]; intros [|i] Hx; simpl; constructor; auto.
Qed.

Lemma sum_list_with_insert {A} (f : A → nat) l i x y :
  l !! i = Some x → (sum_list_with f (<[i := y]> l) + f x = sum_list_with f l + f y)%nat.
Proof.
  revert i. induction l as [|z l IH]; intros [|i] Hi; simplify_eq/=; [lia|].
  specialize (IH i Hi). lia.
Qed.

Lemma sublist_map {A B} (f : A → B) l k : sublist l k → sublist (f <$> l) (f <$> k).
Proof. induction 1; simpl; by constructor. Qed.
