(* ===== verification/GoStr.v ===== *)
(** Go strings: byte strings with UTF-8 views, and the functions of the
    standard packages strings, unicode/utf8, unicode and strconv that the
    modelled code calls.

    A Go string is a [string] of bytes.  Ranging over it, converting it to
    runes or trimming Unicode space goes through [segments], the decomposition
    into encoded runes that unicode/utf8 computes: a byte that does not start a
    valid encoding is a segment of its own with the rune U+FFFD. *)
From S2P Require Import Prelude.
From Stdlib Require Import Ascii DecimalString DecimalPos DecimalZ.
Open Scope Z_scope.

Definition byte_val (c : ascii) : Z := Z.of_N (N_of_ascii c).
Definition byte_of (z : Z) : ascii := ascii_of_N (Z.to_N (z `mod` 256)).

Definition bytes (s : string) : list ascii := String.list_ascii_of_string s.
Definition of_bytes (l : list ascii) : string := String.string_of_list_ascii l.

(** ** unicode/utf8 *)

Definition RuneError : Z := 65533.

Definition in_range (lo hi x : Z) : bool := (lo <=? x) && (x <=? hi).
Definition is_cont (c : ascii) : bool := in_range 128 191 (byte_val c).

(** The rune at the head of a byte list and its width ([utf8.DecodeRune]). *)
Definition decode_rune (l : list ascii) : Z * nat :=
  match l with
  | [] => (RuneError, O)
  | a :: l1 =>
    let b0 := byte_val a in
    if b0 <? 128 then (b0, 1%nat)
    else match l1 with
    | [] => (RuneError, 1%nat)
    | b :: l2 =>
      let b1 := byte_val b in
      if in_range 194 223 b0 then
        if is_cont b then ((b0 - 192) * 64 + (b1 - 128), 2%nat) else (RuneError, 1%nat)
      else if in_range 224 239 b0 then
        let lo := if b0 =? 224 then 160 else 128 in
        let hi := if b0 =? 237 then 159 else 191 in
        match l2 with
        | c :: _ =>
          if in_range lo hi b1 && is_cont c then
            ((b0 - 224) * 4096 + (b1 - 128) * 64 + (byte_val c - 128), 3%nat)
          else (RuneError, 1%nat)
        | _ => (RuneError, 1%nat)
        end
      else if in_range 240 244 b0 then
        let lo := if b0 =? 240 then 144 else 128 in
        let hi := if b0 =? 244 then 143 else 191 in
        match l2 with
        | c :: d :: _ =>
          if in_range lo hi b1 && is_cont c && is_cont d then
            ((b0 - 240) * 262144 + (b1 - 128) * 4096 + (byte_val c - 128) * 64 + (byte_val d - 128),
             4%nat)
          else (RuneError, 1%nat)
        | _ => (RuneError, 1%nat)
        end
      else (RuneError, 1%nat)
    end
  end.

(** The runes of a byte list, each with the bytes it was decoded from. *)
Fixpoint segments_fuel (fuel : nat) (l : list ascii) : list (Z * list ascii) :=
  match fuel, l with
  | _, [] => []
  | O, _ => []
  | S fuel', _ =>
    let '(r, w) := decode_rune l in
    (r, take w l) :: segments_fuel fuel' (drop w l)
  end.

Definition segments (s : string) : list (Z * list ascii) :=
  segments_fuel (length (bytes s)) (bytes s).

Definition unsegment (l : list (Z * list ascii)) : string := of_bytes (concat (snd <$> l)).

(** [[]rune(s)], [utf8.RuneCountInString]. *)
Definition runes (s : string) : list Z := fst <$> segments s.
Definition rune_count (s : string) : Z := zlen (runes s).

(** [utf8.AppendRune]: surrogates and values out of range become U+FFFD. *)
Definition encode_rune (r : Z) : list ascii :=
  let r := if in_range 0 1114111 r && negb (in_range 55296 57343 r) then r else RuneError in
  if r <? 128 then [byte_of r]
  else if r <? 2048 then [byte_of (192 + r `div` 64); byte_of (128 + r `mod` 64)]
  else if r <? 65536 then
    [byte_of (224 + r `div` 4096); byte_of (128 + (r `div` 64) `mod` 64); byte_of (128 + r `mod` 64)]
  else
    [byte_of (240 + r `div` 262144); byte_of (128 + (r `div` 4096) `mod` 64);
     byte_of (128 + (r `div` 64) `mod` 64); byte_of (128 + r `mod` 64)].

(** [string(runes)]. *)
Definition of_runes (l : list Z) : string := of_bytes (concat (encode_rune <$> l)).

(** ** unicode and strings *)

Definition is_space (r : Z) : bool :=
  in_range 9 13 r || (r =? 32) || (r =? 133) || (r =? 160) || (r =? 5760) ||
  in_range 8192 8202 r || (r =? 8232) || (r =? 8233) || (r =? 8239) || (r =? 8287) || (r =? 12288).

Fixpoint drop_while {A} (p : A → bool) (l : list A) : list A :=
  match l with
  | [] => []
  | x :: l' => if p x then drop_while p l' else l
  end.

Definition trim_by {A} (p : A → bool) (l : list A) : list A :=
  reverse (drop_while p (reverse (drop_while p l))).

Definition TrimSpace (s : string) : string := unsegment (trim_by (λ p, is_space p.1) (segments s)).

(** [strings.TrimRight] with an ASCII cutset. *)
Definition trim_right_bytes (p : ascii → bool) (s : string) : string :=
  of_bytes (reverse (drop_while p (reverse (bytes s)))).

(** [strings.HasPrefix], [strings.Index] and [strings.Contains]. *)
Definition HasPrefix (s p : string) : bool := String.prefix p s.

Fixpoint index_from (i : nat) (p s : string) : option nat :=
  if String.prefix p s then Some i
  else match s with
  | EmptyString => None
  | String _ s' => index_from (S i) p s'
  end.

Definition Index (s p : string) : option nat := index_from 0 p s.
Definition Contains (s p : string) : bool := match Index s p with Some _ => true | None => false end.

(** [s[:n]] and [s[n:]] for [n] within the string. *)
Definition str_take (n : nat) (s : string) : string := of_bytes (take n (bytes s)).
Definition str_drop (n : nat) (s : string) : string := of_bytes (drop n (bytes s)).

Definition TrimPrefix (s p : string) : string :=
  if HasPrefix s p then str_drop (String.length p) s else s.

Definition HasSuffix (s p : string) : bool :=
  (String.length p <=? String.length s)%nat && (str_drop (String.length s - String.length p) s =? p)%string.

Definition TrimSuffix (s p : string) : string :=
  if HasSuffix s p then str_take (String.length s - String.length p) s else s.

(** [strings.IndexByte] and [strings.LastIndexByte]. *)
Fixpoint index_byte (c : ascii) (l : list ascii) : option nat :=
  match l with
  | [] => None
  | x :: l' => if Ascii.eqb x c then Some O else S <$> index_byte c l'
  end.
Definition IndexByte (s : string) (c : ascii) : option nat := index_byte c (bytes s).
Definition LastIndexByte (s : string) (c : ascii) : option nat :=
  match index_byte c (reverse (bytes s)) with
  | Some i => Some (String.length s - S i)%nat
  | None => None
  end.

(** [strings.Split] on a one-byte separator, [strings.Join]. *)
Fixpoint split_bytes (sep : ascii) (l : list ascii) : list (list ascii) :=
  match l with
  | [] => [[]]
  | c :: l' =>
    if Ascii.eqb c sep then [] :: split_bytes sep l'
    else match split_bytes sep l' with
    | w :: ws => (c :: w) :: ws
    | [] => [[c]]
    end
  end.

Definition Split (s : string) (sep : ascii) : list string := of_bytes <$> split_bytes sep (bytes s).
Definition Join (l : list string) (sep : string) : string := String.concat sep l.

(** [strings.Fields]: the maximal runs of non-space runes. *)
Fixpoint fields_of (cur : list (Z * list ascii)) (l : list (Z * list ascii)) : list string :=
  match l with
  | [] => match cur with [] => [] | _ => [unsegment (reverse cur)] end
  | p :: l' =>
    if is_space p.1 then
      match cur with [] => fields_of [] l' | _ => unsegment (reverse cur) :: fields_of [] l' end
    else fields_of (p :: cur) l'
  end.

Definition Fields (s : string) : list string := fields_of [] (segments s).

(** Go's order on strings is the order of their bytes. *)
Fixpoint str_ltb (a b : string) : bool :=
  match a, b with
  | _, EmptyString => false
  | EmptyString, String _ _ => true
  | String x a', String y b' =>
    if byte_val x <? byte_val y then true
    else if byte_val y <? byte_val x then false
    else str_ltb a' b'
  end.

(** [strconv.Itoa] and the [%d] verb: the decimal digits without leading
    zeros, after a minus sign for negative numbers. *)
Definition Itoa (n : Z) : string := NilZero.string_of_int (Z.to_int n).

(** ** Case mapping

    [unicode.ToLower], the folding orbits of [unicode.SimpleFold] and
    [unicode.IsPrint] are tables of the Unicode data base.  The code under src/
    relies on their behaviour on ASCII. *)

Definition ascii_lower (r : Z) : Z := if in_range 65 90 r then r + 32 else r.

Class UnicodeTables := {
  to_lower : Z → Z;
  fold_orbit : Z → Z;
  is_print : Z → bool;
  to_lower_ascii : ∀ r, 0 ≤ r < 128 → to_lower r = ascii_lower r;
  fold_orbit_ascii : ∀ r, 0 ≤ r < 128 → fold_orbit r = fold_orbit (ascii_lower r);
  is_print_ascii : ∀ r, 0 ≤ r < 128 → is_print r = in_range 32 126 r;
  fold_orbit_space : ∀ r r', fold_orbit r = fold_orbit r' → is_space r = is_space r'
}.

Lemma ascii_lower_idem r : ascii_lower (ascii_lower r) = ascii_lower r.
Proof.
  unfold ascii_lower. destruct (in_range 65 90 r) eqn:E; [|by rewrite E].
  unfold in_range in *. bool_prop. by rewrite (proj2 (Z.leb_gt (r + 32) 90)), andb_false_r by lia.
Qed.

Lemma ascii_lower_space r : is_space (ascii_lower r) = is_space r.
Proof.
  unfold ascii_lower. destruct (in_range 65 90 r) eqn:E; [|done]. unfold in_range in E. bool_prop.
  unfold is_space, in_range. assert (∀ x, 65 ≤ x ≤ 122 →
    (9 <=? x) && (x <=? 13) || (x =? 32) || (x =? 133) || (x =? 160) || (x =? 5760) ||
    (8192 <=? x) && (x <=? 8202) || (x =? 8232) || (x =? 8233) || (x =? 8239) || (x =? 8287) || (x =? 12288) = false) as Hx.
  { intros x Hx. repeat (apply orb_false_iff; split); first [apply Z.eqb_neq; lia|apply andb_false_iff; rewrite !Z.leb_gt; lia]. }
  rewrite !Hx by lia. done.
Qed.

Lemma ascii_fold_space r r' : ascii_lower r = ascii_lower r' → is_space r = is_space r'.
Proof. intros E. by rewrite <- (ascii_lower_space r), E, ascii_lower_space. Qed.

(** Tables that map ASCII letters only. *)
Definition AsciiTables : UnicodeTables := {|
  to_lower := ascii_lower;
  fold_orbit := ascii_lower;
  is_print := in_range 32 126;
  to_lower_ascii := λ r _, eq_refl;
  fold_orbit_ascii := λ r _, eq_sym (ascii_lower_idem r);
  is_print_ascii := λ r _, eq_refl;
  fold_orbit_space := ascii_fold_space
|}.

Section Case.
Context `{UnicodeTables}.

Definition ToLower (s : string) : string := of_runes (to_lower <$> runes s).

Definition EqualFold (s t : string) : bool :=
  bool_decide (fold_orbit <$> runes s = fold_orbit <$> runes t).

(** [strconv.Quote], the [%q] verb: one rune and the bytes it was read from. *)
Definition hex_digit (d : Z) : ascii := byte_of (if d <? 10 then d + 48 else d + 87).

Fixpoint hex_digits (n : nat) (r : Z) : list ascii :=
  match n with
  | O => []
  | S n' => hex_digits n' (r / 16) ++ [hex_digit (r `mod` 16)]
  end.

Definition quote_rune (seg : Z * list ascii) : list ascii :=
  let '(r, bs) := seg in
  let backslash := byte_of 92 in
  let escaped (c : Z) := [backslash; byte_of c] in
  if (r =? RuneError) && (length bs =? 1)%nat then
    escaped 120 ++ hex_digits 2 (byte_val (default (byte_of 0) (head bs)))
  else if (r =? 34) || (r =? 92) then escaped r
  else if is_print r then bs
  else if r =? 7 then escaped 97
  else if r =? 8 then escaped 98
  else if r =? 12 then escaped 102
  else if r =? 10 then escaped 110
  else if r =? 13 then escaped 114
  else if r =? 9 then escaped 116
  else if r =? 11 then escaped 118
  else if (r <? 32) || (r =? 127) then escaped 120 ++ hex_digits 2 r
  else if r <? 65536 then escaped 117 ++ hex_digits 4 r
  else escaped 85 ++ hex_digits 8 r.

Definition Quote (s : string) : string :=
  of_bytes ([byte_of 34] ++ concat (quote_rune <$> segments s) ++ [byte_of 34]).

Lemma EqualFold_refl s : EqualFold s s = true.
Proof. by apply bool_decide_eq_true. Qed.

Lemma EqualFold_sym s t : EqualFold s t = EqualFold t s.
Proof. unfold EqualFold. apply bool_decide_ext. split; congruence. Qed.

Lemma EqualFold_trans s t u : EqualFold s t = true → EqualFold t u = true → EqualFold s u = true.
Proof. unfold EqualFold. rewrite !bool_decide_eq_true. congruence. Qed.
End Case.

(** ** UTF-8 facts *)

Lemma byte_val_of z : byte_val (byte_of z) = z `mod` 256.
Proof.
  unfold byte_val, byte_of. pose proof (Z.mod_pos_bound z 256 ltac:(lia)).
  rewrite N_ascii_embedding by lia. by rewrite Z2N.id by lia.
Qed.

Lemma byte_val_of_small z : 0 ≤ z < 256 → byte_val (byte_of z) = z.
Proof. intros Hz. by rewrite byte_val_of, Z.mod_small. Qed.

Lemma decode_width a l : (1 ≤ (decode_rune (a :: l)).2 ≤ length (a :: l))%nat.
Proof. unfold decode_rune. repeat case_match; simpl; simplify_eq; lia. Qed.

Lemma bytes_of_bytes l : bytes (of_bytes l) = l.
Proof. apply String.list_ascii_of_string_of_list_ascii. Qed.

Lemma of_bytes_bytes s : of_bytes (bytes s) = s.
Proof. apply String.string_of_list_ascii_of_string. Qed.

Lemma length_bytes s : length (bytes s) = String.length s.
Proof. induction s; simpl; auto. Qed.

Lemma segments_fuel_concat n l : (length l ≤ n)%nat → concat (snd <$> segments_fuel n l) = l.
Proof.
  revert l. induction n as [|n IH]; intros [|a l] Hn; simpl in Hn; [done|lia|done|].
  cbn [segments_fuel]. pose proof (decode_width a l) as Hw.
  destruct (decode_rune (a :: l)) as [r w] eqn:Hd. cbn [snd] in Hw. rewrite fmap_cons.
  cbn [concat]. simpl snd. rewrite IH; [apply take_drop|]. rewrite length_drop. simpl. lia.
Qed.

(** The decomposition loses nothing. *)
Lemma unsegment_segments s : unsegment (segments s) = s.
Proof. unfold unsegment, segments. rewrite segments_fuel_concat by lia. apply of_bytes_bytes. Qed.

(** More fuel than bytes does not change the decomposition. *)
Lemma segments_fuel_more n m l : (length l ≤ n)%nat → (length l ≤ m)%nat → segments_fuel n l = segments_fuel m l.
Proof.
  revert m l. induction n as [|n IH]; intros [|m] [|a l] Hn Hm; simpl in Hn, Hm; try done; try lia.
  cbn [segments_fuel]. pose proof (decode_width a l) as Hw.
  destruct (decode_rune (a :: l)) as [r w]. f_equal. cbn [snd] in Hw.
  apply IH; rewrite length_drop; simpl; lia.
Qed.

(** Unicode scalar values. *)
Definition scalar (r : Z) : bool := in_range 0 1114111 r && negb (in_range 55296 57343 r).

Lemma decode_encode r l :
  scalar r = true → decode_rune (encode_rune r ++ l) = (r, length (encode_rune r)).
Proof.
  intros Hs. unfold encode_rune. fold (scalar r). rewrite Hs.
  unfold scalar, in_range in Hs. bool_prop.
  pose proof (Z.div_mod r 64 ltac:(lia)). pose proof (Z.mod_pos_bound r 64 ltac:(lia)).
  assert (r `div` 4096 = (r `div` 64) `div` 64) as E2 by (rewrite Z.div_div; [done|lia|lia]).
  assert (r `div` 262144 = (r `div` 4096) `div` 64) as E3 by (rewrite Z.div_div; [done|lia|lia]).
  pose proof (Z.div_mod (r `div` 64) 64 ltac:(lia)). pose proof (Z.mod_pos_bound (r `div` 64) 64 ltac:(lia)).
  pose proof (Z.div_mod (r `div` 4096) 64 ltac:(lia)). pose proof (Z.mod_pos_bound (r `div` 4096) 64 ltac:(lia)).
  rewrite <- E2 in *. rewrite <- E3 in *.
  destruct (r <? 128) eqn:R1; [|destruct (r <? 2048) eqn:R2; [|destruct (r <? 65536) eqn:R3]]; bool_prop.
  - cbn. by rewrite byte_val_of_small, (proj2 (Z.ltb_lt r 128)) by lia.
  - cbn -[Z.mul Z.add Z.sub]. unfold is_cont, in_range. rewrite !byte_val_of_small by lia.
    rewrite (proj2 (Z.ltb_ge _ _)) by lia.
    rewrite !(proj2 (Z.leb_le _ _)) by lia. cbn [andb]. f_equal. lia.
  - cbn -[Z.mul Z.add Z.sub]. unfold is_cont, in_range. rewrite !byte_val_of_small by lia.
    rewrite (proj2 (Z.ltb_ge _ _)), (proj2 (Z.leb_gt _ 223)), andb_false_r by lia.
    rewrite (proj2 (Z.leb_le 224 _)), (proj2 (Z.leb_le _ 239)) by lia. cbn [andb].
    assert (((if 224 + r `div` 4096 =? 224 then 160 else 128) <=? 128 + (r `div` 64) `mod` 64) = true) as ->.
    { case_match; bool_prop; apply Z.leb_le; lia. }
    assert ((128 + (r `div` 64) `mod` 64 <=? (if 224 + r `div` 4096 =? 237 then 159 else 191)) = true) as ->.
    { case_match; bool_prop; apply Z.leb_le; lia. }
    rewrite !(proj2 (Z.leb_le _ _)) by lia. cbn [andb]. f_equal. lia.
  - cbn -[Z.mul Z.add Z.sub]. unfold is_cont, in_range. rewrite !byte_val_of_small by lia.
    rewrite (proj2 (Z.ltb_ge _ _)), (proj2 (Z.leb_gt _ 223)), andb_false_r by lia.
    rewrite (proj2 (Z.leb_gt _ 239)), andb_false_r by lia.
    rewrite (proj2 (Z.leb_le 240 _)), (proj2 (Z.leb_le _ 244)) by lia. cbn [andb].
    assert (((if 240 + r `div` 262144 =? 240 then 144 else 128) <=? 128 + (r `div` 4096) `mod` 64) = true) as ->.
    { case_match; bool_prop; apply Z.leb_le; lia. }
    assert ((128 + (r `div` 4096) `mod` 64 <=? (if 240 + r `div` 262144 =? 244 then 143 else 191)) = true) as ->.
    { case_match; bool_prop; apply Z.leb_le; lia. }
    rewrite !(proj2 (Z.leb_le _ _)) by lia. cbn [andb]. f_equal. lia.
Qed.

Lemma encode_rune_nonempty r : encode_rune r ≠ [].
Proof. unfold encode_rune. repeat case_match; done. Qed.

Lemma segments_encode n l :
  Forall (λ r, scalar r = true) l → (length (concat (encode_rune <$> l)) ≤ n)%nat →
  segments_fuel n (concat (encode_rune <$> l)) = (λ r, (r, encode_rune r)) <$> l.
Proof.
  intros Hl. revert n. induction Hl as [|r l Hr Hl IH]; intros n Hn; [by destruct n|].
  rewrite fmap_cons in *. cbn [concat] in *. rewrite length_app in Hn.
  pose proof (decode_encode r (concat (encode_rune <$> l)) Hr) as Hd.
  destruct (encode_rune r) as [|a e] eqn:He; [by apply encode_rune_nonempty in He|].
  destruct n as [|n]; [simpl in Hn; lia|]. cbn [segments_fuel app]. cbn [app] in Hd. rewrite Hd.
  change (a :: e ++ concat (encode_rune <$> l)) with ((a :: e) ++ concat (encode_rune <$> l)).
  rewrite take_app_length, drop_app_length, fmap_cons, He, IH; [done|]. simpl in Hn. lia.
Qed.

(** Converting scalar values to a string and back is the identity. *)
Lemma runes_of_runes l : Forall (λ r, scalar r = true) l → runes (of_runes l) = l.
Proof.
  intros Hl. unfold runes, segments, of_runes. rewrite bytes_of_bytes, segments_encode by done.
  rewrite <- list_fmap_compose. rewrite (list_fmap_ext _ id); [by rewrite list_fmap_id|done].
Qed.

Lemma byte_val_bound c : 0 ≤ byte_val c < 256.
Proof. unfold byte_val. pose proof (N_ascii_bounded c). lia. Qed.

Lemma scalar_intro r : 0 ≤ r ≤ 1114111 → (r < 55296 ∨ 57343 < r) → scalar r = true.
Proof.
  intros H1 H2. unfold scalar, in_range.
  rewrite !andb_true_iff, negb_true_iff, andb_false_iff, !Z.leb_le, !Z.leb_gt. lia.
Qed.

(** Decoding always yields scalar values. *)
Lemma decode_scalar l : scalar (decode_rune l).1 = true.
Proof.
  unfold decode_rune, is_cont, in_range. pose proof byte_val_bound as Hb.
  repeat (case_match; bool_prop; try done); simplify_eq/=; apply scalar_intro;
    repeat match goal with c : ascii |- _ => pose proof (Hb c); generalize dependent c end; intros; lia.
Qed.

Lemma runes_scalar s : Forall (λ r, scalar r = true) (runes s).
Proof.
  unfold runes, segments. generalize (length (bytes s)) as n. generalize (bytes s) as l.
  intros l n. revert l. induction n as [|n IH]; intros [|a l]; try by constructor.
  cbn [segments_fuel].
  pose proof (decode_scalar (a :: l)) as Hd. destruct (decode_rune (a :: l)) as [r w].
  rewrite fmap_cons. constructor; [done|]. apply IH.
Qed.

(** Truncating to the first [n] runes. *)
Lemma runes_take n s : runes (of_runes (take n (runes s))) = take n (runes s).
Proof. apply runes_of_runes, Forall_take, runes_scalar. Qed.

(** ** Decimal numbers *)

Lemma Itoa_inj n m : Itoa n = Itoa m → n = m.
Proof.
  unfold Itoa. intros E.
  assert (∀ z, NilZero.int_of_string (NilZero.string_of_int (Z.to_int z)) = Some (Z.to_int z)) as Hr.
  { intros z. apply NilZero.isi; destruct z as [|p|p]; simpl; try done;
      intros [= Hn]; by apply (DecimalPos.Unsigned.to_uint_nonnil p). }
  pose proof (Hr n) as Hn. rewrite E, Hr in Hn. simplify_eq.
  apply (f_equal Z.of_int) in Hn. by rewrite !DecimalZ.of_to in Hn.
Qed.

(** ** Digits and separators *)

Lemma bytes_app s t : bytes (s ++ t)%string = bytes s ++ bytes t.
Proof. unfold bytes. induction s as [|c s IH]; simpl; [done|]. by rewrite IH. Qed.
Lemma slen_app s t : slen (s ++ t)%string = slen s + slen t.
Proof. unfold slen. rewrite <- !length_bytes, bytes_app, length_app. lia. Qed.
Lemma slen_nonneg s : 0 ≤ slen s.
Proof. unfold slen. lia. Qed.

Lemma bytes_inj s t : bytes s = bytes t → s = t.
Proof. intros E. by rewrite <- (of_bytes_bytes s), E, of_bytes_bytes. Qed.

Lemma app_sep_inj {A} (x : A) l l' d d' :
  l ++ x :: d = l' ++ x :: d' → x ∉ d → x ∉ d' → l = l' ∧ d = d'.
Proof.
  revert l'. induction l as [|a l IH]; intros [|a' l'] E Hd Hd'; simpl in E.
  - by injection E as ->.
  - injection E as <- ->. destruct Hd. apply elem_of_app. right. left.
  - injection E as -> <-. destruct Hd'. apply elem_of_app. right. left.
  - injection E as -> E. destruct (IH l' E Hd Hd') as [-> ->]. done.
Qed.

Lemma uint_digits d c : c ∈ bytes (NilEmpty.string_of_uint d) → 48 ≤ byte_val c ≤ 57.
Proof.
  induction d; cbn [NilEmpty.string_of_uint bytes String.list_ascii_of_string];
    [by rewrite elem_of_nil|rewrite elem_of_cons; intros [-> |Hin]; [vm_compute; split; discriminate|by apply IHd]..].
Qed.

Lemma Itoa_digits n c : 0 ≤ n → c ∈ bytes (Itoa n) → 48 ≤ byte_val c ≤ 57.
Proof.
  intros Hn. unfold Itoa. destruct n as [|p|p]; [| |lia]; cbn [Z.to_int NilZero.string_of_int].
  - intros Hc. apply (uint_digits (Decimal.D0 Decimal.Nil) c). exact Hc.
  - unfold NilZero.string_of_uint. destruct (Pos.to_uint p); try apply uint_digits.
    intros Hc. apply (uint_digits (Decimal.D0 Decimal.Nil) c). exact Hc.
Qed.

(** A number after an underscore can be told from the text before it. *)
Lemma underscore_inj s s' n m :
  0 ≤ n → 0 ≤ m → (s ++ "_" ++ Itoa n)%string = (s' ++ "_" ++ Itoa m)%string → s = s' ∧ n = m.
Proof.
  intros Hn Hm E%(f_equal bytes). rewrite !bytes_app in E. simpl in E.
  assert (∀ k, 0 ≤ k → byte_of 95 ∉ bytes (Itoa k)) as Hno.
  { intros k Hk Hin%Itoa_digits; [|done]. vm_compute in Hin. naive_solver. }
  change (Ascii.Ascii true true true true true false true false) with (byte_of 95) in E.
  destruct (app_sep_inj _ _ _ _ _ E (Hno n Hn) (Hno m Hm)) as [Hs Hd].
  split; [by apply bytes_inj|]. by apply Itoa_inj, bytes_inj.
Qed.

(** ** Trimming twice *)

Lemma decode_prefix l k :
  l ≠ [] → ((decode_rune (l ++ k)).2 ≤ length l)%nat → decode_rune l = decode_rune (l ++ k).
Proof.
  intros Hl. destruct l as [|a [|b [|c [|d l]]]]; [done| | | |]; simpl; unfold decode_rune;
    repeat case_match; simplify_eq/=; try done; try lia.
Qed.

(** The decoding of a byte list as a relation. *)
Inductive decoded : list ascii → list (Z * list ascii) → Prop :=
| decoded_nil : decoded [] []
| decoded_cons r bs rest segs :
    bs ≠ [] → decode_rune (bs ++ rest) = (r, length bs) → decoded rest segs →
    decoded (bs ++ rest) ((r, bs) :: segs).

Lemma segments_decoded n l : (length l ≤ n)%nat → decoded l (segments_fuel n l).
Proof.
  revert l. induction n as [|n IH]; intros [|a l] Hn; simpl in Hn; [constructor|lia|constructor|].
  cbn [segments_fuel]. pose proof (decode_width a l) as Hw.
  destruct (decode_rune (a :: l)) as [r w] eqn:Hd. simpl in Hw.
  rewrite <- (take_drop w (a :: l)) at 1. constructor.
  - destruct w; [lia|done].
  - rewrite take_drop, Hd, length_take. f_equal. simpl. lia.
  - apply IH. rewrite length_drop. simpl. lia.
Qed.

Lemma decoded_det l segs n : decoded l segs → (length l ≤ n)%nat → segments_fuel n l = segs.
Proof.
  intros Hd. revert n. induction Hd as [|r bs rest segs Hne Hdec Hd IH]; intros n Hn; [by destruct n|].
  rewrite length_app in Hn. destruct bs as [|a bs]; [done|]. destruct n as [|n]; [simpl in Hn; lia|].
  change ((a :: bs) ++ rest) with (a :: (bs ++ rest)) in *. cbn [segments_fuel]. rewrite Hdec.
  change (a :: (bs ++ rest)) with ((a :: bs) ++ rest). rewrite take_app_length, drop_app_length.
  f_equal. apply IH. simpl in Hn. lia.
Qed.

Lemma decoded_bytes l segs : decoded l segs → l = concat (snd <$> segs).
Proof. induction 1 as [|r bs rest segs Hne Hdec Hd IH]; [done|]. rewrite fmap_cons. simpl. by rewrite <- IH. Qed.

Lemma decoded_suffix l pre segs : decoded l (pre ++ segs) → decoded (concat (snd <$> segs)) segs.
Proof.
  revert l. induction pre as [|p pre IH]; intros l Hd; simpl in Hd.
  - by rewrite <- (decoded_bytes _ _ Hd).
  - inv Hd. by eapply IH.
Qed.

Lemma decoded_prefix l segs post : decoded l (segs ++ post) → decoded (concat (snd <$> segs)) segs.
Proof.
  revert l. induction segs as [|[r bs] segs IH]; intros l Hd; simpl in Hd; [constructor|].
  inversion Hd as [|? ? rest ? Hne Hdec Hrest]; subst. rewrite fmap_cons. simpl. constructor; [done| |by eapply IH].
  pose proof (decoded_bytes _ _ Hrest) as ->. rewrite fmap_app, concat_app, app_assoc in Hdec.
  rewrite (decode_prefix _ (concat (snd <$> post))); [done|by destruct bs|].
  rewrite Hdec. simpl. rewrite length_app. lia.
Qed.

Lemma segments_infix s pre mid post : segments s = pre ++ mid ++ post → segments (unsegment mid) = mid.
Proof.
  intros E. assert (decoded (bytes s) (pre ++ mid ++ post)) as Hd.
  { rewrite <- E. by apply segments_decoded. }
  apply decoded_suffix, decoded_prefix in Hd. unfold segments, unsegment. rewrite bytes_of_bytes.
  by apply decoded_det.
Qed.

Lemma drop_while_suffix {A} (p : A → bool) l : ∃ pre, l = pre ++ drop_while p l.
Proof.
  induction l as [|a l [pre IH]]; simpl; [by exists []|]. destruct (p a); [|by exists []].
  exists (a :: pre). simpl. by rewrite <- IH.
Qed.

Lemma drop_while_head {A} (p : A → bool) l a l' : drop_while p l = a :: l' → p a = false.
Proof. induction l as [|b l IH]; simpl; [done|]. destruct (p b) eqn:E; [done|]. by intros [= -> ->]. Qed.

Lemma trim_by_infix {A} (p : A → bool) l : ∃ pre post, l = pre ++ trim_by p l ++ post.
Proof.
  unfold trim_by. destruct (drop_while_suffix p l) as [pre Hpre].
  destruct (drop_while_suffix p (reverse (drop_while p l))) as [post Hpost].
  exists pre, (reverse post). rewrite <- reverse_app, <- Hpost, reverse_involutive. done.
Qed.

Lemma drop_while_id {A} (p : A → bool) l : (∀ a, head l = Some a → p a = false) → drop_while p l = l.
Proof. destruct l as [|a l]; simpl; [done|]. intros Hp. by rewrite (Hp a eq_refl). Qed.

Lemma trim_by_ends {A} (p : A → bool) l a :
  head (trim_by p l) = Some a ∨ last (trim_by p l) = Some a → p a = false.
Proof.
  unfold trim_by. set (d := drop_while p l). intros [Hh|Hl].
  - destruct (drop_while_suffix p (reverse d)) as [pre Hpre]. apply (f_equal reverse) in Hpre.
    rewrite reverse_involutive, reverse_app in Hpre.
    destruct (reverse (drop_while p (reverse d))) as [|b m]; simplify_eq/=. by eapply drop_while_head.
  - rewrite last_reverse in Hl. destruct (drop_while p (reverse d)) as [|b m] eqn:E; simplify_eq/=.
    by eapply drop_while_head.
Qed.

Lemma trim_by_idem {A} (p : A → bool) l : trim_by p (trim_by p l) = trim_by p l.
Proof.
  unfold trim_by at 1. rewrite (drop_while_id p (trim_by p l)) by (intros a Ha; apply (trim_by_ends p l); by left).
  rewrite drop_while_id; [apply reverse_involutive|]. intros a Ha. apply (trim_by_ends p l). right.
  by rewrite <- head_reverse.
Qed.

Lemma TrimSpace_idem s : TrimSpace (TrimSpace s) = TrimSpace s.
Proof.
  unfold TrimSpace at 1. unfold TrimSpace at 1. destruct (trim_by_infix (λ p, is_space p.1) (segments s)) as (pre & post & E).
  rewrite (segments_infix _ _ _ _ E), trim_by_idem. done.
Qed.

(** ** The order on strings *)

Lemma byte_val_inj c d : byte_val c = byte_val d → c = d.
Proof.
  unfold byte_val. intros E. apply N2Z.inj in E. by rewrite <- (ascii_N_embedding c), E, ascii_N_embedding.
Qed.

Lemma str_ltb_irrefl s : str_ltb s s = false.
Proof. induction s as [|c s IH]; simpl; [done|]. by rewrite Z.ltb_irrefl. Qed.

Lemma str_ltb_total s t : str_ltb s t = false → str_ltb t s = false → s = t.
Proof.
  revert t. induction s as [|c s IH]; intros [|d t]; simpl; try done.
  destruct (Z.ltb_spec (byte_val c) (byte_val d)); [done|].
  destruct (Z.ltb_spec (byte_val d) (byte_val c)); [done|].
  intros H1 H2. rewrite (byte_val_inj c d) by lia. f_equal. by apply IH.
Qed.

Lemma str_ltb_trans s t u : str_ltb s t = true → str_ltb t u = true → str_ltb s u = true.
Proof.
  revert t u. induction s as [|c s IH]; intros [|d t] [|e u]; simpl; try done.
  destruct (Z.ltb_spec (byte_val c) (byte_val d)), (Z.ltb_spec (byte_val d) (byte_val c)),
    (Z.ltb_spec (byte_val d) (byte_val e)), (Z.ltb_spec (byte_val e) (byte_val d)),
    (Z.ltb_spec (byte_val c) (byte_val e)), (Z.ltb_spec (byte_val e) (byte_val c));
    try done; try lia. apply IH.
Qed.

Lemma str_ltb_asym s t : str_ltb s t = true → str_ltb t s = false.
Proof.
  intros Hst. destruct (str_ltb t s) eqn:Hts; [|done].
  pose proof (str_ltb_trans _ _ _ Hst Hts) as Hss. by rewrite str_ltb_irrefl in Hss.
Qed.

Lemma str_geb_trans s t u : str_ltb t s = false → str_ltb u t = false → str_ltb u s = false.
Proof.
  intros H1 H2. destruct (str_ltb u s) eqn:Hus; [|done].
  destruct (str_ltb s t) eqn:Hst.
  - by rewrite (str_ltb_trans _ _ _ Hus Hst) in H2.
  - by rewrite (str_ltb_total _ _ H1 Hst), Hus in H2.
Qed.

(** ** Trimmed strings *)

Lemma segments_TrimSpace s : segments (TrimSpace s) = trim_by (λ p, is_space p.1) (segments s).
Proof.
  destruct (trim_by_infix (λ p, is_space p.1) (segments s)) as (pre & post & E).
  by apply (segments_infix s pre _ post).
Qed.

Lemma trim_by_id {A} (p : A → bool) l :
  (∀ a, head l = Some a ∨ last l = Some a → p a = false) → trim_by p l = l.
Proof.
  intros Hp. unfold trim_by. rewrite (drop_while_id p l) by (intros a Ha; apply Hp; by left).
  rewrite drop_while_id; [apply reverse_involutive|]. intros a Ha. apply Hp. right. by rewrite <- head_reverse.
Qed.

Lemma TrimSpace_id_iff s :
  TrimSpace s = s ↔ ∀ r, head (runes s) = Some r ∨ last (runes s) = Some r → is_space r = false.
Proof.
  unfold runes. rewrite fmap_last. split.
  - intros E r Hr. apply (f_equal segments) in E. rewrite segments_TrimSpace in E.
    assert (∃ x, r = x.1 ∧ (head (segments s) = Some x ∨ last (segments s) = Some x)) as (x & -> & Hx).
    { destruct Hr as [Hr|Hr].
      - destruct (segments s) as [|x l]; simplify_eq/=. exists x. split; [done|by left].
      - destruct (last (segments s)) as [x|]; simplify_eq/=. exists x. split; [done|by right]. }
    rewrite <- E in Hx. by apply (trim_by_ends (λ p, is_space p.1) (segments s) x).
  - intros Hr. unfold TrimSpace. rewrite trim_by_id; [apply unsegment_segments|].
    intros x [Hx|Hx]; apply Hr; [left|right].
    + by destruct (segments s) as [|y l]; simplify_eq/=.
    + by rewrite Hx.
Qed.

Lemma EqualFold_trimmed `{UnicodeTables} s t : EqualFold s t = true → TrimSpace t = t → TrimSpace s = s.
Proof.
  unfold EqualFold. rewrite bool_decide_eq_true, !TrimSpace_id_iff. intros E Ht r Hr.
  assert (∃ r', fold_orbit r = fold_orbit r' ∧ (head (runes t) = Some r' ∨ last (runes t) = Some r')) as (r' & Ef & Hr').
  { destruct Hr as [Hr|Hr].
    - apply (f_equal head) in E. destruct (runes s) as [|a l], (runes t) as [|b k]; simplify_eq/=. eauto.
    - apply (f_equal last) in E. rewrite !fmap_last, Hr in E. simpl in E.
      destruct (last (runes t)) as [b|] eqn:Hb; simplify_eq/=. eauto. }
  rewrite (fold_orbit_space _ _ Ef). by apply Ht.
Qed.

(** The string functions compute on literals only by evaluation. *)
#[global] Arguments TrimSpace : simpl never.
#[global] Arguments ToLower : simpl never.
#[global] Arguments EqualFold : simpl never.
#[global] Arguments Quote : simpl never.
#[global] Arguments Itoa : simpl never.
#[global] Arguments Fields : simpl never.
#[global] Arguments Contains : simpl never.
#[global] Arguments HasPrefix : simpl never.
#[global] Arguments runes : simpl never.
#[global] Arguments of_runes : simpl never.

Lemma ToLower_ascii `{UnicodeTables} s :
  forallb (in_range 0 127) (runes s) = true → ToLower s = of_runes (ascii_lower <$> runes s).
Proof.
  intros Hs. unfold ToLower. f_equal. apply list_fmap_ext. intros i r Hr.
  apply list_elem_of_lookup_2, list_elem_of_In in Hr. rewrite forallb_forall in Hs.
  apply to_lower_ascii. specialize (Hs r Hr). unfold in_range in Hs. bool_prop. lia.
Qed.
