(* ===== verification/Json.v ===== *)
(** JSON values as encoding/json decodes them into [any] (objects are
    [map[string]any], arrays [[]any], numbers [float64]) and the JSON-Schema
    subset of internal/runtime/agent/tool_schema_validator.go.

    The decoder itself is a parameter of the definitions that use it. *)
From S2P Require Import Prelude GoStr.
Open Scope Z_scope.

(** A finite float64 in lowest terms: [f_mant * 2 ^ f_exp], with an odd
    mantissa or [0 * 2 ^ 0]. *)
Record float64 := mkFloat { f_mant : Z; f_exp : Z }.

(** An object is a Go map: its fields are kept in the increasing order of their
    keys, each key once, so that equal maps are equal terms. *)
Inductive json :=
| JNull
| JBool (b : bool)
| JNum (n : float64)
| JStr (s : string)
| JArr (items : list json)
| JObj (fields : list (string * json)).

Fixpoint lookup_field (name : string) (fields : list (string * json)) : option json :=
  match fields with
  | [] => None
  | (k, v) :: rest => if (k =? name)%string then Some v else lookup_field name rest
  end.

(** Induction over JSON values, through arrays and objects. *)
Section json_induction.
Context (P : json → Prop).
Context (Hnull : P JNull) (Hbool : ∀ b, P (JBool b)) (Hnum : ∀ n, P (JNum n)) (Hstr : ∀ s, P (JStr s)).
Context (Harr : ∀ l, Forall P l → P (JArr l)).
Context (Hobj : ∀ l, Forall (λ kv, P kv.2) l → P (JObj l)).

Fixpoint json_ind' (v : json) : P v :=
  match v with
  | JNull => Hnull
  | JBool b => Hbool b
  | JNum n => Hnum n
  | JStr s => Hstr s
  | JArr l => Harr l ((fix go l : Forall P l :=
      match l with
      | [] => Forall_nil_2 _
      | x :: l' => Forall_cons_2 _ _ _ (json_ind' x) (go l')
      end) l)
  | JObj l => Hobj l ((fix go l : Forall (λ kv, P kv.2) l :=
      match l with
      | [] => Forall_nil_2 _
      | x :: l' => Forall_cons_2 (λ kv, P kv.2) _ _ (json_ind' x.2) (go l')
      end) l)
  end.
End json_induction.

(** [reflect.DeepEqual] on decoded JSON. *)
Definition float_eqb (a b : float64) : bool := (f_mant a =? f_mant b) && (f_exp a =? f_exp b).

Fixpoint deepEqual (a b : json) {struct a} : bool :=
  match a, b with
  | JNull, JNull => true
  | JBool x, JBool y => Bool.eqb x y
  | JNum x, JNum y => float_eqb x y
  | JStr x, JStr y => (x =? y)%string
  | JArr x, JArr y =>
    (fix go x y := match x, y with
                   | [], [] => true
                   | a :: x', b :: y' => deepEqual a b && go x' y'
                   | _, _ => false
                   end) x y
  | JObj x, JObj y =>
    (fix go x y := match x, y with
                   | [], [] => true
                   | a :: x', b :: y' => (a.1 =? b.1)%string && deepEqual a.2 b.2 && go x' y'
                   | _, _ => false
                   end) x y
  | _, _ => false
  end.

Lemma deepEqual_spec a b : deepEqual a b = true ↔ a = b.
Proof.
  revert b. induction a as [|x|[m e]|s|l IH|l IH] using json_ind'; intros b; destruct b; simpl; try done.
  - rewrite Bool.eqb_true_iff. naive_solver.
  - destruct n as [m' e']. unfold float_eqb; simpl. rewrite andb_true_iff, !Z.eqb_eq. naive_solver.
  - rewrite String.eqb_eq. naive_solver.
  - trans (l = items); [|naive_solver]. revert items.
    induction IH as [|x l Hx Hl IHl]; intros [|y items]; try done.
    rewrite andb_true_iff, Hx, IHl. naive_solver.
  - trans (l = fields); [|naive_solver]. revert fields.
    induction IH as [|[k x] l Hx Hl IHl]; intros [|[k' y] fields]; simpl in *; try done.
    rewrite !andb_true_iff, String.eqb_eq, Hx, IHl. naive_solver.
Qed.

#[export] Instance json_eq_dec : EqDecision json.
Proof.
  intros a b. destruct (deepEqual a b) eqn:He; [left|right].
  - by apply deepEqual_spec.
  - intros Hab%deepEqual_spec. congruence.
Defined.

(** ** Integral numbers *)

(** The integer a float64 denotes, if it denotes one. *)
Definition float_to_Z (f : float64) : option Z :=
  if 0 <=? f_exp f then Some (f_mant f * 2 ^ f_exp f)
  else if f_mant f `mod` 2 ^ (- f_exp f) =? 0 then Some (f_mant f / 2 ^ (- f_exp f)) else None.

(** [number == float64(int64(number))]: integral and in the range of int64 (the
    conversion of any other value differs from it on amd64). *)
Definition int64_of_float (f : float64) : option Z :=
  match float_to_Z f with
  | Some z => if (- 2 ^ 63 <=? z) && (z <? 2 ^ 63) then Some z else None
  | None => None
  end.

(** ** tool_schema_validator.go *)

(** The errors of [validateJSONSchema], by the values their messages show. *)
Inductive schemaError :=
| ErrNotJSON
| ErrUndecodable (err : string)
| ErrBadSchema (err : string)
| ErrEnum (path : string)
| ErrType (path : string)
| ErrMissing (path name : string)
| ErrUnknownField (path name : string)
| ErrFieldSchema (path name : string)
| ErrMinItems (path : string) (min : Z)
| ErrMaxItems (path : string) (max : Z)
| ErrMinLength (path : string) (min : Z)
| ErrMaxLength (path : string) (max : Z).

Section Schema.
Context `{UnicodeTables}.

Definition typeNameMatches (typeName : string) (value : json) : bool :=
  let t := ToLower typeName in
  if (t =? "object")%string then match value with JObj _ => true | _ => false end
  else if (t =? "array")%string then match value with JArr _ => true | _ => false end
  else if (t =? "string")%string then match value with JStr _ => true | _ => false end
  else if (t =? "number")%string then match value with JNum _ => true | _ => false end
  else if (t =? "integer")%string then
    match value with JNum n => match int64_of_float n with Some _ => true | None => false end | _ => false end
  else if (t =? "boolean")%string then match value with JBool _ => true | _ => false end
  else if (t =? "null")%string then match value with JNull => true | _ => false end
  else true.

Fixpoint matchesSchemaType (raw value : json) {struct raw} : bool :=
  match raw with
  | JArr l => existsb (λ item, matchesSchemaType item value) l
  | JStr typeName => typeNameMatches typeName value
  | _ => typeNameMatches "" value
  end.

Definition integerSchemaValue (value : option json) : option Z :=
  match value with
  | Some (JNum n) => if f_mant n <? 0 then None else int64_of_float n
  | _ => None
  end.

Definition checkEnum (schema : list (string * json)) (value : json) (path : string) : option schemaError :=
  match lookup_field "enum" schema with
  | Some (JArr (c :: cs)) => if existsb (λ candidate, deepEqual candidate value) (c :: cs) then None else Some (ErrEnum path)
  | _ => None
  end.

Definition checkType (schema : list (string * json)) (value : json) (path : string) : option schemaError :=
  match lookup_field "type" schema with
  | Some types => if matchesSchemaType types value then None else Some (ErrType path)
  | None => None
  end.

Fixpoint checkRequired (required : list json) (object : list (string * json)) (path : string) : option schemaError :=
  match required with
  | [] => None
  | raw :: rest =>
    let name := match raw with JStr s => s | _ => ""%string end in
    if (name =? "")%string then checkRequired rest object path
    else match lookup_field name object with
         | Some _ => checkRequired rest object path
         | None => Some (ErrMissing path name)
         end
  end.

Definition requiredError (schema object : list (string * json)) (path : string) : option schemaError :=
  match lookup_field "required" schema with
  | Some (JArr required) => checkRequired required object path
  | _ => None
  end.

Definition propertiesOf (schema : list (string * json)) : list (string * json) :=
  match lookup_field "properties" schema with Some (JObj p) => p | _ => [] end.

Definition forbidsAdditional (schema : list (string * json)) : bool :=
  match lookup_field "additionalProperties" schema with Some (JBool false) => true | _ => false end.

Definition checkItemCount (schema : list (string * json)) (array : list json) (path : string) : option schemaError :=
  match integerSchemaValue (lookup_field "minItems" schema) with
  | Some min => if zlen array <? min then Some (ErrMinItems path min) else
    match integerSchemaValue (lookup_field "maxItems" schema) with
    | Some max => if max <? zlen array then Some (ErrMaxItems path max) else None
    | None => None
    end
  | None =>
    match integerSchemaValue (lookup_field "maxItems" schema) with
    | Some max => if max <? zlen array then Some (ErrMaxItems path max) else None
    | None => None
    end
  end.

Definition checkLength (schema : list (string * json)) (text path : string) : option schemaError :=
  match integerSchemaValue (lookup_field "minLength" schema) with
  | Some min => if rune_count text <? min then Some (ErrMinLength path min) else
    match integerSchemaValue (lookup_field "maxLength" schema) with
    | Some max => if max <? rune_count text then Some (ErrMaxLength path max) else None
    | None => None
    end
  | None =>
    match integerSchemaValue (lookup_field "maxLength" schema) with
    | Some max => if max <? rune_count text then Some (ErrMaxLength path max) else None
    | None => None
    end
  end.

Definition orElse (a b : option schemaError) : option schemaError :=
  match a with Some _ => a | None => b end.

(** The loops over the fields of an object and over the items of an array, for
    the validator they call. *)
Section Visit.
Context (validate : list (string * json) → json → string → option schemaError).

Definition checkField (schema : list (string * json)) (path name : string) (child : json) : option schemaError :=
  match lookup_field name (propertiesOf schema) with
  | None => if forbidsAdditional schema then Some (ErrUnknownField path name) else None
  | Some (JObj propertySchema) => validate propertySchema child (path ++ "." ++ name)
  | Some _ => Some (ErrFieldSchema path name)
  end.

(** Fields are visited in key order; Go visits them in some order, which only
    decides which of several errors is reported. *)
Fixpoint visitFields (schema : list (string * json)) (path : string) (fields : list (string * json))
    : option schemaError :=
  match fields with
  | [] => None
  | (name, child) :: rest => orElse (checkField schema path name child) (visitFields schema path rest)
  end.

Fixpoint visitItems (items : list (string * json)) (path : string) (i : Z) (array : list json)
    : option schemaError :=
  match array with
  | [] => None
  | item :: rest =>
    orElse (validate items item (path ++ "[" ++ Itoa i ++ "]")) (visitItems items path (i + 1) rest)
  end.
End Visit.

Fixpoint validateJSONSchema (schema : list (string * json)) (value : json) (path : string) {struct value}
    : option schemaError :=
  orElse (checkEnum schema value path) (orElse (checkType schema value path)
    match value with
    | JObj object =>
      orElse (requiredError schema object path) (visitFields validateJSONSchema schema path object)
    | JArr array =>
      orElse (checkItemCount schema array path)
        match lookup_field "items" schema with
        | Some (JObj items) => visitItems validateJSONSchema items path 0 array
        | _ => None
        end
    | JStr text => checkLength schema text path
    | _ => None
    end).

(** [err.Error()]. *)
Definition schemaErrorText (e : schemaError) : string :=
  match e with
  | ErrNotJSON => "arguments are not valid JSON"
  | ErrUndecodable err => "arguments are not valid JSON: " ++ err
  | ErrBadSchema err => "invalid tool JSON schema: " ++ err
  | ErrEnum path => path ++ " must be one of enum values"
  | ErrType path => path ++ " has an invalid type"
  | ErrMissing path name => path ++ " is missing required field " ++ Quote name
  | ErrUnknownField path name => path ++ " contains unknown field " ++ Quote name
  | ErrFieldSchema path name => path ++ "." ++ name ++ " has invalid schema"
  | ErrMinItems path min => path ++ " must contain at least " ++ Itoa min ++ " items"
  | ErrMaxItems path max => path ++ " must contain at most " ++ Itoa max ++ " items"
  | ErrMinLength path min => path ++ " must contain at least " ++ Itoa min ++ " characters"
  | ErrMaxLength path max => path ++ " must contain at most " ++ Itoa max ++ " characters"
  end%string.

(** encoding/json: [json.Valid], and [json.Unmarshal] into [any] and into
    [map[string]any], with the text of their errors. *)
Context (json_valid : string → bool).
Context (json_decode : string → result string json).
Context (json_decode_map : string → result string (list (string * json))).

Definition ValidateToolArguments (schema args : string) : option schemaError :=
  if negb (json_valid args) then Some ErrNotJSON
  else
    let s := TrimSpace schema in
    if (slen s =? 0) || (s =? "null")%string || (s =? "{}")%string then None
    else match json_decode_map schema with
         | Err err => Some (ErrBadSchema err)
         | Ok schemaValue =>
           match json_decode args with
           | Err err => Some (ErrUndecodable err)
           | Ok value => validateJSONSchema schemaValue value "$"
           end
         end.

(** ** What acceptance means *)

Definition is_object (v : json) : bool := match v with JObj _ => true | _ => false end.

(** The declarative reading of the schema subset. *)
Inductive conforms : list (string * json) → json → Prop :=
| conforms_intro schema value :
    (∀ c cs, lookup_field "enum" schema = Some (JArr (c :: cs)) → value ∈ c :: cs) →
    (∀ types, lookup_field "type" schema = Some types → matchesSchemaType types value = true) →
    (∀ object required, value = JObj object → lookup_field "required" schema = Some (JArr required) →
       ∀ name, JStr name ∈ required → name ≠ ""%string → is_Some (lookup_field name object)) →
    (∀ object name child, value = JObj object → (name, child) ∈ object →
       lookup_field name (propertiesOf schema) = None → forbidsAdditional schema = false) →
    (∀ object name child p, value = JObj object → (name, child) ∈ object →
       lookup_field name (propertiesOf schema) = Some p → is_object p = true) →
    (∀ object name child sub, value = JObj object → (name, child) ∈ object →
       lookup_field name (propertiesOf schema) = Some (JObj sub) → conforms sub child) →
    (∀ array min, value = JArr array → integerSchemaValue (lookup_field "minItems" schema) = Some min →
       min ≤ zlen array) →
    (∀ array max, value = JArr array → integerSchemaValue (lookup_field "maxItems" schema) = Some max →
       zlen array ≤ max) →
    (∀ array sub, value = JArr array → lookup_field "items" schema = Some (JObj sub) →
       ∀ item, item ∈ array → conforms sub item) →
    (∀ text min, value = JStr text → integerSchemaValue (lookup_field "minLength" schema) = Some min →
       min ≤ rune_count text) →
    (∀ text max, value = JStr text → integerSchemaValue (lookup_field "maxLength" schema) = Some max →
       rune_count text ≤ max) →
    conforms schema value.

Lemma orElse_none a b : orElse a b = None ↔ a = None ∧ b = None.
Proof. destruct a; simpl; naive_solver. Qed.

Lemma checkEnum_none schema value path :
  checkEnum schema value path = None ↔
  ∀ c cs, lookup_field "enum" schema = Some (JArr (c :: cs)) → value ∈ c :: cs.
Proof.
  unfold checkEnum. destruct (lookup_field "enum" schema) as [[| | | |[|c cs]|]|]; try naive_solver.
  destruct (existsb _ (c :: cs)) eqn:He.
  - apply existsb_exists in He as (x & Hin%list_elem_of_In & Heq%deepEqual_spec). naive_solver.
  - split; [done|]. intros Hall. specialize (Hall c cs eq_refl).
    rewrite <- not_true_iff_false in He. destruct He. apply existsb_exists.
    exists value. split; [by apply list_elem_of_In|by apply deepEqual_spec].
Qed.

Lemma checkType_none schema value path :
  checkType schema value path = None ↔
  ∀ types, lookup_field "type" schema = Some types → matchesSchemaType types value = true.
Proof.
  unfold checkType. destruct (lookup_field "type" schema) as [t|]; [|by split].
  destruct (matchesSchemaType t value) eqn:Ht; split; try done.
  - by intros _ types [= <-].
  - intros Hall. specialize (Hall t eq_refl). congruence.
Qed.

Lemma requiredError_none schema object path :
  requiredError schema object path = None ↔
  ∀ required, lookup_field "required" schema = Some (JArr required) →
    ∀ name, JStr name ∈ required → name ≠ ""%string → is_Some (lookup_field name object).
Proof.
  unfold requiredError. destruct (lookup_field "required" schema) as [[| | | |required|]|]; try naive_solver.
  trans (∀ name, JStr name ∈ required → name ≠ ""%string → is_Some (lookup_field name object)); [|naive_solver].
  induction required as [|raw rest IH]; simpl.
  { split; [|done]. intros _ name Hin. by apply elem_of_nil in Hin. }
  setoid_rewrite elem_of_cons.
  destruct raw as [| | |s| |]; simpl; try (rewrite IH; naive_solver).
  destruct (String.eqb_spec s "") as [-> |Hne]; [rewrite IH; naive_solver|].
  destruct (lookup_field s object) as [v|] eqn:Hl; [rewrite IH; naive_solver|].
  split; [done|]. intros Hall. destruct (Hall s (or_introl eq_refl) Hne). congruence.
Qed.

(** A lower and an upper bound, each optional, as [checkItemCount] and
    [checkLength] test them. *)
Lemma bounds_none lo hi n (elo ehi : Z → schemaError) :
  match lo with
  | Some min => if n <? min then Some (elo min) else
    match hi with Some max => if max <? n then Some (ehi max) else None | None => None end
  | None => match hi with Some max => if max <? n then Some (ehi max) else None | None => None end
  end = None ↔ (∀ min, lo = Some min → min ≤ n) ∧ (∀ max, hi = Some max → n ≤ max).
Proof.
  destruct lo as [min|], hi as [max|]; repeat case_match; bool_prop;
    (split; [intros ?; simplify_eq; split; intros; simplify_eq; lia
            |intros [Hlo Hhi]; try done;
             try (specialize (Hlo _ eq_refl)); try (specialize (Hhi _ eq_refl)); lia]).
Qed.

(** What the two loops accept, when the validator they call accepts exactly
    the conforming members. *)
Definition field_ok (schema : list (string * json)) (name : string) (child : json) : Prop :=
  match lookup_field name (propertiesOf schema) with
  | None => forbidsAdditional schema = false
  | Some (JObj sub) => conforms sub child
  | Some _ => False
  end.

Definition decides_member (value : json) : Prop :=
  ∀ schema path, validateJSONSchema schema value path = None ↔ conforms schema value.

Lemma visitItems_none sub path i array :
  Forall decides_member array →
  visitItems validateJSONSchema sub path i array = None ↔ ∀ item, item ∈ array → conforms sub item.
Proof.
  intros IH. revert i. induction IH as [|x l Hx Hl IHl]; intros i; simpl.
  - split; [|done]. intros _ item Hin. by apply elem_of_nil in Hin.
  - unfold decides_member in Hx. rewrite orElse_none, Hx, IHl. setoid_rewrite elem_of_cons. naive_solver.
Qed.

Lemma visitFields_none schema path object :
  Forall (λ kv, decides_member kv.2) object →
  visitFields validateJSONSchema schema path object = None ↔
  ∀ name child, (name, child) ∈ object → field_ok schema name child.
Proof.
  intros IH. induction IH as [|[name child] l Hx Hl IHl]; simpl.
  - split; [|done]. intros _ ? ? Hin. by apply elem_of_nil in Hin.
  - rewrite orElse_none, IHl. setoid_rewrite elem_of_cons.
    assert (checkField validateJSONSchema schema path name child = None ↔ field_ok schema name child) as ->.
    { unfold checkField, field_ok.
      destruct (lookup_field name (propertiesOf schema)) as [[| | | | |sub]|]; try done.
      by destruct (forbidsAdditional schema). }
    naive_solver.
Qed.

(** [conforms] from its premises, and its premises at a given value. *)
Ltac by_premises := by (intros; simplify_eq/=; eauto).
Ltac by_parts Hc :=
  inversion Hc as [? ? Ae At Ar Aa Ao As Al Ah Ai Bl Bh]; subst; split_and!; intros; eauto.

(** C38. The schema validator accepts exactly the values that conform: an error
    is reported for every value that does not, at any depth, and for no other. *)
Theorem validate_iff_conforms schema value path :
  validateJSONSchema schema value path = None ↔ conforms schema value.
Proof.
  revert schema path. induction value as [|b|n|text|array IH|object IH] using json_ind'; intros schema path; simpl;
    rewrite !orElse_none, checkEnum_none, checkType_none.
  1-3: split; [intros (He & Ht & _); constructor; by_premises|intros Hc; by_parts Hc].
  - unfold checkLength. rewrite bounds_none.
    split; [intros (He & Ht & Hlo & Hhi); constructor; by_premises|intros Hc; by_parts Hc].
  - unfold checkItemCount. rewrite bounds_none.
    assert (match lookup_field "items" schema with
            | Some (JObj items) => visitItems validateJSONSchema items path 0 array
            | _ => None
            end = None ↔ ∀ sub, lookup_field "items" schema = Some (JObj sub) →
              ∀ item, item ∈ array → conforms sub item) as ->.
    { destruct (lookup_field "items" schema) as [[| | | | |sub]|]; try naive_solver.
      rewrite (visitItems_none sub path 0 array IH). naive_solver. }
    split; [intros (He & Ht & (Hlo & Hhi) & Hi); constructor; by_premises|intros Hc; by_parts Hc].
  - rewrite requiredError_none, (visitFields_none schema path object IH). unfold field_ok. split.
    + intros (He & Ht & Hr & Hv). constructor;
        [exact He|exact Ht|intros ? ? [= <-]; apply Hr| | | |by intros ? ? [=]..];
        [intros ? name child [= <-] Hin Hl|intros ? name child p [= <-] Hin Hl|intros ? name child sub [= <-] Hin Hl];
        specialize (Hv name child Hin); rewrite Hl in Hv; [done|by destruct p|done].
    + intros Hc. inversion Hc as [? ? Ae At Ar Aa Ao As Al Ah Ai Bl Bh]; subst.
      split_and!; [done|done|intros rq Hrq; exact (Ar object rq eq_refl Hrq)|]. intros name child Hin.
      destruct (lookup_field name (propertiesOf schema)) as [p|] eqn:Hl; [|exact (Aa object name child eq_refl Hin Hl)].
      pose proof (Ao object name child p eq_refl Hin Hl) as Hobj. destruct p as [| | | | |sub]; try discriminate Hobj.
      exact (As object name child sub eq_refl Hin Hl).
Qed.

End Schema.
