(* ===== verification/Chat.v ===== *)
(** The conversation vocabulary the runtime components share: the roles and
    content types of internal/domain/conversation/message.go and the request
    messages, tool calls and usage counters of
    internal/infrastructure/llm/chat_client.go. *)
From S2P Require Import Prelude.
Open Scope Z_scope.

Definition RoleUser : string := "user".
Definition RoleAssistant : string := "assistant".
Definition RoleSystem : string := "system".
Definition RoleTool : string := "tool".
Definition RoleDeveloper : string := "developer".

Definition ContentTypeText : string := "text".
Definition ContentTypeFunctionCall : string := "function_call".
Definition ContentTypeFunctionCallOutput : string := "function_call_output".
Definition ContentTypeReasoning : string := "reasoning".
Definition ContentTypeSystemEcho : string := "system_echo".

(** [json.RawMessage]: the bytes of a JSON value, empty for nil. *)
Notation RawMessage := string (only parsing).

Record ToolCall := mkToolCall {
  call_ID : string;
  call_Type : string;
  call_Name : string;
  call_Arguments : RawMessage
}.

Record ChatMessage := mkChatMessage {
  msg_Role : string;
  msg_Content : string;
  msg_ToolCallID : string;
  msg_ToolCalls : list ToolCall
}.

Record Usage := mkUsage {
  PromptTokens : Z;
  CompletionTokens : Z;
  TotalTokens : Z;
  CachedInputTokens : Z;
  ReasoningTokens : Z
}.

Definition zeroUsage : Usage := mkUsage 0 0 0 0 0.

(** The same sum in internal/runtime/compaction/compact.go and
    internal/runtime/agent/runner.go. *)
Definition addUsage (total delta : Usage) : Usage :=
  mkUsage (PromptTokens total + PromptTokens delta)
    (CompletionTokens total + CompletionTokens delta)
    (TotalTokens total + TotalTokens delta)
    (CachedInputTokens total + CachedInputTokens delta)
    (ReasoningTokens total + ReasoningTokens delta).

#[export] Instance ToolCall_eq_dec : EqDecision ToolCall.
Proof. solve_decision. Defined.
#[export] Instance ChatMessage_eq_dec : EqDecision ChatMessage.
Proof. solve_decision. Defined.
