(* ===== verification/EventHub.v ===== *)
(** The in-process event hub of a running agent
    (internal/runtime/eventhub: hub.go, memory_hub.go, legacy.go, and the
    envelope of internal/runtime/event/stream.go).

    The hub keeps, per run, a replay ring of published events, the sequence
    counter, the live subscribers and the terminal/snapshot events.  Every
    operation of the Go code holds the lock of the run it touches, so an
    operation is one step on the state.  Channels are objects shared by the
    hub and the consumer: they live in a store of their own, addressed by an
    identity that [make(chan)] allocates, and a subscriber record holds the
    identity.  Times are nanoseconds since Go's zero [time.Time], so that
    [IsZero] is the test against [0]. *)
From S2P Require Import Prelude.
Open Scope Z_scope.

(** ** The envelope (event/stream.go) *)

Definition RunStreamVersion : Z := 1.
Definition StreamSnapshot : string := "stream.snapshot".
Definition RunComplete : string := "run.complete".
Definition RunFailed : string := "run.failed".
Definition RunPaused : string := "run.paused".
Definition RunWaiting : string := "run.waiting".
Definition RunCancelled : string := "run.cancelled".
Definition LegacyAgentFinished : string := "agent_finished".
Definition LegacyAgentFailed : string := "agent_failed".

Section EventHub.

(** [map[string]any] payloads and encoding/json's view of them: the theorems
    hold for every encoder and decoder. *)
Context (Payload : Type).
Context (json_marshal : Payload → option string).
Context (json_unmarshal_object : string → option Payload).

Record StreamEvent := mkEvent {
  Version : Z;
  RunID : Z;
  ConversationID : option Z;
  Seq : Z;
  Kind : string;
  CreatedAt : Z;
  Data : option string;
  Type_ : string;
  Payload_ : option Payload
}.

Definition set_Seq (q : Z) (e : StreamEvent) : StreamEvent :=
  mkEvent (Version e) (RunID e) (ConversationID e) q (Kind e) (CreatedAt e)
    (Data e) (Type_ e) (Payload_ e).

Definition set_Kind_Type (k t : string) (e : StreamEvent) : StreamEvent :=
  mkEvent (Version e) (RunID e) (ConversationID e) (Seq e) k (CreatedAt e)
    (Data e) t (Payload_ e).

(** ** hub.go *)

Record Config := mkConfig {
  MaxEvents : Z;
  MaxBytes : Z;
  TerminalRetention : Z;
  SubscriberBuffer : Z;
  SnapshotProvider : option (Z → option StreamEvent)
}.

Definition defaultMaxEvents : Z := 1024.
Definition defaultMaxBytes : Z := Z.shiftl 1 20.
Definition defaultTerminalRetention : Z := 5 * 60 * 1000000000.
Definition defaultSubscriberBuffer : Z := 64.

Definition withDefaults (c : Config) : Config :=
  mkConfig
    (if MaxEvents c <=? 0 then defaultMaxEvents else MaxEvents c)
    (if MaxBytes c <=? 0 then defaultMaxBytes else MaxBytes c)
    (if TerminalRetention c <=? 0 then defaultTerminalRetention else TerminalRetention c)
    (if SubscriberBuffer c <=? 0 then defaultSubscriberBuffer else SubscriberBuffer c)
    (SnapshotProvider c).

Definition isTerminalKind (kind : string) : bool :=
  bool_decide (kind ∈ [RunComplete; RunFailed; RunPaused; RunWaiting; RunCancelled;
                       LegacyAgentFinished; LegacyAgentFailed]).

Definition normalizeEvent (event : StreamEvent) (runID now : Z) : StreamEvent :=
  let kind := if (Kind event =? "")%string then Type_ event else Kind event in
  let type := if (Type_ event =? "")%string then kind else Type_ event in
  mkEvent
    (if Version event =? 0 then RunStreamVersion else Version event)
    (if RunID event =? 0 then runID else RunID event)
    (ConversationID event)
    (Seq event)
    kind
    (if CreatedAt event =? 0 then now else CreatedAt event)
    (match Data event, Payload_ event with
     | None, Some p => json_marshal p
     | d, _ => d
     end)
    type
    (Payload_ event).

(** A copy with the same contents: [Data] and [Payload] are reallocated. *)
Definition cloneEvent (event : StreamEvent) : StreamEvent :=
  mkEvent (Version event) (RunID event) (ConversationID event) (Seq event)
    (Kind event) (CreatedAt event) (Data event) (Type_ event) (Payload_ event).

Definition cloneEvents (events : list StreamEvent) : list StreamEvent := cloneEvent <$> events.

Definition data_len (d : option string) : Z := match d with Some s => slen s | None => 0 end.

Definition eventSize (event : StreamEvent) : Z :=
  96 + slen (Kind event) + slen (Type_ event) + data_len (Data event).

(** ** memory_hub.go: state *)

(** A Go channel: its buffer, its capacity and whether it was closed. *)
Record Chan := mkChan {
  ch_buf : list StreamEvent;
  ch_cap : Z;
  ch_closed : bool
}.

Record subscriber := mkSub {
  sub_ch : positive;
  sub_closed : bool
}.

Record runState := mkRun {
  nextSeq : Z;
  lastPublished : Z;
  events : list StreamEvent;
  eventBytes : Z;
  nextSubscriber : Z;
  subscribers : gmap Z subscriber;
  closed : bool;
  closedAt : Z;
  terminal : option StreamEvent;
  snapshot : option StreamEvent
}.

Definition newRunState : runState := mkRun 1 0 [] 0 0 ∅ false 0 None None.

(** The hub and the channel store; [nextChan] is the next channel identity. *)
Record Hub := mkHub {
  runs : gmap Z runState;
  config : Config;
  chans : gmap positive Chan;
  nextChan : positive
}.

Definition NewMemoryHub (cfg : Config) : Hub := mkHub ∅ (withDefaults cfg) ∅ 1%positive.

Definition set_seqs (n l : Z) (s : runState) : runState :=
  mkRun n l (events s) (eventBytes s) (nextSubscriber s) (subscribers s) (closed s)
    (closedAt s) (terminal s) (snapshot s).
Definition set_ring (evs : list StreamEvent) (b : Z) (s : runState) : runState :=
  mkRun (nextSeq s) (lastPublished s) evs b (nextSubscriber s) (subscribers s) (closed s)
    (closedAt s) (terminal s) (snapshot s).
Definition set_subs (n : Z) (m : gmap Z subscriber) (s : runState) : runState :=
  mkRun (nextSeq s) (lastPublished s) (events s) (eventBytes s) n m (closed s)
    (closedAt s) (terminal s) (snapshot s).
Definition set_marks (t p : option StreamEvent) (s : runState) : runState :=
  mkRun (nextSeq s) (lastPublished s) (events s) (eventBytes s) (nextSubscriber s)
    (subscribers s) (closed s) (closedAt s) t p.
Definition set_closed (c : bool) (at_ : Z) (s : runState) : runState :=
  mkRun (nextSeq s) (lastPublished s) (events s) (eventBytes s) (nextSubscriber s)
    (subscribers s) c at_ (terminal s) (snapshot s).

Definition set_run (id : Z) (s : runState) (h : Hub) : Hub :=
  mkHub (<[id := s]> (runs h)) (config h) (chans h) (nextChan h).
Definition set_chans (m : gmap positive Chan) (h : Hub) : Hub :=
  mkHub (runs h) (config h) m (nextChan h).

(** [getRun] with [create = true]: an unknown run is registered. *)
Definition getRun (h : Hub) (runID : Z) : runState :=
  match runs h !! runID with
  | Some s => s
  | None => newRunState
  end.

(** ** Subscribers and channels *)

Definition close_chan (c : Chan) : Chan := mkChan (ch_buf c) (ch_cap c) true.

(** [closeSubscriberLocked] on every subscriber of a run: the channels that
    are not closed yet are closed and the map is emptied. *)
Definition live_chans (m : gmap Z subscriber) : gset positive :=
  list_to_set (sub_ch <$> filter (λ s, sub_closed s = false) (snd <$> map_to_list m)).

Definition closeAll (subs : gmap Z subscriber) (cs : gmap positive Chan) : gmap positive Chan :=
  map_imap (λ c ch, Some (if bool_decide (c ∈ live_chans subs) then close_chan ch else ch)) cs.

(** One subscriber of [notifySubscribersLocked]: the non-blocking send
    succeeds, or the channel is full and the subscriber is dropped. *)
Definition chan_full (c : Chan) : bool := ch_cap c <=? zlen (ch_buf c).

Definition send_chan (event : StreamEvent) (c : Chan) : Chan :=
  if chan_full c then close_chan c
  else mkChan (ch_buf c ++ [cloneEvent event]) (ch_cap c) (ch_closed c).

Definition keep_sub (cs : gmap positive Chan) (s : subscriber) : bool :=
  negb (sub_closed s) &&
  match cs !! sub_ch s with Some c => negb (chan_full c) | None => false end.

Definition notifySubscribersLocked (s : runState) (event : StreamEvent)
    (cs : gmap positive Chan) : runState * gmap positive Chan :=
  let live := live_chans (subscribers s) in
  (set_subs (nextSubscriber s) (filter (λ p, keep_sub cs p.2 = true) (subscribers s)) s,
   map_imap (λ c ch, Some (if bool_decide (c ∈ live) then send_chan event ch else ch)) cs).

(** ** The replay ring *)

(** The [for] loop of [trimEventsLocked].  [None]: the loop has not left
    after [fuel] iterations. *)
Fixpoint trim_loop (fuel : nat) (maxEvents maxBytes : Z) (evs : list StreamEvent) (bytes : Z)
    : option (list StreamEvent * Z * bool) :=
  match fuel with
  | O => None
  | S fuel' =>
    if (maxEvents <? zlen evs) || (maxBytes <? bytes) then
      match evs with
      | [] => Some ([], 0, false)
      | e :: rest =>
        if isTerminalKind (Kind e) then
          match rest with
          | [] => Some ([e], bytes, false)
          | _ => trim_loop fuel' maxEvents maxBytes (rest ++ [e]) bytes
          end
        else trim_loop fuel' maxEvents maxBytes rest (bytes - eventSize e)
      end
    else Some (evs, bytes, true)
  end.

Definition seq_less (x y : StreamEvent) : bool := Seq x <? Seq y.

(** The loop, then the stable sort on the path that falls out of the loop. *)
Definition trimEventsLocked (fuel : nat) (maxEvents maxBytes : Z) (evs : list StreamEvent)
    (bytes : Z) : option (list StreamEvent * Z) :=
  let maxEvents := if maxEvents <=? 0 then defaultMaxEvents else maxEvents in
  let maxBytes := if maxBytes <=? 0 then defaultMaxBytes else maxBytes in
  match trim_loop fuel maxEvents maxBytes evs bytes with
  | None => None
  | Some (evs', b', true) => Some (sort_stable seq_less evs', b')
  | Some (evs', b', false) => Some (evs', b')
  end.

Definition replayHasGap (evs : list StreamEvent) (afterSeq : Z) : bool :=
  match evs with
  | [] => false
  | e :: rest =>
    let earliest := foldl (λ m x, if Seq x <? m then Seq x else m) (Seq e) rest in
    (0 <? earliest) && (afterSeq <? earliest - 1)
  end.

(** Iterations of the trim loop that always suffice when it leaves at all
    (see [trim_loop_returns] and [trim_loop_diverges]). *)
Definition trim_fuel (evs : list StreamEvent) : nat := S (length evs) * S (length evs).

(** ** Operations *)

(** The part of [PublishPrepared] and [CloseRun] that decides whether the
    event is new: a missing sequence number is allocated, a number that was
    already published is a duplicate. *)
Definition assignSeq (s : runState) (event : StreamEvent) : StreamEvent * Z :=
  if Seq event =? 0 then
    let n := if nextSeq s =? 0 then 1 else nextSeq s in
    (set_Seq n event, u64_wrap (n + 1))
  else (event, nextSeq s).

Definition bumpSeq (nseq : Z) (event : StreamEvent) : Z :=
  if nseq <=? Seq event then u64_wrap (Seq event + 1) else nseq.

(** Append, account, trim and notify: the tail of [PublishPrepared] and of
    [CloseRun].  [None]: trimming does not return. *)
Definition appendEvent (h : Hub) (runID : Z) (s : runState) (event : StreamEvent) : option Hub :=
  match trimEventsLocked (trim_fuel (events s ++ [event])) (MaxEvents (config h))
          (MaxBytes (config h)) (events s ++ [event]) (eventBytes s + eventSize event) with
  | None => None
  | Some (evs, b) =>
    let '(s', cs) := notifySubscribersLocked (set_ring evs b s) event (chans h) in
    Some (set_run runID s' (set_chans cs h))
  end.

(** The event [PublishPrepared] makes visible on this state, if any. *)
Definition acceptPublish (s : runState) (event : StreamEvent) (now : Z) : option StreamEvent :=
  let '(e, _) := assignSeq s (normalizeEvent event (RunID event) now) in
  if closed s then None
  else if Seq e <=? lastPublished s then None
  else Some (cloneEvent e).

Definition Prepare (h : Hub) (runID : Z) (event : StreamEvent) (now : Z) : Hub * StreamEvent :=
  if runID =? 0 then (h, event)
  else
    let s := getRun h runID in
    let event' := normalizeEvent event runID now in
    if closed s then (set_run runID s h, event')
    else
      let n := if nextSeq s =? 0 then 1 else nextSeq s in
      (set_run runID (set_seqs (u64_wrap (n + 1)) (lastPublished s) s) h,
       cloneEvent (set_Seq n event')).

Definition PublishPrepared (h : Hub) (event : StreamEvent) (now : Z) : option Hub :=
  let runID := RunID event in
  if runID =? 0 then Some h
  else
    let s := getRun h runID in
    if closed s then Some (set_run runID s h)
    else
      let '(event, nseq) := assignSeq s (normalizeEvent event runID now) in
      if Seq event <=? lastPublished s then
        Some (set_run runID (set_seqs nseq (lastPublished s) s) h)
      else
        let event := cloneEvent event in
        let s := set_seqs (bumpSeq nseq event) (Seq event) s in
        let s := set_marks
          (if isTerminalKind (Kind event) then Some (cloneEvent event) else terminal s)
          (if (Kind event =? StreamSnapshot)%string then Some (cloneEvent event) else snapshot s)
          s in
        appendEvent h runID s event.

(** The event [CloseRun] makes visible, if any. *)
Definition acceptClose (s : runState) (runID : Z) (event : StreamEvent) (now : Z)
    : option StreamEvent :=
  let '(e, _) := assignSeq s (normalizeEvent event runID now) in
  if closed s then None
  else if Seq e <=? lastPublished s then None
  else Some (cloneEvent e).

Definition finishClose (h : Hub) (runID now : Z) : Hub :=
  let s := getRun h runID in
  set_run runID (set_closed true now (set_subs (nextSubscriber s) ∅ s))
    (set_chans (closeAll (subscribers s) (chans h)) h).

Definition CloseRun (h : Hub) (runID : Z) (event : StreamEvent) (now : Z) : option Hub :=
  if runID =? 0 then Some h
  else
    let s := getRun h runID in
    if closed s then Some (set_run runID s h)
    else
      let '(event, nseq) := assignSeq s (normalizeEvent event runID now) in
      if Seq event <=? lastPublished s then
        Some (finishClose (set_run runID (set_seqs nseq (lastPublished s) s) h) runID now)
      else
        let event := cloneEvent event in
        let s := set_marks (Some (cloneEvent event)) (snapshot s)
                   (set_seqs (bumpSeq nseq event) (Seq event) s) in
        match appendEvent h runID s event with
        | None => None
        | Some h' => Some (finishClose h' runID now)
        end.

(** A closed run whose retention has elapsed. *)
Definition expired (retention now : Z) (s : runState) : bool :=
  closed s && negb (closedAt s =? 0) && (closedAt s + retention <=? now).

(** Every subscriber of the runs that satisfy [P]. *)
Definition run_chans (P : runState → bool) (m : gmap Z runState) : gset positive :=
  ⋃ ((λ s, live_chans (subscribers s)) <$> filter (λ s, P s = true) (snd <$> map_to_list m)).

Definition dropRuns (P : runState → bool) (h : Hub) : Hub :=
  mkHub (filter (λ p, P p.2 = false) (runs h)) (config h)
    (map_imap (λ c ch, Some (if bool_decide (c ∈ run_chans P (runs h)) then close_chan ch else ch))
      (chans h))
    (nextChan h).

Definition removeExpiredRuns (h : Hub) (now : Z) : Hub :=
  dropRuns (expired (TerminalRetention (config h)) now) h.

Definition PurgeExpired (h : Hub) (now : Z) : Hub := removeExpiredRuns h now.

Definition Close (h : Hub) : Hub := dropRuns (λ _, true) h.

Definition normalizeSnapshot (snap : StreamEvent) (runID seq now : Z) : StreamEvent :=
  let snap := set_Kind_Type StreamSnapshot StreamSnapshot (normalizeEvent snap runID now) in
  cloneEvent (if 0 <? seq then set_Seq seq snap else snap).

Definition provide (h : Hub) (runID : Z) : option StreamEvent :=
  match SnapshotProvider (config h) with
  | Some provider => provider runID
  | None => None
  end.

Definition snapshotLocked (h : Hub) (runID : Z) (s : runState) (now : Z) : option StreamEvent :=
  match snapshot s with
  | Some snap =>
    let snap := if Seq snap =? 0 then set_Seq (lastPublished s) (cloneEvent snap)
                else cloneEvent snap in
    Some (normalizeSnapshot snap runID (lastPublished s) now)
  | None =>
    match provide h runID with
    | Some snap => Some (normalizeSnapshot snap runID (lastPublished s) now)
    | None =>
      match terminal s with
      | Some t => Some (normalizeSnapshot t runID (lastPublished s) now)
      | None => None
      end
    end
  end.

Inductive hubError := ErrRunNotFound | ErrSnapshotUnavailable.

Definition Snapshot (h : Hub) (runID now : Z) : Hub * result hubError StreamEvent :=
  if runID =? 0 then (h, Err ErrRunNotFound)
  else
    let h := removeExpiredRuns h now in
    match runs h !! runID with
    | None => (h, Err ErrRunNotFound)
    | Some s =>
      match snapshotLocked h runID s now with
      | Some snap => (h, Ok snap)
      | None => (h, Err ErrSnapshotUnavailable)
      end
    end.

Definition alloc_chan (c : Chan) (h : Hub) : Hub * positive :=
  (mkHub (runs h) (config h) (<[nextChan h := c]> (chans h)) (Pos.succ (nextChan h)), nextChan h).

(** What a subscriber gets back: the replay, its channel, and the number its
    cancel function refers to. *)
Record Subscription := mkSubscription {
  sub_replay : list StreamEvent;
  sub_live : positive;
  sub_id : option Z
}.

Definition replayFor (h : Hub) (runID afterSeq now : Z) (s : runState) : list StreamEvent :=
  if replayHasGap (events s) afterSeq then
    match snapshotLocked h runID s now with
    | Some snap => [snap]
    | None => []
    end
  else cloneEvent <$> filter (λ e, afterSeq < Seq e) (events s).

Definition Subscribe (h : Hub) (runID afterSeq now : Z) : Hub * Subscription :=
  if runID =? 0 then
    let '(h, c) := alloc_chan (mkChan [] 0 true) h in (h, mkSubscription [] c None)
  else
    let h := removeExpiredRuns h now in
    let s := getRun h runID in
    let replay := replayFor h runID afterSeq now s in
    let buffer := if SubscriberBuffer (config h) <=? 0 then defaultSubscriberBuffer
                  else SubscriberBuffer (config h) in
    if closed s then
      let '(h, c) := alloc_chan (mkChan [] 0 true) (set_run runID s h) in
      (h, mkSubscription (cloneEvents replay) c None)
    else
      let id := u64_wrap (nextSubscriber s + 1) in
      let '(h, c) := alloc_chan (mkChan [] buffer false) h in
      (set_run runID (set_subs id (<[id := mkSub c false]> (subscribers s)) s) h,
       mkSubscription (cloneEvents replay) c (Some id)).

(** The cancel function of a subscription. *)
Definition cancel (h : Hub) (runID id : Z) (c : positive) : Hub :=
  match runs h !! runID with
  | None => h
  | Some s =>
    match subscribers s !! id with
    | Some sub =>
      if bool_decide (sub_ch sub = c) then
        set_run runID (set_subs (nextSubscriber s) (delete id (subscribers s)) s)
          (set_chans (if sub_closed sub then chans h else alter close_chan c (chans h)) h)
      else h
    | None => h
    end
  end.

(** The consumer's side: receive one event from a channel. *)
Definition recv (h : Hub) (c : positive) : Hub * option StreamEvent :=
  match chans h !! c with
  | Some (mkChan (e :: buf) cap cl) => (set_chans (<[c := mkChan buf cap cl]> (chans h)) h, Some e)
  | _ => (h, None)
  end.


(** ** legacy.go: the pre-v1 runtime event *)

Record RuntimeEvent := mkRuntimeEvent {
  re_Type : string;
  re_RunID : Z;
  re_Payload : option Payload;
  re_CreatedAt : Z
}.

Definition FromRuntimeEvent (input : RuntimeEvent) : StreamEvent :=
  mkEvent RunStreamVersion (re_RunID input) None 0 (re_Type input) (re_CreatedAt input)
    (match re_Payload input with Some p => json_marshal p | None => None end)
    (re_Type input) (re_Payload input).

Definition ToRuntimeEvent (event : StreamEvent) : RuntimeEvent :=
  let payload :=
    match Data event with
    | Some d => if 0 <? slen d then
                  match json_unmarshal_object d with Some m => Some m | None => Payload_ event end
                else Payload_ event
    | None => Payload_ event
    end in
  mkRuntimeEvent (if (Kind event =? "")%string then Type_ event else Kind event)
    (RunID event) payload (CreatedAt event).

Definition PrepareLegacy (h : Hub) (runID : Z) (input : RuntimeEvent) (now : Z) : Hub * StreamEvent :=
  Prepare h runID (FromRuntimeEvent input) now.

Definition PublishLegacy (h : Hub) (runID : Z) (input : RuntimeEvent) (now : Z)
    : option Hub * StreamEvent :=
  let '(h, prepared) := PrepareLegacy h runID input now in
  (PublishPrepared h prepared now, prepared).

(** ** Steps: every operation of the hub and of its consumers *)

Inductive op :=
| OpPrepare (runID : Z) (event : StreamEvent) (now : Z)
| OpPublish (event : StreamEvent) (now : Z)
| OpSubscribe (runID afterSeq now : Z)
| OpCancel (runID id : Z) (c : positive)
| OpSnapshot (runID now : Z)
| OpCloseRun (runID : Z) (event : StreamEvent) (now : Z)
| OpPurge (now : Z)
| OpClose
| OpRecv (c : positive).

(** [None]: the operation does not return. *)
Definition exec (h : Hub) (o : op) : option Hub :=
  match o with
  | OpPrepare r e now => Some (Prepare h r e now).1
  | OpPublish e now => PublishPrepared h e now
  | OpSubscribe r a now => Some (Subscribe h r a now).1
  | OpCancel r i c => Some (cancel h r i c)
  | OpSnapshot r now => Some (Snapshot h r now).1
  | OpCloseRun r e now => CloseRun h r e now
  | OpPurge now => Some (PurgeExpired h now)
  | OpClose => Some (Close h)
  | OpRecv c => Some (recv h c).1
  end.

(** The events of run [r] that an operation makes visible. *)
Definition published (r : Z) (h : Hub) (o : op) : list StreamEvent :=
  match o with
  | OpPublish e now =>
    if (RunID e =? r) && negb (r =? 0) then option_list (acceptPublish (getRun h r) e now) else []
  | OpCloseRun r' e now =>
    if (r' =? r) && negb (r =? 0) then option_list (acceptClose (getRun h r) r e now) else []
  | _ => []
  end.

(** The event a consumer takes out of channel [c]. *)
Definition received (c : positive) (h : Hub) (o : op) : list StreamEvent :=
  match o with
  | OpRecv c' => if bool_decide (c' = c) then option_list (recv h c).2 else []
  | _ => []
  end.

(** Executions, with what they publish on run [r] and what a consumer of
    channel [c] receives. *)
Inductive trace (r : Z) (c : positive) : Hub → list StreamEvent → list StreamEvent → Hub → Prop :=
| trace_nil h : trace r c h [] [] h
| trace_step h o h' pub rcv h'' :
    exec h o = Some h' → trace r c h' pub rcv h'' →
    trace r c h (published r h o ++ pub) (received c h o ++ rcv) h''.

(** Operations that may drop the state of run [r]: a purge of expired runs, or
    the shutdown of the hub. *)
Definition forgets (r : Z) (h : Hub) (o : op) : bool :=
  let purged now := match runs (removeExpiredRuns h now) !! r with Some _ => false | None => true end in
  match o with
  | OpSubscribe q _ now | OpSnapshot q now => negb (q =? 0) && purged now
  | OpPurge now => purged now
  | OpClose => true
  | _ => false
  end.

Definition kept (r : Z) (h : Hub) (o : op) (H : list StreamEvent) : list StreamEvent :=
  if forgets r h o then [] else H.

(** The history of run [r]: what was published since the run was last
    registered. *)
Inductive reaches (r : Z) (P : op → Prop) (h0 : Hub) : list StreamEvent → Hub → Prop :=
| reaches_init : reaches r P h0 [] h0
| reaches_step H h o h' :
    reaches r P h0 H h → P o → exec h o = Some h' →
    reaches r P h0 (kept r h o H ++ published r h o) h'.

(** Executions whose operations satisfy [P], with what they publish on [r]. *)
Inductive steps (P : op → Prop) (r : Z) : Hub → list StreamEvent → Hub → Prop :=
| steps_nil h : steps P r h [] h
| steps_cons h o h' pub h'' :
    P o → exec h o = Some h' → steps P r h' pub h'' →
    steps P r h (published r h o ++ pub) h''.

(** Operations that happen before time [T] and do not shut the hub down. *)
Definition before (T : Z) (o : op) : Prop :=
  match o with
  | OpSubscribe _ _ t | OpSnapshot _ t | OpPurge t => t < T
  | OpClose => False
  | _ => True
  end.

(** ** The trim loop *)

Definition term_events (evs : list StreamEvent) : list StreamEvent :=
  filter (λ e, isTerminalKind (Kind e) = true) evs.
Definition transient_events (evs : list StreamEvent) : list StreamEvent :=
  filter (λ e, isTerminalKind (Kind e) = false) evs.

(** The terminal events alone are over a limit, and there are several. *)
Definition stuck (me mb : Z) (evs : list StreamEvent) : Prop :=
  (2 ≤ length (term_events evs))%nat ∧
  (me < zlen (term_events evs) ∨ mb < sum_by eventSize (term_events evs)).

Definition lead_terminals : list StreamEvent → nat :=
  fix go evs := match evs with
  | [] => O
  | e :: rest => if isTerminalKind (Kind e) then S (go rest) else O
  end.

Definition trim_measure (evs : list StreamEvent) : nat :=
  length (transient_events evs) * S (length (term_events evs)) + lead_terminals evs.

Lemma eventSize_pos e : 0 < eventSize e.
Proof. unfold eventSize, slen, data_len, slen. destruct (Data e); lia. Qed.

Lemma cloneEvent_id e : cloneEvent e = e.
Proof. by destruct e. Qed.

Lemma terms_le evs : (length (term_events evs) ≤ length evs)%nat.
Proof. apply length_filter. Qed.

Lemma terms_sum_le evs : sum_by eventSize (term_events evs) ≤ sum_by eventSize evs.
Proof.
  unfold term_events. induction evs as [|e evs IH]; simpl; [done|].
  pose proof (eventSize_pos e).
  rewrite filter_cons. case_decide; simpl; lia.
Qed.

Lemma term_events_rotate e rest : term_events (rest ++ [e]) ≡ₚ term_events (e :: rest).
Proof. unfold term_events. by rewrite <- Permutation_cons_append. Qed.

Lemma transient_events_rotate e rest : transient_events (rest ++ [e]) ≡ₚ transient_events (e :: rest).
Proof. unfold transient_events. by rewrite <- Permutation_cons_append. Qed.

Lemma stuck_perm me mb l k : term_events l ≡ₚ term_events k → stuck me mb l → stuck me mb k.
Proof.
  unfold stuck, zlen. intros Hp. by rewrite (sum_by_perm _ _ _ Hp), (Permutation_length Hp).
Qed.

Lemma term_events_cons_transient e rest :
  isTerminalKind (Kind e) = false → term_events (e :: rest) = term_events rest.
Proof. intros H. unfold term_events. rewrite filter_cons_False by congruence. done. Qed.

Lemma trim_loop_diverges fuel me mb evs b :
  b = sum_by eventSize evs → stuck me mb evs → trim_loop fuel me mb evs b = None.
Proof.
  revert evs b. induction fuel as [|fuel IH]; intros evs b Hb Hs; simpl; [done|].
  assert ((me <? zlen evs) || (mb <? b) = true) as ->.
  { destruct Hs as [_ Hs]. pose proof (terms_le evs). pose proof (terms_sum_le evs).
    unfold zlen in *. apply orb_true_iff. rewrite !Z.ltb_lt. lia. }
  destruct evs as [|e rest]; [destruct Hs as [Hs _]; simpl in Hs; lia|].
  destruct (isTerminalKind (Kind e)) eqn:He.
  - destruct rest as [|e2 rest].
    { destruct Hs as [Hs _]. pose proof (terms_le [e]). simpl in *. lia. }
    apply IH; [subst b; rewrite sum_by_app; simpl; lia|].
    eapply stuck_perm; [|exact Hs]. symmetry. apply term_events_rotate.
  - apply IH; [subst b; simpl; lia|].
    unfold stuck in *. by rewrite term_events_cons_transient in Hs.
Qed.

Lemma lead_terminals_le evs : (lead_terminals evs ≤ length (term_events evs))%nat.
Proof.
  unfold term_events. induction evs as [|e evs IH]; simpl; [lia|].
  rewrite filter_cons. destruct (isTerminalKind (Kind e)); case_decide; simpl in *; try congruence; lia.
Qed.

Lemma lead_terminals_app l k :
  transient_events l ≠ [] → lead_terminals (l ++ k) = lead_terminals l.
Proof.
  unfold transient_events. induction l as [|e l IH]; simpl; [done|]. rewrite filter_cons.
  destruct (isTerminalKind (Kind e)); case_decide; try congruence. intros Hne. by rewrite IH.
Qed.

Lemma trim_loop_returns fuel me mb evs b :
  b = sum_by eventSize evs → ¬ stuck me mb evs → (trim_measure evs < fuel)%nat →
  is_Some (trim_loop fuel me mb evs b).
Proof.
  revert evs b. induction fuel as [|fuel IH]; intros evs b Hb Hs Hm; simpl; [lia|].
  destruct ((me <? zlen evs) || (mb <? b)) eqn:Hover; [|eauto].
  destruct evs as [|e rest]; [eauto|].
  destruct (isTerminalKind (Kind e)) eqn:He.
  - destruct rest as [|e2 rest]; [eauto|].
    assert (term_events (e :: e2 :: rest) = e :: term_events (e2 :: rest)) as Ht.
    { unfold term_events. by rewrite filter_cons_True. }
    assert (transient_events (e :: e2 :: rest) = transient_events (e2 :: rest)) as Htr.
    { unfold transient_events. rewrite filter_cons_False by congruence. done. }
    assert (transient_events (e2 :: rest) ≠ []) as Hne.
    { intros Hnil. apply Hs.
      assert (term_events (e :: e2 :: rest) = e :: e2 :: rest) as Hall.
      { unfold term_events. apply filter_all. intros x Hx.
        destruct (isTerminalKind (Kind x)) eqn:Hx'; [done|].
        assert (x ∈ transient_events (e :: e2 :: rest)) as Hin
          by (unfold transient_events; by apply list_elem_of_filter).
        rewrite Htr, Hnil in Hin. by apply elem_of_nil in Hin. }
      unfold stuck. rewrite Hall. split; [simpl; lia|]. bool_prop.
      destruct Hover as [Ho|Ho]; bool_prop; [left|right]; lia. }
    apply IH.
    + subst b. rewrite sum_by_app. simpl. lia.
    + intros Hst. apply Hs. eapply stuck_perm; [|exact Hst]. apply term_events_rotate.
    + unfold trim_measure in *.
      rewrite (Permutation_length (term_events_rotate e (e2 :: rest))),
        (Permutation_length (transient_events_rotate e (e2 :: rest))),
        lead_terminals_app by done.
      change (lead_terminals (e :: e2 :: rest)) with
        (if isTerminalKind (Kind e) then S (lead_terminals (e2 :: rest)) else O) in Hm.
      rewrite He in Hm. lia.
  - apply IH.
    + subst b. simpl. lia.
    + intros Hst. apply Hs. unfold stuck in *. by rewrite term_events_cons_transient.
    + unfold trim_measure in *. rewrite term_events_cons_transient in Hm by done.
      assert (transient_events (e :: rest) = e :: transient_events rest) as Htr.
      { unfold transient_events. by rewrite filter_cons_True. }
      rewrite Htr in Hm. pose proof (lead_terminals_le rest). simpl in *. lia.
Qed.

Lemma trim_measure_fuel evs : (trim_measure evs < trim_fuel evs)%nat.
Proof.
  unfold trim_measure, trim_fuel. pose proof (lead_terminals_le evs).
  assert (length (transient_events evs) + length (term_events evs) = length evs)%nat.
  { unfold transient_events, term_events. clear. induction evs as [|e evs IH]; simpl; [done|].
    rewrite !filter_cons. destruct (isTerminalKind (Kind e)); repeat case_decide; simpl; try congruence; lia. }
  nia.
Qed.


(** What the loop leaves: only transient events were evicted, the byte count
    is exact, and either the limits hold or a lone terminal event is left. *)
Lemma trim_loop_spec fuel me mb evs b evs' b' f :
  b = sum_by eventSize evs → 0 ≤ mb → trim_loop fuel me mb evs b = Some (evs', b', f) →
  ∃ gone, evs ≡ₚ gone ++ evs' ∧ b' = sum_by eventSize evs' ∧
    Forall (λ e, isTerminalKind (Kind e) = false) gone ∧
    (if f then zlen evs' ≤ me ∧ b' ≤ mb
     else evs' = [] ∨ ∃ e, evs' = [e] ∧ isTerminalKind (Kind e) = true).
Proof.
  revert evs b. induction fuel as [|fuel IH]; intros evs b Hb Hmb Ht; simpl in Ht; [done|].
  destruct ((me <? zlen evs) || (mb <? b)) eqn:Hover.
  - destruct evs as [|e rest].
    { simplify_eq. exists []. simpl. repeat split; auto. }
    destruct (isTerminalKind (Kind e)) eqn:He.
    + destruct rest as [|e2 rest].
      { simplify_eq. exists []. simpl. repeat split; auto. right. by exists e. }
      apply IH in Ht as (gone & Hp & Hb' & Hg & Hf); [|subst b; rewrite sum_by_app; simpl; lia|done].
      exists gone. split_and!; auto. rewrite <- Hp. by rewrite <- Permutation_cons_append.
    + apply IH in Ht as (gone & Hp & Hb' & Hg & Hf); [|subst b; simpl; lia|done].
      exists (e :: gone). split_and!; auto. simpl. by rewrite Hp.
  - simplify_eq. exists []. bool_prop. split_and!; auto.
Qed.

Lemma seq_sort_sorted evs :
  NoDup (Seq <$> evs) → StronglySorted (key_lt Seq) (sort_stable seq_less evs).
Proof.
  intros Hnd. apply key_sorted_strict; [|by rewrite sort_stable_perm].
  apply (sort_stable_sorted seq_less); unfold seq_less; intros *; rewrite ?Z.ltb_lt, ?Z.ltb_ge; lia.
Qed.

Lemma trimEvents_spec fuel me mb evs b evs' b' :
  StronglySorted (key_lt Seq) evs → b = sum_by eventSize evs → 0 < me → 0 < mb →
  trimEventsLocked fuel me mb evs b = Some (evs', b') →
  StronglySorted (key_lt Seq) evs' ∧ b' = sum_by eventSize evs' ∧
  (∃ gone, evs ≡ₚ gone ++ evs' ∧ Forall (λ e, isTerminalKind (Kind e) = false) gone) ∧
  (zlen evs' ≤ me ∧ b' ≤ mb ∨ ∃ e, evs' = [e] ∧ isTerminalKind (Kind e) = true).
Proof.
  intros Hs Hb Hme Hmb. unfold trimEventsLocked.
  rewrite (proj2 (Z.leb_gt me 0)), (proj2 (Z.leb_gt mb 0)) by lia.
  destruct (trim_loop _ _ _ _ _) as [[[l k] f]|] eqn:Ht; [|done].
  apply trim_loop_spec in Ht as (gone & Hp & Hk & Hg & Hf); [|done|lia].
  assert (NoDup (Seq <$> l)) as Hnd.
  { apply key_sorted_NoDup in Hs. rewrite Hp, fmap_app in Hs. by apply NoDup_app in Hs as (_ & _ & ?). }
  destruct f; intros [= <- <-].
  - split_and!.
    + by apply seq_sort_sorted.
    + by rewrite (sum_by_perm _ _ _ (sort_stable_perm _ _)).
    + exists gone. by rewrite sort_stable_perm.
    + left. unfold zlen in *. by rewrite length_sort_stable.
  - destruct Hf as [->|(e & -> & He)].
    + simpl in *. split_and!; [constructor|done|by exists gone|left; unfold zlen; simpl; lia].
    + split_and!; [by repeat constructor|done|by exists gone|eauto].
Qed.

(** The loop evicts the oldest transient events: those left are the last ones. *)
Lemma trim_loop_transients fuel me mb evs b evs' b' f :
  trim_loop fuel me mb evs b = Some (evs', b', f) → transient_events evs' `suffix_of` transient_events evs.
Proof.
  revert evs b. induction fuel as [|fuel IH]; intros evs b Ht; simpl in Ht; [done|].
  destruct (_ || _); [|by simplify_eq]. destruct evs as [|e rest]; [by simplify_eq|].
  unfold transient_events in *. rewrite filter_cons. destruct (isTerminalKind (Kind e)) eqn:He; case_decide; try congruence.
  - destruct rest as [|e2 rest]; [simplify_eq; by rewrite filter_cons_False by congruence|].
    apply IH in Ht. by rewrite filter_app, (filter_cons_False _ e []), filter_nil, app_nil_r in Ht by congruence.
  - apply IH in Ht. by apply suffix_cons_r.
Qed.

Lemma key_sorted_filter {A} (key : A → Z) (P : A → Prop) `{!∀ x, Decision (P x)} l :
  StronglySorted (key_lt key) l → StronglySorted (key_lt key) (filter P l).
Proof.
  induction 1 as [|x l Hl IH Hx]; [constructor|]. rewrite filter_cons. case_decide; [|done]. constructor; [done|].
  rewrite Forall_forall in Hx |- *. intros y [_ Hy]%list_elem_of_filter. by apply Hx.
Qed.

Lemma filter_ext_in {A} (P Q : A → Prop) `{!∀ x, Decision (P x)} `{!∀ x, Decision (Q x)} (l : list A) :
  (∀ x, x ∈ l → P x ↔ Q x) → filter P l = filter Q l.
Proof.
  induction l as [|x l IH]; intros Hl; [done|]. rewrite !filter_cons. rewrite IH by (intros y Hy; apply Hl; by right).
  pose proof (Hl x ltac:(left)). repeat case_decide; naive_solver.
Qed.

(** What a ring keeps: the terminal events, and the transient ones from a number on. *)
Definition keeps_from (k : Z) (e : StreamEvent) : Prop := isTerminalKind (Kind e) = true ∨ k ≤ Seq e.
#[global] Instance keeps_from_dec k e : Decision (keeps_from k e) := _.

Lemma trimEvents_keeps fuel me mb evs b evs' b' last :
  StronglySorted (key_lt Seq) evs → b = sum_by eventSize evs → 0 < me → 0 < mb → (∀ e, e ∈ evs → Seq e ≤ last) →
  trimEventsLocked fuel me mb evs b = Some (evs', b') →
  ∃ k, k ≤ last + 1 ∧ evs' = filter (keeps_from k) evs.
Proof.
  intros Hs Hb Hme Hmb Hlast Ht.
  destruct (trimEvents_spec _ _ _ _ _ _ _ Hs Hb Hme Hmb Ht) as (Hs' & _ & (gone & Hperm & Hgone) & _).
  assert (∃ l, evs' ≡ₚ l ∧ transient_events l `suffix_of` transient_events evs) as (l & Hl & [old Hold]).
  { unfold trimEventsLocked in Ht. destruct (trim_loop _ _ _ _ _) as [[[l k] f]|] eqn:Hloop; [|done].
    apply trim_loop_transients in Hloop. exists l. destruct f; simplify_eq; by rewrite ?sort_stable_perm. }
  assert (StronglySorted (key_lt Seq) (transient_events evs)) as Hst by (by apply key_sorted_filter).
  assert (∀ x, x ∈ transient_events evs ↔ isTerminalKind (Kind x) = false ∧ x ∈ evs) as Htr
    by (intros x; unfold transient_events; by rewrite list_elem_of_filter).
  assert (∀ x, x ∈ transient_events l ↔ isTerminalKind (Kind x) = false ∧ x ∈ evs') as Htl
    by (intros x; unfold transient_events; by rewrite Hl, list_elem_of_filter).
  set (k := match transient_events l with e :: _ => Seq e | [] => last + 1 end).
  assert (∀ x, x ∈ evs → x ∈ evs' ↔ keeps_from k x) as Hmem.
  { intros x Hx. unfold keeps_from. destruct (isTerminalKind (Kind x)) eqn:Hxt.
    - split; [by left|intros _]. rewrite Hperm, elem_of_app in Hx. destruct Hx as [Hx|]; [|done].
      rewrite Forall_forall in Hgone. by rewrite Hgone in Hxt.
    - assert (x ∈ old ∨ x ∈ transient_events l) as Hin by (rewrite <- elem_of_app, <- Hold; by apply Htr).
      assert (x ∈ evs' ↔ x ∈ transient_events l) as -> by (rewrite Htl; naive_solver).
      rewrite Hold in Hst. unfold k. destruct (transient_events l) as [|e tl] eqn:Htl'.
      + split; [intros []%elem_of_nil|]. intros [|Hk]; [done|]. specialize (Hlast x Hx). lia.
      + split.
        * intros Hin'. right. apply (key_sorted_suffix Seq _ (e :: tl)) in Hst; [|by eexists].
          apply elem_of_cons in Hin' as [->|Hin']; [done|]. apply StronglySorted_inv in Hst as [_ Hall].
          rewrite Forall_forall in Hall. specialize (Hall x Hin'). unfold key_lt in Hall. lia.
        * intros [|Hk]; [done|]. destruct Hin as [Hin|]; [|done].
          pose proof (key_sorted_split Seq old (e :: tl) x e Hst Hin ltac:(left)). lia. }
  exists k. split.
  - unfold k. destruct (transient_events l) as [|e tl] eqn:Htl'; [done|].
    assert (e ∈ evs') as He by (apply Htl; by left). assert (e ∈ evs) as He' by (rewrite Hperm, elem_of_app; by right).
    specialize (Hlast e He'). lia.
  - assert (∀ l, StronglySorted (key_lt Seq) l → NoDup l) as Hnd by (intros ? ?%key_sorted_NoDup; by eapply NoDup_fmap_1).
    apply (key_sorted_unique Seq); [done|by apply key_sorted_filter|].
    apply NoDup_Permutation; [by apply Hnd|by apply Hnd, key_sorted_filter|]. intros x. rewrite list_elem_of_filter. split.
    + intros Hx. assert (x ∈ evs) by (rewrite Hperm, elem_of_app; by right). split; [by apply Hmem|done].
    + intros [Hk Hx]. by apply Hmem.
Qed.

(** ** The hub invariant *)

Record run_wf (s : runState) : Prop := {
  rw_sorted : StronglySorted (key_lt Seq) (events s);
  rw_last : ∀ e, e ∈ events s → Seq e ≤ lastPublished s;
  rw_bytes : eventBytes s = sum_by eventSize (events s);
  rw_closed : closed s = true → subscribers s = ∅
}.

Definition chan_live (cs : gmap positive Chan) (c : positive) : Prop :=
  ∃ ch, cs !! c = Some ch ∧ ch_closed ch = false ∧ zlen (ch_buf ch) ≤ ch_cap ch.

Record cfg_wf (c : Config) : Prop := {
  cw_events : 0 < MaxEvents c;
  cw_bytes : 0 < MaxBytes c;
  cw_buffer : 0 < SubscriberBuffer c
}.

Record hub_wf (h : Hub) : Prop := {
  hw_cfg : cfg_wf (config h);
  hw_runs : ∀ r s, runs h !! r = Some s → run_wf s;
  hw_subs : ∀ r s i u, runs h !! r = Some s → subscribers s !! i = Some u →
              sub_closed u = false ∧ chan_live (chans h) (sub_ch u);
  hw_inj : ∀ r1 s1 i1 u1 r2 s2 i2 u2,
              runs h !! r1 = Some s1 → subscribers s1 !! i1 = Some u1 →
              runs h !! r2 = Some s2 → subscribers s2 !! i2 = Some u2 →
              sub_ch u1 = sub_ch u2 → r1 = r2 ∧ i1 = i2;
  hw_fresh : ∀ c, is_Some (chans h !! c) → (c < nextChan h)%positive
}.

Lemma withDefaults_wf c : cfg_wf (withDefaults c).
Proof. split; simpl; case_match; bool_prop; unfold defaultMaxEvents, defaultSubscriberBuffer; lia || done. Qed.

Lemma NewMemoryHub_wf cfg : hub_wf (NewMemoryHub cfg).
Proof.
  split; simpl; intros *; rewrite ?lookup_empty; try done; apply withDefaults_wf.
Qed.

Lemma newRunState_wf : run_wf newRunState.
Proof. split; simpl; [constructor|intros e He; by apply elem_of_nil in He|done|done]. Qed.

Lemma getRun_wf h r : hub_wf h → run_wf (getRun h r).
Proof. intros Hw. unfold getRun. case_match; [by eapply hw_runs|apply newRunState_wf]. Qed.

Lemma elem_of_live_chans m c :
  c ∈ live_chans m ↔ ∃ i u, m !! i = Some u ∧ sub_closed u = false ∧ sub_ch u = c.
Proof.
  unfold live_chans. rewrite elem_of_list_to_set, list_elem_of_fmap. split.
  - intros (u & -> & Hu). apply list_elem_of_filter in Hu as [Hcl Hu].
    apply list_elem_of_fmap in Hu as ([i u'] & -> & Hu). apply elem_of_map_to_list in Hu. eauto.
  - intros (i & u & Hm & Hcl & <-). exists u. split; [done|].
    apply list_elem_of_filter. split; [done|]. apply list_elem_of_fmap.
    exists (i, u). split; [done|]. by apply elem_of_map_to_list.
Qed.

(** Every subscriber of a run is registered under the run. *)
Lemma getRun_sub h r i u : subscribers (getRun h r) !! i = Some u → runs h !! r = Some (getRun h r).
Proof. unfold getRun. case_match; [done|]. simpl. by rewrite lookup_empty. Qed.

(** The common shape of the operations: one run is replaced, its subscribers
    only shrink, and the channels of the other runs are untouched. *)
Lemma hub_wf_update h r s' cs' :
  hub_wf h → run_wf s' → subscribers s' ⊆ subscribers (getRun h r) →
  (∀ c, is_Some (cs' !! c) → is_Some (chans h !! c)) →
  (∀ i u, subscribers s' !! i = Some u → chan_live cs' (sub_ch u)) →
  (∀ r' s i u, r' ≠ r → runs h !! r' = Some s → subscribers s !! i = Some u →
     cs' !! sub_ch u = chans h !! sub_ch u) →
  hub_wf (set_run r s' (set_chans cs' h)).
Proof.
  intros Hw Hs Hsub Hdom Hlive Hother.
  assert (∀ r1 s1 i1 u1, <[r := s']> (runs h) !! r1 = Some s1 → subscribers s1 !! i1 = Some u1 →
    ∃ s0, runs h !! r1 = Some s0 ∧ subscribers s0 !! i1 = Some u1) as Hold.
  { intros r1 s1 i1 u1 H1 H2. destruct (decide (r = r1)) as [<-|Hne].
    - rewrite lookup_insert_eq in H1. simplify_eq.
      pose proof (lookup_weaken _ _ _ _ H2 Hsub) as H3. exists (getRun h r).
      split; [by eapply getRun_sub|done].
    - rewrite lookup_insert_ne in H1 by done. eauto. }
  split; simpl.
  - apply Hw.
  - intros r1 s1 H1. destruct (decide (r = r1)) as [<-|Hne].
    + rewrite lookup_insert_eq in H1. by simplify_eq.
    + rewrite lookup_insert_ne in H1 by done. by eapply hw_runs.
  - intros r1 s1 i1 u1 H1 H2. destruct (Hold _ _ _ _ H1 H2) as (s0 & H3 & H4).
    destruct (hw_subs _ Hw _ _ _ _ H3 H4) as [Hcl Hch]. split; [done|].
    destruct (decide (r = r1)) as [<-|Hne].
    + rewrite lookup_insert_eq in H1. simplify_eq. by eapply Hlive.
    + unfold chan_live. by rewrite (Hother r1 s0 i1 u1).
  - intros r1 s1 i1 u1 r2 s2 i2 u2 H1 H2 H3 H4 Heq.
    destruct (Hold _ _ _ _ H1 H2) as (? & ? & ?). destruct (Hold _ _ _ _ H3 H4) as (? & ? & ?).
    by eapply (hw_inj _ Hw).
  - intros c Hc. apply (hw_fresh _ Hw). by apply Hdom.
Qed.

Lemma set_run_set_chans_id h r s : set_run r s h = set_run r s (set_chans (chans h) h).
Proof. by destruct h. Qed.

Lemma hub_wf_set_run h r s' :
  hub_wf h → run_wf s' → subscribers s' = subscribers (getRun h r) → hub_wf (set_run r s' h).
Proof.
  intros Hw Hs Hsub. rewrite set_run_set_chans_id. apply hub_wf_update; auto.
  - by rewrite Hsub.
  - intros i u Hu. rewrite Hsub in Hu. by eapply hw_subs; [..|eapply getRun_sub|].
Qed.

(** A channel that belongs to another run is not among the channels of [r]. *)
Lemma other_chan_notin h r r' s i u :
  hub_wf h → r' ≠ r → runs h !! r' = Some s → subscribers s !! i = Some u →
  sub_ch u ∉ live_chans (subscribers (getRun h r)).
Proof.
  intros Hw Hne H1 H2 Hin. apply elem_of_live_chans in Hin as (j & v & Hv & _ & Heq).
  pose proof (getRun_sub _ _ _ _ Hv) as Hr.
  by destruct (hw_inj _ Hw _ _ _ _ _ _ _ _ Hr Hv H1 H2 Heq) as [-> _].
Qed.


(** ** Every operation preserves the invariant *)

Record append_ok (h : Hub) (r : Z) (s : runState) (e : StreamEvent) : Prop := {
  ao_sorted : StronglySorted (key_lt Seq) (events s);
  ao_new : ∀ x, x ∈ events s → Seq x < Seq e;
  ao_last : lastPublished s = Seq e;
  ao_bytes : eventBytes s = sum_by eventSize (events s);
  ao_closed : closed s = false;
  ao_subs : subscribers s = subscribers (getRun h r)
}.

Lemma append_sorted h r s e : append_ok h r s e → StronglySorted (key_lt Seq) (events s ++ [e]).
Proof. intros [Hs Hn _ _ _ _]. by apply key_sorted_snoc. Qed.

Lemma append_bytes h r s e :
  append_ok h r s e → eventBytes s + eventSize e = sum_by eventSize (events s ++ [e]).
Proof. intros Ha. rewrite sum_by_app, (ao_bytes _ _ _ _ Ha). simpl. lia. Qed.

Lemma send_chan_live ch e :
  ch_closed ch = false → chan_full ch = false →
  ch_closed (send_chan e ch) = false ∧ zlen (ch_buf (send_chan e ch)) ≤ ch_cap (send_chan e ch).
Proof.
  unfold send_chan, zlen. intros Hc Hf. rewrite Hf. unfold chan_full, zlen in Hf. bool_prop.
  simpl. split; [done|]. rewrite length_app. simpl. lia.
Qed.

(** The subscribers [notifySubscribersLocked] keeps, and their channels. *)
Lemma notify_kept s e cs i u :
  subscribers (notifySubscribersLocked s e cs).1 !! i = Some u ↔
  subscribers s !! i = Some u ∧ keep_sub cs u = true.
Proof. simpl. by rewrite map_lookup_filter_Some. Qed.

Lemma notify_chan s e cs c :
  (notifySubscribersLocked s e cs).2 !! c =
  (if bool_decide (c ∈ live_chans (subscribers s)) then send_chan e <$> cs !! c else cs !! c).
Proof. simpl. rewrite map_lookup_imap. case_bool_decide; by destruct (cs !! c). Qed.

Lemma notify_kept_live h r s e i u :
  hub_wf h → subscribers s = subscribers (getRun h r) → subscribers s !! i = Some u →
  keep_sub (chans h) u = true →
  ∃ ch, chans h !! sub_ch u = Some ch ∧ chan_full ch = false ∧
    (notifySubscribersLocked s e (chans h)).2 !! sub_ch u = Some (send_chan e ch) ∧
    chan_live (notifySubscribersLocked s e (chans h)).2 (sub_ch u).
Proof.
  intros Hw Hsub Hu Hk. rewrite Hsub in Hu. pose proof (getRun_sub _ _ _ _ Hu) as Hr.
  destruct (hw_subs _ Hw _ _ _ _ Hr Hu) as [Hcl (ch & Hch & Hopen & Hlen)].
  unfold keep_sub in Hk. rewrite Hcl, Hch in Hk. simpl in Hk. bool_prop.
  assert ((notifySubscribersLocked s e (chans h)).2 !! sub_ch u = Some (send_chan e ch)) as Hn.
  { rewrite notify_chan, Hch, bool_decide_eq_true_2; [done|].
    apply elem_of_live_chans. rewrite Hsub. eauto. }
  exists ch. split_and!; auto. exists (send_chan e ch). split; [done|]. by apply send_chan_live.
Qed.

Lemma appendEvent_inv h r s e h' :
  appendEvent h r s e = Some h' →
  ∃ evs b, trimEventsLocked (trim_fuel (events s ++ [e])) (MaxEvents (config h)) (MaxBytes (config h))
             (events s ++ [e]) (eventBytes s + eventSize e) = Some (evs, b) ∧
    h' = set_run r (notifySubscribersLocked (set_ring evs b s) e (chans h)).1
           (set_chans (notifySubscribersLocked (set_ring evs b s) e (chans h)).2 h).
Proof.
  unfold appendEvent. destruct (trimEventsLocked _ _ _ _ _) as [[evs b]|]; [|done].
  intros [= <-]. eauto.
Qed.

Lemma appendEvent_wf h r s e h' :
  hub_wf h → append_ok h r s e → appendEvent h r s e = Some h' → hub_wf h'.
Proof.
  intros Hw Ha (evs & b & Ht & ->)%appendEvent_inv.
  destruct (hw_cfg _ Hw) as [Hme Hmb _].
  apply trimEvents_spec in Ht as (Hs & Hb & (gone & Hp & _) & _);
    [|by eapply append_sorted|by eapply append_bytes|done|done].
  apply hub_wf_update; auto.
  - split; simpl; auto.
    + intros x Hx. rewrite (ao_last _ _ _ _ Ha).
      assert (x ∈ events s ++ [e]) as Hin by (rewrite Hp; apply elem_of_app; auto).
      apply elem_of_app in Hin as [Hin|Hin]; [apply (ao_new _ _ _ _ Ha) in Hin; lia|].
      apply list_elem_of_singleton in Hin as ->. lia.
    + intros Hc. rewrite (ao_closed _ _ _ _ Ha) in Hc. done.
  - simpl. rewrite <- (ao_subs _ _ _ _ Ha). apply map_filter_subseteq.
  - intros c. rewrite notify_chan. case_bool_decide; by rewrite ?fmap_is_Some.
  - intros i u Hu. apply notify_kept in Hu as [Hu Hk].
    edestruct notify_kept_live as (? & _ & _ & _ & Hl); [done| |exact Hu|exact Hk|exact Hl].
    simpl. by eapply ao_subs.
  - intros r' s1 i u Hne H1 H2. rewrite notify_chan, bool_decide_eq_false_2; [done|].
    simpl. rewrite (ao_subs _ _ _ _ Ha). by eapply other_chan_notin.
Qed.

Lemma closeAll_lookup subs cs c :
  closeAll subs cs !! c =
  (if bool_decide (c ∈ live_chans subs) then close_chan <$> cs !! c else cs !! c).
Proof. unfold closeAll. rewrite map_lookup_imap. case_bool_decide; by destruct (cs !! c). Qed.

Lemma finishClose_wf h r now : hub_wf h → hub_wf (finishClose h r now).
Proof.
  intros Hw. pose proof (getRun_wf h r Hw) as [? ? ? _]. apply hub_wf_update; auto; simpl.
  - by split.
  - apply map_empty_subseteq.
  - intros c. rewrite closeAll_lookup. case_bool_decide; by rewrite ?fmap_is_Some.
  - intros i u Hu. by rewrite lookup_empty in Hu.
  - intros r' s i u Hne H1 H2. rewrite closeAll_lookup, bool_decide_eq_false_2; [done|].
    by eapply other_chan_notin.
Qed.

(** The state [PublishPrepared] and [CloseRun] hand to [appendEvent]. *)
Lemma accept_append_ok h r n e t p :
  hub_wf h → closed (getRun h r) = false → lastPublished (getRun h r) < Seq e →
  append_ok h r (set_marks t p (set_seqs n (Seq e) (getRun h r))) e.
Proof.
  intros Hw Hc Hl. destruct (getRun_wf h r Hw) as [Hs Hle Hb _].
  split; simpl; auto. intros x Hx. apply Hle in Hx. lia.
Qed.

Lemma run_wf_set_seqs n s : run_wf s → run_wf (set_seqs n (lastPublished s) s).
Proof. intros []. by split. Qed.

Lemma PublishPrepared_wf h e now h' : hub_wf h → PublishPrepared h e now = Some h' → hub_wf h'.
Proof.
  intros Hw. unfold PublishPrepared. pose proof (getRun_wf h (RunID e) Hw) as Hr.
  destruct (RunID e =? 0); [by intros [= <-]|].
  destruct (closed _) eqn:Hc; [intros [= <-]; by apply hub_wf_set_run|].
  destruct (assignSeq _ _) as [e' n] eqn:He.
  destruct (Seq e' <=? _) eqn:Hle; [intros [= <-]; apply hub_wf_set_run; auto; by apply run_wf_set_seqs|].
  bool_prop. intros Ha. eapply appendEvent_wf; [done| |exact Ha]. by apply accept_append_ok.
Qed.

Lemma CloseRun_wf h r e now h' : hub_wf h → CloseRun h r e now = Some h' → hub_wf h'.
Proof.
  intros Hw. unfold CloseRun. pose proof (getRun_wf h r Hw) as Hr.
  destruct (r =? 0); [by intros [= <-]|].
  destruct (closed _) eqn:Hc; [intros [= <-]; by apply hub_wf_set_run|].
  destruct (assignSeq _ _) as [e' n] eqn:He.
  destruct (Seq e' <=? _) eqn:Hle.
  { intros [= <-]. apply finishClose_wf, hub_wf_set_run; auto. by apply run_wf_set_seqs. }
  destruct (appendEvent _ _ _ _) eqn:Ha; [|done]. intros [= <-]. bool_prop.
  eapply finishClose_wf, appendEvent_wf; [done| |exact Ha]. by apply accept_append_ok.
Qed.


Lemma elem_of_run_chans P m c :
  c ∈ run_chans P m ↔ ∃ r s, m !! r = Some s ∧ P s = true ∧ c ∈ live_chans (subscribers s).
Proof.
  unfold run_chans. rewrite elem_of_union_list. split.
  - intros (X & HX & Hc). apply list_elem_of_fmap in HX as (s & -> & Hs).
    apply list_elem_of_filter in Hs as [HP Hs].
    apply list_elem_of_fmap in Hs as ([r s'] & -> & Hs). apply elem_of_map_to_list in Hs. eauto.
  - intros (r & s & Hm & HP & Hc). exists (live_chans (subscribers s)). split; [|done].
    apply list_elem_of_fmap. exists s. split; [done|]. apply list_elem_of_filter. split; [done|].
    apply list_elem_of_fmap. exists (r, s). split; [done|]. by apply elem_of_map_to_list.
Qed.

Lemma dropRuns_lookup P h r s :
  runs (dropRuns P h) !! r = Some s ↔ runs h !! r = Some s ∧ P s = false.
Proof. simpl. by rewrite map_lookup_filter_Some. Qed.

Lemma dropRuns_chan P h c :
  chans (dropRuns P h) !! c =
  (if bool_decide (c ∈ run_chans P (runs h)) then close_chan <$> chans h !! c else chans h !! c).
Proof. simpl. rewrite map_lookup_imap. case_bool_decide; by destruct (chans h !! c). Qed.

(** The channels of a run that stays are left alone. *)
Lemma dropRuns_kept_chan P h r s i u :
  hub_wf h → runs h !! r = Some s → P s = false → subscribers s !! i = Some u →
  chans (dropRuns P h) !! sub_ch u = chans h !! sub_ch u.
Proof.
  intros Hw Hr HP Hu. rewrite dropRuns_chan, bool_decide_eq_false_2; [done|].
  intros (r2 & s2 & H2 & HP2 & (j & v & Hv & _ & Heq)%elem_of_live_chans)%elem_of_run_chans.
  destruct (hw_inj _ Hw _ _ _ _ _ _ _ _ H2 Hv Hr Hu Heq) as [-> _]. congruence.
Qed.

Lemma dropRuns_wf P h : hub_wf h → hub_wf (dropRuns P h).
Proof.
  intros Hw. split.
  - apply Hw.
  - intros r s [Hr _]%dropRuns_lookup. by eapply hw_runs.
  - intros r s i u [Hr HP]%dropRuns_lookup Hu. destruct (hw_subs _ Hw _ _ _ _ Hr Hu).
    split; [done|]. unfold chan_live. by erewrite dropRuns_kept_chan.
  - intros r1 s1 i1 u1 r2 s2 i2 u2 [H1 _]%dropRuns_lookup Hu1 [H2 _]%dropRuns_lookup Hu2.
    by eapply (hw_inj _ Hw).
  - intros c Hc. apply (hw_fresh _ Hw). rewrite dropRuns_chan in Hc.
    case_bool_decide; by rewrite ?fmap_is_Some in Hc.
Qed.

Lemma removeExpiredRuns_wf h now : hub_wf h → hub_wf (removeExpiredRuns h now).
Proof. apply dropRuns_wf. Qed.

Lemma Prepare_wf h r e now : hub_wf h → hub_wf (Prepare h r e now).1.
Proof.
  intros Hw. unfold Prepare. destruct (r =? 0); [done|].
  pose proof (getRun_wf h r Hw). destruct (closed _); simpl; apply hub_wf_set_run; auto.
  by apply run_wf_set_seqs.
Qed.

Lemma alloc_wf c h : hub_wf h → hub_wf (alloc_chan c h).1.
Proof.
  intros Hw. assert (∀ r s i u, runs h !! r = Some s → subscribers s !! i = Some u →
    sub_ch u ≠ nextChan h) as Hne.
  { intros r s i u Hr Hu Heq. destruct (hw_subs _ Hw _ _ _ _ Hr Hu) as [_ (ch & Hch & _)].
    pose proof (hw_fresh _ Hw (sub_ch u) ltac:(eauto)). lia. }
  split; simpl.
  - apply Hw.
  - apply Hw.
  - intros r s i u Hr Hu. destruct (hw_subs _ Hw _ _ _ _ Hr Hu). split; [done|].
    unfold chan_live. rewrite lookup_insert_ne; [done|]. symmetry. by eapply Hne.
  - apply Hw.
  - intros d Hd. destruct (decide (d = nextChan h)) as [->|Hd']; [lia|].
    rewrite lookup_insert_ne in Hd by done. apply (hw_fresh _ Hw) in Hd. lia.
Qed.

(** Registering a fresh channel under a run that is open. *)
Lemma register_wf h r id cap :
  hub_wf h → closed (getRun h r) = false → 0 < cap →
  let c := nextChan h in
  hub_wf (set_run r (set_subs id (<[id := mkSub c false]> (subscribers (getRun h r))) (getRun h r))
            (alloc_chan (mkChan [] cap false) h).1).
Proof.
  intros Hw Hc Hcap c. pose proof (alloc_wf (mkChan [] cap false) h Hw) as Hw'.
  destruct (getRun_wf h r Hw) as [Hs Hl Hb _].
  assert (∀ r1 s1 i1 u1,
    <[r := set_subs id (<[id := mkSub c false]> (subscribers (getRun h r))) (getRun h r)]> (runs h)
      !! r1 = Some s1 → subscribers s1 !! i1 = Some u1 →
    (r1 = r ∧ i1 = id ∧ u1 = mkSub c false) ∨
    (∃ s0, runs h !! r1 = Some s0 ∧ subscribers s0 !! i1 = Some u1 ∧ sub_ch u1 ≠ c)) as Hold.
  { intros r1 s1 i1 u1 H1 H2.
    assert (∀ s0, runs h !! r1 = Some s0 → subscribers s0 !! i1 = Some u1 → sub_ch u1 ≠ c) as Hne.
    { intros s0 H3 H4 Heq. destruct (hw_subs _ Hw _ _ _ _ H3 H4) as [_ (ch & Hch & _)].
      pose proof (hw_fresh _ Hw (sub_ch u1) ltac:(eauto)). subst c. lia. }
    destruct (decide (r = r1)) as [<-|Hr].
    - rewrite lookup_insert_eq in H1. simplify_eq. simpl in H2.
      destruct (decide (id = i1)) as [<-|Hi].
      + rewrite lookup_insert_eq in H2. simplify_eq. auto.
      + rewrite lookup_insert_ne in H2 by done. right.
        pose proof (getRun_sub _ _ _ _ H2). eauto 10.
    - rewrite lookup_insert_ne in H1 by done. right. eauto 10. }
  split; simpl.
  - apply Hw.
  - intros r1 s1 H1. destruct (decide (r = r1)) as [<-|Hr].
    + rewrite lookup_insert_eq in H1. simplify_eq. split; simpl; auto. congruence.
    + rewrite lookup_insert_ne in H1 by done. by eapply (hw_runs _ Hw).
  - intros r1 s1 i1 u1 H1 H2. destruct (Hold _ _ _ _ H1 H2) as [(-> & -> & ->)|(s0 & H3 & H4 & Hn)].
    + simpl. split; [done|]. eexists. rewrite lookup_insert_eq. split; [done|].
      unfold zlen. simpl. split; [done|lia].
    + by eapply (hw_subs _ Hw').
  - intros r1 s1 i1 u1 r2 s2 i2 u2 H1 H2 H3 H4 Heq.
    destruct (Hold _ _ _ _ H1 H2) as [(-> & -> & ->)|(s3 & H5 & H6 & Hn1)];
    destruct (Hold _ _ _ _ H3 H4) as [(-> & -> & ->)|(s4 & H7 & H8 & Hn2)];
      simpl in *; try done; try congruence. by eapply (hw_inj _ Hw).
  - apply Hw'.
Qed.

Lemma Subscribe_wf h r a now : hub_wf h → hub_wf (Subscribe h r a now).1.
Proof.
  intros Hw. unfold Subscribe. destruct (r =? 0); [by apply alloc_wf|].
  pose proof (removeExpiredRuns_wf h now Hw) as Hw1. set (h1 := removeExpiredRuns h now) in *.
  destruct (closed _) eqn:Hc.
  - apply (alloc_wf _ (set_run r (getRun h1 r) h1)). apply hub_wf_set_run; auto. by apply getRun_wf.
  - apply register_wf; auto. case_match; bool_prop; [done|lia].
Qed.

Lemma cancel_wf h r i c : hub_wf h → hub_wf (cancel h r i c).
Proof.
  intros Hw. unfold cancel. destruct (runs h !! r) as [s|] eqn:Hr; [|done].
  destruct (subscribers s !! i) as [u|] eqn:Hu; [|done]. case_bool_decide as Hc; [|done].
  destruct (hw_subs _ Hw _ _ _ _ Hr Hu) as [Hcl _]. rewrite Hcl. subst c.
  assert (getRun h r = s) as Hg by (unfold getRun; by rewrite Hr).
  destruct (hw_runs _ Hw _ _ Hr) as [H1 H2 H3 H4].
  assert (∀ r' s' j v, runs h !! r' = Some s' → subscribers s' !! j = Some v → (r', j) ≠ (r, i) →
    alter close_chan (sub_ch u) (chans h) !! sub_ch v = chans h !! sub_ch v) as Halt.
  { intros r' s' j v Hr' Hv Hne. apply lookup_alter_ne. intros Heq.
    destruct (hw_inj _ Hw _ _ _ _ _ _ _ _ Hr Hu Hr' Hv Heq) as [-> ->]. done. }
  apply hub_wf_update; auto.
  - split; simpl; auto. intros Hcls. rewrite H4 in Hu by done. by rewrite lookup_empty in Hu.
  - simpl. rewrite Hg. apply delete_subseteq.
  - intros d. destruct (decide (sub_ch u = d)) as [<-|Hd].
    + rewrite lookup_alter_eq. by rewrite fmap_is_Some.
    + by rewrite lookup_alter_ne.
  - simpl. intros j v [Hne Hv]%lookup_delete_Some. unfold chan_live.
    rewrite (Halt r s j v); [|done|done|congruence]. by eapply (hw_subs _ Hw).
  - intros r' s' j v Hne Hr' Hv. eapply Halt; eauto. congruence.
Qed.

Lemma recv_wf h c : hub_wf h → hub_wf (recv h c).1.
Proof.
  intros Hw. unfold recv. destruct (chans h !! c) as [[[|e buf] cap cl]|] eqn:Hc; [done| |done].
  split; simpl; try apply Hw.
  - intros r s i u Hr Hu. destruct (hw_subs _ Hw _ _ _ _ Hr Hu) as [Hcl (ch & Hch & Ho & Hl)].
    split; [done|]. destruct (decide (c = sub_ch u)) as [->|Hne].
    + rewrite Hc in Hch. simplify_eq. simpl in *. eexists. rewrite lookup_insert_eq.
      split; [done|]. unfold zlen in *. simpl in *. split; [done|lia].
    + exists ch. by rewrite lookup_insert_ne.
  - intros d Hd. apply (hw_fresh _ Hw). destruct (decide (c = d)) as [->|Hne]; [by eexists|].
    by rewrite lookup_insert_ne in Hd.
Qed.

Lemma Snapshot_state h r now :
  (Snapshot h r now).1 = if r =? 0 then h else removeExpiredRuns h now.
Proof. unfold Snapshot. destruct (r =? 0); [done|]. repeat case_match; done. Qed.

Lemma exec_wf h o h' : hub_wf h → exec h o = Some h' → hub_wf h'.
Proof.
  intros Hw. destruct o; simpl; try (intros [= <-]).
  - by apply Prepare_wf.
  - by apply PublishPrepared_wf.
  - by apply Subscribe_wf.
  - by apply cancel_wf.
  - rewrite Snapshot_state. case_match; [done|]. by apply removeExpiredRuns_wf.
  - by apply CloseRun_wf.
  - by apply removeExpiredRuns_wf.
  - by apply dropRuns_wf.
  - by apply recv_wf.
Qed.

Lemma reaches_wf r P h0 H h : hub_wf h0 → reaches r P h0 H h → hub_wf h.
Proof. induction 2; [done|]. eapply exec_wf; eauto. Qed.


(** ** Live delivery *)

Definition registered (h : Hub) (r i : Z) (c : positive) : Prop :=
  ∃ s, runs h !! r = Some s ∧ subscribers s !! i = Some (mkSub c false).

Lemma registered_getRun h r i c :
  registered h r i c ↔ subscribers (getRun h r) !! i = Some (mkSub c false).
Proof.
  split.
  - intros (s & Hr & Hs). unfold getRun. by rewrite Hr.
  - intros Hs. exists (getRun h r). split; [by eapply getRun_sub|done].
Qed.

Lemma getRun_set_run h r r' s : getRun (set_run r s h) r' = if decide (r = r') then s else getRun h r'.
Proof.
  unfold getRun. simpl. case_decide as Hr; [subst; by rewrite lookup_insert_eq|].
  by rewrite lookup_insert_ne.
Qed.

(** What [PublishPrepared] does to the run and to the channels. *)
Lemma PublishPrepared_cases h e now h' :
  PublishPrepared h e now = Some h' →
  (published (RunID e) h (OpPublish e now) = [] ∧ chans h' = chans h ∧ nextChan h' = nextChan h ∧
   config h' = config h ∧
   (h' = h ∨ ∃ n, h' = set_run (RunID e) (set_seqs n (lastPublished (getRun h (RunID e)))
                                   (getRun h (RunID e))) h)) ∨
  (∃ e' n t p, published (RunID e) h (OpPublish e now) = [e'] ∧ closed (getRun h (RunID e)) = false ∧
     lastPublished (getRun h (RunID e)) < Seq e' ∧
     e' = cloneEvent (assignSeq (getRun h (RunID e)) (normalizeEvent e (RunID e) now)).1 ∧
     appendEvent h (RunID e) (set_marks t p (set_seqs n (Seq e') (getRun h (RunID e)))) e' = Some h').
Proof.
  unfold PublishPrepared, published, acceptPublish. rewrite Z.eqb_refl. simpl.
  destruct (RunID e =? 0) eqn:H0; simpl.
  { intros [= <-]. left. auto 10. }
  destruct (assignSeq _ _) as [e' n] eqn:Ha.
  destruct (closed _) eqn:Hc.
  { intros [= <-]. left. split_and!; auto. right. exists (nextSeq (getRun h (RunID e))).
    by destruct (getRun h (RunID e)). }
  destruct (Seq e' <=? _) eqn:Hle.
  { intros [= <-]. left. split_and!; auto. right. by exists n. }
  bool_prop. intros Hh. right. do 4 eexists. split_and!; [done|done|done|done|]. exact Hh.
Qed.

Lemma CloseRun_cases h r e now h' :
  CloseRun h r e now = Some h' →
  (r = 0 ∧ h' = h) ∨
  (r ≠ 0 ∧ closed (getRun h r) = true ∧ h' = set_run r (getRun h r) h ∧ published r h (OpCloseRun r e now) = []) ∨
  (r ≠ 0 ∧ closed (getRun h r) = false ∧ published r h (OpCloseRun r e now) = [] ∧
   ∃ n, h' = finishClose (set_run r (set_seqs n (lastPublished (getRun h r)) (getRun h r)) h) r now) ∨
  (r ≠ 0 ∧ closed (getRun h r) = false ∧ ∃ e' n t p h1, published r h (OpCloseRun r e now) = [e'] ∧
     lastPublished (getRun h r) < Seq e' ∧
     appendEvent h r (set_marks t p (set_seqs n (Seq e') (getRun h r))) e' = Some h1 ∧
     h' = finishClose h1 r now).
Proof.
  unfold CloseRun, published, acceptClose. rewrite Z.eqb_refl. simpl.
  destruct (r =? 0) eqn:H0; bool_prop; simpl.
  { intros [= <-]. auto. }
  destruct (assignSeq _ _) as [e' n] eqn:Ha.
  destruct (closed _) eqn:Hc.
  { intros [= <-]. right; left. auto. }
  destruct (Seq e' <=? _) eqn:Hle.
  { intros [= <-]. right; right; left. split_and!; auto. by exists n. }
  destruct (appendEvent _ _ _ _) as [h1|] eqn:Hh; [|done]. intros [= <-].
  bool_prop. right; right; right. split_and!; auto. do 5 eexists. split_and!; [done|done|exact Hh|done].
Qed.

Lemma published_other r h e now : RunID e ≠ r → published r h (OpPublish e now) = [].
Proof. intros Hne. simpl. by rewrite (proj2 (Z.eqb_neq _ _) Hne). Qed.

Lemma appendEvent_getRun h r s e h' r' :
  appendEvent h r s e = Some h' → r' ≠ r → getRun h' r' = getRun h r'.
Proof. intros (evs & b & _ & ->)%appendEvent_inv Hne. rewrite getRun_set_run, decide_False by done. done. Qed.

Lemma appendEvent_next h r s e h' :
  appendEvent h r s e = Some h' → nextChan h' = nextChan h ∧ config h' = config h.
Proof. by intros (evs & b & _ & ->)%appendEvent_inv. Qed.

Lemma appendEvent_sub h r s e h' i u :
  appendEvent h r s e = Some h' → subscribers (getRun h' r) !! i = Some u →
  subscribers s !! i = Some u ∧ keep_sub (chans h) u = true.
Proof.
  intros (evs & b & _ & ->)%appendEvent_inv. rewrite getRun_set_run, decide_True by done.
  by intros [? ?]%notify_kept.
Qed.

(** A subscriber registered after a step was registered before it, or the step
    allocated its channel. *)
Lemma step_origin h o h' r i c :
  exec h o = Some h' → registered h' r i c → registered h r i c ∨ c = nextChan h.
Proof.
  rewrite !registered_getRun. destruct o as [r' e now|e now|r' a now|r' i' c'|r' now|r' e now|now| |c'];
    simpl; try (intros [= <-]).
  - unfold Prepare. destruct (r' =? 0); [auto|]. destruct (closed _); simpl;
      rewrite getRun_set_run; case_decide; subst; auto.
  - intros Hp. apply PublishPrepared_cases in Hp as [(_ & _ & _ & _ & [->|[n ->]])|(e' & n & t & p & _ & _ & _ & _ & Ha)].
    + auto.
    + rewrite getRun_set_run. case_decide; subst; auto.
    + destruct (decide (r = RunID e)) as [->|Hne].
      * intros Hs. eapply appendEvent_sub in Hs as [Hs _]; [|exact Ha]. auto.
      * rewrite (appendEvent_getRun _ _ _ _ _ _ Ha Hne). auto.
  - assert (∀ r i, subscribers (getRun (removeExpiredRuns h now) r) !! i = Some (mkSub c false) →
      subscribers (getRun h r) !! i = Some (mkSub c false)) as Hold.
    { intros r1 i1 Hs. apply registered_getRun in Hs as (s & [Hr _]%dropRuns_lookup & Hs).
      apply registered_getRun. exists s. auto. }
    unfold Subscribe. destruct (r' =? 0); [simpl; auto|].
    destruct (closed _); simpl.
    + change (getRun (mkHub _ _ _ _) r) with (getRun (set_run r' (getRun (removeExpiredRuns h now) r') (removeExpiredRuns h now)) r).
      rewrite getRun_set_run. case_decide; subst; intros ?%Hold; auto.
    + rewrite getRun_set_run. case_decide; subst; simpl.
      * intros [[_ [= <-]]|[_ ?%Hold]]%lookup_insert_Some; auto.
      * change (getRun (mkHub _ _ _ _) r) with (getRun (removeExpiredRuns h now) r).
        intros ?%Hold. auto.
  - unfold cancel. destruct (runs h !! r') as [s|] eqn:Hr; [|auto].
    destruct (subscribers s !! i') as [u|] eqn:Hu; [|auto]. case_bool_decide; [|auto].
    rewrite getRun_set_run. case_decide; [|simpl; auto]. subst. simpl.
    intros [_ Hd]%lookup_delete_Some. unfold getRun. rewrite Hr. auto.
  - rewrite Snapshot_state. destruct (r' =? 0); [auto|].
    intros (s & [Hr _]%dropRuns_lookup & Hs)%registered_getRun. left. apply registered_getRun. exists s. auto.
  - intros Hp. apply CloseRun_cases in Hp as [[-> ->]|[(_ & _ & -> & _)|[(_ & _ & _ & n & ->)|(_ & _ & e' & n & t & p & h1 & _ & _ & Ha & ->)]]].
    + auto.
    + rewrite getRun_set_run. case_decide; subst; auto.
    + unfold finishClose. rewrite getRun_set_run. case_decide; simpl; [by rewrite lookup_empty|].
      change (getRun (set_chans _ _) r) with (getRun (set_run r' (set_seqs n (lastPublished (getRun h r')) (getRun h r')) h) r).
      rewrite getRun_set_run, decide_False by done. auto.
    + unfold finishClose. rewrite getRun_set_run. case_decide as Hd; simpl; [by rewrite lookup_empty|].
      change (getRun (set_chans _ _) r) with (getRun h1 r).
      rewrite (appendEvent_getRun _ _ _ _ _ r Ha) by done. auto.
  - intros (s & [Hr _]%dropRuns_lookup & Hs)%registered_getRun. left. apply registered_getRun. exists s. auto.
  - intros (s & [Hr _]%dropRuns_lookup & Hs)%registered_getRun. left. apply registered_getRun. exists s. auto.
  - unfold recv. repeat case_match; simpl; auto.
Qed.


Lemma step_next h o h' : exec h o = Some h' → (nextChan h ≤ nextChan h')%positive ∧ config h' = config h.
Proof.
  destruct o as [r' e now|e now|r' a now|r' i' c'|r' now|r' e now|now| |c']; simpl; try (intros [= <-]).
  - unfold Prepare. repeat case_match; simpl; split; done || lia.
  - intros Hp. apply PublishPrepared_cases in Hp as [(_ & _ & -> & -> & _)|(e' & n & t & p & _ & _ & _ & _ & Ha)];
      [split; done || lia|]. apply appendEvent_next in Ha as [-> ->]. split; done || lia.
  - unfold Subscribe. destruct (r' =? 0); [|destruct (closed _)]; simpl; split; done || lia.
  - unfold cancel. repeat case_match; simpl; split; done || lia.
  - rewrite Snapshot_state. case_match; simpl; split; done || lia.
  - intros Hp. apply CloseRun_cases in Hp as [[-> ->]|[(_ & _ & -> & _)|[(_ & _ & _ & n & ->)|(_ & _ & e' & n & t & p & h1 & _ & _ & Ha & ->)]]];
      [simpl; split; done || lia..|]. apply appendEvent_next in Ha as [? ?]. simpl. split; congruence || lia.
  - simpl. split; done || lia.
  - simpl. split; done || lia.
  - unfold recv. repeat case_match; simpl; split; done || lia.
Qed.

Lemma registered_chan h r i c : hub_wf h → registered h r i c → ∃ ch, chans h !! c = Some ch.
Proof. intros Hw (s & Hr & Hs). destruct (hw_subs _ Hw _ _ _ _ Hr Hs) as [_ (ch & Hch & _)]. eauto. Qed.

(** The channel of a registered subscriber is not touched by what happens on
    another run. *)
Lemma registered_notin h r i c r' :
  hub_wf h → registered h r i c → r ≠ r' → c ∉ live_chans (subscribers (getRun h r')).
Proof. intros Hw (s & Hr & Hs) Hne. apply (other_chan_notin h r' r s i (mkSub c false)); auto. Qed.

Lemma appendEvent_chan_other h r s e h' c :
  appendEvent h r s e = Some h' → c ∉ live_chans (subscribers s) → chans h' !! c = chans h !! c.
Proof.
  intros (evs & b & _ & ->)%appendEvent_inv Hn.
  change (chans (set_run _ _ (set_chans ?m h))) with m.
  by rewrite notify_chan, bool_decide_eq_false_2.
Qed.

Lemma appendEvent_chan_own h r s e h' i c :
  hub_wf h → subscribers s = subscribers (getRun h r) →
  appendEvent h r s e = Some h' → registered h' r i c →
  ∃ ch ch', chans h !! c = Some ch ∧ chans h' !! c = Some ch' ∧ ch_buf ch' = ch_buf ch ++ [cloneEvent e].
Proof.
  intros Hw Hsub Ha Hreg. apply registered_getRun in Hreg.
  destruct (appendEvent_sub _ _ _ _ _ _ _ Ha Hreg) as [Hs Hk].
  apply appendEvent_inv in Ha as (evs & b & _ & ->).
  destruct (notify_kept_live h r (set_ring evs b s) e i (mkSub c false)) as (ch & Hch & Hfull & Hn & _); auto.
  exists ch, (send_chan e ch). split; [done|]. split; [exact Hn|].
  unfold send_chan. by rewrite Hfull.
Qed.

Lemma dropRuns_chan_kept P h r i c :
  hub_wf h → registered (dropRuns P h) r i c → chans (dropRuns P h) !! c = chans h !! c.
Proof.
  intros Hw (s & [Hr HP]%dropRuns_lookup & Hs).
  apply (dropRuns_kept_chan P h r s i (mkSub c false)); auto.
Qed.

Lemma finishClose_unregistered h r now i c : ¬ registered (finishClose h r now) r i c.
Proof.
  rewrite registered_getRun. unfold finishClose. rewrite getRun_set_run, decide_True by done.
  simpl. by rewrite lookup_empty.
Qed.

Lemma finishClose_chan_other h r now r' i c :
  hub_wf h → registered h r' i c → r' ≠ r → chans (finishClose h r now) !! c = chans h !! c.
Proof.
  intros Hw Hreg Hne. unfold finishClose.
  change (chans (set_run _ _ (set_chans ?m h))) with m.
  rewrite closeAll_lookup, bool_decide_eq_false_2; [done|]. by eapply registered_notin.
Qed.

(** One step of delivery: what the consumer takes out and what is left in the
    buffer is what was in the buffer and what the step published. *)
Definition delivers (h : Hub) (o : op) (h' : Hub) (r : Z) (c : positive) : Prop :=
  ∃ ch ch', chans h !! c = Some ch ∧ chans h' !! c = Some ch' ∧
    received c h o ++ ch_buf ch' = ch_buf ch ++ published r h o.

Lemma delivers_same h o h' r i c :
  hub_wf h → registered h r i c → chans h' !! c = chans h !! c →
  received c h o = [] → published r h o = [] → delivers h o h' r c.
Proof.
  intros Hw Hreg Hc Hr Hp. destruct (registered_chan h r i c Hw Hreg) as [ch Hch].
  exists ch, ch. by rewrite Hc, Hr, Hp, app_nil_r.
Qed.

Lemma publish_live h e now h' r i c :
  hub_wf h → PublishPrepared h e now = Some h' → registered h r i c → registered h' r i c →
  delivers h (OpPublish e now) h' r c.
Proof.
  intros Hw He Hreg Hreg'. destruct (decide (RunID e = r)) as [Hr|Hr].
  - apply PublishPrepared_cases in He as [(Hp & Hc & _)|(e' & n & t & p & Hp & _ & _ & _ & Ha)]; subst r.
    + apply (delivers_same h _ h' _ i); auto. by rewrite Hc.
    + apply (appendEvent_chan_own _ _ _ _ _ i c) in Ha as (c1 & c2 & H1 & H2 & H3); auto.
      exists c1, c2. rewrite Hp, H3, cloneEvent_id. auto.
  - apply (delivers_same h _ h' _ i); auto; [|by apply published_other].
    apply PublishPrepared_cases in He as [(_ & -> & _)|(e' & n & t & p & _ & _ & _ & _ & Ha)]; [done|].
    eapply appendEvent_chan_other; [exact Ha|]. by eapply registered_notin.
Qed.

Lemma subscribe_live h r' a now r i c :
  hub_wf h → registered h r i c → registered (Subscribe h r' a now).1 r i c →
  chans (Subscribe h r' a now).1 !! c = chans h !! c.
Proof.
  intros Hw Hreg Hreg'. destruct (registered_chan h r i c Hw Hreg) as [ch Hch].
  assert (c ≠ nextChan h) as Hn by (pose proof (hw_fresh _ Hw c ltac:(eauto)); lia).
  unfold Subscribe in *. destruct (r' =? 0); [simpl; by apply lookup_insert_ne|].
  assert (registered (removeExpiredRuns h now) r i c → chans (removeExpiredRuns h now) !! c = chans h !! c) as Hk
    by apply dropRuns_chan_kept, Hw.
  destruct (closed _); simpl in *; rewrite lookup_insert_ne by done;
    apply Hk, registered_getRun; apply registered_getRun in Hreg'.
  - change (getRun (mkHub _ _ _ _) r) with (getRun (set_run r' (getRun (removeExpiredRuns h now) r') (removeExpiredRuns h now)) r) in Hreg'.
    rewrite getRun_set_run in Hreg'. case_decide; by subst.
  - rewrite getRun_set_run in Hreg'. case_decide; [|done]. subst. simpl in Hreg'.
    apply lookup_insert_Some in Hreg' as [[_ [= <-]]|[_ ?]]; done.
Qed.

Lemma cancel_live h r' i' c' r i c :
  hub_wf h → registered h r i c → registered (cancel h r' i' c') r i c →
  chans (cancel h r' i' c') !! c = chans h !! c.
Proof.
  intros Hw Hreg Hreg'. unfold cancel in *. destruct (runs h !! r') as [s|] eqn:Hr'; [|done].
  destruct (subscribers s !! i') as [u|] eqn:Hu; [|done]. case_bool_decide as Hu'; [|done]. subst c'.
  destruct (hw_subs _ Hw _ _ _ _ Hr' Hu) as [-> _]. simpl. apply lookup_alter_ne. intros Heq.
  destruct Hreg as (s1 & Hr1 & Hs1).
  destruct (hw_inj _ Hw _ _ _ _ _ _ _ _ Hr' Hu Hr1 Hs1 Heq) as [-> ->].
  apply registered_getRun in Hreg'. rewrite getRun_set_run, decide_True in Hreg' by done.
  simpl in Hreg'. by rewrite lookup_delete_eq in Hreg'.
Qed.

Lemma close_live h r' e now h' r i c :
  hub_wf h → CloseRun h r' e now = Some h' → registered h r i c → registered h' r i c →
  chans h' !! c = chans h !! c ∧ published r h (OpCloseRun r' e now) = [].
Proof.
  intros Hw He Hreg Hreg'. destruct (decide (r' = r)) as [->|Hr].
  - apply CloseRun_cases in He as [[-> ->]|[(_ & _ & -> & Hp)|[(_ & _ & _ & n & ->)|(_ & _ & e' & n & t & p & h1 & _ & _ & Ha & ->)]]];
      [done|done|exfalso; by eapply finishClose_unregistered..].
  - split; [|simpl; by rewrite (proj2 (Z.eqb_neq _ _) Hr)].
    apply CloseRun_cases in He as [[-> ->]|[(_ & _ & -> & Hp)|[(_ & _ & _ & n & ->)|(_ & Hc & e' & n & t & p & h1 & _ & Hl & Ha & ->)]]]; [done|done|..].
    + rewrite (finishClose_chan_other _ _ _ r i); [done| | |done].
      * apply hub_wf_set_run; auto. by apply run_wf_set_seqs, getRun_wf.
      * destruct Hreg as (s & Hr1 & Hs1). exists s. split; [|done]. simpl. by rewrite lookup_insert_ne.
    + assert (registered h1 r i c) as Hreg1.
      { apply registered_getRun. rewrite (appendEvent_getRun _ _ _ _ _ r Ha) by done. by apply registered_getRun. }
      assert (hub_wf h1) by (eapply appendEvent_wf; [exact Hw| |exact Ha]; by apply accept_append_ok).
      rewrite (finishClose_chan_other _ _ _ r i) by done.
      eapply appendEvent_chan_other; [exact Ha|]. by eapply registered_notin.
Qed.

Lemma recv_live h c' r i c : hub_wf h → registered h r i c → delivers h (OpRecv c') (recv h c').1 r c.
Proof.
  intros Hw Hreg. destruct (registered_chan h r i c Hw Hreg) as [ch Hch].
  unfold delivers. simpl. case_bool_decide as Hc; subst.
  - unfold recv. rewrite Hch. destruct ch as [[|e buf] cap cl]; simpl.
    + exists (mkChan [] cap cl), (mkChan [] cap cl). auto.
    + exists (mkChan (e :: buf) cap cl), (mkChan buf cap cl). rewrite lookup_insert_eq, app_nil_r. auto.
  - exists ch, ch. rewrite app_nil_r. split_and!; auto. unfold recv.
    destruct (chans h !! c') as [[[|e buf] cap cl]|]; simpl; auto. by rewrite lookup_insert_ne.
Qed.

Lemma step_live h o h' r i c :
  hub_wf h → exec h o = Some h' → registered h r i c → registered h' r i c → delivers h o h' r c.
Proof.
  intros Hw He Hreg Hreg'.
  destruct o as [r' e now|e now|r' a now|r' i' c'|r' now|r' e now|now| |c']; simpl in He; try (injection He as <-).
  - apply (delivers_same _ _ _ _ i); auto. unfold Prepare. repeat case_match; done.
  - by eapply publish_live.
  - apply (delivers_same _ _ _ _ i); auto. by eapply subscribe_live.
  - apply (delivers_same _ _ _ _ i); auto. by eapply cancel_live.
  - apply (delivers_same _ _ _ _ i); auto. rewrite Snapshot_state in *.
    destruct (r' =? 0); [done|]. by eapply dropRuns_chan_kept.
  - destruct (close_live _ _ _ _ _ _ _ _ Hw He Hreg Hreg'). by apply (delivers_same _ _ _ _ i).
  - apply (delivers_same _ _ _ _ i); auto. by eapply dropRuns_chan_kept.
  - apply (delivers_same _ _ _ _ i); auto. by eapply dropRuns_chan_kept.
  - by eapply recv_live.
Qed.

(** Delivery along an execution, as long as the subscriber is registered at
    the end. *)
Lemma trace_live r c h pub rcv h' i :
  trace r c h pub rcv h' → hub_wf h → (c < nextChan h)%positive → registered h' r i c →
  registered h r i c ∧
  ∃ ch ch', chans h !! c = Some ch ∧ chans h' !! c = Some ch' ∧ rcv ++ ch_buf ch' = ch_buf ch ++ pub.
Proof.
  induction 1 as [h|h o h1 pub rcv h2 He Ht IH]; intros Hw Hc Hreg.
  - split; [done|]. destruct (registered_chan _ _ _ _ Hw Hreg) as [ch Hch]. exists ch, ch. by rewrite app_nil_r.
  - pose proof (exec_wf _ _ _ Hw He) as Hw1. destruct (step_next _ _ _ He) as [Hn _].
    destruct (IH Hw1 ltac:(lia) Hreg) as (Hreg1 & ch1 & ch2 & H1 & H2 & H3).
    destruct (step_origin _ _ _ _ _ _ He Hreg1) as [Hreg0| ->]; [|lia].
    split; [done|]. destruct (step_live _ _ _ _ _ _ Hw He Hreg0 Hreg1) as (ch & ch1' & H4 & H5 & H6).
    rewrite H5 in H1. simplify_eq. exists ch, ch2. split_and!; auto.
    rewrite <- (assoc_L (++)), H3, (assoc_L (++)), H6. by rewrite <- (assoc_L (++)).
Qed.


(** ** Replay *)

(** The ring against the history of its run: a threshold says which transient events
    have been evicted. *)
Record ring_inv (s : runState) (H : list StreamEvent) : Prop := {
  ri_kept : ∃ k, k ≤ lastPublished s + 1 ∧ events s = filter (keeps_from k) H;
  ri_sorted : StronglySorted (key_lt Seq) H;
  ri_le : ∀ e, e ∈ H → Seq e ≤ lastPublished s
}.

Lemma ring_inv_new : ring_inv newRunState [].
Proof. split; simpl; [by exists 0|constructor|]. intros e He. by apply elem_of_nil in He. Qed.

Lemma assignSeq_Kind s e : Kind (assignSeq s e).1 = Kind e.
Proof. unfold assignSeq. by case_match. Qed.

Lemma assignSeq_size s e : eventSize (assignSeq s e).1 = eventSize e.
Proof. unfold assignSeq. by case_match. Qed.

(** What one step does to the ring of run [r]. *)
Definition ring_same (s s' : runState) : Prop :=
  events s' = events s ∧ lastPublished s' = lastPublished s ∧ (closed s' = false → closed s = false).

Definition ring_append (cfg : Config) (s s' : runState) (e : StreamEvent) : Prop :=
  closed s = false ∧ lastPublished s < Seq e ∧ lastPublished s' = Seq e ∧
  (∃ b, trimEventsLocked (trim_fuel (events s ++ [e])) (MaxEvents cfg) (MaxBytes cfg)
          (events s ++ [e]) (eventBytes s + eventSize e) = Some (events s', b)).

Lemma ring_same_refl s : ring_same s s.
Proof. by split. Qed.

Lemma appendEvent_ring h r n t p e h' :
  closed (getRun h r) = false → lastPublished (getRun h r) < Seq e →
  appendEvent h r (set_marks t p (set_seqs n (Seq e) (getRun h r))) e = Some h' →
  ring_append (config h) (getRun h r) (getRun h' r) e ∧ closed (getRun h' r) = false.
Proof.
  intros Hc Hl (evs & b & Ht & ->)%appendEvent_inv.
  rewrite getRun_set_run, decide_True by done. simpl. split; [|done].
  split_and!; auto. eauto.
Qed.

Lemma getRun_Some h r s : runs h !! r = Some s → getRun h r = s.
Proof. intros Hr. unfold getRun. by rewrite Hr. Qed.

Lemma dropRuns_getRun P h r s : runs (dropRuns P h) !! r = Some s → getRun h r = s.
Proof. intros [Hr _]%dropRuns_lookup. unfold getRun. by rewrite Hr. Qed.

Lemma publish_ring h e now h' r :
  PublishPrepared h e now = Some h' →
  (published r h (OpPublish e now) = [] ∧ ring_same (getRun h r) (getRun h' r)) ∨
  (∃ e', published r h (OpPublish e now) = [e'] ∧ ring_append (config h) (getRun h r) (getRun h' r) e' ∧
     closed (getRun h' r) = false ∧ Kind e' = Kind (normalizeEvent e (RunID e) now) ∧
     eventSize e' = eventSize (normalizeEvent e (RunID e) now)).
Proof.
  intros Hp. apply PublishPrepared_cases in Hp as
    [(Hpub & _ & _ & _ & Hh)|(e' & n & t & p & Hpub & Hc & Hl & He & Ha)].
  - destruct (decide (RunID e = r)) as [<-|Hr].
    + left. split; [done|]. destruct Hh as [->|[n ->]]; [apply ring_same_refl|].
      rewrite getRun_set_run, decide_True by done. by split.
    + left. split; [by apply published_other|]. destruct Hh as [->|[n ->]]; [apply ring_same_refl|].
      rewrite getRun_set_run, decide_False by done. apply ring_same_refl.
  - destruct (decide (RunID e = r)) as [<-|Hr].
    + right. exists e'. destruct (appendEvent_ring _ _ _ _ _ _ _ Hc Hl Ha).
      subst e'. rewrite cloneEvent_id, assignSeq_Kind, assignSeq_size in *. auto.
    + left. split; [by apply published_other|]. rewrite (appendEvent_getRun _ _ _ _ _ _ Ha) by done.
      apply ring_same_refl.
Qed.

Lemma finishClose_ring h r r' now :
  events (getRun (finishClose h r now) r') = events (getRun h r') ∧
  lastPublished (getRun (finishClose h r now) r') = lastPublished (getRun h r') ∧
  (closed (getRun (finishClose h r now) r') = false → closed (getRun h r') = false ∧ r' ≠ r).
Proof.
  unfold finishClose. rewrite getRun_set_run. case_decide; subst; simpl; [done|].
  change (getRun (set_chans _ h) r') with (getRun h r'). auto.
Qed.

Lemma close_ring h r e now h' r' :
  CloseRun h r e now = Some h' →
  (published r' h (OpCloseRun r e now) = [] ∧ ring_same (getRun h r') (getRun h' r')) ∨
  (∃ e', published r' h (OpCloseRun r e now) = [e'] ∧
     ring_append (config h) (getRun h r') (getRun h' r') e' ∧
     closed (getRun h' r') = true ∧ Kind e' = Kind (normalizeEvent e r now)).
Proof.
  intros He. destruct (decide (r = r')) as [<-|Hr].
  - assert (∀ e', published r h (OpCloseRun r e now) = [e'] → Kind e' = Kind (normalizeEvent e r now)) as HK.
    { intros e'. unfold published. case_match; [|done]. unfold acceptClose.
      rewrite <- (assignSeq_Kind (getRun h r) (normalizeEvent e r now)).
      destruct (assignSeq _ _) as [e1 n]. simpl. repeat case_match; simpl; try done. by intros [= <-]. }
    apply CloseRun_cases in He as [[-> ->]|[(_ & Hc & -> & Hp)|[(_ & Hc & Hp & n & ->)|(_ & Hc & e' & n & t & p & h1 & Hp & Hl & Ha & ->)]]].
    + left. split; [done|apply ring_same_refl].
    + left. split; [done|]. rewrite getRun_set_run, decide_True by done. apply ring_same_refl.
    + left. split; [done|].
      destruct (finishClose_ring (set_run r (set_seqs n (lastPublished (getRun h r)) (getRun h r)) h) r r now) as (E1 & E2 & E3).
      rewrite getRun_set_run, decide_True in E1, E2 by done. split_and!; [done|done|by intros [_ ?]%E3].
    + right. exists e'. split; [done|]. destruct (appendEvent_ring _ _ _ _ _ _ _ Hc Hl Ha) as [(A1 & A2 & A3 & A4) A5].
      destruct (finishClose_ring h1 r r now) as (E1 & E2 & E3). split_and!; [|by destruct (closed (getRun (finishClose h1 r now) r)); [|destruct E3]|auto].
      split_and!; auto; [by rewrite E2|by rewrite E1].
  - left. split; [simpl; by rewrite (proj2 (Z.eqb_neq _ _) Hr)|].
    apply CloseRun_cases in He as [[-> ->]|[(_ & _ & -> & Hp)|[(_ & _ & _ & n & ->)|(_ & Hc & e' & n & t & p & h1 & _ & Hl & Ha & ->)]]];
      [apply ring_same_refl|rewrite getRun_set_run, decide_False by done; apply ring_same_refl|..].
    + destruct (finishClose_ring (set_run r (set_seqs n (lastPublished (getRun h r)) (getRun h r)) h) r r' now) as (E1 & E2 & E3).
      rewrite getRun_set_run, decide_False in E1, E2, E3 by done. split_and!; [done|done|by intros [? _]%E3].
    + destruct (finishClose_ring h1 r r' now) as (E1 & E2 & E3).
      rewrite (appendEvent_getRun _ _ _ _ _ r' Ha) in E1, E2, E3 by done. split_and!; [done|done|by intros [? _]%E3].
Qed.


Lemma subscribe_ring h r a now r' :
  r ≠ 0 → ring_same (getRun (removeExpiredRuns h now) r') (getRun (Subscribe h r a now).1 r').
Proof.
  intros Hr. unfold Subscribe. rewrite (proj2 (Z.eqb_neq _ _) Hr).
  set (h1 := removeExpiredRuns h now). destruct (closed (getRun h1 r)) eqn:Hc; simpl.
  - change (getRun (mkHub _ _ _ _) r') with (getRun (set_run r (getRun h1 r) h1) r').
    rewrite getRun_set_run. case_decide; subst; apply ring_same_refl.
  - rewrite getRun_set_run. case_decide; subst; [by split|].
    change (getRun (mkHub _ _ _ _) r') with (getRun h1 r'). apply ring_same_refl.
Qed.

Lemma ring_inv_same s s' H : ring_inv s H → ring_same s s' → ring_inv s' H.
Proof.
  intros [] (E1 & E2 & E3). split; rewrite ?E1, ?E2; auto.
Qed.

Lemma ring_inv_append cfg s s' H e :
  cfg_wf cfg → run_wf s → ring_inv s H → ring_append cfg s s' e → ring_inv s' (H ++ [e]).
Proof.
  intros [Hme Hmb _] Hw [(k0 & Hk0 & Hev) Hsort Hle] (Hc & Hl & Hl' & b & Ht).
  assert (StronglySorted (key_lt Seq) (events s ++ [e])) as Hse.
  { apply key_sorted_snoc; [apply Hw|]. intros x Hx. apply (rw_last _ Hw) in Hx. lia. }
  apply (trimEvents_keeps _ _ _ _ _ _ _ (Seq e)) in Ht as (k & Hk & Hevs); auto;
    [|rewrite sum_by_app, (rw_bytes _ Hw); simpl; lia|].
  2: { intros x [Hx|Hx]%elem_of_app; [apply (rw_last _ Hw) in Hx; lia|]. by apply list_elem_of_singleton in Hx as ->. }
  split.
  - exists (Z.max k k0). split; [lia|]. rewrite Hevs, Hev, !filter_app, list_filter_filter. f_equal.
    + apply list_filter_iff. intros x. unfold keeps_from. destruct (isTerminalKind _); naive_solver lia.
    + rewrite !filter_cons, !filter_nil. unfold keeps_from. repeat case_decide; naive_solver lia.
  - apply key_sorted_snoc; [done|]. intros x Hx. apply Hle in Hx. lia.
  - rewrite Hl'. intros x [Hx|Hx]%elem_of_app; [apply Hle in Hx; lia|].
    apply list_elem_of_singleton in Hx as ->. lia.
Qed.

Lemma cancel_ring h r' i c r : ring_same (getRun h r) (getRun (cancel h r' i c) r).
Proof.
  unfold cancel. destruct (runs h !! r') as [s|] eqn:Hr'; [|apply ring_same_refl].
  destruct (subscribers s !! i); [|apply ring_same_refl]. case_bool_decide; [|apply ring_same_refl].
  rewrite getRun_set_run. case_decide; [subst|apply ring_same_refl].
  unfold getRun. rewrite Hr'. by split.
Qed.

Lemma prepare_ring h r' e now r : ring_same (getRun h r) (getRun (Prepare h r' e now).1 r).
Proof.
  unfold Prepare. destruct (r' =? 0); [apply ring_same_refl|].
  destruct (closed _); simpl; rewrite getRun_set_run; case_decide; subst; by split.
Qed.

Lemma recv_getRun h c r : getRun (recv h c).1 r = getRun h r.
Proof. unfold recv. repeat case_match; done. Qed.

Lemma ring_drop P h r H :
  ring_inv (getRun h r) H →
  ring_inv (getRun (dropRuns P h) r) (match runs (dropRuns P h) !! r with Some _ => H | None => [] end).
Proof.
  intros Hi. destruct (runs (dropRuns P h) !! r) as [s|] eqn:Hr.
  - rewrite (getRun_Some _ _ _ Hr). by rewrite (dropRuns_getRun _ _ _ _ Hr) in Hi.
  - unfold getRun. rewrite Hr. apply ring_inv_new.
Qed.

Lemma published_quiet r h o :
  match o with OpPublish _ _ | OpCloseRun _ _ _ => False | _ => True end → published r h o = [].
Proof. by destruct o. Qed.

(** Every step extends the history by what it publishes, or forgets the run. *)
Lemma ring_step cfg h o h' r H :
  hub_wf h → config h = cfg → ring_inv (getRun h r) H → exec h o = Some h' →
  ring_inv (getRun h' r) (kept r h o H ++ published r h o).
Proof.
  intros Hw Hcfg Hi He. pose proof (hw_cfg _ Hw) as Hcw. rewrite Hcfg in Hcw.
  pose proof (getRun_wf h r Hw) as Hrw.
  destruct o as [r' e now|e now|r' a now|r' i' c'|r' now|r' e now|now| |c'];
    try (rewrite published_quiet, app_nil_r by done); simpl in He; try (injection He as <-); unfold kept.
  - eapply ring_inv_same; [exact Hi|apply prepare_ring].
  - destruct (publish_ring _ _ _ _ r He) as [[-> Hs]|(e' & -> & Ha & Hc & HK & HS)].
    + rewrite app_nil_r. by eapply ring_inv_same.
    + rewrite Hcfg in Ha. by eapply ring_inv_append.
  - unfold forgets. destruct (Z.eqb_spec r' 0) as [->|Hr]; cbn [negb andb]; [exact Hi|].
    eapply ring_inv_same; [|by apply subscribe_ring]. apply (ring_drop (expired (TerminalRetention (config h)) now)) in Hi.
    unfold PurgeExpired, removeExpiredRuns in *. by destruct (runs (dropRuns _ h) !! r).
  - eapply ring_inv_same; [exact Hi|apply cancel_ring].
  - unfold forgets. rewrite Snapshot_state. destruct (r' =? 0); cbn [negb andb]; [exact Hi|].
    apply (ring_drop (expired (TerminalRetention (config h)) now)) in Hi.
    unfold PurgeExpired, removeExpiredRuns in *. by destruct (runs (dropRuns _ h) !! r).
  - destruct (close_ring _ _ _ _ _ r He) as [[-> Hs]|(e' & -> & Ha & Hc & HK)].
    + rewrite app_nil_r. by eapply ring_inv_same.
    + rewrite Hcfg in Ha. by eapply ring_inv_append.
  - unfold forgets. apply (ring_drop (expired (TerminalRetention (config h)) now)) in Hi.
    unfold PurgeExpired, removeExpiredRuns in *. by destruct (runs (dropRuns _ h) !! r).
  - simpl. assert (getRun (Close h) r = newRunState) as ->; [|apply ring_inv_new].
    unfold getRun. destruct (runs (Close h) !! r) eqn:E; [|done]. by apply dropRuns_lookup in E as [_ ?].
  - rewrite recv_getRun. exact Hi.
Qed.

Lemma reaches_ring P cfg r H h :
  reaches r P (NewMemoryHub cfg) H h →
  hub_wf h ∧ config h = withDefaults cfg ∧ ring_inv (getRun h r) H.
Proof.
  induction 1 as [|H h o h' Hr (Hw & Hc & Hi) Hp He].
  - split_and!; [apply NewMemoryHub_wf|done|apply ring_inv_new].
  - split_and!; [by eapply exec_wf|by rewrite (proj2 (step_next _ _ _ He))|by eapply ring_step].
Qed.


(** The first retained event is the earliest. *)
Lemma earliest_head e l :
  StronglySorted (key_lt Seq) (e :: l) →
  foldl (λ m x, if Seq x <? m then Seq x else m) (Seq e) l = Seq e.
Proof.
  intros Hs. inversion Hs as [|?? _ Hl]; subst. clear Hs.
  induction l as [|x l IH]; simpl; [done|]. inversion Hl as [|?? Hx Hl']; subst.
  unfold key_lt in Hx. rewrite (proj2 (Z.ltb_ge _ _)) by lia. by apply IH.
Qed.

(** A cursor without a gap, and the earliest event of the ring is transient, or the ring
    is still whole: everything after the cursor is retained. *)
Lemma replay_complete s H a :
  run_wf s → ring_inv s H → 0 ≤ a → replayHasGap (events s) a = false →
  (∃ e evs, events s = e :: evs ∧ isTerminalKind (Kind e) = false) ∨ events s = H →
  filter (λ e, a < Seq e) (events s) = filter (λ e, a < Seq e) H.
Proof.
  intros Hw Hi Ha Hg [(e & evs & Hev & He)| ->]; [|done]. destruct (ri_kept _ _ Hi) as (k & Hk & Hkept).
  rewrite Hkept, list_filter_filter. apply filter_ext_in. intros x Hx. split; [by intros [? _]|]. intros Hax. split; [done|]. right.
  assert (k ≤ Seq e) as Hke.
  { assert (e ∈ filter (keeps_from k) H) as [[Hkt|] _]%list_elem_of_filter; [rewrite <- Hkept, Hev; by left|congruence|done]. }
  unfold replayHasGap in Hg. rewrite Hev, earliest_head in Hg by (rewrite <- Hev; apply Hw).
  bool_prop. destruct Hg; bool_prop; lia.
Qed.

Lemma cloneEvents_id l : cloneEvents l = l.
Proof. unfold cloneEvents. induction l as [|e l IH]; [done|]. by rewrite fmap_cons, cloneEvent_id, IH. Qed.

Lemma Subscribe_open h r a now h1 sub i :
  r ≠ 0 → Subscribe h r a now = (h1, sub) → sub_id sub = Some i →
  sub_replay sub = replayFor (removeExpiredRuns h now) r a now (getRun (removeExpiredRuns h now) r) ∧
  sub_live sub = nextChan h ∧ nextChan h1 = Pos.succ (nextChan h) ∧
  (∃ cap, chans h1 !! sub_live sub = Some (mkChan [] cap false)).
Proof.
  intros Hr. unfold Subscribe. rewrite (proj2 (Z.eqb_neq _ _) Hr).
  destruct (closed _); simpl; intros [= <- <-]; simpl; [done|]. intros [= <-].
  rewrite cloneEvents_id. split_and!; auto. eexists. apply lookup_insert_eq.
Qed.

Lemma replayFor_nogap h r a now s :
  replayHasGap (events s) a = false → replayFor h r a now s = filter (λ e, a < Seq e) (events s).
Proof. intros Hg. unfold replayFor. rewrite Hg. apply cloneEvents_id. Qed.

(** C5. Exactly-once, in-order delivery across reconnects.  Take any execution of a
    fresh hub, with events of any kind and size, and let [H] be what was published on run
    [r] since it was last forgotten.  A consumer subscribes with a cursor [a] for which
    the ring reports no gap, and the hub keeps running.  At every later point at which
    the consumer is still registered, its replay, what it received and what sits in its
    channel are together, in order and once each, the events of the history after the
    cursor that the ring had kept, followed by everything published since; the ring had
    kept all terminal events and the transient ones from some number [k] on.  When the
    earliest event of the ring was transient, or nothing had been evicted, nothing after
    the cursor is missing.  Otherwise it may be: [midrun_terminal_hides_events] and
    [oversized_event_silences_replay]. *)
Theorem subscribe_no_gap_no_duplicate cfg r a now H h h1 sub i pub rcv h2 :
  r ≠ 0 → 0 ≤ a → reaches r (λ _, True) (NewMemoryHub cfg) H h →
  Subscribe h r a now = (h1, sub) → sub_id sub = Some i →
  let ring := events (getRun (removeExpiredRuns h now) r) in
  let history := kept r h (OpSubscribe r a now) H in
  replayHasGap ring a = false →
  trace r (sub_live sub) h1 pub rcv h2 → registered h2 r i (sub_live sub) →
  ∃ ch k, chans h2 !! sub_live sub = Some ch ∧
    sub_replay sub ++ rcv ++ ch_buf ch =
      filter (λ e, a < Seq e ∧ (isTerminalKind (Kind e) = true ∨ k ≤ Seq e)) history ++ pub ∧
    ((∃ e evs, ring = e :: evs ∧ isTerminalKind (Kind e) = false) ∨ ring = history →
     sub_replay sub ++ rcv ++ ch_buf ch = filter (λ e, a < Seq e) history ++ pub).
Proof.
  intros Hr Ha Hreach Hsub Hid ring history Hgap Htr Hreg.
  destruct (reaches_ring _ _ _ _ _ Hreach) as (Hw & Hcfg & Hi).
  destruct (Subscribe_open _ _ _ _ _ _ _ Hr Hsub Hid) as (Hrep & Hlive & Hnext & cap & Hch).
  assert (exec h (OpSubscribe r a now) = Some h1) as He by (simpl; by rewrite Hsub).
  pose proof (exec_wf _ _ _ Hw He) as Hw1.
  destruct (trace_live _ _ _ _ _ _ i Htr Hw1 ltac:(lia) Hreg) as (_ & ch & ch' & H1 & H2 & H3).
  rewrite Hch in H1. simplify_eq. simpl in H3.
  assert (ring_inv (getRun (removeExpiredRuns h now) r) history) as Hi'.
  { pose proof (ring_step _ h (OpPurge now) _ r H Hw eq_refl Hi eq_refl) as Hi'. unfold history, kept, forgets in *.
    rewrite (proj2 (Z.eqb_neq _ _) Hr). simpl published in Hi'. by rewrite app_nil_r in Hi'. }
  assert (run_wf (getRun (removeExpiredRuns h now) r)) as Hrw by (by apply getRun_wf, removeExpiredRuns_wf).
  destruct (ri_kept _ _ Hi') as (k & _ & Hk). exists ch', k.
  rewrite H3, Hrep, replayFor_nogap by done. split_and!; [done| |].
  - f_equal. fold ring in Hk |- *. by rewrite Hk, list_filter_filter.
  - intros Hwhole. f_equal. by apply replay_complete.
Qed.


Lemma normalizeSnapshot_seq snap r seq now : 0 < seq → Seq (normalizeSnapshot snap r seq now) = seq.
Proof. intros Hs. unfold normalizeSnapshot. by rewrite (proj2 (Z.ltb_lt _ _) Hs). Qed.

Lemma normalizeSnapshot_kind snap r seq now : Kind (normalizeSnapshot snap r seq now) = StreamSnapshot.
Proof. unfold normalizeSnapshot. by case_match. Qed.

(** Whatever its source, a snapshot carries the last published number. *)
Lemma snapshotLocked_spec h r s now snap :
  snapshotLocked h r s now = Some snap → 0 < lastPublished s →
  Kind snap = StreamSnapshot ∧ Seq snap = lastPublished s.
Proof.
  intros Hs Hl. unfold snapshotLocked in Hs.
  repeat case_match; simplify_eq; split; by (apply normalizeSnapshot_kind || apply normalizeSnapshot_seq).
Qed.

(** A consumer that fell behind the ring is resynchronised: when the ring
    reports a gap and a snapshot is available, the replay is one
    [stream.snapshot] event numbered with the last published event, so it
    covers the whole history, and live delivery continues right after it. *)
Theorem subscribe_gap_snapshot cfg r a now H h h1 sub i pub rcv h2 snap :
  r ≠ 0 → 0 ≤ a →
  reaches r (λ _, True) (NewMemoryHub cfg) H h →
  Subscribe h r a now = (h1, sub) → sub_id sub = Some i →
  let h' := removeExpiredRuns h now in
  replayHasGap (events (getRun h' r)) a = true →
  snapshotLocked h' r (getRun h' r) now = Some snap →
  trace r (sub_live sub) h1 pub rcv h2 → registered h2 r i (sub_live sub) →
  Kind snap = StreamSnapshot ∧ a < Seq snap ∧
  (∀ e, e ∈ kept r h (OpSubscribe r a now) H → Seq e ≤ Seq snap) ∧
  ∃ ch, chans h2 !! sub_live sub = Some ch ∧ sub_replay sub ++ rcv ++ ch_buf ch = snap :: pub.
Proof.
  intros Hr Ha Hreach Hsub Hid h' Hgap Hsnap Htr Hreg.
  destruct (reaches_ring _ _ _ _ _ Hreach) as (Hw & Hcfg & Hi).
  destruct (Subscribe_open _ _ _ _ _ _ _ Hr Hsub Hid) as (Hrep & Hlive & Hnext & cap & Hch).
  assert (exec h (OpSubscribe r a now) = Some h1) as He by (simpl; by rewrite Hsub).
  pose proof (exec_wf _ _ _ Hw He) as Hw1.
  pose proof (ring_step _ h (OpPurge now) _ r H Hw Hcfg Hi eq_refl) as Hi'.
  unfold kept, forgets in *. rewrite (proj2 (Z.eqb_neq _ _) Hr). simpl published in Hi'.
  rewrite app_nil_r in Hi'.
  assert (run_wf (getRun h' r)) as Hrw by (by apply getRun_wf, removeExpiredRuns_wf).
  assert (a < lastPublished (getRun h' r)) as Hlast.
  { destruct (events (getRun h' r)) as [|e evs] eqn:Hev; [done|]. unfold replayHasGap in Hgap.
    rewrite earliest_head in Hgap by (rewrite <- Hev; apply Hrw). bool_prop.
    pose proof (rw_last _ Hrw e ltac:(rewrite Hev; left)). lia. }
  destruct (snapshotLocked_spec _ _ _ _ _ Hsnap ltac:(lia)) as [HK HS].
  split; [done|]. split; [lia|]. split.
  { intros e Hin. rewrite HS. by apply (ri_le _ _ Hi'). }
  destruct (trace_live _ _ _ _ _ _ i Htr Hw1 ltac:(lia) Hreg) as (_ & ch & ch' & H1 & H2 & H3).
  rewrite Hch in H1. simplify_eq. simpl in H3. exists ch'. split; [done|].
  rewrite H3, Hrep. unfold replayFor. fold h'. by rewrite Hgap, Hsnap.
Qed.

(** C32. Termination of trimming, exactly: on a ring with exact byte accounting
    [trimEventsLocked] returns (and [trim_fuel] iterations are enough) unless
    the ring holds two or more terminal events that alone exceed a limit; in
    that case no number of iterations suffices. *)
Theorem trim_terminates_iff me mb evs b :
  0 < me → 0 < mb → b = sum_by eventSize evs →
  (is_Some (trimEventsLocked (trim_fuel evs) me mb evs b) ↔ ¬ stuck me mb evs) ∧
  (stuck me mb evs → ∀ fuel, trimEventsLocked fuel me mb evs b = None).
Proof.
  intros Hme Hmb Hb.
  assert (∀ fuel, is_Some (trimEventsLocked fuel me mb evs b) ↔ is_Some (trim_loop fuel me mb evs b)) as Hsame.
  { intros fuel. unfold trimEventsLocked. rewrite (proj2 (Z.leb_gt me 0)), (proj2 (Z.leb_gt mb 0)) by lia.
    destruct (trim_loop _ _ _ _ _) as [[[l k] []]|]; split; intros [? ?]; eauto; done. }
  split.
  - rewrite Hsame. split.
    + intros [x Hx] Hst. by rewrite trim_loop_diverges in Hx.
    + intros Hst. apply trim_loop_returns; auto. apply trim_measure_fuel.
  - intros Hst fuel. destruct (trimEventsLocked _ _ _ _ _) eqn:Ht; [|done].
    assert (is_Some (trim_loop fuel me mb evs b)) as [x Hx] by (apply Hsame; eauto).
    by rewrite trim_loop_diverges in Hx.
Qed.

(** The ring of every run respects the limits, or holds one terminal event. *)
Definition ring_bounded (cfg : Config) (s : runState) : Prop :=
  (zlen (events s) ≤ MaxEvents cfg ∧ sum_by eventSize (events s) ≤ MaxBytes cfg) ∨
  (∃ e, events s = [e] ∧ isTerminalKind (Kind e) = true).

(** What any step does to the ring of any run. *)
Lemma step_ring h o h' r :
  exec h o = Some h' →
  ring_same (getRun h r) (getRun h' r) ∨ ring_same newRunState (getRun h' r) ∨
  ∃ e, ring_append (config h) (getRun h r) (getRun h' r) e.
Proof.
  assert (∀ P, ring_same (getRun h r) (getRun (dropRuns P h) r) ∨ getRun (dropRuns P h) r = newRunState) as Hdrop.
  { intros P. destruct (runs (dropRuns P h) !! r) as [s|] eqn:Hr.
    - left. rewrite (getRun_Some _ _ _ Hr). apply dropRuns_getRun in Hr as ->. apply ring_same_refl.
    - right. unfold getRun. by rewrite Hr. }
  destruct o as [r' e now|e now|r' a now|r' i' c'|r' now|r' e now|now| |c']; simpl; try (intros [= <-]).
  - left. apply prepare_ring.
  - intros He. destruct (publish_ring _ _ _ _ r He) as [[_ ?]|(e' & _ & ? & _)]; eauto.
  - destruct (Z.eqb_spec r' 0) as [->|Hr]; [left; apply ring_same_refl|].
    pose proof (subscribe_ring h r' a now r Hr) as Hs.
    destruct (Hdrop (expired (TerminalRetention (config h)) now)) as [(E1 & E2 & E3)|E].
    + left. destruct Hs as (F1 & F2 & F3). unfold removeExpiredRuns in *.
      split_and!; [congruence|congruence|auto].
    + right; left. unfold removeExpiredRuns in Hs. by rewrite E in Hs.
  - left. apply cancel_ring.
  - rewrite Snapshot_state. destruct (r' =? 0); [left; apply ring_same_refl|].
    destruct (Hdrop (expired (TerminalRetention (config h)) now)) as [?|E]; [by left|right; left].
    unfold removeExpiredRuns. rewrite E. apply ring_same_refl.
  - intros He. destruct (close_ring _ _ _ _ _ r He) as [[_ ?]|(e' & _ & ? & _)]; eauto.
  - destruct (Hdrop (expired (TerminalRetention (config h)) now)) as [?|E]; [by left|right; left].
    unfold PurgeExpired, removeExpiredRuns. rewrite E. apply ring_same_refl.
  - destruct (Hdrop (λ _, true)) as [?|E]; [by left|right; left].
    unfold Close. rewrite E. apply ring_same_refl.
  - left. rewrite recv_getRun. apply ring_same_refl.
Qed.

Lemma ring_bounded_step h o h' :
  hub_wf h → exec h o = Some h' → (∀ r, ring_bounded (config h) (getRun h r)) →
  ∀ r, ring_bounded (config h') (getRun h' r).
Proof.
  intros Hw He Hb r. rewrite (proj2 (step_next _ _ _ He)).
  destruct (hw_cfg _ Hw) as [Hme Hmb _].
  destruct (step_ring h o h' r He) as [(E & _)|[(E & _)|(e & Hc & Hl & Hl' & b & Ht)]].
  - specialize (Hb r). unfold ring_bounded in *. by rewrite E.
  - left. rewrite E. unfold zlen. simpl. lia.
  - pose proof (getRun_wf h r Hw) as Hrw.
    apply trimEvents_spec in Ht as (_ & -> & _ & Hlim); auto.
    + apply key_sorted_snoc; [apply Hrw|]. intros x Hx. apply (rw_last _ Hrw) in Hx. lia.
    + rewrite sum_by_app, (rw_bytes _ Hrw). simpl. lia.
Qed.

(** C33. Safety of every reachable hub, for any operations in any order: each
    ring is strictly ordered by sequence number and within the configured
    limits (or a lone terminal event), the byte counter is exact, closed runs
    have no subscribers, and every registered subscriber owns an open channel
    that no other subscriber shares, so the hub never sends on or closes a
    closed channel. *)
Theorem hub_invariant cfg r H h :
  reaches r (λ _, True) (NewMemoryHub cfg) H h →
  hub_wf h ∧ ∀ q, ring_bounded (config h) (getRun h q).
Proof.
  induction 1 as [|H h o h' Hr (Hw & Hb) _ He].
  - split; [apply NewMemoryHub_wf|]. intros q. destruct (withDefaults_wf cfg) as [? ? _].
    left. assert (getRun (NewMemoryHub cfg) q = newRunState) as -> by done.
    change (config (NewMemoryHub cfg)) with (withDefaults cfg). unfold zlen; simpl events; simpl length; simpl sum_by; lia.
  - split; [by eapply exec_wf|by eapply ring_bounded_step].
Qed.


(** ** Closed runs *)

Definition closed_at (h : Hub) (r t : Z) : Prop :=
  ∃ s, runs h !! r = Some s ∧ closed s = true ∧ closedAt s = t.

Lemma purge_keeps h r t now :
  closed_at h r t → now < t + TerminalRetention (config h) →
  runs (removeExpiredRuns h now) !! r = runs h !! r.
Proof.
  intros (s & Hr & Hc & Ht) Hn. rewrite Hr. apply dropRuns_lookup. split; [done|].
  unfold expired. rewrite Hc, Ht. apply andb_false_iff. right. apply Z.leb_gt. lia.
Qed.

Lemma closed_publish h e now r t h' :
  closed_at h r t → PublishPrepared h e now = Some h' →
  runs h' !! r = runs h !! r ∧ published r h (OpPublish e now) = [].
Proof.
  intros (s & Hr & Hc & Ht) He. pose proof (getRun_Some _ _ _ Hr) as Hg. unfold PublishPrepared in He.
  destruct (decide (RunID e = r)) as [Hid|Hid].
  - rewrite Hid, Hg in He. unfold published, acceptPublish. rewrite Hid, Z.eqb_refl, Hg. simpl.
    destruct (r =? 0); simpl in *; [simplify_eq; auto|].
    rewrite Hc in He |- *. simplify_eq. simpl. rewrite lookup_insert_eq, Hr.
    by destruct (assignSeq _ _).
  - split; [|by apply published_other]. fold (PublishPrepared h e now) in He.
    apply PublishPrepared_cases in He as [(_ & _ & _ & _ & [->|[n ->]])|(e' & n & tm & p & _ & _ & _ & _ & Ha)]; [done|..].
    + simpl. by rewrite lookup_insert_ne.
    + apply appendEvent_inv in Ha as (evs & b & _ & ->). simpl. by rewrite lookup_insert_ne.
Qed.

Lemma closed_close h r' e now r t h' :
  closed_at h r t → CloseRun h r' e now = Some h' →
  runs h' !! r = runs h !! r ∧ published r h (OpCloseRun r' e now) = [].
Proof.
  intros (s & Hr & Hc & Ht) He. pose proof (getRun_Some _ _ _ Hr) as Hg.
  destruct (decide (r' = r)) as [->|Hid].
  - apply CloseRun_cases in He as [[-> ->]|[(_ & _ & -> & Hp)|[(_ & Hc' & _)|(_ & Hc' & _)]]];
      [auto| |congruence..].
    split; [|done]. simpl. by rewrite lookup_insert_eq, Hg, Hr.
  - split; [|simpl; by rewrite (proj2 (Z.eqb_neq _ _) Hid)].
    apply CloseRun_cases in He as [[-> ->]|[(_ & _ & -> & Hp)|[(_ & _ & _ & n & ->)|(_ & _ & e' & n & tm & p & h1 & _ & _ & Ha & ->)]]];
      [done|simpl; by rewrite lookup_insert_ne|..].
    + simpl. by rewrite !lookup_insert_ne.
    + apply appendEvent_inv in Ha as (evs & b & _ & ->). simpl. by rewrite !lookup_insert_ne.
Qed.

(** A closed run is frozen until its retention elapses. *)
Lemma closed_step h o h' r t :
  hub_wf h → closed_at h r t → before (t + TerminalRetention (config h)) o → exec h o = Some h' →
  runs h' !! r = runs h !! r ∧ published r h o = [].
Proof.
  intros Hw Hcl Hb He. pose proof Hcl as (s & Hr & Hc & Ht). pose proof (getRun_Some _ _ _ Hr) as Hg.
  destruct o as [r' e now|e now|r' a now|r' i' c'|r' now|r' e now|now| |c']; simpl in He, Hb;
    try (injection He as <-); try done; try (split; [|done]).
  - unfold Prepare. destruct (r' =? 0); [done|]. destruct (decide (r' = r)) as [->|Hne].
    + rewrite Hg, Hc. simpl. by rewrite lookup_insert_eq, Hr.
    + destruct (closed (getRun h r')); (etrans; [by apply lookup_insert_ne|done]).
  - by eapply closed_publish.
  - unfold Subscribe. destruct (r' =? 0); [done|]. pose proof (purge_keeps _ _ _ _ Hcl Hb) as Hk.
    destruct (decide (r' = r)) as [->|Hne].
    + assert (getRun (removeExpiredRuns h now) r = s) as Hg' by (apply getRun_Some; congruence).
      rewrite Hg', Hc. simpl. by rewrite lookup_insert_eq, Hr.
    + destruct (closed (getRun _ r')); (etrans; [by apply lookup_insert_ne|exact Hk]).
  - unfold cancel. destruct (runs h !! r') as [s'|] eqn:Hr'; [|done].
    destruct (subscribers s' !! i') eqn:Hs; [|done]. case_bool_decide; [|done]. simpl.
    destruct (decide (r' = r)) as [->|Hne]; [|by rewrite lookup_insert_ne].
    rewrite Hr in Hr'. simplify_eq.
    rewrite (rw_closed _ (hw_runs _ Hw _ _ Hr) Hc), lookup_empty in Hs. done.
  - rewrite Snapshot_state. destruct (r' =? 0); [done|]. by apply (purge_keeps _ _ t).
  - by eapply closed_close.
  - by apply (purge_keeps _ _ t).
  - unfold recv. repeat case_match; done.
Qed.

Lemma closed_steps h pub h' r t T :
  steps (before T) r h pub h' → hub_wf h → closed_at h r t → T = t + TerminalRetention (config h) →
  hub_wf h' ∧ config h' = config h ∧ runs h' !! r = runs h !! r ∧ pub = [].
Proof.
  induction 1 as [h|h o h1 pub h2 Hb He Hs IH]; intros Hw Hcl HT; [done|]. subst T.
  destruct (closed_step _ _ _ _ _ Hw Hcl Hb He) as [Hr1 Hp]. destruct (step_next _ _ _ He) as [_ Hc1].
  assert (closed_at h1 r t) as Hcl1 by (destruct Hcl as (s & Hr & ?); exists s; by rewrite Hr1).
  destruct (IH (exec_wf _ _ _ Hw He) Hcl1 ltac:(by rewrite Hc1)) as (Hw2 & Hc2 & Hr2 & ->).
  rewrite Hp. split_and!; [done|congruence|congruence|done].
Qed.

Lemma CloseRun_accepted h r e now h1 e' :
  hub_wf h → CloseRun h r e now = Some h1 → published r h (OpCloseRun r e now) = [e'] →
  isTerminalKind (Kind e') = true →
  hub_wf h1 ∧ config h1 = config h ∧ closed_at h1 r now ∧ e' ∈ events (getRun h1 r).
Proof.
  intros Hw He Hpub Ht. pose proof (CloseRun_wf _ _ _ _ _ Hw He) as Hw1.
  assert (exec h (OpCloseRun r e now) = Some h1) as Hex by done. destruct (step_next _ _ _ Hex) as [_ Hcfg].
  split; [done|]. split; [done|].
  apply CloseRun_cases in He as [[-> ->]|[(_ & _ & _ & Hp)|[(_ & _ & Hp & _)|(_ & Hc & e1 & n & tm & p & h2 & Hp & Hl & Ha & ->)]]];
    [done|congruence..|]. rewrite Hp in Hpub. simplify_eq. split.
  - eexists. unfold finishClose. simpl. rewrite lookup_insert_eq. auto.
  - destruct (finishClose_ring h2 r r now) as (-> & _).
    destruct (appendEvent_ring _ _ _ _ _ _ _ Hc Hl Ha) as [(_ & _ & _ & b & Htr) _].
    pose proof (getRun_wf h r Hw) as Hrw. destruct (hw_cfg _ Hw) as [Hme Hmb _].
    apply trimEvents_spec in Htr as (_ & _ & (gone & Hperm & Hgone) & _); auto.
    + assert (e' ∈ gone ++ events (getRun h2 r)) as Hin.
      { rewrite <- Hperm. apply elem_of_app. right. by apply list_elem_of_singleton. }
      apply elem_of_app in Hin as [Hin|Hin]; [|done]. rewrite Forall_forall in Hgone.
      specialize (Hgone _ Hin). congruence.
    + apply key_sorted_snoc; [apply Hrw|]. intros x Hx. apply (rw_last _ Hrw) in Hx. lia.
    + rewrite sum_by_app, (rw_bytes _ Hrw). simpl. lia.
Qed.

(** A closed run is final and replayable.  Once [CloseRun] has published
    the terminal event, then until the retention elapses nothing more is ever
    published on the run, whatever operations run on the hub, and a consumer
    that reconnects with an earlier cursor gets the terminal event in its
    replay (unless the ring reports a gap, which the snapshot covers). *)
Theorem closed_run_final h r e now h1 e' pub h2 :
  hub_wf h → CloseRun h r e now = Some h1 → published r h (OpCloseRun r e now) = [e'] →
  isTerminalKind (Kind e') = true →
  steps (before (now + TerminalRetention (config h))) r h1 pub h2 →
  pub = [] ∧ ∀ a now', now' < now + TerminalRetention (config h) → a < Seq e' →
    replayHasGap (events (getRun h2 r)) a = false →
    e' ∈ sub_replay (Subscribe h2 r a now').2 ∧ sub_id (Subscribe h2 r a now').2 = None.
Proof.
  intros Hw He Hp Ht Hs. destruct (CloseRun_accepted _ _ _ _ _ _ Hw He Hp Ht) as (Hw1 & Hc1 & Hcl & Hin).
  destruct (closed_steps _ _ _ _ _ _ Hs Hw1 Hcl ltac:(by rewrite Hc1)) as (Hw2 & Hc2 & Hr2 & ->).
  split; [done|]. intros a now' Hn Ha Hgap.
  assert (getRun h2 r = getRun h1 r) as Hg by (unfold getRun; by rewrite Hr2). rewrite Hg in Hgap.
  assert (closed_at h2 r now) as Hcl2 by (destruct Hcl as (s & Hr & ?); exists s; by rewrite Hr2).
  assert (r ≠ 0) as Hr0.
  { by intros ->. }
  unfold Subscribe. rewrite (proj2 (Z.eqb_neq _ _) Hr0).
  assert (getRun (removeExpiredRuns h2 now') r = getRun h1 r) as Hg2.
  { unfold getRun. rewrite (purge_keeps _ _ now), Hr2; [done|done|]. rewrite Hc2, Hc1. done. }
  rewrite Hg2. destruct Hcl as (s & Hr & Hcs & _). rewrite (getRun_Some _ _ _ Hr) in *. rewrite Hcs. simpl.
  split; [|done]. rewrite cloneEvents_id, replayFor_nogap by done. by apply list_elem_of_filter.
Qed.


(** ** Limits of the replay *)

Lemma trim_loop_oversized fuel me mb l e b evs' b' f :
  Forall (λ e, isTerminalKind (Kind e) = false) (l ++ [e]) →
  b = sum_by eventSize (l ++ [e]) → 0 ≤ me → 0 ≤ mb → mb < eventSize e →
  trim_loop fuel me mb (l ++ [e]) b = Some (evs', b', f) → evs' = [].
Proof.
  revert l b. induction fuel as [|fuel IH]; intros l b Hl Hb Hme Hmb He Ht; simpl in Ht; [done|].
  assert (mb < b) as Hover.
  { rewrite sum_by_app in Hb. simpl in Hb.
    pose proof (sum_by_nonneg eventSize l (λ a _, Z.lt_le_incl _ _ (eventSize_pos a))). lia. }
  rewrite (proj2 (Z.ltb_lt _ _) Hover), orb_true_r in Ht.
  destruct l as [|x l]; simpl in Ht; apply Forall_cons in Hl as [Hx Hl]; rewrite Hx in Ht.
  - destruct fuel as [|fuel]; [done|]. simpl in Ht. simpl in Hb.
    replace (b - eventSize e) with 0 in Ht by lia. change (zlen (@nil StreamEvent)) with 0 in Ht.
    rewrite (proj2 (Z.ltb_ge _ _) Hme), (proj2 (Z.ltb_ge _ _) Hmb) in Ht. by simplify_eq/=.
  - apply (IH l (b - eventSize x)); auto. subst b. simpl. lia.
Qed.

(** An event larger than the byte budget empties the ring: publishing a
    transient event bigger than [MaxBytes] evicts the whole history including
    the event itself, no gap is reported for any cursor, and every later
    subscriber is given an empty replay and no snapshot. *)
Theorem oversized_event_silences_replay h e now h' e' :
  hub_wf h → PublishPrepared h e now = Some h' →
  published (RunID e) h (OpPublish e now) = [e'] →
  Forall (λ e, isTerminalKind (Kind e) = false) (events (getRun h (RunID e)) ++ [e']) →
  MaxBytes (config h) < eventSize e' →
  events (getRun h' (RunID e)) = [] ∧
  ∀ a now', sub_replay (Subscribe h' (RunID e) a now').2 = [].
Proof.
  intros Hw Hp Hpub Htr Hsz. pose proof (getRun_wf h (RunID e) Hw) as Hrw.
  destruct (hw_cfg _ Hw) as [Hme Hmb _].
  destruct (publish_ring _ _ _ _ (RunID e) Hp) as [[E _]|(e1 & E & (Hc & Hl & _ & b & Ht) & Hc' & _)];
    [congruence|]. rewrite Hpub in E. simplify_eq.
  assert (events (getRun h' (RunID e)) = []) as Hev.
  { unfold trimEventsLocked in Ht. rewrite (proj2 (Z.leb_gt _ 0)), (proj2 (Z.leb_gt _ 0)) in Ht by lia.
    destruct (trim_loop _ _ _ _ _) as [[[l k] f]|] eqn:Hloop; [|done].
    apply trim_loop_oversized in Hloop as ->; auto;
      [destruct f; injection Ht as Ht _; by rewrite <- Ht|rewrite sum_by_app, (rw_bytes _ Hrw); simpl; lia|lia|lia]. }
  split; [done|]. intros a now'. unfold Subscribe. destruct (RunID e =? 0); [done|].
  set (h1 := removeExpiredRuns h' now').
  assert (events (getRun h1 (RunID e)) = []) as Hev1.
  { destruct (runs h1 !! RunID e) as [s|] eqn:Hr.
    - rewrite (getRun_Some _ _ _ Hr). by apply dropRuns_getRun in Hr as <-.
    - unfold getRun. by rewrite Hr. }
  assert (replayFor h1 (RunID e) a now' (getRun h1 (RunID e)) = []) as Hrep.
  { rewrite replayFor_nogap; by rewrite Hev1. }
  rewrite Hrep. destruct (closed (getRun h1 (RunID e))); reflexivity.
Qed.

End EventHub.

(** ** Witnesses *)

Section Demo.

(** One concrete encoder, one kind of event, and a small run. *)
Definition demo_marshal (_ : unit) : option string := Some "{}"%string.
Definition demo_ev (k : string) (r q : Z) : StreamEvent unit :=
  mkEvent unit 0 r None q k 0 (Some "x"%string) ""%string None.

Fixpoint exec_all (r : Z) (h : Hub unit) (H : list (StreamEvent unit)) (ops : list (op unit))
    : option (Hub unit * list (StreamEvent unit)) :=
  match ops with
  | [] => Some (h, H)
  | o :: ops' =>
    match exec unit demo_marshal h o with
    | Some h' => exec_all r h' (kept unit r h o H ++ published unit demo_marshal r h o) ops'
    | None => None
    end
  end.

Lemma exec_all_reaches r P h0 h H ops h' H' :
  reaches unit demo_marshal r P h0 H h → Forall P ops →
  exec_all r h H ops = Some (h', H') → reaches unit demo_marshal r P h0 H' h'.
Proof.
  intros Hr HP. revert h H Hr. induction HP as [|o ops Ho HP IH]; intros h H Hr; simpl.
  - by intros [= <- <-].
  - destruct (exec _ _ h o) as [h1|] eqn:He; [|done]. apply IH. by eapply reaches_step.
Qed.

Definition demo_cfg (m : Z) : Config unit := mkConfig unit m 0 0 0 None.
Definition demo_cfg_snap : Config unit :=
  mkConfig unit 1 0 0 0 (Some (λ r, Some (demo_ev "state" r 0))).

Definition demo_ops : list (op unit) :=
  [OpPublish unit (demo_ev "assistant.delta" 7 0) 5;
   OpPublish unit (demo_ev "assistant.delta" 8 0) 5;
   OpPublish unit (demo_ev "assistant.delta" 7 0) 6].

Definition from_some {A} (d : A) (o : option A) : A := match o with Some a => a | None => d end.

Definition demo_state (cfg : Config unit) : Hub unit * list (StreamEvent unit) :=
  from_some (NewMemoryHub unit cfg, []) (exec_all 7 (NewMemoryHub unit cfg) [] demo_ops).
Definition demo_sub (cfg : Config unit) (a : Z) : Hub unit * Subscription unit :=
  Subscribe unit demo_marshal (demo_state cfg).1 7 a 9.
(** Executions of a list of operations, with their published and received
    events. *)
Fixpoint trace_all (r : Z) (c : positive) (h : Hub unit) (ops : list (op unit))
    : option (list (StreamEvent unit) * list (StreamEvent unit) * Hub unit) :=
  match ops with
  | [] => Some ([], [], h)
  | o :: ops' =>
    match exec unit demo_marshal h o with
    | Some h' =>
      match trace_all r c h' ops' with
      | Some (p, q, h'') =>
        Some (published unit demo_marshal r h o ++ p, received unit c h o ++ q, h'')
      | None => None
      end
    | None => None
    end
  end.

Lemma trace_all_trace r c h ops p q h' :
  trace_all r c h ops = Some (p, q, h') → trace unit demo_marshal r c h p q h'.
Proof.
  revert h p q. induction ops as [|o ops IH]; intros h p q; simpl.
  - intros [= <- <- <-]. constructor.
  - destruct (exec _ _ h o) as [h1|] eqn:He; [|done].
    destruct (trace_all r c h1 ops) as [[[p1 q1] h2]|] eqn:Ht; [|done].
    intros [= <- <- <-]. econstructor; eauto.
Qed.

Definition demo_live_ops (c : positive) : list (op unit) :=
  [OpPublish unit (demo_ev "tool.start" 7 0) 10; OpPublish unit (demo_ev "tool.complete" 7 0) 11;
   OpRecv unit c].

Definition demo_run (cfg : Config unit) (a : Z) :
    list (StreamEvent unit) * list (StreamEvent unit) * Hub unit :=
  let c := sub_live unit (demo_sub cfg a).2 in
  from_some ([], [], (demo_sub cfg a).1) (trace_all 7 c (demo_sub cfg a).1 (demo_live_ops c)).

End Demo.

(** Two events were published, the consumer reconnects after the first, two
    more are published and one is received. *)
Lemma subscribe_no_gap_no_duplicate_witness :
  Seq unit <$> (sub_replay unit (demo_sub (demo_cfg 0) 1).2) = [2] ∧
  ∃ ch, chans unit (demo_run (demo_cfg 0) 1).2 !! sub_live unit (demo_sub (demo_cfg 0) 1).2 = Some ch ∧
    sub_replay unit (demo_sub (demo_cfg 0) 1).2 ++ (demo_run (demo_cfg 0) 1).1.2 ++ ch_buf unit ch =
    filter (λ e, 1 < Seq unit e)
      (kept unit 7 (demo_state (demo_cfg 0)).1 (OpSubscribe unit 7 1 9) (demo_state (demo_cfg 0)).2)
    ++ (demo_run (demo_cfg 0) 1).1.1.
Proof.
  split; [vm_compute; reflexivity|].
  destruct (subscribe_no_gap_no_duplicate unit demo_marshal (demo_cfg 0) 7 1 9 (demo_state (demo_cfg 0)).2 (demo_state (demo_cfg 0)).1
    (demo_sub (demo_cfg 0) 1).1 (demo_sub (demo_cfg 0) 1).2 1 (demo_run (demo_cfg 0) 1).1.1 (demo_run (demo_cfg 0) 1).1.2
    (demo_run (demo_cfg 0) 1).2) as (ch & k & Hch & _ & Hall).
  - lia.
  - lia.
  - eapply (exec_all_reaches 7 _ _ _ [] demo_ops); [constructor|by repeat constructor|].
    vm_compute. reflexivity.
  - vm_compute. reflexivity.
  - vm_compute. reflexivity.
  - vm_compute. reflexivity.
  - eapply (trace_all_trace 7 _ _ (demo_live_ops 1%positive)). vm_compute. reflexivity.
  - eexists. split; vm_compute; reflexivity.
  - exists ch. split; [exact Hch|]. apply Hall. right. vm_compute. reflexivity.
Defined.

Lemma subscribe_gap_snapshot_witness :
  ∃ snap, sub_replay unit (demo_sub demo_cfg_snap 0).2 = [snap] ∧ Kind unit snap = StreamSnapshot ∧
    0 < Seq unit snap.
Proof.
  destruct (subscribe_gap_snapshot unit demo_marshal demo_cfg_snap 7 0 9
    (demo_state demo_cfg_snap).2 (demo_state demo_cfg_snap).1
    (demo_sub demo_cfg_snap 0).1 (demo_sub demo_cfg_snap 0).2 1
    (demo_run demo_cfg_snap 0).1.1 (demo_run demo_cfg_snap 0).1.2 (demo_run demo_cfg_snap 0).2
    (from_some (demo_ev "" 0 0)
      (snapshotLocked unit demo_marshal (demo_state demo_cfg_snap).1 7
         (getRun unit (demo_state demo_cfg_snap).1 7) 9))) as (HK & HS & _).
  - lia.
  - lia.
  - eapply (exec_all_reaches 7 _ _ _ [] demo_ops); [constructor|by repeat constructor|].
    vm_compute. reflexivity.
  - vm_compute. reflexivity.
  - vm_compute. reflexivity.
  - vm_compute. reflexivity.
  - vm_compute. reflexivity.
  - eapply (trace_all_trace 7 _ _ (demo_live_ops 1%positive)). vm_compute. reflexivity.
  - eexists. split; vm_compute; reflexivity.
  - eexists. split; [vm_compute; reflexivity|]. split; [exact HK|exact HS].
Defined.

Definition demo_waiting (q : Z) : StreamEvent unit := demo_ev RunWaiting 7 q.

(** The ring with two terminal events and room for one. *)
Lemma trim_terminates_iff_witness :
  (∀ fuel, trimEventsLocked unit fuel 1 1000 [demo_waiting 1; demo_waiting 2] 216 = None) ∧
  is_Some (trimEventsLocked unit (trim_fuel unit [demo_waiting 1; demo_ev "x" 7 2]) 1 1000
             [demo_waiting 1; demo_ev "x" 7 2] 206).
Proof.
  split.
  - apply (trim_terminates_iff unit 1 1000 [demo_waiting 1; demo_waiting 2] 216); [lia|lia|done|].
    split; [vm_compute; lia|left; vm_compute; reflexivity].
  - apply (trim_terminates_iff unit 1 1000 [demo_waiting 1; demo_ev "x" 7 2] 206); [lia|lia|done|].
    intros [H _]. vm_compute in H. lia.
Defined.

Lemma hub_invariant_witness :
  hub_wf unit (demo_state (demo_cfg 1)).1.
Proof.
  apply (hub_invariant unit demo_marshal (demo_cfg 1) 7 (demo_state (demo_cfg 1)).2).
  eapply (exec_all_reaches 7 _ _ _ [] demo_ops); [constructor|by repeat constructor|].
  vm_compute. reflexivity.
Defined.

Definition demo_closed : Hub unit :=
  from_some (NewMemoryHub unit (demo_cfg 0))
    (CloseRun unit demo_marshal (demo_state (demo_cfg 0)).1 7 (demo_ev RunComplete 7 0) 20).

Lemma closed_run_final_witness :
  ∃ e', e' ∈ sub_replay unit (Subscribe unit demo_marshal demo_closed 7 1 30).2 ∧
    Kind unit e' = RunComplete.
Proof.
  pose (e' := from_some (demo_ev "" 0 0)
    (head (published unit demo_marshal 7 (demo_state (demo_cfg 0)).1
      (OpCloseRun unit 7 (demo_ev RunComplete 7 0) 20)))).
  exists e'. split; [|vm_compute; reflexivity].
  apply (closed_run_final unit demo_marshal (demo_state (demo_cfg 0)).1 7 (demo_ev RunComplete 7 0) 20
    demo_closed e' [] demo_closed).
  - apply (reaches_wf unit demo_marshal 7 (λ _, True) (NewMemoryHub unit (demo_cfg 0)) (demo_state (demo_cfg 0)).2);
      [apply NewMemoryHub_wf|].
    eapply (exec_all_reaches 7 _ _ _ [] demo_ops); [constructor|by repeat constructor|].
    vm_compute. reflexivity.
  - vm_compute. reflexivity.
  - vm_compute. reflexivity.
  - vm_compute. reflexivity.
  - constructor.
  - vm_compute. reflexivity.
  - vm_compute. reflexivity.
  - vm_compute. reflexivity.
Defined.

Lemma oversized_event_silences_replay_witness :
  let h := (demo_state (mkConfig unit 0 200 0 0 None)).1 in
  let e := mkEvent unit 0 7 None 0 "tool.complete" 0
             (Some "0123456789012345678901234567890123456789012345678901234567890123456789012345678901234567890") "" None in
  let h' := from_some h (PublishPrepared unit demo_marshal h e 12) in
  events unit (getRun unit h 7) ≠ [] ∧ lastPublished unit (getRun unit h' 7) = 3 ∧
  ∀ a now', sub_replay unit (Subscribe unit demo_marshal h' 7 a now').2 = [].
Proof.
  intros h e h'. split; [vm_compute; congruence|]. split; [vm_compute; reflexivity|].
  apply (oversized_event_silences_replay unit demo_marshal h e 12 h'
    (from_some e (head (published unit demo_marshal 7 h (OpPublish unit e 12))))).
  - apply (reaches_wf unit demo_marshal 7 (λ _, True) (NewMemoryHub unit (mkConfig unit 0 200 0 0 None))
      (demo_state (mkConfig unit 0 200 0 0 None)).2); [apply NewMemoryHub_wf|].
    eapply (exec_all_reaches 7 _ _ _ [] demo_ops); [constructor|by repeat constructor|].
    vm_compute. reflexivity.
  - vm_compute. reflexivity.
  - vm_compute. reflexivity.
  - vm_compute. repeat constructor.
  - vm_compute. reflexivity.
Defined.

Definition midrun_ops : list (op unit) :=
  [OpPublish unit (demo_waiting 0) 5; OpPublish unit (demo_ev "a" 7 0) 6;
   OpPublish unit (demo_ev "b" 7 0) 7; OpPublish unit (demo_ev "c" 7 0) 8].

(** A terminal kind published mid-run (a run that
    waits for a human) is never evicted, so later evictions leave a hole behind
    it.  With room for two events, after [run.waiting] (1) and three more events
    the ring holds 1 and 4; a consumer whose cursor is 1 is told there is no gap
    and its replay lacks events 2 and 3. *)
Theorem midrun_terminal_hides_events :
  ∃ H h, reaches unit demo_marshal 7 (λ _, True) (NewMemoryHub unit (demo_cfg 2)) H h ∧
    replayHasGap unit (events unit (getRun unit h 7)) 1 = false ∧
    Seq unit <$> filter (λ e, 1 < Seq unit e) H = [2; 3; 4] ∧
    Seq unit <$> sub_replay unit (Subscribe unit demo_marshal h 7 1 9).2 = [4].
Proof.
  eexists _, _. split; [|split; [|split]].
  - eapply (exec_all_reaches 7 _ _ _ [] midrun_ops); [constructor|by repeat constructor|].
    vm_compute. reflexivity.
  - vm_compute. reflexivity.
  - vm_compute. reflexivity.
  - vm_compute. reflexivity.
Qed.
