(* ===== verification/Compaction.v ===== *)
(** The context-compaction algorithm (internal/runtime/compaction: compact.go,
    entry.go, retain.go) and the token counter it uses
    (internal/pkg/tokencounter/counter.go).

    The model tokenizer (tiktoken) is a parameter: a partial function from a
    model name to an encoder.  The summarizer's LLM is an oracle that answers
    the [n]-th call. *)
From S2P Require Import Prelude GoStr Chat.
Open Scope Z_scope.

Definition UserMessageBudgetTokens : Z := 20000.
Definition PerEntryLimitTokens : Z := 8000.
Definition SummaryPrefix : string := "SUMMARY:
".
Definition FallbackSummary : string := "(no summary available)".

(** ** Entries (entry.go) *)

Record Entry := mkEntry {
  MessageID : Z;
  TranscriptIndex : Z;
  SubEntryIndex : Z;
  TranscriptEntryID : string;
  Role : string;
  ContentType : string;
  Content : string;
  ToolCallID : string;
  ToolName : string;
  Arguments : RawMessage;
  IsError : option bool;
  ErrorCode : string
}.

Definition set_Content (c : string) (e : Entry) : Entry :=
  mkEntry (MessageID e) (TranscriptIndex e) (SubEntryIndex e) (TranscriptEntryID e) (Role e)
    (ContentType e) c (ToolCallID e) (ToolName e) (Arguments e) (IsError e) (ErrorCode e).

Definition newTranscriptEntry (transcriptIndex subEntryIndex : Z) (role contentType content : string) : Entry :=
  mkEntry 0 transcriptIndex subEntryIndex
    (Itoa transcriptIndex ++ ":" ++ Itoa subEntryIndex)
    role contentType content "" "" "" None "".

Definition callEntry (i sub : Z) (call : ToolCall) : Entry :=
  let e := newTranscriptEntry i sub RoleAssistant ContentTypeFunctionCall "" in
  mkEntry (MessageID e) (TranscriptIndex e) (SubEntryIndex e) (TranscriptEntryID e) (Role e)
    (ContentType e) (Content e) (call_ID call) (call_Name call) (call_Arguments call) None "".

Fixpoint callEntries (i sub : Z) (calls : list ToolCall) : list Entry :=
  match calls with
  | [] => []
  | call :: rest => callEntry i sub call :: callEntries i (sub + 1) rest
  end.

Definition messageEntries (i : Z) (msg : ChatMessage) : list Entry :=
  match msg_ToolCalls msg with
  | _ :: _ =>
    if (msg_Content msg =? "")%string then callEntries i 0 (msg_ToolCalls msg)
    else newTranscriptEntry i 0 RoleAssistant ContentTypeText (msg_Content msg)
         :: callEntries i 1 (msg_ToolCalls msg)
  | [] =>
    if (msg_Role msg =? RoleTool)%string then
      let e := newTranscriptEntry i 0 RoleTool ContentTypeFunctionCallOutput (msg_Content msg) in
      [mkEntry (MessageID e) (TranscriptIndex e) (SubEntryIndex e) (TranscriptEntryID e) (Role e)
         (ContentType e) (Content e) (msg_ToolCallID msg) (ToolName e) (Arguments e) None ""]
    else [newTranscriptEntry i 0 (msg_Role msg) ContentTypeText (msg_Content msg)]
  end.

Fixpoint FromChatAt (messages : list ChatMessage) (startIndex : Z) : list Entry :=
  match messages with
  | [] => []
  | msg :: rest => messageEntries startIndex msg ++ FromChatAt rest (startIndex + 1)
  end.

Definition FromChat (messages : list ChatMessage) : list Entry := FromChatAt messages 0.

(** Rows of the messages table; [unmarshalMetadata] is encoding/json on the
    metadata struct of [Message.ToolMetadata]. *)
Record Message := mkMessage {
  m_ID : Z;
  m_Role : string;
  m_Content : string;
  m_TranscriptEntryID : option string;
  m_ContentType : string;
  m_MetadataJSON : RawMessage
}.

Definition ToolMetadata (unmarshalMetadata : string → option (string * string * RawMessage))
    (m : Message) : string * string * RawMessage :=
  if slen (m_MetadataJSON m) =? 0 then ("", "", "")%string
  else match unmarshalMetadata (m_MetadataJSON m) with
       | Some md => md
       | None => ("", "", "")%string
       end.

Definition fromMessage (unmarshalMetadata : string → option (string * string * RawMessage))
    (m : Message) : Entry :=
  let ct := if (m_ContentType m =? "")%string then ContentTypeText else m_ContentType m in
  let '(callID, toolName, arguments) :=
    if (ct =? ContentTypeFunctionCall)%string || (ct =? ContentTypeFunctionCallOutput)%string
    then ToolMetadata unmarshalMetadata m else ("", "", "")%string in
  mkEntry (m_ID m) 0 0 (match m_TranscriptEntryID m with Some t => t | None => "" end)
    (m_Role m) ct (m_Content m) callID toolName arguments None "".

Definition FromMessages (unmarshalMetadata : string → option (string * string * RawMessage))
    (messages : list Message) : list Entry := fromMessage unmarshalMetadata <$> messages.

(** [ToChat]: the messages built so far, in order, and whether the last one is
    the assistant message that absorbs function calls ([pending >= 0]). *)
Definition absorb (call : ToolCall) (m : ChatMessage) : ChatMessage :=
  mkChatMessage (msg_Role m) (msg_Content m) (msg_ToolCallID m) (msg_ToolCalls m ++ [call]).

Definition update_last {A} (f : A → A) (l : list A) : list A :=
  match reverse l with
  | [] => []
  | x :: r => reverse r ++ [f x]
  end.

Definition toChatStep (acc : list ChatMessage * bool) (entry : Entry) : list ChatMessage * bool :=
  let '(messages, pending) := acc in
  if (ContentType entry =? ContentTypeText)%string then
    (messages ++ [mkChatMessage (Role entry) (Content entry) "" []],
     (Role entry =? RoleAssistant)%string)
  else if (ContentType entry =? ContentTypeFunctionCall)%string then
    let call := mkToolCall (ToolCallID entry) "" (ToolName entry) (Arguments entry) in
    let messages := if pending then messages
                    else messages ++ [mkChatMessage RoleAssistant "" "" []] in
    (update_last (absorb call) messages, true)
  else if (ContentType entry =? ContentTypeFunctionCallOutput)%string then
    (messages ++ [mkChatMessage RoleTool (Content entry) (ToolCallID entry) []], false)
  else (messages, pending).

Definition ToChat (entries : list Entry) : list ChatMessage :=
  (foldl toChatStep ([], false) entries).1.

(** ** Token counting (counter.go) *)

Definition conservative (text : string) : Z :=
  let asciiEstimate := (slen text + 2) `div` 3 in
  if slen text =? 0 then 0
  else if asciiEstimate <? rune_count text then rune_count text else asciiEstimate.

Section Compaction.
Context `{UnicodeTables}.
Context (encodingForModel : string → option (string → list Z)).

(** The diagnostics of [Result.Error], by the formatted value. *)
Inductive countError :=
| NoCountError
| ErrUnknownModel (model : string)
| ErrUnknownProvider (providerType : string).

Record CountResult := mkCountResult { Tokens : Z; Method : string; CountError : countError }.

Definition MethodTiktoken : string := "tiktoken".
Definition MethodFallback : string := "conservative_utf8".

Definition Count (providerType model text : string) : CountResult :=
  if (text =? "")%string then mkCountResult 0 MethodTiktoken NoCountError
  else
    let providerType := ToLower (TrimSpace providerType) in
    let model := TrimSpace model in
    let unknown := mkCountResult (conservative text) MethodFallback
                     (ErrUnknownProvider providerType) in
    if bool_decide (providerType ∈ ["openai"; "openai_compatible"; "azure_openai"; ""]%string) then
      match encodingForModel model with
      | Some encode => mkCountResult (zlen (encode text)) MethodTiktoken NoCountError
      | None =>
        if (model =? "")%string then unknown
        else mkCountResult (conservative text) MethodFallback (ErrUnknownModel model)
      end
    else unknown.

(** ** Requests (compact.go) *)

Record Request := mkRequest {
  SystemPrompt : string;
  CompactPrompt : string;
  ProviderTypeOfConfig : string;
  Model : string;
  ParentSummary : string;
  UserBudget : Z;
  PerEntryLimit : Z;
  ProviderType : string;
  TokenModelHint : string
}.

Definition userBudget (r : Request) : Z :=
  if 0 <? UserBudget r then UserBudget r else UserMessageBudgetTokens.

Definition perEntryLimit (r : Request) : Z :=
  if 0 <? PerEntryLimit r then PerEntryLimit r else PerEntryLimitTokens.

Definition TokenModelHintOrModel (r : Request) : string :=
  if (TokenModelHint r =? "")%string then Model r else TokenModelHint r.

Definition tokenCount (r : Request) (text : string) : Z :=
  let providerType := if (ProviderTypeOfConfig r =? "")%string then ProviderType r
                      else ProviderTypeOfConfig r in
  Tokens (Count providerType (TokenModelHintOrModel r) text).

(** ** retain.go *)

(** The binary search of [TruncateToTokens] between [lo] and [hi]. *)
Fixpoint truncate_search (fuel : nat) (fits : nat → bool) (lo hi : nat) : nat :=
  match fuel with
  | O => lo
  | S fuel' =>
    if (lo <? hi)%nat then
      let mid := Nat.div (lo + hi + 1) 2 in
      if fits mid then truncate_search fuel' fits mid hi
      else truncate_search fuel' fits lo (mid - 1)
    else lo
  end.

Definition prefix_runes (text : string) (n : nat) : string := of_runes (take n (runes text)).

Definition TruncateToTokens (r : Request) (text : string) (limit : Z) : string :=
  let n := length (runes text) in
  prefix_runes text (truncate_search n (λ mid, tokenCount r (prefix_runes text mid) <=? limit) 0 n).

(** The loop of [RetainEntriesByRole] over the entries from the last to the
    first: [kept] is in the order in which the loop appends. *)
Definition retainable (role : string) (entry : Entry) : bool :=
  (Role entry =? role)%string && (ContentType entry =? ContentTypeText)%string &&
  negb (HasPrefix (TrimSpace (Content entry)) SummaryPrefix).

Fixpoint retain_loop (r : Request) (role : string) (rev_entries : list Entry) (remaining : Z)
    (kept : list Entry) : list Entry :=
  match rev_entries with
  | [] => kept
  | entry :: rest =>
    if negb (retainable role entry) then retain_loop r role rest remaining kept
    else
      let tokens := tokenCount r (Content entry) in
      if tokens <=? remaining then retain_loop r role rest (remaining - tokens) (kept ++ [entry])
      else if 0 <? remaining then
        let entry := set_Content (TruncateToTokens r (Content entry) remaining) entry in
        if (TrimSpace (Content entry) =? "")%string then kept else kept ++ [entry]
      else kept
  end.

Definition RetainEntriesByRole (r : Request) (entries : list Entry) (role : string) : list Entry :=
  reverse (retain_loop r role (reverse entries) (userBudget r) []).

Definition RetainUserEntries (r : Request) (entries : list Entry) : list Entry :=
  RetainEntriesByRole r entries RoleUser.

(** ** compact.go: the summarizer *)

Definition renderEntry (entry : Entry) : string :=
  if (ContentType entry =? "function_call")%string then
    let args := TrimSpace (Arguments entry) in
    let args := if (args =? "")%string then "{}"%string else args in
    ("[tool call: " ++ ToolName entry ++ "] " ++ args)%string
  else if (ContentType entry =? "function_call_output")%string then
    ("[tool result: " ++ ToolName entry ++ "] " ++ Content entry)%string
  else Content entry.

Definition summarizableEntries (entries : list Entry) : list Entry :=
  filter (λ e, ContentType e ≠ "system_echo"%string ∧ ContentType e ≠ "reasoning"%string) entries.

Definition basePrompt : string :=
  "Summarize the conversation for continuation. Include: progress and decisions; context constraints and preferences; remaining work; key data and references. Return summary text only.".

Definition summaryPrompt (r : Request) : string :=
  let custom := TrimSpace (CompactPrompt r) in
  if (custom =? "")%string then basePrompt
  else (basePrompt ++ "
Additional guidance:
" ++ custom)%string.

Definition summarySystem (r : Request) : string :=
  let system := TrimSpace (SystemPrompt r) in
  if (system =? "")%string then "You are a context compaction engine."%string else system.

Definition entryMessage (r : Request) (entry : Entry) : ChatMessage :=
  let content := renderEntry entry in
  let limit := perEntryLimit r in
  let content := if (0 <? limit) && (limit <? tokenCount r content)
                 then TruncateToTokens r content limit else content in
  mkChatMessage (Role entry) content "" [].

Definition summaryMessages (r : Request) (trimmed : list Entry) : list ChatMessage :=
  let parent := TrimSpace (ParentSummary r) in
  [mkChatMessage "system" (summarySystem r) "" []] ++
  (if (parent =? "")%string then [] else [mkChatMessage "user" (SummaryPrefix ++ parent) "" []]) ++
  (entryMessage r <$> trimmed) ++
  [mkChatMessage "user" (summaryPrompt r) "" []].

(** What one call to the summarizer returns. *)
Inductive ChatOutcome :=
| ChatOk (content : string) (usage : Usage)
| ChatFail (exceeded : bool) (usage : option Usage).

Inductive compactError :=
| ErrSingleEntryOverflow
| ErrProvider
| ErrContextDone.

(** [chat n msgs] is the answer to the [n]-th call; [done n] says that the
    caller's context ended while waiting before the retry after call [n]. *)
Context (chat : nat → list ChatMessage → ChatOutcome).
Context (ctx_done : nat → bool).

Definition outcome_usage (o : ChatOutcome) : option Usage :=
  match o with
  | ChatOk _ u => Some u
  | ChatFail _ u => u
  end.

Definition add_opt_usage (u : Usage) (o : option Usage) : Usage :=
  match o with Some d => addUsage u d | None => u end.

(** The retry loop of [summarize]. [None]: out of fuel. *)
Fixpoint summarize_loop (fuel : nat) (r : Request) (trimmed : list Entry) (usage : Usage)
    (calls retries : nat) : option (Usage * nat * result compactError string) :=
  match fuel with
  | O => None
  | S fuel' =>
    let outcome := chat calls (summaryMessages r trimmed) in
    let calls := S calls in
    let usage := add_opt_usage usage (outcome_usage outcome) in
    match outcome with
    | ChatOk content _ =>
      let summary := TrimSpace content in
      Some (usage, calls, Ok (if (summary =? "")%string then FallbackSummary else summary))
    | ChatFail true _ =>
      if (length trimmed <=? 1)%nat then Some (usage, calls, Err ErrSingleEntryOverflow)
      else summarize_loop fuel' r (tail trimmed) usage calls 0
    | ChatFail false _ =>
      if (retries <? 2)%nat then
        if ctx_done calls then Some (usage, calls, Err ErrContextDone)
        else summarize_loop fuel' r trimmed usage calls (S retries)
      else Some (usage, calls, Err ErrProvider)
    end
  end.

(** Three calls per entry always suffice (see [summarize_total]). *)
Definition summarize (r : Request) (entries : list Entry) : option (Usage * nat * result compactError string) :=
  let entries := summarizableEntries entries in
  match entries with
  | [] => Some (zeroUsage, O, Ok FallbackSummary)
  | _ => summarize_loop (3 * length entries) r entries zeroUsage 0 0
  end.

Record CompactResult := mkCompactResult {
  Summary : string;
  Retained : list Entry;
  ResultUsage : Usage;
  ModelCalls : nat
}.

Definition Compact (r : Request) (entries : list Entry)
    : option (CompactResult * option compactError) :=
  match summarize r entries with
  | None => None
  | Some (usage, calls, Err e) => Some (mkCompactResult "" [] usage calls, Some e)
  | Some (usage, calls, Ok summary) =>
    Some (mkCompactResult summary (RetainUserEntries r entries) usage calls, None)
  end.


(** ** Truncation *)

Lemma truncate_search_spec fuel fits lo hi :
  (lo ≤ hi)%nat → (hi - lo ≤ fuel)%nat →
  let n := truncate_search fuel fits lo hi in
  (lo ≤ n ≤ hi)%nat ∧ (n = lo ∨ fits n = true) ∧
  ((∀ i j, (lo < i ≤ j)%nat → (j ≤ hi)%nat → fits j = true → fits i = true) →
   ∀ k, (n < k ≤ hi)%nat → fits k = false).
Proof.
  revert lo hi. induction fuel as [|fuel IH]; intros lo hi Hle Hf; cbn [truncate_search]; cbv zeta.
  { split_and!; [lia|lia|by left|intros _ k Hk; lia]. }
  destruct (Nat.ltb_spec lo hi) as [Hlt|Hge].
  2: { split_and!; [lia|lia|by left|intros _ k Hk; lia]. }
  set (mid := Nat.div (lo + hi + 1) 2).
  assert (lo < mid ≤ hi)%nat as Hmid.
  { subst mid. pose proof (Nat.div_mod (lo + hi + 1) 2 ltac:(lia)).
    pose proof (Nat.mod_upper_bound (lo + hi + 1) 2 ltac:(lia)). lia. }
  clearbody mid. cbv zeta in IH. destruct (fits mid) eqn:Hfit.
  - destruct (IH mid hi ltac:(lia) ltac:(lia)) as (H1 & H2 & H3). split_and!; [lia|lia| |]; clear H1.
    + right. destruct H2 as [H2|H2]; [by rewrite H2|done].
    + intros Hm k Hk. apply H3; [|lia]. intros i j Hij Hj. apply Hm; lia.
  - destruct (IH lo (mid - 1)%nat ltac:(lia) ltac:(lia)) as (H1 & H2 & H3). split_and!; [lia|lia|done|].
    intros Hm k Hk. destruct (decide (k ≤ mid - 1)%nat) as [Hk1|Hk1].
    + apply H3; [|lia]. intros i j Hij Hj Hfj. apply (Hm i j); [lia|lia|done].
    + destruct (fits k) eqn:Hfk; [|done].
      rewrite (Hm mid k ltac:(lia) ltac:(lia) Hfk) in Hfit. done.
Qed.

Definition prefix_monotone (r : Request) (text : string) : Prop :=
  ∀ i j, (i ≤ j ≤ length (runes text))%nat →
    tokenCount r (prefix_runes text i) ≤ tokenCount r (prefix_runes text j).

Lemma tokenCount_empty r : tokenCount r "" = 0.
Proof. done. Qed.

Lemma prefix_runes_0 text : prefix_runes text 0 = ""%string.
Proof. unfold prefix_runes. by rewrite take_0. Qed.

(** The shared specification of the search. *)
Lemma truncate_core r text limit :
  0 ≤ limit →
  ∃ n, (n ≤ length (runes text))%nat ∧ TruncateToTokens r text limit = prefix_runes text n ∧
    tokenCount r (prefix_runes text n) ≤ limit ∧
    (prefix_monotone r text → ∀ k, (n < k ≤ length (runes text))%nat →
       limit < tokenCount r (prefix_runes text k)).
Proof.
  intros Hl. unfold TruncateToTokens.
  set (fits := λ mid : nat, tokenCount r (prefix_runes text mid) <=? limit).
  destruct (truncate_search_spec (length (runes text)) fits 0 (length (runes text)) ltac:(lia) ltac:(lia))
    as (H1 & H2 & H3).
  set (n := truncate_search _ _ _ _) in *. exists n. split_and!; [lia|done| |].
  - destruct H2 as [-> | Hf]; [|by apply Z.leb_le in Hf].
    by rewrite prefix_runes_0, tokenCount_empty.
  - intros Hm k Hk. assert (fits k = false) as Hk'.
    { apply H3; [|lia]. intros i j Hij Hj Hfj. subst fits. simpl in *. bool_prop.
      apply Z.leb_le. specialize (Hm i j ltac:(lia)). lia. }
    subst fits. simpl in Hk'. bool_prop. lia.
Qed.

Lemma slen_of_runes l : slen (of_runes l) = zlen (concat (encode_rune <$> l)).
Proof. unfold slen, zlen, of_runes. by rewrite <- length_bytes, bytes_of_bytes. Qed.

Lemma conservative_monotone text i j :
  (i ≤ j)%nat → conservative (prefix_runes text i) ≤ conservative (prefix_runes text j).
Proof.
  intros Hij. unfold conservative, rune_count, prefix_runes. rewrite !runes_take, !slen_of_runes.
  assert (zlen (take i (runes text)) ≤ zlen (take j (runes text))) as Hr.
  { unfold zlen. rewrite !length_take. lia. }
  assert (zlen (concat (encode_rune <$> take i (runes text))) ≤
          zlen (concat (encode_rune <$> take j (runes text)))) as Hb.
  { replace (take j (runes text)) with (take i (runes text) ++ drop i (take j (runes text))).
    - rewrite fmap_app, concat_app. unfold zlen. rewrite length_app. lia.
    - rewrite <- (take_drop i (take j (runes text))) at 2. by rewrite take_take, Nat.min_l by lia. }
  set (a := zlen (concat _)) in *. set (b := zlen (concat _)) in Hb |- *.
  assert (0 ≤ a) by (subst a; unfold zlen; lia). assert (0 ≤ zlen (take i (runes text))) by (unfold zlen; lia).
  pose proof (Z.div_le_mono (a + 2) (b + 2) 3 ltac:(lia) ltac:(lia)).
  pose proof (Z.div_pos (a + 2) 3 ltac:(lia) ltac:(lia)).
  repeat case_match; bool_prop; lia.
Qed.

(** Providers without a known tokenizer are counted by the conservative UTF-8
    estimate, which grows with the prefix. *)
Lemma fallback_monotone r text : (∀ m, encodingForModel m = None) → prefix_monotone r text.
Proof.
  intros Hnone i j Hij.
  assert (∀ t, tokenCount r t = conservative t) as Ht.
  { intros t. unfold tokenCount, Count. destruct (String.eqb_spec t "") as [-> |Hne]; [done|].
    cbv zeta. rewrite Hnone. destruct (bool_decide _), (_ =? _)%string; reflexivity. }
  rewrite !Ht. apply conservative_monotone. lia.
Qed.

(** [TruncateToTokens] returns a prefix of the text in whole runes that fits
    the limit, for every tokenizer; when the count grows with the prefix (as
    the conservative estimate of unknown models does) it is the longest such
    prefix. *)
Theorem truncate_longest_fitting r text limit :
  0 ≤ limit →
  ∃ n, (n ≤ length (runes text))%nat ∧
    runes (TruncateToTokens r text limit) = take n (runes text) ∧
    tokenCount r (TruncateToTokens r text limit) ≤ limit ∧
    ((∀ m, encodingForModel m = None) ∨ prefix_monotone r text →
     ∀ k, (n < k ≤ length (runes text))%nat → limit < tokenCount r (prefix_runes text k)).
Proof.
  intros Hl. destruct (truncate_core r text limit Hl) as (n & Hn & -> & Hfit & Hmax).
  exists n. split_and!; [done|apply runes_take|done|].
  intros [Hm%(fallback_monotone r text)|Hm]; auto.
Qed.

(** ** Retention *)

Lemma conservative_nonneg t : 0 ≤ conservative t.
Proof.
  unfold conservative, rune_count, slen, zlen.
  pose proof (Z.div_pos (Z.of_nat (String.length t) + 2) 3 ltac:(lia) ltac:(lia)).
  repeat case_match; lia.
Qed.

Lemma tokenCount_nonneg r t : 0 ≤ tokenCount r t.
Proof.
  unfold tokenCount, Count. pose proof (conservative_nonneg t).
  repeat case_match; simpl; unfold zlen; lia.
Qed.

Lemma userBudget_pos r : 0 < userBudget r.
Proof. unfold userBudget. case_match; bool_prop; [done|]. by vm_compute. Qed.

(** The tokens an entry's content costs. *)
Definition entryTokens (r : Request) (e : Entry) : Z := tokenCount r (Content e).

(** What the loop does with the first candidate [e] that does not fit when
    [remaining] tokens are left. *)
Definition truncated (r : Request) (e : Entry) (remaining : Z) : list Entry :=
  if 0 <? remaining then
    let e' := set_Content (TruncateToTokens r (Content e) remaining) e in
    if (TrimSpace (Content e') =? "")%string then [] else [e']
  else [].

Lemma truncated_cost r e remaining : 0 ≤ remaining → sum_by (entryTokens r) (truncated r e remaining) ≤ remaining.
Proof.
  intros Hr. unfold truncated. destruct (0 <? remaining) eqn:Hpos; simpl; [|lia].
  destruct (truncate_core r (Content e) remaining Hr) as (n & _ & Heq & Hfit & _).
  case_match; simpl; [lia|]. unfold entryTokens; simpl. rewrite Heq. lia.
Qed.

Lemma retain_loop_spec r role l remaining acc :
  0 ≤ remaining →
  ∃ taken rest, filter (λ e, retainable role e = true) l = taken ++ rest ∧
    sum_by (entryTokens r) taken ≤ remaining ∧
    retain_loop r role l remaining acc = acc ++ taken ++
      match rest with
      | [] => []
      | e :: _ => truncated r e (remaining - sum_by (entryTokens r) taken)
      end ∧
    (∀ e rest', rest = e :: rest' → remaining - sum_by (entryTokens r) taken < entryTokens r e).
Proof.
  revert remaining acc. induction l as [|e l IH]; intros remaining acc Hr; simpl.
  { exists [], []. simpl. rewrite app_nil_r. split_and!; [done|lia|done|done]. }
  rewrite filter_cons. destruct (retainable role e) eqn:Hret; simpl.
  2: { destruct (IH remaining acc Hr) as (taken & rest & Hf & H1). exists taken, rest.
       by split. }
  destruct (tokenCount r (Content e) <=? remaining) eqn:Hfit; bool_prop.
  - destruct (IH (remaining - tokenCount r (Content e)) (acc ++ [e]) ltac:(lia))
      as (taken & rest & Hf & Hs & Heq & Hnext).
    exists (e :: taken), rest. simpl.
    replace (remaining - (entryTokens r e + sum_by (entryTokens r) taken))
      with (remaining - tokenCount r (Content e) - sum_by (entryTokens r) taken) by (unfold entryTokens; lia).
    split_and!; [by rewrite Hf|unfold entryTokens at 1; lia| |done].
    rewrite Heq. by rewrite <- app_assoc.
  - exists [], (e :: filter (λ e, retainable role e = true) l). simpl.
    replace (remaining - 0) with remaining by lia.
    split_and!; [done|done| |].
    + unfold truncated. simpl. repeat case_match; rewrite ?app_nil_r; done.
    + intros ? ? [= <- <-]. done.
Qed.

Lemma RetainEntriesByRole_spec r entries role :
  ∃ dropped kept partial,
    filter (λ e, retainable role e = true) entries = dropped ++ kept ∧
    RetainEntriesByRole r entries role = partial ++ kept ∧
    sum_by (entryTokens r) (partial ++ kept) ≤ userBudget r ∧
    match last dropped with
    | None => partial = []
    | Some e =>
      userBudget r < entryTokens r e + sum_by (entryTokens r) kept ∧
      partial = truncated r e (userBudget r - sum_by (entryTokens r) kept)
    end.
Proof.
  pose proof (userBudget_pos r). unfold RetainEntriesByRole.
  destruct (retain_loop_spec r role (reverse entries) (userBudget r) [] ltac:(lia))
    as (taken & rest & Hf & Hs & Heq & Hnext).
  assert (sum_by (entryTokens r) (reverse taken) = sum_by (entryTokens r) taken) as Hrev.
  { apply sum_by_perm. apply reverse_Permutation. }
  exists (reverse rest), (reverse taken).
  exists (match rest with [] => [] | e :: _ => truncated r e (userBudget r - sum_by (entryTokens r) taken) end).
  rewrite Heq, sum_by_app, Hrev. simpl. split_and!.
  - rewrite <- reverse_app, <- Hf, filter_reverse. by rewrite reverse_involutive.
  - rewrite reverse_app. f_equal. destruct rest as [|e rest]; [done|].
    unfold truncated. repeat case_match; done.
  - destruct rest as [|e rest]; simpl; [lia|].
    pose proof (truncated_cost r e (userBudget r - sum_by (entryTokens r) taken) ltac:(lia)). lia.
  - destruct rest as [|e rest]; [done|]. rewrite reverse_cons, last_snoc.
    split; [|done]. specialize (Hnext e rest eq_refl). lia.
Qed.

(** [RetainEntriesByRole] keeps, in order, the newest entries of the role
    (leaving out earlier summaries and everything that is not text) that fit the
    budget; the next older one is the first that did not fit, and what is kept of
    it is at most a nonblank truncated copy in front.  The total never exceeds
    the user budget. *)
Theorem retain_newest_within_budget r entries role :
  ∃ dropped kept partial,
    filter (λ e, retainable role e = true) entries = dropped ++ kept ∧
    RetainEntriesByRole r entries role = partial ++ kept ∧
    sum_by (entryTokens r) (partial ++ kept) ≤ userBudget r ∧
    match last dropped with
    | None => partial = []
    | Some e =>
      userBudget r < entryTokens r e + sum_by (entryTokens r) kept ∧
      partial = truncated r e (userBudget r - sum_by (entryTokens r) kept)
    end.
Proof. exact (RetainEntriesByRole_spec r entries role). Qed.

(** ** The summarizer *)

Lemma zero_calls_budget (trimmed : list Entry) (retries : nat) :
  (3 * length trimmed - retries ≤ 0)%nat → (retries ≤ 2)%nat → trimmed = [].
Proof. destruct trimmed; simpl; [done|lia]. Qed.

(** A call's outcome decides whether the loop goes on: at most three calls are
    spent on each list of entries. *)
Lemma summarize_loop_total fuel r trimmed usage calls retries :
  trimmed ≠ [] → (retries ≤ 2)%nat → (3 * length trimmed - retries ≤ fuel)%nat →
  ∃ usage' calls' res, summarize_loop fuel r trimmed usage calls retries = Some (usage', calls', res) ∧
    (calls < calls' ≤ calls + (3 * length trimmed - retries))%nat ∧
    (∀ summary, res = Ok summary → summary ≠ ""%string).
Proof.
  revert trimmed usage calls retries.
  induction fuel as [|fuel IH]; intros trimmed usage calls retries Hne Hr Hf.
  { by destruct Hne; eapply zero_calls_budget. }
  assert (1 ≤ length trimmed)%nat by (destruct trimmed; simpl; [done|lia]).
  cbn [summarize_loop]. destruct (chat calls _) as [content u|[] u].
  - eexists _, _, _. split; [done|]. split; [lia|].
    intros summary [= <-]. destruct (TrimSpace content =? "")%string eqn:He; bool_prop; done.
  - destruct (Nat.leb_spec (length trimmed) 1) as [Hl|Hl].
    + eexists _, _, _. split; [done|]. split; [lia|done].
    + destruct trimmed as [|e0 [|e1 tr]]; simpl in Hl; [lia|lia|]. cbn [tail].
      destruct (IH (e1 :: tr) (add_opt_usage usage (outcome_usage (ChatFail true u))) (S calls) 0%nat)
        as (u' & c' & res & -> & Hc & Hs); [done|lia|simpl in *; lia|].
      eexists _, _, _. split; [done|]. split; [simpl in *; lia|done].
  - destruct (Nat.ltb_spec retries 2) as [Hl|Hl].
    + destruct (ctx_done (S calls)).
      { eexists _, _, _. split; [done|]. split; [lia|done]. }
      destruct (IH trimmed (add_opt_usage usage (outcome_usage (ChatFail false u))) (S calls) (S retries))
        as (u' & c' & res & -> & Hc & Hs); [done|lia|lia|].
      eexists _, _, _. split; [done|]. split; [lia|done].
    + eexists _, _, _. split; [done|]. split; [lia|done].
Qed.

Lemma Compact_spec r entries :
  ∃ res err, Compact r entries = Some (res, err) ∧
    (ModelCalls res ≤ 3 * length (summarizableEntries entries))%nat ∧
    (ModelCalls res = 0%nat ↔ summarizableEntries entries = []) ∧
    match err with
    | None => Summary res ≠ ""%string ∧ Retained res = RetainUserEntries r entries
    | Some _ => Summary res = ""%string ∧ Retained res = []
    end.
Proof.
  unfold Compact, summarize. destruct (summarizableEntries entries) as [|e es] eqn:Hes.
  { eexists _, _. split; [done|]. simpl. by split_and!; first [lia|done]. }
  rewrite <- Hes in *. assert (summarizableEntries entries ≠ []) as Hne by (rewrite Hes; done).
  destruct (summarize_loop_total (3 * length (summarizableEntries entries)) r
              (summarizableEntries entries) zeroUsage 0 0 Hne ltac:(lia) ltac:(lia))
    as (u & c & res & -> & Hc & Hs).
  destruct res as [summary|err]; eexists _, _; (split; [done|]); simpl.
  - split; [lia|]. split; [split; [lia|intros ?; by destruct Hne]|]. by split; [apply Hs|].
  - split; [lia|]. split; [split; [lia|intros ?; by destruct Hne]|done].
Qed.

(** [Compact] returns for every provider behaviour: within three provider
    calls per entry to summarize (none when there is none).  On success the
    summary is never empty and the retained entries are those of
    [RetainUserEntries]; on an error both are empty, and only the usage and the
    number of calls are reported. *)
Theorem compact_total r entries :
  ∃ res err, Compact r entries = Some (res, err) ∧
    (ModelCalls res ≤ 3 * length (summarizableEntries entries))%nat ∧
    (ModelCalls res = 0%nat ↔ summarizableEntries entries = []) ∧
    match err with
    | None => Summary res ≠ ""%string ∧ Retained res = RetainUserEntries r entries
    | Some _ => Summary res = ""%string ∧ Retained res = []
    end.
Proof. exact (Compact_spec r entries). Qed.

(** ** Round trip of the chat transcript *)

(** The messages [FromChat] represents without loss: function calls are an
    assistant's, tool results carry their call id and nothing else does; calls
    never carry an explicit type. *)
Definition chat_wf (m : ChatMessage) : Prop :=
  (msg_ToolCalls m ≠ [] → msg_Role m = RoleAssistant ∧ msg_ToolCallID m = ""%string) ∧
  Forall (λ c, call_Type c = ""%string) (msg_ToolCalls m) ∧
  (msg_ToolCalls m = [] → msg_Role m ≠ RoleTool → msg_ToolCallID m = ""%string).

(** [ToChat] merges a function call into the assistant message before it: two
    messages may follow each other unless the first is the assistant's and the
    second starts with a call. *)
Definition chat_separate (m1 m2 : ChatMessage) : Prop :=
  msg_Role m1 = RoleAssistant → msg_ToolCalls m2 ≠ [] → msg_Content m2 ≠ ""%string.

Fixpoint chat_transcript (prev : option ChatMessage) (ms : list ChatMessage) : Prop :=
  match ms with
  | [] => True
  | m :: rest =>
    chat_wf m ∧ (∀ p, prev = Some p → chat_separate p m) ∧ chat_transcript (Some m) rest
  end.

Lemma update_last_snoc {A} (f : A → A) l x : update_last f (l ++ [x]) = l ++ [f x].
Proof. unfold update_last. rewrite reverse_app. simpl. by rewrite reverse_involutive. Qed.

Lemma toChat_calls i sub calls acc m :
  Forall (λ c, call_Type c = ""%string) calls →
  foldl toChatStep (acc ++ [m], true) (callEntries i sub calls) =
  (acc ++ [mkChatMessage (msg_Role m) (msg_Content m) (msg_ToolCallID m) (msg_ToolCalls m ++ calls)], true).
Proof.
  revert sub m. induction calls as [|c calls IH]; intros sub m Hc; simpl.
  { rewrite app_nil_r. by destruct m. }
  apply Forall_cons in Hc as [Hc1 Hc2].
  rewrite update_last_snoc. rewrite IH by done. destruct c. simpl in *. subst.
  unfold absorb; simpl. by rewrite <- app_assoc.
Qed.

Lemma toChat_message i m acc pending :
  chat_wf m → (msg_ToolCalls m ≠ [] → msg_Content m = ""%string → pending = false) →
  foldl toChatStep (acc, pending) (messageEntries i m) =
  (acc ++ [m], (msg_Role m =? RoleAssistant)%string).
Proof.
  intros (Hcalls & Htypes & Hid) Hp. unfold messageEntries.
  destruct m as [role content id [|c calls]]; cbn [msg_ToolCalls msg_Content msg_Role msg_ToolCallID] in *.
  - destruct (String.eqb_spec role RoleTool) as [-> |Hne]; simpl; [done|].
    by rewrite Hid.
  - destruct Hcalls as [-> ->]; [done|].
    destruct (String.eqb_spec content "") as [-> |Hne].
    + rewrite Hp by done. apply Forall_cons in Htypes as [Hc1 Hc2]. simpl.
      rewrite update_last_snoc. unfold absorb; simpl. rewrite toChat_calls by done. simpl.
      destruct c; simpl in *; by subst.
    + cbn [foldl]. unfold toChatStep at 2. cbn [ContentType newTranscriptEntry Role Content].
      rewrite !String.eqb_refl. by rewrite toChat_calls.
Qed.

Lemma toChat_fromChatAt ms i acc prev :
  chat_transcript prev ms →
  foldl toChatStep (acc, match prev with Some p => (msg_Role p =? RoleAssistant)%string | None => false end)
    (FromChatAt ms i) =
  (acc ++ ms, match last ms with
              | Some m => (msg_Role m =? RoleAssistant)%string
              | None => match prev with Some p => (msg_Role p =? RoleAssistant)%string | None => false end
              end).
Proof.
  revert i acc prev. induction ms as [|m ms IH]; intros i acc prev Hw; cbn [FromChatAt].
  { simpl. by rewrite app_nil_r. }
  destruct Hw as (Hwf & Hsep & Hrest). rewrite foldl_app, toChat_message; [|done|].
  - rewrite (IH (i + 1) (acc ++ [m]) (Some m) Hrest). rewrite <- app_assoc, last_cons.
    by destruct (last ms).
  - intros Hc He. destruct prev as [p|]; [|done].
    destruct (String.eqb_spec (msg_Role p) RoleAssistant) as [Hp|]; [|done].
    by destruct (Hsep p eq_refl Hp Hc).
Qed.

(** Converting a chat transcript to compaction entries and back is the
    identity on every well-formed transcript. *)
Theorem chat_entries_roundtrip ms :
  chat_transcript None ms → ToChat (FromChat ms) = ms.
Proof.
  intros Hw. unfold ToChat, FromChat. by rewrite (toChat_fromChatAt ms 0 [] None Hw).
Qed.

End Compaction.

(** ** Witnesses *)

Definition sample_request : Request := mkRequest "" "" "openai" "gpt-4o" "" 10 0 "" "".

Lemma truncate_longest_fitting_witness :
  0 ≤ 2 ∧ ∃ n, (n ≤ length (runes "abcdefghij"))%nat ∧
    runes (TruncateToTokens (H := AsciiTables) (λ _, None) sample_request "abcdefghij" 2) =
      take n (runes "abcdefghij") ∧ n = 2%nat.
Proof.
  split; [lia|].
  destruct (truncate_longest_fitting (H := AsciiTables) (λ _, None) sample_request "abcdefghij" 2 ltac:(lia))
    as (n & Hn & Hr & _). exists n. split; [exact Hn|]. split; [exact Hr|].
  vm_compute in Hr. vm_compute in Hn. do 11 (destruct n as [|n]; [try discriminate Hr; try reflexivity|]). lia.
Defined.

Definition sample_chat : list ChatMessage :=
  [mkChatMessage RoleUser "hi" "" [];
   mkChatMessage RoleAssistant "look" "" [mkToolCall "c1" "" "search" "{}"; mkToolCall "c2" "" "read" "{}"];
   mkChatMessage RoleTool "found" "c1" [];
   mkChatMessage RoleTool "data" "c2" [];
   mkChatMessage RoleAssistant "done" "" []].

Lemma chat_entries_roundtrip_witness : ToChat (FromChat sample_chat) = sample_chat.
Proof.
  apply chat_entries_roundtrip. unfold sample_chat, chat_transcript, chat_wf, chat_separate. simpl.
  repeat split; intros; simplify_eq/=; repeat constructor; done.
Defined.
