(* ===== verification/Tools.v ===== *)
(** The tool boundary of the agent runtime: the tool contract
    (internal/runtime/toolruntime/tool.go), the normalization of the model's
    tool calls (internal/runtime/agent/tool_normalizer.go), the batch planner
    and the batch executor (tool_batch_planner.go, tool_batch_executor.go), and
    the delegation guard (delegation_guard.go). *)
From S2P Require Import Prelude GoStr Json Chat.
Open Scope Z_scope.

(** ** tool.go *)

Definition RiskLow : string := "low".
Definition RiskMedium : string := "medium".
Definition RiskHigh : string := "high".
Definition SideEffectNone : string := "none".
Definition SideEffectRead : string := "read".
Definition SideEffectWrite : string := "write".
Definition SideEffectExternalAction : string := "external_action".
Definition ExecutionSerial : string := "serial".
Definition ExecutionDelegation : string := "delegation".

Record ApprovalOption := mkApprovalOption { opt_ID : string; opt_Label : string; opt_Description : string }.
Record UserInputOption := mkUserInputOption { uio_Label : string; uio_Description : string }.
Record UserInputQuestion := mkUserInputQuestion {
  q_ID : string;
  q_Header : string;
  q_Question : string;
  q_Options : list UserInputOption;
  q_IsOther : bool
}.

Record ToolApproval := mkToolApproval {
  ap_Kind : string;
  ap_Title : string;
  ap_Reason : string;
  ap_IsBlocking : bool;
  ap_Options : list ApprovalOption;
  ap_Questions : list UserInputQuestion
}.

Record ToolResult := mkToolResult {
  ContentJSON : RawMessage;
  ContentText : string;
  IsError : bool;
  ResultMetadata : gmap string json;
  Approval : option ToolApproval
}.

Definition emptyResult : ToolResult := mkToolResult "" "" false ∅ None.

Definition set_IsError (b : bool) (r : ToolResult) : ToolResult :=
  mkToolResult (ContentJSON r) (ContentText r) b (ResultMetadata r) (Approval r).

Record ToolMetadata := mkToolMetadata {
  RiskLevel : string;
  RequiresApproval : bool;
  TimeoutMS : Z;
  MaxOutputBytes : Z;
  SideEffect : string;
  AllowedHosts : list string;
  ExecutionClass : string
}.

(** A [RuntimeTool]: [tool_Metadata] is [Some] for the tools that implement
    [MetadataProvider]; [Execute] is the executor's argument. *)
Record RuntimeTool := mkRuntimeTool {
  tool_Name : string;
  tool_Description : string;
  tool_Parameters : RawMessage;
  tool_Metadata : option ToolMetadata
}.

Definition or_default (v d : string) : string := if (v =? "")%string then d else v.

Definition MetadataOf (tool : option RuntimeTool) : ToolMetadata :=
  match tool with
  | None => mkToolMetadata RiskLow false 0 0 SideEffectNone [] ""
  | Some t =>
    match tool_Metadata t with
    | Some m =>
      mkToolMetadata (or_default (RiskLevel m) RiskLow) (RequiresApproval m) (TimeoutMS m) (MaxOutputBytes m)
        (or_default (SideEffect m) SideEffectNone) (AllowedHosts m)
        (or_default (ExecutionClass m) ExecutionSerial)
    | None => mkToolMetadata RiskLow false 0 0 SideEffectNone [] ExecutionSerial
    end
  end.

Definition EffectiveLimit (value ceiling : Z) : Z :=
  if (0 <? ceiling) && ((value <=? 0) || (ceiling <? value)) then ceiling else value.

(** [uniqueStrings]: the first occurrence of each value. *)
Fixpoint dedupe (seen : list string) (values : list string) : list string :=
  match values with
  | [] => []
  | v :: rest => if bool_decide (v ∈ seen) then dedupe seen rest else v :: dedupe (v :: seen) rest
  end.

Definition uniqueStrings (values : list string) : list string := dedupe [] values.

Section Hosts.
Context `{UnicodeTables}.

Definition NormalizeHost (host : string) : string :=
  let host := TrimSpace (ToLower host) in
  let host := TrimPrefix host "http://" in
  let host := TrimPrefix host "https://" in
  let host := match IndexByte host (byte_of 47) with Some i => str_take i host | None => host end in
  match LastIndexByte host (byte_of 58) with
  | Some (S i) => str_take (S i) host
  | _ => host
  end.

Definition NormalizeHosts (hosts : list string) : list string :=
  uniqueStrings (filter (λ h, h ≠ ""%string) (NormalizeHost <$> hosts)).

(** [None]: allowed. [Some None]: denied as a whole; [Some (Some h)]: host [h]
    is not on the policy's list. *)
Fixpoint checkHosts (allowed toolHosts : list string) : option (option string) :=
  match toolHosts with
  | [] => None
  | host :: rest =>
    let normalized := NormalizeHost host in
    if (normalized =? "")%string then checkHosts allowed rest
    else if bool_decide (normalized ∈ allowed) then checkHosts allowed rest
    else Some (Some normalized)
  end.

Definition ValidateAllowedHosts (toolHosts policyHosts : list string) (denyAll : bool) : option (option string) :=
  match toolHosts with
  | _ :: _ => if denyAll then Some None else
    match NormalizeHosts policyHosts with
    | [] => None
    | allowed => checkHosts allowed toolHosts
    end
  | [] => None
  end.
End Hosts.
#[global] Arguments NormalizeHost : simpl never.

(** ** tool_normalizer.go *)

Definition ToolCallIssueMissingName : string := "missing_name".
Definition ToolCallIssueUnknownName : string := "unknown_name".
Definition ToolCallIssueAmbiguousName : string := "ambiguous_name".
Definition ToolCallIssueInvalidJSON : string := "invalid_json".
Definition ToolCallIssueInvalidArguments : string := "invalid_arguments".

Record ToolCallIssue := mkIssue { Code : string; Message : string }.

Record NormalizedToolCall := mkNormalized {
  Call : ToolCall;
  Tool : option RuntimeTool;
  Metadata : ToolMetadata;
  Issue : option ToolCallIssue
}.

Definition zeroMetadata : ToolMetadata := mkToolMetadata "" false 0 0 "" [] "".

Definition set_call_ID (id : string) (c : ToolCall) : ToolCall :=
  mkToolCall id (call_Type c) (call_Name c) (call_Arguments c).
Definition set_call_Name (n : string) (c : ToolCall) : ToolCall :=
  mkToolCall (call_ID c) (call_Type c) n (call_Arguments c).
Definition set_call_Arguments (a : RawMessage) (c : ToolCall) : ToolCall :=
  mkToolCall (call_ID c) (call_Type c) (call_Name c) a.

Record ToolCallNormalizer := mkNormalizer {
  Tools : gmap string RuntimeTool;
  Aliases : gmap string string;
  CaseInsensitive : bool
}.

Inductive normalizerError :=
| DuplicateTool (name : string)
| EmptyAlias
| DuplicateAlias (alias : string)
| UnknownAliasTarget (alias target : string).

Fixpoint addTools (tools : list (option RuntimeTool)) (acc : gmap string RuntimeTool)
    : result normalizerError (gmap string RuntimeTool) :=
  match tools with
  | [] => Ok acc
  | None :: rest => addTools rest acc
  | Some tool :: rest =>
    let name := TrimSpace (tool_Name tool) in
    if (name =? "")%string then addTools rest acc
    else match acc !! name with
         | Some _ => Err (DuplicateTool name)
         | None => addTools rest (<[name := tool]> acc)
         end
  end.

(** The aliases in the order in which Go's [range] visits the map. *)
Fixpoint addAliases (tools : gmap string RuntimeTool) (aliases : list (string * string)) (acc : gmap string string)
    : result normalizerError (gmap string string) :=
  match aliases with
  | [] => Ok acc
  | (alias, target) :: rest =>
    let alias := TrimSpace alias in
    let target := TrimSpace target in
    if (alias =? "")%string || (target =? "")%string then Err EmptyAlias
    else match acc !! alias with
         | Some _ => Err (DuplicateAlias alias)
         | None =>
           match tools !! target with
           | None => Err (UnknownAliasTarget alias target)
           | Some _ => addAliases tools rest (<[alias := target]> acc)
           end
         end
  end.

Definition NewToolCallNormalizer (tools : list (option RuntimeTool)) (aliases : list (string * string))
    : result normalizerError ToolCallNormalizer :=
  match addTools tools ∅ with
  | Err e => Err e
  | Ok ts =>
    match addAliases ts aliases ∅ with
    | Err e => Err e
    | Ok al => Ok (mkNormalizer ts al true)
    end
  end.

Section Normalizer.
Context `{UnicodeTables}.
Context (json_valid : string → bool).
Context (json_decode : string → result string json).
Context (json_decode_map : string → result string (list (string * json))).
(** [hex.EncodeToString(sha256.Sum256(s))]. *)
Context (sha256_hex : string → string).

Definition unknownName (name : string) : ToolCallIssue :=
  mkIssue ToolCallIssueUnknownName ("tool " ++ Quote name ++ " is not available").

Definition nameCandidates (n : ToolCallNormalizer) (name : string) : list string :=
  let needle := ToLower name in
  uniqueStrings
    ((filter (λ canonical, ToLower canonical = needle) (map_to_list (Tools n)).*1) ++
     (filter (λ at', ToLower at'.1 = needle) (map_to_list (Aliases n))).*2).

Definition resolveName (n : ToolCallNormalizer) (name : string) : result ToolCallIssue string :=
  match Tools n !! name with
  | Some _ => Ok name
  | None =>
    match Aliases n !! name with
    | Some target => Ok target
    | None =>
      if negb (CaseInsensitive n) then Err (unknownName name)
      else match nameCandidates n name with
           | [canonical] => Ok canonical
           | [] => Err (unknownName name)
           | _ => Err (mkIssue ToolCallIssueAmbiguousName ("tool name " ++ Quote name ++ " is ambiguous"))
           end
    end
  end.

Definition generatedToolCallID (index : Z) (call : ToolCall) : string :=
  let nul := String (byte_of 0) "" in
  ("call_" ++ str_take 16 (sha256_hex (Itoa index ++ nul ++ TrimSpace (call_Name call) ++ nul ++ call_Arguments call)))%string.

Definition Normalize (n : ToolCallNormalizer) (call : ToolCall) (index : Z) : NormalizedToolCall :=
  let id := TrimSpace (call_ID call) in
  let id := if (id =? "")%string then generatedToolCallID index call else id in
  let call := set_call_Name (TrimSpace (call_Name call)) (set_call_ID id call) in
  if (call_Name call =? "")%string then
    mkNormalized call None zeroMetadata (Some (mkIssue ToolCallIssueMissingName "tool name is required"))
  else
    match resolveName n (call_Name call) with
    | Err issue => mkNormalized call None zeroMetadata (Some issue)
    | Ok canonical =>
      let call := set_call_Name canonical call in
      let tool := Tools n !! canonical in
      let metadata := MetadataOf tool in
      let args := TrimSpace (call_Arguments call) in
      let blank := (args =? "")%string || (args =? "null")%string in
      let call := if blank then set_call_Arguments "{}" call else call in
      if negb blank && negb (json_valid (call_Arguments call)) then
        mkNormalized call tool metadata
          (Some (mkIssue ToolCallIssueInvalidJSON "tool arguments must be valid JSON"))
      else
        (* a nil tool has no Parameters: the method call panics *)
        match ValidateToolArguments json_valid json_decode json_decode_map
                (match tool with Some t => tool_Parameters t | None => "" end) (call_Arguments call) with
        | Some err =>
          mkNormalized call tool metadata (Some (mkIssue ToolCallIssueInvalidArguments (schemaErrorText err)))
        | None => mkNormalized call tool metadata None
        end
    end.

(** Returns the id and the updated [used] map. *)
Definition uniqueToolCallID (base : string) (used : gmap string Z) : string * gmap string Z :=
  let base := TrimSpace base in
  let base := if (base =? "")%string then "call_unknown"%string else base in
  let count := default 0 (used !! base) in
  let used := <[base := count + 1]> used in
  if count =? 0 then (base, used) else ((base ++ "_" ++ Itoa (count + 1))%string, used).

Fixpoint normalizeFrom (n : ToolCallNormalizer) (index : Z) (calls : list ToolCall) (used : gmap string Z)
    : list NormalizedToolCall :=
  match calls with
  | [] => []
  | call :: rest =>
    let item := Normalize n call index in
    let baseID := call_ID (Call item) in
    let baseID := if (baseID =? "")%string then generatedToolCallID index (Call item) else baseID in
    let '(id, used) := uniqueToolCallID baseID used in
    mkNormalized (set_call_ID id (Call item)) (Tool item) (Metadata item) (Issue item)
      :: normalizeFrom n (index + 1) rest used
  end.

Definition NormalizeBatch (n : ToolCallNormalizer) (calls : list ToolCall) : list NormalizedToolCall :=
  normalizeFrom n 0 calls ∅.

End Normalizer.

(** ** tool_batch_planner.go *)

Record ToolBatchItem := mkBatchItem { Index : Z; item_Call : NormalizedToolCall }.
Record ToolBatchSegment := mkSegment { Parallel : bool; Items : list ToolBatchItem }.

Section Planner.
(** [conflicts], or [None] for a nil provider. *)
Context (conflicts : option (ToolCall → ToolMetadata → string)).

Definition conflictKey (call : NormalizedToolCall) : string :=
  match conflicts with
  | Some ConflictKey => TrimSpace (ConflictKey (Call call) (Metadata call))
  | None => ""
  end.

Definition parallelizable (call : NormalizedToolCall) : bool :=
  let m := Metadata call in
  let readOnly := (SideEffect m =? SideEffectNone)%string || (SideEffect m =? SideEffectRead)%string in
  let delegation := (ExecutionClass m =? ExecutionDelegation)%string in
  match Issue call with
  | None => (readOnly || delegation) && (conflictKey call =? "")%string
  | Some _ => false
  end.

Definition flushParallel (segments : list ToolBatchSegment) (parallel : list ToolBatchItem) : list ToolBatchSegment :=
  match parallel with
  | [] => segments
  | _ => segments ++ [mkSegment (1 <? length parallel)%nat parallel]
  end.

Fixpoint planFrom (index : Z) (calls : list NormalizedToolCall) (segments : list ToolBatchSegment)
    (parallel : list ToolBatchItem) : list ToolBatchSegment :=
  match calls with
  | [] => flushParallel segments parallel
  | call :: rest =>
    if parallelizable call then
      planFrom (index + 1) rest segments (parallel ++ [mkBatchItem index call])
    else
      planFrom (index + 1) rest
        (flushParallel segments parallel ++ [mkSegment false [mkBatchItem index call]]) []
  end.

Definition PlanToolBatch (calls : list NormalizedToolCall) : list ToolBatchSegment := planFrom 0 calls [] [].
End Planner.

(** ** delegation_guard.go *)

Inductive chainError :=
| CircularDelegation (targetID : Z)
| MaxDepthExceeded (currentDepth maxDepth : Z).

Definition CheckCallChain (callChain : list Z) (targetID maxDepth currentDepth : Z) : option chainError :=
  if bool_decide (targetID ∈ callChain) then Some (CircularDelegation targetID)
  else if (0 <? maxDepth) && (maxDepth <=? currentDepth) then Some (MaxDepthExceeded currentDepth maxDepth)
  else None.

(** ** tool_batch_executor.go *)

(** One entry of the result slice. [Err] is the error's text. *)
Record ToolBatchExecution := mkExecution {
  ex_Index : Z;
  ex_CallID : string;
  ex_Result : ToolResult;
  ex_Err : option string
}.

Definition error_metadata (code : string) : gmap string json := {["error_code" := JStr code]}.

Section Executor.
(** The caller's [execute]: what it returns for an item (a nil result is
    [None]); and the text of [ctx.Err()]. *)
Context (execute : ToolBatchItem → option ToolResult * option string).
Context (ctx_err : string).

Definition issueExecution (item : ToolBatchItem) (issue : ToolCallIssue) : ToolBatchExecution :=
  mkExecution (Index item) (call_ID (Call (item_Call item)))
    (mkToolResult "" (Message issue) true (error_metadata (Code issue)) None)
    (Some (Code issue ++ ": " ++ Message issue)%string).

Definition executeOne (item : ToolBatchItem) : ToolBatchExecution :=
  match Issue (item_Call item) with
  | Some issue => issueExecution item issue
  | None =>
    let '(res, err) := execute item in
    let res := default emptyResult res in
    let res := match err with Some _ => set_IsError true res | None => res end in
    mkExecution (Index item) (call_ID (Call (item_Call item))) res err
  end.

Definition cancelledExecution (item : ToolBatchItem) : ToolBatchExecution :=
  mkExecution (Index item) (call_ID (Call (item_Call item)))
    (mkToolResult "" ctx_err true (error_metadata "cancelled") None) (Some ctx_err).

(** *** A parallel segment

    One goroutine per item: it waits for a slot of the semaphore or for the end
    of the context, and writes its own cell of [segmentResults]. *)
Inductive goroutine :=
| Waiting
| Running
| Finished (e : ToolBatchExecution).

#[local] Notation is_running := (λ g, match g with Running => true | _ => false end).

Definition slots (gs : list goroutine) : nat := length (filter (λ g, is_running g = true) gs).

Record segmentState := mkSegmentState { gs : list goroutine; cancelled : bool }.

Inductive segment_step (maxParallel : nat) (items : list ToolBatchItem) : segmentState → segmentState → Prop :=
| step_acquire l c i :
    l !! i = Some Waiting → (slots l < maxParallel)%nat →
    segment_step maxParallel items (mkSegmentState l c) (mkSegmentState (<[i := Running]> l) c)
| step_finish l c i item :
    l !! i = Some Running → items !! i = Some item →
    segment_step maxParallel items (mkSegmentState l c)
      (mkSegmentState (<[i := Finished (executeOne item)]> l) c)
| step_ctx_done l :
    segment_step maxParallel items (mkSegmentState l false) (mkSegmentState l true)
| step_give_up l i item :
    l !! i = Some Waiting → items !! i = Some item →
    segment_step maxParallel items (mkSegmentState l true)
      (mkSegmentState (<[i := Finished (cancelledExecution item)]> l) true).

Definition segment_start (items : list ToolBatchItem) (c : bool) : segmentState :=
  mkSegmentState ((λ _, Waiting) <$> items) c.

(** [wg.Wait()] returns. *)
Definition segment_done (s : segmentState) (results : list ToolBatchExecution) : Prop :=
  gs s = Finished <$> results.

(** *** The batch *)

Definition effectiveParallel (maxParallel : Z) : nat := Z.to_nat (if maxParallel <=? 0 then 1 else maxParallel).

(** The result lists [ExecuteToolBatch] can return. *)
Inductive ExecuteToolBatch (maxParallel : Z) : list ToolBatchSegment → list ToolBatchExecution → Prop :=
| batch_nil : ExecuteToolBatch maxParallel [] []
| batch_serial segment rest results :
    Parallel segment = false ∨ (length (Items segment) ≤ 1)%nat →
    ExecuteToolBatch maxParallel rest results →
    ExecuteToolBatch maxParallel (segment :: rest) ((executeOne <$> Items segment) ++ results)
| batch_parallel segment rest c s segmentResults results :
    Parallel segment = true → (1 < length (Items segment))%nat →
    rtc (segment_step (effectiveParallel maxParallel) (Items segment)) (segment_start (Items segment) c) s →
    segment_done s segmentResults →
    ExecuteToolBatch maxParallel rest results →
    ExecuteToolBatch maxParallel (segment :: rest) (segmentResults ++ results).

(** ** The executor *)

(** How far a segment is from its end. *)
Definition goroutine_weight (g : goroutine) : nat :=
  match g with Waiting => 2 | Running => 1 | Finished _ => 0 end.
Definition segment_measure (s : segmentState) : nat :=
  sum_list_with goroutine_weight (gs s) + if cancelled s then 0 else 1.

Lemma slots_sum l : slots l = sum_list_with (λ g, if is_running g then 1%nat else 0%nat) l.
Proof.
  unfold slots. induction l as [|g l IH]; [done|]. rewrite filter_cons. destruct g; simpl; by rewrite <- IH.
Qed.

Lemma segment_step_measure mp items s s' :
  segment_step mp items s s' → (segment_measure s' < segment_measure s)%nat.
Proof.
  unfold segment_measure. intros Hstep. destruct Hstep as [l c i Hi Hs|l c i item Hi Hit|l|l i item Hi Hit]; simpl.
  - pose proof (sum_list_with_insert goroutine_weight l i _ Running Hi). simpl in *. lia.
  - pose proof (sum_list_with_insert goroutine_weight l i _ (Finished (executeOne item)) Hi). simpl in *. lia.
  - lia.
  - pose proof (sum_list_with_insert goroutine_weight l i _ (Finished (cancelledExecution item)) Hi).
    simpl in *. lia.
Qed.

(** What a reachable state of a segment satisfies: one goroutine per item, no
    more than the semaphore's slots running, and every finished one left its own
    item's result. *)
Definition item_outcome (item : ToolBatchItem) (e : ToolBatchExecution) : Prop :=
  e = executeOne item ∨ e = cancelledExecution item.

Definition segment_wf (mp : nat) (items : list ToolBatchItem) (s : segmentState) : Prop :=
  (slots (gs s) ≤ mp)%nat ∧
  Forall2 (λ item g, ∀ e, g = Finished e → item_outcome item e ∧ (e = executeOne item ∨ cancelled s = true))
    items (gs s).

Lemma segment_start_wf mp items c : segment_wf mp items (segment_start items c).
Proof.
  split; simpl.
  - rewrite slots_sum. transitivity 0%nat; [|lia].
    induction items as [|it items IH]; [done|]. rewrite fmap_cons. simpl. apply IH.
  - induction items as [|it items IH]; simpl; constructor; [done|apply IH].
Qed.

Lemma segment_step_wf mp items s s' : segment_wf mp items s → segment_step mp items s s' → segment_wf mp items s'.
Proof.
  unfold segment_wf. rewrite !slots_sum.
  intros [Hs Hf] Hstep. destruct Hstep as [l c i Hi Hlt|l c i item Hi Hit|l|l i item Hi Hit]; simpl in *.
  - pose proof (sum_list_with_insert (λ g, if is_running g then 1%nat else 0%nat) l i _ Running Hi) as Hw.
    rewrite slots_sum in Hlt. simpl in Hw. split; [lia|].
    apply Forall2_update; [done|]. intros ? ? ? ?. discriminate.
  - pose proof (sum_list_with_insert (λ g, if is_running g then 1%nat else 0%nat) l i _ (Finished (executeOne item)) Hi) as Hw.
    simpl in Hw. split; [lia|].
    apply Forall2_update; [done|]. intros ? ? e [= <-]. simplify_eq. split; by left.
  - split; [lia|]. eapply Forall2_impl; [done|]. naive_solver.
  - pose proof (sum_list_with_insert (λ g, if is_running g then 1%nat else 0%nat) l i _ (Finished (cancelledExecution item)) Hi) as Hw.
    simpl in Hw. split; [lia|].
    apply Forall2_update; [done|]. intros ? ? e [= <-]. simplify_eq. split; by right.
Qed.

Lemma segment_reaches_wf mp items c s :
  rtc (segment_step mp items) (segment_start items c) s → segment_wf mp items s.
Proof.
  intros Hr. remember (segment_start items c) as s0 eqn:He.
  assert (segment_wf mp items s0) as Hw by (subst; apply segment_start_wf). clear He.
  induction Hr as [|s0 s1 s2 Hstep Hr IH]; [done|]. eauto using segment_step_wf.
Qed.

Lemma segment_progress mp items s :
  (0 < mp)%nat → segment_wf mp items s →
  (∃ results, segment_done s results) ∨ ∃ s', segment_step mp items s s'.
Proof.
  intros Hmp [Hs Hf]. destruct s as [l c]; simpl in *.
  destruct (slots l) as [|k] eqn:Hk.
  - destruct (decide (Exists (λ g, match g with Waiting => true | _ => false end = true) l)) as [Hw|Hnw].
    + right. apply Exists_exists in Hw as (g & [i Hi]%list_elem_of_lookup & Hg). destruct g; try done.
      eexists. apply (step_acquire _ _ l c i); [done|lia].
    + left. unfold segment_done; simpl. clear Hf Hs. induction l as [|g l IH]; [by exists []|].
      unfold slots in Hk. rewrite filter_cons in Hk. rewrite Exists_cons in Hnw.
      destruct g as [| |e]; simpl in *; [naive_solver|done|].
      destruct IH as [rs ->]; [done|naive_solver|]. by exists (e :: rs).
  - right. assert (∃ i, l !! i = Some Running) as [i Hi].
    { clear -Hk. unfold slots in Hk. destruct (filter _ l) as [|g fl] eqn:He; [done|].
      assert (g ∈ filter (λ g, is_running g = true) l) as Hin by (rewrite He; left).
      apply list_elem_of_filter in Hin as [Hg Hin]. destruct g; try done. by apply list_elem_of_lookup in Hin. }
    destruct (Forall2_lookup_r _ _ _ _ _ Hf Hi) as (item & Hit & _).
    eexists. by eapply step_finish.
Qed.

End Executor.

(** ** Normalization *)

Lemma dedupe_subset seen values v : v ∈ dedupe seen values → v ∈ values.
Proof.
  revert seen. induction values as [|w values IH]; intros seen; simpl; [done|].
  case_bool_decide; rewrite ?elem_of_cons; naive_solver.
Qed.

Lemma dedupe_complete seen values v : v ∈ values → v ∉ seen → v ∈ dedupe seen values.
Proof.
  revert seen. induction values as [|w values IH]; intros seen; simpl; [by rewrite elem_of_nil|].
  rewrite elem_of_cons. intros Hv Hn. case_bool_decide as Hw.
  - destruct Hv as [-> |Hv]; [done|auto].
  - rewrite elem_of_cons. destruct (decide (v = w)); [by left|right].
    destruct Hv as [-> |Hv]; [done|]. apply IH; [done|]. rewrite elem_of_cons. naive_solver.
Qed.

Lemma dedupe_NoDup seen values : NoDup (dedupe seen values) ∧ ∀ v, v ∈ seen → v ∉ dedupe seen values.
Proof.
  revert seen. induction values as [|w values IH]; intros seen; simpl.
  { split; [constructor|]. intros v _. apply not_elem_of_nil. }
  case_bool_decide as Hw; [apply IH|]. destruct (IH (w :: seen)) as [Hnd Hseen]. split.
  - constructor; [apply Hseen; left|done].
  - intros v Hv. rewrite elem_of_cons. intros [-> |Hin]; [done|]. apply (Hseen v); [by right|done].
Qed.

(** Every alias names a registered tool. *)
Definition normalizer_wf (n : ToolCallNormalizer) : Prop :=
  ∀ alias target, Aliases n !! alias = Some target → is_Some (Tools n !! target).

Lemma addAliases_wf tools aliases acc al :
  addAliases tools aliases acc = Ok al →
  (∀ alias target, acc !! alias = Some target → is_Some (tools !! target)) →
  ∀ alias target, al !! alias = Some target → is_Some (tools !! target).
Proof.
  revert acc. induction aliases as [|[a t] aliases IH]; intros acc Hadd Hacc; simplify_eq/=; [done|].
  repeat split_match_in Hadd; try done. eapply IH; [done|].
  intros alias target Hl. rewrite lookup_insert in Hl. case_decide; simplify_eq; eauto.
Qed.

Lemma NewToolCallNormalizer_wf tools aliases n :
  NewToolCallNormalizer tools aliases = Ok n → normalizer_wf n.
Proof.
  unfold NewToolCallNormalizer. intros Hn. repeat split_match_in Hn; try done. simplify_eq.
  unfold normalizer_wf; simpl. eapply addAliases_wf; [done|]. intros ? ? Hl. by rewrite lookup_empty in Hl.
Qed.

Section NormalizerProofs.
Context `{UnicodeTables}.
Context (json_valid : string → bool).
Context (json_decode : string → result string json).
Context (json_decode_map : string → result string (list (string * json))).
Context (sha256_hex : string → string).

#[local] Notation Normalize' := (Normalize json_valid json_decode json_decode_map sha256_hex).
#[local] Notation NormalizeBatch' := (NormalizeBatch json_valid json_decode json_decode_map sha256_hex).
#[local] Notation normalizeFrom' := (normalizeFrom json_valid json_decode json_decode_map sha256_hex).

Lemma nameCandidates_sound n name c :
  normalizer_wf n → c ∈ nameCandidates n name →
  is_Some (Tools n !! c) ∧
  (ToLower c = ToLower name ∨ ∃ alias, Aliases n !! alias = Some c ∧ ToLower alias = ToLower name).
Proof.
  unfold nameCandidates, uniqueStrings. intros Hwf Hc%dedupe_subset. apply elem_of_app in Hc as [Hc|Hc].
  - apply list_elem_of_filter in Hc as [Hl Hc]. apply list_elem_of_fmap in Hc as ([k t] & -> & Ht).
    apply elem_of_map_to_list in Ht. simpl in *. split; [by eexists|by left].
  - apply list_elem_of_fmap in Hc as ([alias t] & -> & Ht). apply list_elem_of_filter in Ht as [Hl Ht].
    apply elem_of_map_to_list in Ht. simpl in *. split; [by eapply Hwf|]. right. by exists alias.
Qed.

(** A resolved name is registered, and is the name itself, its alias' target, or
    the only tool whose name or alias differs in case alone. *)
Lemma resolveName_sound n name c :
  normalizer_wf n → resolveName n name = Ok c →
  is_Some (Tools n !! c) ∧
  (c = name ∨ Aliases n !! name = Some c ∨ nameCandidates n name = [c]).
Proof.
  unfold resolveName. intros Hwf Hr. destruct (Tools n !! name) as [t|] eqn:Ht.
  { simplify_eq. rewrite Ht. split; [by eexists|by left]. }
  destruct (Aliases n !! name) as [target|] eqn:Ha.
  { simplify_eq. split; [by eapply Hwf|by right; left]. }
  destruct (CaseInsensitive n); [|done]. simpl in Hr.
  destruct (nameCandidates n name) as [|c' [|? ?]] eqn:Hc; simplify_eq.
  split; [|by right; right]. eapply (nameCandidates_sound n name); [done|]. rewrite Hc. left.
Qed.

(** What the runtime may rely on when an item carries no issue. *)
Definition item_safe (n : ToolCallNormalizer) (item : NormalizedToolCall) : Prop :=
  match Issue item with
  | None =>
    ∃ tool, Tool item = Some tool ∧ Tools n !! call_Name (Call item) = Some tool ∧
      Metadata item = MetadataOf (Some tool) ∧
      json_valid (call_Arguments (Call item)) = true ∧
      ValidateToolArguments json_valid json_decode json_decode_map (tool_Parameters tool)
        (call_Arguments (Call item)) = None
  | Some issue =>
    Tool item = None ∧ Code issue ∈ [ToolCallIssueMissingName; ToolCallIssueUnknownName; ToolCallIssueAmbiguousName] ∨
    is_Some (Tool item) ∧ Code issue ∈ [ToolCallIssueInvalidJSON; ToolCallIssueInvalidArguments]
  end.

Lemma ValidateToolArguments_valid schema args :
  ValidateToolArguments json_valid json_decode json_decode_map schema args = None → json_valid args = true.
Proof. unfold ValidateToolArguments. by destruct (json_valid args). Qed.

Lemma resolveName_code n name issue :
  resolveName n name = Err issue → Code issue ∈ [ToolCallIssueUnknownName; ToolCallIssueAmbiguousName].
Proof.
  unfold resolveName. intros Hr. repeat split_match_in Hr; simplify_eq; simpl; set_solver.
Qed.

Lemma Normalize_safe n call index :
  normalizer_wf n → item_safe n (Normalize' n call index) ∧ call_ID (Call (Normalize' n call index)) ≠ ""%string.
Proof.
  intros Hwf. unfold Normalize.
  set (id := if (TrimSpace (call_ID call) =? "")%string then _ else _).
  assert (id ≠ ""%string) as Hid.
  { subst id. destruct (String.eqb_spec (TrimSpace (call_ID call)) ""); [done|done]. }
  clearbody id. cbn [call_Name set_call_Name set_call_ID].
  destruct (String.eqb_spec (TrimSpace (call_Name call)) "") as [He|Hne].
  { split; [|done]. left. simpl. split; [done|]. set_solver. }
  destruct (resolveName n (TrimSpace (call_Name call))) as [c|issue] eqn:Hr.
  2: { split; [|done]. apply resolveName_code in Hr. left. simpl. split; [done|]. set_solver. }
  destruct (resolveName_sound _ _ _ Hwf Hr) as [[tool Ht] _]. rewrite Ht.
  set (blank := _ || _). set (call' := if blank then _ else _).
  assert (call_Name call' = c ∧ call_ID call' = id) as [Hn Hi] by (subst call'; by destruct blank).
  destruct (negb blank && negb (json_valid (call_Arguments call'))).
  { split; [|by simpl; rewrite Hi]. right. simpl. split; [by eexists|]. set_solver. }
  destruct (ValidateToolArguments _ _ _ _ _) as [err|] eqn:Hv; (split; [|by simpl; rewrite Hi]).
  - right. simpl. split; [by eexists|]. set_solver.
  - unfold item_safe; simpl. exists tool. rewrite Hn. split_and!; try done. by eapply ValidateToolArguments_valid.
Qed.

(** The base id [NormalizeBatch] gives to a call, before duplicates are told
    apart. *)
Definition baseCallID (n : ToolCallNormalizer) (index : Z) (call : ToolCall) : string :=
  let b := TrimSpace (call_ID (Call (Normalize' n call index))) in
  if (b =? "")%string then "call_unknown"%string else b.

Definition numberedID (base : string) (count : Z) : string :=
  if count =? 0 then base else (base ++ "_" ++ Itoa (count + 1))%string.

Lemma normalizeFrom_cons n index call rest used :
  normalizer_wf n →
  let base := baseCallID n index call in
  let item := Normalize' n call index in
  normalizeFrom' n index (call :: rest) used =
  mkNormalized (set_call_ID (numberedID base (default 0 (used !! base))) (Call item)) (Tool item) (Metadata item) (Issue item)
    :: normalizeFrom' n (index + 1) rest (<[base := default 0 (used !! base) + 1]> used).
Proof.
  intros Hwf base item. cbn [normalizeFrom]. fold item.
  destruct (Normalize_safe n call index Hwf) as [_ Hid]. fold item in Hid.
  destruct (String.eqb_spec (call_ID (Call item)) "") as [?|_]; [done|].
  unfold uniqueToolCallID.
  change (if (TrimSpace (call_ID (Call item)) =? "")%string then "call_unknown"%string
          else TrimSpace (call_ID (Call item))) with base.
  clearbody base item. cbv zeta. unfold numberedID.
  destruct (default 0 (used !! base) =? 0); reflexivity.
Qed.

Lemma numberedID_nonempty base count : base ≠ ""%string → numberedID base count ≠ ""%string.
Proof. unfold numberedID. intros Hb. case_match; [done|]. by destruct base. Qed.

Lemma baseCallID_nonempty n index call : baseCallID n index call ≠ ""%string.
Proof. unfold baseCallID. destruct (String.eqb_spec (TrimSpace (call_ID (Call (Normalize' n call index)))) ""); done. Qed.

Lemma normalizeFrom_safe n index calls used :
  normalizer_wf n →
  Forall (λ item, item_safe n item ∧ call_ID (Call item) ≠ ""%string) (normalizeFrom' n index calls used) ∧
  length (normalizeFrom' n index calls used) = length calls.
Proof.
  intros Hwf. revert index used. induction calls as [|call calls IH]; intros index used; [by split; constructor|].
  rewrite normalizeFrom_cons by done. destruct (IH (index + 1) (<[baseCallID n index call := default 0 (used !! baseCallID n index call) + 1]> used)) as [IH1 IH2].
  split; [|cbn [length]; f_equal; exact IH2]. constructor; [|exact IH1].
  destruct (Normalize_safe n call index Hwf) as [Hs _]. pose proof (baseCallID_nonempty n index call) as Hb.
  generalize dependent (Normalize' n call index). generalize dependent (baseCallID n index call).
  intros b _ _ Hb item Hs. split; [exact Hs|]. by apply numberedID_nonempty.
Qed.

(** A batch normalized by a normalizer that was built from a tool list
    keeps one item per call.  An item without an issue carries the tool
    registered under its canonical name, that tool's metadata, and arguments
    that are valid JSON and accepted by that tool's schema; an item with an issue
    says which check failed, and has no tool exactly when its name did not
    resolve.  Call ids are never empty. *)
Theorem normalize_batch_safe tools aliases n calls :
  NewToolCallNormalizer tools aliases = Ok n →
  length (NormalizeBatch' n calls) = length calls ∧
  Forall (λ item, item_safe n item ∧ call_ID (Call item) ≠ ""%string) (NormalizeBatch' n calls).
Proof.
  intros Hn%NewToolCallNormalizer_wf. unfold NormalizeBatch.
  destruct (normalizeFrom_safe n 0 calls ∅ Hn). by split.
Qed.

(** The ids alone: the base ids of the batch, numbered by their occurrences. *)
Fixpoint numberIDs (bases : list string) (used : gmap string Z) : list string :=
  match bases with
  | [] => []
  | b :: rest =>
    numberedID b (default 0 (used !! b)) :: numberIDs rest (<[b := default 0 (used !! b) + 1]> used)
  end.

Definition baseCallIDs (n : ToolCallNormalizer) (calls : list ToolCall) : list string :=
  imap (λ i call, baseCallID n (Z.of_nat i) call) calls.

Lemma normalizeFrom_ids n index calls used :
  normalizer_wf n →
  (call_ID ∘ Call) <$> normalizeFrom' n (Z.of_nat index) calls used =
  numberIDs (imap (λ i call, baseCallID n (Z.of_nat (index + i)) call) calls) used.
Proof.
  intros Hwf. revert index used. induction calls as [|call calls IH]; intros index used; [done|].
  rewrite normalizeFrom_cons by done. rewrite fmap_cons, imap_cons. cbn [numberIDs]. rewrite Nat.add_0_r.
  f_equal. replace (Z.of_nat index + 1) with (Z.of_nat (S index)) by lia. rewrite IH. f_equal.
  apply imap_ext. intros i x _. simpl. by rewrite Nat.add_succ_r.
Qed.

(** No base id reads like the numbered form of another one. *)
Definition no_numbered (bases : list string) : Prop :=
  ∀ b b' k, b ∈ bases → b' ∈ bases → 2 ≤ k → b ≠ (b' ++ "_" ++ Itoa k)%string.

Lemma numberedID_inj bases b b' c c' :
  no_numbered bases → b ∈ bases → b' ∈ bases → 0 ≤ c → 0 ≤ c' →
  numberedID b c = numberedID b' c' → b = b' ∧ c = c'.
Proof.
  intros Hno Hb Hb' Hc Hc'. unfold numberedID.
  destruct (c =? 0) eqn:E, (c' =? 0) eqn:E'; bool_prop; intros Heq.
  - split; [done|lia].
  - exfalso. by apply (Hno b b' (c' + 1)); [..|lia|].
  - exfalso. by apply (Hno b' b (c + 1)); [..|lia|].
  - apply underscore_inj in Heq as [-> ?]; [split; [done|lia]|lia|lia].
Qed.

Lemma numberIDs_elem bases used id :
  (∀ b, 0 ≤ default 0 (used !! b)) → id ∈ numberIDs bases used →
  ∃ b c, b ∈ bases ∧ id = numberedID b c ∧ default 0 (used !! b) ≤ c.
Proof.
  revert used. induction bases as [|b bases IH]; intros used Hused; simpl; [by rewrite elem_of_nil|].
  rewrite elem_of_cons. intros [-> |Hin].
  { exists b, (default 0 (used !! b)). split_and!; [left|done|lia]. }
  apply IH in Hin as (b' & c & Hb' & -> & Hle).
  - exists b', c. split_and!; [by right|done|].
    rewrite lookup_insert in Hle. case_decide; simplify_eq/=; lia.
  - intros b'. rewrite lookup_insert. case_decide; simplify_eq/=; [specialize (Hused b'); lia|apply Hused].
Qed.

Lemma numberIDs_NoDup all bases used :
  no_numbered all → bases ⊆ all → (∀ b, 0 ≤ default 0 (used !! b)) → NoDup (numberIDs bases used).
Proof.
  intros Hno. revert used. induction bases as [|b bases IH]; intros used Hsub Hused; simpl; [constructor|].
  assert (∀ b', 0 ≤ default 0 (<[b:=default 0 (used !! b) + 1]> used !! b')) as Hused'.
  { intros b'. rewrite lookup_insert. case_decide; simplify_eq/=; [specialize (Hused b'); lia|apply Hused]. }
  constructor; [|apply IH; [intros x Hx; apply Hsub; by right|done]].
  intros Hin. apply numberIDs_elem in Hin as (b' & c & Hb' & Heq & Hle); [|done].
  destruct (numberedID_inj all b b' (default 0 (used !! b)) c Hno) as [<- Hc]; try done.
  - apply Hsub. left.
  - apply Hsub. by right.
  - pose proof (Hused' b'). lia.
  - rewrite lookup_insert_eq in Hle. simpl in Hle. lia.
Qed.

(** Within a batch the normalized call ids are pairwise distinct, provided
    no call id of the batch reads like the numbered form [id_2], [id_3], ... of
    another one. *)
Theorem normalized_ids_distinct tools aliases n calls :
  NewToolCallNormalizer tools aliases = Ok n →
  no_numbered (baseCallIDs n calls) →
  NoDup ((call_ID ∘ Call) <$> NormalizeBatch' n calls).
Proof.
  intros Hn%NewToolCallNormalizer_wf Hno. unfold NormalizeBatch. change 0 with (Z.of_nat 0).
  rewrite normalizeFrom_ids by done. apply (numberIDs_NoDup (baseCallIDs n calls)); [done|done|].
  intros b. by rewrite lookup_empty.
Qed.

End NormalizerProofs.

(** ** Witnesses of the normalizer *)

Definition read_tool : RuntimeTool :=
  mkRuntimeTool "Read_File" "reads a file" "{}" (Some (mkToolMetadata "" false 0 0 "read" [] "")).
Definition write_tool : RuntimeTool :=
  mkRuntimeTool "write_file" "writes a file" "{}" (Some (mkToolMetadata RiskHigh true 0 0 "write" [] "")).
Definition sample_tools : list (option RuntimeTool) := [Some read_tool; None; Some write_tool].

Definition always_valid : string → bool := λ _, true.
Definition decode_null : string → result string json := λ _, Ok JNull.
Definition decode_empty : string → result string (list (string * json)) := λ _, Ok [].
Definition constant_hash : string → string := λ _, "0123456789abcdef0123456789abcdef".

Definition sample_normalizer : ToolCallNormalizer :=
  match NewToolCallNormalizer sample_tools [("cat", "Read_File")]%string with
  | Ok n => n
  | Err _ => mkNormalizer ∅ ∅ false
  end.

Definition batch_of (calls : list ToolCall) : list NormalizedToolCall :=
  NormalizeBatch (H := AsciiTables) always_valid decode_null decode_empty constant_hash sample_normalizer calls.

Definition sample_calls : list ToolCall :=
  [mkToolCall " a " "function" "read_file" "{}"; mkToolCall "a" "" "cat" ""; mkToolCall "" "" "nope" "{}"].

(** The third call has the id the second one is renamed to. *)
Definition colliding_calls : list ToolCall :=
  [mkToolCall "a" "" "cat" ""; mkToolCall "a" "" "cat" ""; mkToolCall "a_2" "" "cat" ""].

Lemma normalize_batch_safe_witness :
  (λ i, (call_ID (Call i), call_Name (Call i), Code <$> Issue i)) <$> batch_of sample_calls =
    [("a", "Read_File", None); ("a_2", "Read_File", None);
     ("call_0123456789abcdef", "nope", Some "unknown_name")]%string ∧
  length (batch_of sample_calls) = length sample_calls.
Proof.
  split; [by vm_compute|].
  by apply (normalize_batch_safe (H := AsciiTables) always_valid decode_null decode_empty constant_hash
              sample_tools [("cat", "Read_File")]%string sample_normalizer sample_calls).
Defined.

(** Without that proviso the ids collide: the promise that a call id is
    unique within a batch fails for the ids [a], [a], [a_2]. *)
Theorem normalized_ids_collide :
  (call_ID ∘ Call) <$> batch_of colliding_calls = ["a"; "a_2"; "a_2"]%string.
Proof. by vm_compute. Qed.

Lemma normalized_ids_distinct_witness :
  NoDup ((call_ID ∘ Call) <$> batch_of (take 2 sample_calls)).
Proof.
  apply (normalized_ids_distinct (H := AsciiTables) always_valid decode_null decode_empty constant_hash
           sample_tools [("cat", "Read_File")]%string sample_normalizer); [by vm_compute|].
  assert (baseCallIDs (H := AsciiTables) always_valid decode_null decode_empty constant_hash sample_normalizer
            (take 2 sample_calls) = ["a"; "a"]%string) as -> by (by vm_compute).
  intros b b' k Hb Hb' Hk. rewrite !elem_of_cons, elem_of_nil in Hb, Hb'.
  destruct Hb as [-> |[-> |[]]], Hb' as [-> |[-> |[]]]; simpl; discriminate.
Defined.

(** ** Planning *)

Section PlannerProofs.
Context (conflicts : option (ToolCall → ToolMetadata → string)).

#[local] Notation plan := (PlanToolBatch conflicts).
#[local] Notation par := (parallelizable conflicts).

(** A segment is one call that may not share it, or a run of calls that may;
    it is marked parallel when it has more than one. *)
Definition segment_ok (s : ToolBatchSegment) : Prop :=
  Parallel s = (1 <? length (Items s))%nat ∧ Items s ≠ [] ∧
  ((∃ item, Items s = [item] ∧ par (item_Call item) = false) ∨
   Forall (λ item, par (item_Call item) = true) (Items s)).

(** Two runs of parallelizable calls are never adjacent. *)
Definition segment_runs (s : ToolBatchSegment) : Prop := Forall (λ item, par (item_Call item) = true) (Items s).

Fixpoint maximal_runs (segments : list ToolBatchSegment) : Prop :=
  match segments with
  | s1 :: (s2 :: _) as rest => (segment_runs s1 → segment_runs s2 → False) ∧ maximal_runs rest
  | _ => True
  end.

Lemma maximal_runs_snoc segments s :
  maximal_runs segments → (∀ s', last segments = Some s' → segment_runs s' → segment_runs s → False) →
  maximal_runs (segments ++ [s]).
Proof.
  induction segments as [|s1 [|s2 rest] IH]; intros Hm Hl; simpl in *; [done| |].
  - split; [|done]. by apply Hl.
  - destruct Hm as [H1 H2]. split; [done|]. by apply IH.
Qed.

(** The planner's loop invariant. *)
Definition plan_wf (segments : list ToolBatchSegment) (parallel : list ToolBatchItem) : Prop :=
  Forall segment_ok segments ∧ maximal_runs segments ∧
  Forall (λ item, par (item_Call item) = true) parallel ∧
  (∀ s, last segments = Some s → segment_runs s → False).

Lemma flush_wf segments parallel :
  plan_wf segments parallel →
  Forall segment_ok (flushParallel segments parallel) ∧ maximal_runs (flushParallel segments parallel) ∧
  concat (Items <$> flushParallel segments parallel) = concat (Items <$> segments) ++ parallel.
Proof.
  intros (Hok & Hm & Hp & Hlast). unfold flushParallel. destruct parallel as [|i parallel].
  { by rewrite app_nil_r. }
  split_and!.
  - apply Forall_app. split; [done|]. apply Forall_singleton. split_and!; [done|done|by right].
  - apply maximal_runs_snoc; [done|]. eauto.
  - rewrite fmap_app, concat_app. simpl. by rewrite app_nil_r.
Qed.

Lemma planFrom_wf index calls segments parallel :
  plan_wf segments parallel →
  let out := planFrom conflicts index calls segments parallel in
  Forall segment_ok out ∧ maximal_runs out ∧
  concat (Items <$> out) =
    concat (Items <$> segments) ++ parallel ++ imap (λ i c, mkBatchItem (index + Z.of_nat i) c) calls.
Proof.
  revert index segments parallel. induction calls as [|call calls IH]; intros index segments parallel Hwf; simpl.
  { rewrite app_nil_r. by apply flush_wf. }
  assert (∀ l, imap (λ i c, mkBatchItem (index + Z.of_nat i) c) (call :: l) =
          mkBatchItem index call :: imap (λ i c, mkBatchItem (index + 1 + Z.of_nat i) c) l) as Himap.
  { intros l. simpl. rewrite Z.add_0_r. f_equal. apply imap_ext. intros i x _. simpl. f_equal. lia. }
  simpl in Himap. rewrite Himap. destruct (par call) eqn:Hpar.
  - destruct (IH (index + 1) segments (parallel ++ [mkBatchItem index call])) as (H1 & H2 & H3).
    + destruct Hwf as (? & ? & ? & ?). split_and!; try done. apply Forall_app. by split; [|apply Forall_singleton].
    + split_and!; [done|done|]. rewrite H3. by rewrite <- !app_assoc.
  - destruct (flush_wf segments parallel Hwf) as (Hok & Hm & Hc).
    set (seg := mkSegment false [mkBatchItem index call]).
    assert (segment_runs seg → False) as Hseg.
    { intros Hr. inv Hr. simpl in *. congruence. }
    destruct (IH (index + 1) (flushParallel segments parallel ++ [seg]) []) as (H1 & H2 & H3).
    + split_and!.
      * apply Forall_app. split; [done|]. apply Forall_singleton. split_and!; [done|done|].
        left. by exists (mkBatchItem index call).
      * apply maximal_runs_snoc; [done|]. eauto.
      * constructor.
      * intros s. rewrite last_snoc. intros [= <-]. done.
    + split_and!; [done|done|]. rewrite H3, fmap_app, concat_app, Hc. simpl. by rewrite <- !app_assoc.
Qed.

Lemma plan_spec calls :
  concat (Items <$> plan calls) = imap (λ i c, mkBatchItem (Z.of_nat i) c) calls ∧
  Forall segment_ok (plan calls) ∧ maximal_runs (plan calls).
Proof.
  destruct (planFrom_wf 0 calls [] []) as (H1 & H2 & H3); [by split_and!|].
  unfold PlanToolBatch. split_and!; [|done|done]. rewrite H3. simpl. by apply imap_ext.
Qed.

(** [PlanToolBatch] keeps every call, in order and with its index, in
    nonempty segments: a call that writes, acts externally, failed validation or
    has a conflict key is alone; the others are grouped in maximal runs, and a
    segment is parallel exactly when it has more than one item. *)
Theorem plan_partitions calls :
  concat (Items <$> plan calls) = imap (λ i c, mkBatchItem (Z.of_nat i) c) calls ∧
  Forall segment_ok (plan calls) ∧ maximal_runs (plan calls).
Proof. apply plan_spec. Qed.

(** ** Execution of a planned batch *)

Section Execution.
Context (execute : ToolBatchItem → option ToolResult * option string).
Context (ctx_err : string).

(** Only a call that may share a segment can be cancelled while it waits. *)
Definition batch_outcome (item : ToolBatchItem) (e : ToolBatchExecution) : Prop :=
  e = executeOne execute item ∨ (par (item_Call item) = true ∧ e = cancelledExecution ctx_err item).

Lemma executeOne_ids item :
  ex_Index (executeOne execute item) = Index item ∧
  ex_CallID (executeOne execute item) = call_ID (Call (item_Call item)).
Proof. unfold executeOne. destruct (Issue (item_Call item)); [done|]. by destruct (execute item). Qed.

Lemma segment_done_outcomes mp items c s results :
  Forall (λ item, par (item_Call item) = true) items →
  rtc (segment_step execute ctx_err mp items) (segment_start items c) s → segment_done s results →
  Forall2 batch_outcome items results.
Proof.
  intros Hp [_ Hf]%segment_reaches_wf Hd. rewrite Hd in Hf. apply Forall2_fmap_r in Hf. clear Hd.
  induction Hf as [|item e items es He Hf IH]; [constructor|]. apply Forall_cons in Hp as [Hp1 Hp2].
  constructor; [|apply IH; done]. destruct (He e eq_refl) as [[Ho|Ho] _]; [by left|right; by split].
Qed.

Lemma batch_outcomes maxParallel segments results :
  Forall segment_ok segments →
  ExecuteToolBatch execute ctx_err maxParallel segments results →
  Forall2 batch_outcome (concat (Items <$> segments)) results.
Proof.
  intros Hok Hb. revert Hok.
  induction Hb as [|segment rest results Hs Hb IH|segment rest c s sr results Hp Hl Hr Hd Hb IH];
    intros Hok; simpl; [constructor|apply Forall_cons in Hok as [Hok1 Hok2]..].
  - apply Forall2_app; [|by apply IH]. apply Forall2_fmap_r, Forall_Forall2_diag, Forall_forall. by left.
  - apply Forall2_app; [|by apply IH]. eapply segment_done_outcomes; [|done..].
    destruct Hok1 as (_ & _ & [(item & Hi & _)|Hall]); [|done]. rewrite Hi in Hl. simpl in Hl. lia.
Qed.

Lemma batch_outcome_ids items results :
  Forall2 batch_outcome items results →
  ex_Index <$> results = Index <$> items ∧ ex_CallID <$> results = (call_ID ∘ Call ∘ item_Call) <$> items.
Proof.
  induction 1 as [|item e items results Ho Hf [IH1 IH2]]; [done|].
  rewrite !fmap_cons, IH1, IH2. destruct (executeOne_ids item) as [H1 H2].
  by destruct Ho as [-> |[_ ->]]; rewrite ?H1, ?H2.
Qed.

(** A planned batch returns exactly one execution per call, in the calls'
    order, whatever the schedule of the goroutines: the call's own result, or
    the cancellation result for a call that may share a segment (never for one
    with side effects or an issue).  While a segment runs, at most
    [maxParallel] (at least one) tools execute, it is never stuck before every
    goroutine is done, and every step brings it closer to that. *)
Theorem execute_batch_in_order maxParallel calls :
  (∀ results, ExecuteToolBatch execute ctx_err maxParallel (plan calls) results →
     Forall2 batch_outcome (imap (λ i c, mkBatchItem (Z.of_nat i) c) calls) results ∧
     ex_Index <$> results = imap (λ i _, Z.of_nat i) calls ∧
     ex_CallID <$> results = (call_ID ∘ Call) <$> calls) ∧
  (∀ items c s, rtc (segment_step execute ctx_err (effectiveParallel maxParallel) items) (segment_start items c) s →
     (slots (gs s) ≤ effectiveParallel maxParallel)%nat ∧
     ((∃ results, segment_done s results) ∨
      ∃ s', segment_step execute ctx_err (effectiveParallel maxParallel) items s s') ∧
     ∀ s', segment_step execute ctx_err (effectiveParallel maxParallel) items s s' →
       (segment_measure s' < segment_measure s)%nat).
Proof.
  split.
  - intros results Hr. destruct (plan_spec calls) as (Hc & Hok & _).
    apply batch_outcomes in Hr; [|done]. rewrite Hc in Hr. destruct (batch_outcome_ids _ _ Hr) as [Hi Hd].
    rewrite Hi, Hd. split_and!; [done| |].
    + by rewrite fmap_imap.
    + rewrite fmap_imap. clear. rewrite <- (imap_const (call_ID ∘ Call)). by apply imap_ext.
  - intros items c s Hr%segment_reaches_wf. split_and!; [apply Hr| |by apply segment_step_measure].
    apply segment_progress; [|done]. unfold effectiveParallel. case_match; bool_prop; lia.
Qed.
End Execution.
End PlannerProofs.
