(* ===== verification/Rules.v ===== *)
(** The rule system of the harness (internal/runtime/harness/rules: rules.go,
    selector.go, catalog.go, snapshot.go): activation of rules, their selection
    under a token budget, validation, and the hashed snapshot a run embeds. *)
From S2P Require Import Prelude GoStr.
Open Scope Z_scope.

(** ** rules.go *)

Definition RuleMandatory : string := "mandatory".
Definition RuleOptional : string := "optional".
Definition ReasonSignalsNotMatched : string := "activation_not_matched".
Definition ReasonTokenBudgetExceeded : string := "token_budget_exceeded".

Record Activation := mkActivation {
  ModeAny : list string;
  RiskAny : list string;
  ToolAny : list string;
  TagAny : list string;
  TagAll : list string;
  KeywordsAny : list string;
  Always : bool
}.

Record PolicyBinding := mkPolicyBinding { PolicyKey : string; Params : string }.

Record Rule := mkRule {
  rule_ID : string;
  rule_Name : string;
  Strength : string;
  rule_Content : string;
  rule_Activation : Activation;
  Priority : Z;
  SafetyCritical : bool;
  rule_PolicyBinding : option PolicyBinding
}.

Record LoadContext := mkLoadContext {
  lc_Mode : string;
  lc_ToolNames : list string;
  lc_RiskLevel : string;
  lc_Tags : list string;
  lc_Task : string;
  lc_Conversation : string;
  lc_TokenBudget : Z;
  lc_RuleTokenCosts : gmap string Z
}.

Record Trace := mkTrace {
  Loaded : list string;
  Skipped : list string;
  SkipReasons : gmap string string;
  EstimatedUsed : Z;
  TokenBudget : Z;
  MandatoryTokens : Z;
  OptionalBudget : Z
}.

Definition ruleCost (rule : Rule) : Z :=
  let cost := rune_count (TrimSpace (rule_Content rule)) `quot` 4 in
  if cost <? 1 then 1 else cost.

Definition hasActivation (a : Activation) : bool :=
  Always a || (0 <? zlen (ModeAny a)) || (0 <? zlen (RiskAny a)) || (0 <? zlen (ToolAny a)) ||
  (0 <? zlen (TagAny a)) || (0 <? zlen (TagAll a)) || (0 <? zlen (KeywordsAny a)).

Section Rules.
Context `{UnicodeTables}.

Definition normalized (s : string) : string := ToLower (TrimSpace s).

Definition containsAny (value : string) (candidates : list string) : bool :=
  let value := normalized value in
  if (value =? "")%string then false
  else existsb (λ candidate, (value =? normalized candidate)%string) candidates.

Definition normalizedSet (values : list string) : gset string :=
  list_to_set (filter (λ v, v ≠ ""%string) (normalized <$> values)).

Definition matchesSet (values candidates : list string) : bool :=
  existsb (λ candidate, bool_decide (normalized candidate ∈ normalizedSet values)) candidates.

Definition containsAllSet (values required : list string) : bool :=
  forallb (λ item, bool_decide (normalized item ∈ normalizedSet values)) required.

Definition newline : string := String (byte_of 10) "".

Definition matchesKeyword (ctx : LoadContext) (candidates : list string) : bool :=
  let body := normalized (lc_Task ctx ++ newline ++ lc_Conversation ctx) in
  existsb (λ candidate, let c := normalized candidate in negb (c =? "")%string && Contains body c) candidates.

Definition matches (rule : Rule) (ctx : LoadContext) : bool :=
  if (Strength rule =? RuleMandatory)%string then true
  else
    let a := rule_Activation rule in
    if (0 <? zlen (TagAll a)) && negb (containsAllSet (lc_Tags ctx) (TagAll a)) then false
    else if Always a then true
    else containsAny (lc_Mode ctx) (ModeAny a) ||
         containsAny (lc_RiskLevel ctx) (RiskAny a) ||
         matchesSet (lc_ToolNames ctx) (ToolAny a) ||
         matchesSet (lc_Tags ctx) (TagAny a) ||
         matchesKeyword ctx (KeywordsAny a).

Definition skip (ruleID reason : string) (t : Trace) : Trace :=
  mkTrace (Loaded t) (Skipped t ++ [ruleID])
    (if (reason =? "")%string then SkipReasons t else <[ruleID := reason]> (SkipReasons t))
    (EstimatedUsed t) (TokenBudget t) (MandatoryTokens t) (OptionalBudget t).

Definition load (ruleID : string) (cost : Z) (t : Trace) : Trace :=
  mkTrace (Loaded t ++ [ruleID]) (Skipped t) (SkipReasons t) (EstimatedUsed t + cost)
    (TokenBudget t) (MandatoryTokens t) (OptionalBudget t).

(** ** selector.go *)

Fixpoint mandatoryLoop (items : list Rule) (loaded : list Rule) (trace : Trace) : list Rule * Trace :=
  match items with
  | [] => (loaded, trace)
  | rule :: rest =>
    if negb (Strength rule =? RuleMandatory)%string then mandatoryLoop rest loaded trace
    else mandatoryLoop rest (loaded ++ [rule]) (load (rule_ID rule) (ruleCost rule) trace)
  end.

Definition SelectMandatoryRules (items : list Rule) : list Rule * Trace :=
  let '(loaded, t) := mandatoryLoop items [] (mkTrace [] [] ∅ 0 0 0 0) in
  (loaded, mkTrace (Loaded t) (Skipped t) (SkipReasons t) (EstimatedUsed t) (TokenBudget t)
             (EstimatedUsed t) (OptionalBudget t)).

Record candidate := mkCandidate { cand_rule : Rule; cand_cost : Z }.

Definition candidateCost (ctx : LoadContext) (rule : Rule) : Z :=
  let actual := default 0 (lc_RuleTokenCosts ctx !! rule_ID rule) in
  if 0 <? actual then actual else ruleCost rule.

Fixpoint collect (items : list Rule) (ctx : LoadContext) (candidates : list candidate) (trace : Trace)
    : list candidate * Trace :=
  match items with
  | [] => (candidates, trace)
  | rule :: rest =>
    if negb (Strength rule =? RuleOptional)%string then collect rest ctx candidates trace
    else if negb (matches rule ctx) then collect rest ctx candidates (skip (rule_ID rule) ReasonSignalsNotMatched trace)
    else collect rest ctx (candidates ++ [mkCandidate rule (candidateCost ctx rule)]) trace
  end.

Definition candidate_less (a b : candidate) : bool :=
  if negb (Priority (cand_rule a) =? Priority (cand_rule b)) then Priority (cand_rule b) <? Priority (cand_rule a)
  else if negb (cand_cost a =? cand_cost b) then cand_cost a <? cand_cost b
  else str_ltb (rule_ID (cand_rule a)) (rule_ID (cand_rule b)).

Fixpoint fill (budget : Z) (candidates : list candidate) (loaded : list Rule) (trace : Trace) : list Rule * Trace :=
  match candidates with
  | [] => (loaded, trace)
  | c :: rest =>
    if (budget <=? 0) || (budget <? EstimatedUsed trace + cand_cost c) then
      fill budget rest loaded (skip (rule_ID (cand_rule c)) ReasonTokenBudgetExceeded trace)
    else fill budget rest (loaded ++ [cand_rule c]) (load (rule_ID (cand_rule c)) (cand_cost c) trace)
  end.

Definition SelectOptionalRules (items : list Rule) (ctx : LoadContext) : list Rule * Trace :=
  let '(candidates, trace) :=
    collect items ctx [] (mkTrace [] [] ∅ 0 (lc_TokenBudget ctx) 0 (lc_TokenBudget ctx)) in
  fill (lc_TokenBudget ctx) (sort_stable candidate_less candidates) [] trace.

(** *** Selection *)

(** The optional rules that match, with their costs, in the order in which the
    budget is spent on them. *)
Definition ranked (items : list Rule) (ctx : LoadContext) : list candidate :=
  sort_stable candidate_less
    ((λ r, mkCandidate r (candidateCost ctx r)) <$>
      filter (λ r, Strength r = RuleOptional ∧ matches r ctx = true) items).

(** Greedy choice: a candidate is taken exactly when it fits in what the
    earlier ones left. *)
Fixpoint greedy (budget used : Z) (cs : list candidate) : list candidate :=
  match cs with
  | [] => []
  | c :: rest =>
    if (budget <=? 0) || (budget <? used + cand_cost c) then greedy budget used rest
    else c :: greedy budget (used + cand_cost c) rest
  end.

Lemma collect_spec items ctx cs trace :
  ∃ trace', collect items ctx cs trace =
    (cs ++ ((λ r, mkCandidate r (candidateCost ctx r)) <$>
              filter (λ r, Strength r = RuleOptional ∧ matches r ctx = true) items), trace') ∧
    Loaded trace' = Loaded trace ∧ EstimatedUsed trace' = EstimatedUsed trace ∧
    Skipped trace' = Skipped trace ++ (rule_ID <$> filter (λ r, Strength r = RuleOptional ∧ matches r ctx = false) items).
Proof.
  revert cs trace. induction items as [|r items IH]; intros cs trace.
  { exists trace. by rewrite !app_nil_r. }
  cbn [collect]. rewrite !filter_cons. destruct (String.eqb_spec (Strength r) RuleOptional) as [Hs|Hs]; cbn [negb].
  - destruct (matches r ctx) eqn:Hm; cbn [negb].
    + rewrite decide_True, decide_False by naive_solver.
      destruct (IH (cs ++ [mkCandidate r (candidateCost ctx r)]) trace) as (t & -> & Hr).
      exists t. rewrite fmap_cons, <- app_assoc. done.
    + rewrite decide_False, decide_True by naive_solver.
      destruct (IH cs (skip (rule_ID r) ReasonSignalsNotMatched trace)) as (t & -> & Hl & Hu & Hk).
      exists t. rewrite Hk, fmap_cons. simpl. by rewrite <- app_assoc.
  - rewrite !decide_False by naive_solver. apply IH.
Qed.

Lemma fill_spec budget cs loaded trace :
  let out := fill budget cs loaded trace in
  let taken := greedy budget (EstimatedUsed trace) cs in
  out.1 = loaded ++ (cand_rule <$> taken) ∧
  Loaded out.2 = Loaded trace ++ (rule_ID ∘ cand_rule <$> taken) ∧
  EstimatedUsed out.2 = EstimatedUsed trace + sum_by cand_cost taken ∧
  Loaded out.2 ++ Skipped out.2 ≡ₚ Loaded trace ++ Skipped trace ++ (rule_ID ∘ cand_rule <$> cs).
Proof.
  revert loaded trace. induction cs as [|c cs IH]; intros loaded trace.
  { simpl. rewrite !app_nil_r. split_and!; try done. lia. }
  cbn [fill greedy]. destruct ((budget <=? 0) || (budget <? EstimatedUsed trace + cand_cost c)).
  - destruct (IH loaded (skip (rule_ID (cand_rule c)) ReasonTokenBudgetExceeded trace)) as (H1 & H2 & H3 & H4).
    cbn [EstimatedUsed skip Loaded Skipped] in *. split_and!; [done|done|done|].
    rewrite H4, fmap_cons. simpl. rewrite <- app_assoc. done.
  - destruct (IH (loaded ++ [cand_rule c]) (load (rule_ID (cand_rule c)) (cand_cost c) trace)) as (H1 & H2 & H3 & H4).
    cbn [EstimatedUsed load Loaded Skipped] in *. split_and!.
    + rewrite H1, fmap_cons. by rewrite <- app_assoc.
    + rewrite H2, fmap_cons. by rewrite <- app_assoc.
    + rewrite H3. simpl. lia.
    + rewrite H4, fmap_cons. simpl. rewrite <- !app_assoc. simpl.
      rewrite (Permutation_middle (Skipped trace) _ (rule_ID (cand_rule c))). done.
Qed.

Lemma greedy_within budget used cs :
  0 < budget → used ≤ budget → used + sum_by cand_cost (greedy budget used cs) ≤ budget.
Proof.
  revert used. induction cs as [|c cs IH]; intros used Hb Hu; simpl; [lia|].
  destruct ((budget <=? 0) || (budget <? used + cand_cost c)) eqn:E; bool_prop; [by apply IH|].
  simpl. specialize (IH (used + cand_cost c) Hb ltac:(lia)). lia.
Qed.

Lemma greedy_nonpositive budget used cs : budget ≤ 0 → greedy budget used cs = [].
Proof.
  intros Hb. revert used. induction cs as [|c cs IH]; intros used; simpl; [done|].
  rewrite (proj2 (Z.leb_le budget 0)) by done. apply IH.
Qed.

Lemma ruleCost_pos r : 1 ≤ ruleCost r.
Proof. unfold ruleCost. case_match; bool_prop; lia. Qed.

Lemma candidateCost_pos ctx r : 1 ≤ candidateCost ctx r.
Proof. unfold candidateCost. pose proof (ruleCost_pos r). case_match; bool_prop; lia. Qed.

Lemma SelectOptionalRules_spec items ctx :
  let '(loaded, trace) := SelectOptionalRules items ctx in
  let budget := lc_TokenBudget ctx in
  let taken := greedy budget 0 (ranked items ctx) in
  loaded = cand_rule <$> taken ∧
  Loaded trace = rule_ID <$> loaded ∧
  EstimatedUsed trace = sum_by cand_cost taken ∧
  0 ≤ EstimatedUsed trace ≤ Z.max 0 budget ∧
  Loaded trace ++ Skipped trace ≡ₚ rule_ID <$> filter (λ r, Strength r = RuleOptional) items.
Proof.
  unfold SelectOptionalRules.
  set (t0 := mkTrace [] [] ∅ 0 (lc_TokenBudget ctx) 0 (lc_TokenBudget ctx)).
  destruct (collect_spec items ctx [] t0) as (t & -> & Hl & Hu & Hk). simpl in Hl, Hu, Hk.
  change (sort_stable candidate_less _) with (ranked items ctx).
  pose proof (fill_spec (lc_TokenBudget ctx) (ranked items ctx) [] t) as Hf. rewrite Hl, Hu, Hk in Hf.
  destruct (fill _ _ _ t) as [loaded trace]. simpl in Hf. destruct Hf as (H1 & H2 & H3 & H4).
  split_and!; [done|by rewrite H2, H1, list_fmap_compose|lia| | |].
  - rewrite H3. apply sum_by_nonneg. intros c Hc.
    assert (c ∈ ranked items ctx) as Hin.
    { clear -Hc. generalize dependent (ranked items ctx). generalize 0 at 1.
      intros u cs. revert u. induction cs as [|c' cs IH]; intros u; simpl; [done|].
      case_match; rewrite ?elem_of_cons; naive_solver. }
    unfold ranked in Hin. rewrite sort_stable_perm in Hin.
    apply list_elem_of_fmap in Hin as (r & -> & _). simpl. pose proof (candidateCost_pos ctx r). lia.
  - rewrite H3. destruct (Z.lt_ge_cases 0 (lc_TokenBudget ctx)) as [Hb|Hb].
    + pose proof (greedy_within (lc_TokenBudget ctx) 0 (ranked items ctx) Hb ltac:(lia)). lia.
    + rewrite greedy_nonpositive by done. simpl. lia.
  - rewrite H4. unfold ranked. rewrite list_fmap_compose, sort_stable_perm, <- list_fmap_compose.
    clear. induction items as [|r items IH]; [done|]. rewrite !filter_cons.
    destruct (decide (Strength r = RuleOptional)) as [Hs|Hs].
    + destruct (matches r ctx) eqn:Hm.
      * rewrite decide_False, decide_True by naive_solver. rewrite !fmap_cons, <- IH. simpl.
        by rewrite <- Permutation_middle.
      * rewrite decide_True, decide_False by naive_solver. rewrite !fmap_cons, <- IH. done.
    + rewrite !decide_False by naive_solver. done.
Qed.

(** [SelectOptionalRules] spends its budget greedily on the matching
    optional rules in the order of their priority (then lower cost, then id): the
    loaded rules are exactly that greedy choice, their cost is what the trace
    reports and never exceeds the budget, nothing is loaded without a positive
    budget, and every optional rule is reported once, as loaded or as skipped. *)
Theorem optional_rules_greedy items ctx :
  let '(loaded, trace) := SelectOptionalRules items ctx in
  let budget := lc_TokenBudget ctx in
  let taken := greedy budget 0 (ranked items ctx) in
  loaded = cand_rule <$> taken ∧
  Loaded trace = rule_ID <$> loaded ∧
  EstimatedUsed trace = sum_by cand_cost taken ∧
  0 ≤ EstimatedUsed trace ≤ Z.max 0 budget ∧
  Loaded trace ++ Skipped trace ≡ₚ rule_ID <$> filter (λ r, Strength r = RuleOptional) items.
Proof. exact (SelectOptionalRules_spec items ctx). Qed.

Lemma mandatoryLoop_spec items loaded trace :
  let out := mandatoryLoop items loaded trace in
  let ms := filter (λ r, Strength r = RuleMandatory) items in
  out.1 = loaded ++ ms ∧ Loaded out.2 = Loaded trace ++ (rule_ID <$> ms) ∧
  EstimatedUsed out.2 = EstimatedUsed trace + sum_by ruleCost ms ∧ Skipped out.2 = Skipped trace.
Proof.
  revert loaded trace. induction items as [|r items IH]; intros loaded trace.
  { simpl. rewrite !app_nil_r. split_and!; try done. lia. }
  cbn [mandatoryLoop]. rewrite filter_cons.
  destruct (String.eqb_spec (Strength r) RuleMandatory) as [Hs|Hs]; cbn [negb].
  - rewrite decide_True by done. destruct (IH (loaded ++ [r]) (load (rule_ID r) (ruleCost r) trace)) as (H1 & H2 & H3 & H4).
    cbn [EstimatedUsed load Loaded Skipped] in *. rewrite H1, H2, H3, H4, fmap_cons, <- !app_assoc.
    split_and!; try done. simpl. lia.
  - rewrite decide_False by done. apply IH.
Qed.

(** Mandatory rules are never dropped, whatever the budget: all of them are
    loaded, in order, and the reported tokens are their total cost. *)
Theorem mandatory_rules_all_loaded items :
  let '(loaded, trace) := SelectMandatoryRules items in
  loaded = filter (λ r, Strength r = RuleMandatory) items ∧
  Loaded trace = rule_ID <$> loaded ∧ Skipped trace = [] ∧
  MandatoryTokens trace = sum_by ruleCost loaded.
Proof.
  unfold SelectMandatoryRules. pose proof (mandatoryLoop_spec items [] (mkTrace [] [] ∅ 0 0 0 0)) as Hm.
  destruct (mandatoryLoop items [] _) as [loaded t]. simpl in *. destruct Hm as (-> & H2 & H3 & H4).
  rewrite H2, H3, H4. done.
Qed.

End Rules.

(** ** catalog.go *)

Definition noActivation : Activation := mkActivation [] [] [] [] [] [] false.

Definition DefaultPlatformMandatoryRules : list Rule :=
  [mkRule "safety.output.boundary" "Output Boundary" RuleMandatory
     "Reject impossible claims, keep tool claims grounded in observed outputs, and do not fabricate execution results or external facts."
     noActivation 100 false None;
   mkRule "core.task.completion" "Task Completion" RuleMandatory
     "Answer the user's task directly, preserve critical constraints, and prefer concise execution over speculative discussion."
     noActivation 90 false None]%string.

Definition DefaultFallbackOptionalRules : list Rule :=
  [mkRule "scenario.rag.citations" "RAG Citations" RuleOptional
     "When retrieval content is present, cite or clearly attribute retrieved evidence and separate retrieved facts from reasoning."
     (mkActivation [] [] ["search_knowledge"; "knowledge_search"; "retrieve_chunks"]
        ["retrieval"; "knowledge"; "rag"] [] ["citation"; "cite"; "knowledge base"; "retrieval"] false) 70 false None;
   mkRule "scenario.code.change_verification" "Code Verification" RuleOptional
     "For code changes, keep edits minimal, verify behavior with focused tests or checks, and report what was validated versus what was not."
     (mkActivation [] [] ["bash"; "apply_patch"] ["code"; "repo"; "git"; "engineering"] []
        ["test"; "build"; "compile"; "refactor"; "bug"; "code"] false) 80 false None;
   mkRule "scenario.review.risk_first" "Review Risk First" RuleOptional
     "For review tasks, lead with concrete findings, prioritize regressions and missing tests, and keep summaries secondary."
     (mkActivation [] [] [] ["review"] [] ["review"; "code review"; "审查"; "评审"] false) 75 false None;
   mkRule "tool.high_risk.approval" "High Risk Approval" RuleOptional
     "For high-risk or side-effecting tools, confirm policy and explain operational impact before relying on the tool result in the final answer."
     (mkActivation [] ["high"; "medium"] ["bash"; "http_request"; "run_subagent"; "run_code"] [] ["tool_used"] [] false)
     85 false None;
   mkRule "tool.plan.checkpoints" "Plan Checkpoints" RuleOptional
     "In Plan Mode, keep analysis explicit, revise the plan after failures, and never perform hidden side effects."
     (mkActivation ["plan"] [] [] [] ["tool_used"] [] false) 65 false None;
   mkRule "ephemeral.long_context.compaction" "Long Context Compaction" RuleOptional
     "When conversation context is long or repetitive, prefer summarized state over replaying every prior detail unless a rare signal would be lost."
     (mkActivation [] [] [] ["long_context"; "compression"] []
        ["summary"; "compress"; "long context"; "32k"; "窗口"; "上下文"] false) 50 false None]%string.

(** ** snapshot.go *)

Definition PolicyDangerousArgumentsDeny : string := "tool.dangerous_arguments.deny".
Definition PolicyRiskRequireApproval : string := "tool.risk.require_approval".
Definition PolicyHostAllowlist : string := "tool.host.allowlist".
Definition PolicyExecutionLimits : string := "tool.execution_limits".
Definition maxRuleCount : Z := 50.
Definition maxRuleContentBytes : Z := 16 * 1024.

Record BoundPolicyBinding := mkBound { bound_RuleID : string; bound_PolicyKey : string; bound_Params : string }.

Record Snapshot := mkSnapshot { Hash : string; snap_Rules : list Rule }.

(** The regular expression ^[a-z0-9][a-z0-9._-]{0,127}$ *)
Definition id_start (c : Ascii.ascii) : bool := in_range 97 122 (byte_val c) || in_range 48 57 (byte_val c).
Definition id_char (c : Ascii.ascii) : bool :=
  id_start c || (byte_val c =? 46) || (byte_val c =? 95) || (byte_val c =? 45).
Definition ruleIDPattern (s : string) : bool :=
  match bytes s with
  | [] => false
  | c :: rest => id_start c && forallb id_char rest && (length rest <=? 127)%nat
  end.

Inductive ruleError :=
| TooManyRules
| ReservedID (id : string)
| InvalidID (id : string)
| EmptyContent (id : string)
| ContentTooLong (id : string)
| DuplicateID (id : string)
| BadStrength (id : string)
| NoActivation (id : string)
| SafetyNeedsBinding (id : string)
| BindingNotMandatory (id : string)
| UnknownPolicy (id key : string)
| ParamsNotObject (id : string)
| BadParams (id : string)
| MarshalFailed
| NilSnapshot
| EmptyHash
| HashMismatch.

(** The typed parameters of a policy binding, as encoding/json decodes them:
    [strict] with DisallowUnknownFields (validation), otherwise by
    [json.Unmarshal] (the hooks).  [decode_object] is decoding into
    [map[string]any]: [Some false] when the map is nil. *)
Class PolicyDecoder := {
  decode_object : string → option bool;
  decode_unit : bool → string → bool;
  decode_risk_levels : bool → string → option (list string);
  decode_allowed_hosts : bool → string → option (list string);
  decode_limits : bool → string → option (Z * Z);
  (* what the strict decoder accepts, the lenient one decodes to the same value,
     for the text of one JSON object *)
  decode_unit_lenient : ∀ raw, decode_object raw = Some true → decode_unit true raw = true → decode_unit false raw = true;
  decode_risk_lenient : ∀ raw v, decode_object raw = Some true → decode_risk_levels true raw = Some v → decode_risk_levels false raw = Some v;
  decode_hosts_lenient : ∀ raw v, decode_object raw = Some true → decode_allowed_hosts true raw = Some v → decode_allowed_hosts false raw = Some v;
  decode_limits_lenient : ∀ raw v, decode_object raw = Some true → decode_limits true raw = Some v → decode_limits false raw = Some v;
  decode_empty_object : decode_object "{}" = Some true
}.

Definition paramsOrEmpty (raw : string) : string :=
  if (slen raw =? 0) || (raw =? "null")%string then "{}" else raw.

Fixpoint stableUniqueLoop (seen : list string) (values : list string) : list string :=
  match values with
  | [] => []
  | v :: rest =>
    let v := TrimSpace v in
    if (v =? "")%string || bool_decide (v ∈ seen) then stableUniqueLoop seen rest
    else v :: stableUniqueLoop (v :: seen) rest
  end.
Definition stableUnique (values : list string) : list string := stableUniqueLoop [] values.

Section Snapshots.
Context `{PolicyDecoder}.
(** [json.Marshal] of the rules of a snapshot, and the hex SHA-256. *)
Context (marshal_rules : list Rule → option string) (sha256_hex : string → string).

Definition validateTypedPolicyParams (policyKey raw : string) : bool :=
  let raw := paramsOrEmpty raw in
  if (policyKey =? PolicyDangerousArgumentsDeny)%string then decode_unit true raw
  else if (policyKey =? PolicyRiskRequireApproval)%string then
    match decode_risk_levels true raw with
    | Some levels => negb (length (stableUnique levels) =? 0)%nat
    | None => false
    end
  else if (policyKey =? PolicyHostAllowlist)%string then
    match decode_allowed_hosts true raw with
    | Some hosts => negb (length (stableUnique hosts) =? 0)%nat
    | None => false
    end
  else if (policyKey =? PolicyExecutionLimits)%string then
    match decode_limits true raw with
    | Some (timeout, output) =>
      if (timeout <? 0) || (600000 <? timeout) then false
      else if (output <? 0) || (2 * 1024 * 1024 <? output) then false
      else negb ((timeout =? 0) && (output =? 0))
    | None => false
    end
  else true.

Definition knownPolicy (key : string) : bool :=
  bool_decide (key ∈ [PolicyDangerousArgumentsDeny; PolicyRiskRequireApproval; PolicyHostAllowlist; PolicyExecutionLimits]).

Definition validatePolicyBinding (rule : Rule) : option ruleError :=
  match rule_PolicyBinding rule with
  | None => if SafetyCritical rule then Some (SafetyNeedsBinding (rule_ID rule)) else None
  | Some b =>
    if negb (Strength rule =? RuleMandatory)%string then Some (BindingNotMandatory (rule_ID rule))
    else
      let policyKey := TrimSpace (PolicyKey b) in
      if negb (knownPolicy policyKey) then Some (UnknownPolicy (rule_ID rule) (PolicyKey b))
      else if (0 <? slen (Params b)) && negb (Params b =? "null")%string &&
              negb (match decode_object (Params b) with Some true => true | _ => false end)
      then Some (ParamsNotObject (rule_ID rule))
      else if validateTypedPolicyParams policyKey (Params b) then None
      else Some (BadParams (rule_ID rule))
  end.

Definition trimRule (r : Rule) : Rule :=
  mkRule (TrimSpace (rule_ID r)) (TrimSpace (rule_Name r)) (Strength r) (TrimSpace (rule_Content r))
    (rule_Activation r) (Priority r) (SafetyCritical r) (rule_PolicyBinding r).

(** The checks on one trimmed rule, in the order of the loop. *)
Definition checkRule (seen : list string) (rule : Rule) : option ruleError :=
  if negb (ruleIDPattern (rule_ID rule)) then Some (InvalidID (rule_ID rule))
  else if (rule_Content rule =? "")%string then Some (EmptyContent (rule_ID rule))
  else if maxRuleContentBytes <? slen (rule_Content rule) then Some (ContentTooLong (rule_ID rule))
  else if bool_decide (rule_ID rule ∈ seen) then Some (DuplicateID (rule_ID rule))
  else if negb (Strength rule =? RuleMandatory)%string && negb (Strength rule =? RuleOptional)%string
  then Some (BadStrength (rule_ID rule))
  else if (Strength rule =? RuleOptional)%string && negb (hasActivation (rule_Activation rule))
  then Some (NoActivation (rule_ID rule))
  else validatePolicyBinding rule.

Fixpoint checkRules (seen : list string) (items : list Rule) : result ruleError (list Rule) :=
  match items with
  | [] => Ok []
  | input :: rest =>
    let rule := trimRule input in
    match checkRule seen rule with
    | Some e => Err e
    | None => match checkRules (rule_ID rule :: seen) rest with
              | Ok normalized => Ok (rule :: normalized)
              | Err e => Err e
              end
    end
  end.

Definition rule_less (a b : Rule) : bool := str_ltb (rule_ID a) (rule_ID b).

Definition validateRules (items : list Rule) : result ruleError (list Rule) :=
  match checkRules [] items with
  | Ok normalized => Ok (sort_stable rule_less normalized)
  | Err e => Err e
  end.

Definition ValidateLoadedRules (items : list Rule) : result ruleError (list Rule) := validateRules items.

Definition reservedIDs : list string :=
  rule_ID <$> (DefaultPlatformMandatoryRules ++ DefaultFallbackOptionalRules).

Fixpoint reservedIn (items : list Rule) : option string :=
  match items with
  | [] => None
  | rule :: rest =>
    if bool_decide (TrimSpace (rule_ID rule) ∈ reservedIDs) then Some (TrimSpace (rule_ID rule)) else reservedIn rest
  end.

Definition ValidateRules (items : list Rule) : result ruleError (list Rule) :=
  if maxRuleCount <? zlen items then Err TooManyRules
  else match reservedIn items with
       | Some id => Err (ReservedID id)
       | None => validateRules items
       end.

Definition RuntimeRules (custom : list Rule) (includeFallback : bool) : result ruleError (list Rule) :=
  match ValidateRules custom with
  | Err e => Err e
  | Ok validated =>
    validateRules (DefaultPlatformMandatoryRules ++
      (if includeFallback then DefaultFallbackOptionalRules else []) ++ validated)
  end.

Definition hashSnapshot (s : Snapshot) : result ruleError string :=
  match marshal_rules (snap_Rules s) with
  | Some data => Ok (sha256_hex data)
  | None => Err MarshalFailed
  end.

Definition NewSnapshot (items : list Rule) : result ruleError Snapshot :=
  match ValidateRules items with
  | Err e => Err e
  | Ok normalized =>
    match hashSnapshot (mkSnapshot "" normalized) with
    | Ok h => Ok (mkSnapshot h normalized)
    | Err e => Err e
    end
  end.

Definition VerifySnapshot (snapshot : option Snapshot) : option ruleError :=
  match snapshot with
  | None => Some NilSnapshot
  | Some s =>
    let expected := TrimSpace (Hash s) in
    if (expected =? "")%string then Some EmptyHash
    else match hashSnapshot s with
         | Err e => Some e
         | Ok actual =>
           if negb (actual =? expected)%string then Some HashMismatch
           else match validateRules (snap_Rules s) with Ok _ => None | Err e => Some e end
         end
  end.

Definition HashLoadedRules (items : list Rule) : result ruleError string :=
  match ValidateLoadedRules items with
  | Err e => Err e
  | Ok normalized => hashSnapshot (mkSnapshot "" normalized)
  end.

Definition PolicyBindingsForRules (items : list Rule) : list BoundPolicyBinding :=
  omap (λ rule, match rule_PolicyBinding rule with
                | Some b => if (Strength rule =? RuleMandatory)%string
                            then Some (mkBound (rule_ID rule) (PolicyKey b) (Params b)) else None
                | None => None
                end) items.

(** *** Validation *)

(** A trimmed rule that passes every check but the one for duplicates. *)
Definition rule_valid (r : Rule) : Prop := checkRule [] r = None.

Lemma checkRule_none seen r : checkRule seen r = None ↔ rule_valid r ∧ rule_ID r ∉ seen.
Proof.
  unfold rule_valid, checkRule. rewrite (bool_decide_eq_false_2 (rule_ID r ∈ [])) by apply not_elem_of_nil.
  destruct (bool_decide_reflect (rule_ID r ∈ seen)) as [Hin|Hin]; split; intros Hc; try naive_solver.
  by repeat split_match_in Hc.
Qed.

Lemma trimRule_idem r : trimRule (trimRule r) = trimRule r.
Proof. unfold trimRule; simpl. by rewrite !TrimSpace_idem. Qed.

Lemma checkRules_ok seen items out :
  checkRules seen items = Ok out ↔
  out = trimRule <$> items ∧ Forall rule_valid out ∧ NoDup (rule_ID <$> out) ∧ (∀ r, r ∈ out → rule_ID r ∉ seen).
Proof.
  revert seen out. induction items as [|r items IH]; intros seen out.
  { simpl. split; [intros [= <-]|intros [-> _]; done]. split_and!; try done; [constructor|].
    intros r Hr. by apply elem_of_nil in Hr. }
  cbn [checkRules]. destruct (checkRule seen (trimRule r)) as [e|] eqn:Hc.
  { split; [done|]. intros (-> & Hv & _ & Hs). rewrite fmap_cons in *. apply Forall_cons in Hv as [Hv _].
    assert (checkRule seen (trimRule r) = None) as Hn; [|congruence].
    apply checkRule_none. split; [done|]. apply Hs. left. }
  apply checkRule_none in Hc as [Hv Hs].
  trans (∃ o, checkRules (rule_ID (trimRule r) :: seen) items = Ok o ∧ out = trimRule r :: o).
  { destruct (checkRules _ items) as [o|e].
    - split; [intros [= <-]; by exists o|by intros (o' & [= ->] & ->)].
    - split; [done|by intros (? & ? & _)]. }
  split.
  - intros (o & Ho & ->). apply IH in Ho as (-> & Hvs & Hnd & Hseen). split_and!; [done|by constructor| |].
    + rewrite fmap_cons. constructor; [|done]. intros Hin. apply list_elem_of_fmap in Hin as (r' & Heq & Hr').
      apply (Hseen r' Hr'). rewrite Heq. left.
    + intros r' [-> |Hr']%elem_of_cons; [done|]. intros Hin. apply (Hseen r' Hr'). by right.
  - intros (-> & Hvs & Hnd & Hseen). rewrite !fmap_cons in *. apply Forall_cons in Hvs as [_ Hvs].
    apply NoDup_cons in Hnd as [Hnin Hnd]. eexists. split; [|done]. apply IH. split_and!; [done|done|done|].
    intros r' Hr'. rewrite not_elem_of_cons. split.
    + intros Heq. apply Hnin. rewrite <- Heq. by apply list_elem_of_fmap_2.
    + apply Hseen. by right.
Qed.

Lemma rule_less_asym a b : rule_less a b = true → rule_less b a = false.
Proof. apply str_ltb_asym. Qed.
Lemma rule_ge_trans a b c : rule_less b a = false → rule_less c b = false → rule_less c a = false.
Proof. apply str_geb_trans. Qed.

(** The shape of a validated rule list. *)
Definition rules_normal (rs : list Rule) : Prop :=
  Forall (λ r, trimRule r = r ∧ rule_valid r) rs ∧ NoDup (rule_ID <$> rs) ∧
  StronglySorted (λ a b, rule_less b a = false) rs.

Lemma validateRules_normal items out :
  validateRules items = Ok out → rules_normal out ∧ out ≡ₚ trimRule <$> items.
Proof.
  unfold validateRules. destruct (checkRules [] items) as [n|e] eqn:Hc; [|done]. intros [= <-].
  apply checkRules_ok in Hc as (-> & Hv & Hnd & _). split; [split_and!|apply sort_stable_perm].
  - rewrite sort_stable_perm. apply Forall_forall. intros r Hr. rewrite Forall_forall in Hv. split; [|by apply Hv].
    apply list_elem_of_fmap in Hr as (r' & -> & _). apply trimRule_idem.
  - by rewrite sort_stable_perm.
  - apply sort_stable_sorted; [apply rule_less_asym|apply rule_ge_trans].
Qed.

Lemma normal_checks rs : Forall (λ r, trimRule r = r ∧ rule_valid r) rs → NoDup (rule_ID <$> rs) → checkRules [] rs = Ok rs.
Proof.
  intros Hv Hnd. apply checkRules_ok. split_and!; [|by eapply Forall_impl; [done|naive_solver]|done|].
  - symmetry. rewrite <- (list_fmap_id rs) at 2. apply list_fmap_ext. intros i r Hi.
    rewrite Forall_lookup in Hv. by destruct (Hv i r Hi).
  - intros r _. apply not_elem_of_nil.
Qed.

Lemma validateRules_fixpoint rs : rules_normal rs → validateRules rs = Ok rs.
Proof.
  intros (Hv & Hnd & Hs). unfold validateRules. rewrite normal_checks by done. by rewrite sort_stable_id.
Qed.

Lemma ValidateRules_spec items out :
  ValidateRules items = Ok out →
  validateRules items = Ok out ∧ (∀ r, r ∈ out → rule_ID r ∉ reservedIDs).
Proof.
  unfold ValidateRules. destruct (maxRuleCount <? zlen items); [done|].
  destruct (reservedIn items) as [id|] eqn:Hr; [done|]. intros Hv. split; [done|].
  intros r Hin. apply validateRules_normal in Hv as [_ Hp]. rewrite Hp in Hin.
  apply list_elem_of_fmap in Hin as (r' & -> & Hin). simpl. clear Hp. induction items as [|i items IH]; [by apply elem_of_nil in Hin|].
  simpl in Hr. case_bool_decide as Hres; [done|]. apply elem_of_cons in Hin as [-> |Hin]; [done|by apply IH].
Qed.

(** A snapshot taken by [NewSnapshot] is verified by [VerifySnapshot]: the
    stored rules are trimmed, valid, distinct, sorted and not reserved, so that
    they hash to the stored value and validate again. *)
Theorem snapshot_roundtrip items s :
  (∀ d, TrimSpace (sha256_hex d) = sha256_hex d ∧ sha256_hex d ≠ ""%string) →
  NewSnapshot items = Ok s →
  VerifySnapshot (Some s) = None ∧ rules_normal (snap_Rules s) ∧
  snap_Rules s ≡ₚ trimRule <$> items ∧ (∀ r, r ∈ snap_Rules s → rule_ID r ∉ reservedIDs).
Proof.
  intros Hhex. unfold NewSnapshot. destruct (ValidateRules items) as [n|e] eqn:Hv; [|done].
  destruct (hashSnapshot _) as [h|e] eqn:Hh; [|done]. intros [= <-]. simpl.
  apply ValidateRules_spec in Hv as [Hv Hres]. destruct (validateRules_normal _ _ Hv) as [Hn Hp].
  split_and!; [|done|done|done]. unfold hashSnapshot in *. simpl in *.
  destruct (marshal_rules n) as [data|]; [|done]. simplify_eq.
  destruct (Hhex data) as [-> Hne]. destruct (String.eqb_spec (sha256_hex data) ""); [done|].
  rewrite String.eqb_refl. simpl. by rewrite validateRules_fixpoint.
Qed.

Lemma platform_rules_valid b :
  let ps := DefaultPlatformMandatoryRules ++ (if b : bool then DefaultFallbackOptionalRules else []) in
  Forall (λ r, trimRule r = r ∧ rule_valid r) ps ∧ NoDup (rule_ID <$> ps) ∧
  (∀ r, r ∈ ps → rule_ID r ∈ reservedIDs).
Proof.
  unfold rule_valid. split_and!.
  - destruct b; repeat constructor; vm_compute; reflexivity.
  - destruct b; apply (bool_decide_unpack _); vm_compute; exact I.
  - intros r Hr. unfold reservedIDs. apply list_elem_of_fmap_2. destruct b; [done|].
    rewrite app_nil_r in Hr. apply elem_of_app. by left.
Qed.

(** Composing a run's rules cannot fail once the custom rules validate: the
    platform's mandatory rules are always among them, the custom rules follow
    unchanged and no id is taken twice. *)
Theorem runtime_rules_total custom validated includeFallback :
  ValidateRules custom = Ok validated →
  ∃ all, RuntimeRules custom includeFallback = Ok all ∧ rules_normal all ∧
    all ≡ₚ DefaultPlatformMandatoryRules ++ (if includeFallback : bool then DefaultFallbackOptionalRules else []) ++ validated.
Proof.
  intros Hv. unfold RuntimeRules. rewrite Hv. apply ValidateRules_spec in Hv as [Hv Hres].
  destruct (validateRules_normal _ _ Hv) as [(Hnv & Hnd & _) _].
  destruct (platform_rules_valid includeFallback) as (Hpv & Hpd & Hpres).
  rewrite (app_assoc DefaultPlatformMandatoryRules). set (ps := _ ++ _) in *. clearbody ps.
  assert (checkRules [] (ps ++ validated) = Ok (ps ++ validated)) as Hc.
  { apply normal_checks; [by apply Forall_app|]. rewrite fmap_app. apply NoDup_app. split_and!; [done| |done].
    intros id (r & -> & Hr)%list_elem_of_fmap (r' & Heq & Hr')%list_elem_of_fmap.
    apply (Hres r' Hr'). rewrite <- Heq. by apply Hpres. }
  assert (validateRules (ps ++ validated) = Ok (sort_stable rule_less (ps ++ validated))) as Ha.
  { unfold validateRules. by rewrite Hc. }
  eexists. split; [done|]. split; [by destruct (validateRules_normal _ _ Ha)|apply sort_stable_perm].
Qed.

End Snapshots.

(** ** Witnesses *)

(** A decoder of the parameter objects the samples use. *)
Definition sample_decoder : PolicyDecoder := {|
  decode_object := λ raw, if (raw =? "{}")%string || HasPrefix raw "{" then Some true else None;
  decode_unit := λ _ _, true;
  decode_risk_levels := λ _ raw, if Contains raw "high" then Some ["high"%string] else Some [];
  decode_allowed_hosts := λ _ raw, if Contains raw "[::1]:8080" then Some ["[::1]:8080"%string]
                                   else if Contains raw "api.example.com" then Some ["api.example.com"%string] else Some [];
  decode_limits := λ _ raw, if Contains raw "1000" then Some (1000, 4096) else Some (0, 0);
  decode_unit_lenient := λ _ _ h, h;
  decode_risk_lenient := λ _ _ _ h, h;
  decode_hosts_lenient := λ _ _ _ h, h;
  decode_limits_lenient := λ _ _ _ h, h;
  decode_empty_object := eq_refl
|}.

Definition custom_rule : Rule :=
  mkRule " custom.hosts " "Hosts" RuleMandatory " Only call the API. " noActivation 10 true
    (Some (mkPolicyBinding " tool.host.allowlist " "{allowed_hosts: [api.example.com]}")).

Definition sample_marshal : list Rule → option string := λ rs, Some (Join (rule_ID <$> rs) ",").
Definition sample_hash : string → string := λ _, "5e1f0c".

Definition sample_snapshot : Snapshot := mkSnapshot "5e1f0c" [trimRule custom_rule].

Lemma snapshot_roundtrip_witness :
  NewSnapshot (H := sample_decoder) sample_marshal sample_hash [custom_rule] = Ok sample_snapshot ∧
  VerifySnapshot (H := sample_decoder) sample_marshal sample_hash (Some sample_snapshot) = None.
Proof.
  split; [by vm_compute|].
  apply (snapshot_roundtrip (H := sample_decoder) sample_marshal sample_hash [custom_rule] sample_snapshot).
  - intros d. split; [by vm_compute|done].
  - by vm_compute.
Defined.

Lemma runtime_rules_total_witness :
  ∃ all, RuntimeRules (H := sample_decoder) [custom_rule] true = Ok all ∧ length all = 9%nat.
Proof.
  destruct (runtime_rules_total (H := sample_decoder) [custom_rule] [trimRule custom_rule] true) as (all & Ha & _ & Hp).
  - by vm_compute.
  - exists all. split; [exact Ha|]. rewrite Hp. reflexivity.
Defined.
