(* ===== verification/Hooks.v ===== *)
(** The tool hooks of the harness (internal/runtime/harness/hooks/tool_hooks.go)
    with the truncation helpers of internal/pkg/strutil/strutil.go: what happens
    before and after a tool runs.  The counters of internal/observability are
    left out. *)
From S2P Require Import Prelude GoStr Json Tools Rules.
Open Scope Z_scope.

(** ** strutil.go *)

Definition TruncateWithSuffixFlag (value : string) (maxBytes : Z) (suffix : string) : string * bool :=
  if (maxBytes <=? 0) || (slen value <=? maxBytes) then (value, false)
  else ((str_take (Z.to_nat maxBytes) value ++ suffix)%string, true).

Definition TruncateWithSuffix (value : string) (maxBytes : Z) (suffix : string) : string :=
  (TruncateWithSuffixFlag value maxBytes suffix).1.

Section Hooks.
Context `{UnicodeTables} `{PolicyDecoder}.

(** encoding/json on strings and on [map[string]any]; a nil map is [None]. *)
Context (marshal_string : string → string).
Context (decode_map : string → option (option (list (string * json)))).
Context (marshal_map : option (list (string * json)) → option string).
(** The arguments of request_human_approval: its action and its reason. *)
Context (decode_approval_args : string → option (string * string)).

Definition TruncateRawJSONWithSuffix (raw : string) (maxBytes : Z) (suffix : string) : string * bool :=
  if (maxBytes <=? 0) || (slen raw <=? maxBytes) then (raw, false)
  else (marshal_string (TruncateWithSuffix raw maxBytes suffix), true).

(** ** Data *)

Record ToolPolicy := mkToolPolicy {
  RequireApprovalForRisk : list string;
  MaxToolTimeoutMS : Z;
  MaxToolOutputBytes : Z;
  PolicyHosts : list string;
  RuleBindings : list BoundPolicyBinding;
  DenyAllHosts : bool
}.

Record Approval := mkApproval {
  apr_ToolCallID : string;
  apr_ToolName : string;
  apr_RiskLevel : string;
  apr_Reason : string;
  apr_Metadata : ToolMetadata
}.

(** The errors of the hook, by what their messages name. *)
Inductive bindingError :=
| BadBindingParams (ruleID what : string)
| UnknownBinding (ruleID policyKey : string).

Inductive denial :=
| DeniedByRules (e : bindingError)
| DeniedDangerous (pattern : string)
| DeniedAllHosts
| DeniedHost (host : string).

(** A trace's reason: none, a text, or the message of a denial. *)
Inductive traceReason := NoReason | ReasonText (t : string) | ReasonDenied (d : denial).

Record HookTrace := mkHookTrace {
  Stage : string;
  Hook : string;
  tr_Decision : string;
  Reason : traceReason;
  tr_Compressed : bool;
  tr_RuleID : string;
  tr_PolicyKey : string
}.

Record PreToolUseRequest := mkPreRequest {
  pre_ToolCallID : string;
  pre_ToolName : string;
  pre_Arguments : string;
  pre_Metadata : ToolMetadata;
  pre_Policy : ToolPolicy
}.

(** A context is the list of the timeouts (in milliseconds) put on the caller's
    context, the innermost first. *)
Notation Ctx := (list Z).

Record PreToolUseResult := mkPreResult {
  pre_Context : option Ctx;
  pre_Cancel : bool;
  pre_Approval : option Approval;
  pre_Denied : option denial;
  pre_Traces : list HookTrace
}.

Record PostToolUseRequest := mkPostRequest {
  post_ToolName : string;
  post_Content : string;
  post_OutputJSON : string;
  post_Metadata : ToolMetadata;
  post_Policy : ToolPolicy;
  post_SensitiveFields : list string
}.

Record PostToolUseResult := mkPostResult {
  out_Content : string;
  out_OutputJSON : string;
  out_Compressed : bool;
  out_Traces : list HookTrace
}.

(** ** Rule bindings *)

Definition appendUniqueFold (values additions : list string) : list string :=
  foldl (λ values addition,
    let addition := TrimSpace addition in
    if (addition =? "")%string then values
    else if existsb (λ existing, EqualFold existing addition) values then values
    else values ++ [addition]) values additions.

Definition intersectAllowedHosts (current constraint : list string) : list string * bool :=
  let left := NormalizeHosts current in
  let right := NormalizeHosts constraint in
  match left with
  | [] => (right, (length right =? 0)%nat)
  | _ =>
    match right with
    | [] => ([], true)
    | _ => let allowed := filter (λ h, h ∈ right) left in (allowed, (length allowed =? 0)%nat)
    end
  end.

Definition minimumPositive (current constraint : Z) : Z :=
  if constraint <=? 0 then current
  else if (current <=? 0) || (constraint <? current) then constraint
  else current.

Definition applyBinding (policy : ToolPolicy) (b : BoundPolicyBinding) : result bindingError ToolPolicy :=
  let policyKey := TrimSpace (bound_PolicyKey b) in
  let raw := paramsOrEmpty (bound_Params b) in
  if (policyKey =? PolicyDangerousArgumentsDeny)%string then
    if decode_unit false raw then Ok policy else Err (BadBindingParams (bound_RuleID b) "dangerous-arguments")
  else if (policyKey =? PolicyRiskRequireApproval)%string then
    match decode_risk_levels false raw with
    | None => Err (BadBindingParams (bound_RuleID b) "approval")
    | Some levels =>
      Ok (mkToolPolicy (appendUniqueFold (RequireApprovalForRisk policy) levels) (MaxToolTimeoutMS policy)
            (MaxToolOutputBytes policy) (PolicyHosts policy) (RuleBindings policy) (DenyAllHosts policy))
    end
  else if (policyKey =? PolicyHostAllowlist)%string then
    match decode_allowed_hosts false raw with
    | None => Err (BadBindingParams (bound_RuleID b) "host allowlist")
    | Some hosts =>
      let '(allowed, denyAll) := intersectAllowedHosts (PolicyHosts policy) hosts in
      Ok (mkToolPolicy (RequireApprovalForRisk policy) (MaxToolTimeoutMS policy) (MaxToolOutputBytes policy)
            allowed (RuleBindings policy) (DenyAllHosts policy || denyAll))
    end
  else if (policyKey =? PolicyExecutionLimits)%string then
    match decode_limits false raw with
    | None => Err (BadBindingParams (bound_RuleID b) "execution limits")
    | Some (timeout, output) =>
      Ok (mkToolPolicy (RequireApprovalForRisk policy) (minimumPositive (MaxToolTimeoutMS policy) timeout)
            (minimumPositive (MaxToolOutputBytes policy) output) (PolicyHosts policy) (RuleBindings policy)
            (DenyAllHosts policy))
    end
  else Err (UnknownBinding (bound_RuleID b) policyKey).

Definition appliedTrace (b : BoundPolicyBinding) : HookTrace :=
  mkHookTrace "pre_tool_use" "rule_policy" "applied" NoReason false (bound_RuleID b) (TrimSpace (bound_PolicyKey b)).

Fixpoint applyBindings (policy : ToolPolicy) (bindings : list BoundPolicyBinding) (traces : list HookTrace)
    : ToolPolicy * list HookTrace * option bindingError :=
  match bindings with
  | [] => (policy, traces, None)
  | b :: rest =>
    match applyBinding policy b with
    | Err e => (policy, traces, Some e)
    | Ok policy => applyBindings policy rest (traces ++ [appliedTrace b])
    end
  end.

Definition applyRuleBindings (policy : ToolPolicy) : ToolPolicy * list HookTrace * option bindingError :=
  applyBindings
    (mkToolPolicy (RequireApprovalForRisk policy) (MaxToolTimeoutMS policy) (MaxToolOutputBytes policy)
       (PolicyHosts policy) [] (DenyAllHosts policy))
    (RuleBindings policy) [].

(** ** Approval and dangerous arguments *)

Definition ShouldRequireApprovalForRisk (riskLevel : string) (requiresApproval : bool) (policyRisks : list string)
    : string * bool :=
  let risk := TrimSpace riskLevel in
  let risk := if (risk =? "")%string then RiskLow else risk in
  (risk, requiresApproval || existsb (λ item, EqualFold (TrimSpace item) risk) policyRisks).

Definition approvalReason (req : PreToolUseRequest) (risk : string) : string :=
  let reason := ("tool " ++ pre_ToolName req ++ " requires human approval because risk level is " ++ risk)%string in
  if EqualFold (pre_ToolName req) "request_human_approval" then
    match decode_approval_args (pre_Arguments req) with
    | None => reason
    | Some (action, why) =>
      let parts :=
        (if (TrimSpace action =? "")%string then [] else [("action: " ++ TrimSpace action)%string]) ++
        (if (TrimSpace why =? "")%string then [] else [("reason: " ++ TrimSpace why)%string]) in
      match parts with [] => reason | _ => Join parts "; " end
    end
  else reason.

Definition requiredApproval (req : PreToolUseRequest) : option Approval :=
  let m := pre_Metadata req in
  let '(risk, required) :=
    ShouldRequireApprovalForRisk (RiskLevel m) (RequiresApproval m) (RequireApprovalForRisk (pre_Policy req)) in
  if negb required then None
  else Some (mkApproval (pre_ToolCallID req) (pre_ToolName req) risk (approvalReason req risk) m).

Definition quoted_true (spaces : string) : string :=
  ("network_enabled" ++ String (byte_of 34) (":" ++ spaces ++ "true"))%string.

Definition dangerousPatterns : list string :=
  ["rm -rf /"; "rm -fr /"; "rm -rf /*"; "rm -fr /*"; "sudo rm -rf"; "mkfs."; "mkfs "; "mkswap "; "dd if="; "dd ";
   " of=/dev/"; ":(){"; ": () {"; "fork bomb"; "/dev/sda"; "/dev/disk"; "/dev/nvme"; "curl "; "| sh"; "| bash";
   "bash <("; "sh <("; "wget "; "chmod -r 777 /"; "chown -r "; "> /etc/"; "tee /etc/"; "launchctl unload";
   "systemctl disable"; "iptables -f"; "pfctl -d"; "bash -c"; "sh -c"; quoted_true ""; quoted_true " "]%string.

(** The payload that is searched: lower case, runs of white space as one blank. *)
Definition dangerPayload (arguments : string) : string := Join (Fields (ToLower arguments)) " ".

Definition guardedTool (toolName : string) : bool :=
  let toolName := ToLower (TrimSpace toolName) in
  Contains toolName "shell" || Contains toolName "sandbox" || Contains toolName "python" || Contains toolName "execute".

Definition dangerousToolArgumentReason (req : PreToolUseRequest) : string :=
  let toolName := ToLower (TrimSpace (pre_ToolName req)) in
  if (toolName =? "")%string || (slen (pre_Arguments req) =? 0) then ""
  else if negb (guardedTool (pre_ToolName req)) then ""
  else
    let payload := dangerPayload (pre_Arguments req) in
    if (payload =? "")%string then ""
    else match list_find (λ pattern, Contains payload pattern = true) dangerousPatterns with
         | Some (_, pattern) => pattern
         | None => ""
         end.

(** ** The policy hook *)

Definition preTrace (hook decision : string) (reason : traceReason) : HookTrace :=
  mkHookTrace "pre_tool_use" hook decision reason false "" "".

Definition set_Policy (p : ToolPolicy) (req : PreToolUseRequest) : PreToolUseRequest :=
  mkPreRequest (pre_ToolCallID req) (pre_ToolName req) (pre_Arguments req) (pre_Metadata req) p.

Definition deniedResult (ctx : Ctx) (traces : list HookTrace) (hook : string) (d : denial) : PreToolUseResult :=
  mkPreResult (Some ctx) false None (Some d) (traces ++ [preTrace hook "denied" (ReasonDenied d)]).

Definition PolicyPreToolUseHook (ctx : Ctx) (req : PreToolUseRequest) : PreToolUseResult :=
  let '(effective, traces, err) := applyRuleBindings (pre_Policy req) in
  match err with
  | Some e => deniedResult ctx traces "rule_policy" (DeniedByRules e)
  | None =>
    let req := set_Policy effective req in
    let reason := dangerousToolArgumentReason req in
    if negb (reason =? "")%string then deniedResult ctx traces "policy" (DeniedDangerous reason)
    else
      match ValidateAllowedHosts (AllowedHosts (pre_Metadata req)) (PolicyHosts effective) (DenyAllHosts effective) with
      | Some None => deniedResult ctx traces "policy" DeniedAllHosts
      | Some (Some h) => deniedResult ctx traces "policy" (DeniedHost h)
      | None =>
        match requiredApproval req with
        | Some a =>
          mkPreResult (Some ctx) false (Some a) None
            (traces ++ [preTrace "policy" "approval_required" (ReasonText (apr_Reason a))])
        | None =>
          let timeoutMS := EffectiveLimit (TimeoutMS (pre_Metadata req)) (MaxToolTimeoutMS effective) in
          if timeoutMS <=? 0 then
            mkPreResult (Some ctx) false None None (traces ++ [preTrace "policy" "allowed" NoReason])
          else
            mkPreResult (Some (timeoutMS :: ctx)) true None None
              (traces ++ [preTrace "policy" "allowed" (ReasonText ("timeout_ms=" ++ Itoa timeoutMS))])
        end
      end
  end.

(** ** The chain *)

Definition PreHook := Ctx → PreToolUseRequest → PreToolUseResult.
Definition PostHook := PostToolUseRequest → PostToolUseResult.

(** [result.Context] is never nil: it starts with the caller's. *)
Record preState := mkPreState { st_ctx : Ctx; st_cancel : bool; st_traces : list HookTrace }.

Fixpoint runPre (hooks : list (option PreHook)) (req : PreToolUseRequest) (st : preState) : PreToolUseResult :=
  match hooks with
  | [] => mkPreResult (Some (st_ctx st)) (st_cancel st) None None (st_traces st)
  | None :: rest => runPre rest req st
  | Some hook :: rest =>
    let next := hook (st_ctx st) req in
    let st := mkPreState (default (st_ctx st) (pre_Context next)) (st_cancel st || pre_Cancel next)
                (st_traces st ++ pre_Traces next) in
    match pre_Approval next with
    | Some a => mkPreResult (Some (st_ctx st)) (st_cancel st) (Some a) None (st_traces st)
    | None =>
      match pre_Denied next with
      | Some d => mkPreResult (Some (st_ctx st)) (st_cancel st) None (Some d) (st_traces st)
      | None => runPre rest req st
      end
    end
  end.

Definition BeforeToolUse (pre : list (option PreHook)) (ctx : Ctx) (req : PreToolUseRequest) : PreToolUseResult :=
  runPre pre req (mkPreState ctx false []).

Definition set_PostContent (content json : string) (req : PostToolUseRequest) : PostToolUseRequest :=
  mkPostRequest (post_ToolName req) content json (post_Metadata req) (post_Policy req) (post_SensitiveFields req).

Fixpoint runPost (hooks : list (option PostHook)) (current : PostToolUseRequest) (result : PostToolUseResult)
    : PostToolUseResult :=
  match hooks with
  | [] => result
  | None :: rest => runPost rest current result
  | Some hook :: rest =>
    let next := hook current in
    runPost rest (set_PostContent (out_Content next) (out_OutputJSON next) current)
      (mkPostResult (out_Content next) (out_OutputJSON next) (out_Compressed result || out_Compressed next)
         (out_Traces result ++ out_Traces next))
  end.

Definition AfterToolUse (post : list (option PostHook)) (req : PostToolUseRequest) : PostToolUseResult :=
  runPost post req (mkPostResult (post_Content req) (post_OutputJSON req) false []).

(** ** Redaction and the observation hook *)

Definition DefaultSensitiveFields : list string :=
  ["api_key"; "apikey"; "authorization"; "access_token"; "refresh_token"; "token"; "password"; "secret"]%string.

Definition redactField (field : string) (m : list (string * json)) : list (string * json) :=
  (λ kv, if (kv.1 =? field)%string then (kv.1, JStr "[REDACTED]") else kv) <$> m.

Definition redactMap (fields : list string) (m : list (string * json)) : list (string * json) :=
  foldl (λ m field, redactField field m) m fields.

Definition RedactSensitiveFields (raw : string) (fields : list string) : string :=
  if (length fields =? 0)%nat || (slen raw =? 0) then raw
  else match decode_map raw with
       | None => raw
       | Some m => match marshal_map (redactMap fields <$> m) with Some out => out | None => raw end
       end.

Definition postTrace (decision : string) (compressed : bool) : HookTrace :=
  mkHookTrace "post_tool_use" "observation" decision NoReason compressed "" "".

Definition truncatedSuffix : string := "...[truncated]".

Definition ObservationPostToolUseHook (req : PostToolUseRequest) : PostToolUseResult :=
  let fields := match post_SensitiveFields req with [] => DefaultSensitiveFields | fs => fs end in
  let raw := RedactSensitiveFields (post_OutputJSON req) fields in
  let content :=
    if (0 <? slen raw) && negb (raw =? post_OutputJSON req)%string &&
       (TrimSpace (post_Content req) =? TrimSpace (post_OutputJSON req))%string
    then raw else post_Content req in
  let maxBytes := EffectiveLimit (MaxOutputBytes (post_Metadata req)) (MaxToolOutputBytes (post_Policy req)) in
  if maxBytes <=? 0 then mkPostResult content raw false [postTrace "recorded" false]
  else
    let '(compactContent, c1) := TruncateWithSuffixFlag content maxBytes truncatedSuffix in
    let '(compactJSON, c2) := TruncateRawJSONWithSuffix raw maxBytes truncatedSuffix in
    let compressed := c1 || c2 in
    mkPostResult compactContent compactJSON compressed
      [postTrace (if compressed then "compressed" else "recorded") compressed].

Definition DefaultPre : list (option PreHook) := [Some PolicyPreToolUseHook].
Definition DefaultPost : list (option PostHook) := [Some ObservationPostToolUseHook].

End Hooks.

(** ** Rule bindings only restrict *)

Section Restrict.
Context `{UnicodeTables} `{PolicyDecoder}.

(** A host that normalizes to a normal form (every host name and IPv4 address;
    not a bracketed IPv6 address with a port, see [ipv6_rule_denies]). *)
Definition host_stable (h : string) : Prop := NormalizeHost (NormalizeHost h) = NormalizeHost h.

Lemma elem_of_uniqueStrings v values : v ∈ uniqueStrings values ↔ v ∈ values.
Proof.
  unfold uniqueStrings. split; [apply dedupe_subset|]. intros Hv. apply dedupe_complete; [done|]. apply not_elem_of_nil.
Qed.

Lemma elem_of_NormalizeHosts h hosts :
  h ∈ NormalizeHosts hosts ↔ h ≠ ""%string ∧ ∃ h', h' ∈ hosts ∧ h = NormalizeHost h'.
Proof.
  unfold NormalizeHosts. rewrite elem_of_uniqueStrings, list_elem_of_filter, list_elem_of_fmap. naive_solver.
Qed.

Lemma checkHosts_none allowed toolHosts :
  checkHosts allowed toolHosts = None ↔
  ∀ h, h ∈ toolHosts → NormalizeHost h = ""%string ∨ NormalizeHost h ∈ allowed.
Proof.
  induction toolHosts as [|h toolHosts IH]; cbn [checkHosts]; cbv zeta.
  { split; [|done]. intros _ h Hh. by apply elem_of_nil in Hh. }
  setoid_rewrite elem_of_cons. destruct (String.eqb_spec (NormalizeHost h) "") as [He|Hne].
  - rewrite IH. naive_solver.
  - case_bool_decide as Hin; [rewrite IH; naive_solver|]. split; [done|]. intros Hall.
    destruct (Hall h (or_introl eq_refl)); done.
Qed.

(** What [ValidateAllowedHosts] lets pass. *)
Lemma ValidateAllowedHosts_none toolHosts policyHosts denyAll :
  ValidateAllowedHosts toolHosts policyHosts denyAll = None ↔
  toolHosts = [] ∨
  (denyAll = false ∧ (NormalizeHosts policyHosts = [] ∨
     ∀ h, h ∈ toolHosts → NormalizeHost h = ""%string ∨ NormalizeHost h ∈ NormalizeHosts policyHosts)).
Proof.
  unfold ValidateAllowedHosts. destruct toolHosts as [|h hs]; [by split; [left|]|].
  destruct denyAll; [split; [done|by intros [|[]]]|].
  destruct (NormalizeHosts policyHosts) as [|a al]; [split; [by right; split; [|left]|done]|].
  rewrite checkHosts_none. split; [by right; split; [|right]|]. intros [|[_ [|Hall]]]; done.
Qed.

Definition hosts_within (h1 h2 : list string * bool) : Prop :=
  ∀ toolHosts, ValidateAllowedHosts toolHosts h1.1 h1.2 = None → ValidateAllowedHosts toolHosts h2.1 h2.2 = None.

Lemma NormalizeHosts_stable hosts :
  Forall host_stable hosts → ∀ h, h ∈ NormalizeHosts hosts → NormalizeHost h = h ∧ h ≠ ""%string.
Proof.
  intros Hs h (Hne & h' & Hh' & ->)%elem_of_NormalizeHosts. rewrite Forall_forall in Hs. split; [by apply Hs|done].
Qed.

Lemma intersect_within current constraint deny :
  Forall host_stable current → Forall host_stable constraint →
  let '(allowed, denyAll) := intersectAllowedHosts current constraint in
  hosts_within (allowed, deny || denyAll) (current, deny) ∧ Forall host_stable allowed.
Proof.
  intros Hc Hk. unfold intersectAllowedHosts, hosts_within.
  pose proof (NormalizeHosts_stable _ Hc) as Hcs. pose proof (NormalizeHosts_stable _ Hk) as Hks.
  destruct (NormalizeHosts current) as [|l ls] eqn:El.
  - simpl. split.
    + intros t. rewrite !ValidateAllowedHosts_none, El. destruct deny; naive_solver.
    + apply Forall_forall. intros h Hh. unfold host_stable. by rewrite !(proj1 (Hks h Hh)).
  - destruct (NormalizeHosts constraint) as [|r rs] eqn:Er.
    { simpl. split; [|constructor]. intros t. rewrite !ValidateAllowedHosts_none, orb_true_r. naive_solver. }
    set (allowed := filter _ _). assert (∀ h, h ∈ allowed → h ∈ l :: ls) as Hsub.
    { intros h Hh. by apply list_elem_of_filter in Hh as [_ Hh]. }
    clearbody allowed. cbn [fst snd]. split.
    + intros t. rewrite !ValidateAllowedHosts_none, El. intros [->|[Hd Hin]]; [by left|].
      apply orb_false_iff in Hd as [-> Hd]. apply Nat.eqb_neq in Hd. right. split; [done|right].
      assert (∀ h, h ∈ NormalizeHosts allowed ↔ h ∈ allowed) as Hna.
      { intros h. rewrite elem_of_NormalizeHosts. split.
        - intros (Hne & h' & Hh' & ->). by rewrite (proj1 (Hcs h' (Hsub h' Hh'))).
        - intros Hh. destruct (Hcs h (Hsub h Hh)) as [Hs Hne]. split; [done|]. by exists h. }
      destruct Hin as [Hnil|Hin].
      * exfalso. destruct allowed as [|a al]; [done|].
        assert (a ∈ NormalizeHosts (a :: al)) as Ha by (apply Hna; left). rewrite Hnil in Ha. by apply elem_of_nil in Ha.
      * intros h Hh. destruct (Hin h Hh) as [?|Hh']; [by left|right]. by apply Hsub, Hna.
    + apply Forall_forall. intros h Hh. unfold host_stable. by rewrite !(proj1 (Hcs h (Hsub h Hh))).
Qed.

(** A limit of [0] or less means no limit. *)
Definition limit_within (new old : Z) : Prop := 0 < old → 0 < new ≤ old.

Lemma minimumPositive_within current constraint : limit_within (minimumPositive current constraint) current.
Proof. unfold limit_within, minimumPositive. repeat case_match; bool_prop; lia. Qed.

Lemma appendUniqueFold_grows values additions v : v ∈ values → v ∈ appendUniqueFold values additions.
Proof.
  unfold appendUniqueFold. revert values. induction additions as [|a additions IH]; intros values Hv; simpl; [done|].
  apply IH. repeat case_match; [done|done|]. apply elem_of_app. by left.
Qed.

Lemma appendUniqueFold_covers values additions a :
  a ∈ additions → TrimSpace a ≠ ""%string →
  ∃ v, v ∈ appendUniqueFold values additions ∧ EqualFold v (TrimSpace a) = true.
Proof.
  revert values. induction additions as [|b additions IH]; intros values Ha Hne; [by apply elem_of_nil in Ha|].
  apply elem_of_cons in Ha as [<- |Ha]; [|by apply (IH _ Ha Hne)].
  unfold appendUniqueFold. cbn [foldl]. destruct (String.eqb_spec (TrimSpace a) "") as [?|_]; [done|].
  destruct (existsb _ values) eqn:He.
  - apply existsb_exists in He as (v & Hv%list_elem_of_In & Hf). exists v. split; [|done].
    by apply appendUniqueFold_grows.
  - exists (TrimSpace a). split; [|apply EqualFold_refl]. apply appendUniqueFold_grows, elem_of_app. right. left.
Qed.

Definition requires_approval (p : ToolPolicy) (m : ToolMetadata) : bool :=
  (ShouldRequireApprovalForRisk (RiskLevel m) (RequiresApproval m) (RequireApprovalForRisk p)).2.

(** [p'] allows no more than [p]. *)
Definition policy_within (p' p : ToolPolicy) : Prop :=
  (∀ m, requires_approval p m = true → requires_approval p' m = true) ∧
  (∀ v, v ∈ RequireApprovalForRisk p → v ∈ RequireApprovalForRisk p') ∧
  hosts_within (PolicyHosts p', DenyAllHosts p') (PolicyHosts p, DenyAllHosts p) ∧
  limit_within (MaxToolTimeoutMS p') (MaxToolTimeoutMS p) ∧
  limit_within (MaxToolOutputBytes p') (MaxToolOutputBytes p).

Lemma hosts_within_refl h : hosts_within h h.
Proof. by intros t. Qed.

Lemma limit_within_refl n : limit_within n n.
Proof. unfold limit_within. lia. Qed.

Lemma policy_within_refl p : policy_within p p.
Proof. unfold policy_within, hosts_within, limit_within. split_and!; auto; lia. Qed.

Lemma policy_within_trans p1 p2 p3 : policy_within p1 p2 → policy_within p2 p3 → policy_within p1 p3.
Proof.
  unfold policy_within, hosts_within, limit_within. intros (A1 & A2 & A3 & A4 & A5) (B1 & B2 & B3 & B4 & B5).
  split_and!; [eauto|eauto|eauto|intros Hp; specialize (B4 Hp); specialize (A4 ltac:(lia)); lia
              |intros Hp; specialize (B5 Hp); specialize (A5 ltac:(lia)); lia].
Qed.

Lemma risks_grow p p' :
  (∀ v, v ∈ RequireApprovalForRisk p → v ∈ RequireApprovalForRisk p') →
  ∀ m, requires_approval p m = true → requires_approval p' m = true.
Proof.
  intros Hg m. unfold requires_approval, ShouldRequireApprovalForRisk. simpl. rewrite !orb_true_iff, !existsb_exists.
  intros [?|(v & Hv%list_elem_of_In & Hf)]; [by left|right]. exists v. split; [|done]. by apply list_elem_of_In, Hg.
Qed.

(** The hosts a binding decodes to are stable. *)
Definition binding_stable (b : BoundPolicyBinding) : Prop :=
  ∀ hosts, decode_allowed_hosts false (paramsOrEmpty (bound_Params b)) = Some hosts → Forall host_stable hosts.

Lemma applyBinding_within p b p' :
  Forall host_stable (PolicyHosts p) → binding_stable b → applyBinding p b = Ok p' →
  policy_within p' p ∧ Forall host_stable (PolicyHosts p') ∧ RuleBindings p' = RuleBindings p.
Proof.
  intros Hs Hb. unfold applyBinding. intros Ha.
  destruct (_ =? PolicyDangerousArgumentsDeny)%string.
  { destruct (decode_unit _ _); [|done]. injection Ha as <-. split; [apply policy_within_refl|done]. }
  destruct (_ =? PolicyRiskRequireApproval)%string.
  { destruct (decode_risk_levels _ _) as [levels|]; [|done]. injection Ha as <-.
    assert (∀ v, v ∈ RequireApprovalForRisk p → v ∈ appendUniqueFold (RequireApprovalForRisk p) levels) as Hg
      by (intros v; apply appendUniqueFold_grows).
    split; [|done]. split_and!; [by apply risks_grow|done|apply hosts_within_refl|apply limit_within_refl..]. }
  destruct (_ =? PolicyHostAllowlist)%string.
  { destruct (decode_allowed_hosts _ _) as [hosts|] eqn:Hd; [|done].
    pose proof (intersect_within (PolicyHosts p) hosts (DenyAllHosts p) Hs (Hb hosts Hd)) as Hi.
    destruct (intersectAllowedHosts _ _) as [allowed denyAll]. injection Ha as <-. destruct Hi as [Hi Hi'].
    split; [|done]. split_and!; [by intros m|by intros v|done|apply limit_within_refl..]. }
  destruct (_ =? PolicyExecutionLimits)%string; [|done].
  destruct (decode_limits _ _) as [[timeout output]|]; [|done]. injection Ha as <-. split; [|done].
  split_and!; [by intros m|by intros v|apply hosts_within_refl|apply minimumPositive_within..].
Qed.

Lemma applyBindings_within p bs traces p' traces' :
  Forall host_stable (PolicyHosts p) → Forall binding_stable bs →
  applyBindings p bs traces = (p', traces', None) →
  policy_within p' p ∧ RuleBindings p' = RuleBindings p ∧ traces' = traces ++ (appliedTrace <$> bs).
Proof.
  revert p traces. induction bs as [|b bs IH]; intros p traces Hs Hbs Ha.
  { simpl in Ha. simplify_eq. split_and!; [apply policy_within_refl|done|by rewrite app_nil_r]. }
  apply Forall_cons in Hbs as [Hb Hbs]. cbn [applyBindings] in Ha.
  destruct (applyBinding p b) as [p1|e] eqn:H1; [|done].
  destruct (applyBinding_within _ _ _ Hs Hb H1) as (Hw & Hs1 & Hr1).
  destruct (IH _ _ Hs1 Hbs Ha) as (Hw' & Hr' & ->).
  split_and!; [by eapply policy_within_trans|congruence|]. by rewrite fmap_cons, <- app_assoc.
Qed.

(** Evaluating the rule bindings only restricts a tool policy: whatever
    needed approval still does, every list of hosts the result allows was allowed,
    positive limits only shrink, no binding is left over, and each binding is
    traced in order. *)
Theorem rule_bindings_only_restrict policy effective traces :
  Forall host_stable (PolicyHosts policy) → Forall binding_stable (RuleBindings policy) →
  applyRuleBindings policy = (effective, traces, None) →
  policy_within effective policy ∧ RuleBindings effective = [] ∧ traces = appliedTrace <$> RuleBindings policy.
Proof.
  intros Hs Hb Ha. unfold applyRuleBindings in Ha. eapply applyBindings_within in Ha as (Hw & Hr & Ht); [|done|done].
  split_and!; [exact Hw|exact Hr|exact Ht].
Qed.

(** ** Validated rules are enforced *)

(** A rule that [validateRules] accepts has a binding the hook can evaluate. *)
Lemma valid_binding_applies r b p :
  rule_valid r → rule_PolicyBinding r = Some b →
  is_Ok (applyBinding p (mkBound (rule_ID r) (PolicyKey b) (Params b))).
Proof.
  unfold rule_valid, checkRule. intros Hv Hb.
  assert (validatePolicyBinding r = None) as Hp by (by repeat split_match_in Hv).
  unfold validatePolicyBinding in Hp. rewrite Hb in Hp.
  destruct (Strength r =? RuleMandatory)%string; [|done]. cbn [negb] in Hp.
  destruct (knownPolicy (TrimSpace (PolicyKey b))) eqn:Hk; [|done]. cbn [negb] in Hp.
  destruct ((0 <? slen (Params b)) && _ && _) eqn:Ho; [done|].
  destruct (validateTypedPolicyParams _ _) eqn:Ht; [|done].
  assert (decode_object (paramsOrEmpty (Params b)) = Some true) as Hobj.
  { unfold paramsOrEmpty. destruct ((slen (Params b) =? 0) || _) eqn:Hz; [apply decode_empty_object|].
    apply orb_false_iff in Hz as [Hz Hn]. rewrite Hn in Ho. apply Z.eqb_neq in Hz.
    assert (0 <? slen (Params b) = true) as Hpos by (apply Z.ltb_lt; unfold slen in *; lia).
    rewrite Hpos in Ho. simpl in Ho. by destruct (decode_object (Params b)) as [[]|]. }
  unfold knownPolicy in Hk. apply bool_decide_eq_true in Hk. unfold applyBinding, is_Ok, validateTypedPolicyParams in *.
  cbn [bound_PolicyKey bound_Params bound_RuleID].
  destruct (_ =? PolicyDangerousArgumentsDeny)%string eqn:E1.
  { rewrite decode_unit_lenient by done. eauto. }
  destruct (_ =? PolicyRiskRequireApproval)%string eqn:E2.
  { destruct (decode_risk_levels true _) as [v|] eqn:Hd; [|done]. rewrite (decode_risk_lenient _ v) by done. eauto. }
  destruct (_ =? PolicyHostAllowlist)%string eqn:E3.
  { destruct (decode_allowed_hosts true _) as [v|] eqn:Hd; [|done]. rewrite (decode_hosts_lenient _ v) by done.
    destruct (intersectAllowedHosts _ v). eauto. }
  destruct (_ =? PolicyExecutionLimits)%string eqn:E4.
  { destruct (decode_limits true _) as [v|] eqn:Hd; [|done]. rewrite (decode_limits_lenient _ v) by done.
    destruct v. eauto. }
  bool_prop. rewrite !elem_of_cons, elem_of_nil in Hk. naive_solver.
Qed.

Lemma valid_bindings_apply rs p traces :
  Forall rule_valid rs → ∃ p' traces', applyBindings p (PolicyBindingsForRules rs) traces = (p', traces', None).
Proof.
  intros Hv. revert p traces. induction Hv as [|r rs Hr Hrs IH]; intros p traces; [by eexists _, _|].
  unfold PolicyBindingsForRules. cbn [omap list_omap].
  destruct (rule_PolicyBinding r) as [b|] eqn:Hb; [|apply IH].
  destruct (Strength r =? RuleMandatory)%string; [|apply IH]. cbn [applyBindings].
  destruct (valid_binding_applies r b p Hr Hb) as [p1 ->]. apply IH.
Qed.

Lemma applyBinding_risks p b p' v :
  applyBinding p b = Ok p' → v ∈ RequireApprovalForRisk p → v ∈ RequireApprovalForRisk p'.
Proof.
  unfold applyBinding. intros Ha Hv. repeat split_match_in Ha; simplify_eq/=; try done.
  by apply appendUniqueFold_grows.
Qed.

Lemma applyBindings_risks p bs traces p' traces' v :
  applyBindings p bs traces = (p', traces', None) → v ∈ RequireApprovalForRisk p → v ∈ RequireApprovalForRisk p'.
Proof.
  revert p traces. induction bs as [|b bs IH]; intros p traces Ha Hv; cbn [applyBindings] in Ha; [by simplify_eq|].
  destruct (applyBinding p b) as [p1|] eqn:H1; [|done]. eapply IH; [done|]. by eapply applyBinding_risks.
Qed.

Lemma applyBindings_risk_covered p bs traces p' traces' b levels level :
  applyBindings p bs traces = (p', traces', None) → b ∈ bs →
  TrimSpace (bound_PolicyKey b) = PolicyRiskRequireApproval →
  decode_risk_levels false (paramsOrEmpty (bound_Params b)) = Some levels →
  level ∈ levels → TrimSpace level ≠ ""%string →
  ∃ v, v ∈ RequireApprovalForRisk p' ∧ EqualFold v (TrimSpace level) = true.
Proof.
  intros Ha Hb Hk Hd Hl Hne. revert p traces Ha. induction bs as [|b' bs IH]; intros p traces Ha; [by apply elem_of_nil in Hb|].
  cbn [applyBindings] in Ha. destruct (applyBinding p b') as [p1|] eqn:H1; [|done].
  apply elem_of_cons in Hb as [<- |Hb]; [|by eapply IH].
  unfold applyBinding in H1. rewrite Hk, Hd in H1. cbn in H1. injection H1 as <-.
  destruct (appendUniqueFold_covers (RequireApprovalForRisk p) levels level Hl Hne) as (v & Hv & Hf).
  exists v. split; [|done]. by eapply applyBindings_risks.
Qed.

End Restrict.

(** ** What a policy and its rule bindings say *)

Section Permitted.
Context `{UnicodeTables} `{PolicyDecoder}.

Inductive Restriction :=
| DenyDangerous
| AskFor (levels : list string)
| OnlyHosts (hosts : list string)
| LimitTo (timeoutMS outputBytes : Z).

(** [reads b r]: the key and the parameters of a binding read as the restriction [r]. *)
Definition reads (b : BoundPolicyBinding) (r : Restriction) : Prop :=
  let key := TrimSpace (bound_PolicyKey b) in
  let params := paramsOrEmpty (bound_Params b) in
  match r with
  | DenyDangerous => key = "tool.dangerous_arguments.deny"%string ∧ decode_unit false params = true
  | AskFor levels => key = "tool.risk.require_approval"%string ∧ decode_risk_levels false params = Some levels
  | OnlyHosts hosts => key = "tool.host.allowlist"%string ∧ decode_allowed_hosts false params = Some hosts
  | LimitTo timeout output => key = "tool.execution_limits"%string ∧ decode_limits false params = Some (timeout, output)
  end.

(** The fragments of a command that shell-like tools must not be given. *)
Definition deniedFragments : list string :=
  ["rm -rf /"; "rm -fr /"; "rm -rf /*"; "rm -fr /*"; "sudo rm -rf"; "mkfs."; "mkfs "; "mkswap "; "dd if="; "dd "; " of=/dev/"; ":(){"; ": () {"; "fork bomb";
   "/dev/sda"; "/dev/disk"; "/dev/nvme"; "curl "; "wget "; "| sh"; "| bash"; "bash <("; "sh <("; "bash -c"; "sh -c"; "chmod -r 777 /"; "chown -r "; "> /etc/";
   "tee /etc/"; "launchctl unload"; "systemctl disable"; "iptables -f"; "pfctl -d"; ("network_enabled" ++ String (byte_of 34) ":true");
   ("network_enabled" ++ String (byte_of 34) ": true")]%string.

(** A tool whose name holds one of four words has none of the fragments in its arguments,
    in lower case and with runs of white space as one blank. *)
Definition harmless (req : PreToolUseRequest) : Prop :=
  ∀ word fragment, word ∈ ["shell"; "sandbox"; "python"; "execute"]%string → Contains (ToLower (TrimSpace (pre_ToolName req))) word = true →
    fragment ∈ deniedFragments → Contains (Join (Fields (ToLower (pre_Arguments req))) " ") fragment = false.

(** [names hosts h]: a nonempty normal form [h] of one of the hosts. *)
Definition names (hosts : list string) (h : string) : Prop := h ≠ ""%string ∧ ∃ h', h' ∈ hosts ∧ NormalizeHost h' = h.
(** The lists of hosts in force: the policy's, unless it is empty, and those of the rules. *)
Definition inForce (p : ToolPolicy) (rs : list Restriction) (hosts : list string) : Prop :=
  (hosts = PolicyHosts p ∧ ∃ h, names hosts h) ∨ OnlyHosts hosts ∈ rs.
(** A tool without hosts, or one whose hosts are all on every list in force, where the
    lists have a host in common and hosts are not denied altogether. *)
Definition hostsPermitted (p : ToolPolicy) (rs : list Restriction) (toolHosts : list string) : Prop :=
  toolHosts = [] ∨
  (DenyAllHosts p = false ∧ (∃ h, h ≠ ""%string ∧ ∀ hosts, inForce p rs hosts → names hosts h) ∧
   ∀ t, t ∈ toolHosts → NormalizeHost t = ""%string ∨ ∀ hosts, inForce p rs hosts → names hosts (NormalizeHost t)).

(** The tool does not ask for itself, and its risk (low, when blank) is on no list. *)
Definition unasked (p : ToolPolicy) (rs : list Restriction) (m : ToolMetadata) : Prop :=
  RequiresApproval m = false ∧
  ∀ levels level, levels = RequireApprovalForRisk p ∨ AskFor levels ∈ rs → level ∈ levels →
    EqualFold (TrimSpace level) (if (TrimSpace (RiskLevel m) =? "")%string then "low" else TrimSpace (RiskLevel m)) = false.

(** The least positive of the timeouts of tool, policy and rules, when there is one. *)
Definition timeouts (p : ToolPolicy) (rs : list Restriction) (m : ToolMetadata) : list Z :=
  TimeoutMS m :: MaxToolTimeoutMS p :: omap (λ r, match r with LimitTo t _ => Some t | _ => None end) rs.
Definition runsUnder (ts : list Z) (ctx : list Z) (c : option (list Z)) : Prop :=
  (Forall (λ t, t ≤ 0) ts ∧ c = Some ctx) ∨ ∃ t, t ∈ ts ∧ 0 < t ∧ Forall (λ u, 0 < u → t ≤ u) ts ∧ c = Some (t :: ctx).

(** *** The effective policy *)

Definition restrict (p : ToolPolicy) (r : Restriction) : ToolPolicy :=
  match r with
  | DenyDangerous => p
  | AskFor levels =>
    mkToolPolicy (appendUniqueFold (RequireApprovalForRisk p) levels) (MaxToolTimeoutMS p) (MaxToolOutputBytes p) (PolicyHosts p) (RuleBindings p) (DenyAllHosts p)
  | OnlyHosts hosts =>
    let i := intersectAllowedHosts (PolicyHosts p) hosts in
    mkToolPolicy (RequireApprovalForRisk p) (MaxToolTimeoutMS p) (MaxToolOutputBytes p) i.1 (RuleBindings p) (DenyAllHosts p || i.2)
  | LimitTo timeout output =>
    mkToolPolicy (RequireApprovalForRisk p) (minimumPositive (MaxToolTimeoutMS p) timeout) (minimumPositive (MaxToolOutputBytes p) output) (PolicyHosts p)
      (RuleBindings p) (DenyAllHosts p)
  end.

Lemma applyBinding_reads p b p' : applyBinding p b = Ok p' ↔ ∃ r, reads b r ∧ p' = restrict p r.
Proof.
  unfold applyBinding, reads, PolicyDangerousArgumentsDeny, PolicyRiskRequireApproval, PolicyHostAllowlist, PolicyExecutionLimits.
  set (key := TrimSpace (bound_PolicyKey b)). set (raw := paramsOrEmpty (bound_Params b)). split.
  - intros Ha. destruct (String.eqb_spec key "tool.dangerous_arguments.deny").
    { destruct (decode_unit false raw) eqn:E; [|done]. injection Ha as <-. by exists DenyDangerous. }
    destruct (String.eqb_spec key "tool.risk.require_approval").
    { destruct (decode_risk_levels false raw) as [levels|] eqn:E; [|done]. injection Ha as <-. by exists (AskFor levels). }
    destruct (String.eqb_spec key "tool.host.allowlist").
    { destruct (decode_allowed_hosts false raw) as [hosts|] eqn:E; [|done]. exists (OnlyHosts hosts). split; [done|]. cbn [restrict].
      destruct (intersectAllowedHosts (PolicyHosts p) hosts). by injection Ha as <-. }
    destruct (String.eqb_spec key "tool.execution_limits"); [|done].
    destruct (decode_limits false raw) as [[t o]|] eqn:E; [|done]. injection Ha as <-. by exists (LimitTo t o).
  - intros (r & Hr & ->). destruct r as [|levels|hosts|t o]; destruct Hr as [-> ->]; cbn; [done..| |done]. by destruct (intersectAllowedHosts _ _).
Qed.

Lemma applyBindings_reads bs : ∀ p traces,
  (∀ p' traces', applyBindings p bs traces = (p', traces', None) → ∃ rs, Forall2 reads bs rs ∧ p' = foldl restrict p rs) ∧
  (∀ rs, Forall2 reads bs rs → ∃ traces', applyBindings p bs traces = (foldl restrict p rs, traces', None)).
Proof.
  induction bs as [|b bs IH]; intros p traces; split.
  - intros p' traces' [= <- <-]. by exists [].
  - intros rs Hrs. inversion Hrs; subst. by exists traces.
  - intros p' traces' Ha. cbn [applyBindings] in Ha. destruct (applyBinding p b) as [p1|] eqn:E; [|done].
    apply applyBinding_reads in E as (r & Hr & ->). destruct (proj1 (IH _ _) _ _ Ha) as (rs & Hrs & ->). exists (r :: rs). split; [by constructor|done].
  - intros rs Hrs. inversion Hrs as [|? r ? rs' Hr Hrs']; subst. cbn [applyBindings foldl].
    rewrite (proj2 (applyBinding_reads p b (restrict p r))) by eauto. by apply IH.
Qed.

Lemma reads_inj b r r' : reads b r → reads b r' → r = r'.
Proof. unfold reads. destruct r, r'; intros [H1 H2] [H3 H4]; congruence. Qed.
Lemma reads_all_inj bs rs rs' : Forall2 reads bs rs → Forall2 reads bs rs' → rs = rs'.
Proof.
  intros Hrs. revert rs'. induction Hrs as [|b r bs rs Hr Hrs IH]; intros rs' Hrs'; inversion Hrs'; subst; [done|]. f_equal; [by eapply reads_inj|by apply IH].
Qed.

(** *** Approval *)

Lemma appendUniqueFold_all (Q : string → Prop) values additions :
  (∀ a b, TrimSpace b = b → EqualFold a b = true → Q a → Q b) → (∀ a, Q (TrimSpace a) ↔ Q a) → (∀ a, TrimSpace a = ""%string → Q a) →
  (∀ v, v ∈ appendUniqueFold values additions → Q v) ↔ (∀ v, v ∈ values ∨ v ∈ additions → Q v).
Proof.
  intros Hf Ht He. split.
  - intros Hall v [Hv|Hv]; [by apply Hall, appendUniqueFold_grows|]. destruct (decide (TrimSpace v = ""%string)); [by apply He|].
    destruct (appendUniqueFold_covers values additions v Hv) as (v' & Hv' & E); [done|]. apply Ht. apply (Hf v'); [apply TrimSpace_idem|done|]. by apply Hall.
  - unfold appendUniqueFold. revert values. induction additions as [|a additions IH]; intros values Hall v; cbn [foldl]; [intros ?; apply Hall; by left|].
    apply IH. intros u [Hu|Hu]; [|apply Hall; right; by right]. repeat case_match; [apply Hall; by left..|].
    apply elem_of_app in Hu as [Hu|Hu%list_elem_of_singleton]; [apply Hall; by left|]. subst u. apply Ht, Hall. right. left.
Qed.

Lemma unasked_step p r rs m : unasked (restrict p r) rs m ↔ unasked p (r :: rs) m.
Proof.
  unfold unasked. apply and_iff_compat_l. set (risk := if (_ =? "")%string then _ else _).
  assert (risk ≠ ""%string) as Hne by (subst risk; by destruct (String.eqb_spec (TrimSpace (RiskLevel m)) "")). clearbody risk.
  setoid_rewrite elem_of_cons. destruct r as [|levels|hosts|t o]; cbn [restrict RequireApprovalForRisk]; [naive_solver| |naive_solver..].
  pose proof (appendUniqueFold_all (λ l, EqualFold (TrimSpace l) risk = false) (RequireApprovalForRisk p) levels) as Hall.
  destruct Hall as [Hall1 Hall2].
  - intros a b Hb E Ha. apply not_true_iff_false. intros E'. rewrite Hb in E'. pose proof (EqualFold_trimmed _ _ E Hb) as Hta. rewrite Hta in Ha.
    by rewrite (EqualFold_trans _ _ _ E E') in Ha.
  - intros a. by rewrite TrimSpace_idem.
  - intros a ->. apply not_true_iff_false. unfold EqualFold. rewrite bool_decide_eq_true. intros E. destruct risk as [|c risk]; [done|]. unfold runes, segments in E.
    cbn [bytes String.list_ascii_of_string length segments_fuel] in E. by destruct (decode_rune _).
  - split.
    + intros Hr ls level [->|[[= ->]|Hin]] Hl; [apply Hall1; [|by left]|apply Hall1; [|by right]|by apply (Hr ls); [right|]]; intros v Hv; (eapply Hr; [by left|done]).
    + intros Hr ls level [->|Hin] Hl; [|by apply (Hr ls); [right; right|]]. apply Hall2; [|done]. intros v [Hv|Hv]; [eapply Hr; [by left|done]|].
      apply (Hr levels); [by right; left|done].
Qed.

Lemma unasked_none p m : unasked p [] m ↔ requires_approval p m = false.
Proof.
  unfold unasked, requires_approval, ShouldRequireApprovalForRisk, RiskLow. cbn [snd]. rewrite orb_false_iff. apply and_iff_compat_l.
  rewrite <- not_true_iff_false, existsb_exists. split.
  - intros Hall (level & Hl%list_elem_of_In & E). rewrite (Hall _ level (or_introl eq_refl) Hl) in E. done.
  - intros Hno levels level [->|[]%elem_of_nil] Hl. apply not_true_iff_false. intros E. apply Hno. exists level. split; [by apply list_elem_of_In|done].
Qed.

(** *** Hosts *)

Lemma names_iff hosts h : names hosts h ↔ h ∈ NormalizeHosts hosts.
Proof. unfold names. rewrite elem_of_NormalizeHosts. naive_solver. Qed.

Lemma names_stable hosts h : Forall host_stable hosts → names (NormalizeHosts hosts) h ↔ names hosts h.
Proof.
  intros Hs. pose proof (NormalizeHosts_stable _ Hs) as Hn. split.
  - intros (Hne & h' & Hh' & <-). rewrite (proj1 (Hn _ Hh')). by apply names_iff.
  - intros Hh%names_iff. destruct (Hn _ Hh). split; [done|]. by exists h.
Qed.

(** The hosts after a list was intersected. *)
Lemma intersect_names current constraint h : Forall host_stable current → Forall host_stable constraint →
  (NormalizeHosts current = [] → names (intersectAllowedHosts current constraint).1 h ↔ names constraint h) ∧
  (NormalizeHosts current ≠ [] → names (intersectAllowedHosts current constraint).1 h ↔ names current h ∧ names constraint h).
Proof.
  intros Hc Hk. pose proof (NormalizeHosts_stable _ Hc) as Hcs. unfold intersectAllowedHosts. split.
  - intros E. rewrite E. by apply names_stable.
  - intros Hne. rewrite (names_iff current), (names_iff constraint). destruct (NormalizeHosts current) as [|l ls] eqn:El; [done|].
    destruct (NormalizeHosts constraint) as [|r rs] eqn:Er; cbn [fst].
    { split; [by intros (_ & ? & ?%elem_of_nil & _)|by intros [_ ?%elem_of_nil]]. }
    set (right := r :: rs) in *. unfold names. setoid_rewrite list_elem_of_filter. split.
    + intros (Hh & h' & [Hr Hl] & <-). by rewrite (proj1 (Hcs h' Hl)).
    + intros [Hl Hr]. destruct (Hcs h Hl). split; [done|]. by exists h.
Qed.

Lemma intersect_deny current constraint : (intersectAllowedHosts current constraint).2 = true ↔ (intersectAllowedHosts current constraint).1 = [].
Proof.
  assert (∀ l : list string, (length l =? 0)%nat = true ↔ l = []) as Hl by (by intros []).
  unfold intersectAllowedHosts. destruct (NormalizeHosts current); [apply Hl|]. destruct (NormalizeHosts constraint); [done|]. apply Hl.
Qed.

Lemma intersect_stable current constraint : Forall host_stable current → Forall host_stable constraint →
  Forall host_stable (intersectAllowedHosts current constraint).1.
Proof.
  intros Hc Hk. pose proof (intersect_within current constraint false Hc Hk) as Hi. by destruct (intersectAllowedHosts _ _), Hi.
Qed.

Lemma hostsPermitted_none p toolHosts :
  hostsPermitted p [] toolHosts ↔ ValidateAllowedHosts toolHosts (PolicyHosts p) (DenyAllHosts p) = None.
Proof.
  rewrite ValidateAllowedHosts_none. unfold hostsPermitted. apply or_iff_compat_l, and_iff_compat_l.
  assert (∀ hosts, inForce p [] hosts ↔ hosts = PolicyHosts p ∧ NormalizeHosts hosts ≠ []) as Hf.
  { intros hosts. unfold inForce. rewrite elem_of_nil. setoid_rewrite names_iff. destruct (NormalizeHosts hosts) as [|h hs] eqn:E.
    - split; [intros [[_ (h & ?%elem_of_nil)]|[]]; done|by intros [_ ?]].
    - split; [naive_solver|]. intros [-> _]. left. split; [done|]. exists h. left. }
  setoid_rewrite Hf. setoid_rewrite names_iff. destruct (NormalizeHosts (PolicyHosts p)) as [|h hs] eqn:E.
  - split; [by left|]. intros _. split; [exists "x"%string; naive_solver|]. intros t _. right. intros ? [-> ?]. done.
  - split.
    + intros [_ Hall]. right. intros t Ht. destruct (Hall t Ht) as [?|Hn]; [by left|right]. rewrite <- E. apply (Hn _). by rewrite E.
    + intros [?|Hall]; [done|]. split.
      * exists h. split; [|intros ? [-> _]; rewrite E; left]. assert (h ∈ NormalizeHosts (PolicyHosts p)) as Hin by (rewrite E; left).
        by apply elem_of_NormalizeHosts in Hin as [? _].
      * intros t Ht. destruct (Hall t Ht) as [?|?]; [by left|right]. intros ? [-> _]. by rewrite E.
Qed.

Lemma inForce_other p p' r rs : PolicyHosts p' = PolicyHosts p → (∀ hosts, r ≠ OnlyHosts hosts) → ∀ hosts, inForce p' rs hosts ↔ inForce p (r :: rs) hosts.
Proof. intros E Hr hosts. unfold inForce. rewrite E, elem_of_cons. naive_solver. Qed.

Lemma restricting_iff hosts : (∃ h, names hosts h) ↔ NormalizeHosts hosts ≠ [].
Proof.
  setoid_rewrite names_iff. destruct (NormalizeHosts hosts) as [|h hs]; split; try done; [by intros (? & ?%elem_of_nil)|]. intros _. exists h. left.
Qed.

(** A host on every list in force, before and after a list was intersected. *)
Lemma inForce_step p constraint rs h : Forall host_stable (PolicyHosts p) → Forall host_stable constraint →
  (∀ hosts, inForce p (OnlyHosts constraint :: rs) hosts → names hosts h) ↔
  names (intersectAllowedHosts (PolicyHosts p) constraint).1 h ∧ (∀ hosts, OnlyHosts hosts ∈ rs → names hosts h).
Proof.
  intros Hp Hc. destruct (intersect_names (PolicyHosts p) constraint h Hp Hc) as [H1 H2]. unfold inForce. setoid_rewrite elem_of_cons.
  setoid_rewrite restricting_iff. destruct (decide (NormalizeHosts (PolicyHosts p) = [])) as [E|E].
  - rewrite (H1 E). naive_solver.
  - rewrite (H2 E). split; [naive_solver|]. intros [[Ha Hb] Hrs] hosts [[-> _]|[[= ->]|Hin]]; [done|done|by apply Hrs].
Qed.

Lemma intersect_member current constraint : Forall host_stable current → Forall host_stable constraint →
  ∀ h, h ∈ (intersectAllowedHosts current constraint).1 → names (intersectAllowedHosts current constraint).1 h.
Proof.
  intros Hc Hk h Hh. pose proof (NormalizeHosts_stable _ Hc h) as H1. pose proof (NormalizeHosts_stable _ Hk h) as H2.
  assert (NormalizeHost h = h ∧ h ≠ ""%string) as [? ?].
  { unfold intersectAllowedHosts in Hh. destruct (NormalizeHosts current) as [|l ls]; [by apply H2|].
    destruct (NormalizeHosts constraint) as [|r rs]; cbn [fst] in Hh; [by apply elem_of_nil in Hh|]. apply list_elem_of_filter in Hh as [_ Hh]. by apply H1. }
  split; [done|]. by exists h.
Qed.

Lemma hostsPermitted_other p p' r rs toolHosts : PolicyHosts p' = PolicyHosts p → DenyAllHosts p' = DenyAllHosts p → (∀ hosts, r ≠ OnlyHosts hosts) →
  hostsPermitted p' rs toolHosts ↔ hostsPermitted p (r :: rs) toolHosts.
Proof.
  intros E Ed Hr. pose proof (inForce_other p p' r rs E Hr) as Hf. unfold hostsPermitted. rewrite Ed. by setoid_rewrite Hf.
Qed.

Lemma hostsPermitted_step p r rs toolHosts : Forall host_stable (PolicyHosts p) → (∀ hosts, r = OnlyHosts hosts → Forall host_stable hosts) →
  hostsPermitted (restrict p r) rs toolHosts ↔ hostsPermitted p (r :: rs) toolHosts.
Proof.
  intros Hp Hr. destruct r as [|levels|constraint|t o]; [by apply hostsPermitted_other..| |by apply hostsPermitted_other].
  specialize (Hr _ eq_refl). unfold hostsPermitted. apply or_iff_compat_l. setoid_rewrite (inForce_step p constraint rs); [|done..].
  cbn [restrict DenyAllHosts]. pose proof (intersect_deny (PolicyHosts p) constraint) as Hd. pose proof (intersect_stable _ _ Hp Hr) as Hs.
  pose proof (λ h, intersect_names (PolicyHosts p) constraint h Hp Hr) as Hn. rewrite orb_false_iff, <- (not_true_iff_false (intersectAllowedHosts _ _).2), Hd.
  pose proof (intersect_member _ _ Hp Hr) as Hm. unfold inForce. cbn [PolicyHosts]. set (allowed := (intersectAllowedHosts _ _).1) in *. 
  destruct (decide (NormalizeHosts allowed = [])) as [E|E].
  - assert (∀ h, ¬ names allowed h) as Hno by (intros h Hh%names_iff; rewrite E in Hh; by apply elem_of_nil in Hh).
    assert (allowed = []) as Hnil.
    { destruct allowed as [|a al] eqn:Ea; [done|]. exfalso. apply (Hno a), Hm. left. }
    naive_solver.
  - assert (allowed ≠ []) as Hne by (by intros ->).
    assert (∀ h, (∀ hosts, (hosts = allowed ∧ ∃ h, names hosts h) ∨ OnlyHosts hosts ∈ rs → names hosts h) ↔ names allowed h ∧ (∀ hosts, OnlyHosts hosts ∈ rs → names hosts h)) as Ha.
    { intros h. setoid_rewrite restricting_iff. split; [naive_solver|]. intros [? ?] hosts [[-> _]|?]; auto. }
    setoid_rewrite Ha. tauto.
Qed.

(** *** Timeouts *)

Lemma runsUnder_step ts a c rest : (∀ ctx k, runsUnder (ts :: minimumPositive a c :: rest) ctx k ↔ runsUnder (ts :: a :: c :: rest) ctx k).
Proof.
  intros ctx k. unfold runsUnder. setoid_rewrite Forall_cons. setoid_rewrite Forall_cons. setoid_rewrite Forall_cons. setoid_rewrite elem_of_cons.
  setoid_rewrite elem_of_cons. setoid_rewrite elem_of_cons. unfold minimumPositive.
  destruct (Z.leb_spec c 0); [|destruct (Z.leb_spec a 0); [|destruct (Z.ltb_spec c a)]]; cbn [orb]; naive_solver lia.
Qed.

Lemma runsUnder_none p m ctx k :
  runsUnder (timeouts p [] m) ctx k ↔
  k = Some (let limit := EffectiveLimit (TimeoutMS m) (MaxToolTimeoutMS p) in if limit <=? 0 then ctx else limit :: ctx).
Proof.
  unfold runsUnder, timeouts, EffectiveLimit. cbn [omap list_omap]. setoid_rewrite Forall_cons. setoid_rewrite Forall_singleton. setoid_rewrite elem_of_cons.
  setoid_rewrite list_elem_of_singleton. generalize (TimeoutMS m) (MaxToolTimeoutMS p). intros a b. cbv zeta.
  set (limit := if _ && _ then b else a).
  assert (limit ≤ 0 ∧ a ≤ 0 ∧ b ≤ 0 ∨ 0 < limit ∧ (limit = a ∨ limit = b) ∧ (0 < a → limit ≤ a) ∧ (0 < b → limit ≤ b)) as Hl.
  { subst limit. destruct (Z.ltb_spec 0 b); [destruct (Z.leb_spec a 0); [|destruct (Z.ltb_spec b a)]|]; cbn [andb orb]; lia. }
  clearbody limit. destruct (Z.leb_spec limit 0) as [Hle|Hgt]; split.
  - intros [[_ ->]|(t & Ht & Hpos & _)]; [done|lia].
  - intros ->. left. split; [lia|done].
  - intros [[? _]|(t & Ht & Hpos & [Ha Hb] & ->)]; [lia|]. do 2 f_equal. destruct Ht as [-> | ->]; lia.
  - intros ->. destruct Hl as [?|(? & ? & ? & ?)]; [lia|]. right. exists limit. done.
Qed.

(** *** All the rules *)

Lemma restrict_all rs m toolHosts ctx k : (∀ hosts, OnlyHosts hosts ∈ rs → Forall host_stable hosts) → ∀ p, Forall host_stable (PolicyHosts p) →
  let eff := foldl restrict p rs in
  (requires_approval eff m = false ↔ unasked p rs m) ∧
  (ValidateAllowedHosts toolHosts (PolicyHosts eff) (DenyAllHosts eff) = None ↔ hostsPermitted p rs toolHosts) ∧
  (k = Some (let limit := EffectiveLimit (TimeoutMS m) (MaxToolTimeoutMS eff) in if limit <=? 0 then ctx else limit :: ctx) ↔ runsUnder (timeouts p rs m) ctx k).
Proof.
  induction rs as [|r rs IH]; intros Hrs p Hp; cbn [foldl]; cbv zeta.
  { split_and!; symmetry; [apply unasked_none|apply hostsPermitted_none|apply runsUnder_none]. }
  assert (∀ hosts, r = OnlyHosts hosts → Forall host_stable hosts) as Hr by (intros hosts ->; apply Hrs; left).
  assert (Forall host_stable (PolicyHosts (restrict p r))) as Hp'.
  { destruct r; cbn; try done. apply intersect_stable; [done|by apply Hr]. }
  destruct (IH (λ hosts Hin, Hrs hosts (list_elem_of_further _ _ _ Hin)) _ Hp') as (H1 & H2 & H3). rewrite H1, H2, H3.
  split_and!; [apply unasked_step|by apply hostsPermitted_step|]. unfold timeouts. destruct r; cbn [restrict MaxToolTimeoutMS omap list_omap]; try done.
  apply runsUnder_step.
Qed.

Lemma harmless_iff req :
  harmless req ↔ (guardedTool (pre_ToolName req) = true → ∀ p, p ∈ dangerousPatterns → Contains (dangerPayload (pre_Arguments req)) p = false).
Proof.
  assert (∀ p, p ∈ dangerousPatterns ↔ p ∈ deniedFragments) as Hp.
  { assert (Forall (λ p, p ∈ deniedFragments) dangerousPatterns ∧ Forall (λ p, p ∈ dangerousPatterns) deniedFragments) as [Ha Hb]
      by (apply (bool_decide_unpack _); by vm_compute). rewrite Forall_forall in Ha, Hb. naive_solver. }
  unfold harmless, dangerPayload, guardedTool. rewrite !orb_true_iff. set (name := ToLower (TrimSpace (pre_ToolName req))). clearbody name. split.
  - intros Hh Hg f Hf%Hp. destruct Hg as [[[Hg|Hg]|Hg]|Hg]; (eapply Hh; [|exact Hg|exact Hf]); rewrite !elem_of_cons; tauto.
  - intros Hh word f Hw Hg Hf%Hp. apply Hh; [|done]. rewrite !elem_of_cons, elem_of_nil in Hw. destruct Hw as [-> |[-> |[-> |[-> |[]]]]]; tauto.
Qed.
End Permitted.

Section Enforcement.
Context `{UnicodeTables} `{PolicyDecoder}.
Context (decode_approval_args : string → option (string * string)).

#[local] Notation before ctx req := (BeforeToolUse (DefaultPre decode_approval_args) ctx req).

(** The default chain is the policy hook. *)
Lemma default_pre ctx req :
  let h := PolicyPreToolUseHook decode_approval_args ctx req in
  pre_Approval (before ctx req) = pre_Approval h ∧
  (pre_Denied (before ctx req) = match pre_Approval h with Some _ => None | None => pre_Denied h end) ∧
  pre_Context (before ctx req) = Some (default ctx (pre_Context h)).
Proof.
  unfold BeforeToolUse, DefaultPre, runPre. cbn [st_ctx st_cancel st_traces].
  destruct (PolicyPreToolUseHook _ ctx req) as [c k [a|] [d|] t]; by destruct c.
Qed.

(** A mandatory rule that requires approval for a risk level is enforced:
    when a run's policy carries the bindings of a validated rule list, the hook
    chain never lets a tool of that risk run without asking; it asks or denies,
    whatever the other rules and the base policy say. *)
Theorem risk_rule_enforced rs r b levels level ctx req :
  Forall rule_valid rs → r ∈ rs → rule_PolicyBinding r = Some b → Strength r = RuleMandatory →
  TrimSpace (PolicyKey b) = PolicyRiskRequireApproval →
  decode_risk_levels false (paramsOrEmpty (Params b)) = Some levels → level ∈ levels → TrimSpace level ≠ ""%string →
  RuleBindings (pre_Policy req) = PolicyBindingsForRules rs →
  EqualFold (TrimSpace level) (or_default (TrimSpace (RiskLevel (pre_Metadata req))) RiskLow) = true →
  is_Some (pre_Approval (before ctx req)) ∨ is_Some (pre_Denied (before ctx req)).
Proof.
  intros Hv Hr Hb Hs Hk Hd Hl Hne Hpol Hrisk. destruct (default_pre ctx req) as (-> & -> & _).
  unfold PolicyPreToolUseHook, applyRuleBindings. rewrite Hpol.
  set (p0 := mkToolPolicy _ _ _ _ _ _). destruct (valid_bindings_apply rs p0 [] Hv) as (p' & traces & Ha). rewrite Ha.
  assert (mkBound (rule_ID r) (PolicyKey b) (Params b) ∈ PolicyBindingsForRules rs) as Hin.
  { unfold PolicyBindingsForRules. apply list_elem_of_omap. exists r. split; [done|].
    by rewrite Hb, Hs, String.eqb_refl. }
  destruct (applyBindings_risk_covered _ _ _ _ _ _ levels level Ha Hin Hk Hd Hl Hne) as (v & Hv' & Hf).
  assert (TrimSpace v = v) as Htrim by (eapply EqualFold_trimmed; [done|apply TrimSpace_idem]).
  cbv zeta. destruct (negb _); [by right|]. destruct (ValidateAllowedHosts _ _ _) as [[h|]|]; [by right|by right|].
  assert (requires_approval p' (pre_Metadata req) = true) as Hreq.
  { unfold requires_approval, ShouldRequireApprovalForRisk. cbn [snd]. apply orb_true_iff. right.
    apply existsb_exists. exists v. split; [by apply list_elem_of_In|]. rewrite Htrim.
    by eapply EqualFold_trans. }
  unfold requiredApproval. cbn [pre_Metadata set_Policy pre_Policy]. unfold requires_approval in Hreq.
  destruct (ShouldRequireApprovalForRisk _ _ _) as [risk required]. simpl in Hreq. subst required. by left.
Qed.

Lemma list_find_none_iff {A} (P : A → Prop) `{!∀ x, Decision (P x)} l :
  list_find P l = None ↔ ∀ x, x ∈ l → ¬ P x.
Proof. rewrite list_find_None, Forall_forall. done. Qed.

Lemma patterns_nonempty p : p ∈ dangerousPatterns → p ≠ ""%string ∧ Contains "" p = false.
Proof.
  assert (Forall (λ p, p ≠ ""%string ∧ Contains "" p = false) dangerousPatterns) as Hf.
  { repeat constructor; by vm_compute. }
  rewrite Forall_forall in Hf. apply Hf.
Qed.

Lemma ToLower_empty : ToLower "" = ""%string.
Proof. done. Qed.

Lemma dangerous_none req :
  dangerousToolArgumentReason req = ""%string ↔
  (guardedTool (pre_ToolName req) = true → ∀ p, p ∈ dangerousPatterns → Contains (dangerPayload (pre_Arguments req)) p = false).
Proof.
  unfold dangerousToolArgumentReason.
  destruct (String.eqb_spec (ToLower (TrimSpace (pre_ToolName req))) "") as [He|Hne]; cbn [orb].
  { split; [|done]. intros _ Hg. unfold guardedTool in Hg. rewrite He in Hg. by vm_compute in Hg. }
  destruct (Z.eqb_spec (slen (pre_Arguments req)) 0) as [Hz|Hz].
  { split; [|done]. intros _ _ p Hp. destruct (pre_Arguments req); [|done].
    change (dangerPayload "") with ""%string. by apply patterns_nonempty. }
  destruct (guardedTool (pre_ToolName req)); cbn [negb]; [|done].
  destruct (String.eqb_spec (dangerPayload (pre_Arguments req)) "") as [Hp|Hp].
  { split; [|done]. intros _ _ p Hin. rewrite Hp. by apply patterns_nonempty. }
  destruct (list_find _ dangerousPatterns) as [[i p]|] eqn:Hf.
  - apply list_find_Some in Hf as (Hi & Hc & _). apply list_elem_of_lookup_2 in Hi.
    split; [intros ->; by destruct (patterns_nonempty _ Hi)|]. intros Hall. rewrite (Hall eq_refl p Hi) in Hc. done.
  - rewrite list_find_none_iff in Hf. split; [|done]. intros _ _ p Hin. apply not_true_iff_false. by apply Hf.
Qed.

(** C31. The default chain lets a tool run, neither denying it nor asking, in exactly one
    situation: every rule binding reads as a restriction; a tool whose name has shell,
    sandbox, python or execute in it has no denied fragment in its arguments (case and
    spacing ignored), other tools may; every host of the tool is on the policy's list and
    on that of every rule, which have a host in common, unless the tool names no host; and
    the tool asks for no approval and its risk is on no list of policy or rules.  It then
    runs under the least positive timeout among the tool's, the policy's and the rules',
    or under none.  The hosts of policy and rules are ones that normalization leaves in
    normal form: all names and IPv4 addresses. *)
Theorem pre_hook_allows_iff ctx req :
  Forall host_stable (PolicyHosts (pre_Policy req)) → Forall binding_stable (RuleBindings (pre_Policy req)) →
  let p := pre_Policy req in
  let m := pre_Metadata req in
  let permitted rs := Forall2 reads (RuleBindings p) rs ∧ harmless req ∧ hostsPermitted p rs (AllowedHosts m) ∧ unasked p rs m in
  (pre_Approval (before ctx req) = None ∧ pre_Denied (before ctx req) = None ↔ ∃ rs, permitted rs) ∧
  (∀ rs, permitted rs → runsUnder (timeouts p rs m) ctx (pre_Context (before ctx req))).
Proof.
  intros Hs Hb p m permitted. destruct (default_pre ctx req) as (-> & -> & ->). unfold PolicyPreToolUseHook, applyRuleBindings. fold p. fold m.
  set (p0 := mkToolPolicy _ _ _ _ [] _). destruct (applyBindings_reads (RuleBindings p) p0 []) as [Hget Hput].
  assert (∀ rs, Forall2 reads (RuleBindings p) rs → ∀ hosts, OnlyHosts hosts ∈ rs → Forall host_stable hosts) as Hst.
  { intros rs Hrs hosts Hin. apply list_elem_of_lookup in Hin as [i Hi]. destruct (Forall2_lookup_r _ _ _ _ _ Hrs Hi) as (b & Hbi & _ & Hd).
    rewrite Forall_lookup in Hb. by apply (Hb i b). }
  destruct (applyBindings p0 (RuleBindings p) []) as [[eff traces] [e|]] eqn:Ha.
  { split; [split; [by intros []|]|]; [intros (rs & Hrs & _)|intros rs (Hrs & _)]; destruct (Hput rs Hrs) as [? [=]]. }
  destruct (Hget _ _ eq_refl) as (rs & Hrs & Heff).
  assert ((∃ rs', permitted rs') ↔ permitted rs) as Hperm.
  { split; [|by exists rs]. intros (rs' & Hp'). by rewrite (reads_all_inj _ _ _ Hrs (proj1 Hp')). }
  rewrite Hperm. clear Hperm.
  assert (∀ k, _) as Hall by exact (λ k, restrict_all rs m (AllowedHosts m) ctx k (Hst rs Hrs) p0 Hs). rewrite <- Heff in Hall.
  destruct (Hall None) as (Hask & Hhost & _). change (unasked p0) with (unasked p) in Hask. change (hostsPermitted p0) with (hostsPermitted p) in Hhost.
  assert (∀ rs', permitted rs' → permitted rs ∧ rs' = rs) as Hsame.
  { intros rs' Hp'. rewrite (reads_all_inj _ _ _ Hrs (proj1 Hp')) in *. done. }
  unfold permitted at 1. rewrite <- Hask, <- Hhost, harmless_iff.
  pose proof (dangerous_none (set_Policy eff req)) as Hdn. cbn [set_Policy pre_ToolName pre_Arguments] in Hdn. rewrite <- Hdn.
  destruct (String.eqb_spec (dangerousToolArgumentReason (set_Policy eff req)) "") as [Hd|Hd]; cbn [negb].
  2: { split; [split; [by intros []|]; by intros (_ & ? & _)|]. intros rs' Hp'. destruct (Hsame rs' Hp') as [(_ & Hh & _) _]. rewrite harmless_iff in Hh. by destruct Hd; apply Hdn. }
  cbn [set_Policy pre_Metadata]. fold m. destruct (ValidateAllowedHosts (AllowedHosts m) _ _) as [[h|]|] eqn:Hh.
  1-2: split; [split; [by intros []|]; by intros (_ & _ & ? & _)|]; intros rs' Hp'; destruct (Hsame rs' Hp') as [(_ & _ & Hno & _) _]; apply Hhost in Hno; congruence.
  assert (∀ rs', permitted rs' → requires_approval eff m = false ∧ rs' = rs) as Hsame'.
  { intros rs' Hp'. destruct (Hsame rs' Hp') as [(_ & _ & _ & ?%Hask) ?]. done. }
  unfold requiredApproval, requires_approval in *. cbn [set_Policy pre_Metadata pre_Policy]. fold m.
  destruct (ShouldRequireApprovalForRisk _ _ _) as [risk [|]] eqn:Hr; cbn [negb snd].
  { split; [split; [by intros []|]; by intros (_ & _ & _ & ?)|]. intros rs' Hp'. by destruct (Hsame' rs' Hp'). }
  split; [split; [done|]; intros _; by destruct (EffectiveLimit _ _ <=? 0)|].
  intros rs' Hp'. destruct (Hsame' rs' Hp') as [_ ->]. change (timeouts p) with (timeouts p0). apply Hall. cbv zeta. by destruct (EffectiveLimit _ _ <=? 0).
Qed.

End Enforcement.

(** ** After the tool *)

Section Observation.
Context (marshal_string : string → string).
Context (decode_map : string → option (option (list (string * json)))).
Context (marshal_map : option (list (string * json)) → option string).

#[local] Notation after req := (AfterToolUse (DefaultPost marshal_string decode_map marshal_map) req).

Definition sensitiveFields (req : PostToolUseRequest) : list string :=
  match post_SensitiveFields req with [] => DefaultSensitiveFields | fs => fs end.

Lemma redactField_lookup f g m :
  lookup_field f (redactField g m) =
  if bool_decide (f = g) then (λ _, JStr "[REDACTED]") <$> lookup_field f m else lookup_field f m.
Proof.
  induction m as [|[k v] m IH]; simpl; [by case_bool_decide|].
  destruct (String.eqb_spec k g) as [-> |Hkg]; simpl.
  - destruct (String.eqb_spec g f) as [-> |Hgf]; simpl; [by rewrite bool_decide_eq_true_2|apply IH].
  - destruct (String.eqb_spec k f) as [-> |Hkf]; simpl; [by rewrite bool_decide_eq_false_2|apply IH].
Qed.

(** After redaction every sensitive field that was present holds the marker, and
    every other field is unchanged. *)
Lemma redactMap_lookup fields m f :
  lookup_field f (redactMap fields m) =
  if bool_decide (f ∈ fields) then (λ _, JStr "[REDACTED]") <$> lookup_field f m else lookup_field f m.
Proof.
  unfold redactMap. revert m. induction fields as [|g fields IH]; intros m; cbn [foldl].
  { case_bool_decide as Hf; [by apply elem_of_nil in Hf|done]. }
  rewrite IH, redactField_lookup. 
  destruct (bool_decide_reflect (f ∈ fields)), (bool_decide_reflect (f = g)),
    (bool_decide_reflect (f ∈ g :: fields)) as [Hc|Hc]; rewrite elem_of_cons in Hc;
    destruct (lookup_field f m); simpl; try done; naive_solver.
Qed.

Lemma slen_take n s : 0 ≤ n ≤ slen s → slen (str_take (Z.to_nat n) s) = n.
Proof.
  unfold slen, str_take. intros Hn. rewrite <- (length_bytes (of_bytes _)), bytes_of_bytes, length_take, length_bytes. lia.
Qed.

Lemma truncate_bounded value maxBytes suffix :
  0 < maxBytes → slen (TruncateWithSuffixFlag value maxBytes suffix).1 ≤ maxBytes + slen suffix.
Proof.
  intros Hm. unfold TruncateWithSuffixFlag. destruct ((maxBytes <=? 0) || (slen value <=? maxBytes)) eqn:E; simpl.
  - bool_prop. unfold slen in *. destruct E; lia.
  - bool_prop. rewrite slen_app, slen_take by lia. lia.
Qed.

(** The body that is shown: the redacted JSON when the text was the JSON. *)
Definition shownContent (req : PostToolUseRequest) (redacted : string) : string :=
  if bool_decide (redacted ≠ post_OutputJSON req ∧ TrimSpace (post_Content req) = TrimSpace (post_OutputJSON req))
  then redacted else post_Content req.

(** After a tool that returned a JSON object, its JSON is marshalled again
    from an object in which every sensitive field holds the redaction marker and
    every other field is unchanged; a text that merely repeats the JSON is
    replaced by the redacted one.  Without a positive limit they are passed on as
    they are; with one the text has at most that many bytes and the truncation
    marker, and the limit is never above the policy's. *)
Theorem output_redacted_and_bounded req m out :
  decode_map (post_OutputJSON req) = Some (Some m) → post_OutputJSON req ≠ ""%string →
  marshal_map (Some (redactMap (sensitiveFields req) m)) = Some out → out ≠ ""%string →
  let limit := EffectiveLimit (MaxOutputBytes (post_Metadata req)) (MaxToolOutputBytes (post_Policy req)) in
  (∀ f, lookup_field f (redactMap (sensitiveFields req) m) =
     if bool_decide (f ∈ sensitiveFields req) then (λ _, JStr "[REDACTED]") <$> lookup_field f m else lookup_field f m) ∧
  (limit ≤ 0 → out_OutputJSON (after req) = out ∧ out_Content (after req) = shownContent req out) ∧
  (0 < limit →
     out_Content (after req) = TruncateWithSuffix (shownContent req out) limit truncatedSuffix ∧
     slen (out_Content (after req)) ≤ limit + slen truncatedSuffix ∧
     (0 < MaxToolOutputBytes (post_Policy req) → limit ≤ MaxToolOutputBytes (post_Policy req))).
Proof.
  intros Hd Hj Hm Ho limit. split; [intros f; apply redactMap_lookup|].
  assert (RedactSensitiveFields decode_map marshal_map (post_OutputJSON req) (sensitiveFields req) = out) as Hr.
  { unfold RedactSensitiveFields. rewrite Hd.
    assert ((length (sensitiveFields req) =? 0)%nat = false) as ->.
    { unfold sensitiveFields. by destruct (post_SensitiveFields req). }
    assert (slen (post_OutputJSON req) =? 0 = false) as ->.
    { apply Z.eqb_neq. destruct (post_OutputJSON req); [done|]. unfold slen. simpl. lia. }
    simpl. by rewrite Hm. }
  assert (after req = let r := ObservationPostToolUseHook marshal_string decode_map marshal_map req in
                      mkPostResult (out_Content r) (out_OutputJSON r) (out_Compressed r) (out_Traces r)) as -> by done.
  unfold ObservationPostToolUseHook. change (match post_SensitiveFields req with [] => _ | _ => _ end) with (sensitiveFields req).
  rewrite Hr. fold limit.
  assert ((if (0 <? slen out) && negb (out =? post_OutputJSON req)%string &&
             (TrimSpace (post_Content req) =? TrimSpace (post_OutputJSON req))%string
          then out else post_Content req) = shownContent req out) as ->.
  { assert (0 <? slen out = true) as -> by (apply Z.ltb_lt; destruct out; [done|unfold slen; simpl; lia]).
    unfold shownContent. destruct (String.eqb_spec out (post_OutputJSON req)),
      (String.eqb_spec (TrimSpace (post_Content req)) (TrimSpace (post_OutputJSON req))); case_bool_decide; naive_solver. }
  split.
  - intros Hl. rewrite (proj2 (Z.leb_le limit 0) Hl). done.
  - intros Hl. rewrite (proj2 (Z.leb_gt limit 0) Hl). pose proof (truncate_bounded (shownContent req out) limit truncatedSuffix Hl) as Hb.
    unfold TruncateWithSuffix. destruct (TruncateWithSuffixFlag _ _ _) as [c1 f1].
    destruct (TruncateRawJSONWithSuffix _ _ _ _) as [c2 f2]. simpl in *. split_and!; [done|done|].
    intros Hp. subst limit. unfold EffectiveLimit in *. repeat case_match; bool_prop; lia.
Qed.

End Observation.

(** ** IPv6 addresses *)

(** [NormalizeHost] cuts at the last colon, which is part of an IPv6
    address: a tool bound to one bare address passes an allowlist that names
    another one; and because hosts are normalized a second time after a rule's
    allowlist was applied, a rule that allows exactly the host of the policy and
    of the tool denies it. *)
Theorem ipv6_hosts_confused :
  let _ := AsciiTables in
  ValidateAllowedHosts ["fe80::2"] ["fe80::1"] false = None ∧
  ValidateAllowedHosts ["[::1]:8080"] ["[::1]:8080"] false = None ∧
  (let '(allowed, denyAll) := intersectAllowedHosts ["[::1]:8080"] ["[::1]:8080"] in
   ValidateAllowedHosts ["[::1]:8080"] allowed denyAll = Some (Some "[::1]")).
Proof. by vm_compute. Qed.

(** ** Witnesses *)

Definition sample_policy : ToolPolicy :=
  mkToolPolicy ["medium"] 5000 0 ["api.example.com"; "db.internal"]
    [mkBound "r.hosts" " tool.host.allowlist " "{allowed_hosts: [api.example.com]}";
     mkBound "r.limits" "tool.execution_limits" "{max_tool_timeout_ms: 1000}"]%string false.

Lemma rule_bindings_only_restrict_witness :
  let _ := AsciiTables in let _ := sample_decoder in
  ∃ effective traces, applyRuleBindings sample_policy = (effective, traces, None) ∧
    PolicyHosts effective = ["api.example.com"]%string ∧ MaxToolTimeoutMS effective = 1000 ∧
    policy_within effective sample_policy.
Proof.
  intros ? ?. eexists _, _. split; [vm_compute; reflexivity|]. split; [reflexivity|]. split; [reflexivity|].
  eapply (rule_bindings_only_restrict sample_policy).
  - repeat constructor; vm_compute; reflexivity.
  - repeat constructor; intros hosts Hd; vm_compute in Hd; injection Hd as <-; repeat constructor; vm_compute; reflexivity.
  - vm_compute. reflexivity.
Defined.

Definition sample_get : PreToolUseRequest :=
  mkPreRequest "c1" "http_get" "{}" (mkToolMetadata "" false 3000 0 "read" ["https://API.example.com/v1"%string] "") sample_policy.

(** The host is on both lists, and the rule has the least timeout. *)
Lemma pre_hook_allows_iff_witness :
  let _ := AsciiTables in let _ := sample_decoder in
  let result := BeforeToolUse (DefaultPre (λ _, None)) [] sample_get in
  pre_Context result = Some [1000] ∧
  ∃ rs, Forall2 reads (RuleBindings sample_policy) rs ∧ harmless sample_get ∧ hostsPermitted sample_policy rs (AllowedHosts (pre_Metadata sample_get)) ∧
    unasked sample_policy rs (pre_Metadata sample_get) ∧ runsUnder (timeouts sample_policy rs (pre_Metadata sample_get)) [] (pre_Context result).
Proof.
  intros ? ? result. split; [vm_compute; reflexivity|].
  destruct (pre_hook_allows_iff (λ _, None) [] sample_get) as [Hiff Hruns].
  - repeat constructor; vm_compute; reflexivity.
  - repeat constructor; intros hosts Hd; vm_compute in Hd; injection Hd as <-; repeat constructor; vm_compute; reflexivity.
  - destruct (proj1 Hiff) as (rs & Hrs); [split; vm_compute; reflexivity|]. exists rs. pose proof (Hruns rs Hrs). destruct Hrs as (? & ? & ? & ?). done.
Defined.

Definition risk_rule : Rule :=
  mkRule "custom.risk" "" RuleMandatory "Ask first." noActivation 1 true
    (Some (mkPolicyBinding "tool.risk.require_approval" "{risk_levels: [high]}")).

Definition delete_tool_metadata : ToolMetadata := mkToolMetadata " HIGH " false 0 0 "write" [] "".

Definition delete_request : PreToolUseRequest :=
  mkPreRequest "c1" "delete_rows" "{}" delete_tool_metadata
    (mkToolPolicy [] 0 0 [] (PolicyBindingsForRules [risk_rule]) false).

Lemma risk_rule_enforced_witness :
  let _ := AsciiTables in let _ := sample_decoder in
  (is_Some (pre_Approval (BeforeToolUse (DefaultPre (λ _, None)) [] delete_request)) ∨
   is_Some (pre_Denied (BeforeToolUse (DefaultPre (λ _, None)) [] delete_request))) ∧
  pre_Denied (BeforeToolUse (DefaultPre (λ _, None)) [] delete_request) = None.
Proof.
  intros ? ?. split; [|by vm_compute].
  eapply (risk_rule_enforced (λ _, None) [risk_rule] risk_rule _ ["high"%string] "high").
  - repeat constructor; vm_compute; reflexivity.
  - left.
  - reflexivity.
  - reflexivity.
  - vm_compute. reflexivity.
  - vm_compute. reflexivity.
  - left.
  - vm_compute. discriminate.
  - reflexivity.
  - vm_compute. reflexivity.
Defined.

Definition sample_object : list (string * json) := [("password", JStr "hunter2"); ("user", JStr "bob")]%string.
Definition sample_encode : option (list (string * json)) → option string := λ _, Some "redacted-json"%string.

Definition sample_post : PostToolUseRequest :=
  mkPostRequest "http" "raw-json" "raw-json" (mkToolMetadata "" false 0 0 "" [] "")
    (mkToolPolicy [] 0 8 [] [] false) [].

Lemma output_redacted_and_bounded_witness :
  out_Content (AfterToolUse (DefaultPost (λ s, s) (λ _, Some (Some sample_object)) sample_encode) sample_post) =
    "redacted...[truncated]"%string ∧
  lookup_field "password" (redactMap (sensitiveFields sample_post) sample_object) = Some (JStr "[REDACTED]").
Proof.
  destruct (output_redacted_and_bounded (λ s, s) (λ _, Some (Some sample_object)) sample_encode sample_post
              sample_object "redacted-json") as (Hf & _ & Hl).
  - reflexivity.
  - vm_compute. discriminate.
  - reflexivity.
  - discriminate.
  - split; [|exact (Hf "password"%string)]. destruct (Hl ltac:(vm_compute; reflexivity)) as [Hc _].
    rewrite Hc. vm_compute. reflexivity.
Defined.
