(* ===== verification/Runner.v ===== *)
(** The tool-calling half of the agent loop (internal/runtime/agent/runner.go,
    types.go): a batch of tool calls from the model through normalization, the
    pre-tool hooks, the approval gate, the planner and the executor to the tool
    messages of the next round; and the transcript helpers around it.

    Time stamps, latencies, the provider id and the model name of steps, the log
    and the step emitter (called with every appended step) are left out. *)
From S2P Require Import Prelude GoStr Json Chat Compaction.
From S2P Require Import Tools Rules Hooks.
Open Scope Z_scope.

(** ** types.go *)

Definition StopReasonFinalAnswer : string := "final_answer".
Definition StopReasonMaxIterations : string := "max_iterations_exceeded".
Definition StopReasonMaxToolCalls : string := "max_tool_calls_exceeded".
Definition StopReasonWaitingHuman : string := "waiting_human".
Definition StopReasonToolNameNotFound : string := "tool_name_not_found".

Definition StepTypeToolCall : string := "tool_call".
Definition StepTypeToolResult : string := "tool_result".
Definition StepTypeApproval : string := "approval_required".
Definition StepTypeFinalAnswer : string := "final_answer".
Definition StepTypeError : string := "error".

Record RunStep := mkRunStep {
  step_Index : Z;
  step_Type : string;
  step_Role : string;
  step_Content : string;
  step_ToolCallID : string;
  step_ToolName : string;
  step_ArgumentsJSON : RawMessage;
  step_OutputJSON : RawMessage;
  step_Compressed : bool;
  step_IsError : bool;
  step_Error : string;
  step_ErrorCode : string
}.

(** A step of the given type; the other fields are zero. *)
Definition plainStep (ty role content id name args : string) : RunStep :=
  mkRunStep 0 ty role content id name args "" false false "" "".

Record RunApproval := mkRunApproval {
  ra_ToolCallID : string;
  ra_ToolName : string;
  ra_RiskLevel : string;
  ra_Reason : string;
  ra_IsBlocking : bool;
  ra_Metadata : ToolMetadata;
  ra_Kind : string;
  ra_Title : string;
  ra_Options : list ApprovalOption;
  ra_Questions : list UserInputQuestion
}.

Record Interaction := mkInteraction {
  int_ID : string;
  int_Kind : string;
  int_Title : string;
  int_Reason : string;
  int_IsBlocking : bool;
  int_Options : list ApprovalOption;
  int_ToolCallID : string;
  int_Questions : list UserInputQuestion
}.

(** The part of a checkpoint that a resumed run reads.  [cp_Approved] is the
    metadata key approved_tool_call_ids, [cp_Iteration] and [cp_ToolCalls] the
    keys iteration and tool_calls. *)
Record Checkpoint := mkCheckpoint {
  SnapshotVersion : Z;
  PersistedMessageCount : Z;
  TranscriptCursor : Z;
  BaseMessages : list ChatMessage;
  Transcript : list ChatMessage;
  cp_Steps : list RunStep;
  cp_Messages : list ChatMessage;
  PendingToolCall : option ToolCall;
  cp_Approved : list string;
  cp_StopReason : string;
  cp_Iteration : Z;
  cp_ToolCalls : Z;
  cp_RuleHash : string;
  cp_Rules : list Rule;
  cp_Interaction : option Interaction
}.

Record RunHookTrace := mkRunHookTrace {
  ht_Hook : string;
  ht_Action : string;
  ht_Reason : traceReason;
  ht_ToolName : string;
  ht_Compressed : bool
}.

Record RunResult := mkRunResult {
  FinalAnswer : string;
  StopReason : string;
  Iterations : Z;
  ToolCalls : Z;
  Steps : list RunStep;
  HookTraces : list RunHookTrace;
  ResultApproval : option RunApproval;
  ResultCheckpoint : option Checkpoint
}.

(** The fields of a run's request that the batch reads. *)
Record BatchRequest := mkBatchRequest {
  req_Tools : list (option RuntimeTool);
  req_MaxToolCalls : Z;
  req_ToolPolicy : ToolPolicy;
  req_RuleHash : string;
  req_Rules : list Rule
}.

(** ** Small helpers of runner.go *)

Definition set_Steps (steps : list RunStep) (r : RunResult) : RunResult :=
  mkRunResult (FinalAnswer r) (StopReason r) (Iterations r) (ToolCalls r) steps (HookTraces r)
    (ResultApproval r) (ResultCheckpoint r).
Definition set_Stop (reason answer : string) (r : RunResult) : RunResult :=
  mkRunResult answer reason (Iterations r) (ToolCalls r) (Steps r) (HookTraces r) (ResultApproval r) (ResultCheckpoint r).
Definition set_StopReason (reason : string) (r : RunResult) : RunResult := set_Stop reason (FinalAnswer r) r.
Definition set_HookTraces (ts : list RunHookTrace) (r : RunResult) : RunResult :=
  mkRunResult (FinalAnswer r) (StopReason r) (Iterations r) (ToolCalls r) (Steps r) ts (ResultApproval r) (ResultCheckpoint r).
Definition set_Waiting (a : RunApproval) (c : Checkpoint) (r : RunResult) : RunResult :=
  mkRunResult (FinalAnswer r) (StopReason r) (Iterations r) (ToolCalls r) (Steps r) (HookTraces r) (Some a) (Some c).
Definition add_ToolCalls (n : Z) (r : RunResult) : RunResult :=
  mkRunResult (FinalAnswer r) (StopReason r) (Iterations r) (ToolCalls r + n) (Steps r) (HookTraces r)
    (ResultApproval r) (ResultCheckpoint r).

Definition appendStep (step : RunStep) (r : RunResult) : RunResult :=
  set_Steps (Steps r ++ [mkRunStep (zlen (Steps r) + 1) (step_Type step) (step_Role step) (step_Content step)
    (step_ToolCallID step) (step_ToolName step) (step_ArgumentsJSON step) (step_OutputJSON step)
    (step_Compressed step) (step_IsError step) (step_Error step) (step_ErrorCode step)]) r.

Definition appendHookTrace (existing : list RunHookTrace) (toolName : string) (traces : list HookTrace) : list RunHookTrace :=
  existing ++ ((λ t, mkRunHookTrace (Hook t) (Stage t ++ ":" ++ tr_Decision t) (Reason t) toolName (tr_Compressed t)) <$>
    filter (λ t, ¬ (Hook t = ""%string ∧ tr_Decision t = ""%string)) traces).

Definition toolMessage (toolCallID content : string) : ChatMessage := mkChatMessage RoleTool content toolCallID [].

Definition toolResultContent (result : ToolResult) (toolErr : option string) : string :=
  let content := ContentText result in
  let content := if (content =? "")%string && (0 <? slen (ContentJSON result)) then ContentJSON result else content in
  match toolErr with
  | Some err => if (content =? "")%string then err else content
  | None => content
  end.

Definition toolResultErrorCode (result : ToolResult) : string :=
  match ResultMetadata result !! "error_code"%string with
  | Some (JStr code) => code
  | _ => ""
  end.

Definition summarizeMessage (message : ChatMessage) : string :=
  let content := TrimSpace (msg_Content message) in
  let content := if 160 <? slen content then (str_take 160 content ++ "...")%string else content in
  let content := if (content =? "")%string && (0 <? zlen (msg_ToolCalls message))
                 then (Itoa (zlen (msg_ToolCalls message)) ++ " tool call(s)")%string else content in
  TrimSpace (msg_Role message ++ ": " ++ content).

Definition summarizeMessages (messages : list ChatMessage) : string :=
  match messages with
  | [] => ""
  | _ =>
    let summary := Join (summarizeMessage <$> messages) newline in
    if 2048 <? slen summary then (str_take 2048 summary ++ "...")%string else summary
  end.

(** ** assembleRoundMessages *)

Definition is_system (m : ChatMessage) : bool := (msg_Role m =? RoleSystem)%string.

(** The index of the last base message that is the user task [skipTask]. *)
Fixpoint lastTaskIndex (base : list ChatMessage) (i : nat) (skipTask : string) (found : option nat) : option nat :=
  match base with
  | [] => found
  | m :: rest =>
    lastTaskIndex rest (S i) skipTask
      (if negb (is_system m) && (msg_Role m =? RoleUser)%string && (msg_Content m =? skipTask)%string then Some i else found)
  end.

Definition skipIndexOf (base transcript : list ChatMessage) : option nat :=
  match transcript with
  | m :: _ =>
    if (msg_Role m =? RoleUser)%string && negb (msg_Content m =? "")%string
    then lastTaskIndex base 0 (msg_Content m) None else None
  | [] => None
  end.

Definition removeIndex {A} (skip : option nat) (l : list A) : list A :=
  match skip with Some i => delete i l | None => l end.

Definition assembleRoundMessages (base ruleMessages transcript : list ChatMessage) : list ChatMessage :=
  filter (λ m, is_system m = true) base ++ ruleMessages ++
  filter (λ m, is_system m = false) (removeIndex (skipIndexOf base transcript) base) ++ transcript.

(** ** Names, differences *)

Definition toolNamesFromMessages (messages : list ChatMessage) : list string :=
  uniqueStrings (filter (λ n, n ≠ ""%string) (TrimSpace ∘ call_Name <$> concat (msg_ToolCalls <$> messages))).

Definition stringDifference (values baseline : list string) : list string :=
  filter (λ v, v ≠ ""%string ∧ v ∉ baseline) values.

Definition appendUniqueStrings (left right : list string) : list string :=
  uniqueStrings (filter (λ v, v ≠ ""%string) (left ++ right)).

(** ** EnrichTranscriptEntries *)

(** The last tool_result step of a call id. *)
Definition stepOfCall (steps : list RunStep) (callID : string) : option RunStep :=
  last (filter (λ s, step_Type s = StepTypeToolResult ∧ step_ToolCallID s = callID) steps).

Definition enrichEntry (steps : list RunStep) (entry : Entry) : Entry :=
  if negb (ContentType entry =? ContentTypeFunctionCallOutput)%string || (Compaction.ToolCallID entry =? "")%string then entry
  else match stepOfCall steps (Compaction.ToolCallID entry) with
       | None => entry
       | Some step =>
         mkEntry (MessageID entry) (TranscriptIndex entry) (SubEntryIndex entry) (TranscriptEntryID entry) (Role entry)
           (ContentType entry) (Content entry) (Compaction.ToolCallID entry) (ToolName entry) (Arguments entry)
           (Some (step_IsError step)) (step_ErrorCode step)
       end.

Definition EnrichTranscriptEntries (entries : list Entry) (steps : list RunStep) : list Entry :=
  enrichEntry steps <$> entries.

(** ** findUnresolvedToolCalls *)

Definition toolResultIDs (messages : list ChatMessage) : list string :=
  msg_ToolCallID <$> filter (λ m, msg_Role m = RoleTool ∧ msg_ToolCallID m ≠ ""%string) messages.

(** The calls of the last assistant message that has any. *)
Definition lastCalls (messages : list ChatMessage) : list ToolCall :=
  match last (filter (λ m, msg_Role m = RoleAssistant ∧ msg_ToolCalls m ≠ []) messages) with
  | Some m => msg_ToolCalls m
  | None => []
  end.

Definition findUnresolvedToolCalls (messages : list ChatMessage) (toolByName : gmap string RuntimeTool) : list ToolCall :=
  filter (λ call, call_ID call ∉ toolResultIDs messages ∧ is_Some (toolByName !! call_Name call)) (lastCalls messages).

(** ** Checkpoints *)

Definition checkpointFromMessages (req : BatchRequest) (messages : list ChatMessage) (pending : option ToolCall) (stopReason : string)
    (iteration toolCalls : Z) : Checkpoint :=
  mkCheckpoint 2 0 0 [] [] [] messages pending [] stopReason iteration toolCalls (req_RuleHash req) (req_Rules req) None.

Definition set_cp_Approved (ids : list string) (c : Checkpoint) : Checkpoint :=
  mkCheckpoint (SnapshotVersion c) (PersistedMessageCount c) (TranscriptCursor c) (BaseMessages c) (Transcript c) (cp_Steps c)
    (cp_Messages c) (PendingToolCall c) ids (cp_StopReason c) (cp_Iteration c) (cp_ToolCalls c) (cp_RuleHash c) (cp_Rules c) (cp_Interaction c).
Definition set_cp_Interaction (i : Interaction) (c : Checkpoint) : Checkpoint :=
  mkCheckpoint (SnapshotVersion c) (PersistedMessageCount c) (TranscriptCursor c) (BaseMessages c) (Transcript c) (cp_Steps c)
    (cp_Messages c) (PendingToolCall c) (cp_Approved c) (cp_StopReason c) (cp_Iteration c) (cp_ToolCalls c) (cp_RuleHash c) (cp_Rules c) (Some i).

Definition hydrateCheckpoint (c : Checkpoint) (baseMessages transcript : list ChatMessage) (steps : list RunStep)
    (messages : list ChatMessage) (persistedCount transcriptCursor : Z) : Checkpoint :=
  mkCheckpoint 2 persistedCount transcriptCursor baseMessages transcript steps messages (PendingToolCall c)
    (cp_Approved c) (cp_StopReason c) (cp_Iteration c) (cp_ToolCalls c) (cp_RuleHash c) (cp_Rules c) (cp_Interaction c).

(** ** executeToolBatch *)

Definition normalizerErrorText `{UnicodeTables} (e : normalizerError) : string :=
  match e with
  | DuplicateTool name => "duplicate tool name " ++ Quote name
  | EmptyAlias => "tool alias and target must not be empty"
  | DuplicateAlias alias => "duplicate tool alias " ++ Quote alias
  | UnknownAliasTarget alias target => "tool alias " ++ Quote alias ++ " points to unknown tool " ++ Quote target
  end%string.

Record preparedToolCall := mkPrepared {
  pc_call : ToolCall;
  pc_tool : RuntimeTool;
  pc_metadata : ToolMetadata;
  pc_ctx : list Z
}.

Inductive prepareOutcome :=
| PrepareStop (r : RunResult) (messages : list ChatMessage)
| PrepareDone (r : RunResult) (messages : list ChatMessage) (prepared : list preparedToolCall).

Record BatchOutcome := mkBatchOutcome {
  bo_stop : bool;
  bo_result : RunResult;
  bo_messages : list ChatMessage;
  (* the calls whose tool was executed, in the order of the calls *)
  bo_executed : list ToolCall
}.

Section Batch.
Context `{UnicodeTables}.
Context (json_valid : string → bool).
Context (json_decode : string → result string json).
Context (json_decode_map : string → result string (list (string * json))).
Context (sha256_hex : string → string).
(** The hook chain of the run, and the text of a denial. *)
Context (preHooks : list (option PreHook)) (postHooks : list (option PostHook)).
Context (denial_text : denial → string).
(** The run's context, what a tool returns, which waiting goroutines give up
    because the context ended, and the text of [ctx.Err()]. *)
Context (ctx : list Z).
Context (tool_execute : preparedToolCall → option ToolResult * option string).
Context (gives_up : ToolBatchItem → bool) (ctx_err : string).

Definition normalizedBatch (req : BatchRequest) (calls : list ToolCall) : list NormalizedToolCall :=
  match NewToolCallNormalizer (req_Tools req) [] with
  | Ok n => NormalizeBatch json_valid json_decode json_decode_map sha256_hex n calls
  | Err e => (λ call, mkNormalized call None zeroMetadata (Some (mkIssue "invalid_alias" (normalizerErrorText e)))) <$> calls
  end.

Definition preRequest (req : BatchRequest) (call : ToolCall) (metadata : ToolMetadata) : PreToolUseRequest :=
  mkPreRequest (call_ID call) (call_Name call) (call_Arguments call) metadata (req_ToolPolicy req).

Definition toolCallStep (call : ToolCall) : RunStep :=
  plainStep StepTypeToolCall "" "" (call_ID call) (call_Name call) (call_Arguments call).

Definition errorResultStep (call : ToolCall) (content err : string) : RunStep :=
  mkRunStep 0 StepTypeToolResult "" content (call_ID call) (call_Name call) "" "" false true err "".

Definition finalAnswerStep (content : string) : RunStep :=
  plainStep StepTypeFinalAnswer RoleAssistant content "" "" "".

(** The run stops to ask for the approval of [call]. *)
Definition waitForApproval (req : BatchRequest) (approved : list string) (call : ToolCall) (a : Hooks.Approval) (r : RunResult)
    (messages : list ChatMessage) : RunResult :=
  let answer := ("Agent is waiting for human approval before executing tool " ++ call_Name call ++ ".")%string in
  let approval := mkRunApproval (apr_ToolCallID a) (apr_ToolName a) (apr_RiskLevel a) (apr_Reason a) false
                    (apr_Metadata a) "" "" [] [] in
  let r := set_Stop StopReasonWaitingHuman answer r in
  let cp := set_cp_Approved approved
              (checkpointFromMessages req messages (Some call) StopReasonWaitingHuman (Iterations r) (ToolCalls r)) in
  let r := set_Waiting approval cp r in
  let r := appendStep (plainStep StepTypeApproval "" (apr_Reason a) (call_ID call) (call_Name call) "") r in
  appendStep (finalAnswerStep answer) r.

Definition issueText (item : NormalizedToolCall) : string :=
  match Issue item with
  | Some issue => Message issue
  | None => "tool " ++ call_Name (Call item) ++ " is not available"
  end%string.

Fixpoint prepareLoop (req : BatchRequest) (approved : list string) (items : list NormalizedToolCall)
    (r : RunResult) (messages : list ChatMessage) (prepared : list preparedToolCall) : prepareOutcome :=
  match items with
  | [] => PrepareDone r messages prepared
  | item :: rest =>
    let call := Call item in
    if req_MaxToolCalls req <=? ToolCalls r + zlen prepared then
      let answer := "Agent stopped because max_tool_calls was exceeded."%string in
      PrepareStop (appendStep (finalAnswerStep answer) (set_Stop StopReasonMaxToolCalls answer r)) messages
    else
      let r := appendStep (toolCallStep call) r in
      match Issue item, Tool item with
      | None, Some tool =>
        let metadata := MetadataOf (Some tool) in
        let pre := BeforeToolUse preHooks ctx (preRequest req call metadata) in
        let r := set_HookTraces (appendHookTrace (HookTraces r) (call_Name call) (pre_Traces pre)) r in
        match pre_Approval pre with
        | Some a =>
          if bool_decide (call_ID call ∈ approved) then
            match pre_Denied pre with
            | Some d =>
              prepareLoop req approved rest
                (appendStep (errorResultStep call (denial_text d) (denial_text d)) r)
                (messages ++ [toolMessage (call_ID call) (denial_text d)]) prepared
            | None =>
              prepareLoop req approved rest r messages
                (prepared ++ [mkPrepared call tool metadata (default ctx (pre_Context pre))])
            end
          else PrepareStop (waitForApproval req approved call a r messages) messages
        | None =>
          match pre_Denied pre with
          | Some d =>
            prepareLoop req approved rest
              (appendStep (errorResultStep call (denial_text d) (denial_text d)) r)
              (messages ++ [toolMessage (call_ID call) (denial_text d)]) prepared
          | None =>
            prepareLoop req approved rest r messages
              (prepared ++ [mkPrepared call tool metadata (default ctx (pre_Context pre))])
          end
        end
      | _, _ =>
        let text := issueText item in
        prepareLoop req approved rest
          (appendStep (errorResultStep call text "") (set_StopReason StopReasonToolNameNotFound r))
          (messages ++ [toolMessage (call_ID call) text]) prepared
      end
  end.

Definition plannedCall (p : preparedToolCall) : NormalizedToolCall :=
  mkNormalized (pc_call p) (Some (pc_tool p)) (pc_metadata p) None.

Definition plannedSegments (prepared : list preparedToolCall) : list ToolBatchSegment :=
  PlanToolBatch None (plannedCall <$> prepared).

Definition executeItem (prepared : list preparedToolCall) (item : ToolBatchItem) : option ToolResult * option string :=
  match prepared !! Z.to_nat (Index item) with
  | Some p => tool_execute p
  | None => (None, None)
  end.

(** [ExecuteToolBatch] for the given choice of the goroutines that give up. *)
Definition runsInParallel (s : ToolBatchSegment) : bool := Parallel s && (1 <? length (Items s))%nat.

Definition runSegment (execute : ToolBatchItem → option ToolResult * option string) (s : ToolBatchSegment)
    : list ToolBatchExecution :=
  if runsInParallel s then
    (λ item, if gives_up item then cancelledExecution ctx_err item else executeOne execute item) <$> Items s
  else executeOne execute <$> Items s.

Definition executedItems (s : ToolBatchSegment) : list ToolBatchItem :=
  if runsInParallel s then filter (λ item, gives_up item = false) (Items s) else Items s.

Definition runBatch (prepared : list preparedToolCall) : list ToolBatchExecution :=
  concat (runSegment (executeItem prepared) <$> plannedSegments prepared).

Definition executedCalls (prepared : list preparedToolCall) : list ToolCall :=
  (λ item, Call (item_Call item)) <$> concat (executedItems <$> plannedSegments prepared).

(** [item.result] and [item.err] after the executions were assigned. *)
Definition outcomesOf (prepared : list preparedToolCall) : list (option (ToolResult * option string)) :=
  foldl (λ acc e, <[Z.to_nat (ex_Index e) := Some (ex_Result e, ex_Err e)]> acc)
    ((λ _, None) <$> prepared) (runBatch prepared).

(** A prepared call whose tool asked the user. *)
Definition asksUser (o : preparedToolCall * option (ToolResult * option string)) : option ToolApproval :=
  match o.2 with Some (res, _) => Tools.Approval res | None => None end.

Definition waitForInput (req : BatchRequest) (call : ToolCall) (a : ToolApproval) (r : RunResult) (messages : list ChatMessage) : RunResult :=
  let answer := "Agent is waiting for your input before continuing."%string in
  let approval := mkRunApproval (call_ID call) (call_Name call) RiskLow (ap_Reason a) (ap_IsBlocking a) zeroMetadata
                    (ap_Kind a) (ap_Title a) (ap_Options a) (ap_Questions a) in
  let r := set_Stop StopReasonWaitingHuman answer r in
  let interaction := mkInteraction (ap_Kind a ++ ":" ++ call_ID call) (ap_Kind a) (ap_Title a) (ap_Reason a)
                       (ap_IsBlocking a) (ap_Options a) (call_ID call) (ap_Questions a) in
  let cp := set_cp_Interaction interaction
              (checkpointFromMessages req messages (Some call) StopReasonWaitingHuman (Iterations r) (ToolCalls r)) in
  let r := set_Waiting approval cp r in
  let r := appendStep (plainStep StepTypeApproval "" (ap_Reason a) (call_ID call) (call_Name call) "") r in
  appendStep (finalAnswerStep answer) r.

Definition postRequest (req : BatchRequest) (p : preparedToolCall) (res : ToolResult) (err : option string) : PostToolUseRequest :=
  mkPostRequest (call_Name (pc_call p)) (toolResultContent res err) (ContentJSON res) (pc_metadata p) (req_ToolPolicy req) [].

Definition newToolResultStep (p : preparedToolCall) (res : ToolResult) (err : option string) (post : PostToolUseResult) : RunStep :=
  mkRunStep 0 StepTypeToolResult "" (out_Content post) (call_ID (pc_call p)) (call_Name (pc_call p)) "" (out_OutputJSON post)
    (out_Compressed post) (Tools.IsError res) (default "" err) (toolResultErrorCode res).

Fixpoint recordResults (req : BatchRequest) (outs : list (preparedToolCall * option (ToolResult * option string)))
    (r : RunResult) (messages : list ChatMessage) : RunResult * list ChatMessage :=
  match outs with
  | [] => (r, messages)
  | (p, o) :: rest =>
    let '(res, err) := default (emptyResult, None) o in
    let post := AfterToolUse postHooks (postRequest req p res err) in
    let r := set_HookTraces (appendHookTrace (HookTraces r) (call_Name (pc_call p)) (out_Traces post)) r in
    recordResults req rest (appendStep (newToolResultStep p res err post) r)
      (messages ++ [toolMessage (call_ID (pc_call p)) (out_Content post)])
  end.

Definition executeToolBatch (req : BatchRequest) (r : RunResult) (messages : list ChatMessage) (calls : list ToolCall)
    (approved : list string) : BatchOutcome :=
  match prepareLoop req approved (normalizedBatch req calls) r messages [] with
  | PrepareStop r messages => mkBatchOutcome true r messages []
  | PrepareDone r messages prepared =>
    let executed := executedCalls prepared in
    let outs := zip prepared (outcomesOf prepared) in
    match list_find (λ o, is_Some (asksUser o)) outs with
    | Some (_, (p, o)) =>
      match asksUser (p, o) with
      | Some a => mkBatchOutcome true (waitForInput req (pc_call p) a r messages) messages executed
      | None => mkBatchOutcome true r messages executed
      end
    | None =>
      let '(r, messages) := recordResults req outs (add_ToolCalls (zlen prepared) r) messages in
      mkBatchOutcome false r messages executed
    end
  end.

(** ** What a batch does *)

(** The normalized call [item] passed the gate: it resolved to [tool], its
    arguments were accepted, and the hooks let it pass or a human approved it. *)
Definition permitted (req : BatchRequest) (approved : list string) (item : NormalizedToolCall) (p : preparedToolCall) : Prop :=
  Call item = pc_call p ∧ Issue item = None ∧ Tool item = Some (pc_tool p) ∧ pc_metadata p = MetadataOf (Some (pc_tool p)) ∧
  let pre := BeforeToolUse preHooks ctx (preRequest req (pc_call p) (pc_metadata p)) in
  pre_Denied pre = None ∧ (pre_Approval pre = None ∨ call_ID (pc_call p) ∈ approved) ∧
  pc_ctx p = default ctx (pre_Context pre).

Definition prepare_ok (req : BatchRequest) (approved : list string) (items : list NormalizedToolCall) (r : RunResult)
    (messages : list ChatMessage) (prepared : list preparedToolCall) (out : prepareOutcome) : Prop :=
  match out with
  | PrepareStop r' messages' => ToolCalls r' = ToolCalls r ∧ ∃ new, messages' = messages ++ new
  | PrepareDone r' messages' prepared' =>
    ToolCalls r' = ToolCalls r ∧
    ∃ new taken, messages' = messages ++ new ∧ prepared' = prepared ++ taken ∧
      Forall (λ m, msg_Role m = RoleTool) new ∧
      Forall (λ p, ∃ item, item ∈ items ∧ permitted req approved item p) taken ∧
      (msg_ToolCallID <$> new) ++ (call_ID ∘ pc_call <$> taken) ≡ₚ call_ID ∘ Call <$> items ∧
      ToolCalls r + zlen prepared' ≤ Z.max (req_MaxToolCalls req) (ToolCalls r + zlen prepared)
  end.

Lemma prepare_ok_message req approved item items r r1 messages prepared text out :
  ToolCalls r1 = ToolCalls r →
  prepare_ok req approved items r1 (messages ++ [toolMessage (call_ID (Call item)) text]) prepared out →
  prepare_ok req approved (item :: items) r messages prepared out.
Proof.
  intros Hr. destruct out as [r' m'|r' m' p']; simpl.
  - intros (-> & new & ->). split; [done|]. eexists. by rewrite <- app_assoc.
  - intros (-> & new & taken & -> & -> & Hrole & Hperm & Hids & Hb). split; [done|].
    exists (toolMessage (call_ID (Call item)) text :: new), taken. rewrite <- app_assoc. split_and!; try done.
    + by constructor.
    + eapply Forall_impl; [done|]. intros p (it & Hit & Hp). exists it. split; [by right|done].
    + simpl. by rewrite Hids.
    + by rewrite <- Hr.
Qed.

Lemma prepare_ok_prepared req approved item items r r1 messages prepared p out :
  ToolCalls r1 = ToolCalls r → permitted req approved item p → ToolCalls r + zlen prepared < req_MaxToolCalls req →
  prepare_ok req approved items r1 messages (prepared ++ [p]) out →
  prepare_ok req approved (item :: items) r messages prepared out.
Proof.
  intros Hr Hp Hlt. destruct out as [r' m'|r' m' p']; simpl.
  - intros (-> & new & ->). split; [done|]. by eexists.
  - intros (-> & new & taken & -> & -> & Hrole & Hperm & Hids & Hb). split; [done|].
    exists new, (p :: taken). rewrite <- app_assoc. split_and!; try done.
    + constructor; [exists item; split; [left|done]|].
      eapply Forall_impl; [done|]. intros p' (it & Hit & Hp'). exists it. split; [by right|done].
    + rewrite !fmap_cons, <- Permutation_middle. simpl. destruct Hp as [-> _]. by rewrite Hids.
    + rewrite Hr in Hb. unfold zlen in *. rewrite !length_app in *. simpl in *. lia.
Qed.

Lemma prepareLoop_ok req approved items r messages prepared :
  prepare_ok req approved items r messages prepared (prepareLoop req approved items r messages prepared).
Proof.
  revert r messages prepared. induction items as [|item items IH]; intros r messages prepared; cbn [prepareLoop].
  { split; [done|]. exists [], []. rewrite !app_nil_r. split_and!; try done. lia. }
  destruct (req_MaxToolCalls req <=? ToolCalls r + zlen prepared) eqn:Hmax; bool_prop.
  { split; [done|]. exists []. by rewrite app_nil_r. }
  destruct (Issue item) as [issue|] eqn:Hi; [eapply prepare_ok_message; [|apply IH]; done|].
  destruct (Tool item) as [tool|] eqn:Ht; [|eapply prepare_ok_message; [|apply IH]; done].
  set (pre := BeforeToolUse _ _ _).
  assert (∀ m, pre_Denied pre = None → (pre_Approval pre = None ∨ call_ID (Call item) ∈ approved) → m = MetadataOf (Some tool) →
    permitted req approved item (mkPrepared (Call item) tool m (default ctx (pre_Context pre)))) as Hok.
  { intros m Hd Ha ->. subst pre. split_and!; done. }
  destruct (pre_Approval pre) as [a|] eqn:Ha.
  - case_bool_decide as Happ.
    + destruct (pre_Denied pre) as [d|]; [eapply prepare_ok_message; [|apply IH]; done|].
      eapply prepare_ok_prepared; [| |done|apply IH]; [done|]. apply Hok; [done|by right|done].
    + split; [done|]. exists []. by rewrite app_nil_r.
  - destruct (pre_Denied pre) as [d|]; [eapply prepare_ok_message; [|apply IH]; done|].
    eapply prepare_ok_prepared; [| |done|apply IH]; [done|]. apply Hok; [done|by left|done].
Qed.

(** *** The executed calls *)

Lemma planned_items prepared :
  concat (Items <$> plannedSegments prepared) =
  imap (λ i p, mkBatchItem (Z.of_nat i) (plannedCall p)) prepared.
Proof.
  unfold plannedSegments. destruct (plan_spec None (plannedCall <$> prepared)) as [-> _].
  rewrite imap_fmap. by apply imap_ext.
Qed.

Lemma executedItems_sublist prepared :
  sublist (concat (executedItems <$> plannedSegments prepared)) (concat (Items <$> plannedSegments prepared)).
Proof.
  induction (plannedSegments prepared) as [|s segs IH]; [done|]. rewrite !fmap_cons. simpl.
  apply sublist_app; [|done]. unfold executedItems. destruct (runsInParallel s); [|done]. apply sublist_filter.
Qed.

Lemma executedCalls_sublist prepared : sublist (executedCalls prepared) (pc_call <$> prepared).
Proof.
  unfold executedCalls. pose proof (executedItems_sublist prepared) as Hs. rewrite planned_items in Hs.
  eapply (sublist_map (λ item, Call (item_Call item))) in Hs. rewrite fmap_imap in Hs.
  etrans; [exact Hs|]. rewrite <- (imap_const pc_call prepared). by apply reflexive_eq, imap_ext.
Qed.

Lemma recordResults_spec req outs r messages :
  let out := recordResults req outs r messages in
  ToolCalls out.1 = ToolCalls r ∧
  ∃ new, out.2 = messages ++ new ∧ Forall (λ m, msg_Role m = RoleTool) new ∧
    msg_ToolCallID <$> new = (λ o, call_ID (pc_call o.1)) <$> outs.
Proof.
  revert r messages. induction outs as [|[p o] outs IH]; intros r messages.
  { simpl. split; [done|]. exists []. by rewrite app_nil_r. }
  cbn [recordResults]. destruct (default (emptyResult, None) o) as [res err].
  set (post := AfterToolUse _ _).
  destruct (IH (appendStep (newToolResultStep p res err post)
                 (set_HookTraces (appendHookTrace (HookTraces r) (call_Name (pc_call p)) (out_Traces post)) r))
               (messages ++ [toolMessage (call_ID (pc_call p)) (out_Content post)])) as (Hc & new & Hm & Hrole & Hids).
  split; [by rewrite Hc|]. exists (toolMessage (call_ID (pc_call p)) (out_Content post) :: new).
  rewrite Hm, <- app_assoc. split_and!; [done|by constructor|]. rewrite !fmap_cons, Hids. done.
Qed.

Lemma outcomesOf_length prepared : length (outcomesOf prepared) = length prepared.
Proof.
  unfold outcomesOf. rewrite <- (length_fmap (λ _, None : option (ToolResult * option string)) prepared).
  generalize ((λ _ : preparedToolCall, None : option (ToolResult * option string)) <$> prepared).
  induction (runBatch prepared) as [|e es IH]; intros acc; [done|]. simpl. rewrite IH. apply length_insert.
Qed.

Lemma fst_zip_outcomes prepared : (zip prepared (outcomesOf prepared)).*1 = prepared.
Proof. apply fst_zip. by rewrite outcomesOf_length. Qed.

(** The shared summary of a batch: what was prepared, executed and answered. *)
Lemma executeToolBatch_spec req r messages calls approved :
  let out := executeToolBatch req r messages calls approved in
  let items := normalizedBatch req calls in
  ∃ new prepared, bo_messages out = messages ++ new ∧
    sublist (bo_executed out) (pc_call <$> prepared) ∧
    Forall (λ p, ∃ item, item ∈ items ∧ permitted req approved item p) prepared ∧
    ToolCalls r + zlen prepared ≤ Z.max (req_MaxToolCalls req) (ToolCalls r) ∧
    (bo_stop out = true → ToolCalls (bo_result out) = ToolCalls r) ∧
    (bo_stop out = false → ToolCalls (bo_result out) = ToolCalls r + zlen prepared ∧
       Forall (λ m, msg_Role m = RoleTool) new ∧ msg_ToolCallID <$> new ≡ₚ call_ID ∘ Call <$> items).
Proof.
  unfold executeToolBatch. pose proof (prepareLoop_ok req approved (normalizedBatch req calls) r messages []) as Hp.
  destruct (prepareLoop _ _ _ _ _ _) as [r' m'|r' m' prepared].
  { destruct Hp as (Hc & new & ->). exists new, []. simpl. split_and!; try done. unfold zlen. simpl. lia. }
  destruct Hp as (Hc & new & taken & -> & -> & Hrole & Hperm & Hids & Hb). simpl in Hids, Hb |- *.
  rewrite Z.add_0_r in Hb. pose proof (executedCalls_sublist taken) as Hsub.
  destruct (list_find _ _) as [[i [p o]]|].
  - exists new, taken. destruct (asksUser (p, o)); simpl; split_and!; done.
  - pose proof (recordResults_spec req (zip taken (outcomesOf taken)) (add_ToolCalls (zlen taken) r') (messages ++ new)) as Hr.
    destruct (recordResults _ _ _ _) as [r2 m2]. simpl in *. destruct Hr as (Hc2 & new2 & -> & Hrole2 & Hids2).
    exists (new ++ new2), taken. rewrite <- app_assoc. split_and!; try done. intros _. split_and!.
    + rewrite Hc2. lia.
    + by apply Forall_app.
    + rewrite fmap_app, Hids2, <- Hids.
      trans ((msg_ToolCallID <$> new) ++ ((call_ID ∘ pc_call) <$> (zip taken (outcomesOf taken)).*1)).
      * by rewrite <- list_fmap_compose.
      * by rewrite fst_zip_outcomes.
Qed.

(** A tool of a batch is executed only if its call passed normalization (so
    its name resolved and its schema accepted its arguments), the pre-tool hooks
    did not deny it, and the hooks did not ask for approval or a human approved
    exactly that call id; it runs under the context the hooks returned. *)
Theorem executed_only_if_permitted req r messages calls approved call :
  call ∈ bo_executed (executeToolBatch req r messages calls approved) →
  ∃ item p, item ∈ normalizedBatch req calls ∧ pc_call p = call ∧ permitted req approved item p.
Proof.
  intros Hin. destruct (executeToolBatch_spec req r messages calls approved) as (new & prepared & _ & Hs & Hp & _).
  apply (sublist_subseteq _ _ Hs), list_elem_of_fmap in Hin as (p & -> & Hin).
  rewrite Forall_forall in Hp. destruct (Hp p Hin) as (item & Hit & Hperm). by exists item, p.
Qed.

(** The number of tool calls never passes the run's limit: a batch executes
    at most as many tools as were left, and the counter it reports stays within
    the limit. *)
Theorem tool_calls_bounded req r messages calls approved :
  0 ≤ ToolCalls r ≤ req_MaxToolCalls req →
  let out := executeToolBatch req r messages calls approved in
  ToolCalls r + zlen (bo_executed out) ≤ req_MaxToolCalls req ∧
  ToolCalls r ≤ ToolCalls (bo_result out) ≤ req_MaxToolCalls req.
Proof.
  intros Hr out. destruct (executeToolBatch_spec req r messages calls approved) as (new & prepared & _ & Hs & _ & Hb & Hst & Hgo).
  fold out in Hs, Hst, Hgo. apply sublist_length in Hs. rewrite length_fmap in Hs. unfold zlen in *. split; [lia|].
  destruct (bo_stop out); [rewrite Hst by done|destruct (Hgo eq_refl) as [-> _]]; lia.
Qed.

(** C37. A batch that does not stop answers every call: it only appends tool
    messages, and their call ids are those of the normalized calls, each once.  A
    batch that stops keeps the conversation it was given as a prefix. *)
Theorem batch_answers_every_call req r messages calls approved :
  let out := executeToolBatch req r messages calls approved in
  ∃ new, bo_messages out = messages ++ new ∧
    (bo_stop out = false →
       Forall (λ m, msg_Role m = RoleTool) new ∧ length new = length calls ∧
       msg_ToolCallID <$> new ≡ₚ call_ID ∘ Call <$> normalizedBatch req calls).
Proof.
  intros out. destruct (executeToolBatch_spec req r messages calls approved) as (new & prepared & Hm & _ & _ & _ & _ & Hgo).
  fold out in Hm, Hgo. exists new. split; [done|]. intros Hs. destruct (Hgo Hs) as (_ & Hrole & Hids).
  split_and!; [done| |done]. rewrite <- (length_fmap msg_ToolCallID), Hids, length_fmap. unfold normalizedBatch.
  destruct (NewToolCallNormalizer (req_Tools req) []) as [n|e] eqn:Hn; [|apply length_fmap].
  apply NewToolCallNormalizer_wf in Hn. unfold NormalizeBatch. by apply normalizeFrom_safe.
Qed.

End Batch.

(** ** Approved calls and timeouts *)

Section Approved.
Context `{UnicodeTables} `{PolicyDecoder}.
Context (decode_approval_args : string → option (string * string)).

(** The policy hook asks for approval before it sets a timeout, and an
    approved call is executed with the context of that answer: a tool that ran
    only because a human approved it runs without the timeout of its metadata and
    of the policy. *)
Theorem approved_call_has_no_timeout ctx req approved item p :
  permitted (DefaultPre decode_approval_args) ctx req approved item p →
  is_Some (pre_Approval (BeforeToolUse (DefaultPre decode_approval_args) ctx (preRequest req (pc_call p) (pc_metadata p)))) →
  pc_ctx p = ctx.
Proof.
  intros (_ & _ & _ & _ & _ & _ & ->). set (q := preRequest _ _ _).
  destruct (default_pre decode_approval_args ctx q) as (-> & _ & ->). intros Ha. simpl.
  unfold PolicyPreToolUseHook in *. destruct (applyRuleBindings (pre_Policy q)) as [[eff traces] [e|]].
  { by destruct Ha. }
  destruct (negb _); [by destruct Ha|].
  destruct (ValidateAllowedHosts _ _ _) as [[h|]|]; [by destruct Ha..|].
  destruct (requiredApproval _); [done|]. by destruct (_ <=? 0), Ha.
Qed.
End Approved.

Definition slow_delete : RuntimeTool :=
  mkRuntimeTool "delete_rows" "deletes" "{}" (Some (mkToolMetadata RiskHigh true 1000 0 "write" [] "")).
Definition delete_call : ToolCall := mkToolCall "d1" "" "delete_rows" "{}".
Definition delete_batch : BatchRequest := mkBatchRequest [Some slow_delete] 16 (mkToolPolicy [] 5000 0 [] [] false) "" [].

Lemma approved_call_has_no_timeout_witness :
  let _ := AsciiTables in let _ := sample_decoder in
  EffectiveLimit (TimeoutMS (MetadataOf (Some slow_delete))) (MaxToolTimeoutMS (req_ToolPolicy delete_batch)) = 1000 ∧
  ∃ p, permitted (DefaultPre (λ _, None)) [] delete_batch ["d1"%string]
         (mkNormalized delete_call (Some slow_delete) (MetadataOf (Some slow_delete)) None) p ∧ pc_ctx p = [].
Proof.
  intros ? ?. split; [by vm_compute|].
  exists (mkPrepared delete_call slow_delete (MetadataOf (Some slow_delete)) []).
  assert (permitted (DefaultPre (λ _, None)) [] delete_batch ["d1"%string]
            (mkNormalized delete_call (Some slow_delete) (MetadataOf (Some slow_delete)) None)
            (mkPrepared delete_call slow_delete (MetadataOf (Some slow_delete)) [])) as Hp.
  { unfold permitted. cbv zeta. split_and!; try (vm_compute; reflexivity). right. apply elem_of_cons. left. reflexivity. }
  split; [exact Hp|]. eapply (approved_call_has_no_timeout (λ _, None) [] delete_batch ["d1"%string] _ _ Hp).
  vm_compute. eexists. reflexivity.
Defined.

(** ** Witness of the bound on tool calls *)

Definition counted_run : RunResult := mkRunResult "" "" 1 15 [] [] None None.

Lemma tool_calls_bounded_witness :
  let _ := AsciiTables in let _ := sample_decoder in
  let out := executeToolBatch always_valid decode_null decode_empty constant_hash (DefaultPre (λ _, None))
               (DefaultPost (λ s, s) (λ _, None) (λ _, None)) (λ _, "denied"%string) [] (λ _, (None, None)) (λ _, false) ""
               delete_batch counted_run [] [delete_call; mkToolCall "d2" "" "delete_rows" "{}"] ["d1"; "d2"]%string in
  StopReason (bo_result out) = StopReasonMaxToolCalls ∧
  ToolCalls counted_run + zlen (bo_executed out) ≤ req_MaxToolCalls delete_batch.
Proof.
  intros ? ? out. split; [by vm_compute|].
  assert (0 ≤ ToolCalls counted_run ≤ req_MaxToolCalls delete_batch) as Hr by (vm_compute; split; discriminate).
  exact (proj1 (tool_calls_bounded always_valid decode_null decode_empty constant_hash (DefaultPre (λ _, None))
           (DefaultPost (λ s, s) (λ _, None) (λ _, None)) (λ _, "denied"%string) [] (λ _, (None, None)) (λ _, false) ""
           delete_batch counted_run [] [delete_call; mkToolCall "d2" "" "delete_rows" "{}"] ["d1"; "d2"]%string Hr)).
Defined.

Lemma executed_only_if_permitted_witness :
  let _ := AsciiTables in let _ := sample_decoder in
  let out := executeToolBatch always_valid decode_null decode_empty constant_hash (DefaultPre (λ _, None))
               (DefaultPost (λ s, s) (λ _, None) (λ _, None)) (λ _, "denied"%string) [] (λ _, (None, None)) (λ _, false) ""
               delete_batch (mkRunResult "" "" 1 0 [] [] None None) [] [delete_call] ["d1"]%string in
  ∃ item p, item ∈ normalizedBatch always_valid decode_null decode_empty constant_hash delete_batch [delete_call] ∧
    pc_call p = delete_call ∧ permitted (DefaultPre (λ _, None)) [] delete_batch ["d1"%string] item p.
Proof.
  intros ? ? out.
  assert (bo_executed out = [delete_call]) as Hx by (vm_compute; reflexivity).
  assert (delete_call ∈ bo_executed out) as Hin by (rewrite Hx; apply elem_of_cons; left; reflexivity).
  exact (executed_only_if_permitted always_valid decode_null decode_empty constant_hash (DefaultPre (λ _, None))
           (DefaultPost (λ s, s) (λ _, None) (λ _, None)) (λ _, "denied"%string) [] (λ _, (None, None)) (λ _, false) ""
           delete_batch (mkRunResult "" "" 1 0 [] [] None None) [] [delete_call] ["d1"]%string delete_call Hin).
Defined.
