(* ===== verification/Resume.v ===== *)
(** Resuming a run after a human decision (internal/runtime/agent/resumer.go and
    the resume branch of [Runner.Run] in runner.go): the resume request built from
    a checkpoint, the validation of the user's answers, and the batch that is
    executed first. *)
From S2P Require Import Prelude GoStr Json Chat Compaction.
From S2P Require Import Tools Rules Hooks Runner.
Open Scope Z_scope.

(** ** ValidateUserInputAnswers *)

Inductive answerError :=
| NoQuestions
| QuestionIDRequired
| MissingAnswer (id : string)
| InvalidAnswer (id : string)
| UnknownQuestion.

Definition checkAnswer (q : UserInputQuestion) (answers : gmap string string) : option answerError :=
  if (TrimSpace (q_ID q) =? "")%string then Some QuestionIDRequired
  else match answers !! q_ID q with
       | None => Some (MissingAnswer (q_ID q))
       | Some answer =>
         if (TrimSpace answer =? "")%string then Some (MissingAnswer (q_ID q))
         else if (0 <? zlen (q_Options q)) && negb (bool_decide (answer ∈ uio_Label <$> q_Options q)) &&
                 negb (q_IsOther q && negb (answer =? "__other__")%string)
         then Some (InvalidAnswer (q_ID q))
         else None
       end.

Fixpoint checkAnswers (questions : list UserInputQuestion) (answers : gmap string string) : option answerError :=
  match questions with
  | [] => None
  | q :: rest => match checkAnswer q answers with Some e => Some e | None => checkAnswers rest answers end
  end.

Definition ValidateUserInputAnswers (questions : list UserInputQuestion) (answers : gmap string string) : option answerError :=
  match questions with
  | [] => Some NoQuestions
  | _ =>
    match checkAnswers questions answers with
    | Some e => Some e
    | None =>
      if decide (map_Forall (λ id _, id ∈ q_ID <$> questions) answers) then None else Some UnknownQuestion
    end
  end.

(** ** BuildResumeRequest *)

Inductive resumeError :=
| UnknownOption (id : string)
| InvalidAnswers
| AnswersRejected (e : answerError)
| RulesInvalid (e : ruleError)
| RuleHashMismatch.

(** The fields of the resumed run's request that come from the checkpoint. *)
Record Resumed := mkResumed {
  rs_Messages : list ChatMessage;
  rs_BaseMessages : list ChatMessage;
  rs_Transcript : list ChatMessage;
  rs_Steps : list RunStep;
  rs_PersistedMessageCount : Z;
  rs_TranscriptCursor : Z;
  rs_Iteration : Z;
  rs_ToolCalls : Z;
  rs_Approved : list string;
  rs_RuleHash : string;
  rs_Rules : list Rule
}.

Definition appendUniqueString (values : list string) (value : string) : list string :=
  if bool_decide (value ∈ values) then values else values ++ [value].

(** [metadataStringSlice] on the decoded JSON array. *)
Definition metadataStringSlice (items : list string) : list string :=
  foldl (λ out text, if (text =? "")%string then out else appendUniqueString out text) [] items.

Definition firstNonEmpty (values : list string) : string :=
  default ""%string (head (filter (λ v, v ≠ ""%string) values)).

Definition requestUserInput : string := "request_user_input".

Section Resume.
Context `{PolicyDecoder}.
Context (marshal_rules : list Rule → option string) (sha256_hex : string → string).
Context (decode_answers : string → option (gmap string string)) (marshal_answers : gmap string string → string).

Definition kindIs (i : option Interaction) (kind : string) : bool :=
  match i with Some i => (int_Kind i =? kind)%string | None => false end.

Definition choiceError (cp : Checkpoint) (approved : bool) (note : string) : option resumeError :=
  match cp_Interaction cp with
  | Some i =>
    if approved && HasPrefix note "choice:" then
      let choiceID := TrimSpace (TrimPrefix note "choice:") in
      if bool_decide (choiceID ∈ opt_ID <$> int_Options i) then None else Some (UnknownOption choiceID)
    else None
  | None => None
  end.

(** The answers a request_user_input checkpoint is resumed with. *)
Definition answersOf (cp : Checkpoint) (note : string) : result resumeError (gmap string string) :=
  let decoded := if HasPrefix note "answers:" then decode_answers (TrimPrefix note "answers:") else Some ∅ in
  match decoded with
  | None => Err InvalidAnswers
  | Some answers =>
    match ValidateUserInputAnswers (match cp_Interaction cp with Some i => int_Questions i | None => [] end) answers with
    | Some e => Err (AnswersRejected e)
    | None => Ok answers
    end
  end.

Definition rejectionContent (call : ToolCall) (note : string) : string :=
  (if (note =? "")%string then "Human rejected the request to execute tool " ++ call_Name call
   else "Human rejected: " ++ note)%string.

(** The tool message the decision adds, if any. *)
Definition decisionMessage (cp : Checkpoint) (approved : bool) (note : string) : result resumeError (option ChatMessage) :=
  match PendingToolCall cp with
  | None => Ok None
  | Some call =>
    if approved then
      if kindIs (cp_Interaction cp) requestUserInput then
        match answersOf cp note with
        | Err e => Err e
        | Ok answers => Ok (Some (toolMessage (call_ID call) (marshal_answers answers)))
        end
      else Ok None
    else Ok (Some (toolMessage (call_ID call) (rejectionContent call note)))
  end.

Definition approvedIDs (cp : Checkpoint) (approved : bool) : list string :=
  let ids := metadataStringSlice (cp_Approved cp) in
  match PendingToolCall cp with
  | Some call =>
    if approved && negb (kindIs (cp_Interaction cp) requestUserInput) then appendUniqueString ids (call_ID call) else ids
  | None => ids
  end.

Definition resumeRules (cp : Checkpoint) (reqRules : list Rule) : result resumeError (list Rule) :=
  let items := match cp_Rules cp with [] => reqRules | rs => rs end in
  match ValidateLoadedRules items with
  | Err e => Err (RulesInvalid e)
  | Ok _ =>
    if (cp_RuleHash cp =? "")%string then Ok items
    else match HashLoadedRules marshal_rules sha256_hex items with
         | Ok h => if (h =? cp_RuleHash cp)%string then Ok items else Err RuleHashMismatch
         | Err _ => Err RuleHashMismatch
         end
  end.

Definition BuildResumeRequest (cp : Checkpoint) (approved : bool) (note : string) (reqRules : list Rule) (reqHash : string)
    : result resumeError Resumed :=
  match choiceError cp approved note with
  | Some e => Err e
  | None =>
    match decisionMessage cp approved note with
    | Err e => Err e
    | Ok decision =>
      let extra := option_list decision in
      let messages := cp_Messages cp ++ extra in
      let transcript := Transcript cp ++ (if 2 <=? SnapshotVersion cp then extra else []) in
      let '(base, transcript) :=
        match BaseMessages cp with [] => (messages, []) | base => (base, transcript) end in
      match resumeRules cp reqRules with
      | Err e => Err e
      | Ok rules =>
        Ok (mkResumed messages base transcript (cp_Steps cp) (PersistedMessageCount cp) (TranscriptCursor cp)
              (cp_Iteration cp) (cp_ToolCalls cp) (approvedIDs cp approved)
              (firstNonEmpty [cp_RuleHash cp; reqHash]) rules)
      end
    end
  end.

(** ** The calls a resumed run executes first *)

Definition toolsByName (tools : list (option RuntimeTool)) : gmap string RuntimeTool :=
  match addTools tools ∅ with Ok m => m | Err _ => ∅ end.

Definition resumedMessages (rs : Resumed) : list ChatMessage :=
  assembleRoundMessages (rs_BaseMessages rs) [] (rs_Transcript rs).

Definition resumedCalls (tools : list (option RuntimeTool)) (rs : Resumed) : list ToolCall :=
  findUnresolvedToolCalls (resumedMessages rs) (toolsByName tools).

(** ** Theorems *)

Lemma checkAnswer_none q answers :
  checkAnswer q answers = None ↔
  TrimSpace (q_ID q) ≠ ""%string ∧ ∃ a, answers !! q_ID q = Some a ∧ TrimSpace a ≠ ""%string ∧
    (q_Options q = [] ∨ a ∈ uio_Label <$> q_Options q ∨ (q_IsOther q = true ∧ a ≠ "__other__"%string)).
Proof.
  unfold checkAnswer. destruct (String.eqb_spec (TrimSpace (q_ID q)) "") as [He|Hne]; [split; [done|by intros []]|].
  destruct (answers !! q_ID q) as [a|]; [|split; [done|by intros (_ & a & ? & _)]].
  destruct (String.eqb_spec (TrimSpace a) "") as [Ha|Ha].
  { split; [done|]. by intros (_ & a' & [= <-] & ? & _). }
  trans ((0 <? zlen (q_Options q)) && negb (bool_decide (a ∈ uio_Label <$> q_Options q)) &&
         negb (q_IsOther q && negb (a =? "__other__")%string) = false); [by destruct (_ && _)|].
  assert (0 <? zlen (q_Options q) = false ↔ q_Options q = []) as Hz.
  { unfold zlen. destruct (q_Options q); simpl; [done|]. split; [|done]. intros ?%Z.ltb_ge. lia. }
  rewrite !andb_false_iff, Hz, !negb_false_iff, bool_decide_eq_true, andb_true_iff, negb_true_iff, String.eqb_neq.
  split; [intros [[?|?]|?]; (split; [done|]; exists a; naive_solver)|].
  intros (_ & a' & [= <-] & _ & [?|[?|?]]); naive_solver.
Qed.

(** [ValidateUserInputAnswers] accepts exactly complete and legal answers:
    there is a question, every question has an id and a nonblank answer that is
    one of its options (if it has any, unless another text is allowed), and no
    answer is for an unknown question. *)
Theorem answers_valid_iff questions answers :
  ValidateUserInputAnswers questions answers = None ↔
  questions ≠ [] ∧
  (∀ q, q ∈ questions → TrimSpace (q_ID q) ≠ ""%string ∧
     ∃ a, answers !! q_ID q = Some a ∧ TrimSpace a ≠ ""%string ∧
       (q_Options q = [] ∨ a ∈ uio_Label <$> q_Options q ∨ (q_IsOther q = true ∧ a ≠ "__other__"%string))) ∧
  (∀ id a, answers !! id = Some a → id ∈ q_ID <$> questions).
Proof.
  unfold ValidateUserInputAnswers. destruct questions as [|q0 qs]; [by split; [|intros []]|].
  assert (checkAnswers (q0 :: qs) answers = None ↔ ∀ q, q ∈ q0 :: qs → checkAnswer q answers = None) as Hc.
  { induction (q0 :: qs) as [|q l IH]; [split; [|done]; intros _ q Hq; by apply elem_of_nil in Hq|].
    cbn [checkAnswers]. setoid_rewrite elem_of_cons. destruct (checkAnswer q answers) eqn:He.
    - split; [done|]. intros Hall. rewrite (Hall q) in He by (by left). done.
    - rewrite IH. naive_solver. }
  setoid_rewrite checkAnswer_none in Hc.
  destruct (checkAnswers (q0 :: qs) answers) as [e|].
  { split; [done|]. intros (_ & Hall & _). by destruct Hc as [_ Hc]; rewrite Hc in *. }
  case_decide as Hd.
  - split; [intros _; split; [done|]; split; [by apply Hc|exact Hd]|done].
  - split; [done|]. by intros (_ & _ & Hu).
Qed.

Lemma metadataStringSlice_subset items id : id ∈ metadataStringSlice items → id ∈ items.
Proof.
  unfold metadataStringSlice.
  assert (∀ acc, id ∈ foldl (λ out text, if (text =? "")%string then out else appendUniqueString out text) acc items →
            id ∈ acc ∨ id ∈ items) as Hg.
  { induction items as [|t items IH]; intros acc; simpl; [by left|]. intros Hin. apply IH in Hin as [Hin|Hin].
    - rewrite elem_of_cons. unfold appendUniqueString in Hin. repeat case_match; rewrite ?elem_of_app, ?list_elem_of_singleton in Hin; naive_solver.
    - rewrite elem_of_cons. naive_solver. }
  intros Hin. by destruct (Hg [] Hin) as [?%elem_of_nil|].
Qed.

(** A tool message in the resumed transcript (or, for old checkpoints without
    base messages, in the messages) is part of what the resumed run reads. *)
Lemma resumed_keeps_tool rs m :
  msg_Role m = RoleTool → m ∈ rs_Transcript rs ∨ (rs_Transcript rs = [] ∧ m ∈ rs_BaseMessages rs) →
  m ∈ resumedMessages rs.
Proof.
  intros Hr Hm. unfold resumedMessages, assembleRoundMessages. rewrite !elem_of_app.
  destruct Hm as [Hm|[Ht Hm]]; [naive_solver|]. right. right. left. rewrite Ht. simpl.
  apply list_elem_of_filter. split; [|done]. unfold is_system. by rewrite Hr.
Qed.

Lemma answered_not_unresolved rs tools m id :
  msg_Role m = RoleTool → msg_ToolCallID m = id → id ≠ ""%string → m ∈ resumedMessages rs →
  ∀ c, c ∈ resumedCalls tools rs → call_ID c ≠ id.
Proof.
  intros Hr Hid Hne Hm c Hc. unfold resumedCalls, findUnresolvedToolCalls in Hc.
  apply list_elem_of_filter in Hc as [[Hnot _] _]. intros Heq. apply Hnot. unfold toolResultIDs.
  rewrite Heq, <- Hid. apply list_elem_of_fmap_2, list_elem_of_filter. split; [|done]. split; [done|congruence].
Qed.

(** The human decision is respected on resume.  A rejected call is answered
    by the rejection and is not among the calls the resumed run executes.  The ids
    that pass the approval gate are those approved before, and, only if the human
    approved, the pending call's. *)
Theorem decision_respected cp approved note reqRules reqHash rs tools call :
  BuildResumeRequest cp approved note reqRules reqHash = Ok rs →
  PendingToolCall cp = Some call → call_ID call ≠ ""%string →
  2 ≤ SnapshotVersion cp ∨ BaseMessages cp = [] →
  (approved = false → ∀ c, c ∈ resumedCalls tools rs → call_ID c ≠ call_ID call) ∧
  (∀ id, id ∈ rs_Approved rs → id ∈ cp_Approved cp ∨ (approved = true ∧ id = call_ID call)).
Proof.
  intros Hb Hp Hne Hv. unfold BuildResumeRequest in Hb. destruct (choiceError cp approved note); [done|].
  destruct (decisionMessage cp approved note) as [decision|] eqn:Hd; [|done].
  destruct (resumeRules cp reqRules) as [rules|]; [|by repeat case_match].
  set (messages := cp_Messages cp ++ option_list decision) in Hb. split.
  - intros ->. unfold decisionMessage in Hd. rewrite Hp in Hd. injection Hd as <-. simpl in messages.
    eapply (answered_not_unresolved _ _ (toolMessage (call_ID call) (rejectionContent call note))); try done.
    apply resumed_keeps_tool; [done|]. destruct (BaseMessages cp) as [|b bs]; injection Hb as <-; simpl.
    + right. split; [done|]. apply elem_of_app. right. left.
    + left. destruct Hv as [Hv|Hv]; [|done]. rewrite (proj2 (Z.leb_le _ _) Hv). apply elem_of_app. right. left.
  - assert (rs_Approved rs = approvedIDs cp approved) as -> by (by destruct (BaseMessages cp); injection Hb as <-).
    intros id. unfold approvedIDs. rewrite Hp. destruct (approved && _) eqn:Ha.
    + apply andb_true_iff in Ha as [-> _]. unfold appendUniqueString. case_bool_decide.
      * intros Hin%metadataStringSlice_subset. by left.
      * rewrite elem_of_app, list_elem_of_singleton. intros [Hin%metadataStringSlice_subset| ->]; [by left|by right].
    + intros Hin%metadataStringSlice_subset. by left.
Qed.

End Resume.

(** ** A tool batch with a question *)

(** Two tools: one writes, the other asks the user. *)
Definition ask_tool : RuntimeTool :=
  mkRuntimeTool "request_user_input" "asks" "{}" (Some (mkToolMetadata "" false 0 0 "none" [] "")).

Definition write_call : ToolCall := mkToolCall "w1" "" "write_file" "{}".
Definition ask_call : ToolCall := mkToolCall "q1" "" "request_user_input" "{}".

Definition sample_question : UserInputQuestion := mkUserInputQuestion "color" "" "Which color?" [mkUserInputOption "red" ""] false.

Definition write_low : RuntimeTool :=
  mkRuntimeTool "write_file" "writes a file" "{}" (Some (mkToolMetadata RiskLow false 0 0 "write" [] "")).

Definition sample_request : BatchRequest :=
  mkBatchRequest [Some write_low; Some ask_tool] 16 (mkToolPolicy [] 0 0 [] [] false) "" [].

Definition sample_run : RunResult := mkRunResult "" "" 1 0 [] [] None None.

(** The write succeeds, the question is put to the user. *)
Definition sample_execute (p : preparedToolCall) : option ToolResult * option string :=
  if (call_Name (pc_call p) =? "write_file")%string then (Some (mkToolResult "" "written" false ∅ None), None)
  else (Some (mkToolResult "" "" false ∅
          (Some (mkToolApproval requestUserInput "Input" "need input" true [] [sample_question]))), None).

Definition sample_batch (r : RunResult) (messages : list ChatMessage) (calls : list ToolCall) (approved : list string) : BatchOutcome :=
  executeToolBatch (H := AsciiTables) always_valid decode_null decode_empty constant_hash
    (DefaultPre (H := AsciiTables) (H0 := sample_decoder) (λ _, None))
    (DefaultPost (λ s, s) (λ _, None) (λ _, None)) (λ _, "denied"%string) []
    sample_execute (λ _, false) "context canceled" sample_request r messages calls approved.

Definition user_task : ChatMessage := mkChatMessage RoleUser "write it" "" [].
Definition assistant_turn : ChatMessage := mkChatMessage RoleAssistant "" "" [write_call; ask_call].

(** The batch stops to wait for the user; [Run] hydrates the checkpoint. *)
Definition first_outcome : BatchOutcome := sample_batch sample_run [user_task; assistant_turn] [write_call; ask_call] [].

Definition waiting_checkpoint : option Checkpoint :=
  (λ c, hydrateCheckpoint c [user_task] [assistant_turn] (Steps (bo_result first_outcome)) (bo_messages first_outcome) 1 1) <$>
  ResultCheckpoint (bo_result first_outcome).

(** The user answers and the run resumes. *)
Definition resumed_run : option Resumed :=
  match waiting_checkpoint with
  | Some cp =>
    match BuildResumeRequest (H := sample_decoder) sample_marshal sample_hash
            (λ _, Some {["color"%string := "red"%string]}) (λ _, "{answers}"%string) cp true "answers:{...}" [] "" with
    | Ok rs => Some rs
    | Err _ => None
    end
  | None => None
  end.

Definition second_outcome : option BatchOutcome :=
  (λ rs, sample_batch sample_run (resumedMessages rs) (resumedCalls (req_Tools sample_request) rs) (rs_Approved rs)) <$> resumed_run.

(** When a tool of a batch asks the user, the results of the other tools of
    the batch are dropped although they were executed; after the answer the
    resumed run finds their calls unresolved and executes them again.  Here a
    write is executed twice. *)
Theorem write_executed_twice :
  bo_stop first_outcome = true ∧ bo_executed first_outcome = [write_call; ask_call] ∧
  (bo_executed <$> second_outcome) = Some [write_call] ∧ (bo_stop <$> second_outcome) = Some false.
Proof. vm_compute. split_and!; reflexivity. Qed.

Lemma decision_respected_witness :
  let cp := mkCheckpoint 2 1 1 [user_task] [assistant_turn] [] [user_task; assistant_turn] (Some write_call) [] "waiting_human" 1 0 "" [] None in
  ∃ rs, BuildResumeRequest (H := sample_decoder) sample_marshal sample_hash (λ _, None) (λ _, ""%string) cp false "no" [] "" = Ok rs ∧
    (∀ c, c ∈ resumedCalls (req_Tools sample_request) rs → call_ID c ≠ "w1"%string).
Proof.
  intros cp. eexists. split; [vm_compute; reflexivity|].
  eapply (decision_respected (H := sample_decoder) sample_marshal sample_hash (λ _, None) (λ _, ""%string) cp false "no" [] "" _
            (req_Tools sample_request) write_call).
  - vm_compute. reflexivity.
  - reflexivity.
  - discriminate.
  - left. vm_compute. discriminate.
  - reflexivity.
Defined.
