(* ===== verification/Goals.v ===== *)
(** Durable runs and thread goals: the run status machine
    (internal/domain/agent/run.go), the goal domain (internal/domain/goal/goal.go)
    with its MySQL repository (internal/infrastructure/mysql/goal_repo.go), the
    goal tools of internal/runtime/toolruntime/system_tools.go and the goal use
    cases and token accounting of internal/application/agent_usecase (goal.go,
    [accountGoalRun] of turn_worker.go).

    The repository is an interface: a type class with the operations and one with
    the laws its clients rely on.  A table with its unique index on the owner and
    the conversation is the instance.  Each transaction and each section under
    [goalUsageMu] is one atomic step; time stamps, events and steering messages are
    left out. *)
From S2P Require Import Prelude GoStr Chat.
Open Scope Z_scope.

(** ** The run status machine *)

Definition RunStatusRunning : string := "running".
Definition RunStatusQueued : string := "queued".
Definition RunStatusSucceeded : string := "succeeded".
Definition RunStatusFailed : string := "failed".
Definition RunStatusCancelled : string := "cancelled".
Definition RunStatusWaitingHuman : string := "waiting_human".
Definition RunStatusPaused : string := "paused".
Definition RunStatusResuming : string := "resuming".
Definition RunStatusTimeout : string := "timeout".

Definition one_of (s : string) (l : list string) : bool := bool_decide (s ∈ l).

Definition canTransitionRunStatus (from to : string) : bool :=
  if (from =? "")%string then one_of to [RunStatusQueued; RunStatusRunning]
  else if (from =? RunStatusQueued)%string then one_of to [RunStatusRunning; RunStatusCancelled; RunStatusFailed]
  else if (from =? RunStatusRunning)%string then
    one_of to [RunStatusQueued; RunStatusWaitingHuman; RunStatusPaused; RunStatusSucceeded; RunStatusFailed;
               RunStatusCancelled; RunStatusTimeout]
  else if one_of from [RunStatusWaitingHuman; RunStatusPaused] then
    one_of to [RunStatusResuming; RunStatusCancelled; RunStatusFailed]
  else if (from =? RunStatusResuming)%string then
    one_of to [RunStatusQueued; RunStatusRunning; RunStatusWaitingHuman; RunStatusPaused; RunStatusSucceeded;
               RunStatusFailed; RunStatusCancelled]
  else false.

(** [TransitionStatus]: the new status, or an invalid transition. *)
Definition TransitionStatus (status next : string) : option string :=
  if (status =? next)%string then Some status
  else if canTransitionRunStatus status next then Some next
  else None.

Definition IsActiveRunStatus (status : string) : bool :=
  one_of status [RunStatusQueued; RunStatusRunning; RunStatusResuming; RunStatusWaitingHuman; RunStatusPaused].

Definition terminalRunStatuses : list string :=
  [RunStatusSucceeded; RunStatusFailed; RunStatusCancelled; RunStatusTimeout].

(** The life of a run: the statuses it went through, the latest first. *)
Inductive run_history : string → list string → Prop :=
| history_new : run_history "" []
| history_step s past next s' :
    run_history s past → TransitionStatus s next = Some s' → run_history s' (s :: past).

Lemma one_of_true s l : one_of s l = true ↔ s ∈ l.
Proof. apply bool_decide_eq_true. Qed.

Lemma canTransition_target from to :
  canTransitionRunStatus from to = true → IsActiveRunStatus to = true ∨ to ∈ terminalRunStatuses.
Proof.
  unfold canTransitionRunStatus, IsActiveRunStatus, terminalRunStatuses. intros Ht.
  rewrite one_of_true.
  repeat split_match_in Ht; rewrite ?one_of_true in Ht; rewrite ?elem_of_cons, ?elem_of_nil in *; naive_solver.
Qed.

Lemma canTransition_terminal from to : from ∈ terminalRunStatuses → canTransitionRunStatus from to = false.
Proof.
  unfold terminalRunStatuses. rewrite !elem_of_cons, elem_of_nil. intros [->|[->|[->|[->|[]]]]]; reflexivity.
Qed.

Lemma canTransition_resuming from :
  canTransitionRunStatus from RunStatusResuming = true → from ∈ [RunStatusWaitingHuman; RunStatusPaused].
Proof.
  unfold canTransitionRunStatus.
  destruct (String.eqb_spec from "") as [->|]; [done|].
  destruct (String.eqb_spec from RunStatusQueued) as [->|]; [done|].
  destruct (String.eqb_spec from RunStatusRunning) as [->|]; [done|].
  destruct (one_of from _) eqn:Hw; [by apply one_of_true in Hw|].
  by destruct (String.eqb_spec from RunStatusResuming) as [->|].
Qed.

(** A transition keeps the status or moves along [canTransitionRunStatus]. *)
Lemma TransitionStatus_cases s next s' :
  TransitionStatus s next = Some s' → s' = s ∨ canTransitionRunStatus s s' = true.
Proof.
  unfold TransitionStatus. destruct (String.eqb_spec s next); [intros [= <-]; by left|].
  destruct (canTransitionRunStatus s next) eqn:Hc; [|done]. intros [= <-]. by right.
Qed.

Lemma history_known s past :
  run_history s past → s = ""%string ∨ IsActiveRunStatus s = true ∨ s ∈ terminalRunStatuses.
Proof.
  induction 1 as [|s past next s' Hh IH Ht]; [by left|].
  apply TransitionStatus_cases in Ht as [->|Hc]; [done|right]. by apply (canTransition_target s).
Qed.

Lemma history_terminal s past p : run_history s past → p ∈ past → p ∈ terminalRunStatuses → s = p.
Proof.
  intros Hh. induction Hh as [|s past next s' Hh IH Ht]; intros Hp Hterm; [by apply elem_of_nil in Hp|].
  assert (s = p) as -> by (apply elem_of_cons in Hp as [->|Hp]; auto).
  apply TransitionStatus_cases in Ht as [->|Hc]; [done|]. by rewrite canTransition_terminal in Hc.
Qed.

Lemma history_resuming s past :
  run_history s past → s = RunStatusResuming →
  ∃ p, head past = Some p ∧ p ∈ [RunStatusWaitingHuman; RunStatusPaused; RunStatusResuming].
Proof.
  intros Hh ->. inversion Hh as [|s past' next s' Hh' Ht]; subst. exists s. split; [done|].
  apply TransitionStatus_cases in Ht as [<-|Hc]; [set_solver|]. apply canTransition_resuming in Hc. set_solver.
Qed.

(** Whatever transitions a run is asked to make, it is new, active or in a
    terminal state; once terminal it never changes; and it is resuming only right
    after it was paused or waited for a human (or was resuming already). *)
Theorem run_status_machine s past :
  run_history s past →
  (s = ""%string ∨ IsActiveRunStatus s = true ∨ s ∈ terminalRunStatuses) ∧
  (∀ p, p ∈ past → p ∈ terminalRunStatuses → s = p) ∧
  (s = RunStatusResuming → ∃ p, head past = Some p ∧ p ∈ [RunStatusWaitingHuman; RunStatusPaused; RunStatusResuming]) ∧
  (IsActiveRunStatus s = true → s ∉ terminalRunStatuses).
Proof.
  intros Hh. split_and!; [by eapply history_known|by intros p; eapply history_terminal|by eapply history_resuming|].
  unfold IsActiveRunStatus, terminalRunStatuses. rewrite one_of_true, !elem_of_cons, !elem_of_nil.
  intros [->|[->|[->|[->|[->|[]]]]]]; by intros [?|[?|[?|[?|[]]]]].
Qed.

Lemma run_status_machine_witness :
  run_history RunStatusCancelled [RunStatusResuming; RunStatusPaused; RunStatusRunning; RunStatusQueued; ""%string] ∧
  ∀ p, p ∈ [RunStatusResuming; RunStatusPaused; RunStatusRunning; RunStatusQueued; ""%string] →
    p ∈ terminalRunStatuses → RunStatusCancelled = p.
Proof.
  assert (run_history RunStatusCancelled [RunStatusResuming; RunStatusPaused; RunStatusRunning; RunStatusQueued; ""%string]) as Hh.
  { apply (history_step _ _ RunStatusCancelled); [|vm_compute; reflexivity].
    apply (history_step _ _ RunStatusResuming); [|vm_compute; reflexivity].
    apply (history_step _ _ RunStatusPaused); [|vm_compute; reflexivity].
    apply (history_step _ _ RunStatusRunning); [|vm_compute; reflexivity].
    apply (history_step _ _ RunStatusQueued); [|vm_compute; reflexivity]. constructor. }
  split; [exact Hh|]. apply (run_status_machine _ _ Hh).
Defined.

(** ** The goal domain *)

Definition StatusActive : string := "active".
Definition StatusPaused : string := "paused".
Definition StatusBlocked : string := "blocked".
Definition StatusUsageLimited : string := "usage_limited".
Definition StatusBudgetLimited : string := "budget_limited".
Definition StatusComplete : string := "complete".

Inductive GoalError :=
| ErrNotFound
| ErrConflict
| ErrDuplicateKey
| ErrGoal (message : string).

Record ThreadGoal := mkThreadGoal {
  goal_OwnerID : Z;
  goal_ConversationID : Z;
  goal_GoalID : string;
  goal_Objective : string;
  goal_Status : string;
  goal_TokenBudget : option Z;
  goal_TokensUsed : Z;
  goal_TimeUsedSeconds : Z
}.

#[export] Instance ThreadGoal_eq_dec : EqDecision ThreadGoal.
Proof. solve_decision. Defined.

Definition ValidateObjective (objective : string) : result GoalError unit :=
  if (objective =? "")%string then Err (ErrGoal "goal objective is required")
  else if 4000 <? rune_count objective then Err (ErrGoal "goal objective must be at most 4000 Unicode characters")
  else Ok tt.

Definition NormalizeObjective (objective : string) : result GoalError string :=
  let objective := TrimSpace objective in
  match ValidateObjective objective with
  | Err e => Err e
  | Ok _ => Ok objective
  end.

Definition ValidateStatus (status : string) : bool :=
  one_of status [StatusActive; StatusPaused; StatusBlocked; StatusUsageLimited; StatusBudgetLimited; StatusComplete].

Definition CanSetStatus (current next : string) : bool :=
  if (current =? StatusComplete)%string then (next =? StatusComplete)%string
  else if (current =? StatusBudgetLimited)%string then one_of next [StatusBudgetLimited; StatusComplete]
  else true.

Definition NormalizeBudget (value ceiling : option Z) : result GoalError (option Z) :=
  match ceiling with
  | Some c => if c <=? 0 then Err (ErrGoal "configured goal token budget must be positive")
    else match value with
         | None => Ok (Some c)
         | Some v => if v <=? 0 then Err (ErrGoal "goal token budget must be positive")
             else if c <? v then Err (ErrGoal "goal token budget exceeds configured ceiling")
             else Ok (Some v)
         end
  | None => match value with
         | None => Ok None
         | Some v => if v <=? 0 then Err (ErrGoal "goal token budget must be positive") else Ok (Some v)
         end
  end.

(** ** The repository *)

(** [Create] fills in a goal id (a UUID drawn by the caller of the model) and the
    active status. *)
Definition createDefaults (uuid : string) (item : ThreadGoal) : ThreadGoal :=
  mkThreadGoal (goal_OwnerID item) (goal_ConversationID item)
    (if (goal_GoalID item =? "")%string then uuid else goal_GoalID item)
    (goal_Objective item)
    (if (goal_Status item =? "")%string then StatusActive else goal_Status item)
    (goal_TokenBudget item) (goal_TokensUsed item) (goal_TimeUsedSeconds item).

(** The columns [Update] writes. *)
Definition updateColumns (current item : ThreadGoal) : ThreadGoal :=
  mkThreadGoal (goal_OwnerID current) (goal_ConversationID current) (goal_GoalID current)
    (goal_Objective item) (goal_Status item) (goal_TokenBudget item)
    (goal_TokensUsed current) (goal_TimeUsedSeconds current).

Definition accountAllowed (mode status : string) : bool :=
  if (mode =? "active_or_stopped")%string then
    one_of status [StatusActive; StatusPaused; StatusBlocked; StatusUsageLimited; StatusBudgetLimited]
  else if (mode =? "active_or_complete")%string then
    one_of status [StatusActive; StatusBudgetLimited; StatusComplete]
  else one_of status [StatusActive; StatusBudgetLimited].

(** The row after the accounting transaction on the row [current]. *)
Definition accountRow (current : ThreadGoal) (timeDelta tokenDelta : Z) (mode expectedGoalID : string) : ThreadGoal :=
  let timeDelta := if timeDelta <? 0 then 0 else timeDelta in
  let tokenDelta := if tokenDelta <? 0 then 0 else tokenDelta in
  if negb (expectedGoalID =? "")%string && negb (goal_GoalID current =? expectedGoalID)%string then current
  else if negb (accountAllowed mode (goal_Status current)) || ((timeDelta =? 0) && (tokenDelta =? 0)) then current
  else
    let used := goal_TokensUsed current + tokenDelta in
    let status :=
      if (goal_Status current =? StatusActive)%string
         && (match goal_TokenBudget current with Some b => b <=? used | None => false end)
      then StatusBudgetLimited else goal_Status current in
    mkThreadGoal (goal_OwnerID current) (goal_ConversationID current) (goal_GoalID current)
      (goal_Objective current) status (goal_TokenBudget current) used (goal_TimeUsedSeconds current + timeDelta).

(** goal.Repository with goal.VersionedRepository.  A failed operation is rolled
    back, so it has no successor state. *)
Class GoalRepository (S : Type) := {
  repo_Get : S → Z → Z → result GoalError ThreadGoal;
  repo_Create : S → string → ThreadGoal → result GoalError (S * ThreadGoal);
  repo_Update : S → ThreadGoal → string → result GoalError S;
  repo_Delete : S → Z → Z → result GoalError S;
  repo_AccountExpected : S → Z → Z → Z → Z → string → string → result GoalError (S * ThreadGoal)
}.

(** What the use cases rely on: a thread has at most one goal, and a successful
    operation changes the row of its thread as its transaction says and no other. *)
Class GoalRepositoryLaws (S : Type) `{!GoalRepository S} := {
  repo_wf : S → Prop;
  law_get_key s o c g : repo_wf s → repo_Get s o c = Ok g → goal_OwnerID g = o ∧ goal_ConversationID g = c;
  law_create s uuid item s' g : repo_wf s → repo_Create s uuid item = Ok (s', g) →
    repo_wf s' ∧ g = createDefaults uuid item ∧
    repo_Get s (goal_OwnerID item) (goal_ConversationID item) = Err ErrNotFound ∧
    repo_Get s' (goal_OwnerID item) (goal_ConversationID item) = Ok g ∧
    ∀ o c, (o, c) ≠ (goal_OwnerID item, goal_ConversationID item) → repo_Get s' o c = repo_Get s o c;
  law_update s item expected s' : repo_wf s → repo_Update s item expected = Ok s' → repo_wf s' ∧ ∃ current,
    repo_Get s (goal_OwnerID item) (goal_ConversationID item) = Ok current ∧
    (expected = ""%string ∨ goal_GoalID current = expected) ∧
    CanSetStatus (goal_Status current) (goal_Status item) = true ∧
    repo_Get s' (goal_OwnerID item) (goal_ConversationID item) = Ok (updateColumns current item) ∧
    ∀ o c, (o, c) ≠ (goal_OwnerID item, goal_ConversationID item) → repo_Get s' o c = repo_Get s o c;
  law_delete s o c s' : repo_wf s → repo_Delete s o c = Ok s' →
    repo_wf s' ∧ repo_Get s' o c = Err ErrNotFound ∧
    ∀ o' c', (o', c') ≠ (o, c) → repo_Get s' o' c' = repo_Get s o' c';
  law_account s o c dt dk mode expected s' g :
    repo_wf s → repo_AccountExpected s o c dt dk mode expected = Ok (s', g) →
    repo_wf s' ∧ ∃ current, repo_Get s o c = Ok current ∧ g = accountRow current dt dk mode expected ∧
    repo_Get s' o c = Ok g ∧ ∀ o' c', (o', c') ≠ (o, c) → repo_Get s' o' c' = repo_Get s o' c'
}.

(** The MySQL table: one row per owner and conversation
    (ux_agent_thread_goals_conversation), goal ids unique
    (ux_agent_thread_goals_goal_id). *)
Abbreviation GoalTable := (gmap (Z * Z) ThreadGoal).

Definition goal_key (g : ThreadGoal) : Z * Z := (goal_OwnerID g, goal_ConversationID g).

Definition hasGoalID (t : GoalTable) (id : string) : bool :=
  bool_decide (id ∈ goal_GoalID ∘ snd <$> map_to_list t).

Definition Get (t : GoalTable) (ownerID conversationID : Z) : result GoalError ThreadGoal :=
  match t !! (ownerID, conversationID) with
  | Some item => Ok item
  | None => Err ErrNotFound
  end.

Definition Create (t : GoalTable) (uuid : string) (item : ThreadGoal) : result GoalError (GoalTable * ThreadGoal) :=
  let item := createDefaults uuid item in
  match t !! goal_key item with
  | Some _ => Err ErrDuplicateKey
  | None => if hasGoalID t (goal_GoalID item) then Err ErrDuplicateKey
            else Ok (<[goal_key item := item]> t, item)
  end.

Definition Update (t : GoalTable) (item : ThreadGoal) (expectedGoalID : string) : result GoalError GoalTable :=
  match t !! goal_key item with
  | None => Err ErrConflict
  | Some current =>
      if negb (expectedGoalID =? "")%string && negb (goal_GoalID current =? expectedGoalID)%string then Err ErrConflict
      else if negb (CanSetStatus (goal_Status current) (goal_Status item)) then Err ErrConflict
      else Ok (<[goal_key item := updateColumns current item]> t)
  end.

Definition Delete (t : GoalTable) (ownerID conversationID : Z) : result GoalError GoalTable :=
  match t !! (ownerID, conversationID) with
  | None => Err ErrNotFound
  | Some _ => Ok (delete (ownerID, conversationID) t)
  end.

Definition account (t : GoalTable) (ownerID conversationID timeDelta tokenDelta : Z) (mode expectedGoalID : string)
    : result GoalError (GoalTable * ThreadGoal) :=
  match t !! (ownerID, conversationID) with
  | None => Err ErrNotFound
  | Some current =>
      let row := accountRow current timeDelta tokenDelta mode expectedGoalID in
      Ok (<[(ownerID, conversationID) := row]> t, row)
  end.

#[export] Instance MySQLGoals : GoalRepository GoalTable := {
  repo_Get := Get;
  repo_Create := Create;
  repo_Update := Update;
  repo_Delete := Delete;
  repo_AccountExpected := account
}.

(** The rows are stored under their own key. *)
Definition table_wf (t : GoalTable) : Prop := map_Forall (λ k g, goal_key g = k) t.

Lemma Get_lookup (t : GoalTable) o c g : Get t o c = Ok g ↔ t !! (o, c) = Some g.
Proof. unfold Get. destruct (t !! (o, c)); naive_solver. Qed.

Lemma Get_ne (t : GoalTable) k g o c : (o, c) ≠ k → Get (<[k := g]> t) o c = Get t o c.
Proof. intros Hk. unfold Get. by rewrite lookup_insert_ne. Qed.

Lemma Get_eq (t : GoalTable) o c g : Get (<[(o, c) := g]> t) o c = Ok g.
Proof. unfold Get. by rewrite lookup_insert_eq. Qed.

Lemma accountRow_key g dt dk mode e : goal_key (accountRow g dt dk mode e) = goal_key g.
Proof. unfold accountRow. by repeat case_match. Qed.

Lemma accountRow_id g dt dk mode e : goal_GoalID (accountRow g dt dk mode e) = goal_GoalID g.
Proof. unfold accountRow. by repeat case_match. Qed.

#[export] Instance MySQLGoals_laws : GoalRepositoryLaws GoalTable.
Proof.
  apply (Build_GoalRepositoryLaws _ _ table_wf).
  - intros t o c g Hwf Hg. apply Get_lookup, Hwf in Hg. by injection Hg.
  - intros t uuid item t' g Hwf. cbn. unfold Create.
    change (goal_key (createDefaults uuid item)) with (goal_key item).
    destruct (t !! goal_key item) eqn:Hk; [done|]. destruct (hasGoalID _ _); [done|]. intros [= <- <-].
    split_and!; [by apply map_Forall_insert_2|done|unfold Get; by unfold goal_key in Hk; rewrite Hk|apply Get_eq|].
    intros o c Hne. by apply Get_ne.
  - intros t item e t' Hwf. cbn. unfold Update. destruct (t !! goal_key item) as [cur|] eqn:Hk; [|done].
    destruct (negb (e =? "")%string && _) eqn:He; [done|].
    destruct (CanSetStatus _ _) eqn:Hs; [|done]. intros [= <-].
    split; [apply map_Forall_insert_2; [|done]; apply Hwf in Hk; by rewrite <- Hk|].
    exists cur. split_and!; [by apply Get_lookup| |done|apply Get_eq|intros; by apply Get_ne].
    bool_prop. destruct He as [He|He]; bool_prop; auto.
  - intros t o c t' Hwf. cbn. unfold Delete. destruct (t !! (o, c)) eqn:Hk; [|done]. intros [= <-].
    split_and!; [by apply map_Forall_delete|unfold Get; by rewrite lookup_delete_eq|].
    intros o' c' Hne. unfold Get. by rewrite lookup_delete_ne.
  - intros t o c dt dk mode e t' g Hwf. cbn. unfold account. destruct (t !! (o, c)) as [cur|] eqn:Hk; [|done].
    intros [= <- <-].
    split; [apply map_Forall_insert_2; [|done]; rewrite accountRow_key; by apply Hwf|].
    exists cur. split_and!; [by apply Get_lookup|done|apply Get_eq|intros; by apply Get_ne].
Defined.

(** ** The use cases and the tools *)

(** conversation.NormalizeMode. *)
Definition NormalizeMode (mode : string) : option string :=
  if one_of (TrimSpace mode) [""; "default"; "goal"; "react"]%string then Some "default"%string
  else if one_of (TrimSpace mode) ["plan"; "plan_execute"]%string then Some "plan"%string
  else None.

Record GoalUpdateRequest := mkGoalUpdateRequest {
  req_Objective : option string;
  req_Status : option string;
  req_TokenBudget : option Z
}.

(** The columns of a run the accounting reads; [run_Mode] is the [mode] of its
    input JSON, printed. *)
Record Run := mkRun {
  run_ID : Z;
  run_OwnerID : Z;
  run_ConversationID : option Z;
  run_RunType : string;
  run_Mode : string;
  run_LatencyMS : Z
}.

Record goalUsageState := mkGoalUsageState {
  usage_GoalID : string;
  LastUsage : Usage;
  HasUsage : bool;
  TokensAccounted : Z;
  SecondsAccounted : Z
}.

Definition zeroUsageState : goalUsageState := mkGoalUsageState "" zeroUsage false 0 0.

(** The entries of a [RunOutput] the settlement reads. *)
Record RunOutput := mkRunOutput {
  output_usage : option Usage;
  output_latency_ms : option Z
}.

Definition usageFromOutput (output : RunOutput) : Usage := default zeroUsage (output_usage output).

Definition goalTokenDelta (usage : Usage) : Z :=
  let input := PromptTokens usage - CachedInputTokens usage in
  let input := if input <? 0 then 0 else input in
  let output := CompletionTokens usage in
  let output := if output <? 0 then 0 else output in
  input + output.

Definition isPlanMode (run : Run) : bool := bool_decide (NormalizeMode (run_Mode run) = Some "plan"%string).

(** The usage a report adds to the previous one of the run. *)
Definition usageResidual (previous usage : Usage) : Z :=
  let previous :=
    if (PromptTokens usage <? PromptTokens previous) || (CompletionTokens usage <? CompletionTokens previous)
       || (TotalTokens usage <? TotalTokens previous)
    then zeroUsage else previous in
  let tokens := goalTokenDelta
    (mkUsage (PromptTokens usage - PromptTokens previous) (CompletionTokens usage - CompletionTokens previous) 0
       (CachedInputTokens usage - CachedInputTokens previous) 0) in
  if tokens <? 0 then 0 else tokens.

Section Service.
Context {S : Type} `{!GoalRepository S}.
(** [s.goalTokenBudgetCeiling] and the run repository. *)
Context (ceiling : option Z) (FindByID : Z → Z → option Run).

Record Service := mkService {
  svc_goals : S;
  goalUsageByRun : gmap Z goalUsageState
}.

Definition GetGoal (s : S) (ownerID conversationID : Z) : result GoalError (option ThreadGoal) :=
  if (ownerID <=? 0) || (conversationID <=? 0) then Err (ErrGoal "goal repository is not configured")
  else match repo_Get s ownerID conversationID with
       | Err ErrNotFound => Ok None
       | Err e => Err e
       | Ok item => Ok (Some item)
       end.

Open Scope go_scope.

Definition requestObjective (request : GoalUpdateRequest) : result GoalError (option string) :=
  match req_Objective request with
  | None => Ok None
  | Some o => rmap Some (NormalizeObjective o)
  end.

Definition requestStatus (current : option ThreadGoal) (request : GoalUpdateRequest) : result GoalError string :=
  let status := match current with Some g => goal_Status g | None => StatusActive end in
  match req_Status request with
  | None => Ok status
  | Some next =>
      if negb (ValidateStatus next) then Err (ErrGoal "invalid goal status")
      else match current with
           | Some g => if CanSetStatus (goal_Status g) next then Ok next
                       else Err (ErrGoal "cannot change a terminal goal status")
           | None => Ok next
           end
  end.

Definition requestBudget (current : option ThreadGoal) (request : GoalUpdateRequest) : result GoalError (option Z) :=
  match req_TokenBudget request, current with
  | Some v, _ => NormalizeBudget (Some v) ceiling
  | None, Some g => Ok (goal_TokenBudget g)
  | None, None => NormalizeBudget None ceiling
  end.

Definition SetGoal (s : S) (ownerID conversationID : Z) (uuid : string) (request : GoalUpdateRequest)
    : result GoalError (S * ThreadGoal) :=
  let! current := GetGoal s ownerID conversationID in
  let! objective := requestObjective request in
  let! status := requestStatus current request in
  let! budget := requestBudget current request in
  match current with
  | None =>
      match objective with
      | None => Err (ErrGoal "goal objective is required")
      | Some o => repo_Create s uuid (mkThreadGoal ownerID conversationID "" o status budget 0 0)
      end
  | Some g =>
      let item := mkThreadGoal (goal_OwnerID g) (goal_ConversationID g) (goal_GoalID g)
                    (default (goal_Objective g) objective) status budget (goal_TokensUsed g) (goal_TimeUsedSeconds g) in
      let! s' := repo_Update s item (goal_GoalID g) in
      Ok (s', item)
  end.

Definition ClearGoal (s : S) (ownerID conversationID : Z) : result GoalError S :=
  match repo_Delete s ownerID conversationID with
  | Err ErrNotFound => Ok s
  | r => r
  end.

(** The goal tools, on their decoded arguments; [conversationID] is None when
    the run has no thread. *)
Definition CreateGoalTool_Execute (s : S) (ownerID : Z) (conversationID : option Z) (uuid : string)
    (objective : string) (tokenBudget : option Z) : result GoalError (S * ThreadGoal) :=
  match conversationID with
  | None => Err (ErrGoal "goal repository is unavailable")
  | Some conv =>
      let! objective := NormalizeObjective objective in
      if match tokenBudget with Some b => b <=? 0 | None => false end
      then Err (ErrGoal "goal token budget must be positive")
      else if match repo_Get s ownerID conv with
              | Ok existing => negb (goal_Status existing =? StatusComplete)%string
              | Err _ => false
              end
      then Err (ErrGoal "cannot create a new goal because this thread has an unfinished goal")
      else
        let! budget := NormalizeBudget tokenBudget ceiling in
        repo_Create s uuid (mkThreadGoal ownerID conv "" objective StatusActive budget 0 0)
  end.

Definition UpdateGoalTool_Execute (s : S) (ownerID : Z) (conversationID : option Z) (status : string)
    : result GoalError (S * ThreadGoal) :=
  match conversationID with
  | None => Err (ErrGoal "goal repository is unavailable")
  | Some conv =>
      if negb (one_of status [StatusComplete; StatusBlocked]) then Err (ErrGoal "update_goal can only mark the existing goal complete or blocked; pause, resume, budget-limited, and usage-limited status changes are controlled by the user or system")
      else match repo_Get s ownerID conv with
           | Err _ => Err (ErrGoal "cannot update goal because this thread has no goal")
           | Ok item =>
               if negb (CanSetStatus (goal_Status item) status) then Err (ErrGoal "cannot change a terminal goal status")
               else
                 let item := mkThreadGoal (goal_OwnerID item) (goal_ConversationID item) (goal_GoalID item)
                               (goal_Objective item) status (goal_TokenBudget item) (goal_TokensUsed item)
                               (goal_TimeUsedSeconds item) in
                 let! s' := repo_Update s item (goal_GoalID item) in
                 Ok (s', item)
           end
  end.

(** ** Accounting *)

(** A usage report of a run, between two lock sections on [goalUsageByRun]. *)
Definition accountGoalUsageEvent (v : Service) (ownerID runID : Z) (usage : Usage) : Service :=
  if runID <=? 0 then v else
  match FindByID ownerID runID with
  | None => v
  | Some run =>
      match run_ConversationID run with
      | None => v
      | Some conv =>
          if (run_RunType run =? "subagent")%string || isPlanMode run then v
          else match repo_Get (svc_goals v) ownerID conv with
               | Err _ => v
               | Ok current =>
                   if (goal_Status current =? StatusComplete)%string then v
                   else
                     let state := default zeroUsageState (goalUsageByRun v !! runID) in
                     let state := if (usage_GoalID state =? goal_GoalID current)%string then state
                                  else mkGoalUsageState (goal_GoalID current) zeroUsage false 0 0 in
                     let previous := LastUsage state in
                     let state := mkGoalUsageState (usage_GoalID state) usage true (TokensAccounted state) (SecondsAccounted state) in
                     let v := mkService (svc_goals v) (<[runID := state]> (goalUsageByRun v)) in
                     let tokens := usageResidual previous usage in
                     if tokens <=? 0 then v
                     else match repo_AccountExpected (svc_goals v) ownerID conv 0 tokens "active_only" (goal_GoalID current) with
                          | Err _ => v
                          | Ok (goals, _) =>
                              mkService goals (<[runID := mkGoalUsageState (usage_GoalID state) usage true
                                                   (TokensAccounted state + tokens) (SecondsAccounted state)]> (goalUsageByRun v))
                          end
               end
      end
  end.

(** The settlement when a run stops. *)
Definition accountGoalRun (v : Service) (run : Run) (output : RunOutput) : Service :=
  match run_ConversationID run with
  | None => v
  | Some conv =>
      if isPlanMode run then v
      else
        let tokens := goalTokenDelta (usageFromOutput output) in
        let latencyMS := default 0 (output_latency_ms output) in
        let latencyMS := if latencyMS <=? 0 then run_LatencyMS run else latencyMS in
        let seconds := if 0 <? latencyMS then latencyMS ÷ 1000 else 0 in
        let seconds := if seconds <? 0 then 0 else seconds in
        let mode := match repo_Get (svc_goals v) (run_OwnerID run) conv with
                    | Ok current =>
                        if (goal_Status current =? StatusComplete)%string then "active_or_complete"%string
                        else if (goal_Status current =? StatusBlocked)%string then "active_or_stopped"%string
                        else "active_only"%string
                    | Err _ => "active_only"%string
                    end in
        let state := default zeroUsageState (goalUsageByRun v !! run_ID run) in
        let residualTokens := tokens - TokensAccounted state in
        let residualTokens := if residualTokens <? 0 then 0 else residualTokens in
        let residualSeconds := seconds - SecondsAccounted state in
        let residualSeconds := if residualSeconds <? 0 then 0 else residualSeconds in
        match repo_AccountExpected (svc_goals v) (run_OwnerID run) conv residualSeconds residualTokens mode (usage_GoalID state) with
        | Err _ => v
        | Ok (goals, _) => mkService goals (goalUsageByRun v)
        end
  end.

Definition clearGoalUsage (v : Service) (runID : Z) : Service :=
  mkService (svc_goals v) (delete runID (goalUsageByRun v)).

Definition markGoalStatus (v : Service) (run : Run) (status : string) : Service :=
  match run_ConversationID run with
  | None => v
  | Some conv =>
      match repo_Get (svc_goals v) (run_OwnerID run) conv with
      | Err _ => v
      | Ok item =>
          if negb (goal_Status item =? StatusActive)%string then v
          else
            let item := mkThreadGoal (goal_OwnerID item) (goal_ConversationID item) (goal_GoalID item)
                          (goal_Objective item) status (goal_TokenBudget item) (goal_TokensUsed item)
                          (goal_TimeUsedSeconds item) in
            match repo_Update (svc_goals v) item (goal_GoalID item) with
            | Err _ => v
            | Ok goals => mkService goals (goalUsageByRun v)
            end
      end
  end.

(** What [completeTurn] and [failTurn] do to the goal of the run. *)
Definition completeTurn_goal (v : Service) (run : Run) (output : RunOutput) : Service :=
  clearGoalUsage (accountGoalRun v run output) (run_ID run).

Definition failTurn_goal (v : Service) (run : Run) (rateLimited : bool) : Service :=
  let v := accountGoalRun v run (mkRunOutput None None) in
  let v := markGoalStatus v run (if rateLimited then StatusUsageLimited else StatusBlocked) in
  clearGoalUsage v (run_ID run).

(** The operations on goals, as one interpreter. *)
Inductive GoalOp :=
| OpSet (ownerID conversationID : Z) (uuid : string) (request : GoalUpdateRequest)
| OpClear (ownerID conversationID : Z)
| OpCreate (ownerID : Z) (conversationID : option Z) (uuid objective : string) (tokenBudget : option Z)
| OpUpdate (ownerID : Z) (conversationID : option Z) (status : string)
| OpUsage (ownerID runID : Z) (usage : Usage)
| OpComplete (run : Run) (output : RunOutput)
| OpFail (run : Run) (rateLimited : bool).

Definition keepOnError {A} (v : Service) (proj : A → S) (r : result GoalError A) : Service :=
  match r with
  | Ok a => mkService (proj a) (goalUsageByRun v)
  | Err _ => v
  end.

Definition applyOp (v : Service) (op : GoalOp) : Service :=
  match op with
  | OpSet o c uuid request => keepOnError v fst (SetGoal (svc_goals v) o c uuid request)
  | OpClear o c => keepOnError v id (ClearGoal (svc_goals v) o c)
  | OpCreate o c uuid objective budget => keepOnError v fst (CreateGoalTool_Execute (svc_goals v) o c uuid objective budget)
  | OpUpdate o c status => keepOnError v fst (UpdateGoalTool_Execute (svc_goals v) o c status)
  | OpUsage o r usage => accountGoalUsageEvent v o r usage
  | OpComplete run output => completeTurn_goal v run output
  | OpFail run limited => failTurn_goal v run limited
  end.

Definition applyOps (v : Service) (ops : list GoalOp) : Service := foldl applyOp v ops.

(** ** The life of a goal *)

(** [g'] is a later version of the goal [g]: the same goal, its counters have
    not decreased, and a terminal status only moves from budget-limited to
    complete. *)
Definition goal_advances (g g' : ThreadGoal) : Prop :=
  goal_GoalID g' = goal_GoalID g ∧
  goal_TokensUsed g ≤ goal_TokensUsed g' ∧ goal_TimeUsedSeconds g ≤ goal_TimeUsedSeconds g' ∧
  (goal_Status g = StatusComplete → goal_Status g' = StatusComplete) ∧
  (goal_Status g = StatusBudgetLimited → goal_Status g' ∈ [StatusBudgetLimited; StatusComplete]).

#[export] Instance goal_advances_preorder : PreOrder goal_advances.
Proof.
  split.
  - intros g. unfold goal_advances. split_and!; [done|lia|lia|done|set_solver].
  - intros g1 g2 g3 (Hi & Ht & Hs & Hc & Hb) (Hi' & Ht' & Hs' & Hc' & Hb').
    split_and!; [congruence|lia|lia|auto|]. intros H1. specialize (Hb H1).
    apply elem_of_cons in Hb as [Hb|Hb]; [auto|]. apply list_elem_of_singleton in Hb. rewrite (Hc' Hb). set_solver.
Qed.

Lemma CanSetStatus_spec current next :
  CanSetStatus current next = true →
  (current = StatusComplete → next = StatusComplete) ∧
  (current = StatusBudgetLimited → next ∈ [StatusBudgetLimited; StatusComplete]).
Proof.
  unfold CanSetStatus. intros Hc. split; intros ->; cbn in Hc; [by apply String.eqb_eq|by apply one_of_true].
Qed.

Lemma updateColumns_advances current item :
  CanSetStatus (goal_Status current) (goal_Status item) = true → goal_advances current (updateColumns current item).
Proof. intros [Hc Hb]%CanSetStatus_spec. unfold goal_advances; cbn. split_and!; [done|lia|lia|done|done]. Qed.

Lemma accountRow_advances g dt dk mode e : goal_advances g (accountRow g dt dk mode e).
Proof.
  unfold accountRow. set (dt' := if dt <? 0 then 0 else dt). set (dk' := if dk <? 0 then 0 else dk).
  assert (0 ≤ dt' ∧ 0 ≤ dk') as [??] by (subst dt' dk'; destruct (Z.ltb_spec dt 0), (Z.ltb_spec dk 0); lia).
  destruct (negb (e =? "")%string && _); [reflexivity|]. destruct (negb _ || _); [reflexivity|].
  unfold goal_advances; cbn. split_and!; [done|lia|lia| |].
  - intros ->. done.
  - intros ->. cbn. set_solver.
Qed.

(** The thread [k] keeps its goal between two states of the repository. *)
Definition keeps_goal `{!GoalRepositoryLaws S} (k : Z * Z) (s s' : S) : Prop :=
  repo_wf s → repo_wf s' ∧
  ∀ g, repo_Get s k.1 k.2 = Ok g → ∃ g', repo_Get s' k.1 k.2 = Ok g' ∧ goal_advances g g'.

Context `{!GoalRepositoryLaws S}.

#[local] Instance keeps_goal_preorder k : PreOrder (keeps_goal k).
Proof.
  split.
  - intros s Hwf. split; [done|]. intros g Hg. by exists g.
  - intros s1 s2 s3 H1 H2 Hwf. destruct (H1 Hwf) as [Hw2 Hg1]. destruct (H2 Hw2) as [Hw3 Hg2]. split; [done|].
    intros g Hg. destruct (Hg1 g Hg) as (g2 & Hg' & Ha). destruct (Hg2 g2 Hg') as (g3 & Hg3 & Hb).
    exists g3. split; [done|]. by transitivity g2.
Qed.

Lemma keeps_goal_frame k (s s' : S) o c :
  repo_wf s' → (∀ g, repo_Get s o c = Ok g → ∃ g', repo_Get s' o c = Ok g' ∧ goal_advances g g') →
  (∀ o' c', (o', c') ≠ (o, c) → repo_Get s' o' c' = repo_Get s o' c') → keeps_goal k s s'.
Proof.
  intros Hwf Hkey Hframe _. split; [done|]. intros g Hg. destruct k as [o' c']; cbn in *.
  destruct (decide ((o', c') = (o, c))) as [[= -> ->]|Hne]; [by apply Hkey|].
  exists g. by rewrite Hframe.
Qed.

Lemma create_keeps k s uuid item s' g : repo_Create s uuid item = Ok (s', g) → keeps_goal k s s'.
Proof.
  intros Hc Hwf. destruct (law_create s uuid item s' g Hwf Hc) as (Hwf' & _ & Hnone & _ & Hframe).
  apply (keeps_goal_frame k s s' _ _ Hwf') in Hframe; [by apply Hframe|]. intros g' Hg'. congruence.
Qed.

Lemma update_keeps k s item e s' : repo_Update s item e = Ok s' → keeps_goal k s s'.
Proof.
  intros Hu Hwf. destruct (law_update s item e s' Hwf Hu) as (Hwf' & cur & Hg & _ & Hs & Hg' & Hframe).
  apply (keeps_goal_frame k s s' _ _ Hwf') in Hframe; [by apply Hframe|]. rewrite Hg. intros g [= <-].
  eexists. split; [done|]. by apply updateColumns_advances.
Qed.

Lemma account_keeps k s o c dt dk mode e s' g :
  repo_AccountExpected s o c dt dk mode e = Ok (s', g) → keeps_goal k s s'.
Proof.
  intros Ha Hwf. destruct (law_account s o c dt dk mode e s' g Hwf Ha) as (Hwf' & cur & Hg & -> & Hg' & Hframe).
  apply (keeps_goal_frame k s s' _ _ Hwf') in Hframe; [by apply Hframe|]. rewrite Hg. intros g [= <-].
  eexists. split; [done|]. apply accountRow_advances.
Qed.

Lemma delete_keeps k s o c s' : k ≠ (o, c) → repo_Delete s o c = Ok s' → keeps_goal k s s'.
Proof.
  intros Hne Hd Hwf. destruct (law_delete s o c s' Hwf Hd) as (Hwf' & _ & Hframe). split; [done|].
  intros g Hg. exists g. destruct k. by rewrite Hframe.
Qed.

#[local] Hint Resolve create_keeps update_keeps account_keeps delete_keeps : canvas.

Lemma SetGoal_keeps k s o c uuid req s' g : SetGoal s o c uuid req = Ok (s', g) → keeps_goal k s s'.
Proof.
  unfold SetGoal, rbind. intros Hs. repeat split_match_in Hs; simplify_eq; eauto with canvas.
Qed.

Lemma CreateGoalTool_keeps k s o c uuid obj b s' g :
  CreateGoalTool_Execute s o c uuid obj b = Ok (s', g) → keeps_goal k s s'.
Proof.
  unfold CreateGoalTool_Execute, rbind. intros Hs.
  destruct c; [|done]. destruct (NormalizeObjective obj); [|done].
  destruct (match b with Some _ => _ | None => _ end); [done|].
  destruct (match repo_Get _ _ _ with Ok _ => _ | Err _ => _ end); [done|].
  destruct (NormalizeBudget b ceiling); [|done]. eauto with canvas.
Qed.

Lemma UpdateGoalTool_keeps k s o c status s' g :
  UpdateGoalTool_Execute s o c status = Ok (s', g) → keeps_goal k s s'.
Proof.
  unfold UpdateGoalTool_Execute, rbind. intros Hs.
  destruct c; [|done]. destruct (negb _); [done|]. destruct (repo_Get _ _ _) as [item|]; [|done].
  destruct (negb _); [done|]. split_match_in Hs; simplify_eq; eauto with canvas.
Qed.

Lemma usage_event_keeps k v o r usage : keeps_goal k (svc_goals v) (svc_goals (accountGoalUsageEvent v o r usage)).
Proof.
  unfold accountGoalUsageEvent. repeat case_match; cbn; try reflexivity; eauto with canvas.
Qed.

Lemma account_run_keeps k v run output : keeps_goal k (svc_goals v) (svc_goals (accountGoalRun v run output)).
Proof.
  unfold accountGoalRun. destruct (run_ConversationID run); [|reflexivity]. destruct (isPlanMode run); [reflexivity|].
  cbv zeta. destruct (repo_AccountExpected _ _ _ _ _ _ _) as [[goals g]|] eqn:Ha; [|reflexivity]. eauto with canvas.
Qed.

Lemma mark_keeps k v run status : keeps_goal k (svc_goals v) (svc_goals (markGoalStatus v run status)).
Proof.
  unfold markGoalStatus. repeat case_match; cbn; try reflexivity; eauto with canvas.
Qed.

Lemma applyOp_keeps k v op : op ≠ OpClear k.1 k.2 → keeps_goal k (svc_goals v) (svc_goals (applyOp v op)).
Proof.
  intros Hop. destruct op as [o c uuid req|o c|o c uuid obj b|o c status|o r usage|run output|run limited]; cbn.
  - unfold keepOnError. destruct (SetGoal _ _ _ _ _) as [[s' g]|] eqn:E; [|reflexivity]. by eapply SetGoal_keeps.
  - unfold keepOnError, ClearGoal. destruct (repo_Delete _ _ _) as [s'|[]] eqn:E; try reflexivity.
    eapply delete_keeps; [|done]. intros ->. by apply Hop.
  - unfold keepOnError. destruct (CreateGoalTool_Execute _ _ _ _ _ _) as [[s' g]|] eqn:E; [|reflexivity].
    by eapply CreateGoalTool_keeps.
  - unfold keepOnError. destruct (UpdateGoalTool_Execute _ _ _ _) as [[s' g]|] eqn:E; [|reflexivity].
    by eapply UpdateGoalTool_keeps.
  - apply usage_event_keeps.
  - apply account_run_keeps.
  - unfold failTurn_goal. cbn. etransitivity; [apply account_run_keeps|apply mark_keeps].
Qed.

Lemma applyOps_keeps k v ops :
  OpClear k.1 k.2 ∉ ops → keeps_goal k (svc_goals v) (svc_goals (applyOps v ops)).
Proof.
  unfold applyOps. revert v. induction ops as [|op ops IH]; intros v Hops; cbn; [reflexivity|].
  apply not_elem_of_cons in Hops as [Hop Hops]. etransitivity; [apply (applyOp_keeps k v op); congruence|by apply IH].
Qed.

(** Whatever users, tools and running turns do with goals, a thread's goal
    stays the same goal until it is cleared: its token and time counters never
    decrease, a completed goal stays complete and a budget-limited one can only
    become complete.  This holds of every repository that obeys the laws. *)
Theorem goal_lifecycle v ops o c g :
  repo_wf (svc_goals v) → OpClear o c ∉ ops → repo_Get (svc_goals v) o c = Ok g →
  ∃ g', repo_Get (svc_goals (applyOps v ops)) o c = Ok g' ∧ goal_advances g g'.
Proof.
  intros Hwf Hops Hg. destruct (applyOps_keeps (o, c) v ops Hops Hwf) as [_ Hk]. by apply Hk.
Qed.
End Service.

(** ** What a run is charged *)

Definition goal_open (g : ThreadGoal) : Prop := goal_Status g ∈ [StatusActive; StatusBudgetLimited].

(** An active goal is below its budget. *)
Definition below_budget (g : ThreadGoal) : Prop :=
  ∀ b, goal_Status g = StatusActive → goal_TokenBudget g = Some b → goal_TokensUsed g < b.

(** [g'] is the open goal [g] charged with a time and tokens. *)
Record charged (g : ThreadGoal) (seconds tokens : Z) (g' : ThreadGoal) : Prop := {
  charged_id : goal_GoalID g' = goal_GoalID g;
  charged_tokens : goal_TokensUsed g' = goal_TokensUsed g + tokens;
  charged_seconds : goal_TimeUsedSeconds g' = goal_TimeUsedSeconds g + seconds;
  charged_budget : goal_TokenBudget g' = goal_TokenBudget g;
  charged_open : goal_open g';
  charged_below : below_budget g → below_budget g';
  charged_status : below_budget g →
    (goal_Status g' = StatusBudgetLimited ↔
     goal_Status g = StatusBudgetLimited ∨ ∃ b, goal_TokenBudget g = Some b ∧ b ≤ goal_TokensUsed g')
}.

Lemma open_cases g : goal_open g ↔ goal_Status g = StatusActive ∨ goal_Status g = StatusBudgetLimited.
Proof. unfold goal_open. rewrite elem_of_cons, list_elem_of_singleton. done. Qed.

Lemma charged_refl g : goal_open g → charged g 0 0 g.
Proof.
  intros Ho. split; try done; [lia|lia|]. intros Hb. split; [by left|].
  intros [?|(b & Hb' & Hle)]; [done|]. apply open_cases in Ho as [Ha|]; [|done].
  specialize (Hb b Ha Hb'). lia.
Qed.

Lemma charged_trans g g' g'' s t s' t' :
  0 ≤ t' → charged g s t g' → charged g' s' t' g'' → charged g (s + s') (t + t') g''.
Proof.
  intros Ht [Hi Hk Hs Hb Ho Hw Hst] [Hi' Hk' Hs' Hb' Ho' Hw' Hst'].
  split; [congruence|lia|lia|congruence|done|auto|]. intros Hg. rewrite (Hst' (Hw Hg)), (Hst Hg), Hb.
  split; [intros [[?|(b & ? & ?)]|?]|intros [?|?]]; [by left|right; exists b; split; [done|lia]|by right| |by right].
  left; by left.
Qed.

Lemma accountRow_charged g dt dk e :
  goal_open g → 0 ≤ dt → 0 ≤ dk → (e = ""%string ∨ goal_GoalID g = e) →
  charged g dt dk (accountRow g dt dk "active_only" e).
Proof.
  intros Ho Hdt Hdk He. unfold accountRow.
  replace (if dt <? 0 then 0 else dt) with dt by (destruct (Z.ltb_spec dt 0); lia).
  replace (if dk <? 0 then 0 else dk) with dk by (destruct (Z.ltb_spec dk 0); lia).
  replace (negb (e =? "")%string && _) with false
    by (symmetry; destruct He as [->|<-]; [done|rewrite String.eqb_refl; apply andb_false_r]).
  replace (accountAllowed "active_only" (goal_Status g)) with true by (symmetry; by apply one_of_true).
  destruct ((dt =? 0) && (dk =? 0)) eqn:Hz; cbn [negb orb].
  { bool_prop. subst. by apply charged_refl. }
  clear Hz. apply open_cases in Ho. split; cbn; try done.
  - apply open_cases. cbn. destruct Ho as [->| ->]; [|by right]. repeat case_match; auto.
  - intros Hw b. cbn. destruct Ho as [Ha|Hl]; [|by rewrite Hl]. rewrite Ha. cbn. intros Hs Hb. rewrite Hb in Hs.
    destruct (Z.leb_spec b (goal_TokensUsed g + dk)); [done|lia].
  - intros Hw. destruct Ho as [Ha|Hl]; [|rewrite Hl; cbn; intuition]. rewrite Ha. cbn.
    destruct (goal_TokenBudget g) as [b|]; [|naive_solver].
    destruct (Z.leb_spec b (goal_TokensUsed g + dk)); split; try done; [by right; exists b|].
    intros [?|(b' & [= <-] & ?)]; [done|lia].
Qed.

Lemma goalTokenDelta_max u :
  goalTokenDelta u = Z.max 0 (PromptTokens u - CachedInputTokens u) + Z.max 0 (CompletionTokens u).
Proof.
  unfold goalTokenDelta.
  destruct (Z.ltb_spec (PromptTokens u - CachedInputTokens u) 0), (Z.ltb_spec (CompletionTokens u) 0); lia.
Qed.

Lemma goalTokenDelta_nonneg u : 0 ≤ goalTokenDelta u.
Proof. rewrite goalTokenDelta_max. lia. Qed.

Lemma usageResidual_nonneg p u : 0 ≤ usageResidual p u.
Proof.
  unfold usageResidual. cbv zeta.
  match goal with |- context [if ?x <? 0 then _ else _] => destruct (Z.ltb_spec x 0) end; lia.
Qed.

(** The tokens charged for a sequence of usage reports of one run. *)
Fixpoint reports_charge (previous : Usage) (reports : list Usage) : Z :=
  match reports with
  | [] => 0
  | usage :: reports => usageResidual previous usage + reports_charge usage reports
  end.

Lemma reports_charge_nonneg p us : 0 ≤ reports_charge p us.
Proof. revert p. induction us as [|u us IH]; intros p; cbn; [lia|]. pose proof (usageResidual_nonneg p u). specialize (IH u). lia. Qed.

Lemma reports_charge_snoc p us u :
  reports_charge p (us ++ [u]) = reports_charge p us + usageResidual (default p (last us)) u.
Proof.
  revert p. induction us as [|u' us IH]; intros p; cbn [reports_charge app]; [cbn; lia|].
  rewrite IH, last_cons. destruct (last us); cbn; lia.
Qed.

Section Charges.
Context (ceiling : option Z) (FindByID : Z → Z → option Run) (run : Run) (conv : Z).
Context (Hid : 0 < run_ID run) (Hfind : FindByID (run_OwnerID run) (run_ID run) = Some run).
Context (Hconv : run_ConversationID run = Some conv) (Htype : run_RunType run ≠ "subagent"%string).
Context (Hmode : isPlanMode run = false).

Notation Goals := (@Service GoalTable).
Notation report := (OpUsage (run_OwnerID run) (run_ID run)).

(** The state of a run's accounting after some reports: the goal is charged
    with what the usage state of the run records. *)
Definition reported (v : Goals) (g : ThreadGoal) (us : list Usage) (v' : Goals) : Prop :=
  ∃ g', Get (svc_goals v') (run_OwnerID run) conv = Ok g' ∧ charged g 0 (reports_charge zeroUsage us) g' ∧
  let state := default zeroUsageState (goalUsageByRun v' !! run_ID run) in
  (usage_GoalID state = goal_GoalID g ∨ us = [] ∧ usage_GoalID state = ""%string) ∧
  LastUsage state = default zeroUsage (last us) ∧
  TokensAccounted state = reports_charge zeroUsage us ∧ SecondsAccounted state = 0.

Lemma open_not_complete g : goal_open g → (goal_Status g =? StatusComplete)%string = false.
Proof. by intros [->| ->]%open_cases. Qed.

Lemma report_charged v g us v' u :
  reported v g us v' → reported v g (us ++ [u]) (applyOp ceiling FindByID v' (report u)).
Proof.
  intros (g' & Hg & Hc & Hgid & Hlast & Htok & Hsec).
  pose proof (charged_open _ _ _ _ Hc) as Ho. pose proof (charged_id _ _ _ _ Hc) as Hgi.
  cbn [applyOp]. unfold accountGoalUsageEvent.
  destruct (Z.leb_spec (run_ID run) 0); [lia|]. rewrite Hfind, Hconv, Hmode.
  destruct (String.eqb_spec (run_RunType run) "subagent"); [done|]. cbn [orb repo_Get MySQLGoals].
  rewrite Hg, (open_not_complete _ Ho).
  set (state := default zeroUsageState (goalUsageByRun v' !! run_ID run)) in *.
  set (state' := if (usage_GoalID state =? goal_GoalID g')%string then state else _).
  assert (usage_GoalID state' = goal_GoalID g ∧ LastUsage state' = default zeroUsage (last us) ∧
          TokensAccounted state' = reports_charge zeroUsage us ∧ SecondsAccounted state' = 0) as (Hs1 & Hs2 & Hs3 & Hs4).
  { subst state'. destruct (String.eqb_spec (usage_GoalID state) (goal_GoalID g')) as [Heq|Hne]; [by rewrite Heq|].
    destruct Hgid as [?|[-> _]]; [congruence|]. done. }
  rewrite Hs1, Hs2, Hs3, Hs4. pose proof (usageResidual_nonneg (default zeroUsage (last us)) u) as Hnn.
  set (tokens := usageResidual _ u) in *.
  assert (∀ g'', charged g' 0 tokens g'' → charged g 0 (reports_charge zeroUsage us + tokens) g'') as Hch.
  { intros g'' H2. by apply (charged_trans g g' g'' 0 _ 0). }
  destruct (Z.leb_spec tokens 0).
  - assert (tokens = 0) as Hz by lia. exists g'. cbn [svc_goals goalUsageByRun].
    rewrite lookup_insert_eq, last_snoc, reports_charge_snoc. fold tokens. cbn.
    split_and!; [done|apply Hch; rewrite Hz; by apply charged_refl|by left|done|lia|done].
  - cbn [svc_goals repo_AccountExpected MySQLGoals]. unfold account. apply Get_lookup in Hg. rewrite Hg.
    eexists. cbn [svc_goals goalUsageByRun]. split; [apply Get_eq|].
    rewrite lookup_insert_eq, last_snoc, reports_charge_snoc. fold tokens. cbn.
    split_and!; [apply Hch, accountRow_charged; [done|lia|lia|by right]|by left|done|done|done].
Qed.

Lemma reports_charged v g us vpast past :
  reported v g past vpast → reported v g (past ++ us) (applyOps ceiling FindByID vpast (report <$> us)).
Proof.
  revert past vpast. induction us as [|u us IH]; intros past vpast Hr; [by rewrite app_nil_r|].
  change (u :: us) with ([u] ++ us). rewrite app_assoc. cbn. apply IH. by apply report_charged.
Qed.

(** The seconds a settlement finds. *)
Definition settled_seconds (output : RunOutput) : Z :=
  let latency := default 0 (output_latency_ms output) in
  let latency := if latency <=? 0 then run_LatencyMS run else latency in
  if 0 <? latency then latency ÷ 1000 else 0.

Lemma settled_seconds_nonneg output : 0 ≤ settled_seconds output.
Proof.
  unfold settled_seconds. cbv zeta.
  match goal with |- context [if 0 <? ?x then _ else _] => destruct (Z.ltb_spec 0 x) end; [|lia].
  apply Z.quot_pos; lia.
Qed.

Lemma settlement_charged v g us v' output :
  reported v g us v' →
  ∃ g', Get (svc_goals (completeTurn_goal v' run output)) (run_OwnerID run) conv = Ok g' ∧
    charged g (settled_seconds output)
      (Z.max (goalTokenDelta (usageFromOutput output)) (reports_charge zeroUsage us)) g'.
Proof.
  intros (g1 & Hg & Hc & Hgid & Hlast & Htok & Hsec).
  pose proof (charged_open _ _ _ _ Hc) as Ho. pose proof (charged_id _ _ _ _ Hc) as Hgi.
  unfold completeTurn_goal, clearGoalUsage, accountGoalRun. cbn [svc_goals]. rewrite Hconv, Hmode.
  cbn [repo_Get repo_AccountExpected MySQLGoals]. rewrite Hg, (open_not_complete _ Ho).
  replace (goal_Status g1 =? StatusBlocked)%string with false by (by apply open_cases in Ho as [->| ->]).
  set (state := default zeroUsageState (goalUsageByRun v' !! run_ID run)) in *.
  rewrite Htok, Hsec. change (if 0 <? _ then _ ÷ 1000 else 0) with (settled_seconds output).
  pose proof (settled_seconds_nonneg output) as Hs. set (seconds := settled_seconds output) in *.
  set (total := goalTokenDelta (usageFromOutput output)). set (A := reports_charge zeroUsage us) in *.
  unfold account. apply Get_lookup in Hg. rewrite Hg. cbn [svc_goals]. rewrite Get_eq.
  eexists. split; [done|].
  replace (if seconds <? 0 then 0 else seconds) with seconds by (destruct (Z.ltb_spec seconds 0); lia).
  replace (if seconds - 0 <? 0 then 0 else seconds - 0) with seconds by (destruct (Z.ltb_spec (seconds - 0) 0); lia).
  assert (0 ≤ if total - A <? 0 then 0 else total - A) as Hnn by (destruct (Z.ltb_spec (total - A) 0); lia).
  replace (Z.max total A) with (A + (if total - A <? 0 then 0 else total - A)) by (destruct (Z.ltb_spec (total - A) 0); lia).
  apply (charged_trans g g1 _ 0 A seconds); [done|done|]. apply accountRow_charged; [done|done|done|].
  destruct Hgid as [->|[_ ->]]; [by right|by left].
Qed.

(** A run on a thread with an open goal is charged once: after any usage
    reports and the settlement, the goal has been charged with the larger of the
    run's total and the sum of the residuals of its reports, and with its active
    seconds; it ends budget-limited exactly when it was so before or the charge
    reached its budget. *)
Theorem run_charged_once (t : GoalTable) usage g us output :
  t !! (run_OwnerID run, conv) = Some g → goal_open g → below_budget g → usage !! run_ID run = None →
  let v' := applyOps ceiling FindByID (mkService t usage) ((report <$> us) ++ [OpComplete run output]) in
  ∃ g', Get (svc_goals v') (run_OwnerID run) conv = Ok g' ∧
    goal_GoalID g' = goal_GoalID g ∧
    goal_TokensUsed g' = goal_TokensUsed g + Z.max (goalTokenDelta (usageFromOutput output)) (reports_charge zeroUsage us) ∧
    goal_TimeUsedSeconds g' = goal_TimeUsedSeconds g + settled_seconds output ∧
    (goal_Status g' = StatusBudgetLimited ↔
     goal_Status g = StatusBudgetLimited ∨ ∃ b, goal_TokenBudget g = Some b ∧ b ≤ goal_TokensUsed g').
Proof.
  intros Hg Ho Hb Hu v'. subst v'. unfold applyOps. rewrite foldl_app. cbn [foldl].
  assert (reported (mkService t usage) g [] (mkService t usage)) as H0.
  { exists g. cbn [svc_goals goalUsageByRun]. rewrite Hu. split_and!; [by apply Get_lookup|by apply charged_refl|by right|done|done|done]. }
  pose proof (reports_charged _ g us _ [] H0) as Hr.
  destruct (settlement_charged _ g us _ output Hr) as (g' & Hg' & [Hi Ht Hs _ _ _ Hst]).
  exists g'. split_and!; [done|done|done|done|by apply Hst].
Qed.
End Charges.

(** A later cumulative report of the same model call: no counter of it, nor the
    uncached part of its prompt, has decreased. *)
Definition cumulative (p u : Usage) : Prop :=
  PromptTokens p ≤ PromptTokens u ∧ CompletionTokens p ≤ CompletionTokens u ∧ TotalTokens p ≤ TotalTokens u ∧
  PromptTokens p - CachedInputTokens p ≤ PromptTokens u - CachedInputTokens u.

Lemma cumulative_residual p u :
  cumulative zeroUsage p → cumulative p u → usageResidual p u = goalTokenDelta u - goalTokenDelta p.
Proof.
  intros (? & ? & ? & ?) (? & ? & ? & ?). unfold usageResidual. rewrite !goalTokenDelta_max. cbn in *.
  destruct (Z.ltb_spec (PromptTokens u) (PromptTokens p)); [lia|].
  destruct (Z.ltb_spec (CompletionTokens u) (CompletionTokens p)); [lia|].
  destruct (Z.ltb_spec (TotalTokens u) (TotalTokens p)); [lia|]. cbn [orb].
  match goal with |- context [if ?x <? 0 then _ else _] => destruct (Z.ltb_spec x 0) end; lia.
Qed.

Lemma cumulative_charge p us :
  cumulative zeroUsage p → Sorted cumulative (p :: us) →
  reports_charge p us = goalTokenDelta (default p (last us)) - goalTokenDelta p.
Proof.
  revert p. induction us as [|u us IH]; intros p Hp Hs; cbn [reports_charge]; [cbn; lia|].
  apply Sorted_inv in Hs as [Hs Hpu]. apply HdRel_inv in Hpu.
  rewrite (cumulative_residual p u Hp Hpu), IH, last_cons; [destruct (last us); cbn; lia| |done].
  destruct Hp as (? & ? & ? & ?), Hpu as (? & ? & ? & ?). unfold cumulative in *. cbn in *. lia.
Qed.

(** However often a provider repeats the cumulative usage of a model call,
    the reports together charge the goal exactly the tokens of the last one. *)
Theorem cumulative_reports_charged_once us :
  Sorted cumulative (zeroUsage :: us) →
  reports_charge zeroUsage us = goalTokenDelta (default zeroUsage (last us)).
Proof.
  intros Hs. rewrite (cumulative_charge zeroUsage us); [|unfold cumulative; lia|done].
  change (goalTokenDelta zeroUsage) with 0. lia.
Qed.

Lemma cumulative_reports_charged_once_witness :
  reports_charge zeroUsage [mkUsage 100 5 105 60 0; mkUsage 100 20 120 60 0; mkUsage 100 20 120 60 0] = 60.
Proof.
  rewrite (cumulative_reports_charged_once [mkUsage 100 5 105 60 0; mkUsage 100 20 120 60 0; mkUsage 100 20 120 60 0]);
    [reflexivity|].
  repeat first [constructor | (unfold cumulative; cbn; lia)].
Defined.

(** ** Creating a goal *)

(** What [NormalizeObjective] accepts. *)
Definition objective_ok (objective : string) : Prop :=
  TrimSpace objective ≠ ""%string ∧ rune_count (TrimSpace objective) ≤ 4000.

Lemma NormalizeObjective_ok objective n :
  NormalizeObjective objective = Ok n ↔ objective_ok objective ∧ n = TrimSpace objective.
Proof.
  unfold NormalizeObjective, ValidateObjective, objective_ok. cbv zeta.
  destruct (String.eqb_spec (TrimSpace objective) ""); [naive_solver|].
  destruct (Z.ltb_spec 4000 (rune_count (TrimSpace objective))); split; intros Hn.
  - done.
  - destruct Hn as [[_ ?] _]; lia.
  - injection Hn as <-. split; [split; [done|lia]|done].
  - destruct Hn as [_ ->]. done.
Qed.

(** The budget a request asks for, within the configured ceiling. *)
Definition budget_ok (value ceiling : option Z) : Prop :=
  (∀ c, ceiling = Some c → 0 < c) ∧
  (∀ v, value = Some v → 0 < v ∧ ∀ c, ceiling = Some c → v ≤ c).

Lemma NormalizeBudget_ok value ceiling b :
  NormalizeBudget value ceiling = Ok b ↔
  budget_ok value ceiling ∧ b = match value with Some _ => value | None => ceiling end.
Proof.
  unfold NormalizeBudget, budget_ok. split.
  - intros H. repeat split_match_in H; bool_prop; simplify_eq; split; [|done|..];
      try done; split; intros; simplify_eq; try lia; split; intros; simplify_eq; lia.
  - intros [[Hc Hv] ->].
    destruct ceiling as [c|]; [specialize (Hc c eq_refl); destruct (Z.leb_spec c 0); [lia|]|];
      (destruct value as [v|]; [|done]); destruct (Hv v eq_refl) as [H0 Hle];
      (destruct (Z.leb_spec v 0); [lia|]); [|done].
    specialize (Hle c eq_refl). destruct (Z.ltb_spec c v); [lia|done].
Qed.

(** The create_goal tool creates a goal exactly for a thread without one, a
    non-blank objective of at most 4000 runes, a positive budget within the
    ceiling and an unused goal id; the goal is active, with the trimmed objective
    and the requested budget or the ceiling, and nothing used. *)
Theorem create_goal_iff (ceiling : option Z) (t t' : GoalTable) owner conv uuid objective budget g :
  CreateGoalTool_Execute ceiling t owner (Some conv) uuid objective budget = Ok (t', g) ↔
  objective_ok objective ∧ budget_ok budget ceiling ∧ t !! (owner, conv) = None ∧ hasGoalID t uuid = false ∧
  g = mkThreadGoal owner conv uuid (TrimSpace objective) StatusActive
        (match budget with Some _ => budget | None => ceiling end) 0 0 ∧
  t' = <[(owner, conv) := g]> t.
Proof.
  unfold CreateGoalTool_Execute, rbind.
  destruct (NormalizeObjective objective) as [n|] eqn:Hn; [|split; [done|intros (Ho & _)]].
  2: { by rewrite (proj2 (NormalizeObjective_ok objective _) (conj Ho eq_refl)) in Hn. }
  apply NormalizeObjective_ok in Hn as [Ho ->].
  destruct (match budget with Some _ => _ | None => _ end) eqn:Hb.
  { split; [done|]. intros (_ & [_ Hv] & _). destruct budget; [|done]. bool_prop. specialize (Hv _ eq_refl). lia. }
  cbn [repo_Get repo_Create MySQLGoals]. unfold Get, Create. change (goal_key (createDefaults _ _)) with (owner, conv).
  destruct (NormalizeBudget budget ceiling) as [b|] eqn:Hn.
  2: { split; [by repeat case_match|]. intros (_ & Hk & _).
       by rewrite (proj2 (NormalizeBudget_ok budget ceiling _) (conj Hk eq_refl)) in Hn. }
  apply NormalizeBudget_ok in Hn as [Hk ->].
  destruct (t !! (owner, conv)) as [g0|] eqn:Hg.
  { destruct (negb _); by split; [|intros (_ & _ & ? & _)]. }
  cbn [createDefaults goal_GoalID]. cbn. destruct (hasGoalID t uuid) eqn:Hu; [by split; [|intros (_ & _ & _ & ? & _)]|].
  split; [intros [= <- <-]; by split_and!|]. intros (_ & _ & _ & _ & -> & ->). done.
Qed.

(** Although the tool checks that the thread's goal is unfinished before it
    refuses, it cannot start a new goal after a completed one either: the insert
    meets the unique index on the thread. *)
Theorem create_after_complete_fails (ceiling : option Z) (t : GoalTable) owner conv uuid objective budget g :
  t !! (owner, conv) = Some g → goal_Status g = StatusComplete → objective_ok objective → budget_ok budget ceiling →
  CreateGoalTool_Execute ceiling t owner (Some conv) uuid objective budget = Err ErrDuplicateKey.
Proof.
  intros Hg Hs Ho Hb. unfold CreateGoalTool_Execute, rbind.
  rewrite (proj2 (NormalizeObjective_ok objective _) (conj Ho eq_refl)).
  rewrite (proj2 (NormalizeBudget_ok budget ceiling _) (conj Hb eq_refl)).
  replace (match budget with Some b => b <=? 0 | None => false end) with false.
  2: { destruct budget; [|done]. destruct Hb as [_ Hv]. specialize (Hv _ eq_refl). symmetry. apply Z.leb_gt. lia. }
  cbn [repo_Get repo_Create MySQLGoals]. unfold Get, Create. rewrite Hg, Hs. cbn.
  change (goal_key (createDefaults _ _)) with (owner, conv). by rewrite Hg.
Qed.

(** ** Concrete runs *)

Definition demo_goal : ThreadGoal := mkThreadGoal 1 2 "g-1" "ship it" StatusActive (Some 100) 10 0.
Definition demo_table : GoalTable := {[ (1, 2) := demo_goal ]}.
Definition demo_run : Run := mkRun 7 1 (Some 2) "turn" "default" 2500.
Definition demo_runs (owner id : Z) : option Run :=
  if (owner =? 1) && (id =? 7) then Some demo_run else None.
Definition demo_ops : list GoalOp :=
  [OpUsage 1 7 (mkUsage 40 10 50 20 0); OpCreate 1 (Some 2) "g-2" "another" None;
   OpUsage 1 7 (mkUsage 90 30 120 20 0); OpComplete demo_run (mkRunOutput (Some (mkUsage 130 40 170 40 0)) (Some 2500));
   OpUpdate 1 (Some 2) StatusComplete; OpSet 1 2 "g-3" (mkGoalUpdateRequest None (Some StatusActive) None)].

Lemma goal_lifecycle_witness :
  ∃ g', repo_Get (svc_goals (applyOps None demo_runs (mkService demo_table ∅) demo_ops)) 1 2 = Ok g' ∧
    goal_advances demo_goal g'.
Proof.
  apply (goal_lifecycle None demo_runs (mkService demo_table ∅) demo_ops 1 2 demo_goal).
  - apply map_Forall_singleton. reflexivity.
  - unfold demo_ops. repeat (apply not_elem_of_cons; split; [discriminate|]). apply not_elem_of_nil.
  - vm_compute. reflexivity.
Defined.

(** The goal of the run above ends complete, charged 130 tokens and 2 seconds. *)
Example demo_goal_final :
  Get (svc_goals (applyOps None demo_runs (mkService demo_table ∅) demo_ops)) 1 2 =
  Ok (mkThreadGoal 1 2 "g-1" "ship it" StatusComplete (Some 100) 140 2).
Proof. vm_compute. reflexivity. Qed.

Lemma run_charged_once_witness :
  ∃ g', Get (svc_goals (applyOps None demo_runs (mkService demo_table ∅)
      ((OpUsage 1 7 <$> [mkUsage 40 10 50 20 0]) ++
       [OpComplete demo_run (mkRunOutput (Some (mkUsage 130 40 170 40 0)) (Some 2500))]))) 1 2 = Ok g' ∧
    goal_TokensUsed g' = 140 ∧ goal_Status g' = StatusBudgetLimited.
Proof.
  destruct (run_charged_once None demo_runs demo_run 2 ltac:(reflexivity) ltac:(reflexivity) ltac:(reflexivity)
    ltac:(discriminate) ltac:(vm_compute; reflexivity) demo_table ∅ demo_goal [mkUsage 40 10 50 20 0]
    (mkRunOutput (Some (mkUsage 130 40 170 40 0)) (Some 2500))) as (g' & Hg & _ & Ht & _ & Hs).
  - reflexivity.
  - left.
  - intros b _ [= <-]. reflexivity.
  - reflexivity.
  - exists g'. split; [exact Hg|]. split; [rewrite Ht; vm_compute; reflexivity|].
    apply Hs. right. exists 100. split; [reflexivity|]. rewrite Ht. vm_compute. discriminate.
Defined.

Lemma create_after_complete_fails_witness :
  CreateGoalTool_Execute None {[ (1, 2) := mkThreadGoal 1 2 "g-1" "ship it" StatusComplete None 140 2 ]}
    1 (Some 2) "g-2" "next goal" None = Err ErrDuplicateKey.
Proof.
  apply (create_after_complete_fails None {[ (1, 2) := mkThreadGoal 1 2 "g-1" "ship it" StatusComplete None 140 2 ]}
    1 2 "g-2" "next goal" None (mkThreadGoal 1 2 "g-1" "ship it" StatusComplete None 140 2)).
  - reflexivity.
  - reflexivity.
  - split; [vm_compute; discriminate|vm_compute; discriminate].
  - split; intros ? [=].
Defined.

(** The reports of a second model call whose counters are above those of the
    first are taken as cumulative: of 110 and 170 tokens only 170 are charged
    before the settlement, and a turn that fails is settled with no usage. *)
Example second_call_undercharged :
  reports_charge zeroUsage [mkUsage 100 10 110 0 0; mkUsage 150 20 170 0 0] = 170.
Proof. reflexivity. Qed.
