(* ===== verification/Fuzzy.v ===== *)
(** The fuzzy search-and-replace of the patch tool
    (internal/runtime/toolruntime/filesystem_fuzzy.go).

    Byte offsets are [nat].  A slice expression out of range panics in Go:
    [applyTextMatches] returns [None] there.  The similarity ratios are exact
    fractions; the code's float64 quotients compare with 0.5, 0.7 and 0.8 as the
    fractions do, because a quotient of integers below 2^40 that equals such a
    threshold rounds to the same float64 and any other is farther from it than the
    rounding error. *)
From Stdlib Require Import Ascii.
From S2P Require Import Prelude GoStr.
Open Scope Z_scope.

Definition newline : ascii := byte_of 10.
Definition nl : string := of_bytes [newline].
Definition backslash : ascii := byte_of 92.

(** [content[a:b]]. *)
Definition str_slice (a b : nat) (s : string) : string := str_take (b - a) (str_drop a s).

Record textMatch := mkMatch { m_start : nat; m_end : nat }.

Inductive fuzzyError :=
| OldEmpty
| OldBlank
| Identical
| ManyMatches (count : nat) (locations : string)
| ManyApproximate (count : nat) (strategy : string)
| EscapeDrift (suspect : string)
| NoMatch.

(** ** Normalization *)

Definition hermesUnicodeMap (r : Z) : option string :=
  if (r =? 8220) || (r =? 8221) then Some (of_bytes [byte_of 34])
  else if (r =? 8216) || (r =? 8217) then Some "'"%string
  else if r =? 8212 then Some "--"%string
  else if (r =? 8211) || (r =? 8722) then Some "-"%string
  else if r =? 8230 then Some "..."%string
  else if (r =? 160) || in_range 8192 8202 r || (r =? 8239) || (r =? 8287) || (r =? 12288) then Some " "%string
  else None.

Definition normalizeRune (r : Z) : list ascii :=
  match hermesUnicodeMap r with
  | Some s => bytes s
  | None => encode_rune r
  end.

Definition normalizeUnicode (value : string) : string := of_bytes (concat (normalizeRune <$> runes value)).

(** The offsets of the original bytes, one per byte of the normalized text. *)
Fixpoint boundariesFrom (offset : nat) (segs : list (Z * list ascii)) : list nat :=
  match segs with
  | [] => [offset]
  | (r, bs) :: segs => replicate (length (normalizeRune r)) offset ++ boundariesFrom (offset + length bs) segs
  end.

Definition normalizeUnicodeWithBoundaries (value : string) : string * list nat :=
  (normalizeUnicode value, boundariesFrom 0 (segments value)).

Definition is_blank_rune (r : Z) : bool := (r =? 32) || (r =? 9).

Fixpoint collapseFrom (inWhitespace : bool) (rs : list Z) : list ascii :=
  match rs with
  | [] => []
  | r :: rs =>
    if is_blank_rune r then (if inWhitespace then [] else [byte_of 32]) ++ collapseFrom true rs
    else encode_rune r ++ collapseFrom false rs
  end.

Definition collapseHorizontalWhitespace (value : string) : string := of_bytes (collapseFrom false (runes value)).

(** [strings.TrimLeft] with the cutset of space and tab. *)
Definition is_blank_byte (c : ascii) : bool := is_blank_rune (byte_val c).
Definition TrimLeftBlank (s : string) : string := of_bytes (drop_while is_blank_byte (bytes s)).

(** ** Similarity *)

Record ratio := mkRatio { num : Z; den : Z }.

Definition ratio_ge (q : ratio) (tenths : Z) : bool := tenths * den q <=? 10 * num q.

Fixpoint common_prefix {A} `{EqDecision A} (a b : list A) : nat :=
  match a, b with
  | x :: a, y :: b => if decide (x = y) then S (common_prefix a b) else O
  | _, _ => O
  end.

(** One pass of the inner loop: [tail] is [row[1:]], [left] the entry just
    written, [previous] the old entry before the current one. *)
Fixpoint lcsRow (x : Z) (b : list Z) (tail : list nat) (left previous : nat) : list nat :=
  match b, tail with
  | y :: b, old :: tail =>
    let new := if decide (x = y) then S previous else if (old <? left)%nat then left else old in
    new :: lcsRow x b tail new old
  | _, _ => []
  end.

Definition lcsTable (a b : list Z) : list nat :=
  foldl (λ row x, lcsRow x b row 0 0) (replicate (length b) 0%nat) a.

Definition sequenceSimilarity (left right : string) : ratio :=
  if (left =? right)%string then mkRatio 1 1
  else
    let a := runes left in
    let b := runes right in
    if (zlen a =? 0) || (zlen b =? 0) then mkRatio 0 1
    else if 2000000 <? zlen a * zlen b then
      let prefix := common_prefix a b in
      let suffix := common_prefix (reverse (drop prefix a)) (reverse (drop prefix b)) in
      mkRatio (2 * Z.of_nat (prefix + suffix)) (zlen a + zlen b)
    else
      let '(a, b) := if zlen a <? zlen b then (b, a) else (a, b) in
      mkRatio (2 * Z.of_nat (default 0%nat (last (lcsTable a b)))) (zlen a + zlen b).

(** ** Matching *)

Fixpoint exactFrom (fuel offset : nat) (content pattern : string) : list textMatch :=
  match fuel with
  | O => []
  | S fuel =>
    if (offset + String.length pattern <=? String.length content)%nat then
      match GoStr.Index (str_drop offset content) pattern with
      | None => []
      | Some index =>
        let start := (offset + index)%nat in
        let stop := (start + String.length pattern)%nat in
        mkMatch start stop :: exactFrom fuel stop content pattern
      end
    else []
  end.

Definition exactMatches (content pattern : string) : list textMatch :=
  if (pattern =? "")%string then [] else exactFrom (S (String.length content)) 0 content pattern.

Definition lines_len (lines : list string) : nat := sum_list_with (λ l, S (String.length l)) lines.

(** The bytes from the start of line [start] to the end of line
    [start + count - 1]; [lines] are the lines of [content]. *)
Definition lineMatchSpan (content : string) (lines : list string) (start count : nat) : textMatch :=
  let startByte := lines_len (take start lines) in
  let endByte := (startByte + (lines_len (take count (drop start lines)) - 1))%nat in
  mkMatch startByte (if (String.length content <? endByte)%nat then String.length content else endByte).

(** The starts of the blocks of [k] lines among [n]. *)
Definition windowStarts (k n : nat) : list nat := seq 0 (S n - k).

Definition block {A} (k start : nat) (lines : list A) : list A := take k (drop start lines).

Definition windowMatches (content : string) (k : nat) (p : nat → bool) : list textMatch :=
  let lines := Split content newline in
  (λ start, lineMatchSpan content lines start k) <$> filter (λ start, p start = true) (windowStarts k (length lines)).

Definition normalizedLineMatches (content pattern : string) (normalize : string → string) : list textMatch :=
  let contentLines := Split content newline in
  let patternLines := Split pattern newline in
  let k := length patternLines in
  windowMatches content k (λ start, bool_decide (normalize <$> block k start contentLines = normalize <$> patternLines)).

Definition lineTrimmedMatches (content pattern : string) := normalizedLineMatches content pattern TrimSpace.
Definition whitespaceNormalizedMatches (content pattern : string) :=
  normalizedLineMatches content pattern collapseHorizontalWhitespace.
Definition indentationFlexibleMatches (content pattern : string) := normalizedLineMatches content pattern TrimLeftBlank.

(** [strings.NewReplacer] on the escapes of newline, tab and carriage return. *)
Fixpoint unescape (l : list ascii) : list ascii :=
  match l with
  | [] => []
  | a :: l' =>
    match l' with
    | b :: l'' =>
      if Ascii.eqb a backslash then
        if Ascii.eqb b "n"%char then newline :: unescape l''
        else if Ascii.eqb b "t"%char then byte_of 9 :: unescape l''
        else if Ascii.eqb b "r"%char then byte_of 13 :: unescape l''
        else a :: unescape l'
      else a :: unescape l'
    | [] => [a]
    end
  end.

Definition escapeNormalizedMatches (content pattern : string) : list textMatch :=
  let unescaped := of_bytes (unescape (bytes pattern)) in
  if (unescaped =? pattern)%string then [] else exactMatches content unescaped.

(** The first line and, of several, the last one trimmed. *)
Definition trimEnds (l : list string) : list string :=
  let l := match l with x :: l => TrimSpace x :: l | [] => [] end in
  if (1 <? length l)%nat then alter TrimSpace (length l - 1)%nat l else l.

Definition trimmedBoundaryMatches (content pattern : string) : list textMatch :=
  let contentLines := Split content newline in
  let patternLines := trimEnds (Split pattern newline) in
  let k := length patternLines in
  windowMatches content k (λ start, (Join (trimEnds (block k start contentLines)) nl =? Join patternLines nl)%string).

Definition mapBoundaries (boundaries : list nat) (m : textMatch) : option textMatch :=
  match boundaries !! m_start m, boundaries !! m_end m with
  | Some a, Some b => if (a <? b)%nat then Some (mkMatch a b) else None
  | _, _ => None
  end.

Definition unicodeNormalizedMatches (content pattern : string) : list textMatch :=
  let '(normalizedContent, boundaries) := normalizeUnicodeWithBoundaries content in
  let normalizedPattern := normalizeUnicode pattern in
  if (normalizedContent =? content)%string && (normalizedPattern =? pattern)%string then []
  else match exactMatches normalizedContent normalizedPattern with
       | [] => normalizedLineMatches content pattern (λ line, TrimSpace (normalizeUnicode line))
       | matches => omap (mapBoundaries boundaries) matches
       end.

Definition line_at (lines : list string) (i : nat) : string := default ""%string (lines !! i).

Definition blockAnchorMatches (content pattern : string) : list textMatch :=
  let patternLines := Split (normalizeUnicode pattern) newline in
  let k := length patternLines in
  if (k <? 2)%nat then []
  else
    let normalizedLines := Split (normalizeUnicode content) newline in
    let originalLines := Split content newline in
    let first := TrimSpace (line_at patternLines 0) in
    let last := TrimSpace (line_at patternLines (k - 1)) in
    let candidates := filter (λ start,
      (TrimSpace (line_at normalizedLines start) =? first)%string &&
      (TrimSpace (line_at normalizedLines (start + k - 1)) =? last)%string = true)
      (windowStarts k (length normalizedLines)) in
    let threshold := if (1 <? length candidates)%nat then 7 else 5 in
    let similar start :=
      let q := if (2 <? k)%nat
               then sequenceSimilarity (Join (block (k - 2) (start + 1) normalizedLines) nl)
                      (Join (block (k - 2) 1 patternLines) nl)
               else mkRatio 1 1 in
      ratio_ge q threshold in
    (λ start, lineMatchSpan content originalLines start k) <$> filter (λ start, similar start = true) candidates.

Definition similarLines (p c : string) : bool := ratio_ge (sequenceSimilarity (TrimSpace p) (TrimSpace c)) 8.

Definition contextAwareMatches (content pattern : string) : list textMatch :=
  let patternLines := Split pattern newline in
  let contentLines := Split content newline in
  let k := length patternLines in
  if (length contentLines <? k)%nat then []
  else
    windowMatches content k (λ start,
      let blk := block k start contentLines in
      similarLines (line_at patternLines 0) (line_at blk 0) &&
      similarLines (line_at patternLines (k - 1)) (line_at blk (k - 1)) &&
      forallb (λ '(p, c), (TrimSpace p =? "")%string || similarLines p c) (zip patternLines blk)).

(** ** Replacing *)

Fixpoint firstIndent (lines : list string) : option string :=
  match lines with
  | [] => None
  | line :: rest =>
    if (TrimSpace line =? "")%string then firstIndent rest
    else Some (str_take (String.length line - String.length (TrimLeftBlank line)) line)
  end.

Definition firstMeaningfulIndent (value : string) : option string := firstIndent (Split value newline).

Definition reindentReplacement (fileRegion oldString newString : string) : string :=
  if (newString =? "")%string then newString
  else match firstMeaningfulIndent oldString, firstMeaningfulIndent fileRegion with
       | Some oldIndent, Some fileIndent =>
         if (oldIndent =? fileIndent)%string then newString
         else Join ((λ line,
           if (TrimSpace line =? "")%string then line
           else if HasPrefix line oldIndent then (fileIndent ++ TrimPrefix line oldIndent)%string
           else (fileIndent ++ TrimLeftBlank line)%string) <$> Split newString newline) nl
       | _, _ => newString
       end.

Definition match_after (x y : textMatch) : bool := (m_start y <? m_start x)%nat.

Fixpoint replaceMatches (content replacement oldString : string) (reindent : bool) (sorted : list textMatch)
    (result : string) : option string :=
  match sorted with
  | [] => Some result
  | m :: rest =>
    let adjusted := if reindent then reindentReplacement (str_slice (m_start m) (m_end m) content) oldString replacement
                    else replacement in
    if (m_start m <=? String.length result)%nat && (m_end m <=? String.length result)%nat then
      replaceMatches content replacement oldString reindent rest
        (str_take (m_start m) result ++ adjusted ++ str_drop (m_end m) result)
    else None
  end.

Definition applyTextMatches (content : string) (matches : list textMatch) (replacement oldString : string)
    (reindent : bool) : option string :=
  replaceMatches content replacement oldString reindent (sort_stable match_after matches) content.

Definition suspects : list string := [of_bytes [backslash; byte_of 39]; of_bytes [backslash; byte_of 34]].

Definition detectEscapeDrift (content : string) (matches : list textMatch) (oldString newString : string) : option fuzzyError :=
  EscapeDrift <$> find (λ suspect,
    Contains newString suspect && Contains oldString suspect &&
    negb (existsb (λ m, Contains (str_slice (m_start m) (m_end m) content) suspect) matches)) suspects.

(** [strings.ReplaceAll] of a backslash and [c] by one byte. *)
Fixpoint replaceEscape (c new : ascii) (l : list ascii) : list ascii :=
  match l with
  | [] => []
  | a :: l' =>
    match l' with
    | b :: l'' =>
      if Ascii.eqb a backslash && Ascii.eqb b c then new :: replaceEscape c new l'' else a :: replaceEscape c new l'
    | [] => [a]
    end
  end.

Definition maybeUnescapeReplacement (replacement content : string) (matches : list textMatch) : string :=
  let regions := concat ((λ m, bytes (str_slice (m_start m) (m_end m) content)) <$> matches) in
  let result := bytes replacement in
  let result := if bool_decide (byte_of 9 ∈ regions) then replaceEscape "t"%char (byte_of 9) result else result in
  let result := if bool_decide (byte_of 13 ∈ regions) then replaceEscape "r"%char (byte_of 13) result else result in
  of_bytes result.

Definition preserveUnicodeReplacement (fileRegion oldString newString : string) : string :=
  let '(normalizedRegion, boundaries) := normalizeUnicodeWithBoundaries fileRegion in
  let normalizedOld := normalizeUnicode oldString in
  if negb (normalizedRegion =? normalizedOld)%string then newString
  else
    let prefix := common_prefix (bytes normalizedOld) (bytes newString) in
    let suffix := common_prefix (reverse (drop prefix (bytes normalizedOld))) (reverse (drop prefix (bytes newString))) in
    match boundaries !! prefix, boundaries !! (String.length normalizedRegion - suffix)%nat with
    | Some a, Some b =>
      (str_take a fileRegion ++ str_slice prefix (String.length newString - suffix) newString ++ str_drop b fileRegion)%string
    | _, _ => newString
    end.

Record fuzzyStrategy := mkStrategy {
  strategy_name : string;
  approximate : bool;
  find_matches : string → string → list textMatch
}.

Definition strategies : list fuzzyStrategy :=
  [mkStrategy "exact" false exactMatches;
   mkStrategy "line_trimmed" false lineTrimmedMatches;
   mkStrategy "whitespace_normalized" false whitespaceNormalizedMatches;
   mkStrategy "indentation_flexible" false indentationFlexibleMatches;
   mkStrategy "escape_normalized" false escapeNormalizedMatches;
   mkStrategy "trimmed_boundary" false trimmedBoundaryMatches;
   mkStrategy "unicode_normalized" false unicodeNormalizedMatches;
   mkStrategy "block_anchor" true blockAnchorMatches;
   mkStrategy "context_aware" true contextAwareMatches].

Definition count_newlines (s : string) : nat := length (filter (λ c, c = newline) (bytes s)).

Definition formatMatchLocations (content : string) (matches : list textMatch) : string :=
  Join ((λ m, ("L" ++ Itoa (Z.of_nat (count_newlines (str_take (m_start m) content)) + 1))%string) <$> take 5 matches) ", ".

(** [None]: a slice expression panics. *)
Definition replaceWith (strategy : fuzzyStrategy) (content oldString newString : string) (replaceAll : bool)
    (matches : list textMatch) : option (result fuzzyError (string * nat * string)) :=
  let exact := (strategy_name strategy =? "exact")%string in
  let n := length matches in
  if (1 <? n)%nat && negb replaceAll then Some (Err (ManyMatches n (formatMatchLocations content matches)))
  else if (1 <? n)%nat && replaceAll && approximate strategy then Some (Err (ManyApproximate n (strategy_name strategy)))
  else match (if exact then None else detectEscapeDrift content matches oldString newString) with
       | Some e => Some (Err e)
       | None =>
         let effectiveNew := maybeUnescapeReplacement newString content matches in
         let effectiveNew := match (strategy_name strategy =? "unicode_normalized")%string, matches with
           | true, [m] => preserveUnicodeReplacement (str_slice (m_start m) (m_end m) content) oldString effectiveNew
           | _, _ => effectiveNew
           end in
         match applyTextMatches content matches effectiveNew oldString (negb exact) with
         | None => None
         | Some text => Some (Ok (text, n, strategy_name strategy))
         end
       end.

Fixpoint tryStrategies (l : list fuzzyStrategy) (content oldString newString : string) (replaceAll : bool)
    : option (result fuzzyError (string * nat * string)) :=
  match l with
  | [] => Some (Err NoMatch)
  | strategy :: rest =>
    match find_matches strategy content oldString with
    | [] => tryStrategies rest content oldString newString replaceAll
    | matches => replaceWith strategy content oldString newString replaceAll matches
    end
  end.

Definition fuzzyFindAndReplace (content oldString newString : string) (replaceAll : bool)
    : option (result fuzzyError (string * nat * string)) :=
  if (oldString =? "")%string then Some (Err OldEmpty)
  else if (TrimSpace oldString =? "")%string then Some (Err OldBlank)
  else if (oldString =? newString)%string then Some (Err Identical)
  else tryStrategies strategies content oldString newString replaceAll.

Definition patchAlreadyApplied (content oldString newString : string) : bool :=
  if (String.length (TrimSpace newString) <? 8)%nat || negb (Contains content newString) then false
  else (oldString =? newString)%string || negb (Contains content oldString).

(** ** The similarity is that of a longest common subsequence *)

(** [n] is the length of a longest common subsequence of [a] and [b]. *)
Definition lcs_of {A} (a b : list A) (n : nat) : Prop :=
  (∃ c, sublist c a ∧ sublist c b ∧ length c = n) ∧
  (∀ c, sublist c a → sublist c b → (length c ≤ n)%nat).

Section LCS.
Context {A : Type}.
Implicit Types (a b c : list A).

Lemma lcs_sym a b n : lcs_of a b n → lcs_of b a n.
Proof. intros [(c & ? & ? & ?) Hmax]. split; [by exists c|]. eauto. Qed.

Lemma lcs_nil_r a : lcs_of a [] 0.
Proof.
  split; [exists []; split_and!; [apply sublist_nil_l|done|done]|].
  intros c _ Hc. apply sublist_nil_r in Hc as ->. done.
Qed.

Lemma lcs_refl a : lcs_of a a (length a).
Proof. split; [by exists a|]. intros c Hc _. by apply sublist_length. Qed.

Lemma sublist_snoc c b x :
  sublist c (b ++ [x]) ↔ sublist c b ∨ ∃ c', c = c' ++ [x] ∧ sublist c' b.
Proof.
  rewrite sublist_app_r. split.
  - intros (c1 & c2 & -> & H1 & H2). apply sublist_cons_r in H2 as [H2|(l & -> & H2)];
      apply sublist_nil_r in H2 as ->; [rewrite app_nil_r; by left|right; by exists c1].
  - intros [H|(c' & -> & H)]; [exists c, []|exists c', [x]]; rewrite ?app_nil_r; split_and!; auto. apply sublist_nil_l.
Qed.

Lemma lcs_snoc_eq a b x n : lcs_of a b n → lcs_of (a ++ [x]) (b ++ [x]) (S n).
Proof.
  intros [(c & Ha & Hb & Hn) Hmax]. split.
  - exists (c ++ [x]). split_and!; [by apply sublist_app|by apply sublist_app|]. rewrite length_app. simpl. lia.
  - intros d Hda Hdb. destruct (decide (d = [])) as [->|Hd]; [simpl; lia|].
    destruct (exists_last Hd) as (d' & y & ->). rewrite length_app. simpl.
    assert (sublist d' a) as H1.
    { apply sublist_snoc in Hda as [Hs|(c' & [Heq _]%app_inj_2 & Hs)]; [|congruence|done].
      etransitivity; [|exact Hs]. apply sublist_inserts_r. done. }
    assert (sublist d' b) as H2.
    { apply sublist_snoc in Hdb as [Hs|(c' & [Heq _]%app_inj_2 & Hs)]; [|congruence|done].
      etransitivity; [|exact Hs]. apply sublist_inserts_r. done. }
    specialize (Hmax d' H1 H2). lia.
Qed.

Lemma lcs_snoc_ne a b x y n m :
  x ≠ y → lcs_of (a ++ [x]) b n → lcs_of a (b ++ [y]) m → lcs_of (a ++ [x]) (b ++ [y]) (n `max` m).
Proof.
  intros Hne [(c & Ha & Hb & Hn) Hmax] [(d & Ha' & Hb' & Hm) Hmax']. split.
  - destruct (Nat.max_spec n m) as [[_ ->]|[_ ->]]; [exists d|exists c]; split_and!; try done;
      apply sublist_snoc; by left.
  - intros e H1 H2. apply sublist_snoc in H2 as [H2|(e' & -> & H2)]; [specialize (Hmax e H1 H2); lia|].
    apply sublist_snoc in H1 as [H1|(e2 & [_ [= ?]]%app_inj_2 & H1)]; [|congruence|done].
    specialize (Hmax' (e' ++ [y]) H1). rewrite sublist_snoc in Hmax'. specialize (Hmax' ltac:(right; by exists e')). lia.
Qed.

Lemma sublist_common_prefix `{EqDecision A} a b :
  take (common_prefix a b) a = take (common_prefix a b) b.
Proof.
  revert b. induction a as [|x a IH]; intros [|y b]; simpl; try done. destruct (decide (x = y)) as [->|]; [|done].
  simpl. by rewrite IH.
Qed.
End LCS.

(** A row of the table after the prefix [a]: its [j]-th entry is the length of
    a longest common subsequence of [a] and the first [j+1] elements of [b]. *)
Definition row_ok (a b : list Z) (row : list nat) : Prop :=
  length row = length b ∧ ∀ j n, row !! j = Some n → lcs_of a (take (S j) b) n.

Lemma lcsRow_ok a x done b tail left previous :
  length tail = length b →
  lcs_of (a ++ [x]) done left → lcs_of a done previous →
  (∀ j n, tail !! j = Some n → lcs_of a (done ++ take (S j) b) n) →
  length (lcsRow x b tail left previous) = length b ∧
  ∀ j n, lcsRow x b tail left previous !! j = Some n → lcs_of (a ++ [x]) (done ++ take (S j) b) n.
Proof.
  revert done tail left previous. induction b as [|y b IH]; intros dn [|old tail] left previous Hlen Hl Hp Ht; try done.
  cbn [lcsRow]. injection Hlen as Hlen. pose proof (Ht O old eq_refl) as Hold. cbn [take] in Hold.
  set (new := if decide (x = y) then S previous else if (old <? left)%nat then left else old).
  assert (lcs_of (a ++ [x]) (dn ++ [y]) new) as Hnew.
  { subst new. destruct (decide (x = y)) as [->|Hne]; [by apply lcs_snoc_eq|].
    replace (if (old <? left)%nat then left else old) with (left `max` old)%nat by (destruct (Nat.ltb_spec old left); lia).
    by apply lcs_snoc_ne. }
  destruct (IH (dn ++ [y]) tail new old Hlen Hnew Hold) as [IHl IHj].
  { intros j n Hj. rewrite <- app_assoc. exact (Ht (S j) n Hj). }
  split; [simpl; by rewrite IHl|]. intros [|j] n Hj; [by injection Hj as <-|].
  specialize (IHj j n Hj). by rewrite <- app_assoc in IHj.
Qed.

Lemma lcsTable_ok a b : row_ok a b (lcsTable a b).
Proof.
  unfold lcsTable. induction a as [|x a [IHl IHj]] using rev_ind.
  - split; [apply length_replicate|]. intros j n [-> _]%lookup_replicate. apply lcs_sym, lcs_nil_r.
  - rewrite foldl_app. cbn [foldl]. apply (lcsRow_ok a x [] b _ 0 0 IHl (lcs_nil_r _) (lcs_nil_r _)). exact IHj.
Qed.

Lemma lcsTable_last a b : b ≠ [] → lcs_of a b (default 0%nat (last (lcsTable a b))).
Proof.
  intros Hb. destruct (lcsTable_ok a b) as [Hl Hj]. rewrite last_lookup, Hl.
  destruct (lcsTable a b !! pred (length b)) as [n|] eqn:E.
  - cbn. specialize (Hj _ _ E). rewrite take_ge in Hj; [done|]. lia.
  - apply lookup_ge_None in E. destruct b; simpl in *; [done|lia].
Qed.

Lemma common_prefix_le (a b : list Z) : (common_prefix a b ≤ length a)%nat.
Proof. revert b. induction a as [|x a IH]; intros [|y b]; simpl; try lia. destruct (decide _); [specialize (IH b)|]; lia. Qed.

Lemma lcs_exists (a b : list Z) : ∃ n, lcs_of a b n.
Proof.
  destruct (decide (b = [])) as [->|Hb]; [exists 0%nat; apply lcs_nil_r|]. eexists. by apply lcsTable_last.
Qed.

Lemma reverse_take_sublist {A} n (l : list A) : sublist (reverse (take n (reverse l))) l.
Proof. rewrite take_reverse, reverse_involutive. apply sublist_drop. Qed.

Lemma prefix_suffix_common (a b : list Z) :
  let p := common_prefix a b in
  let s := common_prefix (reverse (drop p a)) (reverse (drop p b)) in
  ∃ c, sublist c a ∧ sublist c b ∧ length c = (p + s)%nat.
Proof.
  intros p s. exists (take p a ++ reverse (take s (reverse (drop p a)))).
  pose proof (common_prefix_le a b) as Hp. pose proof (common_prefix_le (reverse (drop p a)) (reverse (drop p b))) as Hs.
  fold p in Hp. fold s in Hs. rewrite length_reverse, length_drop in Hs. split_and!.
  - rewrite <- (take_drop p a) at 3. apply sublist_app; [done|apply reverse_take_sublist].
  - rewrite <- (take_drop p b). subst p s. rewrite (sublist_common_prefix a b), (sublist_common_prefix (reverse (drop (common_prefix a b) a)) (reverse (drop (common_prefix a b) b))).
    apply sublist_app; [done|apply reverse_take_sublist].
  - rewrite length_app, length_take, length_reverse, length_take, length_reverse, length_drop. lia.
Qed.

(** The similarity of two texts is twice the length of a longest common
    subsequence of their runes over the sum of their lengths: exactly so while
    the table of the dynamic programme has at most two million entries, and at
    most so beyond, where the code only looks at a common prefix and suffix. *)
Theorem similarity_is_lcs left right :
  let a := runes left in
  let b := runes right in
  let q := sequenceSimilarity left right in
  ∃ n, lcs_of a b n ∧ 0 < den q ∧
    num q * (zlen a + zlen b) ≤ 2 * Z.of_nat n * den q ∧
    (zlen a * zlen b ≤ 2000000 → num q * (zlen a + zlen b) = 2 * Z.of_nat n * den q).
Proof.
  unfold sequenceSimilarity. destruct (String.eqb_spec left right) as [->|Hne].
  { exists (length (runes right)). unfold zlen. split_and!; [apply lcs_refl|done|simpl; lia|simpl; lia]. }
  cbv zeta. set (a := runes left). set (b := runes right).
  destruct ((zlen a =? 0) || (zlen b =? 0)) eqn:Hz; unfold zlen in *.
  { exists 0%nat. split_and!; [|simpl; lia|simpl; lia|simpl; lia]. bool_prop. destruct Hz as [Hz|Hz]; bool_prop.
    - destruct a; [apply lcs_sym, lcs_nil_r|simpl in Hz; lia].
    - destruct b; [apply lcs_nil_r|simpl in Hz; lia]. }
  bool_prop. destruct (Z.ltb_spec 2000000 (Z.of_nat (length a) * Z.of_nat (length b))).
  - destruct (lcs_exists a b) as [n Hn]. exists n. cbn [num den]. split_and!; [done|lia| |lia].
    destruct (prefix_suffix_common a b) as (c & Ha & Hb & Hc). destruct Hn as [_ Hmax]. specialize (Hmax c Ha Hb).
    rewrite Hc in Hmax. nia.
  - assert (a ≠ [] ∧ b ≠ []) as [Ha Hb] by (destruct a, b; simpl in *; split; first [done|lia]).
    destruct (Z.ltb_spec (Z.of_nat (length a)) (Z.of_nat (length b))).
    + exists (default 0%nat (last (lcsTable b a))). cbn [num den].
      split_and!; [by apply lcs_sym, lcsTable_last|lia|lia|lia].
    + exists (default 0%nat (last (lcsTable a b))). cbn [num den].
      split_and!; [by apply lcsTable_last|lia|lia|lia].
Qed.

(** ** Texts, slices and lines *)

Lemma bytes_str_take n s : bytes (str_take n s) = take n (bytes s).
Proof. apply bytes_of_bytes. Qed.

Lemma bytes_str_drop n s : bytes (str_drop n s) = drop n (bytes s).
Proof. apply bytes_of_bytes. Qed.

Lemma str_take_drop n s : (str_take n s ++ str_drop n s)%string = s.
Proof. apply bytes_inj. by rewrite bytes_app, bytes_str_take, bytes_str_drop, take_drop. Qed.

Lemma str_split_at pre rest : str_take (String.length pre) (pre ++ rest)%string = pre ∧
  str_drop (String.length pre) (pre ++ rest)%string = rest.
Proof.
  rewrite <- (length_bytes pre).
  split; apply bytes_inj; [rewrite bytes_str_take|rewrite bytes_str_drop]; rewrite bytes_app;
    [apply take_app_length|apply drop_app_length].
Qed.

Lemma length_str_take n s : String.length (str_take n s) = (n `min` String.length s)%nat.
Proof. by rewrite <- !length_bytes, bytes_str_take, length_take. Qed.

Lemma length_str_app s t : String.length (s ++ t)%string = (String.length s + String.length t)%nat.
Proof. by rewrite <- !length_bytes, bytes_app, length_app. Qed.

(** A match within the text cuts it into three parts. *)
Definition in_bounds (content : string) (m : textMatch) : Prop :=
  (m_start m ≤ m_end m ≤ String.length content)%nat.

Lemma slice_parts content m :
  in_bounds content m →
  content = (str_take (m_start m) content ++ str_slice (m_start m) (m_end m) content ++ str_drop (m_end m) content)%string.
Proof.
  intros [H1 H2]. apply bytes_inj. unfold str_slice.
  rewrite !bytes_app, !bytes_str_take, !bytes_str_drop.
  rewrite <- (take_drop (m_start m) (bytes content)) at 1. f_equal.
  rewrite <- (take_drop (m_end m - m_start m) (drop (m_start m) (bytes content))) at 1. f_equal.
  rewrite drop_drop. f_equal. lia.
Qed.

(** *** [strings.Index] *)

Lemma prefix_app p s : String.prefix p s = true → ∃ rest, s = (p ++ rest)%string.
Proof.
  revert s. induction p as [|a p IH]; intros s Hs; [by exists s|]. destruct s as [|b s]; [done|].
  cbn in Hs. destruct (Ascii.ascii_dec a b) as [->|]; [|done]. destruct (IH s Hs) as [rest ->]. by exists rest.
Qed.

Lemma index_from_spec i p s n :
  index_from i p s = Some n → ∃ pre post, s = (pre ++ p ++ post)%string ∧ n = (i + String.length pre)%nat.
Proof.
  revert i. induction s as [|a s IH]; intros i; cbn [index_from]; destruct (String.prefix p _) eqn:Hp; try done.
  - intros [= <-]. destruct (prefix_app _ _ Hp) as [post Hs]. exists ""%string, post. split; [done|cbn; lia].
  - intros [= <-]. destruct (prefix_app _ _ Hp) as [post Hs]. exists ""%string, post. split; [done|cbn; lia].
  - intros Hn. destruct (IH _ Hn) as (pre & post & -> & ->). exists (String a pre), post. split; [done|cbn; lia].
Qed.

Lemma Index_spec s p n :
  GoStr.Index s p = Some n → ∃ pre post, s = (pre ++ p ++ post)%string ∧ n = String.length pre.
Proof. apply index_from_spec. Qed.

Lemma exactFrom_bounds fuel offset content pattern :
  Forall (in_bounds content) (exactFrom fuel offset content pattern).
Proof.
  revert offset. induction fuel as [|fuel IH]; intros offset; cbn [exactFrom]; [constructor|].
  destruct (Nat.leb_spec (offset + String.length pattern) (String.length content)); [|constructor].
  destruct (GoStr.Index _ _) as [n|] eqn:Hn; [|constructor]. constructor; [|apply IH].
  destruct (Index_spec _ _ _ Hn) as (pre & post & Hs & ->).
  assert (String.length content = offset + (String.length pre + (String.length pattern + String.length post)))%nat as Hlen.
  { rewrite <- (str_take_drop offset content), Hs, !length_str_app, length_str_take. lia. }
  unfold in_bounds. cbn [m_start m_end]. lia.
Qed.

Lemma exactMatches_bounds content pattern : Forall (in_bounds content) (exactMatches content pattern).
Proof. unfold exactMatches. case_match; [constructor|apply exactFrom_bounds]. Qed.

(** A single exact match is the first occurrence, and none follows it. *)
Lemma exactMatches_single content pattern m :
  exactMatches content pattern = [m] →
  GoStr.Index content pattern = Some (m_start m) ∧ str_slice (m_start m) (m_end m) content = pattern ∧
  Contains (str_drop (m_end m) content) pattern = false.
Proof.
  unfold exactMatches. destruct (String.eqb_spec pattern ""); [done|]. cbn [exactFrom].
  destruct (Nat.leb_spec (0 + String.length pattern) (String.length content)) as [Hl|]; [|done].
  replace (str_drop 0 content) with content by (apply bytes_inj; by rewrite bytes_str_drop).
  destruct (GoStr.Index content pattern) as [i|] eqn:Hi; [|done]. cbn [Nat.add]. intros [= <- Hrest]. cbn [m_start m_end].
  destruct (Index_spec _ _ _ Hi) as (pre & post & -> & ->).
  assert (str_drop (String.length pre + String.length pattern) (pre ++ pattern ++ post) = post) as Hd.
  { apply bytes_inj. rewrite bytes_str_drop, !bytes_app, <- !length_bytes, <- drop_drop, drop_app_length. apply drop_app_length. }
  split_and!; [done| |].
  - unfold str_slice. rewrite (proj2 (str_split_at pre _)).
    replace (String.length pre + String.length pattern - String.length pre)%nat with (String.length pattern) by lia.
    apply str_split_at.
  - rewrite Hd. rewrite !length_str_app in Hrest. destruct (String.length pre + _)%nat eqn:Hf in Hrest at 1.
    { assert (String.length pattern = 0%nat) by lia. destruct pattern; [done|cbn in *; lia]. }
    cbn [exactFrom] in Hrest. rewrite Hd in Hrest.
    unfold Contains. destruct (GoStr.Index post pattern) as [j|] eqn:Hj; [|done].
    destruct (Index_spec _ _ _ Hj) as (pre' & post' & -> & ->). rewrite !length_str_app in Hrest.
    destruct (Nat.leb_spec (String.length pre + String.length pattern + String.length pattern)
      (String.length pre + (String.length pattern + (String.length pre' + (String.length pattern + String.length post')))));
      [done|lia].
Qed.

(** *** Lines *)

Section Lines.
Context (sep : ascii).

Fixpoint join_bytes (ws : list (list ascii)) : list ascii :=
  match ws with
  | [] => []
  | w :: ws => match ws with [] => w | _ => w ++ sep :: join_bytes ws end
  end.

Definition joined_len (ws : list (list ascii)) : nat := sum_list_with (λ w, S (length w)) ws.

Lemma split_bytes_nonempty l : split_bytes sep l ≠ [].
Proof. destruct l as [|c l]; cbn; [done|]. repeat case_match; done. Qed.

Lemma join_cons w ws : ws ≠ [] → join_bytes (w :: ws) = w ++ sep :: join_bytes ws.
Proof. by destruct ws. Qed.

Lemma join_split l : join_bytes (split_bytes sep l) = l.
Proof.
  induction l as [|c l IH]; [done|]. cbn [split_bytes]. destruct (Ascii.eqb_spec c sep) as [->|].
  - rewrite join_cons by apply split_bytes_nonempty. by rewrite IH.
  - pose proof (split_bytes_nonempty l) as Hne. destruct (split_bytes sep l) as [|w ws]; [done|].
    rewrite <- IH. by destruct ws.
Qed.

Lemma split_free l : Forall (λ w, sep ∉ w) (split_bytes sep l).
Proof.
  induction l as [|c l IH]; cbn [split_bytes]; [repeat constructor; apply not_elem_of_nil|].
  destruct (Ascii.eqb_spec c sep) as [->|Hc]; [constructor; [apply not_elem_of_nil|done]|].
  destruct (split_bytes sep l) as [|w ws]; inv IH; constructor; try done; rewrite not_elem_of_cons; split; try done.
  apply not_elem_of_nil.
Qed.

Lemma split_app_free w l : sep ∉ w → split_bytes sep (w ++ sep :: l) = w :: split_bytes sep l.
Proof.
  induction w as [|c w IH]; cbn [app split_bytes]; intros Hw; [by rewrite Ascii.eqb_refl|].
  apply not_elem_of_cons in Hw as [Hc Hw]. rewrite (IH Hw). destruct (Ascii.eqb_spec c sep); [congruence|done].
Qed.

Lemma split_word w : sep ∉ w → split_bytes sep w = [w].
Proof.
  induction w as [|c w IH]; cbn [split_bytes]; intros Hw; [done|].
  apply not_elem_of_cons in Hw as [Hc Hw]. rewrite (IH Hw). destruct (Ascii.eqb_spec c sep); [congruence|done].
Qed.

Lemma split_join ws : ws ≠ [] → Forall (λ w, sep ∉ w) ws → split_bytes sep (join_bytes ws) = ws.
Proof.
  induction ws as [|w ws IH]; intros Hne Hf; [done|]. inv Hf. destruct (decide (ws = [])) as [->|Hws].
  - by apply split_word.
  - rewrite join_cons by done. rewrite split_app_free by done. by rewrite IH.
Qed.

Lemma join_app ws vs : ws ≠ [] → vs ≠ [] → join_bytes (ws ++ vs) = join_bytes ws ++ sep :: join_bytes vs.
Proof.
  induction ws as [|w ws IH]; intros Hw Hv; [done|]. destruct (decide (ws = [])) as [->|Hws].
  - cbn [app]. by rewrite join_cons.
  - cbn [app]. rewrite !join_cons by (by destruct ws || done). rewrite IH by done. by rewrite <- app_assoc.
Qed.

Lemma join_length ws : ws ≠ [] → S (length (join_bytes ws)) = joined_len ws.
Proof.
  induction ws as [|w ws IH]; intros Hw; [done|]. destruct (decide (ws = [])) as [->|Hws]; [cbn; lia|].
  rewrite join_cons by done. rewrite length_app. cbn [length joined_len sum_list_with]. fold (joined_len ws).
  rewrite <- IH by done. lia.
Qed.

(** The bytes of the lines [start .. start+k-1] of a joined text. *)
Lemma join_slice ws start k :
  (0 < k)%nat → (start + k ≤ length ws)%nat →
  take (joined_len (block k start ws) - 1) (drop (joined_len (take start ws)) (join_bytes ws)) = join_bytes (block k start ws).
Proof.
  intros Hk Hl. unfold block.
  assert (take k (drop start ws) ≠ []) as Hb.
  { intros E. apply (f_equal length) in E. rewrite length_take, length_drop in E. cbn [length] in E. lia. }
  assert (drop (joined_len (take start ws)) (join_bytes ws) = join_bytes (drop start ws)) as ->.
  { destruct start as [|start]; [by rewrite drop_0|]. rewrite <- (take_drop (S start) ws) at 2.
    assert (take (S start) ws ≠ [] ∧ drop (S start) ws ≠ []) as [Ht Hd].
    { split; intros E; apply (f_equal length) in E; rewrite ?length_take, ?length_drop in E; cbn [length] in E; lia. }
    rewrite join_app by done. rewrite <- join_length by done.
    rewrite cons_middle, app_assoc. apply drop_app_length'. rewrite length_app. cbn. lia. }
  rewrite <- (take_drop k (drop start ws)) at 2. rewrite <- join_length by done. cbn [Nat.sub]. rewrite Nat.sub_0_r.
  destruct (decide (drop k (drop start ws) = [])) as [->|Hd].
  - rewrite app_nil_r. by rewrite firstn_all.
  - rewrite join_app by done. apply take_app_length.
Qed.

Lemma joined_len_app ws vs : joined_len (ws ++ vs) = (joined_len ws + joined_len vs)%nat.
Proof. apply sum_list_with_app. Qed.
End Lines.

Lemma bytes_Join lines : bytes (Join lines nl) = join_bytes newline (bytes <$> lines).
Proof.
  unfold Join. induction lines as [|l lines IH]; [done|]. destruct lines as [|l' lines]; [done|].
  change (String.concat nl (l :: l' :: lines)) with (l ++ nl ++ String.concat nl (l' :: lines))%string.
  rewrite !bytes_app, IH. done.
Qed.

Lemma Split_bytes s : bytes <$> Split s newline = split_bytes newline (bytes s).
Proof.
  unfold Split. rewrite <- list_fmap_compose. rewrite <- list_fmap_id. apply list_fmap_ext.
  intros i w _. apply bytes_of_bytes.
Qed.

Lemma Split_nonempty s : Split s newline ≠ [].
Proof. intros E%fmap_nil_inv. by apply split_bytes_nonempty in E. Qed.

Lemma lines_len_bytes lines : lines_len lines = joined_len (bytes <$> lines).
Proof.
  unfold lines_len, joined_len. induction lines as [|l lines IH]; [done|].
  rewrite fmap_cons. cbn [sum_list_with]. by rewrite IH, length_bytes.
Qed.

Lemma lines_len_Split s : lines_len (Split s newline) = S (String.length s).
Proof.
  rewrite lines_len_bytes, Split_bytes, <- length_bytes.
  rewrite <- (join_length newline) by apply split_bytes_nonempty. by rewrite join_split.
Qed.

Lemma lines_len_parts start lines : lines_len lines = (lines_len (take start lines) + lines_len (drop start lines))%nat.
Proof. rewrite <- (take_drop start lines) at 1. apply sum_list_with_app. Qed.

Lemma lines_len_pos lines : lines ≠ [] → (0 < lines_len lines)%nat.
Proof. destruct lines; [done|]. cbn. lia. Qed.

(** The span of a block of lines is the text of the block. *)
Lemma lineMatchSpan_spec content start k :
  (0 < k)%nat → (start + k ≤ length (Split content newline))%nat →
  let m := lineMatchSpan content (Split content newline) start k in
  in_bounds content m ∧
  str_slice (m_start m) (m_end m) content = Join (block k start (Split content newline)) nl.
Proof.
  intros Hk Hl m. pose proof (lines_len_Split content) as Htot.
  set (lines := Split content newline) in *.
  pose proof (lines_len_parts start lines) as Hp. pose proof (lines_len_parts k (drop start lines)) as Hp'.
  assert (take k (drop start lines) ≠ []) as Hb.
  { intros E. apply (f_equal length) in E. rewrite length_take, length_drop in E. cbn [length] in E. lia. }
  pose proof (lines_len_pos _ Hb) as Hpos.
  assert (m = mkMatch (lines_len (take start lines)) (lines_len (take start lines) + (lines_len (block k start lines) - 1))) as ->.
  { subst m. unfold lineMatchSpan, block in *. f_equal. destruct (Nat.ltb_spec (String.length content) (lines_len (take start lines) + (lines_len (take k (drop start lines)) - 1))); [lia|done]. }
  unfold in_bounds, block in *. cbn [m_start m_end]. split; [lia|].
  apply bytes_inj. unfold str_slice. rewrite bytes_str_take, bytes_str_drop, bytes_Join.
  rewrite !lines_len_bytes, !fmap_take, !fmap_drop. subst lines. rewrite Split_bytes.
  rewrite Nat.add_comm, Nat.add_sub.
  rewrite <- (join_split newline (bytes content)) at 3. apply (join_slice newline _ start k); [done|].
  rewrite <- Split_bytes, length_fmap. done.
Qed.

(** *** Every strategy's matches lie within the text *)

Lemma windowStarts_bound k n start : start ∈ windowStarts k n → (start + k ≤ n)%nat.
Proof. unfold windowStarts. rewrite list_elem_of_In, in_seq. lia. Qed.

Lemma window_span content k start :
  (0 < k)%nat → start ∈ windowStarts k (length (Split content newline)) →
  in_bounds content (lineMatchSpan content (Split content newline) start k).
Proof. intros Hk Hs%windowStarts_bound. by apply lineMatchSpan_spec. Qed.

Lemma windowMatches_bounds content k p : (0 < k)%nat → Forall (in_bounds content) (windowMatches content k p).
Proof.
  intros Hk. unfold windowMatches. apply Forall_fmap, Forall_forall. intros start [_ Hs]%list_elem_of_filter.
  by apply window_span.
Qed.

Lemma Split_length_pos s : (0 < length (Split s newline))%nat.
Proof. pose proof (Split_nonempty s). destruct (Split s newline); [done|cbn; lia]. Qed.

Lemma normalizedLineMatches_bounds content pattern f : Forall (in_bounds content) (normalizedLineMatches content pattern f).
Proof. apply windowMatches_bounds, Split_length_pos. Qed.

Lemma length_trimEnds l : length (trimEnds l) = length l.
Proof. unfold trimEnds. destruct l; case_match; rewrite ?length_alter; done. Qed.

Definition newlines (l : list ascii) : nat := length (filter (λ c, c = newline) l).

Lemma newlines_app l k : newlines (l ++ k) = (newlines l + newlines k)%nat.
Proof. unfold newlines. by rewrite filter_app, length_app. Qed.

Lemma newlines_cons c l : newlines (c :: l) = ((if decide (c = newline) then 1 else 0) + newlines l)%nat.
Proof. unfold newlines. rewrite filter_cons. by destruct (decide (c = newline)). Qed.

Lemma split_length_newlines l : length (split_bytes newline l) = S (newlines l).
Proof.
  induction l as [|c l IH]; [done|]. cbn [split_bytes]. rewrite newlines_cons.
  destruct (Ascii.eqb_spec c newline) as [->|Hc].
  - rewrite decide_True by done. cbn [length]. lia.
  - rewrite decide_False by done. destruct (split_bytes newline l); cbn [length] in *; lia.
Qed.

Lemma high_not_newline z : 128 ≤ z < 256 → byte_of z ≠ newline.
Proof. intros Hz E. apply (f_equal byte_val) in E. rewrite byte_val_of_small in E by lia. change (byte_val newline) with 10 in E. lia. Qed.

Lemma newlines_high l : Forall (λ c, 128 ≤ byte_val c) l → newlines l = 0%nat.
Proof.
  induction 1 as [|c l Hc Hl IH]; [done|]. rewrite newlines_cons, IH. destruct (decide (c = newline)) as [->|]; [|done].
  change (byte_val newline) with 10 in Hc. lia.
Qed.

Lemma newlines_encode r : scalar r = true → newlines (encode_rune r) = if r =? 10 then 1%nat else 0%nat.
Proof.
  intros Hs. unfold encode_rune. fold (scalar r). rewrite Hs. unfold scalar, in_range in Hs. bool_prop.
  pose proof (Z.mod_pos_bound r 64 ltac:(lia)). pose proof (Z.mod_pos_bound (r `div` 64) 64 ltac:(lia)).
  pose proof (Z.mod_pos_bound (r `div` 4096) 64 ltac:(lia)).
  destruct (Z.ltb_spec r 128) as [R1|R1].
  { rewrite newlines_cons. destruct (Z.eqb_spec r 10) as [->|Hr]; [done|].
    rewrite decide_False; [done|]. intros E. apply (f_equal byte_val) in E. rewrite byte_val_of_small in E by lia.
    by change (byte_val newline) with 10 in E. }
  destruct (Z.eqb_spec r 10); [lia|].
  assert (r `div` 64 < 2 ^ 15 ∧ r `div` 4096 < 512 ∧ r `div` 262144 < 8) as (?&?&?)
    by (split_and!; apply Z.div_lt_upper_bound; lia).
  pose proof (Z.div_pos r 64 ltac:(lia) ltac:(lia)). pose proof (Z.div_pos r 4096 ltac:(lia) ltac:(lia)).
  pose proof (Z.div_pos r 262144 ltac:(lia) ltac:(lia)).
  destruct (Z.ltb_spec r 2048);
    [assert (r `div` 64 < 32) by (apply Z.div_lt_upper_bound; lia)
    |destruct (Z.ltb_spec r 65536); [assert (r `div` 4096 < 16) by (apply Z.div_lt_upper_bound; lia)|]];
    apply newlines_high; repeat constructor; rewrite byte_val_of_small by lia; lia.
Qed.

Lemma newlines_normalize r : scalar r = true → newlines (normalizeRune r) = if r =? 10 then 1%nat else 0%nat.
Proof.
  intros Hs. unfold normalizeRune. destruct (hermesUnicodeMap r) as [s|] eqn:Hm; [|by apply newlines_encode].
  unfold hermesUnicodeMap in Hm. destruct (Z.eqb_spec r 10) as [->|_]; [done|].
  repeat (case_match; [injection Hm as <-; reflexivity|]). done.
Qed.

(** An ASCII byte stands for itself; in any other encoding, and in an invalid
    one, the bytes consumed and the rune are above 127. *)
Lemma decode_cases a l :
  byte_val a < 128 ∧ decode_rune (a :: l) = (byte_val a, 1%nat) ∨
  128 ≤ (decode_rune (a :: l)).1 ∧ Forall (λ c, 128 ≤ byte_val c) (take (decode_rune (a :: l)).2 (a :: l)).
Proof.
  unfold decode_rune, is_cont, in_range. destruct (Z.ltb_spec (byte_val a) 128) as [Ha|Ha]; [by left|right].
  assert (∀ n, (1 = n)%nat → 128 ≤ RuneError ∧ Forall (λ c, 128 ≤ byte_val c) (take n (a :: l))) as Hinv.
  { intros n <-. split; [done|]. by repeat constructor. }
  destruct l as [|b l]; [by apply (Hinv 1%nat)|].
  destruct ((194 <=? byte_val a) && (byte_val a <=? 223)) eqn:E2; bool_prop.
  { destruct ((128 <=? byte_val b) && (byte_val b <=? 191)) eqn:Eb; bool_prop; [|by apply (Hinv 1%nat)].
    cbn [fst snd take]. split; [lia|]. repeat constructor; lia. }
  destruct ((224 <=? byte_val a) && (byte_val a <=? 239)) eqn:E3; bool_prop.
  { destruct l as [|c l]; [by apply (Hinv 1%nat)|]. case_match eqn:Ec; [|by apply (Hinv 1%nat)]. bool_prop.
    cbn [fst snd take]. destruct (byte_val a =? 224) eqn:E; bool_prop; (split; [lia|]); repeat constructor; lia. }
  destruct ((240 <=? byte_val a) && (byte_val a <=? 244)) eqn:E4; bool_prop; [|by apply (Hinv 1%nat)].
  destruct l as [|c [|d l]]; [by apply (Hinv 1%nat)|by apply (Hinv 1%nat)|].
  case_match eqn:Ec; [|by apply (Hinv 1%nat)]. bool_prop.
  cbn [fst snd take]. destruct (byte_val a =? 240) eqn:E; bool_prop; (split; [lia|]); repeat constructor; lia.
Qed.

(** A decoded segment holds a newline byte exactly when its rune is one. *)
Lemma newlines_decoded r bs rest :
  bs ≠ [] → decode_rune (bs ++ rest) = (r, length bs) → newlines bs = if r =? 10 then 1%nat else 0%nat.
Proof.
  intros Hne Hd. destruct bs as [|a bs]; [done|]. cbn [app] in Hd.
  destruct (decode_cases a (bs ++ rest)) as [[Ha Hd']|[Hr Hall]].
  - rewrite Hd in Hd'. injection Hd' as -> Hl. destruct bs; [|done]. rewrite newlines_cons.
    destruct (decide (a = newline)) as [->|Hne']; [done|]. destruct (Z.eqb_spec (byte_val a) 10) as [E|]; [|done].
    destruct Hne'. by apply byte_val_inj.
  - rewrite Hd in Hr, Hall. cbn [fst snd] in Hr, Hall. rewrite app_comm_cons, take_app_length in Hall.
    rewrite newlines_high by done. destruct (Z.eqb_spec r 10); [lia|done].
Qed.

Lemma newlines_normalizeUnicode s : newlines (bytes (normalizeUnicode s)) = newlines (bytes s).
Proof.
  unfold normalizeUnicode, runes. rewrite bytes_of_bytes.
  assert (decoded (bytes s) (segments s)) as Hd by by apply segments_decoded.
  pose proof (runes_scalar s) as Hs. unfold runes in Hs.
  induction Hd as [|r bs rest segs Hne Hdec Hd IH]; [done|].
  rewrite !fmap_cons in *. inv Hs. cbn [concat]. rewrite !newlines_app, IH by done. f_equal.
  rewrite newlines_normalize by done. symmetry. by apply (newlines_decoded r bs rest).
Qed.

Lemma Split_normalizeUnicode s : length (Split (normalizeUnicode s) newline) = length (Split s newline).
Proof. unfold Split. by rewrite !length_fmap, !split_length_newlines, newlines_normalizeUnicode. Qed.

Lemma blockAnchorMatches_bounds content pattern : Forall (in_bounds content) (blockAnchorMatches content pattern).
Proof.
  unfold blockAnchorMatches. cbv zeta. case_match eqn:Hk; [constructor|]. apply Nat.ltb_ge in Hk.
  apply Forall_fmap, Forall_forall. intros start [_ [_ Hs]%list_elem_of_filter]%list_elem_of_filter.
  rewrite (Split_normalizeUnicode content) in Hs. apply window_span; [lia|done].
Qed.

Lemma boundariesFrom_bound offset segs b :
  b ∈ boundariesFrom offset segs → (b ≤ offset + length (concat (snd <$> segs)))%nat.
Proof.
  revert offset. induction segs as [|[r bs] segs IH]; intros offset; cbn [boundariesFrom].
  - rewrite list_elem_of_singleton. intros ->. cbn. lia.
  - rewrite elem_of_app, elem_of_replicate, fmap_cons. cbn [concat snd]. rewrite length_app.
    intros [[-> _]|Hb]; [lia|]. apply IH in Hb. lia.
Qed.

Lemma mapBoundaries_bounds content m m' :
  mapBoundaries (boundariesFrom 0 (segments content)) m = Some m' → in_bounds content m'.
Proof.
  unfold mapBoundaries. intros Hm. set (bs := boundariesFrom 0 (segments content)) in *.
  destruct (bs !! m_start m) as [a|]; [|done]. destruct (bs !! m_end m) as [b|] eqn:Hb; [|done].
  destruct (Nat.ltb_spec a b); [|done]. injection Hm as <-.
  apply list_elem_of_lookup_2, boundariesFrom_bound in Hb.
  assert (concat (snd <$> segments content) = bytes content) as E by by apply segments_fuel_concat.
  rewrite E, length_bytes in Hb. unfold in_bounds. cbn. lia.
Qed.

Lemma unicodeNormalizedMatches_bounds content pattern : Forall (in_bounds content) (unicodeNormalizedMatches content pattern).
Proof.
  unfold unicodeNormalizedMatches, normalizeUnicodeWithBoundaries. case_match; [constructor|].
  destruct (exactMatches _ _) as [|m ms]; [apply normalizedLineMatches_bounds|].
  apply Forall_forall. intros m' (m0 & _ & Hm)%list_elem_of_omap. by eapply mapBoundaries_bounds.
Qed.

Lemma strategies_bounds : Forall (λ st, ∀ content pattern, Forall (in_bounds content) (find_matches st content pattern)) strategies.
Proof.
  unfold strategies. repeat constructor; cbn [find_matches]; intros content pattern.
  - apply exactMatches_bounds.
  - apply normalizedLineMatches_bounds.
  - apply normalizedLineMatches_bounds.
  - apply normalizedLineMatches_bounds.
  - unfold escapeNormalizedMatches. case_match; [constructor|apply exactMatches_bounds].
  - apply windowMatches_bounds. rewrite length_trimEnds. apply Split_length_pos.
  - apply unicodeNormalizedMatches_bounds.
  - apply blockAnchorMatches_bounds.
  - unfold contextAwareMatches. case_match; [constructor|]. apply windowMatches_bounds, Split_length_pos.
Qed.

(** ** What an edit changes *)

Lemma applyTextMatches_single content m new old reindent :
  in_bounds content m →
  applyTextMatches content [m] new old reindent =
  Some (str_take (m_start m) content ++
        (if reindent then reindentReplacement (str_slice (m_start m) (m_end m) content) old new else new) ++
        str_drop (m_end m) content)%string.
Proof.
  intros [H1 H2]. unfold applyTextMatches. cbn [sort_stable foldr insert_stable replaceMatches].
  by rewrite (proj2 (Nat.leb_le _ _)), (proj2 (Nat.leb_le _ _)) by lia.
Qed.

(** The text that replaces the region of a single match. *)
Definition effectiveNew (strategy : fuzzyStrategy) (content oldString newString : string) (m : textMatch) : string :=
  let new := maybeUnescapeReplacement newString content [m] in
  let region := str_slice (m_start m) (m_end m) content in
  let new := if (strategy_name strategy =? "unicode_normalized")%string
             then preserveUnicodeReplacement region oldString new else new in
  if (strategy_name strategy =? "exact")%string then new else reindentReplacement region oldString new.

Lemma replaceWith_single strategy content old new matches :
  matches ≠ [] → Forall (in_bounds content) matches →
  ∃ r, replaceWith strategy content old new false matches = Some r ∧
  ∀ text n name, r = Ok (text, n, name) → ∃ m, matches = [m] ∧ n = 1%nat ∧ name = strategy_name strategy ∧
    text = (str_take (m_start m) content ++ effectiveNew strategy content old new m ++ str_drop (m_end m) content)%string.
Proof.
  intros Hne Hb. unfold replaceWith. destruct matches as [|m [|m' ms]]; [done| |].
  2: { eexists. split; [reflexivity|done]. }
  cbn [length Nat.ltb Nat.leb andb negb]. inv Hb.
  destruct (if (strategy_name strategy =? "exact")%string then None else _) as [e|]; [eexists; split; [reflexivity|done]|].
  rewrite applyTextMatches_single by done. eexists. split; [reflexivity|].
  intros text n name [= <- <- <-]. exists m. split_and!; [done|done|done|]. unfold effectiveNew.
  destruct (strategy_name strategy =? "exact")%string, (strategy_name strategy =? "unicode_normalized")%string; done.
Qed.

Lemma tryStrategies_single l content old new :
  Forall (λ st, ∀ content pattern, Forall (in_bounds content) (find_matches st content pattern)) l →
  ∃ r, tryStrategies l content old new false = Some r ∧
  ∀ text n name, r = Ok (text, n, name) → ∃ st m, st ∈ l ∧ find_matches st content old = [m] ∧ n = 1%nat ∧
    name = strategy_name st ∧
    text = (str_take (m_start m) content ++ effectiveNew st content old new m ++ str_drop (m_end m) content)%string.
Proof.
  induction 1 as [|st l Hst Hl IH]; cbn [tryStrategies]; [by eexists|].
  destruct (find_matches st content old) as [|m ms] eqn:Hm.
  - destruct IH as (r & Hr & Hok). exists r. split; [done|]. intros text n name E.
    destruct (Hok text n name E) as (st' & m & Hin & Hrest). exists st', m. split; [by right|done].
  - destruct (replaceWith_single st content old new (m :: ms)) as (r & Hr & Hok); [done|rewrite <- Hm; apply Hst|].
    exists r. split; [done|]. intros text n name E. destruct (Hok text n name E) as (m' & Hmm & Hn & Hname & Ht).
    exists st, m'. rewrite Hm. split_and!; [left|done|done|done|done].
Qed.

(** The strategies that compare normalized lines. *)
Definition line_normalizers : list (string * (string → string)) :=
  [("line_trimmed"%string, TrimSpace); ("whitespace_normalized"%string, collapseHorizontalWhitespace);
   ("indentation_flexible"%string, TrimLeftBlank)].

#[export] Instance bytes_Inj : Inj (=) (=) bytes := bytes_inj.

Lemma Split_Join_block s k start :
  (0 < k)%nat → (start + k ≤ length (Split s newline))%nat →
  Split (Join (block k start (Split s newline)) nl) newline = block k start (Split s newline).
Proof.
  intros Hk Hl. apply (inj (fmap (M:=list) bytes)). rewrite Split_bytes, bytes_Join.
  unfold block. rewrite fmap_take, fmap_drop, Split_bytes. apply split_join.
  - intros E. apply (f_equal length) in E. rewrite length_take, length_drop, <- Split_bytes, length_fmap in E. cbn [length] in E. lia.
  - apply Forall_take, Forall_drop, split_free.
Qed.

Lemma normalizedLineMatches_lines content pattern f m :
  m ∈ normalizedLineMatches content pattern f →
  f <$> Split (str_slice (m_start m) (m_end m) content) newline = f <$> Split pattern newline.
Proof.
  unfold normalizedLineMatches, windowMatches. cbv zeta.
  intros (start & -> & [Hp Hs]%list_elem_of_filter)%list_elem_of_fmap. apply bool_decide_eq_true in Hp.
  apply windowStarts_bound in Hs. pose proof (Split_length_pos pattern) as Hk.
  destruct (lineMatchSpan_spec content start (length (Split pattern newline)) Hk Hs) as [_ ->].
  by rewrite Split_Join_block.
Qed.

Lemma replaceEscape_none c new l : backslash ∉ l → replaceEscape c new l = l.
Proof.
  induction l as [|a l IH]; [done|]. rewrite not_elem_of_cons. intros [Ha Hl]. cbn [replaceEscape].
  destruct l as [|b l]; [done|]. destruct (Ascii.eqb_spec a backslash); [congruence|]. cbn [andb]. by rewrite IH.
Qed.

Lemma maybeUnescape_id new content m :
  backslash ∉ bytes new → maybeUnescapeReplacement new content [m] = new.
Proof.
  intros Hb. unfold maybeUnescapeReplacement. cbv zeta.
  repeat case_match; rewrite ?replaceEscape_none; rewrite ?replaceEscape_none; try done; apply of_bytes_bytes.
Qed.

(** Without replace_all the edit never panics and, when it succeeds, replaces
    one region of the text and keeps every byte before and after it.  The region
    of an exact edit is the old string, at its first occurrence and with none after
    it, replaced by the new string when that has no backslash; the region of an
    edit by lines equals the old string line by line after normalization. *)
Theorem fuzzy_edits_one_region content old new :
  ∃ r, fuzzyFindAndReplace content old new false = Some r ∧
  ∀ text n name, r = Ok (text, n, name) →
    n = 1%nat ∧ ∃ pre region post replacement,
      content = (pre ++ region ++ post)%string ∧ text = (pre ++ replacement ++ post)%string ∧
      (name = "exact"%string → region = old ∧ GoStr.Index content old = Some (String.length pre) ∧
         Contains post old = false ∧ (backslash ∉ bytes new → replacement = new)) ∧
      (∀ f, (name, f) ∈ line_normalizers → f <$> Split region newline = f <$> Split old newline).
Proof.
  unfold fuzzyFindAndReplace. do 3 (case_match; [eexists; split; [reflexivity|done]|]).
  destruct (tryStrategies_single strategies content old new strategies_bounds) as (r & Hr & Hok).
  exists r. split; [done|]. intros text n name E.
  destruct (Hok text n name E) as (st & m & Hst & Hm & -> & -> & ->). split; [done|].
  assert (in_bounds content m) as Hb.
  { pose proof (proj1 (Forall_forall _ _) strategies_bounds st Hst content old) as Hf. rewrite Hm in Hf. by inv Hf. }
  eexists (str_take (m_start m) content), (str_slice (m_start m) (m_end m) content), (str_drop (m_end m) content), _.
  split_and!; [by apply slice_parts|done| |].
  - intros Hname. unfold strategies in Hst. rewrite !elem_of_cons in Hst.
    destruct Hst as [->|Hst]; [|by repeat destruct Hst as [->|Hst]; [..|apply elem_of_nil in Hst]].
    destruct (exactMatches_single content old m Hm) as (Hi & Hs & Hc).
    split_and!; [done| |done|intros Hbs; cbn; by apply maybeUnescape_id].
    rewrite Hi, length_str_take. f_equal. destruct Hb. lia.
  - intros f Hf. unfold line_normalizers in Hf. rewrite !elem_of_cons, elem_of_nil in Hf.
    unfold strategies in Hst. rewrite !elem_of_cons in Hst.
    assert (m ∈ find_matches st content old) as Hin by (rewrite Hm; left).
    destruct Hf as [[= Hn ->]|[[= Hn ->]|[[= Hn ->]|[]]]]; repeat destruct Hst as [->|Hst]; try discriminate Hn;
      try (by apply elem_of_nil in Hst); by apply (normalizedLineMatches_lines content old).
Qed.

Definition tab : string := of_bytes [byte_of 9].
Definition three_lines : string := (tab ++ "x" ++ nl ++ tab ++ "x" ++ nl ++ tab ++ "x")%string.

(** With replace_all the blocks of lines found by a line strategy may overlap:
    deleting two equal lines among three panics, and replacing them loses the
    line in between and leaves a piece of the first replacement. *)
Theorem overlapping_matches_corrupt :
  fuzzyFindAndReplace three_lines ("x" ++ nl ++ "x") "" true = None ∧
  fuzzyFindAndReplace three_lines ("x" ++ nl ++ "x") "replaced" true =
    Some (Ok ((tab ++ "replacedeplaced")%string, 2%nat, "line_trimmed"%string)).
Proof. split; vm_compute; reflexivity. Qed.
