(* ===== verification/Patch.v ===== *)
(** The patch tool of the workspace (internal/runtime/toolruntime:
    filesystem_v4a.go, filesystem_patch.go): parsing a V4A patch, simulating its
    operations, checking expected versions, applying the result to the files and
    rolling it back.

    The file system is a map from absolute paths to contents and permission bits;
    directories, links and temporary files are left out.  A system call may fail:
    [fails n] says whether the [n]-th one does, and a write or a removal that fails
    changes nothing (a write goes through a rename).  The path resolver
    [workspacePath], SHA-256 and the locks are parameters. *)
From Stdlib Require Import Ascii.
From S2P Require Import Prelude GoStr Fuzzy.
Open Scope Z_scope.

(** ** Operations *)

Inductive v4aOperationKind := v4aUpdate | v4aAdd | v4aDelete | v4aMove.

#[export] Instance v4aOperationKind_eq_dec : EqDecision v4aOperationKind.
Proof. solve_decision. Defined.

Record v4aHunkLine := mkHunkLine { hl_prefix : ascii; hl_content : string }.
Record v4aHunk := mkHunk { contextHint : string; hunk_lines : list v4aHunkLine }.

Record v4aOperation := mkOperation {
  op_kind : v4aOperationKind;
  rawPath : string;
  rawNewPath : string;
  op_path : string;
  op_newPath : string;
  op_hunks : list v4aHunk
}.

Inductive patchError :=
| PatchContentRequired
| NoOperations
| EmptyPath
| UpdateWithoutHunks (path : string)
| MoveWithoutDestination (path : string)
| UnsafePath (path : string)
| SameMovePath
| LockFailed (path : string)
| ReadFailed (path : string)
| NotUTF8 (path : string)
| FileExists (path : string)
| FileMissing (path : string)
| DestinationExists (path : string)
| HintNotFound (hint : string)
| HintAmbiguous (hint : string) (count : nat)
| HunkFailed (index : nat) (hint : string)
| HunkNoChange (index : nat)
| NoChanges
| EmptyExpectedHash (path : string)
| HashPathNotModified (path : string)
| OneFileExpected
| HashRequired (path : string)
| VersionMismatch (path : string)
| RolledBack
| RollbackFailed (paths : list string)
| PatchPanic.

(** ** The patterns of the parser *)

(** The class [\s] of regexp. *)
Definition re_space (c : ascii) : bool :=
  bool_decide (byte_val c = 9 ∨ byte_val c = 10 ∨ byte_val c = 12 ∨ byte_val c = 13 ∨ byte_val c = 32).

Definition skip_spaces (s : string) : string := of_bytes (drop_while re_space (bytes s)).

(** A literal, and one or more spaces. *)
Definition literal (p s : string) : option string :=
  if HasPrefix s p then Some (str_drop (String.length p) s) else None.

Definition spaces1 (s : string) : option string :=
  match s with
  | String c _ => if re_space c then Some (skip_spaces s) else None
  | EmptyString => None
  end.

(** [^\*\*\*\s*word1\s+word2]: what follows the words. *)
Definition header (word1 word2 line : string) : option string :=
  s ← literal "***" line; s ← literal word1 (skip_spaces s); s ← spaces1 s; literal word2 s.

Definition marker (word1 word2 line : string) : bool :=
  match header word1 word2 line with
  | Some rest => (skip_spaces rest =? "")%string
  | None => false
  end.

Definition v4aBeginPattern := marker "Begin" "Patch".
Definition v4aEndPattern := marker "End" "Patch".

(** [\s*(.+)$]: the group keeps a last space when there is nothing else. *)
Definition captureRest (s : string) : option string :=
  let t := skip_spaces s in
  if (s =? "")%string then None
  else if (t =? "")%string then Some (str_drop (String.length s - 1) s)
  else Some t.

Definition filePattern (word line : string) : option string := s ← header word "File:" line; captureRest s.

Definition v4aUpdatePattern := filePattern "Update".
Definition v4aAddPattern := filePattern "Add".
Definition v4aDeletePattern := filePattern "Delete".

(** [(.+?)\s*->\s*(.+)$] after [n] characters of the first group: the shortest
    group that works. *)
Fixpoint lazyArrow (group : list ascii) (rest : list ascii) : option (string * string) :=
  let here :=
    match group with
    | [] => None
    | _ => s ← literal "->" (of_bytes (drop_while re_space rest)); dst ← captureRest s; Some (of_bytes (reverse group), dst)
    end in
  match here, rest with
  | Some r, _ => Some r
  | None, c :: rest => lazyArrow (c :: group) rest
  | None, [] => None
  end.

Definition v4aMovePattern (line : string) : option (string * string) :=
  s ← header "Move" "File:" line;
    let t := skip_spaces s in
    match lazyArrow [] (bytes t) with
    | Some r => Some r
    | None => (* the leading spaces give one back to the group *)
      if (String.length t <? String.length s)%nat
      then lazyArrow [] (bytes (str_drop (String.length s - String.length t - 1) s)) else None
    end.

(** [^@@\s*(.*?)\s*@@]. *)
Fixpoint lazyHint (group rest : list ascii) : option string :=
  if HasPrefix (of_bytes (drop_while re_space rest)) "@@" then Some (of_bytes (reverse group))
  else match rest with
       | c :: rest => lazyHint (c :: group) rest
       | [] => None
       end.

Definition v4aHintPattern (line : string) : option string :=
  s ← literal "@@" line; lazyHint [] (bytes (skip_spaces s)).

(** ** [parseV4APatch] *)

Record parseState := mkParseState {
  ps_operations : list v4aOperation;
  ps_current : option v4aOperation;
  ps_hunk : option v4aHunk
}.

Definition newOperation (kind : v4aOperationKind) (path newPath : string) : v4aOperation :=
  mkOperation kind (TrimSpace path) (TrimSpace newPath) "" "" [].

Definition addHunk (op : v4aOperation) (hunk : option v4aHunk) : v4aOperation :=
  match hunk with
  | Some h => match hunk_lines h with
              | [] => op
              | _ => mkOperation (op_kind op) (rawPath op) (rawNewPath op) (op_path op) (op_newPath op) (op_hunks op ++ [h])
              end
  | None => op
  end.

Definition finishCurrent (st : parseState) : parseState :=
  match ps_current st with
  | None => st
  | Some op => mkParseState (ps_operations st ++ [addHunk op (ps_hunk st)]) None None
  end.

Definition hunkLine (line : string) : option v4aHunkLine :=
  match line with
  | EmptyString => None
  | String c rest =>
    if Ascii.eqb c "+" || Ascii.eqb c "-" || Ascii.eqb c " " then Some (mkHunkLine c rest)
    else if Ascii.eqb c backslash then None
    else Some (mkHunkLine " " line)
  end.

Definition parseLine (st : parseState) (line : string) : parseState :=
  match v4aUpdatePattern line with
  | Some p => let st := finishCurrent st in
      mkParseState (ps_operations st) (Some (newOperation v4aUpdate p "")) (ps_hunk st)
  | None =>
  match v4aAddPattern line with
  | Some p => let st := finishCurrent st in
      mkParseState (ps_operations st) (Some (newOperation v4aAdd p "")) (Some (mkHunk "" []))
  | None =>
  match v4aDeletePattern line with
  | Some p => let st := finishCurrent st in
      mkParseState (ps_operations st ++ [newOperation v4aDelete p ""]) (ps_current st) (ps_hunk st)
  | None =>
  match v4aMovePattern line with
  | Some (p, q) => let st := finishCurrent st in
      mkParseState (ps_operations st ++ [newOperation v4aMove p q]) (ps_current st) (ps_hunk st)
  | None =>
  match ps_current st with
  | None => st
  | Some op =>
    if HasPrefix line "@@" then
      mkParseState (ps_operations st) (Some (addHunk op (ps_hunk st)))
        (Some (mkHunk (match v4aHintPattern line with Some h => TrimSpace h | None => "" end) []))
    else if (line =? "")%string then st
    else
      let hunk := default (mkHunk "" []) (ps_hunk st) in
      mkParseState (ps_operations st) (Some op)
        (Some (match hunkLine line with
               | Some hl => mkHunk (contextHint hunk) (hunk_lines hunk ++ [hl])
               | None => hunk
               end))
  end end end end end.

(** The lines after the last begin marker and before the first end marker. *)
Fixpoint patchBody (body lines : list string) : list string :=
  match lines with
  | [] => body
  | line :: rest =>
    if v4aBeginPattern line then patchBody [] rest
    else if v4aEndPattern line then body
    else patchBody (body ++ [line]) rest
  end.

(** [strings.ReplaceAll(s, "\r\n", "\n")]. *)
Fixpoint crlf (l : list ascii) : list ascii :=
  match l with
  | [] => []
  | a :: l' =>
    match l' with
    | b :: l'' => if Ascii.eqb a (byte_of 13) && Ascii.eqb b newline then newline :: crlf l'' else a :: crlf l'
    | [] => [a]
    end
  end.

Definition checkOperation (op : v4aOperation) : option patchError :=
  if (rawPath op =? "")%string then Some EmptyPath
  else if bool_decide (op_kind op = v4aUpdate) && bool_decide (op_hunks op = []) then Some (UpdateWithoutHunks (rawPath op))
  else if bool_decide (op_kind op = v4aMove) && (rawNewPath op =? "")%string then Some (MoveWithoutDestination (rawPath op))
  else None.

Definition patchLines (patchContent : string) : list string :=
  (λ line, TrimSuffix line (of_bytes [byte_of 13])) <$> Split (of_bytes (crlf (bytes patchContent))) newline.

Definition parseV4APatch (patchContent : string) : result patchError (list v4aOperation) :=
  let st := finishCurrent (foldl parseLine (mkParseState [] None None) (patchBody [] (patchLines patchContent))) in
  match ps_operations st with
  | [] => Err NoOperations
  | ops => match head (omap checkOperation ops) with
           | Some e => Err e
           | None => Ok ops
           end
  end.

(** ** Applying hunks *)

Definition trim_right_newlines (s : string) : string := trim_right_bytes (λ c, Ascii.eqb c newline) s.

Definition insertV4AText (content insertion hint : string) : result patchError string :=
  if (hint =? "")%string then Ok (trim_right_newlines content ++ nl ++ insertion ++ nl)%string
  else
    let count := length (exactMatches content hint) in
    if (count =? 0)%nat then Err (HintNotFound hint)
    else if (1 <? count)%nat then Err (HintAmbiguous hint count)
    else match GoStr.Index content hint with
         | None => Err PatchPanic
         | Some position =>
           match GoStr.Index (str_drop position content) nl with
           | None => Ok (content ++ nl ++ insertion)%string
           | Some endOfLine =>
             let endOfLine := (endOfLine + position)%nat in
             Ok (str_take (endOfLine + 1) content ++ insertion ++ nl ++ str_drop (endOfLine + 1) content)%string
           end
         end.

Definition has_prefix_in (l : list ascii) (hl : v4aHunkLine) : Prop := hl_prefix hl ∈ l.
#[export] Instance has_prefix_in_dec l hl : Decision (has_prefix_in l hl).
Proof. unfold has_prefix_in. apply _. Defined.

Definition searchLines (h : v4aHunk) : list string := hl_content <$> filter (has_prefix_in [" "; "-"]%char) (hunk_lines h).
Definition replaceLines (h : v4aHunk) : list string := hl_content <$> filter (has_prefix_in [" "; "+"]%char) (hunk_lines h).
Definition editedLines (h : v4aHunk) : nat := length (filter (has_prefix_in ["-"; "+"]%char) (hunk_lines h)).

(** The text after one hunk and whether it counts as a change. *)
Definition applyHunk (index : nat) (content : string) (h : v4aHunk) : result patchError (string * nat) :=
  if (editedLines h =? 0)%nat then Ok (content, 0%nat)
  else match searchLines h with
       | [] => rmap (λ text, (text, 1%nat)) (insertV4AText content (Join (replaceLines h) nl) (contextHint h))
       | _ =>
         let searchPattern := Join (searchLines h) nl in
         let replacement := Join (replaceLines h) nl in
         if (searchPattern =? replacement)%string then Ok (content, 1%nat)
         else match fuzzyFindAndReplace content searchPattern replacement false with
              | None => Err PatchPanic
              | Some (Err _) =>
                if patchAlreadyApplied content searchPattern replacement then Ok (content, 1%nat)
                else Err (HunkFailed (index + 1) (contextHint h))
              | Some (Ok (updated, count, _)) =>
                if (count =? 0)%nat then Err (HunkNoChange (index + 1)) else Ok (updated, 1%nat)
              end
       end.

Fixpoint applyHunksFrom (index : nat) (content : string) (changes : nat) (hunks : list v4aHunk)
    : result patchError (string * nat) :=
  match hunks with
  | [] => Ok (content, changes)
  | h :: rest =>
    match applyHunk index content h with
    | Err e => Err e
    | Ok (content, n) => applyHunksFrom (S index) content (changes + n) rest
    end
  end.

Definition applyV4AHunks (content : string) (hunks : list v4aHunk) : result patchError (string * nat) :=
  applyHunksFrom 0 content 0 hunks.

(** ** The file system *)

Record File := mkFile { file_content : string; file_mode : Z }.

Record FS := mkFS { fs_files : gmap string File; fs_calls : nat }.

Record v4aFileState := mkFileState {
  st_exists : bool;
  st_content : string;
  st_mode : Z;
  originalExists : bool;
  originalContent : string
}.

Definition utf8_valid (s : string) : bool := forallb (λ p, bool_decide (p.2 = encode_rune p.1)) (segments s).

Definition defaultMode : Z := 420. (* 0o644 *)

Abbreviation states := (gmap string v4aFileState).

Section Workspace.
(** The paths [os.ReadFile] fails on for another reason than absence. *)
Context (unreadable : string → bool).

Definition load (fs : FS) (m : states) (path : string) : result patchError (states * v4aFileState) :=
  match m !! path with
  | Some st => Ok (m, st)
  | None =>
    if unreadable path then Err (ReadFailed path)
    else match fs_files fs !! path with
         | None => let st := mkFileState false "" defaultMode false "" in Ok (<[path := st]> m, st)
         | Some f =>
           if negb (utf8_valid (file_content f)) then Err (NotUTF8 path)
           else let st := mkFileState true (file_content f) (file_mode f) true (file_content f) in
                Ok (<[path := st]> m, st)
         end
  end.

Definition set_content (e : bool) (text : string) (st : v4aFileState) : v4aFileState :=
  mkFileState e text (st_mode st) (originalExists st) (originalContent st).

Definition addedLines (hunks : list v4aHunk) : list string :=
  h ← hunks; hl_content <$> filter (has_prefix_in ["+"]%char) (hunk_lines h).

Open Scope go_scope.

Definition simulateOne (fs : FS) (m : states) (op : v4aOperation) : result patchError (states * nat) :=
  match op_kind op with
  | v4aAdd =>
    let! (m, st) := load fs m (op_path op) in
    if st_exists st then Err (FileExists (rawPath op))
    else Ok (<[op_path op := set_content true (Join (addedLines (op_hunks op)) nl) st]> m, 1%nat)
  | v4aDelete =>
    let! (m, st) := load fs m (op_path op) in
    if negb (st_exists st) then Err (FileMissing (rawPath op))
    else Ok (<[op_path op := set_content false "" st]> m, 1%nat)
  | v4aMove =>
    let! (m, source) := load fs m (op_path op) in
    let! (m, destination) := load fs m (op_newPath op) in
    if negb (st_exists source) then Err (FileMissing (rawPath op))
    else if st_exists destination then Err (DestinationExists (rawNewPath op))
    else
      let destination := mkFileState true (st_content source) (st_mode source)
                           (originalExists destination) (originalContent destination) in
      Ok (<[op_path op := set_content false "" source]> (<[op_newPath op := destination]> m), 1%nat)
  | v4aUpdate =>
    let! (m, st) := load fs m (op_path op) in
    if negb (st_exists st) then Err (FileMissing (rawPath op))
    else
      let! (updated, changes) := applyV4AHunks (st_content st) (op_hunks op) in
      Ok (<[op_path op := set_content true updated st]> m, changes)
  end.

Fixpoint simulateFrom (fs : FS) (m : states) (realChanges : nat) (ops : list v4aOperation) : result patchError states :=
  match ops with
  | [] => if (realChanges =? 0)%nat then Err NoChanges else Ok m
  | op :: rest =>
    let! (m, n) := simulateOne fs m op in
    simulateFrom fs m (realChanges + n) rest
  end.

Definition simulateV4AOperations (fs : FS) (ops : list v4aOperation) : result patchError states := simulateFrom fs ∅ 0 ops.

(** ** System calls *)

Context (fails : nat → bool).

Definition call {A} (fs : FS) (ok : gmap string File → gmap string File) (k : FS → A) (err : FS → A) : A :=
  if fails (fs_calls fs) then err (mkFS (fs_files fs) (S (fs_calls fs)))
  else k (mkFS (ok (fs_files fs)) (S (fs_calls fs))).

(** [os.MkdirAll] then [atomicWriteFile]; the bool tells success. *)
Definition writeFile (fs : FS) (path content : string) (mode : Z) : FS * bool :=
  let mode := if mode =? 0 then defaultMode else mode in
  call fs id
    (λ fs, call fs (<[path := mkFile content mode]>) (λ fs, (fs, true)) (λ fs, (fs, false)))
    (λ fs, (fs, false)).

(** [os.Remove], where the absence of the file is no error. *)
Definition removeFile (fs : FS) (path : string) : FS * bool :=
  match fs_files fs !! path with
  | None => (fs, true)
  | Some _ => call fs (delete path) (λ fs, (fs, true)) (λ fs, (fs, false))
  end.

Definition sortedPaths (m : states) : list string := sort_stable str_ltb (elements (dom m)).

(** The files to write and those to remove. *)
Definition needsWrite (st : v4aFileState) : bool :=
  st_exists st && negb (originalExists st && (originalContent st =? st_content st)%string).
Definition needsRemove (st : v4aFileState) : bool := negb (st_exists st) && originalExists st.

(** The loops over the sorted paths; they stop at the first failure. *)
Fixpoint writeAll (m : states) (paths : list string) (fs : FS) : FS * bool :=
  match paths with
  | [] => (fs, true)
  | path :: rest =>
    match m !! path with
    | Some st =>
      if needsWrite st then
        let '(fs, ok) := writeFile fs path (st_content st) (st_mode st) in
        if ok then writeAll m rest fs else (fs, false)
      else writeAll m rest fs
    | None => writeAll m rest fs
    end
  end.

Fixpoint removeAll (m : states) (paths : list string) (fs : FS) : FS * bool :=
  match paths with
  | [] => (fs, true)
  | path :: rest =>
    match m !! path with
    | Some st =>
      if needsRemove st then
        let '(fs, ok) := removeFile fs path in
        if ok then removeAll m rest fs else (fs, false)
      else removeAll m rest fs
    | None => removeAll m rest fs
    end
  end.

(** The rollback goes on after a failure and collects the failed paths. *)
Fixpoint restoreAll (m : states) (paths : list string) (fs : FS) : FS * list string :=
  match paths with
  | [] => (fs, [])
  | path :: rest =>
    match m !! path with
    | Some st =>
      if originalExists st then
        let '(fs, ok) := writeFile fs path (originalContent st) (st_mode st) in
        let '(fs, errs) := restoreAll m rest fs in
        (fs, if ok then errs else path :: errs)
      else restoreAll m rest fs
    | None => restoreAll m rest fs
    end
  end.

Fixpoint removeCreated (m : states) (paths : list string) (fs : FS) : FS * list string :=
  match paths with
  | [] => (fs, [])
  | path :: rest =>
    match m !! path with
    | Some st =>
      if originalExists st then removeCreated m rest fs
      else
        let '(fs, ok) := removeFile fs path in
        let '(fs, errs) := removeCreated m rest fs in
        (fs, if ok then errs else path :: errs)
    | None => removeCreated m rest fs
    end
  end.

Definition rollbackV4AStates (m : states) (fs : FS) : FS * patchError :=
  let paths := sortedPaths m in
  let '(fs, errs) := restoreAll m paths fs in
  let '(fs, errs') := removeCreated m (reverse paths) fs in
  (fs, match errs ++ errs' with [] => RolledBack | l => RollbackFailed l end).

Definition applyV4AStates (m : states) (fs : FS) : FS * option patchError :=
  let paths := sortedPaths m in
  let '(fs, ok) := writeAll m paths fs in
  if negb ok then let '(fs, e) := rollbackV4AStates m fs in (fs, Some e)
  else
    let '(fs, ok) := removeAll m paths fs in
    if negb ok then let '(fs, e) := rollbackV4AStates m fs in (fs, Some e)
    else (fs, None).

(** ** The tool *)

Context {UT : UnicodeTables} (fileHash : string → string) (workspacePath : string → option string) (lockFails : string → bool).

Record patchFileInput := mkPatchInput {
  in_Mode : string;
  in_Path : string;
  in_OldString : string;
  in_NewString : string;
  in_ReplaceAll : bool;
  in_Patch : string;
  in_ExpectedSHA256 : string;
  in_ExpectedByPath : list (string * string) (* in the order the map is ranged over *)
}.

Definition resolveOperation (op : v4aOperation) : result patchError v4aOperation :=
  match workspacePath (rawPath op) with
  | None => Err (UnsafePath (rawPath op))
  | Some path =>
    match op_kind op with
    | v4aMove =>
      match workspacePath (rawNewPath op) with
      | None => Err (UnsafePath (rawNewPath op))
      | Some newPath =>
        if (path =? newPath)%string then Err SameMovePath
        else Ok (mkOperation (op_kind op) (rawPath op) (rawNewPath op) path newPath (op_hunks op))
      end
    | _ => Ok (mkOperation (op_kind op) (rawPath op) (rawNewPath op) path (op_newPath op) (op_hunks op))
    end
  end.

Fixpoint resolveAll (ops : list v4aOperation) : result patchError (list v4aOperation) :=
  match ops with
  | [] => Ok []
  | op :: rest => let! op := resolveOperation op in let! rest := resolveAll rest in Ok (op :: rest)
  end.

Definition lockPaths (ops : list v4aOperation) : list string :=
  sort_stable str_ltb (elements (list_to_set (ops ≫= λ op,
    op_path op :: (if decide (op_kind op = v4aMove) then [op_newPath op] else [])) : gset string)).

Definition changed (st : v4aFileState) : bool :=
  negb (eqb (originalExists st) (st_exists st) && (originalContent st =? st_content st)%string).

Definition pathsWith (m : states) (p : v4aFileState → bool) : list string :=
  filter (λ path, match m !! path with Some st => p st | None => false end = true) (sortedPaths m).

Definition changedExisting (m : states) : list string := pathsWith m (λ st, originalExists st && changed st).

Fixpoint expectedByPath (m : states) (expected : gmap string string) (entries : list (string * string))
    : result patchError (gmap string string) :=
  match entries with
  | [] => Ok expected
  | (raw, hash) :: rest =>
    match workspacePath raw with
    | None => Err (UnsafePath raw)
    | Some path =>
      if (TrimSpace hash =? "")%string then Err (EmptyExpectedHash raw)
      else match m !! path with
           | None => Err (HashPathNotModified raw)
           | Some _ => expectedByPath m (<[path := hash]> expected) rest
           end
    end
  end.

Fixpoint checkVersions (shared : bool) (m : states) (expected : gmap string string) (paths : list string) : option patchError :=
  match paths with
  | [] => None
  | path :: rest =>
    match expected !! path, m !! path with
    | Some hash, Some st =>
      if EqualFold (TrimSpace hash) (fileHash (originalContent st)) then checkVersions shared m expected rest
      else Some (VersionMismatch path)
    | _, _ => if shared then Some (HashRequired path) else checkVersions shared m expected rest
    end
  end.

Definition validateV4AExpectedHashes (shared : bool) (input : patchFileInput) (m : states) : option patchError :=
  match expectedByPath m ∅ (in_ExpectedByPath input) with
  | Err e => Some e
  | Ok expected =>
    let changedPaths := changedExisting m in
    if (TrimSpace (in_ExpectedSHA256 input) =? "")%string then checkVersions shared m expected changedPaths
    else match changedPaths with
         | [path] => checkVersions shared m (<[path := in_ExpectedSHA256 input]> expected) changedPaths
         | _ => Some OneFileExpected
         end
  end.

(** What the tool reports: the created, modified and deleted paths. *)
Record patchReport := mkReport { files_created : list string; files_modified : list string; files_deleted : list string }.

Definition report (m : states) : patchReport :=
  mkReport (pathsWith m (λ st, changed st && negb (originalExists st) && st_exists st))
    (pathsWith m (λ st, changed st && eqb (originalExists st) (st_exists st)))
    (pathsWith m (λ st, changed st && originalExists st && negb (st_exists st))).

Definition patchV4A (shared : bool) (input : patchFileInput) (fs : FS) : FS * result patchError patchReport :=
  if (TrimSpace (in_Patch input) =? "")%string then (fs, Err PatchContentRequired)
  else match rbind (parseV4APatch (in_Patch input)) resolveAll with
       | Err e => (fs, Err e)
       | Ok ops =>
         match find lockFails (lockPaths ops) with
         | Some path => (fs, Err (LockFailed path))
         | None =>
           match simulateV4AOperations fs ops with
           | Err e => (fs, Err e)
           | Ok m =>
             match validateV4AExpectedHashes shared input m with
             | Some e => (fs, Err e)
             | None =>
               match applyV4AStates m fs with
               | (fs, Some e) => (fs, Err e)
               | (fs, None) => (fs, Ok (report m))
               end
             end
           end
         end
       end.

(** [patchReplace]: the contents after the edit, or the error. *)
Inductive replaceError :=
| PathRequired
| PathUnsafe
| PathLocked
| PathMissing
| PathNotUTF8
| ShaRequired
| ShaMismatch
| EditFailed (e : fuzzyError)
| EditPanic
| WriteFailed.

Inductive replaceOutcome := Replaced (count : nat) (strategy : string) | AlreadyApplied.

Definition patchReplace (shared : bool) (input : patchFileInput) (fs : FS) : FS * result replaceError replaceOutcome :=
  if (TrimSpace (in_Path input) =? "")%string then (fs, Err PathRequired)
  else match workspacePath (in_Path input) with
  | None => (fs, Err PathUnsafe)
  | Some path =>
    if lockFails path then (fs, Err PathLocked)
    else if unreadable path then (fs, Err PathMissing)
    else match fs_files fs !! path with
    | None => (fs, Err PathMissing)
    | Some f =>
      let old := file_content f in
      if negb (utf8_valid old) then (fs, Err PathNotUTF8)
      else if shared && (TrimSpace (in_ExpectedSHA256 input) =? "")%string then (fs, Err ShaRequired)
      else if negb (in_ExpectedSHA256 input =? "")%string && negb (EqualFold (in_ExpectedSHA256 input) (fileHash old))
      then (fs, Err ShaMismatch)
      else match fuzzyFindAndReplace old (in_OldString input) (in_NewString input) (in_ReplaceAll input) with
      | None => (fs, Err EditPanic)
      | Some (Err e) =>
        if patchAlreadyApplied old (in_OldString input) (in_NewString input) then (fs, Ok AlreadyApplied)
        else (fs, Err (EditFailed e))
      | Some (Ok (patched, count, strategy)) =>
        call fs (<[path := mkFile patched (file_mode f)]>) (λ fs, (fs, Ok (Replaced count strategy)))
          (λ fs, (fs, Err WriteFailed))
      end
    end
  end.

(** ** Contents *)

Definition contents (fs : FS) : gmap string string := file_content <$> fs_files fs.

Definition original (st : v4aFileState) : option string := if originalExists st then Some (originalContent st) else None.
Definition target (st : v4aFileState) : option string := if st_exists st then Some (st_content st) else None.

Lemma contents_insert fs path c mode n :
  contents (mkFS (<[path := mkFile c mode]> (fs_files fs)) n) = <[path := c]> (contents fs).
Proof. unfold contents. cbn. by rewrite fmap_insert. Qed.

Lemma contents_delete fs path n : contents (mkFS (delete path (fs_files fs)) n) = delete path (contents fs).
Proof. unfold contents. cbn. by rewrite fmap_delete. Qed.

Lemma writeFile_contents fs path c mode :
  contents (writeFile fs path c mode).1 = if (writeFile fs path c mode).2 then <[path := c]> (contents fs) else contents fs.
Proof.
  unfold writeFile, call. cbn [fs_calls fs_files id].
  destruct (fails (fs_calls fs)); [done|]. destruct (fails (S (fs_calls fs))); [done|]. cbn [fst snd].
  apply (contents_insert fs).
Qed.

Lemma removeFile_contents fs path :
  contents (removeFile fs path).1 = if (removeFile fs path).2 then delete path (contents fs) else contents fs.
Proof.
  unfold removeFile. destruct (fs_files fs !! path) eqn:Hp.
  - unfold call. destruct (fails (fs_calls fs)); [done|]. cbn [fst snd]. apply contents_delete.
  - cbn [fst snd]. symmetry. apply delete_id. unfold contents. by rewrite lookup_fmap, Hp.
Qed.

(** A pass over the paths: it only gives the paths selected by [p] the contents
    [f], and gives them to all of them when it succeeds. *)
Definition pass (m : states) (p : v4aFileState → bool) (f : v4aFileState → option string) (paths : list string)
    (fs fs' : FS) (ok : Prop) : Prop :=
  ∀ path,
    (contents fs' !! path = contents fs !! path ∨
     ∃ st, m !! path = Some st ∧ p st = true ∧ contents fs' !! path = f st) ∧
    (ok → path ∈ paths → ∀ st, m !! path = Some st → p st = true → contents fs' !! path = f st).

Lemma pass_nil m p f fs ok : pass m p f [] fs fs ok.
Proof. intros path. split; [by left|]. by intros _ H%elem_of_nil. Qed.

Lemma pass_skip m p f path paths fs fs' ok :
  (∀ st, m !! path = Some st → p st = false) → pass m p f paths fs fs' ok → pass m p f (path :: paths) fs fs' ok.
Proof.
  intros Hs Hp q. destruct (Hp q) as [H1 H2]. split; [done|].
  intros Hok [->|Hq]%elem_of_cons st Hst Hpst; [|by apply H2]. by rewrite (Hs st Hst) in Hpst.
Qed.

Lemma pass_step m p f path paths st fs fs1 fs' ok :
  m !! path = Some st → p st = true →
  (∀ q, q ≠ path → contents fs1 !! q = contents fs !! q) →
  (contents fs1 !! path = contents fs !! path ∨ contents fs1 !! path = f st) →
  (ok → contents fs1 !! path = f st) →
  pass m p f paths fs1 fs' ok → pass m p f (path :: paths) fs fs' ok.
Proof.
  intros Hm Hps Hne Heq Hok Hp q. destruct (Hp q) as [H1 H2]. split.
  - destruct H1 as [->|?]; [|by right]. destruct (decide (q = path)) as [->|Hq]; [|left; by apply Hne].
    destruct Heq as [?|?]; [by left|right; by exists st].
  - intros H [->|Hq]%elem_of_cons st' Hst' Hpst; [|by apply (H2 H Hq)].
    rewrite Hm in Hst'. injection Hst' as <-. destruct H1 as [->|(st' & Hst' & _ & ->)]; [by apply Hok|].
    rewrite Hm in Hst'. by injection Hst' as <-.
Qed.

(** The system calls as steps of a pass. *)
Lemma write_step m p f path paths st fs fs' mode ok c :
  m !! path = Some st → p st = true → f st = Some c → (ok → (writeFile fs path c mode).2 = true) →
  pass m p f paths (writeFile fs path c mode).1 fs' ok → pass m p f (path :: paths) fs fs' ok.
Proof.
  intros Hm Hp Hf Hok. pose proof (writeFile_contents fs path c mode) as Hc.
  apply pass_step with st; try done; rewrite ?Hc, ?Hf.
  - intros q Hq. destruct (_.2); [|done]. by rewrite lookup_insert_ne.
  - destruct (_.2); [right; by rewrite lookup_insert_eq|by left].
  - intros H. rewrite (Hok H). by rewrite lookup_insert_eq.
Qed.

Lemma remove_step m p f path paths st fs fs' ok :
  m !! path = Some st → p st = true → f st = None → (ok → (removeFile fs path).2 = true) →
  pass m p f paths (removeFile fs path).1 fs' ok → pass m p f (path :: paths) fs fs' ok.
Proof.
  intros Hm Hp Hf Hok. pose proof (removeFile_contents fs path) as Hc.
  apply pass_step with st; try done; rewrite ?Hc, ?Hf.
  - intros q Hq. destruct (_.2); [|done]. by rewrite lookup_delete_ne.
  - destruct (_.2); [right; by rewrite lookup_delete_eq|by left].
  - intros H. rewrite (Hok H). by rewrite lookup_delete_eq.
Qed.

Lemma writeAll_pass m paths fs :
  pass m needsWrite target paths fs (writeAll m paths fs).1 ((writeAll m paths fs).2 = true).
Proof.
  revert fs. induction paths as [|path paths IH]; intros fs; cbn [writeAll]; [apply pass_nil|].
  destruct (m !! path) as [st|] eqn:Hm; [|apply pass_skip; [by rewrite Hm|apply IH]].
  destruct (needsWrite st) eqn:Hn; [|apply pass_skip; [by rewrite Hm; intros ? [= <-]|apply IH]].
  destruct (writeFile fs path (st_content st) (st_mode st)) as [fs1 ok] eqn:Hw.
  assert (target st = Some (st_content st)) as Ht.
  { unfold target, needsWrite in *. by destruct (st_exists st). }
  destruct ok; cbn [fst snd].
  - apply (write_step m _ _ path paths st fs _ (st_mode st) _ (st_content st)); try done; rewrite Hw; [done|]. apply IH.
  - apply (write_step m _ _ path paths st fs _ (st_mode st) _ (st_content st)); try done; rewrite Hw.
    intros q. split; [by left|done].
Qed.

Lemma removeAll_pass m paths fs :
  pass m needsRemove target paths fs (removeAll m paths fs).1 ((removeAll m paths fs).2 = true).
Proof.
  revert fs. induction paths as [|path paths IH]; intros fs; cbn [removeAll]; [apply pass_nil|].
  destruct (m !! path) as [st|] eqn:Hm; [|apply pass_skip; [by rewrite Hm|apply IH]].
  destruct (needsRemove st) eqn:Hn; [|apply pass_skip; [by rewrite Hm; intros ? [= <-]|apply IH]].
  destruct (removeFile fs path) as [fs1 ok] eqn:Hw.
  assert (target st = None) as Ht. { unfold target, needsRemove in *. by destruct (st_exists st). }
  destruct ok; cbn [fst snd].
  - apply (remove_step m _ _ path paths st fs _); try done; rewrite Hw; [done|]. apply IH.
  - apply (remove_step m _ _ path paths st fs _); try done; rewrite Hw. intros q. split; [by left|done].
Qed.

Lemma pass_weaken m p f paths fs fs' (ok ok' : Prop) : (ok' → ok) → pass m p f paths fs fs' ok → pass m p f paths fs fs' ok'.
Proof. intros Hi Hp q. destruct (Hp q) as [H1 H2]. split; auto. Qed.

Lemma restoreAll_pass m paths fs :
  pass m originalExists original paths fs (restoreAll m paths fs).1 ((restoreAll m paths fs).2 = []).
Proof.
  revert fs. induction paths as [|path paths IH]; intros fs; cbn [restoreAll]; [apply pass_nil|].
  destruct (m !! path) as [st|] eqn:Hm; [|apply pass_skip; [by rewrite Hm|apply IH]].
  destruct (originalExists st) eqn:Hn; [|apply pass_skip; [by rewrite Hm; intros ? [= <-]|apply IH]].
  destruct (writeFile fs path (originalContent st) (st_mode st)) as [fs1 ok] eqn:Hw.
  specialize (IH fs1). destruct (restoreAll m paths fs1) as [fs2 errs] eqn:Hr. cbn [fst snd] in *.
  assert (original st = Some (originalContent st)) as Ho by (unfold original; by rewrite Hn).
  apply (write_step m _ _ path paths st fs _ (st_mode st) _ (originalContent st)); try done; rewrite Hw; cbn [fst snd].
  - by destruct ok.
  - eapply pass_weaken; [|exact IH]. by destruct ok.
Qed.

Lemma removeCreated_pass m paths fs :
  pass m (λ st, negb (originalExists st)) original paths fs (removeCreated m paths fs).1 ((removeCreated m paths fs).2 = []).
Proof.
  revert fs. induction paths as [|path paths IH]; intros fs; cbn [removeCreated]; [apply pass_nil|].
  destruct (m !! path) as [st|] eqn:Hm; [|apply pass_skip; [by rewrite Hm|apply IH]].
  destruct (originalExists st) eqn:Hn; [apply pass_skip; [rewrite Hm; intros ? [= <-]; by rewrite Hn|apply IH]|].
  destruct (removeFile fs path) as [fs1 ok] eqn:Hw.
  specialize (IH fs1). destruct (removeCreated m paths fs1) as [fs2 errs] eqn:Hr. cbn [fst snd] in *.
  assert (original st = None) as Ho by (unfold original; by rewrite Hn).
  apply (remove_step m _ _ path paths st fs _); try done; rewrite ?Hw, ?Hn; cbn [fst snd]; [done|by destruct ok|].
  eapply pass_weaken; [|exact IH]. by destruct ok.
Qed.

(** ** All or nothing *)

(** The states describe the files as they were read. *)
Definition tracks (m : states) (t : gmap string string) : Prop :=
  ∀ path st, m !! path = Some st → t !! path = original st.

(** Only the paths of the states differ, and those hold their old or new contents. *)
Definition within (m : states) (t : gmap string string) (fs : FS) : Prop :=
  ∀ path, contents fs !! path = t !! path ∨ ∃ st, m !! path = Some st ∧ contents fs !! path = target st.

Lemma pass_within m p paths fs fs' ok t :
  pass m p target paths fs fs' ok → within m t fs → within m t fs'.
Proof. intros Hp Hw q. destruct (Hp q) as [[->|(st & ? & _ & ?)] _]; [apply Hw|right; eauto]. Qed.

Lemma elem_of_sortedPaths m path : path ∈ sortedPaths m ↔ is_Some (m !! path).
Proof. unfold sortedPaths. by rewrite elem_of_sort_stable, elem_of_elements, elem_of_dom. Qed.

Lemma rollback_restores m t fs fs' e :
  tracks m t → within m t fs → rollbackV4AStates m fs = (fs', e) →
  (e = RolledBack ∧ contents fs' = t) ∨ ∃ l, e = RollbackFailed l.
Proof.
  intros Ht Hw. unfold rollbackV4AStates. pose proof (restoreAll_pass m (sortedPaths m) fs) as H1.
  destruct (restoreAll m (sortedPaths m) fs) as [fs1 errs]. cbn [fst snd] in H1.
  pose proof (removeCreated_pass m (reverse (sortedPaths m)) fs1) as H2.
  destruct (removeCreated m (reverse (sortedPaths m)) fs1) as [fs2 errs']. cbn [fst snd] in H2.
  destruct errs as [|x errs]; [|intros [= <- <-]; right; by eexists].
  destruct errs' as [|x errs']; [|intros [= <- <-]; right; by eexists].
  intros [= <- <-]. left. split; [done|]. apply map_eq. intros q.
  destruct (H1 q) as [H1a H1b], (H2 q) as [H2a H2b].
  destruct (m !! q) as [st|] eqn:Hm.
  - assert (q ∈ sortedPaths m) as Hq by (apply elem_of_sortedPaths; eauto).
    rewrite (Ht q st Hm). destruct (originalExists st) eqn:Ho.
    + destruct H2a as [->|(st' & [= <-] & Hp & _)]; [by apply H1b|by rewrite Ho in Hp].
    + apply H2b; [done|by rewrite elem_of_reverse|done|by rewrite Ho].
  - destruct H2a as [->|(st' & [=] & _)]. destruct H1a as [->|(st' & [=] & _)].
    destruct (Hw q) as [?|(st' & ? & _)]; [done|congruence].
Qed.

Lemma apply_all_or_nothing m fs fs' e :
  tracks m (contents fs) → applyV4AStates m fs = (fs', e) →
  match e with
  | None => ∀ path, contents fs' !! path = match m !! path with Some st => target st | None => contents fs !! path end
  | Some RolledBack => contents fs' = contents fs
  | Some e => ∃ l, e = RollbackFailed l
  end.
Proof.
  intros Ht. unfold applyV4AStates. pose proof (writeAll_pass m (sortedPaths m) fs) as Hw.
  destruct (writeAll m (sortedPaths m) fs) as [fs1 ok] eqn:E1. cbn [fst snd] in Hw.
  assert (within m (contents fs) fs1) as Hw1 by (eapply pass_within; [done|]; intros q; by left).
  pose proof (removeAll_pass m (sortedPaths m) fs1) as Hr.
  destruct (removeAll m (sortedPaths m) fs1) as [fs2 ok2] eqn:E2. cbn [fst snd] in Hr.
  assert (within m (contents fs) fs2) as Hw2 by by eapply pass_within.
  assert (∀ fs1 fs2 e', within m (contents fs) fs1 → rollbackV4AStates m fs1 = (fs2, e') →
    match e' with RolledBack => contents fs2 = contents fs | e => ∃ l, e = RollbackFailed l end) as Hroll.
  { intros f1 f2 e' Hwi Hrb. destruct (rollback_restores m _ f1 f2 e' Ht Hwi Hrb) as [[-> ?]|[l ->]]; eauto. }
  destruct ok; cbn [negb].
  - destruct ok2; cbn [negb].
    + intros [= <- <-] q. destruct (Hw q) as [Hwa Hwb], (Hr q) as [Hra Hrb].
      destruct (m !! q) as [st|] eqn:Hm.
      2: { destruct Hra as [->|(? & [=] & _)]. by destruct Hwa as [->|(? & [=] & _)]. }
      assert (q ∈ sortedPaths m) as Hq by (apply elem_of_sortedPaths; eauto).
      destruct (needsRemove st) eqn:Hn; [by apply Hrb|].
      assert (contents fs2 !! q = contents fs1 !! q) as -> by (destruct Hra as [?|(? & [= <-] & ? & _)]; congruence).
      destruct (needsWrite st) eqn:Hnw; [by apply Hwb|].
      assert (contents fs1 !! q = contents fs !! q) as -> by (destruct Hwa as [?|(? & [= <-] & ? & _)]; congruence).
      rewrite (Ht q st Hm). unfold needsRemove, needsWrite, original, target in *.
      destruct (st_exists st), (originalExists st); cbn in *; bool_prop; try done. congruence.
    + destruct (rollbackV4AStates m fs2) as [fs3 e'] eqn:E3. intros [= <- <-]. by apply (Hroll fs2).
  - destruct (rollbackV4AStates m fs1) as [fs3 e'] eqn:E3. intros [= <- <-]. by apply (Hroll fs1).
Qed.

(** ** The specification: editing a tree of contents *)

Definition treeOp (t : gmap string string) (op : v4aOperation) : option (gmap string string) :=
  match op_kind op, t !! op_path op with
  | v4aAdd, None => Some (<[op_path op := Join (addedLines (op_hunks op)) nl]> t)
  | v4aDelete, Some _ => Some (delete (op_path op) t)
  | v4aMove, Some c =>
    match t !! op_newPath op with
    | None => Some (delete (op_path op) (<[op_newPath op := c]> t))
    | Some _ => None
    end
  | v4aUpdate, Some c =>
    match applyV4AHunks c (op_hunks op) with
    | Ok (updated, _) => Some (<[op_path op := updated]> t)
    | Err _ => None
    end
  | _, _ => None
  end.

Fixpoint treeOps (t : gmap string string) (ops : list v4aOperation) : option (gmap string string) :=
  match ops with
  | [] => Some t
  | op :: rest => t ← treeOp t op; treeOps t rest
  end.

(** The tree the states stand for. *)
Definition shows (fs : FS) (m : states) (t : gmap string string) : Prop :=
  tracks m (contents fs) ∧
  ∀ path, t !! path = match m !! path with Some st => target st | None => contents fs !! path end.

Lemma load_shows fs m t path m' st :
  shows fs m t → load fs m path = Ok (m', st) →
  shows fs m' t ∧ m' !! path = Some st ∧ t !! path = target st ∧ (∀ q x, m !! q = Some x → m' !! q = Some x).
Proof.
  intros [Ht Hv]. unfold load. destruct (m !! path) as [st'|] eqn:Hm.
  { intros [= <- <-]. split_and!; [done|done|by rewrite Hv, Hm|done]. }
  destruct (unreadable path); [done|].
  assert (∀ st, contents fs !! path = original st → contents fs !! path = target st →
    shows fs (<[path := st]> m) t ∧ <[path := st]> m !! path = Some st ∧ t !! path = target st ∧
    (∀ q x, m !! q = Some x → <[path := st]> m !! q = Some x)) as Hins.
  { intros x Ho Htg. assert (t !! path = target x) as Hp by by rewrite Hv, Hm.
    split_and!; [split|by rewrite lookup_insert_eq|done|].
    - intros q y. destruct (decide (q = path)) as [->|Hq]; [rewrite lookup_insert_eq; by intros [= <-]|].
      rewrite lookup_insert_ne by done. apply Ht.
    - intros q. destruct (decide (q = path)) as [->|Hq]; [by rewrite lookup_insert_eq|].
      rewrite lookup_insert_ne by done. apply Hv.
    - intros q y Hq. rewrite lookup_insert_ne; [done|]. congruence. }
  assert (contents fs !! path = file_content <$> fs_files fs !! path) as Hc by apply lookup_fmap.
  destruct (fs_files fs !! path) as [f|]; [destruct (utf8_valid (file_content f)); [|done]|]; intros [= <- <-];
    by apply Hins.
Qed.

(** Changing what a loaded state stands for. *)
Lemma shows_update fs m t path st e text mode :
  shows fs m t → m !! path = Some st →
  let st' := mkFileState e text mode (originalExists st) (originalContent st) in
  shows fs (<[path := st']> m) (if e then <[path := text]> t else delete path t).
Proof.
  intros [Ht Hv] Hm st'. split.
  - intros q x. destruct (decide (q = path)) as [->|Hq]; [rewrite lookup_insert_eq; intros [= <-]; apply (Ht path st Hm)|].
    rewrite lookup_insert_ne by done. apply Ht.
  - intros q. destruct (decide (q = path)) as [->|Hq].
    + rewrite lookup_insert_eq. unfold target. cbn. destruct e; [apply lookup_insert_eq|apply lookup_delete_eq].
    + rewrite (lookup_insert_ne m) by done. rewrite <- Hv. destruct e; [by rewrite lookup_insert_ne|by rewrite lookup_delete_ne].
Qed.

Lemma simulateOne_shows fs m t op m' n :
  shows fs m t → simulateOne fs m op = Ok (m', n) → ∃ t', treeOp t op = Some t' ∧ shows fs m' t'.
Proof.
  intros Hs. unfold simulateOne, treeOp, rbind.
  destruct (load fs m (op_path op)) as [[m1 st]|] eqn:Hl; [|by destruct (op_kind op)].
  destruct (load_shows _ _ _ _ _ _ Hs Hl) as (Hs1 & Hm1 & Ht1 & _). rewrite Ht1. unfold target.
  destruct (op_kind op).
  - destruct (st_exists st); [|done]. cbn [negb]. destruct (applyV4AHunks _ _) as [[u k]|]; [|done]. intros [= <- <-].
    eexists. split; [done|]. by apply (shows_update fs m1 t (op_path op) st true).
  - destruct (st_exists st); [done|]. intros [= <- <-]. eexists. split; [done|].
    by apply (shows_update fs m1 t (op_path op) st true).
  - destruct (st_exists st); [|done]. intros [= <- <-]. eexists. split; [done|].
    by apply (shows_update fs m1 t (op_path op) st false).
  - destruct (load fs m1 (op_newPath op)) as [[m2 dst]|] eqn:Hl2; [|done].
    destruct (load_shows _ _ _ _ _ _ Hs1 Hl2) as (Hs2 & Hm2 & Ht2 & Hkeep). rewrite Ht2. unfold target.
    destruct (st_exists st) eqn:He; [|done]. destruct (st_exists dst) eqn:Hd; [done|]. cbn [negb]. intros [= <- <-].
    eexists. split; [done|].
    pose proof (shows_update fs m2 t (op_newPath op) dst true (st_content st) (st_mode st) Hs2 Hm2) as Hs3.
    assert (op_path op ≠ op_newPath op) as Hne.
    { intros E. rewrite <- E in Hm2. pose proof (Hkeep _ _ Hm1). congruence. }
    apply (shows_update fs _ _ (op_path op) st false "" (st_mode st) Hs3).
    rewrite lookup_insert_ne by done. by apply Hkeep.
Qed.

Lemma simulateFrom_shows fs m t k ops m' :
  shows fs m t → simulateFrom fs m k ops = Ok m' → ∃ t', treeOps t ops = Some t' ∧ shows fs m' t'.
Proof.
  revert m t k. induction ops as [|op ops IH]; intros m t k Hs; cbn [simulateFrom treeOps].
  - destruct (k =? 0)%nat; [done|]. intros [= <-]. eauto.
  - unfold rbind. destruct (simulateOne fs m op) as [[m1 n]|] eqn:Ho; [|done]. intros Hr.
    destruct (simulateOne_shows _ _ _ _ _ _ Hs Ho) as (t1 & -> & Hs1). cbn. by apply (IH m1 t1 (k + n)%nat).
Qed.

(** C6. As to which files there are and what text each holds ([contents]), a V4A patch is
    all or nothing: if the tool succeeds, they are the result of the patch's operations,
    one after the other; if it fails, they are as before, unless the rollback itself
    reported a failure.  Permissions are not part of this: a rollback may leave a file
    with other ones ([rollback_widens_permissions]). *)
Theorem patch_all_or_nothing shared input fs fs' r :
  patchV4A shared input fs = (fs', r) →
  match r with
  | Ok _ => ∃ ops, rbind (parseV4APatch (in_Patch input)) resolveAll = Ok ops ∧ treeOps (contents fs) ops = Some (contents fs')
  | Err (RollbackFailed _) => True
  | Err _ => contents fs' = contents fs
  end.
Proof.
  unfold patchV4A. destruct (TrimSpace (in_Patch input) =? "")%string; [by intros [= <- <-]|].
  destruct (rbind _ resolveAll) as [ops|e]; [|intros [= <- <-]; by destruct e].
  destruct (find lockFails (lockPaths ops)); [by intros [= <- <-]|].
  unfold simulateV4AOperations. destruct (simulateFrom fs ∅ 0 ops) as [m|e] eqn:Hsim; [|intros [= <- <-]; by destruct e].
  destruct (validateV4AExpectedHashes shared input m) as [e|]; [intros [= <- <-]; by destruct e|].
  assert (shows fs ∅ (contents fs)) as Hs0 by (split; [intros q x Hq; by rewrite lookup_empty in Hq|intros q; by rewrite lookup_empty]).
  destruct (simulateFrom_shows _ _ _ _ _ _ Hs0 Hsim) as (t & Ht & Htr & Hv).
  destruct (applyV4AStates m fs) as [fs2 e] eqn:Ha. pose proof (apply_all_or_nothing m fs fs2 e Htr Ha) as Hall.
  destruct e as [e|]; intros [= <- <-].
  - destruct e; try done; by destruct Hall.
  - exists ops. split; [done|]. rewrite Ht. f_equal. apply map_eq. intros q. by rewrite Hall, Hv.
Qed.

(** ** Versions *)

(** A hash the caller gave for a path. *)
Definition givenHash (input : patchFileInput) (path hash : string) : Prop :=
  hash = in_ExpectedSHA256 input ∨ ∃ raw, (raw, hash) ∈ in_ExpectedByPath input ∧ workspacePath raw = Some path.

Lemma expectedByPath_origin m entries expected expected' path hash :
  expectedByPath m expected entries = Ok expected' → expected' !! path = Some hash →
  expected !! path = Some hash ∨ ∃ raw, (raw, hash) ∈ entries ∧ workspacePath raw = Some path.
Proof.
  revert expected. induction entries as [|[raw h] entries IH]; intros expected; cbn [expectedByPath].
  - intros [= <-]. by left.
  - destruct (workspacePath raw) as [p|] eqn:Hp; [|done]. destruct (TrimSpace h =? "")%string; [done|].
    destruct (m !! p); [|done]. intros He Hl. destruct (IH _ He Hl) as [H1|(r & Hr & Hw)].
    + apply lookup_insert_Some in H1 as [[<- <-]|[_ H1]]; [right; exists raw; split; [left|done]|by left].
    + right. exists r. split; [by right|done].
Qed.

Lemma checkVersions_shared m expected paths path st :
  checkVersions true m expected paths = None → path ∈ paths → m !! path = Some st →
  ∃ hash, expected !! path = Some hash ∧ EqualFold (TrimSpace hash) (fileHash (originalContent st)) = true.
Proof.
  induction paths as [|p paths IH]; intros Hc Hp Hm; [by apply elem_of_nil in Hp|]. cbn [checkVersions] in Hc.
  apply elem_of_cons in Hp as [<-|Hp].
  - rewrite Hm in Hc. destruct (expected !! path) as [h|]; [|done]. exists h. split; [done|].
    by destruct (EqualFold _ _).
  - apply IH; try done. destruct (expected !! p), (m !! p); try done. by destruct (EqualFold _ _).
Qed.

Lemma validate_shared input m path st :
  validateV4AExpectedHashes true input m = None → path ∈ changedExisting m → m !! path = Some st →
  ∃ hash, givenHash input path hash ∧ EqualFold (TrimSpace hash) (fileHash (originalContent st)) = true.
Proof.
  unfold validateV4AExpectedHashes. intros Hv Hp Hm.
  destruct (expectedByPath m ∅ (in_ExpectedByPath input)) as [expected|] eqn:He; [|done].
  assert (∀ hash, expected !! path = Some hash → givenHash input path hash) as Hgiven.
  { intros h Hh. destruct (expectedByPath_origin _ _ _ _ _ _ He Hh) as [H1|H1]; [by rewrite lookup_empty in H1|by right]. }
  destruct (TrimSpace (in_ExpectedSHA256 input) =? "")%string.
  - destruct (checkVersions_shared _ _ _ _ _ Hv Hp Hm) as (h & Hh & Hq). eauto.
  - destruct (changedExisting m) as [|p [|]]; [done| |done].
    destruct (checkVersions_shared _ _ _ _ _ Hv Hp Hm) as (h & Hh & Hq). exists h. split; [|done].
    apply lookup_insert_Some in Hh as [[_ <-]|[_ Hh]]; [by left|by apply Hgiven].
Qed.

(** In a shared workspace a patch that succeeds has changed or deleted an
    existing file only if the caller gave, for that file, the hash of the
    contents it replaced: no update of another agent is overwritten unseen. *)
Theorem shared_patch_checks_versions input fs fs' rep path old :
  patchV4A true input fs = (fs', Ok rep) → contents fs !! path = Some old → contents fs' !! path ≠ Some old →
  ∃ hash, givenHash input path hash ∧ EqualFold (TrimSpace hash) (fileHash old) = true.
Proof.
  unfold patchV4A. destruct (TrimSpace (in_Patch input) =? "")%string; [done|].
  destruct (rbind _ resolveAll) as [ops|e]; [|done]. destruct (find lockFails (lockPaths ops)); [done|].
  unfold simulateV4AOperations. destruct (simulateFrom fs ∅ 0 ops) as [m|e] eqn:Hsim; [|done].
  destruct (validateV4AExpectedHashes true input m) as [e|] eqn:Hv; [done|].
  assert (shows fs ∅ (contents fs)) as Hs0 by (split; [intros q x Hq; by rewrite lookup_empty in Hq|intros q; by rewrite lookup_empty]).
  destruct (simulateFrom_shows _ _ _ _ _ _ Hs0 Hsim) as (t & _ & Htr & _).
  destruct (applyV4AStates m fs) as [fs2 e] eqn:Ha. pose proof (apply_all_or_nothing m fs fs2 e Htr Ha) as Hall.
  destruct e; [done|]. intros [= <- <-] Hold Hnew. rewrite Hall in Hnew.
  destruct (m !! path) as [st|] eqn:Hm; [|congruence]. pose proof (Htr path st Hm) as Ho. rewrite Hold in Ho.
  unfold original in Ho. destruct (originalExists st) eqn:Hex; [|done]. injection Ho as ->.
  apply (validate_shared input m path st Hv); [|done].
  unfold changedExisting, pathsWith. apply list_elem_of_filter. rewrite Hm. split; [|apply elem_of_sortedPaths; eauto].
  unfold changed, target in *. rewrite Hex. destruct (st_exists st); [|done]. cbn.
  destruct (String.eqb_spec (originalContent st) (st_content st)); [congruence|done].
Qed.
End Workspace.

(** ** Concrete patches *)

Definition demo_patch : string :=
  Join ["*** Begin Patch"; "*** Update File: a.txt"; "@@ first @@"; " one"; "-two"; "+2"; "*** Add File: c.txt"; "+new";
        "*** Move File: b.txt -> d.txt"; "*** End Patch"] nl.

Definition demo_fs : FS :=
  mkFS {[ "/w/a.txt" := mkFile (Join ["one"; "two"; "three"] nl) 420; "/w/b.txt" := mkFile "bbb" 384 ]} 0.

Definition demo_resolve (raw : string) : option string := Some ("/w/" ++ raw)%string.

(** A stand-in for SHA-256: the text itself. *)
Definition demo_hash (s : string) : string := s.

Definition demo_input : patchFileInput :=
  mkPatchInput "patch" "" "" "" false demo_patch ""
    [("a.txt", Join ["one"; "two"; "three"] nl); ("b.txt", "bbb")]%string.

Definition demo_run (fails : nat → bool) : FS * result patchError patchReport :=
  patchV4A (λ _, false) fails (UT:=AsciiTables) demo_hash demo_resolve (λ _, false) true demo_input demo_fs.

Lemma patch_all_or_nothing_witness :
  contents (demo_run (λ n, (n =? 5)%nat)).1 = contents demo_fs ∧
  ∃ ops, rbind (parseV4APatch demo_patch) (resolveAll demo_resolve) = Ok ops ∧
    treeOps (contents demo_fs) ops = Some (contents (demo_run (λ _, false)).1).
Proof.
  split.
  - exact (patch_all_or_nothing (λ _, false) (λ n, (n =? 5)%nat) (UT:=AsciiTables) demo_hash demo_resolve (λ _, false) true
      demo_input demo_fs (demo_run (λ n, (n =? 5)%nat)).1 (Err RolledBack) ltac:(vm_compute; reflexivity)).
  - exact (patch_all_or_nothing (λ _, false) (λ _, false) (UT:=AsciiTables) demo_hash demo_resolve (λ _, false) true
      demo_input demo_fs (demo_run (λ _, false)).1
      (Ok (mkReport ["/w/c.txt"; "/w/d.txt"] ["/w/a.txt"] ["/w/b.txt"])%string) ltac:(vm_compute; reflexivity)).
Defined.

Lemma shared_patch_checks_versions_witness :
  ∃ hash, givenHash demo_resolve demo_input "/w/a.txt" hash ∧
    EqualFold (H:=AsciiTables) (TrimSpace hash) (demo_hash (Join ["one"; "two"; "three"] nl)) = true.
Proof.
  apply (shared_patch_checks_versions (λ _, false) (λ _, false) (UT:=AsciiTables) demo_hash demo_resolve (λ _, false)
    demo_input demo_fs (demo_run (λ _, false)).1
    (mkReport ["/w/c.txt"; "/w/d.txt"] ["/w/a.txt"] ["/w/b.txt"])%string "/w/a.txt" (Join ["one"; "two"; "three"] nl)).
  - vm_compute. reflexivity.
  - vm_compute. reflexivity.
  - vm_compute. discriminate.
Defined.

(** A patch that replaces a private file by another one. *)
Definition swap_patch : patchFileInput :=
  mkPatchInput "patch" "" "" "" false (Join ["*** Delete File: key"; "*** Move File: note -> key"] nl) "" [].

Definition swap_fs : FS := mkFS {[ "/w/key" := mkFile "secret" 384; "/w/note" := mkFile "text" 420 ]} 0.

(** The rollback does not restore permissions: when the patch that deletes a
    private file and moves another one in its place fails at the last step, the
    old contents come back readable by everyone, and the error says that all
    changes were rolled back. *)
Theorem rollback_widens_permissions :
  let '(fs', r) := patchV4A (λ _, false) (λ n, (n =? 2)%nat) (UT:=AsciiTables) demo_hash demo_resolve (λ _, false) false
                     swap_patch swap_fs in
  r = Err RolledBack ∧
  fs_files swap_fs !! "/w/key"%string = Some (mkFile "secret" 384) ∧
  fs_files fs' !! "/w/key"%string = Some (mkFile "secret" 420).
Proof. vm_compute. auto. Qed.
