(* ===== verification/PatchText.v ===== *)
(** The syntax of V4A patches: a printer for the operations of [Patch] and the
    proof that [parseV4APatch] reads back what it prints. *)
From Stdlib Require Import Ascii.
From S2P Require Import Prelude GoStr Fuzzy Patch.
Open Scope Z_scope.

(** ** Trimmed texts begin and end with something else than a space *)

Lemma re_space_is_space c : re_space c = true → is_space (byte_val c) = true ∧ byte_val c < 128.
Proof. unfold re_space. rewrite bool_decide_eq_true. intros [->|[->|[->|[->| ->]]]]; done. Qed.

(** A segment is an ASCII byte or has no ASCII byte. *)
Definition segment_ok (seg : Z * list ascii) : Prop :=
  seg.2 ≠ [] ∧ ((∃ a, seg = (byte_val a, [a])) ∨ Forall (λ c, 128 ≤ byte_val c) seg.2).

Lemma segments_ok s : Forall segment_ok (segments s).
Proof.
  assert (decoded (bytes s) (segments s)) as Hd by by apply segments_decoded.
  induction Hd as [|r bs rest segs Hne Hdec Hd IH]; constructor; [|done]. split; [done|]. cbn [snd].
  destruct bs as [|a bs]; [done|]. cbn [app] in Hdec. destruct (decode_cases a (bs ++ rest)) as [[Ha Hd']|[Hr Hall]].
  - rewrite Hdec in Hd'. injection Hd' as -> Hl. destruct bs; [|done]. left. by exists a.
  - right. rewrite Hdec in Hall. cbn [snd] in Hall. by rewrite app_comm_cons, take_app_length in Hall.
Qed.

Lemma segments_concat s : bytes s = concat (snd <$> segments s).
Proof. symmetry. by apply segments_fuel_concat. Qed.

Lemma high_not_space c : 128 ≤ byte_val c → re_space c = false.
Proof. intros Hc. destruct (re_space c) eqn:E; [|done]. apply re_space_is_space in E. lia. Qed.

Lemma trimmed_head s c : TrimSpace s = s → head (bytes s) = Some c → re_space c = false.
Proof.
  rewrite TrimSpace_id_iff. intros Ht. rewrite segments_concat. pose proof (segments_ok s) as Hok. unfold runes in Ht.
  destruct (segments s) as [|[r bs] segs]; [done|]. inversion Hok as [|? ? [Hne Hs] _]; subst. cbn [fmap list_fmap concat snd] in *.
  destruct bs as [|a bs]; [done|]. intros [= <-]. destruct Hs as [(b & [= -> -> ->])|Hh].
  - destruct (re_space b) eqn:E; [|done]. apply re_space_is_space in E as [E _].
    rewrite (Ht (byte_val b)) in E; [done|by left].
  - inv Hh. by apply high_not_space.
Qed.

Lemma trimmed_last s c : TrimSpace s = s → last (bytes s) = Some c → re_space c = false.
Proof.
  rewrite TrimSpace_id_iff. intros Ht. rewrite segments_concat. pose proof (segments_ok s) as Hok. unfold runes in Ht.
  destruct (segments s) as [|[r bs] segs _] using rev_ind; [done|].
  apply Forall_app in Hok as [_ Hok]. inversion Hok as [|? ? [Hne Hs] _]; subst.
  rewrite fmap_app, concat_app in *. cbn [fmap list_fmap concat snd] in *. rewrite app_nil_r.
  destruct (exists_last Hne) as (bs' & a & ->). rewrite app_assoc, last_snoc. intros [= <-]. destruct Hs as [(b & Hb)|Hh].
  - injection Hb as -> Hb. apply (f_equal last) in Hb. rewrite last_snoc in Hb. injection Hb as ->.
    destruct (re_space b) eqn:E; [|done]. apply re_space_is_space in E as [E _].
    rewrite (Ht (byte_val b)) in E; [done|]. right. rewrite fmap_app. apply last_snoc.
  - apply Forall_app in Hh as [_ Hh]. inv Hh. by apply high_not_space.
Qed.

(** ** Printing *)

Definition renderLine (hl : v4aHunkLine) : string := String (hl_prefix hl) (hl_content hl).

Definition renderHunk (h : v4aHunk) : list string :=
  ("@@ " ++ contextHint h ++ " @@")%string :: (renderLine <$> hunk_lines h).

Definition renderOp (op : v4aOperation) : list string :=
  match op_kind op with
  | v4aUpdate => ("*** Update File: " ++ rawPath op)%string :: (op_hunks op ≫= renderHunk)
  | v4aAdd => ("*** Add File: " ++ rawPath op)%string :: (op_hunks op ≫= λ h, renderLine <$> hunk_lines h)
  | v4aDelete => [("*** Delete File: " ++ rawPath op)%string]
  | v4aMove => [("*** Move File: " ++ rawPath op ++ " -> " ++ rawNewPath op)%string]
  end.

Definition renderPatch (ops : list v4aOperation) : string :=
  Join (("*** Begin Patch"%string :: (ops ≫= renderOp)) ++ ["*** End Patch"%string]) nl.

(** What can be printed: texts of one line, trimmed paths, hunks with lines. *)
Definition wf_text (s : string) : Prop := newline ∉ bytes s ∧ byte_of 13 ∉ bytes s.
Definition wf_path (p : string) : Prop := TrimSpace p = p ∧ p ≠ ""%string ∧ wf_text p.
Definition wf_line (hl : v4aHunkLine) : Prop := hl_prefix hl ∈ ["+"; "-"; " "]%char ∧ wf_text (hl_content hl).
Definition wf_hunk (h : v4aHunk) : Prop :=
  TrimSpace (contextHint h) = contextHint h ∧ "@"%char ∉ bytes (contextHint h) ∧ wf_text (contextHint h) ∧
  hunk_lines h ≠ [] ∧ Forall wf_line (hunk_lines h).

Definition wf_operation (op : v4aOperation) : Prop :=
  op_path op = ""%string ∧ op_newPath op = ""%string ∧ wf_path (rawPath op) ∧
  match op_kind op with
  | v4aUpdate => rawNewPath op = ""%string ∧ op_hunks op ≠ [] ∧ Forall wf_hunk (op_hunks op)
  | v4aAdd => rawNewPath op = ""%string ∧
      (op_hunks op = [] ∨ ∃ h, op_hunks op = [h] ∧ contextHint h = ""%string ∧ wf_hunk h)
  | v4aDelete => rawNewPath op = ""%string ∧ op_hunks op = []
  | v4aMove => wf_path (rawNewPath op) ∧ op_hunks op = [] ∧ ">"%char ∉ bytes (rawPath op)
  end.

(** ** The patterns on printed lines *)

Lemma skip_spaces_nospace s : (∀ c, head (bytes s) = Some c → re_space c = false) → skip_spaces s = s.
Proof. intros Hs. unfold skip_spaces. rewrite drop_while_id by done. apply of_bytes_bytes. Qed.

Lemma skip_space s : (∀ c, head (bytes s) = Some c → re_space c = false) → skip_spaces (String " " s) = s.
Proof.
  intros Hs. rewrite <- (skip_spaces_nospace s Hs) at 2. unfold skip_spaces.
  change (bytes (String " " s)) with (" "%char :: bytes s). done.
Qed.

Lemma captureRest_path p : wf_path p → captureRest (String " " p) = Some p.
Proof.
  intros (Ht & Hne & _). unfold captureRest. rewrite skip_space by (intros c; by apply trimmed_head).
  destruct (String.eqb_spec p ""); [done|]. done.
Qed.

Lemma prefix_refl_app p s : String.prefix p (p ++ s) = true.
Proof.
  induction p as [|a p IH]; [by destruct s|]. change (String.prefix (String a p) (String a (p ++ s)) = true).
  cbn [String.prefix]. destruct (Ascii.ascii_dec a a); [exact IH|congruence].
Qed.

Lemma literal_app p s : literal p (p ++ s) = Some s.
Proof. unfold literal, HasPrefix. rewrite prefix_refl_app. f_equal. apply str_split_at. Qed.

Lemma header_app w1 w2 s :
  (∀ t c, head (bytes (w1 ++ t)) = Some c → re_space c = false) →
  (∀ t c, head (bytes (w2 ++ t)) = Some c → re_space c = false) →
  header w1 w2 ("*** " ++ w1 ++ " " ++ w2 ++ s) = Some s.
Proof.
  intros H1 H2. unfold header.
  change ("*** " ++ w1 ++ " " ++ w2 ++ s)%string with ("***" ++ String " " (w1 ++ String " " (w2 ++ s)))%string.
  rewrite literal_app. cbn [mbind option_bind]. rewrite skip_space by apply H1. rewrite literal_app. cbn [mbind option_bind spaces1].
  change (re_space " ") with true. cbn iota. rewrite skip_space by apply H2. apply literal_app.
Qed.

Ltac concrete_head := intros t c [= <-]; reflexivity.

Lemma update_pattern p : wf_path p → v4aUpdatePattern ("*** Update File: " ++ p) = Some p.
Proof.
  intros Hp. unfold v4aUpdatePattern, filePattern.
  change ("*** Update File: " ++ p)%string with ("*** " ++ "Update" ++ " " ++ "File:" ++ String " " p)%string.
  rewrite header_app by concrete_head. by apply captureRest_path.
Qed.

Lemma add_pattern p : wf_path p → v4aAddPattern ("*** Add File: " ++ p) = Some p.
Proof.
  intros Hp. unfold v4aAddPattern, filePattern.
  change ("*** Add File: " ++ p)%string with ("*** " ++ "Add" ++ " " ++ "File:" ++ String " " p)%string.
  rewrite header_app by concrete_head. by apply captureRest_path.
Qed.

Lemma delete_pattern p : wf_path p → v4aDeletePattern ("*** Delete File: " ++ p) = Some p.
Proof.
  intros Hp. unfold v4aDeletePattern, filePattern.
  change ("*** Delete File: " ++ p)%string with ("*** " ++ "Delete" ++ " " ++ "File:" ++ String " " p)%string.
  rewrite header_app by concrete_head. by apply captureRest_path.
Qed.

(** No suffix of a trimmed text followed by a space and [rest] begins, after
    spaces, within [rest]. *)
Lemma drop_space_suffix l rest :
  l ≠ [] → (∀ c, last l = Some c → re_space c = false) →
  ∃ c l', drop_while re_space (l ++ rest) = c :: l' ++ rest ∧ c ∈ l ∧ (∀ d, d ∈ l' → d ∈ l).
Proof.
  induction l as [|a l IH]; intros Hne Hl; [done|]. cbn [app drop_while]. destruct (re_space a) eqn:Ha.
  - destruct l as [|b l]; [by rewrite (Hl a eq_refl) in Ha|].
    destruct (IH ltac:(done)) as (c & l' & E & Hc & Hd); [intros c Hc; apply Hl; done|].
    exists c, l'. split_and!; [done|by right|]. intros d Hdl. right. by apply Hd.
  - exists a, l. split_and!; [done|left|]. intros d Hd. by right.
Qed.

Lemma of_bytes_cons c l : of_bytes (c :: l) = String c (of_bytes l).
Proof. done. Qed.

Lemma lazyArrow_path group l q :
  (group ≠ [] ∨ l ≠ []) → (∀ c, last l = Some c → re_space c = false) → ">"%char ∉ l → wf_path q →
  lazyArrow group (l ++ bytes (" -> " ++ q)) = Some (of_bytes (reverse group ++ l), q).
Proof.
  revert group. induction l as [|a l IH]; intros group Hne Hl Hgt Hq.
  - destruct Hne as [Hne|?]; [|done]. destruct group as [|g group]; [done|]. cbn [app].
    assert (drop_while re_space (bytes (" -> " ++ q)) = bytes ("->" ++ String " " q)) as E by done.
    cbn [lazyArrow].
    destruct (bytes (" -> " ++ q)) as [|x xs] eqn:Hb; [done|].
    cbn [lazyArrow]. rewrite E, of_bytes_bytes, literal_app. cbn [mbind option_bind].
    rewrite (captureRest_path q Hq). cbn. by rewrite app_nil_r.
  - destruct (drop_space_suffix (a :: l) (bytes (" -> " ++ q))) as (c & l' & E & Hc & Hd); [done|done|].
    assert (literal "->" (of_bytes (drop_while re_space ((a :: l) ++ bytes (" -> " ++ q)))) = None) as Hlit.
    { rewrite E, of_bytes_cons. unfold literal, HasPrefix. cbn [String.prefix].
      destruct (Ascii.ascii_dec "-" c); [|done].
      destruct l' as [|d l']; cbn [app].
      - reflexivity.
      - rewrite of_bytes_cons. cbn [String.prefix]. destruct (Ascii.ascii_dec ">" d) as [<-|]; [|done].
        destruct Hgt. apply Hd. left. }
    assert (lazyArrow group ((a :: l) ++ bytes (" -> " ++ q)) = lazyArrow (a :: group) (l ++ bytes (" -> " ++ q))) as ->.
    { cbn [app] in *. cbn [lazyArrow]. destruct group; rewrite ?Hlit; reflexivity. }
    rewrite IH; [|by left| |by apply not_elem_of_cons in Hgt as [_ ?]|done].
    + rewrite reverse_cons, <- app_assoc. done.
    + intros d Hdl. apply Hl. destruct l; [done|exact Hdl].
Qed.

Lemma move_pattern p q :
  wf_path p → ">"%char ∉ bytes p → wf_path q → v4aMovePattern ("*** Move File: " ++ p ++ " -> " ++ q) = Some (p, q).
Proof.
  intros Hp Hgt Hq. destruct Hp as (Ht & Hne & Hw). unfold v4aMovePattern.
  change ("*** Move File: " ++ p ++ " -> " ++ q)%string
    with ("*** " ++ "Move" ++ " " ++ "File:" ++ String " " (p ++ " -> " ++ q))%string.
  rewrite header_app by concrete_head. cbn [mbind option_bind].
  assert (∀ c, head (bytes (p ++ " -> " ++ q)) = Some c → re_space c = false) as Hh.
  { intros c. destruct p as [|x p]; [done|]. intros [= <-]. by apply (trimmed_head (String x p)). }
  rewrite (skip_space _ Hh), bytes_app, lazyArrow_path; [cbn; by rewrite of_bytes_bytes| |by intros c; apply trimmed_last|done|done].
  right. intros E. apply Hne. by apply (inj bytes).
Qed.

Lemma lazyHint_spec group l :
  "@"%char ∉ l → (∀ c, last l = Some c → re_space c = false) →
  lazyHint group (l ++ bytes " @@") = Some (of_bytes (reverse group ++ l)).
Proof.
  revert group. induction l as [|a l IH]; intros group Hat Hl; [cbn; by rewrite app_nil_r|].
  destruct (drop_space_suffix (a :: l) (bytes " @@")) as (c & l' & E & Hc & _); [done|done|].
  assert (HasPrefix (of_bytes (drop_while re_space ((a :: l) ++ bytes " @@"))) "@@" = false) as Hf.
  { rewrite E, of_bytes_cons. unfold HasPrefix. cbn [String.prefix]. destruct (Ascii.ascii_dec "@" c) as [<-|]; [|done]. done. }
  change (lazyHint group ((a :: l) ++ bytes " @@")) with
    (if HasPrefix (of_bytes (drop_while re_space ((a :: l) ++ bytes " @@"))) "@@" then Some (of_bytes (reverse group))
     else lazyHint (a :: group) (l ++ bytes " @@")).
  rewrite Hf, IH; [by rewrite reverse_cons, <- app_assoc|by apply not_elem_of_cons in Hat as [_ ?]|].
  intros d Hd. apply Hl. by destruct l.
Qed.

Lemma hint_pattern hint :
  TrimSpace hint = hint → "@"%char ∉ bytes hint → v4aHintPattern ("@@ " ++ hint ++ " @@") = Some hint.
Proof.
  intros Ht Hat. unfold v4aHintPattern. change ("@@ " ++ hint ++ " @@")%string with ("@@" ++ String " " (hint ++ " @@"))%string.
  rewrite literal_app. cbn [mbind option_bind]. destruct hint as [|c hint]; [reflexivity|].
  rewrite skip_space; [|intros d [= <-]; by apply (trimmed_head (String c hint))].
  rewrite bytes_app, lazyHint_spec; [by rewrite reverse_nil, app_nil_l, of_bytes_bytes|done|by intros d; apply trimmed_last].
Qed.

(** ** Parsing printed lines *)

(** Lines that are no file header. *)
Definition no_header (line : string) : Prop := literal "***" line = None.

Lemma no_header_patterns line :
  no_header line → v4aUpdatePattern line = None ∧ v4aAddPattern line = None ∧ v4aDeletePattern line = None ∧
  v4aMovePattern line = None ∧ v4aBeginPattern line = false ∧ v4aEndPattern line = false.
Proof.
  intros Hl. assert (∀ w1 w2, header w1 w2 line = None) as Hh by (intros; unfold header; by rewrite Hl).
  unfold v4aUpdatePattern, v4aAddPattern, v4aDeletePattern, v4aMovePattern, v4aBeginPattern, v4aEndPattern, filePattern, marker.
  by rewrite !Hh.
Qed.

Lemma renderLine_no_header hl : wf_line hl → no_header (renderLine hl).
Proof.
  intros [Hp _]. unfold renderLine. rewrite !elem_of_cons, elem_of_nil in Hp.
  destruct Hp as [->|[->|[->|[]]]]; reflexivity.
Qed.

Lemma hunkLine_render hl : wf_line hl → hunkLine (renderLine hl) = Some hl.
Proof.
  intros [Hp _]. unfold hunkLine, renderLine. destruct hl as [c t]. cbn [hl_prefix hl_content] in *.
  rewrite !elem_of_cons, elem_of_nil in Hp. destruct Hp as [->|[->|[->|[]]]]; reflexivity.
Qed.

Lemma parse_hunk_line ops op hint lines hl :
  wf_line hl →
  parseLine (mkParseState ops (Some op) (Some (mkHunk hint lines))) (renderLine hl) =
  mkParseState ops (Some op) (Some (mkHunk hint (lines ++ [hl]))).
Proof.
  intros Hl. destruct (no_header_patterns _ (renderLine_no_header hl Hl)) as (H1 & H2 & H3 & H4 & _).
  unfold parseLine. rewrite H1, H2, H3, H4. cbn [ps_current ps_operations ps_hunk default].
  rewrite (hunkLine_render hl Hl). cbn [contextHint hunk_lines].
  destruct Hl as [Hp _]. unfold renderLine. rewrite !elem_of_cons, elem_of_nil in Hp.
  destruct Hp as [->|[->|[->|[]]]]; reflexivity.
Qed.

Lemma parse_hunk_lines ops op hint lines hls :
  Forall wf_line hls →
  foldl parseLine (mkParseState ops (Some op) (Some (mkHunk hint lines))) (renderLine <$> hls) =
  mkParseState ops (Some op) (Some (mkHunk hint (lines ++ hls))).
Proof.
  intros Hf. revert lines. induction Hf as [|hl hls Hl Hf IH]; intros lines; [by rewrite app_nil_r|].
  rewrite fmap_cons. cbn [foldl]. rewrite parse_hunk_line by done. rewrite IH, <- app_assoc. done.
Qed.

Lemma parse_hunk_header ops op hk hint :
  TrimSpace hint = hint → "@"%char ∉ bytes hint →
  parseLine (mkParseState ops (Some op) hk) ("@@ " ++ hint ++ " @@") =
  mkParseState ops (Some (addHunk op hk)) (Some (mkHunk hint [])).
Proof.
  intros Ht Hat. destruct (no_header_patterns ("@@ " ++ hint ++ " @@")) as (H1 & H2 & H3 & H4 & _); [reflexivity|].
  unfold parseLine. rewrite H1, H2, H3, H4. cbn [ps_current ps_operations ps_hunk].
  replace (HasPrefix ("@@ " ++ hint ++ " @@") "@@") with true by (destruct hint; reflexivity).
  by rewrite (hint_pattern hint Ht Hat), Ht.
Qed.

(** The operation with more hunks. *)
Definition more_hunks (op : v4aOperation) (hs : list v4aHunk) : v4aOperation :=
  mkOperation (op_kind op) (rawPath op) (rawNewPath op) (op_path op) (op_newPath op) (op_hunks op ++ hs).

Lemma addHunk_more op h : hunk_lines h ≠ [] → addHunk op (Some h) = more_hunks op [h].
Proof. unfold addHunk. by destruct (hunk_lines h). Qed.

Lemma more_hunks_app op hs hs' : more_hunks (more_hunks op hs) hs' = more_hunks op (hs ++ hs').
Proof. unfold more_hunks. cbn. by rewrite app_assoc. Qed.

Lemma parse_hunks ops op hk hs :
  Forall wf_hunk hs →
  finishCurrent (foldl parseLine (mkParseState ops (Some op) hk) (hs ≫= renderHunk)) =
  mkParseState (ops ++ [more_hunks (addHunk op hk) hs]) None None.
Proof.
  intros Hf. revert op hk. induction Hf as [|h hs Hh Hf IH]; intros op hk.
  - cbn. do 2 f_equal. f_equal. unfold more_hunks. rewrite app_nil_r. by destruct (addHunk op hk).
  - destruct Hh as (Ht & Hat & _ & Hne & Hl). rewrite bind_cons, foldl_app.
    change (renderHunk h) with (("@@ " ++ contextHint h ++ " @@")%string :: (renderLine <$> hunk_lines h)). cbn [foldl].
    rewrite parse_hunk_header by done. rewrite parse_hunk_lines by done. cbn [app].
    rewrite IH. do 3 f_equal. destruct h as [hint lines]. rewrite addHunk_more by done. by rewrite more_hunks_app.
Qed.

Lemma parse_header_line st line :
  (∀ p, v4aUpdatePattern line = Some p →
     parseLine st line = mkParseState (ps_operations (finishCurrent st)) (Some (newOperation v4aUpdate p "")) (ps_hunk (finishCurrent st))) ∧
  (∀ p, v4aUpdatePattern line = None → v4aAddPattern line = Some p →
     parseLine st line = mkParseState (ps_operations (finishCurrent st)) (Some (newOperation v4aAdd p "")) (Some (mkHunk "" []))).
Proof. unfold parseLine. split; [by intros p ->|by intros p -> ->]. Qed.

Lemma parse_operation st ops op :
  wf_operation op → finishCurrent st = mkParseState ops None None →
  finishCurrent (foldl parseLine st (renderOp op)) = mkParseState (ops ++ [op]) None None.
Proof.
  intros (H1 & H2 & Hp & Hk) Hst. pose proof Hp as (Ht & Hne & _).
  destruct op as [kind raw rawNew path newPath hunks]. cbn [op_kind rawPath rawNewPath op_path op_newPath op_hunks] in *.
  subst path newPath. unfold renderOp. cbn [op_kind rawPath rawNewPath op_hunks].
  destruct kind.
  - destruct Hk as (-> & Hh & Hf). cbn [foldl]. rewrite (proj1 (parse_header_line st _) raw (update_pattern raw Hp)), Hst.
    cbn [ps_operations ps_hunk]. rewrite parse_hunks by done. unfold newOperation, more_hunks. cbn. by rewrite Ht.
  - destruct Hk as (-> & Hk). cbn [foldl]. rewrite (proj2 (parse_header_line st ("*** Add File: " ++ raw)) raw eq_refl (add_pattern raw Hp)), Hst.
    cbn [ps_operations]. destruct Hk as [->|(h & -> & Hhint & _ & _ & _ & Hl & Hf)].
    + cbn. unfold newOperation. by rewrite Ht.
    + cbn [mbind list_bind app]. rewrite app_nil_r, parse_hunk_lines by done. destruct h as [hint lines]. cbn in *. subst hint.
      unfold newOperation. rewrite Ht. by destruct lines.
  - destruct Hk as (-> & ->). cbn [foldl]. unfold parseLine.
    replace (v4aUpdatePattern ("*** Delete File: " ++ raw)) with (@None string) by reflexivity.
    replace (v4aAddPattern ("*** Delete File: " ++ raw)) with (@None string) by reflexivity.
    rewrite (delete_pattern raw Hp), Hst. cbn. unfold newOperation. by rewrite Ht.
  - destruct Hk as (Hq & -> & Hgt). pose proof Hq as (Htq & _). cbn [foldl]. unfold parseLine.
    replace (v4aUpdatePattern ("*** Move File: " ++ raw ++ " -> " ++ rawNew)) with (@None string) by reflexivity.
    replace (v4aAddPattern ("*** Move File: " ++ raw ++ " -> " ++ rawNew)) with (@None string) by reflexivity.
    replace (v4aDeletePattern ("*** Move File: " ++ raw ++ " -> " ++ rawNew)) with (@None string) by reflexivity.
    rewrite (move_pattern raw rawNew Hp Hgt Hq), Hst. cbn. unfold newOperation. by rewrite Ht, Htq.
Qed.

Lemma parse_operations st ops0 ops :
  Forall wf_operation ops → finishCurrent st = mkParseState ops0 None None →
  finishCurrent (foldl parseLine st (ops ≫= renderOp)) = mkParseState (ops0 ++ ops) None None.
Proof.
  intros Hf. revert st ops0. induction Hf as [|op ops Hop Hf IH]; intros st ops0 Hst; [by rewrite app_nil_r|].
  rewrite bind_cons, foldl_app. rewrite (IH _ (ops0 ++ [op])); [by rewrite <- app_assoc|by apply parse_operation].
Qed.

(** ** Lines of a printed patch *)

Definition body_line (line : string) : Prop :=
  wf_text line ∧ v4aBeginPattern line = false ∧ v4aEndPattern line = false.

Lemma wf_text_app s t : wf_text s → wf_text t → wf_text (s ++ t).
Proof. unfold wf_text. rewrite bytes_app, !not_elem_of_app. naive_solver. Qed.

Lemma wf_text_literal s : forallb (λ c, negb (Ascii.eqb c newline) && negb (Ascii.eqb c (byte_of 13))) (bytes s) = true → wf_text s.
Proof.
  intros Hf. rewrite forallb_forall in Hf. split; intros Hc%list_elem_of_In%Hf; by rewrite Ascii.eqb_refl, ?andb_false_r in Hc.
Qed.

Lemma render_body op : wf_operation op → Forall body_line (renderOp op).
Proof.
  intros (_ & _ & (_ & _ & Hp) & Hk). unfold renderOp.
  assert (∀ hl, wf_line hl → body_line (renderLine hl)) as Hline.
  { intros hl Hl. destruct (no_header_patterns _ (renderLine_no_header hl Hl)) as (_ & _ & _ & _ & ? & ?).
    split; [|done]. destruct hl as [c t]. destruct Hl as [Hc [Hn Hr]]. unfold renderLine, wf_text. cbn in *.
    rewrite !elem_of_cons, elem_of_nil in *. destruct Hc as [->|[->|[->|[]]]]; split; (intros [?|?]; [discriminate|done]). }
  assert (∀ hls, Forall wf_line hls → Forall body_line (renderLine <$> hls)) as Hlines.
  { intros hls Hf. apply Forall_fmap. eapply Forall_impl; [done|]. apply Hline. }
  destruct (op_kind op).
  - destruct Hk as (_ & _ & Hf). constructor; [split; [|done]; apply wf_text_app; [by apply wf_text_literal|done]|].
    apply Forall_bind. eapply Forall_impl; [done|]. intros h (_ & _ & Hh & _ & Hl). constructor; [|by apply Hlines].
    destruct (no_header_patterns ("@@ " ++ contextHint h ++ " @@")) as (_ & _ & _ & _ & ? & ?); [done|]. split; [|done].
    apply wf_text_app; [by apply wf_text_literal|]. apply wf_text_app; [done|by apply wf_text_literal].
  - destruct Hk as (_ & Hk). constructor; [split; [|done]; apply wf_text_app; [by apply wf_text_literal|done]|].
    destruct Hk as [->|(h & -> & _ & _ & _ & _ & _ & Hf)]; [constructor|]. cbn. rewrite app_nil_r. by apply Hlines.
  - repeat constructor; [apply wf_text_app; [by apply wf_text_literal|done]..].
  - destruct Hk as ((_ & _ & Hq) & _). repeat constructor;
      repeat (apply wf_text_app; [by first [done|apply wf_text_literal]|]); done.
Qed.

Lemma patchBody_end body lines :
  Forall body_line lines → patchBody body (lines ++ ["*** End Patch"%string]) = body ++ lines.
Proof.
  intros Hf. revert body. induction Hf as [|l lines (_ & Hb & He) Hf IH]; intros body; [by rewrite app_nil_r|].
  cbn [app patchBody]. rewrite Hb, He, IH, <- app_assoc. done.
Qed.

Lemma crlf_id l : byte_of 13 ∉ l → crlf l = l.
Proof.
  induction l as [|a l IH]; [done|]. rewrite not_elem_of_cons. intros [Ha Hl]. cbn [crlf]. destruct l as [|b l]; [done|].
  destruct (Ascii.eqb_spec a (byte_of 13)); [congruence|]. cbn [andb]. by rewrite IH.
Qed.

Lemma TrimSuffix_cr line : byte_of 13 ∉ bytes line → TrimSuffix line (of_bytes [byte_of 13]) = line.
Proof.
  intros Hl. unfold TrimSuffix. destruct (HasSuffix line (of_bytes [byte_of 13])) eqn:Hs; [|done].
  unfold HasSuffix in Hs. bool_prop. destruct Hl. apply (f_equal bytes) in H0. rewrite bytes_str_drop, bytes_of_bytes in H0.
  eapply (subseteq_drop _ (bytes line)). rewrite H0. left.
Qed.

Lemma patchLines_Join lines :
  lines ≠ [] → Forall wf_text lines → patchLines (Join lines nl) = lines.
Proof.
  intros Hne Hf. unfold patchLines.
  assert (byte_of 13 ∉ bytes (Join lines nl)) as Hcr.
  { rewrite bytes_Join. clear Hne. induction Hf as [|l lines [_ Hl] Hf IH]; [apply not_elem_of_nil|].
    rewrite fmap_cons. destruct lines as [|l' lines]; [done|]. rewrite join_cons by done.
    rewrite not_elem_of_app, not_elem_of_cons. done. }
  rewrite (crlf_id _ Hcr), of_bytes_bytes.
  assert (Split (Join lines nl) newline = lines) as ->.
  { apply (inj (fmap (M:=list) bytes)). rewrite Split_bytes, bytes_Join. apply split_join; [by destruct lines|].
    apply Forall_fmap. eapply Forall_impl; [done|]. by intros l [? _]. }
  rewrite <- list_fmap_id. apply list_fmap_ext. intros i l Hl%list_elem_of_lookup_2.
  rewrite Forall_forall in Hf. destruct (Hf l Hl). by apply TrimSuffix_cr.
Qed.

Lemma check_wf op : wf_operation op → checkOperation op = None.
Proof.
  intros (_ & _ & (_ & Hne & _) & Hk). unfold checkOperation. destruct (String.eqb_spec (rawPath op) ""); [done|].
  destruct (op_kind op).
  - destruct Hk as (_ & Hh & _). by rewrite bool_decide_eq_true_2, bool_decide_eq_false_2.
  - done.
  - done.
  - destruct Hk as ((_ & Hq & _) & _). cbn. by destruct (String.eqb_spec (rawNewPath op) "").
Qed.

Lemma checks_wf ops : Forall wf_operation ops → omap checkOperation ops = [].
Proof. induction 1 as [|op ops Hop Hf IH]; [done|]. cbn. by rewrite (check_wf op Hop). Qed.

(** C40. Parsing a printed patch gives its operations back: every sequence of file
    operations with trimmed one-line paths, hints and lines survives the V4A
    syntax. *)
Theorem patch_roundtrip ops :
  ops ≠ [] → Forall wf_operation ops → parseV4APatch (renderPatch ops) = Ok ops.
Proof.
  intros Hne Hf.
  assert (Forall body_line (ops ≫= renderOp)) as Hbody.
  { apply Forall_bind. eapply Forall_impl; [done|]. apply render_body. }
  unfold parseV4APatch, renderPatch. rewrite patchLines_Join; [|done|].
  2: { apply Forall_app. split; [constructor; [by apply wf_text_literal|]|repeat constructor; by apply wf_text_literal].
       eapply Forall_impl; [done|]. by intros l [? _]. }
  change (patchBody [] (("*** Begin Patch"%string :: (ops ≫= renderOp)) ++ ["*** End Patch"%string]))
    with (patchBody [] ((ops ≫= renderOp) ++ ["*** End Patch"%string])).
  rewrite patchBody_end by done. cbn [app].
  rewrite (parse_operations _ [] ops Hf) by done. cbn [ps_operations app].
  pose proof (checks_wf ops Hf) as Hc. destruct ops as [|op ops]; [done|]. by rewrite Hc.
Qed.

Definition demo_operations : list v4aOperation :=
  [mkOperation v4aUpdate "src/main.go" "" "" "" [mkHunk "func main" [mkHunkLine " " "a"; mkHunkLine "-" "b"; mkHunkLine "+" "c"]];
   mkOperation v4aAdd "notes.txt" "" "" "" [mkHunk "" [mkHunkLine "+" "hello"]];
   mkOperation v4aMove "old name" "new name" "" "" []; mkOperation v4aDelete "x" "" "" "" []].

Lemma patch_roundtrip_witness : parseV4APatch (renderPatch demo_operations) = Ok demo_operations.
Proof.
  assert (∀ s, forallb (λ c, negb (Ascii.eqb c newline) && negb (Ascii.eqb c (byte_of 13))) (bytes s) = true →
    TrimSpace s = s → s ≠ ""%string → wf_path s) as Hpath by (intros s H1 H2 H3; split_and!; [done|done|by apply wf_text_literal]).
  apply (patch_roundtrip demo_operations); [discriminate|].
  unfold demo_operations. repeat (apply Forall_cons; split); [..|apply Forall_nil; exact I].
  - split_and!; [done|done|by apply Hpath|]. split_and!; [done|discriminate|]. repeat constructor; cbn; try done.
    all: try (by apply wf_text_literal). all: vm_compute; intros Hc; repeat (inversion Hc as [|? ? ? Hc']; clear Hc; rename Hc' into Hc).
  - split_and!; [done|done|by apply Hpath|]. split; [done|]. right. eexists. split; [reflexivity|]. split; [done|].
    split_and!; [done|apply not_elem_of_nil|by apply wf_text_literal|discriminate|]. repeat constructor; by apply wf_text_literal.
  - split_and!; [done|done|by apply Hpath|]. split_and!; [by apply Hpath|done|]. vm_compute.
    intros Hc. repeat (inversion Hc as [|? ? ? Hc']; clear Hc; rename Hc' into Hc).
  - split_and!; [done|done|by apply Hpath|]. done.
Defined.
