(* ===== verification/Assembler.v ===== *)
(** What a model turn is shown: the context assembler
    (internal/runtime/agent/context_assembler.go), the rule planner
    (rule_planner.go) and the token limits of auto_compaction.go.

    The tokenizer is the parameter of [Compaction.Count]; the text of the plan-mode
    prompt is a parameter too. *)
From Stdlib Require Import Ascii.
From S2P Require Import Prelude GoStr Chat Compaction Rules.
Open Scope Z_scope.

Definition defaultMaxInputChars : Z := 24000.
Definition defaultMaxInputTokens : Z := defaultMaxInputChars `quot` 4.

Definition estimateContextTokens (content : string) : Z :=
  if (content =? "")%string then 0
  else
    let ascii := zlen (filter (λ r, r < 128) (runes content)) in
    let nonASCII := zlen (filter (λ r, ¬ r < 128) (runes content)) in
    let estimate := nonASCII + ascii `quot` 4 in
    if estimate <=? 0 then 1 else estimate.

(** [strings.Repeat("x", n)]. *)
Definition repeat_x (n : Z) : string := of_bytes (replicate (Z.to_nat n) "x"%char).

Definition maxInt (a b : Z) : Z := if b <? a then a else b.

(** ** Blocks *)

Record ContextBlock := mkBlock {
  cb_Name : string;
  cb_Role : string;
  cb_Content : string;
  cb_Pinned : bool
}.

Record ContextBlockTrace := mkBlockTrace {
  bt_Name : string;
  bt_Role : string;
  bt_Pinned : bool;
  bt_OriginalChars : Z;
  bt_IncludedChars : Z;
  bt_EstimatedTokens : Z;
  bt_SavedTokens : Z;
  bt_Status : string
}.

Inductive category :=
| CatSystem | CatRulesMandatory | CatRulesOptional | CatToolSchema | CatHistory | CatMemory
| CatReflectionMemory | CatRetrieval | CatTask | CatProfile.

#[export] Instance category_eq_dec : EqDecision category.
Proof. solve_decision. Defined.

(** The counters of [TokenAudit], by category. *)
Definition TokenAudit := category → Z.

Definition audit_add (c : category) (tokens : Z) (a : TokenAudit) : TokenAudit :=
  λ c', if decide (c' = c) then a c' + tokens else a c'.

Definition categories : list category :=
  [CatSystem; CatRulesMandatory; CatRulesOptional; CatToolSchema; CatHistory; CatMemory; CatReflectionMemory;
   CatRetrieval; CatTask; CatProfile].

Definition contextPrecedenceInstruction : string :=
  "Context precedence: the current user request and the latest conversation messages are authoritative. Conversation snapshots, durable memories, and search results are advisory and may be stale or contradictory. When they conflict, follow the latest explicit user instruction and state uncertainty instead of silently merging incompatible facts.".

(** ** The trace *)

Record ContextTrace := mkContextTrace {
  MaxChars : Z;
  MaxInputTokens : Z;
  UsedChars : Z;
  UsedTokens : Z;
  EstimatedTokens : Z;
  SavedTokens : Z;
  Audit : TokenAudit;
  Included : list string;
  Omitted : list string;
  Truncated : list string;
  Compressed : list string;
  Blocks : list ContextBlockTrace;
  CoreOverflow : bool;
  MandatoryTokens : Z;
  MandatoryBudgetTokens : Z;
  MandatoryDeficitTokens : Z
}.

(** The fields of a run's request the assembler reads. *)
Record AssembleRequest := mkAssembleRequest {
  ar_MaxInputChars : Z;
  ar_MaxInputTokens : Z;
  ar_SystemPrompt : string;
  ar_EnforceContextPrecedence : bool;
  ar_Mode : string;
  ar_Task : string;
  ar_ContextBlocks : list ContextBlock;
  ar_ProviderType : string;
  ar_Model : string
}.

Section Assembler.
Context {UT : UnicodeTables} (encodingForModel : string → option (string → list Z)) (planModeDeveloperPrompt : string).

Definition tokenAuditCategory (name : string) : category :=
  let name := ToLower (TrimSpace name) in
  if (name =? "system")%string || (name =? "agent_mode")%string then CatSystem
  else if HasPrefix name "rule_mandatory" || HasPrefix name "rules_mandatory" then CatRulesMandatory
  else if HasPrefix name "rule_optional" || HasPrefix name "rules_optional" then CatRulesOptional
  else if Contains name "tool_schema" then CatToolSchema
  else if Contains name "history" || Contains name "conversation" then CatHistory
  else if Contains name "skills" then CatProfile
  else if Contains name "reflection_memory" then CatReflectionMemory
  else if Contains name "memory" then CatMemory
  else if Contains name "retrieval" || Contains name "knowledge" || Contains name "citation" then CatRetrieval
  else if (name =? "task")%string then CatTask
  else CatProfile.

Definition isMandatoryRuleBlock (name : string) : bool := bool_decide (tokenAuditCategory name = CatRulesMandatory).

Definition blockSortPriority (name : string) : Z :=
  match tokenAuditCategory name with
  | CatSystem | CatRulesMandatory | CatRulesOptional => 0
  | CatToolSchema => 1
  | CatMemory => 2
  | CatHistory => 3
  | CatRetrieval => 4
  | CatTask => 5
  | _ => 3
  end.

Definition hasAdvisoryContext (blocks : list ContextBlock) : bool :=
  existsb (λ b, bool_decide (tokenAuditCategory (cb_Name b) ∈ [CatHistory; CatMemory; CatRetrieval; CatReflectionMemory]) &&
                negb (TrimSpace (cb_Content b) =? "")%string) blocks.

Definition modeInstruction (mode : string) : string :=
  if (TrimSpace mode =? "plan")%string then planModeDeveloperPrompt
  else if (TrimSpace mode =? "default")%string
  then "You are in Default mode. Execute the user's request, use tools when useful, verify changes, and return the result."
  else "".

(** [truncateRunes]: the runes that fit in [maxBytes], re-encoded. *)
Fixpoint takeRunes (maxBytes used : Z) (rs : list Z) : list Z :=
  match rs with
  | [] => []
  | r :: rs =>
    let size := zlen (encode_rune r) in
    if maxBytes <? used + size then [] else r :: takeRunes maxBytes (used + size) rs
  end.

Definition truncateRunes (content : string) (maxBytes : Z) : string :=
  if (maxBytes <=? 0) || (slen content <=? maxBytes) then content
  else of_runes (takeRunes maxBytes 0 (runes content)).

(** ** Deduplication *)

Definition dedupeKey (b : ContextBlock) : option (category * string) :=
  let content := TrimSpace (cb_Content b) in
  let c := tokenAuditCategory (cb_Name b) in
  if (content =? "")%string || negb (bool_decide (c ∈ [CatRetrieval; CatHistory; CatMemory])) then None
  else Some (c, ToLower (Join (Fields content) " ")).

Definition displayName (b : ContextBlock) : string := if (cb_Name b =? "")%string then cb_Role b else cb_Name b.

Fixpoint dedupeFrom (seen : list (category * string)) (blocks : list ContextBlock)
    : list ContextBlock * list ContextBlockTrace :=
  match blocks with
  | [] => ([], [])
  | b :: rest =>
    match dedupeKey b with
    | None => let '(bs, ts) := dedupeFrom seen rest in (b :: bs, ts)
    | Some key =>
      if decide (key ∈ seen) then
        let '(bs, ts) := dedupeFrom seen rest in
        let content := TrimSpace (cb_Content b) in
        (bs, mkBlockTrace (displayName b) (cb_Role b) false (slen content) 0 0 (estimateContextTokens content) "omitted" :: ts)
      else let '(bs, ts) := dedupeFrom (key :: seen) rest in (b :: bs, ts)
    end
  end.

Definition dedupeContextBlocks (blocks : list ContextBlock) := dedupeFrom [] blocks.

(** ** The blocks of a request, in order *)

Definition priority_less (a b : ContextBlock) : bool := blockSortPriority (cb_Name a) <? blockSortPriority (cb_Name b).

Definition withRole (b : ContextBlock) : ContextBlock :=
  if (cb_Role b =? "")%string then mkBlock (cb_Name b) RoleUser (cb_Content b) (cb_Pinned b) else b.

Definition fixedBlocks (req : AssembleRequest) : list ContextBlock :=
  let advisory := ar_EnforceContextPrecedence req && hasAdvisoryContext (ar_ContextBlocks req) in
  let blank := (TrimSpace (ar_SystemPrompt req) =? "")%string in
  let systemPrompt := if advisory && negb blank
                      then (ar_SystemPrompt req ++ of_bytes [byte_of 10; byte_of 10] ++ contextPrecedenceInstruction)%string
                      else ar_SystemPrompt req in
  (if blank then [] else [mkBlock "system" RoleSystem systemPrompt true]) ++
  (if (modeInstruction (ar_Mode req) =? "")%string then []
   else [mkBlock "agent_mode" RoleDeveloper (modeInstruction (ar_Mode req)) true]) ++
  (if advisory && blank then [mkBlock "context_precedence" RoleSystem contextPrecedenceInstruction true] else []).

Definition orderedBlocks (req : AssembleRequest) : list ContextBlock :=
  sort_stable priority_less
    (fixedBlocks req ++
     (withRole <$> filter (λ b, TrimSpace (cb_Content b) ≠ ""%string) (dedupeContextBlocks (ar_ContextBlocks req)).1)) ++
  [mkBlock "task" RoleUser (ar_Task req) true].

(** ** The budget loop *)

Record buildState := mkBuildState {
  bs_messages : list ChatMessage;
  bs_used : Z;
  bs_usedTokens : Z;
  bs_trace : ContextTrace
}.

Definition blockTokens (req : AssembleRequest) (name content : string) : Z :=
  if isMandatoryRuleBlock name then
    let counted := Tokens (Count encodingForModel (ar_ProviderType req) (ar_Model req) content) in
    if 0 <? counted then counted else estimateContextTokens content
  else estimateContextTokens content.

(** The mandatory counters before the block is placed. *)
Definition noteMandatory (maxTokens usedTokens tokens : Z) (t : ContextTrace) : ContextTrace :=
  let available := if maxTokens - usedTokens <? 0 then 0 else maxTokens - usedTokens in
  let budget := if (MandatoryTokens t =? 0) || (available <? MandatoryBudgetTokens t) then available else MandatoryBudgetTokens t in
  mkContextTrace (MaxChars t) (MaxInputTokens t) (UsedChars t) (UsedTokens t) (EstimatedTokens t) (SavedTokens t) (Audit t)
    (Included t) (Omitted t) (Truncated t) (Compressed t) (Blocks t) (CoreOverflow t) (MandatoryTokens t + tokens) budget
    (MandatoryDeficitTokens t).

Definition noteOverflow (deficit : Z) (bt : ContextBlockTrace) (t : ContextTrace) : ContextTrace :=
  mkContextTrace (MaxChars t) (MaxInputTokens t) (UsedChars t) (UsedTokens t) (EstimatedTokens t) (SavedTokens t) (Audit t)
    (Included t) (Omitted t) (Truncated t) (Compressed t) (Blocks t ++ [bt]) true (MandatoryTokens t) (MandatoryBudgetTokens t)
    (if MandatoryDeficitTokens t <? deficit then deficit else MandatoryDeficitTokens t).

Definition noteOmitted (name : string) (bt : ContextBlockTrace) (t : ContextTrace) : ContextTrace :=
  mkContextTrace (MaxChars t) (MaxInputTokens t) (UsedChars t) (UsedTokens t) (EstimatedTokens t)
    (SavedTokens t + bt_SavedTokens bt) (Audit t)
    (Included t) (Omitted t ++ [name]) (Truncated t) (Compressed t) (Blocks t ++ [bt]) (CoreOverflow t) (MandatoryTokens t)
    (MandatoryBudgetTokens t) (MandatoryDeficitTokens t).

Definition noteIncluded (name : string) (bt : ContextBlockTrace) (truncated : bool) (t : ContextTrace) : ContextTrace :=
  mkContextTrace (MaxChars t) (MaxInputTokens t) (UsedChars t) (UsedTokens t) (EstimatedTokens t + bt_EstimatedTokens bt)
    (if truncated then SavedTokens t + bt_SavedTokens bt else SavedTokens t)
    (if bt_EstimatedTokens bt <=? 0 then Audit t else audit_add (tokenAuditCategory name) (bt_EstimatedTokens bt) (Audit t))
    (Included t ++ [name]) (Omitted t) (if truncated then Truncated t ++ [name] else Truncated t) (Compressed t)
    (Blocks t ++ [bt]) (CoreOverflow t) (MandatoryTokens t) (MandatoryBudgetTokens t) (MandatoryDeficitTokens t).

(** What a pinned block that does not fit is cut to. *)
Definition pinnedLimit (maxChars maxTokens used usedTokens : Z) : Z :=
  let remaining := maxChars - used in
  let tokenRemaining := (maxTokens - usedTokens) * 4 in
  let remaining := if (0 <? tokenRemaining) && (tokenRemaining <? remaining) then tokenRemaining else remaining in
  if remaining <=? 0 then maxChars else remaining.

Definition includeBlock (name : string) (block : ContextBlock) (original content : string) (truncated : bool) (tokens : Z)
    (mandatory : bool) (st : buildState) (t : ContextTrace) : buildState :=
  let estimated := if mandatory then tokens else estimateContextTokens content in
  let bt := mkBlockTrace name (cb_Role block) (cb_Pinned block) (slen original) (slen content) estimated
              (if truncated then tokens - estimateContextTokens content else 0) (if truncated then "truncated" else "included") in
  mkBuildState (bs_messages st ++ [mkChatMessage (cb_Role block) content "" []]) (bs_used st + slen content)
    (bs_usedTokens st + estimated) (noteIncluded name bt truncated t).

Definition placeBlock (req : AssembleRequest) (maxChars maxTokens : Z) (st : buildState) (block : ContextBlock) : buildState :=
  let content := TrimSpace (cb_Content block) in
  if (content =? "")%string then st
  else
    let name := displayName block in
    let tokens := blockTokens req name content in
    let mandatory := isMandatoryRuleBlock name in
    let bt status saved := mkBlockTrace name (cb_Role block) (cb_Pinned block) (slen content) 0 0 saved status in
    let t := if mandatory then noteMandatory maxTokens (bs_usedTokens st) tokens (bs_trace st) else bs_trace st in
    if (maxChars <? bs_used st + slen content) || (maxTokens <? bs_usedTokens st + tokens) then
      if mandatory then
        let deficit := bs_usedTokens st + tokens - maxTokens in
        let charOverflow := bs_used st + slen content - maxChars in
        let deficit := if 0 <? charOverflow
                       then (if deficit <? estimateContextTokens (repeat_x charOverflow)
                             then estimateContextTokens (repeat_x charOverflow) else deficit)
                       else deficit in
        mkBuildState (bs_messages st) (bs_used st) (bs_usedTokens st) (noteOverflow deficit (bt "core_overflow"%string 0) t)
      else if negb (cb_Pinned block) then
        mkBuildState (bs_messages st) (bs_used st) (bs_usedTokens st) (noteOmitted name (bt "omitted"%string tokens) t)
      else
        let remaining := pinnedLimit maxChars maxTokens (bs_used st) (bs_usedTokens st) in
        if remaining <? slen content then includeBlock name block content (truncateRunes content remaining) true tokens mandatory st t
        else includeBlock name block content content false tokens mandatory st t
    else includeBlock name block content content false tokens mandatory st t.

Record ContextAssembler := mkAssembler { as_MaxChars : Z; as_MaxInputTokens : Z }.

Definition limits (a : ContextAssembler) (req : AssembleRequest) : Z * Z :=
  let maxChars := if 0 <? ar_MaxInputChars req then ar_MaxInputChars req else as_MaxChars a in
  let maxTokens := if 0 <? ar_MaxInputTokens req then ar_MaxInputTokens req else as_MaxInputTokens a in
  if (maxTokens <=? 0) && (maxChars <=? 0) then (defaultMaxInputChars, defaultMaxInputTokens)
  else if maxTokens <=? 0 then (maxChars, estimateContextTokens (repeat_x maxChars))
  else if maxChars <=? 0 then (maxTokens * 4, maxTokens)
  else (maxChars, maxTokens).

Definition dedupeTrace (ts : list ContextBlockTrace) (maxChars maxTokens : Z) : ContextTrace :=
  mkContextTrace maxChars maxTokens 0 0 0 (sum_by bt_SavedTokens ts) (λ _, 0) []
    (bt_Name <$> filter (λ t, bt_Status t = "omitted"%string) ts) []
    (bt_Name <$> filter (λ t, bt_Status t = "compressed"%string) ts) ts false 0 0 0.

Definition Build (a : ContextAssembler) (req : AssembleRequest) : list ChatMessage * ContextTrace :=
  let '(maxChars, maxTokens) := limits a req in
  let st := foldl (placeBlock req maxChars maxTokens)
              (mkBuildState [] 0 0 (dedupeTrace (dedupeContextBlocks (ar_ContextBlocks req)).2 maxChars maxTokens))
              (orderedBlocks req) in
  let t := bs_trace st in
  (bs_messages st,
   mkContextTrace (MaxChars t) (MaxInputTokens t) (bs_used st) (bs_usedTokens st) (EstimatedTokens t) (SavedTokens t) (Audit t)
     (Included t) (Omitted t) (Truncated t) (Compressed t) (Blocks t) (CoreOverflow t) (MandatoryTokens t)
     (MandatoryBudgetTokens t) (MandatoryDeficitTokens t)).
(** ** What becomes of a block *)

(** A block is blank, shown (whole or cut), dropped, or a mandatory rule that did not fit. *)
Inductive outcome := Blank | Shown (content : string) (cut : bool) | Dropped | Overflowed.

(** The bytes that a pinned block is cut to: those left, or four for each token left when
    that is less; and when no byte is left, the whole limit. *)
Definition cutLimit (maxChars maxTokens used usedTokens : Z) : Z :=
  let left := maxChars - used in
  let tokensLeft := maxTokens - usedTokens in
  if decide (left ≤ 0) then maxChars else if decide (tokensLeft ≤ 0) then left else Z.min left (4 * tokensLeft).

(** [c] is the longest prefix of whole characters within [limit] bytes. *)
Definition longestPrefix (content : string) (limit : Z) (c : string) : Prop :=
  ∃ n, c = of_runes (take n (runes content)) ∧ slen c ≤ limit ∧
    ((n < length (runes content))%nat → limit < slen (of_runes (take (S n) (runes content)))).

(** The outcome of a block when the messages before it have [used] bytes and [usedTokens]
    tokens. *)
Definition outcomeOf (req : AssembleRequest) (maxChars maxTokens used usedTokens : Z) (b : ContextBlock) (o : outcome) : Prop :=
  let content := TrimSpace (cb_Content b) in
  let name := displayName b in
  let mandatory := isMandatoryRuleBlock name = true in
  let pinned := cb_Pinned b = true in
  let fits := used + slen content ≤ maxChars ∧ usedTokens + blockTokens req name content ≤ maxTokens in
  let limit := cutLimit maxChars maxTokens used usedTokens in
  match o with
  | Blank => content = ""%string
  | Shown c false => content ≠ ""%string ∧ c = content ∧ (fits ∨ (¬ mandatory ∧ pinned ∧ slen content ≤ limit))
  | Shown c true => content ≠ ""%string ∧ ¬ fits ∧ ¬ mandatory ∧ pinned ∧ limit < slen content ∧ longestPrefix content limit c
  | Dropped => content ≠ ""%string ∧ ¬ fits ∧ ¬ mandatory ∧ ¬ pinned
  | Overflowed => content ≠ ""%string ∧ ¬ fits ∧ mandatory
  end.

Definition shownText (x : ContextBlock * outcome) : option string := match x.2 with Shown c _ => Some c | _ => None end.
Definition messageOf (x : ContextBlock * outcome) : option ChatMessage := (λ c, mkChatMessage (cb_Role x.1) c "" []) <$> shownText x.
Definition charsOf (x : ContextBlock * outcome) : Z := match shownText x with Some c => slen c | None => 0 end.
Definition tokensOf (req : AssembleRequest) (x : ContextBlock * outcome) : Z :=
  match shownText x with Some c => blockTokens req (displayName x.1) c | None => 0 end.
Definition categoryTokens (req : AssembleRequest) (c : category) (x : ContextBlock * outcome) : Z :=
  if decide (tokenAuditCategory (displayName x.1) = c) then tokensOf req x else 0.
Definition nameIf (p : outcome → bool) (x : ContextBlock * outcome) : option string := if p x.2 then Some (displayName x.1) else None.
Definition isShown (o : outcome) : bool := match o with Shown _ _ => true | _ => false end.
Definition isCut (o : outcome) : bool := match o with Shown _ true => true | _ => false end.
Definition isDropped (o : outcome) : bool := match o with Dropped => true | _ => false end.
Definition isOverflowed (o : outcome) : bool := match o with Overflowed => true | _ => false end.

(** Each block after those before it. *)
Inductive chain (req : AssembleRequest) (maxChars maxTokens : Z) : Z → Z → list (ContextBlock * outcome) → Prop :=
| chain_nil used usedTokens : chain req maxChars maxTokens used usedTokens []
| chain_cons used usedTokens b o xs : outcomeOf req maxChars maxTokens used usedTokens b o →
    chain req maxChars maxTokens (used + charsOf (b, o)) (usedTokens + tokensOf req (b, o)) xs → chain req maxChars maxTokens used usedTokens ((b, o) :: xs).

Lemma takeRunes_spec maxBytes rs : ∀ used, used ≤ maxBytes → ∃ n, takeRunes maxBytes used rs = take n rs ∧
  used + zlen (concat (encode_rune <$> take n rs)) ≤ maxBytes ∧
  ((n < length rs)%nat → maxBytes < used + zlen (concat (encode_rune <$> take (S n) rs))).
Proof.
  assert (∀ r l, zlen (concat (encode_rune <$> r :: l)) = zlen (encode_rune r) + zlen (concat (encode_rune <$> l))) as Hcons.
  { intros r l. unfold zlen. rewrite fmap_cons. cbn [concat]. rewrite length_app. lia. }
  induction rs as [|r rs IH]; intros used Hle; cbn [takeRunes]; cbv zeta.
  { exists O. split_and!; [done|unfold zlen; cbn; lia|cbn; lia]. }
  destruct (Z.ltb_spec maxBytes (used + zlen (encode_rune r))).
  - exists O. change (take 0 (r :: rs)) with (@nil Z). change (take 1 (r :: rs)) with [r]. rewrite Hcons.
    change (zlen (concat (encode_rune <$> []))) with 0. split_and!; [done|lia|lia].
  - destruct (IH (used + zlen (encode_rune r))) as (n & -> & H1 & H2); [lia|]. exists (S n).
    change (take (S n) (r :: rs)) with (r :: take n rs). change (take (S (S n)) (r :: rs)) with (r :: take (S n) rs). rewrite !Hcons.
    split_and!; [done|lia|]. intros Hn. specialize (H2 ltac:(cbn in Hn; lia)). lia.
Qed.

Lemma truncateRunes_longest content limit : 0 < limit → limit < slen content → longestPrefix content limit (truncateRunes content limit).
Proof.
  intros Hpos Hlt. unfold truncateRunes. destruct (Z.leb_spec limit 0), (Z.leb_spec (slen content) limit); try lia. cbn [orb].
  destruct (takeRunes_spec limit (runes content) 0 ltac:(lia)) as (n & E & H1 & H2). rewrite E. exists n. rewrite !slen_of_runes.
  split_and!; [done|lia|]. intros Hn. specialize (H2 Hn). lia.
Qed.

Lemma pinnedLimit_cut maxChars maxTokens used usedTokens : pinnedLimit maxChars maxTokens used usedTokens = cutLimit maxChars maxTokens used usedTokens.
Proof. unfold pinnedLimit, cutLimit. cbv zeta. repeat case_match; bool_prop; lia. Qed.

Lemma cutLimit_pos maxChars maxTokens used usedTokens : 0 < maxChars → 0 < cutLimit maxChars maxTokens used usedTokens.
Proof. intros. unfold cutLimit. cbv zeta. repeat case_match; lia. Qed.

Lemma estimate_pos content : content ≠ ""%string → 0 < estimateContextTokens content.
Proof.
  unfold estimateContextTokens. intros Hne%String.eqb_neq. rewrite Hne. cbv zeta.
  destruct (Z.leb_spec (zlen (filter (λ r, ¬ r < 128) (runes content)) + zlen (filter (λ r, r < 128) (runes content)) `quot` 4) 0); lia.
Qed.

Lemma estimate_nonneg content : 0 ≤ estimateContextTokens content.
Proof. destruct (decide (content = ""%string)) as [->|Hne]; [done|]. pose proof (estimate_pos _ Hne). lia. Qed.

Lemma blockTokens_nonneg req name content : 0 ≤ blockTokens req name content.
Proof. unfold blockTokens. pose proof (estimate_nonneg content). repeat case_match; lia. Qed.

Lemma repeat_x_nonempty n : 0 < n → repeat_x n ≠ ""%string.
Proof. unfold repeat_x. intros H. destruct (Z.to_nat n) eqn:E; [lia|]. done. Qed.

(** What the outcome [o] of block [b] adds to the messages and to the books. *)
Record entered (req : AssembleRequest) (st st' : buildState) (xs : list (ContextBlock * outcome)) : Prop := mkEntered {
  en_messages : bs_messages st' = bs_messages st ++ omap messageOf xs;
  en_chars : bs_used st' = bs_used st + sum_by charsOf xs;
  en_tokens : bs_usedTokens st' = bs_usedTokens st + sum_by (tokensOf req) xs;
  en_audit : ∀ c, Audit (bs_trace st') c = Audit (bs_trace st) c + sum_by (categoryTokens req c) xs;
  en_included : Included (bs_trace st') = Included (bs_trace st) ++ omap (nameIf isShown) xs;
  en_truncated : Truncated (bs_trace st') = Truncated (bs_trace st) ++ omap (nameIf isCut) xs;
  en_omitted : Omitted (bs_trace st') = Omitted (bs_trace st) ++ omap (nameIf isDropped) xs;
  en_overflow : CoreOverflow (bs_trace st') = CoreOverflow (bs_trace st) || existsb (λ x, isOverflowed x.2) xs
}.

Lemma entered_refl req st : entered req st st [].
Proof. split; cbn; rewrite ?app_nil_r, ?Z.add_0_r, ?orb_false_r; try done. intros. lia. Qed.

Lemma entered_trans req st1 st2 st3 xs ys : entered req st1 st2 xs → entered req st2 st3 ys → entered req st1 st3 (xs ++ ys).
Proof.
  intros [] []. split; [| | |intros c| | | |]; rewrite ?omap_app, ?sum_by_app, ?existsb_app.
  - rewrite en_messages1, en_messages0. by rewrite (assoc_L (++)).
  - lia.
  - lia.
  - rewrite en_audit1, en_audit0. lia.
  - rewrite en_included1, en_included0. by rewrite (assoc_L (++)).
  - rewrite en_truncated1, en_truncated0. by rewrite (assoc_L (++)).
  - rewrite en_omitted1, en_omitted0. by rewrite (assoc_L (++)).
  - rewrite en_overflow1, en_overflow0. by rewrite orb_assoc.
Qed.

(** A block that is shown, the trace [t] with the mandatory counters noted. *)
Lemma includeBlock_entered req b original c (cut : bool) (tokens : Z) (mandatory : bool) st t :
  Audit t = Audit (bs_trace st) → Included t = Included (bs_trace st) → Truncated t = Truncated (bs_trace st) → Omitted t = Omitted (bs_trace st) →
  CoreOverflow t = CoreOverflow (bs_trace st) → (if mandatory then tokens else estimateContextTokens c) = blockTokens req (displayName b) c →
  entered req st (includeBlock (displayName b) b original c cut tokens mandatory st t) [(b, Shown c cut)].
Proof.
  intros EA EI ET EO EC Htok. unfold includeBlock, noteIncluded. rewrite Htok. pose proof (blockTokens_nonneg req (displayName b) c).
  split; cbn [bs_messages bs_used bs_usedTokens bs_trace Audit Included Truncated Omitted CoreOverflow bt_EstimatedTokens].
  - done.
  - unfold charsOf, sum_by. cbn. lia.
  - unfold tokensOf, sum_by. cbn. lia.
  - intros k. rewrite EA. unfold categoryTokens, tokensOf, sum_by, audit_add. cbn [foldr shownText fst snd fmap list_fmap].
    destruct (Z.leb_spec (blockTokens req (displayName b) c) 0); repeat case_decide; subst; try done; lia.
  - by rewrite EI.
  - rewrite ET. destruct cut; cbn; [done|by rewrite app_nil_r].
  - rewrite EO. cbn. by rewrite app_nil_r.
  - rewrite EC. cbn. by rewrite orb_false_r.
Qed.

(** The deficit is positive exactly when a mandatory rule overflowed. *)
Definition deficitNoted (st : buildState) : Prop := CoreOverflow (bs_trace st) = true ↔ 0 < MandatoryDeficitTokens (bs_trace st).

(** The books of a block that is not shown. *)
Ltac books := split; cbn; rewrite ?app_nil_r, ?orb_true_r, ?orb_false_r, ?Z.add_0_r; try done; intros; unfold categoryTokens; case_decide; cbn; lia.

Lemma placeBlock_step req maxChars maxTokens st b : 0 < maxChars →
  let st' := placeBlock req maxChars maxTokens st b in
  ∃ o, outcomeOf req maxChars maxTokens (bs_used st) (bs_usedTokens st) b o ∧ entered req st st' [(b, o)] ∧ (deficitNoted st → deficitNoted st').
Proof.
  intros Hmax st'. subst st'. unfold placeBlock. pose proof (blockTokens_nonneg req (displayName b) (TrimSpace (cb_Content b))) as Htok.
  assert (∀ t, isMandatoryRuleBlock (displayName b) = false → estimateContextTokens t = blockTokens req (displayName b) t) as Hest.
  { intros t E. unfold blockTokens. by rewrite E. }
  set (content := TrimSpace (cb_Content b)) in *. destruct (String.eqb_spec content "") as [Eblank|Eblank].
  { exists Blank. split; [done|]. split; [books|done]. }
  destruct (_ || _) eqn:Eover; cycle 1.
  { apply orb_false_iff in Eover as [E1 E2]. exists (Shown content false). split; [|split].
    - unfold outcomeOf. fold content. apply Z.ltb_ge in E1, E2. split_and!; [done|done|left; lia].
    - apply includeBlock_entered; try by destruct (isMandatoryRuleBlock _). destruct (isMandatoryRuleBlock _) eqn:E; [done|by apply Hest].
    - unfold deficitNoted. by destruct (isMandatoryRuleBlock _). }
  assert (¬ (bs_used st + slen content ≤ maxChars ∧ bs_usedTokens st + blockTokens req (displayName b) content ≤ maxTokens)) as Hfit.
  { apply orb_true_iff in Eover. rewrite !Z.ltb_lt in Eover. lia. }
  destruct (isMandatoryRuleBlock (displayName b)) eqn:Emand.
  { exists Overflowed. split; [done|]. split; [books|].
    intros Hd. unfold deficitNoted in *. cbn. split; [intros _|done]. set (deficit := if 0 <? _ then _ else _).
    assert (0 < deficit) as Hdef; [|case_match; lia].
    subst deficit. pose proof (λ n Hn, estimate_pos _ (repeat_x_nonempty n Hn)) as Hpos.
    specialize (Hpos (bs_used st + slen content - maxChars)). repeat case_match; lia. }
  destruct (cb_Pinned b) eqn:Epin; cbn [negb]; cycle 1.
  { exists Dropped. split; [unfold outcomeOf; rewrite Emand, Epin; done|]. split; [books|done]. }
  rewrite pinnedLimit_cut. pose proof (cutLimit_pos maxChars maxTokens (bs_used st) (bs_usedTokens st) Hmax). set (limit := cutLimit _ _ _ _) in *.
  destruct (Z.ltb_spec limit (slen content)) as [Hcut|Hcut].
  - exists (Shown (truncateRunes content limit) true). split; [|split; [by apply includeBlock_entered; try apply Hest|done]].
    unfold outcomeOf. rewrite Emand, Epin. fold content. fold limit. split_and!; [done..|by apply truncateRunes_longest].
  - exists (Shown content false). split; [|split; [by apply includeBlock_entered; try apply Hest|done]].
    unfold outcomeOf. rewrite Emand, Epin. fold content. fold limit. split_and!; [done|done|]. right. split_and!; [done|done|lia].
Qed.

Lemma placeBlocks_chain req maxChars maxTokens blocks : 0 < maxChars → ∀ st,
  let st' := foldl (placeBlock req maxChars maxTokens) st blocks in
  ∃ xs, xs.*1 = blocks ∧ chain req maxChars maxTokens (bs_used st) (bs_usedTokens st) xs ∧ entered req st st' xs ∧ (deficitNoted st → deficitNoted st').
Proof.
  intros Hmax. induction blocks as [|b blocks IH]; intros st; cbn [foldl]; cbv zeta.
  { exists []. split_and!; [done|constructor|apply entered_refl|done]. }
  destruct (placeBlock_step req maxChars maxTokens st b Hmax) as (o & Ho & He & Hd).
  destruct (IH (placeBlock req maxChars maxTokens st b)) as (xs & Hxs & Hc & He' & Hd').
  exists ((b, o) :: xs). split_and!; [cbn; by f_equal| |by apply (entered_trans _ _ _ _ [(b, o)] xs He He')|by intros; apply Hd', Hd].
  constructor; [done|]. rewrite (en_chars _ _ _ _ He), (en_tokens _ _ _ _ He) in Hc. unfold sum_by in Hc. cbn [foldr fmap list_fmap] in Hc.
  by rewrite !Z.add_0_r in Hc.
Qed.


Lemma category_empty : tokenAuditCategory "" = CatProfile.
Proof. unfold tokenAuditCategory. rewrite ToLower_ascii by reflexivity. reflexivity. Qed.


Lemma mandatory_ordered req b :
  b ∈ ar_ContextBlocks req → isMandatoryRuleBlock (cb_Name b) = true → TrimSpace (cb_Content b) ≠ ""%string →
  withRole b ∈ orderedBlocks req ∧ displayName (withRole b) = cb_Name b.
Proof.
  intros Hin Hm Hne.
  assert ((cb_Name b =? "")%string = false) as Hname.
  { apply String.eqb_neq. intros E. rewrite E in Hm. unfold isMandatoryRuleBlock in Hm. by rewrite category_empty in Hm. }
  split; [|unfold displayName, withRole; destruct (cb_Role b =? _)%string; cbn [cb_Name]; by rewrite Hname].
  unfold orderedBlocks. apply elem_of_app. left. rewrite elem_of_sort_stable. apply elem_of_app. right.
  apply list_elem_of_fmap. exists b. split; [done|]. apply list_elem_of_filter. split; [done|].
  unfold dedupeContextBlocks. generalize (@nil (category * string)). unfold isMandatoryRuleBlock in Hm. bool_prop.
  induction (ar_ContextBlocks req) as [|b' bs IH]; intros seen; [by apply not_elem_of_nil in Hin|]. cbn [dedupeFrom].
  apply elem_of_cons in Hin as [<-|Hin].
  - assert (dedupeKey b = None) as ->.
    { unfold dedupeKey. rewrite Hm, orb_true_r; done. }
    destruct (dedupeFrom seen bs). by left.
  - destruct (dedupeKey b') as [key|].
    + case_decide; [specialize (IH Hin seen)|specialize (IH Hin (key :: seen))]; destruct (dedupeFrom _ bs); [done|by right].
    + specialize (IH Hin seen). destruct (dedupeFrom seen bs). by right.
Qed.

(** *** The limits *)

Definition firstPositive (l : list Z) : option Z := head (filter (λ n, 0 < n) l).

(** The limits of the request, or the assembler's; a missing one follows from the other at
    four bytes a token, and both have defaults. *)
Definition askedLimits (a : ContextAssembler) (req : AssembleRequest) : Z * Z :=
  match firstPositive [ar_MaxInputChars req; as_MaxChars a], firstPositive [ar_MaxInputTokens req; as_MaxInputTokens a] with
  | None, None => (24000, 6000)
  | Some chars, None => (chars, Z.max 1 (chars `div` 4))
  | None, Some tokens => (4 * tokens, tokens)
  | Some chars, Some tokens => (chars, tokens)
  end.

Lemma runes_repeat_x n : runes (repeat_x n) = replicate (Z.to_nat n) 120.
Proof.
  unfold runes, segments, repeat_x. rewrite bytes_of_bytes. set (k := Z.to_nat n). clearbody k.
  rewrite (decoded_det _ (replicate k (120, ["x"%char]))); [by rewrite fmap_replicate| |done].
  induction k as [|k IH]; cbn [replicate]; [constructor|]. apply (decoded_cons 120 ["x"%char]); [done|done|exact IH].
Qed.

Lemma estimate_repeat_x n : 0 < n → estimateContextTokens (repeat_x n) = Z.max 1 (n `div` 4).
Proof.
  intros Hn. unfold estimateContextTokens. rewrite (proj2 (String.eqb_neq _ _) (repeat_x_nonempty n Hn)), runes_repeat_x. cbv zeta.
  assert (∀ k, filter (λ r, r < 128) (replicate k 120) = replicate k 120 ∧ filter (λ r, ¬ r < 128) (replicate k 120) = []) as Hf.
  { intros k. induction k as [|k [IH1 IH2]]; cbn [replicate]; [done|]. split; [rewrite filter_cons_True by lia; by rewrite IH1|rewrite filter_cons_False by lia; done]. }
  destruct (Hf (Z.to_nat n)) as [-> ->]. unfold zlen. rewrite length_replicate, Z2Nat.id, Z.quot_div_nonneg by lia. cbn [length].
  pose proof (Z.div_pos n 4). destruct (Z.leb_spec (Z.of_nat 0 + n `div` 4) 0); lia.
Qed.

Lemma limits_asked a req : limits a req = askedLimits a req ∧ 0 < (limits a req).1.
Proof.
  assert (∀ x y, firstPositive [x; y] = if 0 <? x then Some x else if 0 <? y then Some y else None) as Hf.
  { intros x y. unfold firstPositive. rewrite !filter_cons. repeat case_decide; destruct (Z.ltb_spec 0 x), (Z.ltb_spec 0 y); try lia; done. }
  unfold limits, askedLimits. rewrite !Hf. clear Hf. generalize (ar_MaxInputChars req) (as_MaxChars a) (ar_MaxInputTokens req) (as_MaxInputTokens a).
  intros c1 c2 k1 k2. cbv zeta. destruct (Z.ltb_spec 0 c1), (Z.ltb_spec 0 k1); [|destruct (Z.ltb_spec 0 k2)|destruct (Z.ltb_spec 0 c2)|destruct (Z.ltb_spec 0 c2), (Z.ltb_spec 0 k2)].
  all: repeat match goal with |- context [?x <=? 0] => destruct (Z.leb_spec x 0); try lia end; cbn [andb fst]; rewrite ?estimate_repeat_x by lia.
  all: split; [try done; f_equal; lia|lia || done].
Qed.

(** *** The order *)





Lemma Build_spec a req :
  let '(messages, t) := Build a req in
  ∃ xs, xs.*1 = orderedBlocks req ∧ chain req (askedLimits a req).1 (askedLimits a req).2 0 0 xs ∧ messages = omap messageOf xs ∧
    UsedChars t = sum_by charsOf xs ∧ UsedTokens t = sum_by (tokensOf req) xs ∧ (∀ c, Audit t c = sum_by (categoryTokens req c) xs) ∧
    Included t = omap (nameIf isShown) xs ∧ Truncated t = omap (nameIf isCut) xs ∧ omap (nameIf isDropped) xs `suffix_of` Omitted t ∧
    CoreOverflow t = existsb (λ x, isOverflowed x.2) xs ∧ (CoreOverflow t = true ↔ 0 < MandatoryDeficitTokens t).
Proof.
  unfold Build. destruct (limits_asked a req) as [<- Hc]. destruct (limits a req) as [maxChars maxTokens]. cbn [fst snd] in *.
  set (st0 := mkBuildState _ _ _ _). destruct (placeBlocks_chain req maxChars maxTokens (orderedBlocks req) Hc st0) as (xs & Hxs & Hch & [] & Hd).
  cbv zeta in *. set (st := foldl _ _ _) in *. clearbody st. exists xs. cbn [CoreOverflow UsedChars UsedTokens Audit Included Truncated Omitted MandatoryDeficitTokens].
  split_and!; try done; [eexists; exact en_omitted0|]. by apply Hd.
Qed.


Lemma chain_outcome req maxChars maxTokens used usedTokens xs b o :
  chain req maxChars maxTokens used usedTokens xs → (b, o) ∈ xs → ∃ u k, outcomeOf req maxChars maxTokens u k b o.
Proof. induction 1 as [|u k b' o' xs Ho Hc IH]; [by intros ?%elem_of_nil|]. intros [[= -> ->]|Hin]%elem_of_cons; eauto. Qed.

(** C36. Mandatory rules are never dropped or cut silently: unless the trace
    reports [CoreOverflow], with a positive token deficit, the messages contain every
    mandatory rule block of the request, whole and under its role. *)
Theorem mandatory_rules_whole a req b :
  b ∈ ar_ContextBlocks req → isMandatoryRuleBlock (cb_Name b) = true → TrimSpace (cb_Content b) ≠ ""%string →
  let '(messages, t) := Build a req in
  mkChatMessage (cb_Role (withRole b)) (TrimSpace (cb_Content b)) "" [] ∈ messages ∨
  (CoreOverflow t = true ∧ 0 < MandatoryDeficitTokens t).
Proof.
  intros Hin Hm Hne. pose proof (Build_spec a req) as H. destruct (Build a req) as [messages t].
  destruct H as (xs & Hxs & Hch & -> & _ & _ & _ & _ & _ & _ & Ho & Hd).
  destruct (mandatory_ordered req b Hin Hm Hne) as [Hord Hname].
  assert (cb_Content (withRole b) = cb_Content b) as Hcont by (unfold withRole; by case_match).
  rewrite <- Hxs in Hord. apply list_elem_of_fmap in Hord as ([b' o] & Hb & Hx). cbn in Hb. subst b'.
  destruct (chain_outcome _ _ _ _ _ _ _ _ Hch Hx) as (u & k & Hout). unfold outcomeOf in Hout. rewrite Hname, Hcont, Hm in Hout.
  destruct o as [|c []| |]; [done|naive_solver| |naive_solver|].
  - left. destruct Hout as (_ & -> & _). apply list_elem_of_omap. by eexists.
  - right. assert (CoreOverflow t = true) as Ht; [|split; [done|by apply Hd]].
    rewrite Ho. apply existsb_exists. eexists. split; [by apply list_elem_of_In|done].
Qed.

End Assembler.

(** ** The rule planner (rule_planner.go) *)

Record ToolDefinition := mkToolDefinition {
  td_Type : string;
  td_Name : string;
  td_Description : string;
  td_Parameters : RawMessage;
  td_Strict : bool
}.

Definition defaultRuleSafetyMarginTokens : Z := 256.

(** [Rules] is [None] for a nil slice. *)
Record RulePlanningState := mkPlanningState {
  ps_SystemPrompt : string;
  ps_Task : string;
  ps_Mode : string;
  ps_RiskLevel : string;
  ps_Tags : list string;
  ps_UsedToolNames : list string;
  ps_AvailableTools : list ToolDefinition;
  ps_BaseMessages : list ChatMessage;
  ps_Transcript : list ChatMessage;
  ps_MaxInputTokens : Z;
  ps_ContextWindow : Z;
  ps_ReservedOutput : Z;
  ps_SafetyMargin : Z;
  ps_MaxRuleTokens : Z;
  ps_ProviderType : string;
  ps_Model : string;
  ps_Rules : option (list Rule)
}.

Record RuleBudget := mkRuleBudget {
  ContextWindowTokens : Z;
  ReservedOutputTokens : Z;
  SafetyMarginTokens : Z;
  InputBudgetTokens : Z;
  FixedTokens : Z;
  ToolSchemaTokens : Z;
  TranscriptTokens : Z;
  AvailableRuleTokens : Z
}.

Record RulePlan := mkRulePlan { plan_Rules : list Rule; plan_Trace : Trace; plan_Budget : RuleBudget }.

Definition estimateMessagesTokens (messages : list ChatMessage) : Z :=
  sum_by (λ m, estimateContextTokens (msg_Content m)) messages.

Section RulePlanner.
Context {UT : UnicodeTables} `{PolicyDecoder} (encodingForModel : string → option (string → list Z)).
(** [json.Marshal] of a tool definition, which fails on malformed [Parameters]. *)
Context (marshal_tool : ToolDefinition → option string).

Definition estimateToolSchemaTokens (tools : list ToolDefinition) : Z :=
  sum_by (λ tool, match marshal_tool tool with
                  | Some data => estimateContextTokens data
                  | None => estimateContextTokens (TrimSpace (td_Name tool) ++ " " ++ TrimSpace (td_Description tool))
                  end) tools.

Definition inputBudget (st : RulePlanningState) : Z :=
  let input := ps_MaxInputTokens st in
  let input :=
    if 0 <? ps_ContextWindow st then
      let windowInput := ps_ContextWindow st - ps_ReservedOutput st in
      if (input <=? 0) || ((0 <? windowInput) && (windowInput <? input)) then windowInput else input
    else input in
  if input <=? 0 then defaultMaxInputTokens else input.

Definition calculateRuleBudget (st : RulePlanningState) : RuleBudget :=
  let margin := if ps_SafetyMargin st <=? 0 then defaultRuleSafetyMarginTokens else ps_SafetyMargin st in
  let input := inputBudget st in
  let fixed := estimateMessagesTokens (ps_BaseMessages st) in
  let transcript := estimateMessagesTokens (ps_Transcript st) in
  let schema := estimateToolSchemaTokens (ps_AvailableTools st) in
  let available := input - fixed - transcript - schema - margin in
  let available := if (0 <? ps_MaxRuleTokens st) && (ps_MaxRuleTokens st <? available) then ps_MaxRuleTokens st else available in
  let available := if available <? 0 then 0 else available in
  mkRuleBudget (ps_ContextWindow st) (ps_ReservedOutput st) margin input fixed schema transcript available.

Definition addRuleCost (providerType model : string) (costs : gmap string Z) (rule : Rule) : gmap string Z :=
  let tokens := Tokens (Count encodingForModel providerType model (rule_Content rule)) in
  if 0 <? tokens then <[rule_ID rule := tokens]> costs else costs.

Definition modelRuleTokenCosts (providerType model : string) (rules : list Rule) : gmap string Z :=
  foldl (addRuleCost providerType model) ∅ rules.

(** The rules of a plan: the platform's when the state has none. *)
Definition plannedRules (st : RulePlanningState) : list Rule :=
  match ps_Rules st with
  | Some rules => rules
  | None => match RuntimeRules [] true with Ok rules => rules | Err _ => [] end
  end.

Definition planContext (st : RulePlanningState) : LoadContext :=
  mkLoadContext (ps_Mode st) (ps_UsedToolNames st) (ps_RiskLevel st)
    (ps_Tags st ++ match ps_UsedToolNames st with [] => [] | _ => ["tool_used"%string] end)
    (ps_Task st) (ps_SystemPrompt st) (AvailableRuleTokens (calculateRuleBudget st))
    (modelRuleTokenCosts (ps_ProviderType st) (ps_Model st) (plannedRules st)).

Definition Plan (st : RulePlanningState) : RulePlan :=
  let '(selected, trace) := SelectOptionalRules (plannedRules st) (planContext st) in
  mkRulePlan selected trace (calculateRuleBudget st).

Definition ruleMessages (items : list Rule) : list ChatMessage :=
  (λ content, mkChatMessage RoleSystem content "" []) <$>
    filter (λ content, content ≠ ""%string) (TrimSpace ∘ rule_Content <$> items).

(** What one rule costs by the model's tokenizer. *)
Definition modelCost (st : RulePlanningState) (r : Rule) : Z :=
  let tokens := Tokens (Count encodingForModel (ps_ProviderType st) (ps_Model st) (rule_Content r)) in
  if 0 <? tokens then tokens else ruleCost r.

Lemma modelCosts_lookup pt model rules costs id :
  (∀ r, r ∈ rules → rule_ID r ≠ id) →
  foldl (addRuleCost pt model) costs rules !! id = costs !! id.
Proof.
  revert costs. induction rules as [|r rules IH]; intros costs Hid; [done|]. cbn [foldl].
  rewrite IH by (intros r' Hr'; apply Hid; by right). unfold addRuleCost. cbv zeta. case_match; [|done].
  apply lookup_insert_ne, Hid. by left.
Qed.

Lemma candidateCost_model st r :
  NoDup (rule_ID <$> plannedRules st) → r ∈ plannedRules st → candidateCost (planContext st) r = modelCost st r.
Proof.
  intros Hnd Hin. unfold candidateCost, planContext, modelCost, modelRuleTokenCosts. cbn [lc_RuleTokenCosts].
  set (n := Tokens (Count encodingForModel (ps_ProviderType st) (ps_Model st) (rule_Content r))). cbv zeta.
  assert (∀ costs, costs !! rule_ID r = None →
    foldl (addRuleCost (ps_ProviderType st) (ps_Model st)) costs (plannedRules st) !! rule_ID r =
    if 0 <? n then Some n else None) as Hf.
  { revert Hnd Hin. induction (plannedRules st) as [|r' rules IH]; intros Hnd Hin costs Hc; [by apply not_elem_of_nil in Hin|].
    apply NoDup_cons in Hnd as [Hnew Hnd]. cbn [foldl]. apply elem_of_cons in Hin as [<-|Hin].
    - rewrite modelCosts_lookup.
      + unfold addRuleCost. fold n. cbv zeta. destruct (0 <? n); [by rewrite lookup_insert_eq|done].
      + intros x Hx E. apply Hnew. rewrite <- E. by apply list_elem_of_fmap_2.
    - apply IH; [done|done|]. unfold addRuleCost. cbv zeta. destruct (0 <? Tokens (Count _ _ _ (rule_Content r'))); [|exact Hc]. rewrite lookup_insert_ne; [exact Hc|].
      intros E. apply Hnew. rewrite E. by apply list_elem_of_fmap_2. }
  rewrite Hf by done. destruct (0 <? n) eqn:E; cbn; [by rewrite E|done].
Qed.

Lemma greedy_subset budget used cs c : c ∈ greedy budget used cs → c ∈ cs.
Proof.
  revert used. induction cs as [|c' cs IH]; intros used; cbn [greedy]; [tauto|].
  case_match; rewrite !elem_of_cons; naive_solver.
Qed.

Lemma messagesTokens_nonneg ms : 0 ≤ estimateMessagesTokens ms.
Proof. apply sum_by_nonneg. intros. apply estimate_nonneg. Qed.

Lemma schemaTokens_nonneg tools : 0 ≤ estimateToolSchemaTokens tools.
Proof. apply sum_by_nonneg. intros. case_match; apply estimate_nonneg. Qed.

Lemma modelCost_pos st r : 1 ≤ modelCost st r.
Proof. unfold modelCost. pose proof (ruleCost_pos r). case_match; bool_prop; lia. Qed.

(** The optional rules of a model turn never push its prompt over the input
    budget: what they cost by the model's tokenizer is within the budget left and within the
    rule limit, and a plan that selects any rule leaves room, in the
    input budget, for the base messages, the transcript, the tool schemas and the safety margin,
    and for the reserved output in the context window when there is one. *)
Theorem rule_plan_within_budget st :
  NoDup (rule_ID <$> plannedRules st) →
  let p := Plan st in
  let b := plan_Budget p in
  let cost := sum_by (modelCost st) (plan_Rules p) in
  (∀ r, r ∈ plan_Rules p → r ∈ plannedRules st ∧ Strength r = RuleOptional ∧ matches r (planContext st) = true) ∧
  EstimatedUsed (plan_Trace p) = cost ∧ 0 ≤ cost ≤ AvailableRuleTokens b ∧
  (0 < ps_MaxRuleTokens st → cost ≤ ps_MaxRuleTokens st) ∧
  (plan_Rules p = [] ∨
   FixedTokens b + TranscriptTokens b + ToolSchemaTokens b + SafetyMarginTokens b + cost ≤ InputBudgetTokens b) ∧
  (0 < ps_ReservedOutput st < ps_ContextWindow st → InputBudgetTokens b + ps_ReservedOutput st ≤ ps_ContextWindow st).
Proof.
  intros Hnd. unfold Plan. pose proof (SelectOptionalRules_spec (plannedRules st) (planContext st)) as Hs.
  destruct (SelectOptionalRules _ _) as [selected trace]. cbv zeta in *. cbn [plan_Rules plan_Trace plan_Budget].
  destruct Hs as (Hsel & _ & Hused & [H0 Hmax] & _).
  set (taken := greedy _ _ _) in *.
  assert (∀ c, c ∈ taken → cand_cost c = modelCost st (cand_rule c) ∧ cand_rule c ∈ plannedRules st ∧
    Strength (cand_rule c) = RuleOptional ∧ matches (cand_rule c) (planContext st) = true) as Htaken.
  { intros c Hc%greedy_subset. unfold ranked in Hc. rewrite elem_of_sort_stable in Hc.
    apply list_elem_of_fmap in Hc as (r & -> & [[? ?] ?]%list_elem_of_filter). cbn. eauto using candidateCost_model. }
  assert (sum_by (modelCost st) selected = sum_by cand_cost taken) as Hcost.
  { rewrite Hsel. clear -Htaken. induction taken as [|c cs IH]; [done|]. cbn [fmap list_fmap sum_by foldr].
    rewrite (proj1 (Htaken c ltac:(left))). f_equal. apply IH. intros. apply Htaken. by right. }
  rewrite Hcost, <- Hused.
  assert (lc_TokenBudget (planContext st) = AvailableRuleTokens (calculateRuleBudget st)) as Hb by done. rewrite Hb in Hmax.
  unfold calculateRuleBudget in *. cbn [AvailableRuleTokens FixedTokens TranscriptTokens ToolSchemaTokens SafetyMarginTokens InputBudgetTokens] in *.
  split_and!; try done.
  - intros r. rewrite Hsel. intros (c & -> & Hc)%list_elem_of_fmap. apply Htaken, Hc.
  - clear -Hmax. repeat case_match; bool_prop; lia.
  - clear -Hmax. intros. repeat case_match; bool_prop; lia.
  - destruct selected as [|r rest]; [by left|right]. 
    assert (0 < EstimatedUsed trace) as Hp.
    { rewrite Hused, <- Hcost. cbn [sum_by foldr]. pose proof (modelCost_pos st r).
      pose proof (sum_by_nonneg (modelCost st) rest (λ r' _, Z.le_trans 0 1 _ ltac:(lia) (modelCost_pos st r'))). unfold sum_by in *. lia. }
    clear -Hmax Hp. repeat case_match; bool_prop; lia.
  - unfold inputBudget. intros. repeat case_match; bool_prop; lia.
Qed.
End RulePlanner.

(** ** Sample requests *)

Definition no_encoding : string → option (string → list Z) := λ _, None.

Definition core_rule : ContextBlock := mkBlock "rule_mandatory.core" "" " Never leak secrets. " false.

Definition sample_assemble : AssembleRequest :=
  mkAssembleRequest 40 20 "" false "" "Summarise the report" [mkBlock "memory" "" "likes tea" false; core_rule] "openai" "gpt-4o".

Lemma mandatory_rules_whole_witness :
  core_rule ∈ ar_ContextBlocks sample_assemble ∧
  let '(messages, t) := Build (UT:=AsciiTables) no_encoding "plan" (mkAssembler 0 0) sample_assemble in
  mkChatMessage (cb_Role (withRole core_rule)) (TrimSpace (cb_Content core_rule)) "" [] ∈ messages ∨
  (CoreOverflow t = true ∧ 0 < MandatoryDeficitTokens t).
Proof.
  assert (core_rule ∈ ar_ContextBlocks sample_assemble) as Hin by (right; left).
  split; [exact Hin|]. apply (mandatory_rules_whole (UT:=AsciiTables) no_encoding "plan" (mkAssembler 0 0) sample_assemble core_rule Hin).
  - vm_compute. reflexivity.
  - vm_compute. discriminate.
Defined.

(** In the sample the rule is shown whole, the memory block is omitted and the pinned task is cut
    to the bytes its last token allows. *)
Example sample_assembled :
  (Build (UT:=AsciiTables) no_encoding "plan" (mkAssembler 0 0) sample_assemble).1 =
  [mkChatMessage RoleUser "Never leak secrets." "" []; mkChatMessage RoleUser "Summ" "" []].
Proof. vm_compute. reflexivity. Qed.

Definition sample_planning : RulePlanningState :=
  mkPlanningState "" "delete the rows" "default" "high" [] ["delete_rows"%string] [] [] [] 4000 8000 1000 0 300 "openai" "gpt-4o"
    (Some DefaultFallbackOptionalRules).

Definition sample_plan : RulePlan := Plan (UT:=AsciiTables) (H:=sample_decoder) no_encoding (λ _, None) sample_planning.

Lemma rule_plan_within_budget_witness :
  (0 < length (plan_Rules sample_plan))%nat ∧
  sum_by (modelCost (UT:=AsciiTables) no_encoding sample_planning) (plan_Rules sample_plan) ≤ 300 ∧
  InputBudgetTokens (plan_Budget sample_plan) + 1000 ≤ 8000.
Proof.
  assert (NoDup (rule_ID <$> plannedRules (H:=sample_decoder) sample_planning)) as Hnd.
  { apply (bool_decide_unpack _). vm_compute. reflexivity. }
  destruct (rule_plan_within_budget (UT:=AsciiTables) (H:=sample_decoder) no_encoding (λ _, None) sample_planning Hnd)
    as (_ & _ & _ & Hmax & _ & Hwin).
  split; [apply Nat.ltb_lt; vm_compute; reflexivity|].
  split; [apply Hmax; vm_compute; reflexivity|apply Hwin; vm_compute; split; reflexivity].
Defined.
