(* ===== verification/Citations.v ===== *)
(** The memory citation block of a final answer (internal/domain/memory/citation.go): its
    removal from what the user sees and the accounting of the cited memories.

    The repository is an interface; [citationLinePattern] is written out as a matcher for its
    one regular expression. *)
From Stdlib Require Import Ascii.
From S2P Require Import Prelude GoStr Fuzzy.
Open Scope Z_scope.

Definition citationTagMark : string := "oai-mem-citation".

(** ** The line pattern

    [^\s*<oai-mem-citation\s+[^>]*\bmemory_id\s*=\s*'([0-9]+)'[^>]*>.*</oai-mem-citation>\s*$],
    with double quotes around the digits. The attributes contain no '>', so they end at the first one;
    the greedy [[^>]*] prefers the last place where the rest matches. *)
Definition re_space (c : ascii) : bool := bool_decide (byte_val c ∈ [9; 10; 12; 13; 32]).
Definition is_digit (c : ascii) : bool := in_range 48 57 (byte_val c).
Definition is_word (c : ascii) : bool :=
  is_digit c || in_range 65 90 (byte_val c) || in_range 97 122 (byte_val c) || (byte_val c =? 95).
Definition gt : ascii := byte_of 62.
Definition dquote : ascii := byte_of 34.

Fixpoint take_while {A} (p : A → bool) (l : list A) : list A :=
  match l with
  | [] => []
  | a :: l => if p a then a :: take_while p l else []
  end.

Definition strip_prefix (p l : list ascii) : option (list ascii) :=
  if decide (take (length p) l = p) then Some (drop (length p) l) else None.

(** [memory_id\s*=\s*'([0-9]+)'] at the head of [l]: the digits. *)
Definition attributeAt (l : list ascii) : option (list ascii) :=
  l ← strip_prefix (bytes "memory_id") l;
  l ← strip_prefix [byte_of 61] (drop_while re_space l);
  l ← strip_prefix [dquote] (drop_while re_space l);
  let digits := take_while is_digit l in
  match digits with
  | [] => None
  | _ => _ ← strip_prefix [dquote] (drop (length digits) l); Some digits
  end.

(** The last place of the attributes where [memory_id] starts at a word boundary; [prev] is the
    byte before [l]. *)
Fixpoint lastAttribute (prev : ascii) (l : list ascii) : option (list ascii) :=
  match l with
  | [] => None
  | c :: rest =>
    match lastAttribute c rest with
    | Some d => Some d
    | None => if is_word prev then None else attributeAt l
    end
  end.

Definition citationLinePattern (line : string) : option (list ascii) :=
  l ← strip_prefix (bytes "<oai-mem-citation") (drop_while re_space (bytes line));
  let attributes := take_while (λ c, negb (Ascii.eqb c gt)) l in
  let body := drop (S (length attributes)) l in
  match attributes with
  | [] => None
  | c :: rest =>
    if re_space c && (length attributes <? length l)%nat &&
       HasSuffix (trim_right_bytes re_space (of_bytes body)) "</oai-mem-citation>"
    then lastAttribute c rest else None
  end.

(** [strconv.ParseInt(digits, 10, 64)] on decimal digits. *)
Definition digits_value (l : list ascii) : Z := foldl (λ acc c, acc * 10 + (byte_val c - 48)) 0 l.
Definition parseID (l : list ascii) : option Z :=
  let id := digits_value l in if (2 ^ 63 - 1 <? id) || (id <=? 0) then None else Some id.

(** ** parseCitationBlock *)

Record citationBlock := mkBlockState {
  cb_kept : list string;
  cb_removed : bool;
  cb_ids : list Z;
  cb_dropped : list string
}.

Definition citationLine (st : citationBlock) (line : string) : citationBlock :=
  if negb (Contains line citationTagMark) then mkBlockState (cb_kept st ++ [line]) (cb_removed st) (cb_ids st) (cb_dropped st)
  else
    match citationLinePattern line ≫= parseID with
    | None => mkBlockState (cb_kept st) true (cb_ids st) (cb_dropped st ++ [TrimSpace line])
    | Some id => mkBlockState (cb_kept st) true (if bool_decide (id ∈ cb_ids st) then cb_ids st else cb_ids st ++ [id]) (cb_dropped st)
    end.

Definition trailing_space (c : ascii) : bool := bool_decide (byte_val c ∈ [32; 9; 13; 10]).

(** The visible text, the cited ids, and the malformed lines of the warnings. *)
Definition parseCitationBlock (finalText : string) : string * list Z * list string :=
  let st := foldl citationLine (mkBlockState [] false [] []) (Split finalText newline) in
  let visible := Join (cb_kept st) nl in
  (if cb_removed st then trim_right_bytes trailing_space visible else visible, cb_ids st, cb_dropped st).

Definition StripCitations (text : string) : string := (parseCitationBlock text).1.1.

(** ** AccountCitations *)

Inductive citationWarning :=
| MalformedLine (line : string)
| AccountingSkipped (err : string)
| NotOwned (id : Z)
| RecordFailed (err : string).

Record CitationOutcome := mkCitationOutcome { VisibleText : string; UpdatedIDs : list Z; Warnings : list citationWarning }.

(** [CitationUsageRepository]: the ids found for the owner, and the update. *)
Record CitationUsageRepository := mkCitationRepository {
  FindByIDs : list Z → result string (list Z);
  MarkUsed : list Z → option string
}.

(** The outcome, and the ids handed to [MarkUsed] when it is called. *)
Definition AccountCitations (finalText : string) (repo : option CitationUsageRepository) : CitationOutcome * option (list Z) :=
  let '(visible, citedIDs, dropped) := parseCitationBlock finalText in
  let warnings := MalformedLine <$> dropped in
  match repo, citedIDs with
  | None, _ | _, [] => (mkCitationOutcome visible [] warnings, None)
  | Some repo, _ =>
    match FindByIDs repo citedIDs with
    | Err e => (mkCitationOutcome visible [] (warnings ++ [AccountingSkipped e]), None)
    | Ok found =>
      let updated := filter (λ id, id ∈ found) citedIDs in
      let warnings := warnings ++ (NotOwned <$> filter (λ id, id ∉ found) citedIDs) in
      match updated with
      | [] => (mkCitationOutcome visible [] warnings, None)
      | _ =>
        match MarkUsed repo updated with
        | None => (mkCitationOutcome visible updated warnings, Some updated)
        | Some e => (mkCitationOutcome visible [] (warnings ++ [RecordFailed e]), Some updated)
        end
      end
    end
  end.

(** ** What the user sees *)

Lemma Contains_iff s p : Contains s p = true ↔ ∃ pre post, s = (pre ++ p ++ post)%string.
Proof.
  split.
  - unfold Contains. destruct (GoStr.Index s p) as [n|] eqn:E; [|done]. intros _.
    destruct (Index_spec _ _ _ E) as (pre & post & -> & _). eauto.
  - intros (pre & post & ->). unfold Contains, GoStr.Index. generalize 0%nat.
    induction pre as [|c pre IH]; intros i.
    + change ("" ++ p ++ post)%string with (p ++ post)%string.
      assert (String.prefix p (p ++ post) = true) as Hp.
      { clear. induction p as [|c p IH]; [by destruct post|]. change (String c p +:+ post)%string with (String c (p +:+ post)).
        cbn [String.prefix]. destruct (ascii_dec c c); [exact IH|done]. }
      destruct (p ++ post)%string; cbn [index_from]; by rewrite Hp.
    + change (String c pre +:+ (p +:+ post))%string with (String c (pre +:+ (p +:+ post))). cbn [index_from].
      destruct (String.prefix _ _); [done|apply IH].
Qed.

Lemma infix_of_join sep p ws a b :
  sep ∉ p → p ≠ [] → join_bytes sep ws = a ++ p ++ b → ∃ w a' b', w ∈ ws ∧ w = a' ++ p ++ b'.
Proof.
  intros Hp Hne. revert a. induction ws as [|w ws IH]; intros a E.
  { cbn in E. symmetry in E. apply app_nil in E as [_ [E _]%app_nil]. done. }
  destruct (decide (ws = [])) as [->|Hws]; [exists w, a, b; split; [left|done]|].
  rewrite join_cons in E by done.
  apply app_eq_app in E as (l & [[-> E]|[-> E]]).
  - (* the occurrence starts inside w *)
    apply app_eq_app in E as (k & [[-> E]|[-> _]]); [|exists (a ++ p ++ k), a, k; split; [left|done]].
    destruct k as [|c k]; [exists (a ++ l), a, []; split; [left|by rewrite !app_nil_r]|].
    injection E as <- _. exfalso. apply Hp. apply elem_of_app. right. left.
  - destruct l as [|c l]; cbn in E.
    + destruct p as [|c p]; [done|]. injection E as <- _. exfalso. apply Hp. left.
    + injection E as <- E. destruct (IH l E) as (v & a' & b' & Hv & ->). exists (a' ++ p ++ b'), a', b'. split; [by right|done].
Qed.

Lemma join_contains sep w ws : w ∈ ws → ∃ a b, join_bytes sep ws = a ++ w ++ b.
Proof.
  induction ws as [|v ws IH]; [by intros ?%not_elem_of_nil|]. intros [->|Hw]%elem_of_cons.
  - destruct (decide (ws = [])) as [->|Hws]; [exists [], []; by rewrite app_nil_r|].
    rewrite join_cons by done. by exists [], (sep :: join_bytes sep ws).
  - destruct (IH Hw) as (a & b & E). assert (ws ≠ []) as Hws by (intros ->; by apply not_elem_of_nil in Hw).
    rewrite join_cons, E by done. exists (v ++ sep :: a), b. by rewrite <- app_assoc.
Qed.

Lemma trim_right_prefix p s : ∃ t, s = (trim_right_bytes p s ++ t)%string.
Proof.
  unfold trim_right_bytes. destruct (drop_while_suffix p (reverse (bytes s))) as [pre E].
  exists (of_bytes (reverse pre)). apply bytes_inj. rewrite bytes_app, !bytes_of_bytes, <- reverse_app, <- E.
  by rewrite reverse_involutive.
Qed.

Lemma citationLines_spec lines st :
  let st' := foldl citationLine st lines in
  cb_kept st' = cb_kept st ++ filter (λ l, Contains l citationTagMark = false) lines ∧
  cb_removed st' = cb_removed st || existsb (λ l, Contains l citationTagMark) lines ∧
  (NoDup (cb_ids st) → NoDup (cb_ids st')) ∧ (Forall (λ id, 0 < id < 2 ^ 63) (cb_ids st) → Forall (λ id, 0 < id < 2 ^ 63) (cb_ids st')).
Proof.
  revert st. induction lines as [|l lines IH]; intros st; cbn [foldl existsb].
  { by rewrite app_nil_r, orb_false_r. }
  destruct (IH (citationLine st l)) as (Hk & Hr & Hn & Hp). cbv zeta. rewrite Hk, Hr. rewrite filter_cons.
  unfold citationLine in *. destruct (Contains l citationTagMark) eqn:El; cbn [negb] in *.
  - rewrite decide_False by done. destruct (citationLinePattern l ≫= parseID) as [id|] eqn:Eid; cbn in *; rewrite ?orb_true_r;
      (split_and!; [done|done| |]); [| |done|done].
    + intros Hnd. apply Hn. case_bool_decide; [done|]. apply NoDup_app. split_and!; [done| |apply NoDup_singleton].
      intros x Hx ->%list_elem_of_singleton. done.
    + intros Hpos. apply Hp. case_bool_decide; [done|]. apply Forall_app. split; [done|]. apply Forall_singleton.
      destruct (citationLinePattern l) as [ds|]; [|done]. cbn in Eid. unfold parseID in Eid.
      destruct (_ || _) eqn:E; [done|]. injection Eid as <-. apply orb_false_iff in E as [E1%Z.ltb_ge E2%Z.leb_gt]. lia.
  - rewrite decide_True by done. cbn in *. rewrite <- app_assoc. done.
Qed.

Lemma kept_free text :
  Contains (Join (filter (λ l, Contains l citationTagMark = false) (Split text newline)) nl) citationTagMark = false.
Proof.
  destruct (Contains _ _) eqn:E; [|done]. apply Contains_iff in E as (pre & post & E).
  apply (f_equal bytes) in E. rewrite bytes_Join, !bytes_app in E.
  apply infix_of_join in E as (w & a & b & Hw & ->); [|apply (bool_decide_unpack _); vm_compute; reflexivity|done].
  apply list_elem_of_fmap in Hw as (l & Hl & [Hfree _]%list_elem_of_filter). exfalso.
  assert (Contains l citationTagMark = true); [|congruence]. apply Contains_iff.
  exists (of_bytes a), (of_bytes b). apply bytes_inj. by rewrite !bytes_app, !bytes_of_bytes.
Qed.

Lemma Join_Split text : Join (Split text newline) nl = text.
Proof. apply bytes_inj. by rewrite bytes_Join, Split_bytes, join_split. Qed.

(** No citation markup reaches the user: the text [StripCitations] leaves never contains
    the protocol tag, well-formed or not; a text without the tag is unchanged, so stripping twice is
    stripping once; and the ids handed to the accounting are distinct positive
    int64 values that the repository found for the owner. *)
Theorem citations_never_visible text repo :
  Contains (StripCitations text) citationTagMark = false ∧
  (Contains text citationTagMark = false → StripCitations text = text) ∧
  StripCitations (StripCitations text) = StripCitations text ∧
  VisibleText (AccountCitations text repo).1 = StripCitations text ∧
  match (AccountCitations text repo).2 with
  | None => True
  | Some ids => ids ≠ [] ∧ NoDup ids ∧ Forall (λ id, 0 < id < 2 ^ 63) ids ∧
      ∃ r cited found, repo = Some r ∧ FindByIDs r cited = Ok found ∧ ∀ id, id ∈ ids → id ∈ found
  end.
Proof.
  assert (∀ t, Contains (StripCitations t) citationTagMark = false) as Hfree.
  { intros t. unfold StripCitations, parseCitationBlock. cbn [fst].
    destruct (citationLines_spec (Split t newline) (mkBlockState [] false [] [])) as (-> & _). cbn [cb_kept app].
    pose proof (kept_free t) as Hk. case_match; [|done].
    destruct (Contains (trim_right_bytes _ _) _) eqn:E; [|done]. apply Contains_iff in E as (pre & post & E).
    destruct (trim_right_prefix trailing_space (Join (filter (λ l, Contains l citationTagMark = false) (Split t newline)) nl)) as [s Es].
    rewrite E in Es. assert (Contains (Join (filter (λ l, Contains l citationTagMark = false) (Split t newline)) nl) citationTagMark = true); [|congruence].
    rewrite Es. apply Contains_iff. exists pre, (post ++ s)%string. apply bytes_inj. by rewrite !bytes_app, <- !app_assoc. }
  assert (∀ t, Contains t citationTagMark = false → StripCitations t = t) as Hid.
  { intros t Ht. unfold StripCitations, parseCitationBlock. cbn [fst].
    destruct (citationLines_spec (Split t newline) (mkBlockState [] false [] [])) as (-> & -> & _). cbn [cb_kept cb_removed app orb].
    assert (∀ l, l ∈ Split t newline → Contains l citationTagMark = false) as Hl.
    { intros l Hin. destruct (Contains l _) eqn:E; [|done]. apply Contains_iff in E as (pre & post & ->).
      assert (Contains t citationTagMark = true) as Hc; [|congruence]. apply Contains_iff.
      apply (list_elem_of_fmap_2 bytes) in Hin. rewrite Split_bytes in Hin.
      destruct (join_contains newline _ _ Hin) as (a & b & E). rewrite join_split, !bytes_app in E.
      exists (of_bytes (a ++ bytes pre)), (of_bytes (bytes post ++ b)). apply bytes_inj.
      by rewrite E, !bytes_app, !bytes_of_bytes, <- !app_assoc. }
    rewrite filter_all by done. rewrite Join_Split. case_match eqn:E; [|done].
    apply existsb_exists in E as (l & Hin%list_elem_of_In & Hc). by rewrite Hl in Hc. }
  split_and!; [apply Hfree|apply Hid|apply Hid, Hfree| |].
  - unfold AccountCitations, StripCitations. destruct (parseCitationBlock text) as [[visible cited] dropped]. repeat case_match; done.
  - unfold AccountCitations, parseCitationBlock.
    destruct (citationLines_spec (Split text newline) (mkBlockState [] false [] [])) as (_ & _ & Hn & Hp).
    set (st := foldl _ _ _) in *. specialize (Hn NoDup_nil_2). specialize (Hp ltac:(constructor)).
    destruct repo as [r|]; [|done]. destruct (cb_ids st) as [|id ids] eqn:Eids; [done|].
    destruct (FindByIDs r (id :: ids)) as [found|e] eqn:Efound; [|done].
    destruct (filter (λ id, id ∈ found) (id :: ids)) as [|u us] eqn:Eupd; [done|].
    assert (NoDup (u :: us) ∧ Forall (λ id, 0 < id < 2 ^ 63) (u :: us) ∧ ∀ x, x ∈ u :: us → x ∈ found) as (H1 & H2 & H3).
    { rewrite <- Eupd. split_and!; [by apply NoDup_filter| |by intros x [? _]%list_elem_of_filter].
      apply Forall_forall. intros x [_ Hx]%list_elem_of_filter. rewrite Forall_forall in Hp. auto. }
    destruct (MarkUsed r (u :: us)); cbn; split_and!; try done; exists r, (id :: ids), found; auto.
Qed.

Example sample_citation :
  AccountCitations ("Done." ++ nl ++ "<oai-mem-citation source=" ++ of_bytes [dquote] ++ "x" ++ of_bytes [dquote] ++ " memory_id=" ++
    of_bytes [dquote] ++ "42" ++ of_bytes [dquote] ++ ">note</oai-mem-citation>" ++ nl)
    (Some (mkCitationRepository (λ ids, Ok ids) (λ _, None))) =
  (mkCitationOutcome "Done." [42] [], Some [42]).
Proof. vm_compute. reflexivity. Qed.
