(* ===== verification/AutoCompact.v ===== *)
(** Runtime compaction of a run's transcript (internal/runtime/agent/auto_compaction.go): the token
    limits, the measurement of the next prompt, the compacted transcript and its snapshot.

    JSON marshalling, the tokenizer, the summarizing model, the snapshot repository, the
    clock and SHA-256 are parameters. *)
From S2P Require Import Prelude GoStr Json Chat Compaction Tools Rules Hooks Runner Reflection Assembler.
Open Scope Z_scope.

(** ** The request of a run (types.go)

    The fields the loop reads; [rq_Rules] is [None] for a nil slice. *)
Record RunRequest := mkRunRequest {
  rq_RunID : Z;
  rq_OwnerID : Z;
  rq_ConversationID : option Z;
  rq_InitialUserMessageID : Z;
  rq_ProviderType : string;
  rq_Model : string;
  rq_CompactionProviderType : string;
  rq_CompactionModel : string;
  rq_CompactionProviderID : Z;
  rq_Mode : string;
  rq_SystemPrompt : string;
  rq_Task : string;
  rq_EnforceContextPrecedence : bool;
  rq_ReflectionPolicy : Policy;
  rq_MaxIterations : Z;
  rq_MaxToolCalls : Z;
  rq_MaxInputChars : Z;
  rq_MaxInputTokens : Z;
  rq_ContextWindowTokens : Z;
  rq_ReservedOutputTokens : Z;
  rq_ContextSafetyMarginTokens : Z;
  rq_ModelAutoCompactTokenLimit : Z;
  rq_ModelAutoCompactTokenLimitScope : string;
  rq_CompactPrompt : string;
  rq_TokenBudgetCompaction : bool;
  rq_RetainClientDeveloperMessages : bool;
  rq_MaxRuleTokens : Z;
  rq_RuleTags : list string;
  rq_RuleRiskLevel : string;
  rq_RuleHash : string;
  rq_Rules : option (list Rule);
  rq_ContextBlocks : list ContextBlock;
  rq_ToolPolicy : ToolPolicy;
  rq_Tools : list (option RuntimeTool);
  rq_ResumeMessages : list ChatMessage;
  rq_ResumeBaseMessages : list ChatMessage;
  rq_ResumeTranscript : list ChatMessage;
  rq_ResumePersistedMessageCount : Z;
  rq_ResumeTranscriptCursor : Z;
  rq_ResumeSteps : list RunStep;
  rq_ResumeIteration : Z;
  rq_ResumeToolCalls : Z;
  rq_ResumeApprovedToolCallIDs : list string
}.

(** ** Limits *)

(** [int(float64(window) * 0.90)]: 0.90 is 8106479329266893 * 2^-53; the product is rounded to
    53 bits, ties to even, and truncated. Exact for windows below 2^53. *)
Definition ratioMantissa : Z := 8106479329266893.

Definition times090 (window : Z) : Z :=
  let p := window * ratioMantissa in
  let s := Z.max 0 (Z.log2 p - 52) in
  let q := Z.shiftr p s in
  let r := p - Z.shiftl q s in
  let half := Z.shiftr (Z.shiftl 1 s) 1 in
  let q := if (0 <? s) && ((half <? r) || ((r =? half) && Z.odd q)) then q + 1 else q in
  Z.shiftr (Z.shiftl q s) 53.

Definition contextWindow (req : RunRequest) : Z :=
  let window := if rq_ContextWindowTokens req <=? 0 then rq_MaxInputTokens req else rq_ContextWindowTokens req in
  if window <=? 0 then defaultMaxInputTokens else window.

Definition autoCompactLimit (req : RunRequest) : Z :=
  let window := contextWindow req in
  let limit := times090 window in
  let limit := if limit <=? 0 then window else limit in
  if (0 <? rq_ModelAutoCompactTokenLimit req) && (rq_ModelAutoCompactTokenLimit req <? limit)
  then rq_ModelAutoCompactTokenLimit req else limit.

Definition autoCompactScope (req : RunRequest) : string :=
  if (TrimSpace (rq_ModelAutoCompactTokenLimitScope req) =? "body_after_prefix")%string then "body_after_prefix" else "total".

Definition hardPromptTokenLimit (req : RunRequest) : Z :=
  let limit := contextWindow req - maxInt 0 (rq_ReservedOutputTokens req) - maxInt 0 (rq_ContextSafetyMarginTokens req) in
  let limit := if (0 <? rq_MaxInputTokens req) && (rq_MaxInputTokens req <? limit) then rq_MaxInputTokens req else limit in
  maxInt 1 limit.

Definition hasUserContent (messages : list ChatMessage) (content : string) : bool :=
  existsb (λ m, (msg_Role m =? RoleUser)%string && (msg_Content m =? content)%string) messages.

Definition userMessage (content : string) : ChatMessage := mkChatMessage RoleUser content "" [].

Definition runtimeCompactionHistory (req : RunRequest) (transcript : list ChatMessage) : list ChatMessage :=
  if negb (rq_Task req =? "")%string && negb (hasUserContent transcript (rq_Task req)) then userMessage (rq_Task req) :: transcript
  else transcript.

Record CompactionTrace := mkCompactionTrace {
  ct_Scope : string;
  ct_Status : string;
  ct_BeforeTokens : Z;
  ct_AfterTokens : Z;
  ct_SavedTokens : Z;
  ct_Threshold : Z;
  ct_ModelCalled : bool;
  ct_Error : string;
  ct_Summary : string
}.

Record runtimeTokenStatusResult := mkTokenStatus {
  Measured : Z;
  Limit : Z;
  HardLimit : Z;
  TokenLimitReached : bool
}.

Section AutoCompact.
Context {UT : UnicodeTables} (encodingForModel : string → option (string → list Z)).
Context (marshal_messages : list ChatMessage → option string) (marshal_tools : list ToolDefinition → option string).
Context (marshal_tool : ToolDefinition → option string).

Definition modelTextTokens (req : RunRequest) (text : string) : Z :=
  Tokens (Count encodingForModel (rq_ProviderType req) (rq_Model req) text).

Definition modelMessagesTokens (req : RunRequest) (messages : list ChatMessage) : Z :=
  match messages with
  | [] => 0
  | _ => match marshal_messages messages with
         | None => estimateMessagesTokens messages
         | Some data => modelTextTokens req data
         end
  end.

Definition modelToolSchemaTokens (req : RunRequest) (tools : list ToolDefinition) : Z :=
  match tools with
  | [] => 0
  | _ => match marshal_tools tools with
         | None => estimateToolSchemaTokens marshal_tool tools
         | Some data => modelTextTokens req data
         end
  end.

(** The history the body scope measures. *)
Definition measuredHistory (req : RunRequest) (baseMessages transcript : list ChatMessage) : list ChatMessage :=
  if negb (rq_Task req =? "")%string && hasUserContent baseMessages (rq_Task req) && negb (hasUserContent transcript (rq_Task req))
  then userMessage (rq_Task req) :: transcript else transcript.

Definition promptTokens (req : RunRequest) (baseMessages transcript : list ChatMessage) (tools : list ToolDefinition) : Z :=
  modelMessagesTokens req (assembleRoundMessages baseMessages [] transcript) + modelToolSchemaTokens req tools.

Definition runtimeTokenStatus (req : RunRequest) (baseMessages transcript : list ChatMessage) (tools : list ToolDefinition)
    : runtimeTokenStatusResult :=
  let body := modelMessagesTokens req (measuredHistory req baseMessages transcript) in
  let total := promptTokens req baseMessages transcript tools in
  let measured := if (autoCompactScope req =? "body_after_prefix")%string then body else total in
  let limit := autoCompactLimit req in
  let hard := hardPromptTokenLimit req in
  mkTokenStatus measured limit hard ((limit <=? measured) || (hard <=? total)).

(** *** Retained messages *)

Definition retainRequest (req : RunRequest) (budget : Z) : Request :=
  mkRequest "" "" (rq_ProviderType req) (rq_Model req) "" budget 0 "" "".

Definition entryChat (e : Entry) : ChatMessage := mkChatMessage (Role e) (Content e) "" [].

Definition retainMessagesByRole (req : RunRequest) (history : list ChatMessage) (role : string) (budget : Z) : list ChatMessage :=
  entryChat <$> RetainEntriesByRole encodingForModel (retainRequest req budget) (FromChat history) role.

Definition baseMessagesAfterTokenBudget (req : RunRequest) (messages : list ChatMessage) (retainDeveloper : bool) : list ChatMessage :=
  filter (λ m, msg_Role m = RoleSystem) messages ++
  (if retainDeveloper then retainMessagesByRole req messages RoleDeveloper UserMessageBudgetTokens else []).

(** *** compactRuntimeTranscript *)

Definition coreRequest (req : RunRequest) : Request :=
  let model := TrimSpace (rq_CompactionModel req) in
  let own := (TrimSpace (rq_CompactionProviderType req) =? "")%string || (model =? "")%string in
  mkRequest (rq_SystemPrompt req) (rq_CompactPrompt req)
    (if own then rq_ProviderType req else rq_CompactionProviderType req) (if own then rq_Model req else model) "" 0 0 "" "".

Context (chat : nat → list ChatMessage → ChatOutcome) (ctx_done : nat → bool).
(** The text of a compaction error, which carries the provider's. *)
Context (compact_error_text : compactError → string).

Definition compactRuntimeTranscript (req : RunRequest) (transcript : list ChatMessage) : list ChatMessage * Usage * CompactionTrace :=
  let history := runtimeCompactionHistory req transcript in
  let beforeTokens := modelMessagesTokens req history in
  let trace status after called err summary :=
    mkCompactionTrace (autoCompactScope req) status 0 after (maxInt 0 (beforeTokens - after)) 0 called err summary in
  if rq_TokenBudgetCompaction req then
    let retained := if rq_RetainClientDeveloperMessages req
                    then retainMessagesByRole req history RoleDeveloper UserMessageBudgetTokens else [] in
    (retained, zeroUsage, trace "completed"%string (modelMessagesTokens req retained) false ""%string ""%string)
  else
    match Compact encodingForModel chat ctx_done (coreRequest req) (FromChat history) with
    | Some (result, None) =>
      let kept := (entryChat <$> Retained result) ++ [userMessage (SummaryPrefix ++ Summary result)] in
      (kept, ResultUsage result, trace "completed"%string (modelMessagesTokens req kept) true ""%string (Summary result))
    | Some (result, Some e) =>
      (transcript, ResultUsage result,
       mkCompactionTrace (autoCompactScope req) "failed" 0 0 0 0 true (compact_error_text e) (Summary result))
    | None => (* never: [Compact_spec] *)
      (transcript, zeroUsage, mkCompactionTrace (autoCompactScope req) "failed" 0 0 0 0 true "" "")
    end.
End AutoCompact.

(** ** persistRuntimeCompaction *)

Record SnapshotRow := mkSnapshotRow {
  sr_FirstMessageID : Z;
  sr_LastMessageID : Z;
  sr_FirstMessageContent : string;
  sr_ParentSnapshotID : option Z;
  sr_SnapshotVersion : Z;
  sr_SourceFingerprint : string;
  sr_Summary : string;
  sr_ProviderID : Z;
  sr_Model : string;
  sr_BeforeTokens : Z;
  sr_AfterTokens : Z;
  sr_SummaryTokens : Z;
  sr_ContextWindowTokens : Z
}.

(** [conversation.SnapshotRepository] as the run sees it: the current snapshot's id and version (not found is
    [Ok None]), the claim of its successor, and its completion. *)
Record SnapshotRepository := mkSnapshotRepository {
  FindCurrentSnapshot : result string (option (Z * Z));
  ClaimSnapshot : option Z → Z → string → result string bool;
  CompleteSnapshot : SnapshotRow → option Z → Z → string → option string
}.

(** The calls that change the repository, in order. *)
Inductive snapshotCall :=
| Claimed (parent : option Z) (version : Z) (token : string)
| Completed (row : SnapshotRow) (parent : option Z) (version : Z) (token : string)
| Released (token reason : string).

Definition parentOf (current : option (Z * Z)) : option Z * Z :=
  match current with Some (id, version) => (Some id, version) | None => (None, 0) end.

Definition messageRange (req : RunRequest) : Z * Z :=
  if 0 <? rq_InitialUserMessageID req then
    (if rq_TokenBudgetCompaction req then rq_InitialUserMessageID req + 1 else rq_InitialUserMessageID req, rq_InitialUserMessageID req)
  else (0, 0).

Section PersistCompaction.
Context {UT : UnicodeTables} (encodingForModel : string → option (string → list Z)).
Context (marshal_messages : list ChatMessage → option string) (sha256_hex : string → string).

Definition contentFingerprint (messages : list ChatMessage) : string := default ""%string (marshal_messages messages).

(** The snapshot row of a compaction of [history] to [kept]; [providerID] is the runner's. *)
Definition snapshotRow (req : RunRequest) (providerID : Z) (trace : CompactionTrace) (history kept : list ChatMessage)
    (parentID : option Z) (parentVersion : Z) : SnapshotRow :=
  let fingerprint := sha256_hex (Itoa (rq_RunID req) ++ ":" ++ Itoa parentVersion ++ ":" ++ ct_Summary trace ++ ":" ++
                                 contentFingerprint history) in
  let '(firstID, lastID) := messageRange req in
  let model := TrimSpace (rq_CompactionModel req) in
  let own := (rq_CompactionProviderID req =? 0) || (model =? "")%string in
  let firstContent := match kept with
                      | m :: _ => if negb (rq_TokenBudgetCompaction req) && negb (HasPrefix (msg_Content m) SummaryPrefix)
                                  then msg_Content m else ""%string
                      | [] => ""%string
                      end in
  mkSnapshotRow firstID lastID firstContent parentID (parentVersion + 1) fingerprint (ct_Summary trace)
    (if own then providerID else rq_CompactionProviderID req) (if own then rq_Model req else model)
    (ct_BeforeTokens trace) (modelMessagesTokens encodingForModel marshal_messages req kept)
    (modelTextTokens encodingForModel req (ct_Summary trace)) (rq_ContextWindowTokens req).

(** The error, and the calls made. [token] names this claim. *)
Definition persistRuntimeCompaction (repo : option SnapshotRepository) (token : string) (req : RunRequest) (providerID : Z)
    (trace : CompactionTrace) (history kept : list ChatMessage) : option string * list snapshotCall :=
  match repo, rq_ConversationID req with
  | Some repo, Some conversation =>
    if (conversation <=? 0) || negb (ct_Status trace =? "completed")%string then (None, [])
    else
      match FindCurrentSnapshot repo with
      | Err e => (Some e, [])
      | Ok current =>
        let '(parentID, parentVersion) := parentOf current in
        match ClaimSnapshot repo parentID parentVersion token with
        | Err e => (Some e, [Claimed parentID parentVersion token])
        | Ok false => (None, [Claimed parentID parentVersion token])
        | Ok true =>
          let row := snapshotRow req providerID trace history kept parentID parentVersion in
          match CompleteSnapshot repo row parentID parentVersion token with
          | None => (None, [Claimed parentID parentVersion token; Completed row parentID parentVersion token])
          | Some e =>
            (Some e, [Claimed parentID parentVersion token; Completed row parentID parentVersion token; Released token e])
          end
        end
      end
  | _, _ => (None, [])
  end.
End PersistCompaction.

(** ** The limits *)

Lemma times090_bound w : 0 < w → 0 ≤ times090 w ≤ w.
Proof.
  intros Hw. unfold times090. set (p := w * ratioMantissa). assert (0 < p) as Hp by (subst p; unfold ratioMantissa; lia).
  set (s := Z.max 0 (Z.log2 p - 52)). cbv zeta. rewrite !Z.shiftl_mul_pow2, !Z.shiftr_div_pow2 by lia.
  set (q := p `div` 2 ^ s). assert (0 < 2 ^ s) as H2s by (apply Z.pow_pos_nonneg; lia).
  assert (0 ≤ q * 2 ^ s ≤ p) as Hq.
  { subst q. pose proof (Z.mul_div_le p (2 ^ s) H2s). pose proof (Z.div_pos p (2 ^ s)). lia. }
  set (q' := if _ && _ then q + 1 else q).
  assert (0 ≤ q' * 2 ^ s ∧ 2 ^ 52 * (q' * 2 ^ s) ≤ p * (2 ^ 52 + 1)) as [H0 H1].
  { subst q'. destruct (0 <? s) eqn:Es; cbn [andb]; [|lia]. apply Z.ltb_lt in Es.
    assert (2 ^ 52 * 2 ^ s ≤ p) as Hs.
    { rewrite <- Z.pow_add_r by lia. replace (52 + s) with (Z.log2 p) by lia. apply Z.log2_spec. lia. }
    case_match; lia. }
  split; [apply Z.div_pos; lia|]. apply Z.div_le_upper_bound; [lia|].
  subst p. unfold ratioMantissa in *. lia.
Qed.

Lemma contextWindow_pos req : 0 < contextWindow req.
Proof. unfold contextWindow. cbv zeta. repeat case_match; bool_prop; try lia; vm_compute; done. Qed.

Lemma autoCompactLimit_bound req : 0 < autoCompactLimit req ≤ contextWindow req.
Proof.
  unfold autoCompactLimit. pose proof (contextWindow_pos req) as Hw. pose proof (times090_bound _ Hw). cbv zeta.
  repeat case_match; bool_prop; lia.
Qed.

Lemma hardPromptTokenLimit_bound req :
  let room := contextWindow req - Z.max 0 (rq_ReservedOutputTokens req) - Z.max 0 (rq_ContextSafetyMarginTokens req) in
  1 ≤ hardPromptTokenLimit req ≤ Z.max 1 room ∧
  (0 < rq_MaxInputTokens req → hardPromptTokenLimit req ≤ rq_MaxInputTokens req).
Proof. unfold hardPromptTokenLimit, maxInt. cbv zeta. repeat case_match; bool_prop; lia. Qed.

Section Compacted.
Context {UT : UnicodeTables} (encodingForModel : string → option (string → list Z)).
Context (marshal_messages : list ChatMessage → option string) (marshal_tools : list ToolDefinition → option string).
Context (marshal_tool : ToolDefinition → option string).
Context (chat : nat → list ChatMessage → ChatOutcome) (ctx_done : nat → bool) (compact_error_text : compactError → string).

(** The run compacts before its prompt can outgrow the window: the compaction threshold is
    positive and at most the window, and as long as the limit is not reported reached,
    the prompt of the next model call (messages and tool schemas, by the model's tokenizer) is below the
    hard limit, hence below the configured input limit, and leaves room for the reserved output and the safety
    margin whenever these leave any. *)
Theorem unreached_limit_leaves_room req base transcript tools :
  let status := runtimeTokenStatus encodingForModel marshal_messages marshal_tools marshal_tool req base transcript tools in
  let prompt := promptTokens encodingForModel marshal_messages marshal_tools marshal_tool req base transcript tools in
  let room := contextWindow req - Z.max 0 (rq_ReservedOutputTokens req) - Z.max 0 (rq_ContextSafetyMarginTokens req) in
  0 < Limit status ≤ contextWindow req ∧ 1 ≤ HardLimit status ∧
  (TokenLimitReached status = false →
   prompt < HardLimit status ∧ Measured status < Limit status ∧ prompt < Z.max 1 room ∧
   (0 < rq_MaxInputTokens req → prompt < rq_MaxInputTokens req)).
Proof.
  unfold runtimeTokenStatus. cbv zeta. cbn [Limit HardLimit TokenLimitReached Measured].
  pose proof (autoCompactLimit_bound req). pose proof (hardPromptTokenLimit_bound req) as [? ?]. cbv zeta in *.
  split_and!; [lia|lia|lia|]. intros [Hlim%Z.leb_gt Hhard%Z.leb_gt]%orb_false_iff. lia.
Qed.

Lemma retained_roles r entries role : Forall (λ e, Role e = role) (RetainEntriesByRole encodingForModel r entries role).
Proof.
  destruct (RetainEntriesByRole_spec encodingForModel r entries role) as (dropped & kept & partial & Hf & -> & _ & Hp).
  assert (∀ e, e ∈ dropped ++ kept → Role e = role) as Hr.
  { intros e. rewrite <- Hf. intros [Hret _]%list_elem_of_filter. unfold retainable in Hret.
    apply andb_true_iff in Hret as [[Hret _]%andb_true_iff _]. by apply String.eqb_eq. }
  apply Forall_app. split.
  - destruct (last dropped) as [e|] eqn:El; [|by subst].
    destruct Hp as [_ ->]. unfold truncated. repeat case_match; repeat constructor; cbn.
    apply Hr, elem_of_app. left. apply last_Some in El as [l ->]. apply elem_of_app. right. left.
  - apply Forall_forall. intros e He. apply Hr, elem_of_app. by right.
Qed.

(** Compacting a transcript always returns: on a failure the transcript is
    unchanged; with the token-budget strategy only developer messages remain, within the user
    budget; otherwise the result is made of user messages alone: the retained ones within the budget,
    then one nonempty summary, so that no tool call is left without its answer. *)
Theorem compacted_transcript req transcript :
  let '(kept, usage, trace) := compactRuntimeTranscript encodingForModel marshal_messages chat ctx_done compact_error_text req transcript in
  (ct_Status trace = "failed"%string ∧ kept = transcript) ∨
  (ct_Status trace = "completed"%string ∧ 0 ≤ ct_SavedTokens trace ∧ Forall (λ m, msg_ToolCalls m = [] ∧ msg_ToolCallID m = ""%string) kept ∧
   if rq_TokenBudgetCompaction req then
     Forall (λ m, msg_Role m = RoleDeveloper) kept ∧
     sum_by (λ m, tokenCount encodingForModel (retainRequest req UserMessageBudgetTokens) (msg_Content m)) kept ≤ UserMessageBudgetTokens
   else
     ∃ retained summary, kept = retained ++ [userMessage (SummaryPrefix ++ summary)] ∧ summary ≠ ""%string ∧
       Forall (λ m, msg_Role m = RoleUser) kept ∧
       sum_by (λ m, tokenCount encodingForModel (coreRequest req) (msg_Content m)) retained ≤ UserMessageBudgetTokens).
Proof.
  assert (∀ r entries role, userBudget r = UserMessageBudgetTokens →
    let ms := entryChat <$> RetainEntriesByRole encodingForModel r entries role in
    Forall (λ m, msg_ToolCalls m = [] ∧ msg_ToolCallID m = ""%string) ms ∧ Forall (λ m, msg_Role m = role) ms ∧
    sum_by (λ m, tokenCount encodingForModel r (msg_Content m)) ms ≤ UserMessageBudgetTokens) as Hret.
  { intros r entries role Hb. cbv zeta. rewrite !Forall_fmap. split_and!.
    - apply Forall_true. done.
    - eapply Forall_impl; [apply retained_roles|done].
    - rewrite <- Hb. destruct (RetainEntriesByRole_spec encodingForModel r entries role) as (? & kept & partial & _ & -> & Hs & _).
      etrans; [|exact Hs]. apply Z.eq_le_incl. generalize (partial ++ kept). intros l.
      unfold sum_by. induction l as [|e l IH]; [done|]. rewrite fmap_cons. cbn [foldr]. by rewrite IH. }
  assert (∀ a, 0 ≤ maxInt 0 a) as Hmax by (intros a; unfold maxInt; case_match; bool_prop; lia).
  unfold compactRuntimeTranscript. cbv zeta. destruct (rq_TokenBudgetCompaction req) eqn:Et.
  - right. split; [done|]. split; [apply Hmax|]. destruct (rq_RetainClientDeveloperMessages req).
    + apply (Hret (retainRequest req UserMessageBudgetTokens)). done.
    + split_and!; [done|done|]. vm_compute. done.
  - destruct (Compact_spec encodingForModel chat ctx_done (coreRequest req) (FromChat (runtimeCompactionHistory req transcript)))
      as (res & err & -> & _ & _ & Hres).
    destruct err as [e|]; [by left|]. destruct Hres as [Hsum ->]. right.
    destruct (Hret (coreRequest req) (FromChat (runtimeCompactionHistory req transcript)) RoleUser eq_refl) as (H1 & H2 & H3).
    split_and!; [done|apply Hmax|apply Forall_app; split; [done|by repeat constructor]|].
    eexists _, (Summary res). split_and!; try done. apply Forall_app. split; [done|by repeat constructor].
Qed.
End Compacted.
