(* ===== verification/Loop.v ===== *)
(** The agent loop: [Runner.Run] of internal/runtime/agent/runner.go, from the request to the result.

    One run is a bounded sequence of rounds: steering messages, cancellation, compaction of the
    transcript, rule planning, one model turn, the batch of tools it asks for and an inline
    reflection. What the outside world answers in a round is a parameter indexed by the round (steering,
    the context's state, the model turn, the tools, the summarizer, the snapshot repository, the
    message sink), so the theorems hold for every behaviour of it. Times, latencies and the emitters of
    live events are left out; [Context] of the result is represented by the loop's own trace. *)
From S2P Require Import Prelude GoStr Json Chat Compaction Tools Rules Hooks Runner Resume Reflection Assembler AutoCompact Citations.
Open Scope Z_scope.

Definition StopReasonTimeout : string := "timeout".
Definition StopReasonCancelled : string := "cancelled".
Definition StopReasonPaused : string := "paused".
Definition StopReasonLLMError : string := "llm_error".
Definition StepTypeLLMResponse : string := "llm_response".
Definition StepTypeProposedPlan : string := "proposed_plan".

(** ** What the world answers *)

(** [ctx.Err()]; the flag says that the context's cause is [ErrRunPaused]. *)
Inductive ctxError := Canceled | DeadlineExceeded.

Inductive turnError :=
| TurnStopped (e : ctxError) (paused : bool)
| TurnFailed (text : string).

Record TurnResponse := mkTurnResponse {
  tr_Message : ChatMessage;
  tr_ProposedPlan : string;
  tr_Usage : Usage
}.

Inductive runError :=
| ErrNoToolCallingClient
| ErrModelRequired
| ErrTaskRequired
| ErrDuplicateToolName (name : string)
| ErrMandatoryRuleBudgetExceeded (mandatory budget deficit : Z).

(** ** State *)

Record RuleRoundTrace := mkRuleRound {
  rnd_Iteration : Z;
  rnd_Loaded : list string;
  rnd_Removed : list string;
  rnd_Trace : Trace;
  rnd_Budget : RuleBudget;
  rnd_EstimatedPromptTokens : Z
}.

Record LoopTrace := mkLoopTrace {
  lt_Compactions : list CompactionTrace;
  lt_SavedTokens : Z;
  lt_RuleRounds : list RuleRoundTrace;
  lt_EstimatedPromptTokens : Z;
  lt_ProviderPromptTokens : Z
}.

(** The locals of [Run]. [lp_rows] collects what the sink was handed, [lp_turns] the prompts of
    the model turns, [lp_executed] the executed calls and [lp_snapshots] the repository calls. *)
Record LoopState := mkLoop {
  lp_refl : ReflectState;
  lp_base : list ChatMessage;
  lp_transcript : list ChatMessage;
  lp_messages : list ChatMessage;
  lp_persisted : Z;
  lp_cursor : Z;
  lp_previousRules : list string;
  lp_followUp : bool;
  lp_trace : LoopTrace;
  lp_messageID : Z;
  lp_rows : list Entry;
  lp_turns : list (list ChatMessage);
  lp_executed : list ToolCall;
  lp_snapshots : list snapshotCall
}.

Definition lp_result (st : LoopState) : RunResult := rs_result (lp_refl st).

Definition set_Iterations (n : Z) (r : RunResult) : RunResult :=
  mkRunResult (FinalAnswer r) (StopReason r) n (ToolCalls r) (Steps r) (HookTraces r) (ResultApproval r) (ResultCheckpoint r).
Definition set_ToolCalls (n : Z) (r : RunResult) : RunResult :=
  mkRunResult (FinalAnswer r) (StopReason r) (Iterations r) n (Steps r) (HookTraces r) (ResultApproval r) (ResultCheckpoint r).
Definition set_Checkpoint (c : option Checkpoint) (r : RunResult) : RunResult :=
  mkRunResult (FinalAnswer r) (StopReason r) (Iterations r) (ToolCalls r) (Steps r) (HookTraces r) (ResultApproval r) c.

Definition with_refl (s : ReflectState) (st : LoopState) : LoopState :=
  mkLoop s (lp_base st) (lp_transcript st) (lp_messages st) (lp_persisted st) (lp_cursor st) (lp_previousRules st) (lp_followUp st)
    (lp_trace st) (lp_messageID st) (lp_rows st) (lp_turns st) (lp_executed st) (lp_snapshots st).
Definition with_result (f : RunResult → RunResult) (st : LoopState) : LoopState :=
  with_refl (mkReflectState (f (rs_result (lp_refl st))) (rs_trace (lp_refl st)) (rs_usage (lp_refl st))) st.
Definition spend (u : Usage) (st : LoopState) : LoopState :=
  with_refl (mkReflectState (rs_result (lp_refl st)) (rs_trace (lp_refl st)) (addUsage (rs_usage (lp_refl st)) u)) st.
Definition with_messages (messages : list ChatMessage) (st : LoopState) : LoopState :=
  mkLoop (lp_refl st) (lp_base st) (lp_transcript st) messages (lp_persisted st) (lp_cursor st) (lp_previousRules st) (lp_followUp st)
    (lp_trace st) (lp_messageID st) (lp_rows st) (lp_turns st) (lp_executed st) (lp_snapshots st).
Definition with_base (base : list ChatMessage) (st : LoopState) : LoopState :=
  mkLoop (lp_refl st) base (lp_transcript st) (lp_messages st) (lp_persisted st) (lp_cursor st) (lp_previousRules st) (lp_followUp st)
    (lp_trace st) (lp_messageID st) (lp_rows st) (lp_turns st) (lp_executed st) (lp_snapshots st).
Definition with_transcript (transcript : list ChatMessage) (persisted : Z) (st : LoopState) : LoopState :=
  mkLoop (lp_refl st) (lp_base st) transcript (lp_messages st) persisted (lp_cursor st) (lp_previousRules st) (lp_followUp st)
    (lp_trace st) (lp_messageID st) (lp_rows st) (lp_turns st) (lp_executed st) (lp_snapshots st).
Definition with_followUp (b : bool) (st : LoopState) : LoopState :=
  mkLoop (lp_refl st) (lp_base st) (lp_transcript st) (lp_messages st) (lp_persisted st) (lp_cursor st) (lp_previousRules st) b
    (lp_trace st) (lp_messageID st) (lp_rows st) (lp_turns st) (lp_executed st) (lp_snapshots st).
Definition with_trace (t : LoopTrace) (rules : list string) (st : LoopState) : LoopState :=
  mkLoop (lp_refl st) (lp_base st) (lp_transcript st) (lp_messages st) (lp_persisted st) (lp_cursor st) rules (lp_followUp st)
    t (lp_messageID st) (lp_rows st) (lp_turns st) (lp_executed st) (lp_snapshots st).
Definition with_snapshots (calls : list snapshotCall) (st : LoopState) : LoopState :=
  mkLoop (lp_refl st) (lp_base st) (lp_transcript st) (lp_messages st) (lp_persisted st) (lp_cursor st) (lp_previousRules st) (lp_followUp st)
    (lp_trace st) (lp_messageID st) (lp_rows st) (lp_turns st) (lp_executed st) (lp_snapshots st ++ calls).
Definition with_turn (prompt : list ChatMessage) (st : LoopState) : LoopState :=
  mkLoop (lp_refl st) (lp_base st) (lp_transcript st) (lp_messages st) (lp_persisted st) (lp_cursor st) (lp_previousRules st) (lp_followUp st)
    (lp_trace st) (lp_messageID st) (lp_rows st) (lp_turns st ++ [prompt]) (lp_executed st) (lp_snapshots st).
Definition with_executed (calls : list ToolCall) (st : LoopState) : LoopState :=
  mkLoop (lp_refl st) (lp_base st) (lp_transcript st) (lp_messages st) (lp_persisted st) (lp_cursor st) (lp_previousRules st) (lp_followUp st)
    (lp_trace st) (lp_messageID st) (lp_rows st) (lp_turns st) (lp_executed st ++ calls) (lp_snapshots st).

(** What a round does: go on, or return the result and perhaps an error. *)
Inductive flow :=
| Continue (st : LoopState)
| Return (st : LoopState) (err : option string).

Definition flow_state (f : flow) : LoopState := match f with Continue st | Return st _ => st end.

(** ** Persisting transcript entries *)

Definition sanitizePersistedEntries (entries : list ChatMessage) : list ChatMessage :=
  (λ m, if (msg_Role m =? RoleAssistant)%string && negb (msg_Content m =? "")%string
        then mkChatMessage (msg_Role m) (StripCitations (msg_Content m)) (msg_ToolCallID m) (msg_ToolCalls m) else m) <$> entries.

Definition persistFailed (err : string) : RunStep :=
  mkRunStep 0 StepTypeError "" "" "" "" "" "" false false ("persist transcript entries: " ++ err) "".

Definition context_reason (e : ctxError) : string :=
  match e with Canceled => StopReasonCancelled | DeadlineExceeded => StopReasonTimeout end.

Definition finishWithContext (e : ctxError) (r : RunResult) : RunResult :=
  set_Stop (context_reason e) ("Agent stopped: " ++ context_reason e) r.

(** ** Tools and defaults *)

Definition MaxIterationsOf (req : RunRequest) : Z := if rq_MaxIterations req <=? 0 then 8 else rq_MaxIterations req.
Definition MaxToolCallsOf (req : RunRequest) : Z := if rq_MaxToolCalls req <=? 0 then 16 else rq_MaxToolCalls req.

Definition toolDefinition (name : string) (t : RuntimeTool) : ToolDefinition :=
  mkToolDefinition "function" name (tool_Description t) (tool_Parameters t) true.

(** The tools by trimmed name, in order; a repeated name is an error. *)
Fixpoint collectTools (tools : list (option RuntimeTool)) (seen : gmap string RuntimeTool)
    : result runError (list ToolDefinition * gmap string RuntimeTool) :=
  match tools with
  | [] => Ok ([], seen)
  | None :: rest => collectTools rest seen
  | Some t :: rest =>
    let name := TrimSpace (tool_Name t) in
    if (name =? "")%string then collectTools rest seen
    else
      match seen !! name with
      | Some _ => Err (ErrDuplicateToolName name)
      | None =>
        match collectTools rest (<[name := t]> seen) with
        | Err e => Err e
        | Ok (defs, byName) => Ok (toolDefinition name t :: defs, byName)
        end
      end
  end.

Definition batchRequest (req : RunRequest) : BatchRequest :=
  mkBatchRequest (rq_Tools req) (MaxToolCallsOf req) (rq_ToolPolicy req) (rq_RuleHash req) (default [] (rq_Rules req)).

Definition assembleRequest (req : RunRequest) : AssembleRequest :=
  mkAssembleRequest (rq_MaxInputChars req) (rq_MaxInputTokens req) (rq_SystemPrompt req) (rq_EnforceContextPrecedence req)
    (rq_Mode req) (rq_Task req) (rq_ContextBlocks req) (rq_ProviderType req) (rq_Model req).

Definition set_Task (task : string) (req : RunRequest) : RunRequest :=
  mkRunRequest (rq_RunID req) (rq_OwnerID req) (rq_ConversationID req) (rq_InitialUserMessageID req) (rq_ProviderType req) (rq_Model req)
    (rq_CompactionProviderType req) (rq_CompactionModel req) (rq_CompactionProviderID req) (rq_Mode req) (rq_SystemPrompt req) task
    (rq_EnforceContextPrecedence req) (rq_ReflectionPolicy req) (rq_MaxIterations req) (rq_MaxToolCalls req) (rq_MaxInputChars req)
    (rq_MaxInputTokens req) (rq_ContextWindowTokens req) (rq_ReservedOutputTokens req) (rq_ContextSafetyMarginTokens req)
    (rq_ModelAutoCompactTokenLimit req) (rq_ModelAutoCompactTokenLimitScope req) (rq_CompactPrompt req) (rq_TokenBudgetCompaction req)
    (rq_RetainClientDeveloperMessages req) (rq_MaxRuleTokens req) (rq_RuleTags req) (rq_RuleRiskLevel req) (rq_RuleHash req)
    (rq_Rules req) (rq_ContextBlocks req) (rq_ToolPolicy req) (rq_Tools req) (rq_ResumeMessages req) (rq_ResumeBaseMessages req)
    (rq_ResumeTranscript req) (rq_ResumePersistedMessageCount req) (rq_ResumeTranscriptCursor req) (rq_ResumeSteps req)
    (rq_ResumeIteration req) (rq_ResumeToolCalls req) (rq_ResumeApprovedToolCallIDs req).

(** ** Rows

    The position of an entry in a run: its message's index, then its place in the message. *)
Definition entry_lt (e e' : Entry) : Prop :=
  TranscriptIndex e < TranscriptIndex e' ∨ TranscriptIndex e = TranscriptIndex e' ∧ SubEntryIndex e < SubEntryIndex e'.

(** Rows with positions in [lo, hi), in increasing order, each with the id made of its position. *)
Record rows_ok (lo hi : Z) (rows : list Entry) : Prop := mkRowsOk {
  rows_sorted : StronglySorted entry_lt rows;
  rows_range : Forall (λ e, lo ≤ TranscriptIndex e < hi ∧ 0 ≤ SubEntryIndex e) rows;
  rows_ids : Forall (λ e, TranscriptEntryID e = (Itoa (TranscriptIndex e) ++ ":" ++ Itoa (SubEntryIndex e))%string) rows
}.

Lemma rows_ok_nil lo hi : rows_ok lo hi [].
Proof. split; constructor. Qed.

Lemma rows_ok_app lo mid hi rows rows' :
  lo ≤ mid ≤ hi → rows_ok lo mid rows → rows_ok mid hi rows' → rows_ok lo hi (rows ++ rows').
Proof.
  intros Hle [S1 R1 I1] [S2 R2 I2]. split.
  - induction S1 as [|e rows S1 IH Hlt]; [done|]. cbn. inv R1. inv I1. constructor; [by apply IH|].
    apply Forall_app. split; [done|]. eapply Forall_impl; [exact R2|]. cbn. intros e' [? _]. left. lia.
  - apply Forall_app. split; [eapply Forall_impl; [exact R1|]|eapply Forall_impl; [exact R2|]]; cbn; lia.
  - by apply Forall_app.
Qed.

Lemma rows_ok_weaken lo hi hi' rows : hi ≤ hi' → rows_ok lo hi rows → rows_ok lo hi' rows.
Proof. intros Hle [S R I]. split; [done| |done]. eapply Forall_impl; [exact R|]. cbn. lia. Qed.

Lemma callEntries_rows i sub calls :
  0 ≤ sub → rows_ok i (i + 1) (callEntries i sub calls) ∧ Forall (λ e, sub ≤ SubEntryIndex e) (callEntries i sub calls).
Proof.
  revert sub. induction calls as [|c calls IH]; intros sub Hs; [split; [apply rows_ok_nil|constructor]|].
  destruct (IH (sub + 1) ltac:(lia)) as [[S R I] Hsub]. cbn [callEntries]. split; [split|]; try (constructor; [cbn; try done; lia|]); try done.
  - apply Forall_forall. intros e He. rewrite Forall_forall in R, Hsub. specialize (R e He). specialize (Hsub e He). right. cbn. lia.
  - eapply Forall_impl; [exact Hsub|]. cbn. lia.
Qed.

Lemma messageEntries_rows i m : rows_ok i (i + 1) (messageEntries i m).
Proof.
  unfold messageEntries. destruct (msg_ToolCalls m) as [|c calls].
  - destruct (msg_Role m =? RoleTool)%string; split; repeat constructor; cbn; lia.
  - destruct (msg_Content m =? "")%string; [by apply callEntries_rows|].
    destruct (callEntries_rows i 1 (c :: calls) ltac:(lia)) as [[S R I] Hsub].
    split; constructor; try done; [|cbn; lia].
    apply Forall_forall. intros e He. rewrite Forall_forall in R, Hsub. specialize (R e He). specialize (Hsub e He). right. cbn. lia.
Qed.

Lemma FromChatAt_rows ms i : rows_ok i (i + zlen ms) (FromChatAt ms i).
Proof.
  revert i. induction ms as [|m ms IH]; intros i; [apply rows_ok_nil|]. cbn [FromChatAt].
  apply (rows_ok_app i (i + 1)); [unfold zlen; cbn [length]; lia|apply messageEntries_rows|].
  replace (i + zlen (m :: ms)) with (i + 1 + zlen ms) by (unfold zlen; cbn [length]; lia). apply IH.
Qed.

Lemma enrichEntry_position steps e :
  TranscriptIndex (enrichEntry steps e) = TranscriptIndex e ∧ SubEntryIndex (enrichEntry steps e) = SubEntryIndex e ∧
  TranscriptEntryID (enrichEntry steps e) = TranscriptEntryID e ∧ Role (enrichEntry steps e) = Role e ∧
  Content (enrichEntry steps e) = Content e.
Proof. unfold enrichEntry. repeat case_match; done. Qed.

Lemma enrich_rows lo hi rows steps : rows_ok lo hi rows → rows_ok lo hi (EnrichTranscriptEntries rows steps).
Proof.
  intros [S R I]. unfold EnrichTranscriptEntries. split.
  - induction S as [|e rows S IH Hlt]; cbn; constructor; [apply IH; [by inv R|by inv I]|].
    apply Forall_fmap. eapply Forall_impl; [exact Hlt|]. intros e'. unfold entry_lt. cbn.
    destruct (enrichEntry_position steps e) as (-> & -> & _), (enrichEntry_position steps e') as (-> & -> & _). done.
  - apply Forall_fmap. eapply Forall_impl; [exact R|]. intros e. cbn. destruct (enrichEntry_position steps e) as (-> & -> & _). done.
  - apply Forall_fmap. eapply Forall_impl; [exact I|]. intros e. cbn. destruct (enrichEntry_position steps e) as (-> & -> & -> & _). done.
Qed.

(** Distinct positions make distinct ids. *)
Lemma entry_id_inj e e' :
  0 ≤ SubEntryIndex e → 0 ≤ SubEntryIndex e' →
  (Itoa (TranscriptIndex e) ++ ":" ++ Itoa (SubEntryIndex e))%string = (Itoa (TranscriptIndex e') ++ ":" ++ Itoa (SubEntryIndex e'))%string →
  TranscriptIndex e = TranscriptIndex e' ∧ SubEntryIndex e = SubEntryIndex e'.
Proof.
  intros H H' E%(f_equal bytes). rewrite !bytes_app in E.
  assert (∀ n, 0 ≤ n → byte_of 58 ∉ bytes (Itoa n)) as Hd.
  { intros n Hn Hin%Itoa_digits; [|done]. vm_compute in Hin. by destruct Hin as [_ []]. }
  change (bytes ":") with [byte_of 58] in E. cbn [app] in E.
  apply app_sep_inj in E as [E1%bytes_inj%Itoa_inj E2%bytes_inj%Itoa_inj]; auto.
Qed.

Lemma rows_ids_distinct lo hi rows : rows_ok lo hi rows → NoDup (TranscriptEntryID <$> rows).
Proof.
  intros [S R I]. induction S as [|e rows S IH Hlt]; [constructor|]. inv R. inv I. rewrite fmap_cons. apply NoDup_cons. split; [|auto].
  intros (e' & E & He')%list_elem_of_fmap. rewrite Forall_forall in Hlt, H2, H4. specialize (Hlt e' He').
  rewrite H3, (H4 e' He') in E. apply entry_id_inj in E; [|lia|apply (H2 e' He')].
  unfold entry_lt in Hlt. lia.
Qed.

Section Run.
Context {UT : UnicodeTables} {PD : PolicyDecoder} (encodingForModel : string → option (string → list Z)) (planPrompt : string).
(** encoding/json and SHA-256. *)
Context (json_valid : string → bool) (json_decode : string → result string json).
Context (json_decode_map : string → result string (list (string * json))) (json_canonical : string → option string).
Context (marshal_messages : list ChatMessage → option string) (marshal_tools : list ToolDefinition → option string).
Context (marshal_tool : ToolDefinition → option string) (marshal_evidence : list evidence → string).
Context (marshal_inline : InlineReflection → string) (decode_inline : string → result string InlineReflection).
Context (sha256_hex : string → string).
(** The hook chain and the runner's provider id. *)
Context (preHooks : list (option PreHook)) (postHooks : list (option PostHook)) (denial_text : denial → string) (providerID : Z).
(** What the world answers in round [iteration]. The batch a resumed run starts with
    belongs to round [ResumeIteration - 1]. *)
Context (ctx : list Z) (ctx_err_text : string).
Context (steering : Z → list string) (ctx_err : Z → option (ctxError * bool)).
Context (turn : Z → list ChatMessage → result turnError TurnResponse).
Context (tool_execute : Z → preparedToolCall → option ToolResult * option string) (gives_up : Z → ToolBatchItem → bool).
Context (reflect_chat : Z → list ChatMessage → result string (string * Usage)).
Context (compact_chat : Z → nat → list ChatMessage → ChatOutcome) (compact_done : Z → nat → bool).
Context (compact_error_text : compactError → string) (repository : Z → option SnapshotRepository) (claim_token : Z → string).
(** The message sink, if any: the id of the first row and an error; its calls are told apart by the
    index of their first entry. *)
Context (sink : option (Z → list Entry → Z * option string)).

Definition persistTranscriptEntries (entries : list ChatMessage) (st : LoopState) : LoopState * Z :=
  match entries with
  | [] => (st, 0)
  | _ =>
    let advance rows st :=
      mkLoop (lp_refl st) (lp_base st) (lp_transcript st) (lp_messages st) (lp_persisted st + zlen entries) (lp_cursor st + zlen entries)
        (lp_previousRules st) (lp_followUp st) (lp_trace st) (lp_messageID st) (lp_rows st ++ rows) (lp_turns st) (lp_executed st)
        (lp_snapshots st) in
    match sink with
    | None => (advance [] st, 0)
    | Some persist =>
      let rows := EnrichTranscriptEntries (FromChatAt (sanitizePersistedEntries entries) (lp_cursor st)) (Steps (lp_result st)) in
      match persist (lp_cursor st) rows with
      | (firstID, None) => (advance rows st, firstID)
      | (firstID, Some e) => (advance rows (with_result (appendStep (persistFailed e)) st), firstID)
      end
    end
  end.

(** Messages the run produced: they join the transcript and are persisted. *)
Definition record (entries : list ChatMessage) (st : LoopState) : LoopState :=
  (persistTranscriptEntries entries (with_transcript (lp_transcript st ++ entries) (lp_persisted st) st)).1.

Definition reflectRequest (req : RunRequest) : ReflectRequest := mkReflectRequest (rq_Task req) (rq_Mode req) (rq_ReflectionPolicy req).

Definition reflect (req : RunRequest) (iteration : Z) (recent : list RunStep) (st : LoopState) : LoopState :=
  let '(s, feedback) := maybeReflect json_canonical marshal_evidence marshal_inline decode_inline (reflect_chat iteration)
                          (reflectRequest req) (lp_refl st) recent in
  let st := with_refl s st in
  match feedback with
  | None => st
  | Some m => record [m] (with_messages (lp_messages st ++ [m]) st)
  end.

Definition hydrated (st : LoopState) : LoopState :=
  with_result (λ r, set_Checkpoint ((λ c, hydrateCheckpoint c (lp_base st) (lp_transcript st) (Steps r) (lp_messages st)
    (lp_persisted st) (lp_cursor st)) <$> ResultCheckpoint r) r) st.

(** The batch of [calls], for the assistant message [assistant] of this round if there is one. *)
Definition runBatchOf (req : RunRequest) (iteration : Z) (assistant : list ChatMessage) (calls : list ToolCall) (approved : list string)
    (st : LoopState) : flow :=
  let messages := lp_messages st ++ assistant in
  let stepStart := length (Steps (lp_result st)) in
  let out := executeToolBatch json_valid json_decode json_decode_map sha256_hex preHooks postHooks denial_text ctx
               (tool_execute iteration) (gives_up iteration) ctx_err_text (batchRequest req) (lp_result st) messages calls approved in
  let st := with_executed (bo_executed out) (with_messages (bo_messages out) (with_result (λ _, bo_result out) st)) in
  let st := record assistant st in
  let st := record (drop (length messages) (bo_messages out)) st in
  if bo_stop out then Return (hydrated st) None
  else Continue (reflect req iteration (drop stepStart (Steps (lp_result st))) st).

(** *** A round *)

Definition steer (iteration : Z) (st : LoopState) : LoopState :=
  let new := (λ s, mkChatMessage RoleDeveloper s "" []) <$> filter (λ s, TrimSpace s ≠ ""%string) (steering iteration) in
  mkLoop (lp_refl st) (lp_base st) (lp_transcript st ++ new) (lp_messages st ++ new) (lp_persisted st + zlen new) (lp_cursor st + zlen new)
    (lp_previousRules st) (lp_followUp st) (lp_trace st) (lp_messageID st) (lp_rows st) (lp_turns st) (lp_executed st) (lp_snapshots st).

Definition stopContext (req : RunRequest) (e : ctxError) (paused : bool) (st : LoopState) : flow :=
  let st := with_result (finishWithContext e) st in
  if paused then
    Return (hydrated (with_result (λ r,
      let r := set_StopReason StopReasonPaused r in
      set_Checkpoint (Some (checkpointFromMessages (batchRequest req) (lp_messages st) None StopReasonPaused (Iterations r) (ToolCalls r))) r)
      st)) None
  else Return st None.

Definition errorStep (err : string) : RunStep := mkRunStep 0 StepTypeError "" "" "" "" "" "" false false err "".

Definition failRun (err : string) (st : LoopState) : flow :=
  Return (with_result (λ r, appendStep (errorStep err) (set_StopReason StopReasonLLMError r)) st) (Some err).

(** Compaction of the transcript before a follow-up round. *)
Definition compactRound (req : RunRequest) (iteration : Z) (tools : list ToolDefinition) (st : LoopState) : flow :=
  let status := runtimeTokenStatus encodingForModel marshal_messages marshal_tools marshal_tool req (lp_base st) (lp_transcript st) tools in
  if lp_followUp st && TokenLimitReached status then
    let previous := lp_transcript st in
    let '(kept, usage, ct) := compactRuntimeTranscript encodingForModel marshal_messages (compact_chat iteration) (compact_done iteration)
                                compact_error_text req previous in
    let st := spend usage (with_transcript kept (zlen kept) st) in
    let ct := mkCompactionTrace (ct_Scope ct) (ct_Status ct) (Measured status)
                (modelMessagesTokens encodingForModel marshal_messages req kept) (ct_SavedTokens ct) (Limit status)
                (ct_ModelCalled ct) (ct_Error ct) (ct_Summary ct) in
    let '(err, calls) := persistRuntimeCompaction encodingForModel marshal_messages sha256_hex (repository iteration) (claim_token iteration)
                           req providerID ct previous kept in
    let st := with_snapshots calls st in
    let '(status, error) := match err with
                            | Some e => ("failed"%string, ("persist runtime compaction: " ++ e)%string)
                            | None => (ct_Status ct, ct_Error ct)
                            end in
    let st := if (status =? "completed")%string && rq_TokenBudgetCompaction req
              then with_base (baseMessagesAfterTokenBudget encodingForModel req (lp_base st) (rq_RetainClientDeveloperMessages req)) st
              else st in
    let t := lp_trace st in
    let ct := mkCompactionTrace (ct_Scope ct) status (ct_BeforeTokens ct) (ct_AfterTokens ct) (ct_SavedTokens ct) (ct_Threshold ct)
                (ct_ModelCalled ct) error (ct_Summary ct) in
    let st := with_trace (mkLoopTrace (lt_Compactions t ++ [ct]) (lt_SavedTokens t + ct_SavedTokens ct) (lt_RuleRounds t)
                (lt_EstimatedPromptTokens t) (lt_ProviderPromptTokens t)) (lp_previousRules st) st in
    if (status =? "failed")%string then failRun error st else Continue st
  else Continue st.

Definition planningState (req : RunRequest) (tools : list ToolDefinition) (st : LoopState) : RulePlanningState :=
  mkPlanningState (rq_SystemPrompt req) (rq_Task req) (rq_Mode req) (rq_RuleRiskLevel req) (rq_RuleTags req)
    (toolNamesFromMessages (lp_transcript st)) tools (lp_base st) (lp_transcript st) (rq_MaxInputTokens req) (rq_ContextWindowTokens req)
    (rq_ReservedOutputTokens req) (rq_ContextSafetyMarginTokens req) (rq_MaxRuleTokens req) (rq_ProviderType req) (rq_Model req) (rq_Rules req).

Definition planRound (req : RunRequest) (iteration : Z) (tools : list ToolDefinition) (st : LoopState) : LoopState :=
  let plan := Plan encodingForModel marshal_tool (planningState req tools st) in
  let messages := assembleRoundMessages (lp_base st) (ruleMessages (plan_Rules plan)) (lp_transcript st) in
  let loaded := Loaded (plan_Trace plan) in
  let round := mkRuleRound (iteration + 1) (stringDifference loaded (lp_previousRules st)) (stringDifference (lp_previousRules st) loaded)
                 (plan_Trace plan) (plan_Budget plan) (estimateMessagesTokens messages) in
  let t := lp_trace st in
  with_trace (mkLoopTrace (lt_Compactions t) (lt_SavedTokens t) (lt_RuleRounds t ++ [round])
                (lt_EstimatedPromptTokens t + rnd_EstimatedPromptTokens round) (lt_ProviderPromptTokens t)) loaded
    (with_followUp false (with_result (set_Iterations (iteration + 1)) (with_messages messages st))).

Definition noteUsage (usage : Usage) (st : LoopState) : LoopState :=
  let t := lp_trace st in
  spend usage (with_trace (mkLoopTrace (lt_Compactions t) (lt_SavedTokens t) (lt_RuleRounds t) (lt_EstimatedPromptTokens t)
    (if 0 <? PromptTokens usage then lt_ProviderPromptTokens t + PromptTokens usage else lt_ProviderPromptTokens t)) (lp_previousRules st) st).

Definition assistantOf (resp : TurnResponse) : ChatMessage :=
  let m := tr_Message resp in
  if (msg_Role m =? "")%string then mkChatMessage RoleAssistant (msg_Content m) (msg_ToolCallID m) (msg_ToolCalls m) else m.

Definition responseSteps (assistant : ChatMessage) (plan : string) (r : RunResult) : RunResult :=
  let r := appendStep (plainStep StepTypeLLMResponse (msg_Role assistant) (msg_Content assistant) "" "" "") r in
  if (plan =? "")%string then r else appendStep (plainStep StepTypeProposedPlan RoleAssistant plan "" "" "") r.

Definition finalAnswer (assistant : ChatMessage) (st : LoopState) : flow :=
  let st := with_result (set_Stop StopReasonFinalAnswer (msg_Content assistant)) st in
  let '(st, id) := persistTranscriptEntries [assistant] st in
  let st := with_result (appendStep (finalAnswerStep (StripCitations (msg_Content assistant)))) st in
  Return (mkLoop (lp_refl st) (lp_base st) (lp_transcript st) (lp_messages st) (lp_persisted st) (lp_cursor st) (lp_previousRules st)
    (lp_followUp st) (lp_trace st) id (lp_rows st) (lp_turns st) (lp_executed st) (lp_snapshots st)) None.

Definition round (req : RunRequest) (tools : list ToolDefinition) (iteration : Z) (st : LoopState) : flow :=
  let st := steer iteration st in
  match ctx_err iteration with
  | Some (e, paused) => stopContext req e paused st
  | None =>
    match compactRound req iteration tools st with
    | Return st err => Return st err
    | Continue st =>
      let st := planRound req iteration tools st in
      let st := with_turn (lp_messages st) st in
      match turn iteration (lp_messages st) with
      | Err (TurnStopped e paused) => stopContext req e paused st
      | Err (TurnFailed text) => failRun text st
      | Ok resp =>
        let assistant := assistantOf resp in
        let st := with_result (responseSteps assistant (tr_ProposedPlan resp)) (noteUsage (tr_Usage resp) st) in
        match msg_ToolCalls assistant with
        | [] => finalAnswer assistant st
        | calls =>
          match runBatchOf req iteration [assistant] calls [] st with
          | Return st err => Return st err
          | Continue st => Continue (with_followUp true st)
          end
        end
      end
    end
  end.

Definition maxIterationsReached (st : LoopState) : LoopState :=
  let answer := "Agent stopped because max_iterations was exceeded."%string in
  with_result (λ r, appendStep (finalAnswerStep answer) (set_Stop StopReasonMaxIterations answer r)) st.

(** [for iteration := ...; iteration < MaxIterations; iteration++], [n] rounds to go. *)
Fixpoint rounds (req : RunRequest) (tools : list ToolDefinition) (n : nat) (iteration : Z) (st : LoopState) : LoopState * option string :=
  match n with
  | O => (maxIterationsReached st, None)
  | S n =>
    match round req tools iteration st with
    | Return st err => (st, err)
    | Continue st => rounds req tools n (iteration + 1) st
    end
  end.

(** *** The start of a run *)

Definition startResult (req : RunRequest) : RunResult := mkRunResult "" "" 0 0 (rq_ResumeSteps req) [] None None.

Definition startState (req : RunRequest) (base : list ChatMessage) : LoopState :=
  mkLoop (mkReflectState (startResult req) (mkReflectionTrace [] [] [] zeroUsage) zeroUsage) base [] base
    (if 0 <? rq_ResumePersistedMessageCount req then rq_ResumePersistedMessageCount req else 0) (rq_ResumeTranscriptCursor req) [] false
    (mkLoopTrace [] 0 [] 0 0) 0 [] [] [] [].

Definition freshStart (req : RunRequest) : result runError LoopState :=
  let '(base, t) := Build encodingForModel planPrompt (mkAssembler 0 0) (assembleRequest req) in
  if CoreOverflow t
  then Err (ErrMandatoryRuleBudgetExceeded (Assembler.MandatoryTokens t) (MandatoryBudgetTokens t) (MandatoryDeficitTokens t))
  else Ok (startState req base).

(** The state a resumed run starts from: entries past the persisted cursor are persisted. *)
Definition resumeState (req : RunRequest) : LoopState :=
  let st := startState req (match rq_ResumeBaseMessages req with [] => rq_ResumeMessages req | base => base end) in
  let transcript := rq_ResumeTranscript req in
  let persisted := if zlen transcript <? lp_persisted st then zlen transcript else lp_persisted st in
  let cursor := if lp_cursor st <? zlen transcript then zlen transcript else lp_cursor st in
  let st := mkLoop (lp_refl st) (lp_base st) transcript (lp_messages st) persisted cursor [] false (lp_trace st) 0 [] [] [] [] in
  let st := (persistTranscriptEntries (drop (Z.to_nat persisted) transcript) st).1 in
  with_result (λ r, set_ToolCalls (rq_ResumeToolCalls req) (set_Iterations (rq_ResumeIteration req) r))
    (with_messages (assembleRoundMessages (lp_base st) [] transcript) st).

Definition resumeBatch (req : RunRequest) (byName : gmap string RuntimeTool) (st : LoopState) : flow :=
  match findUnresolvedToolCalls (lp_messages st) byName with
  | [] => Continue st
  | unresolved => runBatchOf req (rq_ResumeIteration req - 1) [] unresolved (rq_ResumeApprovedToolCallIDs req) st
  end.

Definition Run (hasClient : bool) (req : RunRequest) : result runError (LoopState * option string) :=
  if negb hasClient then Err ErrNoToolCallingClient
  else if (TrimSpace (rq_Model req) =? "")%string then Err ErrModelRequired
  else if (TrimSpace (rq_Task req) =? "")%string then Err ErrTaskRequired
  else
    let req := set_Task (TrimSpace (rq_Task req)) req in
    match collectTools (rq_Tools req) ∅ with
    | Err e => Err e
    | Ok (tools, byName) =>
      match rq_ResumeMessages req with
      | [] =>
        match freshStart req with
        | Err e => Err e
        | Ok st => Ok (rounds req tools (Z.to_nat (MaxIterationsOf req)) 0 st)
        end
      | _ =>
        match resumeBatch req byName (resumeState req) with
        | Return st err => Ok (st, err)
        | Continue st =>
          Ok (rounds req tools (Z.to_nat (MaxIterationsOf req - rq_ResumeIteration req)) (rq_ResumeIteration req) st)
        end
      end
    end.

(** ** Invariants of a run *)

(** What one batch leaves of the run's result. *)
Definition batch_frame (r r' : RunResult) : Prop := Iterations r' = Iterations r ∧ Steps r `prefix_of` Steps r'.

Definition batch_stop (r r' : RunResult) : Prop :=
  batch_frame r r' ∧
  (StopReason r' = StopReasonMaxToolCalls ∧ ResultCheckpoint r' = ResultCheckpoint r ∨
   StopReason r' = StopReasonWaitingHuman ∧ ∃ cp call, ResultCheckpoint r' = Some cp ∧ PendingToolCall cp = Some call ∧
     cp_StopReason cp = StopReasonWaitingHuman ∧ cp_Iteration cp = Iterations r ∧ cp_ToolCalls cp = ToolCalls r').

Definition batch_goes_on (r r' : RunResult) : Prop := batch_frame r r' ∧ ResultCheckpoint r' = ResultCheckpoint r.

Lemma batch_frame_refl r : batch_frame r r.
Proof. by split. Qed.

Lemma batch_frame_trans r1 r2 r3 : batch_frame r1 r2 → batch_frame r2 r3 → batch_frame r1 r3.
Proof. intros [? ?] [? ?]. split; [congruence|by etrans]. Qed.

Lemma appendStep_frame s r : batch_frame r (appendStep s r).
Proof. split; [done|]. apply prefix_app_r. done. Qed.

Lemma prepareLoop_frame (req : BatchRequest) approved items r messages prepared :
  match prepareLoop preHooks denial_text ctx req approved items r messages prepared with
  | PrepareStop r' _ => batch_stop r r'
  | PrepareDone r' _ _ => batch_goes_on r r'
  end.
Proof.
  revert r messages prepared. induction items as [|item items IH]; intros r messages prepared; cbn [prepareLoop].
  { by split; [apply batch_frame_refl|]. }
  assert (∀ r1 messages1 prepared1, batch_goes_on r r1 →
    match prepareLoop preHooks denial_text ctx req approved items r1 messages1 prepared1 with
    | PrepareStop r' _ => batch_stop r r'
    | PrepareDone r' _ _ => batch_goes_on r r'
    end) as Hgo.
  { intros r1 m1 p1 [Hf Hc]. specialize (IH r1 m1 p1). destruct (prepareLoop _ _ _ _ _ items r1 m1 p1) as [r'|r' ? ?].
    - destruct IH as [Hf' Hs]. split; [by eapply batch_frame_trans|]. destruct Hf as [Hi _]. rewrite Hc, Hi in Hs. done.
    - destruct IH as [Hf' Hc']. split; [by eapply batch_frame_trans|congruence]. }
  assert (∀ r1, Steps r1 = Steps r → Iterations r1 = Iterations r → ResultCheckpoint r1 = ResultCheckpoint r → batch_goes_on r r1) as Hsame.
  { intros r1 Hs Hi Hc. split; [split; [done|by rewrite Hs]|done]. }
  destruct (req_MaxToolCalls req <=? _).
  { split; [|by left]. apply (batch_frame_trans _ (set_Stop StopReasonMaxToolCalls "Agent stopped because max_tool_calls was exceeded." r));
      [by split|apply appendStep_frame]. }
  set (r1 := appendStep (toolCallStep (Call item)) r).
  assert (batch_goes_on r r1) as H1 by (split; [apply appendStep_frame|done]).
  assert (∀ s, batch_goes_on r (appendStep s r1)) as H2.
  { intros s. split; [eapply batch_frame_trans; apply appendStep_frame|done]. }
  destruct (Issue item); [apply Hgo; split; [eapply batch_frame_trans; [apply H1|]; split; [done|by apply prefix_app_r]|done]|].
  destruct (Tool item) as [tool|]; [|apply Hgo; split; [eapply batch_frame_trans; [apply H1|]; split; [done|by apply prefix_app_r]|done]].
  cbv zeta. set (r2 := set_HookTraces _ r1).
  assert (batch_frame r r2) as Hf2 by (destruct H1 as [[? ?] _]; by split).
  assert (batch_goes_on r r2) as H3 by (by split).
  assert (∀ s, batch_goes_on r (appendStep s r2)) as H4.
  { intros s. split; [eapply batch_frame_trans; [exact Hf2|apply appendStep_frame]|done]. }
  destruct (pre_Approval _) as [a|].
  - case_bool_decide; [destruct (pre_Denied _); apply Hgo; auto|].
    split.
    + eapply batch_frame_trans; [exact Hf2|]. unfold waitForApproval. cbv zeta.
      eapply batch_frame_trans; [|apply appendStep_frame]. split; [done|]. cbn. by apply prefix_app_r.
    + right. split; [done|]. eexists _, _. cbn. split_and!; done.
  - destruct (pre_Denied _); apply Hgo; auto.
Qed.

Lemma recordResults_frame req outs r messages :
  batch_goes_on r (recordResults postHooks req outs r messages).1.
Proof.
  revert r messages. induction outs as [|[p o] outs IH]; intros r messages; cbn [recordResults]; [by split; [apply batch_frame_refl|]|].
  destruct (default (emptyResult, None) o) as [res err]. cbv zeta.
  set (r1 := appendStep _ _). destruct (IH r1 (messages ++ [toolMessage (call_ID (pc_call p))
    (out_Content (AfterToolUse postHooks (postRequest req p res err)))])) as [Hf Hc].
  split; [|done]. eapply batch_frame_trans; [|exact Hf]. subst r1. eapply batch_frame_trans; [|apply appendStep_frame]. by split.
Qed.

Lemma executeToolBatch_frame iteration (req : BatchRequest) r messages calls approved :
  let out := executeToolBatch json_valid json_decode json_decode_map sha256_hex preHooks postHooks denial_text ctx
               (tool_execute iteration) (gives_up iteration) ctx_err_text req r messages calls approved in
  if bo_stop out then batch_stop r (bo_result out) else batch_goes_on r (bo_result out).
Proof.
  unfold executeToolBatch. pose proof (prepareLoop_frame req approved
    (normalizedBatch json_valid json_decode json_decode_map sha256_hex req calls) r messages []) as Hp.
  destruct (prepareLoop _ _ _ _ _ _ _ _ _) as [r1 m1|r1 m1 prepared]; [done|]. cbv zeta.
  destruct (list_find _ _) as [[i [p o]]|] eqn:Ef.
  - apply list_find_Some in Ef as (_ & [a Ha] & _). rewrite Ha. cbn [bo_stop bo_result].
    destruct Hp as [[Hi Hs] Hc]. split.
    + split; [done|]. etrans; [exact Hs|]. cbn. rewrite <- app_assoc. by apply prefix_app_r.
    + right. split; [done|]. eexists _, _. cbn. split_and!; done.
  - destruct (recordResults _ _ _ _ _) as [r2 m2] eqn:Er. cbn [bo_stop bo_result].
    pose proof (recordResults_frame req (zip prepared (outcomesOf (tool_execute iteration) (gives_up iteration) ctx_err_text prepared))
      (add_ToolCalls (zlen prepared) r1) m1) as [[Hi2 Hs2] Hc2]. rewrite Er in *. cbn in *. destruct Hp as [[Hi Hs] Hc].
    split; [split; [congruence|by etrans]|congruence].
Qed.

(** *** The loop invariant *)

(** Where the calls of a batch come from, and which ids were approved for it: the model's answer of a
    round, with none; or the calls that a resumed run found unanswered, with the ids of the resumption. *)
Definition asked (req : RunRequest) (calls : list ToolCall) (approved : list string) : Prop :=
  (approved = [] ∧ ∃ iteration prompt resp, turn iteration prompt = Ok resp ∧ calls = msg_ToolCalls (assistantOf resp)) ∨
  (approved = rq_ResumeApprovedToolCallIDs req ∧ rq_ResumeMessages req ≠ [] ∧
    ∃ byName, calls = findUnresolvedToolCalls (lp_messages (resumeState req)) byName).

(** A call was executed only if the gate let it: it is a call of such a batch, normalized without an issue to
    a tool of the request whose schema its arguments match, the hooks denied nothing, and they asked for no
    approval or its id was approved. *)
Definition gate_passed (req : RunRequest) (call : ToolCall) : Prop :=
  ∃ calls approved item tool, asked req calls approved ∧
    item ∈ normalizedBatch json_valid json_decode json_decode_map sha256_hex (batchRequest req) calls ∧ Call item = call ∧ Issue item = None ∧ Tool item = Some tool ∧
    Some tool ∈ rq_Tools req ∧ call_Name call = TrimSpace (tool_Name tool) ∧
    json_valid (call_Arguments call) = true ∧ ValidateToolArguments json_valid json_decode json_decode_map (tool_Parameters tool) (call_Arguments call) = None ∧
    let pre := BeforeToolUse preHooks ctx (preRequest (batchRequest req) call (MetadataOf (Some tool))) in
    pre_Denied pre = None ∧ (pre_Approval pre = None ∨ call_ID call ∈ approved).

Lemma addTools_registered tools acc ts name tool : addTools tools acc = Ok ts → ts !! name = Some tool →
  acc !! name = Some tool ∨ (Some tool ∈ tools ∧ name = TrimSpace (tool_Name tool)).
Proof.
  revert acc. induction tools as [|[t|] tools IH]; intros acc; cbn [addTools]; [intros [= ->]; by left| |].
  - cbv zeta. case_match; [intros Ha Hl; destruct (IH _ Ha Hl) as [?|[? ?]]; [by left|right; split; [by right|done]]|].
    case_match; [done|]. intros Ha Hl. destruct (IH _ Ha Hl) as [Hi|[? ?]]; [|right; split; [by right|done]].
    rewrite lookup_insert_Some in Hi. destruct Hi as [[<- <-]|[_ ?]]; [right; split; [left|done]|by left].
  - intros Ha Hl. destruct (IH _ Ha Hl) as [?|[? ?]]; [by left|right; split; [by right|done]].
Qed.

(** What normalization promises of an item without an issue. *)
Lemma normalized_registered (req : BatchRequest) calls item tool :
  item ∈ normalizedBatch json_valid json_decode json_decode_map sha256_hex req calls → Issue item = None → Tool item = Some tool →
  Some tool ∈ req_Tools req ∧ call_Name (Call item) = TrimSpace (tool_Name tool) ∧ json_valid (call_Arguments (Call item)) = true ∧
  ValidateToolArguments json_valid json_decode json_decode_map (tool_Parameters tool) (call_Arguments (Call item)) = None.
Proof.
  unfold normalizedBatch. destruct (NewToolCallNormalizer (req_Tools req) []) as [n|e] eqn:Hn; [|by intros (c & -> & _)%list_elem_of_fmap].
  intros Hin Hi Ht. destruct (normalize_batch_safe json_valid json_decode json_decode_map sha256_hex _ _ _ calls Hn) as [_ Hs].
  rewrite Forall_forall in Hs. destruct (Hs item Hin) as [Hitem _]. unfold item_safe in Hitem. rewrite Hi in Hitem. destruct Hitem as (t & Ht' & Hl & _ & Hv & Ha).
  rewrite Ht in Ht'. injection Ht' as <-. unfold NewToolCallNormalizer in Hn. destruct (addTools (req_Tools req) ∅) as [ts|] eqn:Hts; [|done]. cbn [addAliases] in Hn. injection Hn as <-.
  cbn [Tools] in Hl. destruct (addTools_registered _ _ _ _ _ Hts Hl) as [He|[? ?]]; [by rewrite lookup_empty in He|]. done.
Qed.

(** The state between the operations of a round: [lo] is the cursor and [calls] the number of tool calls the run started with. *)
Record running (req : RunRequest) (lo calls : Z) (st : LoopState) : Prop := mkRunning {
  run_count : lp_persisted st = zlen (lp_transcript st);
  run_lo : lo ≤ lp_cursor st;
  run_rows : rows_ok lo (lp_cursor st) (lp_rows st);
  run_calls : calls + zlen (lp_executed st) ≤ ToolCalls (lp_result st) ≤ Z.max (MaxToolCallsOf req) calls;
  run_reflection : reflection_inv (rq_ReflectionPolicy req) (rs_trace (lp_refl st));
  run_checkpoint : ResultCheckpoint (lp_result st) = None;
  run_gate : Forall (gate_passed req) (lp_executed st)
}.

(** A checkpoint that describes the state it was taken in. *)
Definition describes (cp : Checkpoint) (st : LoopState) : Prop :=
  Transcript cp = lp_transcript st ∧ PersistedMessageCount cp = zlen (Transcript cp) ∧ TranscriptCursor cp = lp_cursor st ∧
  BaseMessages cp = lp_base st ∧ cp_Messages cp = lp_messages st ∧ cp_Steps cp = Steps (lp_result st) ∧
  cp_Iteration cp = Iterations (lp_result st) ∧ cp_ToolCalls cp = ToolCalls (lp_result st) ∧
  cp_StopReason cp = StopReason (lp_result st).

(** How a run ends. *)
Definition ended (st : LoopState) (err : option string) : Prop :=
  match err, ResultCheckpoint (lp_result st) with
  | Some _, None => StopReason (lp_result st) = StopReasonLLMError
  | None, None => StopReason (lp_result st) ∈ [StopReasonFinalAnswer; StopReasonMaxIterations; StopReasonMaxToolCalls;
                                               StopReasonCancelled; StopReasonTimeout]
  | None, Some cp => StopReason (lp_result st) ∈ [StopReasonWaitingHuman; StopReasonPaused] ∧ describes cp st ∧
                     (StopReason (lp_result st) = StopReasonWaitingHuman → is_Some (PendingToolCall cp))
  | Some _, Some _ => False
  end.

Record finished (req : RunRequest) (lo calls : Z) (st : LoopState) (err : option string) : Prop := mkFinished {
  fin_rows : lo ≤ lp_cursor st ∧ rows_ok lo (lp_cursor st) (lp_rows st);
  fin_calls : calls + zlen (lp_executed st) ≤ Z.max (MaxToolCallsOf req) calls ∧
              calls ≤ ToolCalls (lp_result st) ≤ Z.max (MaxToolCallsOf req) calls;
  fin_reflection : reflection_inv (rq_ReflectionPolicy req) (rs_trace (lp_refl st));
  fin_ended : ended st err;
  fin_gate : Forall (gate_passed req) (lp_executed st)
}.

Definition flow_ok (req : RunRequest) (lo calls : Z) (f : flow) : Prop :=
  match f with
  | Continue st => running req lo calls st
  | Return st err => finished req lo calls st err
  end.

(** What an operation that only talks to the model or the sink leaves alone. *)
Record quiet (st st' : LoopState) : Prop := mkQuiet {
  q_result : ToolCalls (lp_result st') = ToolCalls (lp_result st) ∧ ResultCheckpoint (lp_result st') = ResultCheckpoint (lp_result st) ∧
             Iterations (lp_result st') = Iterations (lp_result st) ∧ StopReason (lp_result st') = StopReason (lp_result st);
  q_trace : rs_trace (lp_refl st') = rs_trace (lp_refl st);
  q_executed : lp_executed st' = lp_executed st;
  q_turns : lp_turns st' = lp_turns st
}.

Lemma persist_spec entries st :
  let st' := (persistTranscriptEntries entries st).1 in
  quiet st st' ∧ lp_persisted st' = lp_persisted st + zlen entries ∧ lp_cursor st' = lp_cursor st + zlen entries ∧
  lp_transcript st' = lp_transcript st ∧ lp_messages st' = lp_messages st ∧ lp_base st' = lp_base st ∧
  (∀ lo, lo ≤ lp_cursor st → rows_ok lo (lp_cursor st) (lp_rows st) → rows_ok lo (lp_cursor st') (lp_rows st')).
Proof.
  unfold persistTranscriptEntries. destruct entries as [|m entries].
  { cbn. unfold zlen. cbn. rewrite !Z.add_0_r. by split_and!; [split|..]. }
  assert (∀ lo st1 rows, lo ≤ lp_cursor st1 → rows_ok lo (lp_cursor st1) (lp_rows st1) →
    rows = EnrichTranscriptEntries (FromChatAt (sanitizePersistedEntries (m :: entries)) (lp_cursor st1)) (Steps (lp_result st)) ∨ rows = [] →
    rows_ok lo (lp_cursor st1 + zlen (m :: entries)) (lp_rows st1 ++ rows)) as Hrows.
  { intros lo st1 rows Hlo Hok Hr. apply (rows_ok_app lo (lp_cursor st1)); [unfold zlen; lia|done|].
    destruct Hr as [->| ->]; [|apply rows_ok_nil]. apply enrich_rows.
    pose proof (FromChatAt_rows (sanitizePersistedEntries (m :: entries)) (lp_cursor st1)) as Hf.
    unfold zlen, sanitizePersistedEntries in *. by rewrite length_fmap in Hf. }
  destruct sink as [persist|]; [|split_and!; try done; intros; apply Hrows; auto].
  destruct (persist _ _) as [id [e|]]; (split_and!; try done; intros; apply Hrows; auto).
Qed.

(** The round counter and the model turns, which only a round's own turn moves. *)
Definition still (st st' : LoopState) : Prop := Iterations (lp_result st') = Iterations (lp_result st) ∧ lp_turns st' = lp_turns st.

Lemma still_refl st : still st st.
Proof. done. Qed.

Lemma still_trans st1 st2 st3 : still st1 st2 → still st2 st3 → still st1 st3.
Proof. intros [? ?] [? ?]. split; congruence. Qed.

Lemma quiet_still st st' : quiet st st' → still st st'.
Proof. intros [(_ & _ & ? & _) _ _ ?]. done. Qed.

Lemma quiet_running req lo calls st st' :
  quiet st st' → lp_persisted st' = zlen (lp_transcript st') → lp_cursor st ≤ lp_cursor st' →
  rows_ok lo (lp_cursor st') (lp_rows st') → running req lo calls st → running req lo calls st'.
Proof. intros [(H1 & H2 & _ & _) H3 H4 _] Hc Hcur Hr []. split; rewrite ?H1, ?H2, ?H3, ?H4; auto. lia. Qed.

Lemma record_spec entries st :
  let st' := record entries st in
  quiet st st' ∧ lp_transcript st' = lp_transcript st ++ entries ∧ lp_messages st' = lp_messages st ∧ lp_base st' = lp_base st ∧
  (lp_persisted st = zlen (lp_transcript st) → lp_persisted st' = zlen (lp_transcript st')) ∧ lp_cursor st ≤ lp_cursor st' ∧
  ∀ lo, lo ≤ lp_cursor st → rows_ok lo (lp_cursor st) (lp_rows st) → rows_ok lo (lp_cursor st') (lp_rows st').
Proof.
  unfold record. destruct (persist_spec entries (with_transcript (lp_transcript st ++ entries) (lp_persisted st) st))
    as (Hq & Hp & Hc & Ht & Hm & Hb & Hr). cbn in Hp, Hc, Ht, Hm, Hb, Hr.
  set (st' := (persistTranscriptEntries _ _).1) in *. cbv zeta.
  assert (quiet st st') as Hq' by (destruct Hq; by split).
  split_and!; try done; [|rewrite Hc; unfold zlen; lia].
  intros Hcount. rewrite Hp, Ht, Hcount. unfold zlen. rewrite length_app. lia.
Qed.

Lemma record_running req lo calls entries st : running req lo calls st → running req lo calls (record entries st).
Proof.
  intros Hrun. destruct (record_spec entries st) as (Hq & _ & _ & _ & Hp & Hc & Hr). pose proof Hrun as [Hcount Hlo Hrows _ _ _ _].
  eapply quiet_running; eauto.
Qed.

Lemma steer_running req lo calls iteration st : running req lo calls st → running req lo calls (steer iteration st).
Proof.
  intros [Hcount Hlo Hrows Hcalls Hrefl Hcp Hg]. unfold steer. set (new := _ <$> _).
  assert (0 ≤ zlen new) by (unfold zlen; lia). split; cbn; try done.
  - rewrite Hcount. unfold zlen. rewrite length_app. lia.
  - lia.
  - eapply rows_ok_weaken; [|exact Hrows]. lia.
Qed.

Lemma maybeReflect_result chat_ req st recent :
  let r := rs_result st in
  let r' := rs_result (maybeReflect json_canonical marshal_evidence marshal_inline decode_inline chat_ req st recent).1 in
  ToolCalls r' = ToolCalls r ∧ ResultCheckpoint r' = ResultCheckpoint r ∧ Iterations r' = Iterations r ∧ StopReason r' = StopReason r.
Proof. unfold maybeReflect. cbv zeta. repeat case_match; done. Qed.

Lemma reflect_running req lo calls iteration recent st :
  running req lo calls st → running req lo calls (reflect req iteration recent st) ∧ still st (reflect req iteration recent st).
Proof.
  intros Hrun. unfold reflect.
  pose proof (maybeReflect_result (reflect_chat iteration) (reflectRequest req) (lp_refl st) recent) as (H1 & H2 & H3 & _).
  pose proof (maybeReflect_inv json_canonical marshal_evidence marshal_inline decode_inline (reflect_chat iteration)
    (reflectRequest req) (lp_refl st) recent (run_reflection _ _ _ _ Hrun)) as Hinv.
  destruct (maybeReflect _ _ _ _ _ _ _ _) as [s feedback]. cbn in *.
  assert (running req lo calls (with_refl s st)) as Hrun'.
  { destruct Hrun as [Hcount Hlo Hrows Hcalls Hrefl Hcp Hg]. split; cbn; try done.
    - unfold lp_result. cbn. rewrite H1. done.
    - unfold lp_result. cbn. rewrite H2. done. }
  assert (still st (with_refl s st)) as Hst by done.
  destruct feedback as [m|]; [|done].
  set (st1 := with_messages _ (with_refl s st)).
  assert (running req lo calls st1) as Hrun1 by (destruct Hrun'; by split).
  split; [by apply record_running|]. eapply still_trans; [exact Hst|].
  apply (still_trans _ st1); [done|]. apply quiet_still, record_spec.
Qed.

(** A state that ends a run from a running one. *)
Lemma finish_running req lo calls st st' err :
  running req lo calls st → lp_cursor st' = lp_cursor st → lp_rows st' = lp_rows st → lp_executed st' = lp_executed st →
  ToolCalls (lp_result st') = ToolCalls (lp_result st) → rs_trace (lp_refl st') = rs_trace (lp_refl st) → ended st' err →
  finished req lo calls st' err.
Proof.
  intros [Hcount Hlo Hrows Hcalls Hrefl Hcp Hg] H1 H2 H3 H4 H5 He. split; rewrite ?H1, ?H2, ?H3, ?H4, ?H5; try done.
  unfold zlen in *. split; lia.
Qed.

Lemma stopContext_ok req lo calls e paused st :
  running req lo calls st → flow_ok req lo calls (stopContext req e paused st) ∧ still st (flow_state (stopContext req e paused st)).
Proof.
  intros Hrun. pose proof Hrun as [Hcount _ _ _ _ Hcp _].
  unfold stopContext. destruct paused; (split; [|done]); (eapply finish_running; [exact Hrun|done..|]); unfold ended; cbn.
  - split_and!; try done. right. left.
  - unfold lp_result in Hcp. rewrite Hcp. destruct e; cbn; [do 3 right; left|do 4 right; left].
Qed.

Lemma failRun_ok req lo calls text st :
  running req lo calls st → flow_ok req lo calls (failRun text st) ∧ still st (flow_state (failRun text st)).
Proof.
  intros Hrun. pose proof Hrun as [_ _ _ _ _ Hcp _]. split; [|done].
  eapply finish_running; [exact Hrun|done..|]. unfold ended. cbn. unfold lp_result in Hcp. by rewrite Hcp.
Qed.

Lemma compactRound_ok req lo calls iteration tools st :
  running req lo calls st →
  flow_ok req lo calls (compactRound req iteration tools st) ∧ still st (flow_state (compactRound req iteration tools st)).
Proof.
  intros Hrun. unfold compactRound. destruct (lp_followUp st && _); [|done].
  destruct (compactRuntimeTranscript _ _ _ _ _ _ _) as [[kept usage] ct].
  set (ct' := mkCompactionTrace _ _ _ _ _ _ _ _ _). cbv zeta.
  destruct (persistRuntimeCompaction _ _ _ _ _ _ _ _ _ _) as [err snaps].
  assert (∀ status error t base rules,
    let st1 := with_trace t rules (with_base base (with_snapshots snaps (spend usage (with_transcript kept (zlen kept) st)))) in
    running req lo calls st1 ∧ still st st1 ∧
    flow_ok req lo calls (if (status =? "failed")%string then failRun error st1 else Continue st1) ∧
    still st (flow_state (if (status =? "failed")%string then failRun error st1 else Continue st1))) as Hall.
  { intros status error t base rules. cbv zeta. set (st1 := with_trace _ _ _).
    assert (running req lo calls st1) as H1 by (destruct Hrun; by split).
    assert (still st st1) as H2 by done.
    destruct (status =? "failed")%string; [|done]. destruct (failRun_ok req lo calls error st1 H1) as [H3 H4].
    split_and!; try done. }
  destruct (match err with Some e => _ | None => _ end) as [status error].
  destruct (_ && rq_TokenBudgetCompaction req);
    [edestruct Hall as (_ & _ & H3 & H4); split; [exact H3|exact H4]|].
  edestruct Hall as (_ & _ & H3 & H4). split; [exact H3|exact H4].
Qed.

Lemma planRound_running req lo calls iteration tools st :
  running req lo calls st →
  let st' := planRound req iteration tools st in
  running req lo calls st' ∧ Iterations (lp_result st') = iteration + 1 ∧ lp_turns st' = lp_turns st.
Proof. intros []. by split_and!; [split|..]. Qed.

Lemma finalAnswer_ok req lo calls assistant st :
  running req lo calls st → flow_ok req lo calls (finalAnswer assistant st) ∧ still st (flow_state (finalAnswer assistant st)).
Proof.
  intros Hrun. unfold finalAnswer. set (st1 := with_result _ st).
  pose proof Hrun as [Hcount Hlo Hrows Hcalls Hrefl Hcp Hg].
  destruct (persist_spec [assistant] st1) as (Hq & _ & Hc & _ & _ & _ & Hr).
  destruct (persistTranscriptEntries [assistant] st1) as [st2 id]. cbn [fst] in *.
  destruct Hq as [(H1 & H2 & H3 & H4) H5 H6 H7]. cbn in H1, H2, H3, H4, H5, H6, H7, Hc. split; [split|]; cbn.
  - split; [rewrite Hc; unfold zlen; cbn; lia|by apply Hr].
  - unfold lp_result in *. cbn in *. rewrite H1, H6. unfold zlen in *. lia.
  - by rewrite H5.
  - unfold ended, lp_result in *. cbn in *. rewrite H2, Hcp, H4. left.
  - by rewrite H6.
  - unfold still, lp_result in *. cbn in *. done.
Qed.

Lemma gate_batch req calls approved item p : asked req calls approved →
  item ∈ normalizedBatch json_valid json_decode json_decode_map sha256_hex (batchRequest req) calls →
  permitted preHooks ctx (batchRequest req) approved item p → gate_passed req (pc_call p).
Proof.
  intros Hask Hin (H1 & H2 & H3 & H4 & H5 & H6 & H7). destruct (normalized_registered _ _ _ _ Hin H2 H3) as (R1 & R2 & R3 & R4). rewrite H1 in *. rewrite H4 in *.
  exists calls, approved, item, (pc_tool p). split_and!; done.
Qed.

(** The state right after a batch, before its messages are recorded. *)
Lemma batch_state req lo calls iteration assistant cs approved st :
  asked req cs approved →
  running req lo calls st →
  let messages := lp_messages st ++ assistant in
  let out := executeToolBatch json_valid json_decode json_decode_map sha256_hex preHooks postHooks denial_text ctx
               (tool_execute iteration) (gives_up iteration) ctx_err_text (batchRequest req) (lp_result st) messages cs approved in
  let st1 := with_executed (bo_executed out) (with_messages (bo_messages out) (with_result (λ _, bo_result out) st)) in
  still st st1 ∧ Forall (gate_passed req) (lp_executed st1) ∧ calls + zlen (lp_executed st1) ≤ Z.max (MaxToolCallsOf req) calls ∧
  (if bo_stop out then ToolCalls (bo_result out) = ToolCalls (lp_result st) ∧ batch_stop (lp_result st) (bo_result out)
   else running req lo calls st1).
Proof.
  intros Hsub Hrun messages out st1. pose proof Hrun as [Hcount Hlo Hrows Hcalls Hrefl Hcp Hg].
  pose proof (executeToolBatch_frame iteration (batchRequest req) (lp_result st) messages cs approved) as Hframe.
  destruct (executeToolBatch_spec json_valid json_decode json_decode_map sha256_hex preHooks postHooks denial_text ctx
    (tool_execute iteration) (gives_up iteration) ctx_err_text (batchRequest req) (lp_result st) messages cs approved)
    as (new & prepared & Hm & Hs & Hperm & Hb & Hstop & Hgo).
  cbv zeta in Hframe. fold out in Hframe, Hm, Hs, Hstop, Hgo.
  assert (Forall (gate_passed req) (bo_executed out)) as Hge.
  { apply Forall_forall. intros c Hc. apply (sublist_subseteq _ _ Hs), list_elem_of_fmap in Hc as (p & -> & Hp).
    rewrite Forall_forall in Hperm. destruct (Hperm p Hp) as (item & Hit & Hpm). by eapply gate_batch. }
  apply sublist_length in Hs. rewrite length_fmap in Hs. cbn [req_MaxToolCalls batchRequest] in Hb.
  assert (Forall (gate_passed req) (lp_executed st1)) as Hg1 by (cbn; by apply Forall_app).
  assert (calls + zlen (lp_executed st1) ≤ Z.max (MaxToolCallsOf req) calls) as Hn.
  { cbn. unfold zlen in *. rewrite length_app. lia. }
  destruct (bo_stop out).
  - pose proof Hframe as [[Hi _] _]. split; [by split|]. split; [done|]. split; [done|]. split; [auto|done].
  - destruct Hframe as [[Hi _] Hc]. destruct (Hgo eq_refl) as (Ht & _).
    split; [by split|]. split; [done|]. split; [done|]. split; cbn; try done.
    + unfold zlen in *. rewrite length_app, Ht. lia.
    + by rewrite Hc.
Qed.

(** Completing the checkpoint of a stopped batch. *)
Lemma hydrated_ended st :
  lp_persisted st = zlen (lp_transcript st) →
  let r := lp_result st in
  StopReason r = StopReasonMaxToolCalls ∧ ResultCheckpoint r = None ∨
  StopReason r = StopReasonWaitingHuman ∧ (∃ cp call, ResultCheckpoint r = Some cp ∧ PendingToolCall cp = Some call ∧
    cp_StopReason cp = StopReasonWaitingHuman ∧ cp_Iteration cp = Iterations r ∧ cp_ToolCalls cp = ToolCalls r) →
  ended (hydrated st) None.
Proof.
  intros Hcount. cbv zeta. unfold ended, hydrated, lp_result in *. cbn.
  intros [[Hs Hc]|(Hs & cp & call & Hc & Hp & Hcs & Hi & Ht)]; rewrite Hc; cbn; rewrite Hs.
  - do 2 right. left.
  - split; [left|]. split; [|by rewrite Hp]. unfold describes, lp_result. cbn. rewrite Hs. split_and!; done.
Qed.

Lemma runBatchOf_ok req lo calls iteration assistant cs approved st :
  asked req cs approved →
  running req lo calls st →
  flow_ok req lo calls (runBatchOf req iteration assistant cs approved st) ∧
  still st (flow_state (runBatchOf req iteration assistant cs approved st)).
Proof.
  intros Hsub Hrun. pose proof (batch_state req lo calls iteration assistant cs approved st Hsub Hrun) as Hb. cbv zeta in Hb.
  unfold runBatchOf. set (out := executeToolBatch _ _ _ _ _ _ _ _ _ _ _ _ _ _ _ _) in *. cbv zeta.
  set (st1 := with_executed _ _) in *. destruct Hb as (Hst1 & Hg1 & Hn1 & Hb).
  set (st2 := record assistant st1). set (st3 := record (drop (length (lp_messages st ++ assistant)) (bo_messages out)) st2).
  destruct (record_spec assistant st1) as (Hq2 & _ & Hm2 & _ & Hp2 & Hc2 & Hr2). fold st2 in Hq2, Hm2, Hp2, Hc2, Hr2.
  destruct (record_spec (drop (length (lp_messages st ++ assistant)) (bo_messages out)) st2) as (Hq3 & _ & Hm3 & _ & Hp3 & Hc3 & Hr3).
  fold st3 in Hq3, Hm3, Hp3, Hc3, Hr3.
  assert (still st st3) as Hst3.
  { eapply still_trans; [exact Hst1|]. eapply still_trans; [apply quiet_still, Hq2|apply quiet_still, Hq3]. }
  destruct (bo_stop out) eqn:Estop.
  - split; [|exact Hst3]. destruct Hb as [Htool [Hframe Hreason]].
    pose proof Hrun as [Hcount Hlo Hrows Hcalls Hrefl Hcp Hg].
    destruct Hq2 as [(A1 & A2 & A3 & A4) A5 A6 _], Hq3 as [(B1 & B2 & B3 & B4) B5 B6 _].
    rewrite A1 in B1. rewrite A2 in B2. rewrite A3 in B3. rewrite A4 in B4. rewrite A5 in B5. rewrite A6 in B6. cbn in B1, B2, B3, B4, B5.
    assert (lo ≤ lp_cursor st2) as Hlo2 by (cbn in Hc2; lia).
    split; cbn.
    + split; [lia|]. apply Hr3; [done|]. by apply Hr2.
    + unfold lp_result in *. cbn. rewrite B1, B6, Htool. unfold zlen in *. lia.
    + by rewrite B5.
    + apply hydrated_ended; [auto|]. rewrite B1, B2, B3, B4. rewrite Hcp in Hreason. destruct Hframe as [Hi _]. rewrite Hi. exact Hreason.
    + by rewrite B6.
  - assert (running req lo calls st3) as Hrun3 by (apply record_running, record_running, Hb).
    destruct (reflect_running req lo calls iteration (drop (length (Steps (lp_result st))) (Steps (lp_result st3))) st3 Hrun3) as [H1 H2].
    split; [exact H1|]. eapply still_trans; [exact Hst3|exact H2].
Qed.


(** *** Rounds *)

(** The turn of round [iteration] was taken, and the round counter follows it. *)
Definition took_turn (iteration : Z) (st st' : LoopState) : Prop :=
  Iterations (lp_result st') = iteration + 1 ∧ ∃ prompt, lp_turns st' = lp_turns st ++ [prompt].

Definition advanced (iteration : Z) (st : LoopState) (f : flow) : Prop :=
  match f with
  | Continue st' => took_turn iteration st st'
  | Return st' _ => still st st' ∨ took_turn iteration st st'
  end.

Lemma round_ok req tools lo calls iteration st :
  running req lo calls st →
  flow_ok req lo calls (round req tools iteration st) ∧ advanced iteration st (round req tools iteration st).
Proof.
  intros Hrun. unfold round. apply (steer_running _ _ _ iteration) in Hrun. set (st0 := steer iteration st) in *.
  assert (still st st0) as Hst0 by done. cbv zeta.
  destruct (ctx_err iteration) as [[e paused]|].
  { destruct (stopContext_ok req lo calls e paused st0 Hrun) as [H1 H2]. split; [exact H1|].
    unfold stopContext in *. destruct paused; left; by eapply still_trans. }
  destruct (compactRound_ok req lo calls iteration tools st0 Hrun) as [Hc1 Hc2].
  destruct (compactRound req iteration tools st0) as [st1|st1 err]; cbn [flow_ok flow_state] in *;
    [|split; [exact Hc1|left; by eapply still_trans]].
  destruct (planRound_running req lo calls iteration tools st1 Hc1) as (Hp1 & Hp2 & Hp3).
  set (st2 := planRound req iteration tools st1) in *. set (st3 := with_turn (lp_messages st2) st2).
  assert (running req lo calls st3) as Hrun3 by (destruct Hp1; by split).
  assert (lp_turns st3 = lp_turns st ++ [lp_messages st2]) as Ht3.
  { subst st3. cbn. destruct Hc2 as [_ Hc2], Hst0 as [_ Hst0]. congruence. }
  assert (∀ st', still st3 st' → took_turn iteration st st') as Htook.
  { intros st' [Hi Ht]. split; [rewrite Hi; exact Hp2|]. exists (lp_messages st2). by rewrite Ht. }
  assert (∀ f, still st3 (flow_state f) → advanced iteration st f) as Hadv.
  { intros [st'|st' err] Hs; cbn in *; auto. }
  destruct (turn iteration (lp_messages st3)) as [resp|[e paused|text]] eqn:Hturn.
  - set (st4 := with_result _ _).
    assert (running req lo calls st4) as Hrun4.
    { destruct Hrun3. split; try done; subst st4; unfold lp_result, responseSteps in *; cbn in *; case_match; cbn; done. }
    assert (still st3 st4) as Hst4.
    { split; [|done]. subst st4. unfold lp_result, responseSteps. cbn. case_match; done. }
    destruct (msg_ToolCalls (assistantOf resp)) as [|c cs] eqn:Hcs.
    + destruct (finalAnswer_ok req lo calls (assistantOf resp) st4 Hrun4) as [H1 H2]. split; [exact H1|]. apply Hadv. by eapply still_trans.
    + destruct (runBatchOf_ok req lo calls iteration [assistantOf resp] (c :: cs) [] st4) as [H1 H2];
        [left; split; [done|]; by exists iteration, (lp_messages st3), resp|done|].
      destruct (runBatchOf _ _ _ _ _ _) as [st5|st5 err]; cbn [flow_ok flow_state] in *.
      * split; [destruct H1; by split|]. apply Hadv. eapply still_trans; [exact Hst4|exact H2].
      * split; [exact H1|]. apply Hadv. by eapply still_trans.
  - destruct (stopContext_ok req lo calls e paused st3 Hrun3) as [H1 H2]. split; [exact H1|by apply Hadv].
  - destruct (failRun_ok req lo calls text st3 Hrun3) as [H1 H2]. split; [exact H1|by apply Hadv].
Qed.

Lemma rounds_ok req tools lo calls n iteration st :
  running req lo calls st → Iterations (lp_result st) = iteration →
  let '(st', err) := rounds req tools n iteration st in
  finished req lo calls st' err ∧ iteration ≤ Iterations (lp_result st') ≤ iteration + Z.of_nat n ∧
  zlen (lp_turns st') = zlen (lp_turns st) + (Iterations (lp_result st') - iteration).
Proof.
  revert iteration st. induction n as [|n IH]; intros iteration st Hrun Hit; cbn [rounds].
  { split_and!; try (unfold lp_result in *; cbn; lia).
    pose proof Hrun as [_ _ _ _ _ Hcp _]. eapply finish_running; [exact Hrun|done..|]. unfold ended. cbn. unfold lp_result in Hcp.
    rewrite Hcp. right. left. }
  destruct (round_ok req tools lo calls iteration st Hrun) as [Hf Ha].
  destruct (round req tools iteration st) as [st1|st1 err]; cbn [flow_ok advanced] in *.
  - destruct Ha as [Hi [prompt Ht]]. specialize (IH (iteration + 1) st1 Hf Hi). destruct (rounds req tools n (iteration + 1) st1) as [st' err].
    destruct IH as (H1 & H2 & H3). rewrite Ht in H3. unfold zlen in *. rewrite length_app in H3. cbn in H3. split_and!; [done|lia..].
  - split; [done|]. destruct Ha as [[Hi Ht]|[Hi [prompt Ht]]]; rewrite Ht, Hi; unfold zlen; rewrite ?length_app; cbn [length]; lia.
Qed.

(** *** Whole runs *)

(** The cursor, tool calls and round a run starts from. *)
Definition startCursor (req : RunRequest) : Z :=
  match rq_ResumeMessages req with
  | [] => rq_ResumeTranscriptCursor req
  | _ => Z.max (rq_ResumeTranscriptCursor req) (zlen (rq_ResumeTranscript req))
  end.
Definition startCalls (req : RunRequest) : Z := match rq_ResumeMessages req with [] => 0 | _ => rq_ResumeToolCalls req end.
Definition startIteration (req : RunRequest) : Z := match rq_ResumeMessages req with [] => 0 | _ => rq_ResumeIteration req end.

Lemma reflection_inv_start p : reflection_inv p (mkReflectionTrace [] [] [] zeroUsage).
Proof. split; cbn; try done; [unfold zlen; cbn; apply maxInline_nonneg|constructor]. Qed.

Lemma freshStart_running req st :
  rq_ResumePersistedMessageCount req ≤ 0 → freshStart req = Ok st →
  running req (rq_ResumeTranscriptCursor req) 0 st ∧ lp_turns st = [] ∧ Iterations (lp_result st) = 0.
Proof.
  intros Hp. unfold freshStart. destruct (Build _ _ _ _) as [base t]. case_match; [done|]. intros [= <-].
  split; [|done]. split; cbn; try done.
  - destruct (Z.ltb_spec 0 (rq_ResumePersistedMessageCount req)); [lia|done].
  - apply rows_ok_nil.
  - unfold zlen. cbn. lia.
  - apply reflection_inv_start.
Qed.

Lemma resumeState_running req :
  running req (Z.max (rq_ResumeTranscriptCursor req) (zlen (rq_ResumeTranscript req))) (rq_ResumeToolCalls req) (resumeState req) ∧
  lp_turns (resumeState req) = [] ∧ Iterations (lp_result (resumeState req)) = rq_ResumeIteration req.
Proof.
  unfold resumeState. cbv zeta. set (base := match rq_ResumeBaseMessages req with [] => _ | _ => _ end).
  set (persisted := if zlen (rq_ResumeTranscript req) <? _ then _ else _).
  set (cursor := if _ <? zlen (rq_ResumeTranscript req) then _ else _).
  assert (0 ≤ persisted ≤ zlen (rq_ResumeTranscript req)) as Hp.
  { subst persisted. cbn. unfold zlen. repeat case_match; bool_prop; lia. }
  assert (cursor = Z.max (rq_ResumeTranscriptCursor req) (zlen (rq_ResumeTranscript req))) as Hcur.
  { subst cursor. cbn. case_match; bool_prop; lia. }
  set (st0 := mkLoop _ _ _ _ _ _ _ _ _ _ _ _ _ _).
  destruct (persist_spec (drop (Z.to_nat persisted) (rq_ResumeTranscript req)) st0) as (Hq & Hpc & Hc & Ht & _ & _ & Hr).
  destruct (persistTranscriptEntries _ st0) as [st1 id]. cbn [fst] in *. destruct Hq as [(A1 & A2 & A3 & A4) A5 A6 A7].
  cbn in A1, A2, A3, A5, A6, A7, Hpc, Hc, Ht, Hr. unfold zlen in *. rewrite length_drop in *.
  split; [|done]. split; unfold lp_result in *; cbn in *.
  - rewrite Hpc, Ht. unfold zlen. lia.
  - rewrite Hc. lia.
  - rewrite <- Hcur. apply Hr; [lia|apply rows_ok_nil].
  - rewrite A6. unfold zlen. cbn [length]. lia.
  - rewrite A5. apply reflection_inv_start.
  - by rewrite A2.
  - by rewrite A6.
Qed.

(** Every run that gets past its preconditions ends in a finished state. *)
Lemma Run_finished client req st err :
  (rq_ResumeMessages req = [] → rq_ResumePersistedMessageCount req ≤ 0) →
  Run client req = Ok (st, err) →
  ∃ req', rq_ReflectionPolicy req' = rq_ReflectionPolicy req ∧ MaxToolCallsOf req' = MaxToolCallsOf req ∧
    (∀ call, gate_passed req' call → gate_passed req call) ∧
    finished req' (startCursor req) (startCalls req) st err ∧
    zlen (lp_turns st) = Iterations (lp_result st) - startIteration req ∧
    startIteration req ≤ Iterations (lp_result st) ≤ Z.max (startIteration req) (MaxIterationsOf req).
Proof.
  intros Hfresh. unfold Run. destruct client; [|done]. cbn [negb].
  destruct (TrimSpace (rq_Model req) =? "")%string; [done|]. destruct (TrimSpace (rq_Task req) =? "")%string; [done|].
  set (req' := set_Task _ req). cbv zeta. intros Hrun. exists req'.
  assert (∀ call, gate_passed req' call → gate_passed req call) as Hgate by done.
  split; [done|]. split; [done|]. split; [done|].
  destruct (collectTools (rq_Tools req') ∅) as [[tools byName]|e]; [|done].
  unfold startCursor, startCalls, startIteration. change (rq_ResumeMessages req') with (rq_ResumeMessages req) in Hrun.
  destruct (rq_ResumeMessages req) as [|m ms] eqn:Hres.
  - destruct (freshStart req') as [st0|e] eqn:Es; [|done]. injection Hrun as Hrun.
    destruct (freshStart_running req' st0 (Hfresh eq_refl) Es) as (H0 & Ht0 & Hi0).
    pose proof (rounds_ok req' tools _ _ (Z.to_nat (MaxIterationsOf req')) 0 st0 H0 Hi0) as H. rewrite Hrun in H.
    destruct H as (H1 & H2 & H3). rewrite Ht0 in H3. unfold zlen in *. cbn [length] in H3. change (MaxIterationsOf req') with (MaxIterationsOf req) in *.
    split; [exact H1|lia].
  - destruct (resumeState_running req') as (H0 & Ht0 & Hi0).
    assert (flow_ok req' (Z.max (rq_ResumeTranscriptCursor req') (zlen (rq_ResumeTranscript req'))) (rq_ResumeToolCalls req')
      (resumeBatch req' byName (resumeState req')) ∧ still (resumeState req') (flow_state (resumeBatch req' byName (resumeState req')))) as [Hf Hs].
    { unfold resumeBatch. destruct (findUnresolvedToolCalls _ _) eqn:Hcs; [done|]. apply runBatchOf_ok; [|done]. right. split; [done|]. split; [change (rq_ResumeMessages req ≠ []); by rewrite Hres|]. by exists byName. }
    destruct Hs as [Hs1 Hs2]. rewrite Hi0 in Hs1. rewrite Ht0 in Hs2.
    destruct (resumeBatch _ _ _) as [st1|st1 err1]; cbn [flow_ok flow_state] in *.
    + injection Hrun as Hrun.
      pose proof (rounds_ok req' tools _ _ (Z.to_nat (MaxIterationsOf req' - rq_ResumeIteration req)) (rq_ResumeIteration req) st1 Hf Hs1) as H.
      rewrite Hrun in H. destruct H as (H1 & H2 & H3). rewrite Hs2 in H3. unfold zlen in *. cbn [length] in H3.
      change (MaxIterationsOf req') with (MaxIterationsOf req) in *. change (rq_ResumeIteration req') with (rq_ResumeIteration req) in *.
      split; [exact H1|lia].
    + injection Hrun as -> ->. change (rq_ResumeIteration req') with (rq_ResumeIteration req) in *.
      split; [exact Hf|]. rewrite Hs2, Hs1. unfold zlen. cbn [length]. lia.
Qed.

(** C8. A run is bounded whatever the model, the tools and the hooks do: it takes exactly one
    model turn per round it counts, at most as many as [MaxIterations] left, executes at most as many tools as [MaxToolCalls] left
    (8 and 16 when unset; a resumed run keeps the counts of its checkpoint), and
    triggers at most [MaxInlinePerRun] reflections, never twice for the same signal. *)
Theorem run_bounded client req st err :
  (rq_ResumeMessages req = [] → rq_ResumePersistedMessageCount req ≤ 0) →
  Run client req = Ok (st, err) →
  zlen (lp_turns st) = Iterations (lp_result st) - startIteration req ∧
  Iterations (lp_result st) ≤ Z.max (startIteration req) (MaxIterationsOf req) ∧
  zlen (lp_executed st) ≤ Z.max 0 (MaxToolCallsOf req - startCalls req) ∧
  ToolCalls (lp_result st) ≤ Z.max (startCalls req) (MaxToolCallsOf req) ∧
  zlen (Inline (rs_trace (lp_refl st))) ≤ MaxInlinePerRun (Normalize (rq_ReflectionPolicy req)) ∧
  NoDup (TriggerFingerprints (rs_trace (lp_refl st))).
Proof.
  intros Hfresh Hrun. destruct (Run_finished client req st err Hfresh Hrun) as (req' & Hp & Hm & _ & [_ [Hc1 Hc2] [Hi Hd _ _] _ _] & Ht & Hit).
  rewrite Hm in *. rewrite Hp in *. split_and!; try done; lia.
Qed.

(** C9. How a run ends: with an error the stop reason is llm_error; otherwise it is the final answer, an exhausted
    limit, a cancellation or timeout, or a pause or a wait for a human. Only the last
    two leave a checkpoint, and it describes the state exactly: the transcript with every entry
    counted as persisted, the cursor, base messages, steps, round and tool-call counters; waiting names the
    pending call. *)
Theorem run_ends_described client req st err :
  (rq_ResumeMessages req = [] → rq_ResumePersistedMessageCount req ≤ 0) →
  Run client req = Ok (st, err) → ended st err.
Proof. intros Hfresh Hrun. by destruct (Run_finished client req st err Hfresh Hrun) as (req' & _ & _ & _ & [_ _ _ He _] & _). Qed.

(** C17. Every entry a run hands to the message sink has a transcript entry id of its own, at
    or after the cursor the run started from, in increasing order, across compactions of the
    transcript: so writing a row twice is told apart from writing two rows, also when the
    run is resumed from a checkpoint of the same run. *)
Theorem run_entry_ids_unique client req st err :
  (rq_ResumeMessages req = [] → rq_ResumePersistedMessageCount req ≤ 0) →
  Run client req = Ok (st, err) →
  NoDup (TranscriptEntryID <$> lp_rows st) ∧ StronglySorted entry_lt (lp_rows st) ∧
  Forall (λ e, startCursor req ≤ TranscriptIndex e < lp_cursor st) (lp_rows st) ∧
  match ResultCheckpoint (lp_result st) with Some cp => TranscriptCursor cp = lp_cursor st | None => True end.
Proof.
  intros Hfresh Hrun. destruct (Run_finished client req st err Hfresh Hrun) as (req' & _ & _ & _ & [[_ Hr] _ _ He _] & _).
  split_and!; [by eapply rows_ids_distinct|apply Hr|eapply Forall_impl; [apply Hr|]; cbn; tauto|].
  unfold ended in He. destruct err, (ResultCheckpoint (lp_result st)) as [cp|]; try done. apply He.
Qed.

(** C1. Over a whole run, whatever the model asks for, a call is executed only if it is a normalized call
    of the model's answer of some round, or of the calls a resumed run found unanswered; normalization
    found no issue with it: it names a tool of the request and its arguments are valid JSON that the
    tool's schema accepts; no hook denied it; and no hook asked for approval, unless the run was resumed,
    this was its first batch, and the call's id is among the approved ones. *)
Theorem run_executes_only_permitted client req st err call :
  (rq_ResumeMessages req = [] → rq_ResumePersistedMessageCount req ≤ 0) →
  Run client req = Ok (st, err) → call ∈ lp_executed st → gate_passed req call.
Proof.
  intros Hfresh Hrun Hin. destruct (Run_finished client req st err Hfresh Hrun) as (req' & _ & _ & Hgate & [_ _ _ _ Hg] & _).
  rewrite Forall_forall in Hg. auto.
Qed.
End Run.

(** ** Two runs in a row

    A world is everything a run asks of its surroundings; a resumed run lives in another one. *)
Record World := mkWorld {
  w_encodingForModel : string → option (string → list Z);
  w_planPrompt : string;
  w_json_valid : string → bool;
  w_json_decode : string → result string json;
  w_json_decode_map : string → result string (list (string * json));
  w_json_canonical : string → option string;
  w_marshal_messages : list ChatMessage → option string;
  w_marshal_tools : list ToolDefinition → option string;
  w_marshal_tool : ToolDefinition → option string;
  w_marshal_evidence : list evidence → string;
  w_marshal_inline : InlineReflection → string;
  w_decode_inline : string → result string InlineReflection;
  w_sha256_hex : string → string;
  w_preHooks : list (option PreHook);
  w_postHooks : list (option PostHook);
  w_denial_text : denial → string;
  w_providerID : Z;
  w_ctx : list Z;
  w_ctx_err_text : string;
  w_steering : Z → list string;
  w_ctx_err : Z → option (ctxError * bool);
  w_turn : Z → list ChatMessage → result turnError TurnResponse;
  w_tool_execute : Z → preparedToolCall → option ToolResult * option string;
  w_gives_up : Z → ToolBatchItem → bool;
  w_reflect_chat : Z → list ChatMessage → result string (string * Usage);
  w_compact_chat : Z → nat → list ChatMessage → ChatOutcome;
  w_compact_done : Z → nat → bool;
  w_compact_error_text : compactError → string;
  w_repository : Z → option SnapshotRepository;
  w_claim_token : Z → string;
  w_sink : option (Z → list Entry → Z * option string)
}.

Definition RunIn {UT : UnicodeTables} {PD : PolicyDecoder} (w : World) (client : bool) (req : RunRequest)
    : result runError (LoopState * option string) :=
  Run
    (w_encodingForModel w) (w_planPrompt w) (w_json_valid w) (w_json_decode w) (w_json_decode_map w) (w_json_canonical w)
    (w_marshal_messages w) (w_marshal_tools w) (w_marshal_tool w) (w_marshal_evidence w) (w_marshal_inline w) (w_decode_inline w)
    (w_sha256_hex w) (w_preHooks w) (w_postHooks w) (w_denial_text w) (w_providerID w) (w_ctx w) (w_ctx_err_text w) (w_steering w)
    (w_ctx_err w) (w_turn w) (w_tool_execute w) (w_gives_up w) (w_reflect_chat w) (w_compact_chat w) (w_compact_done w)
    (w_compact_error_text w) (w_repository w) (w_claim_token w) (w_sink w)
    client req.

(** The request of the run that continues [req] from what [BuildResumeRequest] made of its checkpoint. *)
Definition resumeRequest (req : RunRequest) (rs : Resumed) : RunRequest :=
  mkRunRequest (rq_RunID req) (rq_OwnerID req) (rq_ConversationID req) (rq_InitialUserMessageID req) (rq_ProviderType req) (rq_Model req)
    (rq_CompactionProviderType req) (rq_CompactionModel req) (rq_CompactionProviderID req) (rq_Mode req) (rq_SystemPrompt req) (rq_Task req)
    false (rq_ReflectionPolicy req) (rq_MaxIterations req) (rq_MaxToolCalls req) (rq_MaxInputChars req)
    (rq_MaxInputTokens req) (rq_ContextWindowTokens req) (rq_ReservedOutputTokens req) (rq_ContextSafetyMarginTokens req)
    (rq_ModelAutoCompactTokenLimit req) (rq_ModelAutoCompactTokenLimitScope req) (rq_CompactPrompt req) (rq_TokenBudgetCompaction req)
    (rq_RetainClientDeveloperMessages req) (rq_MaxRuleTokens req) (rq_RuleTags req) (rq_RuleRiskLevel req) (rs_RuleHash rs)
    (match rs_Rules rs with [] => None | rules => Some rules end) (rq_ContextBlocks req) (rq_ToolPolicy req) (rq_Tools req)
    (rs_Messages rs) (rs_BaseMessages rs) (rs_Transcript rs) (rs_PersistedMessageCount rs) (rs_TranscriptCursor rs) (rs_Steps rs)
    (rs_Iteration rs) (rs_ToolCalls rs) (rs_Approved rs).

Section Resumed.
Context {UT : UnicodeTables} {PD : PolicyDecoder}.
Context (marshal_rules : list Rule → option string) (sha : string → string).
Context (decode_answers : string → option (gmap string string)) (marshal_answers : gmap string string → string).

Lemma BuildResumeRequest_counters cp approved note reqRules reqHash rs :
  BuildResumeRequest marshal_rules sha decode_answers marshal_answers cp approved note reqRules reqHash = Ok rs →
  rs_TranscriptCursor rs = TranscriptCursor cp ∧ rs_Iteration rs = cp_Iteration cp ∧ rs_ToolCalls rs = cp_ToolCalls cp.
Proof.
  unfold BuildResumeRequest. destruct (choiceError _ _ _); [done|]. destruct (decisionMessage _ _ _ _ _) as [decision|]; [|done].
  cbv zeta. destruct (match BaseMessages cp with [] => _ | _ => _ end) as [base transcript].
  destruct (resumeRules _ _ _ _); [|done]. by intros [= <-].
Qed.

(** C4. Pausing or waiting and resuming is one run: the resumed run continues the round and
    tool-call counters of its checkpoint, so the model turns of both together number the rounds counted and stay within
    [MaxIterations], and no transcript entry id of the second run was used
    by the first, whatever the world answers in either. *)
Theorem resumed_run_continues w1 w2 req st1 cp approved note reqRules reqHash rs st2 err2 :
  (rq_ResumeMessages req = [] → rq_ResumePersistedMessageCount req ≤ 0) →
  RunIn w1 true req = Ok (st1, None) → ResultCheckpoint (lp_result st1) = Some cp →
  BuildResumeRequest marshal_rules sha decode_answers marshal_answers cp approved note reqRules reqHash = Ok rs →
  rs_Messages rs ≠ [] →
  RunIn w2 true (resumeRequest req rs) = Ok (st2, err2) →
  NoDup (TranscriptEntryID <$> lp_rows st1 ++ lp_rows st2) ∧
  zlen (lp_turns st1) + zlen (lp_turns st2) = Iterations (lp_result st2) - startIteration req ∧
  Iterations (lp_result st2) ≤ Z.max (startIteration req) (MaxIterationsOf req) ∧
  ToolCalls (lp_result st1) ≤ ToolCalls (lp_result st2) ≤ Z.max (startCalls req) (MaxToolCallsOf req).
Proof.
  intros Hfresh Hrun1 Hcp Hbuild Hne Hrun2.
  destruct (BuildResumeRequest_counters _ _ _ _ _ _ Hbuild) as (Hcur & Hit & Htc).
  apply Run_finished in Hrun1 as (req1 & _ & Hm1 & _ & [[Hlo1 Hrows1] [_ Hcalls1] _ Hend1 _] & Ht1 & Hi1); [|done].
  apply Run_finished in Hrun2 as (req2 & _ & Hm2 & _ & [[Hlo2 Hrows2] [_ Hcalls2] _ _ _] & Ht2 & Hi2); [|done].
  unfold ended in Hend1. rewrite Hcp in Hend1. destruct Hend1 as (_ & (_ & _ & Hdcur & _ & _ & _ & Hdit & Hdtc & _) & _).
  assert (startIteration (resumeRequest req rs) = Iterations (lp_result st1)) as Es.
  { unfold startIteration. cbn [rq_ResumeMessages resumeRequest]. destruct (rs_Messages rs); [done|]. cbn. congruence. }
  assert (startCalls (resumeRequest req rs) = ToolCalls (lp_result st1)) as Ec.
  { unfold startCalls. cbn [rq_ResumeMessages resumeRequest]. destruct (rs_Messages rs); [done|]. cbn. congruence. }
  assert (lp_cursor st1 ≤ startCursor (resumeRequest req rs)) as El.
  { unfold startCursor. cbn [rq_ResumeMessages resumeRequest]. destruct (rs_Messages rs); [done|]. cbn. lia. }
  change (MaxIterationsOf (resumeRequest req rs)) with (MaxIterationsOf req) in *.
  change (MaxToolCallsOf (resumeRequest req rs)) with (MaxToolCallsOf req) in *.
  rewrite Es in *. rewrite Ec in *. rewrite Hm1 in *. rewrite Hm2 in *. split_and!; [|lia..].
  apply (rows_ids_distinct (startCursor req) (lp_cursor st2)).
  apply (rows_ok_app _ (lp_cursor st1)); [lia|done|].
  destruct Hrows2 as [S R I]. split; [done| |done]. eapply Forall_impl; [exact R|]. cbn. lia.
Qed.
End Resumed.

(** ** A sample run: one tool call, then the answer *)

Definition loop_request : RunRequest :=
  mkRunRequest 7 1 None 0 "openai" "gpt-4o" "" "" 0 "default" "Be brief." " write it " false DefaultPolicy 4 3 0 0 0 0 0 0 "" "" false
    false 0 [] "" "" (Some []) [] (mkToolPolicy [] 0 0 [] [] false) [Some write_low] [] [] [] 0 0 [] 0 0 [].

Definition loop_turn (iteration : Z) (prompt : list ChatMessage) : result turnError TurnResponse :=
  if iteration =? 0
  then Ok (mkTurnResponse (mkChatMessage "" "" "" [write_call]) "" (mkUsage 10 5 15 0 0))
  else Ok (mkTurnResponse (mkChatMessage RoleAssistant "Done." "" []) "" (mkUsage 20 5 25 0 0)).

Definition loop_world (ctx_err : Z → option (ctxError * bool)) : World :=
  mkWorld no_encoding "plan" (λ _, true) (λ _, Ok (JObj [])) (λ _, Ok []) (λ s, Some s)
    (λ _, None) (λ _, None) (λ _, None) (λ _, "[]"%string) (λ _, "{}"%string) (λ _, Err "bad json"%string) (λ s, s)
    [None] [None] (λ _, "denied"%string) 1 [] "canceled" (λ _, []) ctx_err loop_turn (λ _ p, sample_execute p) (λ _ _, false)
    (λ _ _, Err "offline"%string) (λ _ _ _, ChatFail false None) (λ _ _, false) (λ _, "failed"%string) (λ _, None) (λ _, ""%string)
    (Some (λ i _, (100 + i, None))).

Definition loop_run (ctx_err : Z → option (ctxError * bool)) (req : RunRequest) : result runError (LoopState * option string) :=
  RunIn (UT:=AsciiTables) (PD:=sample_decoder) (loop_world ctx_err) true req.

Definition never_stopped (iteration : Z) : option (ctxError * bool) := None.
Definition paused_in_round_1 (iteration : Z) : option (ctxError * bool) := if iteration =? 1 then Some (Canceled, true) else None.

Definition loop_outcome : LoopState * option string :=
  match loop_run never_stopped loop_request with
  | Ok out => out
  | Err _ => (startState loop_request [], None)
  end.

Example loop_outcome_value :
  let '(st, err) := loop_outcome in
  (FinalAnswer (lp_result st), StopReason (lp_result st), Iterations (lp_result st), ToolCalls (lp_result st), err) =
  ("Done."%string, StopReasonFinalAnswer, 2, 1, None) ∧
  call_ID <$> lp_executed st = ["w1"%string] ∧ lp_messageID st = 102 ∧ TranscriptEntryID <$> lp_rows st = ["0:0"; "1:0"; "2:0"]%string.
Proof. vm_compute. done. Qed.

Lemma loop_outcome_run : loop_run never_stopped loop_request = Ok (loop_outcome.1, loop_outcome.2).
Proof. vm_compute. reflexivity. Qed.

Lemma loop_request_fresh : rq_ResumeMessages loop_request = [] → rq_ResumePersistedMessageCount loop_request ≤ 0.
Proof. cbn. lia. Qed.

Lemma run_bounded_witness :
  zlen (lp_turns loop_outcome.1) = Iterations (lp_result loop_outcome.1) - 0 ∧ zlen (lp_executed loop_outcome.1) ≤ 3.
Proof.
  pose proof loop_outcome_run as Hrun. unfold loop_run, RunIn in Hrun.
  eapply run_bounded in Hrun as (H1 & _ & H2 & _); [|exact loop_request_fresh]. split; [exact H1|exact H2].
Defined.

Lemma run_ends_described_witness : ended loop_outcome.1 loop_outcome.2 ∧ loop_outcome.2 = None.
Proof.
  split; [|vm_compute; reflexivity]. pose proof loop_outcome_run as Hrun. unfold loop_run, RunIn in Hrun.
  eapply run_ends_described in Hrun; [|exact loop_request_fresh]. exact Hrun.
Defined.

Lemma run_entry_ids_unique_witness :
  length (lp_rows loop_outcome.1) = 3%nat ∧ NoDup (TranscriptEntryID <$> lp_rows loop_outcome.1).
Proof.
  split; [vm_compute; reflexivity|]. pose proof loop_outcome_run as Hrun. unfold loop_run, RunIn in Hrun.
  eapply run_entry_ids_unique in Hrun as [Hnd _]; [|exact loop_request_fresh]. exact Hnd.
Defined.

Lemma run_executes_only_permitted_witness :
  ∃ call, call ∈ lp_executed loop_outcome.1 ∧ gate_passed (UT:=AsciiTables) (λ _, true) (λ _, Ok (JObj [])) (λ _, Ok []) (λ s, s) [None] [] loop_turn
    (Some (λ i _, (100 + i, None))) loop_request call.
Proof.
  pose proof loop_outcome_run as Hrun. unfold loop_run, RunIn in Hrun.
  destruct (lp_executed loop_outcome.1) as [|call calls] eqn:E; [vm_compute in E; discriminate|].
  assert (call ∈ lp_executed loop_outcome.1) as Hin by (rewrite E; left).
  exists call. split; [left|].
  eapply run_executes_only_permitted in Hrun; [exact Hrun|exact loop_request_fresh|exact Hin].
Defined.

(** The same run paused before its second round and resumed. *)
Definition paused_outcome : LoopState * option string :=
  match loop_run paused_in_round_1 loop_request with Ok out => out | Err _ => (startState loop_request [], None) end.

Definition paused_checkpoint : Checkpoint :=
  default (checkpointFromMessages (batchRequest loop_request) [] None "" 0 0) (ResultCheckpoint (lp_result paused_outcome.1)).

Definition build_resume (cp : Checkpoint) : result resumeError Resumed :=
  BuildResumeRequest (H := sample_decoder) sample_marshal sample_hash (λ _, None) (λ _, ""%string) cp true "" [] "".

Definition resumed_fields : Resumed :=
  match build_resume paused_checkpoint with Ok rs => rs | Err _ => mkResumed [] [] [] [] 0 0 0 0 [] "" [] end.

Definition resumed_outcome : LoopState * option string :=
  match loop_run never_stopped (resumeRequest loop_request resumed_fields) with Ok out => out | Err _ => (startState loop_request [], None) end.

Lemma resumed_run_continues_witness :
  TranscriptEntryID <$> lp_rows paused_outcome.1 ++ lp_rows resumed_outcome.1 = ["0:0"; "1:0"; "2:0"]%string ∧
  NoDup (TranscriptEntryID <$> lp_rows paused_outcome.1 ++ lp_rows resumed_outcome.1) ∧
  StopReason (lp_result resumed_outcome.1) = StopReasonFinalAnswer.
Proof.
  split; [vm_compute; reflexivity|]. split; [|vm_compute; reflexivity].
  assert (loop_run paused_in_round_1 loop_request = Ok (paused_outcome.1, None)) as H1 by (vm_compute; reflexivity).
  assert (ResultCheckpoint (lp_result paused_outcome.1) = Some paused_checkpoint) as H2 by (vm_compute; reflexivity).
  assert (build_resume paused_checkpoint = Ok resumed_fields) as H3 by (vm_compute; reflexivity).
  assert (rs_Messages resumed_fields ≠ []) as H4 by (vm_compute; discriminate).
  assert (loop_run never_stopped (resumeRequest loop_request resumed_fields) = Ok (resumed_outcome.1, resumed_outcome.2)) as H5
    by (vm_compute; reflexivity).
  unfold loop_run in H1, H5. unfold build_resume in H3.
  pose proof (resumed_run_continues (UT:=AsciiTables) (PD:=sample_decoder) sample_marshal sample_hash (λ _, None) (λ _, ""%string)
    (loop_world paused_in_round_1) (loop_world never_stopped) loop_request paused_outcome.1 paused_checkpoint true "" [] ""
    resumed_fields resumed_outcome.1 resumed_outcome.2 loop_request_fresh H1 H2 H3 H4 H5) as [Hnd _].
  exact Hnd.
Defined.
