(* ===== verification/Stream.v ===== *)
(** Streamed model answers: the provider-neutral event vocabulary and the
    proposed-plan parser of internal/infrastructure/llm/tool_stream.go, the
    accumulator of tool_stream_accumulator.go and the OpenAI-compatible client of
    chat_client.go.

    A client that calls its caller back for every event is a tree ([Stream]): it
    emits an event, gets the callback's error or none, and goes on; what the
    callback does is left to the interpreter of the tree.  The HTTP exchange,
    encoding/json and the scanner's lines are parameters. *)
From S2P Require Import Prelude GoStr Chat Assembler.
Open Scope Z_scope.
Local Open Scope string_scope.

(** ** Errors and events *)

(** The errors of the package, told apart by the sentinel that [errors.Is] finds
    in them. *)
Inductive ModelErr :=
| ErrText (msg : string)
| ErrToolStreamingUnsupported (detail : string)
| ErrContextWindowExceeded (detail : string)
| ErrRateLimited (detail : string)
| ErrEmptyModelResponse.

#[export] Instance ModelErr_eq_dec : EqDecision ModelErr.
Proof. solve_decision. Defined.

Definition errorText (e : ModelErr) : string :=
  match e with
  | ErrText msg => msg
  | ErrToolStreamingUnsupported d => "tool streaming is not supported" ++ d
  | ErrContextWindowExceeded d => "context window exceeded" ++ d
  | ErrRateLimited d => "provider rate limited" ++ d
  | ErrEmptyModelResponse => "model returned an empty response"
  end.

Inductive ModelStreamKind :=
| ModelTextStart | ModelTextDelta | ModelTextEnd
| ModelReasoningStart | ModelReasoningDelta | ModelReasoningEnd
| ModelProposedPlanStart | ModelProposedPlanDelta | ModelProposedPlanEnd
| ModelToolCallStart | ModelToolCallDelta | ModelToolCallEnd
| ModelUsage | ModelDone | ModelError.

#[export] Instance ModelStreamKind_eq_dec : EqDecision ModelStreamKind.
Proof. solve_decision. Defined.

Definition kindText (k : ModelStreamKind) : string :=
  match k with
  | ModelTextStart => "text.start" | ModelTextDelta => "text.delta" | ModelTextEnd => "text.end"
  | ModelReasoningStart => "reasoning.start" | ModelReasoningDelta => "reasoning.delta"
  | ModelReasoningEnd => "reasoning.end"
  | ModelProposedPlanStart => "plan.start" | ModelProposedPlanDelta => "plan.delta"
  | ModelProposedPlanEnd => "plan.end"
  | ModelToolCallStart => "tool_call.start" | ModelToolCallDelta => "tool_call.delta"
  | ModelToolCallEnd => "tool_call.end"
  | ModelUsage => "usage" | ModelDone => "done" | ModelError => "error"
  end.

Record ModelStreamEvent := mkEvent {
  ev_Kind : ModelStreamKind;
  ev_Index : Z;
  ev_CallID : string;
  ev_Name : string;
  ev_Text : string;
  ev_ArgumentDelta : string;
  ev_Arguments : RawMessage;
  ev_Usage : Usage;
  ev_Err : option ModelErr
}.

(** The composite literals of the code, which leave the other fields zero. *)
Definition markEvent (k : ModelStreamKind) : ModelStreamEvent := mkEvent k 0 "" "" "" "" "" zeroUsage None.
Definition textEvent (k : ModelStreamKind) (text : string) : ModelStreamEvent :=
  mkEvent k 0 "" "" text "" "" zeroUsage None.
Definition usageEvent (u : Usage) : ModelStreamEvent := mkEvent ModelUsage 0 "" "" "" "" "" u None.
Definition errorEvent (e : ModelErr) : ModelStreamEvent := mkEvent ModelError 0 "" "" "" "" "" zeroUsage (Some e).
Definition toolEvent (k : ModelStreamKind) (index : Z) (callID name delta : string) (arguments : RawMessage)
    : ModelStreamEvent :=
  mkEvent k index callID name "" delta arguments zeroUsage None.

(** ** Proposed-plan blocks *)

Definition proposedPlanOpenTag : string := "<proposed_plan>".
Definition proposedPlanCloseTag : string := "</proposed_plan>".

Record ProposedPlanStreamParser := mkPlanParser {
  pp_line : string;
  pp_visible : string;
  pp_inside : bool;
  pp_plan : string;
  pp_lastPlan : string;
  pp_sawPlan : bool
}.

Definition newPlanParser : ProposedPlanStreamParser := mkPlanParser "" "" false "" "" false.

Definition newline : string := of_bytes [byte_of 10].
Definition carriageReturn : string := of_bytes [byte_of 13].

Definition flushLine (p : ProposedPlanStreamParser) : ProposedPlanStreamParser * list ModelStreamEvent :=
  let line := pp_line p in
  let trimmed := TrimSuffix (TrimSuffix line newline) carriageReturn in
  if negb (pp_inside p) && (trimmed =? proposedPlanOpenTag) then
    (mkPlanParser "" (pp_visible p) true "" (pp_lastPlan p) true, [markEvent ModelProposedPlanStart])
  else if pp_inside p && (trimmed =? proposedPlanCloseTag) then
    (mkPlanParser "" (pp_visible p) false (pp_plan p) (pp_plan p) (pp_sawPlan p), [markEvent ModelProposedPlanEnd])
  else if pp_inside p then
    (mkPlanParser "" (pp_visible p) true (pp_plan p ++ line) (pp_lastPlan p) (pp_sawPlan p),
     [textEvent ModelProposedPlanDelta line])
  else
    (mkPlanParser "" (pp_visible p ++ line) false (pp_plan p) (pp_lastPlan p) (pp_sawPlan p),
     [textEvent ModelTextDelta line]).

Definition writeRune (r : Z) (p : ProposedPlanStreamParser) : ProposedPlanStreamParser :=
  mkPlanParser (pp_line p ++ of_bytes (encode_rune r)) (pp_visible p) (pp_inside p) (pp_plan p)
    (pp_lastPlan p) (pp_sawPlan p).

(** [range text] yields U+FFFD for a byte that is not part of a rune, and
    [WriteRune] writes it as three bytes. *)
Fixpoint pushRunes (rs : list Z) (p : ProposedPlanStreamParser) : ProposedPlanStreamParser * list ModelStreamEvent :=
  match rs with
  | [] => (p, [])
  | r :: rs =>
    let p := writeRune r p in
    if (r =? 10)%Z then
      let '(p, events) := flushLine p in
      let '(p, more) := pushRunes rs p in
      (p, (events ++ more)%list)
    else pushRunes rs p
  end.

Definition Push (text : string) (p : ProposedPlanStreamParser) : ProposedPlanStreamParser * list ModelStreamEvent :=
  if text =? "" then (p, []) else pushRunes (runes text) p.

Definition Finish (p : ProposedPlanStreamParser) : ProposedPlanStreamParser * list ModelStreamEvent :=
  let '(p, events) := if (0 <? slen (pp_line p))%Z then flushLine p else (p, []) in
  if pp_inside p then
    (mkPlanParser (pp_line p) (pp_visible p) false (pp_plan p) (pp_plan p) (pp_sawPlan p),
     (events ++ [markEvent ModelProposedPlanEnd])%list)
  else (p, events).

(** The text deltas of a list of events, concatenated. *)
Definition textOf (events : list ModelStreamEvent) : string :=
  foldr (λ e acc, if bool_decide (ev_Kind e = ModelTextDelta) then ev_Text e ++ acc else acc) "" events.

Definition NormalizeProposedPlan (text : string) : string * string :=
  let '(p, events) := Push text newPlanParser in
  let '(p, more) := Finish p in
  (textOf (events ++ more)%list, pp_lastPlan p).

(** ** The accumulator *)

Record streamToolCall := mkStreamToolCall {
  sc_id : string;
  sc_typ : string;
  sc_name : string;
  sc_arguments : string
}.

Record ToolStreamAccumulator := mkAccumulator {
  acc_content : string;
  acc_usage : Usage;
  acc_toolCalls : gmap Z streamToolCall;
  acc_toolOrder : list Z
}.

Definition NewToolStreamAccumulator : ToolStreamAccumulator := mkAccumulator "" zeroUsage ∅ [].

Definition AddText (text : string) (a : ToolStreamAccumulator) : ToolStreamAccumulator :=
  mkAccumulator (acc_content a ++ text) (acc_usage a) (acc_toolCalls a) (acc_toolOrder a).

Definition AddUsage (usage : Usage) (a : ToolStreamAccumulator) : ToolStreamAccumulator :=
  mkAccumulator (acc_content a) usage (acc_toolCalls a) (acc_toolOrder a).

Definition AddToolCallDelta (index : Z) (callID name argumentDelta : string) (a : ToolStreamAccumulator)
    : ToolStreamAccumulator :=
  let '(call, order) :=
    match acc_toolCalls a !! index with
    | Some call => (call, acc_toolOrder a)
    | None => (mkStreamToolCall "" "function" "" "", (acc_toolOrder a ++ [index])%list)
    end in
  let call := mkStreamToolCall
    (if callID =? "" then sc_id call else callID) (sc_typ call)
    (if name =? "" then sc_name call else name) (sc_arguments call ++ argumentDelta) in
  mkAccumulator (acc_content a) (acc_usage a) (<[index := call]> (acc_toolCalls a)) order.

Definition orderedToolIndexes (a : ToolStreamAccumulator) : list Z := sort_stable Z.ltb (acc_toolOrder a).

Record ToolChatResponse := mkToolChatResponse {
  resp_Message : ChatMessage;
  resp_Usage : Usage;
  resp_ProposedPlan : string
}.

Section Accumulator.
(** [encoding/json.Valid]. *)
Context (json_valid : string → bool).

Definition validToolArguments (raw : string) : result ModelErr RawMessage :=
  let trimmed := TrimSpace raw in
  if (slen trimmed =? 0)%Z then Ok "{}"
  else if negb (json_valid trimmed) then Err (ErrText "invalid JSON arguments")
  else Ok trimmed.

(** [ToolCall] of the accumulator. *)
Definition accToolCall (index : Z) (a : ToolStreamAccumulator) : result ModelErr ToolCall :=
  match acc_toolCalls a !! index with
  | None => Err (ErrText ("tool call index " ++ Itoa index ++ " is not present"))
  | Some call =>
    match validToolArguments (sc_arguments call) with
    | Err err => Err (ErrText ("tool call index " ++ Itoa index ++ ": " ++ errorText err))
    | Ok arguments =>
      let typ := if sc_typ call =? "" then "function" else sc_typ call in
      Ok (mkToolCall (sc_id call) typ (sc_name call) arguments)
    end
  end.

Fixpoint collectCalls (indexes : list Z) (a : ToolStreamAccumulator) : result ModelErr (list ToolCall) :=
  match indexes with
  | [] => Ok []
  | index :: indexes =>
    match accToolCall index a with
    | Err err => Err err
    | Ok call => rmap (cons call) (collectCalls indexes a)
    end
  end.

(** [ToolCalls]. *)
Definition accToolCalls (a : ToolStreamAccumulator) : result ModelErr (list ToolCall) :=
  collectCalls (orderedToolIndexes a) a.

Definition Response (a : ToolStreamAccumulator) : result ModelErr ToolChatResponse :=
  match accToolCalls a with
  | Err err => Err err
  | Ok calls =>
    Ok (mkToolChatResponse (mkChatMessage "assistant" (acc_content a) "" calls) (acc_usage a) "")
  end.

End Accumulator.

(** ** Clients as trees of callbacks *)

Inductive Stream (E A : Type) : Type :=
| Ret (a : A)
| Emit (e : E) (k : option ModelErr → Stream E A).
Arguments Ret {E A} a.
Arguments Emit {E A} e k.

Fixpoint sbind {E A B} (m : Stream E A) (f : A → Stream E B) : Stream E B :=
  match m with
  | Ret a => f a
  | Emit e k => Emit e (λ answer, sbind (k answer) f)
  end.

(** The events a client emits, and its result, while the callback never
    fails. *)
Fixpoint undisturbed {E A} (m : Stream E A) : list E * A :=
  match m with
  | Ret a => ([], a)
  | Emit e k => let '(events, a) := undisturbed (k None) in (e :: events, a)
  end.

(** ** The parser of an OpenAI-compatible stream *)

Record openAIToolStreamCall := mkStreamCall {
  tsc_Index : option Z;
  tsc_ID : string;
  tsc_Type : string;
  tsc_Name : string;
  tsc_Arguments : string
}.

Record openAIToolStreamDelta := mkStreamDelta {
  tsd_Content : string;
  tsd_ReasoningContent : string;
  tsd_Reasoning : string;
  tsd_ToolCalls : list openAIToolStreamCall
}.

Record openAIStreamChoice := mkStreamChoice {
  cho_Index : Z;
  cho_FinishReason : string;
  cho_Delta : openAIToolStreamDelta
}.

Record openAIToolStreamChunk := mkStreamChunk {
  chu_Choices : list openAIStreamChoice;
  chu_Usage : option Usage
}.

Record toolStreamParser := mkStreamParser {
  sp_acc : ToolStreamAccumulator;
  sp_textOpen : bool;
  sp_reasoningOpen : bool;
  sp_toolStarted : gset Z;
  sp_toolEnded : gset Z;
  sp_failed : bool;
  sp_done : bool
}.

Definition newToolStreamParser (acc : ToolStreamAccumulator) : toolStreamParser :=
  mkStreamParser acc false false ∅ ∅ false false.

Definition set_acc (f : ToolStreamAccumulator → ToolStreamAccumulator) (p : toolStreamParser) : toolStreamParser :=
  mkStreamParser (f (sp_acc p)) (sp_textOpen p) (sp_reasoningOpen p) (sp_toolStarted p) (sp_toolEnded p)
    (sp_failed p) (sp_done p).
Definition set_textOpen (b : bool) (p : toolStreamParser) : toolStreamParser :=
  mkStreamParser (sp_acc p) b (sp_reasoningOpen p) (sp_toolStarted p) (sp_toolEnded p) (sp_failed p) (sp_done p).
Definition set_reasoningOpen (b : bool) (p : toolStreamParser) : toolStreamParser :=
  mkStreamParser (sp_acc p) (sp_textOpen p) b (sp_toolStarted p) (sp_toolEnded p) (sp_failed p) (sp_done p).
Definition set_started (i : Z) (p : toolStreamParser) : toolStreamParser :=
  mkStreamParser (sp_acc p) (sp_textOpen p) (sp_reasoningOpen p) ({[i]} ∪ sp_toolStarted p) (sp_toolEnded p)
    (sp_failed p) (sp_done p).
Definition set_ended (i : Z) (p : toolStreamParser) : toolStreamParser :=
  mkStreamParser (sp_acc p) (sp_textOpen p) (sp_reasoningOpen p) (sp_toolStarted p) ({[i]} ∪ sp_toolEnded p)
    (sp_failed p) (sp_done p).
Definition set_failed (p : toolStreamParser) : toolStreamParser :=
  mkStreamParser (sp_acc p) (sp_textOpen p) (sp_reasoningOpen p) (sp_toolStarted p) (sp_toolEnded p) true (sp_done p).
Definition set_done (p : toolStreamParser) : toolStreamParser :=
  mkStreamParser (sp_acc p) (sp_textOpen p) (sp_reasoningOpen p) (sp_toolStarted p) (sp_toolEnded p) (sp_failed p) true.

(** The methods of the parser: they call back, mutate the parser and return an
    error or none. *)
Definition Method : Type :=
  toolStreamParser → Stream ModelStreamEvent (toolStreamParser * option ModelErr).

Definition skip : Method := λ p, Ret (p, None).
Definition modify (f : toolStreamParser → toolStreamParser) : Method := λ p, Ret (f p, None).
Definition withParser (f : toolStreamParser → Method) : Method := λ p, f p p.
(** [if err := m(); err != nil { return err }; n()]. *)
Definition andThen (m n : Method) : Method := λ p,
  sbind (m p) (λ '(p, err), match err with None => n p | Some e => Ret (p, Some e) end).
Infix ";>" := andThen (at level 60, right associativity).

Fixpoint each {A} (f : A → Method) (l : list A) : Method :=
  match l with
  | [] => skip
  | a :: l => f a ;> each f l
  end.

Definition emit (event : ModelStreamEvent) : Method := λ p, Emit event (λ err, Ret (p, err)).

Definition fail (err : ModelErr) : Method := λ p,
  if sp_failed p then Ret (p, Some err)
  else Emit (errorEvent err) (λ callbackErr,
    Ret (set_failed p, Some (match callbackErr with Some e => e | None => err end))).

Definition closeTextAndReasoning : Method :=
  withParser (λ p, if sp_textOpen p then emit (markEvent ModelTextEnd) ;> modify (set_textOpen false) else skip) ;>
  withParser (λ p, if sp_reasoningOpen p then emit (markEvent ModelReasoningEnd) ;> modify (set_reasoningOpen false)
                   else skip).

Definition beginText : Method := withParser (λ p,
  if sp_textOpen p then skip
  else
    (if sp_reasoningOpen p then emit (markEvent ModelReasoningEnd) ;> modify (set_reasoningOpen false) else skip) ;>
    modify (set_textOpen true) ;>
    emit (markEvent ModelTextStart)).

Definition beginReasoning : Method := withParser (λ p,
  if sp_reasoningOpen p then skip
  else
    (if sp_textOpen p then emit (markEvent ModelTextEnd) ;> modify (set_textOpen false) else skip) ;>
    modify (set_reasoningOpen true) ;>
    emit (markEvent ModelReasoningStart)).

Section Parser.
Context (json_valid : string → bool).

Definition finishTool (index : Z) : Method := withParser (λ p,
  if bool_decide (index ∈ sp_toolEnded p) then skip
  else
    match accToolCall json_valid index (sp_acc p) with
    | Err err => fail err
    | Ok call =>
      emit (toolEvent ModelToolCallEnd index (call_ID call) (call_Name call) "" (call_Arguments call)) ;>
      modify (set_ended index)
    end).

Definition finishTools : Method := withParser (λ p, each finishTool (orderedToolIndexes (sp_acc p))).

Definition finishForReason (reason : string) : Method :=
  if bool_decide (reason ∈ ["tool_calls"; "function_call"; "stop"; "length"; "content_filter"]) then
    closeTextAndReasoning ;> finishTools
  else skip.

Definition finish : Method := withParser (λ p,
  if sp_done p then skip
  else closeTextAndReasoning ;> finishTools ;> modify set_done ;> emit (markEvent ModelDone)).

Definition acceptToolCall (toolCall : openAIToolStreamCall) : Method := withParser (λ p,
  let index := match tsc_Index toolCall with Some i => i | None => 0 end in
  let index := if (index <? 0)%Z then 0 else index in
  let first := negb (bool_decide (index ∈ sp_toolStarted p)) in
  (if first then closeTextAndReasoning ;> modify (set_started index) else skip) ;>
  modify (set_acc (AddToolCallDelta index (tsc_ID toolCall) (tsc_Name toolCall) (tsc_Arguments toolCall))) ;>
  (if first then emit (toolEvent ModelToolCallStart index (tsc_ID toolCall) (tsc_Name toolCall) "" "") else skip) ;>
  (if negb (tsc_Arguments toolCall =? "") ||
      (negb first && (negb (tsc_ID toolCall =? "") || negb (tsc_Name toolCall =? ""))) then
     emit (toolEvent ModelToolCallDelta index (tsc_ID toolCall) (tsc_Name toolCall) (tsc_Arguments toolCall) "")
   else skip)).

Definition acceptChoice (choice : openAIStreamChoice) : Method :=
  let delta := cho_Delta choice in
  let reasoning := if tsd_ReasoningContent delta =? "" then tsd_Reasoning delta else tsd_ReasoningContent delta in
  (if reasoning =? "" then skip else beginReasoning ;> emit (textEvent ModelReasoningDelta reasoning)) ;>
  (if tsd_Content delta =? "" then skip
   else beginText ;> modify (set_acc (AddText (tsd_Content delta))) ;> emit (textEvent ModelTextDelta (tsd_Content delta))) ;>
  each acceptToolCall (tsd_ToolCalls delta) ;>
  (if cho_FinishReason choice =? "" then skip else finishForReason (cho_FinishReason choice)).

Definition accept (chunk : openAIToolStreamChunk) : Method :=
  each acceptChoice (chu_Choices chunk) ;>
  match chu_Usage chunk with
  | None => skip
  | Some usage =>
    closeTextAndReasoning ;> finishTools ;> modify (set_acc (AddUsage usage)) ;> emit (usageEvent usage)
  end.

End Parser.

(** ** Requests and responses of the provider *)

Record ChatProviderConfig := mkProviderConfig {
  cfg_ProviderType : string;
  cfg_BaseURL : string;
  cfg_APIKey : string
}.

(** [Temperature] and [ToolChoice] are carried as their JSON encodings. *)
Record ToolChatRequest := mkToolChatRequest {
  tcr_Model : string;
  tcr_Messages : list ChatMessage;
  tcr_Tools : list ToolDefinition;
  tcr_ToolChoice : option RawMessage;
  tcr_Temperature : option RawMessage;
  tcr_ReasoningEffort : string
}.

Record openAIToolCall := mkOpenAIToolCall {
  oc_ID : string;
  oc_Type : string;
  oc_Name : string;
  oc_Arguments : string
}.

Record openAIToolChatMessage := mkOpenAIToolChatMessage {
  om_Role : string;
  om_Content : string;
  om_ToolCallID : string;
  om_ToolCalls : list openAIToolCall
}.

Record openAIToolChatRequest := mkOpenAIRequest {
  oreq_Model : string;
  oreq_Messages : list openAIToolChatMessage;
  oreq_Tools : list ToolDefinition;
  oreq_ToolChoice : option RawMessage;
  oreq_Temperature : option RawMessage;
  oreq_ReasoningEffort : string;
  oreq_Stream : bool;
  oreq_StreamOptions : list (string * bool)
}.

Definition rawJSONToString (raw : RawMessage) : string := if (slen raw =? 0)%Z then "{}" else raw.

Definition toOpenAIToolCall (call : ToolCall) : openAIToolCall :=
  mkOpenAIToolCall (call_ID call) (if call_Type call =? "" then "function" else call_Type call) (call_Name call)
    (rawJSONToString (call_Arguments call)).
Definition toOpenAIToolCalls (calls : list ToolCall) : list openAIToolCall := toOpenAIToolCall <$> calls.

Definition toOpenAIToolMessages (messages : list ChatMessage) : list openAIToolChatMessage :=
  (λ msg, mkOpenAIToolChatMessage (msg_Role msg) (msg_Content msg) (msg_ToolCallID msg)
            (toOpenAIToolCalls (msg_ToolCalls msg))) <$> messages.

Definition fromOpenAIToolCall (call : openAIToolCall) : ToolCall :=
  let args := TrimSpace (oc_Arguments call) in
  mkToolCall (oc_ID call) (oc_Type call) (oc_Name call) (if (slen args =? 0)%Z then "{}" else args).
Definition fromOpenAIToolCalls (calls : list openAIToolCall) : list ToolCall := fromOpenAIToolCall <$> calls.

Definition fromOpenAIToolMessage (msg : openAIToolChatMessage) : ChatMessage :=
  mkChatMessage (om_Role msg) (om_Content msg) (om_ToolCallID msg) (fromOpenAIToolCalls (om_ToolCalls msg)).

Definition openAIChatEndpoint (cfg : ChatProviderConfig) : result ModelErr string :=
  let baseURL := trim_right_bytes (λ c, byte_val c =? 47)%Z (TrimSpace (cfg_BaseURL cfg)) in
  let typ := cfg_ProviderType cfg in
  let checked :=
    if typ =? "deepseek" then Ok (if baseURL =? "" then "https://api.deepseek.com" else baseURL)
    else if typ =? "qwen" then
      Ok (if baseURL =? "" then "https://dashscope.aliyuncs.com/compatible-mode/v1" else baseURL)
    else if (typ =? "openai_compatible") || (typ =? "azure_openai") then
      if baseURL =? "" then Err (ErrText ("base_url is required for " ++ typ)) else Ok baseURL
    else if (typ =? "ollama") || (typ =? "local") then
      Err (ErrText ("provider type " ++ typ ++ " does not support chat completions yet"))
    else Err (ErrText ("unsupported provider type: " ++ typ)) in
  match checked with
  | Err err => Err err
  | Ok baseURL =>
    if HasSuffix baseURL "/chat/completions" then Ok baseURL
    else if HasSuffix baseURL "/v1" || Contains baseURL "/compatible-mode/v1" then
      Ok (baseURL ++ "/chat/completions")
    else Ok (baseURL ++ "/v1/chat/completions")
  end.

(** What a stream exchange yields: the status line, the first 4096 bytes of the
    body of a refusal, the lines of the scanner, its error when the loop is left
    (the flag says whether [[DONE]] was seen: a read error may already be pending
    then) and the error of the context at that time. *)
Record streamReply := mkStreamReply {
  rep_StatusCode : Z;
  rep_Status : string;
  rep_Body : string;
  rep_Lines : list string;
  rep_ScanErr : bool → option ModelErr;
  rep_CtxErr : option ModelErr
}.

Section Client.
Context {UT : UnicodeTables}.

Definition isToolStreamingUnsupportedResponse (statusCode : Z) (body : string) : bool :=
  if (statusCode =? 501)%Z then true
  else if ((statusCode <? 400) || (500 <=? statusCode))%Z then false
  else
    let message := ToLower body in
    if negb (Contains message "stream") then false
    else Contains message "not supported" || Contains message "unsupported" || Contains message "not implemented".

Definition classifyHTTPError (statusCode : Z) (status body prefix : string) : ModelErr :=
  let err := prefix ++ ": " ++ status ++ ": " ++ TrimSpace body in
  let message := ToLower body in
  let contextMessage := Contains message "context_length_exceeded" || Contains message "maximum context length" ||
                        Contains message "too many tokens" in
  if (statusCode =? 413)%Z || ((statusCode =? 400)%Z && contextMessage) then ErrContextWindowExceeded (": " ++ err)
  else if (statusCode =? 429)%Z then ErrRateLimited (": " ++ err)
  else ErrText err.

Context (json_valid : string → bool).
Context (marshal_request : openAIToolChatRequest → result ModelErr string).
Context (decode_chunk : string → result ModelErr openAIToolStreamChunk).
(** [http.NewRequestWithContext], which may refuse the endpoint, and the
    exchange of the stream client; the API key goes into a header. *)
Context (new_request : string → string → option ModelErr).
Context (do_stream : string → string → string → result ModelErr streamReply).

Definition emitModelStreamError {A} (err : ModelErr) : Stream ModelStreamEvent (result ModelErr A) :=
  Emit (errorEvent err) (λ callbackErr, Ret (Err (match callbackErr with Some e => e | None => err end))).

(** The payload of a line of the event stream, if it has one. *)
Definition sseData (raw : string) : option string :=
  let line := TrimSpace raw in
  if (line =? "") || HasPrefix line ":" then None
  else if negb (HasPrefix line "data:") then None
  else Some (TrimSpace (TrimPrefix line "data:")).

(** The scanning loop; its flag is [sawDone]. *)
Fixpoint scanLines (lines : list string) (p : toolStreamParser)
    : Stream ModelStreamEvent (toolStreamParser * result ModelErr bool) :=
  match lines with
  | [] => Ret (p, Ok false)
  | raw :: lines =>
    match sseData raw with
    | None => scanLines lines p
    | Some data =>
      if data =? "" then scanLines lines p
      else if data =? "[DONE]" then
        sbind (finish json_valid p) (λ '(p, err),
          Ret (p, match err with Some e => Err e | None => Ok true end))
      else
        match decode_chunk data with
        | Err err =>
          sbind (fail err p) (λ '(p, err), Ret (p, match err with Some e => Err e | None => Ok false end))
        | Ok chunk =>
          sbind (accept json_valid chunk p) (λ '(p, err),
            match err with Some e => Ret (p, Err e) | None => scanLines lines p end)
        end
    end
  end.

(** [return nil, parser.fail(err)], where the error of the context comes first. *)
Definition failed_with {A} (err : ModelErr) (contextErr : option ModelErr) (p : toolStreamParser)
    : Stream ModelStreamEvent (result ModelErr A) :=
  let err := match contextErr with Some e => e | None => err end in
  sbind (fail err p) (λ '(_, e), Ret (Err (match e with Some e => e | None => err end))).

Definition readStream (reply : streamReply) : Stream ModelStreamEvent (result ModelErr (option ToolChatResponse)) :=
  sbind (scanLines (rep_Lines reply) (newToolStreamParser NewToolStreamAccumulator)) (λ '(p, scanned),
    match scanned with
    | Err err => Ret (Err err)
    | Ok sawDone =>
      match rep_ScanErr reply sawDone with
      | Some err => failed_with err (rep_CtxErr reply) p
      | None =>
        if sawDone then Ret (rmap Some (Response json_valid (sp_acc p)))
        else failed_with (ErrText "unexpected EOF") (rep_CtxErr reply) p
      end
    end).

Definition streamPayload (req : ToolChatRequest) : openAIToolChatRequest :=
  mkOpenAIRequest (tcr_Model req) (toOpenAIToolMessages (tcr_Messages req)) (tcr_Tools req) (tcr_ToolChoice req)
    (tcr_Temperature req) (tcr_ReasoningEffort req) true [("include_usage", true)].

Definition StreamChatWithTools (cfg : ChatProviderConfig) (req : ToolChatRequest)
    : Stream ModelStreamEvent (result ModelErr (option ToolChatResponse)) :=
  match openAIChatEndpoint cfg with
  | Err err => emitModelStreamError err
  | Ok endpoint =>
    match marshal_request (streamPayload req) with
    | Err err => emitModelStreamError err
    | Ok body =>
      match new_request endpoint body with
      | Some err => emitModelStreamError err
      | None =>
        match do_stream endpoint (cfg_APIKey cfg) body with
        | Err (ErrToolStreamingUnsupported d) => Ret (Err (ErrToolStreamingUnsupported d))
        | Err err => emitModelStreamError err
        | Ok reply =>
          if ((rep_StatusCode reply <? 200) || (300 <=? rep_StatusCode reply))%Z then
            let streamErr := classifyHTTPError (rep_StatusCode reply) (rep_Status reply) (rep_Body reply)
                               "chat tool stream failed" in
            if isToolStreamingUnsupportedResponse (rep_StatusCode reply) (rep_Body reply) then
              Ret (Err (ErrToolStreamingUnsupported (": " ++ errorText streamErr)))
            else emitModelStreamError streamErr
          else readStream reply
        end
      end
    end
  end.

(** ** The other calls of the client *)

Definition ChatWithTools (do_json : string → string → openAIToolChatRequest →
                                    result ModelErr (list openAIToolChatMessage * Usage))
    (cfg : ChatProviderConfig) (req : ToolChatRequest) : result ModelErr ToolChatResponse :=
  match openAIChatEndpoint cfg with
  | Err err => Err err
  | Ok endpoint =>
    let payload := mkOpenAIRequest (tcr_Model req) (toOpenAIToolMessages (tcr_Messages req)) (tcr_Tools req)
      (tcr_ToolChoice req) (tcr_Temperature req) (tcr_ReasoningEffort req) false [] in
    match do_json endpoint (cfg_APIKey cfg) payload with
    | Err err => Err err
    | Ok ([], _) => Ok (mkToolChatResponse (mkChatMessage "" "" "" []) zeroUsage "")
    | Ok (message :: _, usage) => Ok (mkToolChatResponse (fromOpenAIToolMessage message) usage "")
    end
  end.

End Client.

Local Close Scope string_scope.

(** ** Reassembling the calls

    What the accumulator is meant to compute, from the whole list of fragments:
    the fragments of an index, concatenated, under the last id and name given. *)
Record fragment := mkFragment { fr_index : Z; fr_id : string; fr_name : string; fr_args : string }.

Definition addFragment (a : ToolStreamAccumulator) (f : fragment) : ToolStreamAccumulator :=
  AddToolCallDelta (fr_index f) (fr_id f) (fr_name f) (fr_args f) a.
Definition addFragments (fs : list fragment) : ToolStreamAccumulator :=
  foldl addFragment NewToolStreamAccumulator fs.

Definition fragmentsAt (i : Z) (fs : list fragment) : list fragment := filter (λ f, fr_index f = i) fs.
Definition lastGiven (l : list string) : string := foldl (λ acc s, if (s =? "")%string then acc else s) "" l.
Definition concatenated (l : list string) : string := foldr String.append "" l.

Definition reassembled (json_valid : string → bool) (fs : list fragment) : result ModelErr ToolCall :=
  rmap (mkToolCall (lastGiven (fr_id <$> fs)) "function" (lastGiven (fr_name <$> fs)))
    (validToolArguments json_valid (concatenated (fr_args <$> fs))).

Lemma str_app_assoc (s t u : string) : ((s ++ t) ++ u = s ++ (t ++ u))%string.
Proof. apply bytes_inj. by rewrite !bytes_app, app_assoc. Qed.
Lemma str_app_nil (s : string) : (s ++ "" = s)%string.
Proof. apply bytes_inj. by rewrite bytes_app, app_nil_r. Qed.

Lemma concatenated_app l k : concatenated (l ++ k) = (concatenated l ++ concatenated k)%string.
Proof. induction l as [| s l IH]; [done|]. unfold concatenated in *. cbn [app foldr]. by rewrite IH, str_app_assoc. Qed.
Lemma concatenated_snoc l s : concatenated (l ++ [s]) = (concatenated l ++ s)%string.
Proof. rewrite concatenated_app. unfold concatenated at 2. cbn [foldr]. by rewrite str_app_nil. Qed.
Lemma lastGiven_snoc l s : lastGiven (l ++ [s]) = if (s =? "")%string then lastGiven l else s.
Proof. unfold lastGiven. by rewrite foldl_app. Qed.

(** The state of the accumulator after the fragments [fs]. *)
Definition callOf (fs : list fragment) : streamToolCall :=
  mkStreamToolCall (lastGiven (fr_id <$> fs)) "function" (lastGiven (fr_name <$> fs)) (concatenated (fr_args <$> fs)).

Lemma fragmentsAt_nil i fs : fragmentsAt i fs = [] ↔ i ∉ fr_index <$> fs.
Proof.
  unfold fragmentsAt. rewrite list_elem_of_fmap. split.
  - intros E (f & -> & Hf). apply list_elem_of_In in Hf. eapply (not_elem_of_nil f). rewrite <- E.
    apply list_elem_of_filter. split; [done|by apply list_elem_of_In].
  - intros Hn. apply filter_none. intros f Hf E. apply Hn. by exists f.
Qed.

Definition extendCall (f : fragment) (call : streamToolCall) : streamToolCall :=
  mkStreamToolCall (if (fr_id f =? "")%string then sc_id call else fr_id f) (sc_typ call)
    (if (fr_name f =? "")%string then sc_name call else fr_name f) (sc_arguments call ++ fr_args f)%string.

Lemma addFragment_calls a f :
  acc_toolCalls (addFragment a f) =
  <[fr_index f := extendCall f (default (callOf []) (acc_toolCalls a !! fr_index f))]> (acc_toolCalls a).
Proof. unfold addFragment, AddToolCallDelta. by destruct (acc_toolCalls a !! fr_index f). Qed.

Lemma addFragment_order a f :
  acc_toolOrder (addFragment a f) =
  acc_toolOrder a ++ (if acc_toolCalls a !! fr_index f is Some _ then [] else [fr_index f]).
Proof. unfold addFragment, AddToolCallDelta. destruct (acc_toolCalls a !! fr_index f); [| done]. by rewrite app_nil_r. Qed.

Lemma extendCall_callOf f fs : extendCall f (callOf fs) = callOf (fs ++ [f]).
Proof.
  unfold extendCall, callOf. rewrite !fmap_app. cbn [sc_id sc_typ sc_name sc_arguments fmap list_fmap].
  by rewrite !lastGiven_snoc, concatenated_snoc.
Qed.

Lemma fragmentsAt_snoc i fs f :
  fragmentsAt i (fs ++ [f]) = fragmentsAt i fs ++ (if decide (fr_index f = i) then [f] else []).
Proof. unfold fragmentsAt. by rewrite filter_app. Qed.

Lemma addFragments_calls fs i :
  acc_toolCalls (addFragments fs) !! i =
  if bool_decide (fragmentsAt i fs = []) then None else Some (callOf (fragmentsAt i fs)).
Proof.
  revert i. induction fs as [| f fs IH] using rev_ind; intros i.
  { rewrite bool_decide_true by done. apply lookup_empty. }
  unfold addFragments in *. rewrite foldl_app. cbn [foldl]. rewrite addFragment_calls, fragmentsAt_snoc.
  destruct (decide (fr_index f = i)) as [<-|Hne].
  - rewrite lookup_insert_eq, IH, (bool_decide_false (_ ++ _ = _)) by (intros E; by apply app_nil in E as [_ ?]).
    rewrite <- extendCall_callOf. case_bool_decide as E; [by rewrite E|done].
  - rewrite lookup_insert_ne, app_nil_r by done. apply IH.
Qed.

Lemma addFragments_order fs :
  NoDup (acc_toolOrder (addFragments fs)) ∧
  (∀ i, i ∈ acc_toolOrder (addFragments fs) ↔ i ∈ fr_index <$> fs).
Proof.
  induction fs as [| f fs [IHd IHo]] using rev_ind; [split; [constructor|done]|].
  pose proof (addFragments_calls fs (fr_index f)) as Hc. unfold addFragments in *. rewrite foldl_app. cbn [foldl].
  rewrite addFragment_order, Hc, fmap_app. cbn [fmap list_fmap]. case_bool_decide as E.
  - apply fragmentsAt_nil in E. rewrite <- IHo in E. split.
    + apply NoDup_app. split; [done|]. split; [| apply NoDup_singleton]. set_solver.
    + intros i. by rewrite !elem_of_app, IHo.
  - rewrite app_nil_r. split; [done|]. intros i. rewrite elem_of_app, IHo, list_elem_of_singleton.
    split; [by left|]. intros [| ->]; [done|].
    destruct (decide (fr_index f ∈ fr_index <$> fs)) as [| Hn]; [done|]. by apply fragmentsAt_nil in Hn.
Qed.

Lemma orderedToolIndexes_sorted fs : StronglySorted (key_lt id) (orderedToolIndexes (addFragments fs)).
Proof.
  unfold orderedToolIndexes. apply key_sorted_strict.
  - apply (sort_stable_sorted Z.ltb); intros; bool_prop; apply Z.ltb_ge; lia.
  - rewrite list_fmap_id, sort_stable_perm. apply addFragments_order.
Qed.

Lemma elem_of_orderedToolIndexes fs i : i ∈ orderedToolIndexes (addFragments fs) ↔ i ∈ fr_index <$> fs.
Proof. unfold orderedToolIndexes. rewrite sort_stable_perm. apply addFragments_order. Qed.

(** Fragments of different indexes may be interleaved in any way. *)
Lemma interleaving_irrelevant fs fs' :
  (∀ i, fragmentsAt i fs = fragmentsAt i fs') →
  acc_toolCalls (addFragments fs) = acc_toolCalls (addFragments fs') ∧
  orderedToolIndexes (addFragments fs) = orderedToolIndexes (addFragments fs').
Proof.
  intros Hat. split.
  - apply map_eq. intros i. by rewrite !addFragments_calls, Hat.
  - apply (key_sorted_unique id); [apply orderedToolIndexes_sorted..|]. apply NoDup_Permutation.
    1,2: unfold orderedToolIndexes; rewrite sort_stable_perm; apply addFragments_order.
    intros i. rewrite !elem_of_orderedToolIndexes.
    destruct (decide (i ∈ fr_index <$> fs)) as [H|H], (decide (i ∈ fr_index <$> fs')) as [H'|H']; try done.
    + apply fragmentsAt_nil in H'. rewrite <- Hat in H'. by apply fragmentsAt_nil in H'.
    + apply fragmentsAt_nil in H. rewrite Hat in H. by apply fragmentsAt_nil in H.
Qed.

Lemma accToolCall_reassembled json_valid fs i :
  i ∈ fr_index <$> fs →
  accToolCall json_valid i (addFragments fs) =
  match reassembled json_valid (fragmentsAt i fs) with
  | Ok call => Ok call
  | Err err => Err (ErrText ("tool call index " ++ Itoa i ++ ": " ++ errorText err)%string)
  end.
Proof.
  intros Hi. unfold accToolCall. rewrite addFragments_calls, bool_decide_false by (by rewrite fragmentsAt_nil; tauto).
  unfold reassembled, callOf. cbn [sc_arguments sc_typ sc_id sc_name].
  by destruct (validToolArguments json_valid _).
Qed.

Lemma collectCalls_ok json_valid ixs a calls :
  collectCalls json_valid ixs a = Ok calls ↔ Forall2 (λ i call, accToolCall json_valid i a = Ok call) ixs calls.
Proof.
  revert calls. induction ixs as [| i ixs IH]; intros calls; cbn [collectCalls].
  { split; [intros E; injection E as <-; constructor|]. intros E. by inversion E. }
  destruct (accToolCall json_valid i a) as [call|err] eqn:Ei.
  - destruct (collectCalls json_valid ixs a) as [rest|err]; cbn [rmap].
    + split.
      * intros E. injection E as <-. constructor; [done|]. by apply IH.
      * intros E. inversion E as [|? c ? cs Hc Hcs]; subst. apply IH in Hcs. congruence.
    + split; [done|]. intros E. inversion E as [|? c ? cs Hc Hcs]; subst. apply IH in Hcs. congruence.
  - split; [done|]. intros E. inversion E; congruence.
Qed.

(** The accumulator against its reference: whatever the order of the
    fragments, the calls come out in the order of their indexes, each put together
    from its own fragments; two streams that differ only in how the indexes are
    interleaved give the same calls. *)
Lemma accToolCalls_spec json_valid fs :
  StronglySorted Z.lt (orderedToolIndexes (addFragments fs)) ∧
  (∀ i, i ∈ orderedToolIndexes (addFragments fs) ↔ i ∈ fr_index <$> fs) ∧
  (∀ calls, accToolCalls json_valid (addFragments fs) = Ok calls ↔
     Forall2 (λ i call, reassembled json_valid (fragmentsAt i fs) = Ok call)
       (orderedToolIndexes (addFragments fs)) calls) ∧
  (∀ fs', (∀ i, fragmentsAt i fs = fragmentsAt i fs') →
     accToolCalls json_valid (addFragments fs) = accToolCalls json_valid (addFragments fs')).
Proof.
  split; [exact (orderedToolIndexes_sorted fs)|]. split; [apply elem_of_orderedToolIndexes|]. split.
  - intros calls. unfold accToolCalls. rewrite collectCalls_ok.
    assert (∀ i, i ∈ orderedToolIndexes (addFragments fs) → i ∈ fr_index <$> fs) as Hin
      by (intros i; apply elem_of_orderedToolIndexes).
    revert calls. induction (orderedToolIndexes (addFragments fs)) as [| i ixs IH]; intros calls.
    { by split; intros E; inversion E. }
    assert (∀ call, accToolCall json_valid i (addFragments fs) = Ok call ↔
                    reassembled json_valid (fragmentsAt i fs) = Ok call) as Hi.
    { intros call. rewrite accToolCall_reassembled by (apply Hin; left).
      by destruct (reassembled json_valid (fragmentsAt i fs)). }
    destruct calls as [| call calls]; [by split; intros E; inversion E|].
    by rewrite !Forall2_cons, Hi, IH by (intros j Hj; apply Hin; by right).
  - intros fs' Hat. destruct (interleaving_irrelevant fs fs' Hat) as [Hc Ho].
    unfold accToolCalls. rewrite Ho. clear Ho. induction (orderedToolIndexes (addFragments fs')) as [| i ixs IH]; [done|].
    cbn [collectCalls]. rewrite IH. unfold accToolCall. by rewrite Hc.
Qed.

(** ** Fragments of text *)

(** Strings that encoding/json yields are valid UTF-8. *)
Definition valid_utf8 (s : string) : Prop := of_runes (runes s) = s.

Lemma runes_app s t : valid_utf8 s → runes (s ++ t)%string = runes s ++ runes t.
Proof.
  intros Hs. unfold valid_utf8 in Hs. unfold runes at 1 3.
  assert (∀ l, Forall (λ r, scalar r = true) l →
    decoded (concat (encode_rune <$> l) ++ bytes t) (((λ r, (r, encode_rune r)) <$> l) ++ segments t)) as Hd.
  { induction 1 as [| r l Hr Hl IH]; cbn [fmap list_fmap concat app]; [by apply segments_decoded|].
    rewrite <- app_assoc. constructor; [apply encode_rune_nonempty|by apply decode_encode|done]. }
  assert (bytes s = concat (encode_rune <$> runes s)) as Hb.
  { rewrite <- Hs at 1. apply bytes_of_bytes. }
  unfold segments at 1. rewrite bytes_app, Hb.
  rewrite (decoded_det _ _ _ (Hd _ (runes_scalar s)) (Nat.le_refl _)).
  rewrite fmap_app, <- list_fmap_compose. f_equal. apply list_fmap_id.
Qed.

Lemma of_runes_app l k : of_runes (l ++ k) = (of_runes l ++ of_runes k)%string.
Proof. apply bytes_inj. unfold of_runes. by rewrite bytes_app, !bytes_of_bytes, fmap_app, concat_app. Qed.

Lemma of_rune r : of_bytes (encode_rune r) = of_runes [r].
Proof. unfold of_runes. cbn [fmap list_fmap concat]. by rewrite app_nil_r. Qed.

Lemma valid_utf8_app s t : valid_utf8 s → valid_utf8 t → valid_utf8 (s ++ t).
Proof.
  intros Hs Ht. unfold valid_utf8. rewrite runes_app, of_runes_app by done. by f_equal.
Qed.

Lemma valid_utf8_runes l : Forall (λ r, scalar r = true) l → valid_utf8 (of_runes l).
Proof. intros Hl. unfold valid_utf8. by rewrite runes_of_runes. Qed.

(** ** The lines of the plan parser *)

Lemma Push_runes text p : Push text p = pushRunes (runes text) p.
Proof. unfold Push. destruct (text =? "")%string eqn:E; [|done]. bool_prop. by subst. Qed.

Lemma pushRunes_app l k p :
  pushRunes (l ++ k) p =
  let '(p, events) := pushRunes l p in let '(p, more) := pushRunes k p in (p, events ++ more).
Proof.
  revert p. induction l as [| r l IH]; intros p; cbn [app pushRunes]; [by destruct (pushRunes k p)|].
  destruct (r =? 10)%Z; [|apply IH]. destruct (flushLine (writeRune r p)) as [q events]. rewrite IH.
  destruct (pushRunes l q) as [q' more]. destruct (pushRunes k q') as [q'' rest]. by rewrite app_assoc.
Qed.

Definition set_line (s : string) (p : ProposedPlanStreamParser) : ProposedPlanStreamParser :=
  mkPlanParser s (pp_visible p) (pp_inside p) (pp_plan p) (pp_lastPlan p) (pp_sawPlan p).

Lemma pushRunes_line l p : 10 ∉ l → pushRunes l p = (set_line (pp_line p ++ of_runes l) p, []).
Proof.
  revert p. induction l as [| r l IH]; intros p Hn; cbn [pushRunes].
  { unfold of_runes. cbn. rewrite str_app_nil. by destruct p. }
  apply not_elem_of_cons in Hn as [Hr Hn]. destruct (r =? 10)%Z eqn:E; [bool_prop; congruence|].
  rewrite IH by done. unfold writeRune, set_line. cbn [pp_line pp_visible pp_inside pp_plan pp_lastPlan pp_sawPlan].
  change (r :: l) with ([r] ++ l). rewrite of_runes_app, <- str_app_assoc. by rewrite of_rune.
Qed.

(** What [flushLine] makes of a line outside a block. *)
Definition opens (line : string) : bool :=
  (TrimSuffix (TrimSuffix line newline) carriageReturn =? proposedPlanOpenTag)%string.

Lemma flushLine_text p :
  pp_inside p = false → opens (pp_line p) = false →
  flushLine p = (mkPlanParser "" (pp_visible p ++ pp_line p) false (pp_plan p) (pp_lastPlan p) (pp_sawPlan p),
                 [textEvent ModelTextDelta (pp_line p)]).
Proof. unfold flushLine, opens. intros -> ->. done. Qed.

(** The texts of the visible deltas; those of a whole message are lines none of
    which opens a block. *)
Definition texts (events : list ModelStreamEvent) : list string :=
  ev_Text <$> filter (λ e, ev_Kind e = ModelTextDelta) events.

Lemma textOf_texts events : textOf events = concatenated (texts events).
Proof.
  induction events as [| e events IH]; [done|]. unfold texts, textOf in *. cbn [foldr]. rewrite filter_cons, IH.
  case_bool_decide; destruct (decide _); done.
Qed.

Lemma texts_app l k : texts (l ++ k) = texts l ++ texts k.
Proof. unfold texts. by rewrite filter_app, fmap_app. Qed.

Inductive VisibleLines : list string → Prop :=
| visible_nil : VisibleLines []
| visible_last l :
    Forall (λ r, scalar r = true) l → 10 ∉ l → l ≠ [] → opens (of_runes l) = false → VisibleLines [of_runes l]
| visible_cons l lines :
    Forall (λ r, scalar r = true) l → 10 ∉ l → opens (of_runes (l ++ [10])) = false → VisibleLines lines →
    VisibleLines (of_runes (l ++ [10]) :: lines).

Lemma line_nonempty l : (0 <? slen (of_runes l))%Z = bool_decide (l ≠ []).
Proof.
  destruct l as [| r l]; [done|]. rewrite bool_decide_true by done. apply Z.ltb_lt. unfold slen.
  rewrite <- length_bytes. unfold of_runes. rewrite bytes_of_bytes. cbn [fmap list_fmap concat].
  rewrite length_app. pose proof (encode_rune_nonempty r). destruct (encode_rune r); [done|]. cbn [length]. lia.
Qed.

(** Push the rest of a message and finish. *)
Definition parseRest (rs : list Z) (p : ProposedPlanStreamParser) : ProposedPlanStreamParser * list ModelStreamEvent :=
  let '(p, events) := pushRunes rs p in let '(p, more) := Finish p in (p, events ++ more).

Lemma parse_newline rs p :
  parseRest (10 :: rs) p =
  let '(q, events) := flushLine (writeRune 10 p) in let '(q, more) := parseRest rs q in (q, events ++ more).
Proof.
  unfold parseRest. cbn [pushRunes]. change (10 =? 10)%Z with true. cbv iota.
  destruct (flushLine (writeRune 10 p)) as [q events]. destruct (pushRunes rs q) as [q' more].
  destruct (Finish q') as [q'' rest]. by rewrite app_assoc.
Qed.

Lemma flushLine_line p : pp_line (flushLine p).1 = "".
Proof. unfold flushLine. by repeat case_match. Qed.

Lemma flushLine_texts p :
  texts (flushLine p).2 = [] ∨ (texts (flushLine p).2 = [pp_line p] ∧ opens (pp_line p) = false).
Proof.
  unfold flushLine, opens. destruct (pp_inside p); cbn [negb andb].
  - left. by destruct (_ =? _)%string.
  - destruct (_ =? _)%string; [by left|by right].
Qed.

Lemma parseRest_visible rs p l :
  Forall (λ r, scalar r = true) rs → Forall (λ r, scalar r = true) l → 10 ∉ l → pp_line p = of_runes l →
  VisibleLines (texts (parseRest rs p).2).
Proof.
  intros Hrs. revert p l. induction Hrs as [| r rs Hr Hrs IH]; intros p l Hl Hn Hp.
  - unfold parseRest. cbn [pushRunes]. unfold Finish. rewrite Hp, line_nonempty. case_bool_decide as Hne.
    + pose proof (flushLine_texts p) as Ht. destruct (flushLine p) as [q events]. cbn [snd] in Ht.
      assert (VisibleLines (texts events)) as Hv.
      { destruct Ht as [->|[-> Ho]]; [constructor|]. rewrite Hp in *. by constructor. }
      destruct (pp_inside q); cbn [app snd]; [|done]. rewrite texts_app. unfold texts at 2. cbn. by rewrite app_nil_r.
    + destruct (pp_inside p); constructor.
  - destruct (decide (r = 10)) as [->|Hne].
    + rewrite parse_newline. pose proof (flushLine_texts (writeRune 10 p)) as Ht.
      pose proof (flushLine_line (writeRune 10 p)) as Hq. destruct (flushLine (writeRune 10 p)) as [q events].
      cbn [fst snd] in Ht, Hq. specialize (IH q [] ltac:(constructor) ltac:(set_solver) Hq).
      destruct (parseRest rs q) as [q' more]. cbn [snd] in *. rewrite texts_app.
      destruct Ht as [->|[-> Ho]]; [done|]. cbn [app].
      assert (pp_line (writeRune 10 p) = of_runes (l ++ [10])) as E.
      { unfold writeRune. cbn [pp_line]. by rewrite Hp, of_runes_app. }
      rewrite E in *. by constructor.
    + assert (parseRest (r :: rs) p = parseRest rs (writeRune r p)) as ->.
      { unfold parseRest. cbn [pushRunes]. by rewrite (proj2 (Z.eqb_neq r 10) Hne). }
      apply (IH _ (l ++ [r])).
      * apply Forall_app. split; [done|]. by constructor.
      * set_solver.
      * unfold writeRune. cbn [pp_line]. by rewrite Hp, of_runes_app, of_rune.
Qed.

Lemma visible_valid lines : VisibleLines lines → valid_utf8 (concatenated lines).
Proof.
  induction 1 as [| l Hl Hn Hne Ho| l lines Hl Hn Ho Hv IH]; [done| |].
  - unfold concatenated. cbn [foldr]. rewrite str_app_nil. by apply valid_utf8_runes.
  - apply valid_utf8_app; [|done]. apply valid_utf8_runes, Forall_app. split; [done|]. by constructor.
Qed.

(** Parsing visible lines again finds no block. *)
Lemma parse_visible lines p :
  VisibleLines lines → pp_inside p = false → pp_line p = "" →
  (parseRest (runes (concatenated lines)) p).2 = (textEvent ModelTextDelta <$> lines) ∧
  pp_lastPlan (parseRest (runes (concatenated lines)) p).1 = pp_lastPlan p.
Proof.
  intros Hv. revert p. induction Hv as [| l Hl Hn Hne Ho| l lines Hl Hn Ho Hv IH]; intros p Hin Hline.
  - unfold parseRest. change (runes (concatenated [])) with (@nil Z). cbn [pushRunes]. unfold Finish.
    rewrite Hline. change (0 <? slen "")%Z with false. cbv iota. by rewrite Hin.
  - unfold concatenated. cbn [foldr]. rewrite str_app_nil, runes_of_runes by done.
    unfold parseRest. rewrite pushRunes_line by done. rewrite Hline. unfold Finish. cbn [set_line pp_line].
    change ("" ++ of_runes l)%string with (of_runes l). rewrite line_nonempty, bool_decide_true by done.
    rewrite flushLine_text by (cbn; done). done.
  - change (concatenated (of_runes (l ++ [10]) :: lines)) with (of_runes (l ++ [10]) ++ concatenated lines)%string.
    assert (Forall (λ r, scalar r = true) (l ++ [10])) as Hs by (apply Forall_app; split; [done|by constructor]).
    rewrite runes_app by (by apply valid_utf8_runes). rewrite runes_of_runes, <- app_assoc by done. cbn [app].
    assert (parseRest (l ++ 10 :: runes (concatenated lines)) p =
            parseRest (10 :: runes (concatenated lines)) (set_line (of_runes l) p)) as ->.
    { unfold parseRest. rewrite pushRunes_app, pushRunes_line, Hline by done.
      change ("" ++ of_runes l)%string with (of_runes l). by destruct (pushRunes _ _) as [q e]. }
    rewrite parse_newline. rewrite flushLine_text; [| done|by unfold writeRune; cbn [pp_line set_line]; rewrite of_rune, <- of_runes_app].
    cbn [writeRune set_line pp_line pp_visible pp_inside pp_plan pp_lastPlan pp_sawPlan].
    destruct (IH (mkPlanParser "" (pp_visible p ++ of_runes l ++ of_bytes (encode_rune 10)) false (pp_plan p)
      (pp_lastPlan p) (pp_sawPlan p))) as [IH1 IH2]; [done..|].
    destruct (parseRest _ _) as [q more]. cbn [fst snd] in *. rewrite IH1. cbn [fmap list_fmap app].
    split; [|done]. by rewrite of_runes_app.
Qed.

Lemma NormalizeProposedPlan_parse text :
  NormalizeProposedPlan text =
  (textOf (parseRest (runes text) newPlanParser).2, pp_lastPlan (parseRest (runes text) newPlanParser).1).
Proof.
  unfold NormalizeProposedPlan, parseRest. rewrite Push_runes. destruct (pushRunes _ _) as [p events].
  by destruct (Finish p).
Qed.

Lemma texts_deltas lines : texts (textEvent ModelTextDelta <$> lines) = lines.
Proof.
  induction lines as [| s lines IH]; [done|]. unfold texts in *. cbn [fmap list_fmap].
  rewrite filter_cons_True by done. cbn [fmap list_fmap]. by rewrite IH.
Qed.

(** Normalizing the visible text again changes nothing and finds no plan. *)
Lemma normalized_events text :
  let visible := (NormalizeProposedPlan text).1 in
  ∃ lines, (parseRest (runes visible) newPlanParser).2 = textEvent ModelTextDelta <$> lines ∧
           concatenated lines = visible.
Proof.
  rewrite NormalizeProposedPlan_parse. cbn [fst]. rewrite textOf_texts. cbv zeta.
  assert (VisibleLines (texts (parseRest (runes text) newPlanParser).2)) as Hv.
  { apply (parseRest_visible _ _ []); [apply runes_scalar|constructor|set_solver|done]. }
  eexists. split; [by apply (parse_visible _ newPlanParser Hv)|done].
Qed.

(** ** The plan the events show *)

Definition planStep (plan : string) (e : ModelStreamEvent) : string :=
  match ev_Kind e with
  | ModelProposedPlanStart => ""
  | ModelProposedPlanDelta => (plan ++ ev_Text e)%string
  | _ => plan
  end.
(** The text of the last block. *)
Definition planOf (events : list ModelStreamEvent) : string := foldl planStep "" events.

Definition shownPlan (p : ProposedPlanStreamParser) : string := if pp_inside p then pp_plan p else pp_lastPlan p.

Lemma flushLine_plan p : foldl planStep (shownPlan p) (flushLine p).2 = shownPlan (flushLine p).1.
Proof. unfold flushLine, shownPlan. destruct (pp_inside p); cbn [negb andb]; by destruct (_ =? _)%string. Qed.

Lemma pushRunes_plan rs p : foldl planStep (shownPlan p) (pushRunes rs p).2 = shownPlan (pushRunes rs p).1.
Proof.
  revert p. induction rs as [| r rs IH]; intros p; [done|]. cbn [pushRunes]. destruct (r =? 10)%Z; [|exact (IH (writeRune r p))].
  pose proof (flushLine_plan (writeRune r p)) as Hf. change (shownPlan (writeRune r p)) with (shownPlan p) in Hf.
  destruct (flushLine (writeRune r p)) as [q events]. specialize (IH q). destruct (pushRunes rs q) as [q' more].
  cbn [fst snd] in *. by rewrite foldl_app, Hf.
Qed.

Definition idle (p : ProposedPlanStreamParser) : Prop := pp_inside p = false ∧ pp_line p = "".

Lemma Finish_idle p : idle (Finish p).1.
Proof.
  unfold Finish, idle. destruct (0 <? slen (pp_line p))%Z eqn:E.
  - pose proof (flushLine_line p) as Hl. destruct (flushLine p) as [q events]. cbn [fst] in Hl.
    by destruct (pp_inside q) eqn:Hq.
  - assert (pp_line p = "") as Hl.
    { unfold slen in E. bool_prop. by destruct (pp_line p); [|cbn [String.length] in E; lia]. }
    by destruct (pp_inside p) eqn:Hq.
Qed.

Lemma Finish_again p : idle p → Finish p = (p, []).
Proof. intros [Hin Hl]. unfold Finish. rewrite Hl. change (0 <? slen "")%Z with false. cbv iota. by rewrite Hin. Qed.

Lemma Finish_plan p : foldl planStep (shownPlan p) (Finish p).2 = pp_lastPlan (Finish p).1.
Proof.
  unfold Finish.
  assert (∀ q events, foldl planStep (shownPlan p) events = shownPlan q →
    foldl planStep (shownPlan p) (if pp_inside q then
      (mkPlanParser (pp_line q) (pp_visible q) false (pp_plan q) (pp_plan q) (pp_sawPlan q),
       events ++ [markEvent ModelProposedPlanEnd]) else (q, events)).2 =
    pp_lastPlan (if pp_inside q then
      (mkPlanParser (pp_line q) (pp_visible q) false (pp_plan q) (pp_plan q) (pp_sawPlan q),
       events ++ [markEvent ModelProposedPlanEnd]) else (q, events)).1) as Hgen.
  { intros q events Hq. unfold shownPlan in Hq at 2. destruct (pp_inside q); cbn [fst snd]; [|done].
    by rewrite foldl_app, Hq. }
  destruct (0 <? slen (pp_line p))%Z; [|by apply Hgen].
  pose proof (flushLine_plan p) as Hf. destruct (flushLine p) as [q events]. by apply Hgen.
Qed.

Lemma parseRest_plan rs : planOf (parseRest rs newPlanParser).2 = pp_lastPlan (parseRest rs newPlanParser).1.
Proof.
  pose proof (pushRunes_plan rs newPlanParser) as Hp. unfold planOf, parseRest.
  destruct (pushRunes rs newPlanParser) as [p events]. cbn [fst snd] in Hp.
  pose proof (Finish_plan p) as Hf. destruct (Finish p) as [q more]. cbn [fst snd] in *.
  change (shownPlan newPlanParser) with "" in Hp. by rewrite foldl_app, Hp.
Qed.

(** ** Clients that stop at the first error of their callback *)

Section Honest.
Context {E : Type}.

Fixpoint avoids {A} (good : A → Prop) (m : Stream E A) : Prop :=
  match m with
  | Ret a => ¬ good a
  | Emit e k => ∀ answer, avoids good (k answer)
  end.

(** No result is good once the callback has failed. *)
Fixpoint honest {A} (good : A → Prop) (m : Stream E A) : Prop :=
  match m with
  | Ret a => True
  | Emit e k => (∀ err, avoids good (k (Some err))) ∧ honest good (k None)
  end.

Lemma avoids_bind {A B} (good : A → Prop) (good' : B → Prop) (m : Stream E A) f :
  avoids good m → (∀ a, ¬ good a → avoids good' (f a)) → avoids good' (sbind m f).
Proof. intros Hm Hf. induction m as [a|e k IH]; cbn in *; [by apply Hf|]. intros answer. by apply IH. Qed.

Lemma honest_bind {A B} (good : A → Prop) (good' : B → Prop) (m : Stream E A) f :
  honest good m → (∀ a, ¬ good a → avoids good' (f a)) → (∀ a, honest good' (f a)) → honest good' (sbind m f).
Proof.
  intros Hm Ha Hf. induction m as [a|e k IH]; cbn in *; [by apply Hf|]. destruct Hm as [Hm1 Hm2].
  split; [|by apply IH]. intros err. by eapply avoids_bind.
Qed.

Lemma undisturbed_bind {A B} (m : Stream E A) (f : A → Stream E B) :
  undisturbed (sbind m f) =
  let '(events, a) := undisturbed m in let '(more, b) := undisturbed (f a) in (events ++ more, b).
Proof.
  induction m as [a|e k IH]; cbn; [by destruct (undisturbed (f a))|]. rewrite IH.
  destruct (undisturbed (k None)) as [events a]. by destruct (undisturbed (f a)).
Qed.
End Honest.

Definition Honest (m : Method) : Prop := ∀ p, honest (λ r, r.2 = None) (m p).

Lemma Honest_skip : Honest skip.
Proof. done. Qed.
Lemma Honest_modify f : Honest (modify f).
Proof. done. Qed.
Lemma Honest_emit e : Honest (emit e).
Proof. intros p. split; [|done]. done. Qed.
Lemma Honest_fail err : Honest (fail err).
Proof. intros p. unfold fail. by destruct (sp_failed p). Qed.
Lemma Honest_withParser f : (∀ p, Honest (f p)) → Honest (withParser f).
Proof. intros Hf p. apply Hf. Qed.
Lemma Honest_andThen m n : Honest m → Honest n → Honest (m ;> n).
Proof.
  intros Hm Hn p. eapply honest_bind; [apply Hm| |].
  - intros [q [err|]] Hq; [|done]. done.
  - intros [q [err|]]; [done|apply Hn].
Qed.
Lemma Honest_each {A} (f : A → Method) l : (∀ a, Honest (f a)) → Honest (each f l).
Proof. intros Hf. induction l; [apply Honest_skip|]. by apply Honest_andThen. Qed.
Lemma Honest_if (b : bool) m n : Honest m → Honest n → Honest (if b then m else n).
Proof. by destruct b. Qed.

Create HintDb honest.
#[export] Hint Resolve Honest_skip Honest_modify Honest_emit Honest_fail Honest_withParser Honest_andThen
  Honest_each Honest_if : honest.

Lemma Honest_closeTextAndReasoning : Honest closeTextAndReasoning.
Proof. unfold closeTextAndReasoning. eauto 10 with honest. Qed.
Lemma Honest_finishTools json_valid : Honest (finishTools json_valid).
Proof.
  unfold finishTools, finishTool. apply Honest_withParser. intros p. apply Honest_each. intros i.
  apply Honest_withParser. intros q. apply Honest_if; [apply Honest_skip|].
  destruct (accToolCall _ _ _); eauto with honest.
Qed.
#[export] Hint Resolve Honest_closeTextAndReasoning Honest_finishTools : honest.

Lemma Honest_finish json_valid : Honest (finish json_valid).
Proof. unfold finish. eauto 10 with honest. Qed.

Lemma Honest_accept json_valid chunk : Honest (accept json_valid chunk).
Proof.
  unfold accept. apply Honest_andThen; [|destruct (chu_Usage chunk); eauto 10 with honest].
  apply Honest_each. intros c. unfold acceptChoice, acceptToolCall, beginReasoning, beginText, finishForReason.
  repeat apply Honest_andThen; eauto 20 with honest.
Qed.

Lemma honest_scanLines json_valid decode lines p :
  honest (λ r, is_Ok r.2) (scanLines json_valid decode lines p).
Proof.
  revert p. induction lines as [| raw lines IH]; intros p; cbn [scanLines]; [done|].
  destruct (sseData raw) as [data|]; [|apply IH]. destruct (data =? "")%string; [apply IH|].
  destruct (data =? "[DONE]")%string.
  - eapply honest_bind; [apply Honest_finish| |by intros [q e]].
    intros [q [e|]] Hq; [|done]. cbn. by intros [? ?].
  - destruct (decode data) as [chunk|err].
    + eapply honest_bind; [apply Honest_accept| |].
      * intros [q [e|]] Hq; [|done]. cbn. by intros [? ?].
      * intros [q [e|]]; [done|apply IH].
    + eapply honest_bind; [apply Honest_fail| |by intros [q e]].
      intros [q [e|]] Hq; [|done]. cbn. by intros [? ?].
Qed.

(** ** What an undisturbed stream adds up to *)

(** The events of a method that succeeds: neither terminal nor of a plan. *)
Definition plainKind (k : ModelStreamKind) : bool :=
  match k with
  | ModelDone | ModelError | ModelProposedPlanStart | ModelProposedPlanDelta | ModelProposedPlanEnd => false
  | _ => true
  end.

(** A method that succeeds changes the accumulator by [f] and emits the text
    deltas [ts]. *)
Definition Does (f : ToolStreamAccumulator → ToolStreamAccumulator) (ts : list string) (m : Method) : Prop :=
  ∀ p events q, undisturbed (m p) = (events, (q, None)) →
    sp_acc q = f (sp_acc p) ∧ texts events = ts ∧ Forall (λ e, plainKind (ev_Kind e) = true) events ∧
    sp_done q = sp_done p.

Lemma Does_skip : Does id [] skip.
Proof. intros p events q E. injection E as <- <-. by repeat split. Qed.
Lemma Does_modify f g : (∀ p, sp_acc (g p) = f (sp_acc p) ∧ sp_done (g p) = sp_done p) → Does f [] (modify g).
Proof. intros Hg p events q E. injection E as <- <-. destruct (Hg p) as [H1 H2]. by repeat split. Qed.
Lemma Does_emit e : plainKind (ev_Kind e) = true → Does id (texts [e]) (emit e).
Proof. intros He p events q E. injection E as <- <-. repeat split. by constructor. Qed.
Lemma Does_fail f ts err : Does f ts (fail err).
Proof. intros p events q. unfold fail. by destruct (sp_failed p). Qed.
Lemma Does_withParser f ts m : (∀ p, Does f ts (m p)) → Does f ts (withParser m).
Proof. intros Hm p. apply Hm. Qed.

Lemma Does_andThen f g ts us m n : Does f ts m → Does g us n → Does (λ a, g (f a)) (ts ++ us) (m ;> n).
Proof.
  intros Hm Hn p events q E. unfold andThen in E. rewrite undisturbed_bind in E.
  destruct (undisturbed (m p)) as [l1 [p1 [err|]]] eqn:E1; [done|].
  destruct (undisturbed (n p1)) as [l2 r] eqn:E2. injection E as <- ->.
  destruct (Hm _ _ _ E1) as (Ha & Ht & Hk & Hd), (Hn _ _ _ E2) as (Ha' & Ht' & Hk' & Hd').
  split; [by rewrite Ha', Ha|]. split; [by rewrite texts_app, Ht, Ht'|]. split; [by apply Forall_app|congruence].
Qed.

Lemma Does_quiet m n : Does id [] m → Does id [] n → Does id [] (m ;> n).
Proof. intros Hm Hn. exact (Does_andThen _ _ _ _ _ _ Hm Hn). Qed.

Lemma Does_if f ts (b : bool) m n : Does f ts m → Does f ts n → Does f ts (if b then m else n).
Proof. by destruct b. Qed.

Lemma Does_each {A} (f : A → ToolStreamAccumulator → ToolStreamAccumulator) (ts : A → list string) (m : A → Method) l :
  (∀ a, Does (f a) (ts a) (m a)) → Does (λ acc, foldl (λ acc a, f a acc) acc l) (concat (ts <$> l)) (each m l).
Proof.
  intros Hm. induction l as [| a l IH]; [exact Does_skip|].
  exact (Does_andThen _ _ _ _ _ _ (Hm a) IH).
Qed.

Lemma Does_each_quiet {A} (m : A → Method) l : (∀ a, Does id [] (m a)) → Does id [] (each m l).
Proof. intros Hm. induction l as [| a l IH]; [exact Does_skip|]. by apply Does_quiet. Qed.

Lemma Does_mark k : plainKind k = true → k ≠ ModelTextDelta → Does id [] (emit (markEvent k)).
Proof. intros Hk Hn. pose proof (Does_emit (markEvent k) Hk) as H. unfold texts in H. by rewrite filter_cons_False in H. Qed.
Lemma Does_tool k i c n d a :
  plainKind k = true → k ≠ ModelTextDelta → Does id [] (emit (toolEvent k i c n d a)).
Proof. intros Hk Hn. pose proof (Does_emit (toolEvent k i c n d a) Hk) as H. unfold texts in H. by rewrite filter_cons_False in H. Qed.

#[export] Hint Resolve Does_skip Does_withParser Does_quiet Does_if Does_mark Does_tool Does_fail Does_each_quiet : honest.
#[export] Hint Extern 1 (Does id [] (modify _)) => apply Does_modify; done : honest.
#[export] Hint Extern 1 (plainKind _ = true) => reflexivity : honest.
#[export] Hint Extern 1 (_ ≠ ModelTextDelta) => discriminate : honest.

Lemma Does_closeTextAndReasoning : Does id [] closeTextAndReasoning.
Proof. unfold closeTextAndReasoning. eauto 20 with honest. Qed.
Lemma Does_beginText : Does id [] beginText.
Proof. unfold beginText. apply Does_withParser. intros p. eauto 20 with honest. Qed.
Lemma Does_beginReasoning : Does id [] beginReasoning.
Proof. unfold beginReasoning. apply Does_withParser. intros p. eauto 20 with honest. Qed.
Lemma Does_finishTools json_valid : Does id [] (finishTools json_valid).
Proof.
  unfold finishTools, finishTool. apply Does_withParser. intros p. apply Does_each_quiet. intros i.
  apply Does_withParser. intros q. apply Does_if; [apply Does_skip|].
  destruct (accToolCall _ _ _); eauto with honest.
Qed.
#[export] Hint Resolve Does_closeTextAndReasoning Does_beginText Does_beginReasoning Does_finishTools : honest.

(** The fragment of a streamed tool call: an index that is absent or negative
    counts as 0. *)
Definition fragmentOf (t : openAIToolStreamCall) : fragment :=
  let index := match tsc_Index t with Some i => i | None => 0 end in
  mkFragment (if (index <? 0)%Z then 0 else index) (tsc_ID t) (tsc_Name t) (tsc_Arguments t).

Lemma Does_acceptToolCall t : Does (λ a, addFragment a (fragmentOf t)) [] (acceptToolCall t).
Proof.
  apply Does_withParser. intros p. cbv zeta.
  set (index := if (_ <? 0)%Z then 0 else _).
  refine (Does_andThen id _ [] [] _ _ _ (Does_andThen (λ a, addFragment a (fragmentOf t)) id [] [] _ _ _ _)).
  - eauto 20 with honest.
  - by apply Does_modify.
  - eauto 20 with honest.
Qed.

(** What a choice and a chunk add to the accumulator. *)
Definition choiceTexts (c : openAIStreamChoice) : list string :=
  if (tsd_Content (cho_Delta c) =? "")%string then [] else [tsd_Content (cho_Delta c)].
Definition absorbChoice (c : openAIStreamChoice) (a : ToolStreamAccumulator) : ToolStreamAccumulator :=
  foldl (λ a t, addFragment a (fragmentOf t)) (foldr AddText a (choiceTexts c)) (tsd_ToolCalls (cho_Delta c)).
Definition chunkTexts (c : openAIToolStreamChunk) : list string := concat (choiceTexts <$> chu_Choices c).
Definition absorbChunk (c : openAIToolStreamChunk) (a : ToolStreamAccumulator) : ToolStreamAccumulator :=
  let a := foldl (λ a c, absorbChoice c a) a (chu_Choices c) in
  match chu_Usage c with Some u => AddUsage u a | None => a end.

Lemma Does_acceptChoice json_valid c : Does (absorbChoice c) (choiceTexts c) (acceptChoice json_valid c).
Proof.
  unfold acceptChoice. cbv zeta.
  set (reasoning := if (_ =? "")%string then tsd_Reasoning _ else _).
  assert (Does (λ a, foldr AddText a (choiceTexts c)) (choiceTexts c)
    (if (tsd_Content (cho_Delta c) =? "")%string then skip
     else beginText ;> modify (set_acc (AddText (tsd_Content (cho_Delta c)))) ;>
          emit (textEvent ModelTextDelta (tsd_Content (cho_Delta c))))) as Ht.
  { clear reasoning. unfold choiceTexts. destruct (tsd_Content (cho_Delta c) =? "")%string; [exact Does_skip|]. cbn [foldr].
    refine (Does_andThen id _ [] _ _ _ Does_beginText (Does_andThen (AddText _) id [] _ _ _ _ _)).
    - by apply Does_modify.
    - exact (Does_emit (textEvent ModelTextDelta _) eq_refl). }
  assert (Does (λ a, foldl (λ a t, addFragment a (fragmentOf t)) a (tsd_ToolCalls (cho_Delta c))) []
            (each acceptToolCall (tsd_ToolCalls (cho_Delta c)))) as Hc.
  { pose proof (Does_each (λ t a, addFragment a (fragmentOf t)) (λ _, []) _ (tsd_ToolCalls (cho_Delta c))
      Does_acceptToolCall) as H.
    enough (concat ((λ _, [] : list string) <$> tsd_ToolCalls (cho_Delta c)) = []) as E by (by rewrite E in H).
    clear. by induction (tsd_ToolCalls (cho_Delta c)). }
  rewrite <- (app_nil_r (choiceTexts c)).
  refine (Does_andThen id _ [] _ _ _ _ (Does_andThen _ _ _ [] _ _ Ht (Does_andThen _ id [] [] _ _ Hc _))).
  - apply Does_if; [exact Does_skip|]. apply Does_quiet; [apply Does_beginReasoning|].
    exact (Does_emit (textEvent ModelReasoningDelta reasoning) eq_refl).
  - apply Does_if; [exact Does_skip|]. unfold finishForReason. eauto with honest.
Qed.

Lemma Does_accept json_valid c : Does (absorbChunk c) (chunkTexts c) (accept json_valid c).
Proof.
  unfold accept, chunkTexts. rewrite <- (app_nil_r (concat _)).
  refine (Does_andThen _ (λ a, match chu_Usage c with Some u => AddUsage u a | None => a end) _ [] _ _
    (Does_each _ _ _ (chu_Choices c) (Does_acceptChoice json_valid)) _).
  destruct (chu_Usage c) as [u|]; [|exact Does_skip].
  refine (Does_andThen id _ [] [] _ _ Does_closeTextAndReasoning
    (Does_andThen id _ [] [] _ _ (Does_finishTools _) (Does_andThen (AddUsage u) id [] [] _ _ _ _))).
  - by apply Does_modify.
  - exact (Does_emit (usageEvent u) eq_refl).
Qed.

(** The chunks of the lines before [[DONE]], if the stream gets there. *)
Fixpoint chunksOf (decode_chunk : string → result ModelErr openAIToolStreamChunk) (lines : list string)
    : option (list openAIToolStreamChunk) :=
  match lines with
  | [] => None
  | raw :: lines =>
    match sseData raw with
    | None => chunksOf decode_chunk lines
    | Some data =>
      if (data =? "")%string then chunksOf decode_chunk lines
      else if (data =? "[DONE]")%string then Some []
      else
        match decode_chunk data with
        | Err _ => None
        | Ok chunk => cons chunk <$> chunksOf decode_chunk lines
        end
    end
  end.

Lemma undisturbed_finish json_valid p events q :
  undisturbed (finish json_valid p) = (events, (q, None)) → sp_done p = false →
  sp_acc q = sp_acc p ∧ ∃ pre, events = pre ++ [markEvent ModelDone] ∧ texts pre = [] ∧
    Forall (λ e, plainKind (ev_Kind e) = true) pre.
Proof.
  unfold finish, withParser. intros E Hd. rewrite Hd in E.
  assert (Does id [] (closeTextAndReasoning ;> finishTools json_valid)) as Hm by eauto with honest.
  unfold andThen in E at 1. rewrite undisturbed_bind in E.
  destruct (undisturbed (closeTextAndReasoning p)) as [l1 [p1 [err|]]] eqn:E1; [done|].
  unfold andThen in E at 1. rewrite undisturbed_bind in E.
  destruct (undisturbed (finishTools json_valid p1)) as [l2 [p2 [err|]]] eqn:E2; [done|].
  destruct (Hm p (l1 ++ l2) p2) as (Ha & Ht & Hk & _).
  { unfold andThen. by rewrite undisturbed_bind, E1, E2. }
  cbn in E. injection E as <- <-. cbn [set_done sp_acc]. split; [done|]. exists (l1 ++ l2). by rewrite <- app_assoc.
Qed.

(** A stream that is read to its end without a failure. *)
Lemma undisturbed_scanLines json_valid decode lines p events q sawDone :
  undisturbed (scanLines json_valid decode lines p) = (events, (q, Ok sawDone)) → sp_done p = false →
  if sawDone then
    ∃ chunks pre, chunksOf decode lines = Some chunks ∧ events = pre ++ [markEvent ModelDone] ∧
      sp_acc q = foldl (λ a c, absorbChunk c a) (sp_acc p) chunks ∧
      texts pre = concat (chunkTexts <$> chunks) ∧ Forall (λ e, plainKind (ev_Kind e) = true) pre
  else Forall (λ e, plainKind (ev_Kind e) = true) events.
Proof.
  revert p events. induction lines as [| raw lines IH]; intros p events E Hd; cbn [scanLines chunksOf] in *.
  { by injection E as <- <- <-. }
  destruct (sseData raw) as [data|]; [|by apply (IH p)]. destruct (data =? "")%string; [by apply (IH p)|].
  destruct (data =? "[DONE]")%string.
  { rewrite undisturbed_bind in E. destruct (undisturbed (finish json_valid p)) as [l1 [p1 [err|]]] eqn:E1; [done|].
    cbn in E. injection E as <- <- <-. rewrite app_nil_r. destruct (undisturbed_finish _ _ _ _ E1 Hd) as (Ha & pre & -> & Ht & Hk).
    by exists [], pre. }
  destruct (decode data) as [chunk|err].
  - rewrite undisturbed_bind in E. destruct (undisturbed (accept json_valid chunk p)) as [l1 [p1 [err|]]] eqn:E1; [done|].
    destruct (undisturbed (scanLines json_valid decode lines p1)) as [l2 r] eqn:E2. injection E as <- ->.
    destruct (Does_accept _ _ _ _ _ E1) as (Ha & Ht & Hk & Hd1). rewrite Hd in Hd1.
    specialize (IH _ _ E2 Hd1). destruct sawDone; [|by apply Forall_app].
    destruct IH as (chunks & pre & Hc & -> & Hacc & Htp & Hkp). exists (chunk :: chunks), (l1 ++ pre).
    rewrite Hc, app_assoc, texts_app, Ht, Htp, Hacc, Ha. repeat split. by apply Forall_app.
  - rewrite undisturbed_bind in E. unfold fail in E. by destruct (sp_failed p).
Qed.

(** ** The response of a stream, from its chunks *)

Definition chunkFragments (c : openAIToolStreamChunk) : list fragment :=
  concat ((λ choice, fragmentOf <$> tsd_ToolCalls (cho_Delta choice)) <$> chu_Choices c).
Definition usageAfter (u : Usage) (chunks : list openAIToolStreamChunk) : Usage :=
  foldl (λ u c, default u (chu_Usage c)) u chunks.

Record describes (a : ToolStreamAccumulator) (ts : list string) (u : Usage) (fs : list fragment) : Prop := {
  described_content : acc_content a = concatenated ts;
  described_usage : acc_usage a = u;
  described_calls : acc_toolCalls a = acc_toolCalls (addFragments fs);
  described_order : acc_toolOrder a = acc_toolOrder (addFragments fs)
}.

Lemma describes_fragment a ts u fs f : describes a ts u fs → describes (addFragment a f) ts u (fs ++ [f]).
Proof.
  intros [H1 H2 H3 H4]. assert (addFragments (fs ++ [f]) = addFragment (addFragments fs) f) as E.
  { unfold addFragments. by rewrite foldl_app. }
  split.
  - unfold addFragment, AddToolCallDelta. by destruct (acc_toolCalls a !! _).
  - unfold addFragment, AddToolCallDelta. by destruct (acc_toolCalls a !! _).
  - by rewrite E, !addFragment_calls, H3.
  - by rewrite E, !addFragment_order, H3, H4.
Qed.

Lemma describes_fragments {A} (g : A → fragment) l a ts u fs :
  describes a ts u fs → describes (foldl (λ a t, addFragment a (g t)) a l) ts u (fs ++ (g <$> l)).
Proof.
  revert a fs. induction l as [| t l IH]; intros a fs Ha; [by rewrite app_nil_r|]. cbn [foldl].
  rewrite fmap_cons, cons_middle, app_assoc.
  by apply IH, describes_fragment.
Qed.

Lemma describes_choice c a ts u fs :
  describes a ts u fs →
  describes (absorbChoice c a) (ts ++ choiceTexts c) u (fs ++ (fragmentOf <$> tsd_ToolCalls (cho_Delta c))).
Proof.
  intros Ha. apply describes_fragments. unfold choiceTexts. destruct (_ =? "")%string; cbn [foldr]; [by rewrite app_nil_r|].
  destruct Ha as [H1 H2 H3 H4]. split; try done. cbn [AddText acc_content]. by rewrite concatenated_snoc, H1.
Qed.

Lemma describes_chunk c a ts u fs :
  describes a ts u fs →
  describes (absorbChunk c a) (ts ++ chunkTexts c) (default u (chu_Usage c)) (fs ++ chunkFragments c).
Proof.
  intros Ha. unfold absorbChunk, chunkTexts, chunkFragments. cbv zeta.
  assert (describes (foldl (λ a c, absorbChoice c a) a (chu_Choices c)) (ts ++ concat (choiceTexts <$> chu_Choices c)) u
    (fs ++ concat ((λ choice, fragmentOf <$> tsd_ToolCalls (cho_Delta choice)) <$> chu_Choices c))) as Hc.
  { revert a ts fs Ha. induction (chu_Choices c) as [| ch l IH]; intros a ts fs Ha; cbn [foldl fmap list_fmap concat].
    - by rewrite !app_nil_r.
    - rewrite !app_assoc. by apply IH, describes_choice. }
  destruct (chu_Usage c) as [v|]; [|done]. by destruct Hc.
Qed.

Lemma describes_chunks chunks a ts u fs :
  describes a ts u fs →
  describes (foldl (λ a c, absorbChunk c a) a chunks) (ts ++ concat (chunkTexts <$> chunks)) (usageAfter u chunks)
    (fs ++ concat (chunkFragments <$> chunks)).
Proof.
  revert a ts u fs. induction chunks as [| c l IH]; intros a ts u fs Ha; cbn [foldl fmap list_fmap concat].
  - by rewrite !app_nil_r.
  - rewrite !app_assoc. by apply IH, describes_chunk.
Qed.

(** What the response of a stream is, given its chunks. *)
Definition streamedResponse (json_valid : string → bool) (chunks : list openAIToolStreamChunk)
    (resp : ToolChatResponse) : Prop :=
  let fs := concat (chunkFragments <$> chunks) in
  ∃ indexes calls,
    resp = mkToolChatResponse (mkChatMessage RoleAssistant (concatenated (concat (chunkTexts <$> chunks))) "" calls)
             (usageAfter zeroUsage chunks) "" ∧
    StronglySorted Z.lt indexes ∧ (∀ i, i ∈ indexes ↔ i ∈ fr_index <$> fs) ∧
    Forall2 (λ i call, reassembled json_valid (fragmentsAt i fs) = Ok call) indexes calls.

Lemma Response_streamed json_valid chunks resp :
  Response json_valid (foldl (λ a c, absorbChunk c a) NewToolStreamAccumulator chunks) = Ok resp →
  streamedResponse json_valid chunks resp.
Proof.
  intros E. pose proof (describes_chunks chunks NewToolStreamAccumulator [] zeroUsage []) as Hd.
  destruct Hd as [H1 H2 H3 H4]; [by split|]. cbn [app] in *.
  set (fs := concat (chunkFragments <$> chunks)) in *. set (a := foldl _ _ _) in *.
  assert (accToolCalls json_valid a = accToolCalls json_valid (addFragments fs)) as Hsame.
  { unfold accToolCalls, orderedToolIndexes. rewrite H4.
    induction (sort_stable Z.ltb (acc_toolOrder (addFragments fs))) as [| i ixs IH]; [done|].
    cbn [collectCalls]. rewrite IH. unfold accToolCall. by rewrite H3. }
  unfold Response in E. rewrite Hsame, H1, H2 in E.
  destruct (accToolCalls json_valid (addFragments fs)) as [calls|] eqn:Ec; [|done]. injection E as <-.
  destruct (accToolCalls_spec json_valid fs) as (Hs & Hin & Hok & _).
  exists (orderedToolIndexes (addFragments fs)), calls. repeat split; try done; [by apply Hin..|by apply Hok].
Qed.

Section ClientSpec.
Context {UT : UnicodeTables} (json_valid : string → bool).
Context (marshal_request : openAIToolChatRequest → result ModelErr string).
Context (decode_chunk : string → result ModelErr openAIToolStreamChunk).
Context (new_request : string → string → option ModelErr).
Context (do_stream : string → string → string → result ModelErr streamReply).

Lemma honest_readStream reply : honest is_Ok (readStream json_valid decode_chunk reply).
Proof.
  unfold readStream. eapply honest_bind; [apply honest_scanLines| |].
  - intros [p [sawDone|err]] Hn; [by destruct Hn; eexists|]. by intros [? ?].
  - assert (∀ p err ctx, honest is_Ok (failed_with (A:=option ToolChatResponse) err ctx p)) as Hf.
    { intros p err ctx. unfold failed_with. eapply honest_bind; [apply Honest_fail| |by intros [? ?]].
      intros [q e] Hn. by intros [? ?]. }
    intros [p [sawDone|err]]; [|done]. destruct (rep_ScanErr reply sawDone); [apply Hf|].
    by destruct sawDone.
Qed.

Lemma honest_emitModelStreamError {A} err : honest (@is_Ok ModelErr A) (emitModelStreamError err).
Proof. unfold emitModelStreamError. cbn. split; [|done]. by intros e [? ?]. Qed.

Lemma honest_StreamChatWithTools cfg req :
  honest is_Ok (StreamChatWithTools json_valid marshal_request decode_chunk new_request do_stream cfg req).
Proof.
  unfold StreamChatWithTools.
  repeat (case_match; try done; try apply honest_emitModelStreamError); apply honest_readStream.
Qed.

Lemma undisturbed_readStream reply events answer :
  undisturbed (readStream json_valid decode_chunk reply) = (events, Ok answer) →
  ∃ chunks pre resp, chunksOf decode_chunk (rep_Lines reply) = Some chunks ∧ answer = Some resp ∧
    events = pre ++ [markEvent ModelDone] ∧ streamedResponse json_valid chunks resp ∧
    texts pre = concat (chunkTexts <$> chunks) ∧ Forall (λ e, plainKind (ev_Kind e) = true) pre.
Proof.
  unfold readStream. rewrite undisturbed_bind.
  destruct (undisturbed (scanLines _ _ _ _)) as [l1 [p [sawDone|err]]] eqn:E1; [|done].
  apply undisturbed_scanLines in E1; [|done].
  assert (∀ err ctx, ∃ e, (undisturbed (failed_with (A:=option ToolChatResponse) err ctx p)).2 = Err e) as Hf.
  { intros err ctx. unfold failed_with. rewrite undisturbed_bind. unfold fail.
    destruct (sp_failed p); cbn; by eexists. }
  destruct (rep_ScanErr reply sawDone) as [err|].
  { destruct (Hf err (rep_CtxErr reply)) as [e He]. destruct (undisturbed (failed_with _ _ _)) as [l2 r].
    cbn [snd] in He. subst r. done. }
  destruct sawDone.
  - destruct E1 as (chunks & pre & Hc & -> & Ha & Ht & Hk). cbn. rewrite app_nil_r, Ha. cbn [newToolStreamParser sp_acc].
    intros E. destruct (Response _ _) as [resp|] eqn:Er; [|done]. cbn in E. injection E as <- <-.
    exists chunks, pre, resp. repeat split; try done. by apply Response_streamed.
  - destruct (Hf (ErrText "unexpected EOF") (rep_CtxErr reply)) as [e He].
    destruct (undisturbed (failed_with _ _ _)) as [l2 r]. cbn [snd] in He. subst r. done.
Qed.

Lemma undisturbed_StreamChatWithTools cfg req events answer :
  undisturbed (StreamChatWithTools json_valid marshal_request decode_chunk new_request do_stream cfg req) =
    (events, Ok answer) →
  ∃ endpoint body reply,
    openAIChatEndpoint cfg = Ok endpoint ∧ marshal_request (streamPayload req) = Ok body ∧
    do_stream endpoint (cfg_APIKey cfg) body = Ok reply ∧
    undisturbed (readStream json_valid decode_chunk reply) = (events, Ok answer).
Proof.
  unfold StreamChatWithTools. intros E. repeat (case_match; try done). by eauto 10.
Qed.
End ClientSpec.
