(* ===== verification/ModelTurn.v ===== *)
(** One turn of the model (internal/runtime/agent/model_turn.go): the events of a
    streaming client are filtered through the proposed-plan parser and passed on to
    the runner's callback, a client that cannot stream is asked for the whole
    answer, and either way the callback sees one vocabulary.

    The callback is a function of the events it was given before; the [log] of a
    turn is the list of those events. *)
From S2P Require Import Prelude GoStr Chat Stream.
Open Scope Z_scope.

Record modelTurnStreamState := mkTurnState {
  ts_emittedAny : bool;
  ts_terminal : option ModelStreamKind;
  ts_terminalErr : option ModelErr;
  ts_emitterErr : option ModelErr;
  ts_lastUsage : Usage;
  ts_hasUsage : bool;
  ts_parser : ProposedPlanStreamParser;
  ts_textOpen : bool
}.

Definition newTurnState : modelTurnStreamState :=
  mkTurnState false None None None zeroUsage false newPlanParser false.

(** The state of a turn and the events the callback was given. *)
Record Turn := mkTurn { turn_state : modelTurnStreamState; turn_log : list ModelStreamEvent }.

Definition set_parser (p : ProposedPlanStreamParser) (s : modelTurnStreamState) : modelTurnStreamState :=
  mkTurnState (ts_emittedAny s) (ts_terminal s) (ts_terminalErr s) (ts_emitterErr s) (ts_lastUsage s)
    (ts_hasUsage s) p (ts_textOpen s).
Definition set_open (b : bool) (s : modelTurnStreamState) : modelTurnStreamState :=
  mkTurnState (ts_emittedAny s) (ts_terminal s) (ts_terminalErr s) (ts_emitterErr s) (ts_lastUsage s)
    (ts_hasUsage s) (ts_parser s) b.
Definition set_usage (u : Usage) (s : modelTurnStreamState) : modelTurnStreamState :=
  mkTurnState (ts_emittedAny s) (ts_terminal s) (ts_terminalErr s) (ts_emitterErr s) u true (ts_parser s)
    (ts_textOpen s).
Definition set_emitterErr (err : ModelErr) (s : modelTurnStreamState) : modelTurnStreamState :=
  mkTurnState (ts_emittedAny s) (ts_terminal s) (ts_terminalErr s) (Some err) (ts_lastUsage s) (ts_hasUsage s)
    (ts_parser s) (ts_textOpen s).
(** The last lines of [forward]: an event was passed on. *)
Definition set_forwarded (event : ModelStreamEvent) (s : modelTurnStreamState) : modelTurnStreamState :=
  let '(terminal, terminalErr) :=
    match ev_Kind event with
    | ModelDone => (Some ModelDone, ts_terminalErr s)
    | ModelError => (Some ModelError, ev_Err event)
    | _ => (ts_terminal s, ts_terminalErr s)
    end in
  mkTurnState true terminal terminalErr (ts_emitterErr s) (ts_lastUsage s) (ts_hasUsage s) (ts_parser s) (ts_textOpen s).

Definition on_state (f : modelTurnStreamState → modelTurnStreamState) (t : Turn) : Turn :=
  mkTurn (f (turn_state t)) (turn_log t).

Section Turns.
(** [Runner.OnModelEvent], if it is set. *)
Context (OnModelEvent : option (list ModelStreamEvent → ModelStreamEvent → option ModelErr)).

Definition emitModelEvent (event : ModelStreamEvent) (log : list ModelStreamEvent)
    : list ModelStreamEvent * option ModelErr :=
  match OnModelEvent with
  | None => (log, None)
  | Some callback => (log ++ [event], callback log event)
  end.

(** Events in order, up to the first error. *)
Fixpoint emitAll (events : list ModelStreamEvent) (log : list ModelStreamEvent)
    : list ModelStreamEvent * option ModelErr :=
  match events with
  | [] => (log, None)
  | event :: events =>
    match emitModelEvent event log with
    | (log, Some err) => (log, Some err)
    | (log, None) => emitAll events log
    end
  end.

Definition emitTurn (event : ModelStreamEvent) (t : Turn) : Turn * option ModelErr :=
  let '(log, err) := emitModelEvent event (turn_log t) in (mkTurn (turn_state t) log, err).

(** The events of the plan parser, with the delayed start of the visible text:
    [textOpen] is set when the start was given to the callback, whatever it
    answered in [forward], and only when it accepted it in [emitParserFinish]. *)
Fixpoint forwardParsed (parsed : list ModelStreamEvent) (t : Turn) : Turn * option ModelErr :=
  match parsed with
  | [] => (t, None)
  | event :: parsed =>
    let '(t, err) :=
      if bool_decide (ev_Kind event = ModelTextDelta) && negb (ts_textOpen (turn_state t)) then
        let '(t, err) := emitTurn (markEvent ModelTextStart) t in (on_state (set_open true) t, err)
      else (t, None) in
    match err with
    | Some err => (t, Some err)
    | None =>
      match emitTurn event t with
      | (t, Some err) => (t, Some err)
      | (t, None) => forwardParsed parsed t
      end
    end
  end.

Fixpoint finishParsed (parsed : list ModelStreamEvent) (t : Turn) : Turn * option ModelErr :=
  match parsed with
  | [] => (t, None)
  | event :: parsed =>
    let '(t, err) :=
      if bool_decide (ev_Kind event = ModelTextDelta) && negb (ts_textOpen (turn_state t)) then
        match emitTurn (markEvent ModelTextStart) t with
        | (t, Some err) => (t, Some err)
        | (t, None) => (on_state (set_open true) t, None)
        end
      else (t, None) in
    match err with
    | Some err => (t, Some err)
    | None =>
      match emitTurn event t with
      | (t, Some err) => (t, Some err)
      | (t, None) => finishParsed parsed t
      end
    end
  end.

Definition emitParserFinish (t : Turn) : Turn * option ModelErr :=
  let '(parser, parsed) := Finish (ts_parser (turn_state t)) in
  match finishParsed parsed (on_state (set_parser parser) t) with
  | (t, Some err) => (t, Some err)
  | (t, None) =>
    if ts_textOpen (turn_state t) then emitTurn (markEvent ModelTextEnd) (on_state (set_open false) t)
    else (t, None)
  end.

Definition forward (event : ModelStreamEvent) (t : Turn) : Turn * option ModelErr :=
  match ts_terminal (turn_state t) with
  | Some terminal =>
    if bool_decide (ev_Kind event = ModelDone) || bool_decide (ev_Kind event = ModelError) then (t, None)
    else (t, Some (ErrText ("model stream emitted " ++ kindText (ev_Kind event) ++ " after terminal event " ++
                            kindText terminal)%string))
  | None =>
    let '(t, err) :=
      match ev_Kind event with
      | ModelUsage => (on_state (set_usage (ev_Usage event)) t, None)
      | ModelTextStart => (t, None)
      | ModelTextDelta =>
        let '(parser, parsed) := Push (ev_Text event) (ts_parser (turn_state t)) in
        forwardParsed parsed (on_state (set_parser parser) t)
      | ModelTextEnd => emitParserFinish t
      | ModelDone =>
        match emitParserFinish t with
        | (t, Some err) => (t, Some err)
        | (t, None) => emitTurn event t
        end
      | _ => emitTurn event t
      end in
    match err with
    | Some err => (on_state (set_emitterErr err) t, Some err)
    | None => (on_state (set_forwarded event) t, None)
    end
  end.

(** A client run against [forward]. *)
Fixpoint runClient {A} (client : Stream ModelStreamEvent A) (t : Turn) : Turn * A :=
  match client with
  | Ret a => (t, a)
  | Emit event k => let '(t, answer) := forward event t in runClient (k answer) t
  end.

(** [append(parser.Push(content), parser.Finish()...)] with the text brackets. *)
Fixpoint bracketText (textOpen : bool) (events : list ModelStreamEvent) : list ModelStreamEvent :=
  match events with
  | [] => if textOpen then [markEvent ModelTextEnd] else []
  | event :: events =>
    if bool_decide (ev_Kind event = ModelTextDelta) && negb textOpen then
      markEvent ModelTextStart :: event :: bracketText true events
    else event :: bracketText textOpen events
  end.

Definition contentEvents (response : ToolChatResponse) : list ModelStreamEvent :=
  let content := msg_Content (resp_Message response) in
  let plan := resp_ProposedPlan response in
  if (negb (content =? "") || negb (plan =? ""))%string then
    let '(parser, pushed) := Push content newPlanParser in
    let '(_, finished) := Finish parser in
    bracketText false (pushed ++ finished) ++
    (if (plan =? "")%string then []
     else [markEvent ModelProposedPlanStart; textEvent ModelProposedPlanDelta plan; markEvent ModelProposedPlanEnd])
  else [].

Fixpoint callEvents (index : Z) (calls : list ToolCall) : list ModelStreamEvent :=
  match calls with
  | [] => []
  | call :: calls =>
    toolEvent ModelToolCallStart index (call_ID call) (call_Name call) "" "" ::
    toolEvent ModelToolCallDelta index (call_ID call) (call_Name call) (call_Arguments call) "" ::
    toolEvent ModelToolCallEnd index (call_ID call) (call_Name call) "" (call_Arguments call) ::
    callEvents (index + 1) calls
  end.

Definition reportsUsage (u : Usage) : bool :=
  negb (PromptTokens u =? 0) || negb (CompletionTokens u =? 0) || negb (TotalTokens u =? 0).

Definition emitAccumulatedModelEvents (response : ToolChatResponse) (log : list ModelStreamEvent)
    : list ModelStreamEvent * option ModelErr :=
  emitAll (contentEvents response ++ callEvents 0 (msg_ToolCalls (resp_Message response)) ++
           (if reportsUsage (resp_Usage response) then [usageEvent (resp_Usage response)] else []) ++
           [markEvent ModelDone]) log.

(** [response.Message.Content, response.ProposedPlan = NormalizeProposedPlan(...)]. *)
Definition normalizeResponse (response : ToolChatResponse) : ToolChatResponse :=
  let msg := resp_Message response in
  let '(content, plan) := NormalizeProposedPlan (msg_Content msg) in
  mkToolChatResponse (mkChatMessage (msg_Role msg) content (msg_ToolCallID msg) (msg_ToolCalls msg))
    (resp_Usage response) plan.

Definition set_respUsage (u : Usage) (response : ToolChatResponse) : ToolChatResponse :=
  mkToolChatResponse (resp_Message response) u (resp_ProposedPlan response).

Definition Answer : Type := list ModelStreamEvent * result ModelErr ToolChatResponse.

Definition executeNonStreamingModelTurn (answer : result ModelErr (option ToolChatResponse))
    (log : list ModelStreamEvent) : Answer :=
  match answer with
  | Err err => ((emitModelEvent (errorEvent err) log).1, Err err)
  | Ok None => ((emitModelEvent (errorEvent ErrEmptyModelResponse) log).1, Err ErrEmptyModelResponse)
  | Ok (Some response) =>
    let response := normalizeResponse response in
    match emitAccumulatedModelEvents response log with
    | (log, Some err) => (log, Err err)
    | (log, None) => (log, Ok response)
    end
  end.

(** The end of a streamed turn: the usage event and, if the client has not sent
    it, the end of the stream. *)
Definition completeTurn (response : ToolChatResponse) (t : Turn) : Answer :=
  let response := normalizeResponse response in
  let s := turn_state t in
  let response := if negb (reportsUsage (resp_Usage response)) && ts_hasUsage s
                  then set_respUsage (ts_lastUsage s) response else response in
  let '(t, err) := if reportsUsage (resp_Usage response) then emitTurn (usageEvent (resp_Usage response)) t
                   else (t, None) in
  match err with
  | Some err => (turn_log t, Err err)
  | None =>
    match ts_terminal (turn_state t) with
    | Some _ => (turn_log t, Ok response)
    | None =>
      match forward (markEvent ModelDone) t with
      | (t, Some err) => (turn_log t, Err err)
      | (t, None) => (turn_log t, Ok response)
      end
    end
  end.

(** What follows the return of the streaming client. *)
Definition settleTurn (nonStreaming : result ModelErr (option ToolChatResponse)) (t : Turn)
    (outcome : result ModelErr (option ToolChatResponse)) : Answer :=
  let s := turn_state t in
  match outcome with
  | Err err =>
    let unsupported := match err with ErrToolStreamingUnsupported _ => true | _ => false end in
    if unsupported && negb (ts_emittedAny s) && bool_decide (ts_emitterErr s = None) then
      executeNonStreamingModelTurn nonStreaming (turn_log t)
    else if bool_decide (ts_emitterErr s = None) && bool_decide (ts_terminal s = None) then
      (turn_log (forward (errorEvent err) t).1, Err err)
    else (turn_log t, Err err)
  | Ok response =>
    if bool_decide (ts_terminal s = Some ModelError) then
      (turn_log t, Err (match ts_terminalErr s with
                        | Some err => err
                        | None => ErrText "model stream ended with an error event"
                        end))
    else
      match response with
      | None =>
        (if bool_decide (ts_terminal s = None) then turn_log (forward (errorEvent ErrEmptyModelResponse) t).1
         else turn_log t, Err ErrEmptyModelResponse)
      | Some response => completeTurn response t
      end
  end.

(** [streaming] is [None] when the client cannot stream; [nonStreaming] is the
    answer of [ChatWithTools]. *)
Definition executeModelTurn (ctxErr : option ModelErr)
    (streaming : option (Stream ModelStreamEvent (result ModelErr (option ToolChatResponse))))
    (nonStreaming : result ModelErr (option ToolChatResponse)) : Answer :=
  match ctxErr with
  | Some err => ([], Err err)
  | None =>
    match streaming with
    | None => executeNonStreamingModelTurn nonStreaming []
    | Some client =>
      let '(t, outcome) := runClient client (mkTurn newTurnState []) in
      settleTurn nonStreaming t outcome
    end
  end.

End Turns.

(** ** What reaches the callback *)

(** The events that carry the visible text and the plan. *)
Definition shown (k : ModelStreamKind) : bool :=
  match k with
  | ModelTextDelta | ModelProposedPlanStart | ModelProposedPlanDelta => true
  | _ => false
  end.
Definition shownEvents (events : list ModelStreamEvent) : list ModelStreamEvent :=
  filter (λ e, shown (ev_Kind e) = true) events.

Lemma shownEvents_app l k : shownEvents (l ++ k) = shownEvents l ++ shownEvents k.
Proof. apply filter_app. Qed.

Lemma shownEvents_none e : shown (ev_Kind e) = false → shownEvents [e] = [].
Proof. intros He. unfold shownEvents. rewrite filter_cons_False; [done|]. by rewrite He. Qed.

Lemma textOf_shown events : textOf (shownEvents events) = textOf events.
Proof.
  rewrite !textOf_texts. f_equal. induction events as [| e l IH]; [done|]. unfold texts, shownEvents in *.
  destruct (shown (ev_Kind e)) eqn:He.
  - rewrite filter_cons_True by done. rewrite !filter_cons. destruct (decide _); cbn; by rewrite IH.
  - rewrite filter_cons_False by (by rewrite He). rewrite IH, (filter_cons_False _ e); [done|].
    intros E. by rewrite E in He.
Qed.

Lemma planOf_shown events : planOf (shownEvents events) = planOf events.
Proof.
  unfold planOf. generalize "" as acc. induction events as [| e l IH]; intros acc; [done|]. unfold shownEvents in *.
  destruct (shown (ev_Kind e)) eqn:He.
  - rewrite filter_cons_True by done. cbn [foldl]. apply IH.
  - rewrite filter_cons_False by (by rewrite He). rewrite IH. cbn [foldl]. f_equal. unfold planStep.
    by destruct (ev_Kind e).
Qed.

(** The events of the plan parser. *)
Definition parsedKind (k : ModelStreamKind) : bool :=
  match k with
  | ModelTextDelta | ModelProposedPlanStart | ModelProposedPlanDelta | ModelProposedPlanEnd => true
  | _ => false
  end.

Lemma flushLine_kinds p : Forall (λ e, parsedKind (ev_Kind e) = true) (flushLine p).2.
Proof. unfold flushLine. repeat case_match; by repeat constructor. Qed.

Lemma pushRunes_kinds rs p : Forall (λ e, parsedKind (ev_Kind e) = true) (pushRunes rs p).2.
Proof.
  revert p. induction rs as [| r rs IH]; intros p; [constructor|]. cbn [pushRunes]. destruct (r =? 10); [|apply IH].
  pose proof (flushLine_kinds (writeRune r p)) as Hf. destruct (flushLine (writeRune r p)) as [q events].
  specialize (IH q). destruct (pushRunes rs q). by apply Forall_app.
Qed.

Lemma Finish_kinds p : Forall (λ e, parsedKind (ev_Kind e) = true) (Finish p).2.
Proof.
  unfold Finish. pose proof (flushLine_kinds p) as Hf. destruct (flushLine p) as [q events].
  destruct (0 <? slen (pp_line p)); destruct (pp_inside _); cbn; try apply Forall_app; try by repeat constructor.
Qed.

(** What an event of the client makes the plan parser do. *)
Definition parsed (e : ModelStreamEvent) (p : ProposedPlanStreamParser)
    : ProposedPlanStreamParser * list ModelStreamEvent :=
  match ev_Kind e with
  | ModelTextDelta => Push (ev_Text e) p
  | ModelTextEnd | ModelDone => Finish p
  | _ => (p, [])
  end.

Section Callback.
Context (callback : list ModelStreamEvent → ModelStreamEvent → option ModelErr).
Let forward := forward (Some callback).
Let emitTurn := emitTurn (Some callback).
Let emitParserFinish := emitParserFinish (Some callback).

(** The log of [t'] is that of [t] with the shown events [events], and the rest of
    the state that the later steps look at is the same. *)
Record follows (t : Turn) (events : list ModelStreamEvent) (t' : Turn) : Prop := {
  follows_log : shownEvents (turn_log t') = shownEvents (turn_log t) ++ shownEvents events;
  follows_parser : ts_parser (turn_state t') = ts_parser (turn_state t);
  follows_terminal : ts_terminal (turn_state t') = ts_terminal (turn_state t)
}.

Lemma follows_refl t : follows t [] t.
Proof. split; [|done..]. by rewrite app_nil_r. Qed.

Lemma follows_trans t l t' k t'' : follows t l t' → follows t' k t'' → follows t (l ++ k) t''.
Proof. intros [H1 H2 H3] [H4 H5 H6]. split; [|congruence..]. by rewrite H4, H1, shownEvents_app, app_assoc. Qed.

Lemma follows_emit e t t' r : emitTurn e t = (t', r) → follows t [e] t'.
Proof. intros E. injection E as <- <-. split; [|done..]. cbn [turn_log]. by rewrite shownEvents_app. Qed.

Lemma follows_hidden e t t' r : emitTurn e t = (t', r) → shown (ev_Kind e) = false → follows t [] t'.
Proof. intros E He. apply follows_emit in E as [H1 H2 H3]. split; [|done..]. by rewrite H1, shownEvents_none. Qed.

Lemma follows_open b t : follows t [] (on_state (set_open b) t).
Proof. split; [|done..]. cbn. by rewrite app_nil_r. Qed.

Lemma follows_start t t' r :
  emitTurn (markEvent ModelTextStart) t = (t', r) → follows t [] (on_state (set_open true) t').
Proof. intros E. apply (follows_trans _ [] t' []); [by eapply follows_hidden|apply follows_open]. Qed.

Lemma follows_forwardParsed events t t' :
  forwardParsed (Some callback) events t = (t', None) → follows t events t'.
Proof.
  revert t. induction events as [| e l IH]; intros t E; cbn [forwardParsed] in E; [injection E as <-; apply follows_refl|].
  assert (∀ u, follows t [] u → match emitTurn e u with (u, Some err) => (u, Some err)
            | (u, None) => forwardParsed (Some callback) l u end = (t', None) → follows t (e :: l) t') as Hstep.
  { intros u Hu Eu. destruct (emitTurn e u) as [v [err|]] eqn:Ev; [done|]. apply follows_emit in Ev.
    exact (follows_trans _ [] _ (e :: l) _ Hu (follows_trans _ [e] _ l _ Ev (IH _ Eu))). }
  destruct (bool_decide _ && _); [|by apply (Hstep t (follows_refl t))].
  destruct (ModelTurn.emitTurn (Some callback) (markEvent ModelTextStart) t) as [u [err|]] eqn:Eu; [done|].
  eapply Hstep; [|done]. by eapply follows_start.
Qed.

(** The two loops differ only after an error. *)
Lemma finishParsed_forwardParsed events t t' :
  finishParsed (Some callback) events t = (t', None) → forwardParsed (Some callback) events t = (t', None).
Proof.
  revert t. induction events as [| e l IH]; intros t E; cbn [finishParsed forwardParsed] in *; [done|].
  destruct (bool_decide _ && _).
  - destruct (ModelTurn.emitTurn (Some callback) (markEvent ModelTextStart) t) as [u [err|]]; [done|].
    destruct (ModelTurn.emitTurn (Some callback) e _) as [v [err|]]; [done|]. by apply IH.
  - destruct (ModelTurn.emitTurn (Some callback) e t) as [v [err|]]; [done|]. by apply IH.
Qed.

Lemma emitParserFinish_follows t t' :
  emitParserFinish t = (t', None) →
  follows (on_state (set_parser (Finish (ts_parser (turn_state t))).1) t) (Finish (ts_parser (turn_state t))).2 t'.
Proof.
  unfold emitParserFinish, ModelTurn.emitParserFinish. destruct (Finish _) as [q events]. cbn [fst snd].
  destruct (finishParsed _ events _) as [u [err|]] eqn:Eu; [done|]. apply finishParsed_forwardParsed, follows_forwardParsed in Eu.
  destruct (ts_textOpen (turn_state u)); [|intros E; by injection E as <-].
  intros E. rewrite <- (app_nil_r events). eapply follows_trans; [done|].
  eapply (follows_trans _ [] _ []); [apply (follows_open false)|]. by eapply follows_hidden.
Qed.

(** An event passed on: the parser has taken its step and the log shows what it
    made of the event. *)
Lemma forward_parsed e t t' :
  forward e t = (t', None) → ts_terminal (turn_state t) = None →
  plainKind (ev_Kind e) = true ∨ ev_Kind e = ModelDone →
  shownEvents (turn_log t') = shownEvents (turn_log t) ++ shownEvents (parsed e (ts_parser (turn_state t))).2 ∧
  ts_parser (turn_state t') = (parsed e (ts_parser (turn_state t))).1 ∧
  ts_terminal (turn_state t') = if bool_decide (ev_Kind e = ModelDone) then Some ModelDone else None.
Proof.
  unfold forward, ModelTurn.forward, parsed. intros E Ht Hk. rewrite Ht in E.
  assert (∀ u events p', follows (on_state (set_parser p') t) events u → (on_state (set_forwarded e) u, @None ModelErr) = (t', None) →
    shownEvents (turn_log t') = shownEvents (turn_log t) ++ shownEvents events ∧ ts_parser (turn_state t') = p' ∧
    ts_terminal (turn_state t') = if bool_decide (ev_Kind e = ModelDone) then Some ModelDone else None) as Hend.
  { intros u events p' [H1 H2 H3] Eu. injection Eu as <-. cbn [on_state turn_log turn_state] in *.
    unfold set_forwarded. rewrite H1. split; [done|]. rewrite H3. cbn [set_parser ts_terminal]. rewrite Ht.
    destruct (ev_Kind e) eqn:Ek; [by split..| |]; cbn; [by split|]. by destruct Hk. }
  assert (on_state (set_parser (ts_parser (turn_state t))) t = t) as Hsame by (by destruct t as [[]]).
  destruct (ev_Kind e) eqn:Ek; try (destruct Hk; done); cbn [fst snd].
  1: { eapply (Hend _ []); [|done]. rewrite Hsame. apply follows_refl. }
  1: { destruct (Push _ _) as [q events]. cbn [fst snd]. destruct (forwardParsed _ _ _) as [u [err|]] eqn:Eu; [done|].
       eapply Hend; [|done]. by apply follows_forwardParsed. }
  1: { destruct (ModelTurn.emitParserFinish (Some callback) t) as [u [err|]] eqn:Eu; [done|].
       eapply Hend; [|done]. by apply emitParserFinish_follows. }
  all: try (destruct (ModelTurn.emitTurn (Some callback) e t) as [u [err|]] eqn:Eu; [done|];
    eapply (Hend _ []); [|done]; rewrite Hsame; eapply follows_hidden; [done|]; by rewrite Ek).
  - eapply (Hend _ []); [|done]. split; [|done..]. cbn. by rewrite app_nil_r.
  - destruct (ModelTurn.emitParserFinish (Some callback) t) as [u [err|]] eqn:Eu; [done|].
    destruct (ModelTurn.emitTurn (Some callback) e u) as [v [err|]] eqn:Ev; [done|].
    eapply Hend; [|done]. rewrite <- (app_nil_r (Finish _).2). eapply follows_trans; [by apply emitParserFinish_follows|].
    eapply follows_hidden; [done|]. by rewrite Ek.
Qed.

(** A client that stops at its callback's first error has, when it succeeds, run
    undisturbed. *)
Fixpoint forwardAll (events : list ModelStreamEvent) (t : Turn) : option Turn :=
  match events with
  | [] => Some t
  | e :: events => match forward e t with (t, None) => forwardAll events t | (_, Some _) => None end
  end.

Lemma runClient_avoids {A} (good : A → Prop) client t t' a :
  avoids good client → runClient (Some callback) client t = (t', a) → ¬ good a.
Proof.
  revert t. induction client as [b|e k IH]; intros t Ha E; cbn in *; [by injection E as <- <-|].
  destruct (ModelTurn.forward (Some callback) e t) as [u answer]. by eapply IH.
Qed.

Lemma runClient_honest {A} (good : A → Prop) client t t' a :
  honest good client → runClient (Some callback) client t = (t', a) → good a →
  ∃ events, undisturbed client = (events, a) ∧ forwardAll events t = Some t'.
Proof.
  revert t. induction client as [b|e k IH]; intros t Hh E Hg; cbn in *.
  { injection E as <- <-. by exists []. }
  destruct Hh as [Hbad Hgood]. destruct (ModelTurn.forward (Some callback) e t) as [u [err|]] eqn:Ef.
  { by destruct (runClient_avoids good _ _ _ _ (Hbad err) E). }
  destruct (IH None u Hgood E Hg) as (events & Hu & Hf). exists (e :: events). rewrite Hu. split; [done|].
  cbn [forwardAll]. unfold forward. by rewrite Ef.
Qed.

(** The parser's events for a list of client events. *)
Fixpoint parsedAll (events : list ModelStreamEvent) (p : ProposedPlanStreamParser) : list ModelStreamEvent :=
  match events with
  | [] => []
  | e :: events => let '(p, out) := parsed e p in out ++ parsedAll events p
  end.

Lemma forwardAll_parsed pre t t' :
  forwardAll (pre ++ [markEvent ModelDone]) t = Some t' → ts_terminal (turn_state t) = None →
  Forall (λ e, plainKind (ev_Kind e) = true) pre →
  shownEvents (turn_log t') =
    shownEvents (turn_log t) ++ shownEvents (parsedAll (pre ++ [markEvent ModelDone]) (ts_parser (turn_state t))) ∧
  ts_terminal (turn_state t') = Some ModelDone.
Proof.
  intros E Ht Hk. revert t E Ht. induction Hk as [| e pre He Hk IH]; intros t E Ht; cbn [app forwardAll parsedAll] in *.
  - destruct (forward _ t) as [u [err|]] eqn:Ef; [done|]. injection E as <-.
    apply forward_parsed in Ef as (Hl & Hp & Hterm); [|done|by right].
    destruct (parsed _ _) as [q out]. cbn [fst snd] in *. by rewrite app_nil_r.
  - destruct (forward e t) as [u [err|]] eqn:Ef; [done|].
    apply forward_parsed in Ef as (Hl & Hp & Hterm); [|done|by left].
    destruct (parsed _ _) as [q out]. cbn [fst snd] in *. subst q.
    assert (ts_terminal (turn_state u) = None) as Hu.
    { rewrite Hterm. case_bool_decide as Ek; [|done]. by rewrite Ek in He. }
    destruct (IH u E Hu) as [Hl' Ht']. split; [|done]. by rewrite Hl', Hl, shownEvents_app, app_assoc.
Qed.
End Callback.

(** The client sends its text in one piece: no text after a text end. *)
Fixpoint oneSegment (ended : bool) (events : list ModelStreamEvent) : bool :=
  match events with
  | [] => true
  | e :: events =>
    match ev_Kind e with
    | ModelTextDelta => negb ended && oneSegment ended events
    | ModelTextEnd => oneSegment true events
    | _ => oneSegment ended events
    end
  end.

Lemma parsedAll_ended pre p :
  oneSegment true pre = true → idle p → Forall (λ e, plainKind (ev_Kind e) = true) pre →
  parsedAll (pre ++ [markEvent ModelDone]) p = [] ∧ texts pre = [].
Proof.
  intros Ho Hi Hk. induction Hk as [| e pre He Hk IH]; cbn [app parsedAll oneSegment] in *.
  { change (parsed (markEvent ModelDone) p) with (Finish p). by rewrite Finish_again. }
  assert (parsed e p = (p, []) ∧ oneSegment true pre = true ∧ ev_Kind e ≠ ModelTextDelta) as (Ep & Ho' & Hn).
  { unfold parsed. destruct (ev_Kind e); try done. by rewrite Finish_again. }
  rewrite Ep. cbn [app]. destruct (IH Ho') as [-> Ht]. split; [done|]. unfold texts in *. by rewrite filter_cons_False.
Qed.

Lemma parseRest_app l k p :
  parseRest (l ++ k) p = let '(q, events) := pushRunes l p in let '(q, more) := parseRest k q in (q, events ++ more).
Proof.
  unfold parseRest. rewrite pushRunes_app. destruct (pushRunes l p) as [q events]. destruct (pushRunes k q) as [q' more].
  destruct (Finish q') as [q'' rest]. by rewrite app_assoc.
Qed.

(** A text in one piece is parsed like the whole text. *)
Lemma parsedAll_segment pre p :
  oneSegment false pre = true → Forall (λ e, plainKind (ev_Kind e) = true) pre → Forall valid_utf8 (texts pre) →
  parsedAll (pre ++ [markEvent ModelDone]) p = (parseRest (runes (concatenated (texts pre))) p).2.
Proof.
  intros Ho Hk. revert p Ho. induction Hk as [| e pre He Hk IH]; intros p Ho Hv; cbn [app parsedAll oneSegment] in *.
  { change (parsed (markEvent ModelDone) p) with (Finish p). change (runes (concatenated (texts []))) with (@nil Z).
    unfold parseRest. cbn [pushRunes]. destruct (Finish p). cbn. by rewrite app_nil_r. }
  destruct (decide (ev_Kind e = ModelTextDelta)) as [Ek|Hn].
  - rewrite Ek in Ho. assert (texts (e :: pre) = ev_Text e :: texts pre) as Et.
    { unfold texts. by rewrite filter_cons_True. }
    rewrite Et in *. apply Forall_cons in Hv as [Hve Hv].
    change (concatenated (ev_Text e :: texts pre)) with (ev_Text e ++ concatenated (texts pre))%string.
    rewrite runes_app, parseRest_app by done. unfold parsed. rewrite Ek, Push_runes.
    destruct (pushRunes (runes (ev_Text e)) p) as [q events]. rewrite IH by done. by destruct (parseRest _ q).
  - assert (texts (e :: pre) = texts pre) as Et by (unfold texts; by rewrite filter_cons_False).
    rewrite Et in *. destruct (decide (ev_Kind e = ModelTextEnd)) as [Ek|Hn'].
    + rewrite Ek in Ho. unfold parsed. rewrite Ek. pose proof (Finish_idle p) as Hi.
      destruct (parsedAll_ended pre (Finish p).1 Ho Hi Hk) as [Hp Ht]. rewrite Ht.
      change (runes (concatenated [])) with (@nil Z). unfold parseRest. cbn [pushRunes].
      destruct (Finish p) as [q out]. cbn [fst] in *. rewrite Hp. cbn. by rewrite app_nil_r.
    + assert (parsed e p = (p, []) ∧ oneSegment false pre = true) as (Ep & Ho').
      { unfold parsed. by destruct (ev_Kind e). }
      rewrite Ep. by apply IH.
Qed.

(** ** Accumulated answers *)

Section Accumulated.
Context (callback : list ModelStreamEvent → ModelStreamEvent → option ModelErr).

Lemma emitAll_log events log log' : emitAll (Some callback) events log = (log', None) → log' = log ++ events.
Proof.
  revert log. induction events as [| e l IH]; intros log E; cbn in E; [injection E as <-; by rewrite app_nil_r|].
  destruct (callback log e); [done|]. apply IH in E. by rewrite E, <- app_assoc.
Qed.

Lemma callEvents_shown i calls : shownEvents (callEvents i calls) = [].
Proof. revert i. induction calls as [| c l IH]; intros i; [done|]. unfold shownEvents in *. cbn [callEvents]. by rewrite !filter_cons_False. Qed.

Lemma bracketText_shown b events : shownEvents (bracketText b events) = shownEvents events.
Proof.
  revert b. induction events as [| e l IH]; intros b; cbn [bracketText]; [by destruct b|].
  unfold shownEvents in *. destruct (bool_decide (ev_Kind e = ModelTextDelta) && negb b).
  - rewrite (filter_cons_False _ (markEvent _)) by done. rewrite !filter_cons. by rewrite IH.
  - rewrite !filter_cons. by rewrite IH.
Qed.

Lemma shown_deltas lines : shownEvents (textEvent ModelTextDelta <$> lines) = textEvent ModelTextDelta <$> lines.
Proof. apply filter_all. intros e He. apply list_elem_of_fmap in He as (s & -> & _). done. Qed.

(** The events of a whole answer show its visible text and its plan. *)
Lemma contentEvents_shown response :
  let r := normalizeResponse response in
  textOf (contentEvents r) = msg_Content (resp_Message r) ∧ planOf (contentEvents r) = resp_ProposedPlan r.
Proof.
  unfold normalizeResponse. pose proof (normalized_events (msg_Content (resp_Message response))) as Hn.
  destruct (NormalizeProposedPlan _) as [content plan]. cbn [fst] in Hn. cbv zeta in *.
  destruct Hn as (lines & Hl & Hc). unfold contentEvents. cbn [resp_Message resp_ProposedPlan msg_Content].
  rewrite <- textOf_shown, <- planOf_shown. destruct (content =? "")%string eqn:E1, (plan =? "")%string eqn:E2; cbn [negb orb].
  { bool_prop. by subst. }
  all: unfold parseRest in Hl; rewrite Push_runes; destruct (pushRunes _ _) as [q out]; destruct (Finish q) as [q' more];
    cbn [snd] in Hl; rewrite Hl, shownEvents_app, bracketText_shown, shown_deltas.
  all: assert (∀ acc, foldl planStep acc (textEvent ModelTextDelta <$> lines) = acc) as Hp
    by (clear; induction lines as [| s l IH]; intros acc; [done|]; apply IH).
  all: unfold planOf; rewrite foldl_app, Hp, textOf_texts, texts_app, texts_deltas.
  all: unfold texts, shownEvents; cbn; rewrite ?app_nil_r, ?Hc; bool_prop; subst; by rewrite ?str_app_nil.
Qed.

Lemma accumulated_shown response log :
  emitAccumulatedModelEvents (Some callback) (normalizeResponse response) [] = (log, None) →
  textOf log = msg_Content (resp_Message (normalizeResponse response)) ∧
  planOf log = resp_ProposedPlan (normalizeResponse response).
Proof.
  intros E. apply emitAll_log in E. cbn [app] in E. destruct (contentEvents_shown response) as [<- <-].
  rewrite <- (textOf_shown log), <- (planOf_shown log). subst log.
  rewrite !shownEvents_app, callEvents_shown. cbn [app].
  assert (shownEvents (if reportsUsage (resp_Usage (normalizeResponse response))
    then [usageEvent (resp_Usage (normalizeResponse response))] else []) = []) as -> by (by destruct (reportsUsage _)).
  cbn [app]. change (shownEvents [markEvent ModelDone]) with (@nil ModelStreamEvent). rewrite app_nil_r.
  by rewrite textOf_shown, planOf_shown.
Qed.
End Accumulated.

(** ** Untouched turns *)

(** Nothing was passed on: the log is empty and the turn can still be answered
    without streaming. *)
Definition untouched (t : Turn) : Prop :=
  ts_emittedAny (turn_state t) = false → ts_emitterErr (turn_state t) = None → turn_log t = [].

Lemma untouched_forward cb e t : untouched t → untouched (forward cb e t).1.
Proof.
  intros Hu. unfold forward. destruct (ts_terminal (turn_state t)); [by destruct (_ || _)|].
  destruct (match ev_Kind e with ModelTextStart => _ | _ => _ end) as [u [err|]]; cbn [fst].
  - by intros _ ?.
  - intros He. unfold on_state, set_forwarded in He. by destruct (ev_Kind e).
Qed.

Lemma untouched_run {A} cb (client : Stream ModelStreamEvent A) t : untouched t → untouched (runClient cb client t).1.
Proof.
  revert t. induction client as [a|e k IH]; intros t Hu; cbn [runClient]; [done|].
  pose proof (untouched_forward cb e t Hu) as Hf. destruct (forward cb e t) as [u answer]. by apply IH.
Qed.

Section FinalText.
Context {UT : UnicodeTables} (json_valid : string → bool).
Context (marshal_request : openAIToolChatRequest → result ModelErr string).
Context (decode_chunk : string → result ModelErr openAIToolStreamChunk).
Context (new_request : string → string → option ModelErr).
Context (do_stream : string → string → string → result ModelErr streamReply).
Context (callback : list ModelStreamEvent → ModelStreamEvent → option ModelErr).
Let client cfg req := StreamChatWithTools json_valid marshal_request decode_chunk new_request do_stream cfg req.

(** A turn in which the OpenAI-compatible client succeeds. *)
Lemma streamed_turn cfg req t answer :
  runClient (Some callback) (client cfg req) (mkTurn newTurnState []) = (t, Ok answer) →
  ∃ endpoint body reply chunks pre resp,
    openAIChatEndpoint cfg = Ok endpoint ∧ marshal_request (streamPayload req) = Ok body ∧
    do_stream endpoint (cfg_APIKey cfg) body = Ok reply ∧ chunksOf decode_chunk (rep_Lines reply) = Some chunks ∧
    answer = Some resp ∧ streamedResponse json_valid chunks resp ∧
    (undisturbed (client cfg req)).1 = pre ++ [markEvent ModelDone] ∧ texts pre = concat (chunkTexts <$> chunks) ∧
    Forall (λ e, plainKind (ev_Kind e) = true) pre ∧
    shownEvents (turn_log t) = shownEvents (parsedAll (pre ++ [markEvent ModelDone]) newPlanParser) ∧
    ts_terminal (turn_state t) = Some ModelDone.
Proof.
  intros E.
  destruct (runClient_honest callback is_Ok _ _ _ _
    (honest_StreamChatWithTools json_valid marshal_request decode_chunk new_request do_stream cfg req) E
    (ex_intro _ _ eq_refl)) as (events & Hu & Hf).
  destruct (undisturbed_StreamChatWithTools _ _ _ _ _ _ _ _ _ Hu) as (endpoint & body & reply & H1 & H2 & H3 & Hr).
  destruct (undisturbed_readStream _ _ _ _ _ Hr) as (chunks & pre & resp & Hc & -> & -> & Hresp & Ht & Hk).
  destruct (forwardAll_parsed _ _ _ _ Hf eq_refl Hk) as [Hl Hterm].
  exists endpoint, body, reply, chunks, pre, resp. unfold client. rewrite Hu. by repeat split.
Qed.

Lemma completeTurn_log resp t log answer :
  completeTurn (Some callback) resp t = (log, Ok answer) → ts_terminal (turn_state t) = Some ModelDone →
  shownEvents log = shownEvents (turn_log t) ∧
  msg_Content (resp_Message answer) = (NormalizeProposedPlan (msg_Content (resp_Message resp))).1 ∧
  resp_ProposedPlan answer = (NormalizeProposedPlan (msg_Content (resp_Message resp))).2.
Proof.
  unfold completeTurn. intros E Ht. unfold normalizeResponse in E.
  destruct (NormalizeProposedPlan _) as [content plan]. cbv zeta in E.
  set (r := mkToolChatResponse _ _ plan) in E.
  set (r' := if _ && _ then set_respUsage _ r else r) in E.
  assert (msg_Content (resp_Message r') = content ∧ resp_ProposedPlan r' = plan) as [Hc Hp].
  { unfold r'. by destruct (_ && _). }
  destruct (reportsUsage (resp_Usage r')).
  - unfold emitTurn, emitModelEvent in E. destruct (callback _ _); [done|]. cbn [turn_state turn_log] in E.
    rewrite Ht in E. injection E as <- <-. rewrite shownEvents_app. change (shownEvents [usageEvent _]) with (@nil ModelStreamEvent).
    by rewrite app_nil_r.
  - rewrite Ht in E. by injection E as <- <-.
Qed.

Lemma final_text cfg req nonStreaming log resp :
  (∀ data chunk, decode_chunk data = Ok chunk → Forall valid_utf8 (chunkTexts chunk)) →
  oneSegment false (undisturbed (client cfg req)).1 = true →
  executeModelTurn (Some callback) None (Some (client cfg req)) nonStreaming = (log, Ok resp) →
  textOf log = msg_Content (resp_Message resp) ∧ planOf log = resp_ProposedPlan resp.
Proof.
  intros Hutf Hone. unfold executeModelTurn.
  destruct (runClient _ _ _) as [t outcome] eqn:Er. destruct outcome as [answer|err]; cbn [settleTurn].
  - destruct (streamed_turn _ _ _ _ Er)
      as (endpoint & body & reply & chunks & pre & r & _ & _ & _ & Hc & -> & Hresp & Hev & Ht & Hk & Hl & Hterm).
    rewrite Hterm, bool_decide_false by done. intros E. apply completeTurn_log in E as (Hlog & -> & ->); [|done].
    destruct Hresp as (indexes & calls & -> & _). cbn [resp_Message msg_Content].
    assert (Forall valid_utf8 (texts pre)) as Hv.
    { rewrite Ht. clear -Hc Hutf. revert chunks Hc.
      induction (rep_Lines reply) as [| raw lines IH]; intros chunks Hc; cbn [chunksOf] in Hc; [done|].
      destruct (sseData raw) as [data|]; [|by apply IH]. destruct (data =? "")%string; [by apply IH|].
      destruct (data =? "[DONE]")%string; [by injection Hc as <-|].
      destruct (decode_chunk data) as [chunk|] eqn:Ed; [|done].
      destruct (chunksOf decode_chunk lines) as [rest|]; [|done]. injection Hc as <-. cbn [fmap list_fmap concat].
      apply Forall_app. split; [by eapply Hutf|by apply IH]. }
    assert (oneSegment false pre = true) as Ho.
    { rewrite Hev in Hone. clear -Hone. revert Hone. generalize false as b. induction pre as [| e pre IH]; intros b; [done|].
      cbn [app oneSegment]. destruct (ev_Kind e); try apply IH. destruct b; [done|apply IH]. }
    rewrite <- Ht, <- (textOf_shown log), <- (planOf_shown log), Hlog, Hl, textOf_shown, planOf_shown.
    rewrite (parsedAll_segment _ _ Ho Hk Hv), NormalizeProposedPlan_parse. cbn [fst snd].
    split; [done|]. apply parseRest_plan.
  - assert (untouched (mkTurn newTurnState [])) as Hu by done.
    apply (untouched_run (Some callback) (client cfg req)) in Hu. rewrite Er in Hu. cbn [fst] in Hu.
    cbv zeta. lazymatch goal with |- (if ?b then _ else _) = _ → _ => destruct b eqn:Eb end;
      [|by destruct (bool_decide _ && bool_decide _)]. bool_prop.
    rewrite Hu by done. destruct nonStreaming as [[r|]|e]; cbn [executeNonStreamingModelTurn]; [|done|done].
    destruct (emitAccumulatedModelEvents _ _ _) as [log' [err'|]] eqn:Ea; [done|]. intros E. injection E as <- <-.
    by eapply accumulated_shown.
Qed.
End FinalText.

(** ** The end of a turn *)

Definition terminalKind (k : ModelStreamKind) : bool :=
  match k with ModelDone | ModelError => true | _ => false end.
Definition goesOn (events : list ModelStreamEvent) : Prop := Forall (λ e, terminalKind (ev_Kind e) = false) events.

Section Endings.
Context (callback : list ModelStreamEvent → ModelStreamEvent → option ModelErr).
Hypothesis accepts : ∀ before e, callback before e = None.

(** The state of a turn whose callback never fails. *)
Record orderly (t : Turn) : Prop := {
  orderly_emitter : ts_emitterErr (turn_state t) = None;
  orderly_log :
    match ts_terminal (turn_state t) with
    | None => goesOn (turn_log t)
    | Some k => ∃ pre e, turn_log t = pre ++ [e] ∧ goesOn pre ∧ ev_Kind e = k ∧ terminalKind k = true
    end
}.

(** [t'] has more events, none of them terminal. *)
Definition extends (t t' : Turn) : Prop :=
  ts_emitterErr (turn_state t') = ts_emitterErr (turn_state t) ∧
  ts_terminal (turn_state t') = ts_terminal (turn_state t) ∧
  ∃ more, turn_log t' = turn_log t ++ more ∧ goesOn more.

Lemma emitTurn_accepted e t : emitTurn (Some callback) e t = (mkTurn (turn_state t) (turn_log t ++ [e]), None).
Proof. unfold emitTurn, emitModelEvent. by rewrite accepts. Qed.

Lemma extends_trans t u v : extends t u → extends u v → extends t v.
Proof.
  intros (H1 & H2 & more & H3 & H4) (H5 & H6 & more' & H7 & H8). split; [congruence|]. split; [congruence|].
  exists (more ++ more'). rewrite H7, H3, app_assoc. split; [done|]. by apply Forall_app.
Qed.

Lemma extends_emit e t : terminalKind (ev_Kind e) = false → extends t (mkTurn (turn_state t) (turn_log t ++ [e])).
Proof. intros He. split; [done|]. split; [done|]. exists [e]. split; [done|]. by constructor. Qed.

Lemma extends_state f t :
  ts_emitterErr (f (turn_state t)) = ts_emitterErr (turn_state t) →
  ts_terminal (f (turn_state t)) = ts_terminal (turn_state t) → extends t (on_state f t).
Proof. intros H1 H2. split; [done|]. split; [done|]. exists []. rewrite app_nil_r. split; [done|constructor]. Qed.

Lemma finishParsed_accepted events t :
  Forall (λ e, parsedKind (ev_Kind e) = true) events →
  finishParsed (Some callback) events t = forwardParsed (Some callback) events t ∧
  ∃ t', forwardParsed (Some callback) events t = (t', None) ∧ extends t t'.
Proof.
  intros Hk. revert t. induction Hk as [| e l He Hk IH]; intros t; cbn [finishParsed forwardParsed].
  { split; [done|]. exists t. split; [done|]. by apply (extends_state id). }
  assert (terminalKind (ev_Kind e) = false) as Hq by (by destruct (ev_Kind e)).
  destruct (bool_decide _ && _); rewrite !emitTurn_accepted; cbn [on_state turn_log turn_state].
  - destruct (IH (mkTurn (set_open true (turn_state t))
      ((turn_log t ++ [markEvent ModelTextStart]) ++ [e]))) as [Heq (t' & Ht' & Hx)].
    split; [done|]. exists t'. split; [done|]. eapply extends_trans; [|exact Hx].
    eapply extends_trans; [exact (extends_emit (markEvent ModelTextStart) t eq_refl)|].
    eapply extends_trans; [exact (extends_state (set_open true) _ eq_refl eq_refl)|]. by apply (extends_emit e).
  - destruct (IH (mkTurn (turn_state t) (turn_log t ++ [e]))) as [Heq (t' & Ht' & Hx)].
    split; [done|]. exists t'. split; [done|]. eapply extends_trans; [|exact Hx]. by apply extends_emit.
Qed.

Lemma emitParserFinish_accepted t : ∃ t', emitParserFinish (Some callback) t = (t', None) ∧ extends t t'.
Proof.
  unfold emitParserFinish. pose proof (Finish_kinds (ts_parser (turn_state t))) as Hk.
  destruct (Finish _) as [q events]. cbn [snd] in Hk.
  destruct (finishParsed_accepted events (on_state (set_parser q) t) Hk) as [-> (u & -> & Hu)].
  assert (extends t u) as Htu by (eapply extends_trans; [by apply (extends_state (set_parser q))|done]).
  destruct (ts_textOpen (turn_state u)); [|by exists u].
  rewrite emitTurn_accepted. eexists. split; [done|]. eapply extends_trans; [exact Htu|].
  eapply extends_trans; [by apply (extends_state (set_open false))|]. by apply extends_emit.
Qed.

(** While the turn has not ended, events are passed on; a terminal one ends it. *)
Lemma forward_open e t :
  orderly t → ts_terminal (turn_state t) = None →
  ∃ t', forward (Some callback) e t = (t', None) ∧ orderly t' ∧
    ts_terminal (turn_state t') = if terminalKind (ev_Kind e) then Some (ev_Kind e) else None.
Proof.
  intros [Herr Hlog] Ht. rewrite Ht in Hlog. unfold forward. rewrite Ht.
  assert (∀ u, extends t u → terminalKind (ev_Kind e) = false →
    orderly (on_state (set_forwarded e) u) ∧ ts_terminal (turn_state (on_state (set_forwarded e) u)) = None) as Hgo.
  { intros u (H1 & H2 & more & H3 & H4) He.
    assert (ts_terminal (turn_state (on_state (set_forwarded e) u)) = None) as Hn.
    { unfold on_state, set_forwarded. destruct (ev_Kind e); try done; cbn; congruence. }
    split; [|done]. split.
    - unfold on_state, set_forwarded. destruct (ev_Kind e); cbn; congruence.
    - rewrite Hn. cbn [on_state turn_log]. rewrite H3. by apply Forall_app. }
  assert (∀ u, extends t u → terminalKind (ev_Kind e) = true →
    orderly (on_state (set_forwarded e) (mkTurn (turn_state u) (turn_log u ++ [e]))) ∧
    ts_terminal (turn_state (on_state (set_forwarded e) (mkTurn (turn_state u) (turn_log u ++ [e])))) = Some (ev_Kind e)) as Hstop.
  { intros u (H1 & H2 & more & H3 & H4) He.
    assert (ts_terminal (turn_state (on_state (set_forwarded e) (mkTurn (turn_state u) (turn_log u ++ [e])))) = Some (ev_Kind e)) as Hn.
    { unfold on_state, set_forwarded. by destruct (ev_Kind e). }
    split; [|done]. split.
    - unfold on_state, set_forwarded. destruct (ev_Kind e); cbn; congruence.
    - rewrite Hn. exists (turn_log u), e. cbn [on_state turn_log]. split; [done|]. rewrite H3.
      split; [by apply Forall_app|done]. }
  destruct (emitParserFinish_accepted t) as (v & Hv & Hx).
  destruct (ev_Kind e) eqn:Ek; cbn [terminalKind] in *.
  all: try (rewrite emitTurn_accepted; eexists; split; [done|]; apply Hgo; [|done]; apply extends_emit; by rewrite Ek).
  - eexists. split; [done|]. apply Hgo; [|done]. by apply (extends_state id).
  - rewrite Push_runes. pose proof (pushRunes_kinds (runes (ev_Text e)) (ts_parser (turn_state t))) as Hk.
    destruct (pushRunes _ _) as [q events]. cbn [snd] in Hk.
    destruct (finishParsed_accepted events (on_state (set_parser q) t) Hk) as [_ (u & -> & Hu)].
    eexists. split; [done|]. apply Hgo; [|done]. eapply extends_trans; [by apply (extends_state (set_parser q))|done].
  - rewrite Hv. eexists. split; [done|]. by apply Hgo.
  - eexists. split; [done|]. apply Hgo; [|done]. by apply (extends_state (set_usage _)).
  - rewrite Hv, emitTurn_accepted. eexists. split; [done|]. by apply Hstop.
  - rewrite emitTurn_accepted. eexists. split; [done|]. apply Hstop; [|done]. by apply (extends_state id).
Qed.

Lemma orderly_run {A} (client : Stream ModelStreamEvent A) t :
  orderly t → orderly (runClient (Some callback) client t).1.
Proof.
  revert t. induction client as [a|e k IH]; intros t Ho; cbn [runClient]; [done|].
  destruct (ts_terminal (turn_state t)) as [kd|] eqn:Et.
  - unfold forward. rewrite Et. destruct (_ || _); by apply IH.
  - destruct (forward_open e t Ho Et) as (u & -> & Hu & _). by apply IH.
Qed.

(** One terminal event, followed by nothing but a usage report. *)
Definition ends_once (log : list ModelStreamEvent) (answer : result ModelErr ToolChatResponse) : Prop :=
  ∃ pre last post, log = pre ++ last :: post ∧ goesOn pre ∧ terminalKind (ev_Kind last) = true ∧
    (post = [] ∨ ∃ usage, post = [usageEvent usage]) ∧ (is_Ok answer → ev_Kind last = ModelDone).

Lemma orderly_ends t k answer :
  orderly t → ts_terminal (turn_state t) = Some k → (is_Ok answer → k = ModelDone) → ends_once (turn_log t) answer.
Proof.
  intros [_ Hl] Hk Ha. rewrite Hk in Hl. destruct Hl as (pre & e & -> & Hpre & He & Ht).
  exists pre, e, []. rewrite He. repeat split; try done. by left.
Qed.

Lemma error_ends e log : goesOn log → ends_once (emitModelEvent (Some callback) (errorEvent e) log).1 (Err e).
Proof.
  intros Hl. exists log, (errorEvent e), []. repeat split; try done; [by left|]. by intros [? ?].
Qed.

Lemma emitAll_accepted events log : emitAll (Some callback) events log = (log ++ events, None).
Proof.
  revert log. induction events as [| e l IH]; intros log; cbn; [by rewrite app_nil_r|].
  by rewrite accepts, IH, <- app_assoc.
Qed.

Lemma bracketText_goesOn b events : Forall (λ e, parsedKind (ev_Kind e) = true) events → goesOn (bracketText b events).
Proof.
  intros Hk. revert b. induction Hk as [| e l He Hk IH]; intros b; cbn [bracketText].
  { destruct b; by repeat constructor. }
  assert (terminalKind (ev_Kind e) = false) as Hq by (by destruct (ev_Kind e)).
  destruct (_ && _); repeat constructor; try done; apply IH.
Qed.

Lemma contentEvents_goesOn response : goesOn (contentEvents response).
Proof.
  unfold contentEvents. destruct (_ || _); [|constructor]. rewrite Push_runes.
  pose proof (pushRunes_kinds (runes (msg_Content (resp_Message response))) newPlanParser) as Hk.
  destruct (pushRunes _ _) as [q out]. pose proof (Finish_kinds q) as Hf. destruct (Finish q) as [q' more].
  apply Forall_app. split; [by apply bracketText_goesOn, Forall_app|].
  destruct (_ =? "")%string; by repeat constructor.
Qed.

Lemma callEvents_goesOn i calls : goesOn (callEvents i calls).
Proof. revert i. induction calls as [| c l IH]; intros i; cbn [callEvents]; repeat constructor; try done. apply IH. Qed.

Lemma nonStreaming_ends answer :
  let r := executeNonStreamingModelTurn (Some callback) answer [] in ends_once r.1 r.2.
Proof.
  cbv zeta. destruct answer as [[response|]|err]; cbn [executeNonStreamingModelTurn]; [|apply error_ends; constructor..].
  unfold emitAccumulatedModelEvents. rewrite emitAll_accepted. cbn [fst snd app].
  set (r := normalizeResponse response).
  exists (contentEvents r ++ callEvents 0 (msg_ToolCalls (resp_Message r)) ++
          (if reportsUsage (resp_Usage r) then [usageEvent (resp_Usage r)] else [])), (markEvent ModelDone), [].
  rewrite <- !app_assoc. repeat split; try done; [|by left].
  repeat (apply Forall_app; split); [apply contentEvents_goesOn|apply callEvents_goesOn|].
  destruct (reportsUsage _); by repeat constructor.
Qed.

Lemma completeTurn_ends response t :
  orderly t → ts_terminal (turn_state t) ≠ Some ModelError →
  let r := completeTurn (Some callback) response t in ends_once r.1 r.2.
Proof.
  intros Ho Hn. unfold completeTurn. cbv zeta.
  set (r := if _ && _ then set_respUsage _ _ else _). clearbody r.
  rewrite emitTurn_accepted. destruct (ts_terminal (turn_state t)) as [k|] eqn:Ek.
  - destruct Ho as [_ Hl]. rewrite Ek in Hl. destruct Hl as (pre & e & Hl & Hpre & He & Ht).
    assert (k = ModelDone) as -> by (by destruct k).
    destruct (reportsUsage _); cbn [fst snd turn_state turn_log]; rewrite Ek; cbn [fst snd]; rewrite Hl.
    + exists pre, e, [usageEvent (resp_Usage r)]. rewrite <- app_assoc, He. repeat split; try done. right. by eexists.
    + exists pre, e, []. rewrite He. repeat split; try done. by left.
  - assert (∀ u, orderly u → ts_terminal (turn_state u) = None →
      let q := match forward (Some callback) (markEvent ModelDone) u with
               | (u, Some err) => (turn_log u, Err err) | (u, None) => (turn_log u, Ok r) end in ends_once q.1 q.2) as Hdone.
    { intros u Hu Eu. destruct (forward_open (markEvent ModelDone) u Hu Eu) as (v & -> & Hv & Htv). cbv zeta. cbn [fst snd].
      eapply orderly_ends; [exact Hv|exact Htv|done]. }
    destruct (reportsUsage _); cbn [fst snd turn_state turn_log]; rewrite Ek; apply Hdone; try done.
    split; [apply Ho|]. cbn [turn_state turn_log]. rewrite Ek. apply Forall_app. split; [|by repeat constructor].
    destruct Ho as [_ Hl]. by rewrite Ek in Hl.
Qed.

Lemma turn_ends streaming nonStreaming :
  let r := executeModelTurn (Some callback) None streaming nonStreaming in ends_once r.1 r.2.
Proof.
  unfold executeModelTurn. destruct streaming as [client|]; [|apply nonStreaming_ends].
  assert (orderly (mkTurn newTurnState [])) as H0 by (split; [done|constructor]).
  pose proof (orderly_run client _ H0) as Ho.
  pose proof (untouched_run (Some callback) client (mkTurn newTurnState []) (λ _ _, eq_refl)) as Hu.
  destruct (runClient _ client _) as [t outcome]. cbn [fst] in Ho, Hu.
  assert (∀ err, ts_terminal (turn_state t) = None →
    ends_once (turn_log (forward (Some callback) (errorEvent err) t).1) (Err err)) as Hfail.
  { intros err Et. destruct (forward_open (errorEvent err) t Ho Et) as (v & -> & Hv & Htv). cbn [fst].
    eapply orderly_ends; [exact Hv|exact Htv|]. by intros [? ?]. }
  assert (∀ k err, ts_terminal (turn_state t) = Some k → ends_once (turn_log t) (Err err)) as Hgone.
  { intros k err Ek. eapply orderly_ends; [exact Ho|exact Ek|]. by intros [? ?]. }
  destruct outcome as [answer|err]; cbn [settleTurn].
  - destruct (bool_decide_reflect (ts_terminal (turn_state t) = Some ModelError)) as [Ee|Ee]; [by eapply Hgone|].
    destruct answer as [response|]; [by apply completeTurn_ends|].
    destruct (bool_decide_reflect (ts_terminal (turn_state t) = None)) as [En|En]; [by apply Hfail|].
    destruct (ts_terminal (turn_state t)) as [k|] eqn:Ek; [by eapply Hgone|done].
  - cbv zeta. lazymatch goal with |- context [if ?b then executeNonStreamingModelTurn _ _ _ else _] => destruct b eqn:Eb end.
    { bool_prop. rewrite Hu by done. apply nonStreaming_ends. }
    clear Eb. rewrite (bool_decide_true _ (orderly_emitter t Ho)). cbn [andb].
    destruct (bool_decide_reflect (ts_terminal (turn_state t) = None)) as [En|En]; [by apply Hfail|].
    destruct (ts_terminal (turn_state t)) as [k|] eqn:Ek; [by eapply Hgone|done].
Qed.
End Endings.

(** ** Properties of a turn *)

(** C20. However the client behaves (whatever it emits, whatever it does with
    the answers of its callback, whatever it returns), while the callback accepts
    its events the turn shows exactly one terminal event; after it comes at most one
    usage report, and a turn that returns a response ended with [done]. *)
Theorem turn_one_terminal
    (callback : list ModelStreamEvent → ModelStreamEvent → option ModelErr)
    (streaming : option (Stream ModelStreamEvent (result ModelErr (option ToolChatResponse))))
    (nonStreaming : result ModelErr (option ToolChatResponse)) log answer :
  (∀ before e, callback before e = None) →
  executeModelTurn (Some callback) None streaming nonStreaming = (log, answer) →
  ends_once log answer.
Proof. intros Hc E. pose proof (turn_ends callback Hc streaming nonStreaming) as H. by rewrite E in H. Qed.

(** C21. The text and the plan the callback was shown while the answer came in
    are those of the response the turn returns, whatever fragments the provider cut
    them into (also in the middle of a tag) and also when the client turns out not
    to stream: provided that the text came in one piece, without reasoning or calls
    in between. *)
Theorem streamed_text_is_final {UT : UnicodeTables} (json_valid : string → bool)
    (marshal_request : openAIToolChatRequest → result ModelErr string)
    (decode_chunk : string → result ModelErr openAIToolStreamChunk)
    (new_request : string → string → option ModelErr)
    (do_stream : string → string → string → result ModelErr streamReply)
    (callback : list ModelStreamEvent → ModelStreamEvent → option ModelErr)
    (cfg : ChatProviderConfig) (req : ToolChatRequest)
    (nonStreaming : result ModelErr (option ToolChatResponse)) log resp :
  let client := StreamChatWithTools json_valid marshal_request decode_chunk new_request do_stream cfg req in
  (∀ data chunk, decode_chunk data = Ok chunk → Forall valid_utf8 (chunkTexts chunk)) →
  oneSegment false (undisturbed client).1 = true →
  executeModelTurn (Some callback) None (Some client) nonStreaming = (log, Ok resp) →
  textOf log = msg_Content (resp_Message resp) ∧ planOf log = resp_ProposedPlan resp.
Proof. intros client. apply final_text. Qed.

(** C19. When the OpenAI-compatible client succeeds, whatever its callback did,
    its response is the one the chunks before [[DONE]] describe: the content is the
    concatenation of their texts, the usage is the last one reported, and the calls
    are those of the indexes mentioned, in increasing order, each with the last id
    and name given for it and the concatenation of its own argument fragments,
    however the indexes were interleaved. *)
Theorem streamed_response_reassembled {UT : UnicodeTables} (json_valid : string → bool)
    (marshal_request : openAIToolChatRequest → result ModelErr string)
    (decode_chunk : string → result ModelErr openAIToolStreamChunk)
    (new_request : string → string → option ModelErr)
    (do_stream : string → string → string → result ModelErr streamReply)
    (callback : list ModelStreamEvent → ModelStreamEvent → option ModelErr)
    (cfg : ChatProviderConfig) (req : ToolChatRequest) t answer :
  runClient (Some callback)
    (StreamChatWithTools json_valid marshal_request decode_chunk new_request do_stream cfg req)
    (mkTurn newTurnState []) = (t, Ok answer) →
  ∃ endpoint body reply chunks resp,
    openAIChatEndpoint cfg = Ok endpoint ∧ marshal_request (streamPayload req) = Ok body ∧
    do_stream endpoint (cfg_APIKey cfg) body = Ok reply ∧ chunksOf decode_chunk (rep_Lines reply) = Some chunks ∧
    answer = Some resp ∧ streamedResponse json_valid chunks resp.
Proof.
  intros E. destruct (streamed_turn _ _ _ _ _ _ _ _ _ _ E)
    as (endpoint & body & reply & chunks & pre & resp & H1 & H2 & H3 & H4 & H5 & H6 & _).
  by exists endpoint, body, reply, chunks, resp.
Qed.

(** ** Samples *)

Definition textChunk (s : string) : openAIToolStreamChunk :=
  mkStreamChunk [mkStreamChoice 0 "" (mkStreamDelta s "" "" [])] None.
Definition reasoningChunk (s : string) : openAIToolStreamChunk :=
  mkStreamChunk [mkStreamChoice 0 "" (mkStreamDelta "" s "" [])] None.
Definition callChunk (i : Z) (id name args : string) (u : option Usage) : openAIToolStreamChunk :=
  mkStreamChunk [mkStreamChoice 0 "" (mkStreamDelta "" "" "" [mkStreamCall (Some i) id "function" name args])] u.

Definition sample_line (s : string) : string := (s ++ newline)%string.
Definition sample_chunk (data : string) : result ModelErr openAIToolStreamChunk :=
  if (data =? "a1")%string then Ok (textChunk (sample_line "answer" ++ "<proposed_")%string)
  else if (data =? "a2")%string then Ok (textChunk (sample_line "plan>" ++ sample_line "step one" ++ "</proposed_plan>")%string)
  else if (data =? "r")%string then Ok (reasoningChunk "thinking")
  else if (data =? "c1")%string then Ok (callChunk 1 "x" "write" "{}" None)
  else if (data =? "c0")%string then Ok (callChunk 0 "y" "read" "" (Some (mkUsage 5 1 6 0 0)))
  else if (data =? "c2")%string then Ok (callChunk 0 "" "" "[1]" None)
  else Err (ErrText "unexpected data").

Definition sample_do (lines : list string) (endpoint key body : string) : result ModelErr streamReply :=
  Ok (mkStreamReply 200 "200 OK" "" ((λ d, ("data: " ++ d)%string) <$> (lines ++ ["[DONE]"])) (λ _, None) None).
Definition sample_cfg : ChatProviderConfig := mkProviderConfig "openai_compatible" "https://models.example" "key".
Definition sample_req : ToolChatRequest := mkToolChatRequest "m" [] [] None None "".

Definition sample_client (lines : list string) : Stream ModelStreamEvent (result ModelErr (option ToolChatResponse)) :=
  StreamChatWithTools (UT:=AsciiTables) (λ _, true) (λ _, Ok "body") sample_chunk (λ _ _, None)
    (sample_do lines) sample_cfg sample_req.

Definition accepting (before : list ModelStreamEvent) (e : ModelStreamEvent) : option ModelErr := None.
Definition sample_turn (lines : list string) : Answer :=
  executeModelTurn (Some accepting) None (Some (sample_client lines)) (Err (ErrText "not asked")).

Lemma turn_one_terminal_witness : ends_once (sample_turn ["a1"; "a2"]).1 (sample_turn ["a1"; "a2"]).2.
Proof.
  unfold sample_turn. generalize (sample_client ["a1"; "a2"]) as client. intros client.
  eapply turn_one_terminal; [reflexivity|]. exact (surjective_pairing (executeModelTurn _ _ _ _)).
Defined.

Lemma sample_chunk_valid data chunk : sample_chunk data = Ok chunk → Forall valid_utf8 (chunkTexts chunk).
Proof.
  unfold sample_chunk. repeat case_match; intros E; try done; injection E as <-; repeat constructor; vm_compute; reflexivity.
Defined.

Lemma streamed_text_is_final_witness :
  ∃ log resp, sample_turn ["a1"; "a2"] = (log, Ok resp) ∧
    msg_Content (resp_Message resp) = sample_line "answer" ∧ resp_ProposedPlan resp = sample_line "step one" ∧
    textOf log = msg_Content (resp_Message resp) ∧ planOf log = resp_ProposedPlan resp.
Proof.
  eexists _, _. split; [vm_compute; reflexivity|]. split; [reflexivity|]. split; [reflexivity|].
  refine (streamed_text_is_final (UT:=AsciiTables) (λ _, true) (λ _, Ok "body") sample_chunk (λ _ _, None)
    (sample_do ["a1"; "a2"]) accepting sample_cfg sample_req (Err (ErrText "not asked")) _ _ sample_chunk_valid _ _).
  - vm_compute. reflexivity.
  - vm_compute. reflexivity.
Defined.

Definition sample_calls : Turn * result ModelErr (option ToolChatResponse) :=
  Eval vm_compute in runClient (Some accepting) (sample_client ["c1"; "c0"]) (mkTurn newTurnState []).

Lemma streamed_response_reassembled_witness :
  ∃ resp, sample_calls.2 = Ok (Some resp) ∧
    streamedResponse (λ _, true) [callChunk 1 "x" "write" "{}" None; callChunk 0 "y" "read" "" (Some (mkUsage 5 1 6 0 0))] resp.
Proof.
  assert (runClient (Some accepting) (sample_client ["c1"; "c0"]) (mkTurn newTurnState []) = sample_calls) as E
    by (vm_compute; reflexivity).
  eexists. split; [reflexivity|].
  destruct (streamed_response_reassembled (UT:=AsciiTables) (λ _, true) (λ _, Ok "body") sample_chunk (λ _ _, None)
    (sample_do ["c1"; "c0"]) accepting sample_cfg sample_req _ _ E) as (endpoint & body & reply & chunks & resp & _ & _ & Hr & Hc & Ha & Hs).
  injection Hr as <-. vm_compute in Hc. injection Hc as <-. injection Ha as <-. exact Hs.
Defined.

(** Reasoning between two pieces of text closes the block that is open: the
    rest of the plan is shown as text, and what the callback was shown is not the
    response. *)
Theorem reasoning_splits_plan :
  ∃ log resp, sample_turn ["a1"; "r"; "a2"] = (log, Ok resp) ∧
    msg_Content (resp_Message resp) = sample_line "answer" ∧ resp_ProposedPlan resp = sample_line "step one" ∧
    textOf log = (sample_line "answer" ++ "<proposed_" ++ sample_line "plan>" ++ sample_line "step one" ++ "</proposed_plan>")%string ∧
    planOf log = "".
Proof. eexists _, _. split; [vm_compute; reflexivity|]. by repeat split. Qed.

(** A usage report in the middle of a call ends the call: the callback is told
    that its arguments are complete and empty, and the response has others. *)
Theorem usage_ends_call_early :
  ∃ log resp, sample_turn ["c0"; "c2"] = (log, Ok resp) ∧
    call_Arguments <$> msg_ToolCalls (resp_Message resp) = ["[1]"] ∧
    ev_Arguments <$> filter (λ e, ev_Kind e = ModelToolCallEnd) log = ["{}"].
Proof. eexists _, _. split; [vm_compute; reflexivity|]. by repeat split. Qed.
