(* ===== verification/Outbox.v ===== *)
(** The context-resource outbox: the rows that announce a changed memory, skill,
    tool or message to the search index, the MySQL table that hands them out under
    leases (internal/infrastructure/mysql/context_resource_repo.go, with the unique
    key of migrations/000001_agent_only_baseline.up.sql) and the worker that
    processes them (internal/domain/contextresource).

    A database transaction is one step.  The worker is a tree of calls ([Prog]),
    so that several workers, their heartbeats, crashes and failing calls interleave
    in [outbox_step].  Times are integers (milliseconds); an UPDATE affects the rows
    it matches. *)
From S2P Require Import Prelude GoStr.
Open Scope Z_scope.

Definition TypeLongTermMemory : string := "long_term_memory".
Definition TypeSkill : string := "skill".
Definition TypeTool : string := "tool".
Definition TypeConversationMessage : string := "conversation_message".
Definition OperationUpsert : string := "upsert".
Definition OperationDelete : string := "delete".

Inductive OutboxStatus := StatusPending | StatusProcessing | StatusCompleted | StatusDeadLetter.
#[export] Instance OutboxStatus_eq_dec : EqDecision OutboxStatus.
Proof. solve_decision. Defined.

Record EmbeddingProfile := mkProfile {
  pf_ProviderID : Z;
  pf_Model : string;
  pf_Dimensions : Z;
  pf_Hash : string
}.
Definition emptyProfile : EmbeddingProfile := mkProfile 0 "" 0 "".

Record OutboxItem := mkItem {
  it_ID : Z;
  it_OwnerID : Z;
  it_AgentID : Z;
  it_ConversationID : Z;
  it_ResourceType : string;
  it_ResourceID : string;
  it_Operation : string;
  it_ContentHash : string;
  it_Profile : EmbeddingProfile;
  it_Status : OutboxStatus;
  it_AttemptCount : Z;
  it_MaxAttempts : Z;
  it_AvailableAt : Z;
  it_LockedBy : string;
  it_LockedAt : option Z;
  it_LeaseExpiresAt : option Z;
  it_LastError : string;
  it_CompletedAt : option Z
}.

Inductive outboxErr :=
| ErrLeaseLost
| ErrDuplicate
| ErrCall (msg : string).

Definition outboxErrText (e : outboxErr) : string :=
  match e with
  | ErrLeaseLost => "context resource outbox lease lost"
  | ErrDuplicate => "Duplicate entry for key 'uk_context_resource_version'"
  | ErrCall msg => msg
  end.

(** Decimal digits of a positive number; the loop does not run for a negative
    one. *)
Definition integer (value : Z) : string :=
  if value =? 0 then "0" else if value <? 0 then "" else Itoa value.

Definition unitSeparator : string := of_bytes [byte_of 31].

Record Document := mkDocument {
  doc_OwnerID : Z;
  doc_AgentID : Z;
  doc_ProjectID : Z;
  doc_ResourceType : string;
  doc_ResourceID : string;
  doc_Content : string;
  doc_ContentHash : string;
  doc_ConversationID : Z
}.

(** The table: its rows in the order of their ids, and the last id given. *)
Record Outbox := mkOutbox { ob_rows : list OutboxItem; ob_lastID : Z }.

(** A program of calls to the repository and to the index, with what follows
    each answer. *)
Inductive Prog (A : Type) : Type :=
| Done (a : A)
| DoRenew (id : Z) (k : option outboxErr → Prog A)
| DoLoad (item : OutboxItem) (k : result outboxErr (option Document) → Prog A)
| DoUpsert (document : Document) (profile : EmbeddingProfile) (k : result outboxErr EmbeddingProfile → Prog A)
| DoDelete (item : OutboxItem) (k : option outboxErr → Prog A)
| DoComplete (id : Z) (profile : EmbeddingProfile) (k : option outboxErr → Prog A)
| DoRetry (id : Z) (cause : outboxErr) (delay : Z) (k : option outboxErr → Prog A).
Arguments Done {A} a.
Arguments DoRenew {A} id k.
Arguments DoLoad {A} item k.
Arguments DoUpsert {A} document profile k.
Arguments DoDelete {A} item k.
Arguments DoComplete {A} id profile k.
Arguments DoRetry {A} id cause delay k.

Fixpoint pbind {A B} (p : Prog A) (f : A → Prog B) : Prog B :=
  match p with
  | Done a => f a
  | DoRenew id k => DoRenew id (λ r, pbind (k r) f)
  | DoLoad item k => DoLoad item (λ r, pbind (k r) f)
  | DoUpsert d pf k => DoUpsert d pf (λ r, pbind (k r) f)
  | DoDelete item k => DoDelete item (λ r, pbind (k r) f)
  | DoComplete id pf k => DoComplete id pf (λ r, pbind (k r) f)
  | DoRetry id cause delay k => DoRetry id cause delay (λ r, pbind (k r) f)
  end.

Section Outbox.
Context (sha256_hex : string → string).

Definition HashContent (content : string) : string := sha256_hex (TrimSpace content).

Definition DocumentID (ownerID : Z) (resourceType resourceID : string) : string :=
  sha256_hex (integer ownerID ++ unitSeparator ++ TrimSpace resourceType ++ unitSeparator ++ TrimSpace resourceID)%string.

Definition Normalized (p : EmbeddingProfile) : EmbeddingProfile :=
  let model := TrimSpace (pf_Model p) in
  if (0 <? pf_ProviderID p) || negb (model =? "")%string || (0 <? pf_Dimensions p) then
    mkProfile (pf_ProviderID p) model (pf_Dimensions p)
      (HashContent (Join [integer (pf_ProviderID p); model; integer (pf_Dimensions p)] unitSeparator))
  else mkProfile (pf_ProviderID p) model (pf_Dimensions p) (TrimSpace (pf_Hash p)).

(** ** The table *)

Definition defaultContextOutboxMaxAttempts : Z := 8.

(** The columns of the key [uk_context_resource_version]. *)
Definition versionKey (r : OutboxItem) : Z * string * string * string * string * string :=
  (it_OwnerID r, it_ResourceType r, it_ResourceID r, it_ContentHash r, it_Operation r, pf_Hash (it_Profile r)).

(** The newest row of the resource that has a profile. *)
Definition priorProfile (ownerID : Z) (resourceType resourceID : string) (rows : list OutboxItem) : option EmbeddingProfile :=
  it_Profile <$> last (filter (λ r, it_OwnerID r = ownerID ∧ it_ResourceType r = resourceType ∧
    it_ResourceID r = resourceID ∧ pf_Hash (it_Profile r) ≠ ""%string) rows).

(** [ctxProfile] is the profile of the context, which is normalized there. *)
Definition enqueueContextResource (ctxProfile : EmbeddingProfile) (now ownerID agentID conversationID : Z)
    (resourceType : string) (resourceID : Z) (operation content : string) (t : Outbox) : Outbox :=
  if (ownerID <=? 0) || (resourceID <=? 0) || (TrimSpace resourceType =? "")%string then t
  else
    let id := Itoa resourceID in
    let profile :=
      if (operation =? OperationDelete)%string && (pf_Hash ctxProfile =? "")%string then
        default ctxProfile (priorProfile ownerID resourceType id (ob_rows t))
      else ctxProfile in
    let item := mkItem (ob_lastID t + 1) ownerID agentID conversationID resourceType id operation (HashContent content) profile
      StatusPending 0 defaultContextOutboxMaxAttempts now "" None None "" None in
    if bool_decide (versionKey item ∈ versionKey <$> ob_rows t) then t
    else mkOutbox (ob_rows t ++ [item]) (ob_lastID t + 1).

Definition update_row (id : Z) (f : OutboxItem → OutboxItem) (t : Outbox) : Outbox :=
  mkOutbox ((λ r, if it_ID r =? id then f r else r) <$> ob_rows t) (ob_lastID t).

Definition claimable (now : Z) (r : OutboxItem) : bool :=
  (bool_decide (it_Status r = StatusPending) ||
   (bool_decide (it_Status r = StatusProcessing) &&
    match it_LeaseExpiresAt r with Some t => t <? now | None => false end)) &&
  (it_AvailableAt r <=? now).

Definition lockRow (now leaseUntil : Z) (workerID : string) (r : OutboxItem) : OutboxItem :=
  mkItem (it_ID r) (it_OwnerID r) (it_AgentID r) (it_ConversationID r) (it_ResourceType r) (it_ResourceID r) (it_Operation r)
    (it_ContentHash r) (it_Profile r) StatusProcessing (it_AttemptCount r) (it_MaxAttempts r) (it_AvailableAt r) workerID
    (Some now) (Some leaseUntil) (it_LastError r) (it_CompletedAt r).

Definition minute : Z := 60000.

Definition Claim (now : Z) (workerID : string) (limit lease : Z) (t : Outbox) : Outbox * list OutboxItem :=
  let limit := if (limit <=? 0) || (500 <? limit) then 50 else limit in
  let lease := if lease <=? 0 then minute else lease in
  let items := take (Z.to_nat limit) (filter (λ r, claimable now r = true) (ob_rows t)) in
  let ids := it_ID <$> items in
  (mkOutbox ((λ r, if bool_decide (it_ID r ∈ ids) then lockRow now (now + lease) workerID r else r) <$> ob_rows t) (ob_lastID t),
   lockRow now (now + lease) workerID <$> items).

(** The rows an update under a lease matches: those of the id that the worker
    holds; [Complete] and [Retry] ask for a lease that has not expired. *)
Definition holds (id : Z) (workerID : string) (r : OutboxItem) : bool :=
  (it_ID r =? id) && bool_decide (it_Status r = StatusProcessing) && (it_LockedBy r =? workerID)%string.
Definition holdsUntil (now id : Z) (workerID : string) (r : OutboxItem) : bool :=
  holds id workerID r && match it_LeaseExpiresAt r with Some t => now <? t | None => false end.

Definition completeRow (now : Z) (profile : EmbeddingProfile) (r : OutboxItem) : OutboxItem :=
  mkItem (it_ID r) (it_OwnerID r) (it_AgentID r) (it_ConversationID r) (it_ResourceType r) (it_ResourceID r) (it_Operation r)
    (it_ContentHash r) profile StatusCompleted (it_AttemptCount r) (it_MaxAttempts r) (it_AvailableAt r) "" None None "" (Some now).

Definition Complete (now id : Z) (workerID : string) (profile : EmbeddingProfile) (t : Outbox) : Outbox * option outboxErr :=
  let profile := Normalized profile in
  match filter (λ r, holdsUntil now id workerID r = true) (ob_rows t) with
  | [] => (t, Some ErrLeaseLost)
  | r :: _ =>
    let others := filter (λ o, it_ID o ≠ id) (ob_rows t) in
    if bool_decide (versionKey (completeRow now profile r) ∈ versionKey <$> others) then (t, Some ErrDuplicate)
    else (update_row id (completeRow now profile) t, None)
  end.

Definition renewRow (until : Z) (r : OutboxItem) : OutboxItem :=
  mkItem (it_ID r) (it_OwnerID r) (it_AgentID r) (it_ConversationID r) (it_ResourceType r) (it_ResourceID r) (it_Operation r)
    (it_ContentHash r) (it_Profile r) (it_Status r) (it_AttemptCount r) (it_MaxAttempts r) (it_AvailableAt r) (it_LockedBy r)
    (it_LockedAt r) (Some until) (it_LastError r) (it_CompletedAt r).

Definition Renew (now id : Z) (workerID : string) (lease : Z) (t : Outbox) : Outbox * option outboxErr :=
  let lease := if lease <=? 0 then minute else lease in
  match filter (λ r, holds id workerID r = true) (ob_rows t) with
  | [] => (t, Some ErrLeaseLost)
  | _ => (update_row id (renewRow (now + lease)) t, None)
  end.

Definition retryRow (next : Z) (message : string) (r : OutboxItem) : OutboxItem :=
  let attemptCount := it_AttemptCount r + 1 in
  let status := if (it_MaxAttempts r <=? 0) || (it_MaxAttempts r <=? attemptCount) then StatusDeadLetter else StatusPending in
  mkItem (it_ID r) (it_OwnerID r) (it_AgentID r) (it_ConversationID r) (it_ResourceType r) (it_ResourceID r) (it_Operation r)
    (it_ContentHash r) (it_Profile r) status attemptCount (it_MaxAttempts r) next "" None None message (it_CompletedAt r).

Definition Retry (now id : Z) (workerID : string) (cause : outboxErr) (next : Z) (t : Outbox) : Outbox * option outboxErr :=
  match filter (λ r, holdsUntil now id workerID r = true) (ob_rows t) with
  | [] => (t, Some ErrLeaseLost)
  | _ => (update_row id (retryRow next (outboxErrText cause)) t, None)
  end.

(** ** The worker *)

(** The jitter of the back-off, in milliseconds. *)
Context (jitter : OutboxItem → Z).

(** [errors.Join] of the errors that are not nil. *)
Definition errs_of (l : list (option outboxErr)) : list outboxErr := omap id l.

Definition backoff (attempt : Z) : Z := Z.min (2 ^ attempt) 300 * 1000.

Definition fail (item : OutboxItem) (cause : outboxErr) : Prog (list outboxErr) :=
  DoRetry (it_ID item) cause (backoff (it_AttemptCount item + 1) + jitter item)
    (λ err, Done (errs_of [Some cause; err])).

Definition process (item : OutboxItem) : Prog (list outboxErr) :=
  let profile := Normalized (it_Profile item) in
  let complete profile := DoComplete (it_ID item) profile (λ err, Done (errs_of [err])) in
  if (it_Operation item =? OperationDelete)%string then
    DoDelete item (λ err, match err with Some e => fail item e | None => complete profile end)
  else
    DoLoad item (λ loaded,
      match loaded with
      | Err e => fail item e
      | Ok None => complete profile
      | Ok (Some document) =>
        if negb (doc_ContentHash document =? it_ContentHash item)%string then complete profile
        else DoUpsert document profile (λ indexed,
          match indexed with
          | Err e => fail item e
          | Ok profile => complete profile
          end)
      end).

(** The heartbeat goroutine is a step of its own below. *)
Definition processWithLease (item : OutboxItem) : Prog (list outboxErr) :=
  DoRenew (it_ID item) (λ err, match err with Some e => Done [e] | None => process item end).

Fixpoint processItems (items : list OutboxItem) (joined : list outboxErr) : Prog (list outboxErr) :=
  match items with
  | [] => Done joined
  | item :: items => pbind (processWithLease item) (λ errs, processItems items (joined ++ errs))
  end.

(** ** Workers at work *)

(** A row of one of the four resource tables, as far as the index sees it. *)
Record Resource := mkResource {
  rsc_Text : string;
  rsc_AgentID : Z;
  rsc_ConversationID : Z;
  rsc_ProjectID : Z
}.

(** [strconv.ParseInt]. *)
Context (parse_id : string → option Z).

Definition document (item : OutboxItem) (r : Resource) : Document :=
  mkDocument (it_OwnerID item)
    (if (it_ResourceType item =? TypeLongTermMemory)%string then rsc_AgentID r else it_AgentID item)
    (rsc_ProjectID r) (it_ResourceType item) (it_ResourceID item) (rsc_Text r) (HashContent (rsc_Text r)) (rsc_ConversationID r).

Definition LoadDocument (resources : gmap (Z * string * Z) Resource) (item : OutboxItem)
    : result outboxErr (option Document) :=
  match parse_id (it_ResourceID item) with
  | None => Err (ErrCall ("invalid " ++ it_ResourceType item ++ " resource id"))
  | Some id =>
    if id <=? 0 then Err (ErrCall ("invalid " ++ it_ResourceType item ++ " resource id"))
    else if bool_decide (it_ResourceType item ∈ [TypeLongTermMemory; TypeSkill; TypeTool; TypeConversationMessage]) then
      Ok (document item <$> resources !! (it_OwnerID item, it_ResourceType item, id))
    else Err (ErrCall "unsupported context resource type")
  end.

(** The database, the index (the content hash of each document it has) and what
    each worker is doing. *)
Record OutboxWorld := mkOutboxWorld {
  w_now : Z;
  w_outbox : Outbox;
  w_resources : gmap (Z * string * Z) Resource;
  w_index : gmap (Z * string * string) string;
  w_workers : gmap string (Prog (list outboxErr))
}.

Definition set_outbox (t : Outbox) (w : OutboxWorld) : OutboxWorld :=
  mkOutboxWorld (w_now w) t (w_resources w) (w_index w) (w_workers w).
Definition set_index (i : gmap (Z * string * string) string) (w : OutboxWorld) : OutboxWorld :=
  mkOutboxWorld (w_now w) (w_outbox w) (w_resources w) i (w_workers w).
Definition set_worker (id : string) (p : Prog (list outboxErr)) (w : OutboxWorld) : OutboxWorld :=
  mkOutboxWorld (w_now w) (w_outbox w) (w_resources w) (w_index w) (<[id := p]> (w_workers w)).

(** The configuration of the workers, and the profile the embedding provider
    resolves to. *)
Context (batchSize lease : Z) (resolve : EmbeddingProfile → EmbeddingProfile).

(** The next call of a program: the world after it, what follows its answer and
    what follows an error instead. *)
Definition perform (worker : string) (p : Prog (list outboxErr)) (w : OutboxWorld)
    : option (OutboxWorld * Prog (list outboxErr) * (outboxErr → Prog (list outboxErr))) :=
  match p with
  | Done _ => None
  | DoRenew id k =>
    let '(t, err) := Renew (w_now w) id worker lease (w_outbox w) in
    Some (set_outbox t w, k err, λ e, k (Some e))
  | DoLoad item k => Some (w, k (LoadDocument (w_resources w) item), λ e, k (Err e))
  | DoUpsert d profile k =>
    Some (set_index (<[(doc_OwnerID d, doc_ResourceType d, doc_ResourceID d) := doc_ContentHash d]> (w_index w)) w,
          k (Ok (resolve profile)), λ e, k (Err e))
  | DoDelete item k =>
    Some (set_index (delete (it_OwnerID item, it_ResourceType item, it_ResourceID item) (w_index w)) w,
          k None, λ e, k (Some e))
  | DoComplete id profile k =>
    let '(t, err) := Complete (w_now w) id worker profile (w_outbox w) in
    Some (set_outbox t w, k err, λ e, k (Some e))
  | DoRetry id cause delay k =>
    let '(t, err) := Retry (w_now w) id worker cause (w_now w + delay) (w_outbox w) in
    Some (set_outbox t w, k err, λ e, k (Some e))
  end.

Definition resting (p : option (Prog (list outboxErr))) : Prop :=
  match p with None | Some (Done _) => True | _ => False end.

(** One step, and the worker that takes it.  A resource is written together with
    its outbox row; a call is answered, or fails before or after it took effect;
    the heartbeat of a working worker renews; a worker may vanish at any time. *)
Inductive outbox_step : option string → OutboxWorld → OutboxWorld → Prop :=
| step_write profile owner agent conversation typ id r w :
    outbox_step None w (mkOutboxWorld (w_now w)
      (enqueueContextResource (Normalized profile) (w_now w) owner agent conversation typ id OperationUpsert (rsc_Text r) (w_outbox w))
      (<[(owner, typ, id) := r]> (w_resources w)) (w_index w) (w_workers w))
| step_remove profile owner agent conversation typ id w :
    outbox_step None w (mkOutboxWorld (w_now w)
      (enqueueContextResource (Normalized profile) (w_now w) owner agent conversation typ id OperationDelete "" (w_outbox w))
      (delete (owner, typ, id) (w_resources w)) (w_index w) (w_workers w))
| step_time t w :
    w_now w ≤ t →
    outbox_step None w (mkOutboxWorld t (w_outbox w) (w_resources w) (w_index w) (w_workers w))
| step_claim worker t items w :
    resting (w_workers w !! worker) → Claim (w_now w) worker batchSize lease (w_outbox w) = (t, items) →
    outbox_step (Some worker) w (set_worker worker (processItems items []) (set_outbox t w))
| step_answered worker p w' q onError w :
    w_workers w !! worker = Some p → perform worker p w = Some (w', q, onError) →
    outbox_step (Some worker) w (set_worker worker q w')
| step_refused worker p w' q onError err w :
    w_workers w !! worker = Some p → perform worker p w = Some (w', q, onError) →
    outbox_step (Some worker) w (set_worker worker (onError err) w)
| step_answer_lost worker p w' q onError err w :
    w_workers w !! worker = Some p → perform worker p w = Some (w', q, onError) →
    outbox_step (Some worker) w (set_worker worker (onError err) w')
| step_heartbeat worker id w :
    ¬ resting (w_workers w !! worker) →
    outbox_step (Some worker) w (set_outbox (Renew (w_now w) id worker lease (w_outbox w)).1 w)
| step_crash worker w :
    outbox_step (Some worker) w
      (mkOutboxWorld (w_now w) (w_outbox w) (w_resources w) (w_index w) (delete worker (w_workers w))).

Definition emptyOutbox : OutboxWorld := mkOutboxWorld 0 (mkOutbox [] 0) ∅ ∅ ∅.

Inductive outbox_reaches : OutboxWorld → Prop :=
| reaches_empty : outbox_reaches emptyOutbox
| reaches_step a w w' : outbox_reaches w → outbox_step a w w' → outbox_reaches w'.

(** ** The life of a row *)

Inductive phase :=
| Waiting (attempts available : Z)
| Held (worker : string) (until attempts : Z)
| Finished
| Dropped.

Definition phaseOf (r : OutboxItem) : phase :=
  match it_Status r with
  | StatusPending => Waiting (it_AttemptCount r) (it_AvailableAt r)
  | StatusProcessing => Held (it_LockedBy r) (default 0 (it_LeaseExpiresAt r)) (it_AttemptCount r)
  | StatusCompleted => Finished
  | StatusDeadLetter => Dropped
  end.

(** What [worker] may do to a row at time [now]. *)
Inductive phase_step (now : Z) (worker : string) : phase → phase → Prop :=
| phase_claim n from until : from ≤ now → now < until → phase_step now worker (Waiting n from) (Held worker until n)
| phase_takeover other t n until : t < now → now < until → phase_step now worker (Held other t n) (Held worker until n)
| phase_renew t n until : now < until → phase_step now worker (Held worker t n) (Held worker until n)
| phase_complete t n : now < t → phase_step now worker (Held worker t n) Finished
| phase_retry t n from : now < t → n + 1 < 8 → phase_step now worker (Held worker t n) (Waiting (n + 1) from)
| phase_drop t n : now < t → 8 ≤ n + 1 → phase_step now worker (Held worker t n) Dropped.

(** The columns that identify a row and what it announces. *)
Definition identity (r : OutboxItem) : Z * Z * string * string * string * string :=
  (it_ID r, it_OwnerID r, it_ResourceType r, it_ResourceID r, it_Operation r, it_ContentHash r).

(** What a step may do to a row. *)
Definition row_step (now : Z) (actor : option string) (r r' : OutboxItem) : Prop :=
  identity r' = identity r ∧
  (phaseOf r' = phaseOf r ∨ ∃ worker, actor = Some worker ∧ phase_step now worker (phaseOf r) (phaseOf r')).

(** The fields of a row agree with its status. *)
Record row_ok (r : OutboxItem) : Prop := {
  row_max : it_MaxAttempts r = 8;
  row_attempts : 0 ≤ it_AttemptCount r ∧
    (if bool_decide (it_Status r = StatusDeadLetter) then it_AttemptCount r = 8 else it_AttemptCount r < 8);
  row_lease : is_Some (it_LeaseExpiresAt r) ↔ it_Status r = StatusProcessing;
  row_locked : it_Status r ≠ StatusProcessing → it_LockedBy r = ""%string;
  row_completed : is_Some (it_CompletedAt r) ↔ it_Status r = StatusCompleted
}.

Record table_ok (t : Outbox) : Prop := {
  table_ids : StronglySorted (key_lt it_ID) (ob_rows t);
  table_last : ∀ r, r ∈ ob_rows t → it_ID r ≤ ob_lastID t;
  table_keys : NoDup (versionKey <$> ob_rows t);
  table_rows : Forall row_ok (ob_rows t)
}.

(** ** Every operation keeps to it *)

Lemma id_unique t r s : table_ok t → r ∈ ob_rows t → s ∈ ob_rows t → it_ID r = it_ID s → r = s.
Proof.
  intros [Hs _ _ _] Hr Hs'. apply key_sorted_NoDup in Hs. revert Hs Hr Hs'.
  generalize (ob_rows t) as l. induction l as [| x l IH]; intros Hnd Hr Hs' E; [set_solver|].
  rewrite fmap_cons in Hnd. apply NoDup_cons in Hnd as [Hx Hnd].
  apply elem_of_cons in Hr as [->|Hr], Hs' as [->|Hs']; try done; [..|by apply IH].
  - destruct Hx. rewrite E. by apply list_elem_of_fmap_2.
  - destruct Hx. rewrite <- E. by apply list_elem_of_fmap_2.
Qed.

Lemma sorted_fmap (g : OutboxItem → OutboxItem) l :
  (∀ r, r ∈ l → it_ID (g r) = it_ID r) → StronglySorted (key_lt it_ID) l → StronglySorted (key_lt it_ID) (g <$> l).
Proof.
  intros Hg Hs. induction Hs as [| x l Hs IH Hx]; [constructor|]. rewrite fmap_cons. constructor.
  - apply IH. intros r Hr. apply Hg. by right.
  - rewrite Forall_forall in *. intros y Hy. apply list_elem_of_fmap in Hy as (z & -> & Hz). unfold key_lt.
    rewrite !Hg by (by constructor). by apply Hx.
Qed.

(** An update of some rows that keeps ids and keys. *)
Lemma map_ok (g : OutboxItem → OutboxItem) t :
  table_ok t → (∀ r, r ∈ ob_rows t → row_ok r → row_ok (g r) ∧ it_ID (g r) = it_ID r) →
  NoDup (versionKey <$> (g <$> ob_rows t)) → table_ok (mkOutbox (g <$> ob_rows t) (ob_lastID t)).
Proof.
  intros [H1 H2 H3 H4] Hg Hk. rewrite Forall_forall in H4.
  assert (∀ r, r ∈ ob_rows t → row_ok (g r) ∧ it_ID (g r) = it_ID r) as Hg' by (intros r Hr; apply Hg; auto).
  split; cbn [ob_rows ob_lastID].
  - apply sorted_fmap; [|done]. intros r Hr. by apply Hg'.
  - intros r Hr. apply list_elem_of_fmap in Hr as (s & -> & Hs). destruct (Hg' s Hs) as [_ ->]. by apply H2.
  - done.
  - apply Forall_forall. intros r Hr. apply list_elem_of_fmap in Hr as (s & -> & Hs). by apply Hg'.
Qed.

Lemma keys_kept (g : OutboxItem → OutboxItem) t :
  table_ok t → (∀ r, r ∈ ob_rows t → versionKey (g r) = versionKey r) → NoDup (versionKey <$> (g <$> ob_rows t)).
Proof.
  intros Ht Hg. rewrite <- list_fmap_compose.
  rewrite (list_fmap_ext (versionKey ∘ g) versionKey (ob_rows t)); [apply Ht|].
  intros i r Hr. cbn. apply Hg. by eapply list_elem_of_lookup_2.
Qed.

Lemma Forall2_fmap_self {A} (P : A → A → Prop) (g : A → A) l : (∀ x, x ∈ l → P x (g x)) → Forall2 P l (g <$> l).
Proof.
  intros Hg. induction l as [| x l IH]; [constructor|]. rewrite fmap_cons. constructor; [apply Hg; left|].
  apply IH. intros y Hy. apply Hg. by right.
Qed.

Lemma row_step_refl now a r : row_step now a r r.
Proof. split; [done|by left]. Qed.

Lemma holdsUntil_phase now id worker r :
  holdsUntil now id worker r = true →
  it_ID r = id ∧ it_Status r = StatusProcessing ∧ ∃ t, it_LeaseExpiresAt r = Some t ∧ now < t ∧
    phaseOf r = Held worker t (it_AttemptCount r).
Proof.
  unfold holdsUntil, holds, phaseOf. intros H. bool_prop. destruct (it_LeaseExpiresAt r) as [t|]; [|done].
  bool_prop. split; [done|]. split; [done|]. exists t. split; [done|]. split; [done|].
  match goal with H : it_Status r = _ |- _ => rewrite H end. cbn. congruence.
Qed.

Lemma holds_phase id worker r :
  holds id worker r = true → row_ok r →
  it_ID r = id ∧ it_Status r = StatusProcessing ∧ ∃ t, phaseOf r = Held worker t (it_AttemptCount r).
Proof.
  unfold holds, phaseOf. intros H Hr. bool_prop. split; [done|]. split; [done|].
  match goal with H : it_Status r = _ |- _ => rewrite H end. eexists. f_equal. congruence.
Qed.

(** Updating the row of an id when a row of that id is held. *)
Lemma update_row_steps now worker id f (held : OutboxItem → bool) r l t :
  table_ok t → filter (λ r, held r = true) (ob_rows t) = r :: l → (∀ r, held r = true → it_ID r = id) →
  row_ok (f r) → identity (f r) = identity r → phase_step now worker (phaseOf r) (phaseOf (f r)) →
  NoDup (versionKey <$> ob_rows (update_row id f t)) →
  table_ok (update_row id f t) ∧ Forall2 (row_step now (Some worker)) (ob_rows t) (ob_rows (update_row id f t)).
Proof.
  intros Ht E Hid Hok Hsame Hstep Hk.
  assert (r ∈ ob_rows t ∧ held r = true) as [Hr Hh].
  { assert (r ∈ filter (λ r, held r = true) (ob_rows t)) as Hr by (rewrite E; left).
    apply list_elem_of_filter in Hr. tauto. }
  assert (∀ x, x ∈ ob_rows t → it_ID x = id → x = r) as Hu.
  { intros x Hx Ex. apply (id_unique t); [done..|]. rewrite Ex. symmetry. by apply Hid. }
  split.
  - apply map_ok; [done| |done]. intros x Hx Hx'. destruct (it_ID x =? id) eqn:Ex; [|done]. bool_prop.
    rewrite (Hu x Hx Ex). split; [done|]. unfold identity in Hsame. congruence.
  - apply Forall2_fmap_self. intros x Hx. destruct (it_ID x =? id) eqn:Ex; [|apply row_step_refl]. bool_prop.
    rewrite (Hu x Hx Ex). split; [done|]. right. by exists worker.
Qed.

Lemma keys_kept_update id f t :
  table_ok t → (∀ r, versionKey (f r) = versionKey r) → NoDup (versionKey <$> ob_rows (update_row id f t)).
Proof. intros Ht Hf. apply keys_kept; [done|]. intros r _. by destruct (it_ID r =? id). Qed.

Lemma same_table now a t : table_ok t → table_ok t ∧ Forall2 (row_step now a) (ob_rows t) (ob_rows t).
Proof. intros Ht. split; [done|]. apply Forall_Forall2_diag, Forall_forall. intros r _. apply row_step_refl. Qed.

Lemma lease_pos : 0 < (if lease <=? 0 then minute else lease).
Proof. unfold minute. destruct (lease <=? 0) eqn:E; bool_prop; lia. Qed.

Lemma Renew_steps now id worker t :
  table_ok t → let t' := (Renew now id worker lease t).1 in
  table_ok t' ∧ Forall2 (row_step now (Some worker)) (ob_rows t) (ob_rows t').
Proof.
  intros Ht. unfold Renew. cbv zeta. destruct (filter _ _) as [| r l] eqn:E; [by apply same_table|]. cbn [fst].
  assert (r ∈ filter (λ r, holds id worker r = true) (ob_rows t)) as Hr by (rewrite E; left).
  apply list_elem_of_filter in Hr as [Hh Hr].
  assert (row_ok r) as Hok by (eapply Forall_forall; [apply (table_rows t Ht)|done]).
  destruct (holds_phase _ _ _ Hh Hok) as (Hid & Hst & u & Hp). pose proof lease_pos as Hpos.
  eapply (update_row_steps now worker id _ (holds id worker)); [done|exact E| | |done| |].
  - intros x Hx. unfold holds in Hx. by bool_prop.
  - destruct Hok as [H1 H2 H3 H4 H5]. by split.
  - rewrite Hp. unfold phaseOf. cbn [renewRow it_Status]. rewrite Hst. cbn.
    unfold phaseOf in Hp. rewrite Hst in Hp. injection Hp as <- _. apply phase_renew. lia.
  - by apply keys_kept_update.
Qed.

Lemma Retry_steps now id worker cause next t :
  table_ok t → let t' := (Retry now id worker cause next t).1 in
  table_ok t' ∧ Forall2 (row_step now (Some worker)) (ob_rows t) (ob_rows t').
Proof.
  intros Ht. unfold Retry. cbv zeta. destruct (filter _ _) as [| r l] eqn:E; [by apply same_table|]. cbn [fst].
  assert (r ∈ filter (λ r, holdsUntil now id worker r = true) (ob_rows t)) as Hr by (rewrite E; left).
  apply list_elem_of_filter in Hr as [Hh Hr].
  assert (row_ok r) as Hok by (eapply Forall_forall; [apply (table_rows t Ht)|done]).
  destruct (holdsUntil_phase _ _ _ _ Hh) as (Hid & Hst & u & Hu & Hlt & Hp).
  destruct Hok as [H1 [H2 H2'] H3 H4 H5]. rewrite Hst, bool_decide_false in H2' by done.
  eapply (update_row_steps now worker id _ (holdsUntil now id worker)); [done|exact E| | |done| |].
  - intros x Hx. by apply holdsUntil_phase in Hx as (? & _).
  - unfold retryRow. rewrite H1. cbn [Z.leb Z.compare]. destruct (8 <=? it_AttemptCount r + 1) eqn:E8; bool_prop; cbn [orb].
    all: split; cbn; try done; try (split; [lia|case_bool_decide; first [done|lia]]).
    all: try (split; [by intros [? ?]|done]).
    all: split; [intros Hc; apply H5 in Hc; congruence|done].
  - rewrite Hp. unfold phaseOf, retryRow. rewrite H1. cbn [Z.leb Z.compare].
    destruct (8 <=? it_AttemptCount r + 1) eqn:E8; bool_prop; cbn [orb it_Status it_AttemptCount it_AvailableAt]; by constructor.
  - apply keys_kept_update; [done|]. intros x. by unfold retryRow.
Qed.

Lemma update_row_split id f r t :
  table_ok t → r ∈ ob_rows t → it_ID r = id →
  ∃ l1 l2, ob_rows t = l1 ++ r :: l2 ∧ ob_rows (update_row id f t) = l1 ++ f r :: l2 ∧
    filter (λ o, it_ID o ≠ id) (ob_rows t) = l1 ++ l2.
Proof.
  intros Ht Hr Hid. pose proof (table_ids t Ht) as Hs. apply key_sorted_NoDup in Hs.
  apply list_elem_of_split in Hr as (l1 & l2 & E). exists l1, l2. unfold update_row. cbn [ob_rows]. rewrite E in *.
  rewrite fmap_app, fmap_cons in Hs. apply NoDup_app in Hs as (Hs1 & Hs2 & Hs3). apply NoDup_cons in Hs3 as [Hs3 _].
  assert (∀ x, x ∈ l1 ++ l2 → it_ID x ≠ id) as Hne.
  { intros x Hx Ex. apply elem_of_app in Hx as [Hx|Hx].
    - apply (Hs2 (it_ID x)); [by apply list_elem_of_fmap_2|]. rewrite Ex, Hid. left.
    - apply Hs3. rewrite Hid, <- Ex. by apply list_elem_of_fmap_2. }
  assert (∀ l : list OutboxItem, (∀ x, x ∈ l → it_ID x ≠ id) → (λ x, if it_ID x =? id then f x else x) <$> l = l) as Hl.
  { intros l Hl. induction l as [| x l IH]; [done|]. rewrite fmap_cons, IH by (intros y Hy; apply Hl; by right).
    by rewrite (proj2 (Z.eqb_neq _ _) (Hl x ltac:(left))). }
  split; [done|]. split.
  - rewrite fmap_app, fmap_cons, Hl, Hl by (intros x Hx; apply Hne; set_solver). by rewrite Hid, Z.eqb_refl.
  - rewrite filter_app, filter_cons_False by tauto. by rewrite !filter_all by (intros x Hx; apply Hne; set_solver).
Qed.

Lemma Complete_steps now id worker profile t :
  table_ok t → let t' := (Complete now id worker profile t).1 in
  table_ok t' ∧ Forall2 (row_step now (Some worker)) (ob_rows t) (ob_rows t').
Proof.
  intros Ht. unfold Complete. cbv zeta. destruct (filter (λ r, holdsUntil _ _ _ r = true) _) as [| r l] eqn:E; [by apply same_table|].
  destruct (bool_decide_reflect (versionKey (completeRow now (Normalized profile) r) ∈
    versionKey <$> filter (λ o, it_ID o ≠ id) (ob_rows t))) as [Hdup|Hfresh]; [by apply same_table|]. cbn [fst].
  assert (r ∈ filter (λ r, holdsUntil now id worker r = true) (ob_rows t)) as Hr by (rewrite E; left).
  apply list_elem_of_filter in Hr as [Hh Hr].
  assert (row_ok r) as Hok by (eapply Forall_forall; [apply (table_rows t Ht)|done]).
  destruct (holdsUntil_phase _ _ _ _ Hh) as (Hid & Hst & u & Hu & Hlt & Hp).
  eapply (update_row_steps now worker id _ (holdsUntil now id worker)); [done|exact E| | |done| |].
  - intros x Hx. by apply holdsUntil_phase in Hx as (? & _).
  - destruct Hok as [H1 [H2 H2'] H3 H4 H5]. rewrite Hst, bool_decide_false in H2' by done.
    split; cbn; try done; try (split; [by intros [? ?]|done]); try (split; [done|by eexists]).
  - rewrite Hp. by apply (phase_complete now worker u).
  - destruct (update_row_split id (completeRow now (Normalized profile)) r t Ht Hr Hid) as (l1 & l2 & Hrows & -> & Hfil).
    rewrite Hfil in Hfresh. pose proof (table_keys t Ht) as Hk. rewrite Hrows in Hk.
    rewrite fmap_app, fmap_cons in Hk |- *. rewrite fmap_app in Hfresh.
    rewrite <- Permutation_middle in Hk |- *. apply NoDup_cons in Hk as [_ Hk]. by apply NoDup_cons.
Qed.

Lemma Claim_steps now worker limit t :
  table_ok t → let t' := (Claim now worker limit lease t).1 in
  table_ok t' ∧ Forall2 (row_step now (Some worker)) (ob_rows t) (ob_rows t').
Proof.
  intros Ht. unfold Claim. cbv zeta. cbn [fst]. set (items := take _ _). pose proof lease_pos as Hpos.
  assert (∀ r, r ∈ ob_rows t → it_ID r ∈ it_ID <$> items → claimable now r = true) as Hc.
  { intros r Hr Hin. apply list_elem_of_fmap in Hin as (s & Es & Hs).
    assert (s ∈ filter (λ r, claimable now r = true) (ob_rows t)) as Hs' by (eapply elem_of_take in Hs as (i & Hi & _); by eapply list_elem_of_lookup_2).
    apply list_elem_of_filter in Hs' as [Hcs Hs']. by rewrite (id_unique t r s Ht Hr Hs' Es). }
  set (lk := lockRow now _ worker). split.
  - apply map_ok; [done| |].
    + intros r Hr Hok. case_bool_decide as Hin; [|done]. specialize (Hc r Hr Hin). split; [|done].
      assert (it_Status r = StatusPending ∨ it_Status r = StatusProcessing) as Hs.
      { unfold claimable in Hc. bool_prop. destruct H as [H|H]; bool_prop; auto. }
      destruct Hok as [H1 [H2 H2'] H3 H4 H5]. split; cbn; try done.
      * split; [done|]. rewrite bool_decide_false in H2' by (by destruct Hs as [-> | ->]). done.
      * split; [|done]. intros Hc'. apply H5 in Hc'. destruct Hs; congruence.
    + apply keys_kept; [done|]. intros r _. by case_bool_decide.
  - cbn [ob_rows]. apply Forall2_fmap_self. intros r Hr. case_bool_decide as Hin; [|apply row_step_refl].
    specialize (Hc r Hr Hin). split; [done|]. right. exists worker. split; [done|].
    unfold claimable in Hc. unfold phaseOf at 2. cbn. unfold phaseOf. bool_prop. destruct H as [H|H]; bool_prop; rewrite H.
    + constructor; lia.
    + destruct (it_LeaseExpiresAt r) as [u|]; [|done]. bool_prop. cbn. constructor; lia.
Qed.

(** A new row waits at the end of the table. *)
Lemma enqueue_steps now a profile owner agent conv typ id op content t :
  table_ok t → let t' := enqueueContextResource profile now owner agent conv typ id op content t in
  table_ok t' ∧ ∃ old new, ob_rows t' = old ++ new ∧ Forall2 (row_step now a) (ob_rows t) old ∧
    Forall (λ r, phaseOf r = Waiting 0 now ∧ ob_lastID t < it_ID r) new.
Proof.
  intros Ht. cbv zeta. unfold enqueueContextResource.
  assert (table_ok t ∧ ∃ old new, ob_rows t = old ++ new ∧ Forall2 (row_step now a) (ob_rows t) old ∧
    Forall (λ r, phaseOf r = Waiting 0 now ∧ ob_lastID t < it_ID r) new) as Hsame.
  { destruct (same_table now a t Ht) as [_ Hf]. split; [done|]. exists (ob_rows t), []. by rewrite app_nil_r. }
  destruct (_ || _); [done|]. cbv zeta. set (item := mkItem _ _ _ _ _ _ _ _ _ _ _ _ _ _ _ _ _ _).
  case_bool_decide as Hin; [done|]. destruct Ht as [H1 H2 H3 H4]. split.
  - split; cbn [ob_rows ob_lastID].
    + apply key_sorted_snoc; [done|]. intros r Hr. specialize (H2 r Hr). cbn. lia.
    + intros r Hr. apply elem_of_app in Hr as [Hr|Hr]; [specialize (H2 r Hr); lia|].
      apply list_elem_of_singleton in Hr as ->. cbn. lia.
    + rewrite fmap_app, Permutation_app_comm. by apply NoDup_cons.
    + apply Forall_app. split; [done|]. constructor; [|constructor].
      split; cbn; try done; try lia; try (split; [by intros [? ?]|done]).
  - exists (ob_rows t), [item]. cbn [ob_rows]. split; [done|]. split; [apply (same_table now a t); by split|].
    constructor; [|constructor]. split; [done|]. cbn. lia.
Qed.

Lemma perform_steps worker p w w' q onError :
  table_ok (w_outbox w) → perform worker p w = Some (w', q, onError) →
  w_now w' = w_now w ∧ table_ok (w_outbox w') ∧
  Forall2 (row_step (w_now w) (Some worker)) (ob_rows (w_outbox w)) (ob_rows (w_outbox w')).
Proof.
  intros Ht E. destruct p as [a|id k|item k|d pf k|item k|id pf k|id cause delay k]; cbn [perform] in E; [done|..].
  - pose proof (Renew_steps (w_now w) id worker _ Ht) as H. destruct (Renew _ _ _ _ _). by injection E as <- <- <-.
  - injection E as <- <- <-. split; [done|]. by apply same_table.
  - injection E as <- <- <-. split; [done|]. by apply same_table.
  - injection E as <- <- <-. split; [done|]. by apply same_table.
  - pose proof (Complete_steps (w_now w) id worker pf _ Ht) as H. destruct (Complete _ _ _ _ _). by injection E as <- <- <-.
  - pose proof (Retry_steps (w_now w) id worker cause (w_now w + delay) _ Ht) as H.
    destruct (Retry _ _ _ _ _ _). by injection E as <- <- <-.
Qed.

(** What a step does to the table: the rows that were there take at most one step
    of their lives, by the worker that acts, and new rows wait at the end. *)
Definition table_step (now : Z) (a : option string) (t t' : Outbox) : Prop :=
  ∃ old new, ob_rows t' = old ++ new ∧ Forall2 (row_step now a) (ob_rows t) old ∧
    Forall (λ r, phaseOf r = Waiting 0 now ∧ ob_lastID t < it_ID r) new.

Lemma table_step_kept now a t t' : Forall2 (row_step now a) (ob_rows t) (ob_rows t') → table_step now a t t'.
Proof. intros Hf. exists (ob_rows t'), []. by rewrite app_nil_r. Qed.

Lemma outbox_step_ok a w w' :
  table_ok (w_outbox w) → outbox_step a w w' →
  table_ok (w_outbox w') ∧ table_step (w_now w) a (w_outbox w) (w_outbox w').
Proof.
  intros Ht Hs.
  assert (table_ok (w_outbox w) ∧ table_step (w_now w) a (w_outbox w) (w_outbox w)) as Hsame.
  { split; [done|]. by apply table_step_kept, same_table. }
  destruct Hs as [profile owner agent conv typ id r w|profile owner agent conv typ id w|t w Hle|worker t items w Hr Hc
    |worker p w' q oe w Hp Hc|worker p w' q oe err w Hp Hc|worker p w' q oe err w Hp Hc|worker id w Hr|worker w]; try done.
  - by apply enqueue_steps.
  - by apply enqueue_steps.
  - pose proof (Claim_steps (w_now w) worker batchSize _ Ht) as H. rewrite Hc in H. destruct H as [H1 H2].
    split; [done|]. by apply table_step_kept.
  - destruct (perform_steps _ _ _ _ _ _ Ht Hc) as (_ & H1 & H2). split; [done|]. by apply table_step_kept.
  - destruct (perform_steps _ _ _ _ _ _ Ht Hc) as (_ & H1 & H2). split; [done|]. by apply table_step_kept.
  - destruct (Renew_steps (w_now w) id worker _ Ht) as [H1 H2]. split; [done|]. by apply table_step_kept.
Qed.

Lemma reaches_ok w : outbox_reaches w → table_ok (w_outbox w).
Proof.
  induction 1 as [| a w w' Hw IH Hs]; [|by apply (outbox_step_ok a w w')].
  split; cbn; [constructor|set_solver|constructor|constructor].
Qed.

Definition outbox_later : relation OutboxWorld := rtc (λ w w', ∃ a, outbox_step a w w').

(** Once settled, a row stays as it is. *)
Definition settled (p : phase) : Prop := p = Finished ∨ p = Dropped.

Lemma row_step_settled now a r r' : row_step now a r r' → settled (phaseOf r) → phaseOf r' = phaseOf r.
Proof. intros [_ [->|(worker & _ & Hp)]] [Hs|Hs]; try done; rewrite Hs in Hp; inversion Hp. Qed.

Lemma later_row w w' i r :
  outbox_reaches w → outbox_later w w' → ob_rows (w_outbox w) !! i = Some r →
  ∃ r', ob_rows (w_outbox w') !! i = Some r' ∧ identity r' = identity r ∧
    (settled (phaseOf r) → phaseOf r' = phaseOf r).
Proof.
  intros Hw Hl. revert r Hw. induction Hl as [w|w w1 w2 [a Hs] Hl IH]; intros r Hw Hi; [by exists r|].
  destruct (outbox_step_ok a w w1 (reaches_ok w Hw) Hs) as [_ (old & new & Hrows & Hf & _)].
  destruct (Forall2_lookup_l _ _ _ _ _ Hf Hi) as (r1 & Hi1 & Hr1).
  assert (ob_rows (w_outbox w1) !! i = Some r1) as Hi1'.
  { rewrite Hrows. rewrite lookup_app_l; [done|]. by eapply lookup_lt_Some. }
  destruct (IH r1 (reaches_step _ _ _ Hw Hs) Hi1') as (r2 & Hi2 & Hid & Hset). exists r2. split; [done|].
  split; [by rewrite Hid; destruct Hr1|]. intros Hr. pose proof (row_step_settled _ _ _ _ Hr1 Hr) as Hp.
  rewrite Hset by (by rewrite Hp). done.
Qed.
End Outbox.

(** C18. Every step of every interleaving of workers, heartbeats, crashes, lost
    answers and writes moves each row of the outbox along its life cycle, by the
    worker that acts: a row is claimed when it is available, taken over only after
    its lease has expired, renewed only by its holder, and completed, retried or
    dropped (at the eighth attempt) only by its holder and before the lease expires;
    rows keep what they announce, and new rows are appended as waiting. *)
Theorem outbox_refines_lifecycle sha256_hex jitter parse_id batchSize lease resolve a w w' :
  outbox_reaches sha256_hex jitter parse_id batchSize lease resolve w →
  outbox_step sha256_hex jitter parse_id batchSize lease resolve a w w' →
  table_step (w_now w) a (w_outbox w) (w_outbox w').
Proof. intros Hw Hs. exact (proj2 (outbox_step_ok _ _ _ _ _ _ _ _ _ (reaches_ok _ _ _ _ _ _ _ Hw) Hs)). Qed.

(** C34. In every reachable state the ids of the outbox increase, no two rows have
    the same version key, the fields of each row agree with its status (a lease
    exactly while it is processed, fewer than eight attempts unless it was dropped),
    and in every later state each row still announces the same version and a row
    that was completed or dropped still is. *)
Theorem outbox_invariant sha256_hex jitter parse_id batchSize lease resolve w :
  outbox_reaches sha256_hex jitter parse_id batchSize lease resolve w →
  table_ok (w_outbox w) ∧
  ∀ w' i r, outbox_later sha256_hex jitter parse_id batchSize lease resolve w w' →
    ob_rows (w_outbox w) !! i = Some r →
    ∃ r', ob_rows (w_outbox w') !! i = Some r' ∧ identity r' = identity r ∧
      (settled (phaseOf r) → phaseOf r' = phaseOf r).
Proof. intros Hw. split; [by eapply reaches_ok|]. intros w' i r Hl Hi. by eapply later_row. Qed.

(** ** Schedules *)

(** Scheduled steps of a sample setting: a lease of one minute, one row per
    batch, a provider that resolves every profile to one. *)
Inductive action :=
| Write (text : string)
| Wait (t : Z)
| ClaimBy (worker : string)
| Answer (worker : string).

Definition sample_hash (s : string) : string := s.
Definition sample_resolve (p : EmbeddingProfile) : EmbeddingProfile := mkProfile 3 "embed" 1536 "".
Definition sample_parse (s : string) : option Z := Some 7.
Definition sample_reaches : OutboxWorld → Prop :=
  outbox_reaches sample_hash (λ _, 0) sample_parse 1 minute sample_resolve.
Definition sample_step : option string → OutboxWorld → OutboxWorld → Prop :=
  outbox_step sample_hash (λ _, 0) sample_parse 1 minute sample_resolve.

Definition is_resting (p : option (Prog (list outboxErr))) : bool :=
  match p with None | Some (Done _) => true | _ => false end.

Definition act (x : action) (w : OutboxWorld) : option (option string * OutboxWorld) :=
  match x with
  | Write text =>
    Some (None, mkOutboxWorld (w_now w)
      (enqueueContextResource sample_hash (Normalized sample_hash emptyProfile) (w_now w) 1 0 0 TypeTool 7 OperationUpsert text (w_outbox w))
      (<[(1, TypeTool, 7) := mkResource text 0 0 0]> (w_resources w)) (w_index w) (w_workers w))
  | Wait t =>
    if w_now w <=? t then Some (None, mkOutboxWorld t (w_outbox w) (w_resources w) (w_index w) (w_workers w)) else None
  | ClaimBy worker =>
    if is_resting (w_workers w !! worker) then
      let '(t, items) := Claim (w_now w) worker 1 minute (w_outbox w) in
      Some (Some worker, set_worker worker (processItems sample_hash (λ _, 0) items []) (set_outbox t w))
    else None
  | Answer worker =>
    match w_workers w !! worker with
    | None => None
    | Some p =>
      match perform sample_hash sample_parse minute sample_resolve worker p w with
      | None => None
      | Some (w', q, _) => Some (Some worker, set_worker worker q w')
      end
    end
  end.

Fixpoint acts (l : list action) (w : OutboxWorld) : option OutboxWorld :=
  match l with
  | [] => Some w
  | x :: l => match act x w with Some (_, w) => acts l w | None => None end
  end.

Lemma act_step x w a w' : act x w = Some (a, w') → sample_step a w w'.
Proof.
  destruct x as [text|t|worker|worker]; cbn [act]; intros E.
  - injection E as <- <-. exact (step_write _ _ _ _ _ _ emptyProfile 1 0 0 TypeTool 7 (mkResource text 0 0 0) w).
  - destruct (w_now w <=? t) eqn:Et; [|done]. injection E as <- <-. constructor. by bool_prop.
  - destruct (is_resting _) eqn:Er; [|done]. destruct (Claim _ _ _ _ _) as [t items] eqn:Ec. injection E as <- <-.
    apply step_claim; [|done]. by destruct (w_workers w !! worker) as [[]|].
  - destruct (w_workers w !! worker) as [p|] eqn:Ep; [|done].
    destruct (perform _ _ _ _ _ _ _) as [[[w1 q] oe]|] eqn:Eq; [|done]. injection E as <- <-.
    by eapply step_answered.
Qed.

Lemma acts_reach l w w' : sample_reaches w → acts l w = Some w' → sample_reaches w'.
Proof.
  revert w. induction l as [| x l IH]; intros w Hw E; cbn [acts] in E; [by injection E as <-|].
  destruct (act x w) as [[a w1]|] eqn:Ex; [|done]. apply (IH w1); [|done].
  eapply reaches_step; [exact Hw|by apply act_step in Ex].
Qed.

Definition all_of (worker : string) (n : nat) : list action := replicate n (Answer worker).

(** Two workers index two versions of one resource: the older version may be
    written last and stays, although both rows are completed. *)
Definition stale_schedule : list action :=
  [Write "old"; ClaimBy "a"] ++ all_of "a" 2 ++ [Write "new"; ClaimBy "b"] ++ all_of "b" 4 ++ all_of "a" 2.

Theorem stale_version_wins :
  ∃ w, sample_reaches w ∧ phaseOf <$> ob_rows (w_outbox w) = [Finished; Finished] ∧
    rsc_Text <$> w_resources w !! (1, TypeTool, 7) = Some "new" ∧
    w_index w !! (1, TypeTool, "7") = Some (HashContent sample_hash "old").
Proof.
  destruct (acts stale_schedule emptyOutbox) as [w|] eqn:E; [|by vm_compute in E].
  exists w. split; [by eapply acts_reach; [constructor|exact E]|].
  vm_compute in E. injection E as <-. by repeat split.
Qed.

(** A resource that is written again with the same text after it was indexed gets
    a row that can never be completed: completing it would give it the version key of
    the first.  The row is claimed again after every lease, and its attempts are not
    counted. *)
Definition repeated_schedule : list action :=
  [Write "text"; ClaimBy "a"] ++ all_of "a" 4 ++ [Write "text"; ClaimBy "a"] ++ all_of "a" 4.
Definition next_lease : list action := [Wait 60001; ClaimBy "a"] ++ all_of "a" 4.

Definition workerResult (worker : string) (w : OutboxWorld) : option (list outboxErr) :=
  match w_workers w !! worker with Some (Done errs) => Some errs | _ => None end.

Theorem completion_conflict_repeats :
  ∃ w w', sample_reaches w ∧ acts next_lease w = Some w' ∧
    phaseOf <$> ob_rows (w_outbox w) = [Finished; Held "a" 60000 0] ∧
    phaseOf <$> ob_rows (w_outbox w') = [Finished; Held "a" 120001 0] ∧
    workerResult "a" w = Some [ErrDuplicate] ∧ workerResult "a" w' = Some [ErrDuplicate].
Proof.
  destruct (acts repeated_schedule emptyOutbox) as [w|] eqn:E; [|by vm_compute in E].
  destruct (acts next_lease w) as [w'|] eqn:E'.
  - exists w, w'. split; [by eapply acts_reach; [constructor|exact E]|]. split; [done|].
    vm_compute in E. injection E as <-. vm_compute in E'. injection E' as <-. by repeat split.
  - vm_compute in E. injection E as <-. by vm_compute in E'.
Qed.

(** ** Witnesses *)

Definition sample_world (l : list action) : OutboxWorld := default emptyOutbox (acts l emptyOutbox).

Lemma sample_world_reaches l : is_Some (acts l emptyOutbox) → sample_reaches (sample_world l).
Proof. intros [w E]. unfold sample_world. rewrite E. eapply acts_reach; [constructor|exact E]. Qed.

Lemma outbox_refines_lifecycle_witness :
  ∃ a w', sample_step a (sample_world [Write "old"]) w' ∧
    phaseOf <$> ob_rows (w_outbox w') = [Held "a" 60000 0] ∧
    table_step (w_now (sample_world [Write "old"])) a (w_outbox (sample_world [Write "old"])) (w_outbox w').
Proof.
  destruct (act (ClaimBy "a") (sample_world [Write "old"])) as [[a w']|] eqn:E; [|vm_compute in E; discriminate E].
  exists a, w'. split; [by apply act_step in E|]. split; [vm_compute in E; injection E as <- <-; reflexivity|].
  apply (outbox_refines_lifecycle sample_hash (λ _, 0) sample_parse 1 minute sample_resolve).
  - apply sample_world_reaches. by eexists.
  - by apply act_step in E.
Defined.

Lemma outbox_invariant_witness :
  table_ok (w_outbox (sample_world stale_schedule)) ∧ length (ob_rows (w_outbox (sample_world stale_schedule))) = 2%nat.
Proof.
  split; [|vm_compute; reflexivity].
  refine (proj1 (outbox_invariant sample_hash (λ _, 0) sample_parse 1 minute sample_resolve _ _)).
  apply sample_world_reaches. vm_compute. by eexists.
Defined.
