(* ===== verification/TurnStore.v ===== *)
(** The durable turns and runs of the agent: the rows of
    internal/domain/agent (entity.go, run.go, approval.go), the MySQL repositories
    that hand turns out under leases, settle them, cancel them and recover them
    (internal/infrastructure/mysql/agent_repo.go, run_repo.go) and the approval
    repository that pauses and resumes runs (approval_repo.go), with the unique keys
    of migrations/000001_agent_only_baseline.up.sql.

    A transaction is one function on the tables; an UPDATE counts the rows it
    matches; AUTO_INCREMENT gives the next larger id.  A Go pointer argument that a
    repository writes through is returned, so that what the caller holds after a
    failed transaction can be told from what was stored.  Times are integers
    (milliseconds); [created_at] and [updated_at] are left out. *)
From S2P Require Import Prelude GoStr Chat Goals.
Open Scope Z_scope.

(** ** Rows *)

Definition TurnStatusQueued : string := "queued".
Definition TurnStatusRunning : string := "running".
Definition TurnStatusWaitingHuman : string := "waiting_human".
Definition TurnStatusPaused : string := "paused".
Definition TurnStatusSucceeded : string := "succeeded".
Definition TurnStatusFailed : string := "failed".
Definition TurnStatusCancelled : string := "cancelled".
Definition TurnStatusRetryWait : string := "retry_wait".

Definition RunTypeTurn : string := "turn".
Definition RunTypeSubagent : string := "subagent".

Definition ApprovalStatusPending : string := "pending".
Definition ApprovalStatusApproved : string := "approved".
Definition ApprovalStatusRejected : string := "rejected".

Record Turn := mkTurnRow {
  Turn_ID : Z;
  Turn_OwnerID : Z;
  Turn_AgentID : Z;
  Turn_ConversationID : Z;
  Turn_RunID : option Z;
  Turn_UserMessageID : Z;
  Turn_AssistantMessageID : option Z;
  Turn_IdempotencyKey : string;
  Turn_Status : string;
  Turn_InputJSON : RawMessage;
  Turn_OutputJSON : RawMessage;
  Turn_ErrorMessage : string;
  Turn_AttemptCount : Z;
  Turn_MaxAttempts : Z;
  Turn_WorkerID : string;
  Turn_LeaseToken : string;
  Turn_LeaseExpiresAt : option Z;
  Turn_LastHeartbeatAt : option Z;
  Turn_RetryAt : option Z;
  Turn_StartedAt : option Z;
  Turn_FinishedAt : option Z
}.

Record Run := mkRunRow {
  Run_ID : Z;
  Run_OwnerID : Z;
  Run_AgentID : Z;
  Run_ConversationID : option Z;
  Run_WorkspaceID : option Z;
  Run_ParentRunID : option Z;
  Run_RunType : string;
  Run_DelegationDepth : Z;
  Run_DefinitionJSON : RawMessage;
  Run_DefinitionHash : string;
  Run_RuleHash : string;
  Run_Status : string;
  Run_InputJSON : RawMessage;
  Run_OutputJSON : RawMessage;
  Run_ErrorMessage : string;
  Run_TotalTokens : Z;
  Run_LatencyMS : Z;
  Run_StartedAt : Z;
  Run_FinishedAt : option Z
}.

Record ApprovalRequest := mkApprovalRow {
  Approval_ID : Z;
  Approval_OwnerID : Z;
  Approval_RunID : Z;
  Approval_ToolCallID : string;
  Approval_InteractionID : string;
  Approval_ToolName : string;
  Approval_RiskLevel : string;
  Approval_Reason : string;
  Approval_RequestJSON : RawMessage;
  Approval_Status : string;
  Approval_DecisionNote : string;
  Approval_DecidedAt : option Z
}.

Record RunCheckpoint := mkCheckpointRow {
  Checkpoint_ID : Z;
  Checkpoint_OwnerID : Z;
  Checkpoint_RunID : Z;
  Checkpoint_JSON : RawMessage
}.

Record RunStep := mkStepRow { Step_OwnerID : Z; Step_RunID : Z; Step_StepType : string }.

(** The columns of a message that the turns read and write. *)
Record Message := mkMessageRow {
  Message_ID : Z;
  Message_OwnerID : Z;
  Message_ConversationID : Z;
  Message_Role : string;
  Message_Content : string;
  Message_RunID : option Z;
  Message_TokenCount : Z;
  Message_ContentType : string
}.

(** Assignments to the fields of a row. *)
Definition Turn_setID (v : Z) (x : Turn) : Turn :=
  mkTurnRow v (Turn_OwnerID x) (Turn_AgentID x) (Turn_ConversationID x) (Turn_RunID x) (Turn_UserMessageID x)
    (Turn_AssistantMessageID x) (Turn_IdempotencyKey x) (Turn_Status x) (Turn_InputJSON x) (Turn_OutputJSON x)
    (Turn_ErrorMessage x) (Turn_AttemptCount x) (Turn_MaxAttempts x) (Turn_WorkerID x) (Turn_LeaseToken x)
    (Turn_LeaseExpiresAt x) (Turn_LastHeartbeatAt x) (Turn_RetryAt x) (Turn_StartedAt x) (Turn_FinishedAt x).
Definition Turn_setRunID (v : option Z) (x : Turn) : Turn :=
  mkTurnRow (Turn_ID x) (Turn_OwnerID x) (Turn_AgentID x) (Turn_ConversationID x) v (Turn_UserMessageID x)
    (Turn_AssistantMessageID x) (Turn_IdempotencyKey x) (Turn_Status x) (Turn_InputJSON x) (Turn_OutputJSON x)
    (Turn_ErrorMessage x) (Turn_AttemptCount x) (Turn_MaxAttempts x) (Turn_WorkerID x) (Turn_LeaseToken x)
    (Turn_LeaseExpiresAt x) (Turn_LastHeartbeatAt x) (Turn_RetryAt x) (Turn_StartedAt x) (Turn_FinishedAt x).
Definition Turn_setUserMessageID (v : Z) (x : Turn) : Turn :=
  mkTurnRow (Turn_ID x) (Turn_OwnerID x) (Turn_AgentID x) (Turn_ConversationID x) (Turn_RunID x) v
    (Turn_AssistantMessageID x) (Turn_IdempotencyKey x) (Turn_Status x) (Turn_InputJSON x) (Turn_OutputJSON x)
    (Turn_ErrorMessage x) (Turn_AttemptCount x) (Turn_MaxAttempts x) (Turn_WorkerID x) (Turn_LeaseToken x)
    (Turn_LeaseExpiresAt x) (Turn_LastHeartbeatAt x) (Turn_RetryAt x) (Turn_StartedAt x) (Turn_FinishedAt x).
Definition Turn_setAssistantMessageID (v : option Z) (x : Turn) : Turn :=
  mkTurnRow (Turn_ID x) (Turn_OwnerID x) (Turn_AgentID x) (Turn_ConversationID x) (Turn_RunID x)
    (Turn_UserMessageID x) v (Turn_IdempotencyKey x) (Turn_Status x) (Turn_InputJSON x) (Turn_OutputJSON x)
    (Turn_ErrorMessage x) (Turn_AttemptCount x) (Turn_MaxAttempts x) (Turn_WorkerID x) (Turn_LeaseToken x)
    (Turn_LeaseExpiresAt x) (Turn_LastHeartbeatAt x) (Turn_RetryAt x) (Turn_StartedAt x) (Turn_FinishedAt x).
Definition Turn_setStatus (v : string) (x : Turn) : Turn :=
  mkTurnRow (Turn_ID x) (Turn_OwnerID x) (Turn_AgentID x) (Turn_ConversationID x) (Turn_RunID x)
    (Turn_UserMessageID x) (Turn_AssistantMessageID x) (Turn_IdempotencyKey x) v (Turn_InputJSON x)
    (Turn_OutputJSON x) (Turn_ErrorMessage x) (Turn_AttemptCount x) (Turn_MaxAttempts x) (Turn_WorkerID x)
    (Turn_LeaseToken x) (Turn_LeaseExpiresAt x) (Turn_LastHeartbeatAt x) (Turn_RetryAt x) (Turn_StartedAt x)
    (Turn_FinishedAt x).
Definition Turn_setInputJSON (v : RawMessage) (x : Turn) : Turn :=
  mkTurnRow (Turn_ID x) (Turn_OwnerID x) (Turn_AgentID x) (Turn_ConversationID x) (Turn_RunID x)
    (Turn_UserMessageID x) (Turn_AssistantMessageID x) (Turn_IdempotencyKey x) (Turn_Status x) v
    (Turn_OutputJSON x) (Turn_ErrorMessage x) (Turn_AttemptCount x) (Turn_MaxAttempts x) (Turn_WorkerID x)
    (Turn_LeaseToken x) (Turn_LeaseExpiresAt x) (Turn_LastHeartbeatAt x) (Turn_RetryAt x) (Turn_StartedAt x)
    (Turn_FinishedAt x).
Definition Turn_setOutputJSON (v : RawMessage) (x : Turn) : Turn :=
  mkTurnRow (Turn_ID x) (Turn_OwnerID x) (Turn_AgentID x) (Turn_ConversationID x) (Turn_RunID x)
    (Turn_UserMessageID x) (Turn_AssistantMessageID x) (Turn_IdempotencyKey x) (Turn_Status x)
    (Turn_InputJSON x) v (Turn_ErrorMessage x) (Turn_AttemptCount x) (Turn_MaxAttempts x) (Turn_WorkerID x)
    (Turn_LeaseToken x) (Turn_LeaseExpiresAt x) (Turn_LastHeartbeatAt x) (Turn_RetryAt x) (Turn_StartedAt x)
    (Turn_FinishedAt x).
Definition Turn_setErrorMessage (v : string) (x : Turn) : Turn :=
  mkTurnRow (Turn_ID x) (Turn_OwnerID x) (Turn_AgentID x) (Turn_ConversationID x) (Turn_RunID x)
    (Turn_UserMessageID x) (Turn_AssistantMessageID x) (Turn_IdempotencyKey x) (Turn_Status x)
    (Turn_InputJSON x) (Turn_OutputJSON x) v (Turn_AttemptCount x) (Turn_MaxAttempts x) (Turn_WorkerID x)
    (Turn_LeaseToken x) (Turn_LeaseExpiresAt x) (Turn_LastHeartbeatAt x) (Turn_RetryAt x) (Turn_StartedAt x)
    (Turn_FinishedAt x).
Definition Turn_setAttemptCount (v : Z) (x : Turn) : Turn :=
  mkTurnRow (Turn_ID x) (Turn_OwnerID x) (Turn_AgentID x) (Turn_ConversationID x) (Turn_RunID x)
    (Turn_UserMessageID x) (Turn_AssistantMessageID x) (Turn_IdempotencyKey x) (Turn_Status x)
    (Turn_InputJSON x) (Turn_OutputJSON x) (Turn_ErrorMessage x) v (Turn_MaxAttempts x) (Turn_WorkerID x)
    (Turn_LeaseToken x) (Turn_LeaseExpiresAt x) (Turn_LastHeartbeatAt x) (Turn_RetryAt x) (Turn_StartedAt x)
    (Turn_FinishedAt x).
Definition Turn_setMaxAttempts (v : Z) (x : Turn) : Turn :=
  mkTurnRow (Turn_ID x) (Turn_OwnerID x) (Turn_AgentID x) (Turn_ConversationID x) (Turn_RunID x)
    (Turn_UserMessageID x) (Turn_AssistantMessageID x) (Turn_IdempotencyKey x) (Turn_Status x)
    (Turn_InputJSON x) (Turn_OutputJSON x) (Turn_ErrorMessage x) (Turn_AttemptCount x) v (Turn_WorkerID x)
    (Turn_LeaseToken x) (Turn_LeaseExpiresAt x) (Turn_LastHeartbeatAt x) (Turn_RetryAt x) (Turn_StartedAt x)
    (Turn_FinishedAt x).
Definition Turn_setWorkerID (v : string) (x : Turn) : Turn :=
  mkTurnRow (Turn_ID x) (Turn_OwnerID x) (Turn_AgentID x) (Turn_ConversationID x) (Turn_RunID x)
    (Turn_UserMessageID x) (Turn_AssistantMessageID x) (Turn_IdempotencyKey x) (Turn_Status x)
    (Turn_InputJSON x) (Turn_OutputJSON x) (Turn_ErrorMessage x) (Turn_AttemptCount x) (Turn_MaxAttempts x) v
    (Turn_LeaseToken x) (Turn_LeaseExpiresAt x) (Turn_LastHeartbeatAt x) (Turn_RetryAt x) (Turn_StartedAt x)
    (Turn_FinishedAt x).
Definition Turn_setLeaseToken (v : string) (x : Turn) : Turn :=
  mkTurnRow (Turn_ID x) (Turn_OwnerID x) (Turn_AgentID x) (Turn_ConversationID x) (Turn_RunID x)
    (Turn_UserMessageID x) (Turn_AssistantMessageID x) (Turn_IdempotencyKey x) (Turn_Status x)
    (Turn_InputJSON x) (Turn_OutputJSON x) (Turn_ErrorMessage x) (Turn_AttemptCount x) (Turn_MaxAttempts x)
    (Turn_WorkerID x) v (Turn_LeaseExpiresAt x) (Turn_LastHeartbeatAt x) (Turn_RetryAt x) (Turn_StartedAt x)
    (Turn_FinishedAt x).
Definition Turn_setLeaseExpiresAt (v : option Z) (x : Turn) : Turn :=
  mkTurnRow (Turn_ID x) (Turn_OwnerID x) (Turn_AgentID x) (Turn_ConversationID x) (Turn_RunID x)
    (Turn_UserMessageID x) (Turn_AssistantMessageID x) (Turn_IdempotencyKey x) (Turn_Status x)
    (Turn_InputJSON x) (Turn_OutputJSON x) (Turn_ErrorMessage x) (Turn_AttemptCount x) (Turn_MaxAttempts x)
    (Turn_WorkerID x) (Turn_LeaseToken x) v (Turn_LastHeartbeatAt x) (Turn_RetryAt x) (Turn_StartedAt x)
    (Turn_FinishedAt x).
Definition Turn_setLastHeartbeatAt (v : option Z) (x : Turn) : Turn :=
  mkTurnRow (Turn_ID x) (Turn_OwnerID x) (Turn_AgentID x) (Turn_ConversationID x) (Turn_RunID x)
    (Turn_UserMessageID x) (Turn_AssistantMessageID x) (Turn_IdempotencyKey x) (Turn_Status x)
    (Turn_InputJSON x) (Turn_OutputJSON x) (Turn_ErrorMessage x) (Turn_AttemptCount x) (Turn_MaxAttempts x)
    (Turn_WorkerID x) (Turn_LeaseToken x) (Turn_LeaseExpiresAt x) v (Turn_RetryAt x) (Turn_StartedAt x)
    (Turn_FinishedAt x).
Definition Turn_setRetryAt (v : option Z) (x : Turn) : Turn :=
  mkTurnRow (Turn_ID x) (Turn_OwnerID x) (Turn_AgentID x) (Turn_ConversationID x) (Turn_RunID x)
    (Turn_UserMessageID x) (Turn_AssistantMessageID x) (Turn_IdempotencyKey x) (Turn_Status x)
    (Turn_InputJSON x) (Turn_OutputJSON x) (Turn_ErrorMessage x) (Turn_AttemptCount x) (Turn_MaxAttempts x)
    (Turn_WorkerID x) (Turn_LeaseToken x) (Turn_LeaseExpiresAt x) (Turn_LastHeartbeatAt x) v (Turn_StartedAt x)
    (Turn_FinishedAt x).
Definition Turn_setStartedAt (v : option Z) (x : Turn) : Turn :=
  mkTurnRow (Turn_ID x) (Turn_OwnerID x) (Turn_AgentID x) (Turn_ConversationID x) (Turn_RunID x)
    (Turn_UserMessageID x) (Turn_AssistantMessageID x) (Turn_IdempotencyKey x) (Turn_Status x)
    (Turn_InputJSON x) (Turn_OutputJSON x) (Turn_ErrorMessage x) (Turn_AttemptCount x) (Turn_MaxAttempts x)
    (Turn_WorkerID x) (Turn_LeaseToken x) (Turn_LeaseExpiresAt x) (Turn_LastHeartbeatAt x) (Turn_RetryAt x) v
    (Turn_FinishedAt x).
Definition Turn_setFinishedAt (v : option Z) (x : Turn) : Turn :=
  mkTurnRow (Turn_ID x) (Turn_OwnerID x) (Turn_AgentID x) (Turn_ConversationID x) (Turn_RunID x)
    (Turn_UserMessageID x) (Turn_AssistantMessageID x) (Turn_IdempotencyKey x) (Turn_Status x)
    (Turn_InputJSON x) (Turn_OutputJSON x) (Turn_ErrorMessage x) (Turn_AttemptCount x) (Turn_MaxAttempts x)
    (Turn_WorkerID x) (Turn_LeaseToken x) (Turn_LeaseExpiresAt x) (Turn_LastHeartbeatAt x) (Turn_RetryAt x)
    (Turn_StartedAt x) v.
Definition Run_setID (v : Z) (x : Run) : Run :=
  mkRunRow v (Run_OwnerID x) (Run_AgentID x) (Run_ConversationID x) (Run_WorkspaceID x) (Run_ParentRunID x)
    (Run_RunType x) (Run_DelegationDepth x) (Run_DefinitionJSON x) (Run_DefinitionHash x) (Run_RuleHash x)
    (Run_Status x) (Run_InputJSON x) (Run_OutputJSON x) (Run_ErrorMessage x) (Run_TotalTokens x)
    (Run_LatencyMS x) (Run_StartedAt x) (Run_FinishedAt x).
Definition Run_setStatus (v : string) (x : Run) : Run :=
  mkRunRow (Run_ID x) (Run_OwnerID x) (Run_AgentID x) (Run_ConversationID x) (Run_WorkspaceID x)
    (Run_ParentRunID x) (Run_RunType x) (Run_DelegationDepth x) (Run_DefinitionJSON x) (Run_DefinitionHash x)
    (Run_RuleHash x) v (Run_InputJSON x) (Run_OutputJSON x) (Run_ErrorMessage x) (Run_TotalTokens x)
    (Run_LatencyMS x) (Run_StartedAt x) (Run_FinishedAt x).
Definition Run_setWorkspaceID (v : option Z) (x : Run) : Run :=
  mkRunRow (Run_ID x) (Run_OwnerID x) (Run_AgentID x) (Run_ConversationID x) v (Run_ParentRunID x)
    (Run_RunType x) (Run_DelegationDepth x) (Run_DefinitionJSON x) (Run_DefinitionHash x) (Run_RuleHash x)
    (Run_Status x) (Run_InputJSON x) (Run_OutputJSON x) (Run_ErrorMessage x) (Run_TotalTokens x)
    (Run_LatencyMS x) (Run_StartedAt x) (Run_FinishedAt x).
Definition Run_setOutputJSON (v : RawMessage) (x : Run) : Run :=
  mkRunRow (Run_ID x) (Run_OwnerID x) (Run_AgentID x) (Run_ConversationID x) (Run_WorkspaceID x)
    (Run_ParentRunID x) (Run_RunType x) (Run_DelegationDepth x) (Run_DefinitionJSON x) (Run_DefinitionHash x)
    (Run_RuleHash x) (Run_Status x) (Run_InputJSON x) v (Run_ErrorMessage x) (Run_TotalTokens x)
    (Run_LatencyMS x) (Run_StartedAt x) (Run_FinishedAt x).
Definition Run_setErrorMessage (v : string) (x : Run) : Run :=
  mkRunRow (Run_ID x) (Run_OwnerID x) (Run_AgentID x) (Run_ConversationID x) (Run_WorkspaceID x)
    (Run_ParentRunID x) (Run_RunType x) (Run_DelegationDepth x) (Run_DefinitionJSON x) (Run_DefinitionHash x)
    (Run_RuleHash x) (Run_Status x) (Run_InputJSON x) (Run_OutputJSON x) v (Run_TotalTokens x) (Run_LatencyMS x)
    (Run_StartedAt x) (Run_FinishedAt x).
Definition Run_setTotalTokens (v : Z) (x : Run) : Run :=
  mkRunRow (Run_ID x) (Run_OwnerID x) (Run_AgentID x) (Run_ConversationID x) (Run_WorkspaceID x)
    (Run_ParentRunID x) (Run_RunType x) (Run_DelegationDepth x) (Run_DefinitionJSON x) (Run_DefinitionHash x)
    (Run_RuleHash x) (Run_Status x) (Run_InputJSON x) (Run_OutputJSON x) (Run_ErrorMessage x) v
    (Run_LatencyMS x) (Run_StartedAt x) (Run_FinishedAt x).
Definition Run_setLatencyMS (v : Z) (x : Run) : Run :=
  mkRunRow (Run_ID x) (Run_OwnerID x) (Run_AgentID x) (Run_ConversationID x) (Run_WorkspaceID x)
    (Run_ParentRunID x) (Run_RunType x) (Run_DelegationDepth x) (Run_DefinitionJSON x) (Run_DefinitionHash x)
    (Run_RuleHash x) (Run_Status x) (Run_InputJSON x) (Run_OutputJSON x) (Run_ErrorMessage x)
    (Run_TotalTokens x) v (Run_StartedAt x) (Run_FinishedAt x).
Definition Run_setStartedAt (v : Z) (x : Run) : Run :=
  mkRunRow (Run_ID x) (Run_OwnerID x) (Run_AgentID x) (Run_ConversationID x) (Run_WorkspaceID x)
    (Run_ParentRunID x) (Run_RunType x) (Run_DelegationDepth x) (Run_DefinitionJSON x) (Run_DefinitionHash x)
    (Run_RuleHash x) (Run_Status x) (Run_InputJSON x) (Run_OutputJSON x) (Run_ErrorMessage x)
    (Run_TotalTokens x) (Run_LatencyMS x) v (Run_FinishedAt x).
Definition Run_setFinishedAt (v : option Z) (x : Run) : Run :=
  mkRunRow (Run_ID x) (Run_OwnerID x) (Run_AgentID x) (Run_ConversationID x) (Run_WorkspaceID x)
    (Run_ParentRunID x) (Run_RunType x) (Run_DelegationDepth x) (Run_DefinitionJSON x) (Run_DefinitionHash x)
    (Run_RuleHash x) (Run_Status x) (Run_InputJSON x) (Run_OutputJSON x) (Run_ErrorMessage x)
    (Run_TotalTokens x) (Run_LatencyMS x) (Run_StartedAt x) v.
Definition Approval_setID (v : Z) (x : ApprovalRequest) : ApprovalRequest :=
  mkApprovalRow v (Approval_OwnerID x) (Approval_RunID x) (Approval_ToolCallID x) (Approval_InteractionID x)
    (Approval_ToolName x) (Approval_RiskLevel x) (Approval_Reason x) (Approval_RequestJSON x)
    (Approval_Status x) (Approval_DecisionNote x) (Approval_DecidedAt x).
Definition Approval_setStatus (v : string) (x : ApprovalRequest) : ApprovalRequest :=
  mkApprovalRow (Approval_ID x) (Approval_OwnerID x) (Approval_RunID x) (Approval_ToolCallID x)
    (Approval_InteractionID x) (Approval_ToolName x) (Approval_RiskLevel x) (Approval_Reason x)
    (Approval_RequestJSON x) v (Approval_DecisionNote x) (Approval_DecidedAt x).
Definition Approval_setDecisionNote (v : string) (x : ApprovalRequest) : ApprovalRequest :=
  mkApprovalRow (Approval_ID x) (Approval_OwnerID x) (Approval_RunID x) (Approval_ToolCallID x)
    (Approval_InteractionID x) (Approval_ToolName x) (Approval_RiskLevel x) (Approval_Reason x)
    (Approval_RequestJSON x) (Approval_Status x) v (Approval_DecidedAt x).
Definition Approval_setDecidedAt (v : option Z) (x : ApprovalRequest) : ApprovalRequest :=
  mkApprovalRow (Approval_ID x) (Approval_OwnerID x) (Approval_RunID x) (Approval_ToolCallID x)
    (Approval_InteractionID x) (Approval_ToolName x) (Approval_RiskLevel x) (Approval_Reason x)
    (Approval_RequestJSON x) (Approval_Status x) (Approval_DecisionNote x) v.
Definition Message_setID (v : Z) (x : Message) : Message :=
  mkMessageRow v (Message_OwnerID x) (Message_ConversationID x) (Message_Role x) (Message_Content x)
    (Message_RunID x) (Message_TokenCount x) (Message_ContentType x).

Inductive RepoErr :=
| ErrRecordNotFound
| ErrInvalidData
| ErrDuplicateKey
| ErrLeaseLost
| ErrNoTurnAvailable
| ErrDB (msg : string).
#[export] Instance RepoErr_eq_dec : EqDecision RepoErr.
Proof. solve_decision. Defined.

Definition repoErrText (e : RepoErr) : string :=
  match e with
  | ErrRecordNotFound => "record not found"
  | ErrInvalidData => "unsupported data"
  | ErrDuplicateKey => "Duplicate entry"
  | ErrLeaseLost => "agent turn worker lease lost"
  | ErrNoTurnAvailable => "no agent turn available"
  | ErrDB msg => msg
  end.

(** ** Tables *)

(** The next AUTO_INCREMENT id of a table whose rows are never deleted. *)
Definition nextID {A} (m : gmap Z A) : Z := map_fold (λ k _ acc, Z.max k acc) 0 m + 1.

(** The rows that a WHERE clause selects, ordered by id. *)
Definition selectRows {A} (P : A → bool) (m : gmap Z A) : list A :=
  snd <$> sort_stable (λ x y, x.1 <? y.1) (filter (λ kv, P kv.2 = true) (map_to_list m)).

(** [Updates]: the rows that the clause matches are changed and counted. *)
Definition updateRows {A} (P : A → bool) (f : A → A) (m : gmap Z A) : gmap Z A * Z :=
  ((λ r, if P r then f r else r) <$> m, zlen (selectRows P m)).

Record DB := mkDB {
  db_turns : gmap Z Turn;
  db_runs : gmap Z Run;
  db_approvals : gmap Z ApprovalRequest;
  db_checkpoints : gmap Z RunCheckpoint;
  db_messages : gmap Z Message;
  db_steps : list RunStep;
  db_goals : GoalTable;
  db_deferrals : gset (Z * Z)
}.

Definition set_turns (m : gmap Z Turn) (d : DB) : DB :=
  mkDB m (db_runs d) (db_approvals d) (db_checkpoints d) (db_messages d) (db_steps d) (db_goals d) (db_deferrals d).
Definition set_runs (m : gmap Z Run) (d : DB) : DB :=
  mkDB (db_turns d) m (db_approvals d) (db_checkpoints d) (db_messages d) (db_steps d) (db_goals d) (db_deferrals d).
Definition set_approvals (m : gmap Z ApprovalRequest) (d : DB) : DB :=
  mkDB (db_turns d) (db_runs d) m (db_checkpoints d) (db_messages d) (db_steps d) (db_goals d) (db_deferrals d).
Definition set_checkpoints (m : gmap Z RunCheckpoint) (d : DB) : DB :=
  mkDB (db_turns d) (db_runs d) (db_approvals d) m (db_messages d) (db_steps d) (db_goals d) (db_deferrals d).
Definition set_messages (m : gmap Z Message) (d : DB) : DB :=
  mkDB (db_turns d) (db_runs d) (db_approvals d) (db_checkpoints d) m (db_steps d) (db_goals d) (db_deferrals d).
Definition set_steps (l : list RunStep) (d : DB) : DB :=
  mkDB (db_turns d) (db_runs d) (db_approvals d) (db_checkpoints d) (db_messages d) l (db_goals d) (db_deferrals d).

Definition emptyDB : DB := mkDB ∅ ∅ ∅ ∅ ∅ [] ∅ ∅.

(** [tx.Save]: every column of the row. *)
Definition saveTurn (t : Turn) (d : DB) : DB := set_turns (<[Turn_ID t := t]> (db_turns d)) d.
Definition saveRun (r : Run) (d : DB) : DB := set_runs (<[Run_ID r := r]> (db_runs d)) d.

(** When two texts are equal for the database.  The key columns have the collation
    utf8mb4_0900_ai_ci, which ignores case and accents, in comparisons as in unique keys. *)
Class Collation := {
  sameText : string → string → bool;
  sameText_equivalence : Equivalence (λ a b, sameText a b = true)
}.

Lemma sameText_refl `{Coll : !Collation} a : sameText a a = true.
Proof. apply (Equivalence_Reflexive (Equivalence := sameText_equivalence) a). Qed.
Lemma sameText_sym `{Coll : !Collation} a b : sameText a b = true → sameText b a = true.
Proof. apply (Equivalence_Symmetric (Equivalence := sameText_equivalence) a b). Qed.
Lemma sameText_trans `{Coll : !Collation} a b c : sameText a b = true → sameText b c = true → sameText a c = true.
Proof. apply (Equivalence_Transitive (Equivalence := sameText_equivalence) a b c). Qed.

(** [tx.Create] of a turn, with the unique keys [uk_agent_turn_run] and
    [uk_agent_turn_idempotency]. *)
Definition conflicts `{Coll : !Collation} (t u : Turn) : bool :=
  (match Turn_RunID t, Turn_RunID u with Some a, Some b => a =? b | _, _ => false end) ||
  ((Turn_OwnerID t =? Turn_OwnerID u) && (Turn_ConversationID t =? Turn_ConversationID u) &&
   sameText (Turn_IdempotencyKey t) (Turn_IdempotencyKey u)).

Definition createTurn `{Coll : !Collation} (t : Turn) (d : DB) : result RepoErr (DB * Turn) :=
  match selectRows (conflicts t) (db_turns d) with
  | [] => let t := Turn_setID (nextID (db_turns d)) t in Ok (saveTurn t d, t)
  | _ => Err ErrDuplicateKey
  end.
Definition createRun (r : Run) (d : DB) : DB * Run :=
  let r := Run_setID (nextID (db_runs d)) r in (saveRun r d, r).
Definition createMessage (m : Message) (d : DB) : DB * Message :=
  let m := Message_setID (nextID (db_messages d)) m in
  (set_messages (<[Message_ID m := m]> (db_messages d)) d, m).

Definition first {A} (l : list A) : result RepoErr A :=
  match l with [] => Err ErrRecordNotFound | a :: _ => Ok a end.

(** ** Runs *)

(** The owner of the row is a part of every lookup. *)
Definition runs_FindByID (ownerID id : Z) (d : DB) : result RepoErr Run :=
  match db_runs d !! id with
  | Some r => if Run_OwnerID r =? ownerID then Ok r else Err ErrRecordNotFound
  | None => Err ErrRecordNotFound
  end.

Definition runs_Create (now : Z) (item : Run) (d : DB) : DB * Run :=
  createRun (if Run_StartedAt item =? 0 then Run_setStartedAt now item else item) d.

Definition runs_ListByParent (ownerID parentRunID : Z) (d : DB) : list Run :=
  selectRows (λ r, (Run_OwnerID r =? ownerID) && bool_decide (Run_ParentRunID r = Some parentRunID)) (db_runs d).

Definition runs_Update (item : Run) (d : DB) : DB := saveRun item d.

Definition CancelActive (item : Run) (finishedAt : Z) (d : DB) : DB * Run * bool :=
  match db_runs d !! Run_ID item with
  | Some r =>
    if (Run_OwnerID r =? Run_OwnerID item) &&
       one_of (Run_Status r) [RunStatusQueued; RunStatusRunning; RunStatusResuming; RunStatusWaitingHuman; RunStatusPaused] then
      (saveRun (Run_setFinishedAt (Some finishedAt) (Run_setStatus RunStatusCancelled r)) d,
       Run_setFinishedAt (Some finishedAt) (Run_setStatus RunStatusCancelled item), true)
    else (d, item, false)
  | None => (d, item, false)
  end.

(** ** Turns *)

Definition turnDefaults (t : Turn) : Turn :=
  let t := if (Turn_Status t =? "")%string then Turn_setStatus TurnStatusQueued t else t in
  let t := if Turn_MaxAttempts t <=? 0 then Turn_setMaxAttempts 3 t else t in
  if (Turn_InputJSON t =? "")%string then Turn_setInputJSON "{}" t else t.

Definition turns_Create `{Coll : !Collation} (item : Turn) (d : DB) : result RepoErr (DB * Turn) := createTurn (turnDefaults item) d.

Open Scope go_scope.

Definition createTurnArtifacts `{Coll : !Collation} (now : Z) (item : Turn) (userMessage : Message) (run : Run) (d : DB)
    : result RepoErr (DB * Turn * Message * Run) :=
  let '(d, userMessage) := createMessage userMessage d in
  let run := if Run_StartedAt run =? 0 then Run_setStartedAt now run else run in
  let '(d, run) := createRun run d in
  let item := Turn_setUserMessageID (Message_ID userMessage) (Turn_setRunID (Some (Run_ID run)) item) in
  let! (d, item) := createTurn (turnDefaults item) d in
  Ok (d, item, userMessage, run).

(** The transaction of [CreateWithArtifacts]: nothing is stored when it fails. *)
Definition CreateWithArtifacts `{Coll : !Collation} (now : Z) (item : Turn) (userMessage : Message) (run : Run) (d : DB) : DB * option RepoErr :=
  match createTurnArtifacts now item userMessage run d with
  | Ok (d', _, _, _) => (d', None)
  | Err e => (d, Some e)
  end.

Definition activeInConversation (ownerID conversationID : Z) (r : Run) : bool :=
  (Run_OwnerID r =? ownerID) && bool_decide (Run_ConversationID r = Some conversationID) &&
  one_of (Run_Status r) [RunStatusQueued; RunStatusRunning; RunStatusResuming; RunStatusWaitingHuman; RunStatusPaused].

Definition CreateGoalContinuationWithArtifacts `{Coll : !Collation} (now : Z) (goalID : string) (item : Turn) (userMessage : Message) (run : Run) (d : DB)
    : DB * result RepoErr bool :=
  match Run_ConversationID run with
  | None => (d, Err ErrInvalidData)
  | Some conversation =>
    if (TrimSpace goalID =? "")%string then (d, Err ErrInvalidData)
    else match db_goals d !! (Run_OwnerID run, conversation) with
    | None => (d, Ok false)
    | Some current =>
      if negb (goal_GoalID current =? goalID)%string then (d, Ok false)
      else if negb (goal_Status current =? StatusActive)%string then (d, Ok false)
      else if bool_decide ((Run_OwnerID run, conversation) ∈ db_deferrals d) then (d, Ok false)
      else if 0 <? zlen (selectRows (activeInConversation (Run_OwnerID run) conversation) (db_runs d)) then (d, Ok false)
      else match createTurnArtifacts now item userMessage run d with
           | Ok (d', _, _, _) => (d', Ok true)
           | Err e => (d, Err e)
           end
    end
  end.

Definition clearTurnLease (t : Turn) : Turn :=
  Turn_setLastHeartbeatAt None (Turn_setLeaseExpiresAt None (Turn_setLeaseToken "" (Turn_setWorkerID "" t))).

Definition leaseProtected (item : Turn) : bool := negb (Turn_LeaseToken item =? "")%string.

(** The row that the settlement of [item] locks, and the run. *)
Definition ownedTurn (item : Turn) (d : DB) : bool :=
  match db_turns d !! Turn_ID item with
  | Some t => (Turn_OwnerID t =? Turn_OwnerID item) &&
              (negb (leaseProtected item) ||
               ((Turn_LeaseToken t =? Turn_LeaseToken item)%string && (Turn_Status t =? TurnStatusRunning)%string))
  | None => false
  end.
Definition ownedRun (statuses : list string) (run : Run) (d : DB) : bool :=
  match db_runs d !! Run_ID run with
  | Some r => (Run_OwnerID r =? Run_OwnerID run) && one_of (Run_Status r) statuses
  | None => false
  end.

(** The tables after the transaction, what [item] points to, and the error.
    [beforeSave] runs inside the transaction and writes through [item]. *)
Definition completeOwned (item : Turn) (run : Run) (beforeSave : Turn → DB → Turn * DB) (d : DB) : DB * Turn * option RepoErr :=
  let notFound := if leaseProtected item then ErrLeaseLost else ErrRecordNotFound in
  if negb (ownedTurn item d) then (d, item, Some notFound)
  else if leaseProtected item && negb (ownedRun [RunStatusQueued; RunStatusRunning; RunStatusResuming] run d) then (d, item, Some notFound)
  else let '(item, d) := beforeSave item d in
       (saveRun run (saveTurn item d), item, None).

Definition CompleteWithMessage (item : Turn) (assistantMessage : Message) (run : Run) (d : DB) : DB * Turn * option RepoErr :=
  completeOwned item run (λ item d,
    let '(d, m) := createMessage assistantMessage d in
    (clearTurnLease (Turn_setAssistantMessageID (Some (Message_ID m)) item), d)) d.

Definition UpdateRunOwned (item : Turn) (run : Run) (releaseLease : bool) (d : DB) : DB * Turn * option RepoErr :=
  completeOwned item run (λ item d, (if releaseLease then clearTurnLease item else item, d)) d.

Definition turns_FindByID (ownerID id : Z) (d : DB) : result RepoErr Turn :=
  match db_turns d !! id with
  | Some t => if Turn_OwnerID t =? ownerID then Ok t else Err ErrRecordNotFound
  | None => Err ErrRecordNotFound
  end.

Definition FindByIdempotencyKey `{Coll : !Collation} (ownerID conversationID : Z) (key : string) (d : DB) : result RepoErr Turn :=
  first (selectRows (λ t, (Turn_OwnerID t =? ownerID) && (Turn_ConversationID t =? conversationID) &&
    sameText (Turn_IdempotencyKey t) key) (db_turns d)).

Definition FindByRunID (ownerID runID : Z) (d : DB) : result RepoErr Turn :=
  first (selectRows (λ t, (Turn_OwnerID t =? ownerID) && bool_decide (Turn_RunID t = Some runID)) (db_turns d)).

Definition FindLatestByConversation (ownerID agentID conversationID : Z) (d : DB) : result RepoErr Turn :=
  first (reverse (selectRows (λ t, (Turn_OwnerID t =? ownerID) && (Turn_AgentID t =? agentID) &&
    (Turn_ConversationID t =? conversationID)) (db_turns d))).

Definition turns_Update (item : Turn) (d : DB) : DB * option RepoErr :=
  let matches := match db_turns d !! Turn_ID item with
                 | Some t => (Turn_OwnerID t =? Turn_OwnerID item) &&
                             (negb (leaseProtected item) || (Turn_LeaseToken t =? Turn_LeaseToken item)%string)
                 | None => false
                 end in
  if matches then (saveTurn item d, None)
  else (d, if leaseProtected item then Some ErrLeaseLost else None).

Definition cancelTurn (finishedAt : Z) (t : Turn) : Turn :=
  Turn_setRetryAt None (clearTurnLease (Turn_setFinishedAt (Some finishedAt) (Turn_setStatus TurnStatusCancelled t))).

Definition CancelByRun (ownerID runID finishedAt : Z) (d : DB) : DB * result RepoErr Turn :=
  let '(turns, affected) := updateRows (λ t, (Turn_OwnerID t =? ownerID) && bool_decide (Turn_RunID t = Some runID) &&
      one_of (Turn_Status t) [TurnStatusQueued; TurnStatusRunning; TurnStatusRetryWait; TurnStatusWaitingHuman; TurnStatusPaused])
    (cancelTurn finishedAt) (db_turns d) in
  let d := set_turns turns d in
  (d, if negb (affected =? 1) then Err ErrNoTurnAvailable else FindByRunID ownerID runID d).

Definition claimableTurn (now : Z) (t : Turn) : bool :=
  one_of (Turn_Status t) [TurnStatusQueued; TurnStatusRetryWait] &&
  (match Turn_RetryAt t with None => true | Some at_ => at_ <=? now end) &&
  (Turn_AttemptCount t <? Turn_MaxAttempts t).

Definition claimTurn (now : Z) (workerID leaseToken : string) (leaseUntil : Z) (t : Turn) : Turn :=
  Turn_setStartedAt (match Turn_StartedAt t with None => Some now | started => started end)
    (Turn_setAttemptCount (Turn_AttemptCount t + 1)
      (Turn_setRetryAt None
        (Turn_setLastHeartbeatAt (Some now)
          (Turn_setLeaseExpiresAt (Some leaseUntil)
            (Turn_setLeaseToken leaseToken
              (Turn_setWorkerID workerID (Turn_setStatus TurnStatusRunning t))))))).

Definition ClaimNext (now : Z) (workerID leaseToken : string) (leaseUntil : Z) (d : DB) : DB * result RepoErr Turn :=
  match selectRows (claimableTurn now) (db_turns d) with
  | [] => (d, Err ErrNoTurnAvailable)
  | t :: _ => let t := claimTurn now workerID leaseToken leaseUntil t in (saveTurn t d, Ok t)
  end.

Definition RenewLease (now turnID : Z) (leaseToken : string) (leaseUntil : Z) (d : DB) : DB * option RepoErr :=
  match db_turns d !! turnID with
  | Some t =>
    if (Turn_LeaseToken t =? leaseToken)%string && (Turn_Status t =? TurnStatusRunning)%string then
      (saveTurn (Turn_setLastHeartbeatAt (Some now) (Turn_setLeaseExpiresAt (Some leaseUntil) t)) d, None)
    else (d, Some ErrRecordNotFound)
  | None => (d, Some ErrRecordNotFound)
  end.

Definition expiredTurn (before : Z) (t : Turn) : bool :=
  (Turn_Status t =? TurnStatusRunning)%string && match Turn_LeaseExpiresAt t with Some at_ => at_ <? before | None => false end.

(** Ordered by the expiry of the lease; rows of one expiry by their id. *)
Definition ListExpiredRunning (before limit : Z) (d : DB) : list Turn :=
  let limit := if (limit <=? 0) || (1000 <? limit) then 100 else limit in
  take (Z.to_nat limit)
    (sort_stable (λ x y, default 0 (Turn_LeaseExpiresAt x) <? default 0 (Turn_LeaseExpiresAt y))
       (selectRows (expiredTurn before) (db_turns d))).

Definition RecoverExpired (now : Z) (item : Turn) (run : Run) (d : DB) : DB * Turn * option RepoErr :=
  if negb (leaseProtected item) then (d, item, Some ErrInvalidData)
  else match db_turns d !! Turn_ID item with
  | Some t =>
    if negb ((Turn_OwnerID t =? Turn_OwnerID item) && expiredTurn now t && (Turn_LeaseToken t =? Turn_LeaseToken item)%string) then
      (d, item, Some ErrLeaseLost)
    else if negb (ownedRun [RunStatusRunning; RunStatusResuming] run d) then (d, item, Some ErrLeaseLost)
    else let item := clearTurnLease item in (saveRun run (saveTurn item d), item, None)
  | None => (d, item, Some ErrLeaseLost)
  end.

(** ** Approvals and resumption *)

Definition createApproval (a : ApprovalRequest) (d : DB) : DB :=
  let a := if (Approval_Status a =? "")%string then Approval_setStatus ApprovalStatusPending a else a in
  let a := Approval_setID (nextID (db_approvals d)) a in
  set_approvals (<[Approval_ID a := a]> (db_approvals d)) d.
Definition createCheckpoint (c : RunCheckpoint) (d : DB) : DB :=
  let id := nextID (db_checkpoints d) in
  set_checkpoints (<[id := mkCheckpointRow id (Checkpoint_OwnerID c) (Checkpoint_RunID c) (Checkpoint_JSON c)]> (db_checkpoints d)) d.

Definition FindApprovalRequestByID (ownerID id : Z) (d : DB) : result RepoErr ApprovalRequest :=
  match db_approvals d !! id with
  | Some a => if Approval_OwnerID a =? ownerID then Ok a else Err ErrRecordNotFound
  | None => Err ErrRecordNotFound
  end.

Definition FindPendingApprovalByRun (ownerID runID : Z) (d : DB) : result RepoErr ApprovalRequest :=
  first (reverse (selectRows (λ a, (Approval_OwnerID a =? ownerID) && (Approval_RunID a =? runID) &&
    (Approval_Status a =? ApprovalStatusPending)%string) (db_approvals d))).

Definition ListApprovalRequests (ownerID : Z) (status : string) (d : DB) : list ApprovalRequest :=
  reverse (selectRows (λ a, (Approval_OwnerID a =? ownerID) &&
    ((status =? "")%string || (Approval_Status a =? status)%string)) (db_approvals d)).

Definition FindLatestCheckpointByRun (ownerID runID : Z) (d : DB) : result RepoErr RunCheckpoint :=
  first (reverse (selectRows (λ c, (Checkpoint_OwnerID c =? ownerID) && (Checkpoint_RunID c =? runID)) (db_checkpoints d))).

(** The row of a turn that is queued again, with the input of the resumption. *)
Definition resumeTurn (input : RawMessage) (t : Turn) : Turn :=
  clearTurnLease (Turn_setRetryAt None (Turn_setFinishedAt None (Turn_setErrorMessage ""
    (Turn_setInputJSON input (Turn_setStatus TurnStatusQueued t))))).

Definition subagentResumeTurn (run : Run) (input : RawMessage) : Turn :=
  mkTurnRow 0 (Run_OwnerID run) (Run_AgentID run) (default 0 (Run_ConversationID run)) (Some (Run_ID run)) 0 None
    ("subagent-resume-" ++ Itoa (Run_ID run)) TurnStatusQueued input "" "" 0 3 "" "" None None None None None.

Section Resume.
Context `{Coll : !Collation}.
(** [json.Valid]. *)
Context (json_Valid : RawMessage → bool).

Definition queueResumeTurn (run : Run) (input : RawMessage) (d : DB) : result RepoErr DB :=
  if (input =? "")%string || negb (json_Valid input) then Err ErrInvalidData
  else
    let '(turns, affected) := updateRows (λ t, (Turn_OwnerID t =? Run_OwnerID run) && bool_decide (Turn_RunID t = Some (Run_ID run)) &&
        one_of (Turn_Status t) [TurnStatusPaused; TurnStatusWaitingHuman]) (resumeTurn input) (db_turns d) in
    let d := set_turns turns d in
    if affected =? 1 then Ok d
    else if negb (Run_RunType run =? RunTypeSubagent)%string then Err ErrInvalidData
    else rmap fst (createTurn (subagentResumeTurn run input) d).

(** The part the two resumptions share: the run is locked, checked and marked,
    and its turn queued. *)
Definition claimRunForResume (ownerID runID : Z) (turnInput : RawMessage) (d : DB) : result RepoErr DB :=
  let! run := runs_FindByID ownerID runID d in
  if negb (one_of (Run_Status run) [RunStatusWaitingHuman; RunStatusPaused]) then Err ErrInvalidData
  else queueResumeTurn run turnInput (saveRun (Run_setStatus RunStatusResuming run) d).

Definition DecideApprovalAndClaimResume (item : ApprovalRequest) (turnInput : RawMessage) (d : DB) : DB * option RepoErr :=
  let tx :=
    let! current := FindApprovalRequestByID (Approval_OwnerID item) (Approval_ID item) d in
    if negb (Approval_Status current =? ApprovalStatusPending)%string || negb (Approval_RunID current =? Approval_RunID item) then Err ErrInvalidData
    else
      let! run := runs_FindByID (Approval_OwnerID item) (Approval_RunID item) d in
      if negb (one_of (Run_Status run) [RunStatusWaitingHuman; RunStatusPaused]) then Err ErrInvalidData
      else
        let decided := Approval_setDecidedAt (Approval_DecidedAt item)
          (Approval_setDecisionNote (Approval_DecisionNote item) (Approval_setStatus (Approval_Status item) current)) in
        let d := set_approvals (<[Approval_ID current := decided]> (db_approvals d)) d in
        queueResumeTurn run turnInput (saveRun (Run_setStatus RunStatusResuming run) d) in
  match tx with Ok d' => (d', None) | Err e => (d, Some e) end.

Definition ClaimResume (ownerID runID : Z) (turnInput : RawMessage) (d : DB) : DB * option RepoErr :=
  match claimRunForResume ownerID runID turnInput d with Ok d' => (d', None) | Err e => (d, Some e) end.
End Resume.

Definition SavePausedRun (turn : Turn) (run : Run) (approval : option ApprovalRequest) (checkpoint : RunCheckpoint) (d : DB)
    : DB * Turn * option RepoErr :=
  if negb (leaseProtected turn) then (d, turn, Some ErrInvalidData)
  else if negb (ownedTurn turn d) then (d, turn, Some ErrLeaseLost)
  else if negb (ownedRun [RunStatusRunning; RunStatusResuming] run d) then (d, turn, Some ErrLeaseLost)
  else
    let turn := clearTurnLease turn in
    let d := saveRun run (saveTurn turn d) in
    let d := match approval with Some a => createApproval a d | None => d end in
    (createCheckpoint checkpoint d, turn, None).

(** ** The table lemmas *)

Section tables.
Context {A : Type}.
Implicit Types m : gmap Z A.

Lemma nextID_above m k x : m !! k = Some x → k < nextID m.
Proof.
  unfold nextID. revert m k x.
  apply (map_fold_weak_ind (λ r m, ∀ k x, m !! k = Some x → k < r + 1)); [done|].
  intros i y m r Hi IH k x Hk. destruct (decide (i = k)) as [->|Hne]; [lia|].
  rewrite lookup_insert_ne in Hk by done. specialize (IH k x Hk). lia.
Qed.

Lemma nextID_fresh m : m !! nextID m = None.
Proof. destruct (m !! nextID m) eqn:Hm; [|done]. apply nextID_above in Hm. lia. Qed.

Lemma nextID_pos m : 0 < nextID m.
Proof. unfold nextID. apply (map_fold_weak_ind (λ r _, 0 < r + 1)); intros; lia. Qed.

Lemma elem_of_selectRows P m x : x ∈ selectRows P m ↔ ∃ k, m !! k = Some x ∧ P x = true.
Proof.
  unfold selectRows. rewrite list_elem_of_fmap. split.
  - intros ([k y] & -> & Hin). apply elem_of_sort_stable, list_elem_of_filter in Hin as [HP Hin].
    apply elem_of_map_to_list in Hin. eauto.
  - intros (k & Hk & HP). exists (k, x). split; [done|].
    apply elem_of_sort_stable, list_elem_of_filter. split; [done|]. by apply elem_of_map_to_list.
Qed.

Lemma selectRows_nil P m : selectRows P m = [] ↔ ∀ k x, m !! k = Some x → P x = false.
Proof.
  split.
  - intros Hnil k x Hk. destruct (P x) eqn:HP; [|done].
    assert (x ∈ selectRows P m) as Hin by (apply elem_of_selectRows; eauto). by rewrite Hnil in Hin; apply elem_of_nil in Hin.
  - intros Hall. destruct (selectRows P m) as [|x l] eqn:Hs; [done|].
    assert (x ∈ selectRows P m) as Hin by (rewrite Hs; apply elem_of_cons; auto).
    apply elem_of_selectRows in Hin as (k & Hk & HP). by rewrite (Hall k x Hk) in HP.
Qed.

Lemma selectRows_keys P m :
  ∃ kvs : list (Z * A), selectRows P m = snd <$> kvs ∧ StronglySorted (λ x y, x.1 < y.1) kvs ∧
    ∀ k x, (k, x) ∈ kvs ↔ m !! k = Some x ∧ P x = true.
Proof.
  set (l := filter (λ kv : Z * A, P kv.2 = true) (map_to_list m)).
  exists (sort_stable (λ x y, x.1 <? y.1) l). split; [done|].
  assert (∀ k x, (k, x) ∈ sort_stable (λ x y : Z * A, x.1 <? y.1) l ↔ m !! k = Some x ∧ P x = true) as Hin.
  { intros k x. rewrite elem_of_sort_stable. unfold l. rewrite list_elem_of_filter, elem_of_map_to_list. naive_solver. }
  split; [|done].
  assert (NoDup ((sort_stable (λ x y : Z * A, x.1 <? y.1) l).*1)) as Hnd.
  { rewrite sort_stable_perm. unfold l. eapply sublist_NoDup; [apply (NoDup_fst_map_to_list m)|].
    apply sublist_map, sublist_filter. }
  pose proof (sort_stable_sorted (λ x y : Z * A, x.1 <? y.1)
    ltac:(intros ??; rewrite Z.ltb_lt, Z.ltb_ge; lia) ltac:(intros ???; rewrite !Z.ltb_ge; lia) l) as Hs.
  revert Hnd Hs. generalize (sort_stable (λ x y : Z * A, x.1 <? y.1) l) as kvs. clear.
  induction kvs as [|[k x] kvs IH]; intros Hnd Hs; [constructor|].
  apply StronglySorted_inv in Hs as [Hs Hx]. apply NoDup_cons in Hnd as [Hk Hnd].
  constructor; [auto|]. apply Forall_forall. intros [k' x'] Hin. cbn.
  pose proof (proj1 (Forall_forall _ _) Hx _ Hin) as Hle. cbn in Hle. bool_prop.
  enough (k ≠ k') by lia. intros ->. apply Hk, list_elem_of_fmap. by exists (k', x').
Qed.

(** The first row is the one with the least id. *)
Lemma selectRows_first P m x l :
  selectRows P m = x :: l →
  ∃ k, m !! k = Some x ∧ P x = true ∧ ∀ k' x', m !! k' = Some x' → P x' = true → k ≤ k'.
Proof.
  destruct (selectRows_keys P m) as (kvs & -> & Hs & Hin). intros Heq.
  destruct kvs as [|[k y] kvs]; [done|]. injection Heq as -> <-.
  destruct (proj1 (Hin k x)) as [Hk HP]; [apply elem_of_cons; auto|].
  exists k. split_and!; [done..|]. intros k' x' Hk' HP'.
  apply StronglySorted_inv in Hs as [_ Hall].
  assert ((k', x') ∈ (k, x) :: kvs) as Hm by (by apply Hin).
  apply elem_of_cons in Hm as [[= -> ->]|Hm]; [done|].
  pose proof (proj1 (Forall_forall _ _) Hall _ Hm) as Hlt. cbn in Hlt. lia.
Qed.

Lemma lookup_updateRows P f m k : (updateRows P f m).1 !! k = (λ r, if P r then f r else r) <$> m !! k.
Proof. apply lookup_fmap. Qed.

(** At most one row is affected when the clause selects at most one id. *)
Lemma selectRows_unique P m :
  (∀ k k' x x', m !! k = Some x → m !! k' = Some x' → P x = true → P x' = true → k = k') →
  selectRows P m = [] ∨ ∃ k x, m !! k = Some x ∧ P x = true ∧ selectRows P m = [x].
Proof.
  intros Huniq. destruct (selectRows_keys P m) as (kvs & -> & Hs & Hin).
  destruct kvs as [|[k x] [|[k' x'] kvs]]; [by left|right|exfalso].
  - exists k, x. destruct (proj1 (Hin k x)) as [Hk HP]; [apply elem_of_cons; auto|]. done.
  - destruct (proj1 (Hin k x)) as [Hk HP]; [apply elem_of_cons; auto|].
    destruct (proj1 (Hin k' x')) as [Hk' HP']; [rewrite !elem_of_cons; auto|].
    pose proof (Huniq _ _ _ _ Hk Hk' HP HP') as ->.
    apply StronglySorted_inv in Hs as [_ Hall]. apply Forall_cons in Hall as [Hlt _]. cbn in Hlt. lia.
Qed.
End tables.

(** ** Settlement under a lease *)

(** The row of [item] is running under the token that [item] carries. *)
Definition holdsLease (item : Turn) (d : DB) : Prop :=
  ∃ t, db_turns d !! Turn_ID item = Some t ∧ Turn_OwnerID t = Turn_OwnerID item ∧
       Turn_LeaseToken t = Turn_LeaseToken item ∧ Turn_Status t = TurnStatusRunning.

Definition runIn (statuses : list string) (run : Run) (d : DB) : Prop :=
  ∃ r, db_runs d !! Run_ID run = Some r ∧ Run_OwnerID r = Run_OwnerID run ∧ Run_Status r ∈ statuses.

Lemma leaseProtected_true item : leaseProtected item = true ↔ Turn_LeaseToken item ≠ ""%string.
Proof. unfold leaseProtected. rewrite negb_true_iff. apply String.eqb_neq. Qed.

Lemma ownedTurn_protected item d : leaseProtected item = true → ownedTurn item d = true ↔ holdsLease item d.
Proof.
  unfold ownedTurn, holdsLease. intros ->. split.
  - destruct (db_turns d !! Turn_ID item) as [t|]; [|done]. cbn. intros H. bool_prop. eauto.
  - intros (t & -> & -> & -> & ->). by rewrite Z.eqb_refl, !String.eqb_refl.
Qed.

Lemma ownedRun_true statuses run d : ownedRun statuses run d = true ↔ runIn statuses run d.
Proof.
  unfold ownedRun, runIn. split.
  - destruct (db_runs d !! Run_ID run) as [r|]; [|done]. intros H. bool_prop. exists r. by rewrite <- one_of_true.
  - intros (r & -> & -> & Hr). apply one_of_true in Hr. by rewrite Z.eqb_refl, Hr.
Qed.

Definition settleableRun : list string := [RunStatusQueued; RunStatusRunning; RunStatusResuming].

(** A lease-protected transaction either finds the lease and the run and saves
    both rows, or changes nothing. *)
Lemma completeOwned_cases item run bs d d' item' err :
  leaseProtected item = true → completeOwned item run bs d = (d', item', err) →
  (err = None ∧ holdsLease item d ∧ runIn settleableRun run d ∧
   item' = (bs item d).1 ∧ d' = saveRun run (saveTurn item' (bs item d).2)) ∨
  (err = Some ErrLeaseLost ∧ d' = d ∧ item' = item ∧ (¬ holdsLease item d ∨ ¬ runIn settleableRun run d)).
Proof.
  intros Hp. unfold completeOwned. rewrite Hp. cbn.
  destruct (ownedTurn item d) eqn:Ht; cbn.
  - apply ownedTurn_protected in Ht; [|done].
    destruct (ownedRun _ run d) eqn:Hr; cbn.
    + apply ownedRun_true in Hr. destruct (bs item d) as [i x] eqn:Hb. cbn. intros [= <- <- <-]. left. eauto.
    + intros [= <- <- <-]. right. split_and!; [done..|]. right. rewrite <- ownedRun_true. unfold settleableRun. congruence.
  - intros [= <- <- <-]. right. split_and!; [done..|]. left. rewrite <- ownedTurn_protected by done. congruence.
Qed.

Lemma SavePausedRun_cases turn run approval checkpoint d d' turn' err :
  leaseProtected turn = true → SavePausedRun turn run approval checkpoint d = (d', turn', err) →
  (err = None ∧ holdsLease turn d ∧ runIn [RunStatusRunning; RunStatusResuming] run d ∧ turn' = clearTurnLease turn ∧
   db_turns d' = db_turns (saveTurn turn' d) ∧ db_runs d' = db_runs (saveRun run d) ∧ db_steps d' = db_steps d) ∨
  (err = Some ErrLeaseLost ∧ d' = d ∧ turn' = turn ∧ (¬ holdsLease turn d ∨ ¬ runIn [RunStatusRunning; RunStatusResuming] run d)).
Proof.
  intros Hp. unfold SavePausedRun. rewrite Hp. cbn.
  destruct (ownedTurn turn d) eqn:Ht; cbn.
  - apply ownedTurn_protected in Ht; [|done].
    destruct (ownedRun _ run d) eqn:Hr; cbn.
    + apply ownedRun_true in Hr. intros [= <- <- <-]. left. by destruct approval.
    + intros [= <- <- <-]. right. split_and!; [done..|]. right. rewrite <- ownedRun_true. congruence.
  - intros [= <- <- <-]. right. split_and!; [done..|]. left. rewrite <- ownedTurn_protected by done. congruence.
Qed.

Lemma RecoverExpired_cases now item run d d' item' err :
  leaseProtected item = true → RecoverExpired now item run d = (d', item', err) →
  (err = None ∧ holdsLease item d ∧ runIn [RunStatusRunning; RunStatusResuming] run d ∧ item' = clearTurnLease item ∧
   (∃ t at_, db_turns d !! Turn_ID item = Some t ∧ Turn_LeaseExpiresAt t = Some at_ ∧ at_ < now) ∧
   d' = saveRun run (saveTurn item' d)) ∨
  (err = Some ErrLeaseLost ∧ d' = d ∧ item' = item).
Proof.
  intros Hp. unfold RecoverExpired. rewrite Hp. cbn.
  destruct (db_turns d !! Turn_ID item) as [t|] eqn:Ht; [|intros [= <- <- <-]; auto].
  destruct (_ && _ && _) eqn:Hc; cbn; [|intros [= <- <- <-]; auto].
  destruct (ownedRun _ run d) eqn:Hr; cbn; [|intros [= <- <- <-]; auto].
  intros [= <- <- <-]. left. apply ownedRun_true in Hr. unfold expiredTurn in Hc. bool_prop.
  destruct (Turn_LeaseExpiresAt t) as [at_|] eqn:Hat; [|done]. bool_prop.
  split_and!; [done|by exists t|done..| |done]. eauto.
Qed.

Lemma turns_Update_cases item d d' err :
  leaseProtected item = true → turns_Update item d = (d', err) →
  (err = None ∧ d' = saveTurn item d ∧
   ∃ t, db_turns d !! Turn_ID item = Some t ∧ Turn_OwnerID t = Turn_OwnerID item ∧ Turn_LeaseToken t = Turn_LeaseToken item) ∨
  (err = Some ErrLeaseLost ∧ d' = d).
Proof.
  intros Hp. unfold turns_Update. rewrite Hp. cbn.
  destruct (db_turns d !! Turn_ID item) as [t|] eqn:Ht; [|intros [= <- <-]; auto].
  destruct (_ && _) eqn:Hc; intros [= <- <-]; [|auto]. left. bool_prop. split_and!; [done..|]. eauto.
Qed.

Lemma RenewLease_cases now id token until d d' err :
  RenewLease now id token until d = (d', err) →
  (err = None ∧ ∃ t, db_turns d !! id = Some t ∧ Turn_LeaseToken t = token ∧ Turn_Status t = TurnStatusRunning ∧
     d' = saveTurn (Turn_setLastHeartbeatAt (Some now) (Turn_setLeaseExpiresAt (Some until) t)) d) ∨
  (err = Some ErrRecordNotFound ∧ d' = d).
Proof.
  unfold RenewLease. destruct (db_turns d !! id) as [t|] eqn:Ht; [|intros [= <- <-]; auto].
  destruct (_ && _) eqn:Hc; intros [= <- <-]; [|auto]. left. bool_prop. split; [done|]. eauto.
Qed.

Lemma CancelActive_cases item fin d d' item' b :
  CancelActive item fin d = (d', item', b) →
  (b = true ∧ ∃ r, db_runs d !! Run_ID item = Some r ∧ Run_OwnerID r = Run_OwnerID item ∧ IsActiveRunStatus (Run_Status r) = true ∧
     d' = saveRun (Run_setFinishedAt (Some fin) (Run_setStatus RunStatusCancelled r)) d ∧
     item' = Run_setFinishedAt (Some fin) (Run_setStatus RunStatusCancelled item)) ∨
  (b = false ∧ d' = d ∧ item' = item).
Proof.
  unfold CancelActive. destruct (db_runs d !! Run_ID item) as [r|] eqn:Hr; [|intros [= <- <- <-]; auto].
  destruct (_ && _) eqn:Hc; intros [= <- <- <-]; [|auto]. left. bool_prop. split; [done|].
  exists r. split_and!; done.
Qed.

(** ** Claims *)

(** What [ClaimNext] does to the row it takes. *)
Record claimed (now : Z) (workerID token : string) (until : Z) (before after : Turn) : Prop := {
  claimed_status : Turn_Status after = TurnStatusRunning;
  claimed_token : Turn_LeaseToken after = token;
  claimed_worker : Turn_WorkerID after = workerID;
  claimed_until : Turn_LeaseExpiresAt after = Some until;
  claimed_retry : Turn_RetryAt after = None;
  claimed_attempt : Turn_AttemptCount after = Turn_AttemptCount before + 1;
  claimed_bounded : Turn_AttemptCount after ≤ Turn_MaxAttempts after;
  claimed_identity : (Turn_ID after, Turn_OwnerID after, Turn_RunID after, Turn_InputJSON after) =
                     (Turn_ID before, Turn_OwnerID before, Turn_RunID before, Turn_InputJSON before)
}.

Lemma claimTurn_claimed now w token until t :
  claimableTurn now t = true → claimed now w token until t (claimTurn now w token until t).
Proof. unfold claimableTurn. intros H. bool_prop. constructor; try done. cbn. lia. Qed.

Definition turnsKeyed (d : DB) : Prop := map_Forall (λ k t, Turn_ID t = k) (db_turns d).

Lemma ClaimNext_cases now w token until d d' r :
  turnsKeyed d → ClaimNext now w token until d = (d', r) →
  (r = Err ErrNoTurnAvailable ∧ d' = d ∧ ∀ k t, db_turns d !! k = Some t → claimableTurn now t = false) ∨
  ∃ t, db_turns d !! Turn_ID t = Some t ∧ claimableTurn now t = true ∧
    (∀ k u, db_turns d !! k = Some u → claimableTurn now u = true → Turn_ID t ≤ k) ∧
    r = Ok (claimTurn now w token until t) ∧ d' = saveTurn (claimTurn now w token until t) d.
Proof.
  intros Hk. unfold ClaimNext. destruct (selectRows _ _) as [|t l] eqn:Hs; intros [= <- <-].
  - left. split_and!; [done..|]. by apply selectRows_nil.
  - right. apply selectRows_first in Hs as (k & Ht & Hc & Hmin). pose proof (Hk _ _ Ht) as <-. eauto 8.
Qed.

(** A claim takes the least id among the turns that are queued or waiting for a
    retry that is due and have attempts left, puts it under the lease and counts the
    attempt, within the limit; no other row changes.  When there is no such turn it
    changes nothing and says so. *)
Theorem ClaimNext_spec now w token until d d' r :
  turnsKeyed d → ClaimNext now w token until d = (d', r) →
  match r with
  | Err e => e = ErrNoTurnAvailable ∧ d' = d ∧ ∀ k t, db_turns d !! k = Some t → claimableTurn now t = false
  | Ok t' => ∃ t, db_turns d !! Turn_ID t = Some t ∧ claimableTurn now t = true ∧ claimed now w token until t t' ∧
      (∀ k u, db_turns d !! k = Some u → claimableTurn now u = true → Turn_ID t ≤ k) ∧
      db_turns d' = <[Turn_ID t := t']> (db_turns d) ∧ db_runs d' = db_runs d
  end.
Proof.
  intros Hk Hc. apply ClaimNext_cases in Hc as [(-> & -> & Hn)|(t & Ht & Hcl & Hmin & -> & ->)]; [done| |done].
  exists t. split_and!; auto using claimTurn_claimed.
Qed.

(** ** Approvals *)

Section approvals.
Context `{Coll : !Collation}.
Context (json_Valid : RawMessage → bool).

(** The turn of a run is found by the unique key on [run_id]. *)
Definition runsUnique (d : DB) : Prop :=
  ∀ k k' t t' id, db_turns d !! k = Some t → db_turns d !! k' = Some t' →
    Turn_RunID t = Some id → Turn_RunID t' = Some id → k = k'.

Definition resumable (run : Run) (t : Turn) : bool :=
  (Turn_OwnerID t =? Run_OwnerID run) && bool_decide (Turn_RunID t = Some (Run_ID run)) &&
  one_of (Turn_Status t) [TurnStatusPaused; TurnStatusWaitingHuman].

(** Queueing the resumption of a run of type turn moves its one paused or waiting
    turn back to the queue. *)
Lemma queueResumeTurn_cases run input d d' :
  runsUnique d → Run_RunType run ≠ RunTypeSubagent → queueResumeTurn json_Valid run input d = Ok d' →
  ∃ k t, db_turns d !! k = Some t ∧ resumable run t = true ∧
    d' = set_turns (<[k := resumeTurn input t]> (db_turns d)) d.
Proof.
  intros Huniq Htype. unfold queueResumeTurn. destruct (_ || _); [done|].
  change (λ t : Turn, (Turn_OwnerID t =? Run_OwnerID run) && bool_decide (Turn_RunID t = Some (Run_ID run)) &&
    one_of (Turn_Status t) [TurnStatusPaused; TurnStatusWaitingHuman]) with (resumable run).
  assert (∀ k k' x x', db_turns d !! k = Some x → db_turns d !! k' = Some x' → resumable run x = true →
    resumable run x' = true → k = k') as Hone.
  { unfold resumable. intros k k' x x' Hx Hx' H H'. bool_prop. eauto. }
  unfold updateRows.
  destruct (selectRows_unique (resumable run) (db_turns d) Hone) as [->|(k & t & Ht & Hr & ->)]; cbn.
  - by destruct (String.eqb_spec (Run_RunType run) RunTypeSubagent).
  - intros [= <-]. exists k, t. split_and!; [done..|]. f_equal. apply map_eq. intros j. rewrite lookup_fmap.
    destruct (decide (j = k)) as [->|Hne]; [rewrite Ht, lookup_insert_eq; cbn; by rewrite Hr|].
    rewrite lookup_insert_ne by done. destruct (db_turns d !! j) as [u|] eqn:Hu; [|done]. cbn.
    destruct (resumable run u) eqn:Hru; [|done]. by rewrite (Hone _ _ _ _ Hu Ht Hru Hr) in Hne.
Qed.

(** What a resumption does to the run and to its turn. *)
Definition resumes (runID : Z) (input : RawMessage) (d d' : DB) : Prop :=
  ∃ run k t, db_runs d !! runID = Some run ∧ Run_ID run = runID ∧ Run_Status run ∈ [RunStatusWaitingHuman; RunStatusPaused] ∧
    db_turns d !! k = Some t ∧ resumable run t = true ∧
    db_runs d' = <[runID := Run_setStatus RunStatusResuming run]> (db_runs d) ∧
    db_turns d' = <[k := resumeTurn input t]> (db_turns d) ∧ db_steps d' = db_steps d.

(** The runs of turns, under their own id. *)
Definition turnRuns (d : DB) : Prop :=
  map_Forall (λ k r, Run_ID r = k ∧ Run_RunType r ≠ RunTypeSubagent) (db_runs d).

Lemma claimRunForResume_resumes owner id input d d' :
  runsUnique d → turnRuns d → claimRunForResume json_Valid owner id input d = Ok d' →
  resumes id input d d' ∧ db_approvals d' = db_approvals d ∧ db_checkpoints d' = db_checkpoints d.
Proof.
  intros Huniq Hruns. unfold claimRunForResume, runs_FindByID.
  destruct (db_runs d !! id) as [run|] eqn:Hrun; [|done].
  destruct (Hruns _ _ Hrun) as [Hid Htype].
  destruct (Run_OwnerID run =? owner); [|done]. cbn.
  destruct (one_of (Run_Status run) _) eqn:Hw; [|done]. apply one_of_true in Hw. cbn. intros Hq.
  apply queueResumeTurn_cases in Hq as (k & t & Ht & Hr & ->); [|done..].
  split; [|done]. exists run, k, t. cbn. by rewrite Hid.
Qed.

Lemma ClaimResume_cases owner id input d d' err :
  runsUnique d → turnRuns d → ClaimResume json_Valid owner id input d = (d', err) →
  (err = None ∧ resumes id input d d' ∧ db_approvals d' = db_approvals d ∧ db_checkpoints d' = db_checkpoints d) ∨
  (is_Some err ∧ d' = d).
Proof.
  intros Huniq Hruns. unfold ClaimResume. destruct (claimRunForResume _ _ _ _ _) as [d1|e] eqn:Hc; intros [= <- <-]; [left|eauto].
  apply claimRunForResume_resumes in Hc; naive_solver.
Qed.

(** The approval that a decision records. *)
Definition decides (item current : ApprovalRequest) : ApprovalRequest :=
  Approval_setDecidedAt (Approval_DecidedAt item)
    (Approval_setDecisionNote (Approval_DecisionNote item) (Approval_setStatus (Approval_Status item) current)).

Lemma DecideApproval_cases item input d d' err :
  runsUnique d → turnRuns d → DecideApprovalAndClaimResume json_Valid item input d = (d', err) →
  (err = None ∧ ∃ current, db_approvals d !! Approval_ID item = Some current ∧ Approval_Status current = ApprovalStatusPending ∧
     Approval_RunID current = Approval_RunID item ∧ resumes (Approval_RunID item) input d d' ∧
     db_approvals d' = <[Approval_ID current := decides item current]> (db_approvals d) ∧ db_checkpoints d' = db_checkpoints d) ∨
  (is_Some err ∧ d' = d).
Proof.
  intros Huniq Hruns. unfold DecideApprovalAndClaimResume.
  destruct (FindApprovalRequestByID _ _ d) as [current|e] eqn:Hf; cbn; [|intros [= <- <-]; eauto].
  unfold FindApprovalRequestByID in Hf. destruct (db_approvals d !! Approval_ID item) as [a|] eqn:Ha; [|done].
  destruct (Approval_OwnerID a =? _); [|done]. injection Hf as ->.
  destruct (negb _ || negb _) eqn:Hg; [intros [= <- <-]; eauto|]. bool_prop.
  set (d1 := set_approvals (<[Approval_ID current := decides item current]> (db_approvals d)) d).
  assert (claimRunForResume json_Valid (Approval_OwnerID item) (Approval_RunID item) input d1 =
    (let! run := runs_FindByID (Approval_OwnerID item) (Approval_RunID item) d in
     if negb (one_of (Run_Status run) [RunStatusWaitingHuman; RunStatusPaused]) then Err ErrInvalidData
     else queueResumeTurn json_Valid run input (saveRun (Run_setStatus RunStatusResuming run) d1))) as Heq by done.
  fold (decides item current). fold d1. rewrite <- Heq.
  destruct (claimRunForResume _ _ _ _ d1) as [d2|e] eqn:Hc; intros [= <- <-]; [|right; eauto].
  left. split; [done|]. exists current.
  apply claimRunForResume_resumes in Hc as (Hr & Hap & Hck); [|done..]. split_and!; done.
Qed.

(** A decision on an approval is taken at most once and all or nothing: it
    succeeds only on a pending approval of a run that waits, and then the approval is
    decided, the run is resuming and its turn is back in the queue, all at once;
    after that no decision on the same approval succeeds, and a decision that fails
    changes nothing. *)
Theorem approval_decided_once item input d d' err :
  runsUnique d → turnRuns d → Approval_Status item ≠ ApprovalStatusPending →
  map_Forall (λ k a, Approval_ID a = k) (db_approvals d) →
  DecideApprovalAndClaimResume json_Valid item input d = (d', err) →
  match err with
  | Some _ => d' = d
  | None =>
      (∃ current, db_approvals d !! Approval_ID item = Some current ∧ Approval_Status current = ApprovalStatusPending ∧
         db_approvals d' !! Approval_ID item = Some (decides item current)) ∧
      resumes (Approval_RunID item) input d d' ∧
      ∀ again input', Approval_ID again = Approval_ID item →
        ∃ e, DecideApprovalAndClaimResume json_Valid again input' d' = (d', Some e)
  end.
Proof.
  intros Huniq Hruns Hst Hids Hd.
  apply DecideApproval_cases in Hd as [(-> & current & Hcur & Hpend & Hrun & Hres & Hap & Hck)|([e ->] & ->)]; [|done..].
  pose proof (Hids _ _ Hcur) as Hid. cbn in Hid.
  assert (db_approvals d' !! Approval_ID item = Some (decides item current)) as Hnow
    by (rewrite Hap, Hid; apply lookup_insert_eq).
  split_and!; [eauto|done|]. intros again input' Hag.
  unfold DecideApprovalAndClaimResume, FindApprovalRequestByID. rewrite Hag, Hnow.
  destruct (Approval_OwnerID (decides item current) =? _); cbn; [|eauto].
  destruct (String.eqb_spec (Approval_Status item) ApprovalStatusPending); [done|]. cbn. eauto.
Qed.
End approvals.

(** ** Continuations of a goal *)

Lemma selectRows_count_pos {A} (P : A → bool) (m : gmap Z A) :
  (0 <? zlen (selectRows P m)) = false ↔ selectRows P m = [].
Proof.
  unfold zlen. destruct (selectRows P m); cbn; [done|]. split; [|done]. intros H. bool_prop. lia.
Qed.

Lemma createTurn_runs `{Coll : !Collation} t d d' t' : createTurn t d = Ok (d', t') → db_runs d' = db_runs d ∧ db_goals d' = db_goals d ∧ db_deferrals d' = db_deferrals d.
Proof. unfold createTurn. destruct (selectRows _ _); [|done]. by intros [= <- <-]. Qed.

Lemma createTurnArtifacts_run `{Coll : !Collation} now item msg run d d' t m r :
  createTurnArtifacts now item msg run d = Ok (d', t, m, r) →
  Run_ID r = nextID (db_runs d) ∧ Run_Status r = Run_Status run ∧ Run_OwnerID r = Run_OwnerID run ∧
  Run_ConversationID r = Run_ConversationID run ∧ Turn_RunID t = Some (Run_ID r) ∧
  db_runs d' = <[Run_ID r := r]> (db_runs d) ∧ db_goals d' = db_goals d ∧ db_deferrals d' = db_deferrals d.
Proof.
  unfold createTurnArtifacts, createMessage, createRun. cbn zeta beta iota.
  set (run' := if _ =? 0 then _ else _).
  assert (Run_Status run' = Run_Status run ∧ Run_OwnerID run' = Run_OwnerID run ∧
    Run_ConversationID run' = Run_ConversationID run) as (Hst & How & Hcv) by (subst run'; by destruct (_ =? 0)).
  clearbody run'.
  set (item' := turnDefaults _). assert (Turn_RunID item' = Some (nextID (db_runs d))) as Hid.
  { subst item'. unfold turnDefaults.
    repeat match goal with |- context [if ?b then _ else _] => destruct b end; done. }
  clearbody item'. destruct (createTurn item' _) as [[d1 t1]|e] eqn:Hc; cbn; [|done]. intros [= <- <- <- <-].
  pose proof (createTurn_runs _ _ _ _ Hc) as (Hr & Hg & Hd). cbn in Hr, Hg, Hd.
  unfold createTurn in Hc. destruct (selectRows _ _); [|done]. injection Hc as <- <-. split_and!; done.
Qed.

(** A continuation of a goal is created only while the goal is active, not
    deferred and the conversation has no active run, and then it is the only active
    run of the conversation; a second continuation, whoever asks for it, is not
    created. *)
Theorem continuation_single_shot `{Coll : !Collation} now goalID item msg run conversation d d' :
  Run_ConversationID run = Some conversation → Run_Status run = RunStatusQueued →
  CreateGoalContinuationWithArtifacts now goalID item msg run d = (d', Ok true) →
  (∃ g, db_goals d !! (Run_OwnerID run, conversation) = Some g ∧ goal_GoalID g = goalID ∧ goal_Status g = StatusActive) ∧
  (Run_OwnerID run, conversation) ∉ db_deferrals d ∧
  selectRows (activeInConversation (Run_OwnerID run) conversation) (db_runs d) = [] ∧
  (∃ r, selectRows (activeInConversation (Run_OwnerID run) conversation) (db_runs d') = [r]) ∧
  ∀ now' item' msg' run', Run_OwnerID run' = Run_OwnerID run → Run_ConversationID run' = Some conversation →
    CreateGoalContinuationWithArtifacts now' goalID item' msg' run' d' = (d', Ok false).
Proof.
  intros Hconv Hst. unfold CreateGoalContinuationWithArtifacts at 1. rewrite Hconv.
  destruct (TrimSpace goalID =? "")%string eqn:Hblank; [done|].
  destruct (db_goals d !! _) as [g|] eqn:Hg; [|done].
  destruct (negb (goal_GoalID g =? goalID)%string) eqn:Hgid; [done|].
  destruct (negb (goal_Status g =? StatusActive)%string) eqn:Hgst; [done|].
  case_bool_decide as Hdef; [done|].
  destruct (0 <? zlen _) eqn:Hact; [done|]. apply selectRows_count_pos in Hact.
  destruct (createTurnArtifacts _ _ _ _ _) as [[[[d1 t] m] r]|e] eqn:Hc; [|done]. intros [= <-].
  apply createTurnArtifacts_run in Hc as (Hid & Hrst & Hrow & Hrcv & _ & Hruns & Hgoals & Hdefs).
  assert (activeInConversation (Run_OwnerID run) conversation r = true) as Hr.
  { unfold activeInConversation. by rewrite Hrow, Hrcv, Hrst, Hconv, Hst, Z.eqb_refl, bool_decide_true. }
  assert (∃ r, selectRows (activeInConversation (Run_OwnerID run) conversation) (db_runs d1) = [r]) as Hone.
  { rewrite Hruns. destruct (selectRows_unique (activeInConversation (Run_OwnerID run) conversation)
      (<[Run_ID r := r]> (db_runs d))) as [Hnil|(k & x & _ & _ & ->)]; [| |by exists x].
    - intros k k' x x' Hx Hx' HP HP'. pose proof (proj1 (selectRows_nil _ _) Hact) as Hnone.
      rewrite lookup_insert_Some in Hx, Hx'. destruct Hx as [[<- _]|[_ Hx]], Hx' as [[<- _]|[_ Hx']]; [done|..].
      + by rewrite (Hnone _ _ Hx') in HP'.
      + by rewrite (Hnone _ _ Hx) in HP.
      + by rewrite (Hnone _ _ Hx) in HP.
    - pose proof (proj1 (selectRows_nil _ _) Hnil (Run_ID r) r (lookup_insert_eq _ _ _)) as Hf. congruence. }
  split_and!; [bool_prop; by eauto|done|done|done|].
  intros now' item' msg' run' How Hcv. unfold CreateGoalContinuationWithArtifacts. rewrite Hcv, Hblank, How, Hgoals, Hg.
  destruct (negb _); [done|]. destruct (negb _); [done|]. rewrite Hdefs, bool_decide_false by done.
  destruct Hone as [x ->]. done.
Qed.

(** ** Attempts across resumptions *)

(** Resuming does not give attempts back: once a turn has used them all, a
    successful resumption leaves its run resuming with a queued turn that no claim
    takes, at any time. *)
Theorem resume_of_exhausted_turn_stalls `{Coll : !Collation} json_Valid owner id input d d' :
  runsUnique d → turnRuns d →
  (∀ k t, db_turns d !! k = Some t → Turn_RunID t = Some id → Turn_MaxAttempts t ≤ Turn_AttemptCount t) →
  ClaimResume json_Valid owner id input d = (d', None) →
  ∃ run k t, db_runs d' !! id = Some run ∧ Run_Status run = RunStatusResuming ∧
    db_turns d' !! k = Some t ∧ Turn_RunID t = Some id ∧ Turn_Status t = TurnStatusQueued ∧
    ∀ now, claimableTurn now t = false.
Proof.
  intros Huniq Hruns Hused Hc. apply ClaimResume_cases in Hc as [(_ & Hres & _)|([e [=]] & _)]; [|done..].
  destruct Hres as (run & k & t & Hrun & Hid & _ & Ht & Hr & Hruns' & Hturns' & _).
  unfold resumable in Hr. bool_prop.
  exists (Run_setStatus RunStatusResuming run), k, (resumeTurn input t).
  rewrite Hruns', Hturns', !lookup_insert_eq. split_and!; [done..|cbn; congruence|done|].
  intros now. unfold claimableTurn. cbn. rewrite andb_false_iff. right. apply Z.ltb_ge. apply (Hused k); congruence.
Qed.

(** ** Samples *)

(** A collation that ignores the case of ASCII letters. *)
Definition lowerByte (c : Ascii.ascii) : Ascii.ascii := if (65 <=? byte_val c) && (byte_val c <=? 90) then byte_of (byte_val c + 32) else c.
Definition lowerText (s : string) : string := of_bytes (lowerByte <$> bytes s).
Definition AsciiCollation : Collation.
Proof.
  refine {| sameText := λ a b, (lowerText a =? lowerText b)%string |}.
  split; intros a *; rewrite ?String.eqb_eq; congruence.
Defined.
#[local] Existing Instance AsciiCollation.

Definition demo_turn (status token : string) (attempts : Z) : Turn :=
  mkTurnRow 5 1 2 3 (Some 7) 11 None "key" status "{}" "" "" attempts 3 "" token None None None None None.
Definition demo_runRow (status : string) : Run :=
  mkRunRow 7 1 2 (Some 3) None None RunTypeTurn 0 "{}" "h" "" status "{}" "" "" 0 0 100 None.
Definition demo_approval : ApprovalRequest := mkApprovalRow 4 1 7 "call" "" "tool" "high" "" "" ApprovalStatusPending "" None.
Definition demo_db (turn run : string) (attempts : Z) : DB :=
  mkDB {[ 5 := demo_turn turn "" attempts ]} {[ 7 := demo_runRow run ]} {[ 4 := demo_approval ]} ∅ ∅ []
    {[ (1, 3) := mkThreadGoal 1 3 "g-1" "ship it" StatusActive None 0 0 ]} ∅.

Lemma demo_runsUnique turn run n : runsUnique (demo_db turn run n).
Proof. intros k k' t t' id Hk Hk'. cbn in Hk, Hk'. apply lookup_singleton_Some in Hk as [<- _], Hk' as [<- _]. done. Qed.
Lemma demo_turnRuns turn run n : turnRuns (demo_db turn run n).
Proof. intros k r Hk. cbn in Hk. apply lookup_singleton_Some in Hk as [<- <-]. done. Qed.
Lemma demo_turnsKeyed turn run n : turnsKeyed (demo_db turn run n).
Proof. intros k t Hk. cbn in Hk. apply lookup_singleton_Some in Hk as [<- <-]. done. Qed.

Lemma ClaimNext_spec_witness :
  ∃ t t', db_turns (demo_db TurnStatusQueued RunStatusQueued 0) !! Turn_ID t = Some t ∧ Turn_Status t' = TurnStatusRunning ∧
    Turn_AttemptCount t' = 1 ∧ claimed 200 "w" "tok" 300 t t'.
Proof.
  pose proof (ClaimNext_spec 200 "w" "tok" 300 (demo_db TurnStatusQueued RunStatusQueued 0)
    (ClaimNext 200 "w" "tok" 300 (demo_db TurnStatusQueued RunStatusQueued 0)).1
    (ClaimNext 200 "w" "tok" 300 (demo_db TurnStatusQueued RunStatusQueued 0)).2 (demo_turnsKeyed _ _ _) (surjective_pairing _)) as H.
  assert ((ClaimNext 200 "w" "tok" 300 (demo_db TurnStatusQueued RunStatusQueued 0)).2 =
    Ok (claimTurn 200 "w" "tok" 300 (demo_turn TurnStatusQueued "" 0))) as Heq by (vm_compute; reflexivity).
  rewrite Heq in H. destruct H as (t & Ht & _ & Hcl & _). eexists _, _. split; [exact Ht|]. split_and!; [..|exact Hcl]; reflexivity.
Defined.

Definition demo_decision : ApprovalRequest := mkApprovalRow 4 1 7 "call" "" "tool" "high" "" "" ApprovalStatusApproved "yes" (Some 150).

Lemma approval_decided_once_witness :
  let d := demo_db TurnStatusWaitingHuman RunStatusWaitingHuman 1 in
  ∃ d', DecideApprovalAndClaimResume (λ _, true) demo_decision "{}" d = (d', None) ∧ resumes 7 "{}" d d' ∧
    ∃ e, DecideApprovalAndClaimResume (λ _, true) demo_decision "{}" d' = (d', Some e).
Proof.
  intros d.
  assert (∃ d', DecideApprovalAndClaimResume (λ _, true) demo_decision "{}" d = (d', None)) as [d' Heq]
    by (eexists; vm_compute; reflexivity).
  exists d'. split; [exact Heq|].
  destruct (approval_decided_once (λ _, true) demo_decision "{}" d d' None (demo_runsUnique _ _ _) (demo_turnRuns _ _ _))
    as (_ & Hres & Hagain); [done| |exact Heq|].
  - intros k a Hk. cbn in Hk. apply lookup_singleton_Some in Hk as [<- <-]. done.
  - split; [exact Hres|]. by apply Hagain.
Defined.

Definition demo_continuation : Turn :=
  mkTurnRow 0 1 2 3 None 0 None "goal-1" TurnStatusQueued "{}" "" "" 0 0 "" "" None None None None None.
Definition demo_message : Message := mkMessageRow 0 1 3 RoleDeveloper "go on" None 0 ContentTypeText.
Definition demo_newRun : Run := Run_setID 0 (demo_runRow RunStatusQueued).

Lemma continuation_single_shot_witness :
  let d := demo_db TurnStatusSucceeded RunStatusSucceeded 1 in
  ∃ d', CreateGoalContinuationWithArtifacts 200 "g-1" demo_continuation demo_message demo_newRun d = (d', Ok true) ∧
    CreateGoalContinuationWithArtifacts 201 "g-1" demo_continuation demo_message demo_newRun d' = (d', Ok false).
Proof.
  intros d.
  assert (∃ d', CreateGoalContinuationWithArtifacts 200 "g-1" demo_continuation demo_message demo_newRun d = (d', Ok true))
    as [d' Heq] by (eexists; vm_compute; reflexivity).
  exists d'. split; [exact Heq|].
  destruct (continuation_single_shot 200 "g-1" demo_continuation demo_message demo_newRun 3 d d' eq_refl eq_refl Heq)
    as (_ & _ & _ & _ & Hagain). by apply Hagain.
Defined.

Lemma resume_of_exhausted_turn_stalls_witness :
  let d := demo_db TurnStatusPaused RunStatusPaused 3 in
  ∃ d' t, ClaimResume (λ _, true) 1 7 "{}" d = (d', None) ∧ Turn_Status t = TurnStatusQueued ∧ ∀ now, claimableTurn now t = false.
Proof.
  intros d. assert (∃ d', ClaimResume (λ _, true) 1 7 "{}" d = (d', None)) as [d' Heq] by (eexists; vm_compute; reflexivity).
  destruct (resume_of_exhausted_turn_stalls (λ _, true) 1 7 "{}" d d' (demo_runsUnique _ _ _) (demo_turnRuns _ _ _)) as
    (run & k & t & _ & _ & _ & _ & Hst & Hno); [|exact Heq|eauto].
  intros k t Hk _. cbn in Hk. apply lookup_singleton_Some in Hk as [<- <-]. done.
Defined.
