(* ===== verification/TurnWorker.v ===== *)
(** The turn worker of internal/application/agent_usecase: executing a claimed turn,
    resuming a paused run, retrying, failing and completing it
    (turn_worker.go, run_control.go), recovering turns whose lease expired,
    cancelling a run with its children, deciding approvals, and running subagents
    (subagent.go).

    A handler is a program: a tree of calls to the database ([TurnStore]), to the
    clock and to the rest of the service (the agent runtime, workspaces,
    conversations, goals, events), with what follows each answer.  A call to the
    database is one transaction, so other programs may take their steps between two
    calls.  The Go pointers [turn] and [run] that a handler writes through are
    results of its program.  Logging is left out. *)
From S2P Require Import Prelude GoStr Chat Json Tools Rules Hooks Runner Loop Goals TurnStore.
Open Scope Z_scope.

(** An [error]: its text, and [errors.Is(err, llm.ErrRateLimited)]. *)
Record Cause := mkCause { cause_Error : string; cause_RateLimited : bool }.

Definition newError (text : string) : Cause := mkCause text false.
Definition repoCause (e : RepoErr) : Cause := newError (repoErrText e).
Definition wrapError (text : string) (c : Cause) : Cause := mkCause (text ++ ": " ++ cause_Error c)%string (cause_RateLimited c).
Definition joinErrors (a b : Cause) : Cause :=
  mkCause (cause_Error a ++ of_bytes [byte_of 10] ++ cause_Error b)%string (cause_RateLimited a || cause_RateLimited b).

(** The entries of the output map of the agent runtime that the worker reads.
    [out_JSON] is the encoded map; the entries [approval] and [checkpoint] are given
    when they decode. *)
Record ApprovalEntry := mkApprovalEntry {
  entry_ToolCallID : string;
  entry_ToolName : string;
  entry_RiskLevel : string;
  entry_Reason : string;
  entry_JSON : RawMessage
}.
Record CheckpointEntry := mkCheckpointEntry { entry_InteractionID : string; entry_CheckpointJSON : RawMessage }.
Record RuntimeOutput := mkRuntimeOutput {
  out_stop_reason : string;
  out_error : string;
  out_final_answer : string;
  out_total_tokens : option Z;
  out_assistant_message_id : Z;
  out_approval : option ApprovalEntry;
  out_checkpoint : option CheckpointEntry;
  out_JSON : RawMessage
}.

(** What the handlers ask of the rest of the service besides their own tables. *)
Inductive SideEffect :=
| PublishRunSnapshot (run : Run) (turn : option Turn)
| PublishApprovalRequired (run : Run) (approval : ApprovalRequest)
| WorkspaceEvent (type : string) (runID : Z)
| RefreshWorkspace (runID : Z)
| ReleaseWorkspaceLock (runID : Z)
| AccountGoalRun (runID : Z)
| ClearGoalUsage (runID : Z)
| ClearSteering (runID : Z)
| MarkGoalStatus (runID : Z) (status : string)
| EnqueueTurnReview (turnID : Z)
| IndexMessage (conversationID : Z)
| MaybeContinueGoal (runID : Z)
| CancelContext (runID : Z).

(** ** Calls and programs *)

Inductive call : Type → Type :=
| Now : call Z
| FindRun (ownerID id : Z) : call (result RepoErr Run)
| FindTurnOfRun (ownerID runID : Z) : call (result RepoErr Turn)
| UpdateTurn (item : Turn) : call (option RepoErr)
| UpdateRun (item : Run) : call (option RepoErr)
| CreateRun (item : Run) : call (result RepoErr Run)
| SaveOwned (item : Turn) (run : Run) (releaseLease : bool) : call (Turn * option RepoErr)
| SaveWithMessage (item : Turn) (message : Message) (run : Run) : call (Turn * option RepoErr)
| SavePaused (turn : Turn) (run : Run) (approval : option ApprovalRequest) (checkpoint : RunCheckpoint) : call (Turn * option RepoErr)
| AddApproval (approval : ApprovalRequest) : call (option RepoErr)
| AddCheckpoint (checkpoint : RunCheckpoint) : call (option RepoErr)
| ListSteps (ownerID runID : Z) : call (result RepoErr (list RunStep))
| FindCheckpoint (ownerID runID : Z) : call (result RepoErr RunCheckpoint)
| ListExpired (before limit : Z) : call (result RepoErr (list Turn))
| Recover (item : Turn) (run : Run) : call (Turn * option RepoErr)
| ClaimTurn (workerID token : string) (until : Z) : call (result RepoErr Turn)
| RenewTurn (turnID : Z) (token : string) (until : Z) : call (option RepoErr)
| CancelRunRow (item : Run) (finishedAt : Z) : call (result RepoErr (Run * bool))
| ListChildRuns (ownerID runID : Z) : call (result RepoErr (list Run))
| CancelTurnRow (ownerID runID finishedAt : Z) : call (result RepoErr Turn)
| FindApproval (ownerID id : Z) : call (result RepoErr ApprovalRequest)
| FindPending (ownerID runID : Z) : call (result RepoErr ApprovalRequest)
| DecideApproval (item : ApprovalRequest) (input : RawMessage) : call (option RepoErr)
| ResumeClaim (ownerID runID : Z) (input : RawMessage) : call (option RepoErr)
| FindConversation (ownerID id : Z) : call (result Cause (option Z))
| GetProject (ownerID id : Z) : call (option Cause)
| PrepareRunWorkspace (ownerID projectID runID : Z) : call (result (option Z * Cause) Z)
| PrepareChildWorkspace (ownerID parentWorkspaceID runID : Z) : call (result (option Z * Cause) Z)
| OpenRunWorkspace (ownerID workspaceID runID : Z) : call (option Cause)
| ExecuteRuntime (run : Run) (task : string) (manualCompaction : bool) : call (result Cause (option RuntimeOutput))
| ResumeRuntime (run : Run) (task : string) (approved : bool) (note : string) : call (result Cause (option RuntimeOutput))
| Do (effect : SideEffect) : call unit.

Inductive prog (A : Type) : Type :=
| Ret (a : A)
| Call {X : Type} (c : call X) (k : X → prog A).
Arguments Ret {A} a.
Arguments Call {A X} c k.

Fixpoint andThen {A B} (p : prog A) (f : A → prog B) : prog B :=
  match p with
  | Ret a => f a
  | Call c k => Call c (λ x, andThen (k x) f)
  end.

Declare Scope prog_scope.
Delimit Scope prog_scope with prog.
Notation "'let*' x := c 'in' k" := (Call c (λ x, k))
  (at level 10, x pattern, c at level 100, k at level 200) : prog_scope.
Notation "'let&' x := p 'in' k" := (andThen p (λ x, k))
  (at level 10, x pattern, p at level 100, k at level 200) : prog_scope.
Open Scope prog_scope.

Section Worker.
Context `{!UnicodeTables}.
(** [json.Unmarshal] into a map, the decoders of a run's definition and of a stored
    checkpoint, [json.Marshal] of a map and of the answers of a user. *)
Context (unmarshalObject : RawMessage → result string (list (string * json))).
Context (DecodeDefinition decodeCheckpoint : RawMessage → option Cause).
Context (marshalObject : list (string * json) → RawMessage).
(** The optional parts of the service: conversations, workspaces, the improvement
    reviewer and the session search index. *)
Context (hasConversations workspaceEnabled hasImprovement hasSessionSearch : bool).

(** ** Settling a turn *)

Definition transitionErr (from to : string) : string :=
  ("invalid run status transition " ++ Quote from ++ " -> " ++ Quote to)%string.

(** [run.TransitionStatus(next)] on the row. *)
Definition transition (next : string) (r : Run) : result Cause Run :=
  match TransitionStatus (Run_Status r) next with
  | Some s => Ok (Run_setStatus s r)
  | None => Err (newError (transitionErr (Run_Status r) next))
  end.

Definition cancelledTurn (now : Z) (t : Turn) : Turn := Turn_setFinishedAt (Some now) (Turn_setStatus TurnStatusCancelled t).

(** The turn of a run that was cancelled meanwhile. *)
Definition settleCancelled (turn : Turn) (current : Run) : prog Turn :=
  let* now := Now in
  let turn := cancelledTurn now turn in
  let* err := UpdateTurn turn in
  match err with
  | None => let* _ := Do (PublishRunSnapshot current (Some turn)) in Ret turn
  | Some _ => Ret turn
  end.

Definition failedRow (now : Z) (cause : Cause) (run : Run) : Run :=
  let failed := match transition RunStatusFailed run with
                | Ok r => Run_setFinishedAt (Some now) (Run_setErrorMessage (cause_Error cause) r)
                | Err e => Run_setErrorMessage (cause_Error e) run
                end in
  Run_setLatencyMS (now - Run_StartedAt run) failed.

Definition failTurn (turn : Turn) (run : option Run) (cause : Cause) : prog (Turn * option Run) :=
  let fail :=
    let* now := Now in
    let failedTurn := Turn_setFinishedAt (Some now) (Turn_setErrorMessage (cause_Error cause) (Turn_setStatus TurnStatusFailed turn)) in
    match run with
    | None =>
      let* err := UpdateTurn failedTurn in
      Ret (match err with None => failedTurn | Some _ => turn end, None)
    | Some run =>
      let failedRun := failedRow now cause run in
      let* (failedTurn, err) := SaveOwned failedTurn failedRun true in
      match err with
      | Some _ => Ret (turn, Some run)
      | None =>
        let* _ := Do (AccountGoalRun (Run_ID run)) in
        let* _ := Do (ClearSteering (Run_ID run)) in
        let* _ := Do (MarkGoalStatus (Run_ID run) (if cause_RateLimited cause then StatusUsageLimited else StatusBlocked)) in
        let* _ := Do (ClearGoalUsage (Run_ID run)) in
        let* _ := Do (PublishRunSnapshot failedRun (Some failedTurn)) in
        Ret (failedTurn, Some failedRun)
      end
    end in
  match run with
  | None => fail
  | Some r =>
    let* current := FindRun (Turn_OwnerID turn) (Run_ID r) in
    match current with
    | Ok current =>
      if (Run_Status current =? RunStatusCancelled)%string then
        let& turn := settleCancelled turn current in Ret (turn, run)
      else fail
    | Err _ => fail
    end
  end.

(** [failTurn] with a run, and what [turn] and [run] point to after it. *)
Definition failRun (turn : Turn) (run : Run) (cause : Cause) : prog (Turn * Run) :=
  let& (turn, run') := failTurn turn (Some run) cause in Ret (turn, default run run').

Definition isToolStep (s : RunStep) : bool := one_of (Step_StepType s) [StepTypeToolCall; StepTypeToolResult].

Definition runHasToolSideEffects (ownerID : Z) (runID : option Z) : prog (result RepoErr bool) :=
  match runID with
  | None => Ret (Ok false)
  | Some runID =>
    let* steps := ListSteps ownerID runID in
    Ret (rmap (existsb isToolStep) steps)
  end.

Definition effectiveMaxAttempts (turn : Turn) : Z := if Turn_MaxAttempts turn <=? 0 then 3 else Turn_MaxAttempts turn.

(** [time.Second << min(max(attempts-1, 0), 6)], in milliseconds. *)
Definition retryBackoff (attempts : Z) : Z := Z.shiftl 1000 (Z.min (Z.max (attempts - 1) 0) 6).

Definition retryTurn (turn : Turn) (run : Run) (cause : Cause) : prog (Turn * Run) :=
  let& hasToolSideEffect := runHasToolSideEffects (Turn_OwnerID turn) (Turn_RunID turn) in
  match hasToolSideEffect with
  | Err err => failRun turn run (joinErrors cause (wrapError "inspect persisted tool steps" (repoCause err)))
  | Ok hasToolSideEffect =>
    if hasToolSideEffect || (effectiveMaxAttempts turn <=? Turn_AttemptCount turn) then failRun turn run cause
    else
      let* now := Now in
      let retryTurn := Turn_setFinishedAt None (Turn_setRetryAt (Some (now + retryBackoff (Turn_AttemptCount turn)))
        (Turn_setErrorMessage (cause_Error cause) (Turn_setStatus TurnStatusRetryWait turn))) in
      let save retryRun :=
        let retryRun := Run_setFinishedAt None (Run_setErrorMessage (cause_Error cause) retryRun) in
        let* (retryTurn, err) := SaveOwned retryTurn retryRun true in
        match err with
        | Some ErrLeaseLost => Ret (turn, run)
        | Some err => failRun turn run (joinErrors cause (wrapError "persist agent turn retry" (repoCause err)))
        | None => let* _ := Do (PublishRunSnapshot retryRun (Some retryTurn)) in Ret (retryTurn, retryRun)
        end in
      if (Run_Status run =? RunStatusRunning)%string then
        match transition RunStatusQueued run with
        | Err e => failRun turn run e
        | Ok retryRun => save retryRun
        end
      else if negb (Run_Status run =? RunStatusResuming)%string then failRun turn run cause
      else save run
  end.

Definition checkpointArtifacts (run : Run) (output : RuntimeOutput) : option ApprovalRequest * option RunCheckpoint :=
  let interactionID := match out_checkpoint output with Some c => entry_InteractionID c | None => ""%string end in
  ((λ a, mkApprovalRow 0 (Run_OwnerID run) (Run_ID run) (entry_ToolCallID a) interactionID (entry_ToolName a) (entry_RiskLevel a)
      (entry_Reason a) (entry_JSON a) ApprovalStatusPending "" None) <$> out_approval output,
   (λ c, mkCheckpointRow 0 (Run_OwnerID run) (Run_ID run) (entry_CheckpointJSON c)) <$> out_checkpoint output).

(** [decodeInputJSON]. *)
Definition decodeInputJSON (raw : RawMessage) : result string (list (string * json)) :=
  let trimmed := TrimSpace raw in
  if (trimmed =? "")%string || (trimmed =? "null")%string then Ok [] else unmarshalObject trimmed.

Definition stringField (name : string) (input : list (string * json)) : string :=
  match lookup_field name input with Some (JStr s) => s | _ => "" end.
Definition boolField (name : string) (input : list (string * json)) : bool :=
  match lookup_field name input with Some (JBool b) => b | _ => false end.

(** The mode of an input; a value that is not a string does not print as a mode. *)
Definition inputMode (input : list (string * json)) : option string :=
  match lookup_field "mode" input with Some (JStr s) => NormalizeMode s | _ => None end.

(** The input of a run, empty when it does not decode. *)
Definition runInput (run : Run) : list (string * json) :=
  match decodeInputJSON (Run_InputJSON run) with Ok input => input | Err _ => [] end.

Definition finishedRun (now : Z) (output : RuntimeOutput) (run : Run) : Run :=
  let run := Run_setFinishedAt (Some now) (Run_setOutputJSON (out_JSON output) run) in
  let run := match out_total_tokens output with Some n => Run_setTotalTokens n run | None => run end in
  Run_setLatencyMS (now - Run_StartedAt run) run.

Definition finishedTurn (now : Z) (output : RuntimeOutput) (turn : Turn) : Turn :=
  Turn_setFinishedAt (Some now) (Turn_setOutputJSON (out_JSON output) (Turn_setStatus TurnStatusSucceeded turn)).

(** The runtime stopped for a human or for a pause. *)
Definition pauseTurn (turn : Turn) (run : Run) (output : RuntimeOutput) (turnStatus runStatus : string) : prog (Turn * Run) :=
  let turn := Turn_setStatus turnStatus turn in
  match transition runStatus run with
  | Err e => failRun turn run e
  | Ok run =>
    let turn := Turn_setOutputJSON (out_JSON output) turn in
    let run := Run_setOutputJSON (out_JSON output) run in
    match checkpointArtifacts run output with
    | (_, None) => failRun turn run (newError "runtime paused without checkpoint")
    | (approval, Some checkpoint) =>
      let* (turn, err) := SavePaused turn run approval checkpoint in
      match err with
      | Some e => failRun turn run (repoCause e)
      | None =>
        let publish := let* _ := Do (PublishRunSnapshot run (Some turn)) in Ret (turn, run) in
        match approval with
        | Some a => let* _ := Do (PublishApprovalRequired run a) in publish
        | None => publish
        end
      end
    end
  end.

(** The rows of a finished turn are saved by [save]; a lost lease ends the handler,
    any other error fails the turn. *)
Definition settleFinished {X} (turn : Turn) (run : Run) (save : call (Turn * option RepoErr)) (onSaved : Turn → prog X)
    (onLost : Turn * Run → prog X) : prog X :=
  let* (turn, err) := save in
  match err with
  | Some ErrLeaseLost => onLost (turn, run)
  | Some e => let& settled := failRun turn run (repoCause e) in onLost settled
  | None => onSaved turn
  end.

Definition finishSubagentTurn (turn : Turn) (run : Run) (output : RuntimeOutput) : prog (Turn * Run) :=
  let* now := Now in
  let turn := finishedTurn now output turn in
  match transition RunStatusSucceeded run with
  | Err e => failRun turn run e
  | Ok run =>
    let run := finishedRun now output run in
    settleFinished turn run (SaveOwned turn run true)
      (λ turn, let* _ := Do (PublishRunSnapshot run (Some turn)) in Ret (turn, run)) Ret
  end.

Definition finishTurn (turn : Turn) (run : Run) (output : RuntimeOutput) : prog (Turn * Run) :=
  let existingMessageID := out_assistant_message_id output in
  let contentType := if boolField "manual_compaction" (runInput run) then ContentTypeSystemEcho else ContentTypeText in
  let assistant := mkMessageRow 0 (Turn_OwnerID turn) (Turn_ConversationID turn) RoleAssistant (out_final_answer output)
    (Some (Run_ID run)) (default 0 (out_total_tokens output)) contentType in
  let* now := Now in
  let turn := Turn_setAssistantMessageID (Some 0) (finishedTurn now output turn) in
  match transition RunStatusSucceeded run with
  | Err e => failRun turn run e
  | Ok run =>
    let run := finishedRun now output run in
    let publish turn := let* _ := Do (MaybeContinueGoal (Run_ID run)) in
                        let* _ := Do (PublishRunSnapshot run (Some turn)) in Ret (turn, run) in
    let index turn := if hasSessionSearch && (contentType =? ContentTypeText)%string then
                        let* _ := Do (IndexMessage (Turn_ConversationID turn)) in publish turn
                      else publish turn in
    let finish turn :=
      if hasImprovement && negb (bool_decide (inputMode (runInput run) = Some "plan"%string)) then
        match DecodeDefinition (Run_DefinitionJSON run) with
        | None => let* _ := Do (EnqueueTurnReview (Turn_ID turn)) in index turn
        | Some _ => index turn
        end
      else index turn in
    if 0 <? existingMessageID then
      let turn := Turn_setAssistantMessageID (Some existingMessageID) turn in
      settleFinished turn run (SaveOwned turn run true) finish Ret
    else settleFinished turn run (SaveWithMessage turn assistant run) finish Ret
  end.

Definition completeTurn (turn : Turn) (run : Run) (result : option RuntimeOutput) : prog (Turn * Run) :=
  match result with
  | None => failRun turn run (newError "agent runtime returned no result")
  | Some output =>
    let* _ := Do (AccountGoalRun (Run_ID run)) in
    let* _ := Do (ClearGoalUsage (Run_ID run)) in
    let* _ := Do (ClearSteering (Run_ID run)) in
    let complete :=
      let stopReason := out_stop_reason output in
      if (stopReason =? StopReasonLLMError)%string then
        let message := if (TrimSpace (out_error output) =? "")%string then "agent runtime returned an LLM error"%string else out_error output in
        failRun turn run (newError message)
      else if (stopReason =? StopReasonWaitingHuman)%string then pauseTurn turn run output TurnStatusWaitingHuman RunStatusWaitingHuman
      else if (stopReason =? StopReasonPaused)%string then pauseTurn turn run output TurnStatusPaused RunStatusPaused
      else if (Run_RunType run =? RunTypeSubagent)%string then finishSubagentTurn turn run output
      else finishTurn turn run output in
    let* current := FindRun (Turn_OwnerID turn) (Run_ID run) in
    match current with
    | Ok current =>
      if (Run_Status current =? RunStatusCancelled)%string then
        let& turn := settleCancelled turn current in Ret (turn, run)
      else complete
    | Err _ => complete
    end
  end.

(** ** Executing and resuming *)

Definition ErrInvalidInput : Cause := newError "invalid input".
Definition ErrNotFoundCause : Cause := newError "not found".
Definition isNotFound (e : RepoErr) : bool := Contains (ToLower (repoErrText e)) "record not found".
Definition mapNotFound (e : RepoErr) : Cause := if isNotFound e then ErrNotFoundCause else repoCause e.

(** [persistCheckpoint]. *)
Definition persistCheckpoint (run : Run) (output : RuntimeOutput) : prog (option RepoErr) :=
  let '(approval, checkpoint) := checkpointArtifacts run output in
  let store := match checkpoint with
               | Some c => let* err := AddCheckpoint c in Ret err
               | None => Ret None
               end in
  match approval with
  | Some a => let* err := AddApproval a in match err with Some e => Ret (Some e) | None => store end
  | None => store
  end.

(** [run.TransitionStatus(next)] whose error only sets the message. *)
Definition transitionOrMessage (next : string) (run : Run) : Run :=
  match transition next run with Ok r => r | Err e => Run_setErrorMessage (cause_Error e) run end.

Definition completeSubagentRun (run : Run) (result : option RuntimeOutput) : prog Run :=
  match result with
  | None => Ret run
  | Some output =>
    let run := Run_setOutputJSON (out_JSON output) run in
    let run := transitionOrMessage
      (if (out_stop_reason output =? StopReasonWaitingHuman)%string then RunStatusWaitingHuman
       else if (out_stop_reason output =? StopReasonPaused)%string then RunStatusPaused else RunStatusSucceeded) run in
    let save run :=
      let* _ := UpdateRun run in
      let* _ := Do (PublishRunSnapshot run None) in
      Ret run in
    if one_of (Run_Status run) [RunStatusWaitingHuman; RunStatusPaused] then
      let run := Run_setFinishedAt None run in
      let& err := persistCheckpoint run output in
      match err with
      | Some e => save (match transition RunStatusFailed run with
                        | Ok r => Run_setErrorMessage (repoErrText e) r
                        | Err t => Run_setErrorMessage (cause_Error t) run
                        end)
      | None => save run
      end
    else
      let* now := Now in
      save (Run_setLatencyMS (now - Run_StartedAt run) (Run_setFinishedAt (Some now) run))
  end.

(** The run of a resumption that has no turn fails. *)
Definition failResumedRun (wrap : string) (publish : bool) (run : Run) (cause : Cause) : prog (option Cause * Run) :=
  let* now := Now in
  let run := failedRow now cause run in
  let* err := UpdateRun run in
  match err with
  | Some e => Ret (Some (joinErrors cause (wrapError wrap (repoCause e))), run)
  | None =>
    if publish then let* _ := Do (PublishRunSnapshot run None) in Ret (Some cause, run)
    else Ret (Some cause, run)
  end.

(** What the error, [turn] and [run] are when [resumeRun] returns. *)
Definition resumed : Type := option Cause * option Turn * Run.

Definition settleResumed (run : Run) (turn : option Turn) (result : result Cause (option RuntimeOutput)) : prog resumed :=
  match result, turn with
  | Err execErr, Some t =>
    let& (t, run) := retryTurn t run execErr in Ret (Some execErr, Some t, run)
  | Err execErr, None =>
    let& (err, run) := failResumedRun "persist failed subagent resume" false run execErr in Ret (err, None, run)
  | Ok output, Some t =>
    let& (t, run) := completeTurn t run output in
    let* found := FindRun (Run_OwnerID run) (Run_ID run) in
    Ret (match found with Ok _ => None | Err e => Some (repoCause e) end, Some t, run)
  | Ok output, None =>
    let& run := completeSubagentRun run output in
    let* found := FindRun (Run_OwnerID run) (Run_ID run) in
    Ret (match found with Ok _ => None | Err e => Some (repoCause e) end, None, run)
  end.

(** The workspace of the run is opened and locked while the runtime resumes. *)
Definition resumeInWorkspace (hasWorkspace : bool) (run : Run) (turn : option Turn) (task : string) (approved : bool) (note : string)
    : prog resumed :=
  match hasWorkspace, Run_WorkspaceID run with
  | true, Some workspace =>
    let* err := OpenRunWorkspace (Run_OwnerID run) workspace (Run_ID run) in
    match err, turn with
    | None, _ =>
      let* _ := Do (WorkspaceEvent "workspace.ready" (Run_ID run)) in
      let* result := ResumeRuntime run task approved note in
      let* _ := Do (RefreshWorkspace (Run_ID run)) in
      let& resumed := settleResumed run turn result in
      let* _ := Do (ReleaseWorkspaceLock (Run_ID run)) in
      Ret resumed
    | Some cause, Some t => let& (t, run) := failRun t run cause in Ret (Some cause, Some t, run)
    | Some cause, None =>
      let& (err, run) := failResumedRun "persist failed resume" true run cause in Ret (err, None, run)
    end
  | _, _ =>
    let* result := ResumeRuntime run task approved note in
    settleResumed run turn result
  end.

Definition belongsTo (run : Run) (turn : Turn) : bool :=
  bool_decide (Turn_RunID turn = Some (Run_ID run)) && (Turn_OwnerID turn =? Run_OwnerID run).

(** The run is set resuming and handed to the runtime. *)
Definition startResumed (hasWorkspace : bool) (run : Run) (decision : option ApprovalRequest) (turn : option Turn) (task : string)
    : prog resumed :=
  let approved := match decision with Some d => (Approval_Status d =? ApprovalStatusApproved)%string | None => false end in
  let note := match decision with Some d => Approval_DecisionNote d | None => ""%string end in
  match transition RunStatusResuming run with
  | Err e => Ret (Some e, turn, run)
  | Ok run =>
    match turn with
    | Some t =>
      let t := Turn_setStatus TurnStatusRunning t in
      let* (t, err) := SaveOwned t run false in
      match err with
      | Some e => Ret (Some (repoCause e), Some t, run)
      | None => resumeInWorkspace hasWorkspace run (Some t) task approved note
      end
    | None =>
      let* err := UpdateRun run in
      match err with
      | Some e => Ret (Some (repoCause e), None, run)
      | None => resumeInWorkspace hasWorkspace run None task approved note
      end
    end
  end.

Definition resumeRun (hasWorkspace : bool) (run : Run) (stored : RunCheckpoint) (decision : option ApprovalRequest)
    (claimedTurn : option Turn) : prog resumed :=
  let refuse turn cause : prog resumed := Ret (Some cause, turn, run) in
  let checked turn :=
    if match turn with Some t => negb (belongsTo run t) | None => false end then refuse turn ErrInvalidInput
    else match DecodeDefinition (Run_DefinitionJSON run) with
    | Some e => refuse turn e
    | None =>
      match decodeCheckpoint (Checkpoint_JSON stored) with
      | Some e => refuse turn (wrapError "decode runtime checkpoint" e)
      | None =>
        match decodeInputJSON (Run_InputJSON run) with
        | Err e => refuse turn (newError ("decode run input: " ++ e))
        | Ok input =>
          let start := startResumed hasWorkspace run decision turn (stringField "query" input) in
          match hasConversations, Run_ConversationID run with
          | true, Some conversation =>
            let* found := FindConversation (Run_OwnerID run) conversation in
            match found with
            | Err e => refuse turn e
            | Ok None => start
            | Ok (Some project) =>
              if workspaceEnabled then let* _ := GetProject (Run_OwnerID run) project in start
              else start
            end
          | _, _ => start
          end
        end
      end
    end in
  if Run_AgentID run <=? 0 then refuse claimedTurn ErrInvalidInput
  else if (Run_DefinitionJSON run =? "")%string || (TrimSpace (Run_DefinitionHash run) =? "")%string then refuse claimedTurn ErrInvalidInput
  else match claimedTurn with
  | Some t => checked (Some t)
  | None =>
    if (Run_RunType run =? RunTypeSubagent)%string then checked None
    else let* found := FindTurnOfRun (Run_OwnerID run) (Run_ID run) in
         match found with
         | Err e => refuse None (mapNotFound e)
         | Ok t => checked (Some t)
         end
  end.

(** The decision that the input of a resumed turn carries. *)
Definition resumeDecision (input : list (string * json)) : option ApprovalRequest :=
  match lookup_field "resume_approved" input with
  | Some (JBool approved) =>
    let note := stringField "resume_note" input in
    let note := match lookup_field "resume_answers" input with
                | Some (JObj answers) => ("answers:" ++ marshalObject answers)%string
                | _ => note
                end in
    Some (mkApprovalRow 0 0 0 "" "" "" "" "" "" (if approved then ApprovalStatusApproved else ApprovalStatusRejected) note None)
  | _ => None
  end.

(** [turnWorker.resume]: the error, and what [turn] and [run] are. *)
Definition resume (hasWorkspace : bool) (turn : Turn) (run : Run) : prog resumed :=
  if Run_ID run <=? 0 then Ret (Some (newError "resume dependencies are not configured"), Some turn, run)
  else
    let* found := FindCheckpoint (Run_OwnerID run) (Run_ID run) in
    match found with
    | Err e => Ret (Some (mapNotFound e), Some turn, run)
    | Ok checkpoint =>
      match decodeInputJSON (Turn_InputJSON turn) with
      | Err e => Ret (Some (newError ("decode resume input: " ++ e)), Some turn, run)
      | Ok input => resumeRun hasWorkspace run checkpoint (resumeDecision input) (Some turn)
      end
    end.

(** The run is set running and handed to the runtime. *)
Definition startTurn (prepared : bool) (turn : Turn) (run : Run) (task : string) (manualCompaction : bool) : prog unit :=
  match transition RunStatusRunning run with
  | Err e => let& _ := failRun turn run e in Ret tt
  | Ok run =>
    let* (turn, err) := SaveOwned turn run false in
    match err with
    | Some e => let& _ := failRun turn run (repoCause e) in Ret tt
    | None =>
      let* result := ExecuteRuntime run task manualCompaction in
      let settle := match result with
                    | Err execErr => let& _ := retryTurn turn run execErr in Ret tt
                    | Ok output => let& _ := completeTurn turn run output in Ret tt
                    end in
      if prepared then let* _ := Do (RefreshWorkspace (Run_ID run)) in settle else settle
    end
  end.

(** The workspace of the project is prepared first, when there is one. *)
Definition prepareWorkspace (turn : Turn) (run : Run) (project : Z) (task : string) (manualCompaction : bool) : prog unit :=
  let* err := GetProject (Turn_OwnerID turn) project in
  match err with
  | Some e =>
    let* _ := Do (WorkspaceEvent "workspace.failed" (Run_ID run)) in
    let& _ := failRun turn run e in Ret tt
  | None =>
    let* prepared := PrepareRunWorkspace (Turn_OwnerID turn) project (Run_ID run) in
    match prepared with
    | Err (failed, e) =>
      let run := match failed with Some ws => Run_setWorkspaceID (Some ws) run | None => run end in
      let* _ := Do (WorkspaceEvent "workspace.failed" (Run_ID run)) in
      let& _ := failRun turn run e in Ret tt
    | Ok ws =>
      let run := Run_setWorkspaceID (Some ws) run in
      let* (turn, err) := SaveOwned turn run false in
      let& _ :=
        match err with
        | Some e =>
          let* _ := Do (WorkspaceEvent "workspace.failed" (Run_ID run)) in
          let& _ := failRun turn run (repoCause e) in Ret tt
        | None =>
          let* _ := Do (WorkspaceEvent "workspace.created" (Run_ID run)) in
          let* _ := Do (WorkspaceEvent "workspace.ready" (Run_ID run)) in
          startTurn true turn run task manualCompaction
        end in
      let* _ := Do (ReleaseWorkspaceLock (Run_ID run)) in
      Ret tt
    end
  end.

(** A turn that is neither cancelled nor resuming. *)
Definition executeFresh (turn : Turn) (run : Run) : prog unit :=
  let run := Run_setErrorMessage "" run in
  match DecodeDefinition (Run_DefinitionJSON run) with
  | Some e => let& _ := failRun turn run e in Ret tt
  | None =>
    match decodeInputJSON (Turn_InputJSON turn) with
    | Err e => let& _ := failRun turn run (newError ("decode turn input: " ++ e)) in Ret tt
    | Ok input =>
      let task := stringField "query" input in
      let manualCompaction := boolField "manual_compaction" input in
      match hasConversations, Run_ConversationID run with
      | true, Some conversation =>
        let* found := FindConversation (Turn_OwnerID turn) conversation in
        match found with
        | Err e => let& _ := failRun turn run e in Ret tt
        | Ok (Some project) =>
          if workspaceEnabled then prepareWorkspace turn run project task manualCompaction
          else startTurn false turn run task manualCompaction
        | Ok None => startTurn false turn run task manualCompaction
        end
      | _, _ => startTurn false turn run task manualCompaction
      end
    end
  end.

(** [turnWorker.execute]; a turn without a run is a nil dereference. *)
Definition execute (hasWorkspace : bool) (turn : Turn) : prog unit :=
  match Turn_RunID turn with
  | None => Ret tt
  | Some runID =>
    let* found := FindRun (Turn_OwnerID turn) runID in
    match found with
    | Err e => let& _ := failTurn turn None (repoCause e) in Ret tt
    | Ok run =>
      if (Run_Status run =? RunStatusCancelled)%string then
        let* now := Now in
        let* _ := UpdateTurn (cancelledTurn now turn) in
        Ret tt
      else if (Run_Status run =? RunStatusResuming)%string then
        let& (err, turn', run) := resume hasWorkspace turn run in
        match err with
        | Some e =>
          if (Run_Status run =? RunStatusResuming)%string then
            let& _ := failRun (default turn turn') run e in Ret tt
          else Ret tt
        | None => Ret tt
        end
      else executeFresh turn run
    end
  end.

(** One round of the worker loop, and one of the heartbeat of a lease. *)
Definition workerRound (hasWorkspace : bool) (leaseDuration : Z) (workerID token : string) : prog unit :=
  let* now := Now in
  let* claimed := ClaimTurn workerID token (now + leaseDuration) in
  match claimed with
  | Ok turn => execute hasWorkspace turn
  | Err _ => Ret tt
  end.

Definition effectiveLeaseDuration (leaseDuration : Z) : Z := if leaseDuration <? 10000 then 30000 else leaseDuration.

(** Whether the heartbeat goes on; otherwise it cancels the execution. *)
Definition heartbeatRound (leaseDuration turnID : Z) (token : string) : prog bool :=
  let* now := Now in
  let* err := RenewTurn turnID token (now + leaseDuration) in
  Ret (match err with None => true | Some _ => false end).

(** ** Recovering expired leases *)

(** The rows that a turn with an expired lease is recovered to. *)
Definition recoverRows (now : Z) (hasToolSideEffect : bool) (turn : Turn) (run : Run) : result Cause (Turn * Run) :=
  if hasToolSideEffect || (effectiveMaxAttempts turn <=? Turn_AttemptCount turn) then
    let reason := "expired worker lease requires checkpoint/manual review to avoid replaying tool side effects"%string in
    match transition RunStatusPaused run with
    | Err e => Err e
    | Ok r => Ok (Turn_setFinishedAt (Some now) (Turn_setErrorMessage reason (Turn_setStatus TurnStatusPaused turn)),
                  Run_setFinishedAt None (Run_setErrorMessage reason r))
    end
  else
    let reason := "requeued after expired worker lease before any tool call"%string in
    let turn := Turn_setFinishedAt None (Turn_setRetryAt (Some (now + retryBackoff (Turn_AttemptCount turn)))
      (Turn_setErrorMessage reason (Turn_setStatus TurnStatusRetryWait turn))) in
    let requeued r := Ok (turn, Run_setFinishedAt None (Run_setErrorMessage reason r)) in
    if (Run_Status run =? RunStatusRunning)%string then
      match transition RunStatusQueued run with Err e => Err e | Ok r => requeued r end
    else if negb (Run_Status run =? RunStatusResuming)%string then
      Err (newError ("cannot recover run " ++ Itoa (Run_ID run) ++ " from status " ++ Run_Status run))
    else requeued run.

Fixpoint recoverAll (items : list Turn) : prog (option Cause) :=
  match items with
  | [] => Ret None
  | turn :: items =>
    match Turn_RunID turn with
    | None => Ret (Some (newError ("expired agent turn " ++ Itoa (Turn_ID turn) ++ " has no run")))
    | Some runID =>
      let* found := FindRun (Turn_OwnerID turn) runID in
      match found with
      | Err e => Ret (Some (repoCause e))
      | Ok run =>
        let& hasToolSideEffect := runHasToolSideEffects (Turn_OwnerID turn) (Turn_RunID turn) in
        match hasToolSideEffect with
        | Err e => Ret (Some (repoCause e))
        | Ok hasToolSideEffect =>
          let* now := Now in
          match recoverRows now hasToolSideEffect turn run with
          | Err e => Ret (Some e)
          | Ok (recoveredTurn, recoveredRun) =>
            let* (recoveredTurn, err) := Recover recoveredTurn recoveredRun in
            match err with
            | Some ErrLeaseLost => recoverAll items
            | Some e => Ret (Some (repoCause e))
            | None => let* _ := Do (PublishRunSnapshot recoveredRun (Some recoveredTurn)) in recoverAll items
            end
          end
        end
      end
    end
  end.

Definition recoverExpired : prog (option Cause) :=
  let* now := Now in
  let* items := ListExpired now 100 in
  match items with
  | Err e => Ret (Some (repoCause e))
  | Ok items => recoverAll items
  end.

(** ** Cancelling a run *)

(** The active children in turn; the errors are joined. *)
Fixpoint cancelChildren (cancel : Z → prog (option (list Cause))) (children : list Run) (errs : list Cause) : prog (option (list Cause)) :=
  match children with
  | [] => Ret (Some errs)
  | child :: children =>
    if negb (IsActiveRunStatus (Run_Status child)) then cancelChildren cancel children errs
    else
      let& r := cancel (Run_ID child) in
      match r with
      | None => Ret None
      | Some es => cancelChildren cancel children (errs ++ (wrapError ("cancel child run " ++ Itoa (Run_ID child)) <$> es))
      end
  end.

Definition cancelTurnOf (ownerID : Z) (run : Run) (errs : list Cause) : prog (option (list Cause)) :=
  let* now := Now in
  let* turn := CancelTurnRow ownerID (Run_ID run) (default now (Run_FinishedAt run)) in
  let errs := match turn with
              | Ok _ | Err ErrNoTurnAvailable => errs
              | Err e => errs ++ [wrapError ("cancel run turn " ++ Itoa (Run_ID run)) (repoCause e)]
              end in
  let* _ := Do (CancelContext (Run_ID run)) in
  let* _ := Do (PublishRunSnapshot run (match turn with Ok t => Some t | Err _ => None end)) in
  Ret (Some errs).

Definition ErrConflict : Cause := newError "conflict".

(** What follows once the run is read back: its children, then its turn. *)
Definition cancelCascade (cancel : Z → prog (option (list Cause))) (ownerID runID : Z) (run : Run) : prog (option (list Cause)) :=
  if IsActiveRunStatus (Run_Status run) then Ret (Some [ErrConflict])
  else if negb (Run_Status run =? RunStatusCancelled)%string then Ret (Some [])
  else
    let* children := ListChildRuns ownerID runID in
    let& errs := match children with
                 | Err e => Ret (Some [wrapError ("list child runs for " ++ Itoa runID) (repoCause e)])
                 | Ok children => cancelChildren cancel children []
                 end in
    match errs with
    | None => Ret None
    | Some errs => cancelTurnOf ownerID run errs
    end.

(** The errors of the cancellation; [None] when the fuel, one for each level of the
    tree of runs, is used up. *)
Fixpoint CancelRun (fuel : nat) (ownerID runID : Z) : prog (option (list Cause)) :=
  match fuel with
  | O => Ret None
  | S fuel =>
    let cascade := cancelCascade (CancelRun fuel ownerID) ownerID runID in
    let* found := FindRun ownerID runID in
    match found with
    | Err e => Ret (Some [mapNotFound e])
    | Ok run =>
      if negb (IsActiveRunStatus (Run_Status run)) then cascade run
      else
        let* finished := Now in
        let* cancelled := CancelRunRow run finished in
        match cancelled with
        | Err e => Ret (Some [repoCause e])
        | Ok (run, true) => cascade run
        | Ok (_, false) =>
          let* found := FindRun ownerID runID in
          match found with
          | Err e => Ret (Some [mapNotFound e])
          | Ok run => cascade run
          end
        end
    end
  end.


(** ** Decisions and resumptions *)

(** [input[name] = value] on a decoded object, whose keys are kept in order. *)
Fixpoint setField (name : string) (value : json) (fields : list (string * json)) : list (string * json) :=
  match fields with
  | [] => [(name, value)]
  | (k, v) :: rest =>
    match String.compare name k with
    | Eq => (name, value) :: rest
    | Lt => (name, value) :: (k, v) :: rest
    | Gt => (k, v) :: setField name value rest
    end
  end.

(** [ValidateUserInputAnswers] on the questions of a request, when it has any. *)
Context (answersInvalid : RawMessage → list (string * json) → bool).

Definition resumeTurnInputWithAnswers (run : Run) (approved : bool) (note : string) (answers : list (string * json))
    : prog (result Cause RawMessage) :=
  let encode raw :=
    match decodeInputJSON raw with
    | Err e => Ret (Err (newError ("decode turn input: " ++ e)))
    | Ok input =>
      let input := setField "resume_approved" (JBool approved) input in
      let input := setField "resume_note" (JStr (TrimSpace note)) input in
      let input := match answers with [] => input | _ => setField "resume_answers" (JObj answers) input end in
      Ret (Ok (marshalObject input))
    end in
  if Run_ID run <=? 0 then Ret (Err ErrInvalidInput)
  else if (Run_RunType run =? RunTypeSubagent)%string then encode (Run_InputJSON run)
  else
    let* found := FindTurnOfRun (Run_OwnerID run) (Run_ID run) in
    match found with
    | Err e => Ret (Err (mapNotFound e))
    | Ok turn =>
      if negb (one_of (Turn_Status turn) [TurnStatusPaused; TurnStatusWaitingHuman]) then Ret (Err ErrConflict)
      else encode (Turn_InputJSON turn)
    end.

Definition GetRun (ownerID runID : Z) : prog (result Cause Run) :=
  let* found := FindRun ownerID runID in
  Ret (match found with Ok run => Ok run | Err e => Err (mapNotFound e) end).

Definition decideApprovalRequest (ownerID requestID : Z) (approved : bool) (note : string) (answers : list (string * json))
    : prog (result Cause Run) :=
  if (ownerID <=? 0) || (requestID <=? 0) then Ret (Err ErrInvalidInput)
  else
    let* found := FindApproval ownerID requestID in
    match found with
    | Err e => Ret (Err (mapNotFound e))
    | Ok request =>
      if negb (Approval_Status request =? ApprovalStatusPending)%string then Ret (Err ErrConflict)
      else if approved && answersInvalid (Approval_RequestJSON request) answers then Ret (Err ErrInvalidInput)
      else
        let& run := GetRun ownerID (Approval_RunID request) in
        match run with
        | Err e => Ret (Err e)
        | Ok run =>
          let* decidedAt := Now in
          let note := match answers with [] => TrimSpace note | _ => ("answers:" ++ marshalObject answers)%string end in
          let request := Approval_setStatus (if approved then ApprovalStatusApproved else ApprovalStatusRejected)
            (Approval_setDecisionNote note (Approval_setDecidedAt (Some decidedAt) request)) in
          let& input := resumeTurnInputWithAnswers run approved note answers in
          match input with
          | Err e => Ret (Err e)
          | Ok input =>
            let* err := DecideApproval request input in
            match err with
            | Some _ => Ret (Err ErrConflict)
            | None => GetRun ownerID (Run_ID run)
            end
          end
        end
    end.

Definition ErrForbidden : Cause := newError "forbidden".

Definition ResumeByID (ownerID runID : Z) : prog (result Cause Run) :=
  let& run := GetRun ownerID runID in
  match run with
  | Err e => Ret (Err e)
  | Ok run =>
    if negb (Run_Status run =? RunStatusPaused)%string then Ret (Err ErrConflict)
    else
      let* pending := FindPending ownerID runID in
      match pending with
      | Ok _ => Ret (Err ErrForbidden)
      | Err e =>
        if negb (isNotFound e) then Ret (Err (repoCause e))
        else
          let* checkpoint := FindCheckpoint ownerID runID in
          match checkpoint with
          | Err e => Ret (Err (mapNotFound e))
          | Ok _ =>
            let& input := resumeTurnInputWithAnswers run true "" [] in
            match input with
            | Err e => Ret (Err e)
            | Ok input =>
              let* err := ResumeClaim ownerID runID input in
              match err with
              | Some _ => Ret (Err ErrConflict)
              | None => GetRun ownerID runID
              end
            end
          end
      end
  end.

(** ** Subagents *)

Record SubagentRequest := mkSubagentRequest {
  sub_OwnerID : Z;
  sub_AgentID : Z;
  sub_ParentRunID : Z;
  sub_ConversationID : option Z;
  sub_DelegationDepth : Z;
  sub_MaxDepth : Z;
  sub_Task : string;
  sub_MaxParallelChildren : Z
}.

(** [subagentRuntimeDefinition]: the canonical definition, its hash and its mode. *)
Context (subagentDefinition : SubagentRequest → result Cause (RawMessage * string * string)).

Definition forbidden (text : string) : Cause := newError ("forbidden: " ++ text).

Record SubagentResult := mkSubagentResult {
  sub_RunID : Z;
  sub_Status : string;
  sub_Output : option RawMessage;
  sub_Error : string;
  sub_LatencyMS : Z
}.

(** The result and the error that [RunSubagent] returns. *)
Definition subagentAnswer : Type := option SubagentResult * option Cause.
Definition refused (cause : Cause) : prog subagentAnswer := Ret (None, Some cause).

Definition failedSubagent (now : Z) (cause : Cause) (run : Run) : Run :=
  let run := match transition RunStatusFailed run with
             | Ok r => Run_setErrorMessage (cause_Error cause) r
             | Err e => Run_setErrorMessage (cause_Error e) run
             end in
  Run_setLatencyMS (now - Run_StartedAt run) (Run_setFinishedAt (Some now) run).

(** [failSubagentRun]: the error of the update. *)
Definition failSubagentRun (run : Run) (cause : Cause) : prog (option Cause) :=
  let* now := Now in
  let run := failedSubagent now cause run in
  let* err := UpdateRun run in
  match err with
  | Some e => Ret (Some (wrapError ("persist failed subagent run " ++ Itoa (Run_ID run)) (repoCause e)))
  | None => let* _ := Do (PublishRunSnapshot run None) in Ret None
  end.

(** A subagent that could not be started: its run fails, and the errors are joined. *)
Definition abandonSubagent (run : Run) (cause : Cause) : prog subagentAnswer :=
  let& err := failSubagentRun run cause in
  refused (match err with Some e => joinErrors cause e | None => cause end).

Definition answerOf (run : Run) (output : option RuntimeOutput) (err : option Cause) : subagentAnswer :=
  (Some (mkSubagentResult (Run_ID run) (Run_Status run) (out_JSON <$> output) (Run_ErrorMessage run) (Run_LatencyMS run)), err).

(** The runtime ended in an error, or without a result. *)
Definition settleFailedSubagent (run : Run) (cause : Cause) : prog subagentAnswer :=
  let* now := Now in
  let run := failedSubagent now cause run in
  let* err := UpdateRun run in
  match err with
  | Some e => Ret (answerOf run None (Some (joinErrors cause (repoCause e))))
  | None => let* _ := Do (PublishRunSnapshot run None) in Ret (answerOf run None (Some cause))
  end.

Definition executeSubagent (run : Run) (task : string) : prog subagentAnswer :=
  match transition RunStatusRunning run with
  | Err e => abandonSubagent run e
  | Ok run =>
    let* err := UpdateRun run in
    match err with
    | Some e => refused (repoCause e)
    | None =>
      let* result := ExecuteRuntime run task false in
      let settle := match result with
                    | Err execErr => settleFailedSubagent run execErr
                    | Ok None => settleFailedSubagent run (newError "agent runtime returned no result")
                    | Ok (Some output) => let& run := completeSubagentRun run (Some output) in Ret (answerOf run (Some output) None)
                    end in
      match Run_WorkspaceID run with
      | Some _ => let* _ := Do (RefreshWorkspace (Run_ID run)) in settle
      | None => settle
      end
    end
  end.

(** The child gets a workspace of its own when the parent has one. *)
Definition startSubagent (hasWorkspace : bool) (parent run : Run) (task : string) : prog subagentAnswer :=
  match hasWorkspace, Run_WorkspaceID parent with
  | true, Some parentWorkspace =>
    let* prepared := PrepareChildWorkspace (Run_OwnerID run) parentWorkspace (Run_ID run) in
    match prepared with
    | Err (failed, e) =>
      let run := match failed with Some ws => Run_setWorkspaceID (Some ws) run | None => run end in
      let* _ := Do (WorkspaceEvent "workspace.failed" (Run_ID run)) in
      abandonSubagent run e
    | Ok ws =>
      let run := Run_setWorkspaceID (Some ws) run in
      let* err := UpdateRun run in
      let& answer :=
        match err with
        | Some e =>
          let* _ := Do (WorkspaceEvent "workspace.failed" (Run_ID run)) in
          abandonSubagent run (repoCause e)
        | None =>
          let* _ := Do (WorkspaceEvent "workspace.created" (Run_ID run)) in
          let* _ := Do (WorkspaceEvent "workspace.ready" (Run_ID run)) in
          executeSubagent run task
        end in
      let* _ := Do (ReleaseWorkspaceLock (Run_ID run)) in
      Ret answer
    end
  | _, _ => executeSubagent run task
  end.

Definition newSubagentRun (now : Z) (req : SubagentRequest) (parent : Run) (definitionJSON : RawMessage) (hash mode : string) : Run :=
  let input := marshalObject (setField "query" (JStr (TrimSpace (sub_Task req))) (setField "mode" (JStr mode) [])) in
  mkRunRow 0 (sub_OwnerID req) (Run_AgentID parent) (sub_ConversationID req) None (Some (sub_ParentRunID req)) RunTypeSubagent
    (sub_DelegationDepth req + 1) definitionJSON hash "" RunStatusQueued input "" "" 0 0 now None.

Definition RunSubagent (hasWorkspace : bool) (req : SubagentRequest) : prog subagentAnswer :=
  let maxDepth := if sub_MaxDepth req <=? 0 then 2 else sub_MaxDepth req in
  let start (parent : Run) :=
    match subagentDefinition req with
    | Err e => refused e
    | Ok (definitionJSON, hash, mode) =>
      let* now := Now in
      let* created := CreateRun (newSubagentRun now req parent definitionJSON hash mode) in
      match created with
      | Err e => refused (repoCause e)
      | Ok run => startSubagent hasWorkspace parent run (TrimSpace (sub_Task req))
      end
    end in
  let limited (parent : Run) :=
    if 0 <? sub_MaxParallelChildren req then
      let* children := ListChildRuns (sub_OwnerID req) (sub_ParentRunID req) in
      match children with
      | Err e => refused (repoCause e)
      | Ok children =>
        if sub_MaxParallelChildren req <=? zlen (filter (λ c, IsActiveRunStatus (Run_Status c) = true) children) then
          refused (forbidden "subagent parallel limit reached")
        else start parent
      end
    else start parent in
  if (sub_OwnerID req <=? 0) || (sub_ParentRunID req <=? 0) || (sub_AgentID req <=? 0) || (TrimSpace (sub_Task req) =? "")%string ||
     (maxDepth <=? sub_DelegationDepth req) then refused (forbidden "subagent call is not allowed")
  else
    let* found := FindRun (sub_OwnerID req) (sub_ParentRunID req) in
    match found with
    | Err e => refused (mapNotFound e)
    | Ok parent =>
      if negb (Run_AgentID parent =? sub_AgentID req) || negb (Run_DelegationDepth parent =? sub_DelegationDepth req) then
        refused (forbidden "agent parent run context does not match")
      else if one_of (Run_Status parent) [RunStatusCancelled; RunStatusFailed] then refused (forbidden "parent run is not active")
      else match hasConversations, sub_ConversationID req with
           | true, Some conversation =>
             let* conv := FindConversation (sub_OwnerID req) conversation in
             match conv with
             | Err e => refused e
             | Ok _ => limited parent
             end
           | _, _ => limited parent
           end
    end.
End Worker.

(** ** What a call does *)

(** A call to the database may fail before it has done anything, or after its
    statements ran, when the transaction is rolled back. *)
Inductive Fault := NoFault | FaultEarly (msg : string) | FaultLate (msg : string).

(** The clock and the answers of the rest of the service at one call. *)
Record Env := mkEnv {
  env_now : Z;
  env_fault : Fault;
  env_runtime : result Cause (option RuntimeOutput);
  env_project : result Cause (option Z);
  env_workspace : result (option Z * Cause) Z;
  env_call : option Cause
}.

Section Perform.
Context `{Coll : !Collation}.
Context (json_Valid : RawMessage → bool).

(** A transaction under a fault: the answer and the tables.  [failed] is the answer
    when nothing was done, [late] the one when the statements ran first. *)
Definition transaction {X} (fault : Fault) (tx : DB → X * DB) (failed : RepoErr → X) (late : RepoErr → X → X) (d : DB) : X * DB :=
  match fault with
  | NoFault => tx d
  | FaultEarly msg => (failed (ErrDB msg), d)
  | FaultLate msg => (late (ErrDB msg) (tx d).1, d)
  end.

(** Reads, and writes that answer with an error or nothing. *)
Definition query {A} (fault : Fault) (read : DB → result RepoErr A) (d : DB) : result RepoErr A * DB :=
  transaction fault (λ d, (read d, d)) Err (λ e _, Err e) d.
Definition statement (fault : Fault) (write : DB → DB * option RepoErr) (d : DB) : option RepoErr * DB :=
  transaction fault (λ d, let '(d', err) := write d in (err, d')) Some (λ e _, Some e) d.

(** Transactions that write through the turn they are given: when they fail late,
    the turn has already been changed. *)
Definition ownedTransaction (fault : Fault) (item : Turn) (write : DB → DB * Turn * option RepoErr) (d : DB) : (Turn * option RepoErr) * DB :=
  transaction fault (λ d, let '(d', t, err) := write d in ((t, err), d')) (λ e, (item, Some e))
    (λ e answer, match answer with (t, None) => (t, Some e) | failed => failed end) d.

Definition perform {X} (c : call X) (env : Env) (d : DB) : X * DB :=
  match c in call X return X * DB with
  | Now => (env_now env, d)
  | FindRun owner id => query (env_fault env) (runs_FindByID owner id) d
  | FindTurnOfRun owner run => query (env_fault env) (FindByRunID owner run) d
  | UpdateTurn item => statement (env_fault env) (turns_Update item) d
  | UpdateRun item => statement (env_fault env) (λ d, (runs_Update item d, None)) d
  | CreateRun item =>
    transaction (env_fault env) (λ d, let '(d', r) := runs_Create (env_now env) item d in (Ok r, d')) Err (λ e _, Err e) d
  | SaveOwned item run release => ownedTransaction (env_fault env) item (UpdateRunOwned item run release) d
  | SaveWithMessage item message run => ownedTransaction (env_fault env) item (CompleteWithMessage item message run) d
  | SavePaused turn run approval checkpoint => ownedTransaction (env_fault env) turn (SavePausedRun turn run approval checkpoint) d
  | AddApproval a => statement (env_fault env) (λ d, (createApproval a d, None)) d
  | AddCheckpoint c => statement (env_fault env) (λ d, (createCheckpoint c d, None)) d
  | ListSteps owner run =>
    query (env_fault env) (λ d, Ok (filter (λ s, Step_OwnerID s = owner ∧ Step_RunID s = run) (db_steps d))) d
  | FindCheckpoint owner run => query (env_fault env) (FindLatestCheckpointByRun owner run) d
  | ListExpired before limit => query (env_fault env) (λ d, Ok (ListExpiredRunning before limit d)) d
  | Recover item run => ownedTransaction (env_fault env) item (RecoverExpired (env_now env) item run) d
  | ClaimTurn worker token until =>
    transaction (env_fault env) (λ d, let '(d', r) := ClaimNext (env_now env) worker token until d in (r, d')) Err (λ e _, Err e) d
  | RenewTurn id token until => statement (env_fault env) (RenewLease (env_now env) id token until) d
  | CancelRunRow item finished =>
    transaction (env_fault env) (λ d, let '(d', r, b) := CancelActive item finished d in (Ok (r, b), d')) Err (λ e _, Err e) d
  | ListChildRuns owner run => query (env_fault env) (λ d, Ok (runs_ListByParent owner run d)) d
  | CancelTurnRow owner run finished =>
    transaction (env_fault env) (λ d, let '(d', r) := CancelByRun owner run finished d in (r, d')) Err (λ e _, Err e) d
  | FindApproval owner id => query (env_fault env) (FindApprovalRequestByID owner id) d
  | FindPending owner run => query (env_fault env) (FindPendingApprovalByRun owner run) d
  | DecideApproval item input => statement (env_fault env) (DecideApprovalAndClaimResume json_Valid item input) d
  | ResumeClaim owner run input => statement (env_fault env) (ClaimResume json_Valid owner run input) d
  | FindConversation _ _ => (env_project env, d)
  | GetProject _ _ => (env_call env, d)
  | PrepareRunWorkspace _ _ _ => (env_workspace env, d)
  | PrepareChildWorkspace _ _ _ => (env_workspace env, d)
  | OpenRunWorkspace _ _ _ => (env_call env, d)
  | ExecuteRuntime _ _ _ => (env_runtime env, d)
  | ResumeRuntime _ _ _ _ => (env_runtime env, d)
  | Do _ => (tt, d)
  end.

(** A program running alone, one environment for each call: the tables and its
    result once it has returned. *)
Fixpoint runAlone {A} (p : prog A) (envs : list Env) (d : DB) : DB * option A :=
  match p, envs with
  | Ret a, _ => (d, Some a)
  | Call c k, env :: envs => let '(x, d) := perform c env d in runAlone (k x) envs d
  | Call _ _, [] => (d, None)
  end.
End Perform.
