(* ===== verification/TurnInvariant.v ===== *)
(** Workers, heartbeats, recoveries, cancellations and decisions at work on the same
    tables: the programs of [TurnWorker] take their calls one at a time, in any order;
    a call to the database may fail before it does anything; a program may vanish
    between two calls.

    The invariant: which pairs of statuses a turn and its run can have, who holds the
    lease of a turn, that attempts stay within their limit and that every change of a
    run's status is one that [TransitionStatus] allows.  It is established for each
    program by a predicate on its remaining calls ([safe]), in the manner of a
    weakest precondition: what the program may assume about the tables is what stays
    true whatever the others do. *)
From S2P Require Import Prelude GoStr Chat Json Tools Rules Hooks Runner Loop Goals TurnStore TurnWorker.
Open Scope Z_scope.

(** ** The statuses of a turn and of its run *)

Definition pairOk (turn run : string) : bool :=
  if one_of turn [TurnStatusQueued; TurnStatusRetryWait] then one_of run [RunStatusQueued; RunStatusResuming; RunStatusCancelled]
  else if (turn =? TurnStatusRunning)%string then one_of run [RunStatusQueued; RunStatusRunning; RunStatusResuming; RunStatusCancelled]
  else if (turn =? TurnStatusWaitingHuman)%string then one_of run [RunStatusWaitingHuman; RunStatusCancelled]
  else if (turn =? TurnStatusPaused)%string then one_of run [RunStatusPaused; RunStatusCancelled]
  else if (turn =? TurnStatusSucceeded)%string then one_of run [RunStatusSucceeded]
  else if (turn =? TurnStatusFailed)%string then
    one_of run [RunStatusFailed; RunStatusSucceeded; RunStatusQueued; RunStatusResuming; RunStatusCancelled]
  else if (turn =? TurnStatusCancelled)%string then one_of run [RunStatusCancelled]
  else false.

(** A status stays or moves as [TransitionStatus] allows. *)
Definition stepOk (from to : string) : bool := (from =? to)%string || canTransitionRunStatus from to.

(** The columns that a lease fixes. *)
Definition agrees (base t : Turn) : Prop :=
  Turn_ID t = Turn_ID base ∧ Turn_OwnerID t = Turn_OwnerID base ∧ Turn_RunID t = Turn_RunID base ∧
  Turn_AttemptCount t = Turn_AttemptCount base ∧ Turn_MaxAttempts t = Turn_MaxAttempts base.

(** The claims made so far: the token, the turn as it was claimed, and whether its
    run was resuming. *)
Definition Claims : Type := gmap string (Turn * bool).

Definition modeOk (resuming : bool) (run : string) : Prop :=
  if resuming then run = RunStatusResuming else run ∈ [RunStatusQueued; RunStatusRunning].

(** The lease on a row. *)
Definition leaseOk (C : Claims) (t : Turn) (r : Run) : Prop :=
  (Turn_LeaseToken t = ""%string ∧ Turn_Status t ≠ TurnStatusRunning) ∨
  (∃ base m, C !! Turn_LeaseToken t = Some (base, m) ∧ agrees base t ∧
     Turn_Status t ∈ [TurnStatusRunning; TurnStatusFailed; TurnStatusCancelled] ∧
     (Turn_Status t = TurnStatusRunning → Run_Status r = RunStatusCancelled ∨ modeOk m (Run_Status r))).

Record rowOk (C : Claims) (t : Turn) (r : Run) : Prop := mkRowOk {
  row_owner : Run_OwnerID r = Turn_OwnerID t;
  row_pair : pairOk (Turn_Status t) (Run_Status r) = true;
  row_attempts : 0 ≤ Turn_AttemptCount t ≤ Turn_MaxAttempts t;
  row_max : 0 < Turn_MaxAttempts t;
  row_lease : leaseOk C t r
}.

Record DBInv (C : Claims) (d : DB) : Prop := mkDBInv {
  inv_keyed : turnsKeyed d;
  inv_turnRuns : turnRuns d;
  inv_unique : runsUnique d;
  inv_rows : ∀ k t, db_turns d !! k = Some t → ∃ id r, Turn_RunID t = Some id ∧ db_runs d !! id = Some r ∧ rowOk C t r;
  inv_claims : ∀ T base m, C !! T = Some (base, m) → T ≠ ""%string
}.

(** ** What a program knows *)

(** A program has claimed nothing yet, holds the lease [T] of [base], or has none.
    A holder knows the statuses its run may have while the lease lasts, unless it was
    cancelled. *)
Inductive Own :=
| Unclaimed (T : string)
| Holding (T : string) (base : Turn) (m : bool) (K : string → Prop)
| NoLease.

(** Besides, it knows tokens that are no longer in use or belong to a resumption, and
    runs that are cancelled. *)
Record Role := mkRole { role_own : Own; role_resumed : string → Prop; role_cancelled : Z → Prop }.

Definition ownToken (o : Role) : option string :=
  match role_own o with Unclaimed T | Holding T _ _ _ => Some T | NoLease => None end.

(** The row of [base] is running under [T]. *)
Definition alive (T : string) (base : Turn) (d : DB) : Prop :=
  ∃ t, db_turns d !! Turn_ID base = Some t ∧ Turn_LeaseToken t = T ∧ Turn_Status t = TurnStatusRunning.

Definition ownOk (C : Claims) (d : DB) (o : Own) : Prop :=
  match o with
  | Unclaimed T => T ≠ ""%string ∧ C !! T = None
  | Holding T base m K =>
      C !! T = Some (base, m) ∧
      (alive T base d → ∀ id r, Turn_RunID base = Some id → db_runs d !! id = Some r →
         Run_Status r = RunStatusCancelled ∨ K (Run_Status r))
  | NoLease => True
  end.

Record roleOk (C : Claims) (d : DB) (o : Role) : Prop := mkRoleOk {
  role_own_ok : ownOk C d (role_own o);
  role_resumed_ok : ∀ T, role_resumed o T → ∃ base m, C !! T = Some (base, m) ∧ (¬ alive T base d ∨ m = true);
  role_cancelled_ok : ∀ id, role_cancelled o id → ∃ r, db_runs d !! id = Some r ∧ Run_Status r = RunStatusCancelled
}.

(** ** What a step of another program leaves true *)

Record relies (by_ : option string) (C : Claims) (d : DB) (C' : Claims) (d' : DB) : Prop := mkRelies {
  rely_claims : C ⊆ C';
  rely_new : ∀ T, C !! T = None → is_Some (C' !! T) → by_ = Some T;
  rely_alive : ∀ T base m, C !! T = Some (base, m) → alive T base d' → alive T base d;
  rely_runs : ∀ T base m id r', C !! T = Some (base, m) → by_ ≠ Some T → alive T base d' → Turn_RunID base = Some id →
    db_runs d' !! id = Some r' → Run_Status r' = RunStatusCancelled ∨ ∃ r, db_runs d !! id = Some r ∧ Run_Status r' = Run_Status r;
  rely_legal : ∀ id r, db_runs d !! id = Some r →
    ∃ r', db_runs d' !! id = Some r' ∧ stepOk (Run_Status r) (Run_Status r') = true
}.

Lemma relies_refl by_ C d : relies by_ C d C d.
Proof.
  split; try done.
  - intros T HT [x Hx]. by rewrite HT in Hx.
  - intros T base m id r' _ _ _ _ Hr. right. eauto.
  - intros id r Hr. exists r. unfold stepOk. by rewrite String.eqb_refl.
Qed.

Lemma stepOk_cancelled s : stepOk RunStatusCancelled s = true → s = RunStatusCancelled.
Proof. unfold stepOk. intros H. bool_prop. destruct H as [H|H]; [by bool_prop|]. done. Qed.

(** What is known of tokens and of cancelled runs stays true whoever takes the
    step; what the others know stays true. *)
Lemma facts_stable by_ C d C' d' o :
  relies by_ C d C' d' → roleOk C d o →
  (∀ T, role_resumed o T → ∃ base m, C' !! T = Some (base, m) ∧ (¬ alive T base d' ∨ m = true)) ∧
  (∀ id, role_cancelled o id → ∃ r, db_runs d' !! id = Some r ∧ Run_Status r = RunStatusCancelled).
Proof.
  intros Hr [Hown Hres Hcan]. split.
  - intros T HF. destruct (Hres T HF) as (base & m & HC & Hna). exists base, m.
    split; [by eapply lookup_weaken, rely_claims|]. destruct Hna as [Hna|]; [left|by right].
    intros Ha. apply Hna. by eapply rely_alive.
  - intros id HG. destruct (Hcan id HG) as (r & Hr0 & Hst).
    destruct (rely_legal _ _ _ _ _ Hr id r Hr0) as (r' & Hr' & Hok). exists r'. split; [done|].
    apply stepOk_cancelled. by rewrite <- Hst.
Qed.

Lemma roleOk_stable by_ C d C' d' o :
  relies by_ C d C' d' → (∀ T, by_ = Some T → ownToken o ≠ Some T) → roleOk C d o → roleOk C' d' o.
Proof.
  intros Hr Hby Hok. destruct (facts_stable _ _ _ _ _ _ Hr Hok) as [HF HG]. split; [|done..].
  apply role_own_ok in Hok as Hown.
  destruct o as [[T|T base m K|] F G]; cbn in *; [|destruct Hown as [HC HK]|done].
  - destruct Hown as [HT HC]. split; [done|]. destruct (C' !! T) eqn:HC'; [|done].
    exfalso. apply (Hby T); [|done]. by eapply (rely_new _ _ _ _ _ Hr); [|rewrite HC'].
  - split; [by eapply lookup_weaken, rely_claims|]. intros Ha id r' Hid Hr'.
    destruct (rely_runs _ _ _ _ _ Hr T base m id r') as [|(r & Hr0 & ->)]; [done| |done..|by left|].
    + intros ->. by apply (Hby T).
    + apply (HK (rely_alive _ _ _ _ _ Hr _ _ _ HC Ha) id); done.
Qed.

Lemma relies_weaken by_ C d C' d' : relies None C d C' d' → relies by_ C d C' d'.
Proof.
  intros [Hc Hn Ha Hr Hl]. split; [done| |done| |done].
  - intros T HT Hs. by apply Hn in Hs.
  - intros. by eapply Hr.
Qed.

(** ** Writing a turn and its run *)

Section write.
Context (C : Claims) (d d' : DB) (k id : Z) (t t' : Turn) (r r' : Run).
Context (Hinv : DBInv C d) (Ht : db_turns d !! k = Some t) (Hid : Turn_RunID t = Some id) (Hr : db_runs d !! id = Some r).
Context (Ht' : db_turns d' = <[k := t']> (db_turns d)) (Hr' : db_runs d' = <[id := r']> (db_runs d)).

Lemma DBInv_write :
  Turn_ID t' = k → Turn_RunID t' = Some id → Run_ID r' = id → Run_RunType r' ≠ RunTypeSubagent → rowOk C t' r' → DBInv C d'.
Proof using All.
  intros Hk Hrun Hrid Htype Hok. destruct Hinv as [Hkeyed Hruns Huniq Hrows Hcl]. split.
  - unfold turnsKeyed. rewrite Ht'. apply map_Forall_insert_2; done.
  - unfold turnRuns. rewrite Hr'. apply map_Forall_insert_2; done.
  - intros k1 k2 t1 t2 i H1 H2. rewrite Ht', lookup_insert_Some in H1, H2.
    destruct H1 as [[<- <-]|[Hne1 H1]], H2 as [[<- <-]|[Hne2 H2]]; intros E1 E2; [done|..].
    + apply (Huniq k k2 t t2 i); congruence.
    + apply (Huniq k1 k t1 t i); congruence.
    + by apply (Huniq k1 k2 t1 t2 i).
  - intros k1 t1 H1. rewrite Ht', lookup_insert_Some in H1. destruct H1 as [[<- <-]|[Hne H1]].
    + exists id, r'. rewrite Hr', lookup_insert_eq. done.
    + destruct (Hrows k1 t1 H1) as (i & x & Hi & Hx & Hx'). exists i, x. split_and!; [done| |done].
      rewrite Hr', lookup_insert_ne; [done|]. intros <-. apply Hne. by apply (Huniq k k1 t t1 id).
  - done.
Qed.

(** A row that is running under a token after the write was so before it, and its run
    moved legally; the run of another's lease stayed or was cancelled. *)
Lemma relies_write by_ :
  Turn_ID t' = k → stepOk (Run_Status r) (Run_Status r') = true →
  (Turn_LeaseToken t' ≠ ""%string → Turn_Status t' = TurnStatusRunning →
     Turn_LeaseToken t = Turn_LeaseToken t' ∧ Turn_Status t = TurnStatusRunning ∧
     (by_ ≠ Some (Turn_LeaseToken t') → Run_Status r' = RunStatusCancelled ∨ Run_Status r' = Run_Status r)) →
  relies by_ C d C d'.
Proof using All.
  intros Hk Hstep Hrow. destruct Hinv as [Hkeyed Hruns Huniq Hrows Hcl].
  assert (∀ T base m, C !! T = Some (base, m) → alive T base d' →
    alive T base d ∧ (Turn_ID base = k → Turn_LeaseToken t' = T ∧ Turn_Status t' = TurnStatusRunning)) as Halive.
  { intros T base m HC (u & Hu & HT & Hst). rewrite Ht', lookup_insert_Some in Hu.
    destruct Hu as [[Heq <-]|[Hne Hu]]; [|split; [by exists u|by intros E; destruct Hne]].
    destruct Hrow as (Htok & Hrun & _); [by rewrite HT; apply (Hcl T base m)|done|].
    split; [|done]. exists t. rewrite <- Heq. split_and!; [done|congruence|done]. }
  split; [done|by intros T -> [? [=]]|by intros T base m HC Ha; eapply Halive| |].
  - intros T base m i x HC Hby Ha Hi Hx. rewrite Hr', lookup_insert_Some in Hx.
    destruct Hx as [[<- <-]|[Hne Hx]]; [|right; eauto].
    destruct (Halive T base m HC Ha) as [(u & Hu & HuT & Hust) Hk'].
    destruct (decide (Turn_ID base = k)) as [Heq|Hne].
    + destruct (Hk' Heq) as [HT Hst]. destruct Hrow as (_ & _ & [|Hx]); [by rewrite HT; apply (Hcl T base m)|done|congruence|by left|].
      right. eauto.
    + exfalso. apply Hne. destruct (Hrows _ _ Hu) as (i' & x' & Hi' & _ & Hok').
      destruct (row_lease _ _ _ Hok') as [[He _]|(base' & m' & HC' & (_ & _ & Hag & _) & _)].
      * destruct (Hcl T base m HC). congruence.
      * rewrite HuT, HC in HC'. injection HC' as <- <-. apply (Huniq _ k u t id); congruence.
  - intros i x Hx. rewrite Hr'. destruct (decide (i = id)) as [->|Hne].
    + rewrite lookup_insert_eq. exists r'. split; [done|]. by rewrite Hr in Hx; injection Hx as <-.
    + rewrite lookup_insert_ne by done. exists x. unfold stepOk. by rewrite String.eqb_refl.
Qed.
End write.

(** ** Calls *)

Definition runLike (base : Turn) (run : Run) : Prop :=
  Turn_RunID base = Some (Run_ID run) ∧ Run_OwnerID run = Turn_OwnerID base ∧ Run_RunType run ≠ RunTypeSubagent.

(** What a holder must write when it saves its turn and its run: if the lease still
    lasts, a pair of statuses that belong together, reached by a legal transition. *)
Definition saveOk (o : Own) (from : list string) (item : Turn) (run : Run) (keeps : bool) : Prop :=
  ∃ T base m K, o = Holding T base m K ∧ Turn_LeaseToken item = T ∧ agrees base item ∧ runLike base run ∧
    ∀ s, K s → s ∈ from ∧ pairOk (Turn_Status item) (Run_Status run) = true ∧ stepOk s (Run_Status run) = true ∧
      (if keeps then Turn_Status item = TurnStatusRunning ∧ modeOk m (Run_Status run) else Turn_Status item ≠ TurnStatusRunning).

Definition callOk (C : Claims) (o : Role) {X} (c : call X) : Prop :=
  match c with
  | UpdateTurn item =>
      ∃ T base m K, role_own o = Holding T base m K ∧ Turn_LeaseToken item = T ∧ agrees base item ∧
        ((Turn_Status item = TurnStatusCancelled ∧ ∃ id, Turn_RunID base = Some id ∧ role_cancelled o id) ∨
         (Turn_Status item = TurnStatusFailed ∧ ∀ s, K s → s ∈ [RunStatusQueued; RunStatusResuming]))
  | UpdateRun _ | CreateRun _ => False
  | SaveOwned item run release => saveOk (role_own o) settleableRun item run (negb release)
  | SaveWithMessage item _ run => saveOk (role_own o) settleableRun item run false
  | SavePaused turn run _ _ => saveOk (role_own o) [RunStatusRunning; RunStatusResuming] turn run false
  | Recover item run =>
      ∃ base m, C !! Turn_LeaseToken item = Some (base, m) ∧ agrees base item ∧ runLike base run ∧
        Turn_Status item ≠ TurnStatusRunning ∧ pairOk (Turn_Status item) (Run_Status run) = true ∧
        (Run_Status run ∈ [RunStatusQueued; RunStatusPaused] ∨
         (Run_Status run = RunStatusResuming ∧ role_resumed o (Turn_LeaseToken item)))
  | ClaimTurn _ token _ => role_own o = Unclaimed token
  | CancelTurnRow _ run _ => role_cancelled o run
  | _ => True
  end.

(** What the row of a run teaches. *)
Definition learnRun (C : Claims) (r : Run) (o : Role) : Role :=
  mkRole (match role_own o with
          | Holding T base m K => Holding T base m (λ s, K s ∧ (Turn_RunID base = Some (Run_ID r) → s = Run_Status r))
          | own => own
          end)
    (λ T, role_resumed o T ∨
       (Run_Status r = RunStatusResuming ∧ ∃ base m, C !! T = Some (base, m) ∧ Turn_RunID base = Some (Run_ID r)))
    (λ id, role_cancelled o id ∨ (Run_Status r = RunStatusCancelled ∧ id = Run_ID r)).

Definition setK (K : string → Prop) (o : Role) : Role :=
  mkRole (match role_own o with Holding T base m _ => Holding T base m K | own => own end) (role_resumed o) (role_cancelled o).

Definition learnCancelled (id : Z) (o : Role) : Role :=
  mkRole (role_own o) (role_resumed o) (λ i, role_cancelled o i ∨ i = id).

(** The lease may last. *)
Definition mayLive (o : Role) : Prop := ∃ T base m K s, role_own o = Holding T base m K ∧ K s.

(** The answers to a save: the rows are stored, the lease is lost, or the database
    failed and nothing happened. *)
Definition saved (item : Turn) (stored : Turn → Prop) (K : string → Prop) (o : Role) (x : Turn * option RepoErr) (o' : Role) : Prop :=
  match x with
  | (t, None) => stored t ∧ o' = setK K o ∧ mayLive o
  | (t, Some ErrLeaseLost) => t = item ∧ o' = setK (λ _, False) o
  | (t, Some (ErrDB _)) => t = item ∧ o' = o
  | _ => False
  end.

(** The possible answers of a call, and what the program knows after it.  [C] are the
    claims after the call. *)
Definition answers (C : Claims) (o : Role) {X} (c : call X) : X → Role → Prop :=
  match c in call X return X → Role → Prop with
  | FindRun owner id => λ x o',
      match x with
      | Ok r => Run_ID r = id ∧ Run_OwnerID r = owner ∧ Run_RunType r ≠ RunTypeSubagent ∧ o' = learnRun C r o
      | Err _ => o' = o
      end
  | SaveOwned item run release => λ x o',
      saved item (λ t, t = if release then clearTurnLease item else item) (λ s, release = false ∧ s = Run_Status run) o x o'
  | SaveWithMessage item _ run => λ x o',
      saved item (λ t, ∃ id, t = clearTurnLease (Turn_setAssistantMessageID (Some id) item)) (λ _, False) o x o'
  | SavePaused turn run _ _ => λ x o', saved turn (λ t, t = clearTurnLease turn) (λ _, False) o x o'
  | ListExpired _ _ => λ x o',
      o' = o ∧ match x with
               | Ok items => ∀ t, t ∈ items → ∃ base m, C !! Turn_LeaseToken t = Some (base, m) ∧ agrees base t
               | Err _ => True
               end
  | ClaimTurn _ T _ => λ x o',
      match x with
      | Ok t => Turn_LeaseToken t = T ∧ Turn_Status t = TurnStatusRunning ∧
          ∃ m, o' = mkRole (Holding T t m (λ s, s = if m then RunStatusResuming else RunStatusQueued)) (role_resumed o) (role_cancelled o)
      | Err _ => o' = o
      end
  | CancelRunRow item _ => λ x o',
      match x with
      | Ok (r, true) => Run_ID r = Run_ID item ∧ Run_Status r = RunStatusCancelled ∧ o' = learnCancelled (Run_ID item) o
      | Ok (r, false) => r = item ∧ o' = o
      | Err _ => o' = o
      end
  | ResumeRuntime _ _ _ _ => λ x o', o' = o ∧ is_Ok x
  | _ => λ _ o', o' = o
  end.

(** A program keeps to the discipline, whatever the answers; [Q] is what holds when
    it returns. *)
Fixpoint safe {A} (p : prog A) (C : Claims) (o : Role) (Q : Claims → Role → A → Prop) : Prop :=
  match p with
  | Ret a => Q C o a
  | Call c k => callOk C o c ∧ ∀ x C' o', C ⊆ C' → answers C' o c x o' → safe (k x) C' o' Q
  end.

(** ** A call keeps the invariant *)

(** The writes with which a worker gives up its lease. *)
Definition releases {X} (c : call X) : bool :=
  match c with SaveOwned _ _ release => release | SaveWithMessage _ _ _ | SavePaused _ _ _ _ => true | _ => false end.

Definition isLate (fault : Fault) : bool := match fault with FaultLate _ => true | _ => false end.

(** Calm environments: a transaction that gives up a lease does not fail after its
    statements ran (any call may fail before it did anything, and every other call also
    late), and the runtime returns no error while it resumes a run.  Outside of them the
    invariants below are lost: see [late_failure_mixes_statuses] and
    [resume_error_overwrites_retry] of [TurnSystem]. *)
Definition calm {X} (c : call X) (env : Env) : Prop :=
  (releases c = true → isLate (env_fault env) = false) ∧
  match c with ResumeRuntime _ _ _ _ => is_Ok (env_runtime env) | _ => True end.

(** The row of a lease, and its run. *)
Lemma held_row C d item T base m K o :
  DBInv C d → roleOk C d o → role_own o = Holding T base m K → Turn_LeaseToken item = T → agrees base item → holdsLease item d →
  ∃ t id r, db_turns d !! Turn_ID base = Some t ∧ Turn_LeaseToken t = T ∧ Turn_Status t = TurnStatusRunning ∧ agrees base t ∧
    Turn_RunID base = Some id ∧ db_runs d !! id = Some r ∧ rowOk C t r ∧ T ≠ ""%string ∧ C !! T = Some (base, m) ∧
    (Run_Status r = RunStatusCancelled ∨ K (Run_Status r)).
Proof.
  intros Hinv Hrole Hown HT (Hid & Hag) (t & Ht & Howner & Htok & Hst).
  pose proof (role_own_ok _ _ _ Hrole) as Hok. rewrite Hown in Hok. destruct Hok as [HC HK].
  rewrite Hid in Ht. destruct (inv_rows _ _ Hinv _ _ Ht) as (id & r & Hrun & Hr & Hrow).
  pose proof (inv_claims _ _ Hinv _ _ _ HC) as Hne.
  assert (agrees base t) as Hat.
  { destruct (row_lease _ _ _ Hrow) as [[He _]|(base' & m' & HC' & Hag' & _)]; [congruence|].
    rewrite Htok, HT, HC in HC'. by injection HC' as <- <-. }
  assert (Turn_RunID base = Some id) as Hbid by (destruct Hat as (_ & _ & <- & _); done).
  exists t, id, r. split_and!; try done; [congruence|]. apply (HK ltac:(exists t; split_and!; [done|congruence|done]) id r Hbid Hr).
Qed.

Section save.
Context (C : Claims) (d d' : DB) (o : Role) (from : list string) (item item' : Turn) (run : Run) (keeps : bool).
Context (T : string) (base : Turn) (m : bool) (K : string → Prop).
Context (Hinv : DBInv C d) (Hrole : roleOk C d o) (Hown : role_own o = Holding T base m K).
Context (HT : Turn_LeaseToken item = T) (Hag : agrees base item) (Hlike : runLike base run).
Context (Hwrite : ∀ s, K s → s ∈ from ∧ pairOk (Turn_Status item) (Run_Status run) = true ∧ stepOk s (Run_Status run) = true ∧
  (if keeps then Turn_Status item = TurnStatusRunning ∧ modeOk m (Run_Status run) else Turn_Status item ≠ TurnStatusRunning)).
Context (Hfrom : RunStatusCancelled ∉ from).

Lemma save_effect :
  holdsLease item d → runIn from run d →
  agrees base item' → Turn_Status item' = Turn_Status item → Turn_LeaseToken item' = (if keeps then T else "") →
  db_turns d' = <[Turn_ID item := item']> (db_turns d) → db_runs d' = <[Run_ID run := run]> (db_runs d) →
  DBInv C d' ∧ relies (Some T) C d C d' ∧ roleOk C d' (setK (λ s, keeps = true ∧ s = Run_Status run) o) ∧ mayLive o.
Proof using All.
  intros Hheld (r0 & Hr0 & _ & Hin) Hag' Hst' Htok' Ht' Hr'.
  destruct (held_row C d item T base m K o) as (t & id & r & Ht & Htok & Hst & Hat & Hbid & Hr & Hrow & Hne & HC & HK); [done..|].
  destruct Hlike as (Hlid & Hlo & Hlt). rewrite Hbid in Hlid. injection Hlid as ->.
  rewrite Hr0 in Hr. injection Hr as ->.
  destruct HK as [Hc|HK]; [by rewrite Hc in Hin|].
  destruct (Hwrite _ HK) as (_ & Hpair & Hstep & Hkeep).
  assert (Turn_ID item = Turn_ID base) as Hiid by apply Hag. rewrite Hiid in Ht'.
  destruct Hag' as (Hi1 & Hi2 & Hi3 & Hi4 & Hi5). destruct Hat as (Ha1 & Ha2 & Ha3 & Ha4 & Ha5).
  assert (rowOk C item' run) as Hrow'.
  { destruct Hrow as [Ho Hp Hatt Hmax _]. split; [congruence|by rewrite Hst'|rewrite Hi4, Hi5; lia|rewrite Hi5; lia|].
    destruct keeps; [right|left].
    - exists base, m. rewrite Htok', Hst'. destruct Hkeep as [Hk1 Hk2]. rewrite Hk1. split_and!; try done; [set_solver|by right].
    - by rewrite Hst', Htok'. }
  assert (DBInv C d') as Hinv' by (eapply DBInv_write; try done; congruence).
  assert (relies (Some T) C d C d') as Hrel.
  { eapply (relies_write C d d' (Turn_ID base) (Run_ID run) t item' r run); try done; [congruence|].
    intros Hn Hrun. destruct keeps; [|done]. split_and!; [congruence|done|]. intros []. by rewrite Htok'. }
  split_and!; [done..| |by exists T, base, m, K, (Run_Status r)].
  destruct (facts_stable _ _ _ _ _ _ Hrel Hrole) as [HF HG]. split; [|done..].
  unfold setK. rewrite Hown. cbn. split; [done|]. intros (u & Hu & HuT & Hust) id' r' Hid' Hr''.
  rewrite Ht', lookup_insert_eq in Hu. injection Hu as <-.
  rewrite Hbid in Hid'. injection Hid' as <-. rewrite Hr', lookup_insert_eq in Hr''. injection Hr'' as <-.
  right. destruct keeps; [done|]. congruence.
Qed.

(** The lease is lost, or the run is not one that can be settled: then, while the lease
    lasts, the run is cancelled. *)
Lemma save_lost : ¬ holdsLease item d ∨ ¬ runIn from run d → roleOk C d (setK (λ _, False) o).
Proof using All.
  intros Hlost. destruct Hrole as [Hok HF HG]. split; [|done..].
  unfold setK. rewrite Hown in Hok |- *. destruct Hok as [HC HK]. cbn. split; [done|].
  intros Ha id r Hid Hr. left. destruct Hlike as (Hlid & Hlo & Hlt). rewrite Hid in Hlid. injection Hlid as ->.
  destruct (HK Ha _ _ Hid Hr) as [|HKr]; [done|exfalso].
  destruct Ha as (t & Ht & Htok & Hst). destruct (inv_rows _ _ Hinv _ _ Ht) as (id' & r' & Hid' & Hr' & Hrow).
  assert (agrees base t) as (Ha1 & Ha2 & Ha3 & _).
  { destruct (row_lease _ _ _ Hrow) as [[He _]|(base' & m' & HC' & Hag' & _ & Hm)].
    - pose proof (inv_claims _ _ Hinv _ _ _ HC). congruence.
    - rewrite Htok, HC in HC'. by injection HC' as <- <-. }
  assert (id' = Run_ID run) as -> by congruence. rewrite Hr in Hr'. injection Hr' as <-.
  destruct Hag as (Hi1 & Hi2 & _). destruct Hlost as [[]|[]].
  - exists t. rewrite Hi1. split_and!; congruence.
  - exists r. pose proof (row_owner _ _ _ Hrow). split_and!; [done|congruence|]. by apply Hwrite.
Qed.
End save.

(** What the step of a program with role [o] establishes. *)
Definition outcome (C : Claims) (d : DB) (o : Role) {X} (c : call X) (x : X) (d' : DB) : Prop :=
  ∃ C' o', DBInv C' d' ∧ answers C' o c x o' ∧ roleOk C' d' o' ∧ relies (ownToken o) C d C' d' ∧ ownToken o' = ownToken o.

Lemma outcome_same C d o {X} (c : call X) x :
  DBInv C d → roleOk C d o → answers C o c x o → outcome C d o c x d.
Proof. intros. exists C, o. split_and!; auto using relies_refl. Qed.

Lemma outcome_neutral C d o {X} (c : call X) x d' o' :
  relies None C d C d' → DBInv C d' → roleOk C d o → answers C o c x o' → (roleOk C d' o → roleOk C d' o') →
  ownToken o' = ownToken o → outcome C d o c x d'.
Proof.
  intros Hrel Hinv Hrole Hans Hlearn Htok. exists C, o'. split_and!; [done..| |by apply relies_weaken|done].
  apply Hlearn. by eapply roleOk_stable.
Qed.

(** Only the turns and the runs matter. *)
Lemma DBInv_ext C d d' : db_turns d' = db_turns d → db_runs d' = db_runs d → DBInv C d → DBInv C d'.
Proof.
  intros Ht Hr [H1 H2 H3 H4 H5]. split; unfold turnsKeyed, turnRuns, runsUnique in *; rewrite ?Ht, ?Hr; done.
Qed.
Lemma relies_ext by_ C d d' : db_turns d' = db_turns d → db_runs d' = db_runs d → relies by_ C d C d'.
Proof.
  intros Ht Hr. destruct (relies_refl by_ C d) as [H1 H2 H3 H4 H5].
  split; unfold alive in *; rewrite ?Ht, ?Hr; try done; setoid_rewrite Hr; done.
Qed.

Lemma setK_token K o : ownToken (setK K o) = ownToken o.
Proof. unfold ownToken, setK. by destruct (role_own o). Qed.

Lemma save_protected C d o from item run keeps :
  DBInv C d → roleOk C d o → saveOk (role_own o) from item run keeps → leaseProtected item = true.
Proof.
  intros Hinv Hrole (T & base & m & K & Hown & HT & _). apply leaseProtected_true. rewrite HT.
  pose proof (role_own_ok _ _ _ Hrole) as Hok. rewrite Hown in Hok. destruct Hok as [HC _]. by eapply inv_claims.
Qed.

(** A save through [write], which follows the protocol of [completeOwned]. *)
Lemma outcome_save C d o {X} (c : call X) from item run keeps (stored : Turn → Prop) (K' : string → Prop) x d' item' err :
  DBInv C d → roleOk C d o → RunStatusCancelled ∉ from → saveOk (role_own o) from item run keeps →
  (err = None ∧ holdsLease item d ∧ runIn from run d ∧ stored item' ∧
     (∀ base, agrees base item → agrees base item') ∧ Turn_Status item' = Turn_Status item ∧
     Turn_LeaseToken item' = (if keeps then Turn_LeaseToken item else "") ∧
     db_turns d' = <[Turn_ID item := item']> (db_turns d) ∧ db_runs d' = <[Run_ID run := run]> (db_runs d)) ∨
  (err = Some ErrLeaseLost ∧ d' = d ∧ item' = item ∧ (¬ holdsLease item d ∨ ¬ runIn from run d)) ∨
  (∃ msg, err = Some (ErrDB msg) ∧ d' = d ∧ item' = item) →
  (∀ s, K' s ↔ keeps = true ∧ s = Run_Status run) →
  (∀ o', saved item stored K' o (item', err) o' → answers C o c x o') →
  outcome C d o c x d'.
Proof.
  intros Hinv Hrole Hfrom (T & base & m & K & Hown & HT & Hag & Hlike & Hwrite) Hcases HK' Hans.
  assert (ownToken o = Some T) as Htok by (unfold ownToken; by rewrite Hown).
  destruct Hcases as [(-> & Hheld & Hin & Hst & Hag' & Hstat & Htk & Ht' & Hr')|[(-> & -> & -> & Hlost)|(msg & -> & -> & ->)]].
  - destruct (save_effect C d d' o from item item' run keeps T base m K) as (Hinv' & Hrel & Hrole' & Hlive); auto; [by rewrite Htk, HT|].
    exists C, (setK K' o). split_and!; [done|by apply Hans| |by rewrite Htok|apply setK_token].
    destruct Hrole' as [Hok HF HG]. split; [|done..]. unfold setK in *. rewrite Hown in Hok |- *. cbn in *.
    destruct Hok as [HC HK]. split; [done|]. intros Ha id r Hid Hr. rewrite HK'. eauto.
  - exists C, (setK (λ _, False) o). split_and!; [done|by apply Hans|by eapply save_lost|apply relies_refl|apply setK_token].
  - apply outcome_same; [done..|]. by apply Hans.
Qed.

#[export] Instance alive_dec T base d : Decision (alive T base d).
Proof.
  unfold alive. destruct (db_turns d !! Turn_ID base) as [t|]; [|right; naive_solver].
  destruct (decide (Turn_LeaseToken t = T ∧ Turn_Status t = TurnStatusRunning)); [left|right]; naive_solver.
Defined.

(** The run of a lease that lasts. *)
Lemma alive_run C d T base m :
  DBInv C d → C !! T = Some (base, m) → alive T base d →
  ∃ id r, Turn_RunID base = Some id ∧ db_runs d !! id = Some r ∧ (Run_Status r = RunStatusCancelled ∨ modeOk m (Run_Status r)).
Proof.
  intros Hinv HC (t & Ht & Htok & Hst). destruct (inv_rows _ _ Hinv _ _ Ht) as (id & r & Hid & Hr & Hrow).
  destruct (row_lease _ _ _ Hrow) as [[He _]|(base' & m' & HC' & (_ & _ & Hag & _) & _ & Hm)].
  - pose proof (inv_claims _ _ Hinv _ _ _ HC). congruence.
  - rewrite Htok, HC in HC'. injection HC' as <- <-. exists id, r. split_and!; [congruence|done|auto].
Qed.

Lemma runs_FindByID_Ok owner id d r : runs_FindByID owner id d = Ok r → db_runs d !! id = Some r ∧ Run_OwnerID r = owner.
Proof.
  unfold runs_FindByID. destruct (db_runs d !! id); [|done]. destruct (_ =? _) eqn:He; [|done]. intros [= <-]. by bool_prop.
Qed.

Lemma learnRun_ok C d o r id :
  DBInv C d → roleOk C d o → db_runs d !! id = Some r → roleOk C d (learnRun C r o).
Proof.
  intros Hinv [Hown HF HG] Hr. destruct (inv_turnRuns _ _ Hinv _ _ Hr) as [Hid _]. cbn in Hid. split; cbn.
  - destruct (role_own o) as [T|T base m K|]; cbn in *; [done| |done]. destruct Hown as [HC HK]. split; [done|].
    intros Ha i x Hi Hx. destruct (HK Ha i x Hi Hx) as [|HKx]; [by left|right]. split; [done|]. intros Hb. congruence.
  - intros T [HT|(Hst & base & m & HC & Hb)]; [auto|]. exists base, m. split; [done|].
    destruct (decide (alive T base d)) as [Ha|]; [right|by left].
    destruct (alive_run _ _ _ _ _ Hinv HC Ha) as (i & x & Hi & Hx & Hm).
    assert (x = r) as -> by congruence. rewrite Hst in Hm. destruct m; [done|].
    destruct Hm as [|Hm]; [done|]. cbn in Hm. set_solver.
  - intros i [HG'|[Hst ->]]; [auto|]. exists r. by rewrite Hid.
Qed.

Lemma outcome_FindRun C d o owner id x d' env :
  DBInv C d → roleOk C d o →
  query (env_fault env) (runs_FindByID owner id) d = (x, d') → outcome C d o (FindRun owner id) x d'.
Proof.
  intros Hinv Hrole. unfold query, transaction.
  destruct (env_fault env); intros [= <- <-]; [|by apply outcome_same..].
  destruct (runs_FindByID owner id d) as [r|e] eqn:Hr; [|by apply outcome_same].
  apply runs_FindByID_Ok in Hr as [Hr How]. destruct (inv_turnRuns _ _ Hinv _ _ Hr) as [Hid Htype].
  exists C, (learnRun C r o). split_and!; [done|done|by eapply learnRun_ok|apply relies_refl|].
  unfold ownToken, learnRun. cbn. by destruct (role_own o).
Qed.

(** Reads that teach nothing. *)
Lemma outcome_read C d o {A} (c : call (result RepoErr A)) f x d' fault :
  DBInv C d → roleOk C d o → (∀ x, answers C o c x o) →
  query fault f d = (x, d') → outcome C d o c x d'.
Proof.
  intros Hinv Hrole Hans. unfold query, transaction. destruct fault; intros [= <- <-]; by apply outcome_same.
Qed.

Lemma outcome_ListExpired C d o before limit x d' env :
  DBInv C d → roleOk C d o →
  query (env_fault env) (λ d, Ok (ListExpiredRunning before limit d)) d = (x, d') → outcome C d o (ListExpired before limit) x d'.
Proof.
  intros Hinv Hrole. unfold query, transaction. destruct (env_fault env); intros [= <- <-]; [|by apply outcome_same..].
  apply outcome_same; [done..|]. split; [done|]. intros t Ht.
  unfold ListExpiredRunning in Ht. apply elem_of_take in Ht as (i & Ht & _). apply list_elem_of_lookup_2 in Ht.
  apply elem_of_sort_stable, elem_of_selectRows in Ht as (k & Hk & Hex). unfold expiredTurn in Hex. bool_prop.
  destruct (inv_rows _ _ Hinv _ _ Hk) as (id & r & _ & _ & Hrow).
  destruct (row_lease _ _ _ Hrow) as [[_ Hn]|(base & m & HC & Hag & _)]; [congruence|eauto].
Qed.

Lemma cancelled_unsettleable : RunStatusCancelled ∉ settleableRun ∧ RunStatusCancelled ∉ [RunStatusRunning; RunStatusResuming].
Proof. split; apply (bool_decide_eq_true_1 _); reflexivity. Qed.

Lemma clearTurnLease_agrees base t : agrees base t → agrees base (clearTurnLease t).
Proof. done. Qed.

Lemma outcome_SaveOwned C d o item run release x d' env :
  DBInv C d → roleOk C d o → callOk C o (SaveOwned item run release) → calm (SaveOwned item run release) env →
  ownedTransaction (env_fault env) item (UpdateRunOwned item run release) d = (x, d') →
  outcome C d o (SaveOwned item run release) x d'.
Proof.
  intros Hinv Hrole Hok [Hf _] Hp. pose proof (save_protected _ _ _ _ _ _ _ Hinv Hrole Hok) as Hprot.
  destruct x as [item' err].
  eapply (outcome_save C d o _ settleableRun item run (negb release) (λ t, t = if release then clearTurnLease item else item)
    (λ s, release = false ∧ s = Run_Status run) _ d' item' err); [done..|apply cancelled_unsettleable|done| |by destruct release; naive_solver|done].
  unfold ownedTransaction, transaction in Hp. destruct (UpdateRunOwned item run release d) as [[d1 t1] e1] eqn:Hu.
  unfold UpdateRunOwned in Hu. apply completeOwned_cases in Hu; [|done]. cbn in Hf.
  destruct (env_fault env); cbn in Hp; [|injection Hp as <- <- <-; right; right; by eexists|];
    destruct Hu as [(-> & Hh & Hr & -> & ->)|(-> & -> & -> & Hl)]; injection Hp as <- <- <-; [left|by right; left| |by right; left].
  - destruct release; cbn; split_and!; done.
  - destruct release; [by specialize (Hf eq_refl)|]. right; right. by eexists.
Qed.

Lemma outcome_SaveWithMessage C d o item message run x d' env :
  DBInv C d → roleOk C d o → callOk C o (SaveWithMessage item message run) → calm (SaveWithMessage item message run) env →
  ownedTransaction (env_fault env) item (CompleteWithMessage item message run) d = (x, d') →
  outcome C d o (SaveWithMessage item message run) x d'.
Proof.
  intros Hinv Hrole Hok [Hf _] Hp. pose proof (save_protected _ _ _ _ _ _ false Hinv Hrole Hok) as Hprot.
  destruct x as [item' err].
  eapply (outcome_save C d o _ settleableRun item run false (λ t, ∃ id, t = clearTurnLease (Turn_setAssistantMessageID (Some id) item))
    (λ _, False) _ d' item' err); [done..|apply cancelled_unsettleable|done| |naive_solver|done].
  unfold ownedTransaction, transaction in Hp. destruct (env_fault env); [|injection Hp as <- <- <-; right; right; by eexists|by specialize (Hf eq_refl)].
  destruct (CompleteWithMessage item message run d) as [[d1 t1] e1] eqn:Hu. injection Hp as <- <- <-.
  unfold CompleteWithMessage in Hu. apply completeOwned_cases in Hu as [(-> & Hh & Hr & -> & ->)|(-> & -> & -> & Hl)]; [left|by right; left|done].
  cbn. split_and!; [done..|by eexists|done|done|done|done|done].
Qed.

Lemma outcome_SavePaused C d o turn run approval checkpoint x d' env :
  DBInv C d → roleOk C d o → callOk C o (SavePaused turn run approval checkpoint) → calm (SavePaused turn run approval checkpoint) env →
  ownedTransaction (env_fault env) turn (SavePausedRun turn run approval checkpoint) d = (x, d') →
  outcome C d o (SavePaused turn run approval checkpoint) x d'.
Proof.
  intros Hinv Hrole Hok [Hf _] Hp. pose proof (save_protected _ _ _ _ _ _ false Hinv Hrole Hok) as Hprot.
  destruct x as [turn' err].
  eapply (outcome_save C d o _ [RunStatusRunning; RunStatusResuming] turn run false (λ t, t = clearTurnLease turn)
    (λ _, False) _ d' turn' err); [done..|apply cancelled_unsettleable|done| |naive_solver|done].
  unfold ownedTransaction, transaction in Hp. destruct (env_fault env); [|injection Hp as <- <- <-; right; right; by eexists|by specialize (Hf eq_refl)].
  destruct (SavePausedRun turn run approval checkpoint d) as [[d1 t1] e1] eqn:Hu. injection Hp as <- <- <-.
  apply SavePausedRun_cases in Hu as [(-> & Hh & Hr & -> & Ht1 & Hr1 & _)|(-> & -> & -> & Hl)]; [left|by right; left|done].
  by split_and!.
Qed.

Lemma leaseOk_base C d t r base m :
  DBInv C d → leaseOk C t r → C !! Turn_LeaseToken t = Some (base, m) →
  agrees base t ∧ Turn_Status t ∈ [TurnStatusRunning; TurnStatusFailed; TurnStatusCancelled] ∧
  (Turn_Status t = TurnStatusRunning → Run_Status r = RunStatusCancelled ∨ modeOk m (Run_Status r)).
Proof.
  intros Hinv [[He _]|(base' & m' & HC' & Hrest)] HC.
  - pose proof (inv_claims _ _ Hinv _ _ _ HC). congruence.
  - rewrite HC in HC'. by injection HC' as <- <-.
Qed.

(** The turn alone is written. *)
Lemma write_turn C d k t t' id r :
  DBInv C d → db_turns d !! k = Some t → Turn_RunID t = Some id → db_runs d !! id = Some r →
  Turn_ID t' = k → Turn_RunID t' = Some id → rowOk C t' r →
  (Turn_LeaseToken t' ≠ ""%string → Turn_Status t' = TurnStatusRunning →
     Turn_LeaseToken t = Turn_LeaseToken t' ∧ Turn_Status t = TurnStatusRunning) →
  DBInv C (saveTurn t' d) ∧ relies None C d C (saveTurn t' d).
Proof.
  intros Hinv Ht Hid Hr Hk Hid' Hrow Hkeep. destruct (inv_turnRuns _ _ Hinv _ _ Hr) as [Hrid Htype].
  assert (db_turns (saveTurn t' d) = <[k := t']> (db_turns d)) as Hts by (cbn; by rewrite Hk).
  assert (db_runs (saveTurn t' d) = <[id := r]> (db_runs d)) as Hrs by (cbn; by rewrite insert_id).
  split; [by eapply DBInv_write|]. eapply relies_write; try done; [unfold stepOk; by rewrite String.eqb_refl|].
  intros Hn Hst. destruct (Hkeep Hn Hst). auto.
Qed.

Lemma pairOk_failed turn run :
  Turn_Status turn ∈ [TurnStatusRunning; TurnStatusFailed; TurnStatusCancelled] → pairOk (Turn_Status turn) run = true →
  (Turn_Status turn = TurnStatusRunning → run ∈ [RunStatusQueued; RunStatusResuming; RunStatusCancelled]) →
  pairOk TurnStatusFailed run = true.
Proof.
  intros Hst Hp Hrun. rewrite !elem_of_cons, elem_of_nil in Hst. destruct Hst as [Hst|[Hst|[Hst|[]]]]; rewrite Hst in Hp, Hrun; [|done|].
  - specialize (Hrun eq_refl).
    repeat (apply elem_of_cons in Hrun as [->|Hrun]; [reflexivity|]). by apply elem_of_nil in Hrun.
  - cbn in Hp. apply one_of_true in Hp. apply list_elem_of_singleton in Hp as ->. done.
Qed.

Lemma outcome_UpdateTurn C d o item x d' env :
  DBInv C d → roleOk C d o → callOk C o (UpdateTurn item) →
  statement (env_fault env) (turns_Update item) d = (x, d') → outcome C d o (UpdateTurn item) x d'.
Proof.
  intros Hinv Hrole (T & base & m & K & Hown & HT & Hag & Hwhat) Hp.
  pose proof (role_own_ok _ _ _ Hrole) as Hok. rewrite Hown in Hok. destruct Hok as [HC HK].
  unfold statement, transaction in Hp. destruct (env_fault env); [|injection Hp as <- <-; by apply outcome_same..].
  destruct (turns_Update item d) as [d1 e1] eqn:Hu. injection Hp as <- <-.
  apply turns_Update_cases in Hu as [(-> & -> & t & Ht & Howner & Htok)|(-> & ->)];
    [|by apply outcome_same|apply leaseProtected_true; rewrite HT; by eapply inv_claims].
  destruct (inv_rows _ _ Hinv _ _ Ht) as (id & r & Hid & Hr & [Hro Hrp Hra Hrm Hrl]).
  rewrite <- HT, <- Htok in HC. destruct (leaseOk_base _ _ _ _ _ _ Hinv Hrl HC) as ((Ha1 & Ha2 & Ha3 & Ha4 & Ha5) & Hst & Hm).
  destruct Hag as (Hi1 & Hi2 & Hi3 & Hi4 & Hi5).
  assert (Turn_Status item = TurnStatusCancelled ∨ Turn_Status item = TurnStatusFailed) as Hs by naive_solver.
  assert (pairOk (Turn_Status item) (Run_Status r) = true) as Hpair.
  { destruct Hwhat as [(-> & id' & Hid' & HG)|(-> & HKq)].
    - destruct (role_cancelled_ok _ _ _ Hrole _ HG) as (r' & Hr' & Hc). assert (r' = r) as -> by congruence. by rewrite Hc.
    - eapply pairOk_failed; [done..|]. intros Hrun.
      assert (alive T base d) as Ha by (exists t; rewrite <- Hi1; split_and!; [done|by rewrite Htok|done]).
      destruct (HK Ha id r) as [->|HKr]; [by rewrite <- Hid, Ha3|done|set_solver|].
      specialize (HKq _ HKr). set_solver. }
  assert (rowOk C item r) as Hrow.
  { split; [congruence|done|rewrite Hi4, Hi5; lia|rewrite Hi5; lia|]. right. exists base, m.
    rewrite <- Htok. split_and!; [done|done| |].
    - destruct Hs as [->| ->]; set_solver.
    - intros Hrun. exfalso. rewrite Hrun in Hs. by destruct Hs. }
  destruct (write_turn C d (Turn_ID item) t item id r) as [Hinv' Hrel]; try done; [congruence| |].
  { intros _ Hrun. exfalso. rewrite Hrun in Hs. by destruct Hs. }
  by eapply (outcome_neutral _ _ _ _ _ _ o).
Qed.

Lemma outcome_RenewTurn C d o id token until x d' env :
  DBInv C d → roleOk C d o →
  statement (env_fault env) (RenewLease (env_now env) id token until) d = (x, d') → outcome C d o (RenewTurn id token until) x d'.
Proof.
  intros Hinv Hrole Hp.
  unfold statement, transaction in Hp. destruct (env_fault env); [|injection Hp as <- <-; by apply outcome_same..].
  destruct (RenewLease _ _ _ _ d) as [d1 e1] eqn:Hu. injection Hp as <- <-.
  apply RenewLease_cases in Hu as [(-> & t & Ht & Htok & Hst & ->)|(-> & ->)]; [|by apply outcome_same].
  destruct (inv_rows _ _ Hinv _ _ Ht) as (i & r & Hid & Hr & [Hro Hrp Hra Hrm Hrl]).
  pose proof (inv_keyed _ _ Hinv _ _ Ht) as Hk. cbn in Hk.
  edestruct (write_turn C d id t (Turn_setLastHeartbeatAt (Some (env_now env)) (Turn_setLeaseExpiresAt (Some until) t)) i r) as [Hinv' Hrel]; try done.
  by eapply (outcome_neutral _ _ _ _ _ _ o).
Qed.

Lemma outcome_Recover C d o item run x d' env :
  DBInv C d → roleOk C d o → callOk C o (Recover item run) →
  ownedTransaction (env_fault env) item (RecoverExpired (env_now env) item run) d = (x, d') → outcome C d o (Recover item run) x d'.
Proof.
  intros Hinv Hrole (base & m & HC & Hag & (Hlid & Hlo & Hlt) & Hns & Hpair & Hfrom) Hp.
  unfold ownedTransaction, transaction in Hp. destruct (env_fault env); [|injection Hp as <- <-; by apply outcome_same..].
  destruct (RecoverExpired _ item run d) as [[d1 t1] e1] eqn:Hu. injection Hp as <- <-.
  apply RecoverExpired_cases in Hu as [(-> & (t & Ht & How & Htok & Hst) & (r & Hr & Hro' & Hin) & -> & _ & ->)|(-> & -> & ->)];
    [|by apply outcome_same|apply leaseProtected_true; by eapply inv_claims].
  destruct (inv_rows _ _ Hinv _ _ Ht) as (id & r0 & Hid & Hr0 & [Hro Hrp Hra Hrm Hrl]).
  pose proof HC as HC'. rewrite <- Htok in HC'.
  destruct (leaseOk_base _ _ _ _ _ _ Hinv Hrl HC') as ((Ha1 & Ha2 & Ha3 & Ha4 & Ha5) & _ & Hm).
  assert (id = Run_ID run) as -> by congruence. rewrite Hr in Hr0. injection Hr0 as <-.
  destruct Hag as (Hi1 & Hi2 & Hi3 & Hi4 & Hi5).
  assert (stepOk (Run_Status r) (Run_Status run) = true) as Hstep.
  { rewrite !elem_of_cons, elem_of_nil in Hin. destruct Hfrom as [Hq|[Hres HF]].
    - rewrite !elem_of_cons, elem_of_nil in Hq. destruct Hin as [->|[->|[]]], Hq as [->|[->|[]]]; done.
    - rewrite Hres. destruct (role_resumed_ok _ _ _ Hrole _ HF) as (base' & m' & HC2 & Hdead).
      rewrite HC in HC2. injection HC2 as <- <-. destruct Hdead as [Hdead|Hm'].
      + destruct Hdead. exists t. split_and!; [by rewrite <- Hi1|done..].
      + rewrite Hm' in Hm. destruct (Hm Hst) as [Hc|Hc]; rewrite Hc in Hin |- *; [by destruct Hin as [Hin|[Hin|[]]]|done]. }
  assert (rowOk C (clearTurnLease item) run) as Hrow.
  { split; cbn; [congruence|done|rewrite Hi4, Hi5; lia|rewrite Hi5; lia|by left]. }
  set (d2 := saveRun run (saveTurn (clearTurnLease item) d)).
  assert (relies None C d C d2) as Hrel
    by (eapply (relies_write C d d2 (Turn_ID item) (Run_ID run) t (clearTurnLease item) r run); done).
  assert (DBInv C d2) as Hinv2.
  { eapply (DBInv_write C d d2 (Turn_ID item) (Run_ID run) t (clearTurnLease item) r run); try done. cbn. congruence. }
  by eapply (outcome_neutral _ _ _ _ _ _ o).
Qed.

(** ** Claims, cancellations and resumptions *)

Lemma rowOk_mono C C' t r : C ⊆ C' → rowOk C t r → rowOk C' t r.
Proof.
  intros Hsub [Ho Hp Ha Hm Hl]. split; [done..|]. destruct Hl as [Hl|(base & m & HC & Hrest)]; [by left|right].
  exists base, m. split; [by eapply lookup_weaken|done].
Qed.

Lemma DBInv_claim C d T base m : DBInv C d → C !! T = None → T ≠ ""%string → DBInv (<[T := (base, m)]> C) d.
Proof.
  intros [H1 H2 H3 H4 H5] HT Hne. split; [done..| |].
  - intros k t Hk. destruct (H4 k t Hk) as (id & r & Hid & Hr & Hrow). exists id, r. split_and!; [done..|].
    eapply rowOk_mono; [|done]. by apply insert_subseteq.
  - intros T' b' m' HT'. apply lookup_insert_Some in HT' as [[<- _]|[_ HT']]; eauto.
Qed.

Lemma claimable_pair C d now t id r :
  DBInv C d → claimableTurn now t = true → Turn_RunID t = Some id → db_runs d !! id = Some r → rowOk C t r →
  Turn_LeaseToken t = ""%string ∧ Turn_AttemptCount t < Turn_MaxAttempts t ∧
  Run_Status r ∈ [RunStatusQueued; RunStatusResuming; RunStatusCancelled].
Proof.
  intros Hinv Hc Hid Hr [Ho Hp Ha Hm Hl]. unfold claimableTurn in Hc. bool_prop. apply one_of_true in H. split_and!; [|done|].
  - destruct Hl as [[? _]|(base & m & HC & _ & Hs & _)]; [done|]. exfalso.
    rewrite !elem_of_cons, elem_of_nil in H. rewrite !elem_of_cons, elem_of_nil in Hs.
    destruct H as [H|[H|[]]]; rewrite H in Hs; by destruct Hs as [|[|[|[]]]].
  - unfold pairOk in Hp. rewrite (proj2 (one_of_true _ _)) in Hp by done. by apply one_of_true in Hp.
Qed.

Lemma outcome_ClaimTurn C d o worker T until x d' env :
  DBInv C d → roleOk C d o → callOk C o (ClaimTurn worker T until) →
  transaction (env_fault env) (λ d, let '(d', r) := ClaimNext (env_now env) worker T until d in (r, d')) Err (λ e _, Err e) d = (x, d') →
  outcome C d o (ClaimTurn worker T until) x d'.
Proof.
  intros Hinv Hrole Hcall Hp. unfold transaction in Hp.
  destruct (env_fault env); [|injection Hp as <- <-; by apply outcome_same..].
  destruct (ClaimNext _ _ _ _ d) as [d1 r1] eqn:Hc. injection Hp as <- <-.
  apply ClaimNext_cases in Hc as [(-> & -> & _)|(t & Ht & Hcl & _ & -> & ->)]; [by apply outcome_same| |apply Hinv].
  pose proof (role_own_ok _ _ _ Hrole) as Hok. cbn in Hcall. rewrite Hcall in Hok. destruct Hok as [Hne HC].
  destruct (inv_rows _ _ Hinv _ _ Ht) as (id & r & Hid & Hr & Hrow).
  destruct (claimable_pair _ _ _ _ _ _ Hinv Hcl Hid Hr Hrow) as (Htok & Hatt & Hst).
  destruct (inv_turnRuns _ _ Hinv _ _ Hr) as [Hrid Htype].
  set (t' := claimTurn (env_now env) worker T until t).
  set (m := bool_decide (Run_Status r = RunStatusResuming)).
  set (C' := <[T := (t', m)]> C). set (d' := saveTurn t' d).
  assert (DBInv C' d) as Hinv1 by by apply DBInv_claim.
  assert (db_runs d' = <[id := r]> (db_runs d)) as Hruns by (cbn; by rewrite insert_id).
  assert (Run_Status r = RunStatusCancelled ∨ Run_Status r = if m then RunStatusResuming else RunStatusQueued) as Hmode.
  { subst m. case_bool_decide; [by right|]. rewrite !elem_of_cons, elem_of_nil in Hst. naive_solver. }
  assert (rowOk C' t' r) as Hrow'.
  { destruct Hrow as [Ho Hp Ha Hm Hl]. split; [done| |cbn; lia|done|].
    - cbn. rewrite !elem_of_cons, elem_of_nil in Hst. by destruct Hst as [->|[->|[->|[]]]].
    - right. exists t', m. split_and!; [by apply lookup_insert_eq|done|by apply elem_of_cons; left|]. intros _.
      destruct Hmode as [|Hmode]; [by left|right]. rewrite Hmode. destruct m; [done|by apply elem_of_cons; left]. }
  assert (DBInv C' d') as Hinv'.
  { eapply (DBInv_write C' d d' (Turn_ID t) id t t' r r); done. }
  assert (relies (Some T) C d C' d') as Hrel.
  { assert (∀ T0 base m0, C !! T0 = Some (base, m0) → alive T0 base d' → alive T0 base d) as Halive.
    { intros T0 base m0 HC0 (u & Hu & HuT & Hust). cbn in Hu. rewrite lookup_insert_Some in Hu.
      destruct Hu as [[_ <-]|[_ Hu]]; [cbn in HuT; congruence|by exists u]. }
    split; [by apply insert_subseteq| |done| |].
    - intros T0 HT0 [y Hy]. apply lookup_insert_Some in Hy as [[<- _]|[_ Hy]]; [done|].
      change (C !! T0 = Some y) in Hy. by rewrite HT0 in Hy.
    - intros T0 base m0 i x HC0 Hne0 Ha Hi Hx. right. by exists x.
    - intros i x Hx. exists x. unfold stepOk. by rewrite String.eqb_refl. }
  destruct (facts_stable _ _ _ _ _ _ Hrel Hrole) as [HF HG].
  exists C', (mkRole (Holding T t' m (λ s, s = if m then RunStatusResuming else RunStatusQueued)) (role_resumed o) (role_cancelled o)).
  split_and!; [done|split_and!; [done..|by exists m]| |unfold ownToken; by rewrite Hcall..].
  split; [|done..]. cbn. split; [by apply lookup_insert_eq|]. intros _ i x Hi Hx. assert (x = r) as -> by congruence. done.
Qed.

Lemma pairOk_cancel turn run : pairOk turn run = true → IsActiveRunStatus run = true → pairOk turn RunStatusCancelled = true.
Proof.
  intros Hp Ha. unfold pairOk in *. repeat split_match_in Hp; try done.
  apply one_of_true in Hp. apply list_elem_of_singleton in Hp as ->. done.
Qed.

Lemma outcome_CancelRunRow C d o item fin x d' env :
  DBInv C d → roleOk C d o →
  transaction (env_fault env) (λ d, let '(d', r, b) := CancelActive item fin d in (Ok (r, b), d')) Err (λ e _, Err e) d = (x, d') →
  outcome C d o (CancelRunRow item fin) x d'.
Proof.
  intros Hinv Hrole Hp. unfold transaction in Hp.
  destruct (env_fault env); [|injection Hp as <- <-; by apply outcome_same..].
  destruct (CancelActive item fin d) as [[d1 r1] b1] eqn:Hc. injection Hp as <- <-.
  apply CancelActive_cases in Hc as [(-> & r & Hr & How & Hact & -> & ->)|(-> & -> & ->)]; [|by apply outcome_same].
  destruct (inv_turnRuns _ _ Hinv _ _ Hr) as [Hrid Htype]. cbn in Hrid.
  set (r' := Run_setFinishedAt (Some fin) (Run_setStatus RunStatusCancelled r)). set (d' := saveRun r' d).
  assert (db_runs d' = <[Run_ID item := r']> (db_runs d)) as Hruns by (cbn; by rewrite Hrid).
  assert (DBInv C d') as Hinv'.
  { destruct Hinv as [H1 H2 H3 H4 H5]. split; [done| |done| |done].
    - unfold turnRuns. rewrite Hruns. by apply map_Forall_insert_2.
    - intros k t Hk. destruct (H4 k t Hk) as (id & x & Hid & Hx & Hrow). rewrite Hruns.
      destruct (decide (id = Run_ID item)) as [->|Hne]; [|exists id, x; by rewrite lookup_insert_ne].
      exists (Run_ID item), r'. rewrite lookup_insert_eq. split_and!; [done..|].
      assert (x = r) as -> by congruence. destruct Hrow as [Ho Hp Ha Hm Hl]. split; [done| |done..|].
      + by eapply pairOk_cancel.
      + destruct Hl as [Hl|(base & m & HC & Hag & Hs & _)]; [by left|right]. exists base, m. split_and!; auto. }
  assert (relies None C d C d') as Hrel.
  { split; [done|by intros T -> [? [=]]|done| |].
    - intros T base m id x HC _ Ha Hid Hx. rewrite Hruns, lookup_insert_Some in Hx.
      destruct Hx as [[_ <-]|[_ Hx]]; [by left|right; eauto].
    - intros id x Hx. rewrite Hruns. destruct (decide (id = Run_ID item)) as [->|Hne].
      + exists r'. rewrite lookup_insert_eq. split; [done|]. assert (x = r) as -> by congruence.
        unfold IsActiveRunStatus in Hact. apply one_of_true in Hact. rewrite !elem_of_cons, elem_of_nil in Hact.
        destruct Hact as [->|[->|[->|[->|[->|[]]]]]]; reflexivity.
      + exists x. rewrite lookup_insert_ne by done. unfold stepOk. by rewrite String.eqb_refl. }
  eapply (outcome_neutral _ _ _ _ _ _ (learnCancelled (Run_ID item) o)); [done..| |done].
  intros [Hown HF HG]. split; [done..|]. intros id [Hid| ->]; [auto|]. exists r'. by rewrite Hruns, lookup_insert_eq.
Qed.

Lemma outcome_CancelTurnRow C d o owner run fin x d' env :
  DBInv C d → roleOk C d o → callOk C o (CancelTurnRow owner run fin) →
  transaction (env_fault env) (λ d, let '(d', r) := CancelByRun owner run fin d in (r, d')) Err (λ e _, Err e) d = (x, d') →
  outcome C d o (CancelTurnRow owner run fin) x d'.
Proof.
  intros Hinv Hrole HGrun Hp. unfold transaction in Hp.
  destruct (env_fault env); [|injection Hp as <- <-; by apply outcome_same..].
  unfold CancelByRun in Hp. destruct (updateRows _ _ _) as [turns n] eqn:Hup. injection Hp as _ <-.
  unfold updateRows in Hup. injection Hup as Hturns _.
  set (d' := set_turns turns d).
  destruct (role_cancelled_ok _ _ _ Hrole _ HGrun) as (rr & Hrr & Hcanc).
  assert (∀ k t', db_turns d' !! k = Some t' → ∃ t, db_turns d !! k = Some t ∧
    (t' = t ∨ (t' = cancelTurn fin t ∧ Turn_RunID t = Some run))) as Hrows'.
  { intros k t' Hk. cbn in Hk. rewrite <- Hturns, lookup_fmap in Hk. destruct (db_turns d !! k) as [t|] eqn:Ht; [|done].
    injection Hk as <-. exists t. split; [done|]. destruct (_ && _ && _) eqn:Hc; [right|by left]. by bool_prop. }
  assert (DBInv C d') as Hinv'.
  { destruct Hinv as [H1 H2 H3 H4 H5]. split; [|done| | |done].
    - intros k t' Hk. destruct (Hrows' k t' Hk) as (t & Ht & [->|[-> _]]); by apply (H1 k t).
    - intros k k' t1 t2 id Hk Hk' Hid1 Hid2. destruct (Hrows' _ _ Hk) as (u1 & Hu1 & Ht1), (Hrows' _ _ Hk') as (u2 & Hu2 & Ht2).
      apply (H3 k k' u1 u2 id); [done..|by destruct Ht1 as [->|[-> _]]|by destruct Ht2 as [->|[-> _]]].
    - intros k t' Hk. destruct (Hrows' k t' Hk) as (t & Ht & Ht'). destruct (H4 k t Ht) as (id & r & Hid & Hr & Hrow).
      exists id, r. destruct Ht' as [->|[-> Hrun]]; [done|]. split_and!; [done..|].
      assert (r = rr) as -> by congruence. destruct Hrow as [Ho Hp Ha Hm Hl]. split; [done| |done..|by left].
      by rewrite Hcanc. }
  assert (relies None C d C d') as Hrel.
  { split; [done|by intros T -> [? [=]]| | |].
    - intros T base m HC (u & Hu & HuT & Hust). destruct (Hrows' _ _ Hu) as (t & Ht & [->|[-> _]]); [by exists t|].
      cbn in HuT. by destruct (inv_claims _ _ Hinv _ _ _ HC).
    - intros T base m id y HC _ Ha Hid Hy. right. by exists y.
    - intros id r Hr. exists r. unfold stepOk. by rewrite String.eqb_refl. }
  by eapply (outcome_neutral _ _ _ _ _ _ o).
Qed.

Lemma resumes_effect C d d' runID input :
  DBInv C d → resumes runID input d d' → DBInv C d' ∧ relies None C d C d'.
Proof.
  intros Hinv (run & k & t & Hrun & Hrid & Hw & Ht & Hres & Hruns & Hturns & _).
  unfold resumable in Hres. bool_prop. destruct (inv_turnRuns _ _ Hinv _ _ Hrun) as [_ Htype].
  pose proof (inv_keyed _ _ Hinv _ _ Ht) as Hk. cbn in Hk.
  destruct (inv_rows _ _ Hinv _ _ Ht) as (id & r & Hid & Hr & Hrow).
  assert (id = runID) as -> by congruence. assert (r = run) as -> by congruence.
  assert (rowOk C (resumeTurn input t) (Run_setStatus RunStatusResuming run)) as Hrow'
    by (destruct Hrow as [Ho Hp Ha Hm Hl]; split; [done..|by left]).
  split.
  - eapply (DBInv_write C d d' k runID t (resumeTurn input t) run); done.
  - eapply (relies_write C d d' k runID t (resumeTurn input t) run); try done. cbn.
    rewrite !elem_of_cons, elem_of_nil in Hw. by destruct Hw as [->|[->|[]]].
Qed.

Lemma outcome_resume C d o (c : call (option RepoErr)) runID input write x d' fault :
  DBInv C d → roleOk C d o → (∀ x, answers C o c x o) →
  (∀ d' err, write d = (d', err) → (err = None ∧ resumes runID input d d') ∨ (is_Some err ∧ d' = d)) →
  statement fault write d = (x, d') → outcome C d o c x d'.
Proof.
  intros Hinv Hrole Hans Hcases Hp. unfold statement, transaction in Hp.
  destruct fault; [|injection Hp as <- <-; by apply outcome_same..].
  destruct (write d) as [d1 e1] eqn:Hw. injection Hp as <- <-.
  destruct (Hcases _ _ eq_refl) as [[-> Hres]|[_ ->]]; [|by apply outcome_same].
  destruct (resumes_effect _ _ _ _ _ Hinv Hres). by eapply (outcome_neutral _ _ _ _ _ _ o).
Qed.

Lemma outcome_other C d o (c : call (option RepoErr)) write x d' fault :
  DBInv C d → roleOk C d o → (∀ x, answers C o c x o) →
  (∀ d, db_turns (write d).1 = db_turns d ∧ db_runs (write d).1 = db_runs d) →
  statement fault write d = (x, d') → outcome C d o c x d'.
Proof.
  intros Hinv Hrole Hans Hw Hp. unfold statement, transaction in Hp.
  destruct fault; [|injection Hp as <- <-; by apply outcome_same..].
  specialize (Hw d). destruct (write d) as [d1 e1]. injection Hp as <- <-. destruct Hw as [Ht Hr].
  eapply (outcome_neutral _ _ _ _ _ _ o); [by apply relies_ext|by eapply DBInv_ext|done..].
Qed.

(** Every call of a disciplined program keeps the invariant and gives one of the
    expected answers. *)
Lemma perform_ok `{Coll : !Collation} json_Valid C d o {X} (c : call X) env x d' :
  DBInv C d → roleOk C d o → callOk C o c → calm c env → perform json_Valid c env d = (x, d') → outcome C d o c x d'.
Proof.
  intros Hinv Hrole Hcall Hcalm. pose proof Hcalm as [Hf Hrt].
  destruct c; cbn [perform]; intros Hp; try done;
    try (injection Hp as <- <-; by apply outcome_same);
    try (by eapply outcome_read).
  - by eapply outcome_FindRun.
  - by eapply outcome_UpdateTurn.
  - by eapply outcome_SaveOwned.
  - by eapply outcome_SaveWithMessage.
  - by eapply outcome_SavePaused.
  - refine (outcome_other _ _ _ _ _ _ _ _ Hinv Hrole _ _ Hp); done.
  - refine (outcome_other _ _ _ _ _ _ _ _ Hinv Hrole _ _ Hp); done.
  - by eapply outcome_ListExpired.
  - by eapply outcome_Recover.
  - by eapply outcome_ClaimTurn.
  - by eapply outcome_RenewTurn.
  - by eapply outcome_CancelRunRow.
  - by eapply outcome_CancelTurnRow.
  - eapply (outcome_resume _ _ _ _ (Approval_RunID item) input); [done..| |done].
    intros d1 err Hd. apply DecideApproval_cases in Hd as [(-> & current & _ & _ & _ & Hres & _)|[He ->]]; [by left|by right|apply Hinv..].
  - eapply (outcome_resume _ _ _ _ runID input); [done..| |done].
    intros d1 err Hd. apply ClaimResume_cases in Hd as [(-> & Hres & _)|[He ->]]; [by left|by right|apply Hinv..].
Qed.

(** ** Disciplined programs *)

Lemma safe_mono {A} (p : prog A) C o (Q Q' : Claims → Role → A → Prop) :
  safe p C o Q → (∀ C' o' a, C ⊆ C' → Q C' o' a → Q' C' o' a) → safe p C o Q'.
Proof.
  revert C o. induction p as [a|X c k IH]; intros C o Hs HQ; cbn in *; [by apply HQ|].
  destruct Hs as [Hc Hk]. split; [done|]. intros x C' o' Hsub Hans. eapply IH; [by eapply Hk|].
  intros C2 o2 a Hsub2. apply HQ. by etrans.
Qed.

Lemma safe_andThen {A B} (p : prog A) (f : A → prog B) C o Q :
  safe p C o (λ C' o' a, safe (f a) C' o' Q) → safe (andThen p f) C o Q.
Proof.
  revert C o. induction p as [a|X c k IH]; intros C o Hs; cbn in *; [done|].
  destruct Hs as [Hc Hk]. split; [done|]. intros x C' o' Hsub Hans. by eapply IH, Hk.
Qed.

(** The calls that neither write nor teach anything. *)
Lemma safe_call {A X} (c : call X) (k : X → prog A) C o Q :
  callOk C o c → (∀ x C' o', C ⊆ C' → answers C' o c x o' → safe (k x) C' o' Q) → safe (Call c k) C o Q.
Proof. done. Qed.

Definition done_ {A} : Claims → Role → A → Prop := λ _ _ _, True.
