(* ===== verification/TurnSafety.v ===== *)
(** The programs of [TurnWorker] keep to the discipline of [TurnInvariant]: for each
    handler, that whatever the database and the rest of the service answer, its next
    writes are ones that its lease and what it has read entitle it to ([safe]). *)
From S2P Require Import Prelude GoStr Chat Json Tools Rules Hooks Runner Loop Goals TurnStore TurnWorker TurnInvariant.
Open Scope Z_scope.
Open Scope prog_scope.

(** ** What a holder knows along its program *)

(** The program holds the lease of [turn] and [run] is its run; [P] holds of every
    status that the run may have while the lease lasts. *)
Definition holds (o : Role) (turn : Turn) (run : Run) (P : string → Prop) : Prop :=
  ∃ T base m K, role_own o = Holding T base m K ∧ Turn_LeaseToken turn = T ∧ agrees base turn ∧ runLike base run ∧
    ∀ s, K s → modeOk m s ∧ P s.

(** The turn can be failed: what the run in memory would be saved as follows from
    what is stored. *)
Definition failableFrom (run s : string) : Prop :=
  s ∈ settleableRun ∧
  (run ∈ [RunStatusQueued; RunStatusRunning; RunStatusResuming; RunStatusWaitingHuman; RunStatusPaused; RunStatusFailed] ∨
   (run = RunStatusSucceeded ∧ s ∈ [RunStatusRunning; RunStatusResuming])).

Definition failable (o : Role) (turn : Turn) (run : Run) : Prop := holds o turn run (failableFrom (Run_Status run)).

(** After a handler: if the run in memory is still resuming, it can still be failed. *)
Definition settled (C : Claims) (o : Role) (x : Turn * Run) : Prop :=
  Run_Status x.2 = RunStatusResuming → failable o x.1 x.2.

Lemma holds_impl o turn run P Q : holds o turn run P → (∀ s, P s → Q s) → holds o turn run Q.
Proof.
  intros (T & base & m & K & H1 & H2 & H3 & H4 & H5) HPQ. exists T, base, m, K. split_and!; [done..|].
  intros s Hs. destruct (H5 s Hs). auto.
Qed.

Lemma holds_row o turn run P turn' run' :
  holds o turn run P → Turn_LeaseToken turn' = Turn_LeaseToken turn → (∀ base, agrees base turn → agrees base turn') →
  Run_ID run' = Run_ID run → Run_OwnerID run' = Run_OwnerID run → Run_RunType run' = Run_RunType run →
  holds o turn' run' P.
Proof.
  intros (T & base & m & K & H1 & H2 & H3 & (H4 & H5 & H6) & H7) Ht Ha Hi Ho Hy. exists T, base, m, K.
  split_and!; [done|congruence|auto| |done]. unfold runLike. rewrite Hi, Ho, Hy. done.
Qed.

Lemma holds_learn C r o turn run P :
  holds o turn run P → Run_ID r = Run_ID run → holds (learnRun C r o) turn run (λ s, P s ∧ s = Run_Status r).
Proof.
  intros (T & base & m & K & H1 & H2 & H3 & H4 & H5) Hid.
  exists T, base, m, (λ s, K s ∧ (Turn_RunID base = Some (Run_ID r) → s = Run_Status r)).
  unfold learnRun. rewrite H1. split_and!; [done..|]. intros s [HK Hs]. destruct (H5 s HK). split_and!; [done..|].
  apply Hs. rewrite Hid. apply H4.
Qed.

Lemma holds_lost o turn run P Q : holds o turn run P → holds (setK (λ _, False) o) turn run Q.
Proof.
  intros (T & base & m & K' & H1 & H2 & H3 & H4 & H5). exists T, base, m, (λ _, False). unfold setK. by rewrite H1.
Qed.

(** A save is in order when it is so for every status the run may have. *)
Lemma holds_save o turn run P from (keeps : bool) :
  holds o turn run P →
  (∀ m s, modeOk m s → P s → s ∈ from ∧ pairOk (Turn_Status turn) (Run_Status run) = true ∧ stepOk s (Run_Status run) = true ∧
     (if keeps then Turn_Status turn = TurnStatusRunning ∧ modeOk m (Run_Status run) else Turn_Status turn ≠ TurnStatusRunning)) →
  saveOk (role_own o) from turn run keeps.
Proof.
  intros (T & base & m & K & H1 & H2 & H3 & H4 & H5) HP. exists T, base, m, K. split_and!; [done..|].
  intros s Hs. destruct (H5 s Hs). by apply HP.
Qed.

(** What is known after a save that keeps the lease. *)
Lemma holds_saved o turn run P turn' :
  holds o turn run P → saveOk (role_own o) settleableRun turn run true → mayLive o → turn' = turn →
  holds (setK (λ s, false = false ∧ s = Run_Status run) o) turn' run (λ s, s = Run_Status run).
Proof.
  intros (T & base & m & K & H1 & H2 & H3 & H4 & _) (T' & base' & m' & K' & H1' & _ & _ & _ & Hok)
    (T2 & base2 & m2 & K2 & s & H1'' & Hs) ->.
  rewrite H1 in H1', H1''. injection H1' as <- <- <- <-. injection H1'' as <- <- <- <-.
  exists T, base, m, (λ s, false = false ∧ s = Run_Status run). unfold setK. rewrite H1. split_and!; [done..|].
  intros s' [_ ->]. split; [|done]. apply (Hok s Hs).
Qed.

(** Reduction of the program at the head, and its return. *)
Ltac step_match := cbn beta match.
Ltac ret := lazymatch goal with |- safe (Ret ?a) ?C ?o ?Q => change (Q C o a); cbn beta match end.

Section Programs.
Context `{!UnicodeTables}.
Context (unmarshalObject : RawMessage → result string (list (string * json))).
Context (DecodeDefinition decodeCheckpoint : RawMessage → option Cause).
Context (marshalObject : list (string * json) → RawMessage).
Context (hasConversations workspaceEnabled hasImprovement hasSessionSearch : bool).

(** ** Settling *)

(** Effects and clock readings change nothing. *)
Lemma safe_Do {A} e (k : unit → prog A) C o Q :
  (∀ C', C ⊆ C' → safe (k tt) C' o Q) → safe (Call (Do e) k) C o Q.
Proof. intros Hk. split; [done|]. intros [] C' o' Hsub ->. auto. Qed.
Lemma safe_Now {A} (k : Z → prog A) C o Q :
  (∀ now C', C ⊆ C' → safe (k now) C' o Q) → safe (Call Now k) C o Q.
Proof. intros Hk. split; [done|]. intros now C' o' Hsub ->. auto. Qed.

Lemma safe_settleCancelled turn run current C o (P : string → Prop) Q :
  holds o turn run P → role_cancelled o (Run_ID run) →
  (∀ C' turn', C ⊆ C' → holds o turn' run P → Q C' o turn') →
  safe (settleCancelled turn current) C o Q.
Proof.
  intros Hh HG HQ. apply safe_Now. intros now C1 Hs1. split.
  - destruct Hh as (T & base & m & K & H1 & H2 & H3 & (H4 & _) & H5). exists T, base, m, K. split_and!; [done..|]. left. eauto.
  - intros err C2 o2 Hs2 ->. assert (holds o (cancelledTurn now turn) run P) as Hh' by (by eapply holds_row).
    destruct err; step_match; [ret; apply HQ; [by etrans|done]|].
    apply safe_Do. intros C3 Hs3. ret. apply HQ; [by do 2 etrans|done].
Qed.

Lemma failedRow_status now cause run :
  Run_Status (failedRow now cause run) = match TransitionStatus (Run_Status run) RunStatusFailed with Some s => s | None => Run_Status run end.
Proof. unfold failedRow, transition. by destruct (TransitionStatus _ _). Qed.

Lemma failedRow_like now cause run :
  Run_ID (failedRow now cause run) = Run_ID run ∧ Run_OwnerID (failedRow now cause run) = Run_OwnerID run ∧
  Run_RunType (failedRow now cause run) = Run_RunType run.
Proof. unfold failedRow, transition. by destruct (TransitionStatus _ _). Qed.

(** The status a failed run is saved with. *)
Lemma failedRow_pair now cause run s :
  failableFrom (Run_Status run) s →
  pairOk TurnStatusFailed (Run_Status (failedRow now cause run)) = true ∧ stepOk s (Run_Status (failedRow now cause run)) = true.
Proof.
  rewrite failedRow_status. intros [Hs Hr]. unfold settleableRun in Hs. rewrite !elem_of_cons, elem_of_nil in Hs.
  destruct Hr as [Hr|[-> Hr]].
  - rewrite !elem_of_cons, elem_of_nil in Hr.
    assert (TransitionStatus (Run_Status run) RunStatusFailed = Some RunStatusFailed) as ->
      by (destruct Hr as [->|[->|[->|[->|[->|[->|[]]]]]]]; reflexivity).
    destruct Hs as [->|[->|[->|[]]]]; split; reflexivity.
  - rewrite !elem_of_cons, elem_of_nil in Hr. destruct Hr as [->|[->|[]]]; split; reflexivity.
Qed.

Lemma failedRow_not_resuming now cause run : Run_Status (failedRow now cause run) ≠ RunStatusResuming.
Proof.
  rewrite failedRow_status. unfold TransitionStatus.
  destruct (String.eqb_spec (Run_Status run) RunStatusFailed) as [->|Hne]; [done|].
  destruct (canTransitionRunStatus _ _) eqn:Hc; [done|]. intros He. by rewrite He in Hc.
Qed.

Lemma safe_failRun turn run cause C o : failable o turn run → safe (failRun turn run cause) C o settled.
Proof.
  intros Hfail. apply safe_andThen. unfold failTurn.
  set (fail := Call Now _).
  assert (∀ C o, failable o turn run → safe fail C o (λ C' o' a, safe (let '(turn, run') := a in Ret (turn, default run run')) C' o' settled))
    as Hrest.
  { clear C o Hfail. intros C o Hfail. apply safe_Now. intros now C1 Hs1.
    destruct (failedRow_like now cause run) as (Hi & Ho & Hy). split.
    - eapply (holds_save _ _ _ (failableFrom (Run_Status run))); [by eapply holds_row|].
      intros m s _ Hs. destruct (failedRow_pair now cause run s Hs) as [Hp1 Hp2]. split_and!; [apply Hs|done..].
    - intros [t [e|]] C2 o2 Hs2 Hans.
      + assert (failable o2 turn run) as Hf2.
        { destruct e; cbn in Hans; try done; destruct Hans as [_ ->]; [by eapply holds_lost|done]. }
        step_match. ret. ret. by intros _.
      + destruct Hans as (-> & -> & _). step_match. do 5 (apply safe_Do; intros ? _). ret. ret. intros He.
        by apply failedRow_not_resuming in He. }
  split; [done|]. intros [current|e] C1 o1 Hs1 Hans; cbn in Hans; [|subst o1; by apply Hrest].
  destruct Hans as (Hid & _ & _ & ->).
  pose proof (holds_learn C1 current o turn run _ Hfail Hid) as Hh.
  destruct (String.eqb_spec (Run_Status current) RunStatusCancelled) as [Hc|Hc].
  - apply safe_andThen. eapply safe_settleCancelled; [done|by right|].
    intros C2 turn' Hs2 Hh'. ret. ret. intros _. eapply holds_impl; [done|]. by intros s [Hs _].
  - apply Hrest. eapply holds_impl; [done|]. by intros s [Hs _].
Qed.


(** The run could not be read: the turn alone fails. *)
Lemma safe_failTurn_unread turn cause C o T base m K :
  role_own o = Holding T base m K → Turn_LeaseToken turn = T → agrees base turn →
  (∀ s, K s → s ∈ [RunStatusQueued; RunStatusResuming]) → safe (failTurn turn None cause) C o done_.
Proof.
  intros Hown HT Hag HK. apply safe_Now. intros now C1 _. split.
  - exists T, base, m, K. split_and!; [done..|]. by right.
  - intros err C2 o2 _ ->. done.
Qed.

Lemma safe_ignore {A} (p : prog A) C o Q : safe p C o Q → safe (let& _ := p in Ret tt) C o done_.
Proof. intros Hp. apply safe_andThen. eapply safe_mono; [done|]. done. Qed.

Lemma safe_failRun_last turn run cause C o : failable o turn run → safe (let& _ := failRun turn run cause in Ret tt) C o done_.
Proof. intros. by eapply safe_ignore, safe_failRun. Qed.

(** The statuses of a run that is executing. *)
Definition executing (run : Run) (s : string) : Prop := s = Run_Status run ∧ s ∈ [RunStatusRunning; RunStatusResuming].

Lemma executing_failable run s : executing run s → failableFrom (Run_Status run) s.
Proof.
  intros [-> Hs]. unfold failableFrom, settleableRun. set_solver.
Qed.

Lemma transition_like next run run' :
  transition next run = Ok run' →
  Run_Status run' = next ∧ Run_ID run' = Run_ID run ∧ Run_OwnerID run' = Run_OwnerID run ∧ Run_RunType run' = Run_RunType run.
Proof.
  unfold transition, TransitionStatus. destruct (String.eqb_spec (Run_Status run) next) as [He|].
  - intros [= <-]. by rewrite He.
  - destruct (canTransitionRunStatus _ _); [|done]. by intros [= <-].
Qed.

Lemma transition_Err next run e s : transition next run = Err e → s = Run_Status run → stepOk s next = false.
Proof.
  unfold transition, TransitionStatus, stepOk. intros Ht ->.
  destruct (String.eqb_spec (Run_Status run) next); [done|]. by destruct (canTransitionRunStatus _ _).
Qed.

Lemma safe_runHasToolSideEffects owner run C o (Q : Claims → Role → result RepoErr bool → Prop) :
  (∀ C' r, C ⊆ C' → Q C' o r) → safe (runHasToolSideEffects owner run) C o Q.
Proof.
  intros HQ. destruct run as [id|]; [|by apply HQ]. split; [done|]. intros steps C' o' Hsub ->. by apply HQ.
Qed.

Lemma safe_retryTurn turn run cause C o :
  holds o turn run (λ s, s = RunStatusRunning) → Run_Status run = RunStatusRunning →
  safe (retryTurn turn run cause) C o settled.
Proof.
  intros Hh Hst. assert (failable o turn run) as Hf.
  { eapply holds_impl; [done|]. intros s ->. apply executing_failable. split; [done|]. set_solver. }
  apply safe_andThen, safe_runHasToolSideEffects. intros C1 [tool|e] _; [|by apply safe_failRun]. step_match.
  destruct (_ || _); [by apply safe_failRun|]. apply safe_Now. intros now C2 _. rewrite Hst. step_match.
  destruct (transition RunStatusQueued run) as [r|e] eqn:Ht; [|by apply safe_failRun].
  destruct (transition_like _ _ _ Ht) as (Hrs & Hi & Ho & Hy). step_match. split.
  - eapply (holds_save _ _ _ (λ s, s = RunStatusRunning)); [by eapply holds_row|]. intros m s _ ->. cbn. rewrite Hrs.
    split_and!; [set_solver|done..].
  - intros [t [e|]] C3 o3 _ Hans; step_match.
    + assert (failable o3 turn run) as Hf3.
      { destruct e; cbn in Hans; try done; destruct Hans as [_ ->]; [by eapply holds_lost|done]. }
      destruct e; try (by apply safe_failRun). ret. by intros _.
    + destruct Hans as (-> & -> & _). apply safe_Do. intros C4 _. ret. intros He. cbn in He. by rewrite Hrs in He.
Qed.

Lemma safe_pauseTurn turn run output turnStatus runStatus C o :
  holds o turn run (executing run) →
  (turnStatus, runStatus) ∈ [(TurnStatusWaitingHuman, RunStatusWaitingHuman); (TurnStatusPaused, RunStatusPaused)] →
  safe (pauseTurn turn run output turnStatus runStatus) C o settled.
Proof.
  intros Hh Hst. unfold pauseTurn.
  assert (pairOk turnStatus runStatus = true ∧ turnStatus ≠ TurnStatusRunning ∧ runStatus ≠ RunStatusResuming ∧
    (∀ s, s ∈ [RunStatusRunning; RunStatusResuming] → stepOk s runStatus = true) ∧
    ∀ s, s ∈ [RunStatusRunning; RunStatusResuming] → failableFrom runStatus s) as (Hpair & Hnr & Hns & Hstep & Hfail).
  { rewrite !elem_of_cons, elem_of_nil in Hst. unfold failableFrom, settleableRun.
    destruct Hst as [[= -> ->]|[[= -> ->]|[]]]; split_and!; try done; intros s Hs;
      rewrite !elem_of_cons, elem_of_nil in Hs; destruct Hs as [->|[->|[]]]; try reflexivity; set_solver. }
  destruct (transition runStatus run) as [r|e] eqn:Ht; step_match.
  - destruct (transition_like _ _ _ Ht) as (Hrs & Hi & Ho & Hy). unfold checkpointArtifacts.
    set (t1 := Turn_setOutputJSON _ _). set (r1 := Run_setOutputJSON _ _).
    assert (holds o t1 r1 (λ s, s ∈ [RunStatusRunning; RunStatusResuming])) as Hh1.
    { eapply holds_impl; [by eapply (holds_row _ _ _ _ t1 r1 Hh)|]. by intros s [_ Hs]. }
    destruct (out_checkpoint output) as [cp|]; step_match; cbn [fmap option_fmap option_map].
    + split.
      * eapply (holds_save _ _ _ _ _ _ Hh1). intros m s _ Hs. cbn. rewrite Hrs. split_and!; auto.
      * intros [t [e|]] C1 o1 _ Hans; step_match.
        -- apply safe_failRun. destruct e; cbn in Hans; try done; destruct Hans as [-> ->]; [by eapply holds_lost|].
           eapply holds_impl; [exact Hh1|]. intros s Hs. cbn. rewrite Hrs. auto.
        -- destruct Hans as (-> & -> & _).
           assert (∀ C o, settled C o (clearTurnLease t1, r1)) as Hend by (intros C2 o2 He; cbn in He; congruence).
           destruct (out_approval output); cbn [fmap option_fmap option_map]; step_match;
             repeat (apply safe_Do; intros ? _); ret; apply Hend.
    + apply safe_failRun. eapply holds_impl; [exact Hh1|]. intros s Hs. cbn. rewrite Hrs. auto.
  - apply safe_failRun. eapply holds_impl; [by eapply (holds_row _ _ _ _ (Turn_setStatus turnStatus turn) run Hh)|].
    intros s [Hs Hin]. pose proof (transition_Err _ _ _ s Ht Hs) as Hno. by rewrite Hstep in Hno.
Qed.

(** A finished turn: [save] is one of the two calls that store it. *)
Lemma safe_settleFinished turn run (save : call (Turn * option RepoErr)) (onSaved : Turn → prog (Turn * Run)) C o :
  holds o turn run (λ s, s ∈ [RunStatusRunning; RunStatusResuming]) → Run_Status run = RunStatusSucceeded →
  Turn_Status turn = TurnStatusSucceeded →
  (save = SaveOwned turn run true ∨ ∃ message, save = SaveWithMessage turn message run) →
  (∀ t C' o', safe (onSaved t) C' o' settled) →
  safe (settleFinished turn run save onSaved Ret) C o settled.
Proof.
  intros Hh Hst Htst Hsave Hon. unfold settleFinished. split.
  - assert (saveOk (role_own o) settleableRun turn run false) as Hok.
    { eapply (holds_save _ _ _ _ _ _ Hh). intros m s _ Hs. rewrite Hst, Htst. unfold settleableRun.
      rewrite !elem_of_cons, elem_of_nil in Hs. destruct Hs as [->|[->|[]]]; split_and!; try reflexivity; set_solver. }
    by destruct Hsave as [->|[message ->]].
  - intros [t [e|]] C1 o1 _ Hans; step_match; [|apply Hon].
    assert (saved turn (λ _, True) (λ _, False) o (t, Some e) o1) as Hs by (by destruct Hsave as [->|[message ->]]; destruct e).
    assert (t = turn ∧ failable o1 turn run) as [-> Hf].
    { destruct e; cbn in Hs; try done; destruct Hs as [-> ->]; (split; [done|]); [by eapply holds_lost|].
      eapply holds_impl; [done|]. intros s Hin. rewrite Hst. unfold failableFrom, settleableRun. set_solver. }
    destruct e; try (apply safe_andThen; eapply safe_mono; [by apply safe_failRun|]; intros C2 o2 a _ Ha; by ret).
    ret. intros He. cbn in He. by rewrite Hst in He.
Qed.

Lemma finishedRun_like now output run :
  Run_ID (finishedRun now output run) = Run_ID run ∧ Run_OwnerID (finishedRun now output run) = Run_OwnerID run ∧
  Run_RunType (finishedRun now output run) = Run_RunType run ∧ Run_Status (finishedRun now output run) = Run_Status run.
Proof. unfold finishedRun. by destruct (out_total_tokens output). Qed.

Notation finishTurn := (finishTurn unmarshalObject DecodeDefinition hasImprovement hasSessionSearch).
Notation completeTurn := (completeTurn unmarshalObject DecodeDefinition hasImprovement hasSessionSearch).

Lemma safe_finishTurn turn run output C o :
  holds o turn run (executing run) → safe (finishTurn turn run output) C o settled.
Proof.
  intros Hh. unfold TurnWorker.finishTurn. apply safe_Now. intros now C1 _.
  set (t1 := Turn_setAssistantMessageID (Some 0) _).
  destruct (transition RunStatusSucceeded run) as [r|e] eqn:Ht; step_match.
  - destruct (transition_like _ _ _ Ht) as (Hrs & Hi & Ho & Hy).
    destruct (finishedRun_like now output r) as (Hi2 & Ho2 & Hy2 & Hs2). set (r1 := finishedRun now output r) in *.
    assert (∀ t, t = t1 ∨ t = Turn_setAssistantMessageID (Some (out_assistant_message_id output)) t1 →
      holds o t r1 (λ s, s ∈ [RunStatusRunning; RunStatusResuming])) as Hh1.
    { intros t Heq. eapply holds_impl; [eapply (holds_row _ _ _ _ t r1 Hh); [by destruct Heq as [->| ->]..|congruence|congruence|congruence]|].
      by intros s [_ Hs]. }
    assert (∀ t C o, settled C o (t, r1)) as Hend by (intros t C2 o2 He; cbn [snd] in He; by rewrite Hs2, Hrs in He).
    set (fin := λ turn : Turn, _ : prog (Turn * Run)).
    assert (∀ t C o, safe (fin t) C o settled) as Hfin.
    { intros t C2 o2. unfold fin. repeat case_match; repeat (apply safe_Do; intros ? _); ret; apply Hend. }
    clearbody fin. destruct (0 <? out_assistant_message_id output); step_match.
    + apply safe_settleFinished; [by apply Hh1; right|congruence|done|by left|done].
    + apply safe_settleFinished; [by apply Hh1; left|congruence|done|by right; eexists|done].
  - apply safe_failRun. eapply holds_impl; [by eapply (holds_row _ _ _ _ t1 run Hh)|]. apply executing_failable.
Qed.

Lemma safe_completeTurn turn run result C o :
  holds o turn run (executing run) → safe (completeTurn turn run result) C o settled.
Proof.
  intros Hh. destruct result as [output|]; [|apply safe_failRun; eapply holds_impl; [done|]; apply executing_failable].
  unfold TurnWorker.completeTurn. do 3 (apply safe_Do; intros ? _). set (complete := if (_ =? StopReasonLLMError)%string then _ else _).
  assert (∀ C o, holds o turn run (executing run) → safe complete C o settled) as Hcomplete.
  { clear C o Hh. intros C o Hh. unfold complete.
    destruct (_ =? StopReasonLLMError)%string; [apply safe_failRun; eapply holds_impl; [done|]; apply executing_failable|].
    destruct (_ =? StopReasonWaitingHuman)%string; [apply safe_pauseTurn; [done|set_solver]|].
    destruct (_ =? StopReasonPaused)%string; [apply safe_pauseTurn; [done|set_solver]|].
    destruct (String.eqb_spec (Run_RunType run) RunTypeSubagent) as [He|]; [|by apply safe_finishTurn].
    destruct Hh as (T & base & m & K & _ & _ & _ & (_ & _ & Hno) & _). done. }
  split; [done|]. intros [current|e] C1 o1 _ Hans; cbn in Hans; [|subst o1; by apply Hcomplete].
  destruct Hans as (Hid & _ & _ & ->). step_match.
  pose proof (holds_learn C1 current o turn run _ Hh Hid) as Hl.
  destruct (String.eqb_spec (Run_Status current) RunStatusCancelled).
  - apply safe_andThen. eapply safe_settleCancelled; [done|by right|]. intros C2 turn' _ Hh'. ret. intros _.
    eapply holds_impl; [done|]. intros s [Hs _]. by apply executing_failable.
  - apply Hcomplete. eapply holds_impl; [done|]. by intros s [Hs _].
Qed.

(** ** Resuming *)

Definition resumedOk (C : Claims) (o : Role) (x : resumed) : Prop :=
  Run_Status x.2 = RunStatusResuming → ∃ t, x.1.2 = Some t ∧ failable o t x.2.

Notation settleResumed := (settleResumed unmarshalObject DecodeDefinition hasImprovement hasSessionSearch).
Notation resumeInWorkspace := (resumeInWorkspace unmarshalObject DecodeDefinition hasImprovement hasSessionSearch).
Notation startResumed := (startResumed unmarshalObject DecodeDefinition hasImprovement hasSessionSearch).
Notation resumeRun := (resumeRun unmarshalObject DecodeDefinition decodeCheckpoint hasConversations workspaceEnabled hasImprovement hasSessionSearch).
Notation resume := (resume unmarshalObject DecodeDefinition decodeCheckpoint marshalObject hasConversations workspaceEnabled hasImprovement hasSessionSearch).

Lemma failable_learn C r o turn run : failable o turn run → Run_ID r = Run_ID run → failable (learnRun C r o) turn run.
Proof. intros Hf Hid. eapply holds_impl; [by apply holds_learn|]. by intros s [Hs _]. Qed.

Lemma safe_settleResumed run turn output C o :
  holds o turn run (executing run) → safe (settleResumed run (Some turn) (Ok output)) C o resumedOk.
Proof.
  intros Hh. apply safe_andThen. eapply safe_mono; [by apply safe_completeTurn|]. intros C1 o1 [t r] _ Hset.
  step_match. split; [done|]. intros [found|e] C2 o2 _ Hans; cbn in Hans; ret; intros He; cbn in He |- *; exists t; (split; [done|]).
  - destruct Hans as (Hid & _ & _ & ->). apply failable_learn; [by apply Hset|done].
  - subst o2. by apply Hset.
Qed.

Lemma safe_resumeInWorkspace hasWorkspace run turn task approved note C o :
  holds o turn run (executing run) → safe (resumeInWorkspace hasWorkspace run (Some turn) task approved note) C o resumedOk.
Proof.
  intros Hh. unfold TurnWorker.resumeInWorkspace.
  assert (∀ {A} (k : result Cause (option RuntimeOutput) → prog A) Q C, (∀ output C', safe (k (Ok output)) C' o Q) →
    safe (Call (ResumeRuntime run task approved note) k) C o Q) as Hrt.
  { intros A k Q C1 Hk. split; [done|]. intros x C2 o2 _ [-> [a ->]]. apply Hk. }
  assert (∀ C, safe (let* result := ResumeRuntime run task approved note in settleResumed run (Some turn) result) C o resumedOk) as Hplain
    by (intros C1; apply Hrt; intros output C2; by apply safe_settleResumed).
  destruct hasWorkspace; [|apply Hplain]. destruct (Run_WorkspaceID run); [|apply Hplain]. step_match.
  split; [done|]. intros [cause|] C1 o1 _ Ho; cbn in Ho; subst o1; step_match.
  - apply safe_andThen. eapply safe_mono; [apply safe_failRun; eapply holds_impl; [done|]; apply executing_failable|].
    intros C2 o2 [t r] _ Hset. step_match. ret. intros He. exists t. split; [done|]. by apply Hset.
  - apply safe_Do. intros C2 _. apply Hrt. intros output C3. apply safe_Do. intros C4 _. apply safe_andThen.
    eapply safe_mono; [by apply safe_settleResumed|]. intros C5 o5 x _ Hx. apply safe_Do. intros C6 _. by ret.
Qed.

(** A call that neither writes nor teaches anything. *)
Lemma safe_read {A X} (c : call X) (k : X → prog A) C o Q :
  callOk C o c → (∀ C' x o', answers C' o c x o' → o' = o) → (∀ x C', C ⊆ C' → safe (k x) C' o Q) → safe (Call c k) C o Q.
Proof. intros Hc Ha Hk. split; [done|]. intros x C' o' Hsub Hans. rewrite (Ha _ _ _ Hans). auto. Qed.

(** The row of a resuming run can be failed. *)
Lemma resuming_failable o turn run :
  holds o turn run (λ s, s = RunStatusResuming) → Run_Status run = RunStatusResuming → failable o turn run.
Proof. intros Hh Hst. eapply holds_impl; [done|]. intros s ->. apply executing_failable. split; [done|set_solver]. Qed.

Lemma safe_refuse cause turn run C o : failable o turn run → safe (Ret (Some cause, Some turn, run)) C o resumedOk.
Proof. intros Hf _. by exists turn. Qed.

Lemma safe_startResumed hasWorkspace run decision turn task C o :
  holds o turn run (λ s, s = RunStatusResuming) → Run_Status run = RunStatusResuming →
  safe (startResumed hasWorkspace run decision (Some turn) task) C o resumedOk.
Proof.
  intros Hh Hst. unfold TurnWorker.startResumed.
  destruct (transition RunStatusResuming run) as [r|e] eqn:Ht; [|by apply safe_refuse, resuming_failable].
  destruct (transition_like _ _ _ Ht) as (Hrs & Hi & Ho & Hy). step_match. set (t1 := Turn_setStatus TurnStatusRunning turn).
  assert (holds o t1 r (λ s, s = RunStatusResuming)) as Hh1 by (by eapply (holds_row _ _ _ _ t1 r Hh)).
  assert (saveOk (role_own o) settleableRun t1 r true) as Hok.
  { eapply (holds_save _ _ _ _ _ _ Hh1). intros m s Hm ->. rewrite Hrs. split_and!; [set_solver|done..]. }
  split; [done|]. intros [t [e|]] C2 o2 _ Hans; step_match.
  - apply safe_refuse. destruct e; cbn in Hans; try done; destruct Hans as [-> ->]; [by eapply holds_lost|by apply resuming_failable].
  - destruct Hans as (Ht1 & -> & Hlive). apply safe_resumeInWorkspace.
    eapply holds_impl; [by eapply holds_saved|]. intros s ->. split; [done|]. rewrite Hrs. set_solver.
Qed.

Lemma safe_resumeRun hasWorkspace run stored decision turn C o :
  holds o turn run (λ s, s = RunStatusResuming) → Run_Status run = RunStatusResuming →
  safe (resumeRun hasWorkspace run stored decision (Some turn)) C o resumedOk.
Proof.
  intros Hh Hst. unfold TurnWorker.resumeRun. pose proof (resuming_failable _ _ _ Hh Hst) as Hf.
  repeat case_match; try (by apply safe_refuse); try (by apply safe_startResumed);
    (apply safe_read; [done|done|]; intros x C1 _; step_match; repeat case_match;
     try (by apply safe_refuse); try (by apply safe_startResumed);
     (apply safe_read; [done|done|]; intros y C2 _; by apply safe_startResumed)).
Qed.

Lemma safe_resume hasWorkspace turn run C o :
  holds o turn run (λ s, s = RunStatusResuming) → Run_Status run = RunStatusResuming →
  safe (resume hasWorkspace turn run) C o resumedOk.
Proof.
  intros Hh Hst. unfold TurnWorker.resume.
  pose proof (resuming_failable _ _ _ Hh Hst) as Hf.
  destruct (Run_ID run <=? 0); [by apply safe_refuse|]. split; [done|]. intros [cp|e] C1 o1 _ Ho; cbn in Ho; subst o1; step_match;
    [|by apply safe_refuse].
  destruct (decodeInputJSON _ _); [by apply safe_resumeRun|by apply safe_refuse].
Qed.

(** ** Executing *)

Notation startTurn := (startTurn unmarshalObject DecodeDefinition hasImprovement hasSessionSearch).
Notation prepareWorkspace := (prepareWorkspace unmarshalObject DecodeDefinition hasImprovement hasSessionSearch).
Notation executeFresh := (executeFresh unmarshalObject DecodeDefinition hasConversations workspaceEnabled hasImprovement hasSessionSearch).
Notation execute := (execute unmarshalObject DecodeDefinition decodeCheckpoint marshalObject hasConversations workspaceEnabled hasImprovement hasSessionSearch).

(** A turn whose run is queued, as far as the lease lasts. *)
Definition freshly (o : Role) (turn : Turn) (run : Run) : Prop :=
  holds o turn run (λ s, s = RunStatusQueued ∧ Run_Status run = RunStatusQueued) ∧ Turn_Status turn = TurnStatusRunning.

Lemma freshly_failable o turn run : freshly o turn run → failable o turn run.
Proof.
  intros [Hh _]. eapply holds_impl; [done|]. intros s [-> ->]. unfold failableFrom, settleableRun. set_solver.
Qed.

Lemma freshly_like o turn run run' :
  freshly o turn run → Run_ID run' = Run_ID run → Run_OwnerID run' = Run_OwnerID run → Run_RunType run' = Run_RunType run →
  Run_Status run' = Run_Status run → freshly o turn run'.
Proof. intros [Hh Ht] Hi Ho Hy Hs. split; [|done]. rewrite Hs. by eapply holds_row. Qed.

Lemma safe_startTurn prepared turn run task manual C o :
  freshly o turn run → safe (startTurn prepared turn run task manual) C o done_.
Proof.
  intros Hfresh. unfold TurnWorker.startTurn. pose proof (freshly_failable _ _ _ Hfresh) as Hf. destruct Hfresh as [Hh Htst].
  destruct (transition RunStatusRunning run) as [r|e] eqn:Ht; [|by apply safe_failRun_last].
  destruct (transition_like _ _ _ Ht) as (Hrs & Hi & Ho & Hy). step_match.
  assert (holds o turn r (λ s, s = RunStatusQueued)) as Hh1.
  { eapply holds_impl; [by eapply (holds_row _ _ _ _ turn r Hh)|]. by intros s [-> _]. }
  assert (saveOk (role_own o) settleableRun turn r true) as Hok.
  { eapply (holds_save _ _ _ _ _ _ Hh1). intros m s Hm ->. rewrite Hrs, Htst. split_and!; [set_solver|done..|].
    destruct m; [done|]. cbn. set_solver. }
  split; [done|]. intros [t [e|]] C1 o1 _ Hans; step_match.
  - apply safe_failRun_last. destruct e; cbn in Hans; try done; destruct Hans as [-> ->]; [by eapply holds_lost|].
    eapply holds_impl; [exact Hh1|]. intros s ->. rewrite Hrs. unfold failableFrom, settleableRun. set_solver.
  - destruct Hans as (Ht1 & -> & Hlive). assert (holds (setK (λ s, false = false ∧ s = Run_Status r) o) t r (λ s, s = Run_Status r)) as Hh2
      by (by eapply holds_saved).
    split; [done|]. intros result C2 o2 _ Ho2. cbn in Ho2. subst o2. step_match.
    set (settle := match result with Ok _ => _ | Err _ => _ end).
    assert (∀ C, safe settle C (setK (λ s, false = false ∧ s = Run_Status r) o) done_) as Hsettle.
    { intros C3. unfold settle. destruct result as [output|e]; [eapply safe_ignore, safe_completeTurn|eapply safe_ignore, safe_retryTurn; [|done]];
        (eapply holds_impl; [done|]); intros s ->; [split; [done|]; rewrite Hrs; set_solver|done]. }
    destruct prepared; [apply safe_Do; intros C3 _|]; apply Hsettle.
Qed.

Lemma safe_prepareWorkspace turn run project task manual C o :
  freshly o turn run → safe (prepareWorkspace turn run project task manual) C o done_.
Proof.
  intros Hf. unfold TurnWorker.prepareWorkspace. apply safe_read; [done|done|]. intros [e|] C1 _; step_match.
  { apply safe_Do. intros C2 _. by apply safe_failRun_last, freshly_failable. }
  apply safe_read; [done|done|]. intros [ws|[failed e]] C2 _; step_match.
  2:{ apply safe_Do. intros C3 _. apply safe_failRun_last, freshly_failable. destruct failed; [by eapply freshly_like|done]. }
  assert (freshly o turn (Run_setWorkspaceID (Some ws) run)) as Hf1 by (by eapply freshly_like).
  set (r := Run_setWorkspaceID (Some ws) run) in *. destruct (Hf1) as [Hh Htst].
  assert (saveOk (role_own o) settleableRun turn r true) as Hok.
  { eapply (holds_save _ _ _ _ _ _ Hh). intros m s Hm [-> Hr]. rewrite Htst, Hr. split_and!; [set_solver|reflexivity|reflexivity|done|done]. }
  split; [done|]. intros [t [e|]] C3 o3 _ Hans; step_match; apply safe_andThen.
  - apply safe_Do. intros C4 _. eapply safe_mono; [apply safe_failRun_last|intros C5 o5 a _ _; by apply safe_Do].
    destruct e; cbn in Hans; try done; destruct Hans as [-> ->]; [by eapply holds_lost|by apply freshly_failable].
  - destruct Hans as (-> & -> & Hlive). do 2 (apply safe_Do; intros ? _).
    eapply safe_mono; [apply safe_startTurn|intros C5 o5 a _ _; by apply safe_Do].
    assert (Run_Status r = RunStatusQueued) as Hr.
    { destruct Hlive as (T & base & m & K & s & Hown & Hs). destruct Hh as (T' & base' & m' & K' & Hown' & _ & _ & _ & HK).
      rewrite Hown in Hown'. injection Hown' as <- <- <- <-. by apply (HK s). }
    split; [|done]. eapply holds_impl; [by eapply holds_saved|]. intros s ->. by rewrite Hr.
Qed.

Lemma safe_executeFresh turn run C o : freshly o turn run → safe (executeFresh turn run) C o done_.
Proof.
  intros Hf0. unfold TurnWorker.executeFresh. set (r := Run_setErrorMessage "" run).
  assert (freshly o turn r) as Hf by (by eapply freshly_like). clearbody r. clear Hf0.
  pose proof (freshly_failable _ _ _ Hf) as Hfail.
  destruct (DecodeDefinition _); [by apply safe_failRun_last|]. destruct (decodeInputJSON _ _); [|by apply safe_failRun_last].
  step_match. destruct hasConversations, (Run_ConversationID r); try (by apply safe_startTurn).
  apply safe_read; [done|done|]. intros [[project|]|e] C1 _; step_match; [|by apply safe_startTurn|by apply safe_failRun_last].
  destruct workspaceEnabled; [by apply safe_prepareWorkspace|by apply safe_startTurn].
Qed.

(** What a program knows right after its claim. *)
Definition claimedRole (o : Role) (T : string) (turn : Turn) (m : bool) : Role :=
  mkRole (Holding T turn m (λ s, s = if m then RunStatusResuming else RunStatusQueued)) (role_resumed o) (role_cancelled o).

Lemma claimed_holds C o T turn m run :
  Turn_LeaseToken turn = T → Turn_RunID turn = Some (Run_ID run) → Run_OwnerID run = Turn_OwnerID turn → Run_RunType run ≠ RunTypeSubagent →
  holds (learnRun C run (claimedRole o T turn m)) turn run (λ s, s = (if m then RunStatusResuming else RunStatusQueued) ∧ s = Run_Status run).
Proof.
  intros HT Hid Ho Hy. eapply holds_impl; [eapply holds_learn; [|done]|by intros s [? ?]].
  eexists T, turn, m, _. split_and!; [done|done|done|done|]. intros s ->. split; [by destruct m; [|set_solver]|reflexivity].
Qed.

Lemma safe_execute hasWorkspace turn T m C o :
  Turn_LeaseToken turn = T → Turn_Status turn = TurnStatusRunning → safe (execute hasWorkspace turn) C (claimedRole o T turn m) done_.
Proof.
  intros HT Htst. unfold TurnWorker.execute. destruct (Turn_RunID turn) as [id|] eqn:Hid; [|done].
  split; [done|]. intros [run|e] C1 o1 _ Hans; cbn in Hans; step_match.
  2:{ subst o1. eapply safe_ignore, safe_failTurn_unread; [done..|]. intros s ->. destruct m; set_solver. }
  destruct Hans as (Hrid & Hro & Hry & ->). subst id.
  pose proof (claimed_holds C1 o T turn m run HT Hid Hro Hry) as Hh.
  destruct (String.eqb_spec (Run_Status run) RunStatusCancelled) as [Hc|Hnc].
  { apply safe_Now. intros now C2 _. split; [|by intros].
    destruct Hh as (T' & base & m' & K & H1 & H2 & H3 & (H4 & _) & _). exists T', base, m', K. split_and!; [done..|].
    left. split; [done|]. exists (Run_ID run). split; [done|by right]. }
  destruct (String.eqb_spec (Run_Status run) RunStatusResuming) as [Hr|Hnr].
  - apply safe_andThen. eapply safe_mono; [apply safe_resume; [|done]|].
    + eapply holds_impl; [exact Hh|]. intros s [_ ->]. exact Hr.
    + intros C2 o2 [[err turn'] run'] _ Hres. step_match. destruct err as [e|]; [|done].
      destruct (String.eqb_spec (Run_Status run') RunStatusResuming) as [Hr'|]; [|done].
      destruct (Hres Hr') as (t & Ht & Hf). cbn in Ht, Hf. subst turn'. by apply safe_failRun_last.
  - apply safe_executeFresh. split; [|done]. eapply holds_impl; [done|].
    intros s [-> Heq]. rewrite <- Heq in Hnr |- *. by destruct m.
Qed.

Lemma safe_workerRound hasWorkspace lease workerID token C F G :
  safe (TurnWorker.workerRound unmarshalObject DecodeDefinition decodeCheckpoint marshalObject hasConversations workspaceEnabled hasImprovement hasSessionSearch
    hasWorkspace lease workerID token) C (mkRole (Unclaimed token) F G) done_.
Proof.
  apply safe_Now. intros now C1 _. split; [done|]. intros [turn|e] C2 o2 _ Hans; cbn in Hans; step_match; [|done].
  destruct Hans as (HT & Hst & m & ->). by apply (safe_execute _ _ _ _ _ (mkRole (Unclaimed token) F G)).
Qed.

(** ** The other programs *)

Lemma safe_heartbeatRound lease turnID token C o : safe (heartbeatRound lease turnID token) C o done_.
Proof. apply safe_Now. intros now C1 _. by apply safe_read. Qed.

Lemma recoverRows_ok now tool turn run turn' run' :
  recoverRows now tool turn run = Ok (turn', run') →
  Turn_LeaseToken turn' = Turn_LeaseToken turn ∧ (∀ base, agrees base turn → agrees base turn') ∧
  Run_ID run' = Run_ID run ∧ Run_OwnerID run' = Run_OwnerID run ∧ Run_RunType run' = Run_RunType run ∧
  Turn_Status turn' ≠ TurnStatusRunning ∧ pairOk (Turn_Status turn') (Run_Status run') = true ∧
  (Run_Status run' ∈ [RunStatusQueued; RunStatusPaused] ∨ (Run_Status run' = RunStatusResuming ∧ Run_Status run = RunStatusResuming)).
Proof.
  unfold recoverRows. destruct (_ || _).
  - destruct (transition RunStatusPaused run) as [r|] eqn:Ht; [|done]. intros [= <- <-].
    destruct (transition_like _ _ _ Ht) as (Hrs & Hi & Ho & Hy). cbn. rewrite Hrs. split_and!; try done; left; set_solver.
  - destruct (Run_Status run =? RunStatusRunning)%string.
    + destruct (transition RunStatusQueued run) as [r|] eqn:Ht; [|done]. intros [= <- <-].
      destruct (transition_like _ _ _ Ht) as (Hrs & Hi & Ho & Hy). cbn. rewrite Hrs. split_and!; try done; left; set_solver.
    + destruct (String.eqb_spec (Run_Status run) RunStatusResuming) as [Hr|]; [|done]. intros [= <- <-]. cbn. rewrite Hr.
      split_and!; try done; by right.
Qed.

Lemma safe_recoverAll items C o :
  (∀ t, t ∈ items → ∃ base m, C !! Turn_LeaseToken t = Some (base, m) ∧ agrees base t) → safe (recoverAll items) C o done_.
Proof.
  revert C o. induction items as [|turn items IH]; intros C o Hitems; [done|]. cbn [recoverAll].
  assert (∀ C' o', C ⊆ C' → safe (recoverAll items) C' o' done_) as Hrest.
  { intros C' o' Hsub. apply IH. intros t Ht. destruct (Hitems t) as (base & m & HC & Hag); [by right|].
    exists base, m. split; [by eapply lookup_weaken|done]. }
  destruct (Hitems turn) as (base & m & HC & Hag); [by left|].
  destruct (Turn_RunID turn) as [id|] eqn:Hid; [|done]. split; [done|]. intros [run|e] C1 o1 Hs1 Hans; cbn in Hans; step_match; [|done].
  destruct Hans as (Hrid & Hro & Hry & ->). subst id.
  apply safe_andThen, safe_runHasToolSideEffects. intros C2 [tool|e] Hs2; step_match; [|done]. apply safe_Now. intros now C3 Hs3.
  destruct (recoverRows now tool turn run) as [[turn' run']|e] eqn:Hrec; step_match; [|done].
  apply recoverRows_ok in Hrec as (H1 & H2 & H3 & H4 & H5 & H6 & H7 & H8).
  assert (C ⊆ C3) as Hsub by (etrans; [exact Hs1|by etrans]). split.
  - exists base, m. rewrite H1. pose proof (H2 base Hag) as Hag'.
    destruct Hag as (Ha1 & Ha2 & Ha3 & Ha4 & Ha5). split_and!; [by eapply lookup_weaken|done| |done|done|].
    + unfold runLike. rewrite H3, H4, H5, <- Ha3. split_and!; congruence.
    + destruct H8 as [|[H8 H9]]; [by left|right]. split; [done|]. right. split; [done|]. exists base, m.
      split; [by eapply lookup_weaken; [|exact Hs1]|congruence].
  - intros [t [e|]] C4 o4 Hs4 _; step_match.
    + destruct e; try done. apply Hrest. by etrans.
    + apply safe_Do. intros C5 Hs5. apply Hrest. by do 2 etrans.
Qed.

Lemma safe_recoverExpired C o : safe recoverExpired C o done_.
Proof.
  apply safe_Now. intros now C1 _. split; [done|]. intros [items|e] C2 o2 _ [-> Hitems]; step_match; [|done]. by apply safe_recoverAll.
Qed.

(** What is known of cancelled runs is not forgotten. *)
Definition grows (o o' : Role) : Prop := ∀ id, role_cancelled o id → role_cancelled o' id.

Lemma answers_grows C o {X} (c : call X) x o' : answers C o c x o' → grows o o'.
Proof.
  unfold grows. assert (∀ (item : Turn) stored K x, saved item stored K o x o' → ∀ id, role_cancelled o id → role_cancelled o' id) as Hsaved.
  { intros item stored K [t [[]|]]; cbn; try done; intros Hs id Hid; [destruct Hs as [_ ->]; exact Hid..|]. by destruct Hs as (_ & -> & _). }
  destruct c; cbn; try (by intros ->); try (by intros [-> _]); try (by apply Hsaved); destruct x as [x|]; try (by intros ->).
  - intros (_ & _ & _ & ->) i Hi. by left.
  - by intros (_ & _ & m & ->).
  - destruct x as [r []]; [|by intros [_ ->]]. intros (_ & _ & ->) i Hi. by left.
Qed.

Lemma safe_grows {A} (p : prog A) C o Q : safe p C o Q → safe p C o (λ C' o' a, Q C' o' a ∧ grows o o').
Proof.
  revert C o. induction p as [a|X c k IH]; intros C o Hs; [by split; [|intros id Hid]|]. destruct Hs as [Hc Hk]. split; [done|].
  intros x C' o' Hsub Hans. eapply safe_mono; [by eapply IH, Hk|]. intros C2 o2 a _ [HQ Hg]. split; [done|].
  intros id Hid. by eapply Hg, answers_grows.
Qed.

Lemma safe_cancelChildren cancel children errs C o :
  (∀ id C o, safe (cancel id) C o done_) → safe (cancelChildren cancel children errs) C o done_.
Proof.
  intros Hcancel. revert errs C o. induction children as [|child children IH]; intros errs C o; [done|]. cbn [cancelChildren].
  destruct (negb _); [apply IH|]. apply safe_andThen. eapply safe_mono; [apply Hcancel|]. intros C1 o1 [es|] _ _; [apply IH|done].
Qed.

Lemma safe_cancelTurnOf ownerID run errs C o :
  role_cancelled o (Run_ID run) → safe (cancelTurnOf ownerID run errs) C o done_.
Proof.
  intros Hc. apply safe_Now. intros now C1 _. apply safe_read; [done|done|]. intros turn C2 _. by do 2 (apply safe_Do; intros ? _).
Qed.

Lemma safe_cancelCascade cancel ownerID runID run C o :
  (∀ id C o, safe (cancel id) C o done_) → (Run_Status run = RunStatusCancelled → role_cancelled o (Run_ID run)) →
  safe (cancelCascade cancel ownerID runID run) C o done_.
Proof.
  intros Hcancel Hc. unfold cancelCascade. destruct (IsActiveRunStatus _); [done|].
  destruct (String.eqb_spec (Run_Status run) RunStatusCancelled) as [He|]; [|done]. specialize (Hc He).
  apply safe_read; [done|done|]. intros children C1 _. apply safe_andThen.
  eapply safe_mono; [apply (safe_grows _ _ _ done_); destruct children; [by apply safe_cancelChildren|exact I]|].
  intros C2 o2 [errs|] _ [_ Hg]; [|done]. apply safe_cancelTurnOf. by apply Hg.
Qed.

Lemma safe_CancelRun fuel ownerID runID C o : safe (CancelRun fuel ownerID runID) C o done_.
Proof.
  revert runID C o. induction fuel as [|fuel IH]; intros runID C o; [done|]. cbn [CancelRun].
  assert (∀ run C o, (Run_Status run = RunStatusCancelled → role_cancelled o (Run_ID run)) →
    safe (cancelCascade (CancelRun fuel ownerID) ownerID runID run) C o done_) as Hcascade by (intros; by apply safe_cancelCascade).
  split; [done|]. intros [run|e] C1 o1 _ Hans; cbn in Hans; step_match; [|done].
  destruct Hans as (Hrid & _ & _ & ->). assert (∀ r o, Run_Status r = RunStatusCancelled → role_cancelled (learnRun C1 r o) (Run_ID r)) as Hlearn
    by (intros r o2 Hr; by right).
  destruct (negb _); [apply Hcascade; apply Hlearn|]. apply safe_Now. intros finished C2 _.
  split; [done|]. intros [[run' []]|e] C3 o3 _ Hans; cbn in Hans; step_match; [| |done].
  - destruct Hans as (Hid & _ & ->). apply Hcascade. intros _. by right.
  - destruct Hans as [_ ->]. split; [done|]. intros [run2|e] C4 o4 _ Hans; cbn in Hans; step_match; [|done].
    destruct Hans as (_ & _ & _ & ->). apply Hcascade. intros He. by right.
Qed.

(** A lookup that only matters for what it returns. *)
Lemma safe_any {A X} (c : call X) (k : X → prog A) C o Q :
  callOk C o c → (∀ x C' o', safe (k x) C' o' Q) → safe (Call c k) C o Q.
Proof. intros Hc Hk. split; [done|]. auto. Qed.

Lemma safe_resumeTurnInputWithAnswers run approved note answers C o :
  safe (resumeTurnInputWithAnswers unmarshalObject marshalObject run approved note answers) C o done_.
Proof. unfold resumeTurnInputWithAnswers. repeat case_match; try exact I;
  (apply safe_any; [done|]; intros x C1 o1; repeat case_match; exact I). Qed.

Lemma safe_decideApprovalRequest answersInvalid ownerID requestID approved note answers C o :
  safe (decideApprovalRequest unmarshalObject marshalObject answersInvalid ownerID requestID approved note answers) C o done_.
Proof.
  unfold decideApprovalRequest. destruct (_ || _); [done|]. apply safe_any; [done|]. intros [request|e] C1 o1; step_match; [|done].
  destruct (negb _); [done|]. destruct (_ && _); [done|]. apply safe_andThen, safe_any; [done|]. intros found C2 o2. ret.
  destruct found as [run|e]; step_match; [|done]. apply safe_any; [done|]. intros now C3 o3. apply safe_andThen.
  eapply safe_mono; [apply safe_resumeTurnInputWithAnswers|]. intros C4 o4 [input|e] _ _; step_match; [|done].
  apply safe_any; [done|]. intros [e|] C5 o5; step_match; [done|]. by apply safe_any.
Qed.

Lemma safe_ResumeByID ownerID runID C o : safe (ResumeByID unmarshalObject marshalObject ownerID runID) C o done_.
Proof.
  unfold ResumeByID. apply safe_andThen, safe_any; [done|]. intros found C1 o1. ret.
  destruct found as [run|e]; step_match; [|done]. destruct (negb _); [done|].
  apply safe_any; [done|]. intros [a|e] C2 o2; step_match; [done|]. destruct (negb _); [done|].
  apply safe_any; [done|]. intros [cp|e'] C3 o3; step_match; [|done]. apply safe_andThen.
  eapply safe_mono; [apply safe_resumeTurnInputWithAnswers|]. intros C4 o4 [input|e'] _ _; step_match; [|done].
  apply safe_any; [done|]. intros [e'|] C5 o5; step_match; [done|]. by apply safe_any.
Qed.
End Programs.
