(* ===== verification/TurnSystem.v ===== *)
(** The turns of all conversations as one system.  Workers, heartbeats, recoveries,
    cancellations, decisions and resumptions run the programs of [TurnWorker] side by
    side on the same tables, one call at a time and in any order; requests add turns;
    runs may start subagents; the runtime records steps; a process may vanish between
    two calls, and a call to the database may fail before it does anything or after its
    statements ran, when the tables are rolled back.

    The steps are taken under [Conditions].  [Rough] assumes nothing.  [Calm] assumes
    that no transaction that gives up a lease fails after its statements ran, that the
    runtime returns no error while it resumes a run, and that no run starts a subagent;
    the states reached then keep the invariant of [TurnInvariant].  Without the first
    two, [late_failure_mixes_statuses] and [resume_error_overwrites_retry] run the
    handlers to a state that the invariant excludes, and without the third
    [subagent_overwrites_cancelled] leaves a terminal status. *)
From S2P Require Import Prelude GoStr Chat Json Tools Rules Hooks Runner Loop Goals TurnStore TurnWorker TurnInvariant TurnSafety.
From stdpp Require Import relations.
Open Scope Z_scope.
Open Scope prog_scope.

(** ** The rows of a new turn *)

Definition newRun (now ownerID agentID conversationID : Z) (definitionJSON : RawMessage) (definitionHash ruleHash : string)
    (input : RawMessage) : Run :=
  mkRunRow 0 ownerID agentID (Some conversationID) None None RunTypeTurn 0 definitionJSON definitionHash ruleHash RunStatusQueued
    input "" "" 0 0 now None.

Definition newTurn (ownerID agentID conversationID : Z) (key : string) (input : RawMessage) : Turn :=
  mkTurnRow 0 ownerID agentID conversationID None 0 None key TurnStatusQueued input "" "" 0 0 "" "" None None None None None.

(** What a transaction that creates a turn adds: a row and its run, under new ids. *)
Lemma createTurnArtifacts_rows `{Coll : !Collation} now item msg run d d' t m r :
  createTurnArtifacts now item msg run d = Ok (d', t, m, r) →
  t = Turn_setID (nextID (db_turns d)) (turnDefaults (Turn_setUserMessageID (Message_ID m) (Turn_setRunID (Some (Run_ID r)) item))) ∧
  r = Run_setID (nextID (db_runs d)) (if Run_StartedAt run =? 0 then Run_setStartedAt now run else run) ∧
  m = Message_setID (nextID (db_messages d)) msg ∧
  db_turns d' = <[Turn_ID t := t]> (db_turns d) ∧ db_runs d' = <[Run_ID r := r]> (db_runs d) ∧
  db_messages d' = <[Message_ID m := m]> (db_messages d) ∧
  (∀ k u, db_turns d !! k = Some u → conflicts t u = false).
Proof.
  unfold createTurnArtifacts, createMessage, createRun. cbn zeta beta iota. intros H.
  destruct (createTurn _ _) as [[d1 t1]|e] eqn:Hc; cbn in H; [|done]. injection H as <- <- <- <-.
  unfold createTurn in Hc. destruct (selectRows _ _) eqn:Hsel; [|done]. injection Hc as <- <-. cbn in Hsel |- *.
  split_and!; try done. intros k u Hu. by apply (proj1 (selectRows_nil _ _) Hsel k u).
Qed.

Lemma turnDefaults_new t :
  Turn_Status t = TurnStatusQueued → Turn_MaxAttempts t = 0 →
  Turn_Status (turnDefaults t) = TurnStatusQueued ∧ Turn_MaxAttempts (turnDefaults t) = 3 ∧ Turn_AttemptCount (turnDefaults t) = Turn_AttemptCount t ∧
  Turn_RunID (turnDefaults t) = Turn_RunID t ∧ Turn_OwnerID (turnDefaults t) = Turn_OwnerID t ∧
  Turn_LeaseToken (turnDefaults t) = Turn_LeaseToken t ∧ Turn_ConversationID (turnDefaults t) = Turn_ConversationID t ∧
  Turn_IdempotencyKey (turnDefaults t) = Turn_IdempotencyKey t.
Proof. intros Hs Hm. unfold turnDefaults. rewrite Hs. cbn. rewrite Hm. cbn. by destruct (_ =? "")%string. Qed.

(** The tables after a turn was created. *)
Lemma created_rows `{Coll : !Collation} now ownerID agentID conversationID key input msg definitionJSON definitionHash ruleHash d d' t m r :
  createTurnArtifacts now (newTurn ownerID agentID conversationID key input) msg
    (newRun now ownerID agentID conversationID definitionJSON definitionHash ruleHash input) d = Ok (d', t, m, r) →
  (Turn_ID t = nextID (db_turns d) ∧ Turn_Status t = TurnStatusQueued ∧ Turn_MaxAttempts t = 3 ∧ Turn_AttemptCount t = 0 ∧
   Turn_RunID t = Some (Run_ID r) ∧ Turn_OwnerID t = ownerID ∧ Turn_LeaseToken t = ""%string ∧
   Turn_ConversationID t = conversationID ∧ Turn_IdempotencyKey t = key) ∧
  (Run_ID r = nextID (db_runs d) ∧ Run_Status r = RunStatusQueued ∧ Run_RunType r = RunTypeTurn ∧ Run_OwnerID r = ownerID) ∧
  db_turns d' = <[nextID (db_turns d) := t]> (db_turns d) ∧ db_runs d' = <[nextID (db_runs d) := r]> (db_runs d) ∧
  (∀ k u, db_turns d !! k = Some u → conflicts t u = false).
Proof.
  intros Hc. apply createTurnArtifacts_rows in Hc as (-> & Hr0 & _ & Ht & Hr & _ & Hno).
  assert (Run_Status r = RunStatusQueued ∧ Run_RunType r = RunTypeTurn ∧ Run_OwnerID r = ownerID ∧ Run_ID r = nextID (db_runs d))
    as (Hs & Hy & Ho & Hi) by (subst r; by destruct (_ =? 0)). rewrite Hi in Hr. clear Hr0.
  match type of Ht with _ = <[_ := Turn_setID _ (turnDefaults ?x)]> _ => destruct (turnDefaults_new x) as (?&?&?&?&?&?&?&?); [done..|] end.
  split_and!; done.
Qed.

(** A new turn keeps the invariant, and every lease. *)
Lemma created_effect `{Coll : !Collation} C d now ownerID agentID conversationID key input msg definitionJSON definitionHash ruleHash d' t m r :
  DBInv C d →
  createTurnArtifacts now (newTurn ownerID agentID conversationID key input) msg
    (newRun now ownerID agentID conversationID definitionJSON definitionHash ruleHash input) d = Ok (d', t, m, r) →
  DBInv C d' ∧ relies None C d C d'.
Proof.
  intros [H1 H2 H3 H4 H5] Hc.
  apply created_rows in Hc as ((Tid & Tst & Tmax & Tatt & Trun & Town & Ttok & _) & (Rid & Rst & Rty & Row) & Ht & Hr & _).
  assert (∀ k u, db_turns d !! k = Some u → Turn_RunID u ≠ Some (nextID (db_runs d))) as Hnew.
  { intros k u Hu Heq. destruct (H4 k u Hu) as (id & x & Hid & Hx & _). rewrite Heq in Hid. injection Hid as <-.
    by rewrite nextID_fresh in Hx. }
  split; split.
  - unfold turnsKeyed. rewrite Ht. by apply map_Forall_insert_2.
  - unfold turnRuns. rewrite Hr. apply map_Forall_insert_2; [by rewrite Rty|done].
  - intros k k' t1 t2 id Hk Hk' E1 E2. rewrite Ht, lookup_insert_Some in Hk. rewrite Ht, lookup_insert_Some in Hk'.
    destruct Hk as [[<- <-]|[Hne Hk]], Hk' as [[<- <-]|[Hne' Hk']]; [done| | |by eapply H3].
    + rewrite Trun, Rid in E1. by destruct (Hnew _ _ Hk'); rewrite E1.
    + rewrite Trun, Rid in E2. by destruct (Hnew _ _ Hk); rewrite E2.
  - intros k u Hu. rewrite Ht, lookup_insert_Some in Hu. destruct Hu as [[<- <-]|[Hne Hu]].
    + exists (Run_ID r), r. rewrite Hr, Rid, lookup_insert_eq. split_and!; [congruence|done|].
      split; [congruence|by rewrite Tst, Rst|lia|lia|left]. by rewrite Ttok, Tst.
    + destruct (H4 k u Hu) as (id & x & Hid & Hx & Hok). exists id, x. split_and!; [done| |done].
      rewrite Hr, lookup_insert_ne; [done|]. intros <-. by rewrite nextID_fresh in Hx.
  - done.
  - done.
  - by intros T -> [? [=]].
  - intros T base b HC (u & Hu & HuT & Hust). rewrite Ht, lookup_insert_Some in Hu.
    destruct Hu as [[_ <-]|[_ Hu]]; [|by exists u]. by rewrite Tst in Hust.
  - intros T base b id x HC _ (u & Hu & HuT & Hust) Hid Hx. right. rewrite Hr, lookup_insert_Some in Hx.
    destruct Hx as [[<- <-]|[_ Hx]]; [exfalso|by exists x].
    rewrite Ht, lookup_insert_Some in Hu. destruct Hu as [[_ <-]|[_ Hu]]; [by rewrite Tst in Hust|].
    apply (Hnew _ _ Hu). destruct (H4 _ _ Hu) as (i & y & Hi & _ & Hrow).
    destruct (row_lease _ _ _ Hrow) as [[He _]|(base' & m' & HC' & (_ & _ & Hag & _) & _)].
    + destruct (H5 T base b HC). congruence.
    + rewrite HuT, HC in HC'. injection HC' as <- <-. congruence.
  - intros id x Hx. exists x. split; [|unfold stepOk; by rewrite String.eqb_refl].
    rewrite Hr, lookup_insert_ne; [done|]. intros <-. by rewrite nextID_fresh in Hx.
Qed.

Section System.
Context `{!UnicodeTables}.
Context `{Coll : !Collation}.
Context (unmarshalObject : RawMessage → result string (list (string * json))).
Context (DecodeDefinition decodeCheckpoint : RawMessage → option Cause).
Context (marshalObject : list (string * json) → RawMessage).
Context (hasConversations workspaceEnabled hasImprovement hasSessionSearch : bool).
Context (answersInvalid : RawMessage → list (string * json) → bool).
Context (json_Valid : RawMessage → bool).
Context (subagentDefinition : SubagentRequest → result Cause (RawMessage * string * string)).

(** ** Processes *)

Inductive Handler :=
| HWorker (hasWorkspace : bool) (leaseDuration : Z) (workerID token : string)
| HHeartbeat (leaseDuration turnID : Z) (token : string)
| HRecover
| HCancel (fuel : nat) (ownerID runID : Z)
| HDecide (ownerID requestID : Z) (approved : bool) (note : string) (answers : list (string * json))
| HResume (ownerID runID : Z)
| HSubagent (hasWorkspace : bool) (req : SubagentRequest).

Definition forget {A} (p : prog A) : prog unit := let& _ := p in Ret tt.

Definition handlerProg (h : Handler) : prog unit :=
  match h with
  | HWorker hasWorkspace lease workerID token =>
      workerRound unmarshalObject DecodeDefinition decodeCheckpoint marshalObject hasConversations workspaceEnabled hasImprovement
        hasSessionSearch hasWorkspace lease workerID token
  | HHeartbeat lease turnID token => forget (heartbeatRound lease turnID token)
  | HRecover => forget recoverExpired
  | HCancel fuel owner run => forget (CancelRun fuel owner run)
  | HDecide owner request approved note answers =>
      forget (decideApprovalRequest unmarshalObject marshalObject answersInvalid owner request approved note answers)
  | HResume owner run => forget (ResumeByID unmarshalObject marshalObject owner run)
  | HSubagent hasWorkspace req => forget (RunSubagent marshalObject hasConversations subagentDefinition hasWorkspace req)
  end.

(** A round of the worker draws a lease token of its own. *)
Definition handlerToken (h : Handler) : option string :=
  match h with HWorker _ _ _ token => Some token | _ => None end.

Record Thread := mkThread { thread_token : option string; thread_prog : prog unit }.
Record System := mkSystem { sys_db : DB; sys_threads : gmap nat Thread; sys_tokens : gset string }.

(** What is assumed of the steps: with [Calm], that the environments are calm and that
    no run starts a subagent; with [Rough], nothing. *)
Inductive Conditions := Calm | Rough.

Definition allows (cond : Conditions) {X} (c : call X) (env : Env) : Prop :=
  match cond with Calm => calm c env | Rough => True end.
Definition allowsHandler (cond : Conditions) (h : Handler) : Prop :=
  match cond, h with Calm, HSubagent _ _ => False | _, _ => True end.

Inductive sstep (cond : Conditions) : System → System → Prop :=
| StepCall d threads tokens n tok X (c : call X) (k : X → prog unit) env x d' :
    threads !! n = Some (mkThread tok (Call c k)) → allows cond c env → perform json_Valid c env d = (x, d') →
    sstep cond (mkSystem d threads tokens) (mkSystem d' (<[n := mkThread tok (k x)]> threads) tokens)
| StepSpawn d threads tokens n h :
    threads !! n = None → allowsHandler cond h → (∀ T, handlerToken h = Some T → T ≠ ""%string ∧ T ∉ tokens) →
    sstep cond (mkSystem d threads tokens)
      (mkSystem d (<[n := mkThread (handlerToken h) (handlerProg h)]> threads) (match handlerToken h with Some T => {[T]} ∪ tokens | None => tokens end))
| StepCrash d threads tokens n : sstep cond (mkSystem d threads tokens) (mkSystem d (delete n threads) tokens)
| StepCreate d threads tokens now ownerID agentID conversationID key input msg definitionJSON definitionHash ruleHash d' err :
    CreateWithArtifacts now (newTurn ownerID agentID conversationID key input) msg
      (newRun now ownerID agentID conversationID definitionJSON definitionHash ruleHash input) d = (d', err) →
    sstep cond (mkSystem d threads tokens) (mkSystem d' threads tokens)
| StepContinue d threads tokens now goalID ownerID agentID conversationID key input msg definitionJSON definitionHash ruleHash d' created :
    CreateGoalContinuationWithArtifacts now goalID (newTurn ownerID agentID conversationID key input) msg
      (newRun now ownerID agentID conversationID definitionJSON definitionHash ruleHash input) d = (d', created) →
    sstep cond (mkSystem d threads tokens) (mkSystem d' threads tokens)
| StepElsewhere d threads tokens d' :
    db_turns d' = db_turns d → db_runs d' = db_runs d → sstep cond (mkSystem d threads tokens) (mkSystem d' threads tokens).

Definition initial : System := mkSystem emptyDB ∅ ∅.
Definition reachable (cond : Conditions) (s : System) : Prop := rtc (sstep cond) initial s.

(** ** The invariant *)

Definition threadOk (C : Claims) (d : DB) (tokens : gset string) (th : Thread) (o : Role) : Prop :=
  safe (thread_prog th) C o done_ ∧ roleOk C d o ∧ ownToken o = thread_token th ∧ (∀ T, thread_token th = Some T → T ∈ tokens).

Record sysInv (C : Claims) (s : System) : Prop := mkSysInv {
  sys_tables : DBInv C (sys_db s);
  sys_issued : ∀ T, is_Some (C !! T) → T ∈ sys_tokens s;
  sys_roles : ∀ n th, sys_threads s !! n = Some th → ∃ o, threadOk C (sys_db s) (sys_tokens s) th o;
  sys_distinct : ∀ n n' th th' T, sys_threads s !! n = Some th → sys_threads s !! n' = Some th' →
    thread_token th = Some T → thread_token th' = Some T → n = n'
}.

Lemma callOk_claims C C' o {X} (c : call X) : C ⊆ C' → callOk C o c → callOk C' o c.
Proof.
  intros Hsub. destruct c; try done. cbn. intros (base & m & HC & Hrest). exists base, m. split; [by eapply lookup_weaken|done].
Qed.

Lemma safe_claims {A} (p : prog A) C C' o : C ⊆ C' → safe p C o done_ → safe p C' o done_.
Proof.
  intros Hsub. destruct p as [a|X c k]; [done|]. intros [Hc Hk]. split; [by eapply callOk_claims|].
  intros x C2 o2 Hsub2. apply Hk. by etrans.
Qed.

(** A thread that did not take the step is as well off after it. *)
Lemma threadOk_stable by_ C d C' d' tokens tokens' th o :
  relies by_ C d C' d' → (∀ T, by_ = Some T → thread_token th ≠ Some T) → tokens ⊆ tokens' →
  threadOk C d tokens th o → threadOk C' d' tokens' th o.
Proof.
  intros Hrel Hby Hsub (Hs & Hr & Ht & Hi). split_and!; [|by eapply roleOk_stable; rewrite ?Ht|done|by intros T HT; apply Hsub, Hi].
  eapply safe_claims; [by eapply rely_claims|done].
Qed.

(** A step of the tables that no thread takes. *)
Lemma sysInv_tables C d d' threads tokens :
  DBInv C d' → relies None C d C d' → sysInv C (mkSystem d threads tokens) → sysInv C (mkSystem d' threads tokens).
Proof.
  intros Hinv Hrel [H1 H2 H3 H4]. split; [done..| |done]. intros n th Hn. destruct (H3 n th Hn) as [o Ho].
  exists o. by eapply threadOk_stable.
Qed.

Lemma safe_forget {A} (p : prog A) C o : safe p C o done_ → safe (forget p) C o done_.
Proof. apply safe_ignore. Qed.

Lemma handlerProg_safe h C :
  allowsHandler Calm h →
  safe (handlerProg h) C (mkRole (match handlerToken h with Some T => Unclaimed T | None => NoLease end) (λ _, False) (λ _, False)) done_.
Proof.
  intros Hh. destruct h; cbn [handlerProg handlerToken]; try apply safe_forget.
  - apply safe_workerRound.
  - apply safe_heartbeatRound.
  - apply safe_recoverExpired.
  - apply safe_CancelRun.
  - apply safe_decideApprovalRequest.
  - apply safe_ResumeByID.
  - done.
Qed.

Lemma sysInv_call C d threads tokens n tok {X} (c : call X) k env x d' :
  sysInv C (mkSystem d threads tokens) → threads !! n = Some (mkThread tok (Call c k)) → calm c env → perform json_Valid c env d = (x, d') →
  ∃ C', sysInv C' (mkSystem d' (<[n := mkThread tok (k x)]> threads) tokens) ∧ relies tok C d C' d'.
Proof.
  intros [H1 H2 H3 H4] Hn Hcalm Hp. cbn [sys_db sys_threads sys_tokens] in *.
  destruct (H3 n _ Hn) as (o & [Hcall Hk] & Hrole & Htok & Hiss). cbn [thread_token] in *.
  destruct (perform_ok _ _ _ _ _ _ _ _ H1 Hrole Hcall Hcalm Hp) as (C' & o' & Hinv' & Hans & Hrole' & Hrel & Htok').
  rewrite Htok in Hrel, Htok'. exists C'. split; [|done]. split; cbn [sys_db sys_threads sys_tokens]; [done|..].
  - intros T HT. destruct (C !! T) eqn:HC; [by apply H2; rewrite HC|]. by apply Hiss, (rely_new _ _ _ _ _ Hrel).
  - intros n' th Hth. rewrite lookup_insert_Some in Hth. destruct Hth as [[<- <-]|[Hne Hth]].
    + exists o'. split_and!; [by apply Hk; [eapply rely_claims|]|done..].
    + destruct (H3 n' th Hth) as [o2 Ho2]. exists o2. eapply threadOk_stable; [done| |done..].
      intros T -> HT'. by apply Hne, (H4 n n' _ _ T Hn Hth).
  - intros n1 n2 th1 th2 T E1 E2. rewrite lookup_insert_Some in E1. rewrite lookup_insert_Some in E2.
    destruct E1 as [[<- <-]|[_ E1]], E2 as [[<- <-]|[_ E2]]; intros F1 F2;
      [done|by apply (H4 n n2 _ _ T Hn E2)|by apply (H4 n1 n _ _ T E1 Hn)|by eapply H4].
Qed.

Lemma sysInv_spawn C d threads tokens n h :
  sysInv C (mkSystem d threads tokens) → allowsHandler Calm h → (∀ T, handlerToken h = Some T → T ≠ ""%string ∧ T ∉ tokens) →
  sysInv C (mkSystem d (<[n := mkThread (handlerToken h) (handlerProg h)]> threads)
    (match handlerToken h with Some T => {[T]} ∪ tokens | None => tokens end)).
Proof.
  intros [H1 H2 H3 H4] Hallowed Hfresh. cbn [sys_db sys_threads sys_tokens] in *.
  assert (tokens ⊆ match handlerToken h with Some T => {[T]} ∪ tokens | None => tokens end) as Hsub by (destruct (handlerToken h); set_solver).
  split; cbn [sys_db sys_threads sys_tokens]; [done|..].
  - intros T HT. by apply Hsub, H2.
  - intros n' th Hth. rewrite lookup_insert_Some in Hth. destruct Hth as [[<- <-]|[Hne Hth]].
    + eexists. split_and!; [by apply handlerProg_safe| |by destruct h|by intros T; cbn; intros ->; set_solver].
      split; [|done..]. destruct (handlerToken h) as [T|]; [|done]. destruct (Hfresh T eq_refl) as [HT HTn]. cbn. split; [done|].
      destruct (C !! T) eqn:HC; [|done]. destruct HTn. apply H2. by rewrite HC.
    + destruct (H3 n' th Hth) as [o2 Ho2]. exists o2. eapply (threadOk_stable None); [apply relies_refl|done..].
  - intros n1 n2 th1 th2 T E1 E2. rewrite lookup_insert_Some in E1. rewrite lookup_insert_Some in E2.
    assert (∀ n' th, threads !! n' = Some th → thread_token th = Some T → handlerToken h ≠ Some T) as Hno.
    { intros n' th Hth HT HhT. destruct (H3 n' th Hth) as (o & _ & _ & _ & Hi). by apply (Hfresh T HhT), Hi. }
    destruct E1 as [[<- <-]|[_ E1]], E2 as [[<- <-]|[_ E2]]; intros F1 F2; [done|by destruct (Hno n2 th2)|by destruct (Hno n1 th1)|by eapply H4].
Qed.

Lemma sysInv_crash C d threads tokens n :
  sysInv C (mkSystem d threads tokens) → sysInv C (mkSystem d (delete n threads) tokens).
Proof.
  intros [H1 H2 H3 H4]. split; cbn in *; [done..| |].
  - intros n' th Hth. apply lookup_delete_Some in Hth as [_ Hth]. by apply (H3 n').
  - intros n1 n2 th1 th2 T E1 E2. apply lookup_delete_Some in E1 as [_ E1], E2 as [_ E2]. by apply (H4 n1 n2 th1 th2).
Qed.

Lemma CreateGoalContinuation_tables now goalID item msg run d d' created :
  CreateGoalContinuationWithArtifacts now goalID item msg run d = (d', created) →
  (created ≠ Ok true ∧ d' = d) ∨ (created = Ok true ∧ ∃ t m r, createTurnArtifacts now item msg run d = Ok (d', t, m, r)).
Proof.
  unfold CreateGoalContinuationWithArtifacts. intros Hc.
  repeat match type of Hc with context [match ?x with _ => _ end] => destruct x eqn:?; try (injection Hc as <- <-; by left) end.
  injection Hc as <- <-. right. eauto.
Qed.

(** One step, and what it does to the tables. *)
Lemma sysInv_step C s s' :
  sysInv C s → sstep Calm s s' → ∃ C' by_, sysInv C' s' ∧ relies by_ C (sys_db s) C' (sys_db s').
Proof.
  intros Hinv Hstep. assert (∀ d threads tokens, sysInv C (mkSystem d threads tokens) →
    ∃ C' by_, sysInv C' (mkSystem d threads tokens) ∧ relies by_ C d C' d) as Hsame by (intros; exists C, None; auto using relies_refl).
  destruct Hstep as [d threads tokens n tok X c k env x d' Hn Hcalm Hp|d threads tokens n h Hn Hh Hfresh|
    d threads tokens n|d threads tokens now owner agent conv key input msg dj dh rh d' err Hc|
    d threads tokens now goal owner agent conv key input msg dj dh rh d' created Hc|d threads tokens d' Ht Hr]; cbn [sys_db].
  - destruct (sysInv_call _ _ _ _ _ _ _ _ _ _ _ Hinv Hn Hcalm Hp) as (C' & H1 & H2). eauto.
  - exists C, None. split; [by apply sysInv_spawn|apply relies_refl].
  - exists C, None. split; [by apply sysInv_crash|apply relies_refl].
  - unfold CreateWithArtifacts in Hc. destruct (createTurnArtifacts _ _ _ _ _) as [[[[d1 t] m] r]|e] eqn:Ha; injection Hc as <- <-; [|by apply Hsame].
    exists C, None. destruct (created_effect C _ _ _ _ _ _ _ _ _ _ _ _ _ _ _ (sys_tables _ _ Hinv) Ha). split; [by eapply sysInv_tables|done].
  - apply CreateGoalContinuation_tables in Hc as [[_ ->]|(_ & t & m & r & Ha)]; [by apply Hsame|].
    exists C, None. destruct (created_effect C _ _ _ _ _ _ _ _ _ _ _ _ _ _ _ (sys_tables _ _ Hinv) Ha). split; [by eapply sysInv_tables|done].
  - exists C, None. split; [|by apply relies_ext]. eapply sysInv_tables; [by eapply DBInv_ext; [..|apply Hinv]|by apply relies_ext|done].
Qed.

Lemma reachable_inv s : reachable Calm s → ∃ C, sysInv C s.
Proof.
  apply (rtc_ind_r (λ s, ∃ C, sysInv C s)).
  - exists ∅. split; cbn; try done; by intros T [? [=]].
  - intros s1 s2 _ Hstep [C Hinv]. destruct (sysInv_step _ _ _ Hinv Hstep) as (C' & _ & Hinv' & _). by exists C'.
Qed.

(** Every change of a run's status is one that [TransitionStatus] makes: a history of
    the run extends over any steps of the system. *)
Lemma rtc_history C s s' id r past :
  sysInv C s → rtc (sstep Calm) s s' → db_runs (sys_db s) !! id = Some r → run_history (Run_Status r) past →
  ∃ r' past', db_runs (sys_db s') !! id = Some r' ∧ run_history (Run_Status r') past' ∧
    (Run_Status r :: past) `suffix_of` (Run_Status r' :: past').
Proof.
  intros Hinv Hsteps. revert C r past Hinv. induction Hsteps as [s|s s1 s2 Hstep Hsteps IH]; intros C r past Hinv Hr Hp; [by exists r, past|].
  destruct (sysInv_step _ _ _ Hinv Hstep) as (C1 & by_ & Hinv1 & Hrel).
  destruct (rely_legal _ _ _ _ _ Hrel id r Hr) as (r1 & Hr1 & Hok).
  destruct (IH C1 r1 (Run_Status r :: past)) as (r2 & past2 & Hr2 & Hp2 & Hsuf); [done..| |].
  - apply (history_step _ _ (Run_Status r1)); [done|]. unfold TransitionStatus. unfold stepOk in Hok.
    destruct (String.eqb_spec (Run_Status r) (Run_Status r1)) as [He|]; [by rewrite He|]. cbn in Hok. by rewrite Hok.
  - exists r2, past2. split_and!; [done..|]. etrans; [|done]. by apply suffix_cons_r.
Qed.


(** C3. Under the same calm conditions the status column of a run refines the status
    machine of the domain: whatever the processes do, in whatever order, the history of a
    run only grows by transitions that [TransitionStatus] allows, and a terminal status is
    never left.  Under rough conditions it is: [late_failure_mixes_statuses]. *)
Theorem run_statuses_refine s s' id r past :
  reachable Calm s → rtc (sstep Calm) s s' → db_runs (sys_db s) !! id = Some r → run_history (Run_Status r) past →
  ∃ r' past', db_runs (sys_db s') !! id = Some r' ∧ run_history (Run_Status r') past' ∧
    (Run_Status r :: past) `suffix_of` (Run_Status r' :: past') ∧
    (Run_Status r ∈ terminalRunStatuses → Run_Status r' = Run_Status r).
Proof.
  intros [C Hinv]%reachable_inv Hsteps Hr Hp. destruct (rtc_history _ _ _ _ _ _ Hinv Hsteps Hr Hp) as (r' & past' & Hr' & Hp' & Hsuf).
  exists r', past'. split_and!; [done..|]. intros Hterm. destruct Hsuf as [l Hl]. destruct l as [|x l]; cbn in Hl; injection Hl as Hx Hpast; [done|].
  eapply history_terminal; [done| |done]. rewrite Hpast. apply elem_of_app. right. left.
Qed.

(** ** Fencing *)

(** The writes a worker makes under its lease. *)
Definition savesTurn {X} (c : call X) : bool :=
  match c with SaveOwned _ _ _ | SaveWithMessage _ _ _ | SavePaused _ _ _ _ | UpdateTurn _ => true | _ => false end.

(** The row of another lease is neither the row that is saved nor does it share its run. *)
Lemma other_row C d o item T base m K k t :
  DBInv C d → roleOk C d o → role_own o = Holding T base m K → Turn_LeaseToken item = T → agrees base item →
  (∃ u, db_turns d !! Turn_ID item = Some u ∧ Turn_LeaseToken u = Turn_LeaseToken item) →
  db_turns d !! k = Some t → Turn_LeaseToken t ≠ T → Turn_ID item ≠ k ∧ (∀ id, Turn_RunID base = Some id → Turn_RunID t ≠ Some id).
Proof.
  intros Hinv Hrole Hown HT Hag (u & Hu & HuT) Ht Hne. assert (Turn_ID item ≠ k) as Hk by (intros <-; congruence). split; [done|].
  intros id Hbid Htid. apply Hk. pose proof (role_own_ok _ _ _ Hrole) as Hok. rewrite Hown in Hok. destruct Hok as [HC _].
  destruct (inv_rows _ _ Hinv _ _ Hu) as (i & r & Hi & Hr & Hrow).
  destruct (row_lease _ _ _ Hrow) as [[He _]|(base' & m' & HC' & (_ & _ & Hbr & _) & _)].
  - destruct (inv_claims _ _ Hinv _ _ _ HC). congruence.
  - rewrite HuT, HT, HC in HC'. injection HC' as <- <-. apply (inv_unique _ _ Hinv _ _ u t id); congruence.
Qed.

Lemma save_fenced C d o from item run (keeps : bool) d' k t T (write : DB → DB * Turn * option RepoErr) env x :
  DBInv C d → roleOk C d o → saveOk (role_own o) from item run keeps → ownToken o = Some T →
  (∀ d1 item1 err, write d = (d1, item1, err) →
     (holdsLease item d ∧ Turn_ID item1 = Turn_ID item ∧ db_turns d1 = <[Turn_ID item := item1]> (db_turns d) ∧ db_runs d1 = <[Run_ID run := run]> (db_runs d)) ∨ d1 = d) →
  ownedTransaction (env_fault env) item write d = (x, d') →
  db_turns d !! k = Some t → Turn_LeaseToken t ≠ T →
  db_turns d' !! k = Some t ∧ ∀ id, Turn_RunID t = Some id → db_runs d' !! id = db_runs d !! id.
Proof.
  intros Hinv Hrole (T' & base & m & K & Hown & HT' & Hag & (Hlid & _) & _) Htok Hcases Hp Ht Hne.
  unfold ownToken in Htok. rewrite Hown in Htok. injection Htok as ->.
  unfold ownedTransaction, transaction in Hp. destruct (env_fault env); [|by injection Hp as <- <-..].
  destruct (write d) as [[d1 item1] err] eqn:Hw. injection Hp as <- <-.
  destruct (Hcases _ _ _ eq_refl) as [((u & Hu & _ & HuT & _) & Hi & Ht1 & Hr1)| ->]; [|done].
  destruct (other_row C d o item T base m K k t) as [Hk Hid]; try done; [by exists u|].
  rewrite Ht1, Hr1, lookup_insert_ne by done. split; [done|]. intros id Htid. rewrite lookup_insert_ne; [done|].
  intros <-. by apply (Hid _ Hlid).
Qed.

(** C7. In every state that calm steps ([Calm], as above) reach, a write that a worker
    makes under its lease token, whether it succeeds or fails, early or late, leaves
    alone every turn that does not carry that token, and the run of such a turn: a worker
    whose lease was recovered, cancelled or taken over cannot disturb the new holder.
    After rough steps a worker may write without its token and does:
    [resume_error_overwrites_retry]. *)
Theorem lease_fences s n T {X} (c : call X) kont env x d' k t :
  reachable Calm s → sys_threads s !! n = Some (mkThread (Some T) (Call c kont)) → savesTurn c = true →
  perform json_Valid c env (sys_db s) = (x, d') → db_turns (sys_db s) !! k = Some t → Turn_LeaseToken t ≠ T →
  db_turns d' !! k = Some t ∧ ∀ id, Turn_RunID t = Some id → db_runs d' !! id = db_runs (sys_db s) !! id.
Proof.
  intros [C Hinv]%reachable_inv Hn Hsaves Hp Ht Hne. pose proof (sys_tables _ _ Hinv) as Hdb.
  destruct (sys_roles _ _ Hinv n _ Hn) as (o & [Hcall _] & Hrole & Htok & _). cbn in Htok. destruct c; try done; cbn [callOk perform] in Hcall, Hp.
  - destruct Hcall as (T' & base & m & K & Hown & HT & Hag & _). unfold ownToken in Htok. rewrite Hown in Htok. injection Htok as ->.
    unfold statement, transaction in Hp. destruct (env_fault env); [|by injection Hp as <- <-..].
    destruct (turns_Update item (sys_db s)) as [d1 err] eqn:Hu. injection Hp as <- <-.
    apply turns_Update_cases in Hu as [(_ & -> & u & Hu & _ & HuT)|[_ ->]]; [|done|].
    + destruct (other_row C (sys_db s) o item T base m K k t) as [Hk _]; try done; [by exists u|].
      cbn. by rewrite lookup_insert_ne.
    + apply leaseProtected_true. rewrite HT. eapply inv_claims; [done|]. pose proof (role_own_ok _ _ _ Hrole) as Hok.
      rewrite Hown in Hok. apply Hok.
  - eapply save_fenced; [done..| |done|done|done]. intros d1 item1 err Hw. apply completeOwned_cases in Hw; [|by eapply save_protected].
    destruct Hw as [(_ & Hh & _ & -> & ->)|(_ & -> & _)]; [left|by right]. by destruct releaseLease.
  - eapply save_fenced; [done..| |done|done|done]. intros d1 item1 err Hw. apply completeOwned_cases in Hw; [|by eapply save_protected].
    destruct Hw as [(_ & Hh & _ & -> & ->)|(_ & -> & _)]; [left|by right]. done.
  - eapply save_fenced; [done..| |done|done|done]. intros d1 item1 err Hw. apply SavePausedRun_cases in Hw; [|by eapply save_protected].
    destruct Hw as [(_ & Hh & _ & -> & Ht1 & Hr1 & _)|(_ & -> & _)]; [left|by right]. done.
Qed.

(** ** Schedules *)

Inductive Event :=
| EvCreate (now ownerID agentID conversationID : Z) (key : string) (input : RawMessage)
| EvSpawn (n : nat) (h : Handler)
| EvCall (n : nat) (env : Env)
| EvCrash (n : nat).

Definition allowsb (cond : Conditions) {X} (c : call X) (env : Env) : bool :=
  match cond with
  | Calm => negb (releases c && isLate (env_fault env)) &&
      match c with ResumeRuntime _ _ _ _ => match env_runtime env with Ok _ => true | Err _ => false end | _ => true end
  | Rough => true
  end.
Definition allowsHandlerb (cond : Conditions) (h : Handler) : bool :=
  match cond, h with Calm, HSubagent _ _ => false | _, _ => true end.

(** A step of a schedule, if the conditions allow it. *)
Definition play (cond : Conditions) (e : Event) (s : System) : option System :=
  match e with
  | EvCreate now owner agent conversation key input =>
      Some (mkSystem (CreateWithArtifacts now (newTurn owner agent conversation key input)
        (mkMessageRow 0 owner conversation "user" key None 0 ContentTypeText)
        (newRun now owner agent conversation "{}" "hash" "rules" input) (sys_db s)).1 (sys_threads s) (sys_tokens s))
  | EvSpawn n h =>
      match sys_threads s !! n with
      | Some _ => None
      | None =>
        if negb (allowsHandlerb cond h) then None else
        let threads := <[n := mkThread (handlerToken h) (handlerProg h)]> (sys_threads s) in
        match handlerToken h with
        | Some T => if negb (T =? "")%string && bool_decide (T ∉ sys_tokens s) then Some (mkSystem (sys_db s) threads ({[T]} ∪ sys_tokens s)) else None
        | None => Some (mkSystem (sys_db s) threads (sys_tokens s))
        end
      end
  | EvCall n env =>
      match sys_threads s !! n with
      | Some (mkThread tok (Call c k)) =>
        if allowsb cond c env then
          let '(x, d) := perform json_Valid c env (sys_db s) in
          Some (mkSystem d (<[n := mkThread tok (k x)]> (sys_threads s)) (sys_tokens s))
        else None
      | _ => None
      end
  | EvCrash n => Some (mkSystem (sys_db s) (delete n (sys_threads s)) (sys_tokens s))
  end.

Fixpoint playAll (cond : Conditions) (events : list Event) (s : System) : System :=
  match events with
  | [] => s
  | e :: events => match play cond e s with Some s => playAll cond events s | None => s end
  end.

Lemma allowsb_allows cond {X} (c : call X) env : allowsb cond c env = true → allows cond c env.
Proof.
  destruct cond; [|done]. cbn. unfold calm. intros [H1 H2]%andb_true_iff. split; [intros Hr; by rewrite Hr in H1; destruct (isLate _)|].
  destruct c; try done. by destruct (env_runtime env); [eexists|].
Qed.

Lemma play_step cond e s s' : play cond e s = Some s' → sstep cond s s'.
Proof.
  destruct s as [d threads tokens]. destruct e as [now owner agent conversation key input|n h|n env|n]; cbn [play sys_db sys_threads sys_tokens].
  - intros [= <-]. eapply StepCreate. apply surjective_pairing.
  - destruct (threads !! n) eqn:Hn; [done|]. destruct (allowsHandlerb cond h) eqn:Hh; [|done]. cbn [negb].
    intros Hs. pose proof (StepSpawn cond d threads tokens n h Hn ltac:(by destruct cond, h)) as Hstep.
    destruct (handlerToken h) as [T|]; [|injection Hs as <-; by apply Hstep].
    destruct (_ && _) eqn:Hc; [|done]. injection Hs as <-. apply andb_true_iff in Hc as [H1 H2]. apply Hstep. intros T' [= <-].
    split; [by intros ->|by apply bool_decide_eq_true in H2].
  - destruct (threads !! n) as [[tok [a|X c k]]|] eqn:Hn; try done. destruct (allowsb cond c env) eqn:Hc; [|done].
    destruct (perform json_Valid c env d) as [x d'] eqn:Hp. intros [= <-]. eapply StepCall; [done|by apply allowsb_allows|done].
  - intros [= <-]. apply StepCrash.
Qed.

Lemma playAll_rtc cond events s : rtc (sstep cond) s (playAll cond events s).
Proof.
  revert s. induction events as [|e events IH]; intros s; cbn; [done|]. destruct (play cond e s) eqn:Hp; [|done].
  by eapply rtc_l; [eapply play_step|].
Qed.
End System.

(** ** Samples *)

#[local] Existing Instance AsciiCollation.

Definition okEnv (now : Z) : Env := mkEnv now NoFault (Ok None) (Ok None) (Ok 1) None.
Definition runtimeEnv (r : result Cause (option RuntimeOutput)) : Env := mkEnv 120 NoFault r (Ok None) (Ok 1) None.
Definition faultEnv (f : Fault) : Env := mkEnv 120 f (Ok None) (Ok None) (Ok 1) None.
Definition demo_output : RuntimeOutput := mkRuntimeOutput "completed" "" "done" (Some 5) 0 None None "{}".

(** A service without the optional parts. *)
Notation at_demo f :=
  (f AsciiTables AsciiCollation (λ _, Ok []) (λ _, None) (λ _, None) (λ _, "{}"%string) false false false false (λ _ _, false) (λ _, true) (λ _, Ok ("{}", "h", "")%string)) (only parsing).

Definition demo_run (cond : Conditions) : list Event → System → System :=
  at_demo (@playAll) cond.
Definition demo_worker (token : string) : Handler := HWorker false 30000 "w" token.
Definition demo_calls (n : nat) (envs : list Env) : list Event := EvCall n <$> envs.

(** A turn is created, claimed and set running. *)
Definition demo_started : list Event :=
  [EvCreate 100 1 2 3 "key" "{}"; EvCreate 101 1 2 4 "key" "{}"; EvSpawn 0 (demo_worker "tok")] ++ demo_calls 0 (replicate 4 (okEnv 110)).
Definition demo_finished : list Event := demo_calls 0 (runtimeEnv (Ok (Some demo_output)) :: replicate 8 (okEnv 130)).
Definition demo_state : System := demo_run Calm demo_started initial.

Definition demo_startedRun : Run := Eval vm_compute in default (newRun 0 0 0 0 "" "" "" "") (db_runs (sys_db demo_state) !! 1).


Lemma run_statuses_refine_witness :
  db_runs (sys_db demo_state) !! 1 = Some demo_startedRun ∧ Run_Status demo_startedRun = RunStatusRunning ∧
  ∃ r' past', db_runs (sys_db (demo_run Calm demo_finished demo_state)) !! 1 = Some r' ∧ Run_Status r' = RunStatusSucceeded ∧
    run_history RunStatusSucceeded past' ∧ [RunStatusRunning; RunStatusQueued; ""%string] `suffix_of` (RunStatusSucceeded :: past').
Proof.
  assert (db_runs (sys_db demo_state) !! 1 = Some demo_startedRun) as Hr by (vm_compute; reflexivity).
  assert (run_history (Run_Status demo_startedRun) [RunStatusQueued; ""%string]) as Hh.
  { apply (history_step _ _ RunStatusRunning); [|reflexivity]. apply (history_step _ _ RunStatusQueued); [|reflexivity]. constructor. }
  split_and!; [done..|].
  destruct (at_demo (@run_statuses_refine) demo_state (demo_run Calm demo_finished demo_state) 1 demo_startedRun [RunStatusQueued; ""%string])
    as (r' & past' & H1 & H2 & H3 & _); [unfold reachable, demo_state, demo_run; apply playAll_rtc|unfold demo_run; apply playAll_rtc|done..|].
  assert (Run_Status r' = RunStatusSucceeded) as He.
  { revert H1. vm_compute. by intros [= <-]. }
  exists r', past'. rewrite He in H2, H3. split_and!; done.
Defined.

(** A worker whose run could not be read is about to fail its turn. *)
Definition demo_unread : System :=
  demo_run Calm (take 3 demo_started ++ demo_calls 0 [okEnv 110; okEnv 110; faultEnv (FaultEarly "gone"); okEnv 110]) initial.
Definition demo_otherTurn : Turn := Eval vm_compute in default (newTurn 0 0 0 "" "") (db_turns (sys_db demo_unread) !! 2).

Lemma lease_fences_witness :
  ∃ (item : Turn) (kont : option RepoErr → prog unit) d',
    sys_threads demo_unread !! 0%nat = Some (mkThread (Some "tok"%string) (Call (UpdateTurn item) kont)) ∧
    Turn_Status item = TurnStatusFailed ∧
    perform (λ _, true) (UpdateTurn item) (okEnv 110) (sys_db demo_unread) = (None, d') ∧
    Turn_LeaseToken demo_otherTurn = ""%string ∧ db_turns d' !! 2 = Some demo_otherTurn.
Proof.
  eexists _, _, _.
  match goal with |- ?A ∧ _ => assert A as Hn by (vm_compute; reflexivity) end.
  match goal with |- _ ∧ _ ∧ ?A ∧ _ => assert A as Hp by (vm_compute; reflexivity) end.
  split_and!; [exact Hn|reflexivity|exact Hp|reflexivity|].
  refine (proj1 (at_demo (@lease_fences) demo_unread 0%nat "tok"%string _ _ (okEnv 110) _ _ 2 demo_otherTurn _ Hn _ Hp _ _)).
  - unfold reachable, demo_unread, demo_run. apply playAll_rtc.
  - reflexivity.
  - vm_compute; reflexivity.
  - done.
Defined.

(** ** What the system excludes, and what it does not prevent *)

(** The status and lease of a turn, and the status of a run. *)
Definition turnState (s : System) (k : Z) : option (string * string) := (λ t, (Turn_Status t, Turn_LeaseToken t)) <$> db_turns (sys_db s) !! k.
Definition runState (s : System) (k : Z) : option string := Run_Status <$> db_runs (sys_db s) !! k.

Definition lateFault : Env := faultEnv (FaultLate "commit failed").
Definition demo_cancel : list Event := EvSpawn 9 (HCancel 5 1 1) :: demo_calls 9 (replicate 4 (okEnv 140)).

(** The commit of the finished turn fails after its statements ran; the run is
    cancelled while the handler goes on to fail the turn. *)
Definition demo_lateCommit : list Event :=
  demo_started ++ demo_calls 0 (runtimeEnv (Ok (Some demo_output)) :: replicate 5 (okEnv 130) ++ [lateFault; okEnv 130]).

(** When the commit of a finished turn fails late, the turn in memory has lost its
    lease token, so the write that fails the turn is not fenced: it turns a run that
    was cancelled meanwhile into a succeeded one. *)
Theorem late_failure_mixes_statuses :
  let cancelled := demo_run Rough (demo_lateCommit ++ demo_cancel) initial in
  let after := demo_run Rough (demo_calls 0 (replicate 2 (okEnv 150))) cancelled in
  runState cancelled 1 = Some RunStatusCancelled ∧
  runState after 1 = Some RunStatusSucceeded ∧ turnState after 1 = Some (TurnStatusFailed, ""%string).
Proof. vm_compute. split_and!; reflexivity. Qed.

Definition pausedOutput : RuntimeOutput := mkRuntimeOutput StopReasonPaused "" "" None 0 None (Some (mkCheckpointEntry "" "{}")) "{}".

(** A turn that paused and was queued again. *)
Definition demo_resumed : list Event :=
  take 1 demo_started ++ EvSpawn 0 (demo_worker "tok") :: demo_calls 0 (replicate 4 (okEnv 110) ++ runtimeEnv (Ok (Some pausedOutput)) :: replicate 6 (okEnv 120)) ++
  EvSpawn 1 (HResume 1 1) :: demo_calls 1 (replicate 6 (okEnv 130)).

(** The runtime fails while it resumes the run: the turn is stored for a retry, and
    another worker claims it. *)
Definition demo_resumeFails : list Event :=
  demo_resumed ++ EvSpawn 2 (demo_worker "tok2") :: demo_calls 2 (replicate 5 (okEnv 140) ++ runtimeEnv (Err (newError "boom")) :: replicate 4 (okEnv 150)) ++
  EvSpawn 3 (demo_worker "tok3") :: demo_calls 3 (replicate 2 (okEnv 9000)).

(** An error of the runtime while it resumes a run stores the turn for a retry and
    then fails it at once, without the lease: even when another worker has taken it
    up in between. *)
Theorem resume_error_overwrites_retry :
  let retried := demo_run Rough demo_resumeFails initial in
  let after := demo_run Rough (demo_calls 2 (replicate 3 (okEnv 9100))) retried in
  turnState retried 1 = Some (TurnStatusRunning, "tok3"%string) ∧ runState retried 1 = Some RunStatusResuming ∧
  turnState after 1 = Some (TurnStatusFailed, ""%string) ∧ runState after 1 = Some RunStatusFailed.
Proof. vm_compute. split_and!; reflexivity. Qed.

(** Two workers stop, the first between its claim and its first write. *)
Definition demo_stopped : list Event :=
  take 2 demo_started ++ EvSpawn 0 (demo_worker "tok") :: demo_calls 0 (replicate 2 (okEnv 110)) ++ EvCrash 0 ::
  EvSpawn 1 (demo_worker "tok2") :: demo_calls 1 (replicate 4 (okEnv 120)) ++ [EvCrash 1].

(** The recovery gives up at a turn whose worker stopped before it set the run running:
    every pass returns an error there, and the turns that expired later are left
    running. *)
Theorem recovery_stops_at_queued_run :
  let s := demo_run Calm (demo_stopped ++ EvSpawn 2 HRecover :: demo_calls 2 (replicate 6 (okEnv 99000))) initial in
  turnState s 1 = Some (TurnStatusRunning, "tok"%string) ∧ runState s 1 = Some RunStatusQueued ∧
  turnState s 2 = Some (TurnStatusRunning, "tok2"%string) ∧ runState s 2 = Some RunStatusRunning ∧
  thread_prog <$> sys_threads s !! 2%nat = Some (Ret tt).
Proof. vm_compute. split_and!; reflexivity. Qed.

(** When the run of a claimed turn cannot be read, the turn is failed without its run,
    which stays queued although no turn will ever take it up. *)
Theorem unread_run_is_orphaned :
  let s := demo_run Calm (demo_calls 0 [okEnv 110]) demo_unread in
  turnState s 1 = Some (TurnStatusFailed, "tok"%string) ∧ runState s 1 = Some RunStatusQueued.
Proof. vm_compute. split_and!; reflexivity. Qed.

(** Run 1 starts a subagent, with run 3; while it works, run 1 is cancelled with the
    runs below it. *)
Definition demo_subagent : list Event :=
  demo_started ++ EvSpawn 5 (HSubagent false (mkSubagentRequest 1 2 1 None 0 2 "look" 0)) :: demo_calls 5 (replicate 4 (okEnv 120)) ++
  EvSpawn 9 (HCancel 5 1 1) :: demo_calls 9 (replicate 20 (okEnv 140)).

(** A subagent that returns after its run was cancelled stores it as succeeded. *)
Theorem subagent_overwrites_cancelled :
  let cancelled := demo_run Rough demo_subagent initial in
  let after := demo_run Rough (demo_calls 5 (runtimeEnv (Ok (Some demo_output)) :: replicate 3 (okEnv 150))) cancelled in
  runState cancelled 1 = Some RunStatusCancelled ∧ runState cancelled 3 = Some RunStatusCancelled ∧
  runState after 3 = Some RunStatusSucceeded.
Proof. vm_compute. split_and!; reflexivity. Qed.
