(* ===== verification/TurnHandlers.v ===== *)
(** Handlers of turns on their own: a turn is queued again only after its persisted
    steps were read and hold no tool call ([requeue_after_clear_steps]), and a
    cancellation that runs undisturbed ends and takes all active descendants with it
    ([cancel_cascades]). *)
From S2P Require Import Prelude GoStr Chat Json Tools Rules Hooks Runner Loop Goals TurnStore TurnWorker.
From stdpp Require Import relations.
Open Scope Z_scope.
Open Scope prog_scope.

(** ** Requeueing *)

(** The owner and the run of a turn that a call stores as ready to be claimed. *)
Definition requeues {X} (c : call X) : option (Z * Z) :=
  match c with
  | SaveOwned item _ _ | Recover item _ | UpdateTurn item | SaveWithMessage item _ _ | SavePaused item _ _ _ =>
      if one_of (Turn_Status item) [TurnStatusQueued; TurnStatusRetryWait] then pair (Turn_OwnerID item) <$> Turn_RunID item else None
  | _ => None
  end.

(** The owner and the run whose steps were read last and hold no tool call. *)
Definition cleared {X} (seen : option (Z * Z)) (c : call X) : X → option (Z * Z) :=
  match c in call X return X → option (Z * Z) with
  | ListSteps owner run => λ x, match x with Ok steps => if existsb isToolStep steps then None else Some (owner, run) | Err _ => None end
  | _ => λ _, seen
  end.

(** A claimed turn is running, and a save leaves the status of its turn. *)
Definition plausible {X} (c : call X) : X → Prop :=
  match c in call X return X → Prop with
  | ClaimTurn _ _ _ => λ x, match x with Ok t => Turn_Status t = TurnStatusRunning | Err _ => True end
  | SaveOwned item _ _ => λ x, Turn_Status x.1 = Turn_Status item
  | _ => λ _, True
  end.

Lemma perform_plausible `{Coll : !Collation} json_Valid {X} (c : call X) env d : plausible c (perform json_Valid c env d).1.
Proof.
  destruct c; try done; cbn.
  - unfold ownedTransaction, transaction, UpdateRunOwned, completeOwned.
    destruct (env_fault env); [| |]; cbn; try done; repeat (case_match; cbn in *; simplify_eq); try done; by destruct releaseLease.
  - unfold transaction, ClaimNext. destruct (env_fault env); cbn; try done. by destruct (selectRows _ _).
Qed.

(** Along every path, a turn is queued again only when its run is cleared. *)
Fixpoint guarded {A} (seen : option (Z * Z)) (p : prog A) : Prop :=
  match p with
  | Ret _ => True
  | Call c k => (∀ run, requeues c = Some run → seen = Some run) ∧ ∀ x, plausible c x → guarded (cleared seen c x) (k x)
  end.

Lemma guarded_andThen {A B} (p : prog A) (f : A → prog B) seen :
  guarded seen p → (∀ a seen', guarded seen' (f a)) → guarded seen (andThen p f).
Proof.
  revert seen. induction p as [a|X c k IH]; intros seen Hp Hf; cbn; [auto|]. destruct Hp as [Hc Hk]. split; [done|]. auto.
Qed.

Lemma guarded_then {A B} (p : prog A) (f : A → prog B) :
  (∀ seen, guarded seen p) → (∀ a seen, guarded seen (f a)) → ∀ seen, guarded seen (andThen p f).
Proof. intros Hp Hf seen. by apply guarded_andThen. Qed.

(** Programs without requeueing calls. *)
Ltac guarded_step :=
  match goal with
  | |- guarded _ (Ret _) => exact I
  | |- guarded _ (Call ?c _) => split; [intros ? Hq; cbn in Hq; first [done | by destruct (one_of _ _)]|intros ? ?; cbn [cleared]]
  | |- guarded _ (andThen _ _) => apply guarded_then; [intros ?|intros ? ?]
  | |- context [match ?x with _ => _ end] => destruct x eqn:?
  | |- _ => progress cbn beta iota zeta
  end.
Ltac guarded_auto := intros; repeat first [solve [auto with guarded] | guarded_step].
Create HintDb guarded.

Section Guarded.
Context `{!UnicodeTables}.
Context (unmarshalObject : RawMessage → result string (list (string * json))).
Context (DecodeDefinition decodeCheckpoint : RawMessage → option Cause).
Context (marshalObject : list (string * json) → RawMessage).
Context (hasConversations workspaceEnabled hasImprovement hasSessionSearch : bool).

Lemma guarded_settleCancelled turn current seen : guarded seen (settleCancelled turn current).
Proof. unfold settleCancelled. guarded_auto. Qed.
Hint Resolve guarded_settleCancelled : guarded.

Lemma guarded_failTurn turn run cause seen : guarded seen (failTurn turn run cause).
Proof. unfold failTurn. guarded_auto. Qed.
Hint Resolve guarded_failTurn : guarded.

Lemma guarded_failRun turn run cause seen : guarded seen (failRun turn run cause).
Proof. unfold failRun. guarded_auto. Qed.
Hint Resolve guarded_failRun : guarded.

Lemma guarded_pauseTurn turn run output turnStatus runStatus seen : one_of turnStatus [TurnStatusQueued; TurnStatusRetryWait] = false →
  guarded seen (pauseTurn turn run output turnStatus runStatus).
Proof.
  intros Hst. unfold pauseTurn. destruct (transition _ _); [|guarded_auto]. destruct (checkpointArtifacts _ _) as [approval [checkpoint|]]; [|guarded_auto].
  split; [cbn [requeues]; cbn -[one_of]; by rewrite Hst|]. intros [t [e|]] _; cbn [cleared]; guarded_auto.
Qed.
Hint Extern 2 (guarded _ (pauseTurn _ _ _ _ _)) => (apply guarded_pauseTurn; reflexivity) : guarded.

Lemma guarded_completeTurn turn run result seen :
  guarded seen (completeTurn unmarshalObject DecodeDefinition hasImprovement hasSessionSearch turn run result).
Proof. unfold completeTurn, finishSubagentTurn, finishTurn, settleFinished. guarded_auto. Qed.
Hint Resolve guarded_completeTurn : guarded.

Lemma guarded_retryTurn turn run cause seen : guarded seen (retryTurn turn run cause).
Proof.
  unfold retryTurn, runHasToolSideEffects. destruct (Turn_RunID turn) as [id|] eqn:Hid; cbn [andThen].
  - split; [done|]. intros [steps|e] _; cbn [cleared rmap]; [|guarded_auto].
    destruct (existsb isToolStep steps); cbn [orb]; [guarded_auto|].
    repeat case_match; try (by auto with guarded); (split; [done|]; intros now _; cbn [cleared]; repeat case_match; try (by auto with guarded);
      (split; [cbn; rewrite Hid; by intros ? [= <-]|intros [t [e|]] _; guarded_auto])).
  - cbn [orb]. repeat case_match; try (by auto with guarded); (split; [done|]; intros now _; cbn [cleared]; repeat case_match; try (by auto with guarded);
      (split; [cbn; rewrite Hid; by intros ?|intros [t [e|]] _; guarded_auto])).
Qed.
Hint Resolve guarded_retryTurn : guarded.

Lemma guarded_completeSubagentRun run result seen : guarded seen (completeSubagentRun run result).
Proof. unfold completeSubagentRun, persistCheckpoint. guarded_auto. Qed.
Hint Resolve guarded_completeSubagentRun : guarded.

Lemma guarded_settleResumed run turn result seen :
  guarded seen (settleResumed unmarshalObject DecodeDefinition hasImprovement hasSessionSearch run turn result).
Proof. unfold settleResumed, failResumedRun. guarded_auto. Qed.
Hint Resolve guarded_settleResumed : guarded.

Lemma guarded_startResumed hasWorkspace run decision turn task seen :
  guarded seen (startResumed unmarshalObject DecodeDefinition hasImprovement hasSessionSearch hasWorkspace run decision turn task).
Proof. unfold startResumed, resumeInWorkspace, failResumedRun. guarded_auto. Qed.
Hint Resolve guarded_startResumed : guarded.

Lemma guarded_resumeRun hasWorkspace run stored decision turn seen :
  guarded seen (resumeRun unmarshalObject DecodeDefinition decodeCheckpoint hasConversations workspaceEnabled hasImprovement hasSessionSearch
    hasWorkspace run stored decision turn).
Proof. unfold resumeRun. guarded_auto. Qed.
Hint Resolve guarded_resumeRun : guarded.

Lemma guarded_startTurn prepared turn run task manual seen : Turn_Status turn = TurnStatusRunning →
  guarded seen (startTurn unmarshalObject DecodeDefinition hasImprovement hasSessionSearch prepared turn run task manual).
Proof.
  intros Hst. unfold startTurn. destruct (transition _ _); [|guarded_auto].
  split; [cbn; by rewrite Hst|]. intros [t [e|]] _; guarded_auto.
Qed.

Lemma guarded_execute hasWorkspace turn seen : Turn_Status turn = TurnStatusRunning →
  guarded seen (execute unmarshalObject DecodeDefinition decodeCheckpoint marshalObject hasConversations workspaceEnabled hasImprovement
    hasSessionSearch hasWorkspace turn).
Proof.
  intros Hst. pose proof guarded_startTurn as Hstart.
  assert (∀ run project task manual seen, guarded seen
    (prepareWorkspace unmarshalObject DecodeDefinition hasImprovement hasSessionSearch turn run project task manual)) as Hprepare.
  { intros run project task manual seen'. unfold prepareWorkspace. split; [done|]. intros [e|] _; cbn [cleared]; [guarded_auto|].
    split; [done|]. intros [ws|[failed e]] _; cbn [cleared]; [|guarded_auto].
    split; [cbn; by rewrite Hst|]. intros [t [e|]] Ht; cbn in Ht; cbn [cleared]; guarded_auto. apply Hstart. congruence. }
  unfold execute, resume, executeFresh. guarded_auto.
Qed.

Lemma guarded_recoverAll items seen : guarded seen (recoverAll items).
Proof.
  revert seen. induction items as [|turn items IH]; intros seen; cbn [recoverAll]; [done|].
  destruct (Turn_RunID turn) as [id|] eqn:Hid; [|done]. split; [done|]. intros [run|e] _; cbn [cleared]; [|done].
  unfold runHasToolSideEffects. cbn [andThen]. split; [done|]. intros [steps|e] _; cbn [cleared rmap]; [|done].
  split; [done|]. intros now _. cbn [cleared]. destruct (recoverRows now _ turn run) as [[turn' run']|e] eqn:Hrec; [|done].
  assert (Turn_RunID turn' = Some id ∧ Turn_OwnerID turn' = Turn_OwnerID turn ∧
    (one_of (Turn_Status turn') [TurnStatusQueued; TurnStatusRetryWait] = true → existsb isToolStep steps = false)) as (Hid' & Ho' & Hst).
  { unfold recoverRows in Hrec. destruct (existsb isToolStep steps); cbn [orb] in Hrec; repeat case_match; try done;
      injection Hrec as <- <-; done. }
  split.
  - cbn [requeues]. destruct (one_of _ _); [|done]. rewrite Hst, Hid', Ho' by done. by intros ? [= <-].
  - intros [t [e|]] _; cbn [cleared]; [destruct e; try exact I; apply IH|]. split; [done|]. intros ? _. apply IH.
Qed.

(** A table of steps has none of a tool for a run. *)
Definition noToolStep (owner run : Z) (d : DB) : Prop :=
  Forall (λ s, Step_OwnerID s = owner → Step_RunID s = run → Step_StepType s ≠ "tool_call"%string ∧ Step_StepType s ≠ "tool_result"%string) (db_steps d).

(** The owner, the run and the tables of the last read of steps, if it succeeded. *)
Definition lastRead {X} (last : option (Z * Z * DB)) (c : call X) (env : Env) (d : DB) : option (Z * Z * DB) :=
  match c with
  | ListSteps owner run => match env_fault env with NoFault => Some (owner, run, d) | _ => None end
  | _ => last
  end.

(** A program whose calls are performed one by one, each on any tables and with any
    faults, requeues a turn only after it read the steps of its run. *)
Fixpoint requeuesClear `{Coll : !Collation} (json_Valid : RawMessage → bool) {A} (last : option (Z * Z * DB)) (p : prog A) : Prop :=
  match p with
  | Ret _ => True
  | Call c k =>
    (∀ owner run, requeues c = Some (owner, run) → ∃ d, last = Some (owner, run, d) ∧ noToolStep owner run d) ∧
    ∀ env d, requeuesClear json_Valid (lastRead last c env d) (k (perform json_Valid c env d).1)
  end.

Lemma cleared_lastRead `{Coll : !Collation} json_Valid {X} (c : call X) env d seen last :
  (∀ owner run, seen = Some (owner, run) → ∃ d, last = Some (owner, run, d) ∧ noToolStep owner run d) →
  ∀ owner run, cleared seen c (perform json_Valid c env d).1 = Some (owner, run) → ∃ d', lastRead last c env d = Some (owner, run, d') ∧ noToolStep owner run d'.
Proof.
  intros Hseen owner run. destruct c; try by apply Hseen. cbn. unfold query, transaction.
  destruct (env_fault env); cbn; try done. case_match eqn:Hex; [done|]. intros [= <- <-]. exists d. split; [done|].
  unfold noToolStep. rewrite Forall_forall. intros s Hs Ho Hr.
  assert (isToolStep s = false) as Hno.
  { destruct (isToolStep s) eqn:Ht; [|done]. assert (existsb isToolStep (filter (λ s, Step_OwnerID s = ownerID ∧ Step_RunID s = runID) (db_steps d)) = true) as Hyes; [|congruence].
    apply existsb_exists. exists s. split; [|done]. apply list_elem_of_In, list_elem_of_filter. done. }
  unfold isToolStep in Hno. assert (Step_StepType s ∉ [StepTypeToolCall; StepTypeToolResult]) as Hni by (rewrite <- one_of_true; congruence).
  split; intros E; apply Hni; rewrite E; set_solver.
Qed.

Lemma guarded_requeuesClear `{Coll : !Collation} json_Valid {A} (p : prog A) seen last :
  guarded seen p → (∀ owner run, seen = Some (owner, run) → ∃ d, last = Some (owner, run, d) ∧ noToolStep owner run d) → requeuesClear json_Valid last p.
Proof.
  revert seen last. induction p as [a|X c k IH]; intros seen last Hg Hseen; [done|]. destruct Hg as [Hc Hk]. split.
  - intros owner run Hr. by apply Hseen, Hc.
  - intros env d. eapply IH; [apply Hk, perform_plausible|]. by apply cleared_lastRead.
Qed.

(** C12. Whatever the tables hold at each of its calls and whichever calls fail, a worker
    or a recovery stores a turn as queued or waiting for a retry only when the last steps
    it read are those of the turn's run, that read succeeded, and the tables held no tool
    call and no tool result of that run then. *)
Theorem requeue_after_clear_steps `{Coll : !Collation} json_Valid hasWorkspace lease workerID token :
  requeuesClear json_Valid None (workerRound unmarshalObject DecodeDefinition decodeCheckpoint marshalObject hasConversations workspaceEnabled hasImprovement
    hasSessionSearch hasWorkspace lease workerID token) ∧
  requeuesClear json_Valid None recoverExpired.
Proof.
  split; (eapply (guarded_requeuesClear _ _ None); [|by intros owner run ?]).
  - unfold workerRound. split; [done|]. intros now _. split; [done|]. intros [turn|e] Hst; [by apply guarded_execute|done].
  - unfold recoverExpired. split; [done|]. intros now _. split; [done|]. intros [items|e] _; [apply guarded_recoverAll|done].
Qed.

End Guarded.

(** ** Cancelling a tree of runs *)

(** A program that nobody disturbs, every call under the same environment. *)
Fixpoint runQuiet `{Coll : !Collation} {A} (json_Valid : RawMessage → bool) (env : Env) (p : prog A) (d : DB) : A * DB :=
  match p with
  | Ret a => (a, d)
  | Call c k => let '(x, d) := perform json_Valid c env d in runQuiet json_Valid env (k x) d
  end.

Lemma runQuiet_andThen `{Coll : !Collation} {A B} json_Valid env (p : prog A) (f : A → prog B) d a d' :
  runQuiet json_Valid env p d = (a, d') → runQuiet json_Valid env (andThen p f) d = runQuiet json_Valid env (f a) d'.
Proof.
  revert d. induction p as [x|X c k IH]; intros d; cbn; [by intros [= -> ->]|]. destruct (perform json_Valid c env d) as [x d1]. apply IH.
Qed.

Section Cancel.
Context `{!UnicodeTables} `{Coll : !Collation} (json_Valid : RawMessage → bool) (env : Env) (owner : Z).
Context (Hquiet : env_fault env = NoFault).
Notation quiet := (runQuiet json_Valid env).
(** The runs that the cancellation may touch. *)
Context (tree : Z → Prop).

Definition runsKeyed (d : DB) : Prop := map_Forall (λ k r, Run_ID r = k) (db_runs d).
Definition activeRun (d : DB) (id : Z) : Prop := ∃ r, db_runs d !! id = Some r ∧ IsActiveRunStatus (Run_Status r) = true.
Definition cancelledRow (fin : Z) (r : Run) : Run := Run_setFinishedAt (Some fin) (Run_setStatus RunStatusCancelled r).
Definition cancelledRun (d : DB) (id : Z) : Prop := ∃ r, db_runs d !! id = Some r ∧ Run_Status r = RunStatusCancelled.
Definition childOf (d : DB) (x y : Z) : Prop :=
  ∃ c, db_runs d !! y = Some c ∧ Run_ParentRunID c = Some x ∧ Run_OwnerID c = owner ∧ IsActiveRunStatus (Run_Status c) = true.
Definition openTurn (t : Turn) : bool :=
  one_of (Turn_Status t) [TurnStatusQueued; TurnStatusRunning; TurnStatusRetryWait; TurnStatusWaitingHuman; TurnStatusPaused].
(** The turns of a run are closed. *)
Definition turnsClosed (d : DB) (id : Z) : Prop :=
  ∀ k t, db_turns d !! k = Some t → Turn_RunID t = Some id → Turn_OwnerID t = owner → openTurn t = false.

(** Only active runs of the tree change, and only to cancelled; only open turns of such
    runs change, and only to cancelled. *)
Record moved (d d' : DB) : Prop := mkMoved {
  moved_runs : ∀ id, db_runs d' !! id = db_runs d !! id ∨
    ∃ r fin, db_runs d !! id = Some r ∧ (tree id ∧ fin = env_now env) ∧ IsActiveRunStatus (Run_Status r) = true ∧ db_runs d' !! id = Some (cancelledRow fin r);
  moved_turns : ∀ k, db_turns d' !! k = db_turns d !! k ∨
    ∃ t fin, db_turns d !! k = Some t ∧ db_turns d' !! k = Some (cancelTurn fin t) ∧
      (∃ x, Turn_RunID t = Some x ∧ tree x) ∧ Turn_OwnerID t = owner ∧ openTurn t = true
}.

(** The tree has the active children of its runs. *)
Definition treeClosed (d : DB) : Prop := ∀ x y, tree x → childOf d x y → tree y.

(** Besides, a run that was cancelled took its active children with it, and its turns. *)
Record cancels (d d' : DB) : Prop := mkCancels {
  cancels_moved : moved d d';
  cancels_children : ∀ x y, activeRun d x → cancelledRun d' x → childOf d x y → cancelledRun d' y;
  cancels_closed : ∀ x, activeRun d x → cancelledRun d' x → turnsClosed d' x
}.

Lemma cancelled_inactive d id : cancelledRun d id → ¬ activeRun d id.
Proof. intros (r & Hr & Hs) (r' & Hr' & Ha). rewrite Hr in Hr'. injection Hr' as <-. by rewrite Hs in Ha. Qed.

Lemma moved_refl d : moved d d.
Proof. split; by left. Qed.

Lemma cancels_refl d : cancels d d.
Proof. split; [apply moved_refl|..]; intros x; [intros y|]; intros Ha Hc; by apply cancelled_inactive in Hc. Qed.

Lemma moved_trans d d1 d2 : moved d d1 → moved d1 d2 → moved d d2.
Proof.
  intros H1 H2. split.
  - intros id. destruct (moved_runs _ _ H1 id) as [E1|(r & fin & Hr & Ho & Ha & E1)],
      (moved_runs _ _ H2 id) as [E2|(r2 & fin2 & Hr2 & Ho2 & Ha2 & E2)].
    + left. congruence.
    + right. exists r2, fin2. rewrite <- E1. done.
    + right. exists r, fin. rewrite E2. done.
    + rewrite E1 in Hr2. injection Hr2 as <-. done.
  - intros k. destruct (moved_turns _ _ H1 k) as [E1|(t & fin & Ht & E1 & Hin)], (moved_turns _ _ H2 k) as [E2|(t2 & fin2 & Ht2 & E2 & Hin2)].
    + left. congruence.
    + right. exists t2, fin2. by rewrite <- E1.
    + right. exists t, fin. by rewrite E2.
    + rewrite E1 in Ht2. injection Ht2 as <-. by destruct Hin2 as (_ & _ & Hopen).
Qed.

Section moved.
Context (d d' : DB) (Hm : moved d d').

Lemma moved_cancelled id : cancelledRun d id → cancelledRun d' id.
Proof using Hm.
  intros (r & Hr & Hs). destruct (moved_runs _ _ Hm id) as [He|(r0 & fin & Hr0 & _ & Ha & _)]; [by exists r; rewrite He|].
  rewrite Hr in Hr0. injection Hr0 as <-. by rewrite Hs in Ha.
Qed.

Lemma moved_active id : activeRun d id → activeRun d' id ∨ cancelledRun d' id.
Proof using Hm.
  intros (r & Hr & Ha). destruct (moved_runs _ _ Hm id) as [He|(r0 & fin & Hr0 & _ & _ & Hr')].
  - left. exists r. by rewrite He.
  - right. by exists (cancelledRow fin r0).
Qed.

Lemma moved_row id r : db_runs d !! id = Some r → ∃ r', db_runs d' !! id = Some r' ∧ Run_ID r' = Run_ID r ∧ Run_OwnerID r' = Run_OwnerID r.
Proof using Hm.
  intros Hr. destruct (moved_runs _ _ Hm id) as [He|(r0 & fin & Hr0 & _ & _ & He)]; [exists r; by rewrite He|].
  exists (cancelledRow fin r0). rewrite Hr in Hr0. by injection Hr0 as <-.
Qed.

Lemma moved_keyed : runsKeyed d → runsKeyed d'.
Proof using Hm.
  intros Hk id r Hr. destruct (moved_runs _ _ Hm id) as [He|(r0 & fin & Hr0 & _ & _ & He)]; rewrite He in Hr; [by apply Hk|].
  injection Hr as <-. by apply (Hk id r0).
Qed.

Lemma moved_child x y : childOf d x y → childOf d' x y ∨ cancelledRun d' y.
Proof using Hm.
  intros (c & Hy & Hp & Ho & Ha). destruct (moved_runs _ _ Hm y) as [He|(r0 & fin & Hr0 & _ & _ & Hr')].
  - left. exists c. by rewrite He.
  - right. by exists (cancelledRow fin r0).
Qed.

Lemma moved_childOf x y : childOf d' x y → childOf d x y.
Proof using Hm.
  intros (c & Hy & Hp & Ho & Ha). destruct (moved_runs _ _ Hm y) as [He|(r0 & fin & Hr0 & _ & _ & Hr')].
  - exists c. by rewrite <- He.
  - rewrite Hr' in Hy. by injection Hy as <-.
Qed.

Lemma moved_treeClosed : treeClosed d → treeClosed d'.
Proof using Hm. intros Ht x y Hx Hxy. by eapply Ht, moved_childOf. Qed.

Lemma moved_closed x : turnsClosed d x → turnsClosed d' x.
Proof using Hm.
  intros Hx k t Ht Hr Ho. destruct (moved_turns _ _ Hm k) as [He|(u & fin & Hu & Hu' & _)].
  - rewrite He in Ht. by eapply Hx.
  - rewrite Hu' in Ht. by injection Ht as <-.
Qed.
End moved.

Lemma cancels_trans d d1 d2 : cancels d d1 → cancels d1 d2 → cancels d d2.
Proof.
  intros H1 H2. pose proof (cancels_moved _ _ H1) as M1. pose proof (cancels_moved _ _ H2) as M2. split; [by eapply moved_trans|..].
  - intros x y Hx Hx2 Hxy. destruct (moved_active _ _ M1 _ Hx) as [Ha|Hc].
    + destruct (moved_child _ _ M1 _ _ Hxy) as [Hy|Hy]; [by eapply cancels_children|by eapply moved_cancelled].
    + eapply moved_cancelled; [done|]. by eapply cancels_children.
  - intros x Hx Hx2. destruct (moved_active _ _ M1 _ Hx) as [Ha|Hc]; [by eapply cancels_closed|].
    eapply moved_closed; [done|]. by eapply cancels_closed.
Qed.

(** The number of active runs bounds the recursion. *)
Definition activeRows (d : DB) : gmap Z Run := filter (λ kr : Z * Run, IsActiveRunStatus (Run_Status kr.2) = true) (db_runs d).
Definition activeCount (d : DB) : nat := size (activeRows d).

Lemma activeRows_moved d d' : moved d d' → activeRows d' ⊆ activeRows d.
Proof.
  intros Hm. apply map_subseteq_spec. intros id r. unfold activeRows. rewrite !map_lookup_filter_Some. cbn. intros [Hr Ha].
  destruct (moved_runs _ _ Hm id) as [He|(r0 & fin & _ & _ & _ & He)]; rewrite He in Hr; [done|]. by injection Hr as <-.
Qed.

Lemma activeCount_moved d d' : moved d d' → (activeCount d' ≤ activeCount d)%nat.
Proof. intros Hm. by apply map_subseteq_size, activeRows_moved. Qed.

Lemma activeCount_less d d' id : moved d d' → activeRun d id → cancelledRun d' id → (activeCount d' < activeCount d)%nat.
Proof.
  intros Hm (r & Hr & Ha) (r' & Hr' & Hs). apply map_subset_size. split; [by apply activeRows_moved|]. intros Hsub.
  assert (activeRows d !! id = Some r) as Hin by (unfold activeRows; by rewrite map_lookup_filter_Some).
  apply (lookup_weaken _ _ _ _ Hin) in Hsub. unfold activeRows in Hsub. rewrite map_lookup_filter_Some, Hr' in Hsub.
  destruct Hsub as [[= ->] _]. by rewrite Hs in Ha.
Qed.

(** ** The calls of a cancellation *)

Lemma quiet_FindRun {A} id r d (k : result RepoErr Run → prog A) :
  db_runs d !! id = Some r → Run_OwnerID r = owner → quiet (Call (FindRun owner id) k) d = quiet (k (Ok r)) d.
Proof. intros Hr Ho. cbn. rewrite Hquiet. cbn. unfold runs_FindByID. by rewrite Hr, Ho, Z.eqb_refl. Qed.

(** A run that is active is cancelled. *)
Lemma quiet_CancelRunRow {A} r fin d (k : result RepoErr (Run * bool) → prog A) :
  db_runs d !! Run_ID r = Some r → Run_OwnerID r = owner → IsActiveRunStatus (Run_Status r) = true →
  ∃ d', quiet (Call (CancelRunRow r fin) k) d = quiet (k (Ok (cancelledRow fin r, true))) d' ∧
    db_runs d' = <[Run_ID r := cancelledRow fin r]> (db_runs d) ∧ db_turns d' = db_turns d.
Proof.
  intros Hr Ho Ha. exists (saveRun (cancelledRow fin r) d). split; [|done]. cbn. rewrite Hquiet. cbn. unfold CancelActive.
  rewrite Hr, Z.eqb_refl. unfold IsActiveRunStatus in Ha. by rewrite Ha.
Qed.

(** The turn of the run is cancelled: no error that is reported. *)
Lemma quiet_cancelTurnOf run errs d : tree (Run_ID run) →
  ∃ d', quiet (cancelTurnOf owner run errs) d = (Some errs, d') ∧ db_runs d' = db_runs d ∧ moved d d' ∧ turnsClosed d' (Run_ID run).
Proof.
  intros Htree. unfold cancelTurnOf. cbn [runQuiet perform]. rewrite Hquiet. cbn [transaction].
  set (fin := default _ _). destruct (CancelByRun owner (Run_ID run) fin d) as [d' r] eqn:Hc.
  unfold CancelByRun, updateRows in Hc. cbn zeta in Hc. injection Hc as Hd' Hr'. exists d'.
  set (P := λ t : Turn, _ && _ && _) in Hd', Hr'.
  assert (db_turns d' = (λ t, if P t then cancelTurn fin t else t) <$> db_turns d ∧ db_runs d' = db_runs d) as [Ht Hr] by (by subst d').
  split_and!; [|done| |].
  - assert (match r with Ok _ | Err ErrNoTurnAvailable => errs | Err e => errs ++ [wrapError ("cancel run turn " ++ Itoa (Run_ID run)) (repoCause e)] end = errs) as ->; [|done].
    subst r. destruct (negb _) eqn:Hn; [done|]. unfold FindByRunID.
    destruct (selectRows P (db_turns d)) as [|u l] eqn:Hsel; [done|].
    destruct (selectRows_first _ _ _ _ Hsel) as (k & Hu & HP & _).
    destruct (selectRows _ (db_turns (set_turns _ d))) as [|v l'] eqn:Hsel'; [exfalso|done].
    pose proof (proj1 (selectRows_nil _ _) Hsel' k (cancelTurn fin u)) as Hno. cbn in Hno. rewrite lookup_fmap, Hu in Hno. cbn in Hno.
    unfold P in HP. rewrite HP in Hno. specialize (Hno eq_refl). apply andb_true_iff in HP as [HP _]. by rewrite HP in Hno.
  - split; [by left; rewrite Hr|]. intros k. rewrite Ht, lookup_fmap. destruct (db_turns d !! k) as [t|]; [|by left]. cbn.
    destruct (P t) eqn:HP; [right|by left]. exists t, fin. unfold P in HP. bool_prop. split_and!; try done. by exists (Run_ID run).
  - intros k t Hk Hrun Ho. rewrite Ht, lookup_fmap in Hk. destruct (db_turns d !! k) as [u|] eqn:Hu; [|done]. cbn in Hk.
    injection Hk as <-. destruct (P u) eqn:HP; [done|]. unfold P in HP. rewrite Ho, Z.eqb_refl, bool_decide_eq_true_2 in HP by done. done.
Qed.

(** ** The cascade *)

Definition cancelsFrom (fuel : nat) : Prop := ∀ id r d,
  runsKeyed d → db_runs d !! id = Some r → Run_OwnerID r = owner → tree id → treeClosed d →
  (if IsActiveRunStatus (Run_Status r) then activeCount d ≤ fuel else activeCount d < fuel)%nat →
  ∃ d', quiet (CancelRun fuel owner id) d = (Some [], d') ∧ cancels d d' ∧
    (IsActiveRunStatus (Run_Status r) = true → cancelledRun d' id) ∧
    (cancelledRun d' id → (∀ y, childOf d id y → cancelledRun d' y) ∧ turnsClosed d' id).

(** The children in turn, as they were listed at [d0]. *)
Lemma quiet_cancelChildren fuel d0 children d :
  cancelsFrom fuel → runsKeyed d0 → (activeCount d0 ≤ fuel)%nat → treeClosed d0 → cancels d0 d →
  (∀ c, c ∈ children → (db_runs d0 !! Run_ID c = Some c ∧ Run_OwnerID c = owner) ∧ (IsActiveRunStatus (Run_Status c) = true → tree (Run_ID c))) →
  ∃ d', quiet (cancelChildren (CancelRun fuel owner) children []) d = (Some [], d') ∧ cancels d0 d' ∧ moved d d' ∧
    ∀ c, c ∈ children → IsActiveRunStatus (Run_Status c) = true → cancelledRun d' (Run_ID c).
Proof.
  intros Hfrom Hkeyed Hfuel Hclosed. revert d. induction children as [|c children IH]; intros d Hd Hall; cbn [cancelChildren].
  { exists d. split_and!; [done..|apply moved_refl|]. intros c Hc. by apply elem_of_nil in Hc. }
  destruct (Hall c) as [[Hc Ho] Htc]; [by left|].
  assert (∀ c', c' ∈ children → (db_runs d0 !! Run_ID c' = Some c' ∧ Run_OwnerID c' = owner) ∧ (IsActiveRunStatus (Run_Status c') = true → tree (Run_ID c'))) as Hall'
    by (intros c' Hc'; apply Hall; by right).
  destruct (IsActiveRunStatus (Run_Status c)) eqn:Ha; cbn [negb].
  - pose proof (cancels_moved _ _ Hd) as Hm. destruct (moved_row _ _ Hm _ _ Hc) as (r & Hr & Hid & Hro).
    destruct (Hfrom (Run_ID c) r d) as (d1 & Hq & Hd1 & Hact & _); [by eapply moved_keyed|done|congruence|by apply Htc|by eapply moved_treeClosed| |].
    { destruct (IsActiveRunStatus (Run_Status r)) eqn:Hra; [by etrans; [apply (activeCount_moved _ _ Hm)|]|].
      eapply Nat.lt_le_trans; [|exact Hfuel]. eapply (activeCount_less _ _ (Run_ID c) Hm); [by exists c|].
      destruct (moved_active _ _ Hm (Run_ID c)) as [(r' & Hr' & Ha')|]; [by exists c| |done].
      rewrite Hr in Hr'. injection Hr' as <-. congruence. }
    assert (cancelledRun d1 (Run_ID c)) as Hcc.
    { destruct (IsActiveRunStatus (Run_Status r)) eqn:Hra; [by apply Hact|].
      destruct (moved_active _ _ Hm (Run_ID c)) as [(r' & Hr' & Ha')|]; [by exists c| |by eapply moved_cancelled; [apply Hd1|]].
      rewrite Hr in Hr'. injection Hr' as <-. congruence. }
    rewrite (runQuiet_andThen _ _ _ _ _ _ _ Hq). cbn [fmap list_fmap app].
    destruct (IH d1) as (d2 & Hq2 & Hd2 & Hm2 & Hrest); [by eapply cancels_trans|done|].
    exists d2. split_and!; [done..|by eapply moved_trans; [apply Hd1|]|]. intros c' Hc' Ha'. apply elem_of_cons in Hc' as [->|Hc']; [|by apply Hrest].
    by eapply moved_cancelled.
  - destruct (IH d Hd Hall') as (d2 & Hq2 & Hd2 & Hm2 & Hrest). exists d2. split_and!; [done..|].
    intros c' Hc' Ha'. apply elem_of_cons in Hc' as [->|Hc']; [congruence|by apply Hrest].
Qed.

(** The run is cancelled, in its place or already; then what follows. *)
Lemma quiet_cancelCascade fuel id run d d0 :
  cancelsFrom fuel → runsKeyed d0 → (activeCount d0 ≤ fuel)%nat → tree id → treeClosed d0 → moved d d0 →
  (∀ x, x ≠ id → db_runs d0 !! x = db_runs d !! x) → db_runs d0 !! id = Some run → Run_Status run = RunStatusCancelled →
  ∃ d', quiet (cancelCascade (CancelRun fuel owner) owner id run) d0 = (Some [], d') ∧ cancels d d' ∧
    cancelledRun d' id ∧ (∀ y, childOf d id y → cancelledRun d' y) ∧ turnsClosed d' id.
Proof.
  intros Hfrom Hkeyed Hfuel Htree Hclosed0 Hm0 Hsame Hrun Hst. unfold cancelCascade. rewrite Hst. cbn [IsActiveRunStatus].
  change (IsActiveRunStatus RunStatusCancelled) with false. cbn [negb String.eqb]. change ((RunStatusCancelled =? RunStatusCancelled)%string) with true.
  cbn [negb]. cbn [runQuiet perform query transaction]. rewrite Hquiet. cbn [query transaction].
  set (children := runs_ListByParent owner id d0).
  assert (∀ c, c ∈ children ↔ db_runs d0 !! Run_ID c = Some c ∧ Run_OwnerID c = owner ∧ Run_ParentRunID c = Some id) as Hchildren.
  { intros c. unfold children, runs_ListByParent. rewrite elem_of_selectRows. split.
    - intros (k & Hk & Hc). bool_prop. pose proof (Hkeyed k c Hk) as Hkc. cbn in Hkc. rewrite Hkc. naive_solver.
    - intros (Hc & Ho & Hp). exists (Run_ID c). split; [done|]. by rewrite Ho, Z.eqb_refl, bool_decide_eq_true_2. }
  destruct (quiet_cancelChildren fuel d0 children d0) as (d1 & Hq1 & Hd1 & _ & Hkids); [done..|apply cancels_refl| |].
  { intros c Hc. apply Hchildren in Hc as (Hc & Ho & Hp). split; [done|]. intros Ha. apply (Hclosed0 id); [done|]. by exists c. }
  pose proof (Hkeyed id run Hrun) as Hrid. cbn in Hrid.
  rewrite (runQuiet_andThen _ _ _ _ _ _ _ Hq1). destruct (quiet_cancelTurnOf run [] d1) as (d2 & Hq2 & Hruns & Hm2 & Hclosed); [by rewrite Hrid|].
  exists d2. pose proof (cancels_moved _ _ Hd1) as Hm1. assert (moved d0 d2) as Hm02 by (by eapply moved_trans).
  assert (cancelledRun d2 id) as Hid by (eapply moved_cancelled; [done|]; by exists run).
  assert (∀ x, cancelledRun d2 x ↔ cancelledRun d1 x) as H21 by (intros x; unfold cancelledRun; by rewrite Hruns).
  assert (∀ y, childOf d id y → cancelledRun d2 y) as Hkid2.
  { intros y (c & Hy & Hp & Ho & Ha). destruct (decide (y = id)) as [->|Hne]; [done|]. apply H21. rewrite <- Hsame in Hy by done.
    pose proof (Hkeyed y c Hy) as Hyc. cbn in Hyc. subst y. apply Hkids; [|done]. by apply Hchildren. }
  rewrite Hrid in Hclosed.
  split_and!; [done| |done..]. split; [by eapply moved_trans| |].
  - intros x y Hx Hx2 Hxy. destruct (decide (x = id)) as [->|Hne]; [by apply Hkid2|].
    destruct (moved_child _ _ Hm0 _ _ Hxy) as [Hy|Hy]; [|by eapply moved_cancelled].
    apply H21. eapply (cancels_children _ _ Hd1 x); [|by apply H21|done]. destruct Hx as (r & Hr & Ha). exists r. by rewrite Hsame.
  - intros x Hx Hx2. destruct (decide (x = id)) as [->|Hne]; [done|]. apply (moved_closed _ _ Hm2).
    apply (cancels_closed _ _ Hd1); [|by apply H21]. destruct Hx as (r & Hr & Ha). exists r. by rewrite Hsame.
Qed.

Lemma quiet_CancelRun fuel : cancelsFrom fuel.
Proof.
  induction fuel as [|fuel IH]; intros id r d Hkeyed Hr Ho Htree Hclosed0 Hfuel.
  { exfalso. destruct (IsActiveRunStatus (Run_Status r)) eqn:Ha; [|lia].
    assert (activeRows d !! id = Some r) as Hin by (unfold activeRows; by rewrite map_lookup_filter_Some).
    apply Nat.le_0_r, map_size_empty_inv in Hfuel. by rewrite Hfuel in Hin. }
  cbn [CancelRun]. rewrite (quiet_FindRun id r) by done. cbn match.
  pose proof (Hkeyed id r Hr) as Hid. cbn in Hid.
  destruct (IsActiveRunStatus (Run_Status r)) eqn:Ha; cbn [negb].
  - cbn [runQuiet perform]. rewrite <- Hid in Hr.
    destruct (quiet_CancelRunRow r (env_now env) d (λ cancelled, match cancelled with
      | Err e => Ret (Some [repoCause e])
      | Ok (run, true) => cancelCascade (CancelRun fuel owner) owner id run
      | Ok (_, false) => let* found := FindRun owner id in
          match found with Err e => Ret (Some [mapNotFound e]) | Ok run => cancelCascade (CancelRun fuel owner) owner id run end
      end)) as (d0 & Hq & Hruns & Hturns); [done..|]. cbn [runQuiet perform] in Hq |- *. rewrite Hq. cbn match.
    rewrite Hid in Hr, Hruns. assert (moved d d0) as Hm0.
    { split; [|by left; rewrite Hturns]. intros x. rewrite Hruns. destruct (decide (x = id)) as [->|Hne].
      - right. exists r, (env_now env). by rewrite lookup_insert_eq.
      - left. by rewrite lookup_insert_ne. }
    assert (db_runs d0 !! id = Some (cancelledRow (env_now env) r)) as Hr0 by (by rewrite Hruns, lookup_insert_eq).
    destruct (quiet_cancelCascade fuel id (cancelledRow (env_now env) r) d d0) as (d' & Hq' & Hc & Hcan & Hkids & Hclosed);
      [done|by eapply moved_keyed| |done|by eapply moved_treeClosed|done| |done|done|by exists d'].
    + enough (activeCount d0 < activeCount d)%nat by lia. eapply (activeCount_less _ _ id); [done|by exists r|by exists (cancelledRow (env_now env) r)].
    + intros x Hne. by rewrite Hruns, lookup_insert_ne.
  - unfold cancelCascade. rewrite Ha. destruct (String.eqb_spec (Run_Status r) RunStatusCancelled) as [Hs|Hns].
    + destruct (quiet_cancelCascade fuel id r d d) as (d' & Hq' & Hc & Hcan & Hkids & Hclosed); [done|done|lia|done|done|apply moved_refl|done|done|done|].
      exists d'. split_and!; [|done..]. unfold cancelCascade in Hq'. rewrite Ha, Hs in Hq'. done.
    + exists d. split_and!; [done|apply cancels_refl|done|]. intros (r' & Hr' & Hs'). rewrite Hr in Hr'. by injection Hr' as <-.
Qed.

End Cancel.

Section Cascade.
Context `{!UnicodeTables} `{Coll : !Collation} (json_Valid : RawMessage → bool) (env : Env) (owner : Z).
Context (Hquiet : env_fault env = NoFault).

(** A run below another one, along runs of the owner that are active. *)
Inductive below (d : DB) (x : Z) : Z → Prop :=
| below_child y : childOf owner d x y → below d x y
| below_step y z : below d x y → childOf owner d y z → below d x z.

(** C13. A cancellation that nothing disturbs, of an active run of its owner, returns
    without an error as soon as the fuel is at least the number of active runs.  The run
    and all the active runs below it are then cancelled, with the time as their finish,
    and so are those of their turns that were open, their leases given up; every other
    run and every other turn is as before. *)
Theorem cancel_cascades fuel id r d :
  runsKeyed d → db_runs d !! id = Some r → Run_OwnerID r = owner → IsActiveRunStatus (Run_Status r) = true → (activeCount d ≤ fuel)%nat →
  let tree x := x = id ∨ below d id x in
  ∃ d', runQuiet json_Valid env (CancelRun fuel owner id) d = (Some [], d') ∧
    (∀ x, tree x → ∃ r, db_runs d !! x = Some r ∧
       db_runs d' !! x = Some (Run_setFinishedAt (Some (env_now env)) (Run_setStatus RunStatusCancelled r))) ∧
    (∀ x, ¬ tree x → db_runs d' !! x = db_runs d !! x) ∧
    (∀ k t x, db_turns d !! k = Some t → Turn_RunID t = Some x → Turn_OwnerID t = owner → tree x → openTurn t = true →
       ∃ t' fin, db_turns d' !! k = Some t' ∧ Turn_Status t' = TurnStatusCancelled ∧ Turn_FinishedAt t' = Some fin ∧
         Turn_LeaseToken t' = ""%string ∧ Turn_ID t' = Turn_ID t ∧ Turn_RunID t' = Some x) ∧
    (∀ k, (∀ t x, db_turns d !! k = Some t → Turn_RunID t = Some x → tree x → Turn_OwnerID t = owner → openTurn t = false) →
       db_turns d' !! k = db_turns d !! k).
Proof using Hquiet.
  intros Hkeyed Hr Ho Ha Hfuel tree.
  assert (treeClosed owner tree d) as Hclosed by (intros x y [->|Hx] Hxy; right; [by apply below_child|by eapply below_step]).
  destruct (quiet_CancelRun json_Valid env owner Hquiet tree fuel id r d) as (d' & Hq & Hc & Hid & Hrest); [done..|by left|done|by rewrite Ha|].
  pose proof (cancels_moved _ _ _ _ _ Hc) as Hm. exists d'. split; [done|].
  assert (∀ x, tree x → activeRun d x ∧ cancelledRun d' x) as Hall.
  { intros x [->|Hx]; [split; [by exists r|by apply Hid]|]. induction Hx as [y Hy|y z Hy [IHa IHc] Hz].
    - split; [destruct Hy as (c & Hy & _ & _ & Hya); by exists c|]. by apply Hrest; [apply Hid|].
    - split; [destruct Hz as (c & Hz & _ & _ & Hza); by exists c|]. by eapply (cancels_children _ _ _ _ _ Hc y). }
  split_and!.
  - intros x Hx. destruct (Hall x Hx) as [(r0 & Hr0 & Ha0) Hcx]. exists r0. split; [done|].
    destruct (moved_runs _ _ _ _ _ Hm x) as [He|(r1 & fin & Hr1 & [_ ->] & _ & He)]; [|rewrite Hr0 in Hr1; by injection Hr1 as <-].
    exfalso. destruct Hcx as (r2 & Hr2 & Hs). rewrite He, Hr0 in Hr2. injection Hr2 as <-. by rewrite Hs in Ha0.
  - intros x Hx. by destruct (moved_runs _ _ _ _ _ Hm x) as [He|(r1 & fin & _ & [Ht _] & _)].
  - intros k t x Ht Hrun Hto Hx Hopen. destruct (Hall x Hx) as [Hax Hcx].
    assert (turnsClosed owner d' x) as Hcl by (by apply (cancels_closed _ _ _ _ _ Hc)).
    destruct (moved_turns _ _ _ _ _ Hm k) as [He|(u & fin & Hu & He & _)].
    + rewrite <- He in Ht. by rewrite (Hcl k t) in Hopen.
    + rewrite Ht in Hu. injection Hu as <-. by exists (cancelTurn fin t), fin.
  - intros k Hk. destruct (moved_turns _ _ _ _ _ Hm k) as [He|(u & fin & Hu & _ & (x & Hx & Ht) & Hto & Hopen)]; [done|].
    by rewrite (Hk u x) in Hopen.
Qed.
End Cascade.

(** ** Samples *)

#[local] Existing Instance AsciiCollation.

Definition demo_child (id parent : Z) (status : string) : Run :=
  mkRunRow id 1 2 None None (Some parent) RunTypeSubagent 1 "{}" "h" "" status "{}" "" "" 0 0 100 None.
(** A running turn, a waiting child, its running child, and a finished one. *)
Definition demo_tree : DB :=
  mkDB {[ 5 := demo_turn TurnStatusRunning "tok" 1 ]}
    (list_to_map [(7, demo_runRow RunStatusRunning); (8, demo_child 8 7 RunStatusWaitingHuman); (9, demo_child 9 8 RunStatusRunning);
                  (10, demo_child 10 7 RunStatusSucceeded)]) ∅ ∅ ∅ [] ∅ ∅.
Definition quietEnv : Env := mkEnv 130 NoFault (Ok None) (Ok None) (Ok 1) None.

Lemma cancel_cascades_witness :
  ∃ d', runQuiet (λ _, true) quietEnv (@CancelRun AsciiTables 3 1 7) demo_tree = (Some [], d') ∧
    Run_Status <$> db_runs d' !! 7 = Some RunStatusCancelled ∧ Run_Status <$> db_runs d' !! 8 = Some RunStatusCancelled ∧
    Run_Status <$> db_runs d' !! 9 = Some RunStatusCancelled ∧ Turn_Status <$> db_turns d' !! 5 = Some TurnStatusCancelled.
Proof.
  assert (runsKeyed demo_tree) as Hkeyed by (apply map_Forall_to_list; repeat constructor).
  assert (db_runs demo_tree !! 7 = Some (demo_runRow RunStatusRunning)) as H7 by (vm_compute; reflexivity).
  destruct (@cancel_cascades AsciiTables AsciiCollation (λ _, true) quietEnv 1 eq_refl 3 7 (demo_runRow RunStatusRunning) demo_tree Hkeyed H7 eq_refl eq_refl)
    as (d' & Hq & Hall & _ & Hturns & _); [vm_compute; lia|].
  assert (childOf 1 demo_tree 7 8) as H78 by (exists (demo_child 8 7 RunStatusWaitingHuman); vm_compute; done).
  assert (childOf 1 demo_tree 8 9) as H89 by (exists (demo_child 9 8 RunStatusRunning); vm_compute; done).
  assert (∀ x, x = 7 ∨ below 1 demo_tree 7 x → Run_Status <$> db_runs d' !! x = Some RunStatusCancelled) as Hst.
  { intros x Hx. destruct (Hall x Hx) as (r & _ & Hr). by rewrite Hr. }
  exists d'. split_and!; [done|by apply Hst; left|by apply Hst; right; apply below_child|by apply Hst; right; eapply below_step; [apply below_child|]|].
  destruct (Hturns 5 (demo_turn TurnStatusRunning "tok" 1) 7) as (t & fin & Ht & Hs & _); [reflexivity|reflexivity|reflexivity|by left|reflexivity|].
  by rewrite Ht, <- Hs.
Defined.

(** A recovery that requeues: no tool was called for the run of the expired turn.  With a
    tool call among the steps it does not. *)
Definition demo_expired (steps : list RunStep) : DB :=
  mkDB (Turn_setLeaseExpiresAt (Some 100) <$> db_turns demo_tree) (db_runs demo_tree) ∅ ∅ ∅ steps ∅ ∅.
Example recovery_requeues :
  Turn_Status <$> db_turns (runQuiet (λ _, true) (mkEnv 99000000 NoFault (Ok None) (Ok None) (Ok 1) None) (@recoverExpired AsciiTables) (demo_expired [])).2 !! 5 = Some TurnStatusRetryWait ∧
  Turn_Status <$> db_turns (runQuiet (λ _, true) (mkEnv 99000000 NoFault (Ok None) (Ok None) (Ok 1) None) (@recoverExpired AsciiTables)
    (demo_expired [mkStepRow 1 7 StepTypeToolCall])).2 !! 5 = Some TurnStatusPaused.
Proof. vm_compute. split; reflexivity. Qed.
