(* ===== verification/TurnStart.v ===== *)
(** Starting a turn (StartTurn of internal/application/agent_usecase/service.go): the
    rows of a request are created once for each idempotency key, however often and
    however concurrently the request is sent.  Keys are compared by the collation of
    their column: keys that differ in case or accents are one key. *)
From S2P Require Import Prelude GoStr Chat Json Tools Rules Hooks Runner Loop Goals TurnStore TurnWorker TurnSystem.
Open Scope Z_scope.

Record CreateTurnRequest := mkCreateTurnRequest {
  req_Content : string;
  req_ManualCompaction : bool;
  req_GoalContinuation : bool;
  req_GoalID : string
}.

Record TurnAccepted := mkTurnAccepted {
  accepted_Turn : Turn;
  accepted_Run : option Run;
  accepted_UserMessage : option Message
}.

(** What the rest of the service does for the request: the message it indexes. *)
Record StartResult := mkStartResult { start_result : result Cause TurnAccepted; start_indexed : option Message }.

Section StartTurn.
Context `{Coll : !Collation}.
Context (marshalObject : list (string * json) → RawMessage).
(** The conversation of the agent, with its mode; the agent's definition, its hash and
    the hash of its rules; the correlation ids of the request. *)
Context (GetConversation : Z → Z → Z → result Cause string).
Context (agentSnapshot : Z → Z → result Cause (RawMessage * string * string)).
Context (observability : json).
Context (hasGoals hasSessionSearch : bool).

Definition userMessageForTurn (ownerID : Z) (turn : Turn) (d : DB) : option Message :=
  if Turn_UserMessageID turn <=? 0 then None
  else head (filter (λ m, Message_ID m = Turn_UserMessageID turn)
    (selectRows (λ m, (Message_OwnerID m =? ownerID) && (Message_ConversationID m =? Turn_ConversationID turn)) (db_messages d))).

(** The turn that a request with the same key created before. *)
Definition acceptExisting (ownerID : Z) (existing : Turn) (d : DB) : TurnAccepted :=
  mkTurnAccepted existing
    (match Turn_RunID existing with
     | Some id => match runs_FindByID ownerID id d with Ok r => Some r | Err _ => None end
     | None => None
     end)
    (userMessageForTurn ownerID existing d).

Definition clearDeferral (ownerID conversationID : Z) (d : DB) : DB :=
  mkDB (db_turns d) (db_runs d) (db_approvals d) (db_checkpoints d) (db_messages d) (db_steps d) (db_goals d)
    (db_deferrals d ∖ {[(ownerID, conversationID)]}).

(** The message of the request: no content type unless it is an echo. *)
Definition userMessageOf (ownerID conversationID : Z) (content : string) (req : CreateTurnRequest) : Message :=
  mkMessageRow 0 ownerID conversationID (if req_GoalContinuation req then RoleDeveloper else RoleUser) content None 0
    (if req_ManualCompaction req then ContentTypeSystemEcho else ""%string).

(** The transaction: the tables, whether a turn was created, and the rows. *)
Definition createRows (now : Z) (req : CreateTurnRequest) (turn : Turn) (msg : Message) (run : Run) (d : DB)
    : DB * result RepoErr (option (Turn * Message * Run)) :=
  let rows := match createTurnArtifacts now turn msg run d with Ok (_, t, m, r) => Some (t, m, r) | Err _ => None end in
  if req_GoalContinuation req && negb (TrimSpace (req_GoalID req) =? "")%string then
    match CreateGoalContinuationWithArtifacts now (TrimSpace (req_GoalID req)) turn msg run d with
    | (d', Ok created) => (d', Ok (if (created : bool) then rows else None))
    | (d', Err e) => (d', Err e)
    end
  else match CreateWithArtifacts now turn msg run d with
       | (d', None) => (d', Ok rows)
       | (d', Some e) => (d', Err e)
       end.

(** [between] is what other requests and processes do to the tables after the lookup
    of the key and before the transaction. *)
Definition StartTurn (between : DB → DB) (now ownerID agentID conversationID : Z) (idempotencyKey : string) (req : CreateTurnRequest)
    (d : DB) : DB * StartResult :=
  let fail d e := (d, mkStartResult (Err e) None) in
  let content := TrimSpace (req_Content req) in
  let key := TrimSpace idempotencyKey in
  if (content =? "")%string || (key =? "")%string || (128 <? Z.of_nat (String.length key)) then fail d ErrInvalidInput
  else match GetConversation ownerID agentID conversationID with
  | Err e => fail d e
  | Ok agentMode =>
    let d := if negb (req_GoalContinuation req) && hasGoals then clearDeferral ownerID conversationID d else d in
    match FindByIdempotencyKey ownerID conversationID key d with
    | Ok existing => (d, mkStartResult (Ok (acceptExisting ownerID existing d)) None)
    | Err _ =>
      match agentSnapshot ownerID agentID with
      | Err e => fail d e
      | Ok (definitionJSON, definitionHash, ruleHash) =>
        match NormalizeMode agentMode with
        | None => fail d ErrInvalidInput
        | Some mode =>
          let input := marshalObject (setField "observability" observability (setField "manual_compaction" (JBool (req_ManualCompaction req))
            (setField "mode" (JStr mode) (setField "query" (JStr content) [])))) in
          let d := between d in
          match createRows now req (newTurn ownerID agentID conversationID key input) (userMessageOf ownerID conversationID content req)
                  (newRun now ownerID agentID conversationID definitionJSON definitionHash ruleHash input) d with
          | (d, Err e) =>
            match FindByIdempotencyKey ownerID conversationID key d with
            | Ok existing => (d, mkStartResult (Ok (acceptExisting ownerID existing d)) None)
            | Err _ => fail d (repoCause e)
            end
          | (d, Ok None) => fail d ErrConflict
          | (d, Ok (Some (turn, msg, run))) =>
            (d, mkStartResult (Ok (mkTurnAccepted turn (Some run) (Some msg)))
                  (if hasSessionSearch && (Message_ContentType msg =? ContentTypeText)%string then Some msg else None))
          end
        end
      end
    end
  end.

(** ** One turn for each key *)

Definition sameKey (t u : Turn) : Prop :=
  Turn_OwnerID t = Turn_OwnerID u ∧ Turn_ConversationID t = Turn_ConversationID u ∧ sameText (Turn_IdempotencyKey t) (Turn_IdempotencyKey u) = true.

(** The rows are stored under their ids, and the unique index holds. *)
Record keysOk (d : DB) : Prop := mkKeysOk {
  keys_ids : turnsKeyed d;
  keys_unique : ∀ k k' t t', db_turns d !! k = Some t → db_turns d !! k' = Some t' → sameKey t t' → k = k'
}.

(** What others do: rows stay, with their keys, and the unique index holds. *)
Record carries (d d' : DB) : Prop := mkCarries {
  carries_ok : keysOk d → keysOk d';
  carries_rows : ∀ k t, db_turns d !! k = Some t → ∃ t', db_turns d' !! k = Some t' ∧ sameKey t' t
}.

Definition keyMatches (ownerID conversationID : Z) (key : string) (t : Turn) : Prop :=
  Turn_OwnerID t = ownerID ∧ Turn_ConversationID t = conversationID ∧ sameText (Turn_IdempotencyKey t) key = true.

Lemma FindByIdempotencyKey_Ok ownerID conversationID key d t :
  FindByIdempotencyKey ownerID conversationID key d = Ok t → ∃ k, db_turns d !! k = Some t ∧ keyMatches ownerID conversationID key t.
Proof.
  unfold FindByIdempotencyKey, first. destruct (selectRows _ _) as [|u l] eqn:Hs; [done|]. intros [= ->].
  apply selectRows_first in Hs as (k & Hk & HP & _). exists k. unfold keyMatches. bool_prop. naive_solver.
Qed.

Lemma FindByIdempotencyKey_Err ownerID conversationID key d e k t :
  FindByIdempotencyKey ownerID conversationID key d = Err e → db_turns d !! k = Some t → ¬ keyMatches ownerID conversationID key t.
Proof.
  unfold FindByIdempotencyKey, first. destruct (selectRows _ _) as [|u l] eqn:Hs; [|done]. intros _ Hk (H1 & H2 & H3).
  pose proof (proj1 (selectRows_nil _ _) Hs k t Hk) as Hno. cbn in Hno. by rewrite H1, H2, H3, !Z.eqb_refl in Hno.
Qed.

(** The transaction creates the row of the key, or changes nothing. *)
Lemma createRows_cases now req ownerID agentID conversationID key input msg dj dh rh d d' out :
  keysOk d →
  createRows now req (newTurn ownerID agentID conversationID key input) msg (newRun now ownerID agentID conversationID dj dh rh input) d = (d', out) →
  ((out = Ok None ∨ ∃ e, out = Err e) ∧ d' = d) ∨
  ∃ t m r, out = Ok (Some (t, m, r)) ∧ keysOk d' ∧ db_turns d' !! Turn_ID t = Some t ∧ keyMatches ownerID conversationID key t ∧
    Message_ContentType m = Message_ContentType msg.
Proof.
  intros [Hids Huniq] Hc.
  assert (∀ d1 t m r, createTurnArtifacts now (newTurn ownerID agentID conversationID key input) msg
      (newRun now ownerID agentID conversationID dj dh rh input) d = Ok (d1, t, m, r) →
    keysOk d1 ∧ db_turns d1 !! Turn_ID t = Some t ∧ keyMatches ownerID conversationID key t ∧ Message_ContentType m = Message_ContentType msg) as Hrows.
  { intros d1 t m r Ha. pose proof Ha as Hm. apply createTurnArtifacts_rows in Hm as (_ & _ & -> & _).
    apply created_rows in Ha as ((Tid & _ & _ & _ & _ & Town & _ & Tconv & Tkey) & _ & Ht & _ & Hno).
    split_and!; [|by rewrite Ht, Tid, lookup_insert_eq|split_and!; [done..|rewrite Tkey; apply sameText_refl]|done]. split.
    - unfold turnsKeyed. rewrite Ht. by apply map_Forall_insert_2.
    - assert (∀ k u, db_turns d !! k = Some u → ¬ sameKey t u) as Hnew.
      { intros k u Hu (H1 & H2 & H3). specialize (Hno k u Hu). unfold conflicts in Hno. apply orb_false_iff in Hno as [_ Hno].
        by rewrite H1, H2, H3, !Z.eqb_refl in Hno. }
      intros k k' t1 t2 Hk Hk' Hs. rewrite Ht, lookup_insert_Some in Hk. rewrite Ht, lookup_insert_Some in Hk'.
      destruct Hk as [[<- <-]|[_ Hk]], Hk' as [[<- <-]|[_ Hk']]; [done|by destruct (Hnew _ _ Hk')| |by eapply Huniq].
      destruct (Hnew _ _ Hk). destruct Hs as (H1 & H2 & H3). split_and!; [done..|]. by apply sameText_sym. }
  unfold createRows in Hc. destruct (_ && _).
  - destruct (CreateGoalContinuationWithArtifacts _ _ _ _ _ _) as [d1 [created|e]] eqn:Hg; injection Hc as <- <-.
    + apply CreateGoalContinuation_tables in Hg as [[Hne ->]|(He & t & m & r & Ha)]; [left; destruct created; [done|by split; [left|]]|].
      injection He as ->. rewrite Ha. right. exists t, m, r. split; [done|]. by eapply Hrows.
    + apply CreateGoalContinuation_tables in Hg as [[_ ->]|[He _]]; [|done]. left. split; [by right; exists e|done].
  - unfold CreateWithArtifacts in Hc. destruct (createTurnArtifacts _ _ _ _ _) as [[[[d1 t] m] r]|e]; injection Hc as <- <-.
    + right. exists t, m, r. split; [done|]. by eapply Hrows.
    + left. split; [by right; exists e|done].
Qed.

Lemma carries_matches d d' k t ownerID conversationID key :
  carries d d' → db_turns d !! k = Some t → keyMatches ownerID conversationID key t →
  ∃ t', db_turns d' !! k = Some t' ∧ keyMatches ownerID conversationID key t'.
Proof.
  intros Hc Hk (H1 & H2 & H3). destruct (carries_rows _ _ Hc k t Hk) as (t' & Hk' & S1 & S2 & S3). exists t'. split; [done|].
  unfold keyMatches. split_and!; [congruence..|]. by eapply sameText_trans.
Qed.

Definition afterDeferral (req : CreateTurnRequest) (ownerID conversationID : Z) (d : DB) : DB :=
  if negb (req_GoalContinuation req) && hasGoals then clearDeferral ownerID conversationID d else d.

Lemma afterDeferral_rows req ownerID conversationID d :
  db_turns (afterDeferral req ownerID conversationID d) = db_turns d ∧ db_runs (afterDeferral req ownerID conversationID d) = db_runs d ∧
  db_messages (afterDeferral req ownerID conversationID d) = db_messages d.
Proof. unfold afterDeferral. by destruct (_ && _). Qed.

(** An accepted request: the row of its key is in the tables, and it was there before
    or the request created it. *)
Lemma StartTurn_accepted between now ownerID agentID conversationID key req d d' res acc :
  keysOk d → (∀ d, carries d (between d)) →
  StartTurn between now ownerID agentID conversationID key req d = (d', res) →
  start_result res = Ok acc →
  keysOk d' ∧ (∃ k, db_turns d' !! k = Some (accepted_Turn acc)) ∧ keyMatches ownerID conversationID (TrimSpace key) (accepted_Turn acc) ∧
  ((∃ k t, db_turns d !! k = Some t ∧ keyMatches ownerID conversationID (TrimSpace key) t) →
     db_turns d' = db_turns d ∧ db_runs d' = db_runs d ∧ db_messages d' = db_messages d).
Proof.
  intros Hok Hbetween. unfold StartTurn. fold (afterDeferral req ownerID conversationID d).
  destruct (afterDeferral_rows req ownerID conversationID d) as (Ht & Hr & Hm). set (d0 := afterDeferral _ _ _ _) in *. clearbody d0.
  assert (keysOk d0) as Hok0 by (destruct Hok as [K1 K2]; split; [unfold turnsKeyed; by rewrite Ht|by rewrite Ht]).
  destruct (_ || _); [intros [= <- <-]; by intros|]. destruct (GetConversation _ _ _) as [agentMode|e]; [|intros [= <- <-]; by intros].
  destruct (FindByIdempotencyKey ownerID conversationID (TrimSpace key) d0) as [existing|e] eqn:Hf.
  { intros [= <- <-] [= <-]. apply FindByIdempotencyKey_Ok in Hf as (k & Hk & Hmatch). cbn. split_and!; [done|by exists k|done|done]. }
  assert (∀ k t, db_turns d !! k = Some t → ¬ keyMatches ownerID conversationID (TrimSpace key) t) as Hnone.
  { intros k t Hk. rewrite <- Ht in Hk. by eapply FindByIdempotencyKey_Err. }
  destruct (agentSnapshot _ _) as [[[dj dh] rh]|e2]; [|intros [= <- <-]; by intros].
  destruct (NormalizeMode agentMode) as [mode|]; [|intros [= <- <-]; by intros]. set (input := marshalObject _).
  pose proof (carries_ok _ _ (Hbetween d0) Hok0) as Hok1.
  destruct (createRows _ _ _ _ _ _) as [d2 out] eqn:Hc.
  destruct (createRows_cases _ _ _ _ _ _ _ _ _ _ _ _ _ _ Hok1 Hc) as [[Hout ->]|(t & m & r & -> & Hok2 & Htrow & Hmatch & _)].
  - destruct Hout as [->|[e2 ->]]; [intros [= <- <-]; by intros|].
    destruct (FindByIdempotencyKey ownerID conversationID (TrimSpace key) (between d0)) as [existing|e3] eqn:Hf2; [|intros [= <- <-]; by intros].
    intros [= <- <-] [= <-]. apply FindByIdempotencyKey_Ok in Hf2 as (k & Hk & Hmatch). cbn. split_and!; [done|by exists k|done|].
    intros (k' & t' & Hk' & Hm'). by destruct (Hnone k' t').
  - intros [= <- <-] [= <-]. cbn. split_and!; [done|by exists (Turn_ID t)|done|].
    intros (k' & t' & Hk' & Hm'). by destruct (Hnone k' t').
Qed.

(** C22. Whatever else happens between its lookup and its transaction, an accepted
    request answers with a stored turn of its owner and conversation whose idempotency
    key is the key of the request, trimmed, as the collation of the column compares
    (which takes keys that differ in case or accents for one); and every later accepted
    request of the owner and conversation with such a key, whatever it contains, answers
    with the same turn and creates no turn, run or message. *)
Theorem start_turn_idempotent between now ownerID agentID conversationID key req d d' res acc :
  keysOk d → (∀ d, carries d (between d)) →
  StartTurn between now ownerID agentID conversationID key req d = (d', res) →
  start_result res = Ok acc →
  (db_turns d' !! Turn_ID (accepted_Turn acc) = Some (accepted_Turn acc) ∧ Turn_OwnerID (accepted_Turn acc) = ownerID ∧
   Turn_ConversationID (accepted_Turn acc) = conversationID ∧ sameText (Turn_IdempotencyKey (accepted_Turn acc)) (TrimSpace key) = true) ∧
  ∀ d2 between2 now2 agentID2 key2 req2 d3 res2 acc2,
    carries d' d2 → (∀ d, carries d (between2 d)) → sameText (TrimSpace key2) (TrimSpace key) = true →
    StartTurn between2 now2 ownerID agentID2 conversationID key2 req2 d2 = (d3, res2) →
    start_result res2 = Ok acc2 →
    Turn_ID (accepted_Turn acc2) = Turn_ID (accepted_Turn acc) ∧
    db_turns d3 = db_turns d2 ∧ db_runs d3 = db_runs d2 ∧ db_messages d3 = db_messages d2.
Proof.
  intros Hok Hb Hs Hr. destruct (StartTurn_accepted _ _ _ _ _ _ _ _ _ _ _ Hok Hb Hs Hr) as (Hok' & [k Hk] & Hmatch & _).
  pose proof (keys_ids _ Hok' _ _ Hk) as Hid. cbn in Hid. split; [split; [by rewrite Hid|exact Hmatch]|].
  intros d2 between2 now2 agentID2 key2 req2 d3 res2 acc2 Hc Hb2 Hkey Hs2 Hr2. pose proof (carries_ok _ _ Hc Hok') as Hok2.
  destruct (carries_matches _ _ _ _ _ _ _ Hc Hk Hmatch) as (t2 & Hk2 & Hm2).
  destruct (StartTurn_accepted _ _ _ _ _ _ _ _ _ _ _ Hok2 Hb2 Hs2 Hr2) as (Hok3 & [k3 Hk3] & Hmatch3 & Hsame).
  assert (keyMatches ownerID conversationID (TrimSpace key2) t2) as Hm2'.
  { destruct Hm2 as (B1 & B2 & B3). split_and!; [done..|]. eapply sameText_trans; [done|]. by apply sameText_sym. }
  destruct Hsame as (Et & Er & Em); [by exists k, t2|]. split; [|done].
  pose proof (keys_ids _ Hok3 _ _ Hk3) as Hid3. cbn in Hid3. rewrite Et in Hk3.
  assert (k3 = k) as ->; [|congruence]. apply (keys_unique _ Hok2 _ _ _ _ Hk3 Hk2).
  destruct Hmatch3 as (A1 & A2 & A3), Hm2' as (B1 & B2 & B3). split_and!; [congruence..|]. eapply sameText_trans; [done|]. by apply sameText_sym.
Qed.

Lemma createRows_message now req turn msg run d d' t m r :
  createRows now req turn msg run d = (d', Ok (Some (t, m, r))) → Message_ContentType m = Message_ContentType msg.
Proof.
  unfold createRows. intros Hc.
  destruct (createTurnArtifacts now turn msg run d) as [[[[d1 t1] m1] r1]|e] eqn:Ha.
  - apply createTurnArtifacts_rows in Ha as (_ & _ & -> & _).
    repeat case_match; simplify_eq; done.
  - repeat case_match; simplify_eq.
Qed.

(** The message of a request is never handed to the session search: it is created
    without a content type, and only messages of type text are indexed. *)
Theorem user_message_never_indexed between now ownerID agentID conversationID key req d :
  start_indexed (StartTurn between now ownerID agentID conversationID key req d).2 = None.
Proof.
  unfold StartTurn. destruct (_ || _); [done|]. destruct (GetConversation _ _ _); [|done].
  destruct (FindByIdempotencyKey _ _ _ _); [done|]. destruct (agentSnapshot _ _) as [[[dj dh] rh]|]; [|done].
  destruct (NormalizeMode _); [|done]. destruct (createRows _ _ _ _ _ _) as [d1 [[[[t m1] r]|]|e1]] eqn:Hc; [|done|].
  - apply createRows_message in Hc. cbn in Hc |- *. rewrite Hc. by destruct hasSessionSearch, (req_ManualCompaction req).
  - by destruct (FindByIdempotencyKey _ _ _ d1).
Qed.
End StartTurn.

(** ** Samples *)

#[local] Existing Instance AsciiCollation.

Definition demo_request (content : string) : CreateTurnRequest := mkCreateTurnRequest content false false "".
Definition demo_start (key content : string) (d : DB) : DB * StartResult :=
  StartTurn (λ _, "{}"%string) (λ _ _ _, Ok "default"%string) (λ _ _, Ok ("{}", "h", "r")%string) JNull true true (λ d, d) 100 1 2 3 key (demo_request content) d.
Definition demo_accepted : TurnAccepted :=
  Eval vm_compute in match start_result (demo_start "k1" "hello" emptyDB).2 with Ok a => a | Err _ => mkTurnAccepted (newTurn 0 0 0 "" "") None None end.

Lemma start_turn_idempotent_witness :
  start_result (demo_start "k1" "hello" emptyDB).2 = Ok demo_accepted ∧ Turn_ID (accepted_Turn demo_accepted) = 1 ∧
  ∃ acc2, start_result (demo_start " K1 " "again" (demo_start "k1" "hello" emptyDB).1).2 = Ok acc2 ∧ Turn_ID (accepted_Turn acc2) = 1 ∧
    db_turns (demo_start " K1 " "again" (demo_start "k1" "hello" emptyDB).1).1 = db_turns (demo_start "k1" "hello" emptyDB).1.
Proof.
  assert (∀ d, carries d d) as Hrefl by (intros d; split; [done|]; intros k t Hk; exists t; split; [done|]; split_and!; [done..|apply sameText_refl]).
  assert (keysOk emptyDB) as Hempty by (split; [done|by intros]).
  assert (start_result (demo_start "k1" "hello" emptyDB).2 = Ok demo_accepted) as H1 by (vm_compute; reflexivity).
  destruct (start_turn_idempotent (λ _, "{}"%string) (λ _ _ _, Ok "default"%string) (λ _ _, Ok ("{}", "h", "r")%string) JNull true true
    (λ d, d) 100 1 2 3 "k1" (demo_request "hello") emptyDB (demo_start "k1" "hello" emptyDB).1 (demo_start "k1" "hello" emptyDB).2 demo_accepted
    Hempty Hrefl (surjective_pairing _) H1) as [_ Hlater].
  set (d2 := (demo_start "k1" "hello" emptyDB).1) in *.
  destruct (start_result (demo_start " K1 " "again" d2).2) as [acc2|e] eqn:H2; [|by vm_compute in H2].
  destruct (Hlater d2 (λ d, d) 100 2 " K1 "%string (demo_request "again") (demo_start " K1 " "again" d2).1 (demo_start " K1 " "again" d2).2 acc2
    (Hrefl _) Hrefl ltac:(vm_compute; reflexivity) (surjective_pairing _) H2) as (Hid & Ht & _).
  split_and!; [done|reflexivity|]. exists acc2. split_and!; [done|by rewrite Hid|done].
Defined.
