(* ===== verification/Evidence.v ===== *)
(** Conversation evidence of the memory pipeline
    (internal/application/memory_usecase): the rendering of message rows into evidence
    units (evidence_renderer.go) and their split into extraction chunks
    (evidence_chunker.go).

    The JSON decoder of a row's metadata and the canonical form of arguments are
    parameters; secrets are redacted by [Redact]. *)
From Stdlib Require Import Ascii.
From Stdlib Require DecimalString DecimalFacts DecimalPos DecimalN.
From S2P Require Import Prelude GoStr Chat Redact.
Open Scope Z_scope.

(** ** Units *)

(** [ErrorStateUnset] is the zero value, the empty string, of units without an outcome. *)
Inductive EvidenceErrorState := ErrorStateUnset | ErrorStateUnknown | ErrorStateSuccess | ErrorStateFailure.
#[export] Instance EvidenceErrorState_eq_dec : EqDecision EvidenceErrorState.
Proof. solve_decision. Defined.

Inductive EvidenceUnitKind := UnitText | UnitExchange | UnitOrphanOutput.
#[export] Instance EvidenceUnitKind_eq_dec : EqDecision EvidenceUnitKind.
Proof. solve_decision. Defined.

Record EvidenceUnit := mkEvidenceUnit {
  unit_Kind : EvidenceUnitKind;
  unit_MessageID : Z;
  unit_RunID : option Z;
  unit_Role : string;
  unit_Content : string;
  unit_ToolCallID : string;
  unit_ToolName : string;
  unit_Arguments : string;
  unit_Output : string;
  unit_ErrorCode : string;
  unit_ErrorState : EvidenceErrorState;
  unit_FailureCount : Z;
  unit_Recovered : bool
}.

Definition errorStateText (s : EvidenceErrorState) : string :=
  match s with ErrorStateUnset => "" | ErrorStateUnknown => "unknown" | ErrorStateSuccess => "success" | ErrorStateFailure => "failure" end.

(** ** Rendering *)

(** The columns of a message row that the renderer reads. *)
Record MessageRow := mkMessageRow {
  row_ID : Z;
  row_RunID : option Z;
  row_Role : string;
  row_ContentType : string;
  row_Content : string;
  row_MetadataJSON : RawMessage
}.

(** The decoded metadata: [md_IsError] is nil when the key is absent. *)
Record RawMetadata := mkRawMetadata {
  md_ToolCallID : string;
  md_ToolName : string;
  md_Arguments : RawMessage;
  md_IsError : option bool;
  md_ErrorCode : string
}.

Record evidenceToolMetadata := mkMeta {
  meta_toolCallID : string;
  meta_toolName : string;
  meta_arguments : string;
  meta_errorCode : string;
  meta_errorState : EvidenceErrorState
}.

Record evidencePendingCall := mkPending {
  pc_row : MessageRow;
  pc_meta : evidenceToolMetadata;
  pc_output : option (MessageRow * evidenceToolMetadata);
  pc_emitted : bool
}.

Section Renderer.
(** [json.Unmarshal] into the metadata structure, and the canonical form
    [json.Marshal] of what a [UseNumber] decoder reads at the head of the text, [None]
    when either fails. *)
Context (unmarshalMetadata : RawMessage → option RawMetadata) (canonicalJSON : string → option string).

Definition parseEvidenceMetadata (raw : RawMessage) : evidenceToolMetadata :=
  let parsed := mkMeta "" "" "" "" ErrorStateUnknown in
  if (raw =? "")%string then parsed
  else match unmarshalMetadata raw with
  | None => parsed
  | Some m => mkMeta (md_ToolCallID m) (md_ToolName m) (md_Arguments m) (md_ErrorCode m)
      (match md_IsError m with
       | Some true => ErrorStateFailure
       | Some false => ErrorStateSuccess
       | None => ErrorStateUnknown
       end)
  end.

Notation metaOf row := (parseEvidenceMetadata (row_MetadataJSON row)).
Notation isCall row := (row_ContentType row =? ContentTypeFunctionCall)%string.
Notation isOutput row := (row_ContentType row =? ContentTypeFunctionCallOutput)%string.

Definition evidenceRowExcluded (row : MessageRow) : bool :=
  if ((row_ContentType row =? ContentTypeReasoning) || (row_ContentType row =? ContentTypeSystemEcho))%string then true
  else ((row_Role row =? RoleDeveloper) || (row_Role row =? RoleSystem))%string.

Definition sortRows (messages : list MessageRow) : list MessageRow := sort_stable (λ a b, row_ID a <? row_ID b) messages.

(** The first pass: the first call of each identity. *)
Definition addCall (calls : gmap string evidencePendingCall) (row : MessageRow) : gmap string evidencePendingCall :=
  if negb (isCall row) then calls
  else
    let meta := metaOf row in
    if (meta_toolCallID meta =? "")%string then calls
    else match calls !! meta_toolCallID meta with
    | Some _ => calls
    | None => <[meta_toolCallID meta := mkPending row meta None false]> calls
    end.
Definition collectCalls (rows : list MessageRow) : gmap string evidencePendingCall := foldl addCall ∅ rows.

(** The second pass pairs each call with its first output; every other output is an
    orphan, by its index. *)
Definition addOutput (st : gmap string evidencePendingCall * gmap nat evidenceToolMetadata) (p : nat * MessageRow) :
    gmap string evidencePendingCall * gmap nat evidenceToolMetadata :=
  let '(calls, orphans) := st in let '(index, row) := p in
  if negb (isOutput row) then st
  else
    let meta := metaOf row in
    let orphan := (calls, <[index := meta]> orphans) in
    if (meta_toolCallID meta =? "")%string then orphan
    else match calls !! meta_toolCallID meta with
    | Some call =>
      match pc_output call with
      | None => (<[meta_toolCallID meta := mkPending (pc_row call) (pc_meta call) (Some (row, meta)) (pc_emitted call)]> calls, orphans)
      | Some _ => orphan
      end
    | None => orphan
    end.
Definition indexed {A} (l : list A) : list (nat * A) := imap pair l.
Definition pairOutputs (calls : gmap string evidencePendingCall) (rows : list MessageRow) :
    gmap string evidencePendingCall * gmap nat evidenceToolMetadata :=
  foldl addOutput (calls, ∅) (indexed rows).

Definition exchangeUnit (call : evidencePendingCall) (output : MessageRow) (outMeta : evidenceToolMetadata) : EvidenceUnit :=
  mkEvidenceUnit UnitExchange (row_ID (pc_row call)) (row_RunID (pc_row call)) (row_Role (pc_row call)) ""
    (meta_toolCallID (pc_meta call)) (meta_toolName (pc_meta call)) (redactDurableSecrets (meta_arguments (pc_meta call)))
    (redactDurableSecrets (TrimSpace (row_Content output))) (meta_errorCode outMeta) (meta_errorState outMeta) 0 false.
Definition orphanUnit (row : MessageRow) (meta : evidenceToolMetadata) : EvidenceUnit :=
  mkEvidenceUnit UnitOrphanOutput (row_ID row) (row_RunID row) (row_Role row) "" (meta_toolCallID meta) (meta_toolName meta) ""
    (redactDurableSecrets (TrimSpace (row_Content row))) (meta_errorCode meta) (meta_errorState meta) 0 false.
Definition textUnit (row : MessageRow) : EvidenceUnit :=
  mkEvidenceUnit UnitText (row_ID row) (row_RunID row) (row_Role row) (redactDurableSecrets (TrimSpace (row_Content row)))
    "" "" "" "" "" ErrorStateUnset 0 false.

(** The third pass. *)
Definition emitRow (orphans : gmap nat evidenceToolMetadata) (st : gmap string evidencePendingCall * list EvidenceUnit)
    (p : nat * MessageRow) : gmap string evidencePendingCall * list EvidenceUnit :=
  let '(calls, units) := st in let '(index, row) := p in
  if evidenceRowExcluded row then st
  else if isCall row then
    let meta := metaOf row in
    if (meta_toolCallID meta =? "")%string then st
    else match calls !! meta_toolCallID meta with
    | None => st
    | Some call =>
      match pc_emitted call, pc_output call with
      | false, Some (output, outMeta) =>
        (<[meta_toolCallID meta := mkPending (pc_row call) (pc_meta call) (pc_output call) true]> calls,
         units ++ [exchangeUnit call output outMeta])
      | _, _ => st
      end
    end
  else if isOutput row then
    match orphans !! index with
    | None => st
    | Some meta => (calls, units ++ [orphanUnit row meta])
    end
  else if (TrimSpace (row_Content row) =? "")%string then st
  else (calls, units ++ [textUnit row]).

(** ** Failure streaks *)

Definition evidenceFingerprint (toolName arguments : string) : string :=
  let trimmed := TrimSpace arguments in
  (toolName ++ of_bytes [byte_of 0] ++ default trimmed (canonicalJSON trimmed))%string.

Definition setFailure (count : Z) (recovered : bool) (u : EvidenceUnit) : EvidenceUnit :=
  mkEvidenceUnit (unit_Kind u) (unit_MessageID u) (unit_RunID u) (unit_Role u) (unit_Content u) (unit_ToolCallID u) (unit_ToolName u)
    (unit_Arguments u) (unit_Output u) (unit_ErrorCode u) (unit_ErrorState u) count recovered.

(** [streak]: its count and the indices of its failures. *)
Definition countUnit (st : gmap string (Z * list nat) * list EvidenceUnit) (index : nat) : gmap string (Z * list nat) * list EvidenceUnit :=
  let '(streaks, units) := st in
  match units !! index with
  | None => st
  | Some unit =>
    if bool_decide (unit_Kind unit = UnitText) then st
    else
      let fingerprint := evidenceFingerprint (unit_ToolName unit) (unit_Arguments unit) in
      let '(count, failures) := default (0, []) (streaks !! fingerprint) in
      match unit_ErrorState unit with
      | ErrorStateFailure =>
        (<[fingerprint := (count + 1, failures ++ [index])]> streaks, <[index := setFailure (count + 1) (unit_Recovered unit) unit]> units)
      | ErrorStateSuccess =>
        let unit' := setFailure count (if 0 <? count then true else unit_Recovered unit) unit in
        let units := <[index := unit']> units in
        let units := if 0 <? count then foldl (λ units i, alter (λ u, setFailure (unit_FailureCount u) true u) i units) units failures else units in
        (<[fingerprint := (0, [])]> streaks, units)
      | _ => (<[fingerprint := (count, failures)]> streaks, units)
      end
  end.
Definition countEvidenceFailures (units : list EvidenceUnit) : list EvidenceUnit := (foldl countUnit (∅, units) (seq 0 (length units))).2.

Definition Render (messages : list MessageRow) : list EvidenceUnit :=
  let sorted := sortRows messages in
  let '(calls, orphans) := pairOutputs (collectCalls sorted) sorted in
  countEvidenceFailures (foldl (emitRow orphans) (calls, []) (indexed sorted)).2.
End Renderer.

(** ** Chunks *)

Record ChunkedEvidenceUnit := mkChunked { cu_Unit : EvidenceUnit; cu_PartIndex : Z; cu_PartCount : Z }.
Record EvidenceChunk := mkEvidenceChunk { chunk_Index : Z; chunk_Units : list ChunkedEvidenceUnit }.

Definition durableMaxRolloutLen : Z := 120000.
Definition durableChunkOverlapUnits : Z := 2.

Definition newline : string := of_bytes [byte_of 10].

Definition evidenceUnitText (u : EvidenceUnit) : string :=
  let header := ("[msg " ++ Itoa (unit_MessageID u) ++ "] ")%string in
  let outcome := (unit_ToolCallID u ++ " " ++ unit_ToolName u ++ " state=" ++ errorStateText (unit_ErrorState u) ++
                  " code=" ++ unit_ErrorCode u)%string in
  match unit_Kind u with
  | UnitExchange =>
      (header ++ "tool_call " ++ outcome ++ newline ++ "arguments: " ++ unit_Arguments u ++ newline ++ "output: " ++ unit_Output u)%string
  | UnitOrphanOutput => (header ++ "orphan tool_output " ++ outcome ++ newline ++ "output: " ++ unit_Output u)%string
  | UnitText => (header ++ unit_Role u ++ ": " ++ unit_Content u)%string
  end.

Definition evidenceUnitBytes (u : EvidenceUnit) : Z := slen (evidenceUnitText u) + 1.
Definition partMarker (partIndex partCount : Z) : string := (" [part " ++ Itoa partIndex ++ "/" ++ Itoa partCount ++ "]")%string.

Definition evidenceChunkedText (cu : ChunkedEvidenceUnit) : string :=
  let text := evidenceUnitText (cu_Unit cu) in
  if 1 <? cu_PartCount cu then (text ++ partMarker (cu_PartIndex cu) (cu_PartCount cu))%string else text.
Definition evidenceChunkedBytes (cu : ChunkedEvidenceUnit) : Z := slen (evidenceChunkedText cu) + 1.

(** The payload of a unit that can be sliced. *)
Definition unitPayload (u : EvidenceUnit) : string :=
  match unit_Kind u with UnitText => unit_Content u | _ => unit_Output u end.
Definition setPayload (p : string) (u : EvidenceUnit) : EvidenceUnit :=
  match unit_Kind u with
  | UnitText => mkEvidenceUnit (unit_Kind u) (unit_MessageID u) (unit_RunID u) (unit_Role u) p (unit_ToolCallID u) (unit_ToolName u)
      (unit_Arguments u) (unit_Output u) (unit_ErrorCode u) (unit_ErrorState u) (unit_FailureCount u) (unit_Recovered u)
  | _ => mkEvidenceUnit (unit_Kind u) (unit_MessageID u) (unit_RunID u) (unit_Role u) (unit_Content u) (unit_ToolCallID u) (unit_ToolName u)
      (unit_Arguments u) p (unit_ErrorCode u) (unit_ErrorState u) (unit_FailureCount u) (unit_Recovered u)
  end.

(** [s[start:end]]. *)
Definition slice (s : string) (start stop : Z) : string :=
  of_bytes (take (Z.to_nat (stop - start)) (drop (Z.to_nat start) (bytes s))).

Section Chunker.
Context (maxBytes overlapUnits : Z).

Definition sliceBudget (u : EvidenceUnit) : Z :=
  let maxParts := slen (unitPayload u) + 1 in
  let markerMax := slen (partMarker maxParts maxParts) in
  let budget := maxBytes - evidenceUnitBytes (setPayload "" u) - markerMax in
  if budget <? 1 then maxBytes else budget.

Definition sliceOversized (u : EvidenceUnit) : list ChunkedEvidenceUnit :=
  let payload := unitPayload u in
  if (payload =? "")%string then [mkChunked u 0 1]
  else
    let budget := sliceBudget u in
    let partCount := (slen payload + budget - 1) `quot` budget in
    (λ index, let start := Z.of_nat index * budget in
              mkChunked (setPayload (slice payload start (Z.min (start + budget) (slen payload))) u) (Z.of_nat index) partCount)
      <$> seq 0 (Z.to_nat partCount).

Definition expandOversized (units : list EvidenceUnit) : list ChunkedEvidenceUnit :=
  concat ((λ u, if evidenceChunkedBytes (mkChunked u 0 1) <=? maxBytes then [mkChunked u 0 1] else sliceOversized u) <$> units).

(** The units that fit into one chunk, and the rest: at least one is taken. *)
Fixpoint packUnits (used : Z) (placed : list ChunkedEvidenceUnit) : list ChunkedEvidenceUnit * list ChunkedEvidenceUnit :=
  match placed with
  | [] => ([], [])
  | cu :: rest =>
    let size := evidenceChunkedBytes cu in
    if (0 <? used) && (maxBytes <? used + size) then ([], placed)
    else let '(taken, after) := packUnits (used + size) rest in (cu :: taken, after)
  end.

(** [previous[from:]]. *)
Definition overlapOf (previous : list ChunkedEvidenceUnit) : list ChunkedEvidenceUnit :=
  drop (Z.to_nat (Z.max 0 (zlen previous - overlapUnits))) previous.

(** The chunks after [previous]; one unit of fuel for each placed unit. *)
Fixpoint chunkFrom (fuel : nat) (index : Z) (previous : list ChunkedEvidenceUnit) (placed : list ChunkedEvidenceUnit) : list EvidenceChunk :=
  match fuel, placed with
  | S fuel, _ :: _ =>
    let '(taken, after) := packUnits 0 placed in
    let units := overlapOf previous ++ taken in
    mkEvidenceChunk index units :: chunkFrom fuel (index + 1) units after
  | _, _ => []
  end.

Definition Chunk (units : list EvidenceUnit) : list EvidenceChunk :=
  let placed := expandOversized units in chunkFrom (length placed) 0 [] placed.
End Chunker.

Definition NewEvidenceChunker : list EvidenceUnit → list EvidenceChunk := Chunk durableMaxRolloutLen durableChunkOverlapUnits.

(** ** The width of a number *)


Module Width.
Import Decimal DecimalFacts DecimalPos.Unsigned DecimalString.

Lemma of_lu_lt l : (of_lu l < 10 ^ N.of_nat (nb_digits l))%N.
Proof.
  induction l; [done|..]; cbn [nb_digits]; rewrite Nnat.Nat2N.inj_succ, N.pow_succ_r', of_lu_eqn; cbn [hd tl];
    revert IHl; generalize (of_lu l), (10 ^ N.of_nat (nb_digits l))%N; intros x y; cbn; lia.
Qed.

Lemma lu_repr k : ∀ n, (n < 10 ^ N.of_nat k)%N → ∃ l, nb_digits l = k ∧ of_lu l = n.
Proof.
  induction k as [|k IH]; intros n Hn; [exists Nil; split; [done|]; cbn in Hn |- *; lia|].
  rewrite Nnat.Nat2N.inj_succ, N.pow_succ_r' in Hn.
  destruct (IH (n / 10)%N) as (l & Hl & Hv); [apply N.Div0.div_lt_upper_bound; lia|].
  pose proof (N.div_mod n 10 ltac:(done)) as Hdm. pose proof (N.mod_lt n 10 ltac:(done)) as Hm. rewrite <- Hv in Hdm.
  set (d := (n mod 10)%N) in *. clearbody d.
  assert (∃ f : uint → uint, nb_digits (f l) = S k ∧ of_lu (f l) = (10 * of_lu l + d)%N) as (f & H1 & H2); [|exists (f l); split; [done|by rewrite H2]].
  assert (d = 0 ∨ d = 1 ∨ d = 2 ∨ d = 3 ∨ d = 4 ∨ d = 5 ∨ d = 6 ∨ d = 7 ∨ d = 8 ∨ d = 9)%N as Hd by lia.
  destruct Hd as [->|[->|[->|[->|[->|[->|[->|[->|[->| ->]]]]]]]]];
    [exists D0|exists D1|exists D2|exists D3|exists D4|exists D5|exists D6|exists D7|exists D8|exists D9]; (split; [cbn; congruence|rewrite of_lu_eqn; cbn; lia]).
Qed.

Lemma to_uint_width n k : (n < 10 ^ N.of_nat (S k))%N → (nb_digits (N.to_uint n) ≤ S k)%nat.
Proof.
  intros Hn. destruct (lu_repr (S k) n Hn) as (l & Hl & Hv).
  rewrite <- Hv, <- of_lu_rev, to_of. etrans; [apply nb_digits_unorm|by rewrite nb_digits_rev, Hl].
  intros He. apply (f_equal nb_digits) in He. by rewrite nb_digits_rev, Hl in He.
Qed.

Lemma to_uint_lt n : (n < 10 ^ N.of_nat (nb_digits (N.to_uint n)))%N.
Proof.
  rewrite <- (DecimalN.Unsigned.of_to n) at 1. unfold N.of_uint. rewrite of_uint_alt, <- nb_digits_rev. apply of_lu_lt.
Qed.

Lemma length_uint d : String.length (NilEmpty.string_of_uint d) = nb_digits d.
Proof. induction d; cbn; congruence. Qed.

Lemma Itoa_length n : slen (Itoa (Z.of_N n)) = Z.of_nat (nb_digits (N.to_uint n)).
Proof.
  unfold slen, Itoa. f_equal. destruct n as [|p]; [done|]. cbn [Z.of_N Z.to_int N.to_uint NilZero.string_of_int].
  rewrite <- length_uint. unfold NilZero.string_of_uint. destruct (Pos.to_uint p) eqn:He; [|done..]. by apply to_uint_nonnil in He.
Qed.

Lemma Itoa_mono a b : 0 ≤ a ≤ b → slen (Itoa a) ≤ slen (Itoa b).
Proof.
  intros Hab. rewrite <- (Z2N.id a), <- (Z2N.id b) by lia. rewrite !Itoa_length. apply Nat2Z.inj_le.
  pose proof (to_uint_lt (Z.to_N b)) as Hb. destruct (nb_digits (N.to_uint (Z.to_N b))) as [|k] eqn:Hk.
  - assert (Z.to_N b = 0%N) as H0 by (cbn in Hb; lia). rewrite H0 in Hk. done.
  - apply to_uint_width. lia.
Qed.
End Width.

(** ** Slices *)

Lemma slen_bytes s : slen s = Z.of_nat (length (bytes s)).
Proof. unfold slen. by rewrite length_bytes. Qed.
Lemma slen_empty s : slen s = 0 → s = "".
Proof. unfold slen. destruct s; [done|]. cbn. lia. Qed.

Lemma slice_bytes s b i : 0 ≤ b → bytes (slice s (Z.of_nat i * b) (Z.min (Z.of_nat i * b + b) (slen s))) = take (Z.to_nat b) (drop (i * Z.to_nat b) (bytes s)).
Proof.
  intros Hb. unfold slice. rewrite bytes_of_bytes. replace (Z.to_nat (Z.of_nat i * b)) with (i * Z.to_nat b)%nat by lia.
  rewrite slen_bytes. destruct (decide (Z.of_nat i * b + b ≤ Z.of_nat (length (bytes s)))).
  - f_equal. lia.
  - rewrite !take_ge; [done|rewrite length_drop; nia..].
Qed.

Lemma concat_blocks {A} (l : list A) b n :
  concat ((λ i, take b (drop (i * b) l)) <$> seq 0 n) = take (n * b) l.
Proof.
  induction n as [|n IH]; [done|]. rewrite seq_S, fmap_app, concat_app, IH. cbn. rewrite app_nil_r.
  rewrite take_take_drop. f_equal. lia.
Qed.

Lemma ceil_div_bounds n b : 0 < n → 0 < b → let c := (n + b - 1) `quot` b in 1 ≤ c ≤ n ∧ n ≤ c * b ∧ (c - 1) * b < n.
Proof.
  intros Hn Hb c. subst c. rewrite Z.quot_div_nonneg by lia.
  pose proof (Z.div_mod (n + b - 1) b ltac:(lia)) as E. pose proof (Z.mod_pos_bound (n + b - 1) b Hb). nia.
Qed.

(** ** The text of a unit *)

Lemma evidenceUnitText_payload u p : slen (evidenceUnitText (setPayload p u)) = slen (evidenceUnitText (setPayload "" u)) + slen p.
Proof.
  destruct u as [[]]; unfold evidenceUnitText, setPayload; simpl unit_Kind; cbv beta iota zeta; rewrite !slen_app; simpl; change (slen "") with 0; lia.
Qed.

Lemma partMarker_mono i j c d : 0 ≤ i ≤ j → 0 ≤ c ≤ d → slen (partMarker i c) ≤ slen (partMarker j d).
Proof.
  intros. unfold partMarker. rewrite !slen_app. pose proof (Width.Itoa_mono i j ltac:(lia)). pose proof (Width.Itoa_mono c d ltac:(lia)). lia.
Qed.

Lemma evidenceChunkedBytes_pos cu : 0 < evidenceChunkedBytes cu.
Proof. unfold evidenceChunkedBytes. pose proof (slen_nonneg (evidenceChunkedText cu)). lia. Qed.

Lemma payload_setPayload p u : unitPayload (setPayload p u) = p.
Proof. by destruct u as [[]]. Qed.
Lemma setPayload_payload u : setPayload (unitPayload u) u = u.
Proof. by destruct u as [[]]. Qed.

(** ** Packing *)

Definition totalBytes : list ChunkedEvidenceUnit → Z := sum_by evidenceChunkedBytes.

(** The last [n] elements. *)
Definition lastn {A} (n : nat) (l : list A) : list A := drop (length l - n) l.

Lemma lastn_app {A} n (l1 l2 : list A) : lastn n (lastn n l1 ++ l2) = lastn n (l1 ++ l2).
Proof.
  unfold lastn. rewrite !length_app, length_drop.
  destruct (decide (length l1 ≤ n)%nat).
  - replace (length l1 - n)%nat with 0%nat by lia. rewrite drop_0. f_equal. lia.
  - destruct (decide (n ≤ length l2)%nat) as [?|?].
    + rewrite !drop_app_ge by (rewrite ?length_drop; lia). rewrite length_drop. f_equal. lia.
    + rewrite !drop_app_le by (rewrite ?length_drop; lia). rewrite drop_drop. do 2 f_equal. lia.
Qed.

Section Chunker_lemmas.
Context (maxBytes overlapUnits : Z).
Notation pack := (packUnits maxBytes).

(** A run of new units is within the cap, or is one unit that alone exceeds it. *)
Definition fits (new : list ChunkedEvidenceUnit) : Prop := totalBytes new ≤ maxBytes ∨ length new = 1%nat.

Lemma pack_app placed : ∀ used taken after, pack used placed = (taken, after) → placed = taken ++ after.
Proof.
  induction placed as [|cu placed IH]; intros used taken after; cbn; [naive_solver|].
  case_match; [naive_solver|]. destruct (pack _ placed) as [t a] eqn:E. intros [= <- <-]. cbn. f_equal. eauto.
Qed.

Lemma pack_fits_pos placed : ∀ used taken after, 0 < used ≤ maxBytes → pack used placed = (taken, after) →
  used + totalBytes taken ≤ maxBytes.
Proof.
  induction placed as [|cu placed IH]; intros used taken after Hu; cbn; [intros [= <- <-]; cbn; lia|].
  case_match eqn:Hc; [intros [= <- <-]; cbn; lia|]. destruct (pack _ placed) as [t a] eqn:E. intros [= <- <-].
  pose proof (evidenceChunkedBytes_pos cu). unfold totalBytes in *. cbn [sum_by foldr].
  apply IH in E; [unfold sum_by in E; lia|]. bool_prop. destruct Hc; bool_prop; lia.
Qed.

Lemma pack_greedy placed : ∀ used taken after x, 0 ≤ used → pack used placed = (taken, after) → head after = Some x →
  maxBytes < used + totalBytes taken + evidenceChunkedBytes x.
Proof.
  induction placed as [|cu placed IH]; intros used taken after x Hu; cbn; [by intros [= <- <-]|].
  case_match eqn:Hc; [intros [= <- <-] [= <-]; cbn; (bool_prop; lia)|]. destruct (pack _ placed) as [t a] eqn:E. intros [= <- <-] Hx.
  pose proof (evidenceChunkedBytes_pos cu). apply (IH _ _ _ x) in E; [|lia|done]. unfold totalBytes in *; cbn [sum_by foldr] in *. unfold sum_by in E. lia.
Qed.

Lemma pack_over cu placed taken after used : maxBytes < used → 0 < used → pack used (cu :: placed) = (taken, after) → taken = [].
Proof. intros ??. cbn. pose proof (evidenceChunkedBytes_pos cu). case_match eqn:Hc; [naive_solver|]. (bool_prop; lia). Qed.

Lemma pack_first cu placed taken after : pack 0 (cu :: placed) = (taken, after) → taken ≠ [] ∧ fits taken.
Proof.
  cbn -[evidenceChunkedBytes]. destruct (pack _ placed) as [t a] eqn:E. intros [= <- <-]. split; [done|]. rewrite Z.add_0_l in E.
  pose proof (evidenceChunkedBytes_pos cu). unfold fits. unfold totalBytes in *; cbn [sum_by foldr length] in *.
  destruct (decide (evidenceChunkedBytes cu ≤ maxBytes)); [left; by eapply pack_fits_pos|].
  right. destruct placed as [|cu' placed]; [by cbn in E; simplify_eq|]. apply pack_over in E as ->; [done|lia..].
Qed.
End Chunker_lemmas.

(** ** The chunks *)

Section Chunk_spec.
Context (maxBytes overlapUnits : Z).
Notation pack := (packUnits maxBytes).
Notation from := (chunkFrom maxBytes overlapUnits).
Notation o := (Z.to_nat overlapUnits).

(** Each run is followed by a unit that would not have fitted. *)
Definition greedy (news : list (list ChunkedEvidenceUnit)) : Prop :=
  ∀ k new x next, news !! k = Some new → news !! S k = Some (x :: next) → maxBytes < totalBytes new + evidenceChunkedBytes x.

(** The chunks of the runs [news] that follow the units [pre]: chunk [k] opens with
    the last units placed before its own run. *)
Definition layout (index : Z) (pre : list ChunkedEvidenceUnit) (news : list (list ChunkedEvidenceUnit)) : list EvidenceChunk :=
  imap (λ k new, mkEvidenceChunk (index + Z.of_nat k) (lastn o (pre ++ concat (take k news)) ++ new)) news.

Lemma overlapOf_lastn l : 0 ≤ overlapUnits → overlapOf overlapUnits l = lastn o l.
Proof. intros. unfold overlapOf, lastn, zlen. f_equal. lia. Qed.

Lemma layout_cons index pre new news :
  layout index pre (new :: news) = mkEvidenceChunk index (lastn o pre ++ new) :: layout (index + 1) (pre ++ new) news.
Proof.
  unfold layout. cbn [imap]. f_equal.
  - f_equal; [lia|]. cbn. by rewrite app_nil_r.
  - apply imap_ext. intros k x _. cbn. f_equal; [lia|]. by rewrite (assoc_L (++)).
Qed.

Lemma greedy_cons new news : (∀ x, head (concat news) = Some x → maxBytes < totalBytes new + evidenceChunkedBytes x) →
  greedy news → greedy (new :: news).
Proof.
  intros Hh Hg [|k] n x next; cbn; [|by apply Hg].
  intros [= ->] Hn. apply Hh. destruct news as [|m news]; cbn in Hn; [done|]. by simplify_eq.
Qed.

Lemma from_spec : 0 ≤ overlapUnits → ∀ fuel placed index previous pre, (length placed ≤ fuel)%nat → lastn o previous = lastn o pre →
  ∃ news, concat news = placed ∧ from fuel index previous placed = layout index pre news ∧
          Forall (λ new, new ≠ [] ∧ fits maxBytes new) news ∧ greedy news.
Proof.
  intros Ho. induction fuel as [|fuel IH]; intros placed index previous pre Hf Hp.
  { destruct placed; [|cbn in Hf; lia]. by exists []. }
  destruct placed as [|cu placed]; [by exists []|].
  cbn [chunkFrom]. destruct (pack 0 (cu :: placed)) as [taken after] eqn:E.
  pose proof (pack_app _ _ _ _ _ E) as Happ. pose proof (pack_first _ _ _ _ _ E) as [Hne Hfit].
  rewrite (overlapOf_lastn _ Ho), Hp.
  destruct (IH after (index + 1) (lastn o pre ++ taken) (pre ++ taken)) as (news & Hc & Hl & Hn & Hg).
  - apply (f_equal length) in Happ. rewrite length_app in Happ. destruct taken; [done|]. cbn in Happ, Hf. lia.
  - apply lastn_app.
  - exists (taken :: news). split_and!.
    + cbn. by rewrite Hc.
    + by rewrite layout_cons, Hl.
    + by constructor.
    + apply greedy_cons; [|done]. intros x Hx. rewrite Hc in Hx.
      pose proof (pack_greedy _ _ _ _ _ x (Z.le_refl 0) E Hx). lia.
Qed.
End Chunk_spec.

(** The chunks cover the placed units: the new units of the chunks, in order, are
    exactly the units to place; each chunk is indexed from 0 and is a window over that
    sequence, its own run preceded by (at most) the last [overlapUnits] units placed
    before it; every run holds at least one new unit, keeps within the cap unless it is
    one unit that alone exceeds it, and ends only where the next unit would not fit. *)
Theorem chunks_cover_units (maxBytes overlapUnits : Z) (units : list EvidenceUnit) : 0 ≤ overlapUnits →
  ∃ news, concat news = expandOversized maxBytes units ∧
          Chunk maxBytes overlapUnits units =
            imap (λ k new, mkEvidenceChunk (Z.of_nat k) (lastn (Z.to_nat overlapUnits) (concat (take k news)) ++ new)) news ∧
          Forall (λ new, new ≠ [] ∧ (totalBytes new ≤ maxBytes ∨ length new = 1%nat)) news ∧
          ∀ k new x next, news !! k = Some new → news !! S k = Some (x :: next) → maxBytes < totalBytes new + evidenceChunkedBytes x.
Proof.
  intros Ho. destruct (from_spec maxBytes overlapUnits Ho _ (expandOversized maxBytes units) 0 [] [] (le_n _) eq_refl) as (news & Hc & Hl & Hf & Hg).
  exists news. by split_and!.
Qed.

Definition wUnit (id : Z) (text : string) : EvidenceUnit :=
  mkEvidenceUnit UnitText id None "user" text "" "" "" "" "" ErrorStateUnset 0 false.
Definition wUnits : list EvidenceUnit := [wUnit 1 "alpha"; wUnit 2 "bravo"; wUnit 3 "a text that is longer than one chunk can hold"; wUnit 4 "delta"].

Lemma chunks_cover_units_witness : (∃ news, concat news = expandOversized 60 wUnits ∧
          Chunk 60 2 wUnits = imap (λ k new, mkEvidenceChunk (Z.of_nat k) (lastn (Z.to_nat 2) (concat (take k news)) ++ new)) news ∧
          Forall (λ new, new ≠ [] ∧ (totalBytes new ≤ 60 ∨ length new = 1%nat)) news ∧
          ∀ k new x next, news !! k = Some new → news !! S k = Some (x :: next) → 60 < totalBytes new + evidenceChunkedBytes x) ∧
  (length ∘ chunk_Units) <$> Chunk 60 2 wUnits = [2; 3; 3]%nat.
Proof. split; [apply chunks_cover_units; lia|vm_compute; reflexivity]. Defined.

(** ** The fragments *)

(** What the reader of a chunk needs to put a unit together again. *)
Definition joinPayloads (cus : list ChunkedEvidenceUnit) : string := of_bytes (concat ((λ cu, bytes (unitPayload (cu_Unit cu))) <$> cus)).

Section Fragments.
Context (maxBytes : Z) (u : EvidenceUnit).
Notation L := (slen (unitPayload u)).
Notation budget := (sliceBudget maxBytes u).
Notation partCount := ((L + budget - 1) `quot` budget).

Lemma sliceBudget_pos : 0 < maxBytes → 0 < budget.
Proof. intros. unfold sliceBudget. case_match; bool_prop; lia. Qed.

(** The shell of the unit leaves room for the marker and one byte. *)
Definition shellFits : Prop :=
  evidenceUnitBytes (setPayload "" u) + slen (partMarker (L + 1) (L + 1)) < maxBytes.

Lemma sliceBudget_fits : shellFits → budget = maxBytes - evidenceUnitBytes (setPayload "" u) - slen (partMarker (L + 1) (L + 1)).
Proof. unfold shellFits, sliceBudget. intros. case_match; bool_prop; lia. Qed.

Lemma sliceOversized_eq : unitPayload u ≠ "" → sliceOversized maxBytes u =
  (λ index, mkChunked (setPayload (slice (unitPayload u) (Z.of_nat index * budget) (Z.min (Z.of_nat index * budget + budget) L)) u)
                      (Z.of_nat index) partCount) <$> seq 0 (Z.to_nat partCount).
Proof. intros Hp. unfold sliceOversized. by rewrite (proj2 (String.eqb_neq _ _) Hp). Qed.

Lemma payload_pos : unitPayload u ≠ "" → 0 < L.
Proof. intros Hp. destruct (decide (L = 0)) as [E|]; [by apply slen_empty in E|]. pose proof (slen_nonneg (unitPayload u)). lia. Qed.

Lemma sliceOversized_join : 0 < maxBytes → joinPayloads (sliceOversized maxBytes u) = unitPayload u.
Proof.
  intros Hm. destruct (decide (unitPayload u = "")) as [E|Hp].
  { unfold joinPayloads, sliceOversized. rewrite E. cbn. rewrite E. done. }
  rewrite sliceOversized_eq by done. unfold joinPayloads. rewrite <- list_fmap_compose. unfold compose. cbn [cu_Unit].
  pose proof (sliceBudget_pos Hm) as Hb. pose proof (ceil_div_bounds _ _ (payload_pos Hp) Hb) as (? & Hc & _).
  erewrite list_fmap_ext; [|intros i x _; rewrite payload_setPayload; apply slice_bytes; lia].
  rewrite concat_blocks, take_ge, of_bytes_bytes; [done|]. rewrite slen_bytes in Hc |- *. nia.
Qed.

Lemma fragment_bytes i : shellFits → unitPayload u ≠ "" → 0 ≤ i < partCount →
  evidenceChunkedBytes (mkChunked (setPayload (slice (unitPayload u) (i * budget) (Z.min (i * budget + budget) L)) u) i partCount) ≤ maxBytes.
Proof.
  intros Hs Hp Hi. pose proof (sliceBudget_fits Hs) as Hb. assert (0 < budget) as Hb0 by (unfold shellFits in Hs; lia).
  pose proof (ceil_div_bounds _ _ (payload_pos Hp) Hb0) as (Hn & _ & _).
  set (p := slice _ _ _). assert (slen p ≤ budget) as Hlp.
  { subst p. rewrite slen_bytes, <- (Z2Nat.id i), slice_bytes, length_take by lia. lia. }
  pose proof (partMarker_mono i (L + 1) partCount (L + 1) ltac:(lia) ltac:(lia)).
  unfold evidenceChunkedBytes, evidenceChunkedText. cbn [cu_Unit cu_PartIndex cu_PartCount].
  pose proof (evidenceUnitText_payload u p) as Ht. pose proof (slen_nonneg (partMarker (L + 1) (L + 1))).
  unfold evidenceUnitBytes in Hb. case_match; rewrite ?slen_app; lia.
Qed.
End Fragments.

(** Slicing an oversized unit loses nothing: the fragments' payloads concatenate
    byte for byte to the unit's, every fragment is the unit with another payload, they
    are numbered from 0 with the number of fragments as their count, and each of them
    renders within the cap, marker included, unless the unit's shell and the widest
    marker already fill it. *)
Theorem slices_reassemble (maxBytes : Z) (u : EvidenceUnit) : 0 < maxBytes → unitPayload u ≠ "" →
  let parts := sliceOversized maxBytes u in
  joinPayloads parts = unitPayload u ∧
  (∀ i cu, parts !! i = Some cu → cu_PartIndex cu = Z.of_nat i ∧ cu_PartCount cu = zlen parts ∧
                                  ∃ p, cu_Unit cu = setPayload p u ∧ p ≠ "") ∧
  (evidenceUnitBytes (setPayload "" u) + slen (partMarker (slen (unitPayload u) + 1) (slen (unitPayload u) + 1)) < maxBytes →
   Forall (λ cu, evidenceChunkedBytes cu ≤ maxBytes) parts).
Proof.
  intros Hm Hp parts. subst parts. split; [by apply sliceOversized_join|]. rewrite sliceOversized_eq by done.
  pose proof (sliceBudget_pos maxBytes u Hm) as Hb. pose proof (ceil_div_bounds _ _ (payload_pos u Hp) Hb) as (Hn & Hc & Hlast).
  split.
  - intros i cu Hi. rewrite list_lookup_fmap_Some in Hi. destruct Hi as (j & -> & Hj). rewrite lookup_seq in Hj. destruct Hj as [-> Hlt].
    cbn. split_and!; [done|unfold zlen; rewrite length_fmap, length_seq; lia|]. eexists. split; [done|].
    intros He. apply (f_equal bytes), (f_equal length) in He. rewrite slice_bytes, length_take, length_drop in He by lia.
    rewrite slen_bytes in *. cbn in He. nia.
  - intros Hs. apply Forall_fmap, Forall_forall. intros i Hi%elem_of_seq. apply fragment_bytes; [done..|lia].
Qed.

Lemma slices_reassemble_witness :
  let u := wUnit 3 "a text that is longer than one chunk can hold" in let parts := sliceOversized 40 u in
  (joinPayloads parts = unitPayload u ∧
   (∀ i cu, parts !! i = Some cu → cu_PartIndex cu = Z.of_nat i ∧ cu_PartCount cu = zlen parts ∧ ∃ p, cu_Unit cu = setPayload p u ∧ p ≠ "") ∧
   (evidenceUnitBytes (setPayload "" u) + slen (partMarker (slen (unitPayload u) + 1) (slen (unitPayload u) + 1)) < 40 →
    Forall (λ cu, evidenceChunkedBytes cu ≤ 40) parts)) ∧ length parts = 4%nat.
Proof. split; [apply slices_reassemble; [lia|done]|vm_compute; reflexivity]. Defined.

(** ** Failure streaks, declaratively *)

Section Streaks.
Context (canonicalJSON : string → option string).
Notation fp u := (evidenceFingerprint canonicalJSON (unit_ToolName u) (unit_Arguments u)).
Notation step := (countUnit canonicalJSON).

Definition isText (u : EvidenceUnit) : bool := bool_decide (unit_Kind u = UnitText).
Definition isFailure (u : EvidenceUnit) : bool := bool_decide (unit_ErrorState u = ErrorStateFailure).
Definition isSuccess (u : EvidenceUnit) : bool := bool_decide (unit_ErrorState u = ErrorStateSuccess).
(** Tool units of one fingerprint. *)
Definition sameTool (f : string) (u : EvidenceUnit) : bool := negb (isText u) && (fp u =? f)%string.

(** The failures of a fingerprint since its last success. *)
Definition openFailures (f : string) (l : list EvidenceUnit) : Z :=
  zlen (filter (λ u, isFailure u = true) (take_while (λ u, negb (isSuccess u)) (reverse (filter (λ u, sameTool f u = true) l)))).
Definition succeeds (f : string) (l : list EvidenceUnit) : bool := existsb (λ v, sameTool f v && isSuccess v) l.

(** The unit at index [i] of the units [seen]: a failure carries its position in its
    streak and whether a success follows, a success the failures it ends. *)
Definition annotate (seen : list EvidenceUnit) (i : nat) (u : EvidenceUnit) : EvidenceUnit :=
  if isText u then u
  else match unit_ErrorState u with
  | ErrorStateFailure => setFailure (openFailures (fp u) (take (S i) seen)) (unit_Recovered u || succeeds (fp u) (drop (S i) seen)) u
  | ErrorStateSuccess =>
      let n := openFailures (fp u) (take i seen) in setFailure n ((0 <? n) || unit_Recovered u) u
  | _ => u
  end.

Lemma openFailures_snoc f l u : openFailures f (l ++ [u]) =
  if sameTool f u then if isSuccess u then 0 else if isFailure u then openFailures f l + 1 else openFailures f l else openFailures f l.
Proof.
  unfold openFailures. rewrite filter_app. cbn [filter list_filter]. destruct (sameTool f u) eqn:E.
  - rewrite decide_True by done. rewrite reverse_snoc. cbn [take_while]. destruct (isSuccess u); cbn [negb]; [done|].
    destruct (isFailure u) eqn:Ef; [rewrite filter_cons_True by done|by rewrite filter_cons_False by (by rewrite Ef)].
    unfold zlen. cbn. lia.
  - rewrite decide_False by done. by rewrite app_nil_r.
Qed.

Lemma alter_all_lookup {A} (f : A → A) (ix : list nat) : (∀ a, f (f a) = f a) → ∀ (l : list A) j,
  foldl (λ l i, alter f i l) l ix !! j = (if bool_decide (j ∈ ix) then f <$> l !! j else l !! j).
Proof.
  intros Hf. induction ix as [|i ix IH]; intros l j; cbn [foldl]; [done|]. rewrite IH.
  destruct (decide (j = i)) as [->|Hne].
  - rewrite list_lookup_alter_eq. rewrite (bool_decide_eq_true_2 (i ∈ i :: ix)) by set_solver.
    case_bool_decide; destruct (l !! i); cbn; rewrite ?Hf; done.
  - rewrite list_lookup_alter_ne by done. rewrite (bool_decide_ext (j ∈ i :: ix) (j ∈ ix)); [done|]. set_solver.
Qed.

Context (units : list EvidenceUnit).
Notation at_ k := (take k units).

(** The open failures of a streak, by index. *)
Definition openAt (k : nat) (f : string) (i : nat) : Prop :=
  ∃ u, units !! i = Some u ∧ (i < k)%nat ∧ sameTool f u = true ∧ isFailure u = true ∧ succeeds f (drop (S i) (at_ k)) = false.

Record counted (k : nat) (st : gmap string (Z * list nat) * list EvidenceUnit) : Prop := mkCounted {
  counted_units : ∀ i, st.2 !! i = (λ u, if (i <? k)%nat then annotate (at_ k) i u else u) <$> units !! i;
  counted_count : ∀ f, (default (0, []) (st.1 !! f)).1 = openFailures f (at_ k);
  counted_len : ∀ f, (default (0, []) (st.1 !! f)).1 = zlen (default (0, []) (st.1 !! f)).2;
  counted_open : ∀ f i, i ∈ (default (0, []) (st.1 !! f)).2 ↔ openAt k f i
}.

Lemma counted_init : counted 0 (∅, units).
Proof.
  constructor; cbn [fst snd]; intros; rewrite ?lookup_empty; cbn; [|done..|].
  - by destruct (units !! i).
  - split; [set_solver|]. intros (u & _ & Hi & _). lia.
Qed.

Lemma drop_snoc_take i k u : (i ≤ k)%nat → units !! k = Some u → drop i (at_ (S k)) = drop i (at_ k) ++ [u].
Proof. intros Hi Hu. rewrite (take_S_r _ _ _ Hu). apply drop_app_le. rewrite length_take. apply lookup_lt_Some in Hu. lia. Qed.

Lemma succeeds_snoc f l u : succeeds f (l ++ [u]) = succeeds f l || (sameTool f u && isSuccess u).
Proof. unfold succeeds. rewrite existsb_app. cbn. by rewrite orb_false_r. Qed.

(** The units before [k] see the unit at [k] only when it is a success of theirs. *)
Lemma annotate_next k u i v : units !! k = Some u → (i < k)%nat → units !! i = Some v →
  annotate (at_ (S k)) i v =
    if negb (isText v) && isFailure v && sameTool (fp v) u && isSuccess u then setFailure (unit_FailureCount (annotate (at_ k) i v)) true (annotate (at_ k) i v)
    else annotate (at_ k) i v.
Proof.
  intros Hk Hi Hv. unfold annotate. destruct (isText v) eqn:Ht; [done|]. cbn [negb andb].
  rewrite (drop_snoc_take (S i) k u) by (lia || done). rewrite succeeds_snoc, !take_take.
  rewrite (Nat.min_l (S i) (S k)), (Nat.min_l (S i) k), (Nat.min_l i (S k)), (Nat.min_l i k) by lia.
  unfold isFailure. destruct (unit_ErrorState v) eqn:Es; cbn [negb andb bool_decide]; try done.
  rewrite bool_decide_eq_true_2 by done. cbn [andb]. destruct (sameTool (fp v) u && isSuccess u) eqn:Eu; rewrite Eu || idtac.
  - rewrite orb_true_r, orb_true_r. unfold setFailure. cbn. done.
  - by rewrite orb_false_r.
Qed.

Lemma openAt_next k u f i : units !! k = Some u →
  openAt (S k) f i ↔ (openAt k f i ∧ sameTool f u && isSuccess u = false) ∨ (i = k ∧ sameTool f u = true ∧ isFailure u = true).
Proof.
  intros Hk. unfold openAt. split.
  - intros (v & Hv & Hi & Hs & Hf & Ho). destruct (decide (i = k)) as [->|Hne].
    + right. rewrite Hk in Hv. by injection Hv as ->.
    + left. rewrite (drop_snoc_take (S i) k u), succeeds_snoc in Ho by (lia || done). apply orb_false_iff in Ho as [Ho Hu].
      split; [|done]. exists v. split_and!; [done|lia|done..].
  - intros [[(v & Hv & Hi & Hs & Hf & Ho) Hu]|(-> & Hs & Hf)].
    + exists v. split_and!; [done|lia|done..|]. rewrite (drop_snoc_take (S i) k u), succeeds_snoc, Ho, Hu by (lia || done). done.
    + exists u. split_and!; [done|lia|done..|]. rewrite drop_ge; [done|]. rewrite length_take. lia.
Qed.

Lemma sameTool_fp f u : sameTool f u = negb (isText u) && bool_decide (f = fp u).
Proof. unfold sameTool. f_equal. destruct (String.eqb_spec (fp u) f); case_bool_decide; congruence. Qed.

(** A state whose streak of [u]'s fingerprint is set to [p]. *)
Lemma counted_set k u streaks units' units'' count failures : units !! k = Some u → isText u = false →
  counted k (streaks, units') →
  count = openFailures (fp u) (at_ (S k)) → count = zlen failures → (∀ i, i ∈ failures ↔ openAt (S k) (fp u) i) →
  (∀ i, units'' !! i = (λ v, if (i <? S k)%nat then annotate (at_ (S k)) i v else v) <$> units !! i) →
  counted (S k) (<[fp u := (count, failures)]> streaks, units'').
Proof.
  intros Hk Ht [Hu Hc Hl Ho] Hcount Hlen Hopen Hunits.
  assert (∀ f, f ≠ fp u → sameTool f u = false) as Hother.
  { intros f Hf. rewrite sameTool_fp, bool_decide_eq_false_2 by done. apply andb_false_r. }
  constructor; cbn [fst snd] in *; [done|..]; intros f; (destruct (decide (f = fp u)) as [->|Hf]; [rewrite lookup_insert_eq|rewrite lookup_insert_ne by done]); cbn [default fst snd]; [done| |done| |done|].
  - by rewrite Hc, (take_S_r _ _ _ Hk), openFailures_snoc, Hother.
  - apply Hl.
  - intros i. rewrite Ho, (openAt_next k u) by done. rewrite (Hother _ Hf). naive_solver.
Qed.

Lemma lookup_next k u (units' : list EvidenceUnit) : units !! k = Some u →
  (∀ i, units' !! i = (λ v, if (i <? k)%nat then annotate (at_ k) i v else v) <$> units !! i) → annotate (at_ (S k)) k u = u →
  isText u = true ∨ isSuccess u = false →
  ∀ i, units' !! i = (λ v, if (i <? S k)%nat then annotate (at_ (S k)) i v else v) <$> units !! i.
Proof.
  intros Hk Hu Ha Hs i. rewrite Hu. destruct (units !! i) as [v|] eqn:Hv; [|done]. cbn [fmap option_fmap option_map]. f_equal.
  destruct (Nat.ltb_spec i k), (Nat.ltb_spec i (S k)); try lia; [|assert (i = k) as -> by lia; rewrite Hk in Hv; injection Hv as <-; by rewrite Ha|done].
  rewrite (annotate_next k u i v) by done. destruct Hs as [Hs|Hs].
  - rewrite sameTool_fp, Hs. cbn. by rewrite andb_false_r.
  - by rewrite Hs, !andb_false_r.
Qed.

(** Every unit but the one at [k] is as before. *)
Lemma lookup_insert_next k u u' (units' : list EvidenceUnit) : units !! k = Some u →
  (∀ i, units' !! i = (λ v, if (i <? k)%nat then annotate (at_ k) i v else v) <$> units !! i) → annotate (at_ (S k)) k u = u' →
  isSuccess u = false → ∀ i, <[k := u']> units' !! i = (λ v, if (i <? S k)%nat then annotate (at_ (S k)) i v else v) <$> units !! i.
Proof.
  intros Hk Hu Ha Hs i. destruct (decide (i = k)) as [->|Hne].
  - rewrite list_lookup_insert_eq by (apply lookup_lt_is_Some; rewrite Hu, Hk; eauto). rewrite Hk. cbn [fmap option_fmap option_map]. destruct (Nat.ltb_spec k (S k)); [by rewrite Ha|lia].
  - rewrite list_lookup_insert_ne, Hu by done. destruct (units !! i) as [v|] eqn:Hv; [|done]. cbn [fmap option_fmap option_map]. f_equal.
    destruct (Nat.ltb_spec i k), (Nat.ltb_spec i (S k)); try lia; [|done].
    by rewrite (annotate_next k u i v), Hs, andb_false_r by done.
Qed.

(** A success recovers the open failures of its streak. *)
Lemma lookup_success_next k u u' (units' : list EvidenceUnit) failures : units !! k = Some u → isText u = false → isSuccess u = true →
  (∀ i, units' !! i = (λ v, if (i <? k)%nat then annotate (at_ k) i v else v) <$> units !! i) → annotate (at_ (S k)) k u = u' →
  (∀ i, i ∈ failures ↔ openAt k (fp u) i) →
  ∀ i, foldl (λ l i, alter (λ u, setFailure (unit_FailureCount u) true u) i l) (<[k := u']> units') failures !! i =
    (λ v, if (i <? S k)%nat then annotate (at_ (S k)) i v else v) <$> units !! i.
Proof.
  intros Hk Ht Hs Hu Ha Ho i. rewrite alter_all_lookup by done. destruct (decide (i = k)) as [->|Hne].
  - rewrite bool_decide_eq_false_2 by (rewrite Ho; intros (v & _ & Hi & _); lia).
    rewrite list_lookup_insert_eq by (apply lookup_lt_is_Some; rewrite Hu, Hk; eauto). rewrite Hk. cbn [fmap option_fmap option_map]. destruct (Nat.ltb_spec k (S k)); [by rewrite Ha|lia].
  - rewrite list_lookup_insert_ne, Hu by done. destruct (units !! i) as [v|] eqn:Hv; [|by case_bool_decide]. cbn [fmap option_fmap option_map].
    destruct (Nat.ltb_spec i k), (Nat.ltb_spec i (S k)); try lia.
    2: { rewrite bool_decide_eq_false_2; [done|]. rewrite Ho. intros (w & _ & Hi & _). lia. }
    rewrite (annotate_next k u i v), Hs, andb_true_r by done. case_bool_decide as Hi.
    + apply Ho in Hi as (w & Hw & _ & Hsame & Hf & _). rewrite Hv in Hw. injection Hw as <-. do 2 f_equal.
      rewrite sameTool_fp in Hsame. bool_prop. subst. rewrite Hf, sameTool_fp, Ht, bool_decide_eq_true_2 by done.
      rename select (isText v = false) into Htv. by rewrite Htv.
    + f_equal. destruct (negb (isText v) && isFailure v && sameTool (fp v) u) eqn:E; [|done]. bool_prop.
      rewrite sameTool_fp, Ht in *. bool_prop. rename select (fp v = fp u) into Hfp.
      assert (succeeds (fp u) (drop (S i) (at_ k)) = true) as Hsucc.
      { destruct (succeeds (fp u) (drop (S i) (at_ k))) eqn:Hz; [done|]. exfalso. apply Hi, Ho. exists v.
        split_and!; [done|lia| |done..]. rewrite sameTool_fp. rename select (isText v = false) into Htv. rewrite Htv. cbn. by apply bool_decide_eq_true_2. }
      unfold annotate. rename select (isText v = false) into Htv. rewrite Htv. rename select (isFailure v = true) into Hfv.
      apply bool_decide_eq_true in Hfv. rewrite Hfv, Hfp, Hsucc, orb_true_r. done.
Qed.

Lemma counted_step k u st : units !! k = Some u → counted k st → counted (S k) (step st k).
Proof.
  intros Hk Hst. destruct st as [streaks units']. pose proof Hst as [Hu Hc Hl Ho]. cbn [fst snd] in *.
  assert (units' !! k = Some u) as Hk'.
  { rewrite Hu, Hk. cbn [fmap option_fmap option_map]. by rewrite Nat.ltb_irrefl. }
  unfold countUnit. rewrite Hk'. fold (isText u). destruct (isText u) eqn:Ht.
  { assert (∀ f, sameTool f u = false) as Hs by (intros f; by rewrite sameTool_fp, Ht).
    constructor; cbn [fst snd].
    - apply (lookup_next k u); [done..| |by left]. unfold annotate. by rewrite Ht.
    - intros f. by rewrite Hc, (take_S_r _ _ _ Hk), openFailures_snoc, Hs.
    - done.
    - intros f i. rewrite Ho, (openAt_next k u) by done. rewrite Hs. naive_solver. }
  destruct (default (0, []) (streaks !! fp u)) as [count failures] eqn:Ed.
  pose proof (Hc (fp u)) as Hcu. pose proof (Hl (fp u)) as Hlu. pose proof (Ho (fp u)) as Hou. rewrite Ed in Hcu, Hlu, Hou. cbn [fst snd] in *.
  assert (sameTool (fp u) u = true) as Hsame by (by rewrite sameTool_fp, Ht, bool_decide_eq_true_2).
  pose proof (openFailures_snoc (fp u) (at_ k) u) as Hsnoc. rewrite <- (take_S_r _ _ _ Hk), Hsame in Hsnoc. unfold isSuccess, isFailure in Hsnoc.
  assert (∀ i, openAt (S k) (fp u) i ↔ openAt k (fp u) i ∧ isSuccess u = false ∨ i = k ∧ isFailure u = true) as Hnext.
  { intros i. rewrite (openAt_next k u) by done. rewrite Hsame. cbn [andb]. naive_solver. }
  destruct (unit_ErrorState u) eqn:Es.
  1-2: apply (counted_set k u streaks units'); [done..|by rewrite Hsnoc, Hcu|done| |];
    [intros i; rewrite Hou, Hnext; unfold isSuccess, isFailure; rewrite Es; naive_solver
    |apply (lookup_next k u); [done..| |right; unfold isSuccess; by rewrite Es]; unfold annotate; by rewrite Ht, Es].
  - assert (isSuccess u = true) as Hsu by (unfold isSuccess; by rewrite Es).
    apply (counted_set k u streaks units'); [done..|by rewrite Hsnoc|done| |].
    { intros i. rewrite Hnext, Hsu. unfold isFailure. rewrite Es. split; [set_solver|naive_solver]. }
    assert (annotate (at_ (S k)) k u = setFailure count (if 0 <? count then true else unit_Recovered u) u) as Ha.
    { unfold annotate. rewrite Ht, Es, take_take, Nat.min_l, <- Hcu by lia. by destruct (0 <? count). }
    intros i. pose proof (lookup_success_next k u _ units' failures Hk Ht Hsu Hu Ha Hou i) as Hi. destruct (0 <? count) eqn:H0; [done|].
    destruct failures; [done|]. bool_prop. unfold zlen in Hlu. cbn in Hlu. lia.
  - apply (counted_set k u streaks units'); [done..|by rewrite Hsnoc, Hcu|unfold zlen in *; rewrite length_app; cbn; lia| |].
    { intros i. rewrite elem_of_app, list_elem_of_singleton, Hou, Hnext. unfold isSuccess, isFailure. rewrite Es. naive_solver. }
    apply (lookup_insert_next k u); [done..| |by unfold isSuccess; rewrite Es].
    unfold annotate. rewrite Ht, Es, take_take, Nat.min_l, Hsnoc, <- Hcu by lia. rewrite drop_ge by (rewrite length_take; lia).
    by rewrite orb_false_r.
Qed.

Lemma counted_all k : (k ≤ length units)%nat → counted k (foldl step (∅, units) (seq 0 k)).
Proof.
  induction k as [|k IH]; intros Hk; [apply counted_init|]. rewrite seq_S, foldl_app. cbn [foldl].
  destruct (lookup_lt_is_Some_2 units k) as [u Hu]; [lia|]. apply (counted_step k u); [done|]. apply IH. lia.
Qed.

Lemma countEvidenceFailures_eq : countEvidenceFailures canonicalJSON units = imap (annotate units) units.
Proof.
  pose proof (counted_units _ _ (counted_all (length units) (le_n _))) as Hu. apply list_eq. intros i. unfold countEvidenceFailures. rewrite Hu, list_lookup_imap, firstn_all.
  destruct (units !! i) as [u|] eqn:Hi; [|done]. cbn [fmap option_fmap option_map]. apply lookup_lt_Some in Hi. destruct (Nat.ltb_spec i (length units)); [done|lia].
Qed.
End Streaks.

(** ** Rendering, declaratively *)

Lemma list_find_snoc {A} (P : A → Prop) `{∀ x, Decision (P x)} l x :
  list_find P (l ++ [x]) = match list_find P l with Some r => Some r | None => if decide (P x) then Some (length l, x) else None end.
Proof.
  induction l as [|y l IH]; [done|]. simpl. destruct (decide (P y)); [done|]. rewrite IH.
  destruct (list_find P l) as [[i z]|]; [done|]. simpl. by case_decide.
Qed.
Lemma indexed_snoc {A} (l : list A) x : indexed (l ++ [x]) = indexed l ++ [(length l, x)].
Proof. unfold indexed. rewrite imap_app. cbn. by rewrite Nat.add_0_r. Qed.

Section Render_spec.
Context (unmarshalMetadata : RawMessage → option RawMetadata).
Notation metaOf row := (parseEvidenceMetadata unmarshalMetadata (row_MetadataJSON row)).
Notation idOf row := (meta_toolCallID (metaOf row)).
Notation isCall row := (row_ContentType row =? ContentTypeFunctionCall)%string.
Notation isOutput row := (row_ContentType row =? ContentTypeFunctionCallOutput)%string.

(** The rows of a tool call and of its outputs. *)
Definition callOf (id : string) (row : MessageRow) : Prop := isCall row = true ∧ idOf row = id ∧ id ≠ ""%string.
Definition outputOf (id : string) (row : MessageRow) : Prop := isOutput row = true ∧ idOf row = id ∧ id ≠ ""%string.
#[local] Instance callOf_dec id row : Decision (callOf id row).
Proof. unfold callOf. apply _. Defined.
#[local] Instance outputOf_dec id row : Decision (outputOf id row).
Proof. unfold outputOf. apply _. Defined.

Definition firstCall (id : string) (rows : list MessageRow) : option MessageRow := snd <$> list_find (callOf id) rows.
Definition firstShown (id : string) (rows : list MessageRow) : option nat :=
  fst <$> list_find (λ row, callOf id row ∧ evidenceRowExcluded row = false) rows.
Definition firstOutput (id : string) (rows : list MessageRow) : option (nat * MessageRow) := list_find (outputOf id) rows.

(** What the row at [i] becomes: a call is rendered at its first shown row, as the first
    call of its identity with that identity's first output; an output that does not
    answer a call of the window, or is not the first one, stands alone. *)
Definition rowUnit (rows : list MessageRow) (i : nat) (row : MessageRow) : option EvidenceUnit :=
  if evidenceRowExcluded row then None
  else if isCall row then
    match firstCall (idOf row) rows, firstOutput (idOf row) rows with
    | Some call, Some (_, output) =>
      if bool_decide (firstShown (idOf row) rows = Some i)
      then Some (exchangeUnit (mkPending call (metaOf call) None false) output (metaOf output)) else None
    | _, _ => None
    end
  else if isOutput row then
    match firstCall (idOf row) rows with
    | Some _ => if bool_decide (fst <$> firstOutput (idOf row) rows = Some i) then None else Some (orphanUnit row (metaOf row))
    | None => Some (orphanUnit row (metaOf row))
    end
  else if (TrimSpace (row_Content row) =? "")%string then None
  else Some (textUnit row).

(** *** The first pass *)

Lemma firstCall_snoc id rows row : firstCall id (rows ++ [row]) =
  match firstCall id rows with Some r => Some r | None => if decide (callOf id row) then Some row else None end.
Proof. unfold firstCall. rewrite list_find_snoc. destruct (list_find (callOf id) rows); [done|]. by case_decide. Qed.

Lemma collectCalls_lookup rows id :
  collectCalls unmarshalMetadata rows !! id = (λ r, mkPending r (metaOf r) None false) <$> firstCall id rows.
Proof.
  unfold collectCalls. induction rows as [|row rows IH] using rev_ind; [done|]. rewrite foldl_app, firstCall_snoc. cbn [foldl].
  set (calls := foldl _ _ _) in *. clearbody calls. unfold addCall. destruct (isCall row) eqn:Hc; cbn [negb].
  2: { rewrite IH. destruct (firstCall id rows); [done|]. rewrite decide_False; [done|]. unfold callOf. rewrite Hc. naive_solver. }
  destruct (String.eqb_spec (idOf row) "") as [He|He].
  { rewrite IH. destruct (firstCall id rows); [done|]. rewrite decide_False; [done|]. unfold callOf. naive_solver. }
  destruct (decide (idOf row = id)) as [E|E].
  - subst id. rewrite IH. destruct (firstCall (idOf row) rows) as [r|]; cbn; [by rewrite IH|].
    rewrite lookup_insert_eq, decide_True; [done|]. by split_and!.
  - rewrite (decide_False (P := callOf id row)) by (unfold callOf; naive_solver).
    destruct (calls !! idOf row); [|rewrite lookup_insert_ne by done]; rewrite IH; by destruct (firstCall id rows).
Qed.

(** *** The second pass *)

Notation withOutput o := (λ c, mkPending (pc_row c) (pc_meta c) o (pc_emitted c)).
Notation answer rows id := ((λ p : nat * MessageRow, (p.2, metaOf p.2)) <$> firstOutput id rows).

(** The output at [i] is kept as an orphan. *)
Definition orphanAt (calls : gmap string evidencePendingCall) (rows : list MessageRow) (i : nat) : option evidenceToolMetadata :=
  row ← rows !! i;
  if isOutput row && (bool_decide (calls !! idOf row = None) || bool_decide (fst <$> firstOutput (idOf row) rows ≠ Some i))
  then Some (metaOf row) else None.

Lemma firstOutput_snoc id rows row : firstOutput id (rows ++ [row]) =
  match firstOutput id rows with Some r => Some r | None => if decide (outputOf id row) then Some (length rows, row) else None end.
Proof. apply list_find_snoc. Qed.

(** The first output before an index is not moved by what comes later. *)
Lemma firstOutput_before rows row i r : rows !! i = Some r → isOutput r = true →
  bool_decide (fst <$> firstOutput (idOf r) (rows ++ [row]) ≠ Some i) = bool_decide (fst <$> firstOutput (idOf r) rows ≠ Some i).
Proof.
  intros Hi Ho. rewrite firstOutput_snoc. destruct (firstOutput (idOf r) rows) as [p|] eqn:E; [done|]. case_decide as Hd; [|done].
  exfalso. unfold firstOutput in E. apply list_find_None in E. rewrite Forall_lookup in E. apply (E i r Hi). by destruct Hd as (_ & _ & ?).
Qed.

Lemma orphanAt_snoc calls rows row i : orphanAt calls (rows ++ [row]) i =
  if decide (i = length rows) then
    if isOutput row && (bool_decide (calls !! idOf row = None) || bool_decide (fst <$> firstOutput (idOf row) (rows ++ [row]) ≠ Some i))
    then Some (metaOf row) else None
  else orphanAt calls rows i.
Proof.
  unfold orphanAt. case_decide as Hi.
  - subst i. rewrite list_lookup_middle by done. done.
  - destruct (rows !! i) as [r|] eqn:Hr.
    + rewrite (lookup_app_l_Some _ _ _ _ Hr). cbn [mbind option_bind]. destruct (isOutput r) eqn:Ho; [|done]. by rewrite firstOutput_before.
    + rewrite (lookup_ge_None_2 (rows ++ [row])); [done|]. apply lookup_ge_None in Hr. rewrite length_app. cbn. lia.
Qed.

Lemma pairOutputs_spec calls rows : (∀ id call, calls !! id = Some call → pc_output call = None) →
  (∀ id, (pairOutputs unmarshalMetadata calls rows).1 !! id = withOutput (answer rows id) <$> calls !! id) ∧
  (∀ i, (pairOutputs unmarshalMetadata calls rows).2 !! i = orphanAt calls rows i).
Proof.
  intros Hnone. unfold pairOutputs. induction rows as [|row rows [IHc IHo]] using rev_ind.
  { split; [|done]. intros id. cbn. destruct (calls !! id) as [c|] eqn:E; [|done]. cbn. rewrite <- (Hnone _ _ E). by destruct c. }
  rewrite indexed_snoc, foldl_app. cbn [foldl]. destruct (foldl _ _ _) as [calls' orphans]. cbn [fst snd] in *.
  assert (∀ id, ¬ outputOf id row → firstOutput id (rows ++ [row]) = firstOutput id rows) as Hsame.
  { intros id Hno. rewrite firstOutput_snoc, decide_False by done. by destruct (firstOutput id rows). }
  unfold addOutput. destruct (isOutput row) eqn:Ho; cbn [negb fst snd].
  2: { split; intros.
       - rewrite IHc, Hsame; [done|]. unfold outputOf. rewrite Ho. naive_solver.
       - rewrite IHo, orphanAt_snoc, Ho. cbn [andb]. case_decide; [|done]. subst. unfold orphanAt. by rewrite lookup_ge_None_2. }
  assert (∀ i, (<[length rows := metaOf row]> orphans) !! i = if decide (i = length rows) then Some (metaOf row) else orphanAt calls rows i) as Hins.
  { intros i. case_decide; [subst; by rewrite lookup_insert_eq|]. by rewrite lookup_insert_ne, IHo by done. }
  destruct (String.eqb_spec (idOf row) "") as [He|He]; cbn [fst snd].
  { split; intros.
    - rewrite IHc, Hsame; [done|]. unfold outputOf. naive_solver.
    - rewrite Hins, orphanAt_snoc, Ho. case_decide; [|done]. rewrite Hsame by (unfold outputOf; naive_solver).
      rewrite (bool_decide_eq_true_2 (fst <$> _ ≠ _)), orb_true_r; [done|]. unfold firstOutput. rewrite He.
      rewrite (proj2 (list_find_None _ _)); [done|]. apply Forall_forall. unfold outputOf. naive_solver. }
  rewrite IHc. destruct (calls !! idOf row) as [c|] eqn:Ec; cbn [fmap option_fmap option_map pc_output fst snd].
  2: { split; intros.
    - rewrite IHc. destruct (decide (id = idOf row)) as [->|Hne]; [by rewrite Ec|]. rewrite Hsame; [done|]. unfold outputOf. naive_solver.
    - rewrite Hins, orphanAt_snoc, Ho, Ec. case_decide; [|done]. by rewrite (bool_decide_eq_true_2 (None = None)). }
  pose proof (firstOutput_snoc (idOf row) rows row) as Hf. destruct (firstOutput (idOf row) rows) as [[j r]|] eqn:Er; cbn [fmap option_fmap option_map fst snd].
  { split; intros.
    - rewrite IHc. destruct (decide (id = idOf row)) as [->|Hne]; [by rewrite Hf, Er|]. rewrite Hsame; [done|]. unfold outputOf. naive_solver.
    - rewrite Hins, orphanAt_snoc, Ho. case_decide; [|done]. subst i. rewrite Hf. cbn [fmap option_fmap option_map fst].
      rewrite (bool_decide_eq_true_2 (Some j ≠ _)), orb_true_r; [done|]. intros [= ->]. unfold firstOutput in Er.
      apply list_find_Some in Er as (Hl & _). apply lookup_lt_Some in Hl. lia. }
  rewrite decide_True in Hf by (by split_and!). split; intros.
  - destruct (decide (id = idOf row)) as [->|Hne].
    + by rewrite lookup_insert_eq, Ec, Hf.
    + rewrite lookup_insert_ne, IHc, Hsame by (done || unfold outputOf; naive_solver). done.
  - rewrite IHo, orphanAt_snoc, Ho, Ec, Hf. cbn [fmap option_fmap option_map fst]. rewrite (bool_decide_eq_false_2 (Some c = None)) by done.
    case_decide; [|done]. subst. rewrite bool_decide_eq_false_2 by naive_solver. unfold orphanAt. by rewrite lookup_ge_None_2.
Qed.

(** *** The third pass *)

Section Emit.
Context (rows : list MessageRow).
Notation calls := (pairOutputs unmarshalMetadata (collectCalls unmarshalMetadata rows) rows).1.
Notation orphans := (pairOutputs unmarshalMetadata (collectCalls unmarshalMetadata rows) rows).2.

Lemma calls_lookup id : calls !! id = (λ r, mkPending r (metaOf r) (answer rows id) false) <$> firstCall id rows.
Proof.
  rewrite (proj1 (pairOutputs_spec _ rows ltac:(intros ? ?; rewrite collectCalls_lookup; destruct (firstCall _ _); naive_solver))), collectCalls_lookup.
  by destruct (firstCall id rows).
Qed.
Lemma orphans_lookup i : orphans !! i = orphanAt (collectCalls unmarshalMetadata rows) rows i.
Proof. apply pairOutputs_spec. intros id call. rewrite collectCalls_lookup. destruct (firstCall _ _); naive_solver. Qed.

(** The calls after the rows of [pre]: those shown and answered are emitted. *)
Definition emitted (pre : list MessageRow) (id : string) : bool :=
  match firstShown id pre, firstOutput id rows with Some _, Some _ => true | _, _ => false end.
Definition emittedCalls (pre : list MessageRow) (id : string) : option evidencePendingCall :=
  (λ r, mkPending r (metaOf r) (answer rows id) (emitted pre id)) <$> firstCall id rows.

Lemma firstShown_snoc id pre row : firstShown id (pre ++ [row]) =
  match firstShown id pre with Some i => Some i | None => if decide (callOf id row ∧ evidenceRowExcluded row = false) then Some (length pre) else None end.
Proof. unfold firstShown. rewrite list_find_snoc. destruct (list_find _ pre) as [[? ?]|]; [done|]. by case_decide. Qed.

Lemma firstShown_at id pre row post : rows = pre ++ row :: post → callOf id row → evidenceRowExcluded row = false →
  bool_decide (firstShown id rows = Some (length pre)) = bool_decide (firstShown id pre = None).
Proof.
  intros -> Hc Hx. apply bool_decide_ext. unfold firstShown. rewrite !fmap_None. split.
  - intros ([i r] & Hf & Hi)%fmap_Some. cbn in Hi. subst i. apply list_find_Some in Hf as (_ & _ & Hf).
    apply list_find_None, Forall_lookup. intros j y Hj. pose proof (lookup_lt_Some _ _ _ Hj). apply (Hf j); [|done]. by apply lookup_app_l_Some.
  - intros Hn. apply fmap_Some. exists (length pre, row). split; [|done]. apply list_find_Some. split_and!; [by apply list_lookup_middle|done..|].
    intros j y Hj Hlt. rewrite lookup_app_l in Hj by done. apply list_find_None in Hn. rewrite Forall_lookup in Hn. by apply (Hn j).
Qed.

Lemma firstCall_self row pre post : rows = pre ++ row :: post → isCall row = true → idOf row ≠ ""%string → is_Some (firstCall (idOf row) rows).
Proof.
  intros -> Hc Hid. unfold firstCall. destruct (list_find _ _) as [p|] eqn:E; [by eexists|]. exfalso. apply list_find_None in E.
  rewrite Forall_app, Forall_cons in E. destruct E as (_ & E & _). by apply E.
Qed.

Lemma orphans_at pre row post : rows = pre ++ row :: post → isOutput row = true → orphans !! length pre =
  match firstCall (idOf row) rows with
  | Some _ => if bool_decide (fst <$> firstOutput (idOf row) rows = Some (length pre)) then None else Some (metaOf row)
  | None => Some (metaOf row)
  end.
Proof.
  intros Hrows Ho. rewrite orphans_lookup. unfold orphanAt. 
  assert (rows !! length pre = Some row) as -> by (rewrite Hrows; by apply list_lookup_middle). cbn [mbind option_bind].
  rewrite Ho, collectCalls_lookup, bool_decide_not. destruct (firstCall (idOf row) rows); cbn; [|done]. by case_bool_decide.
Qed.

Definition rowUnits (pre : list MessageRow) : list EvidenceUnit := omap (λ p, rowUnit rows p.1 p.2) (indexed pre).

Lemma rowUnits_snoc pre row : rowUnits (pre ++ [row]) = rowUnits pre ++ option_list (rowUnit rows (length pre) row).
Proof. unfold rowUnits. rewrite indexed_snoc, omap_app. cbn. by destruct (rowUnit _ _ _). Qed.

Lemma emittedCalls_id pre row id : ¬ (callOf id row ∧ evidenceRowExcluded row = false ∧ is_Some (firstOutput id rows)) → emittedCalls (pre ++ [row]) id = emittedCalls pre id.
Proof.
  intros Hn. unfold emittedCalls, emitted. rewrite firstShown_snoc. destruct (firstShown id pre); [done|].
  case_decide as Hd; [|done]. destruct (firstOutput id rows); [|done]. naive_solver.
Qed.

Lemma emitRow_spec pre row post st : rows = pre ++ row :: post → (∀ id, st.1 !! id = emittedCalls pre id) → st.2 = rowUnits pre →
  match emitRow unmarshalMetadata orphans st (length pre, row) with
  | (cs, us) => (∀ id, cs !! id = emittedCalls (pre ++ [row]) id) ∧ us = rowUnits (pre ++ [row])
  end.
Proof.
  intros Hrows Hcalls Hunits. destruct st as [cs us]. cbn [fst snd] in *. subst us. rewrite rowUnits_snoc. unfold emitRow, rowUnit.
  destruct (evidenceRowExcluded row) eqn:Hx; cbn [option_list].
  { rewrite app_nil_r. split; [|done]. intros id. rewrite emittedCalls_id; [done|]. rewrite Hx. naive_solver. }
  destruct (isCall row) eqn:Hc.
  2: { assert (∀ id, emittedCalls (pre ++ [row]) id = emittedCalls pre id) as Hid.
       { intros id. apply emittedCalls_id. unfold callOf. rewrite Hc. naive_solver. }
       destruct (isOutput row) eqn:Ho.
       - rewrite (orphans_at pre row post) by done. destruct (firstCall (idOf row) rows); [case_bool_decide|]; cbn; rewrite ?app_nil_r;
           (split; [intros id; by rewrite Hid|done]).
       - destruct (TrimSpace (row_Content row) =? "")%string; cbn; rewrite ?app_nil_r; (split; [intros id; by rewrite Hid|done]). }
  destruct (String.eqb_spec (idOf row) "") as [He|He].
  { assert (firstCall (idOf row) rows = None) as ->.
    { unfold firstCall. rewrite (proj2 (list_find_None _ _)); [done|]. apply Forall_forall. unfold callOf. rewrite He. naive_solver. }
    rewrite app_nil_r. split; [|done]. intros id. rewrite emittedCalls_id; [done|]. unfold callOf. rewrite He. naive_solver. }
  assert (callOf (idOf row) row) as Hrow by (by split_and!).
  rewrite Hcalls. destruct (firstCall_self row pre post Hrows Hc He) as [c Ec]. unfold emittedCalls at 1. rewrite Ec. cbn [fmap option_fmap option_map pc_emitted pc_output].
  unfold emitted at 1. destruct (firstOutput (idOf row) rows) as [[j o]|] eqn:Eo; cbn [fmap option_fmap option_map].
  2: { destruct (firstShown (idOf row) pre); cbn; rewrite app_nil_r; (split; [|done]); intros id; rewrite emittedCalls_id; try done;
         (intros (Hid & _ & [? Ho]); destruct Hid as (_ & <- & _); congruence). }
  rewrite (firstShown_at (idOf row) pre row post) by done. destruct (firstShown (idOf row) pre) eqn:Es; cbn [fst snd].
  - rewrite bool_decide_eq_false_2 by done. cbn. rewrite app_nil_r. split; [|done]. intros id. rewrite Hcalls. unfold emittedCalls, emitted. rewrite firstShown_snoc.
    destruct (firstShown id pre) eqn:Es'; [done|]. rewrite decide_False; [done|]. intros [(_ & <- & _) _]. congruence.
  - rewrite bool_decide_eq_true_2 by done. cbn. split; [|done]. intros id. destruct (decide (id = idOf row)) as [->|Hne].
    + rewrite lookup_insert_eq. unfold emittedCalls, emitted. rewrite firstShown_snoc, Es, Ec, Eo, decide_True by done. done.
    + rewrite lookup_insert_ne, Hcalls, emittedCalls_id; [done| |done]. intros ((_ & <- & _) & _). done.
Qed.
End Emit.
End Render_spec.

Lemma emitted_all um rows pre post : rows = pre ++ post →
  match foldl (emitRow um (pairOutputs um (collectCalls um rows) rows).2) ((pairOutputs um (collectCalls um rows) rows).1, []) (indexed pre) with
  | (cs, us) => (∀ id, cs !! id = emittedCalls um rows pre id) ∧ us = rowUnits um rows pre
  end.
Proof.
  revert post. induction pre as [|row pre IH] using rev_ind; intros post Hrows.
  - cbn. split; [|done]. intros id. rewrite calls_lookup. unfold emittedCalls, emitted. done.
  - rewrite indexed_snoc, foldl_app. cbn [foldl]. rewrite <- (assoc_L (++)) in Hrows. specialize (IH ([row] ++ post) Hrows).
    destruct (foldl _ _ _) as [cs us]. destruct IH as [IHc IHu]. by apply (emitRow_spec um rows pre row post).
Qed.

(** C26. The three passes of the renderer and the streak count compute the declarative
    rendering of the rows in message order: every shown row becomes its own unit by its
    kind ([rowUnit]), the exchange of a call standing at the call's first shown row and
    joining the identity's first call and first output, an unanswerable output kept as an
    orphan; and every tool unit carries the failures of its fingerprint since the last
    success and whether a success follows ([annotate]). *)
Theorem render_is_declarative (unmarshalMetadata : RawMessage → option RawMetadata) (canonicalJSON : string → option string)
    (messages : list MessageRow) :
  let rows := sortRows messages in
  let units := omap (λ p, rowUnit unmarshalMetadata rows p.1 p.2) (indexed rows) in
  Render unmarshalMetadata canonicalJSON messages = imap (annotate canonicalJSON units) units.
Proof.
  intros rows units. unfold Render. fold rows. pose proof (emitted_all unmarshalMetadata rows rows [] (eq_sym (app_nil_r rows))) as Hall.
  destruct (pairOutputs _ _ rows) as [calls orphans]. cbn [fst snd] in Hall. destruct (foldl _ _ _) as [cs us]. destruct Hall as [_ ->]. cbn [snd].
  apply countEvidenceFailures_eq.
Qed.

(** A failing call that is repeated until it succeeds, an output without its call and a
    system row. *)
Definition sampleMetadata (raw : RawMessage) : option RawMetadata :=
  if (raw =? "c1")%string then Some (mkRawMetadata "c1" "exec" "{}" None "")
  else if (raw =? "c2")%string then Some (mkRawMetadata "c2" "exec" "{}" None "")
  else if (raw =? "o1")%string then Some (mkRawMetadata "c1" "exec" "" (Some true) "E1")
  else if (raw =? "o2")%string then Some (mkRawMetadata "c2" "exec" "" (Some false) "")
  else if (raw =? "o3")%string then Some (mkRawMetadata "c9" "exec" "" None "")
  else None.
Definition sampleRows : list MessageRow :=
  [mkMessageRow 6 None RoleSystem ContentTypeText "be brief" ""; mkMessageRow 1 None "user" ContentTypeText " run it " "";
   mkMessageRow 3 None RoleTool ContentTypeFunctionCallOutput "boom" "o1"; mkMessageRow 2 None "assistant" ContentTypeFunctionCall "" "c1";
   mkMessageRow 4 None "assistant" ContentTypeFunctionCall "" "c2"; mkMessageRow 5 None RoleTool ContentTypeFunctionCallOutput "fine" "o2";
   mkMessageRow 7 None RoleTool ContentTypeFunctionCallOutput "lost" "o3"; mkMessageRow 8 None "assistant" ContentTypeReasoning "hm" ""].
Example sample_rendered :
  (λ u, (unit_Kind u, unit_MessageID u, unit_FailureCount u, unit_Recovered u)) <$> Render sampleMetadata (λ _, None) sampleRows =
  [(UnitText, 1, 0, false); (UnitExchange, 2, 1, true); (UnitExchange, 4, 1, true); (UnitOrphanOutput, 7, 0, false)].
Proof. vm_compute. reflexivity. Qed.
