(* ===== verification/Threads.v ===== *)
(** Handlers at work on shared tables, in general.

    A handler is a program: a tree of calls with what follows each answer.  A call is
    one transaction of the database, or a question to the outside; between two calls of
    one handler others may take theirs.  A handler may vanish between two calls.

    [safe] is the predicate transformer that establishes an invariant of the tables for
    every interleaving: what a handler knows about them ([K]) has to survive the steps
    that handlers under other tokens may take ([R]). *)
From S2P Require Import Prelude.

Section Programs.
Context {call : Type → Type}.

Inductive program (A : Type) : Type :=
| Return (a : A)
| Ask {X : Type} (c : call X) (k : X → program A).
Arguments Return {A} a.
Arguments Ask {A X} c k.

Fixpoint bindProg {A B} (p : program A) (f : A → program B) : program B :=
  match p with
  | Return a => f a
  | Ask c k => Ask c (λ x, bindProg (k x) f)
  end.

(** ** Safety *)

Context {State Tok : Type} (perform : ∀ X, call X → State → X → State → Prop).
Context (Inv : State → Prop) (R : Tok → State → State → Prop).

(** What a handler under [T] may know: it survives the steps of the others. *)
Definition stable (T : Tok) (K : State → Prop) : Prop := ∀ T' s s', T' ≠ T → Inv s → R T' s s' → K s → K s'.

Lemma stable_and T K1 K2 : stable T K1 → stable T K2 → stable T (λ s, K1 s ∧ K2 s).
Proof. intros H1 H2 T' s s' HT HI HR [HK1 HK2]. split; [by eapply H1|by eapply H2]. Qed.
Lemma stable_pure T (P : Prop) : stable T (λ _, P).
Proof. by intros T' s s' _ _ _ HP. Qed.
Lemma stable_all {B} T (K : B → State → Prop) : (∀ b, stable T (K b)) → stable T (λ s, ∀ b, K b s).
Proof. intros HK T' s s' HT HI HR Hs b. by eapply HK. Qed.
Lemma stable_impl T (P : Prop) K : (P → stable T K) → stable T (λ s, P → K s).
Proof. intros HK T' s s' HT HI HR Hs HP. apply (HK HP T' s s'); auto. Qed.

(** [Q] holds of the result and of what is known at the end. *)
Fixpoint safe {A} (T : Tok) (Q : A → (State → Prop) → Prop) (K : State → Prop) (p : program A) : Prop :=
  match p with
  | Return a => Q a K
  | Ask c k => ∀ s x s', Inv s → K s → perform _ c s x s' →
      Inv s' ∧ R T s s' ∧ ∃ K', stable T K' ∧ K' s' ∧ safe T Q K' (k x)
  end.

Lemma safe_bind {A B} T (Q : B → (State → Prop) → Prop) (p : program A) (f : A → program B) K :
  safe T (λ a K, safe T Q K (f a)) K p → safe T Q K (bindProg p f).
Proof.
  revert K. induction p as [a|X c k IH]; intros K; cbn; [done|]. intros Hs s x s' HI HK Hp.
  destruct (Hs s x s' HI HK Hp) as (HI' & HR & K' & Hst & HK' & Hk). split_and!; [done..|]. exists K'. split_and!; [done..|]. by apply IH.
Qed.

Lemma safety_mono {A} T (Q Q' : A → (State → Prop) → Prop) (p : program A) K :
  (∀ a K, Q a K → Q' a K) → safe T Q K p → safe T Q' K p.
Proof.
  intros HQ. revert K. induction p as [a|X c k IH]; intros K; cbn; [apply HQ|]. intros Hs s x s' HI HK Hp.
  destruct (Hs s x s' HI HK Hp) as (HI' & HR & K' & Hst & HK' & Hk). split_and!; [done..|]. exists K'. split_and!; [done..|]. by apply IH.
Qed.

(** A call that changes nothing, or only what nobody has to rely on. *)
Lemma safe_quiet {A X} T (Q : A → (State → Prop) → Prop) K (c : call X) (k : X → program A) :
  (∀ s x s', Inv s → K s → perform _ c s x s' → Inv s' ∧ R T s s' ∧ K s') → stable T K →
  (∀ x, safe T Q K (k x)) → safe T Q K (Ask c k).
Proof. intros Hc Hst Hk s x s' HI HK Hp. destruct (Hc s x s' HI HK Hp) as (HI' & HR & HK'). split_and!; [done..|]. by exists K. Qed.

(** ** Triples *)

(** What a program finds, and what is known when it returns. *)
Definition triple {A} (T : Tok) (pre : State → Prop) (p : program A) (post : A → State → Prop) : Prop :=
  safe T (λ a K, ∀ s, K s → post a s) pre p.

Lemma triple_ret {A} T (pre : State → Prop) (a : A) (post : A → State → Prop) : (∀ s, pre s → post a s) → triple T pre (Return a) post.
Proof. done. Qed.
Lemma triple_call {A X} T pre (c : call X) (k : X → program A) mid post :
  (∀ x, stable T (mid x)) → (∀ s x s', Inv s → pre s → perform _ c s x s' → Inv s' ∧ R T s s' ∧ mid x s') →
  (∀ x, triple T (mid x) (k x) post) → triple T pre (Ask c k) post.
Proof. intros Hst Hc Hk s x s' HI HK Hp. destruct (Hc s x s' HI HK Hp) as (HI' & HR & Hm). split_and!; [done..|]. exists (mid x). split_and!; [apply Hst|done|apply Hk]. Qed.
Lemma triple_pre {A} T (pre pre' : State → Prop) (p : program A) post : (∀ s, pre s → pre' s) → triple T pre' p post → triple T pre p post.
Proof. intros Hpre. destruct p as [a|X c k]; cbn; intros Hp; [intros s Hs; by apply Hp, Hpre|]. intros s x s' HI HK. apply Hp; auto. Qed.
Lemma triple_post {A} T pre (p : program A) (post post' : A → State → Prop) : (∀ a s, post a s → post' a s) → triple T pre p post → triple T pre p post'.
Proof. intros Hpost. apply safety_mono. intros a K HQ s Hs. by apply Hpost, HQ. Qed.
Lemma triple_bind {A B} T pre (p : program A) (f : A → program B) mid post :
  triple T pre p mid → (∀ a, triple T (mid a) (f a) post) → triple T pre (bindProg p f) post.
Proof.
  intros Hp Hf. apply safe_bind. eapply safety_mono; [|exact Hp]. intros a K HQ. by eapply triple_pre, Hf.
Qed.
Lemma triple_pure {A} T (pre : State → Prop) (P : Prop) (p : program A) post : (∀ s, pre s → P) → (P → triple T pre p post) → triple T pre p post.
Proof.
  intros HP. destruct p as [a|X c k]; cbn; intros Hp; [intros s Hs; by apply (Hp (HP s Hs))|]. intros s x s' HI HK. by apply (Hp (HP s HK)).
Qed.
(** A call that leaves the tables as they are. *)
Lemma triple_outside {A X} T pre (c : call X) (k : X → program A) post :
  (∀ s x s', perform _ c s x s' → s' = s) → (∀ s, R T s s) → stable T pre → (∀ x, triple T pre (k x) post) → triple T pre (Ask c k) post.
Proof. intros Hc HR Hst Hk. apply (triple_call T pre c k (λ _, pre)); [done| |done]. intros s x s' HI HK ->%Hc. done. Qed.

(** ** The system *)

Record Thread := mkProcess { process_token : Tok; process_prog : program unit }.
Record World := mkWorld { world_state : State; world_threads : gmap nat Thread }.

Context (spawns : State → Tok → program unit → Prop) (elsewhere : State → State → Prop).

Inductive wstep : World → World → Prop :=
| WCall s threads n T X (c : call X) k x s' :
    threads !! n = Some (mkProcess T (Ask c k)) → perform _ c s x s' →
    wstep (mkWorld s threads) (mkWorld s' (<[n := mkProcess T (k x)]> threads))
| WSpawn s threads n T p :
    threads !! n = None → (∀ m th, threads !! m = Some th → process_token th ≠ T) → spawns s T p →
    wstep (mkWorld s threads) (mkWorld s (<[n := mkProcess T p]> threads))
| WCrash s threads n : wstep (mkWorld s threads) (mkWorld s (delete n threads))
| WElsewhere s threads s' : elsewhere s s' → wstep (mkWorld s threads) (mkWorld s' threads).

Record worldInv (w : World) : Prop := mkWorldInv {
  world_inv : Inv (world_state w);
  world_safe : ∀ n th, world_threads w !! n = Some th →
    ∃ K, stable (process_token th) K ∧ K (world_state w) ∧ safe (process_token th) (λ _ _, True) K (process_prog th);
  world_distinct : ∀ n m th th', world_threads w !! n = Some th → world_threads w !! m = Some th' → process_token th = process_token th' → n = m
}.

Context (Hspawn : ∀ s T p, Inv s → spawns s T p → ∃ K, stable T K ∧ K s ∧ safe T (λ _ _, True) K p).
Context (Helsewhere : ∀ s s', Inv s → elsewhere s s' → Inv s' ∧ ∀ T K, stable T K → K s → K s').

Lemma worldInv_step w w' : worldInv w → wstep w w' → worldInv w'.
Proof.
  intros [HI Hs Hd] Hst. destruct Hst as [s threads n T X c k x s' Hn Hp|s threads n T p Hn HT Hsp|s threads n|s threads s' He]; cbn [world_state world_threads] in *.
  - destruct (Hs n _ Hn) as (K & HK & HKs & Hsafe). cbn in *. destruct (Hsafe s x s' HI HKs Hp) as (HI' & HR & K' & HK' & HKs' & Hsafe').
    split; cbn; [done|..].
    + intros m th Hm. rewrite lookup_insert_Some in Hm. destruct Hm as [[<- <-]|[Hne Hm]]; [by exists K'|].
      destruct (Hs m th Hm) as (K2 & HK2 & HKs2 & Hsafe2). exists K2. split_and!; [done| |done].
      apply (HK2 T s s'); [|done..]. intros E. by apply Hne, (Hd n m _ _ Hn Hm).
    + intros m1 m2 th1 th2 H1 H2. rewrite lookup_insert_Some in H1. rewrite lookup_insert_Some in H2.
      destruct H1 as [[<- <-]|[_ H1]], H2 as [[<- <-]|[_ H2]]; cbn; intros E; [done|by apply (Hd n m2 _ _ Hn H2)|by apply (Hd m1 n _ _ H1 Hn)|by eapply Hd].
  - split; cbn; [done|..].
    + intros m th Hm. rewrite lookup_insert_Some in Hm. destruct Hm as [[<- <-]|[Hne Hm]]; [by apply Hspawn|by apply (Hs m)].
    + intros m1 m2 th1 th2 H1 H2. rewrite lookup_insert_Some in H1. rewrite lookup_insert_Some in H2.
      destruct H1 as [[<- <-]|[_ H1]], H2 as [[<- <-]|[_ H2]]; cbn; intros E; [done|by destruct (HT _ _ H2)|by destruct (HT _ _ H1)|by eapply Hd].
  - split; cbn; [done|..].
    + intros m th Hm. apply lookup_delete_Some in Hm as [_ Hm]. by apply (Hs m).
    + intros m1 m2 th1 th2 H1 H2. apply lookup_delete_Some in H1 as [_ H1], H2 as [_ H2]. by eapply Hd.
  - destruct (Helsewhere s s' HI He) as [HI' HK]. split; cbn; [done| |done]. intros m th Hm. destruct (Hs m th Hm) as (K & H1 & H2 & H3).
    exists K. split_and!; [done| |done]. by eapply HK.
Qed.

Lemma worldInv_reachable s w : Inv s → rtc wstep (mkWorld s ∅) w → worldInv w.
Proof.
  intros HI Hr. assert (worldInv (mkWorld s ∅)) as H0 by (split; cbn; [done|intros ? ? Hn; by rewrite lookup_empty in Hn|intros ? ? ? ? Hn; by rewrite lookup_empty in Hn]).
  clear HI. induction Hr as [|w1 w2 w3 Hs Hr IH]; [done|]. by apply IH, (worldInv_step w1).
Qed.

(** ** Handlers one after the other *)

Context (exec : ∀ X, call X → State → X * State).

Fixpoint runAlone {A} (p : program A) (s : State) : A * State :=
  match p with
  | Return a => (a, s)
  | Ask c k => let '(x, s') := exec _ c s in runAlone (k x) s'
  end.

(** The first [n] calls; then the handler vanishes. *)
Fixpoint runFor {A} (n : nat) (p : program A) (s : State) : State :=
  match n, p with
  | Datatypes.S n, Ask c k => let '(x, s') := exec _ c s in runFor n (k x) s'
  | _, _ => s
  end.
Definition runSeries (s : State) (ps : list (Tok * nat * program unit)) : State := foldl (λ s p, runFor p.1.2 p.2 s) s ps.

Context (Hexec : ∀ X (c : call X) s, perform X c s (exec X c s).1 (exec X c s).2).

Lemma runFor_steps n T p s : ∃ p', rtc wstep (mkWorld s {[ 0%nat := mkProcess T p ]}) (mkWorld (runFor n p s) {[ 0%nat := mkProcess T p' ]}).
Proof.
  revert p s. induction n as [|n IH]; intros p s; [by exists p|]. destruct p as [a|X c k]; [by exists (Return a)|]. cbn [runFor].
  pose proof (Hexec X c s) as Hp. destruct (exec X c s) as [x s']. destruct (IH (k x) s') as (p' & Hr). exists p'.
  eapply rtc_l; [by eapply (WCall s _ 0 T X c k x s'); [apply lookup_singleton_eq|]|]. rewrite insert_singleton_eq. exact Hr.
Qed.

Lemma runSeries_reachable s ps : (∀ p, p ∈ ps → ∀ s, spawns s p.1.1 p.2) → rtc wstep (mkWorld s ∅) (mkWorld (runSeries s ps) ∅).
Proof.
  revert s. induction ps as [|[[T n] p] ps IH]; intros s Hs; [done|]. cbn.
  eapply rtc_l; [eapply (WSpawn s ∅ 0 T p); [by rewrite lookup_empty|intros ? ?; by rewrite lookup_empty|by apply (Hs (T, n, p)); left]|].
  destruct (runFor_steps n T p s) as (p' & Hr). rewrite insert_empty. etrans; [exact Hr|].
  eapply rtc_l; [apply (WCrash _ _ 0)|]. rewrite delete_singleton_eq. apply IH. intros q Hq. apply Hs. by right.
Qed.
End Programs.
Arguments program call A : clear implicits.

Declare Scope calls_scope.
Delimit Scope calls_scope with calls.
Notation "'ask' x := c 'in' k" := (Ask _ c (λ x, k)) (at level 10, x pattern, c at level 100, k at level 200) : calls_scope.
Notation "'run' x := p 'in' k" := (bindProg p (λ x, k)) (at level 10, x pattern, p at level 100, k at level 200) : calls_scope.

(** A transaction, when the database answers; or an error before it is committed or
    after. *)
Definition transaction {X State} (answer : X * State) (fail : string → X) (s : State) (x : X) (s' : State) : Prop :=
  (x, s') = answer ∨ ∃ msg, x = fail msg ∧ (s' = s ∨ s' = answer.2).
