(* ===== verification/MemoryDomain.v ===== *)
(** Long-term memories (internal/domain/memory): their rows, scopes and lifecycle
    (memory.go), the policy of an agent (policy.go), the recognition of an explicit
    request to remember (files.go), and the read path of the runtime
    (runtime_service.go) over the keyword index and the repository
    (internal/infrastructure/mysql/memory_repo.go).

    Times are nanoseconds; a nil pointer is [None].  Scores are the finite float64
    values of [Json]; the keyword index is outside of the program, its hits are
    arguments. *)
From Stdlib Require Import Ascii.
From S2P Require Import Prelude GoStr Chat Json.
Open Scope Z_scope.

(** ** Finite float64 comparisons *)

Definition float_ltb (a b : float64) : bool :=
  let e := Z.min (f_exp a) (f_exp b) in f_mant a * 2 ^ (f_exp a - e) <? f_mant b * 2 ^ (f_exp b - e).
Definition float_of_Z (z : Z) : float64 := mkFloat z 0.
(** The constants 0.5 and 0.7, as float64. *)
Definition float_half : float64 := mkFloat 1 (-1).
Definition float_seven_tenths : float64 := mkFloat 3152519739159347 (-52).

(** ** Rows *)

Definition TypeProfile : string := "profile".
Definition TypeEpisodic : string := "episodic".
Definition TypeTask : string := "task".
Definition TypeArchival : string := "archival".
Definition TierShortTerm : string := "short_term".
Definition TierLongTerm : string := "long_term".
Definition ScopeUser : string := "user".
Definition ScopeAgent : string := "agent".
Definition ScopeConversation : string := "conversation".
Definition ScopeProject : string := "project".
Definition StatusActive : string := "active".

(** The columns that the modelled code reads or writes. *)
Record Memory := mkMemory {
  mem_ID : Z;
  mem_OwnerID : Z;
  mem_DeletedAt : option Z;
  mem_HasConflict : bool;
  mem_SourceConversationID : option Z;
  mem_SourceProjectID : option Z;
  mem_ScopeType : string;
  mem_ScopeID : Z;
  mem_Status : string;
  mem_MemoryType : string;
  mem_RetentionTier : string;
  mem_Title : string;
  mem_Content : string;
  mem_Importance : float64;
  mem_UsageCount : Z;
  mem_Source : string;
  mem_DeduplicationKey : option string;
  mem_MetadataJSON : RawMessage;
  mem_LastUsedAt : option Z;
  mem_ExpiresAt : option Z;
  mem_CreatedAt : Z;
  mem_UpdatedAt : Z
}.

Definition ApplyV2Defaults (m : Memory) : Memory :=
  let status := if (mem_Status m =? "")%string then StatusActive else mem_Status m in
  let scope := if (mem_ScopeType m =? "")%string then ScopeUser else mem_ScopeType m in
  let id := if (mem_ScopeID m <=? 0) && (scope =? ScopeUser)%string then mem_OwnerID m else mem_ScopeID m in
  mkMemory (mem_ID m) (mem_OwnerID m) (mem_DeletedAt m) (mem_HasConflict m) (mem_SourceConversationID m) (mem_SourceProjectID m)
    scope id status (mem_MemoryType m) (mem_RetentionTier m) (mem_Title m) (mem_Content m) (mem_Importance m) (mem_UsageCount m)
    (mem_Source m) (mem_DeduplicationKey m) (mem_MetadataJSON m) (mem_LastUsedAt m) (mem_ExpiresAt m) (mem_CreatedAt m) (mem_UpdatedAt m).

Definition IsRecallable (now : Z) (m : Memory) : bool :=
  let status := if (mem_Status m =? "")%string then StatusActive else mem_Status m in
  (status =? StatusActive)%string && bool_decide (mem_DeletedAt m = None) && negb (mem_HasConflict m) &&
  match mem_ExpiresAt m with None => true | Some t => now <? t end.

Definition one_of (s : string) (l : list string) : bool := bool_decide (s ∈ l).

(** The errors of [ResolveScope], by the values their messages show. *)
Inductive ScopeErr :=
| ErrMemoryType (memoryType : string)
| ErrScopeRequired (memoryType : string)
| ErrScopeType (scopeType : string)
| ErrScopeID (scopeType : string).

Definition ResolveScope (memoryType : string) (ownerID agentID projectID conversationID : Z) (requestedType : string) (requestedID : Z)
    : result ScopeErr (string * Z) :=
  let memoryType := TrimSpace memoryType in
  if negb (one_of memoryType [TypeProfile; TypeEpisodic; TypeTask; TypeArchival]) then Err (ErrMemoryType memoryType)
  else
    let scope :=
      let scopeType := TrimSpace requestedType in
      if negb (scopeType =? "")%string then Ok (scopeType, requestedID)
      else if (memoryType =? TypeProfile)%string then Ok (ScopeUser, ownerID)
      else if one_of memoryType [TypeTask; TypeArchival] then
        if 0 <? projectID then Ok (ScopeProject, projectID)
        else if 0 <? conversationID then Ok (ScopeConversation, conversationID)
        else Err (ErrScopeRequired memoryType)
      else if conversationID <=? 0 then Err (ErrScopeRequired memoryType)
      else Ok (ScopeConversation, conversationID) in
    match scope with
    | Err e => Err e
    | Ok (scopeType, scopeID) =>
      if negb (one_of scopeType [ScopeUser; ScopeAgent; ScopeProject; ScopeConversation]) then Err (ErrScopeType scopeType)
      else
        let scopeID :=
          if 0 <? scopeID then scopeID
          else if (scopeType =? ScopeUser)%string then ownerID
          else if (scopeType =? ScopeAgent)%string then agentID
          else if (scopeType =? ScopeProject)%string then projectID
          else conversationID in
        if scopeID <=? 0 then Err (ErrScopeID scopeType) else Ok (scopeType, scopeID)
    end.

(** ** Policies *)

Record Policy := mkPolicy {
  policy_Enabled : option bool;
  policy_RecallEnabled : option bool;
  policy_WriteMode : string;
  policy_TopK : Z;
  policy_TokenBudget : Z
}.
Definition WriteModeSuggest : string := "suggest".
Definition DefaultPolicy : Policy := mkPolicy None (Some true) WriteModeSuggest 8 1200.

Inductive PolicyErr := ErrPolicyJSON (msg : string) | ErrWriteMode (mode : string) | ErrTopK | ErrTokenBudget.

Definition NormalizePolicy (p : Policy) : result PolicyErr Policy :=
  let recall := match policy_RecallEnabled p with None => Some true | r => r end in
  let mode := TrimSpace (policy_WriteMode p) in
  let mode := if (mode =? "")%string then WriteModeSuggest else mode in
  if negb (mode =? WriteModeSuggest)%string then Err (ErrWriteMode mode)
  else
    let topK := if policy_TopK p =? 0 then 8 else policy_TopK p in
    if (topK <? 1) || (20 <? topK) then Err ErrTopK
    else
      let budget := if policy_TokenBudget p =? 0 then 1200 else policy_TokenBudget p in
      if (budget <? 128) || (8192 <? budget) then Err ErrTokenBudget
      else Ok (mkPolicy (policy_Enabled p) recall mode topK budget).

(** [json.Unmarshal] over the default policy: the keys of the text replace its fields. *)
Definition ParsePolicy (unmarshalPolicy : string → Policy → result string Policy) (raw : RawMessage) : result PolicyErr Policy :=
  let trimmed := TrimSpace raw in
  if one_of trimmed [""; "{}"; "null"]%string then Ok DefaultPolicy
  else match unmarshalPolicy trimmed DefaultPolicy with
  | Err e => Err (ErrPolicyJSON e)
  | Ok p => NormalizePolicy p
  end.

Definition RecallActive (p : Policy) (memoryEnabled : bool) : bool :=
  memoryEnabled && match policy_RecallEnabled p with Some b => b | None => false end.

(** ** Explicit requests *)

Section Intent.
Context `{UnicodeTables}.

(** The opening quotes, and what closes each. *)
Definition opensQuote (r : Z) : bool := bool_decide (r ∈ [39; 34; 8216; 8220; 12300; 96]).
Definition closesQuote (quote r : Z) : bool :=
  (r =? quote) || ((quote =? 8220) && (r =? 8221)) || ((quote =? 12300) && (r =? 12301)).

Definition stripRune (st : Z * list Z) (r : Z) : Z * list Z :=
  let '(quote, kept) := st in
  if negb (quote =? 0) then (if closesQuote quote r then 0 else quote, kept)
  else if opensQuote r then (r, kept)
  else (0, kept ++ [r]).
Definition stripQuotedMemoryText (value : string) : string := of_runes (foldl stripRune (0, []) (runes value)).2.

Definition memoryMarkers : list string :=
  ["请记住"; "记住这个"; "记住："; "记住:"; "帮我记住"; "保存为记忆"; "记下来"; "忘记这个"; "忘记该"; "删除记忆"; "忘掉这个"; "更新记忆"; "修改记忆";
   "remember this"; "please remember"; "save this to memory"; "forget this"; "delete this memory"; "update memory"].
Definition memoryPrefixes : list string := ["请"; "请帮我"; "帮我"; "以后"; "从现在起"; "please"; "can you"; "could you"; "ช่วย"].

Definition memoryIntentPrefix (prefix : string) : bool :=
  let prefix := TrimSpace prefix in
  if (prefix =? "")%string then true
  else existsb (λ allowed, (TrimSpace (TrimSuffix prefix allowed) =? "")%string) memoryPrefixes.

Definition HasExplicitMemoryIntent (value : string) : bool :=
  let value := TrimSpace (ToLower value) in
  if (value =? "")%string then false
  else
    let value := stripQuotedMemoryText value in
    existsb (λ marker, match Index value marker with Some index => memoryIntentPrefix (str_take index value) | None => false end) memoryMarkers.
End Intent.

(** ** Reading *)

Record ReadRequest := mkReadRequest {
  read_OwnerID : Z;
  read_ConversationID : option Z;
  read_ProjectID : Z;
  read_AgentID : Z;
  read_RunID : Z;
  read_MemoryTypes : list string;
  read_Query : string;
  read_Limit : Z;
  read_TokenBudget : Z;
  read_AllowLegacyListFallback : bool
}.

Definition matchesLevel (level : string) : bool := one_of level [""; TierShortTerm; TierLongTerm]%string.
Definition matchesType (value : string) (types : list string) : bool :=
  match types with [] => true | _ => existsb (λ t, (value =? TrimSpace t)%string) types end.
Definition matchesScope (item : Memory) (req : ReadRequest) : bool :=
  if (mem_ScopeType item =? ScopeUser)%string then (mem_ScopeID item =? 0) || (mem_ScopeID item =? read_OwnerID req)
  else if (mem_ScopeType item =? ScopeConversation)%string then
    match read_ConversationID req with Some id => mem_ScopeID item =? id | None => false end
  else if (mem_ScopeType item =? ScopeAgent)%string then (0 <? read_AgentID req) && (mem_ScopeID item =? read_AgentID req)
  else if (mem_ScopeType item =? ScopeProject)%string then (0 <? read_ProjectID req) && (mem_ScopeID item =? read_ProjectID req)
  else false.

Definition maxMemoryContentChars : Z := 6000.
Definition set_Content (c : string) (m : Memory) : Memory :=
  mkMemory (mem_ID m) (mem_OwnerID m) (mem_DeletedAt m) (mem_HasConflict m) (mem_SourceConversationID m) (mem_SourceProjectID m)
    (mem_ScopeType m) (mem_ScopeID m) (mem_Status m) (mem_MemoryType m) (mem_RetentionTier m) (mem_Title m) c (mem_Importance m)
    (mem_UsageCount m) (mem_Source m) (mem_DeduplicationKey m) (mem_MetadataJSON m) (mem_LastUsedAt m) (mem_ExpiresAt m) (mem_CreatedAt m)
    (mem_UpdatedAt m).
Definition truncateMemoryContent (content : string) : string :=
  if rune_count content <=? maxMemoryContentChars then content else of_runes (take (Z.to_nat maxMemoryContentChars) (runes content)).

(** A search hit of the index: the id as text, and its score. *)
Record SearchHit := mkSearchHit { hit_ResourceID : string; hit_Score : float64 }.
Record keywordMemoryHit := mkHit { hit_id : Z; hit_score : float64 }.

(** [strconv.ParseInt(s, 10, 64)]: an optional sign, then decimal digits, within int64. *)
Definition parseDigits (l : list ascii) : option Z :=
  match l with
  | [] => None
  | _ => foldl (λ acc c, v ← acc; let d := byte_val c - 48 in if in_range 0 9 d then Some (v * 10 + d) else None) (Some 0) l
  end.
Definition ParseInt (s : string) : option Z :=
  let v := match bytes s with
           | c :: l => if byte_val c =? 45 then Z.opp <$> parseDigits l else if byte_val c =? 43 then parseDigits l else parseDigits (c :: l)
           | [] => None
           end in
  v ← v; if (- 2 ^ 63 <=? v) && (v <? 2 ^ 63) then Some v else None.

(** The order of the hits: higher scores first, then lower ids. *)
Definition hitBefore (a b : keywordMemoryHit) : bool :=
  if float_ltb (hit_score b) (hit_score a) || float_ltb (hit_score a) (hit_score b) then float_ltb (hit_score b) (hit_score a)
  else hit_id a <? hit_id b.

Definition rankKeywordMemoryHits (hits : list SearchHit) : list keywordMemoryHit :=
  sort_stable hitBefore (omap (λ h, match ParseInt (TrimSpace (hit_ResourceID h)) with
                                    | Some id => if id <=? 0 then None else Some (mkHit id (hit_Score h))
                                    | None => None
                                    end) hits).

Section Read.
Context `{UnicodeTables}.

Definition normalizeMemoryText (value : string) : string := ToLower (Join (Fields value) " ").

Definition readable (now : Z) (req : ReadRequest) (item : Memory) : bool :=
  IsRecallable now item && matchesLevel (mem_RetentionTier item) && matchesType (mem_MemoryType item) (read_MemoryTypes req) && matchesScope item req.
Definition sourceKey (item : Memory) : string := default ""%string (TrimSpace <$> mem_DeduplicationKey item).

Record hydration := mkHydration {
  hy_items : list Memory;
  hy_ids : list Z;
  hy_contents : list string;
  hy_sources : list string
}.

(** One hit; the loop ends when [limit] items are found. *)
Definition hydrateHit (now : Z) (req : ReadRequest) (byID : gmap Z Memory) (limit : Z) (st : hydration) (hit : keywordMemoryHit) : hydration :=
  if zlen (hy_items st) =? limit then st
  else if bool_decide (hit_id hit ∈ hy_ids st) then st
  else match byID !! hit_id hit with
  | None => st
  | Some item =>
    if negb (mem_OwnerID item =? read_OwnerID req) then st
    else if negb (readable now req item) then st
    else
      let contentKey := normalizeMemoryText (mem_Content item) in
      let source := sourceKey item in
      if one_of contentKey (hy_contents st) || (negb (source =? "")%string && one_of source (hy_sources st)) then st
      else mkHydration (hy_items st ++ [set_Content (truncateMemoryContent (mem_Content item)) item]) (hit_id hit :: hy_ids st)
             (contentKey :: hy_contents st) (if (source =? "")%string then hy_sources st else source :: hy_sources st)
  end.

(** The map of the rows: the last row of an id stands. *)
Definition rowsByID (rows : list Memory) : gmap Z Memory := foldl (λ m row, <[mem_ID row := row]> m) ∅ rows.

Definition hydrateKeywordMemories (now : Z) (req : ReadRequest) (rows : list Memory) (ranked : list keywordMemoryHit) (limit : Z) : list Memory :=
  hy_items (foldl (hydrateHit now req (rowsByID rows) limit) (mkHydration [] [] [] []) ranked).

Definition readLimit (limit : Z) : Z := if limit <=? 0 then 5 else if 20 <? limit then 20 else limit.

Definition filterReadableMemories (now : Z) (req : ReadRequest) (items : list Memory) : list Memory := filter (λ m, readable now req m = true) items.

Definition recallCost (text : string) : Z := Z.max 1 (rune_count text `quot` 4).
Fixpoint trimFrom (used budget : Z) (items : list Memory) : list Memory :=
  match items with
  | [] => []
  | item :: rest =>
    let cost := recallCost (mem_Title item ++ " " ++ mem_Content item)%string in
    if budget <? used + cost then [] else item :: trimFrom (used + cost) budget rest
  end.
Definition trimMemoriesToTokenBudget (items : list Memory) (budget : Z) : list Memory := if budget <=? 0 then items else trimFrom 0 budget items.

(** The tables that a read touches, the faults of their queries, and what the service is
    configured with; [mark] and [log] are the faults of the writes that follow. *)
Record RecallLog := mkRecallLog {
  log_OwnerID : Z;
  log_AgentID : Z;
  log_ConversationID : Z;
  log_RunID : Z;
  log_Query : string;
  log_CandidateJSON : RawMessage;
  log_InjectedJSON : RawMessage;
  log_TokenCost : Z
}.
Record MemoryStore := mkMemoryStore { store_rows : list Memory; store_logs : list RecallLog }.
Record ReadFaults := mkReadFaults { fault_find : option string; fault_list : option string; fault_mark : option string; fault_log : option string }.

(** The fields of a search that do not depend on the configuration. *)
Record SearchRequest := mkSearchRequest {
  search_OwnerID : Z;
  search_AgentID : Z;
  search_ProjectID : Z;
  search_ConversationID : Z;
  search_ResourceTypes : list string;
  search_Query : string;
  search_Mode : string;
  search_TopK : Z
}.
Definition TypeLongTermMemory : string := "long_term_memory".
Record RuntimeService := mkRuntimeService {
  rs_Memories : bool;
  rs_ContextIndex : option (SearchRequest → result string (list SearchHit));
  rs_AgentID : Z;
  rs_RecallLogs : bool
}.

Definition FindByIDs (fault : option string) (ownerID : Z) (ids : list Z) (store : MemoryStore) : result string (list Memory) :=
  match ids, fault with
  | [], _ => Ok []
  | _, Some e => Err e
  | _, None => Ok (filter (λ m, mem_OwnerID m = ownerID ∧ mem_ID m ∈ ids ∧ mem_DeletedAt m = None) (store_rows store))
  end.

Definition markUsed (now : Z) (m : Memory) : Memory :=
  mkMemory (mem_ID m) (mem_OwnerID m) (mem_DeletedAt m) (mem_HasConflict m) (mem_SourceConversationID m) (mem_SourceProjectID m)
    (mem_ScopeType m) (mem_ScopeID m) (mem_Status m) (mem_MemoryType m) (mem_RetentionTier m) (mem_Title m) (mem_Content m) (mem_Importance m)
    (mem_UsageCount m + 1) (mem_Source m) (mem_DeduplicationKey m) (mem_MetadataJSON m) (Some now) (mem_ExpiresAt m) (mem_CreatedAt m) now.
Definition MarkUsed (fault : option string) (now ownerID : Z) (ids : list Z) (store : MemoryStore) : option string * MemoryStore :=
  match ids, fault with
  | [], _ => (None, store)
  | _, Some e => (Some e, store)
  | _, None =>
    (None, mkMemoryStore ((λ m, if bool_decide (mem_OwnerID m = ownerID ∧ mem_ID m ∈ ids ∧ mem_DeletedAt m = None ∧ mem_Status m = StatusActive)
                                then markUsed now m else m) <$> store_rows store) (store_logs store))
  end.

(** The scope clause of a listing: with a project, the user's, the project's, the
    conversation's and the agent's rows; without one, no project's. *)
Definition listedScope (ownerID agentID : Z) (conversationID projectID : option Z) (m : Memory) : bool :=
  let scoped scope id := (mem_ScopeType m =? scope)%string && (mem_ScopeID m =? id) in
  let common := (scoped ScopeUser ownerID || scoped ScopeUser 0) || ((0 <? agentID) && scoped ScopeAgent agentID) in
  match projectID with
  | Some p => if 0 <? p then common || scoped ScopeProject p || scoped ScopeConversation (default 0 conversationID)
              else common || match conversationID with Some c => (0 <? c) && scoped ScopeConversation c | None => false end
  | None => common || match conversationID with Some c => (0 <? c) && scoped ScopeConversation c | None => false end
  end.
(** By importance, then the time of the last update, then id, all descending. *)
Definition listedBefore (a b : Memory) : bool :=
  if float_ltb (mem_Importance b) (mem_Importance a) then true
  else if float_ltb (mem_Importance a) (mem_Importance b) then false
  else if mem_UpdatedAt b =? mem_UpdatedAt a then mem_ID b <? mem_ID a
  else mem_UpdatedAt b <? mem_UpdatedAt a.
Definition listForRead (now ownerID agentID : Z) (memoryTypes : list string) (conversationID projectID : option Z) (limit : Z) (store : MemoryStore)
    : list Memory :=
  let listed m :=
    (mem_OwnerID m =? ownerID) && bool_decide (mem_DeletedAt m = None) && (mem_Status m =? StatusActive)%string && negb (mem_HasConflict m) &&
    match mem_ExpiresAt m with None => true | Some t => now <? t end &&
    match memoryTypes with [] => true | _ => one_of (mem_MemoryType m) memoryTypes end && listedScope ownerID agentID conversationID projectID m in
  let limit := if (limit <=? 0) || (20 <? limit) then 5 else limit in
  take (Z.to_nat limit) (sort_stable listedBefore (filter (λ m, listed m = true) (store_rows store))).
Definition ListForRead (now ownerID : Z) (memoryTypes : list string) (conversationID : option Z) (limit : Z) (store : MemoryStore) : list Memory :=
  listForRead now ownerID 0 memoryTypes conversationID None limit store.
Definition ListForReadScoped (now ownerID agentID : Z) (memoryTypes : list string) (conversationID projectID : option Z) (limit : Z) (store : MemoryStore)
    : list Memory :=
  listForRead now ownerID agentID memoryTypes conversationID projectID limit store.

Record RecallDetail := mkRecallDetail {
  detail_MemoryID : Z;
  detail_Source : string;
  detail_ScopeType : string;
  detail_ScopeID : Z;
  detail_Score : float64;
  detail_Reason : string;
  detail_TokenCost : Z
}.
Record ReadResult := mkReadResult {
  rr_Memories : list Memory;
  rr_MemoryContext : string;
  rr_Count : Z;
  rr_Query : string;
  rr_RecallDetails : list RecallDetail
}.

Inductive ReadErr :=
| ErrNoRepository
| ErrQueryRequired
| ErrNoIndex
| ErrIndex (msg : string)
| ErrHydrate (msg : string)
| ErrList (msg : string)
| ErrMarkUsed (msg : string)
| ErrMarshal (msg : string)
| ErrRecallLog (msg : string).

(** [encoding/json]: the scores and the details. *)
Context (marshalScores : gmap Z float64 → result string RawMessage) (marshalDetails : list RecallDetail → result string RawMessage).

Definition recallDetail (scores : gmap Z float64) (reason : string) (item : Memory) : RecallDetail :=
  mkRecallDetail (mem_ID item) (mem_Source item) (mem_ScopeType item) (mem_ScopeID item) (default (float_of_Z 0) (scores !! mem_ID item)) reason
    (recallCost (mem_Content item)).

(** The rows are marked as used, and the recall is recorded. *)
Definition readResult (now : Z) (svc : RuntimeService) (faults : ReadFaults) (req : ReadRequest) (items : list Memory) (query : string)
    (scores : gmap Z float64) (reason : string) (store : MemoryStore) : result ReadErr ReadResult * MemoryStore :=
  let details := recallDetail scores reason <$> items in
  match MarkUsed (fault_mark faults) now (read_OwnerID req) (mem_ID <$> items) store with
  | (Some e, store) => (Err (ErrMarkUsed e), store)
  | (None, store) =>
    let result := mkReadResult items (Join (mem_Content <$> items) (of_bytes [byte_of 10])) (zlen items) query details in
    if negb (rs_RecallLogs svc) then (Ok result, store)
    else match marshalScores scores, marshalDetails details with
    | Err e, _ | _, Err e => (Err (ErrMarshal e), store)
    | Ok candidateJSON, Ok injectedJSON =>
      match fault_log faults with
      | Some e => (Err (ErrRecallLog e), store)
      | None =>
        let log := mkRecallLog (read_OwnerID req) (read_AgentID req) (default 0 (read_ConversationID req)) (read_RunID req) query candidateJSON injectedJSON
                     (foldr Z.add 0 (detail_TokenCost <$> details)) in
        (Ok result, mkMemoryStore (store_rows store) (store_logs store ++ [log]))
      end
    end
  end.

Definition keywordSearch (svc : RuntimeService) (req : ReadRequest) (query : string) (limit : Z) : SearchRequest :=
  mkSearchRequest (read_OwnerID req) (if read_AgentID req <=? 0 then rs_AgentID svc else read_AgentID req) (read_ProjectID req)
    (default 0 (read_ConversationID req)) [TypeLongTermMemory] query "keyword" (limit * 2).

(** The last score of an id stands. *)
Definition hitScores (ranked : list keywordMemoryHit) : gmap Z float64 := foldl (λ m hit, <[hit_id hit := hit_score hit]> m) ∅ ranked.

(** The index is asked, and its hits are hydrated from the table. *)
Definition readKeywordMemory (now : Z) (svc : RuntimeService) (faults : ReadFaults) (req : ReadRequest) (query : string) (limit : Z) (store : MemoryStore)
    : result ReadErr ReadResult * MemoryStore :=
  match rs_ContextIndex svc with
  | None => (Err ErrNoIndex, store)
  | Some search =>
    match search (keywordSearch svc req query limit) with
    | Err e => (Err (ErrIndex e), store)
    | Ok hits =>
      let ranked := rankKeywordMemoryHits hits in
      match FindByIDs (fault_find faults) (read_OwnerID req) (hit_id <$> ranked) store with
      | Err e => (Err (ErrHydrate e), store)
      | Ok rows =>
        readResult now svc faults req (hydrateKeywordMemories now req rows ranked limit) query (hitScores ranked) "unified_context_index" store
      end
    end
  end.

(** [Read]: the keyword path, or the list of maintenance callers. *)
Definition Read (now : Z) (svc : RuntimeService) (faults : ReadFaults) (req : ReadRequest) (store : MemoryStore) : result ReadErr ReadResult * MemoryStore :=
  if negb (rs_Memories svc) then (Err ErrNoRepository, store)
  else
    let limit := readLimit (read_Limit req) in
    let query := TrimSpace (read_Query req) in
    if (query =? "")%string && negb (read_AllowLegacyListFallback req) then (Err ErrQueryRequired, store)
    else if negb (query =? "")%string then readKeywordMemory now svc faults req query limit store
    else match fault_list faults with
    | Some e => (Err (ErrList e), store)
    | None =>
      let listed :=
        if 0 <? read_ProjectID req
        then ListForReadScoped now (read_OwnerID req) (read_AgentID req) (read_MemoryTypes req) (read_ConversationID req) (Some (read_ProjectID req)) limit store
        else ListForRead now (read_OwnerID req) (read_MemoryTypes req) (read_ConversationID req) limit store in
      let items := filterReadableMemories now req listed in
      readResult now svc faults req (trimMemoriesToTokenBudget items (read_TokenBudget req)) query ∅ "legacy_list" store
    end.
End Read.

(** ** Scopes *)

(** A scope that [ResolveScope] gives is one of the four kinds with a positive id; an
    explicit request is kept, kind and positive id alike; and it is given for the four
    types of memory only. *)
Theorem resolved_scope_valid (memoryType : string) (ownerID agentID projectID conversationID : Z) (requestedType : string) (requestedID : Z)
    (scopeType : string) (scopeID : Z) :
  ResolveScope memoryType ownerID agentID projectID conversationID requestedType requestedID = Ok (scopeType, scopeID) →
  TrimSpace memoryType ∈ [TypeProfile; TypeEpisodic; TypeTask; TypeArchival] ∧
  scopeType ∈ [ScopeUser; ScopeAgent; ScopeProject; ScopeConversation] ∧ 0 < scopeID ∧
  (TrimSpace requestedType ≠ ""%string → scopeType = TrimSpace requestedType ∧ (0 < requestedID → scopeID = requestedID)) ∧
  (scopeID ∈ [requestedID; ownerID; agentID; projectID; conversationID]).
Proof.
  unfold ResolveScope, one_of. intros Hr. case_bool_decide as Ht; cbn [negb] in Hr; [|done]. split; [done|].
  set (scope := if negb (TrimSpace requestedType =? "")%string then _ else _) in Hr.
  assert (∀ t i, scope = Ok (t, i) → (TrimSpace requestedType ≠ ""%string → t = TrimSpace requestedType ∧ i = requestedID) ∧
            i ∈ [requestedID; ownerID; agentID; projectID; conversationID]) as Hscope.
  { subst scope. intros t i. destruct (String.eqb_spec (TrimSpace requestedType) ""); cbn [negb].
    - repeat case_match; intros [= <- <-]; (split; [done|set_solver]).
    - intros [= <- <-]. split; [done|set_solver]. }
  destruct scope as [[t i]|]; [|done]. destruct (Hscope t i eq_refl) as [Hreq Hin]. case_bool_decide as Hk; cbn [negb] in Hr; [|done].
  set (id := if 0 <? i then i else _) in Hr. destruct (id <=? 0) eqn:Hid; [done|]. injection Hr as <- <-. bool_prop.
  split_and!; [done|done| |].
  - intros Hne. destruct (Hreq Hne) as [-> ->]. split; [done|]. intros Hpos. subst id. by rewrite (proj2 (Z.ltb_lt _ _) Hpos).
  - subst id. repeat case_match; set_solver.
Qed.

Lemma resolved_scope_valid_witness : ResolveScope TypeTask 3 0 0 12 "" 0 = Ok (ScopeConversation, 12) ∧ 0 < 12.
Proof.
  assert (ResolveScope TypeTask 3 0 0 12 "" 0 = Ok (ScopeConversation, 12)) as E by (vm_compute; reflexivity).
  split; [exact E|]. exact (proj1 (proj2 (proj2 (resolved_scope_valid TypeTask 3 0 0 12 "" 0 ScopeConversation 12 E)))).
Defined.

(** A policy that was normalized is within its limits and is a fixed point. *)
Lemma NormalizePolicy_ok p q : NormalizePolicy p = Ok q →
  1 ≤ policy_TopK q ≤ 20 ∧ 128 ≤ policy_TokenBudget q ≤ 8192 ∧ policy_WriteMode q = WriteModeSuggest ∧ is_Some (policy_RecallEnabled q) ∧ NormalizePolicy q = Ok q.
Proof.
  unfold NormalizePolicy. set (mode := if (TrimSpace _ =? "")%string then _ else _). set (k := if policy_TopK p =? 0 then _ else _).
  set (b := if policy_TokenBudget p =? 0 then _ else _). destruct (String.eqb_spec mode WriteModeSuggest) as [Em|]; cbn [negb]; [|done].
  destruct ((k <? 1) || (20 <? k)) eqn:Ek; [done|]. destruct ((b <? 128) || (8192 <? b)) eqn:Eb; [done|]. intros [= <-]. bool_prop. cbn [policy_TopK policy_TokenBudget policy_WriteMode policy_RecallEnabled policy_Enabled].
  split_and!; [lia..|done|by destruct (policy_RecallEnabled p)|]. rewrite Em.
  assert ((k =? 0) = false) as -> by (apply Z.eqb_neq; lia). assert ((b =? 0) = false) as -> by (apply Z.eqb_neq; lia).
  change (TrimSpace WriteModeSuggest) with WriteModeSuggest. cbn [String.eqb negb].
  rewrite (proj2 (Z.ltb_ge k 1)), (proj2 (Z.ltb_ge 20 k)), (proj2 (Z.ltb_ge b 128)), (proj2 (Z.ltb_ge 8192 b)) by lia.
  cbn. by destruct (policy_RecallEnabled p).
Qed.

(** ** Reading *)

(** What a request may see, column by column. *)
Definition inScope (req : ReadRequest) (m : Memory) : Prop :=
  (mem_ScopeType m = "user"%string ∧ (mem_ScopeID m = 0 ∨ mem_ScopeID m = read_OwnerID req)) ∨
  (mem_ScopeType m = "conversation"%string ∧ read_ConversationID req = Some (mem_ScopeID m)) ∨
  (mem_ScopeType m = "agent"%string ∧ 0 < mem_ScopeID m ∧ mem_ScopeID m = read_AgentID req) ∨
  (mem_ScopeType m = "project"%string ∧ 0 < mem_ScopeID m ∧ mem_ScopeID m = read_ProjectID req).
Definition visible (now : Z) (req : ReadRequest) (m : Memory) : Prop :=
  mem_OwnerID m = read_OwnerID req ∧ mem_DeletedAt m = None ∧ mem_Status m ∈ [""; "active"]%string ∧ mem_HasConflict m = false ∧
  (∀ t, mem_ExpiresAt m = Some t → now < t) ∧ mem_RetentionTier m ∈ [""; "short_term"; "long_term"]%string ∧
  (read_MemoryTypes req = [] ∨ mem_MemoryType m ∈ TrimSpace <$> read_MemoryTypes req) ∧ inScope req m.

Lemma matchesScope_iff m req : matchesScope m req = true ↔ inScope req m.
Proof.
  unfold matchesScope, inScope, ScopeUser, ScopeConversation, ScopeAgent, ScopeProject.
  destruct (String.eqb_spec (mem_ScopeType m) "user") as [->|]; [rewrite orb_true_iff, !Z.eqb_eq; naive_solver|].
  destruct (String.eqb_spec (mem_ScopeType m) "conversation") as [->|]; [destruct (read_ConversationID req); rewrite ?Z.eqb_eq; naive_solver|].
  destruct (String.eqb_spec (mem_ScopeType m) "agent") as [->|]; [rewrite andb_true_iff, Z.ltb_lt, Z.eqb_eq; naive_solver lia|].
  destruct (String.eqb_spec (mem_ScopeType m) "project") as [->|]; [rewrite andb_true_iff, Z.ltb_lt, Z.eqb_eq; naive_solver lia|].
  naive_solver.
Qed.

Lemma matchesType_iff value types : matchesType value types = true ↔ types = [] ∨ value ∈ TrimSpace <$> types.
Proof.
  unfold matchesType. destruct types as [|t ts]; [naive_solver|]. rewrite existsb_exists. split.
  - intros (x & Hx & E%String.eqb_eq). right. apply list_elem_of_fmap. exists x. split; [done|]. by apply list_elem_of_In.
  - intros [?|(x & -> & Hx)%list_elem_of_fmap]; [done|]. exists x. split; [by apply list_elem_of_In|apply String.eqb_refl].
Qed.

Lemma IsRecallable_iff now m : IsRecallable now m = true ↔
  mem_DeletedAt m = None ∧ mem_Status m ∈ [""; "active"]%string ∧ mem_HasConflict m = false ∧ (∀ t, mem_ExpiresAt m = Some t → now < t).
Proof.
  unfold IsRecallable, StatusActive. rewrite !andb_true_iff, bool_decide_eq_true, negb_true_iff, !elem_of_cons, elem_of_nil.
  assert (((if (mem_Status m =? "")%string then "active" else mem_Status m)%string =? "active")%string = true ↔
          mem_Status m = ""%string ∨ mem_Status m = "active"%string ∨ False) as ->.
  { destruct (String.eqb_spec (mem_Status m) "") as [->|]; [naive_solver|]. rewrite String.eqb_eq. naive_solver. }
  assert ((match mem_ExpiresAt m with None => true | Some t => now <? t end) = true ↔ (∀ t, mem_ExpiresAt m = Some t → now < t)) as ->.
  { destruct (mem_ExpiresAt m); rewrite ?Z.ltb_lt; naive_solver. }
  tauto.
Qed.

Lemma readable_visible now req m : mem_OwnerID m = read_OwnerID req → readable now req m = true ↔ visible now req m.
Proof.
  intros Ho. unfold readable, visible, matchesLevel, one_of, TierShortTerm, TierLongTerm.
  rewrite !andb_true_iff, IsRecallable_iff, bool_decide_eq_true, matchesType_iff, matchesScope_iff. tauto.
Qed.

Section Read_lemmas.
Context `{UnicodeTables}.

Definition truncated (m : Memory) : Memory := set_Content (truncateMemoryContent (mem_Content m)) m.

(** Two rows that a result holds only one of: the same id, the same text up to case and
    spacing, or the same nonblank deduplication key. *)
Definition repeats (a b : Memory) : Prop :=
  mem_ID a = mem_ID b ∨ normalizeMemoryText (mem_Content a) = normalizeMemoryText (mem_Content b) ∨
  (∃ k, k ≠ ""%string ∧ TrimSpace <$> mem_DeduplicationKey a = Some k ∧ TrimSpace <$> mem_DeduplicationKey b = Some k).

Lemma sourceKey_Some k m : k ≠ ""%string → sourceKey m = k ↔ TrimSpace <$> mem_DeduplicationKey m = Some k.
Proof. unfold sourceKey. destruct (mem_DeduplicationKey m); naive_solver. Qed.

Context (now : Z) (req : ReadRequest) (byID : gmap Z Memory) (limit : Z).

(** The items found among the hits [seen] are the truncations of [rows]; the hits of
    [front] were looked at, those of [back] come after the limit was reached. *)
Record hydrated (seen : list keywordMemoryHit) (st : hydration) (rows : list Memory) (front back : list keywordMemoryHit) : Prop := mkHydrated {
  hyd_items : hy_items st = truncated <$> rows;
  hyd_ids : ∀ id, id ∈ hy_ids st ↔ id ∈ mem_ID <$> rows;
  hyd_contents : ∀ c, c ∈ hy_contents st ↔ c ∈ (normalizeMemoryText ∘ mem_Content) <$> rows;
  hyd_sources : ∀ k, k ∈ hy_sources st ↔ k ≠ ""%string ∧ k ∈ sourceKey <$> rows;
  hyd_ok : Forall (λ m, byID !! mem_ID m = Some m ∧ visible now req m) rows;
  hyd_distinct : ∀ i j a b, rows !! i = Some a → rows !! j = Some b → repeats a b → i = j;
  hyd_split : seen = front ++ back;
  hyd_order : (mem_ID <$> rows) `sublist_of` (hit_id <$> front);
  hyd_cover : ∀ hit m, hit ∈ front → byID !! hit_id hit = Some m → visible now req m → ∃ m', m' ∈ rows ∧ repeats m' m;
  hyd_full : back = [] ∨ zlen rows = limit;
  hyd_limit : zlen rows ≤ limit
}.

Lemma repeats_sym a b : repeats a b → repeats b a.
Proof. unfold repeats. naive_solver. Qed.

Lemma distinct_snoc rows item : (∀ i j a b, rows !! i = Some a → rows !! j = Some b → repeats a b → i = j) →
  (∀ m, m ∈ rows → ¬ repeats m item) → ∀ i j a b, (rows ++ [item]) !! i = Some a → (rows ++ [item]) !! j = Some b → repeats a b → i = j.
Proof.
  intros Hd Hnew i j a b Ha Hb Hr. apply lookup_app_Some in Ha as [Ha|[Hi Ha]]; apply lookup_app_Some in Hb as [Hb|[Hj Hb]].
  - by eapply Hd.
  - apply list_lookup_singleton_Some in Hb as [_ <-]. destruct (Hnew a); [by eapply list_elem_of_lookup_2|done].
  - apply list_lookup_singleton_Some in Ha as [_ <-]. destruct (Hnew b); [by eapply list_elem_of_lookup_2|by apply repeats_sym].
  - apply list_lookup_singleton_Some in Ha as [? _], Hb as [? _]. lia.
Qed.

(** A hit that adds nothing. *)
Lemma hydrated_skip seen st rows front hit : hydrated seen st rows front [] →
  (∀ m, byID !! hit_id hit = Some m → visible now req m → ∃ m', m' ∈ rows ∧ repeats m' m) → hydrated (seen ++ [hit]) st rows (front ++ [hit]) [].
Proof.
  intros [] Hc. split; try done; [by subst seen; rewrite !app_nil_r|rewrite fmap_app; by apply sublist_inserts_r|].
  intros h m [Hh|Hh%list_elem_of_singleton]%elem_of_app Hm Hv; [|subst h]; [by eapply hyd_cover0|by apply Hc].
Qed.

(** A hit whose row is new. *)
Lemma hydrated_add seen st rows front hit item : hydrated seen st rows front [] → zlen rows ≠ limit →
  byID !! hit_id hit = Some item → mem_ID item = hit_id hit → visible now req item → (∀ m, m ∈ rows → ¬ repeats m item) →
  hydrated (seen ++ [hit]) (mkHydration (hy_items st ++ [truncated item]) (hit_id hit :: hy_ids st) (normalizeMemoryText (mem_Content item) :: hy_contents st)
             (if (sourceKey item =? "")%string then hy_sources st else sourceKey item :: hy_sources st)) (rows ++ [item]) (front ++ [hit]) [].
Proof.
  intros [] Hl Hi Hid Hv Hnew. split; cbn [hy_items hy_ids hy_contents hy_sources].
  - by rewrite hyd_items0, fmap_app.
  - intros id. rewrite fmap_app, elem_of_app, elem_of_cons, hyd_ids0. cbn. rewrite list_elem_of_singleton, Hid. naive_solver.
  - intros c. rewrite fmap_app, elem_of_app, elem_of_cons, hyd_contents0. cbn. rewrite list_elem_of_singleton. naive_solver.
  - intros k. rewrite fmap_app, elem_of_app. cbn. rewrite list_elem_of_singleton.
    destruct (String.eqb_spec (sourceKey item) ""); rewrite ?elem_of_cons, hyd_sources0; naive_solver.
  - apply Forall_app. split; [done|]. constructor; [|done]. by rewrite Hid.
  - by apply distinct_snoc.
  - subst seen. by rewrite !app_nil_r.
  - rewrite !fmap_app. apply sublist_app; [done|]. cbn. by rewrite Hid.
  - intros h m [Hh|Hh%list_elem_of_singleton]%elem_of_app Hm Hvm.
    + destruct (hyd_cover0 h m Hh Hm Hvm) as (m' & ? & ?). exists m'. split; [set_solver|done].
    + subst h. simplify_eq. eexists. split; [|by left]; set_solver.
  - by left.
  - unfold zlen in *. rewrite length_app. cbn. lia.
Qed.

(** What the three sets of the loop say of a row that is not skipped. *)
Lemma not_seen st rows seen front back item : hydrated seen st rows front back →
  mem_ID item ∉ hy_ids st → normalizeMemoryText (mem_Content item) ∉ hy_contents st → (sourceKey item ≠ ""%string → sourceKey item ∉ hy_sources st) →
  ∀ m, m ∈ rows → ¬ repeats m item.
Proof.
  intros [] H1 H2 H3 m Hm [E|[E|(k & Hk & E1%sourceKey_Some & E2%sourceKey_Some)]]; [| | |done..].
  - apply H1, hyd_ids0, list_elem_of_fmap. by exists m.
  - apply H2, hyd_contents0, list_elem_of_fmap. exists m. by rewrite <- E.
  - subst k. apply H3; [by rewrite E2|]. apply hyd_sources0. rewrite E2. split; [done|]. apply list_elem_of_fmap. by exists m.
Qed.

Lemma hydrated_step seen st rows front back hit : (∀ id m, byID !! id = Some m → mem_ID m = id) → hydrated seen st rows front back →
  ∃ rows' front' back', hydrated (seen ++ [hit]) (hydrateHit now req byID limit st hit) rows' front' back'.
Proof.
  intros Hkey Hh. unfold hydrateHit. pose proof Hh as [H1 H2 H3 H4 _ _ H7 H8 H9 H10 H11].
  assert (zlen (hy_items st) = zlen rows) as Hz by (unfold zlen; by rewrite H1, length_fmap). rewrite Hz.
  destruct (Z.eqb_spec (zlen rows) limit) as [Hl|Hl].
  { exists rows, front, (back ++ [hit]). destruct Hh. split; try done; [by subst seen; rewrite app_assoc|by right]. }
  destruct H10 as [->|]; [|done]. pose proof (hydrated_skip _ _ _ _ hit Hh) as Hskip.
  case_bool_decide as Hs.
  { exists rows, (front ++ [hit]), []. apply Hskip. intros m Hm _. apply H2, list_elem_of_fmap in Hs as (m' & E & ?). exists m'. split; [done|].
    left. by rewrite <- E, (Hkey _ _ Hm). }
  destruct (byID !! hit_id hit) as [item|] eqn:Hi; [|exists rows, (front ++ [hit]), []; by apply Hskip]. pose proof (Hkey _ _ Hi) as Hid.
  destruct (Z.eqb_spec (mem_OwnerID item) (read_OwnerID req)) as [Ho|Ho]; cbn [negb]; [|exists rows, (front ++ [hit]), []; apply Hskip; by intros m [= <-] [? _]].
  pose proof (readable_visible now req item Ho) as Hv.
  destruct (readable now req item); cbn [negb]; [|exists rows, (front ++ [hit]), []; apply Hskip; intros m [= <-] ?%Hv; done].
  unfold one_of. case_bool_decide as Hc; cbn [orb].
  { exists rows, (front ++ [hit]), []. apply Hskip. intros m [= <-] _. apply H3, list_elem_of_fmap in Hc as (m' & E & ?). exists m'. split; [done|]. by right; left. }
  destruct (negb (sourceKey item =? "")%string && _) eqn:Hk.
  { exists rows, (front ++ [hit]), []. apply Hskip. intros m [= <-] _. apply andb_true_iff in Hk as [Hne%negb_true_iff%String.eqb_neq Hk%bool_decide_eq_true].
    apply H4 in Hk as [_ (m' & E & ?)%list_elem_of_fmap]. exists m'. split; [done|]. right; right. exists (sourceKey item).
    rewrite <- !sourceKey_Some; done. }
  exists (rows ++ [item]), (front ++ [hit]), []. apply hydrated_add; try done; [by apply Hv|]. eapply not_seen; [done|by rewrite Hid|done|].
  intros Hne. rewrite (proj2 (String.eqb_neq _ _) Hne) in Hk. cbn in Hk. by apply bool_decide_eq_false in Hk.
Qed.

Lemma hydrated_all hits : (∀ id m, byID !! id = Some m → mem_ID m = id) → 0 ≤ limit →
  ∃ rows front back, hydrated hits (foldl (hydrateHit now req byID limit) (mkHydration [] [] [] []) hits) rows front back.
Proof.
  intros Hkey Hl. induction hits as [|hit hits (rows & front & back & IH)] using rev_ind.
  - exists [], [], []. split; cbn; try done; try (by left); set_solver.
  - rewrite foldl_app. cbn [foldl]. by eapply hydrated_step.
Qed.
End Read_lemmas.

Lemma rowsByID_lookup rows id m : rowsByID rows !! id = Some m → mem_ID m = id ∧ m ∈ rows.
Proof.
  unfold rowsByID. induction rows as [|row rows IH] using rev_ind; [done|]. rewrite foldl_app. cbn [foldl].
  rewrite lookup_insert_Some. intros [[<- <-]|[_ Hl]]; [set_solver|]. destruct (IH Hl). set_solver.
Qed.

Lemma rowsByID_present rows m : NoDup (mem_ID <$> rows) → m ∈ rows → rowsByID rows !! mem_ID m = Some m.
Proof.
  unfold rowsByID. induction rows as [|row rows IH] using rev_ind; intros Hnd Hm; [set_solver|].
  rewrite foldl_app. cbn [foldl]. rewrite fmap_app in Hnd. apply NoDup_app in Hnd as (Hnd & Hx & _).
  apply elem_of_app in Hm as [Hm|Hm%list_elem_of_singleton]; [|subst; by rewrite lookup_insert_eq].
  rewrite lookup_insert_ne; [by apply IH|]. intros E. apply (Hx (mem_ID m)); [apply list_elem_of_fmap; by exists m|]. rewrite <- E. set_solver.
Qed.

Lemma same_id_same_row (rows : list Memory) a b : NoDup (mem_ID <$> rows) → a ∈ rows → b ∈ rows → mem_ID a = mem_ID b → a = b.
Proof. intros Hnd Ha%(rowsByID_present _ _ Hnd) Hb%(rowsByID_present _ _ Hnd) E. congruence. Qed.

Lemma readLimit_range limit : 1 ≤ readLimit limit ≤ 20.
Proof. unfold readLimit. repeat case_match; bool_prop; lia. Qed.

Lemma readLimit_spec limit : readLimit limit = if decide (limit ≤ 0) then 5 else Z.min limit 20.
Proof. unfold readLimit. case_decide; repeat case_match; bool_prop; lia. Qed.

(** *** The order of the hits *)

Lemma float_ltb_scaled a b e : e ≤ f_exp a → e ≤ f_exp b →
  float_ltb a b = (f_mant a * 2 ^ (f_exp a - e) <? f_mant b * 2 ^ (f_exp b - e)).
Proof.
  intros Ha Hb. unfold float_ltb. set (m := Z.min (f_exp a) (f_exp b)). assert (e ≤ m ∧ m ≤ f_exp a ∧ m ≤ f_exp b) as (He & Hma & Hmb) by lia.
  replace (f_exp a - e) with ((f_exp a - m) + (m - e)) by lia. replace (f_exp b - e) with ((f_exp b - m) + (m - e)) by lia.
  rewrite !Z.pow_add_r, !Z.mul_assoc by lia. pose proof (Z.pow_pos_nonneg 2 (m - e)). apply eq_true_iff_eq. rewrite !Z.ltb_lt.
  rewrite <- Z.mul_lt_mono_pos_r by lia. done.
Qed.

Definition scoreAt (e : Z) (a : float64) : Z := f_mant a * 2 ^ (f_exp a - e).

(** Finitely many scores are compared as integers. *)
Lemma float_ltb_common (a b c : float64) : ∃ e, ∀ x y, x ∈ [a; b; c] → y ∈ [a; b; c] → float_ltb x y = (scoreAt e x <? scoreAt e y).
Proof.
  exists (Z.min (f_exp a) (Z.min (f_exp b) (f_exp c))). intros x y Hx Hy. apply float_ltb_scaled; set_unfold; destruct_or?; subst; lia.
Qed.

Lemma hitBefore_true a b : hitBefore a b = true ↔
  float_ltb (hit_score b) (hit_score a) = true ∨ (float_ltb (hit_score a) (hit_score b) = false ∧ hit_id a < hit_id b).
Proof.
  destruct (float_ltb_common (hit_score a) (hit_score b) (hit_score b)) as [e He]. unfold hitBefore.
  rewrite !(He (hit_score a) (hit_score b)), !(He (hit_score b) (hit_score a)) by set_solver.
  destruct (Z.ltb_spec (scoreAt e (hit_score b)) (scoreAt e (hit_score a))); destruct (Z.ltb_spec (scoreAt e (hit_score a)) (scoreAt e (hit_score b))); cbn [orb];
    rewrite ?Z.ltb_lt; intuition (lia || congruence).
Qed.

(** Higher scores first, then lower ids. *)
Definition ranksBefore (a b : keywordMemoryHit) : Prop :=
  float_ltb (hit_score b) (hit_score a) = true ∨ (float_ltb (hit_score a) (hit_score b) = false ∧ hit_id a ≤ hit_id b).

Lemma filter_sublist {A} (P : A → Prop) `{∀ x, Decision (P x)} (l : list A) : filter P l `sublist_of` l.
Proof. induction l as [|x l IH]; [done|]. destruct (decide (P x)); [rewrite filter_cons_True|rewrite filter_cons_False]; try done; by constructor. Qed.

Lemma rankKeywordMemoryHits_spec hits :
  rankKeywordMemoryHits hits ≡ₚ omap (λ h, id ← ParseInt (TrimSpace (hit_ResourceID h)); guard (0 < id);; Some (mkHit id (hit_Score h))) hits ∧
  StronglySorted ranksBefore (rankKeywordMemoryHits hits).
Proof.
  unfold rankKeywordMemoryHits. split.
  - rewrite sort_stable_perm. apply reflexive_eq. induction hits as [|h hits IH]; csimpl; [done|]. rewrite IH.
    destruct (ParseInt (TrimSpace (hit_ResourceID h))) as [id|]; cbn [mbind option_bind]; [|done].
    case_guard; destruct (Z.leb_spec id 0); try lia; reflexivity.
  - eapply (StronglySorted_weaken (λ x y, hitBefore y x = false)); [|apply sort_stable_sorted].
    + intros a b Hb%not_true_iff_false. rewrite hitBefore_true in Hb. unfold ranksBefore.
      destruct (float_ltb (hit_score b) (hit_score a)); [by left|]. right. destruct (float_ltb (hit_score a) (hit_score b)); [naive_solver|].
      split; [done|]. destruct (Z.le_gt_cases (hit_id a) (hit_id b)); [done|]. exfalso. naive_solver lia.
    + intros a b Hab%hitBefore_true. apply not_true_iff_false. rewrite hitBefore_true.
      destruct (float_ltb_common (hit_score a) (hit_score b) (hit_score b)) as [e He].
      rewrite !(He (hit_score a) (hit_score b)), !(He (hit_score b) (hit_score a)), ?Z.ltb_lt, ?Z.ltb_ge in * by set_solver. lia.
    + intros a b c Hab%not_true_iff_false Hbc%not_true_iff_false. apply not_true_iff_false. rewrite hitBefore_true in *.
      destruct (float_ltb_common (hit_score a) (hit_score b) (hit_score c)) as [e He].
      rewrite !He, ?Z.ltb_lt, ?Z.ltb_ge in * by set_solver. lia.
Qed.

Lemma truncateMemoryContent_spec content :
  runes (truncateMemoryContent content) = take (Z.to_nat 6000) (runes content) ∧ (rune_count content ≤ 6000 → truncateMemoryContent content = content).
Proof.
  unfold truncateMemoryContent, maxMemoryContentChars. destruct (Z.leb_spec (rune_count content) 6000) as [Hle|Hgt].
  - split; [|done]. rewrite take_ge; [done|]. unfold rune_count, zlen in Hle. lia.
  - split; [apply runes_take|lia].
Qed.

(** What [MarkUsed] writes, and that the recall log leaves the rows alone. *)
Lemma readResult_ok marshalScores marshalDetails now svc faults req items query scores reason store res store' :
  readResult marshalScores marshalDetails now svc faults req items query scores reason store = (Ok res, store') →
  rr_Memories res = items ∧ rr_Count res = zlen items ∧ rr_Query res = query ∧
  store_rows store' = (λ m, if bool_decide (mem_OwnerID m = read_OwnerID req ∧ mem_ID m ∈ mem_ID <$> items ∧ mem_DeletedAt m = None ∧ mem_Status m = StatusActive)
                            then markUsed now m else m) <$> store_rows store.
Proof.
  unfold readResult. destruct (MarkUsed _ _ _ _ _) as [[e|] st] eqn:Hm; [done|].
  assert (store_rows st = (λ m, if bool_decide (mem_OwnerID m = read_OwnerID req ∧ mem_ID m ∈ mem_ID <$> items ∧ mem_DeletedAt m = None ∧ mem_Status m = StatusActive)
                            then markUsed now m else m) <$> store_rows store) as Hst.
  { unfold MarkUsed in Hm. destruct (mem_ID <$> items) as [|i ids] eqn:Ei.
    - injection Hm as <-. rewrite <- (list_fmap_id (store_rows store)) at 1. apply list_fmap_ext. intros ? m _. case_bool_decide; [set_solver|done].
    - destruct (fault_mark faults); [done|]. by injection Hm as <-. }
  repeat case_match; intros [= <- <-]; cbn [rr_Memories rr_Count rr_Query store_rows]; done.
Qed.

(** C28. A keyword read asks the index once, for long-term memories under the trimmed query,
    and answers with exactly what the request may see.  The hits with a positive decimal id
    are taken by higher score, then lower id, whatever order the index gives.  Every
    returned row is a row of the table that is visible: of the owner, not deleted, active,
    without a conflict, not yet expired, of an allowed tier and a requested type, and in the
    user, conversation, agent or project scope of the request.  No two returned rows repeat
    each other (id, text up to case and spacing, nonblank deduplication key), and every
    visible row among the hits looked at repeats a returned one; hits are left unlooked at
    only when the limit (5 unless asked for, at most 20) is reached.  Contents are cut to
    their first 6000 characters, all else is as stored; and of the table only the usage of
    the returned active rows changes. *)
Theorem keyword_read_in_scope `{UnicodeTables} marshalScores marshalDetails (now : Z) (svc : RuntimeService) (faults : ReadFaults)
    (req : ReadRequest) (store store' : MemoryStore) (res : ReadResult) :
  NoDup (mem_ID <$> store_rows store) → TrimSpace (read_Query req) ≠ ""%string →
  Read marshalScores marshalDetails now svc faults req store = (Ok res, store') →
  let limit := if decide (read_Limit req ≤ 0) then 5 else Z.min (read_Limit req) 20 in
  ∃ search hits order front back rows,
    rs_ContextIndex svc = Some search ∧
    search (mkSearchRequest (read_OwnerID req) (if decide (0 < read_AgentID req) then read_AgentID req else rs_AgentID svc) (read_ProjectID req)
              (default 0 (read_ConversationID req)) ["long_term_memory"%string] (TrimSpace (read_Query req)) "keyword" (2 * limit)) = Ok hits ∧
    order ≡ₚ omap (λ h, id ← ParseInt (TrimSpace (hit_ResourceID h)); guard (0 < id);; Some (mkHit id (hit_Score h))) hits ∧
    StronglySorted ranksBefore order ∧ order = front ++ back ∧ (back = [] ∨ zlen rows = limit) ∧ zlen rows ≤ limit ∧
    Forall (λ m, m ∈ store_rows store ∧ visible now req m) rows ∧ (mem_ID <$> rows) `sublist_of` (hit_id <$> front) ∧
    (∀ i j a b, rows !! i = Some a → rows !! j = Some b → repeats a b → i = j) ∧
    (∀ hit m, hit ∈ front → m ∈ store_rows store → mem_ID m = hit_id hit → visible now req m → ∃ m', m' ∈ rows ∧ repeats m' m) ∧
    Forall2 (λ m item, ∃ c, item = set_Content c m ∧ runes c = take (Z.to_nat 6000) (runes (mem_Content m)) ∧ (rune_count (mem_Content m) ≤ 6000 → c = mem_Content m))
      rows (rr_Memories res) ∧
    Forall2 (λ m m', (m ∈ rows ∧ mem_Status m = "active"%string → m' = markUsed now m) ∧ (¬ (m ∈ rows ∧ mem_Status m = "active"%string) → m' = m))
      (store_rows store) (store_rows store').
Proof.
  intros Hnd Hq Hread limit. unfold Read in Hread. destruct (rs_Memories svc); cbn [negb] in Hread; [|done].
  rewrite (proj2 (String.eqb_neq _ _) Hq) in Hread. cbn [andb negb] in Hread. unfold readKeywordMemory in Hread.
  pose proof (readLimit_spec (read_Limit req)) as Hlim. fold limit in Hlim. rewrite Hlim in Hread. pose proof (readLimit_range (read_Limit req)) as Hrange.
  destruct (rs_ContextIndex svc) as [search|] eqn:Hidx; [|done].
  destruct (search (keywordSearch svc req (TrimSpace (read_Query req)) limit)) as [hits|e] eqn:Hs; [|done].
  destruct (FindByIDs _ _ _ _) as [found|e] eqn:Hf; [|done]. apply readResult_ok in Hread as (Hitems & _ & _ & Hrows).
  destruct (rankKeywordMemoryHits_spec hits) as [Hperm Hsort].
  destruct (hydrated_all now req (rowsByID found) limit (rankKeywordMemoryHits hits)) as (rows & front & back & Hh);
    [by intros id m [? _]%rowsByID_lookup|lia|]. unfold hydrateKeywordMemories in Hitems, Hrows. pose proof Hh as [H1 _ _ _ H5 H6 H7 H8 H9 H10 H11].
  assert (∀ m, m ∈ found ↔ m ∈ store_rows store ∧ mem_OwnerID m = read_OwnerID req ∧ mem_ID m ∈ hit_id <$> rankKeywordMemoryHits hits ∧ mem_DeletedAt m = None) as Hfound.
  { intros m. unfold FindByIDs in Hf. destruct (hit_id <$> rankKeywordMemoryHits hits) eqn:Ei; [injection Hf as <-; set_solver|].
    destruct (fault_find faults); [done|]. injection Hf as <-. rewrite list_elem_of_filter. tauto. }
  assert (NoDup (mem_ID <$> found)) as Hndf.
  { unfold FindByIDs in Hf. repeat case_match; simplify_eq; [constructor|]. eapply sublist_NoDup; [exact Hnd|]. apply fmap_sublist, filter_sublist. }
  assert (Forall (λ m, m ∈ store_rows store ∧ visible now req m) rows) as Hall.
  { eapply Forall_impl; [exact H5|]. intros m [[_ ?%Hfound]%rowsByID_lookup ?]. naive_solver. }
  exists search, hits, (rankKeywordMemoryHits hits), front, back, rows. split_and!; try done.
  - rewrite <- Hs. f_equal. unfold keywordSearch. f_equal; [|lia]. destruct (Z.leb_spec (read_AgentID req) 0); case_decide; done || lia.
  - intros hit m Hin Hm Hid Hv. apply (H9 hit); [done| |done]. rewrite <- Hid. apply rowsByID_present; [done|]. apply Hfound. destruct Hv as (? & ? & _).
    split_and!; [done..| |done]. rewrite Hid, H7, fmap_app. apply elem_of_app. left. apply list_elem_of_fmap. by exists hit.
  - rewrite Hitems, H1. clear. induction rows as [|m rows IH]; [constructor|]. rewrite fmap_cons. constructor; [|exact IH].
    exists (truncateMemoryContent (mem_Content m)). split; [done|apply truncateMemoryContent_spec].
  - rewrite Hrows. assert (mem_ID <$> hy_items _ = mem_ID <$> rows) as -> by (rewrite H1, <- list_fmap_compose; done).
    apply Forall2_fmap_r, Forall_Forall2_diag, Forall_forall. intros m Hm.
    assert (m ∈ rows ↔ mem_OwnerID m = read_OwnerID req ∧ mem_ID m ∈ mem_ID <$> rows ∧ mem_DeletedAt m = None) as Hin.
    { rewrite list_elem_of_fmap. rewrite Forall_forall in Hall. split.
      - intros Hr. destruct (Hall m Hr) as [_ (? & ? & _)]. eauto.
      - intros (_ & (m' & E & Hr) & _). rewrite (same_id_same_row (store_rows store) m m'); naive_solver. }
    unfold StatusActive, compose. case_bool_decide; tauto.
Qed.

Definition sampleMemory (id : Z) (content scopeType : string) (scopeID : Z) : Memory :=
  mkMemory id 7 None false None None scopeType scopeID StatusActive TypeArchival TierLongTerm "" content float_half 0 "ad_hoc" None "" None None 0 0.
Definition sampleTable : MemoryStore :=
  mkMemoryStore [sampleMemory 1 "use tabs" ScopeUser 7; sampleMemory 2 "Use  Tabs" ScopeUser 0; sampleMemory 3 "other project" ScopeProject 5;
                 sampleMemory 4 "deploy on friday" ScopeConversation 9] [].
Definition sampleRead : ReadRequest := mkReadRequest 7 (Some 9) 0 0 31 [] " style " 0 0 false.
Definition sampleSearch (_ : SearchRequest) : result string (list SearchHit) :=
  Ok [mkSearchHit "1" (float_of_Z 2); mkSearchHit "2" (float_of_Z 3); mkSearchHit " 4 " (float_of_Z 2); mkSearchHit "x" (float_of_Z 9); mkSearchHit "3" (float_of_Z 8)].
Definition sampleOutcome : result ReadErr ReadResult * MemoryStore :=
  @Read AsciiTables (λ _, Ok ""%string) (λ _, Ok ""%string) 100 (mkRuntimeService true (Some sampleSearch) 3 true) (mkReadFaults None None None None)
    sampleRead sampleTable.

(** The second row repeats the first with a higher score, the third is of another project. *)
Lemma keyword_read_in_scope_witness :
  ∃ res, sampleOutcome = (Ok res, sampleOutcome.2) ∧ (mem_ID <$> rr_Memories res) = [2; 4] ∧ (mem_UsageCount <$> store_rows sampleOutcome.2) = [0; 1; 0; 1] ∧
    ∃ rows, zlen rows ≤ 5 ∧ Forall (λ m, m ∈ store_rows sampleTable ∧ visible 100 sampleRead m) rows.
Proof.
  destruct sampleOutcome as [[res|e] st] eqn:E; [|vm_compute in E; discriminate]. exists res. split; [done|].
  split; [vm_compute in E; injection E as <- <-; reflexivity|]. split; [vm_compute in E; injection E as <- <-; reflexivity|].
  destruct (@keyword_read_in_scope AsciiTables (λ _, Ok ""%string) (λ _, Ok ""%string) 100 (mkRuntimeService true (Some sampleSearch) 3 true)
              (mkReadFaults None None None None) sampleRead sampleTable st res) as (_ & _ & _ & _ & _ & rows & _ & _ & _ & _ & _ & _ & Hl & Hv & _);
    [apply (bool_decide_unpack _); vm_compute; exact I|vm_compute; discriminate|exact E|]. by exists rows.
Defined.

(** ** Explicit requests *)

(** A text in typographic single quotes hides everything after it: U+2018 is closed by
    another U+2018 only. *)
Theorem single_quotes_never_close :
  @HasExplicitMemoryIntent AsciiTables "“x” please remember this" = true ∧ @HasExplicitMemoryIntent AsciiTables "‘x’ please remember this" = false ∧
  stripQuotedMemoryText "‘x’ please remember this" = ""%string.
Proof. split_and!; vm_compute; reflexivity. Qed.
