(* ===== verification/MemoryWrites.v ===== *)
(** The asynchronous write path of long-term memories
    (internal/application/memory_usecase/memory_write_pipeline.go, write_adapters.go,
    extraction_write_adapter.go) over the tables memory_write_jobs and memories
    (internal/infrastructure/mysql/memory_schema_repos.go, memory_repo.go): producers
    enqueue idempotent jobs, workers claim them under a lease, write one row each with its
    outbox event, retry and give up.

    Producers and workers are programs of [Threads] over one database; each call is a
    transaction, which may fail before or after its commit.  JSON encoding of payloads and
    SHA-256 are parameters.  Unique keys compare byte for byte. *)
From S2P Require Import Prelude GoStr Chat Json Redact MemoryDomain Threads.
Open Scope Z_scope.
Open Scope calls_scope.

(** ** Data *)

Record WriteRequest := mkWriteRequest {
  wr_OwnerID : Z;
  wr_AgentID : Z;
  wr_ConversationID : Z;
  wr_ProjectID : Z;
  wr_SourceConversationID : option Z;
  wr_SourceProjectID : option Z;
  wr_RunID : Z;
  wr_MemoryType : string;
  wr_Title : string;
  wr_Content : string;
  wr_Importance : float64;
  wr_Source : string;
  wr_DeduplicationKey : option string;
  wr_MetadataJSON : RawMessage;
  wr_ScopeType : string;
  wr_ScopeID : Z
}.
Definition zeroRequest : WriteRequest := mkWriteRequest 0 0 0 0 None None 0 "" "" "" (float_of_Z 0) "" None "" "" 0.

Record WriteJobRequest := mkWriteJobRequest { wjr_OwnerID : Z; wjr_Source : string; wjr_IdempotencyKey : string; wjr_Payload : WriteRequest }.

Definition WriteJobStatusPending : string := "pending".
Definition WriteJobStatusRunning : string := "running".
Definition WriteJobStatusCompleted : string := "completed".
Definition WriteJobStatusDeadLetter : string := "dead_letter".
Definition WriteJobSources : list string := ["extraction"; "ad_hoc"; "proposal"; "consolidation"; "reflection"; "manual"].

Record MemoryWriteJob := mkWriteJob {
  wj_ID : Z;
  wj_OwnerID : Z;
  wj_IdempotencyKey : string;
  wj_Source : string;
  wj_PayloadJSON : RawMessage;
  wj_Status : string;
  wj_AttemptCount : Z;
  wj_DueAt : option Z;
  wj_LockedBy : string;
  wj_LockedAt : option Z;
  wj_LeaseExpiresAt : option Z;
  wj_ErrorMessage : string;
  wj_CompletedAt : option Z
}.

Definition CanonicalSource (source : string) : string := if one_of (TrimSpace source) WriteJobSources then TrimSpace source else "manual".

Definition minute : Z := 60 * 10 ^ 9.
Definition hour : Z := 60 * minute.
Definition writeJobClaimBatch : Z := 1.
Definition writeJobLease : Z := 2 * minute.
Definition writeJobMaxBackoff : Z := 6 * hour.
Definition writeJobMaxAttempt : Z := 8.

Inductive WriteErr :=
| ErrInvalidData
| ErrJobOwner
| ErrJobSource (source : string)
| ErrJobKey
| ErrPayload (msg : string)
| ErrWriterMissing
| ErrTypeAndContent
| ErrScope (e : ScopeErr)
| ErrDatabase (msg : string).

(** [Validate]. *)
Definition ValidateJob (j : MemoryWriteJob) : option WriteErr :=
  if wj_OwnerID j <=? 0 then Some ErrJobOwner
  else if negb (one_of (wj_Source j) WriteJobSources) then Some (ErrJobSource (wj_Source j))
  else if (TrimSpace (wj_IdempotencyKey j) =? "")%string then Some ErrJobKey
  else None.

(** ** The tables *)

(** An outbox event of a row: its owner, its id and the text of an upsert ([None] is a
    deletion). *)
Record MemoryEvent := mkMemoryEvent { ev_OwnerID : Z; ev_ResourceID : Z; ev_Text : option string }.

Record WriteDB := mkWriteDB {
  db_jobs : gmap Z MemoryWriteJob;
  db_memories : gmap Z Memory;
  db_events : list MemoryEvent
}.
Definition set_jobs (m : gmap Z MemoryWriteJob) (d : WriteDB) : WriteDB := mkWriteDB m (db_memories d) (db_events d).

(** The next AUTO_INCREMENT id of a table whose rows are never deleted. *)
Definition nextID {A} (m : gmap Z A) : Z := map_fold (λ k _ acc, Z.max k acc) 0 m + 1.

(** The rows that a clause selects, by id. *)
Definition rowsWhere {A} (P : A → bool) (m : gmap Z A) : list (Z * A) :=
  sort_stable (λ x y, x.1 <? y.1) (filter (λ kv, P kv.2 = true) (map_to_list m)).

Definition jobByKey (ownerID : Z) (key : string) (d : WriteDB) : option MemoryWriteJob :=
  snd <$> head (rowsWhere (λ j, (wj_OwnerID j =? ownerID) && (wj_IdempotencyKey j =? key)%string) (db_jobs d)).

Definition set_jobID (id : Z) (j : MemoryWriteJob) : MemoryWriteJob :=
  mkWriteJob id (wj_OwnerID j) (wj_IdempotencyKey j) (wj_Source j) (wj_PayloadJSON j) (wj_Status j) (wj_AttemptCount j) (wj_DueAt j)
    (wj_LockedBy j) (wj_LockedAt j) (wj_LeaseExpiresAt j) (wj_ErrorMessage j) (wj_CompletedAt j).

(** [MemoryWriteJobRepository.Create]: a job whose key is taken is the job that took it. *)
Definition CreateJob (job : MemoryWriteJob) (d : WriteDB) : option WriteErr * WriteDB :=
  match ValidateJob job with
  | Some e => (Some e, d)
  | None =>
    match jobByKey (wj_OwnerID job) (wj_IdempotencyKey job) d with
    | Some _ => (None, d)
    | None => let id := nextID (db_jobs d) in (None, set_jobs (<[id := set_jobID id job]> (db_jobs d)) d)
    end
  end.

(** [ClaimPending]: due jobs and jobs whose lease ran out, those without a due time
    first. *)
Definition claimable (now : Z) (j : MemoryWriteJob) : bool :=
  ((wj_Status j =? WriteJobStatusPending)%string && match wj_DueAt j with None => true | Some t => t <=? now end) ||
  ((wj_Status j =? WriteJobStatusRunning)%string && match wj_LeaseExpiresAt j with None => false | Some t => t <=? now end).
Definition claimBefore (a b : Z * MemoryWriteJob) : bool :=
  match wj_DueAt a.2, wj_DueAt b.2 with
  | None, Some _ => true
  | Some _, None => false
  | None, None => a.1 <? b.1
  | Some s, Some t => if s =? t then a.1 <? b.1 else s <? t
  end.
Definition claimJob (workerID : string) (now until : Z) (j : MemoryWriteJob) : MemoryWriteJob :=
  mkWriteJob (wj_ID j) (wj_OwnerID j) (wj_IdempotencyKey j) (wj_Source j) (wj_PayloadJSON j) WriteJobStatusRunning (wj_AttemptCount j + 1) (wj_DueAt j)
    workerID (Some now) (Some until) (wj_ErrorMessage j) (wj_CompletedAt j).
Definition ClaimPending (workerID : string) (now until limit : Z) (d : WriteDB) : result WriteErr (list MemoryWriteJob) * WriteDB :=
  let limit := if limit <=? 0 then 10 else limit in
  if (workerID =? "")%string || (until <=? now) then (Err ErrInvalidData, d)
  else
    let picked := take (Z.to_nat limit) (sort_stable claimBefore (rowsWhere (claimable now) (db_jobs d))) in
    let claimed := (λ kv, (kv.1, claimJob workerID now until kv.2)) <$> picked in
    (Ok (snd <$> claimed), set_jobs (foldl (λ m kv, <[kv.1 := kv.2]> m) (db_jobs d) claimed) d).

(** [Update]: [Save] writes every column. *)
Definition UpdateJob (job : MemoryWriteJob) (d : WriteDB) : option WriteErr * WriteDB :=
  match ValidateJob job with
  | Some e => (Some e, d)
  | None => (None, set_jobs (<[wj_ID job := job]> (db_jobs d)) d)
  end.

Definition memoryByKey (ownerID : Z) (key : string) (d : WriteDB) : option Memory :=
  snd <$> head (rowsWhere (λ m, (mem_OwnerID m =? ownerID) && bool_decide (mem_DeduplicationKey m = Some key)) (db_memories d)).

Definition memoryContextText (m : Memory) : string := Join [mem_Title m; mem_Content m; mem_MemoryType m; mem_Source m] (of_bytes [byte_of 10]).

Definition stamped (id now : Z) (m : Memory) : Memory :=
  let m := ApplyV2Defaults m in
  mkMemory id (mem_OwnerID m) (mem_DeletedAt m) (mem_HasConflict m) (mem_SourceConversationID m) (mem_SourceProjectID m)
    (mem_ScopeType m) (mem_ScopeID m) (mem_Status m) (mem_MemoryType m) (if (mem_RetentionTier m =? "")%string then TierLongTerm else mem_RetentionTier m)
    (mem_Title m) (mem_Content m) (mem_Importance m) (mem_UsageCount m) (mem_Source m) (mem_DeduplicationKey m) (mem_MetadataJSON m)
    (mem_LastUsedAt m) (mem_ExpiresAt m) (if mem_CreatedAt m =? 0 then now else mem_CreatedAt m) (if mem_UpdatedAt m =? 0 then now else mem_UpdatedAt m).

(** [MemoryRepository.Create]: the row and its outbox event in one transaction; a row
    whose deduplication key is taken is the row that took it, without an event.
    [enqueueContextResource] skips an owner that is not positive. *)
Definition CreateMemory (now : Z) (item : Memory) (d : WriteDB) : Memory * WriteDB :=
  match mem_DeduplicationKey item ≫= (λ key, memoryByKey (mem_OwnerID item) key d) with
  | Some row => (row, d)
  | None =>
    let id := nextID (db_memories d) in
    let row := stamped id now item in
    let event := mkMemoryEvent (mem_OwnerID row) id (if IsRecallable now row then Some (memoryContextText row) else None) in
    (row, mkWriteDB (db_jobs d) (<[id := row]> (db_memories d)) (db_events d ++ (if mem_OwnerID row <=? 0 then [] else [event])))
  end.

(** ** Calls *)

Inductive wcall : Type → Type :=
| WClock : wcall Z
| WCreateJob (job : MemoryWriteJob) : wcall (option WriteErr)
| WClaimPending (workerID : string) (now until limit : Z) : wcall (result WriteErr (list MemoryWriteJob))
| WUpdateJob (job : MemoryWriteJob) : wcall (option WriteErr)
| WCreateMemory (item : Memory) : wcall (result WriteErr Memory).

Notation prog := (program wcall).

Definition performW (X : Type) (c : wcall X) : WriteDB → X → WriteDB → Prop :=
  match c in wcall X return WriteDB → X → WriteDB → Prop with
  | WClock => λ d _ d', d' = d
  | WCreateJob job => λ d, transaction (CreateJob job d) (λ msg, Some (ErrDatabase msg)) d
  | WClaimPending w now until limit => λ d, transaction (ClaimPending w now until limit d) (λ msg, Err (ErrDatabase msg)) d
  | WUpdateJob job => λ d, transaction (UpdateJob job d) (λ msg, Some (ErrDatabase msg)) d
  | WCreateMemory item => λ d x d', ∃ now, transaction (Ok (CreateMemory now item d).1, (CreateMemory now item d).2) (λ msg, Err (ErrDatabase msg)) d x d'
  end.

(** ** The pipeline *)

Section Pipeline.
Context (marshalRequest : WriteRequest → result string RawMessage) (unmarshalRequest : RawMessage → result string WriteRequest).
Context (sha256_hex : string → string).
(** A writer is configured. *)
Context (hasWriter : bool).

Definition Enqueue (req : WriteJobRequest) : prog (option WriteErr) :=
  if wjr_OwnerID req <=? 0 then Return _ (Some ErrJobOwner)
  else
    let key := TrimSpace (wjr_IdempotencyKey req) in
    if (key =? "")%string then Return _ (Some ErrJobKey)
    else match marshalRequest (wjr_Payload req) with
    | Err e => Return _ (Some (ErrPayload e))
    | Ok payload =>
      ask err := WCreateJob (mkWriteJob 0 (wjr_OwnerID req) key (CanonicalSource (wjr_Source req)) payload WriteJobStatusPending 0 None "" None None "" None) in
      Return _ err
    end.

Definition writeJobRetryDelay (attempt : Z) : Z :=
  let attempt := if attempt <? 1 then 1 else attempt in
  let attempt := if 8 <? attempt then 8 else attempt in
  let delay := minute * 2 ^ (attempt - 1) in
  if writeJobMaxBackoff <? delay then writeJobMaxBackoff else delay.

Definition settledJob (status errorMessage : string) (dueAt completedAt : option Z) (j : MemoryWriteJob) : MemoryWriteJob :=
  mkWriteJob (wj_ID j) (wj_OwnerID j) (wj_IdempotencyKey j) (wj_Source j) (wj_PayloadJSON j) status (wj_AttemptCount j) dueAt "" None None errorMessage completedAt.

Definition completeClaim (job : MemoryWriteJob) : prog (option WriteErr) :=
  ask now := WClock in
  ask err := WUpdateJob (settledJob WriteJobStatusCompleted "" (wj_DueAt job) (Some now) job) in
  Return _ err.

(** The text of an error; the values its constructors carry determine it. *)
Context (errText : WriteErr → string).

(** The error of the update joins the cause; either way the caller sees an error. *)
Definition failClaim (maxAttempts : Z) (job : MemoryWriteJob) (cause : WriteErr) : prog (option WriteErr) :=
  ask now := WClock in
  let maxAttempts := if maxAttempts <=? 0 then writeJobMaxAttempt else maxAttempts in
  if maxAttempts <=? wj_AttemptCount job then
    ask _ := WUpdateJob (settledJob WriteJobStatusDeadLetter (errText cause) (wj_DueAt job) (wj_CompletedAt job) job) in
    Return _ (Some cause)
  else
    ask _ := WUpdateJob (settledJob WriteJobStatusPending (errText cause) (Some (now + writeJobRetryDelay (wj_AttemptCount job))) (wj_CompletedAt job) job) in
    Return _ (Some cause).

Definition extractionContentDeduplicationKey (memoryType content : string) : string :=
  sha256_hex (memoryType ++ of_bytes [byte_of 10] ++ Join (Fields content) " ")%string.

Definition clampImportance (f : float64) : float64 :=
  let f := if float_ltb (float_of_Z 0) f then f else float_half in
  if float_ltb (float_of_Z 1) f then float_of_Z 1 else f.

(** The deduplication key of the row of a job. *)
Definition rowKey (job : MemoryWriteJob) (req : WriteRequest) : string :=
  if (wj_Source job =? "extraction")%string then extractionContentDeduplicationKey (TrimSpace (wr_MemoryType req)) (TrimSpace (wr_Content req))
  else match wr_DeduplicationKey req with Some key => key | None => TrimSpace (wj_IdempotencyKey job) end.

(** [SQLMemoryWriter.Write], up to the row it creates. *)
Definition memoryOf (job : MemoryWriteJob) (req : WriteRequest) : result WriteErr Memory :=
  let memoryType := TrimSpace (wr_MemoryType req) in
  let content := TrimSpace (wr_Content req) in
  if (memoryType =? "")%string || (content =? "")%string then Err ErrTypeAndContent
  else match ResolveScope memoryType (wr_OwnerID req) (wr_AgentID req) (wr_ProjectID req) (wr_ConversationID req) (wr_ScopeType req) (wr_ScopeID req) with
  | Err e => Err (ErrScope e)
  | Ok (scopeType, scopeID) =>
    Ok (mkMemory 0 (wr_OwnerID req) None false (wr_SourceConversationID req) (wr_SourceProjectID req) scopeType scopeID "" memoryType TierLongTerm
          (TrimSpace (wr_Title req)) content (clampImportance (wr_Importance req)) 0 (CanonicalSource (wr_Source req)) (Some (rowKey job req)) "" None None 0 0)
  end.

(** The request of a job, and whether there is nothing to write. *)
Definition jobRequest (job : MemoryWriteJob) : result string WriteRequest :=
  if (wj_PayloadJSON job =? "")%string then Ok zeroRequest else unmarshalRequest (wj_PayloadJSON job).
Definition nothingToWrite (req : WriteRequest) : bool :=
  (TrimSpace (wr_MemoryType req) =? "")%string && (TrimSpace (wr_Content req) =? "")%string.

Definition processClaimed (maxAttempts : Z) (job : MemoryWriteJob) : prog (option WriteErr) :=
  match jobRequest job with
  | Err e => failClaim maxAttempts job (ErrPayload e)
  | Ok req =>
    if nothingToWrite req then completeClaim job
    else if negb hasWriter then failClaim maxAttempts job ErrWriterMissing
    else match memoryOf job req with
    | Err e => failClaim maxAttempts job e
    | Ok item =>
      ask written := WCreateMemory item in
      match written with
      | Err e => failClaim maxAttempts job e
      | Ok _ => completeClaim job
      end
    end
  end.

Definition ProcessNext (workerID : string) (lease maxAttempts : Z) : prog (bool * option WriteErr) :=
  ask now := WClock in
  let lease := if lease <=? 0 then writeJobLease else lease in
  ask claimed := WClaimPending workerID now (now + lease) writeJobClaimBatch in
  match claimed with
  | Err e => Return _ (false, Some e)
  | Ok [] => Return _ (false, None)
  | Ok (job :: _) => run err := processClaimed maxAttempts job in Return _ (true, err)
  end.
End Pipeline.

(** ** Producers *)

Section Producers.
Context `{UnicodeTables}.
Context (marshalRequest : WriteRequest → result string RawMessage).
(** [json.Marshal] of the metadata maps. *)
Context (marshalEvidence : RawMessage → result string RawMessage).
Context (marshalProposal : Z → float64 → string → string → result string RawMessage).

Inductive ProducerErr :=
| ErrIntent
| ErrProducerIDs
| ErrProducerContent
| ErrMetadata (msg : string)
| ErrEnqueue (e : WriteErr).

(** A producer's job, or its own error. *)
Definition submit (req : result ProducerErr WriteJobRequest) : prog (option ProducerErr) :=
  match req with
  | Err e => Return _ (Some e)
  | Ok req => run err := Enqueue marshalRequest req in Return _ (ErrEnqueue <$> err)
  end.

Definition adHocRequest (ownerID conversationID runID : Z) (request answer : string) : result ProducerErr WriteJobRequest :=
  if negb (HasExplicitMemoryIntent request) then Err ErrIntent
  else if (ownerID <=? 0) || (runID <=? 0) then Err ErrProducerIDs
  else
    let newline := of_bytes [byte_of 10] in
    let content := (TrimSpace request ++ (if (TrimSpace answer =? "")%string then "" else newline ++ newline ++ TrimSpace answer))%string in
    Ok (mkWriteJobRequest ownerID "ad_hoc" ("ad_hoc:" ++ Itoa runID)
          (mkWriteRequest ownerID 0 conversationID 0 None None runID TypeArchival "" content (float_of_Z 0) "ad_hoc" None "" "" 0)).
Definition AppendAdHocNote (ownerID conversationID runID : Z) (request answer : string) : prog (option ProducerErr) :=
  submit (adHocRequest ownerID conversationID runID request answer).

Definition terminalReflectionRequest (ownerID agentID runID : Z) (content : string) (evidence : RawMessage) : result ProducerErr WriteJobRequest :=
  if (ownerID <=? 0) || (agentID <=? 0) || (runID <=? 0) then Err ErrProducerIDs
  else if (TrimSpace content =? "")%string then Err ErrProducerContent
  else match marshalEvidence evidence with
  | Err e => Err (ErrMetadata e)
  | Ok metadata =>
    Ok (mkWriteJobRequest ownerID "reflection" ("reflection:run:" ++ Itoa runID)
          (mkWriteRequest ownerID agentID 0 0 None None runID TypeTask "Run reflection" (TrimSpace content) (float_of_Z 0) "reflection" None metadata ScopeAgent agentID))
  end.
Definition EnqueueTerminalReflection (ownerID agentID runID : Z) (content : string) (evidence : RawMessage) : prog (option ProducerErr) :=
  submit (terminalReflectionRequest ownerID agentID runID content evidence).

Definition proposalRequest (ownerID agentID runID proposalID : Z) (title content evidence : string) (confidence : float64) (checksum : string)
    : result ProducerErr WriteJobRequest :=
  if (ownerID <=? 0) || (agentID <=? 0) || (proposalID <=? 0) then Err ErrProducerIDs
  else match marshalProposal proposalID confidence checksum evidence with
  | Err e => Err (ErrMetadata e)
  | Ok metadata =>
    Ok (mkWriteJobRequest ownerID "proposal" ("proposal:" ++ Itoa proposalID)
          (mkWriteRequest ownerID agentID 0 0 None None runID TypeTask (TrimSpace title) (TrimSpace content) (float_of_Z 0) "proposal" None metadata ScopeAgent agentID))
  end.
Definition EnqueueProposalWriteJob (ownerID agentID runID proposalID : Z) (title content evidence : string) (confidence : float64) (checksum : string)
    : prog (option ProducerErr) := submit (proposalRequest ownerID agentID runID proposalID title content evidence confidence checksum).
End Producers.

(** ** Tables *)

Lemma rowID_fresh {A} (m : gmap Z A) : m !! nextID m = None.
Proof.
  unfold nextID. destruct (m !! _) as [a|] eqn:E; [exfalso|done].
  assert (∀ k a, m !! k = Some a → k ≤ map_fold (λ k _ acc, Z.max k acc) 0 m) as Hmax.
  { clear. apply (map_fold_weak_ind (λ r m, ∀ k a, m !! k = Some a → k ≤ r)); [intros k a; by rewrite lookup_empty|].
    intros i x m0 r Hi IH k a. rewrite lookup_insert_Some. intros [[<- <-]|[_ Hk]]; [lia|]. specialize (IH _ _ Hk). lia. }
  specialize (Hmax _ _ E). lia.
Qed.

Lemma elem_of_rowsWhere {A} (P : A → bool) (m : gmap Z A) k a : (k, a) ∈ rowsWhere P m ↔ m !! k = Some a ∧ P a = true.
Proof. unfold rowsWhere. rewrite elem_of_sort_stable, list_elem_of_filter, elem_of_map_to_list. naive_solver. Qed.

Lemma head_rowsWhere {A} (P : A → bool) (m : gmap Z A) : match snd <$> head (rowsWhere P m) with
  | Some a => ∃ k, m !! k = Some a ∧ P a = true
  | None => ∀ k a, m !! k = Some a → P a = false
  end.
Proof.
  destruct (rowsWhere P m) as [|[k a] l] eqn:E; cbn.
  - intros k a Hk. destruct (P a) eqn:HP; [|done]. exfalso. assert ((k, a) ∈ rowsWhere P m) as Hin by (by apply elem_of_rowsWhere).
    rewrite E in Hin. set_solver.
  - exists k. apply elem_of_rowsWhere. rewrite E. left.
Qed.

Lemma jobByKey_none owner key d : jobByKey owner key d = None → ∀ id j, db_jobs d !! id = Some j → ¬ (wj_OwnerID j = owner ∧ wj_IdempotencyKey j = key).
Proof.
  unfold jobByKey. intros Hn id j Hj [<- <-]. pose proof (head_rowsWhere (λ j', (wj_OwnerID j' =? wj_OwnerID j) && (wj_IdempotencyKey j' =? wj_IdempotencyKey j)%string) (db_jobs d)) as Hh.
  rewrite Hn in Hh. specialize (Hh _ _ Hj). cbn in Hh. by rewrite Z.eqb_refl, String.eqb_refl in Hh.
Qed.

(** A row of the owner with the deduplication key. *)
Definition hasRow (d : WriteDB) (ownerID : Z) (key : string) : Prop :=
  ∃ id m, db_memories d !! id = Some m ∧ mem_OwnerID m = ownerID ∧ mem_DeduplicationKey m = Some key.

Lemma memoryByKey_cases owner key d : match memoryByKey owner key d with
  | Some m => ∃ id, db_memories d !! id = Some m ∧ mem_OwnerID m = owner ∧ mem_DeduplicationKey m = Some key
  | None => ¬ hasRow d owner key
  end.
Proof.
  unfold memoryByKey. pose proof (head_rowsWhere (λ m, (mem_OwnerID m =? owner) && bool_decide (mem_DeduplicationKey m = Some key)) (db_memories d)) as Hh.
  destruct (snd <$> _) as [m|].
  - destruct Hh as (k & Hk & HP). exists k. bool_prop. done.
  - intros (id & m & Hm & Ho & Hk). specialize (Hh _ _ Hm). cbn in Hh. rewrite Ho, Z.eqb_refl in Hh. by rewrite bool_decide_eq_true_2 in Hh.
Qed.

(** ** The invariant *)

Section Invariant.
Context (marshalRequest : WriteRequest → result string RawMessage) (unmarshalRequest : RawMessage → result string WriteRequest).
Context (sha256_hex : string → string).
Notation jobRequest := (jobRequest unmarshalRequest).
Notation rowKey := (rowKey sha256_hex).

Definition sameJob (j j' : MemoryWriteJob) : Prop :=
  wj_ID j' = wj_ID j ∧ wj_OwnerID j' = wj_OwnerID j ∧ wj_IdempotencyKey j' = wj_IdempotencyKey j ∧ wj_Source j' = wj_Source j ∧ wj_PayloadJSON j' = wj_PayloadJSON j.

(** The write that the job asks for is there, or there is nothing to write. *)
Definition written (d : WriteDB) (j : MemoryWriteJob) : Prop :=
  ∃ req, jobRequest j = Ok req ∧ (nothingToWrite req = true ∨ hasRow d (wr_OwnerID req) (rowKey j req)).

Record WriteInv (d : WriteDB) : Prop := mkWriteInv {
  wi_keyed : ∀ id j, db_jobs d !! id = Some j → wj_ID j = id;
  wi_unique : ∀ id id' j j', db_jobs d !! id = Some j → db_jobs d !! id' = Some j' → wj_OwnerID j = wj_OwnerID j' → wj_IdempotencyKey j = wj_IdempotencyKey j' → id = id';
  wi_rows : ∀ id m, db_memories d !! id = Some m → mem_ID m = id;
  wi_once : ∀ id id' m m' key, db_memories d !! id = Some m → db_memories d !! id' = Some m' → mem_OwnerID m = mem_OwnerID m' →
    mem_DeduplicationKey m = Some key → mem_DeduplicationKey m' = Some key → id = id';
  wi_events : NoDup (ev_ResourceID <$> db_events d);
  wi_indexed : ∀ id, id ∈ ev_ResourceID <$> db_events d ↔ ∃ m, db_memories d !! id = Some m ∧ 0 < mem_OwnerID m;
  wi_completed : ∀ id j, db_jobs d !! id = Some j → wj_Status j = WriteJobStatusCompleted → written d j
}.

(** What no step undoes. *)
Definition WriteRel (_ : nat) (d d' : WriteDB) : Prop :=
  (∀ o k, hasRow d o k → hasRow d' o k) ∧ (∀ id j, db_jobs d !! id = Some j → ∃ j', db_jobs d' !! id = Some j' ∧ sameJob j j').

Lemma WriteRel_refl T d : WriteRel T d d.
Proof. split; [done|]. intros id j Hj. by exists j. Qed.

Lemma written_mono d d' j j' : written d j → sameJob j j' → (∀ o k, hasRow d o k → hasRow d' o k) → written d' j'.
Proof.
  intros (req & Hr & Hw) (_ & _ & Hk & Hs & Hp) Hrow. exists req. unfold jobRequest, rowKey in *. rewrite Hp, Hs, Hk. split; [done|]. destruct Hw; eauto.
Qed.

(** Changing a job row in its mutable columns. *)
Lemma WriteInv_setJob T d j j' : WriteInv d → db_jobs d !! wj_ID j = Some j → sameJob j j' → (wj_Status j' = WriteJobStatusCompleted → written d j') →
  WriteInv (set_jobs (<[wj_ID j := j']> (db_jobs d)) d) ∧ WriteRel T d (set_jobs (<[wj_ID j := j']> (db_jobs d)) d).
Proof.
  intros [H1 H2 H3 H4 H5 H6 H7] Hj Hsame Hcomp. pose proof Hsame as (Hid & Ho & Hk & _). split.
  - split; cbn; try done.
    + intros id x. rewrite lookup_insert_Some. intros [[<- <-]|[_ Hx]]; [done|by apply H1].
    + intros id id' x x'. rewrite !lookup_insert_Some. intros [[<- <-]|[Hne Hx]] [[<- <-]|[Hne' Hx']] Eo Ek; [done|..].
      * apply (H2 _ _ _ _ Hj Hx'); congruence.
      * apply (H2 _ _ _ _ Hx Hj); congruence.
      * by apply (H2 _ _ _ _ Hx Hx').
    + intros id x. rewrite lookup_insert_Some. intros [[<- <-]|[_ Hx]] Hst; [by apply Hcomp|by apply (H7 id)].
  - split; [done|]. cbn. intros id x Hx. destruct (decide (id = wj_ID j)) as [->|Hne].
    + rewrite lookup_insert_eq. exists j'. split; [done|]. rewrite Hj in Hx. by injection Hx as <-.
    + rewrite lookup_insert_ne by done. by exists x.
Qed.
End Invariant.

Section Operations.
Context (marshalRequest : WriteRequest → result string RawMessage) (unmarshalRequest : RawMessage → result string WriteRequest).
Context (sha256_hex : string → string).
Notation Inv := (WriteInv unmarshalRequest sha256_hex).
Notation keeps T d d' := (Inv d' ∧ WriteRel T d d').

Lemma keeps_refl T d : Inv d → keeps T d d.
Proof. intros. split; [done|apply WriteRel_refl]. Qed.

Lemma WriteRel_trans T d1 d2 d3 : WriteRel T d1 d2 → WriteRel T d2 d3 → WriteRel T d1 d3.
Proof.
  intros [H1 H2] [H3 H4]. split; [naive_solver|]. intros id j Hj. destruct (H2 _ _ Hj) as (j2 & Hj2 & Hs2). destruct (H4 _ _ Hj2) as (j3 & Hj3 & Hs3).
  exists j3. split; [done|]. unfold sameJob in *. naive_solver congruence.
Qed.

Lemma CreateJob_keeps T job d : Inv d → wj_Status job ≠ WriteJobStatusCompleted → keeps T d (CreateJob job d).2.
Proof.
  intros HI Hst. unfold CreateJob. destruct (ValidateJob job); [by apply keeps_refl|]. destruct (jobByKey _ _ d) eqn:Hk; [by apply keeps_refl|].
  pose proof (jobByKey_none _ _ _ Hk) as Hnone. pose proof (rowID_fresh (db_jobs d)) as Hf. destruct HI as [H1 H2 H3 H4 H5 H6 H7]. cbn [snd]. split.
  - split; cbn; try done.
    + intros id x. rewrite lookup_insert_Some. intros [[<- <-]|[_ Hx]]; [done|by apply H1].
    + intros id id' x x'. rewrite !lookup_insert_Some. intros [[<- <-]|[Hne Hx]] [[<- <-]|[Hne' Hx']] Eo Ek; [done|..|by apply (H2 _ _ _ _ Hx Hx')].
      * destruct (Hnone _ _ Hx'). done.
      * destruct (Hnone _ _ Hx). done.
    + intros id x. rewrite lookup_insert_Some. intros [[<- <-]|[_ Hx]] Hs; [done|]. destruct (H7 _ _ Hx Hs) as (req & ? & ?). by exists req.
  - split; [done|]. cbn. intros id x Hx. rewrite lookup_insert_ne by congruence. by exists x.
Qed.

Lemma UpdateJob_keeps T job d : Inv d → (∃ j, db_jobs d !! wj_ID job = Some j ∧ sameJob j job) →
  (wj_Status job = WriteJobStatusCompleted → written unmarshalRequest sha256_hex d job) → keeps T d (UpdateJob job d).2.
Proof.
  intros HI (j & Hj & Hsame) Hc. unfold UpdateJob. destruct (ValidateJob job); cbn [snd]; [by apply keeps_refl|].
  pose proof Hsame as (Hid & _). rewrite Hid in *. by apply WriteInv_setJob.
Qed.

Lemma claims_keep T d w now until l : Inv d → NoDup l.*1 → Forall (λ kv, db_jobs d !! kv.1 = Some kv.2) l →
  let d' := set_jobs (foldl (λ m kv, <[kv.1 := kv.2]> m) (db_jobs d) ((λ kv, (kv.1, claimJob w now until kv.2)) <$> l)) d in
  keeps T d d' ∧ Forall (λ kv, db_jobs d' !! kv.1 = Some (claimJob w now until kv.2)) l.
Proof.
  revert d. induction l as [|[k j] l IH]; intros d HI Hn Hl; cbn [fmap list_fmap foldl].
  { cbn. destruct d. split; [by apply keeps_refl|constructor]. }
  cbn in Hn. apply NoDup_cons in Hn as [Hk Hn]. inversion Hl as [|? ? Hj Hl']; subst. cbn [fst snd] in *.
  pose proof (wi_keyed _ _ _ HI _ _ Hj) as Hid. subst k.
  destruct (WriteInv_setJob unmarshalRequest sha256_hex T d j (claimJob w now until j) HI Hj) as [HI1 HR1]; [done|done|].
  destruct (IH (set_jobs (<[wj_ID j := claimJob w now until j]> (db_jobs d)) d) HI1 Hn) as [[HI2 HR2] HF].
  { eapply Forall_impl; [|intros kv Hkv; exact Hkv]. apply Forall_forall. intros kv Hkv. rewrite Forall_forall in Hl'. cbn.
    rewrite lookup_insert_ne; [by apply Hl'|]. intros E. apply Hk. rewrite E. by apply (list_elem_of_fmap_2 fst). }
  cbn in *. split; [split; [done|by eapply WriteRel_trans]|]. constructor; [|done]. cbn.
  destruct HR2 as [_ HR2]. cbn in HR2. clear IH HI2 HF HR1. revert Hk. clear. intros Hk.
  assert (∀ m : gmap Z MemoryWriteJob, m !! wj_ID j = Some (claimJob w now until j) →
    foldl (λ m kv, <[kv.1 := kv.2]> m) m ((λ kv, (kv.1, claimJob w now until kv.2)) <$> l) !! wj_ID j = Some (claimJob w now until j)) as Hfold.
  { induction l as [|[k2 j2] l IH]; intros m Hm; [done|]. cbn. apply IH; [set_solver|]. rewrite lookup_insert_ne; [done|]. set_solver. }
  apply Hfold. by rewrite lookup_insert_eq.
Qed.

Lemma fmap_sublist {A B} (f : A → B) (l1 l2 : list A) : l1 `sublist_of` l2 → (f <$> l1) `sublist_of` (f <$> l2).
Proof. induction 1; cbn; by constructor. Qed.

Lemma rowsWhere_NoDup {A} (P : A → bool) (m : gmap Z A) : NoDup (rowsWhere P m).*1.
Proof.
  unfold rowsWhere. rewrite sort_stable_perm. eapply sublist_NoDup; [apply (NoDup_fst_map_to_list m)|]. apply fmap_sublist, filter_sublist.
Qed.

Lemma ClaimPending_keeps T w now until limit d : Inv d → keeps T d (ClaimPending w now until limit d).2 ∧
  ∀ jobs, (ClaimPending w now until limit d).1 = Ok jobs → Forall (λ j, db_jobs (ClaimPending w now until limit d).2 !! wj_ID j = Some j) jobs.
Proof.
  intros HI. unfold ClaimPending. destruct (_ || _); cbn [fst snd]; [by split; [apply keeps_refl|]|].
  set (picked := take _ _). assert (NoDup picked.*1) as Hn.
  { subst picked. eapply sublist_NoDup; [|apply fmap_sublist, sublist_take]. rewrite sort_stable_perm. apply rowsWhere_NoDup. }
  assert (Forall (λ kv, db_jobs d !! kv.1 = Some kv.2) picked) as Hf.
  { apply Forall_forall. intros [k j] Hin. subst picked. apply elem_of_take in Hin as (i & Hin & _). apply list_elem_of_lookup_2 in Hin.
    rewrite elem_of_sort_stable in Hin. by apply elem_of_rowsWhere in Hin as [? _]. }
  destruct (claims_keep T d w now until picked HI Hn Hf) as [Hk HF]. split; [done|]. intros jobs [= <-].
  rewrite !Forall_fmap. apply Forall_forall. intros kv Hkv. cbn. rewrite Forall_forall in HF, Hf.
  specialize (HF kv Hkv). rewrite (wi_keyed _ _ _ HI _ _ (Hf kv Hkv)). exact HF.
Qed.

Lemma CreateMemory_keeps T now item d key : Inv d → mem_DeduplicationKey item = Some key →
  keeps T d (CreateMemory now item d).2 ∧ hasRow (CreateMemory now item d).2 (mem_OwnerID item) key.
Proof.
  intros HI Hkey. unfold CreateMemory. rewrite Hkey. cbn [mbind option_bind]. pose proof (memoryByKey_cases (mem_OwnerID item) key d) as Hc.
  destruct (memoryByKey _ key d) as [row|]; cbn [snd].
  { split; [by apply keeps_refl|]. destruct Hc as (id & Hm & Ho & Hk). by exists id, row. }
  set (id := nextID (db_memories d)). set (row := stamped id now item).
  assert (mem_OwnerID row = mem_OwnerID item ∧ mem_DeduplicationKey row = Some key ∧ mem_ID row = id) as (Ho & Hk & Hid) by (by rewrite <- Hkey).
  pose proof (rowID_fresh (db_memories d)) as Hf. fold id in Hf. set (new := if mem_OwnerID row <=? 0 then [] else _).
  assert (ev_ResourceID <$> new = if mem_OwnerID row <=? 0 then [] else [id]) as Hnew by (subst new; by destruct (mem_OwnerID row <=? 0)).
  clearbody new.
  assert (∀ o k, hasRow d o k → hasRow (mkWriteDB (db_jobs d) (<[id := row]> (db_memories d))
            (db_events d ++ new)) o k) as Hmono.
  { intros o k (i & m & Hm & ? & ?). exists i, m. cbn. rewrite lookup_insert_ne by congruence. done. }
  destruct HI as [H1 H2 H3 H4 H5 H6 H7]. split; [split|].
  - split; cbn -[memoryContextText IsRecallable]; try done.
    + intros i m. rewrite lookup_insert_Some. intros [[<- <-]|[_ Hm]]; [done|by apply H3].
    + intros i i' m m' k. rewrite !lookup_insert_Some. intros [[<- <-]|[Hne Hm]] [[<- <-]|[Hne' Hm']] Eo Ek Ek'; [done|..|by apply (H4 _ _ _ _ _ Hm Hm' Eo Ek Ek')].
      * destruct Hc. exists i', m'. rewrite Hk in Ek. injection Ek as ->. by rewrite <- Ho, Eo.
      * destruct Hc. exists i, m. rewrite Hk in Ek'. injection Ek' as ->. by rewrite <- Ho, <- Eo.
    + rewrite fmap_app, Hnew. apply NoDup_app. destruct (mem_OwnerID row <=? 0); (split_and!; [done| |by repeat constructor; set_solver]); intros x Hx; [set_solver|].
      rewrite list_elem_of_singleton. intros ->. apply H6 in Hx as (m & Hx & _). congruence.
    + intros i. rewrite fmap_app, elem_of_app, H6, Hnew. destruct (decide (i = id)) as [->|Hne].
      * rewrite lookup_insert_eq. split; [intros [(m & Hm & _)|Hin]; [congruence|]|intros (m & [= <-] & Hpos); right].
        -- exists row. split; [done|]. destruct (mem_OwnerID row <=? 0) eqn:Hz; [set_solver|lia].
        -- rewrite (proj2 (Z.leb_gt _ _)) by lia. by left.
      * rewrite lookup_insert_ne by done. destruct (mem_OwnerID row <=? 0); set_solver.
    + intros i j Hj Hst. eapply (written_mono _ _ d); [by apply (H7 i)|done|exact Hmono].
  - split; [exact Hmono|]. cbn. intros i j Hj. by exists j.
  - exists id, row. cbn. rewrite lookup_insert_eq. done.
Qed.
End Operations.

(** ** The programs are safe *)

Section Safety.
Context (marshalRequest : WriteRequest → result string RawMessage) (unmarshalRequest : RawMessage → result string WriteRequest).
Context (sha256_hex : string → string) (hasWriter : bool) (errText : WriteErr → string).
Notation Inv := (WriteInv unmarshalRequest sha256_hex).
Notation stableW := (stable Inv WriteRel).
Notation safeW := (safe performW Inv WriteRel).
Notation any := (λ _ _, True).

(** The job is a row that the handler has claimed. *)
Definition knows (job : MemoryWriteJob) (d : WriteDB) : Prop := ∃ j, db_jobs d !! wj_ID job = Some j ∧ sameJob j job.

Lemma knows_stable T job : stableW T (knows job).
Proof.
  intros T' d d' _ _ [_ HR] (j & Hj & Hs). destruct (HR _ _ Hj) as (j' & Hj' & Hs'). exists j'. split; [done|]. unfold sameJob in *. naive_solver congruence.
Qed.
Lemma hasRow_stable T o k : stableW T (λ d, hasRow d o k).
Proof. intros T' d d' _ _ [HR _]. apply HR. Qed.

Lemma transaction_keeps T {X} (answer : X * WriteDB) fail d x d' : Inv d → Inv answer.2 ∧ WriteRel T d answer.2 → transaction answer fail d x d' →
  Inv d' ∧ WriteRel T d d'.
Proof. intros HI Hk [<-|(msg & _ & [->| ->])]; [done|by split; [|apply WriteRel_refl]|done]. Qed.

Lemma safe_clock {A} T (Q : A → (WriteDB → Prop) → Prop) K k : stableW T K → (∀ now, safeW T Q K (k now)) → safeW T Q K (Ask _ WClock k).
Proof. intros HK Hk. apply safe_quiet; [|done..]. intros d x d' HI HKd ->. split_and!; [done|apply WriteRel_refl|done]. Qed.

(** A job is settled. *)
Lemma safe_update {A} T job (K : WriteDB → Prop) (k : option WriteErr → program wcall A) :
  stableW T K → (∀ d, K d → knows job d) → (∀ d, K d → wj_Status job = WriteJobStatusCompleted → written unmarshalRequest sha256_hex d job) →
  (∀ x, ∃ a, k x = Return _ a) → safeW T any K (Ask _ (WUpdateJob job) k).
Proof.
  intros HK Hkn Hw Hk d x d' HI HKd Hp. destruct (transaction_keeps T _ _ _ _ _ HI (UpdateJob_keeps unmarshalRequest sha256_hex T job d HI (Hkn d HKd) (Hw d HKd)) Hp).
  split_and!; [done..|]. exists (λ _, True). split_and!; [apply stable_pure|done|]. by destruct (Hk x) as [a ->].
Qed.

Lemma settled_same status msg due completed job : sameJob job (settledJob status msg due completed job).
Proof. done. Qed.
Lemma knows_settled status msg due completed job d : knows job d → knows (settledJob status msg due completed job) d.
Proof. done. Qed.

Lemma safe_failClaim T max job cause : safeW T any (knows job) (failClaim errText max job cause).
Proof.
  unfold failClaim. apply safe_clock; [apply knows_stable|]. intros now.
  case_match; (apply safe_update; [apply knows_stable|done|done|by eexists]).
Qed.

Lemma safe_completeClaim T job (K : WriteDB → Prop) : stableW T K → (∀ d, K d → knows job d ∧ written unmarshalRequest sha256_hex d job) →
  safeW T any K (completeClaim job).
Proof.
  intros HK Hw. unfold completeClaim. apply safe_clock; [done|]. intros now. apply safe_update; [done| | |by eexists].
  - intros d HKd. by apply Hw.
  - intros d HKd _. eapply written_mono; [by apply Hw|done|done].
Qed.

Lemma memoryOf_key job req item : memoryOf sha256_hex job req = Ok item → mem_DeduplicationKey item = Some (rowKey sha256_hex job req) ∧ mem_OwnerID item = wr_OwnerID req.
Proof. unfold memoryOf. repeat case_match; try done. by intros [= <-]. Qed.

Lemma safe_processClaimed T max job : safeW T any (knows job) (processClaimed unmarshalRequest sha256_hex hasWriter errText max job).
Proof.
  unfold processClaimed. destruct (jobRequest unmarshalRequest job) as [req|e] eqn:Hr; [|apply safe_failClaim].
  destruct (nothingToWrite req) eqn:Hn.
  { apply safe_completeClaim; [apply knows_stable|]. intros d Hd. split; [done|]. exists req. auto. }
  destruct (negb hasWriter); [apply safe_failClaim|]. destruct (memoryOf sha256_hex job req) as [item|e] eqn:Hm; [|apply safe_failClaim].
  destruct (memoryOf_key _ _ _ Hm) as [Hkey Ho]. intros d x d' HI Hkn (now & Hp).
  destruct (CreateMemory_keeps unmarshalRequest sha256_hex T now item d _ HI Hkey) as [Hkeep Hrow].
  destruct (transaction_keeps T (Ok (CreateMemory now item d).1, (CreateMemory now item d).2) _ _ _ _ HI Hkeep Hp) as [HI' HR']. split_and!; [done..|].
  assert (knows job d') as Hkn' by (apply (knows_stable (S T) job T d d'); [lia|done..]).
  destruct Hp as [[= -> ->]|(msg & -> & _)].
  - exists (λ d, knows job d ∧ hasRow d (mem_OwnerID item) (rowKey sha256_hex job req)).
    split_and!; [apply stable_and; [apply knows_stable|apply hasRow_stable]|done..|].
    apply safe_completeClaim; [apply stable_and; [apply knows_stable|apply hasRow_stable]|]. intros d2 [? Hrow2]. split; [done|]. exists req. rewrite <- Ho. auto.
  - exists (knows job). split_and!; [apply knows_stable|done|apply safe_failClaim].
Qed.

Lemma safe_ProcessNext T w lease max : safeW T any (λ _, True) (ProcessNext unmarshalRequest sha256_hex hasWriter errText w lease max).
Proof.
  unfold ProcessNext. apply safe_clock; [apply stable_pure|]. intros now d x d' HI _ Hp.
  destruct (ClaimPending_keeps unmarshalRequest sha256_hex T w now (now + (if lease <=? 0 then writeJobLease else lease)) writeJobClaimBatch d HI) as [Hk Hjobs].
  destruct (transaction_keeps T _ _ _ _ _ HI Hk Hp). split_and!; [done..|]. destruct Hp as [Ha|(msg & -> & _)].
  2: { exists (λ _, True). by split_and!; [apply stable_pure|..]. }
  rewrite <- Ha in Hjobs. cbn [fst snd] in Hjobs. destruct x as [[|job jobs]|e]; [by exists (λ _, True); split_and!; [apply stable_pure|..]| |by exists (λ _, True); split_and!; [apply stable_pure|..]].
  exists (knows job). split_and!; [apply knows_stable| |].
  - specialize (Hjobs _ eq_refl). inversion Hjobs; subst. by exists job.
  - apply safe_bind. eapply safety_mono; [|apply safe_processClaimed]. done.
Qed.

Lemma safe_Enqueue T req : safeW T any (λ _, True) (Enqueue marshalRequest req).
Proof.
  unfold Enqueue. repeat case_match; try done. intros d x d' HI _ Hp.
  eapply (transaction_keeps T) in Hp as [??]; [|done|by apply CreateJob_keeps]. split_and!; [done..|].
  exists (λ _, True). by split_and!; [apply stable_pure|..].
Qed.
End Safety.

(** ** The system *)

Definition emptyWrites : WriteDB := mkWriteDB ∅ ∅ [].

Section System.
Context (marshalRequest : WriteRequest → result string RawMessage) (unmarshalRequest : RawMessage → result string WriteRequest).
Context (sha256_hex : string → string) (hasWriter : bool) (errText : WriteErr → string).

Definition forget {A} (p : program wcall A) : program wcall unit := run _ := p in Return _ tt.

(** Producers and workers come and go. *)
Inductive writeHandler : program wcall unit → Prop :=
| HandleEnqueue req : writeHandler (forget (Enqueue marshalRequest req))
| HandleNext workerID lease maxAttempts : writeHandler (forget (ProcessNext unmarshalRequest sha256_hex hasWriter errText workerID lease maxAttempts)).

Notation spawnsW := (λ (_ : WriteDB) (_ : nat), writeHandler).
Notation stepW := (wstep performW spawnsW (λ _ _, False)).
Definition writesReachable (d : WriteDB) : Prop := ∃ threads, rtc stepW (mkWorld emptyWrites ∅) (mkWorld d threads).

Lemma writesReachable_inv d : writesReachable d → WriteInv unmarshalRequest sha256_hex d.
Proof.
  intros (threads & Hr). apply (worldInv_reachable performW (WriteInv unmarshalRequest sha256_hex) WriteRel) in Hr; [by destruct Hr as [? _ _]|..].
  - intros s T p HI Hp. exists (λ _, True). split_and!; [apply stable_pure|done|].
    destruct Hp; (apply safe_bind; eapply safety_mono; [|first [apply safe_Enqueue|apply safe_ProcessNext]]; done).
  - done.
  - split; cbn; try by intros; rewrite ?lookup_empty in *. constructor. intros id. split; [set_solver|intros (? & ? & ?); by rewrite lookup_empty in *].
Qed.

(** C24. Memory writes happen exactly once: however producers and workers are
    interleaved, whichever calls fail before or after their commit and whoever crashes, no
    two jobs have the same owner and idempotency key, no two rows the same owner and
    deduplication key, every row of an owner has exactly one outbox event (rows whose
    owner is not positive have none), and a completed job has its row (or asked for
    nothing). *)
Theorem memory_writes_exactly_once (d : WriteDB) : writesReachable d →
  (∀ id id' j j', db_jobs d !! id = Some j → db_jobs d !! id' = Some j' → wj_OwnerID j = wj_OwnerID j' → wj_IdempotencyKey j = wj_IdempotencyKey j' → id = id') ∧
  (∀ id id' m m' key, db_memories d !! id = Some m → db_memories d !! id' = Some m' → mem_OwnerID m = mem_OwnerID m' →
     mem_DeduplicationKey m = Some key → mem_DeduplicationKey m' = Some key → id = id') ∧
  (NoDup (ev_ResourceID <$> db_events d) ∧ ∀ id, id ∈ ev_ResourceID <$> db_events d ↔ ∃ m, db_memories d !! id = Some m ∧ 0 < mem_OwnerID m) ∧
  (∀ id j, db_jobs d !! id = Some j → wj_Status j = WriteJobStatusCompleted →
     ∃ req, jobRequest unmarshalRequest j = Ok req ∧ (nothingToWrite req = true ∨
       ∃ k m, db_memories d !! k = Some m ∧ mem_OwnerID m = wr_OwnerID req ∧ mem_DeduplicationKey m = Some (rowKey sha256_hex j req))).
Proof. intros [H1 H2 H3 H4 H5 H6 H7]%writesReachable_inv. split_and!; [done..|]. intros id j Hj Hc. exact (H7 id j Hj Hc). Qed.

(** A series of handlers without a fault at time [now]. *)
Definition execW (now : Z) (X : Type) (c : wcall X) : WriteDB → X * WriteDB :=
  match c in wcall X return WriteDB → X * WriteDB with
  | WClock => λ d, (now, d)
  | WCreateJob job => CreateJob job
  | WClaimPending w t until limit => ClaimPending w t until limit
  | WUpdateJob job => UpdateJob job
  | WCreateMemory item => λ d, (Ok (CreateMemory now item d).1, (CreateMemory now item d).2)
  end.

Lemma series_reachable now ps : (∀ p, p ∈ ps → writeHandler p.2) → writesReachable (runSeries (Tok := nat) (execW now) emptyWrites ps).
Proof.
  intros Hps. exists ∅. apply runSeries_reachable; [|by intros p Hp _; apply Hps].
  intros X c s. destruct c; cbn; [done|left; symmetry; apply surjective_pairing..|exists now; by left].
Qed.
End System.

(** Two producers with the same key, a worker, and a request that is encoded as itself. *)
Definition sampleRequest : WriteRequest := mkWriteRequest 7 0 9 0 None None 3 TypeArchival "" "use tabs" (float_of_Z 0) "ad_hoc" None "" "" 0.
Definition sampleMarshal (_ : WriteRequest) : result string RawMessage := Ok "payload".
Definition sampleUnmarshal (_ : RawMessage) : result string WriteRequest := Ok sampleRequest.
Definition sampleSeries : list (nat * nat * program wcall unit) :=
  [(0%nat, 9%nat, forget (Enqueue sampleMarshal (mkWriteJobRequest 7 "ad_hoc" "ad_hoc:3" sampleRequest)));
   (0%nat, 9%nat, forget (Enqueue sampleMarshal (mkWriteJobRequest 7 "ad_hoc" " ad_hoc:3 " sampleRequest)));
   (0%nat, 9%nat, forget (ProcessNext sampleUnmarshal (λ s, s) true (λ _, "") "worker" 0 0))].
Definition sampleWrites : WriteDB := runSeries (execW 100) emptyWrites sampleSeries.

Lemma memory_writes_exactly_once_witness :
  (wj_Status <$> (map_to_list (db_jobs sampleWrites)).*2) = [WriteJobStatusCompleted] ∧
  NoDup (ev_ResourceID <$> db_events sampleWrites) ∧ length (db_events sampleWrites) = 1%nat.
Proof.
  split; [vm_compute; reflexivity|]. split; [|vm_compute; reflexivity].
  apply (memory_writes_exactly_once sampleMarshal sampleUnmarshal (λ s, s) true (λ _, ""%string) sampleWrites).
  apply series_reachable. intros p Hp. repeat (apply elem_of_cons in Hp as [->|Hp]); [constructor..|by apply elem_of_nil in Hp].
Defined.

(** ** What the writer leaves out *)

(** The metadata of a request (the type, the confidence and the evidence of an extracted
    candidate; the evidence of a reflection or of a proposal) is not in the row. *)
Theorem write_drops_metadata (sha256_hex : string → string) (job : MemoryWriteJob) (req : WriteRequest) (item : Memory) :
  memoryOf sha256_hex job req = Ok item → mem_MetadataJSON item = ""%string.
Proof. unfold memoryOf. repeat case_match; try done. by intros [= <-]. Qed.

(** The delay before a retry doubles from one minute to 128; the maximum of six hours is
    never reached. *)
Lemma writeJobRetryDelay_range attempt : minute ≤ writeJobRetryDelay attempt ≤ 128 * minute.
Proof.
  unfold writeJobRetryDelay. set (a := if 8 <? _ then _ else _). assert (1 ≤ a ≤ 8) as Ha by (subst a; repeat case_match; bool_prop; lia).
  clearbody a. assert (1 ≤ 2 ^ (a - 1) ≤ 2 ^ 7) as Hp by (split; [apply (Z.pow_le_mono_r 2 0); lia|apply Z.pow_le_mono_r; lia]).
  change (2 ^ 7) with 128 in Hp. unfold writeJobMaxBackoff, hour, minute in *. case_match; bool_prop; lia.
Qed.
