(* ===== verification/DurableMemory.v ===== *)
(** The durable memory pipeline (internal/application/memory_usecase/durable_memory_pipeline.go,
    extraction_write_adapter.go) and its job table
    (internal/infrastructure/mysql/extraction_repo.go, internal/domain/memory/extraction.go):
    the debounced schedule of extraction jobs, the claim of a job under a lease, the
    extraction of candidates from the evidence of a window of messages chunk by chunk, the
    merge pass, the quality gate, the write jobs of the accepted candidates
    ([MemoryWrites]) and the completion of the job.

    Handlers are programs of [Threads].  The chat model, the message store, the
    conversation lock, the queue and the consolidation ([Projection]) are outside: their
    answers are arbitrary.  JSON decoding is a parameter. *)
From S2P Require Import Prelude GoStr Chat Json Redact Evidence MemoryDomain Threads MemoryWrites.
Open Scope Z_scope.
Open Scope calls_scope.

(** ** Candidates *)

Record ExtractionCandidate := mkCandidate {
  cand_Title : string;
  cand_Content : string;
  cand_Type : string;
  cand_Confidence : float64;
  cand_Importance : float64;
  cand_EvidenceRefs : list string
}.

(** Pointer fields: a missing key is [None]. *)
Record rawExtractionCandidate := mkRawCandidate {
  raw_Title : option string;
  raw_Content : option string;
  raw_Type : option string;
  raw_Confidence : option float64;
  raw_Importance : option float64;
  raw_EvidenceRefs : option (list string)
}.

Inductive DurableErr :=
| DErrText (msg : string)
| DErrInvalidJSON (msg : string)
| DErrNoCandidates
| DErrCandidate (index : Z) (field : string)
| DErrJobID
| DErrNoModel
| DErrNoWriter
| DErrMetadata (msg : string)
| DErrWrite (e : WriteErr)
| DErrNotFound
| DErrInvalidData
| DErrLeaseLost.

Definition materializeExtractionCandidate (raw : rawExtractionCandidate) : result string ExtractionCandidate :=
  match raw_Title raw, raw_Content raw, raw_Type raw, raw_Confidence raw, raw_Importance raw, raw_EvidenceRefs raw with
  | None, _, _, _, _, _ => Err "title"%string
  | _, None, _, _, _, _ => Err "content"%string
  | _, _, None, _, _, _ => Err "type"%string
  | _, _, _, None, _, _ => Err "confidence"%string
  | _, _, _, _, None, _ => Err "importance"%string
  | _, _, _, _, _, None => Err "evidence_refs"%string
  | Some title, Some content, Some type, Some confidence, Some importance, Some refs =>
    Ok (mkCandidate (TrimSpace title) (TrimSpace content) (TrimSpace type) confidence importance refs)
  end.

Fixpoint materializeAll (index : Z) (raws : list rawExtractionCandidate) : result DurableErr (list ExtractionCandidate) :=
  match raws with
  | [] => Ok []
  | raw :: rest =>
    match materializeExtractionCandidate raw with
    | Err field => Err (DErrCandidate index field)
    | Ok c => match materializeAll (index + 1) rest with Err e => Err e | Ok cs => Ok (c :: cs) end
    end
  end.

Definition extractDurableJSON (raw : string) : string :=
  let raw := TrimSpace raw in
  match Index raw "{", LastIndexByte raw (byte_of 125) with
  | Some start, Some stop => if (start <? stop)%nat then str_take (stop + 1 - start) (str_drop start raw) else raw
  | _, _ => raw
  end.

(** ** The quality gate *)

Definition durableGateMinConfidence : float64 := float_seven_tenths.
Definition durableGateMinImportance : float64 := float_half.

Definition scoreInRange (value : float64) : bool := negb (float_ltb value (float_of_Z 0)) && negb (float_ltb (float_of_Z 1) value).
Definition hasEvidenceRef (refs : list string) : bool := existsb (λ ref, negb (TrimSpace ref =? "")%string) refs.

(** The recorded reason, empty when the candidate passes.  [fixed2] is the verb [%.2f]. *)
Section Gate.
Context (fixed2 : float64 → string).

Definition scoreError (name : string) : string := (name ++ " is not a finite score in [0,1]")%string.
Definition belowMinimum (name : string) (value minimum : float64) : string := (name ++ " " ++ fixed2 value ++ " below minimum " ++ fixed2 minimum)%string.

Definition gateExtractionCandidate (c : ExtractionCandidate) : string :=
  if negb (scoreInRange (cand_Confidence c)) then scoreError "confidence"
  else if negb (scoreInRange (cand_Importance c)) then scoreError "importance"
  else if float_ltb (cand_Confidence c) durableGateMinConfidence then belowMinimum "confidence" (cand_Confidence c) durableGateMinConfidence
  else if float_ltb (cand_Importance c) durableGateMinImportance then belowMinimum "importance" (cand_Importance c) durableGateMinImportance
  else if (TrimSpace (cand_Title c) =? "")%string then "title is blank"
  else if (TrimSpace (cand_Content c) =? "")%string then "content is blank"
  else if negb (hasEvidenceRef (cand_EvidenceRefs c)) then "evidence references are missing"
  else if (redactedCandidateContent (cand_Content c) =? "")%string then "content is empty after secret redaction"
  else "".

Record candidateGateRejection := mkRejection { rej_Index : Z; rej_Title : string; rej_Reason : string }.

Definition gateStep (st : Z * list ExtractionCandidate * list candidateGateRejection) (c : ExtractionCandidate) :
    Z * list ExtractionCandidate * list candidateGateRejection :=
  let '(index, accepted, rejections) := st in
  let reason := gateExtractionCandidate c in
  if (reason =? "")%string then (index + 1, accepted ++ [c], rejections)
  else (index + 1, accepted, rejections ++ [mkRejection index (cand_Title c) reason]).
Definition gateExtractionCandidates (candidates : list ExtractionCandidate) : list ExtractionCandidate * list candidateGateRejection :=
  let '(_, accepted, rejections) := foldl gateStep (0, [], []) candidates in (accepted, rejections).
End Gate.

(** ** Results *)

Definition durableExtractionOutcomeExtracted : string := "extracted".
Definition durableExtractionOutcomeNoOutput : string := "no_output".

(** [res_Merge] is [None] when the merge pass has not run. *)
Record durableExtractionResult := mkResult {
  res_Chunks : gmap Z (list ExtractionCandidate);
  res_Merge : option (list ExtractionCandidate);
  res_Outcome : string;
  res_WindowAfter : Z;
  res_WindowThrough : Z;
  res_Rejections : list candidateGateRejection
}.
Definition emptyResult : durableExtractionResult := mkResult ∅ None "" 0 0 [].
Definition set_Outcome (o : string) (r : durableExtractionResult) : durableExtractionResult :=
  mkResult (res_Chunks r) (res_Merge r) o (res_WindowAfter r) (res_WindowThrough r) (res_Rejections r).
Definition set_Chunks (m : gmap Z (list ExtractionCandidate)) (r : durableExtractionResult) : durableExtractionResult :=
  mkResult m (res_Merge r) (res_Outcome r) (res_WindowAfter r) (res_WindowThrough r) (res_Rejections r).
Definition set_Merge (m : option (list ExtractionCandidate)) (r : durableExtractionResult) : durableExtractionResult :=
  mkResult (res_Chunks r) m (res_Outcome r) (res_WindowAfter r) (res_WindowThrough r) (res_Rejections r).
Definition set_Window (after through : Z) (r : durableExtractionResult) : durableExtractionResult :=
  mkResult (res_Chunks r) (res_Merge r) (res_Outcome r) after through (res_Rejections r).
Definition set_Rejections (l : list candidateGateRejection) (r : durableExtractionResult) : durableExtractionResult :=
  mkResult (res_Chunks r) (res_Merge r) (res_Outcome r) (res_WindowAfter r) (res_WindowThrough r) l.

(** The candidates of the merge pass, or those of the chunks by ascending index. *)
Definition gateCandidates (r : durableExtractionResult) : list ExtractionCandidate :=
  match res_Merge r with
  | Some merged => merged
  | None => concat (snd <$> sort_stable (λ x y, x.1 <? y.1) (map_to_list (res_Chunks r)))
  end.
Definition acceptedOf (fixed2 : float64 → string) (r : durableExtractionResult) : list ExtractionCandidate :=
  (gateExtractionCandidates fixed2 (gateCandidates r)).1.
Definition gateExtractionResult (fixed2 : float64 → string) (r : durableExtractionResult) : list ExtractionCandidate * durableExtractionResult :=
  let '(accepted, rejections) := gateExtractionCandidates fixed2 (gateCandidates r) in (accepted, set_Rejections rejections r).

(** ** Jobs *)

Definition ExtractionPending : string := "pending".
Definition ExtractionRunning : string := "running".
Definition ExtractionCompleted : string := "completed".
Definition ExtractionFailed : string := "failed".
Definition ExtractionSuperseded : string := "superseded".
Definition durableTriggerReason : string := "durable".

Record ExtractionJob := mkExtractionJob {
  job_ID : Z;
  job_OwnerID : Z;
  job_ConversationID : Z;
  job_IdempotencyKey : string;
  job_TriggerReason : string;
  job_ThroughMessageID : Z;
  job_Status : string;
  job_DueAt : option Z;
  job_AttemptCount : Z;
  job_Phase2AttemptCount : Z;
  job_LockedBy : string;
  job_LockedAt : option Z;
  job_LeaseExpiresAt : option Z;
  job_ResultJSON : RawMessage;
  job_ErrorMessage : string;
  job_CompletedAt : option Z
}.

Definition terminal (status : string) : bool := one_of status [ExtractionCompleted; ExtractionFailed; ExtractionSuperseded].

(** The mutable columns of a row: boundary, status, due time, attempts, lock, result,
    message, completion. *)
Definition job_with (through : Z) (status : string) (due : option Z) (attempts phase2 : Z) (lockedBy : string) (lockedAt lease : option Z)
    (resultJSON : RawMessage) (message : string) (completed : option Z) (j : ExtractionJob) : ExtractionJob :=
  mkExtractionJob (job_ID j) (job_OwnerID j) (job_ConversationID j) (job_IdempotencyKey j) (job_TriggerReason j) through status due attempts phase2
    lockedBy lockedAt lease resultJSON message completed.
Definition job_setThrough (through : Z) (j : ExtractionJob) : ExtractionJob :=
  job_with through (job_Status j) (job_DueAt j) (job_AttemptCount j) (job_Phase2AttemptCount j) (job_LockedBy j) (job_LockedAt j) (job_LeaseExpiresAt j)
    (job_ResultJSON j) (job_ErrorMessage j) (job_CompletedAt j) j.
Definition job_setDue (due : option Z) (j : ExtractionJob) : ExtractionJob :=
  job_with (job_ThroughMessageID j) (job_Status j) due (job_AttemptCount j) (job_Phase2AttemptCount j) (job_LockedBy j) (job_LockedAt j) (job_LeaseExpiresAt j)
    (job_ResultJSON j) (job_ErrorMessage j) (job_CompletedAt j) j.
Definition job_setResult (raw : RawMessage) (j : ExtractionJob) : ExtractionJob :=
  job_with (job_ThroughMessageID j) (job_Status j) (job_DueAt j) (job_AttemptCount j) (job_Phase2AttemptCount j) (job_LockedBy j) (job_LockedAt j) (job_LeaseExpiresAt j)
    raw (job_ErrorMessage j) (job_CompletedAt j) j.
Definition job_setCompletedAt (t : option Z) (j : ExtractionJob) : ExtractionJob :=
  job_with (job_ThroughMessageID j) (job_Status j) (job_DueAt j) (job_AttemptCount j) (job_Phase2AttemptCount j) (job_LockedBy j) (job_LockedAt j) (job_LeaseExpiresAt j)
    (job_ResultJSON j) (job_ErrorMessage j) t j.
(** A status with a message, the lock given up. *)
Definition job_release (status message : string) (due : option Z) (j : ExtractionJob) : ExtractionJob :=
  job_with (job_ThroughMessageID j) status due (job_AttemptCount j) (job_Phase2AttemptCount j) "" None None (job_ResultJSON j) message (job_CompletedAt j) j.
Definition job_setPhase2 (message : string) (due : option Z) (count : Z) (j : ExtractionJob) : ExtractionJob :=
  job_with (job_ThroughMessageID j) (job_Status j) due (job_AttemptCount j) count (job_LockedBy j) (job_LockedAt j) (job_LeaseExpiresAt j)
    (job_ResultJSON j) message (job_CompletedAt j) j.

(** ** The job table *)

Record DurableDB := mkDurableDB { db_extractions : gmap Z ExtractionJob; db_writes : WriteDB }.
Definition set_extractions (m : gmap Z ExtractionJob) (d : DurableDB) : DurableDB := mkDurableDB m (db_writes d).
Definition set_row (j : ExtractionJob) (d : DurableDB) : DurableDB := set_extractions (<[job_ID j := j]> (db_extractions d)) d.

Definition findJob (ownerID id : Z) (d : DurableDB) : option ExtractionJob :=
  j ← db_extractions d !! id; if job_OwnerID j =? ownerID then Some j else None.

Definition ClaimByID (now ownerID id : Z) (workerID : string) (until : Z) (d : DurableDB) : result DurableErr (ExtractionJob * bool) * DurableDB :=
  match findJob ownerID id d with
  | None => (Err DErrNotFound, d)
  | Some job =>
    if terminal (job_Status job) then (Ok (job, false), d)
    else if (job_Status job =? ExtractionRunning)%string && negb (job_LockedBy job =? "")%string &&
            match job_LeaseExpiresAt job with Some t => now <? t | None => false end then (Ok (job, false), d)
    else if 5 <=? job_AttemptCount job then
      let job := job_with (job_ThroughMessageID job) ExtractionFailed (job_DueAt job) (job_AttemptCount job) (job_Phase2AttemptCount job) "" None None
                   (job_ResultJSON job) "maximum extraction attempts exceeded" (job_CompletedAt job) job in
      (Ok (job, false), set_row job d)
    else
      let job := job_with (job_ThroughMessageID job) ExtractionRunning (job_DueAt job) (job_AttemptCount job + 1) (job_Phase2AttemptCount job) workerID (Some now) (Some until)
                   (job_ResultJSON job) (job_ErrorMessage job) (job_CompletedAt job) job in
      (Ok (job, true), set_row job d)
  end.

Definition RenewLease (id : Z) (workerID : string) (until : Z) (d : DurableDB) : option DurableErr * DurableDB :=
  match db_extractions d !! id with
  | Some j =>
    if (job_LockedBy j =? workerID)%string && (job_Status j =? ExtractionRunning)%string then
      (None, set_row (job_with (job_ThroughMessageID j) (job_Status j) (job_DueAt j) (job_AttemptCount j) (job_Phase2AttemptCount j) (job_LockedBy j) (job_LockedAt j)
                        (Some until) (job_ResultJSON j) (job_ErrorMessage j) (job_CompletedAt j) j) d)
    else (Some DErrLeaseLost, d)
  | None => (Some DErrLeaseLost, d)
  end.

Definition stampCompleted (now : Z) (job : ExtractionJob) : ExtractionJob :=
  if terminal (job_Status job) then job_setCompletedAt (Some now) job else job.

(** The row that [UpdateOwned] may write: running, held by the worker, its lease not over. *)
Definition heldRow (now : Z) (job : ExtractionJob) (workerID : string) (d : DurableDB) : option ExtractionJob :=
  row ← db_extractions d !! job_ID job;
  if (job_OwnerID row =? job_OwnerID job) && (job_LockedBy row =? workerID)%string && (job_Status row =? ExtractionRunning)%string &&
     match job_LeaseExpiresAt row with Some t => now <? t | None => false end
  then Some row else None.

(** [UpdateOwned] writes the status, the due time, the result, the message and the
    completion; the lock is cleared unless the job goes on running. *)
Definition UpdateOwned (now : Z) (job : ExtractionJob) (workerID : string) (d : DurableDB) : (ExtractionJob * option DurableErr) * DurableDB :=
  if (workerID =? "")%string then ((job, Some DErrInvalidData), d)
  else
    let job := stampCompleted now job in
    match heldRow now job workerID d with
    | None => ((job, Some DErrLeaseLost), d)
    | Some row =>
      let keep := (job_Status job =? ExtractionRunning)%string in
      let row := job_with (job_ThroughMessageID row) (job_Status job) (job_DueAt job) (job_AttemptCount row) (job_Phase2AttemptCount row)
                   (if keep then job_LockedBy row else "") (if keep then job_LockedAt row else None) (if keep then job_LeaseExpiresAt row else None)
                   (job_ResultJSON job) (job_ErrorMessage job) (job_CompletedAt job) row in
      ((job, None), set_row row d)
    end.

(** [Update]: [Save] writes every column. *)
Definition UpdateExtraction (now : Z) (job : ExtractionJob) (d : DurableDB) : (ExtractionJob * option DurableErr) * DurableDB :=
  let job := stampCompleted now job in ((job, None), set_row job d).

(** The newest row (by id) that a clause selects. *)
Definition latestWhere (P : ExtractionJob → bool) (d : DurableDB) : option ExtractionJob := snd <$> last (rowsWhere P (db_extractions d)).
Definition durableOf (ownerID conversationID : Z) (j : ExtractionJob) : bool :=
  (job_OwnerID j =? ownerID) && (job_ConversationID j =? conversationID) && (job_TriggerReason j =? durableTriggerReason)%string.

Definition LatestDurableJob (ownerID conversationID : Z) (d : DurableDB) : option ExtractionJob := latestWhere (durableOf ownerID conversationID) d.
Definition LatestCompletedDurableThrough (ownerID conversationID : Z) (d : DurableDB) : Z :=
  default 0 (job_ThroughMessageID <$> latestWhere (λ j, durableOf ownerID conversationID j && (job_Status j =? ExtractionCompleted)%string) d).

Definition RefreshPendingBoundary (ownerID id through due : Z) (d : DurableDB) : bool * DurableDB :=
  match findJob ownerID id d with
  | Some j => if (job_Status j =? ExtractionPending)%string then (true, set_row (job_setDue (Some due) (job_setThrough through j)) d) else (false, d)
  | None => (false, d)
  end.

Definition durableInitialKey (ownerID conversationID : Z) : string := ("durable:" ++ Itoa ownerID ++ ":" ++ Itoa conversationID ++ ":initial")%string.
Definition durableSuccessorKey (ownerID conversationID jobID : Z) : string :=
  ("durable:" ++ Itoa ownerID ++ ":" ++ Itoa conversationID ++ ":after-job:" ++ Itoa jobID)%string.
Definition newBoundaryRow (ownerID conversationID through due : Z) (latest : option ExtractionJob) : ExtractionJob :=
  let key := match latest with None => durableInitialKey ownerID conversationID | Some j => durableSuccessorKey ownerID conversationID (job_ID j) end in
  mkExtractionJob 0 ownerID conversationID key durableTriggerReason through ExtractionPending (Some due) 0 0 "" None None "" "" None.

Definition extractionByKey (ownerID : Z) (key : string) (d : DurableDB) : option ExtractionJob :=
  snd <$> head (rowsWhere (λ j, (job_OwnerID j =? ownerID) && (job_IdempotencyKey j =? key)%string) (db_extractions d)).
Definition job_setID (id : Z) (j : ExtractionJob) : ExtractionJob :=
  mkExtractionJob id (job_OwnerID j) (job_ConversationID j) (job_IdempotencyKey j) (job_TriggerReason j) (job_ThroughMessageID j) (job_Status j) (job_DueAt j)
    (job_AttemptCount j) (job_Phase2AttemptCount j) (job_LockedBy j) (job_LockedAt j) (job_LeaseExpiresAt j) (job_ResultJSON j) (job_ErrorMessage j) (job_CompletedAt j).

(** [Create] under the unique key of owner and idempotency key. *)
Definition CreateExtraction (row : ExtractionJob) (d : DurableDB) : result DurableErr ExtractionJob * DurableDB :=
  match extractionByKey (job_OwnerID row) (job_IdempotencyKey row) d with
  | Some _ => (Err (DErrText "duplicate key"), d)
  | None => let row := job_setID (nextID (db_extractions d)) row in (Ok row, set_row row d)
  end.

(** [ScheduleDurableBoundary], one transaction under the lock of the newest row. *)
Definition ScheduleDurableBoundary (ownerID conversationID through due : Z) (d : DurableDB) : result DurableErr (ExtractionJob * bool) * DurableDB :=
  let latest := LatestDurableJob ownerID conversationID d in
  let create :=
    let row := newBoundaryRow ownerID conversationID through due latest in
    match CreateExtraction row d with
    | (Ok row, d') => (Ok (row, true), d')
    | (Err e, _) => (match extractionByKey ownerID (job_IdempotencyKey row) d with Some existing => Ok (existing, false) | None => Err e end, d)
    end in
  match latest with
  | Some j =>
    if (job_Status j =? ExtractionPending)%string then
      match RefreshPendingBoundary ownerID (job_ID j) through due d with
      | (true, d') => (Ok (job_setDue (Some due) (job_setThrough through j), false), d')
      | (false, _) => create
      end
    else create
  | None => create
  end.

Definition listLimit (limit default_ : Z) : nat := Z.to_nat (if limit <=? 0 then default_ else limit).
Definition ListPending (now limit : Z) (d : DurableDB) : list ExtractionJob :=
  take (listLimit limit 10) (snd <$> rowsWhere (λ j,
    ((job_Status j =? ExtractionPending)%string && match job_DueAt j with None => true | Some t => t <=? now end) ||
    ((job_Status j =? ExtractionRunning)%string && match job_LeaseExpiresAt j with None => false | Some t => t <? now end)) (db_extractions d)).
Definition ListPhase2Retries (now limit : Z) (d : DurableDB) : list ExtractionJob :=
  take (listLimit limit 20) (snd <$> rowsWhere (λ j,
    (job_Status j =? ExtractionCompleted)%string && (job_TriggerReason j =? "durable")%string && HasPrefix (job_ErrorMessage j) "phase2:" &&
    match job_DueAt j with None => true | Some t => t <=? now end) (db_extractions d)).

(** ** Calls *)

Inductive dcall : Type → Type :=
| DClock : dcall Z
| DClaimByID (ownerID id : Z) (workerID : string) (until : Z) : dcall (result DurableErr (ExtractionJob * bool))
| DUpdateOwned (job : ExtractionJob) (workerID : string) : dcall (ExtractionJob * option DurableErr)
| DUpdate (job : ExtractionJob) : dcall (ExtractionJob * option DurableErr)
| DSchedule (ownerID conversationID through due : Z) : dcall (result DurableErr (ExtractionJob * bool))
| DLatestDurable (ownerID conversationID : Z) : dcall (result DurableErr (option ExtractionJob))
| DRefresh (ownerID id through due : Z) : dcall (result DurableErr bool)
| DCreate (row : ExtractionJob) : dcall (result DurableErr ExtractionJob)
| DFindByKey (ownerID : Z) (key : string) : dcall (result DurableErr ExtractionJob)
| DLatestCompleted (ownerID conversationID : Z) : dcall (result DurableErr Z)
| DListPending (limit : Z) : dcall (result DurableErr (list ExtractionJob))
| DListPhase2 (limit : Z) : dcall (result DurableErr (list ExtractionJob))
(** The message store, the conversation lock, the chat model, the consolidation and the
    queue. *)
| DLatestMessageID (ownerID conversationID : Z) : dcall (Z * option DurableErr)
| DMessages (ownerID conversationID after through : Z) : dcall (result DurableErr (list MessageRow))
| DLock (ownerID conversationID : Z) : dcall (option DurableErr)
| DUnlock (ownerID conversationID : Z) : dcall unit
| DChat (prompt : string) : dcall (result DurableErr string)
| DConsolidate (ownerID : Z) : dcall (option DurableErr)
| DPublish (job : ExtractionJob) : dcall unit
(** A call of the write pipeline. *)
| DWrites {X : Type} (c : wcall X) : dcall X.

Notation dprog := (program dcall).

Fixpoint lift {A} (p : program wcall A) : dprog A :=
  match p with
  | Return _ a => Return _ a
  | Ask _ c k => Ask _ (DWrites c) (λ x, lift (k x))
  end.

Definition failed {A} (msg : string) : result DurableErr A := Err (DErrText msg).

(** A read, which may fail. *)
Definition reading {A} (answer : A) (d : DurableDB) (x : result DurableErr A) (d' : DurableDB) : Prop := transaction (Ok answer, d) failed d x d'.

(** The clock advances as it likes; the outside answers as it likes. *)
Definition performD (X : Type) (c : dcall X) : DurableDB → X → DurableDB → Prop :=
  match c in dcall X return DurableDB → X → DurableDB → Prop with
  | DClock | DLatestMessageID _ _ | DMessages _ _ _ _ | DLock _ _ | DUnlock _ _ | DChat _ | DConsolidate _ | DPublish _ => λ d _ d', d' = d
  | DClaimByID o id w until => λ d x d', ∃ now, transaction (ClaimByID now o id w until d) failed d x d'
  | DUpdateOwned job w => λ d x d', ∃ now, transaction (UpdateOwned now job w d) (λ msg, (stampCompleted now job, Some (DErrText msg))) d x d'
  | DUpdate job => λ d x d', ∃ now, transaction (UpdateExtraction now job d) (λ msg, (stampCompleted now job, Some (DErrText msg))) d x d'
  | DSchedule o c t due => λ d, transaction (ScheduleDurableBoundary o c t due d) failed d
  | DLatestDurable o c => λ d, reading (LatestDurableJob o c d) d
  | DRefresh o id t due => λ d, transaction (Ok (RefreshPendingBoundary o id t due d).1, (RefreshPendingBoundary o id t due d).2) failed d
  | DCreate row => λ d, transaction (CreateExtraction row d) failed d
  | DFindByKey o key => λ d, transaction (match extractionByKey o key d with Some j => Ok j | None => Err DErrNotFound end, d) failed d
  | DLatestCompleted o c => λ d, reading (LatestCompletedDurableThrough o c d) d
  | DListPending limit => λ d x d', ∃ now, reading (ListPending now limit d) d x d'
  | DListPhase2 limit => λ d x d', ∃ now, reading (ListPhase2Retries now limit d) d x d'
  | DWrites c => λ d x d', performW _ c (db_writes d) x (db_writes d') ∧ db_extractions d' = db_extractions d
  end.

(** ** Scheduling *)

(** [scheduleDurableBoundaryStepwise]: the same decision from the separate queries. *)
Definition scheduleDurableBoundaryStepwise (ownerID conversationID through due : Z) : dprog (result DurableErr (ExtractionJob * bool)) :=
  ask found := DLatestDurable ownerID conversationID in
  match found with
  | Err e => Return _ (Err e)
  | Ok latest =>
    let create :=
      let row := newBoundaryRow ownerID conversationID through due latest in
      ask created := DCreate row in
      match created with
      | Ok row => Return _ (Ok (row, true))
      | Err e =>
        ask existing := DFindByKey ownerID (job_IdempotencyKey row) in
        Return _ (match existing with Ok j => Ok (j, false) | Err _ => Err e end)
      end in
    match latest with
    | Some j =>
      if (job_Status j =? ExtractionPending)%string then
        ask refreshed := DRefresh ownerID (job_ID j) through due in
        match refreshed with
        | Err e => Return _ (Err e)
        | Ok true => Return _ (Ok (job_setDue (Some due) (job_setThrough through j), false))
        | Ok false => create
        end
      else create
    | None => create
    end
  end.

(** [scheduleDurableBoundary]: the repository has the transaction or not. *)
Definition scheduleDurableBoundary (transactional : bool) (ownerID conversationID through due : Z) : dprog (result DurableErr (ExtractionJob * bool)) :=
  if transactional then ask r := DSchedule ownerID conversationID through due in Return _ r
  else scheduleDurableBoundaryStepwise ownerID conversationID through due.

(** The function that [NewDurableMemoryTrigger] gives, with a queue. *)
Definition durableTrigger (transactional : bool) (idle ownerID conversationID : Z) : dprog unit :=
  if (ownerID <=? 0) || (conversationID <=? 0) then Return _ tt
  else
    ask (through, err) := DLatestMessageID ownerID conversationID in
    if bool_decide (err ≠ None) || (through <=? 0) then Return _ tt
    else
      ask now := DClock in
      run scheduled := scheduleDurableBoundary transactional ownerID conversationID through (now + (if idle <=? 0 then minute else idle)) in
      match scheduled with
      | Ok (job, true) => match job_DueAt job with None => Return _ tt | Some _ => ask _ := DPublish job in Return _ tt end
      | _ => Return _ tt
      end.

(** ** The worker *)

Record DurableMemoryPayload := mkPayload { payload_JobID : Z; payload_OwnerID : Z; payload_ConversationID : Z }.

Definition durableStage1Lease : Z := 2 * minute.
Definition durablePhase2MaxBackoff : Z := 6 * hour.
Definition durableMergeSummaryRunes : nat := 1200.

Definition durablePhase2RetryDelay (attempt : Z) : Z :=
  let attempt := if attempt <? 1 then 1 else attempt in
  let attempt := if 8 <? attempt then 8 else attempt in
  let delay := minute * 2 ^ (attempt - 1) in
  if durablePhase2MaxBackoff <? delay then durablePhase2MaxBackoff else delay.

(** A text in which a tick stands for a double quote. *)
Definition ticks (s : string) : string := of_bytes ((λ c, if byte_val c =? 96 then byte_of 34 else c) <$> bytes s).

Definition candidateFormat : string :=
  ticks "{`candidates`:[{`title`:`...`,`content`:`...`,`type`:`lesson|preference|fact|constraint`,`confidence`:0.0,`importance`:0.0,`evidence_refs`:[`messages:<from>-<to>`,`tool_call:<id>`]}]}".

Definition chunkEvidence (chunk : EvidenceChunk) : string := String.concat "" ((λ u, evidenceChunkedText u ++ newline)%string <$> chunk_Units chunk).

Definition extractionPrompt (chunk : EvidenceChunk) : string :=
  ("Extract durable, reusable memories from this conversation evidence. Do not invent facts. Every candidate must cite evidence from this chunk. Return JSON only: "
   ++ candidateFormat ++ ". Return an empty candidates array when nothing is durable." ++ newline ++ newline ++ "EVIDENCE:" ++ newline
   ++ redactDurableSecrets (chunkEvidence chunk))%string.

Definition mergeChunkSummary (chunk : EvidenceChunk) : string :=
  let summary := Join (Fields (redactDurableSecrets (chunkEvidence chunk))) " " in
  if (durableMergeSummaryRunes <? length (runes summary))%nat then (of_runes (take durableMergeSummaryRunes (runes summary)) ++ "...")%string else summary.

Section Worker.
Context (unmarshalMetadata : RawMessage → option RawMetadata) (canonicalJSON : string → option string).
Context (fixed2 : float64 → string).
(** encoding/json: the results, the reply of the model, candidates and their metadata.
    [probeChunks] decodes only the member [chunks]; [unmarshalResult] answers [None] when
    that member is null. *)
Context (marshalResult : durableExtractionResult → result string RawMessage).
Context (probeChunks : string → result string RawMessage) (unmarshalResult : string → result string (option durableExtractionResult)).
Context (unmarshalEnvelope : string → result string (option (list rawExtractionCandidate))).
Context (marshalCandidate : ExtractionCandidate → option string).
Context (marshalProvenance : string → float64 → list string → result string RawMessage).
Context (marshalRequest : WriteRequest → result string RawMessage).
Context (errText : DurableErr → string).
(** The worker's id; a chat client with a model; a write pipeline. *)
Context (workerID : string) (hasModel hasWrites : bool).

Definition parseExtractionCandidates (raw : string) : result DurableErr (list ExtractionCandidate) :=
  match unmarshalEnvelope raw with
  | Err e => Err (DErrInvalidJSON e)
  | Ok None => Err DErrNoCandidates
  | Ok (Some raws) => materializeAll 0 raws
  end.

Definition decodeDurableExtractionResult (raw : RawMessage) : durableExtractionResult * bool :=
  let trimmed := TrimSpace raw in
  if (trimmed =? "")%string then (emptyResult, false)
  else match probeChunks trimmed with
  | Err _ => (emptyResult, false)
  | Ok chunks =>
    if (chunks =? "")%string then (emptyResult, false)
    else match unmarshalResult trimmed with Ok (Some r) => (r, true) | _ => (emptyResult, false) end
  end.

Definition updateJob (leaseOwner : string) (job : ExtractionJob) : dprog (ExtractionJob * option DurableErr) :=
  let owner := TrimSpace leaseOwner in
  if (owner =? "")%string then ask r := DUpdate job in Return _ r else ask r := DUpdateOwned job owner in Return _ r.

Definition previousBoundary (job : ExtractionJob) : dprog Z :=
  if job_ThroughMessageID job <=? 0 then Return _ 0
  else
    ask boundary := DLatestCompleted (job_OwnerID job) (job_ConversationID job) in
    Return _ (match boundary with Ok through => through | Err _ => 0 end).

(** The job and the result in memory, and an error. *)
Notation outcome := (ExtractionJob * durableExtractionResult * option DurableErr)%type.

Definition chatCandidates (prompt : string) : dprog (result DurableErr (list ExtractionCandidate)) :=
  ask reply := DChat prompt in
  Return _ (match reply with Err e => Err e | Ok content => parseExtractionCandidates (extractDurableJSON content) end).

(** Storing the result: [Marshal] leaves nothing when it fails. *)
Definition storeResult (leaseOwner : string) (job : ExtractionJob) (r : durableExtractionResult) : dprog (ExtractionJob * option DurableErr) :=
  match marshalResult r with
  | Err e => Return _ (job, Some (DErrText e))
  | Ok encoded => updateJob leaseOwner (job_setResult encoded job)
  end.

Fixpoint extractMissing (leaseOwner : string) (job : ExtractionJob) (r : durableExtractionResult) (chunks : list EvidenceChunk) : dprog outcome :=
  match chunks with
  | [] => Return _ (job, r, None)
  | chunk :: rest =>
    match res_Chunks r !! chunk_Index chunk with
    | Some _ => extractMissing leaseOwner job r rest
    | None =>
      run extracted := chatCandidates (extractionPrompt chunk) in
      match extracted with
      | Err e => Return _ (job, r, Some e)
      | Ok candidates =>
        let r := set_Chunks (<[chunk_Index chunk := candidates]> (res_Chunks r)) r in
        run (job, err) := storeResult leaseOwner job r in
        match err with Some e => Return _ (job, r, Some e) | None => extractMissing leaseOwner job r rest end
      end
    end
  end.

Definition extractChunks (leaseOwner : string) (job : ExtractionJob) (r : durableExtractionResult) (chunks : list EvidenceChunk) : dprog outcome :=
  match chunks with
  | [] => Return _ (job, set_Outcome durableExtractionOutcomeNoOutput r, None)
  | _ => if hasModel then extractMissing leaseOwner job r chunks else Return _ (job, r, Some DErrNoModel)
  end.

Definition mergeCandidateLines (r : durableExtractionResult) (chunk : EvidenceChunk) : list string :=
  omap (λ c, (λ encoded, "[chunk " ++ Itoa (chunk_Index chunk) ++ "] " ++ encoded ++ newline)%string <$> marshalCandidate c) (default [] (res_Chunks r !! chunk_Index chunk)).

Definition buildMergePrompt (r : durableExtractionResult) (chunks : list EvidenceChunk) : string :=
  ("Merge the memory candidates extracted from " ++ Itoa (Z.of_nat (length chunks))
   ++ " evidence chunks of the SAME conversation window into one deduplicated list. Prefer candidates supported by multiple chunks, merge their evidence refs, and drop near-duplicates. Do not invent facts beyond the supplied candidates. Return JSON only: "
   ++ candidateFormat ++ ". Return an empty candidates array when nothing survives." ++ newline ++ newline ++ "CHUNK SUMMARIES:" ++ newline
   ++ String.concat "" ((λ chunk, "[chunk " ++ Itoa (chunk_Index chunk) ++ "] " ++ mergeChunkSummary chunk ++ newline)%string <$> chunks)
   ++ newline ++ "CANDIDATES:" ++ newline
   ++ String.concat "" (chunks ≫= mergeCandidateLines r))%string.

Definition mergeExtractionChunks (leaseOwner : string) (job : ExtractionJob) (r : durableExtractionResult) (chunks : list EvidenceChunk) : dprog outcome :=
  if negb (res_Outcome r =? "")%string || (length chunks <=? 1)%nat || bool_decide (is_Some (res_Merge r)) then Return _ (job, r, None)
  else
    run merged := chatCandidates (buildMergePrompt r chunks) in
    match merged with
    | Err e => Return _ (job, r, Some e)
    | Ok candidates =>
      let r := set_Merge (Some candidates) r in
      run (job, err) := storeResult leaseOwner job r in Return _ (job, r, err)
    end.

(** *** Write jobs *)

Definition extractionWriteKey (jobID : Z) (index : nat) : string := ("extraction:" ++ Itoa jobID ++ ":" ++ Itoa (Z.of_nat index))%string.

Definition extractionWriteRequest (job : ExtractionJob) (index : nat) (c : ExtractionCandidate) : result DurableErr WriteJobRequest :=
  match marshalProvenance (cand_Type c) (cand_Confidence c) (cand_EvidenceRefs c) with
  | Err e => Err (DErrMetadata e)
  | Ok metadata =>
    Ok (mkWriteJobRequest (job_OwnerID job) "extraction" (extractionWriteKey (job_ID job) index)
          (mkWriteRequest (job_OwnerID job) 0 (job_ConversationID job) 0 (Some (job_ConversationID job)) None 0 TypeArchival
             (redactDurableSecrets (cand_Title c)) (redactDurableSecrets (cand_Content c)) (cand_Importance c) "extraction" None metadata "" 0))
  end.

Fixpoint enqueueFrom (job : ExtractionJob) (index : nat) (candidates : list ExtractionCandidate) : dprog (option DurableErr) :=
  match candidates with
  | [] => Return _ None
  | c :: rest =>
    match extractionWriteRequest job index c with
    | Err e => Return _ (Some e)
    | Ok req =>
      run err := lift (Enqueue marshalRequest req) in
      match err with Some e => Return _ (Some (DErrWrite e)) | None => enqueueFrom job (S index) rest end
    end
  end.

Definition enqueueExtractionWrites (job : ExtractionJob) (candidates : list ExtractionCandidate) : dprog (option DurableErr) :=
  match candidates with
  | [] => Return _ None
  | _ => if hasWrites then enqueueFrom job 0 candidates else Return _ (Some DErrNoWriter)
  end.

(** *** An attempt *)

(** Phase 1 is complete; then the consolidation, unless there was no output. *)
Definition complete (leaseOwner : string) (job : ExtractionJob) (result : durableExtractionResult) : dprog (ExtractionJob * option DurableErr) :=
  ask now := DClock in
  let job := job_setCompletedAt (Some now) (job_release ExtractionCompleted "" (job_DueAt job) job) in
  run (job, err) := updateJob leaseOwner job in
  match err with
  | Some e => Return _ (job, Some e)
  | None =>
    if (res_Outcome result =? durableExtractionOutcomeNoOutput)%string then Return _ (job, None)
    else
      ask err := DConsolidate (job_OwnerID job) in
      match err with
      | None => Return _ (job, None)
      | Some e =>
        ask now := DClock in
        let count := job_Phase2AttemptCount job + 1 in
        run (job, _) := updateJob "" (job_setPhase2 ("phase2:" ++ errText e) (Some (now + durablePhase2RetryDelay count)) count job) in
        Return _ (job, Some e)
      end
  end.

(** The write jobs first, then the terminal outcome. *)
Definition settle (leaseOwner : string) (job : ExtractionJob) (accepted : list ExtractionCandidate) (r : durableExtractionResult) :
    dprog (ExtractionJob * option DurableErr) :=
  match marshalResult r with
  | Err e => Return _ (job_setResult "" job, Some (DErrText e))
  | Ok encoded =>
    let job := job_setResult encoded job in
    run err := enqueueExtractionWrites job accepted in
    match err with
    | Some e => Return _ (job, Some e)
    | None =>
      if (res_Outcome r =? "")%string then
        let r := set_Outcome (match accepted with [] => durableExtractionOutcomeNoOutput | _ => durableExtractionOutcomeExtracted end) r in
        match marshalResult r with
        | Err e => Return _ (job_setResult "" job, Some (DErrText e))
        | Ok encoded => complete leaseOwner (job_setResult encoded job) r
        end
      else complete leaseOwner job r
    end
  end.

Definition extractWindow (leaseOwner : string) (job : ExtractionJob) (previous : Z) (r : durableExtractionResult) : dprog (ExtractionJob * option DurableErr) :=
  let r := if negb (res_WindowAfter r =? previous) || negb (res_WindowThrough r =? job_ThroughMessageID job) then emptyResult else r in
  ask messages := DMessages (job_OwnerID job) (job_ConversationID job) previous (job_ThroughMessageID job) in
  match messages with
  | Err e => Return _ (job, Some e)
  | Ok rows =>
    let r := set_Window previous (job_ThroughMessageID job) r in
    let chunks := NewEvidenceChunker (Render unmarshalMetadata canonicalJSON rows) in
    run (job, r, err) := extractChunks leaseOwner job r chunks in
    match err with
    | Some e => Return _ (job, Some e)
    | None =>
      run (job, r, err) := mergeExtractionChunks leaseOwner job r chunks in
      match err with
      | Some e => Return _ (job, Some e)
      | None =>
        let '(accepted, r) := if (res_Outcome r =? "")%string then gateExtractionResult fixed2 r else ([], r) in
        settle leaseOwner job accepted r
      end
    end
  end.

(** Under the lock of the conversation. *)
Definition extract (leaseOwner : string) (job : ExtractionJob) : dprog (ExtractionJob * option DurableErr) :=
  let '(r, resumable) := decodeDurableExtractionResult (job_ResultJSON job) in
  if (TrimSpace (job_ResultJSON job) =? "")%string || (resumable && (res_Outcome r =? "")%string) then
    run previous := previousBoundary job in
    if (job_ThroughMessageID job <=? previous) && (0 <? job_ThroughMessageID job)
    then settle leaseOwner job [] (set_Outcome durableExtractionOutcomeNoOutput emptyResult)
    else extractWindow leaseOwner job previous r
  else complete leaseOwner job r.

Definition notDue (job : ExtractionJob) : dprog bool :=
  match job_DueAt job with None => Return _ false | Some due => ask now := DClock in Return _ (now <? due) end.

Definition lockedExtract (leaseOwner : string) (job : ExtractionJob) : dprog (ExtractionJob * option DurableErr) :=
  ask err := DLock (job_OwnerID job) (job_ConversationID job) in
  match err with
  | Some e => Return _ (job, Some e)
  | None =>
    run out := extract leaseOwner job in
    ask _ := DUnlock (job_OwnerID job) (job_ConversationID job) in
    Return _ out
  end.

Definition attempt (leaseOwner : string) (job : ExtractionJob) : dprog (ExtractionJob * option DurableErr) :=
  run early := notDue job in
  if (early : bool) then updateJob leaseOwner (job_release ExtractionPending (job_ErrorMessage job) (job_DueAt job) job)
  else if job_ThroughMessageID job <=? 0 then
    ask (through, err) := DLatestMessageID (job_OwnerID job) (job_ConversationID job) in
    let job := job_setThrough through job in
    if bool_decide (err ≠ None) || (through <=? 0) then Return _ (job, err) else lockedExtract leaseOwner job
  else lockedExtract leaseOwner job.

(** The deferred release of a job whose attempt failed. *)
Definition releaseFailed (leaseOwner : string) (job : ExtractionJob) (err : option DurableErr) : dprog (option DurableErr) :=
  match err with
  | None => Return _ None
  | Some e =>
    if (job_Status job =? ExtractionCompleted)%string then Return _ (Some e)
    else
      ask now := DClock in
      run _ := updateJob leaseOwner (job_release ExtractionPending (errText e) (Some (now + (job_AttemptCount job + 1) * minute)) job) in
      Return _ (Some e)
  end.

Definition Handle (enabled : bool) (payload : DurableMemoryPayload) : dprog (option DurableErr) :=
  if negb enabled then Return _ None
  else if payload_JobID payload <=? 0 then Return _ (Some DErrJobID)
  else
    ask now := DClock in
    ask claimed := DClaimByID (payload_OwnerID payload) (payload_JobID payload) workerID (now + durableStage1Lease) in
    match claimed with
    | Err e => Return _ (Some e)
    | Ok (_, false) => Return _ None
    | Ok (job, true) =>
      let leaseOwner := if (job_LockedBy job =? workerID)%string then workerID else "" in
      run (job, err) := attempt leaseOwner job in
      releaseFailed leaseOwner job err
    end.

Definition deferPhase2Retry (job : ExtractionJob) (cause : DurableErr) : dprog (option DurableErr) :=
  ask now := DClock in
  let count := job_Phase2AttemptCount job + 1 in
  ask (_, err) := DUpdate (job_setPhase2 ("phase2:" ++ errText cause) (Some (now + durablePhase2RetryDelay count)) count job) in
  Return _ err.

Fixpoint retryPhase2 (jobs : list ExtractionJob) : dprog (bool * option DurableErr) :=
  match jobs with
  | [] => Return _ (false, None)
  | job :: rest =>
    run early := notDue job in
    if (early : bool) then retryPhase2 rest
    else
      ask err := DConsolidate (job_OwnerID job) in
      match err with
      | Some e => run _ := deferPhase2Retry job e in Return _ (true, Some e)
      | None => ask (_, err) := DUpdate (job_setPhase2 "" None (job_Phase2AttemptCount job) job) in Return _ (true, err)
      end
  end.

Definition ProcessNext (enabled : bool) : dprog (bool * option DurableErr) :=
  if negb enabled then Return _ (false, None)
  else
    ask listed := DListPending 50 in
    match listed with
    | Err e => Return _ (false, Some e)
    | Ok jobs =>
      match List.find (λ job, (job_TriggerReason job =? "durable")%string) jobs with
      | Some job => run err := Handle enabled (mkPayload (job_ID job) (job_OwnerID job) (job_ConversationID job)) in Return _ (true, err)
      | None =>
        ask pending := DListPhase2 20 in
        match pending with
        | Err e => Return _ (false, Some e)
        | Ok jobs => retryPhase2 jobs
        end
      end
    end.
End Worker.
