(* ===== verification/DurableSystem.v ===== *)
(** The durable memory pipeline at work: triggers, workers ([DurableMemory]) and write
    workers ([MemoryWrites]) side by side on the shared tables, call by call, with failing
    calls, crashes and heartbeats.  What it guarantees of the evidence windows of completed
    jobs and of the write jobs of their candidates, and two situations in which candidates
    or jobs go another way than the comments say. *)
From Stdlib Require Import Ascii.
From S2P Require Import Prelude GoStr Chat Json Redact Evidence MemoryDomain Threads MemoryWrites DurableMemory.
Open Scope Z_scope.
Open Scope calls_scope.

(** ** The codec *)

(** utf8.ValidString: no byte was decoded as an error. *)
Definition validText (s : string) : Prop := Forall (λ p, ¬ (p.1 = 65533 ∧ length p.2 = 1%nat)) (segments s).

Lemma validText_TrimSpace s : validText s → validText (TrimSpace s).
Proof.
  unfold validText. rewrite segments_TrimSpace. destruct (trim_by_infix (λ p, is_space p.1) (segments s)) as (pre & post & E).
  intros Hs. rewrite E in Hs. apply Forall_app in Hs as [_ Hs]. by apply Forall_app in Hs as [Hs _].
Qed.

Definition validCandidate (c : ExtractionCandidate) : Prop :=
  validText (cand_Title c) ∧ validText (cand_Content c) ∧ validText (cand_Type c) ∧ Forall validText (cand_EvidenceRefs c).
Definition validRaw (raw : rawExtractionCandidate) : Prop :=
  (∀ s, raw_Title raw = Some s ∨ raw_Content raw = Some s ∨ raw_Type raw = Some s → validText s) ∧
  (∀ refs, raw_EvidenceRefs raw = Some refs → Forall validText refs).
Definition validCandidates (r : durableExtractionResult) : Prop :=
  (∀ i cs, res_Chunks r !! i = Some cs → Forall validCandidate cs) ∧ (∀ cs, res_Merge r = Some cs → Forall validCandidate cs).
Definition validResult (r : durableExtractionResult) : Prop :=
  validCandidates r ∧ res_Outcome r ∈ [""%string; durableExtractionOutcomeExtracted; durableExtractionOutcomeNoOutput].
(** Equal but for the rejections, which nothing reads. *)
Definition sameResult (r r' : durableExtractionResult) : Prop :=
  res_Chunks r' = res_Chunks r ∧ res_Merge r' = res_Merge r ∧ res_Outcome r' = res_Outcome r ∧
  res_WindowAfter r' = res_WindowAfter r ∧ res_WindowThrough r' = res_WindowThrough r.

(** What encoding/json does: a result is encoded as an object with its chunks that decodes
    to the result, and decoded strings are valid UTF-8. *)
Class DurableCodec (marshalResult : durableExtractionResult → result string RawMessage) (probeChunks : string → result string RawMessage)
    (unmarshalResult : string → result string (option durableExtractionResult))
    (unmarshalEnvelope : string → result string (option (list rawExtractionCandidate))) := {
  codec_text : ∀ r raw, marshalResult r = Ok raw → TrimSpace raw = raw ∧ raw ≠ ""%string ∧ ∃ chunks, probeChunks raw = Ok chunks ∧ chunks ≠ ""%string;
  codec_roundtrip : ∀ r raw, validResult r → marshalResult r = Ok raw → ∃ r', unmarshalResult raw = Ok (Some r') ∧ sameResult r r';
  codec_valid : ∀ raw r, unmarshalResult raw = Ok (Some r) → validCandidates r;
  envelope_valid : ∀ raw raws, unmarshalEnvelope raw = Ok (Some raws) → Forall validRaw raws
}.

(** ** The invariant *)

Section Invariant.
Context (fixed2 : float64 → string).
Context (probeChunks : string → result string RawMessage) (unmarshalResult : string → result string (option durableExtractionResult)).
Context (unmarshalRequest : RawMessage → result string WriteRequest) (sha256_hex : string → string).
Notation decode := (decodeDurableExtractionResult probeChunks unmarshalResult).

(** No result, or a partial one. *)
Definition resumableRaw (raw : RawMessage) : Prop := TrimSpace raw = ""%string ∨ ∃ r, decode raw = (r, true) ∧ res_Outcome r = ""%string.

Definition windowed (r : durableExtractionResult) (m : Z) : Prop := res_WindowAfter r < m ≤ res_WindowThrough r.

(** The message id lies in the recorded window of a completed job of the conversation. *)
Definition recorded (d : DurableDB) (ownerID conversationID m : Z) : Prop :=
  ∃ id j r, db_extractions d !! id = Some j ∧ job_OwnerID j = ownerID ∧ job_ConversationID j = conversationID ∧ job_Status j = ExtractionCompleted ∧
    decode (job_ResultJSON j) = (r, true) ∧ windowed r m.

Definition hasWriteJob (d : WriteDB) (ownerID : Z) (key : string) : Prop :=
  ∃ id j, db_jobs d !! id = Some j ∧ wj_OwnerID j = ownerID ∧ wj_IdempotencyKey j = key.

(** What a completed job has done. *)
Definition finished (d : DurableDB) (j : ExtractionJob) : Prop :=
  ∃ r, decode (job_ResultJSON j) = (r, true) ∧ res_Outcome r ≠ ""%string ∧
    (∀ m, 0 < m ≤ job_ThroughMessageID j → windowed r m ∨ recorded d (job_OwnerID j) (job_ConversationID j) m) ∧
    (res_Outcome r = durableExtractionOutcomeExtracted → acceptedOf fixed2 r ≠ [] ∧
       ∀ i, (i < length (acceptedOf fixed2 r))%nat → hasWriteJob (db_writes d) (job_OwnerID j) (extractionWriteKey (job_ID j) i)).

Definition sameIdent (j j' : ExtractionJob) : Prop :=
  job_ID j' = job_ID j ∧ job_OwnerID j' = job_OwnerID j ∧ job_ConversationID j' = job_ConversationID j ∧
  job_IdempotencyKey j' = job_IdempotencyKey j ∧ job_TriggerReason j' = job_TriggerReason j.

(** The columns of a row are consistent. *)
Record rowOk (d : DurableDB) (j : ExtractionJob) : Prop := mkRowOk {
  ok_through : 0 < job_ThroughMessageID j;
  ok_attempts : 0 ≤ job_AttemptCount j ≤ 5;
  ok_status : job_Status j ∈ [ExtractionPending; ExtractionRunning; ExtractionCompleted; ExtractionFailed];
  ok_resumable : job_Status j ≠ ExtractionCompleted → resumableRaw (job_ResultJSON j);
  ok_finished : job_Status j = ExtractionCompleted → finished d j
}.

Record DurableInv (d : DurableDB) : Prop := mkDurableInv {
  di_keyed : ∀ id j, db_extractions d !! id = Some j → job_ID j = id;
  di_unique : ∀ id id' j j', db_extractions d !! id = Some j → db_extractions d !! id' = Some j' → job_OwnerID j = job_OwnerID j' →
    job_IdempotencyKey j = job_IdempotencyKey j' → id = id';
  di_rows : ∀ id j, db_extractions d !! id = Some j → rowOk d j;
  di_writes : WriteInv unmarshalRequest sha256_hex (db_writes d)
}.

Definition kept (j j' : ExtractionJob) : Prop :=
  sameIdent j j' ∧ (job_Status j = ExtractionCompleted →
    job_Status j' = ExtractionCompleted ∧ job_ResultJSON j' = job_ResultJSON j ∧ job_ThroughMessageID j' = job_ThroughMessageID j).
(** A row that [j'] shows as running for another worker than [T] was so before. *)
Definition heldFor (T : string) (j' : ExtractionJob) (before : option ExtractionJob) : Prop :=
  job_Status j' = ExtractionRunning → job_LockedBy j' ≠ T →
  ∃ j, before = Some j ∧ job_Status j = ExtractionRunning ∧ job_LockedBy j = job_LockedBy j' ∧ job_ThroughMessageID j = job_ThroughMessageID j'.

Definition DurableRel (T : string) (d d' : DurableDB) : Prop :=
  (∀ id j, db_extractions d !! id = Some j → ∃ j', db_extractions d' !! id = Some j' ∧ kept j j') ∧
  (∀ id j', db_extractions d' !! id = Some j' → heldFor T j' (db_extractions d !! id)) ∧
  WriteRel 0 (db_writes d) (db_writes d').

Notation keeps T d d' := (DurableInv d' ∧ DurableRel T d d').

Lemma sameIdent_refl j : sameIdent j j.
Proof. done. Qed.
Lemma kept_refl j : kept j j.
Proof. done. Qed.
Lemma heldFor_same T j : heldFor T j (Some j).
Proof. intros ? ?. by exists j. Qed.
Lemma DurableRel_refl T d : DurableRel T d d.
Proof. split_and!; [intros id j Hj; by exists j|intros id j ->; apply heldFor_same|apply WriteRel_refl]. Qed.
Lemma durableKeeps_refl T d : DurableInv d → keeps T d d.
Proof. intros. split; [done|apply DurableRel_refl]. Qed.

Lemma recorded_mono T d d' o c m : DurableRel T d d' → recorded d o c m → recorded d' o c m.
Proof.
  intros (Hrows & _ & _) (id & j & r & Hj & <- & <- & Hst & Hr & Hm). destruct (Hrows _ _ Hj) as (j' & Hj' & (_ & Ho & Hc & _) & Hk).
  destruct (Hk Hst) as (Hst' & Hres & _). exists id, j', r. by rewrite Hres.
Qed.
Lemma hasWriteJob_mono n d d' o key : WriteRel n d d' → hasWriteJob d o key → hasWriteJob d' o key.
Proof. intros [_ HR] (id & j & Hj & <- & <-). destruct (HR _ _ Hj) as (j' & Hj' & (_ & Ho & Hk & _)). by exists id, j'. Qed.

Lemma finished_mono T d d' j : DurableRel T d d' → finished d j → finished d' j.
Proof.
  intros HR (r & Hd & Ho & Hm & Hx). exists r. split_and!; [done..| |].
  - intros m Hr. destruct (Hm m Hr) as [?|?]; [by left|right; by eapply recorded_mono].
  - intros E. destruct (Hx E) as [? Hw]. split; [done|]. intros i Hi. destruct HR as (_ & _ & HR). by eapply hasWriteJob_mono, Hw.
Qed.
Lemma finished_kept d j j' : sameIdent j j' → job_ResultJSON j' = job_ResultJSON j → job_ThroughMessageID j' = job_ThroughMessageID j → finished d j → finished d j'.
Proof. unfold finished. intros (-> & -> & -> & _) -> -> H. exact H. Qed.

Lemma durableRow_mono T d d' j : DurableRel T d d' → rowOk d j → rowOk d' j.
Proof. intros HR [? ? ? ? Hf]. split; try done. intros Hst. by eapply finished_mono, Hf. Qed.

(** Writing a row that is there. *)
Lemma keeps_setRow T d j j' : DurableInv d → db_extractions d !! job_ID j = Some j → kept j j' → heldFor T j' (Some j) →
  rowOk d j' → keeps T d (set_row j' d).
Proof.
  intros [H1 H2 H3 H4] Hj Hk Hh Hok. pose proof Hk as [(Hid & Ho & Hc & Hkey & _) _].
  assert (DurableRel T d (set_row j' d)) as HR.
  { unfold set_row. rewrite Hid. split_and!; cbn; [..|apply WriteRel_refl].
    - intros id x Hx. destruct (decide (id = job_ID j)) as [->|Hne]; [rewrite lookup_insert_eq; exists j'; by simplify_eq|].
      rewrite lookup_insert_ne by done. by exists x.
    - intros id x. rewrite lookup_insert_Some. intros [[<- <-]|[_ ->]]; [by rewrite Hj|apply heldFor_same]. }
  split; [|done]. unfold set_row in *. rewrite Hid in *. split; cbn; [..|done].
  - intros id x. rewrite lookup_insert_Some. intros [[<- <-]|[_ Hx]]; [done|by apply H1].
  - intros id id' x x'. rewrite !lookup_insert_Some. intros [[<- <-]|[_ Hx]] [[<- <-]|[_ Hx']] Eo Ek; [done|..|by eapply H2].
    + apply (H2 _ _ _ _ Hj Hx'); congruence.
    + apply (H2 _ _ _ _ Hx Hj); congruence.
  - intros id x. rewrite lookup_insert_Some. intros [[<- <-]|[_ Hx]]; [by eapply durableRow_mono|]. eapply durableRow_mono; [done|by eapply H3].
Qed.

(** A new row. *)
Lemma keeps_create T d row : DurableInv d → rowOk d row → job_Status row = ExtractionPending → keeps T d (CreateExtraction row d).2.
Proof.
  intros HI Hok Hst. unfold CreateExtraction. destruct (extractionByKey _ _ d) eqn:Hk; cbn [snd]; [by apply durableKeeps_refl|].
  assert (∀ id j, db_extractions d !! id = Some j → ¬ (job_OwnerID j = job_OwnerID row ∧ job_IdempotencyKey j = job_IdempotencyKey row)) as Hnone.
  { intros id j Hj [Eo Ek]. unfold extractionByKey in Hk. pose proof (head_rowsWhere (λ j, (job_OwnerID j =? job_OwnerID row) && (job_IdempotencyKey j =? job_IdempotencyKey row)%string) (db_extractions d)) as Hh.
    rewrite Hk in Hh. specialize (Hh _ _ Hj). cbn in Hh. by rewrite Eo, Ek, Z.eqb_refl, String.eqb_refl in Hh. }
  pose proof (rowID_fresh (db_extractions d)) as Hf. set (id0 := nextID (db_extractions d)) in *. destruct HI as [H1 H2 H3 H4].
  unfold set_row. cbn [job_ID job_setID]. assert (DurableRel T d (set_extractions (<[id0 := job_setID id0 row]> (db_extractions d)) d)) as HR.
  { split_and!; cbn; [..|apply WriteRel_refl].
    - intros id x Hx. rewrite lookup_insert_ne by congruence. by exists x.
    - intros id x. rewrite lookup_insert_Some. intros [[<- <-]|[_ ->]]; [|apply heldFor_same]. intros Hr. cbn in Hr. by rewrite Hst in Hr. }
  split; [|done]. split; cbn; [..|done].
  - intros id x. rewrite lookup_insert_Some. intros [[<- <-]|[_ Hx]]; [done|by apply H1].
  - intros id id' x x'. rewrite !lookup_insert_Some. intros [[<- <-]|[_ Hx]] [[<- <-]|[_ Hx']] Eo Ek; [done|..|by eapply H2].
    + destruct (Hnone _ _ Hx'). by cbn in *.
    + destruct (Hnone _ _ Hx). by cbn in *.
  - intros id x. rewrite lookup_insert_Some. intros [[<- <-]|[_ Hx]]; [|eapply durableRow_mono; [done|by eapply H3]].
    destruct Hok as [? ? ? ? ?]. split; cbn in *; try done. intros E. rewrite Hst in E. by vm_compute in E.
Qed.

(** *** The operations *)

(** The row of a job that a worker has claimed: as long as the worker holds it, the
    boundary is the claimed one. *)
Definition holdsRow (T : string) (job : ExtractionJob) (d : DurableDB) : Prop :=
  ∃ row, db_extractions d !! job_ID job = Some row ∧ sameIdent row job ∧
    (job_Status row = ExtractionRunning → job_LockedBy row = T → job_ThroughMessageID row = job_ThroughMessageID job).
(** The row of a completed job. *)
Definition doneRow (job : ExtractionJob) (d : DurableDB) : Prop :=
  ∃ row, db_extractions d !! job_ID job = Some row ∧ sameIdent row job ∧ job_Status row = ExtractionCompleted ∧
    job_ResultJSON row = job_ResultJSON job ∧ job_ThroughMessageID row = job_ThroughMessageID job.
(** What a job in the hands of a worker is. *)
Definition jobOk (job : ExtractionJob) : Prop := 0 < job_ID job ∧ 0 < job_ThroughMessageID job ∧ 0 ≤ job_AttemptCount job ≤ 5.

Lemma findJob_Some o id d j : findJob o id d = Some j → db_extractions d !! id = Some j.
Proof. unfold findJob. intros (x & Hx & H)%bind_Some. case_match; by simplify_eq. Qed.

Lemma notRunning_heldFor T j before : job_Status j ≠ ExtractionRunning → heldFor T j before.
Proof. by intros H H'. Qed.

Lemma kept_open j j' : sameIdent j j' → job_Status j ≠ ExtractionCompleted → kept j j'.
Proof. by split. Qed.

Lemma ClaimByID_keeps T now o id until d : DurableInv d → 0 < id → keeps T d (ClaimByID now o id T until d).2 ∧
  ∀ job, (ClaimByID now o id T until d).1 = Ok (job, true) →
    holdsRow T job (ClaimByID now o id T until d).2 ∧ jobOk job ∧ resumableRaw (job_ResultJSON job) ∧ job_Status job = ExtractionRunning ∧ job_LockedBy job = T.
Proof.
  intros HI Hpos. unfold ClaimByID. destruct (findJob o id d) as [j|] eqn:Hf; cbn [fst snd]; [|by split; [apply durableKeeps_refl|]].
  apply findJob_Some in Hf. pose proof (di_keyed _ HI _ _ Hf) as Hid. pose proof (di_rows _ HI _ _ Hf) as [Ht Ha Hs Hr Hfin]. subst id.
  destruct (terminal (job_Status j)) eqn:Hterm; cbn [fst snd]; [by split; [apply durableKeeps_refl|]|].
  assert (job_Status j ≠ ExtractionCompleted) as Hnc by (intros E; by rewrite E in Hterm).
  destruct (_ && match job_LeaseExpiresAt j with _ => _ end); cbn [fst snd]; [by split; [apply durableKeeps_refl|]|].
  destruct (5 <=? job_AttemptCount j) eqn:Hmax; cbn [fst snd].
  - split; [|done]. apply (keeps_setRow T d j); [done|done|by apply kept_open|by apply notRunning_heldFor|]. split; cbn; [done|done|set_solver|by auto|done].
  - apply Z.leb_gt in Hmax. split; [|intros job [= <-]; split_and!; [|unfold jobOk; cbn; lia|by auto|done|done]].
    + apply (keeps_setRow T d j); [done|done|by apply kept_open|by intros ? []|]. split; cbn; [done|lia|set_solver|by auto|done].
    + eexists. split; [cbn; apply lookup_insert_eq|]. by split.
Qed.

Lemma RenewLease_keeps T id w until d : DurableInv d → keeps T d (RenewLease id w until d).2.
Proof.
  intros HI. unfold RenewLease. destruct (_ !! id) as [j|] eqn:Hj; [|by apply durableKeeps_refl]. case_match; [|by apply durableKeeps_refl]. cbn [snd].
  pose proof (di_keyed _ HI _ _ Hj) as <-. pose proof (di_rows _ HI _ _ Hj) as [Ht Ha Hs Hr Hfin].
  apply (keeps_setRow T d j); [done|done|done|intros Hrun Hl; by exists j|]. by split; cbn.
Qed.

Lemma heldRow_spec now job w d row : heldRow now job w d = Some row →
  db_extractions d !! job_ID job = Some row ∧ job_Status row = ExtractionRunning ∧ job_LockedBy row = w.
Proof. unfold heldRow. intros (x & Hx & H)%bind_Some. case_match; [|done]. simplify_eq. by bool_prop. Qed.

Lemma stamp_same now job : sameIdent job (stampCompleted now job) ∧ job_ThroughMessageID (stampCompleted now job) = job_ThroughMessageID job ∧
  job_Status (stampCompleted now job) = job_Status job ∧ job_ResultJSON (stampCompleted now job) = job_ResultJSON job ∧
  job_AttemptCount (stampCompleted now job) = job_AttemptCount job.
Proof. unfold stampCompleted. by case_match. Qed.

(** What a worker may store under its lease. *)
Definition storable (d : DurableDB) (job : ExtractionJob) : Prop :=
  (job_Status job ∈ [ExtractionPending; ExtractionRunning] ∧ resumableRaw (job_ResultJSON job)) ∨ (job_Status job = ExtractionCompleted ∧ finished d job).

Lemma sameIdent_trans j1 j2 j3 : sameIdent j1 j2 → sameIdent j2 j3 → sameIdent j1 j3.
Proof. unfold sameIdent. naive_solver congruence. Qed.

Lemma UpdateOwned_keeps T now job d : DurableInv d → holdsRow T job d → jobOk job → storable d job →
  keeps T d (UpdateOwned now job T d).2 ∧ holdsRow T job (UpdateOwned now job T d).2 ∧
  (job_Status job = ExtractionCompleted → (UpdateOwned now job T d).1.2 = None → doneRow job (UpdateOwned now job T d).2).
Proof.
  intros HI Hrow Hjob Hst. unfold UpdateOwned. case_match; cbn [fst snd]; [by split; [apply durableKeeps_refl|]|].
  destruct (stamp_same now job) as (Hsame & Hthr & Hstat & Hres & Hatt). set (job' := stampCompleted now job) in *.
  destruct (heldRow now job' T d) as [row|] eqn:Hh; cbn [fst snd]; [|by split_and!; [apply durableKeeps_refl..|done|done]].
  apply heldRow_spec in Hh as (Hr & Hrun & Hl). destruct Hrow as (row' & Hr' & Hid & Hb). destruct Hsame as (Hid1 & Hsame).
  rewrite Hid1, Hr' in Hr. injection Hr as ->. specialize (Hb Hrun Hl). pose proof (di_rows _ HI _ _ Hr') as [Ht Ha Hs Hres0 Hfin].
  set (row' := job_with _ _ _ _ _ _ _ _ _ _ _ row).
  assert (kept row row') as Hk by (apply kept_open; [done|by rewrite Hrun]).
  pose proof (di_keyed _ HI _ _ Hr') as Hkey. rewrite <- Hkey in Hr'. split; [|split].
  - apply (keeps_setRow T d row); try done.
    + intros Hrun'. cbn in Hrun'. subst row'. cbn. rewrite Hrun', String.eqb_refl. intros ?. by exists row.
    + split; cbn; rewrite ?Hstat, ?Hres; [done..| | |].
      * destruct Hst as [[Hst _]|[-> _]]; set_solver.
      * intros Hne. by destruct Hst as [[_ ?]|[? _]].
      * intros E. destruct Hst as [[Hst _]|[_ Hf]]; [rewrite E in Hst; by apply list_elem_of_In in Hst as [Hx|[Hx|[]]]|].
        eapply finished_kept; [|done..|exact Hf]. unfold sameIdent in *. naive_solver congruence.
  - exists row'. split; [cbn; by rewrite <- Hkey, lookup_insert_eq|]. split; [done|]. done.
  - intros E _. exists row'. split; [cbn; by rewrite <- Hkey, lookup_insert_eq|]. split; [done|]. cbn. by rewrite Hstat, Hres.
Qed.

Lemma UpdateExtraction_keeps T now job d : DurableInv d → doneRow job d → 0 ≤ job_AttemptCount job ≤ 5 → job_Status job = ExtractionCompleted →
  keeps T d (UpdateExtraction now job d).2 ∧ doneRow job (UpdateExtraction now job d).2.
Proof.
  intros HI (row & Hr & Hid & Hst & Hres & Ht) Hatt Hc. unfold UpdateExtraction. cbn [snd].
  destruct (stamp_same now job) as (Hsame & Hthr & Hstat & Hres' & Hatt'). set (job' := stampCompleted now job) in *.
  pose proof (di_rows _ HI _ _ Hr) as [Hpos _ _ _ Hfin]. pose proof (di_keyed _ HI _ _ Hr) as Hkey.
  assert (sameIdent row job') as Hrow' by (by eapply sameIdent_trans). split.
  - apply (keeps_setRow T d row); [done|by rewrite Hkey|split; [done|]; intros _; by rewrite Hstat, Hc, Hres', Hthr, Hres, Ht|apply notRunning_heldFor; by rewrite Hstat, Hc|].
    split; rewrite ?Hstat, ?Hthr, ?Hatt', ?Hc; [by rewrite <- Ht|done|set_solver|done|]. intros _. eapply finished_kept; [exact Hrow'|by rewrite Hres'|by rewrite Hthr|by apply Hfin].
  - exists job'. unfold sameIdent in *. destruct Hsame as (Hid1 & Hsame). split; [cbn; by rewrite Hid1, lookup_insert_eq|]. split; [naive_solver congruence|]. by rewrite Hstat.
Qed.

Lemma Refresh_keeps T o id t due d : DurableInv d → 0 < t → keeps T d (RefreshPendingBoundary o id t due d).2.
Proof.
  intros HI Hpos. unfold RefreshPendingBoundary. destruct (findJob o id d) as [j|] eqn:Hf; [|by apply durableKeeps_refl]. apply findJob_Some in Hf.
  case_match eqn:Hp; [|by apply durableKeeps_refl]. apply String.eqb_eq in Hp. cbn [snd]. pose proof (di_keyed _ HI _ _ Hf) as <-. pose proof (di_rows _ HI _ _ Hf) as [Ht Ha Hs Hr Hfin].
  assert (job_Status j ≠ ExtractionCompleted) as Hnc by (rewrite Hp; by vm_compute).
  apply (keeps_setRow T d j); [done|done|by apply kept_open|apply notRunning_heldFor; cbn; by rewrite Hp|]. by split; cbn; auto.
Qed.

Lemma newBoundaryRow_ok d o c t due latest : 0 < t → rowOk d (newBoundaryRow o c t due latest).
Proof. intros Ht. split; cbn; [done|lia|set_solver|intros _; by left|]. intros E. by vm_compute in E. Qed.

Lemma Create_keeps T o c t due latest d : DurableInv d → 0 < t → keeps T d (CreateExtraction (newBoundaryRow o c t due latest) d).2.
Proof. intros HI Ht. by apply keeps_create; [|apply newBoundaryRow_ok|]. Qed.

Lemma Schedule_keeps T o c t due d : DurableInv d → 0 < t → keeps T d (ScheduleDurableBoundary o c t due d).2.
Proof.
  intros HI Ht. pose proof (λ latest, Create_keeps T o c t due latest d HI Ht) as Hc. unfold ScheduleDurableBoundary.
  assert (∀ latest, keeps T d (match CreateExtraction (newBoundaryRow o c t due latest) d with
    | (Ok row, d') => (Ok (row, true), d')
    | (Err e, _) => (match extractionByKey o (job_IdempotencyKey (newBoundaryRow o c t due latest)) d with Some existing => Ok (existing, false) | None => Err e end, d)
    end : result DurableErr (ExtractionJob * bool) * DurableDB).2) as Hcreate.
  { intros latest. specialize (Hc latest). destruct (CreateExtraction _ d) as [[row|e] d']; [done|by apply durableKeeps_refl]. }
  destruct (LatestDurableJob o c d) as [j|]; [|apply Hcreate]. case_match; [|apply Hcreate].
  pose proof (Refresh_keeps T o (job_ID j) t due d HI Ht) as Hr. destruct (RefreshPendingBoundary o (job_ID j) t due d) as [[] d']; [done|apply Hcreate].
Qed.

(** Completed jobs cover what comes before their boundary. *)
Lemma LatestCompleted_recorded o c d m : DurableInv d → 0 < m ≤ LatestCompletedDurableThrough o c d → recorded d o c m.
Proof.
  intros HI. unfold LatestCompletedDurableThrough, latestWhere. set (P := λ j, durableOf o c j && (job_Status j =? ExtractionCompleted)%string).
  destruct (last (rowsWhere P (db_extractions d))) as [[id j]|] eqn:Hl; cbn [fmap option_fmap option_map default]; [|cbn; lia]. intros Hm.
  assert ((id, j) ∈ rowsWhere P (db_extractions d)) as Hin by (by apply last_Some_elem_of).
  apply elem_of_rowsWhere in Hin as [Hj HP]. subst P. cbn in HP. unfold durableOf in HP. bool_prop.
  destruct (ok_finished _ _ (di_rows _ HI _ _ Hj)) as (r & Hr & _ & Hcov & _); [done|]. destruct (Hcov m Hm) as [Hw|Hrec]; [|by simplify_eq].
  by exists id, j, r.
Qed.
End Invariant.

(** ** Keys of write jobs *)

Lemma visible_decoded l : Forall (λ c, 33 ≤ byte_val c ≤ 126) l → decoded l ((λ c, (byte_val c, [c])) <$> l).
Proof.
  induction 1 as [|c l Hc Hl IH]; cbn; [constructor|]. apply (decoded_cons (byte_val c) [c] l); [done| |exact IH]. cbn [app length].
  unfold decode_rune. cbv zeta. by rewrite (proj2 (Z.ltb_lt _ _)) by lia.
Qed.

Lemma TrimSpace_visible s : Forall (λ c, 33 ≤ byte_val c ≤ 126) (bytes s) → TrimSpace s = s.
Proof.
  intros Hs. apply TrimSpace_id_iff. intros r Hr. assert (∃ c, c ∈ bytes s ∧ r = byte_val c) as (c & Hc & ->).
  { unfold runes, segments in Hr. rewrite (decoded_det _ _ _ (visible_decoded _ Hs) (le_n _)) in Hr. rewrite <- list_fmap_compose in Hr.
    assert (r ∈ (fst ∘ (λ c : Ascii.ascii, (byte_val c, [c]))) <$> bytes s) as Hin by (destruct Hr as [?%head_Some_elem_of|?%last_Some_elem_of]; done).
    apply list_elem_of_fmap in Hin as (c & -> & Hc). by exists c. }
  rewrite Forall_forall in Hs. specialize (Hs c Hc). unfold is_space, in_range.
  repeat rewrite orb_false_iff. split_and!; try (apply Z.eqb_neq; lia); apply andb_false_iff; rewrite !Z.leb_gt; lia.
Qed.

Lemma extractionWriteKey_trimmed id i : 0 ≤ id → TrimSpace (extractionWriteKey id i) = extractionWriteKey id i.
Proof.
  intros Hid. apply TrimSpace_visible. unfold extractionWriteKey. rewrite !bytes_app. rewrite !Forall_app. split_and!; try (vm_compute; repeat constructor; done).
  - apply Forall_forall. intros c Hc%Itoa_digits; lia.
  - apply Forall_forall. intros c Hc%Itoa_digits; lia.
Qed.

(** ** The programs are safe *)

Section Safety.
Context (unmarshalMetadata : RawMessage → option RawMetadata) (canonicalJSON : string → option string) (fixed2 : float64 → string).
Context (marshalResult : durableExtractionResult → result string RawMessage).
Context (probeChunks : string → result string RawMessage) (unmarshalResult : string → result string (option durableExtractionResult)).
Context (unmarshalEnvelope : string → result string (option (list rawExtractionCandidate))).
Context `{!DurableCodec marshalResult probeChunks unmarshalResult unmarshalEnvelope}.
Context (marshalCandidate : ExtractionCandidate → option string).
Context (marshalProvenance : string → float64 → list string → result string RawMessage).
Context (marshalRequest : WriteRequest → result string RawMessage) (unmarshalRequest : RawMessage → result string WriteRequest).
Context (sha256_hex : string → string) (hasWriter : bool) (writeErrText : WriteErr → string) (errText : DurableErr → string).
Context (hasModel hasWrites : bool).

Notation decode := (decodeDurableExtractionResult probeChunks unmarshalResult).
Notation resumableRaw := (resumableRaw probeChunks unmarshalResult).
Notation recorded := (recorded probeChunks unmarshalResult).
Notation finished := (finished fixed2 probeChunks unmarshalResult).
Notation storable := (storable fixed2 probeChunks unmarshalResult).
Notation Inv := (DurableInv fixed2 probeChunks unmarshalResult unmarshalRequest sha256_hex).
Notation stableD := (stable Inv DurableRel).
Notation tripleD := (triple performD Inv DurableRel).
Notation keeps T d d' := (Inv d' ∧ DurableRel T d d').

(** Facts that no step undoes. *)
Definition lasting (F : DurableDB → Prop) : Prop := ∀ T d d', DurableRel T d d' → F d → F d'.

Lemma lasting_stable T F : lasting F → stableD T F.
Proof. intros HF T' d d' _ _. apply HF. Qed.
Lemma holdsRow_stable T job : stableD T (holdsRow T job).
Proof.
  intros T' d d' Hne _ (Hrows & Hheld & _) (row & Hr & Hid & Hb). destruct (Hrows _ _ Hr) as (row' & Hr' & Hk & _).
  exists row'. split_and!; [done|unfold sameIdent in *; naive_solver congruence|]. intros Hrun Hl.
  destruct (Hheld _ _ Hr' Hrun) as (row2 & E & Hrun2 & Hl2 & Ht); [by rewrite Hl|]. rewrite Hr in E. injection E as <-. rewrite <- Ht. apply Hb; [done|congruence].
Qed.
Lemma doneRow_lasting job : lasting (doneRow job).
Proof.
  intros T d d' (Hrows & _) (row & Hr & Hid & Hst & Hres & Ht). destruct (Hrows _ _ Hr) as (row' & Hr' & Hk & Hkeep). destruct (Hkeep Hst) as (Hst' & Hres' & Ht').
  exists row'. split_and!; [done|unfold sameIdent in *; naive_solver congruence|done|congruence|congruence].
Qed.
Lemma lasting_and F G : lasting F → lasting G → lasting (λ d, F d ∧ G d).
Proof. intros HF HG T d d' HR [??]. split; [by eapply HF|by eapply HG]. Qed.
Lemma lasting_pure (P : Prop) : lasting (λ _, P).
Proof. by intros T d d' _. Qed.
Lemma lasting_all {B} (F : B → DurableDB → Prop) : (∀ b, lasting (F b)) → lasting (λ d, ∀ b, F b d).
Proof. intros HF T d d' HR Hd b. by eapply HF. Qed.
Lemma lasting_impl (P : Prop) F : lasting F → lasting (λ d, P → F d).
Proof. intros HF T d d' HR Hd HP. eapply HF; eauto. Qed.
Lemma recorded_lasting o c m : lasting (λ d, recorded d o c m).
Proof. intros T d d' HR. by apply recorded_mono with T. Qed.
Lemma hasWriteJob_lasting o key : lasting (λ d, hasWriteJob (db_writes d) o key).
Proof. intros T d d' (_ & _ & HR). by eapply hasWriteJob_mono. Qed.
Lemma finished_lasting job : lasting (λ d, finished d job).
Proof. intros T d d' HR. by apply finished_mono with T. Qed.

Lemma transactionD_keeps T {X} (answer : X * DurableDB) fail d x d' : Inv d → keeps T d answer.2 → transaction answer fail d x d' → keeps T d d'.
Proof. intros HI Hk [<-|(msg & _ & [->| ->])]; [done|by split; [|apply DurableRel_refl]|done]. Qed.

(** A step of the write pipeline is nobody's. *)
Lemma writes_keep T {X} (c : wcall X) d x d' : Inv d → performD _ (DWrites c) d x d' → WriteInv unmarshalRequest sha256_hex (db_writes d') →
  WriteRel 0 (db_writes d) (db_writes d') → keeps T d d'.
Proof.
  intros [H1 H2 H3 H4] [_ He] HI' HW. assert (DurableRel T d d') as HR.
  { split_and!; [..|done]; rewrite He; [intros id j Hj; by exists j|intros id j ->; apply heldFor_same]. }
  split; [|done]. split; rewrite ?He; [done..| |done]. intros id j Hj. eapply durableRow_mono; [done|by eapply H3].
Qed.

Lemma other_worker T : (T ++ "x")%string ≠ T.
Proof. intros E%(f_equal (λ s, length (bytes s))). rewrite bytes_app, length_app in E. cbn in E. lia. Qed.

(** The write pipeline keeps what its own proof says, and the rest. *)
Lemma triple_lift {A} T n G pre (p : program wcall A) post : stableD T G →
  triple performW (WriteInv unmarshalRequest sha256_hex) WriteRel n pre p post →
  tripleD T (λ d, G d ∧ pre (db_writes d)) (lift p) (λ a d, G d ∧ post a (db_writes d)).
Proof.
  intros HG. revert pre. induction p as [a|X c k IH]; intros pre Hp.
  { intros d [? ?]. split; [done|]. by apply Hp. }
  cbn [lift]. intros d x d' HI [HGd Hpre] Hperf. pose proof Hperf as [Hw He].
  destruct (Hp _ _ _ (di_writes _ _ _ _ _ _ HI) Hpre Hw) as (HI' & HR' & K & HK & HKd & Hk).
  destruct (writes_keep T c d x d' HI Hperf HI' HR') as [HI2 HR2]. split_and!; [done..|].
  exists (λ d, G d ∧ K (db_writes d)). split_and!.
  - apply stable_and; [done|]. intros T' d1 d2 _ HI1 (_ & _ & HW). apply (HK (S n)); [lia|by destruct HI1|exact HW].
  - destruct (writes_keep (T ++ "x")%string c d x d' HI Hperf HI' HR') as [_ HR3]. apply (HG (T ++ "x")%string d d'); [|done..].
    apply other_worker.
  - done.
  - apply IH. exact Hk.
Qed.

Lemma triple_Enqueue n req :
  triple performW (WriteInv unmarshalRequest sha256_hex) WriteRel n (λ _, True) (Enqueue marshalRequest req)
    (λ err d, err = None → hasWriteJob d (wjr_OwnerID req) (TrimSpace (wjr_IdempotencyKey req))).
Proof.
  unfold Enqueue. case_match; [by intros d _|]. case_match; [by intros d _|]. destruct (marshalRequest _) as [payload|e]; [|by intros d _].
  set (job := mkWriteJob 0 _ _ _ _ _ _ _ _ _ _ _ _). assert (wj_Status job ≠ WriteJobStatusCompleted) as Hnew by done. intros d x d' HI _ Hp.
  destruct (transaction_keeps unmarshalRequest sha256_hex n _ _ _ _ _ HI (CreateJob_keeps unmarshalRequest sha256_hex n job d HI Hnew) Hp) as [HI' HR'].
  split_and!; [done..|]. exists (λ d, x = None → hasWriteJob d (wjr_OwnerID req) (TrimSpace (wjr_IdempotencyKey req))). split_and!; [| |intros s Hs; exact Hs].
  - apply stable_impl. intros _ T' d1 d2 _ _ HR. by eapply hasWriteJob_mono.
  - intros ->. destruct Hp as [Ha|(msg & [=] & _)]. unfold CreateJob in Ha. destruct (ValidateJob job); [by injection Ha|].
    destruct (jobByKey _ _ d) as [j|] eqn:Hk; injection Ha as ->.
    + unfold jobByKey in Hk. pose proof (head_rowsWhere (λ j, (wj_OwnerID j =? wj_OwnerID job) && (wj_IdempotencyKey j =? wj_IdempotencyKey job)%string) (db_jobs d)) as Hh.
      rewrite Hk in Hh. destruct Hh as (id & Hj & HP). bool_prop. by exists id, j.
    + exists (nextID (db_jobs d)), (set_jobID (nextID (db_jobs d)) job). cbn. by rewrite lookup_insert_eq.
Qed.

(** *** Results *)

Lemma decode_marshal r raw : validResult r → marshalResult r = Ok raw → ∃ r', decode raw = (r', true) ∧ sameResult r r'.
Proof.
  intros Hv Hm. destruct (codec_text r raw Hm) as (Htrim & Hne & chunks & Hp & Hc). destruct (codec_roundtrip r raw Hv Hm) as (r' & Hu & Hs).
  exists r'. split; [|done]. unfold decodeDurableExtractionResult. rewrite Htrim, Hp, Hu. by rewrite (proj2 (String.eqb_neq _ _) Hne), (proj2 (String.eqb_neq _ _) Hc).
Qed.
Lemma decode_valid raw r : decode raw = (r, true) → validCandidates r.
Proof.
  unfold decodeDurableExtractionResult. case_match; [done|]. destruct (probeChunks _); [|done]. case_match; [done|].
  destruct (unmarshalResult _) as [[r0|]|] eqn:Hu; try done. intros [= <-]. by eapply codec_valid.
Qed.
Lemma acceptedOf_same r r' : sameResult r r' → acceptedOf fixed2 r' = acceptedOf fixed2 r.
Proof. intros (Hc & Hm & _). unfold acceptedOf, gateCandidates. by rewrite Hc, Hm. Qed.
Lemma resumable_marshal r raw : validCandidates r → res_Outcome r = ""%string → marshalResult r = Ok raw → resumableRaw raw.
Proof.
  intros Hv Ho Hm. destruct (decode_marshal r raw) as (r' & Hd & (_ & _ & Ho' & _)); [split; [done|rewrite Ho; set_solver]|done|]. right. exists r'. by rewrite Ho'.
Qed.

Lemma materialize_valid raw c : validRaw raw → materializeExtractionCandidate raw = Ok c → validCandidate c.
Proof.
  intros [Hs Hr]. unfold materializeExtractionCandidate. destruct raw as [[t|] [co|] [ty|] [cf|] [im|] [refs|]]; cbn; try done. cbn in Hs, Hr. intros [= <-].
  unfold validCandidate. cbn. split_and!; [apply validText_TrimSpace, Hs; auto..|by apply Hr].
Qed.
Lemma materializeAll_valid i raws cs : Forall validRaw raws → materializeAll i raws = Ok cs → Forall validCandidate cs.
Proof.
  intros Hv. revert i cs. induction Hv as [|raw raws Hraw Hraws IH]; intros i cs; cbn; [by intros [= <-]|].
  destruct (materializeExtractionCandidate raw) as [c|] eqn:Hc; [|done]. destruct (materializeAll (i + 1) raws) as [cs'|] eqn:Hcs; [|done]. intros [= <-].
  constructor; [by eapply materialize_valid|by eapply IH].
Qed.
Lemma parse_valid raw cs : parseExtractionCandidates unmarshalEnvelope raw = Ok cs → Forall validCandidate cs.
Proof.
  unfold parseExtractionCandidates. destruct (unmarshalEnvelope raw) as [[raws|]|] eqn:Hu; try done. apply materializeAll_valid. by eapply envelope_valid.
Qed.

(** *** One attempt *)

Context (T : string) (HT : TrimSpace T = T) (HTne : T ≠ ""%string).

Lemma triple_free {A X} pre (c : dcall X) (k : X → program dcall A) post : (∀ d x d', performD _ c d x d' → d' = d) → stableD T pre →
  (∀ x, tripleD T pre (k x) post) → tripleD T pre (Ask _ c k) post.
Proof. intros Hc. apply triple_outside; [done|apply DurableRel_refl]. Qed.

Definition like (job job' : ExtractionJob) : Prop :=
  sameIdent job job' ∧ job_ThroughMessageID job' = job_ThroughMessageID job ∧ job_Status job' = job_Status job ∧
  job_ResultJSON job' = job_ResultJSON job ∧ job_AttemptCount job' = job_AttemptCount job.
Definition derived (job job' : ExtractionJob) : Prop := sameIdent job job' ∧ job_ThroughMessageID job' = job_ThroughMessageID job.
Definition working (job : ExtractionJob) : Prop := jobOk job ∧ resumableRaw (job_ResultJSON job) ∧ job_Status job = ExtractionRunning.
Definition partial (r : durableExtractionResult) : Prop := validCandidates r ∧ res_Outcome r = ""%string.
Definition sameWindow (r r' : durableExtractionResult) : Prop := res_WindowAfter r' = res_WindowAfter r ∧ res_WindowThrough r' = res_WindowThrough r.

Lemma derived_trans j1 j2 j3 : derived j1 j2 → derived j2 j3 → derived j1 j3.
Proof. intros [? ?] [? ?]. split; [by eapply sameIdent_trans|congruence]. Qed.
Lemma jobOk_derived job job' : derived job job' → job_AttemptCount job' = job_AttemptCount job → jobOk job → jobOk job'.
Proof. intros [(Hid & _) Ht] Ha. unfold jobOk. by rewrite Hid, Ht, Ha. Qed.
Lemma holdsRow_derived job job' d : derived job job' → holdsRow T job d → holdsRow T job' d.
Proof.
  intros [Hs Ht] (row & Hr & Hid & Hb). exists row. rewrite Ht. destruct Hs as (Hid' & Hs). rewrite Hid'. split_and!; [done| |done]. unfold sameIdent in *. naive_solver congruence.
Qed.
Lemma like_stamp now job : like job (stampCompleted now job).
Proof. destruct (stamp_same now job) as (? & ? & ? & ? & ?). done. Qed.
Lemma UpdateOwned_like now job w d : like job (UpdateOwned now job w d).1.1.
Proof. unfold UpdateOwned. case_match; [done|]. destruct (heldRow _ _ _ _); apply like_stamp. Qed.
Lemma like_derived job job' : like job job' → derived job job'.
Proof. by intros (? & ? & _). Qed.

Lemma doneRow_like job job' d : like job job' → doneRow job d → doneRow job' d.
Proof.
  intros (Hs & Ht & _ & Hres & _) (row & Hr & Hid & Hst & Hres' & Ht'). exists row. rewrite Ht, Hres. destruct Hs as (Hid' & Hs). rewrite Hid'. split_and!; try done.
  unfold sameIdent in *. naive_solver congruence.
Qed.

Lemma triple_updateJob F job : lasting F → jobOk job → (∀ d, F d → storable d job) →
  tripleD T (λ d, F d ∧ holdsRow T job d) (updateJob T job)
    (λ out d, like job out.1 ∧ (F d ∧ holdsRow T out.1 d) ∧ (out.2 = None → job_Status job = ExtractionCompleted → doneRow out.1 d)).
Proof.
  intros HF Hok Hst. unfold updateJob. rewrite HT, (proj2 (String.eqb_neq _ _) HTne).
  eapply triple_call; [|intros d x d' HI [HFd Hrow] (now & Hp)|intros x; apply triple_ret; intros d Hd; exact Hd].
  - intros out. apply stable_and; [apply stable_pure|]. apply stable_and; [apply stable_and; [by apply lasting_stable|apply holdsRow_stable]|].
    apply lasting_stable. do 2 apply lasting_impl. apply doneRow_lasting.
  - destruct (UpdateOwned_keeps _ _ _ _ _ T now job d HI Hrow Hok (Hst d HFd)) as (Hk & Hrow' & Hdone).
    destruct (transactionD_keeps T _ _ _ _ _ HI Hk Hp) as [HI' HR'].
    assert (like job x.1) as Hlike by (destruct Hp as [Ha|(msg & -> & _)]; [pose proof (UpdateOwned_like now job T d) as Hl; by rewrite <- Ha in Hl|apply like_stamp]).
    split_and!; [done..|by eapply HF| |].
    + apply (holdsRow_derived job); [by apply like_derived|]. destruct Hp as [Ha|(msg & _ & [->| ->])]; [by rewrite <- Ha in Hrow'|done|done].
    + intros Hn Hc. destruct Hp as [Ha|(msg & -> & _)]; [|done]. rewrite <- Ha in Hdone. by eapply doneRow_like, Hdone.
Qed.

Lemma triple_chat G prompt : stableD T G →
  tripleD T G (chatCandidates unmarshalEnvelope prompt) (λ x d, (∀ cs, x = Ok cs → Forall validCandidate cs) ∧ G d).
Proof.
  intros HG. apply triple_free; [done..|]. intros x. apply triple_ret. intros d Hd. split; [|done]. intros cs. destruct x; [apply parse_valid|done].
Qed.

Notation holding F job := (λ d, F d ∧ holdsRow T job d).
Lemma stable_holding F job : lasting F → stableD T (holding F job).
Proof. intros HF. apply stable_and; [by apply lasting_stable|apply holdsRow_stable]. Qed.

Lemma triple_storeResult F job r : lasting F → working job → partial r →
  tripleD T (holding F job) (storeResult marshalResult T job r) (λ out d, (derived job out.1 ∧ working out.1) ∧ holding F out.1 d).
Proof.
  intros HF (Hok & Hres & Hst) [Hv Ho]. unfold storeResult. destruct (marshalResult r) as [raw|e] eqn:Hm; [|by apply triple_ret; intros d Hd].
  assert (resumableRaw raw) as Hraw by (by eapply resumable_marshal). eapply triple_post, (triple_updateJob F (job_setResult raw job)); [|done..|].
  - intros [job' err] d (Hl & Hh & _). cbn [fst] in *. split; [|done]. pose proof Hl as (Hs & Ht & Hst' & Hres' & Ha).
    assert (derived job job') as Hd by done. split; [done|]. split_and!; [by eapply jobOk_derived|by rewrite Hres'|by rewrite Hst'].
  - intros d Hd. left. cbn. split; [rewrite Hst; set_solver|done].
Qed.

(** How far the extraction of a window has come. *)
Definition progress (F : DurableDB → Prop) (job : ExtractionJob) (r : durableExtractionResult) (out : ExtractionJob * durableExtractionResult * option DurableErr) (d : DurableDB) : Prop :=
  (derived job out.1.1 ∧ working out.1.1 ∧ validCandidates out.1.2 ∧ sameWindow r out.1.2) ∧ holding F out.1.1 d.

Lemma triple_extractMissing F job r chunks : lasting F → working job → partial r →
  tripleD T (holding F job) (extractMissing marshalResult unmarshalEnvelope T job r chunks)
    (λ out d, res_Outcome out.1.2 = ""%string ∧ progress F job r out d).
Proof.
  intros HF. revert job r. induction chunks as [|chunk rest IH]; intros job r Hw Hr.
  { apply triple_ret. intros d Hd. destruct Hr. done. }
  cbn [extractMissing]. destruct (res_Chunks r !! chunk_Index chunk); [by apply IH|].
  eapply triple_bind; [by apply triple_chat, stable_holding|]. intros [cs|e].
  2: { apply triple_ret. intros d [_ Hd]. destruct Hr. done. }
  eapply triple_pure; [intros d [H _]; exact H|]. intros Hcs. specialize (Hcs cs eq_refl). eapply triple_pre; [intros d [_ H]; exact H|].
  set (r' := set_Chunks _ r). assert (partial r') as Hr'.
  { destruct Hr as [[Hv1 Hv2] Ho]. split; [split|done]; [|done]. cbn. intros i cs'. rewrite lookup_insert_Some. intros [[_ <-]|[_ Hi]]; [done|by eapply Hv1]. }
  eapply triple_bind; [by apply triple_storeResult|]. intros [job' err]. cbn [fst]. eapply triple_pure; [intros d [H _]; exact H|]. intros [Hd' Hw'].
  eapply triple_pre; [intros d [_ H]; exact H|]. destruct err as [e|].
  { apply triple_ret. intros d Hd. destruct Hr'. done. }
  eapply triple_post; [|by apply IH]. intros [[job2 r2] err2] d (Ho & (Hd2 & Hw2 & Hv2 & Hs2) & Hh). split; [done|]. split; [|done]. split_and!; [by eapply derived_trans|done..].
Qed.

Lemma triple_extractChunks F job r chunks : lasting F → working job → partial r →
  tripleD T (holding F job) (extractChunks marshalResult unmarshalEnvelope hasModel T job r chunks)
    (λ out d, res_Outcome out.1.2 ∈ [""%string; durableExtractionOutcomeNoOutput] ∧ progress F job r out d).
Proof.
  intros HF Hw Hr. unfold extractChunks. destruct chunks as [|chunk rest].
  { apply triple_ret. intros d Hd. destruct Hr. split; [set_solver|done]. }
  destruct hasModel; [|apply triple_ret; intros d Hd; destruct Hr as [? Ho]; cbn; rewrite Ho; split; [set_solver|done]].
  eapply triple_post; [|by apply triple_extractMissing]. intros out d [-> ?]. split; [set_solver|done].
Qed.

Lemma triple_merge F job r chunks : lasting F → working job → validCandidates r → res_Outcome r ∈ [""%string; durableExtractionOutcomeNoOutput] →
  tripleD T (holding F job) (mergeExtractionChunks marshalResult unmarshalEnvelope marshalCandidate T job r chunks)
    (λ out d, res_Outcome out.1.2 = res_Outcome r ∧ progress F job r out d).
Proof.
  intros HF Hw Hv Ho. unfold mergeExtractionChunks. destruct (negb (res_Outcome r =? "")%string) eqn:Hz; cbn [orb]; [by apply triple_ret; intros d Hd|].
  apply negb_false_iff, String.eqb_eq in Hz. case_match; [by apply triple_ret; intros d Hd|].
  eapply triple_bind; [by apply triple_chat, stable_holding|]. intros [cs|e].
  2: { apply triple_ret. by intros d [_ Hd]. }
  eapply triple_pure; [intros d [H1 _]; exact H1|]. intros Hcs. specialize (Hcs cs eq_refl). eapply triple_pre; [intros d [_ H1]; exact H1|].
  set (r' := set_Merge _ r). assert (partial r') as Hr' by (destruct Hv as [Hv1 Hv2]; split; [split; [done|by intros ? [= <-]]|done]).
  eapply triple_bind; [by apply triple_storeResult|]. intros [job' err]. apply triple_ret. intros d [[Hd' Hw'] Hh]. destruct Hr' as [Hv' _]. done.
Qed.

Lemma triple_enqueueFrom G job index cs : stableD T G → 0 < job_ID job →
  tripleD T G (enqueueFrom marshalProvenance marshalRequest job index cs)
    (λ err d, G d ∧ (err = None → ∀ i, (index ≤ i < index + length cs)%nat → hasWriteJob (db_writes d) (job_OwnerID job) (extractionWriteKey (job_ID job) i))).
Proof.
  intros HG Hid. revert G HG index. induction cs as [|c rest IH]; intros G HG index.
  { apply triple_ret. intros d Hd. split; [done|]. cbn. lia. }
  cbn [enqueueFrom]. destruct (extractionWriteRequest _ _ _ c) as [req|e] eqn:Hreq; [|by apply triple_ret; intros d Hd].
  unfold extractionWriteRequest in Hreq. destruct (marshalProvenance _ _ _); [|done]. injection Hreq as <-.
  eapply triple_bind; [eapply triple_pre; [|apply (triple_lift T 0 G _ _ _ HG (triple_Enqueue 0 _))]; by intros d Hd|].
  intros [e|]; [by apply triple_ret; intros d [Hd _]|]. cbn [wjr_OwnerID wjr_IdempotencyKey]. rewrite extractionWriteKey_trimmed by lia.
  eapply triple_pre, triple_post, (IH (λ d, G d ∧ hasWriteJob (db_writes d) (job_OwnerID job) (extractionWriteKey (job_ID job) index))).
  - intros d [Hd Hw]. split; [done|by apply Hw].
  - intros err d [[Hd Hw] Hall]. split; [done|]. intros -> i Hi. destruct (decide (i = index)) as [->|Hne]; [done|]. apply Hall; [done|]. cbn in Hi. lia.
  - apply stable_and; [done|]. apply lasting_stable, hasWriteJob_lasting.
Qed.

Lemma triple_enqueue G job cs : stableD T G → 0 < job_ID job →
  tripleD T G (enqueueExtractionWrites marshalProvenance marshalRequest hasWrites job cs)
    (λ err d, G d ∧ ((err = None → ∀ i, (i < length cs)%nat → hasWriteJob (db_writes d) (job_OwnerID job) (extractionWriteKey (job_ID job) i)) ∧ (cs = [] → err = None))).
Proof.
  intros HG Hid. unfold enqueueExtractionWrites. destruct cs as [|c cs]; [apply triple_ret; intros d Hd; split_and!; [done| |done]; cbn; lia|].
  destruct hasWrites; [|by apply triple_ret; intros d Hd]. eapply triple_post; [|by apply triple_enqueueFrom].
  intros err d [Hd Hw]. split_and!; [done| |done]. intros -> i Hi. apply Hw; [done|lia].
Qed.

Lemma triple_DUpdate job : 0 ≤ job_AttemptCount job ≤ 5 → job_Status job = ExtractionCompleted →
  tripleD T (doneRow job) (updateJob "" job) (λ out _, job_Status out.1 = ExtractionCompleted).
Proof.
  intros Ha Hc. unfold updateJob. change (TrimSpace "") with ""%string. rewrite String.eqb_refl.
  apply (triple_call performD Inv DurableRel T _ _ _ (λ x _, job_Status x.1 = ExtractionCompleted)); [intros x; apply stable_pure| |by intros x; apply triple_ret].
  intros d x d' HI Hd (now & Hp). destruct (UpdateExtraction_keeps _ _ _ _ _ T now job d HI Hd Ha Hc) as [Hk _].
  destruct (transactionD_keeps T _ _ _ _ _ HI Hk Hp). split_and!; [done..|].
  destruct (stamp_same now job) as (_ & _ & Hst & _). destruct Hp as [[= -> _]|(msg & -> & _)]; cbn; by rewrite Hst.
Qed.

Lemma triple_complete F job r : lasting F → jobOk job → (∀ d, F d → finished d job) →
  tripleD T (holding F job) (complete errText T job r) (λ out _, job_Status out.1 = ExtractionCompleted).
Proof.
  intros HF Hok Hfin. unfold complete. apply triple_free; [done|by apply stable_holding|]. intros now. set (job1 := job_setCompletedAt _ _).
  eapply triple_bind.
  { eapply triple_pre; [|apply (triple_updateJob F job1); [done..|]]; [intros d [HFd Hh]; split; [done|by eapply holdsRow_derived]|].
    intros d HFd. right. split; [done|]. eapply finished_kept; [| | |by apply Hfin]; done. }
  intros [job' err]. cbn [fst snd]. eapply triple_pure; [intros d [H1 _]; exact H1|]. intros Hl. pose proof Hl as (_ & _ & Hst & _ & Hatt). cbn in Hst, Hatt.
  destruct err as [e|]; [by apply triple_ret; intros d _|]. eapply triple_pre; [intros d (_ & _ & H1); exact (H1 eq_refl eq_refl)|].
  case_match; [by apply triple_ret; intros d _|]. apply triple_free; [done|apply lasting_stable, doneRow_lasting|]. intros [e|]; [|by apply triple_ret; intros d _].
  apply triple_free; [done|apply lasting_stable, doneRow_lasting|]. intros now2. eapply triple_bind.
  { eapply triple_pre; [|apply triple_DUpdate]; [by intros d Hd| |done]. cbn. rewrite Hatt. by destruct Hok as (_ & _ & ?). }
  intros [job2 err2]. apply triple_ret. by intros d Hd.
Qed.

(** The window of the result, with the completed jobs, covers the conversation up to the
    boundary of the job. *)
Definition covering (job : ExtractionJob) (r : durableExtractionResult) (d : DurableDB) : Prop :=
  ∀ m, 0 < m ≤ job_ThroughMessageID job → windowed r m ∨ recorded d (job_OwnerID job) (job_ConversationID job) m.
(** After an attempt the job is completed, or can be released. *)
Definition afterAttempt (out : ExtractionJob * option DurableErr) (d : DurableDB) : Prop :=
  job_Status out.1 = ExtractionCompleted ∨ ((jobOk out.1 ∧ resumableRaw (job_ResultJSON out.1)) ∧ holdsRow T out.1 d).

Lemma finished_result job r raw d : validResult r → marshalResult r = Ok raw → res_Outcome r ≠ ""%string → covering job r d →
  (res_Outcome r = durableExtractionOutcomeExtracted → acceptedOf fixed2 r ≠ [] ∧
     ∀ i, (i < length (acceptedOf fixed2 r))%nat → hasWriteJob (db_writes d) (job_OwnerID job) (extractionWriteKey (job_ID job) i)) →
  finished d (job_setResult raw job).
Proof.
  intros Hv Hm Ho Hc Hx. destruct (decode_marshal r raw Hv Hm) as (r' & Hd & Hs). pose proof Hs as (_ & _ & Ho' & Hwa & Hwt).
  exists r'. cbn. rewrite Ho', (acceptedOf_same _ _ Hs). split_and!; [done..| |done]. intros m Hr. unfold windowed. rewrite Hwa, Hwt. by apply Hc.
Qed.

Lemma triple_settle F job accepted r : lasting F → jobOk job → validCandidates r →
  (res_Outcome r = ""%string ∧ accepted = acceptedOf fixed2 r) ∨ (res_Outcome r = durableExtractionOutcomeNoOutput ∧ accepted = []) →
  (∀ d, F d → covering job r d) →
  tripleD T (holding F job) (settle marshalResult marshalProvenance marshalRequest errText hasWrites T job accepted r) afterAttempt.
Proof.
  intros HF Hok Hv Hacc Hcov. unfold settle. destruct (marshalResult r) as [raw|e] eqn:Hm; [|apply triple_ret; intros d [_ Hd]; right; split; [split; [done|by left]|done]].
  pose proof Hok as (Hid & _). eapply triple_bind; [eapply triple_pre; [|apply (triple_enqueue (holding F (job_setResult raw job)))]; [done|by apply stable_holding|done]|].
  intros [e|].
  { apply triple_ret. intros d [[_ Hd] [_ He]]. right. split; [split; [done|]|done]. destruct Hacc as [[Ho _]|[_ Ha]]; [by eapply resumable_marshal|by specialize (He Ha)]. }
  set (F' := λ d, F d ∧ ∀ i, (i < length accepted)%nat → hasWriteJob (db_writes d) (job_OwnerID job) (extractionWriteKey (job_ID job) i)).
  assert (lasting F') as HF' by (apply lasting_and; [done|]; apply lasting_all; intros i; apply lasting_impl, hasWriteJob_lasting).
  destruct Hacc as [[Ho ->]|[Ho ->]]; rewrite Ho.
  - rewrite String.eqb_refl. set (r' := set_Outcome _ r). assert (validResult r') as Hv' by (split; [done|]; cbn; destruct (acceptedOf fixed2 r); set_solver).
    destruct (marshalResult r') as [raw'|e] eqn:Hm'; [|apply triple_ret; intros d [[_ Hd] _]; right; split; [split; [done|by left]|done]].
    eapply triple_pre; [|eapply triple_post; [|apply (triple_complete F' (job_setResult raw' job))]]; [|by left|done..|].
    + intros d [[HFd Hh] [Hw _]]. split; [split; [done|by apply Hw]|]. by eapply holdsRow_derived.
    + intros d [HFd Hw]. apply (finished_result job r'); [done..| |by apply Hcov|].
      * cbn. by destruct (acceptedOf fixed2 r).
      * change (acceptedOf fixed2 r') with (acceptedOf fixed2 r). cbn [res_Outcome set_Outcome]. destruct (acceptedOf fixed2 r); [by intros [=]|]. by split.
  - change (durableExtractionOutcomeNoOutput =? "")%string with false. cbv iota.
    eapply triple_pre; [|eapply triple_post; [|apply (triple_complete F (job_setResult raw job))]]; [|by left|done..|].
    + by intros d [[HFd Hh] _].
    + intros d HFd. apply (finished_result job r); [split; [done|rewrite Ho; set_solver]|done|by rewrite Ho|by apply Hcov|]. rewrite Ho. by intros [=].
Qed.

Lemma triple_previousBoundary F job : lasting F →
  tripleD T (holding F job) (previousBoundary job)
    (λ p d, (F d ∧ ∀ m, 0 < m ≤ p → recorded d (job_OwnerID job) (job_ConversationID job) m) ∧ holdsRow T job d).
Proof.
  intros HF. unfold previousBoundary. case_match; [apply triple_ret; intros d [? ?]; split_and!; [done|lia|done]|].
  eapply triple_call; [|intros d x d' HI [HFd Hh] Hp|intros x; apply triple_ret; intros d Hd; exact Hd].
  - intros x. cbn. apply stable_and; [|apply holdsRow_stable]. apply stable_and; [by apply lasting_stable|]. apply lasting_stable, lasting_all. intros m. apply lasting_impl, recorded_lasting.
  - assert (d' = d) as -> by (by destruct Hp as [[= _ ->]|(msg & _ & [->| ->])]). split_and!; [done|apply DurableRel_refl|done| |done].
    intros m Hm. destruct Hp as [[= -> ]|(msg & -> & _)]; [|cbn in Hm; lia]. by apply (LatestCompleted_recorded fixed2 probeChunks unmarshalResult unmarshalRequest sha256_hex).
Qed.

Lemma gateExtractionResult_eq r : gateExtractionResult fixed2 r = (acceptedOf fixed2 r, set_Rejections (gateExtractionCandidates fixed2 (gateCandidates r)).2 r).
Proof. unfold gateExtractionResult, acceptedOf. by destruct (gateExtractionCandidates fixed2 (gateCandidates r)). Qed.

Lemma triple_extractWindow F job previous r : lasting F → working job → partial r →
  (∀ d, F d → ∀ m, 0 < m ≤ previous → recorded d (job_OwnerID job) (job_ConversationID job) m) →
  tripleD T (holding F job) (extractWindow unmarshalMetadata canonicalJSON fixed2 marshalResult unmarshalEnvelope marshalCandidate marshalProvenance marshalRequest errText
    hasModel hasWrites T job previous r) afterAttempt.
Proof.
  intros HF Hw Hr Hprev. unfold extractWindow. set (r0 := if negb (res_WindowAfter r =? previous) || _ then emptyResult else r).
  assert (partial r0) as Hr0 by (subst r0; case_match; [split; [split; [intros i cs; cbn; by rewrite lookup_empty|done]|done]|done]).
  assert (∀ job' e, working job' → ∀ d, holdsRow T job' d → afterAttempt (job', Some e) d) as Hfail by (intros job' e (Hok' & Hres' & _) d Hh; right; by split).
  apply triple_free; [done|by apply stable_holding|]. intros [rows|e]; [|apply triple_ret; intros d [_ Hd]; by apply Hfail].
  set (r1 := set_Window _ _ r0). assert (partial r1) as Hr1 by (destruct Hr0; done).
  eapply triple_bind; [by apply triple_extractChunks|]. intros [[job2 r2] err]. cbn [fst snd]. eapply triple_pure; [intros d [Ho [H1 _]]; exact (conj Ho H1)|].
  intros (Ho2 & Hd2 & Hw2 & Hv2 & Hs2). eapply triple_pre; [intros d (_ & _ & Hd); exact Hd|]. cbn [fst snd] in *. destruct err as [e|]; [apply triple_ret; intros d [_ Hd]; by apply Hfail|].
  eapply triple_bind; [by apply triple_merge|]. intros [[job3 r3] err]. cbn [fst snd]. eapply triple_pure; [intros d [Ho [H1 _]]; exact (conj Ho H1)|].
  intros (Ho3 & Hd3 & Hw3 & Hv3 & Hs3). eapply triple_pre; [intros d (_ & _ & Hd); exact Hd|]. cbn [fst snd] in *. destruct err as [e|]; [apply triple_ret; intros d [_ Hd]; by apply Hfail|].
  assert (∀ rej d, F d → covering job3 (set_Rejections rej r3) d) as Hcov.
  { intros rej d HFd m. destruct (derived_trans _ _ _ Hd2 Hd3) as [(_ & Eo & Ec & _) Et]. rewrite Eo, Ec, Et. destruct Hs2 as [Ea2 Et2], Hs3 as [Ea3 Et3].
    unfold windowed. cbn. rewrite Ea3, Et3, Ea2, Et2. cbn. intros Hm. destruct (decide (previous < m)); [left; lia|right]. apply Hprev; [done|lia]. }
  rewrite Ho3. destruct (res_Outcome r2 =? "")%string eqn:Hz.
  - apply String.eqb_eq in Hz. rewrite gateExtractionResult_eq. apply triple_settle; [exact HF|exact (proj1 Hw3)|exact Hv3| |intros d HFd; by apply Hcov].
    left. split; [exact (eq_trans Ho3 Hz)|reflexivity].
  - apply String.eqb_neq in Hz. apply triple_settle; [exact HF|exact (proj1 Hw3)|exact Hv3| |intros d HFd; exact (Hcov (res_Rejections r3) d HFd)].
    right. split; [|reflexivity]. apply elem_of_cons in Ho2 as [Ho2|Ho2%list_elem_of_singleton]; [contradiction|exact (eq_trans Ho3 Ho2)].
Qed.

Notation extractT := (extract unmarshalMetadata canonicalJSON fixed2 marshalResult probeChunks unmarshalResult unmarshalEnvelope marshalCandidate marshalProvenance marshalRequest errText hasModel hasWrites).
Notation attemptT := (attempt unmarshalMetadata canonicalJSON fixed2 marshalResult probeChunks unmarshalResult unmarshalEnvelope marshalCandidate marshalProvenance marshalRequest errText hasModel hasWrites).
Notation HandleT := (Handle unmarshalMetadata canonicalJSON fixed2 marshalResult probeChunks unmarshalResult unmarshalEnvelope marshalCandidate marshalProvenance marshalRequest errText T hasModel hasWrites).
Notation ProcessNextT := (ProcessNext unmarshalMetadata canonicalJSON fixed2 marshalResult probeChunks unmarshalResult unmarshalEnvelope marshalCandidate marshalProvenance marshalRequest errText T hasModel hasWrites).

Lemma emptyResult_valid : validCandidates emptyResult.
Proof. split; [intros i cs; cbn; by rewrite lookup_empty|done]. Qed.

(** The stored result of a claimed job is resumable, so the window is extracted. *)
Lemma resumable_decode raw : resumableRaw raw →
  partial (decode raw).1 ∧ (TrimSpace raw =? "")%string || ((decode raw).2 && (res_Outcome (decode raw).1 =? "")%string) = true.
Proof.
  intros [Hb|(r & Hd & Ho)].
  - unfold decodeDurableExtractionResult. rewrite Hb, String.eqb_refl. cbn [fst snd]. split; [split; [apply emptyResult_valid|done]|done].
  - rewrite Hd. cbn [fst snd]. rewrite Ho, String.eqb_refl, orb_true_r. split; [split; [by eapply decode_valid|done]|done].
Qed.

Notation anyF := (λ _ : DurableDB, True).

Lemma triple_extract job : working job → tripleD T (holding anyF job) (extractT T job) afterAttempt.
Proof.
  intros Hw. pose proof Hw as (Hok & Hres & _). unfold extract. destruct (resumable_decode _ Hres) as [Hp Hb].
  destruct (decode (job_ResultJSON job)) as [r resumable]. cbn [fst snd] in *. rewrite Hb.
  eapply triple_bind; [apply triple_previousBoundary, lasting_pure|]. intros previous. cbv beta.
  set (F := λ d, True ∧ ∀ m, 0 < m ≤ previous → recorded d (job_OwnerID job) (job_ConversationID job) m).
  assert (lasting F) as HF by (apply lasting_and; [apply lasting_pure|]; apply lasting_all; intros m; apply lasting_impl, recorded_lasting).
  destruct ((job_ThroughMessageID job <=? previous) && (0 <? job_ThroughMessageID job)) eqn:Hshadow.
  - apply (triple_settle F); [exact HF|exact Hok|apply emptyResult_valid|by right|]. intros d [_ Hrec] m Hm. right. apply Hrec. bool_prop. lia.
  - apply (triple_extractWindow F); [exact HF|exact Hw|exact Hp|]. intros d [_ Hrec]. exact Hrec.
Qed.

Lemma afterAttempt_stable out : stableD T (afterAttempt out).
Proof. intros T' d d' Hne HI HR [?|[? Hh]]; [by left|right]. split; [done|]. by eapply holdsRow_stable. Qed.

Lemma triple_locked job : working job → tripleD T (holdsRow T job) (lockedExtract unmarshalMetadata canonicalJSON fixed2 marshalResult probeChunks unmarshalResult unmarshalEnvelope marshalCandidate marshalProvenance marshalRequest errText hasModel hasWrites T job) afterAttempt.
Proof.
  intros Hw. unfold lockedExtract. apply triple_free; [done|apply holdsRow_stable|]. intros [e|].
  { apply triple_ret. intros d Hd. right. destruct Hw as (? & ? & _). by split. }
  eapply triple_bind; [eapply triple_pre; [|by apply triple_extract]; by intros d Hd|]. intros out.
  apply triple_free; [done|apply afterAttempt_stable|]. intros _. by apply triple_ret.
Qed.

Lemma triple_notDue G job : stableD T G → tripleD T G (notDue job) (λ _, G).
Proof. intros HG. unfold notDue. case_match; [|by apply triple_ret]. apply triple_free; [done..|]. intros now. by apply triple_ret. Qed.

(** A job in hand can be stored as pending. *)
Lemma triple_release job msg due : jobOk job → resumableRaw (job_ResultJSON job) →
  tripleD T (holdsRow T job) (updateJob T (job_release ExtractionPending msg due job)) (λ out d, like (job_release ExtractionPending msg due job) out.1 ∧ holdsRow T out.1 d).
Proof.
  intros Hok Hres. eapply triple_post; [|eapply triple_pre; [|apply (triple_updateJob anyF)]].
  - intros out d (Hl & [_ Hh] & _). by split.
  - intros d Hd. split; [done|by eapply holdsRow_derived].
  - apply lasting_pure.
  - done.
  - intros d _. left. split; [cbn; left|done].
Qed.

Lemma triple_attempt job : working job → tripleD T (holdsRow T job) (attemptT T job) afterAttempt.
Proof.
  intros Hw. pose proof Hw as (Hok & Hres & _). unfold attempt. eapply triple_bind; [by apply triple_notDue, holdsRow_stable|]. intros [].
  - eapply triple_post; [|by apply triple_release]. intros [job' err] d [Hl Hh]. right. split; [|done]. cbn [fst] in *. pose proof Hl as (_ & _ & _ & Hr & Ha).
    split; [by eapply jobOk_derived; [apply like_derived| |]|]. by rewrite Hr.
  - rewrite (proj2 (Z.leb_gt _ _)) by apply Hok. by apply triple_locked.
Qed.

Lemma triple_releaseFailed job err : tripleD T (afterAttempt (job, err)) (releaseFailed errText T job err) (λ _ _, True).
Proof.
  unfold releaseFailed. destruct err as [e|]; [|by apply triple_ret]. destruct (job_Status job =? ExtractionCompleted)%string eqn:Hc; [by apply triple_ret|].
  apply String.eqb_neq in Hc. eapply triple_pure; [intros d [?|[Hok _]]; [contradiction|exact Hok]|]. intros [Hok Hres].
  apply triple_free; [done|apply afterAttempt_stable|]. intros now. eapply triple_bind; [|intros x; by apply triple_ret].
  eapply triple_pre; [|by apply triple_release]. intros d [?|[_ Hh]]; [contradiction|exact Hh].
Qed.

Lemma triple_Handle enabled payload : tripleD T (λ _, True) (HandleT enabled payload) (λ _ _, True).
Proof.
  unfold Handle. destruct enabled; cbn [negb]; [|by apply triple_ret]. destruct (payload_JobID payload <=? 0) eqn:Hid; [by apply triple_ret|]. apply Z.leb_gt in Hid.
  apply triple_free; [done|apply stable_pure|]. intros now.
  eapply (triple_call performD Inv DurableRel T _ _ _ (λ x d, match x with Ok (job, true) => (working job ∧ job_LockedBy job = T) ∧ holdsRow T job d | _ => True end)).
  - intros [[job []]|e]; [|apply stable_pure..]. apply stable_and; [apply stable_pure|apply holdsRow_stable].
  - intros d x d' HI _ (now' & Hp). destruct (ClaimByID_keeps _ _ _ _ _ T now' (payload_OwnerID payload) (payload_JobID payload) (now + durableStage1Lease) d HI Hid) as [Hk Hc].
    destruct (transactionD_keeps T _ _ _ _ _ HI Hk Hp). split_and!; [done..|]. destruct Hp as [Ha|(msg & -> & _)]; [|done]. rewrite <- Ha in Hc. cbn [fst snd] in Hc.
    destruct x as [[job []]|e]; [|done..]. destruct (Hc job eq_refl) as (? & ? & ? & ? & ?). done.
  - intros [[job []]|e]; [|by apply triple_ret..]. eapply triple_pure; [intros d [H1 _]; exact H1|]. intros [Hw ->]. rewrite String.eqb_refl.
    eapply triple_bind; [eapply triple_pre; [|by apply triple_attempt]; by intros d [_ Hd]|]. intros [job' err]. apply triple_releaseFailed.
Qed.

(** *** Polling *)

Definition completedJob (job : ExtractionJob) : Prop := 0 ≤ job_AttemptCount job ≤ 5 ∧ job_Status job = ExtractionCompleted.

Lemma triple_save job (k : ExtractionJob * option DurableErr → program dcall (bool * option DurableErr)) : completedJob job →
  (∀ x, tripleD T (λ _, True) (k x) (λ _ _, True)) → tripleD T (doneRow job) (Ask _ (DUpdate job) k) (λ _ _, True).
Proof.
  intros [Ha Hc] Hk. apply (triple_call performD Inv DurableRel T _ _ _ (λ _ _, True)); [intros x; apply stable_pure| |done].
  intros d x d' HI Hd (now & Hp). destruct (UpdateExtraction_keeps _ _ _ _ _ T now job d HI Hd Ha Hc) as [Hkeep _].
  by destruct (transactionD_keeps T _ _ _ _ _ HI Hkeep Hp).
Qed.

Lemma lasting_doneRows jobs : lasting (λ d, Forall (λ job, doneRow job d) jobs).
Proof. intros T' d d' HR Hd. eapply Forall_impl; [exact Hd|]. intros job. by apply (doneRow_lasting job T'). Qed.

Lemma triple_retryPhase2 jobs : Forall completedJob jobs → tripleD T (λ d, Forall (λ job, doneRow job d) jobs) (retryPhase2 errText jobs) (λ _ _, True).
Proof.
  induction 1 as [|job rest Hjob Hrest IH]; [by apply triple_ret|]. cbn [retryPhase2].
  eapply triple_bind; [by apply triple_notDue, lasting_stable, lasting_doneRows|]. intros []; [eapply triple_pre, IH; intros d Hd; by inversion Hd|].
  apply triple_free; [done|by apply lasting_stable, lasting_doneRows|]. intros [e|].
  - apply (triple_bind performD Inv DurableRel T _ _ _ (λ _ _, True)); [|intros x; by apply triple_ret]. unfold deferPhase2Retry. apply triple_free; [done|apply lasting_stable, lasting_doneRows|]. intros now.
    eapply triple_pre; [intros d Hd; inversion Hd; subst; eassumption|].
    apply (triple_call performD Inv DurableRel T _ _ _ (λ _ _, True)); [intros x; apply stable_pure| |by intros [? ?]; apply triple_ret].
    intros d x d' HI Hd (now' & Hp). destruct Hjob as [Ha Hc].
    destruct (UpdateExtraction_keeps _ _ _ _ _ T now' (job_setPhase2 ("phase2:" ++ errText e) (Some (now + durablePhase2RetryDelay (job_Phase2AttemptCount job + 1)))
      (job_Phase2AttemptCount job + 1) job) d HI Hd Ha Hc) as [Hkeep _]. by destruct (transactionD_keeps T _ _ _ _ _ HI Hkeep Hp).
  - eapply triple_pre, triple_save; [intros d Hd; inversion Hd; subst; eassumption|done|]. intros [? ?]. by apply triple_ret.
Qed.

Lemma phase2_rows now limit d : Inv d → Forall completedJob (ListPhase2Retries now limit d) ∧ Forall (λ job, doneRow job d) (ListPhase2Retries now limit d).
Proof.
  intros HI. assert (∀ job, job ∈ ListPhase2Retries now limit d → completedJob job ∧ doneRow job d) as Hall.
  { intros job Hin. unfold ListPhase2Retries in Hin. apply elem_of_take in Hin as (i & Hin & _). apply list_elem_of_lookup_2, list_elem_of_fmap in Hin as ([id j] & -> & Hin).
    apply elem_of_rowsWhere in Hin as [Hj HP]. cbn [snd] in *. do 3 apply andb_true_iff in HP as [HP _]. apply String.eqb_eq in HP.
    split; [split; [by apply (ok_attempts _ _ _ _ _ (di_rows _ _ _ _ _ _ HI _ _ Hj))|done]|]. exists j. rewrite (di_keyed _ _ _ _ _ _ HI _ _ Hj). done. }
  split; apply Forall_forall; intros job Hin; by apply Hall.
Qed.

Lemma triple_ProcessNext enabled : tripleD T (λ _, True) (ProcessNextT enabled) (λ _ _, True).
Proof.
  unfold ProcessNext. destruct enabled; cbn [negb]; [|by apply triple_ret]. apply triple_free; [intros d x d' (now & [[= _ ->]|(msg & _ & [->| ->])]); done|apply stable_pure|].
  intros [jobs|e]; [|by apply triple_ret]. destruct (List.find _ jobs) as [job|].
  { eapply triple_bind; [apply triple_Handle|]. intros err. by apply triple_ret. }
  apply (triple_call performD Inv DurableRel T _ _ _ (λ x d, match x with Ok jobs => Forall completedJob jobs ∧ Forall (λ job, doneRow job d) jobs | Err _ => True end)).
  - intros [js|e]; [|apply stable_pure]. apply stable_and; [apply stable_pure|apply lasting_stable, lasting_doneRows].
  - intros d x d' HI _ (now & Hp). assert (d' = d) as -> by (by destruct Hp as [[= _ ->]|(msg & _ & [->| ->])]).
    split_and!; [done|apply DurableRel_refl|]. destruct Hp as [[= ->]|(msg & -> & _)]; [by apply phase2_rows|done].
  - intros [js|e]; [|by apply triple_ret]. eapply triple_pure; [intros d [H1 _]; exact H1|]. intros Hjs. eapply triple_pre; [intros d [_ H1]; exact H1|]. by apply triple_retryPhase2.
Qed.

(** *** Scheduling *)

Lemma triple_keeping {A X} (c : dcall X) (k : X → program dcall A) : (∀ d x d', Inv d → performD _ c d x d' → keeps T d d') →
  (∀ x, tripleD T (λ _, True) (k x) (λ _ _, True)) → tripleD T (λ _, True) (Ask _ c k) (λ _ _, True).
Proof.
  intros Hc Hk. apply (triple_call performD Inv DurableRel T _ _ _ (λ _ _, True)); [intros x; apply stable_pure| |done]. intros d x d' HI _ Hp. by destruct (Hc d x d' HI Hp).
Qed.

Lemma triple_schedule transactional o c t due : 0 < t → tripleD T (λ _, True) (scheduleDurableBoundary transactional o c t due) (λ _ _, True).
Proof.
  intros Ht. unfold scheduleDurableBoundary. destruct transactional.
  { apply triple_keeping; [|by intros x; apply triple_ret]. intros d x d' HI Hp. by eapply transactionD_keeps; [|apply Schedule_keeps|]. }
  unfold scheduleDurableBoundaryStepwise. apply triple_keeping; [intros d x d' HI [[= _ ->]|(msg & _ & [->| ->])]; by apply durableKeeps_refl|].
  intros [latest|e]; [|by apply triple_ret]. set (create := Ask _ (DCreate _) _).
  assert (tripleD T (λ _, True) create (λ _ _, True)) as Hcreate.
  { apply triple_keeping; [intros d x d' HI Hp; by eapply transactionD_keeps; [|apply Create_keeps|]|]. intros [row|e]; [by apply triple_ret|].
    apply triple_keeping; [|by intros x; apply triple_ret]. intros d x d' HI Hp. eapply transactionD_keeps; [done| |exact Hp]. by apply durableKeeps_refl. }
  destruct latest as [j|]; [|exact Hcreate]. case_match; [|exact Hcreate].
  apply triple_keeping; [intros d x d' HI Hp; eapply transactionD_keeps; [done| |exact Hp]; by apply Refresh_keeps|].
  intros [[]|e]; [by apply triple_ret|exact Hcreate|by apply triple_ret].
Qed.

Lemma triple_trigger transactional idle o c : tripleD T (λ _, True) (durableTrigger transactional idle o c) (λ _ _, True).
Proof.
  unfold durableTrigger. case_match; [by apply triple_ret|]. apply triple_free; [done|apply stable_pure|]. intros [through err].
  destruct (bool_decide (err ≠ None) || (through <=? 0)) eqn:Hb; [by apply triple_ret|]. apply orb_false_iff in Hb as [_ Hb%Z.leb_gt].
  apply triple_free; [done|apply stable_pure|]. intros now. eapply triple_bind; [by apply triple_schedule|].
  intros [[job []]|e]; [|by apply triple_ret..]. case_match; [|by apply triple_ret]. apply triple_free; [done|apply stable_pure|]. intros _. by apply triple_ret.
Qed.
End Safety.

(** ** The system *)

Definition emptyDurable : DurableDB := mkDurableDB ∅ emptyWrites.
Definition forgetD {A} (p : program dcall A) : program dcall unit := run _ := p in Return _ tt.

(** A worker id that [updateJob] takes as it is. *)
Definition isWorker (T : string) : Prop := TrimSpace T = T ∧ T ≠ ""%string.

Section System.
Context (unmarshalMetadata : RawMessage → option RawMetadata) (canonicalJSON : string → option string) (fixed2 : float64 → string).
Context (marshalResult : durableExtractionResult → result string RawMessage).
Context (probeChunks : string → result string RawMessage) (unmarshalResult : string → result string (option durableExtractionResult)).
Context (unmarshalEnvelope : string → result string (option (list rawExtractionCandidate))).
Context (marshalCandidate : ExtractionCandidate → option string).
Context (marshalProvenance : string → float64 → list string → result string RawMessage).
Context (marshalRequest : WriteRequest → result string RawMessage) (unmarshalRequest : RawMessage → result string WriteRequest).
Context (sha256_hex : string → string) (hasWriter : bool) (writeErrText : WriteErr → string) (errText : DurableErr → string).
Context (hasModel hasWrites : bool).

Notation HandleOf T := (Handle unmarshalMetadata canonicalJSON fixed2 marshalResult probeChunks unmarshalResult unmarshalEnvelope marshalCandidate marshalProvenance marshalRequest errText T hasModel hasWrites).
Notation PollOf T := (ProcessNext unmarshalMetadata canonicalJSON fixed2 marshalResult probeChunks unmarshalResult unmarshalEnvelope marshalCandidate marshalProvenance marshalRequest errText T hasModel hasWrites).

(** Workers under their ids, one handler at a time; triggers, producers and writers of
    memories under tokens of their own. *)
Inductive durableHandler (T : string) : program dcall unit → Prop :=
| RunHandle enabled payload : isWorker T → durableHandler T (forgetD (HandleOf T enabled payload))
| RunPoll enabled : isWorker T → durableHandler T (forgetD (PollOf T enabled))
| RunTrigger transactional idle ownerID conversationID : durableHandler T (durableTrigger transactional idle ownerID conversationID)
| RunEnqueue req : durableHandler T (lift (forget (Enqueue marshalRequest req)))
| RunWrites workerID lease maxAttempts :
    durableHandler T (lift (forget (MemoryWrites.ProcessNext unmarshalRequest sha256_hex hasWriter writeErrText workerID lease maxAttempts))).

(** A heartbeat of any worker. *)
Definition heartbeat (d d' : DurableDB) : Prop := ∃ id workerID until, d' = (RenewLease id workerID until d).2.

Notation spawnsD := (λ _ : DurableDB, durableHandler).
Definition durableReachable (d : DurableDB) : Prop := ∃ threads, rtc (wstep performD spawnsD heartbeat) (mkWorld emptyDurable ∅) (mkWorld d threads).

Context `{!DurableCodec marshalResult probeChunks unmarshalResult unmarshalEnvelope}.
Notation Inv := (DurableInv fixed2 probeChunks unmarshalResult unmarshalRequest sha256_hex).

Lemma triple_any {A} T pre (p : program dcall A) post : triple performD Inv DurableRel T pre p post → safe performD Inv DurableRel T (λ _ _, True) pre p.
Proof. intros Hp. eapply safety_mono; [|exact Hp]. done. Qed.

Lemma handler_safe T p : durableHandler T p → safe performD Inv DurableRel T (λ _ _, True) (λ _, True) p.
Proof.
  destruct 1 as [enabled payload [HT Hne]|enabled [HT Hne]|transactional idle o c|req|w lease max].
  - apply safe_bind. eapply safety_mono; [|eapply triple_any, triple_Handle; eauto]. done.
  - apply safe_bind. eapply safety_mono; [|eapply triple_any, triple_ProcessNext; eauto]. done.
  - eapply triple_any, triple_trigger.
  - eapply triple_any, triple_pre, (triple_lift _ _ _ _ _ T 0 (λ _, True) (λ _, True) _ (λ _ _, True)); [done|apply stable_pure|].
    apply safe_bind. eapply safety_mono; [|apply safe_Enqueue]. done.
  - eapply triple_any, triple_pre, (triple_lift _ _ _ _ _ T 0 (λ _, True) (λ _, True) _ (λ _ _, True)); [done|apply stable_pure|].
    apply safe_bind. eapply safety_mono; [|apply safe_ProcessNext]. done.
Qed.

Lemma emptyDurable_inv : Inv emptyDurable.
Proof.
  split; cbn; try by intros; rewrite ?lookup_empty in *. split; cbn; try by intros; rewrite ?lookup_empty in *.
  - constructor.
  - intros id. split; [set_solver|intros (? & ? & ?); by rewrite lookup_empty in *].
Qed.

Lemma durableReachable_inv d : durableReachable d → Inv d.
Proof.
  intros (threads & Hr). apply (worldInv_reachable performD Inv DurableRel) in Hr; [by destruct Hr as [? _ _]|..|apply emptyDurable_inv].
  - intros s T p HI Hp. exists (λ _, True). split_and!; [apply stable_pure|done|by apply handler_safe].
  - intros s s' HI (id & w & until & ->). split; [by apply (RenewLease_keeps _ _ _ _ _ ""%string)|]. intros T K HK HKs.
    apply (HK (T ++ "x")%string s); [apply other_worker|done| |done]. by apply (RenewLease_keeps fixed2 probeChunks unmarshalResult unmarshalRequest sha256_hex).
Qed.

(** C10. No evidence is skipped: in every reachable state of triggers, workers, heartbeats and
    write workers, with calls that fail before or after their commit and crashes, each
    message id up to the boundary of a completed job lies in the recorded window of a
    completed job of the same conversation; window boundaries are read without a
    transaction, jobs complete out of order and lose their leases.  A job that is not
    completed holds no result or a partial one, and counts at most five attempts. *)
Theorem durable_windows_cover (d : DurableDB) : durableReachable d → ∀ id j, db_extractions d !! id = Some j →
  (job_Status j = ExtractionCompleted → ∀ m, 0 < m ≤ job_ThroughMessageID j → recorded probeChunks unmarshalResult d (job_OwnerID j) (job_ConversationID j) m) ∧
  (job_Status j ≠ ExtractionCompleted → resumableRaw probeChunks unmarshalResult (job_ResultJSON j)) ∧
  0 ≤ job_AttemptCount j ≤ 5.
Proof.
  intros HI%durableReachable_inv id j Hj. destruct (di_rows _ _ _ _ _ _ HI _ _ Hj) as [_ Ha _ Hr Hf]. split_and!; [|done|lia|lia].
  intros Hc m Hm. destruct (Hf Hc) as (r & Hd & _ & Hcov & _). destruct (Hcov m Hm) as [Hw|Hw]; [|done]. by exists id, j, r.
Qed.

(** In every reachable state a job completed as extracted has accepted candidates, and
    there is a memory write job under the key of the job and of each position.  What that
    write job holds is another matter: see [window_completed_after_writes] of
    [DurableHandlers] for one attempt, and [moved_window_drops_candidate] below for
    attempts over different windows. *)
Theorem extracted_positions_have_jobs (d : DurableDB) : durableReachable d → ∀ id j r, db_extractions d !! id = Some j → job_Status j = ExtractionCompleted →
  decodeDurableExtractionResult probeChunks unmarshalResult (job_ResultJSON j) = (r, true) → res_Outcome r = durableExtractionOutcomeExtracted →
  acceptedOf fixed2 r ≠ [] ∧
  ∀ i c, acceptedOf fixed2 r !! i = Some c →
    ∃ k w, db_jobs (db_writes d) !! k = Some w ∧ wj_OwnerID w = job_OwnerID j ∧ wj_IdempotencyKey w = extractionWriteKey id i.
Proof.
  intros HI%durableReachable_inv id j r Hj Hc Hd Ho. destruct (ok_finished _ _ _ _ _ (di_rows _ _ _ _ _ _ HI _ _ Hj) Hc) as (r' & Hd' & _ & _ & Hx).
  rewrite Hd in Hd'. injection Hd' as <-. destruct (Hx Ho) as [Hne Hw]. split; [done|]. intros i c Hi. rewrite <- (di_keyed _ _ _ _ _ _ HI _ _ Hj). apply Hw. by eapply lookup_lt_Some.
Qed.

(** A series of handlers: the clock, the answers of the outside and the times when creating
    write jobs fails are given. *)
Record Surroundings := mkSurroundings {
  clock : DurableDB → Z;
  latest : DurableDB → Z;
  rows : list MessageRow;
  reply : DurableDB → result DurableErr string;
  broken : DurableDB → bool
}.
Definition execWrites (down : bool) (now : Z) (X : Type) (c : wcall X) : WriteDB → X * WriteDB :=
  match c in wcall X return WriteDB → X * WriteDB with
  | WCreateJob job => λ w, if down then (Some (ErrDatabase "unavailable"), w) else CreateJob job w
  | c => execW now _ c
  end.
Definition execD (env : Surroundings) (X : Type) (c : dcall X) : DurableDB → X * DurableDB :=
  match c in dcall X return DurableDB → X * DurableDB with
  | DClock => λ d, (clock env d, d)
  | DClaimByID o id w until => λ d, ClaimByID (clock env d) o id w until d
  | DUpdateOwned job w => λ d, UpdateOwned (clock env d) job w d
  | DUpdate job => λ d, UpdateExtraction (clock env d) job d
  | DSchedule o c t due => ScheduleDurableBoundary o c t due
  | DLatestDurable o c => λ d, (Ok (LatestDurableJob o c d), d)
  | DRefresh o id t due => λ d, (Ok (RefreshPendingBoundary o id t due d).1, (RefreshPendingBoundary o id t due d).2)
  | DCreate row => CreateExtraction row
  | DFindByKey o key => λ d, (match extractionByKey o key d with Some j => Ok j | None => Err DErrNotFound end, d)
  | DLatestCompleted o c => λ d, (Ok (LatestCompletedDurableThrough o c d), d)
  | DListPending limit => λ d, (Ok (ListPending (clock env d) limit d), d)
  | DListPhase2 limit => λ d, (Ok (ListPhase2Retries (clock env d) limit d), d)
  | DLatestMessageID _ _ => λ d, (latest env d, None, d)
  | DMessages _ _ _ _ => λ d, (Ok (rows env), d)
  | DLock _ _ => λ d, (None, d)
  | DUnlock _ _ => λ d, (tt, d)
  | DChat _ => λ d, (reply env d, d)
  | DConsolidate _ => λ d, (None, d)
  | DPublish _ => λ d, (tt, d)
  | DWrites c => λ d, match execWrites (broken env d) (clock env d) _ c (db_writes d) with (x, w) => (x, mkDurableDB (db_extractions d) w) end
  end.

Lemma execWrites_performs down now X (c : wcall X) w : performW _ c w (execWrites down now _ c w).1 (execWrites down now _ c w).2.
Proof.
  destruct c as [|job|workerID t until limit|job|item]; cbn; [done| |left; symmetry; apply surjective_pairing..|exists now; by left].
  destruct down; [right; exists "unavailable"%string; auto|left; symmetry; apply surjective_pairing].
Qed.

Lemma execD_performs env X (c : dcall X) d : performD _ c d (execD env _ c d).1 (execD env _ c d).2.
Proof.
  destruct c; cbn; try done; try (eexists; left; first [reflexivity|symmetry; apply surjective_pairing]); try (left; first [reflexivity|symmetry; apply surjective_pairing]).
  pose proof (execWrites_performs (broken env d) (clock env d) _ c (db_writes d)) as Hp. by destruct (execWrites _ _ _ c _).
Qed.

Lemma durable_series_reachable env ps : (∀ p, p ∈ ps → durableHandler p.1.1 p.2) → durableReachable (runSeries (execD env) emptyDurable ps).
Proof. intros Hps. exists ∅. apply runSeries_reachable; [apply execD_performs|]. intros p Hp s. by apply Hps. Qed.
End System.

(** ** Sample runs *)

(** A codec that meets the requirements: results are numbered, and a number is written in
    binary. *)
Module Samples.

#[local] Instance float64_eq_dec : EqDecision float64.
Proof. solve_decision. Defined.
#[local] Instance float64_countable : Countable float64.
Proof. by apply (inj_countable' (λ f, (f_mant f, f_exp f)) (λ p, mkFloat p.1 p.2)); intros []. Defined.
#[local] Instance candidate_eq_dec : EqDecision ExtractionCandidate.
Proof. solve_decision. Defined.
#[local] Instance candidate_countable : Countable ExtractionCandidate.
Proof.
  by apply (inj_countable' (λ c, (cand_Title c, cand_Content c, cand_Type c, cand_Confidence c, cand_Importance c, cand_EvidenceRefs c))
    (λ '(t, co, ty, cf, im, refs), mkCandidate t co ty cf im refs)); intros [].
Defined.

Fixpoint digits (p : positive) : string :=
  match p with xH => "." | xO q => String "0"%char (digits q) | xI q => String "1"%char (digits q) end.
Fixpoint number (s : string) : positive :=
  match s with
  | String "0"%char s => xO (number s)
  | String "1"%char s => xI (number s)
  | _ => xH
  end.
Lemma number_digits p : number (digits p) = p.
Proof. induction p as [p IH|p IH|]; cbn; by rewrite ?IH. Qed.

Definition parts (r : durableExtractionResult) : gmap Z (list ExtractionCandidate) * option (list ExtractionCandidate) * string * Z * Z :=
  (res_Chunks r, res_Merge r, res_Outcome r, res_WindowAfter r, res_WindowThrough r).
Definition marshal (r : durableExtractionResult) : result string RawMessage := Ok (digits (encode (parts r))).

#[local] Instance validText_dec s : Decision (validText s).
Proof. unfold validText. apply _. Defined.
#[local] Instance validCandidate_dec c : Decision (validCandidate c).
Proof. unfold validCandidate. apply _. Defined.
Definition validParts (m : gmap Z (list ExtractionCandidate)) (merge : option (list ExtractionCandidate)) : bool :=
  bool_decide (map_Forall (λ _, Forall validCandidate) m) && bool_decide (Forall validCandidate (default [] merge)).
Definition unmarshal (raw : string) : result string (option durableExtractionResult) :=
  match decode (number raw) with
  | Some (m, merge, o, after, through) => if validParts m merge then Ok (Some (mkResult m merge o after through [])) else Err "invalid"%string
  | None => Err "syntax"%string
  end.
Definition probe (raw : string) : result string RawMessage := Ok "chunks"%string.

Definition candidate (title : string) : rawExtractionCandidate :=
  mkRawCandidate (Some title) (Some title) (Some "fact"%string) (Some (float_of_Z 1)) (Some (float_of_Z 1)) (Some ["messages:1-2"%string]).
(** A reply is a text of titles between braces, one byte each. *)
Definition envelope (raw : string) : result string (option (list rawExtractionCandidate)) :=
  if (raw =? "{ab}")%string then Ok (Some [candidate "a"; candidate "b"]) else Ok (Some [candidate "c"]).

Lemma digits_visible p : Forall (λ c, 33 ≤ byte_val c ≤ 126) (bytes (digits p)).
Proof. induction p as [p IH|p IH|]; cbn; constructor; done. Qed.

Lemma checked s : bool_decide (validText s) = true → validText s.
Proof. apply bool_decide_eq_true_1. Qed.

#[export] Instance sampleCodec : DurableCodec marshal probe unmarshal envelope.
Proof.
  split.
  - intros r raw [= <-]. split_and!; [apply TrimSpace_visible, digits_visible|by destruct (encode _)|by exists "chunks"%string].
  - intros r raw [[Hc Hm] _] [= <-]. unfold unmarshal. rewrite number_digits, countable.decode_encode. cbn. assert (validParts (res_Chunks r) (res_Merge r) = true) as ->.
    { unfold validParts. apply andb_true_iff. split; apply bool_decide_eq_true; [exact Hc|]. destruct (res_Merge r) as [cs|]; [by apply Hm|constructor]. }
    eexists. by split.
  - intros raw r. unfold unmarshal. repeat case_match; try done. intros [= <-]. match goal with H : validParts _ _ = true |- _ => unfold validParts in H; bool_prop end.
    split; cbn; [done|]. by intros cs ->.
  - intros raw raws. unfold envelope. assert (∀ t, validText t → validRaw (candidate t)) as Hv.
    { intros t Ht. split; cbn; [intros s [[= <-]|[[= <-]|[= <-]]]; [done|done|by apply checked]|].
      intros refs [= <-]. constructor; [by apply checked|constructor]. }
    case_match; intros [= <-]; repeat apply Forall_cons_2; try apply Forall_nil_2; apply Hv; by apply checked.
Qed.

Definition message (id : Z) (text : string) : MessageRow := mkMessageRow id None "user" "text" text "".
Definition rowOf (d : DurableDB) (id : Z) : option ExtractionJob := db_extractions d !! id.
Definition handlePayload (id : Z) : program dcall unit :=
  forgetD (Handle (λ _, None) (λ _, None) (λ _, ""%string) marshal probe unmarshal envelope (λ _, None) (λ _ _ _, Ok "{}"%string) (λ req, Ok (wr_Content req)) (λ _, "failed"%string)
    "w1" true true true (mkPayload id 7 3)).
Definition trigger : program dcall unit := durableTrigger true 1 7 3.
(** Durable handlers with these functions. *)
Notation reachableHere := (durableReachable (λ _, None) (λ _, None) (λ _, ""%string) marshal probe unmarshal envelope (λ _, None) (λ _ _ _, Ok "{}"%string)
  (λ req, Ok (wr_Content req)) (λ _, Ok zeroRequest) (λ s, s) true (λ _, ""%string) (λ _, "failed"%string) true true).

Lemma series_here env l : Forall (λ p : string * nat * program dcall unit, p.2 = trigger ∨ ∃ id, p.2 = handlePayload id ∧ p.1.1 = "w1"%string) l →
  reachableHere (runSeries (execD env) emptyDurable l).
Proof.
  intros Hl. apply durable_series_reachable. intros p Hp. rewrite Forall_forall in Hl. destruct (Hl p Hp) as [->|(id & -> & ->)]; [constructor|].
  constructor. split; [by vm_compute|done].
Qed.

Ltac series_of_handlers := repeat (apply Forall_cons_2; [first [left; reflexivity|right; eexists; split; reflexivity]|]); apply Forall_nil_2.

(** One job, then a second one for the messages that followed. *)
Definition calm : Surroundings :=
  mkSurroundings (λ d, hour * Z.of_nat (size (db_extractions d))) (λ d, 5 + 4 * Z.of_nat (size (db_extractions d))) [message 1 "hello"] (λ _, Ok "{ab}"%string) (λ _, false).
Definition twoJobs : list (string * nat * program dcall unit) := [("t"%string, 9%nat, trigger); ("w1"%string, 50%nat, handlePayload 1); ("t"%string, 9%nat, trigger); ("w1"%string, 50%nat, handlePayload 2)].
Definition afterTwoJobs : DurableDB := runSeries (execD calm) emptyDurable twoJobs.

Lemma afterTwoJobs_reachable : reachableHere afterTwoJobs.
Proof. apply series_here. series_of_handlers. Qed.

(** The columns of a row that the samples look at. *)
Definition columns (j : ExtractionJob) : string * Z * Z * Z := (job_Status j, job_ThroughMessageID j, job_OwnerID j, job_ConversationID j).
Definition resultOf (j : ExtractionJob) : string * bool * nat :=
  let '(r, resumable) := decodeDurableExtractionResult probe unmarshal (job_ResultJSON j) in (res_Outcome r, resumable, length (acceptedOf (λ _, ""%string) r)).

Lemma durable_windows_cover_witness : (columns <$> rowOf afterTwoJobs 2) = Some (ExtractionCompleted, 9, 7, 3) ∧
  recorded probe unmarshal afterTwoJobs 7 3 4 ∧ recorded probe unmarshal afterTwoJobs 7 3 9.
Proof.
  assert ((columns <$> rowOf afterTwoJobs 2) = Some (ExtractionCompleted, 9, 7, 3)) as Hcols by (vm_compute; reflexivity). split; [done|].
  apply fmap_Some in Hcols as (j & Hj & [= Hst Ht Ho Hc]).
  destruct (durable_windows_cover _ _ _ _ _ _ _ _ _ _ _ _ _ _ _ _ _ afterTwoJobs afterTwoJobs_reachable 2 j Hj) as [Hcov _].
  rewrite <- Hst, <- Ht, <- Ho, <- Hc in Hcov. split; (apply Hcov; [reflexivity|lia]).
Defined.

Lemma extracted_positions_have_jobs_witness : ∃ k w, db_jobs (db_writes afterTwoJobs) !! k = Some w ∧ wj_OwnerID w = 7 ∧ wj_IdempotencyKey w = extractionWriteKey 2 1.
Proof.
  assert ((λ j, (columns j, resultOf j)) <$> rowOf afterTwoJobs 2 = Some (ExtractionCompleted, 9, 7, 3, (durableExtractionOutcomeExtracted, true, 2%nat))) as Hcols by (vm_compute; reflexivity).
  apply fmap_Some in Hcols as (j & Hj & [= Hst _ Ho _ Hr]). unfold resultOf in Hr. destruct (decodeDurableExtractionResult _ _ _) as [r b] eqn:Hd. injection Hr as Hout <- Hlen.
  destruct (extracted_positions_have_jobs _ _ _ _ _ _ _ _ _ _ _ _ _ _ _ _ _ afterTwoJobs afterTwoJobs_reachable 2 j r Hj (eq_sym Hst) Hd (eq_sym Hout)) as [_ Hall].
  rewrite <- Ho in Hall. destruct (acceptedOf (λ _, ""%string) r !! 1%nat) as [c|] eqn:Hc; [exact (Hall 1%nat c Hc)|]. apply lookup_ge_None in Hc. lia.
Defined.

(** *** What goes another way *)

(** The write of the second candidate fails; before the retry the conversation goes on, so
    the window moves and the model finds another candidate. *)
Definition moving : Surroundings :=
  mkSurroundings (λ d, match rowOf d 1 with None => 0 | Some j => if job_ThroughMessageID j =? 5 then hour else 2 * hour end)
    (λ d, match rowOf d 1 with None => 5 | Some _ => 9 end) [message 1 "hello"]
    (λ d, Ok (match rowOf d 1 with Some j => if job_ThroughMessageID j =? 5 then "{ab}"%string else "{c}"%string | None => ""%string end))
    (λ d, match rowOf d 1 with Some j => (job_ThroughMessageID j =? 5) && (0 <? size (db_jobs (db_writes d)))%nat | None => false end).
Definition movedSeries : list (string * nat * program dcall unit) := [("t"%string, 9%nat, trigger); ("w1"%string, 50%nat, handlePayload 1); ("t"%string, 9%nat, trigger); ("w1"%string, 50%nat, handlePayload 1)].
Definition afterMove : DurableDB := runSeries (execD moving) emptyDurable movedSeries.

(** The keys of write jobs number the candidates of an attempt: after a retry over a moved
    window a key stands for the candidate of the first attempt, and the candidate that is
    accepted now is never written, although the job completes as extracted. *)
Theorem moved_window_drops_candidate : ∃ d, reachableHere d ∧
  (columns <$> rowOf d 1) = Some (ExtractionCompleted, 9, 7, 3) ∧
  ((λ j, cand_Content <$> acceptedOf (λ _, ""%string) (decodeDurableExtractionResult probe unmarshal (job_ResultJSON j)).1) <$> rowOf d 1) = Some ["c"%string] ∧
  ((λ kv, (wj_IdempotencyKey kv.2, wj_PayloadJSON kv.2)) <$> map_to_list (db_jobs (db_writes d))) = [(extractionWriteKey 1 0, "a"%string)].
Proof.
  exists afterMove. split; [apply series_here; series_of_handlers|]. split_and!; vm_compute; reflexivity.
Qed.

(** A worker dies after its claim, the conversation goes on, the job is claimed again and
    fails. *)
Definition failing : Surroundings :=
  mkSurroundings (λ d, hour * Z.of_nat (size (db_extractions d))) (λ _, 5) [message 1 "hello"] (λ _, Err (DErrText "down")) (λ _, false).
Definition failingSeries : list (string * nat * program dcall unit) := [("t"%string, 9%nat, trigger); ("w1"%string, 2%nat, handlePayload 1); ("t"%string, 9%nat, trigger); ("w1"%string, 50%nat, handlePayload 1)].

(** A running job gets a successor and may then be released: the conversation has two
    pending jobs. *)
Theorem two_pending_jobs : ∃ d, reachableHere d ∧
  (columns <$> rowOf d 1) = Some (ExtractionPending, 5, 7, 3) ∧ (columns <$> rowOf d 2) = Some (ExtractionPending, 5, 7, 3).
Proof.
  exists (runSeries (execD failing) emptyDurable failingSeries). split; [apply series_here; series_of_handlers|]. split; vm_compute; reflexivity.
Qed.
End Samples.
