(* ===== verification/DurableHandlers.v ===== *)
(** Properties of single handlers of the durable memory pipeline ([DurableMemory]), over all
    answers of their calls: which chunks a resumed extraction asks the model for, that a
    window is completed only after the writes of its candidates, how strictly candidates
    are parsed, what the quality gate lets through, and that the debounced schedule
    composed of separate queries decides as the transaction does. *)
From S2P Require Import Prelude GoStr Chat Json Redact Evidence MemoryDomain Threads MemoryWrites DurableMemory DurableSystem.
Open Scope Z_scope.
Open Scope calls_scope.

(** ** Paths *)

(** The prompts that a call sends to the model. *)
Definition promptsOf {X} (c : dcall X) : list string := match c with DChat prompt => [prompt] | _ => [] end.

(** On every path the prompts sent and the result are related. *)
Fixpoint paths {A} (sent : list string) (p : program dcall A) (Q : list string → A → Prop) : Prop :=
  match p with
  | Return _ a => Q sent a
  | Ask _ c k => ∀ x, paths (sent ++ promptsOf c) (k x) Q
  end.

Lemma paths_bind {A B} sent (p : program dcall A) (f : A → program dcall B) Q : paths sent p (λ sent a, paths sent (f a) Q) → paths sent (bindProg p f) Q.
Proof. revert sent. induction p as [a|X c k IH]; intros sent; cbn; [done|]. intros Hp x. by apply IH. Qed.
Lemma paths_mono {A} sent (p : program dcall A) (Q Q' : list string → A → Prop) : (∀ sent a, Q sent a → Q' sent a) → paths sent p Q → paths sent p Q'.
Proof. intros HQ. revert sent. induction p as [a|X c k IH]; intros sent; cbn; [apply HQ|]. intros Hp x. by apply IH. Qed.

(** ** Resuming *)

Section Resuming.
Context (marshalResult : durableExtractionResult → result string RawMessage).
Context (unmarshalEnvelope : string → result string (option (list rawExtractionCandidate))).

Lemma paths_updateJob sent leaseOwner job : paths sent (updateJob leaseOwner job) (λ sent' _, sent' = sent).
Proof. unfold updateJob. case_match; cbn; intros x; by rewrite app_nil_r. Qed.
Lemma paths_storeResult sent leaseOwner job r : paths sent (storeResult marshalResult leaseOwner job r) (λ sent' _, sent' = sent).
Proof. unfold storeResult. case_match; [apply paths_updateJob|done]. Qed.

(** The chunks whose candidates are not stored. *)
Definition missing (r : durableExtractionResult) (chunks : list EvidenceChunk) : list EvidenceChunk :=
  filter (λ chunk, res_Chunks r !! chunk_Index chunk = None) chunks.

Definition asksMissing (sent0 : list string) (r : durableExtractionResult) (chunks : list EvidenceChunk) (sent : list string)
    (out : ExtractionJob * durableExtractionResult * option DurableErr) : Prop :=
  sent `prefix_of` sent0 ++ (extractionPrompt <$> missing r chunks) ∧
  (∀ i cs, res_Chunks r !! i = Some cs → res_Chunks out.1.2 !! i = Some cs) ∧
  (out.2 = None → sent = sent0 ++ (extractionPrompt <$> missing r chunks) ∧ Forall (λ chunk, is_Some (res_Chunks out.1.2 !! chunk_Index chunk)) chunks).

Lemma missing_insert r cs index chunks : index ∉ chunk_Index <$> chunks → missing (set_Chunks (<[index := cs]> (res_Chunks r)) r) chunks = missing r chunks.
Proof.
  unfold missing. cbn [res_Chunks set_Chunks]. induction chunks as [|chunk rest IH]; [done|]. rewrite fmap_cons, not_elem_of_cons. intros [Hne Hi]. rewrite !filter_cons.
  rewrite IH by done. by repeat case_decide; rewrite ?lookup_insert_ne in * by done.
Qed.

Lemma extractMissing_asks sent0 leaseOwner job r chunks : NoDup (chunk_Index <$> chunks) →
  paths sent0 (extractMissing marshalResult unmarshalEnvelope leaseOwner job r chunks) (asksMissing sent0 r chunks).
Proof.
  revert sent0 job r. induction chunks as [|chunk rest IH]; intros sent0 job r Hnd.
  { cbn. unfold asksMissing. cbn. rewrite app_nil_r. split_and!; [done..|]. by split. }
  cbn in Hnd. apply NoDup_cons in Hnd as [Hni Hnd]. cbn [extractMissing]. destruct (res_Chunks r !! chunk_Index chunk) as [stored|] eqn:Hc.
  { eapply paths_mono; [|by apply IH]. intros sent out (Hp & Hk & Hn). unfold asksMissing, missing. rewrite filter_cons_False by (by rewrite Hc).
    split_and!; [done..|]. intros E. destruct (Hn E) as [? Hall]. split; [done|]. apply Forall_cons_2; [|done]. exists stored. by apply Hk. }
  assert (missing r (chunk :: rest) = chunk :: missing r rest) as Hm by (unfold missing; by rewrite filter_cons_True).
  apply paths_bind. cbn [chatCandidates paths promptsOf]. intros reply.
  generalize (match reply with Err e => Err e | Ok content => parseExtractionCandidates unmarshalEnvelope (extractDurableJSON content) end). intros [cs|e].
  2: { cbn. unfold asksMissing. rewrite Hm. cbn. split_and!; [|done|done]. eexists (extractionPrompt <$> missing r rest). by rewrite <- app_assoc. }
  apply paths_bind. eapply paths_mono; [|apply paths_storeResult]. intros sent [job' err] ->. set (r' := set_Chunks _ r).
  assert (∀ i cs', res_Chunks r !! i = Some cs' → res_Chunks r' !! i = Some cs') as Hkeep by (intros i cs' Hi; cbn; rewrite lookup_insert_ne; [done|congruence]).
  destruct err as [e|].
  { cbn. unfold asksMissing. rewrite Hm. cbn. split_and!; [|done|done]. eexists (extractionPrompt <$> missing r rest). by rewrite <- app_assoc. }
  eapply paths_mono; [|by apply IH]. intros sent out (Hp & Hk & Hn). unfold asksMissing. rewrite Hm. fold r' in Hp, Hn. unfold r' in Hp, Hn. rewrite missing_insert in Hp, Hn by done.
  cbn [fmap list_fmap]. rewrite <- app_assoc in Hp, Hn. split_and!; [exact Hp|by auto|]. intros E. destruct (Hn E) as [Hs Hall]. split; [exact Hs|]. apply Forall_cons_2; [|done].
  exists cs. apply Hk. cbn. by rewrite lookup_insert_eq.
Qed.

Lemma chunk_indices_distinct units : NoDup (chunk_Index <$> NewEvidenceChunker units).
Proof.
  destruct (from_spec durableMaxRolloutLen durableChunkOverlapUnits ltac:(done) _ (expandOversized durableMaxRolloutLen units) 0 [] [] (le_n _) eq_refl) as (news & _ & Hl & _).
  unfold NewEvidenceChunker, Chunk. rewrite Hl. unfold layout. rewrite fmap_imap. cbn.
  apply NoDup_alt. intros i j x Hi Hj. rewrite list_lookup_imap in Hi, Hj. apply fmap_Some in Hi as (? & _ & ->), Hj as (? & _ & E). cbn in E. lia.
Qed.

(** A resumed extraction asks the model only for what is missing: whatever the model, the
    database and the encoder answer, the prompts it sends are those of the missing chunks in
    order, up to the first failure; stored candidates are never asked for again nor changed;
    and when it succeeds every chunk of the window has candidates. *)
Theorem resume_asks_only_missing (leaseOwner : string) (job : ExtractionJob) (r : durableExtractionResult) (units : list EvidenceUnit) (hasModel : bool) :
  let chunks := NewEvidenceChunker units in
  paths [] (extractChunks marshalResult unmarshalEnvelope hasModel leaseOwner job r chunks)
    (λ sent out,
      sent `prefix_of` (extractionPrompt <$> missing r chunks) ∧
      (∀ i cs, res_Chunks r !! i = Some cs → res_Chunks out.1.2 !! i = Some cs) ∧
      (out.2 = None → sent = (extractionPrompt <$> missing r chunks) ∧ Forall (λ chunk, is_Some (res_Chunks out.1.2 !! chunk_Index chunk)) chunks)).
Proof.
  intros chunks. pose proof (chunk_indices_distinct units) as Hnd. fold chunks in Hnd. unfold extractChunks. destruct chunks as [|chunk rest]; [cbn; by split_and!|].
  destruct hasModel; [|cbn; split_and!; [apply prefix_nil|done|done]]. exact (extractMissing_asks [] leaseOwner job r (chunk :: rest) Hnd).
Qed.
End Resuming.

(** ** Writing *)

(** The write job that a call creates, and the extraction job that it updates. *)
Definition creates {X} (c : dcall X) : X → list MemoryWriteJob :=
  match c in dcall X return X → list MemoryWriteJob with
  | DWrites c =>
    match c in wcall X return X → list MemoryWriteJob with
    | WCreateJob job => λ x, match x with None => [job] | Some _ => [] end
    | _ => λ _, []
    end
  | _ => λ _, []
  end.
Definition updates {X} (c : dcall X) : option ExtractionJob :=
  match c with DUpdateOwned job _ | DUpdate job => Some job | _ => None end.

(** An update gives back the job it was given, possibly with a completion time; the
    message store answers with [messages]. *)
Definition answered (messages : result DurableErr (list MessageRow)) {X} (c : dcall X) : X → Prop :=
  match c in dcall X return X → Prop with
  | DUpdateOwned job _ | DUpdate job => λ x, ∃ t, x.1 = job_setCompletedAt t job
  | DMessages _ _ _ _ => λ x, x = messages
  | _ => λ _, True
  end.

Lemma updates_answered messages now job worker d :
  answered messages (DUpdate job) (UpdateExtraction now job d).1 ∧ answered messages (DUpdateOwned job worker) (UpdateOwned now job worker d).1.
Proof.
  assert (∀ t, ∃ t', stampCompleted t job = job_setCompletedAt t' job) as Hs.
  { intros t. unfold stampCompleted. case_match; [by eexists|]. exists (job_CompletedAt job). by destruct job. }
  split; cbn; [apply Hs|]. unfold UpdateOwned. destruct (worker =? "")%string; [exists (job_CompletedAt job); by destruct job|].
  cbv zeta. destruct (heldRow _ _ _ _); apply Hs.
Qed.

Section Paths.
Context (messages : result DurableErr (list MessageRow)).

(** On every path, [U] holds of the write jobs created so far and the job at each update,
    and [Q] at the end. *)
Fixpoint writing {A} (written : list MemoryWriteJob) (p : program dcall A) (U : list MemoryWriteJob → ExtractionJob → Prop)
    (Q : list MemoryWriteJob → A → Prop) : Prop :=
  match p with
  | Return _ a => Q written a
  | Ask _ c k => (∀ j, updates c = Some j → U written j) ∧ ∀ x, answered messages c x → writing (written ++ creates c x) (k x) U Q
  end.

Lemma writing_bind {A B} written (p : program dcall A) (f : A → program dcall B) U Q :
  writing written p U (λ written a, writing written (f a) U Q) → writing written (bindProg p f) U Q.
Proof. revert written. induction p as [a|X c k IH]; intros written; cbn; [done|]. intros [Hc Hp]. split; [done|]. intros x Hx. by apply IH, Hp. Qed.
Lemma writing_mono {A} written (p : program dcall A) U (Q Q' : list MemoryWriteJob → A → Prop) :
  writing written p U Q → (∀ written a, Q written a → Q' written a) → writing written p U Q'.
Proof. intros Hp HQ. revert written Hp. induction p as [a|X c k IH]; intros written; cbn; [apply HQ|]. intros [Hc Hp]. split; [done|]. intros x Hx. by apply IH, Hp. Qed.

End Paths.

Section Writing.
Context (messages : result DurableErr (list MessageRow)).
Notation writing := (writing messages).
Context (unmarshalMetadata : RawMessage → option RawMetadata) (canonicalJSON : string → option string).
Context (fixed2 : float64 → string).
Context (marshalResult : durableExtractionResult → result string RawMessage).
Context (unmarshalEnvelope : string → result string (option (list rawExtractionCandidate))).
Context (marshalCandidate : ExtractionCandidate → option string).
Context (marshalProvenance : string → float64 → list string → result string RawMessage).
Context (marshalRequest : WriteRequest → result string RawMessage).
Context (errText : DurableErr → string).
Context (hasModel hasWrites : bool).

(** The write job of the candidate [c] at position [i] of the job [job]. *)
Definition writeFor (job : ExtractionJob) (i : nat) (c : ExtractionCandidate) (w : MemoryWriteJob) : Prop :=
  wj_OwnerID w = job_OwnerID job ∧ wj_IdempotencyKey w = extractionWriteKey (job_ID job) i ∧ wj_Source w = "extraction"%string ∧
  wj_Status w = WriteJobStatusPending ∧
  ∃ req, marshalRequest req = Ok (wj_PayloadJSON w) ∧ wr_OwnerID req = job_OwnerID job ∧
    wr_ConversationID req = job_ConversationID job ∧ wr_SourceConversationID req = Some (job_ConversationID job) ∧
    wr_Source req = "extraction"%string ∧ wr_MemoryType req = TypeArchival ∧
    wr_Title req = redactDurableSecrets (cand_Title c) ∧ wr_Content req = redactDurableSecrets (cand_Content c) ∧
    wr_Importance req = cand_Importance c ∧
    marshalProvenance (cand_Type c) (cand_Confidence c) (cand_EvidenceRefs c) = Ok (wr_MetadataJSON req).

(** [written] are the write jobs of [cs], at the positions from [index] on. *)
Definition writesOf (job : ExtractionJob) (index : nat) (cs : list ExtractionCandidate) (written : list MemoryWriteJob) : Prop :=
  length written = length cs ∧ ∀ i c, cs !! i = Some c → ∃ w, written !! i = Some w ∧ writeFor job (index + i) c w.

Lemma writing_enqueueFrom U job index cs written0 : 0 ≤ job_ID job →
  writing written0 (enqueueFrom marshalProvenance marshalRequest job index cs) U
    (λ written err, err = None → ∃ new, written = written0 ++ new ∧ writesOf job index cs new).
Proof.
  intros Hid. revert index written0. induction cs as [|c cs IH]; intros index written0; cbn [enqueueFrom].
  { intros _. exists []. rewrite app_nil_r. split; [done|]. split; [done|]. by intros i c Hc. }
  unfold extractionWriteRequest. destruct (marshalProvenance _ _ _) as [metadata|e] eqn:Hm; [|done].
  apply writing_bind. unfold Enqueue. cbn [wjr_OwnerID wjr_IdempotencyKey wjr_Payload wjr_Source].
  destruct (job_OwnerID job <=? 0) eqn:Ho; [done|]. rewrite extractionWriteKey_trimmed by done.
  destruct (_ =? "")%string; [done|]. destruct (marshalRequest _) as [payload|e] eqn:Hp; [|done].
  cbn. split; [done|]. intros [e|] _; cbn; [done|].
  eapply writing_mono; [apply IH|]. intros written err Hall Herr. destruct (Hall Herr) as (new & -> & Hlen & Hnew).
  eexists (_ :: new). rewrite <- (assoc_L (++)). split; [done|]. split; [cbn; by rewrite Hlen|].
  intros [|i] x Hx; cbn in Hx.
  - injection Hx as <-. eexists. split; [done|]. rewrite Nat.add_0_r. split_and!; try done. eexists. split; [exact Hp|]. by split_and!.
  - destruct (Hnew i x Hx) as (w & Hw & Hfor). exists w. split; [done|]. by rewrite Nat.add_succ_r.
Qed.

(** The job in memory, as far as the handlers leave it alone. *)
Definition sameJob (job job' : ExtractionJob) : Prop :=
  job_ID job' = job_ID job ∧ job_OwnerID job' = job_OwnerID job ∧ job_ConversationID job' = job_ConversationID job ∧ job_Status job' = job_Status job.

Lemma writing_updateJob (U : list MemoryWriteJob → ExtractionJob → Prop) leaseOwner job written : U written job →
  writing written (updateJob leaseOwner job) U (λ written' out, written' = written ∧ sameJob job out.1 ∧ job_ResultJSON out.1 = job_ResultJSON job).
Proof.
  intros HU. unfold updateJob. destruct (_ =? "")%string; cbn; (split; [by intros j [= <-]|]);
    intros [job' err] [t Ht]; cbn in *; subst job'; rewrite app_nil_r; by split_and!.
Qed.

Lemma writing_storeResult (U : list MemoryWriteJob → ExtractionJob → Prop) leaseOwner job r written :
  (∀ j, sameJob job j → U written j) →
  writing written (storeResult marshalResult leaseOwner job r) U (λ written' out, written' = written ∧ sameJob job out.1).
Proof.
  intros HU. unfold storeResult. destruct (marshalResult r) as [encoded|e]; [|by cbn].
  eapply writing_mono; [apply writing_updateJob, HU; by split_and!|]. by intros written' out (-> & Hs & _).
Qed.

(** Extraction and merging create no write job and keep the job. *)
Definition stillRunning (job : ExtractionJob) (written0 : list MemoryWriteJob) (r : durableExtractionResult) (written : list MemoryWriteJob)
    (out : ExtractionJob * durableExtractionResult * option DurableErr) : Prop :=
  written = written0 ∧ sameJob job out.1.1 ∧ res_Outcome out.1.2 = res_Outcome r.

Lemma sameJob_trans job1 job2 job3 : sameJob job1 job2 → sameJob job2 job3 → sameJob job1 job3.
Proof. unfold sameJob. intuition congruence. Qed.

Lemma writing_extractMissing (U : list MemoryWriteJob → ExtractionJob → Prop) leaseOwner job r chunks written :
  (∀ j, sameJob job j → U written j) →
  writing written (extractMissing marshalResult unmarshalEnvelope leaseOwner job r chunks) U (stillRunning job written r).
Proof.
  revert job r. induction chunks as [|chunk rest IH]; intros job r HU; cbn [extractMissing]; [by cbn|].
  destruct (res_Chunks r !! chunk_Index chunk); [by apply IH|]. cbn. split; [done|]. intros reply _. rewrite app_nil_r.
  destruct (match reply with Ok _ => _ | Err _ => _ end) as [cs|e]; [|by cbn].
  apply writing_bind. eapply writing_mono; [by apply writing_storeResult|]. intros ? [job' [e|]] [-> Hs]; cbn in Hs; [by cbn|].
  eapply writing_mono; [apply IH; intros j Hj; by eapply HU, sameJob_trans|].
  intros written' out (-> & Hs' & Ho). by split_and!; [|eapply sameJob_trans|].
Qed.

Lemma writing_merge (U : list MemoryWriteJob → ExtractionJob → Prop) leaseOwner job r chunks written :
  (∀ j, sameJob job j → U written j) →
  writing written (mergeExtractionChunks marshalResult unmarshalEnvelope marshalCandidate leaseOwner job r chunks) U (stillRunning job written r).
Proof.
  intros HU. unfold mergeExtractionChunks. destruct (_ || _); [by cbn|]. cbn. split; [done|]. intros reply _. rewrite app_nil_r.
  destruct (match reply with Ok _ => _ | Err _ => _ end) as [cs|e]; [|by cbn].
  apply writing_bind. eapply writing_mono; [by apply writing_storeResult|]. by intros ? [job' err] [-> Hs].
Qed.

(** What is to hold when a job is stored as completed. *)
Definition settled (job : ExtractionJob) (written : list MemoryWriteJob) (j : ExtractionJob) : Prop :=
  job_Status j = ExtractionCompleted → job_ID j = job_ID job ∧
  ∃ r, marshalResult r = Ok (job_ResultJSON j) ∧
    ((res_Outcome r = durableExtractionOutcomeExtracted ∧ acceptedOf fixed2 r ≠ [] ∧ writesOf job 0 (acceptedOf fixed2 r) written) ∨
     (res_Outcome r = durableExtractionOutcomeNoOutput ∧ written = [] ∧
      (acceptedOf fixed2 r = [] ∨ ∃ rows, messages = Ok rows ∧ NewEvidenceChunker (Render unmarshalMetadata canonicalJSON rows) = []))).

Lemma writing_complete job leaseOwner job' r written : sameJob job job' →
  (∀ j, job_ID j = job_ID job → job_ResultJSON j = job_ResultJSON job' → settled job written j) →
  writing written (complete errText leaseOwner job' r) (settled job) (λ _ _, True).
Proof.
  intros (Hid & _) HU. unfold complete. cbn. split; [done|]. intros now _. rewrite app_nil_r. apply writing_bind.
  eapply writing_mono; [by apply writing_updateJob, HU|]. intros ? [job2 [e|]] (-> & (Hid2 & _) & Hres); cbn in Hid2, Hres; [by cbn|].
  destruct (res_Outcome r =? durableExtractionOutcomeNoOutput)%string; [by cbn|]. cbn. split; [done|]. intros [e|] _; rewrite app_nil_r; [|by cbn].
  cbn. split; [done|]. intros now' _. rewrite app_nil_r. apply writing_bind.
  eapply writing_mono; [apply writing_updateJob, HU; cbn; congruence|]. by intros ? [job3 err] _.
Qed.

Lemma writesOf_nil job index written : writesOf job index [] written → written = [].
Proof. intros [Hlen _]. by apply nil_length_inv. Qed.

Lemma writesOf_same job job' index cs written : sameJob job job' → writesOf job' index cs written → writesOf job index cs written.
Proof.
  intros (Hid & Ho & Hc & _) [Hlen Hall]. split; [done|]. intros i c Hi. destruct (Hall i c Hi) as (w & Hw & Hfor). exists w. split; [done|].
  unfold writeFor in *. by rewrite Hid, Ho, Hc in Hfor.
Qed.

Lemma writing_settle job leaseOwner job' accepted r : 0 ≤ job_ID job → sameJob job job' →
  (res_Outcome r = ""%string ∧ accepted = acceptedOf fixed2 r) ∨
  (res_Outcome r = durableExtractionOutcomeNoOutput ∧ accepted = [] ∧
   ∃ rows, messages = Ok rows ∧ NewEvidenceChunker (Render unmarshalMetadata canonicalJSON rows) = []) →
  writing [] (settle marshalResult marshalProvenance marshalRequest errText hasWrites leaseOwner job' accepted r) (settled job) (λ _ _, True).
Proof.
  intros Hid Hs Hr. unfold settle. destruct (marshalResult r) as [encoded|e] eqn:Hm; [|by cbn].
  set (job1 := job_setResult encoded job'). assert (sameJob job job1) as Hs1 by done. apply writing_bind.
  assert (writing [] (enqueueExtractionWrites marshalProvenance marshalRequest hasWrites job1 accepted) (settled job)
    (λ written err, err = None → writesOf job 0 accepted written)) as Hq.
  { unfold enqueueExtractionWrites. destruct accepted as [|c cs]; [intros _; split; [done|]; by intros i c Hc|]. destruct hasWrites; [|done].
    eapply writing_mono; [apply writing_enqueueFrom; destruct Hs1 as [-> _]; done|]. cbn. intros written err Hall Herr.
    destruct (Hall Herr) as (new & -> & Hnew). by eapply writesOf_same. }
  eapply writing_mono; [exact Hq|]. intros written [e|] Hw; [by cbn|]. specialize (Hw eq_refl).
  destruct Hr as [[Ho ->]|(Ho & -> & Hrows)]; rewrite Ho.
  - rewrite String.eqb_refl. destruct (marshalResult (set_Outcome _ r)) as [encoded'|e] eqn:Hm'; [|by cbn].
    apply writing_complete; [done|]. intros j Hj Hres _. cbn in Hres. split; [done|]. eexists. rewrite Hres. split; [exact Hm'|].
    change (acceptedOf fixed2 (set_Outcome _ r)) with (acceptedOf fixed2 r).
    destruct (acceptedOf fixed2 r) as [|c cs] eqn:Ha; cbn; [right|left]; split_and!; auto. by eapply writesOf_nil.
  - apply writing_complete; [done|]. intros j Hj Hres _. cbn in Hres. split; [done|]. exists r. rewrite Hres. split; [done|].
    right. split_and!; [done|by eapply writesOf_nil|by right].
Qed.

(** C11. An attempt that extracts a window stores its job as completed only after its writes:
    whatever the model, the clock, the locks and the tables answer, whenever such an
    attempt issues an update with status completed, either the stored result has the
    outcome extracted, some candidates passed the gate, and the attempt has had one write
    job accepted for each of them, in order, with the key of the job and the position and
    with that candidate's redacted title and content, its importance and its provenance;
    or the outcome is no_output, nothing was written, and no candidate passed the gate or
    the window holds no evidence. *)
Theorem window_completed_after_writes leaseOwner job previous r :
  0 ≤ job_ID job → job_Status job ≠ ExtractionCompleted → res_Outcome r = ""%string →
  writing [] (extractWindow unmarshalMetadata canonicalJSON fixed2 marshalResult unmarshalEnvelope marshalCandidate marshalProvenance
      marshalRequest errText hasModel hasWrites leaseOwner job previous r)
    (λ written j, job_Status j = ExtractionCompleted → job_ID j = job_ID job ∧
      ∃ r', marshalResult r' = Ok (job_ResultJSON j) ∧
        ((res_Outcome r' = durableExtractionOutcomeExtracted ∧ acceptedOf fixed2 r' ≠ [] ∧ length written = length (acceptedOf fixed2 r') ∧
          ∀ i c, acceptedOf fixed2 r' !! i = Some c → ∃ w, written !! i = Some w ∧ writeFor job i c w) ∨
         (res_Outcome r' = durableExtractionOutcomeNoOutput ∧ written = [] ∧
          (acceptedOf fixed2 r' = [] ∨ ∃ rows, messages = Ok rows ∧ NewEvidenceChunker (Render unmarshalMetadata canonicalJSON rows) = []))))
    (λ _ _, True).
Proof.
  intros Hid Hrun Ho. change (writing [] (extractWindow unmarshalMetadata canonicalJSON fixed2 marshalResult unmarshalEnvelope marshalCandidate marshalProvenance
      marshalRequest errText hasModel hasWrites leaseOwner job previous r) (settled job) (λ _ _, True)).
  unfold extractWindow. set (r1 := if _ || _ then _ else _). assert (res_Outcome r1 = ""%string) as Ho1 by (unfold r1; by destruct (_ || _)).
  clearbody r1. cbn. split; [done|]. intros [rows|e] Hmsg; [|by cbn].
  assert (∀ j, sameJob job j → settled job [] j) as HU by (intros j (_ & _ & _ & Hst) Hc; congruence).
  apply writing_bind. set (chunks := NewEvidenceChunker _).
  assert (writing [] (extractChunks marshalResult unmarshalEnvelope hasModel leaseOwner job (set_Window previous (job_ThroughMessageID job) r1) chunks) (settled job)
    (λ written out, written = [] ∧ sameJob job out.1.1 ∧
       (res_Outcome out.1.2 = ""%string ∨ res_Outcome out.1.2 = durableExtractionOutcomeNoOutput ∧ chunks = []))) as Hx.
  { unfold extractChunks. destruct chunks as [|chunk rest]; [cbn; by split_and!; [| |right]|]. destruct hasModel; [|cbn; by split_and!; [| |left]].
    eapply writing_mono; [by apply writing_extractMissing|]. intros written out (-> & Hs & Hout). split_and!; [done..|left]. by rewrite Hout. }
  eapply writing_mono; [exact Hx|]. intros ? [[job1 r2] [e|]] (-> & Hs1 & Hr2); cbn in Hs1, Hr2; [by cbn|]. apply writing_bind.
  eapply writing_mono; [apply writing_merge; intros j Hj; by eapply HU, sameJob_trans|]. intros ? [[job2 r3] [e|]] (-> & Hs2 & Hr3); cbn in Hs2, Hr3; [by cbn|].
  pose proof (sameJob_trans _ _ _ Hs1 Hs2) as Hs. rewrite <- Hr3 in Hr2.
  destruct Hr2 as [Hr2|[Hr2 Hnone]]; rewrite Hr2.
  - rewrite String.eqb_refl, gateExtractionResult_eq. apply writing_settle; [done..|]. left. by split.
  - cbn. apply writing_settle; [done..|]. right. split_and!; [done..|]. by exists rows.
Qed.
End Writing.
(** The path of given answers, up to the first update that completes the job. *)
Fixpoint completedWith (reply : ∀ X, dcall X → X) (written : list MemoryWriteJob) {A} (p : program dcall A) : option (list MemoryWriteJob * ExtractionJob) :=
  match p with
  | Return _ _ => None
  | Ask _ c k =>
    match updates c with
    | Some j => if (job_Status j =? ExtractionCompleted)%string then Some (written, j) else completedWith reply (written ++ creates c (reply _ c)) (k (reply _ c))
    | None => completedWith reply (written ++ creates c (reply _ c)) (k (reply _ c))
    end
  end.

Lemma writing_completedWith messages reply {A} (p : program dcall A) written U Q out :
  writing messages written p U Q → (∀ X (c : dcall X), answered messages c (reply X c)) → completedWith reply written p = Some out → U out.1 out.2.
Proof.
  intros Hp Hreply. revert written Hp. induction p as [a|X c k IH]; intros written; cbn; [done|]. intros [Hu Hk].
  destruct (updates c) as [j|] eqn:Hc; [|by apply IH, Hk]. destruct (_ =? _)%string; [|by apply IH, Hk]. intros [= <-]. by apply Hu.
Qed.

Definition demo_job : ExtractionJob := mkExtractionJob 4 7 3 "key" durableTriggerReason 5 ExtractionRunning None 1 0 "" None None "" "" None.
Definition demo_messages : list MessageRow := [Samples.message 1 "hello"].
(** Two candidates are found in one message. *)
Definition demo_reply (X : Type) (c : dcall X) : X := (execD Samples.calm X c emptyDurable).1.
Definition demo_window : program dcall (ExtractionJob * option DurableErr) :=
  extractWindow (λ _, None) (λ _, None) (λ _, ""%string) Samples.marshal Samples.envelope (λ _, None) (λ _ _ _, Ok "{}"%string) (λ req, Ok (wr_Content req))
    (λ _, "failed"%string) true true "" demo_job 0 emptyResult.

Lemma demo_answered X (c : dcall X) : answered (Ok demo_messages) c (demo_reply X c).
Proof. destruct c; try done; apply (updates_answered (Ok demo_messages)). exact ""%string. Qed.

Lemma window_completed_after_writes_witness :
  ∃ written j, completedWith demo_reply [] demo_window = Some (written, j) ∧ wj_PayloadJSON <$> written = ["a"%string; "b"%string] ∧
    ∃ w, written !! 1%nat = Some w ∧ wj_IdempotencyKey w = extractionWriteKey 4 1 ∧ wj_OwnerID w = 7.
Proof.
  assert ((λ o : list MemoryWriteJob * ExtractionJob, wj_PayloadJSON <$> o.1) <$> completedWith demo_reply [] demo_window = Some ["a"%string; "b"%string]) as Hpay by (vm_compute; reflexivity).
  assert ((λ o : list MemoryWriteJob * ExtractionJob, job_Status o.2) <$> completedWith demo_reply [] demo_window = Some ExtractionCompleted) as Hst by (vm_compute; reflexivity).
  destruct (completedWith demo_reply [] demo_window) as [[written j]|] eqn:Hout; [|discriminate Hst].
  injection Hpay as Hpay. injection Hst as Hst. exists written, j. split_and!; [reflexivity|exact Hpay|].
  destruct (writing_completedWith _ _ _ _ _ _ _ (window_completed_after_writes (Ok demo_messages) (λ _, None) (λ _, None) (λ _, ""%string) Samples.marshal Samples.envelope
      (λ _, None) (λ _ _ _, Ok "{}"%string) (λ req, Ok (wr_Content req)) (λ _, "failed"%string) true true "" demo_job 0 emptyResult
      ltac:(done) ltac:(done) eq_refl) demo_answered Hout Hst) as (_ & r & _ & [(_ & _ & Hlen & Hall)|(_ & Hnil & _)]).
  - destruct (acceptedOf (λ _, ""%string) r !! 1%nat) as [c|] eqn:Hc.
    + destruct (Hall 1%nat c Hc) as (w & Hw & Howner & Hkey & _). exists w. by split_and!.
    + apply lookup_ge_None in Hc. cbn in Hlen. assert (length written = 2%nat) as Hl by (apply (f_equal length) in Hpay; by rewrite length_fmap in Hpay). lia.
  - cbn in Hnil. by rewrite Hnil in Hpay.
Defined.

(** ** Parsing *)

(** The first field that a decoded candidate lacks, in the order of the record. *)
Definition firstMissing (raw : rawExtractionCandidate) : option string :=
  head (omap (λ p : string * bool, if p.2 then None else Some p.1)
    [("title", bool_decide (is_Some (raw_Title raw))); ("content", bool_decide (is_Some (raw_Content raw))); ("type", bool_decide (is_Some (raw_Type raw)));
     ("confidence", bool_decide (is_Some (raw_Confidence raw))); ("importance", bool_decide (is_Some (raw_Importance raw)));
     ("evidence_refs", bool_decide (is_Some (raw_EvidenceRefs raw)))])%string.
(** The candidate that a complete decoded one stands for. *)
Definition standsFor (raw : rawExtractionCandidate) (c : ExtractionCandidate) : Prop :=
  TrimSpace <$> raw_Title raw = Some (cand_Title c) ∧ TrimSpace <$> raw_Content raw = Some (cand_Content c) ∧ TrimSpace <$> raw_Type raw = Some (cand_Type c) ∧
  raw_Confidence raw = Some (cand_Confidence c) ∧ raw_Importance raw = Some (cand_Importance c) ∧ raw_EvidenceRefs raw = Some (cand_EvidenceRefs c).

Lemma materialize_cases raw : match materializeExtractionCandidate raw with
  | Ok c => firstMissing raw = None ∧ standsFor raw c
  | Err field => firstMissing raw = Some field
  end.
Proof. by destruct raw as [[t|] [co|] [ty|] [cf|] [im|] [refs|]]. Qed.

Lemma materializeAll_cases index raws : match materializeAll index raws with
  | Ok cs => Forall2 standsFor raws cs
  | Err e => ∃ i raw field, raws !! i = Some raw ∧ e = DErrCandidate (index + Z.of_nat i) field ∧ firstMissing raw = Some field ∧
      ∀ j raw', (j < i)%nat → raws !! j = Some raw' → firstMissing raw' = None
  end.
Proof.
  revert index. induction raws as [|raw raws IH]; intros index; cbn; [constructor|]. pose proof (materialize_cases raw) as Hm.
  destruct (materializeExtractionCandidate raw) as [c|field].
  - destruct Hm as [Hnone Hst]. specialize (IH (index + 1)). destruct (materializeAll (index + 1) raws) as [cs|e]; [by constructor|].
    destruct IH as (i & raw' & field & Hi & -> & Hf & Hb). exists (S i), raw', field. split_and!; [done|f_equal; lia|done|]. intros [|j] raw2 Hj Hr; cbn in Hr; [by simplify_eq|].
    apply (Hb j); [lia|done].
  - exists 0%nat, raw, field. split_and!; [done|f_equal; lia|done|]. intros j raw' Hj. lia.
Qed.

(** C30. Candidates are parsed strictly: when the reply decodes, either every candidate has all
    six fields and the results are theirs, with the texts trimmed, or the error names the
    first incomplete candidate and its first missing field, and nothing is returned; a reply
    that is not JSON or lacks the array is an error of its own. *)
Theorem candidates_parsed_strictly (unmarshalEnvelope : string → result string (option (list rawExtractionCandidate))) (raw : string) :
  match parseExtractionCandidates unmarshalEnvelope raw with
  | Ok cs => ∃ raws, unmarshalEnvelope raw = Ok (Some raws) ∧ Forall2 standsFor raws cs
  | Err (DErrCandidate index field) => ∃ raws i rawCandidate, unmarshalEnvelope raw = Ok (Some raws) ∧ index = Z.of_nat i ∧ raws !! i = Some rawCandidate ∧
      firstMissing rawCandidate = Some field ∧ ∀ j raw', (j < i)%nat → raws !! j = Some raw' → firstMissing raw' = None
  | Err DErrNoCandidates => unmarshalEnvelope raw = Ok None
  | Err (DErrInvalidJSON msg) => unmarshalEnvelope raw = Err msg
  | Err _ => False
  end.
Proof.
  unfold parseExtractionCandidates. destruct (unmarshalEnvelope raw) as [[raws|]|e] eqn:Hu; [|done..].
  pose proof (materializeAll_cases 0 raws) as Hm. destruct (materializeAll 0 raws) as [cs|e]; [by exists raws|].
  destruct Hm as (i & raw' & field & Hi & -> & Hf & Hb). exists raws, i, raw'. split_and!; [done|lia|done..].
Qed.

(** ** The quality gate *)

(** The candidates that pass are kept in order, each of the others is recorded with its
    position, and the decision about a candidate does not depend on the others. *)
Theorem gate_partitions (fixed2 : float64 → string) (cs : list ExtractionCandidate) :
  gateExtractionCandidates fixed2 cs =
    (filter (λ c, gateExtractionCandidate fixed2 c = ""%string) cs,
     omap (λ p, let reason := gateExtractionCandidate fixed2 p.2 in if (reason =? "")%string then None else Some (mkRejection (Z.of_nat p.1) (cand_Title p.2) reason)) (indexed cs)).
Proof.
  unfold gateExtractionCandidates, indexed. assert (∀ index acc rej,
    foldl (gateStep fixed2) (Z.of_nat index, acc, rej) cs = (Z.of_nat (index + length cs), acc ++ filter (λ c, gateExtractionCandidate fixed2 c = ""%string) cs,
      rej ++ omap (λ p, let reason := gateExtractionCandidate fixed2 p.2 in if (reason =? "")%string then None else Some (mkRejection (Z.of_nat p.1) (cand_Title p.2) reason))
        (imap (λ i c, ((index + i)%nat, c)) cs))) as Hfold.
  { induction cs as [|c cs IH]; intros index acc rej; [cbn; by rewrite Nat.add_0_r, !app_nil_r|].
    assert (∀ acc rej, foldl (gateStep fixed2) (Z.of_nat index + 1, acc, rej) cs = _) as IH' by (intros acc' rej'; replace (Z.of_nat index + 1) with (Z.of_nat (S index)) by lia; apply IH).
    cbn [foldl gateStep length]. rewrite filter_cons. rewrite imap_cons. cbn [omap list_omap snd fst].
    assert (imap ((λ i c0, ((index + i)%nat, c0)) ∘ S) cs = imap (λ i c0, ((S index + i)%nat, c0)) cs) as Himap by (apply imap_ext; intros i x _; cbn; f_equal; lia).
    destruct (gateExtractionCandidate fixed2 c =? "")%string eqn:Hr.
    - apply String.eqb_eq in Hr. rewrite decide_True by done. rewrite IH', Himap, <- app_assoc. by replace (index + S (length cs))%nat with (S index + length cs)%nat by lia.
    - apply String.eqb_neq in Hr. rewrite decide_False by done. rewrite IH', Himap, <- app_assoc. replace (index + S (length cs))%nat with (S index + length cs)%nat by lia. cbn. by rewrite Nat.add_0_r. }
  change 0 with (Z.of_nat 0). by rewrite (Hfold 0%nat [] []).
Qed.

(** ** Scheduling *)

(** Undisturbed, the schedule from separate queries decides and writes as the transaction
    does. *)
Theorem stepwise_schedule_agrees (env : Surroundings) (ownerID conversationID through due : Z) (d : DurableDB) :
  runAlone (execD env) (scheduleDurableBoundaryStepwise ownerID conversationID through due) d = ScheduleDurableBoundary ownerID conversationID through due d.
Proof.
  unfold scheduleDurableBoundaryStepwise, ScheduleDurableBoundary. cbn [runAlone execD]. generalize (LatestDurableJob ownerID conversationID d). intros latest0.
  assert (∀ d, runAlone (execD env) (ask created := DCreate (newBoundaryRow ownerID conversationID through due latest0) in
      match created with
      | Ok row => Return _ (Ok (row, true))
      | Err e => ask existing := DFindByKey ownerID (job_IdempotencyKey (newBoundaryRow ownerID conversationID through due latest0)) in
          Return _ (match existing with Ok j => Ok (j, false) | Err _ => Err e end)
      end) d = match CreateExtraction (newBoundaryRow ownerID conversationID through due latest0) d with
      | (Ok row, d') => (Ok (row, true), d')
      | (Err e, _) => (match extractionByKey ownerID (job_IdempotencyKey (newBoundaryRow ownerID conversationID through due latest0)) d with Some existing => Ok (existing, false) | None => Err e end, d)
      end) as Hcreate.
  { intros d0. cbn [runAlone execD]. unfold CreateExtraction. destruct (extractionByKey (job_OwnerID _) _ d0) eqn:Hk; cbn [runAlone execD]; [|done]. by destruct (extractionByKey _ _ d0). }
  destruct latest0 as [j|]; [|apply Hcreate]. case_match; [|apply Hcreate]. cbn [runAlone execD]. unfold RefreshPendingBoundary.
  destruct (findJob ownerID (job_ID j) d) as [row|]; cbn [fst snd runAlone]; [|apply Hcreate]. destruct (job_Status row =? ExtractionPending)%string; cbn [fst snd runAlone]; [done|apply Hcreate].
Qed.
