(* ===== verification/Projection.v ===== *)
(** Phase 2 of the durable memory: the consolidation projection
    (internal/application/memory_usecase/consolidation_projection.go), its entry points in
    durable_memory_pipeline.go ([consolidate], [gatherConsolidationInputs], [Consolidate]) and
    the artifact table (internal/infrastructure/mysql/memory_schema_repos.go).

    The consolidation agent, the chat model and the phase-2 lock are calls whose answers are
    arbitrary; JSON and SHA-256 are parameters. *)
From S2P Require Import Prelude GoStr Chat Json Redact Evidence MemoryDomain Threads MemoryWrites DurableMemory DurableSystem.
Open Scope Z_scope.
Open Scope calls_scope.

Definition ConsolidationSourceRollout : string := "rollout".
Definition ConsolidationSourceAdHoc : string := "ad_hoc".
Definition consolidationColdWindow : Z := 30 * 24 * hour.

Record ProjectionSourceRef := mkRef { ref_SourceID : Z; ref_Kind : string; ref_ConversationID : Z }.
(** A time of 0 is the zero time. *)
Record ProjectionInput := mkInput { in_SourceRef : ProjectionSourceRef; in_RawMemory : string; in_RolloutSummary : string; in_SourceAt : Z }.
Record ConsolidationDiff := mkDiff { diff_Added : list ProjectionSourceRef; diff_Removed : list ProjectionSourceRef }.

Definition key (r : ProjectionSourceRef) : string := (ref_Kind r ++ ":" ++ Itoa (ref_SourceID r))%string.

Definition refBefore (a b : ProjectionSourceRef) : bool :=
  if (ref_Kind a =? ref_Kind b)%string then ref_SourceID a <? ref_SourceID b else str_ltb (ref_Kind a) (ref_Kind b).
Definition sortProjectionRefs (refs : list ProjectionSourceRef) : list ProjectionSourceRef := sort_stable refBefore refs.

(** ** Selection and diff *)

Definition selectInput (previous : gmap string ProjectionSourceRef) (cutoff : Z) (selected : gmap string ProjectionInput) (input : ProjectionInput) : gmap string ProjectionInput :=
  let protected := bool_decide (is_Some (previous !! key (in_SourceRef input))) in
  if negb protected && negb (in_SourceAt input =? 0) && (in_SourceAt input <? cutoff) then selected else <[key (in_SourceRef input) := input]> selected.
Definition selectProjectionInputs (inputs : list ProjectionInput) (previous : gmap string ProjectionSourceRef) (now : Z) : gmap string ProjectionInput :=
  foldl (selectInput previous (now - consolidationColdWindow)) ∅ inputs.

(** [addRef]: the references so far, with the keys seen. *)
Definition addRef (st : gset string * list ProjectionSourceRef) (ref : ProjectionSourceRef) : gset string * list ProjectionSourceRef :=
  if bool_decide (key ref ∈ st.1) then st else ({[key ref]} ∪ st.1, st.2 ++ [ref]).
Definition addRefs (refs : list ProjectionSourceRef) : list ProjectionSourceRef := (foldl addRef (∅, []) refs).2.

(** The references of the new version: the previous ones that are still selected, then
    those of the selected inputs. *)
Definition newRefsOf (previous : gmap string ProjectionSourceRef) (selected : gmap string ProjectionInput) : list ProjectionSourceRef :=
  sortProjectionRefs (addRefs
    ((snd <$> filter (λ kv, is_Some (selected !! kv.1)) (map_to_list previous)) ++ ((λ kv, in_SourceRef kv.2) <$> map_to_list selected))).

Definition projectionDiff (previous : gmap string ProjectionSourceRef) (current : list ProjectionSourceRef) : ConsolidationDiff :=
  mkDiff (sortProjectionRefs (filter (λ ref, previous !! key ref = None) current))
         (sortProjectionRefs (snd <$> filter (λ kv, kv.1 ∉ key <$> current) (map_to_list previous))).

(** ** Texts *)

Definition renderInput (inputs : gmap string ProjectionInput) (ref : ProjectionSourceRef) : string :=
  let input := default (mkInput (mkRef 0 "" 0) "" "" 0) (inputs !! key ref) in
  (if (ref_Kind ref =? ConsolidationSourceRollout)%string then
     "## Rollout " ++ Itoa (ref_SourceID ref) ++ newline ++ newline
     ++ (if (in_RawMemory input =? "")%string then "" else in_RawMemory input ++ newline ++ newline)
     ++ (if (in_RolloutSummary input =? "")%string then "" else "Summary: " ++ in_RolloutSummary input ++ newline ++ newline)
   else
     "## Ad-hoc note " ++ Itoa (ref_SourceID ref) ++ newline ++ newline ++ "[ad-hoc note]" ++ newline
     ++ (if (in_RawMemory input =? "")%string then "" else in_RawMemory input ++ newline) ++ newline)%string.
Definition renderProjectionRawInputs (inputs : gmap string ProjectionInput) : string :=
  if bool_decide (inputs = ∅) then ""%string
  else ("# Raw Memories" ++ newline ++ newline
        ++ String.concat "" (renderInput inputs <$> sortProjectionRefs ((λ kv, in_SourceRef kv.2) <$> map_to_list inputs)))%string.

Definition renderRef (ref : ProjectionSourceRef) : string :=
  ("- " ++ ref_Kind ref ++ " " ++ Itoa (ref_SourceID ref) ++ " (conversation " ++ Itoa (ref_ConversationID ref) ++ ")" ++ newline)%string.
Definition renderRefs (refs : list ProjectionSourceRef) : string :=
  match refs with [] => ("- none" ++ newline)%string | _ => String.concat "" (renderRef <$> refs) end.
Definition RenderDiff (d : ConsolidationDiff) : string :=
  ("## Sources added since the previous artifact version" ++ newline ++ renderRefs (diff_Added d)
   ++ "## Sources removed since the previous artifact version" ++ newline ++ renderRefs (diff_Removed d))%string.

Definition summarizeDurableText (value : string) : string :=
  let value := Join (Fields value) " " in
  if (1200 <? length (runes value))%nat then (of_runes (take 1200 (runes value)) ++ "...")%string else value.

(** ** Artifacts *)

Definition ArtifactKindHandbook : string := "handbook".
Definition ArtifactKindSummary : string := "summary".
Definition ArtifactKinds : list string := [ArtifactKindHandbook; ArtifactKindSummary; "raw_input"; "rollout_summary"; "ad_hoc"].

Record MemoryArtifact := mkArtifact {
  art_ID : Z;
  art_OwnerID : Z;
  art_Kind : string;
  art_Version : Z;
  art_Content : string;
  art_Source : string;
  art_SourceRefsJSON : RawMessage;
  art_Checksum : string;
  art_ConsolidatedAt : option Z
}.

Inductive ProjectionErr :=
| PErrText (msg : string)
| PErrInvalidArtifact
| PErrDuplicate
| PErrOwner
| PErrNoAgent
| PErrLoad (kind : string) (e : ProjectionErr)
| PErrPersist (kind : string) (e : ProjectionErr)
| PErrLocked
| PErrNoModel
| PErrEmptySummary
| PErrDecode (msg : string).

Definition ValidateArtifact (a : MemoryArtifact) : bool :=
  (0 <? art_OwnerID a) && one_of (art_Kind a) ArtifactKinds && (0 <? art_Version a) && negb (TrimSpace (art_Checksum a) =? "")%string.

(** The table, with the unique key of owner, kind and version. *)
Notation ArtifactDB := (gmap Z MemoryArtifact).
Definition art_setID (id : Z) (a : MemoryArtifact) : MemoryArtifact :=
  mkArtifact id (art_OwnerID a) (art_Kind a) (art_Version a) (art_Content a) (art_Source a) (art_SourceRefsJSON a) (art_Checksum a) (art_ConsolidatedAt a).
Definition ofKind (ownerID : Z) (kind : string) (a : MemoryArtifact) : bool := (art_OwnerID a =? ownerID) && (art_Kind a =? kind)%string.
Definition CreateArtifact (a : MemoryArtifact) (d : ArtifactDB) : option ProjectionErr * ArtifactDB :=
  if negb (ValidateArtifact a) then (Some PErrInvalidArtifact, d)
  else match rowsWhere (λ b, ofKind (art_OwnerID a) (art_Kind a) b && (art_Version b =? art_Version a)) d with
  | [] => (None, <[nextID d := art_setID (nextID d) a]> d)
  | _ => (Some PErrDuplicate, d)
  end.
(** The row with the highest version, then the highest id. *)
Definition newer (a b : Z * MemoryArtifact) : bool := if art_Version a.2 =? art_Version b.2 then b.1 <? a.1 else art_Version b.2 <? art_Version a.2.
Definition LatestArtifact (ownerID : Z) (kind : string) (d : ArtifactDB) : option MemoryArtifact :=
  snd <$> head (sort_stable newer (rowsWhere (ofKind ownerID kind) d)).

(** ** Calls *)

Inductive pcall : Type → Type :=
| PClock : pcall Z
| PLatest (ownerID : Z) (kind : string) : pcall (result ProjectionErr (option MemoryArtifact))
| PCreate (a : MemoryArtifact) : pcall (option ProjectionErr)
| PAgent (ownerID : Z) (diff : ConsolidationDiff) (handbook summary raw : string) : pcall (result ProjectionErr (string * string))
| PSources (ownerID : Z) : pcall (result ProjectionErr (list Memory))
| PLock : pcall (option ProjectionErr)
| PUnlock : pcall unit
| PChat (prompt : string) : pcall (result ProjectionErr string).

Notation pprog := (program pcall).

Definition performP (X : Type) (c : pcall X) : ArtifactDB → X → ArtifactDB → Prop :=
  match c in pcall X return ArtifactDB → X → ArtifactDB → Prop with
  | PLatest o kind => λ d, transaction (Ok (LatestArtifact o kind d), d) (λ msg, Err (PErrText msg)) d
  | PCreate a => λ d, transaction (CreateArtifact a d) (λ msg, Some (PErrText msg)) d
  | _ => λ d _ d', d' = d
  end.

(** ** The projection *)

Section Projection.
Context (unmarshalRefs : RawMessage → option (list ProjectionSourceRef)) (marshalRefs : list ProjectionSourceRef → option RawMessage).
Context (sha256_hex : string → string).

Definition decodeRefs (a : option MemoryArtifact) : list ProjectionSourceRef :=
  match a with
  | None => []
  | Some a => if (art_SourceRefsJSON a =? "")%string then [] else default [] (unmarshalRefs (art_SourceRefsJSON a))
  end.
Definition marshalProjectionRefs (refs : list ProjectionSourceRef) : RawMessage := default ""%string (marshalRefs refs).

Definition priorVersion (a : option MemoryArtifact) : Z := default 0 (art_Version <$> a).
Definition priorContent (a : option MemoryArtifact) : string := default ""%string (art_Content <$> a).
Definition previousRefsOf (handbook summary : option MemoryArtifact) : gmap string ProjectionSourceRef :=
  foldl (λ m ref, <[key ref := ref]> m) ∅ (decodeRefs handbook ++ decodeRefs summary).

Definition loadPrior (ownerID : Z) (kind : string) : pprog (result ProjectionErr (option MemoryArtifact)) :=
  ask found := PLatest ownerID kind in
  Return _ (match found with Ok a => Ok a | Err e => Err (PErrLoad kind e) end).

Definition artifactOf (ownerID now : Z) (kind content : string) (prior : option MemoryArtifact) (refs : list ProjectionSourceRef) : MemoryArtifact :=
  mkArtifact 0 ownerID kind (priorVersion prior + 1) content "consolidation" (marshalProjectionRefs refs) (sha256_hex content) (Some now).

(** The two versions, the handbook first. *)
Definition writeArtifacts (handbook summary : MemoryArtifact) : pprog (option ProjectionErr) :=
  ask err := PCreate handbook in
  match err with
  | Some e => Return _ (Some (PErrPersist ArtifactKindHandbook e))
  | None =>
    ask err := PCreate summary in
    Return _ (match err with Some e => Some (PErrPersist ArtifactKindSummary e) | None => None end)
  end.

Definition orElse (text fallback : string) : string := if (text =? "")%string then fallback else text.

(** What [Project] returns: nothing written, the two artifacts, or an error. *)
Inductive Projected := Unchanged | Written (handbook summary : MemoryArtifact).

Definition Project (ownerID : Z) (inputs : list ProjectionInput) : pprog (result ProjectionErr Projected) :=
  if ownerID <=? 0 then Return _ (Err PErrOwner)
  else
    run handbook0 := loadPrior ownerID ArtifactKindHandbook in
    match handbook0 with
    | Err e => Return _ (Err e)
    | Ok priorHandbook =>
      run summary0 := loadPrior ownerID ArtifactKindSummary in
      match summary0 with
      | Err e => Return _ (Err e)
      | Ok priorSummary =>
        let previous := previousRefsOf priorHandbook priorSummary in
        ask now := PClock in
        let selected := selectProjectionInputs inputs previous now in
        let newRefs := newRefsOf previous selected in
        let diff := projectionDiff previous newRefs in
        if (length (diff_Added diff) =? 0)%nat && (length (diff_Removed diff) =? 0)%nat then Return _ (Ok Unchanged)
        else
          let raw := renderProjectionRawInputs selected in
          ask answer := PAgent ownerID diff (priorContent priorHandbook) (priorContent priorSummary) raw in
          match answer with
          | Err e => Return _ (Err e)
          | Ok (handbookText, summaryText) =>
            let handbookText := orElse (TrimSpace handbookText) raw in
            let summaryText := orElse (TrimSpace summaryText) (summarizeDurableText handbookText) in
            ask now := PClock in
            let handbook := artifactOf ownerID now ArtifactKindHandbook handbookText priorHandbook newRefs in
            let summary := artifactOf ownerID now ArtifactKindSummary summaryText priorSummary newRefs in
            run err := writeArtifacts handbook summary in
            Return _ (match err with Some e => Err e | None => Ok (Written handbook summary) end)
          end
      end
    end.

(** ** Pruned sources *)

(** The union of the references, split by whether their memory was deleted. *)
Definition removeProjectionRefs (handbook summary : option MemoryArtifact) (deleted : gset Z) : list ProjectionSourceRef * list ProjectionSourceRef :=
  let refs := addRefs (decodeRefs handbook ++ decodeRefs summary) in
  (sortProjectionRefs (filter (λ ref, ref_SourceID ref ∈ deleted) refs), sortProjectionRefs (filter (λ ref, ref_SourceID ref ∉ deleted) refs)).

Definition RemovePrunedSources (hasAgent : bool) (ownerID : Z) (deletedIDs : list Z) : pprog (result ProjectionErr Z) :=
  if ownerID <=? 0 then Return _ (Err PErrOwner)
  else match deletedIDs with
  | [] => Return _ (Ok 0)
  | _ =>
    run handbook0 := loadPrior ownerID ArtifactKindHandbook in
    match handbook0 with
    | Err e => Return _ (Err e)
    | Ok priorHandbook =>
      run summary0 := loadPrior ownerID ArtifactKindSummary in
      match summary0 with
      | Err e => Return _ (Err e)
      | Ok priorSummary =>
        match removeProjectionRefs priorHandbook priorSummary (list_to_set (filter (λ id, 0 < id) deletedIDs)) with
        | ([], _) => Return _ (Ok 0)
        | (removed, surviving) =>
          if negb hasAgent then Return _ (Err PErrNoAgent)
          else
            ask answer := PAgent ownerID (mkDiff [] removed) (priorContent priorHandbook) (priorContent priorSummary) "" in
            match answer with
            | Err e => Return _ (Err e)
            | Ok (handbookText, summaryText) =>
              let handbookText := orElse (TrimSpace handbookText) (priorContent priorHandbook) in
              let summaryText := orElse (TrimSpace summaryText) (priorContent priorSummary) in
              ask now := PClock in
              run err := writeArtifacts (artifactOf ownerID now ArtifactKindHandbook handbookText priorHandbook surviving)
                           (artifactOf ownerID now ArtifactKindSummary summaryText priorSummary surviving) in
              Return _ (match err with Some e => Err e | None => Ok (zlen removed) end)
            end
        end
      end
    end
  end.
End Projection.

(** ** The worker's part *)

(** [MemoryRepository.ListBySources]: the usable rows of the sources, at most 256. *)
Definition ListBySources (now ownerID : Z) (sources : list string) (limit : Z) (table : gmap Z Memory) : list Memory :=
  match sources with
  | [] => []
  | _ =>
    take (Z.to_nat (if (limit <=? 0) || (256 <? limit) then 256 else limit))
      (snd <$> rowsWhere (λ m, (mem_OwnerID m =? ownerID) && bool_decide (mem_DeletedAt m = None) && (mem_Status m =? StatusActive)%string && negb (mem_HasConflict m) &&
         match mem_ExpiresAt m with None => true | Some t => now <? t end && one_of (mem_Source m) sources) table)
  end.

Definition consolidationSourceAt (m : Memory) : Z :=
  match mem_LastUsedAt m with
  | Some t => if t =? 0 then (if mem_UpdatedAt m =? 0 then mem_CreatedAt m else mem_UpdatedAt m) else t
  | None => if mem_UpdatedAt m =? 0 then mem_CreatedAt m else mem_UpdatedAt m
  end.

Definition consolidationKind (source : string) : option string :=
  if (source =? "ad_hoc")%string then Some ConsolidationSourceAdHoc else if (source =? "extraction")%string then Some ConsolidationSourceRollout else None.
Definition consolidationInput (row : Memory) : option ProjectionInput :=
  kind ← consolidationKind (mem_Source row);
  let content := TrimSpace (redactDurableSecrets (mem_Content row)) in
  if (content =? "")%string then None
  else Some (mkInput (mkRef (mem_ID row) kind (default 0 (mem_SourceConversationID row))) content "" (consolidationSourceAt row)).
Definition consolidationInputs (rows : list Memory) : list ProjectionInput :=
  sort_stable (λ a b, ref_SourceID (in_SourceRef a) <? ref_SourceID (in_SourceRef b)) (omap consolidationInput rows).

Section Consolidate.
Context (unmarshalRefs : RawMessage → option (list ProjectionSourceRef)) (marshalRefs : list ProjectionSourceRef → option RawMessage).
Context (sha256_hex : string → string).
(** [json.Unmarshal] of the model's reply: the handbook and the summary. *)
Context (unmarshalConsolidation : string → result string (string * string)).

Definition gatherConsolidationInputs (hasSources : bool) (ownerID : Z) : pprog (result ProjectionErr (list ProjectionInput)) :=
  if negb hasSources then Return _ (Ok [])
  else
    ask rows := PSources ownerID in
    Return _ (match rows with Err e => Err e | Ok rows => Ok (consolidationInputs rows) end).

Definition consolidationPrompt (diff : ConsolidationDiff) (currentMemory currentSummary raw : string) : string :=
  ("You are the single internal memory consolidation agent. Read the workspace diff first. Consolidate into one durable, non-duplicated handbook. Preserve supported facts, merge duplicates, remove stale contradictions, and keep provenance from rollout evidence. Return JSON only: "
   ++ ticks "{`memory`:`MEMORY.md markdown`,`summary`:`compact routing summary`}" ++ ". Do not include v1 in summary and do not emit taxonomy, scopes, tiers, or promotion instructions."
   ++ newline ++ newline ++ "WORKSPACE DIFF (read first):" ++ newline ++ RenderDiff diff ++ newline ++ "EXISTING MEMORY:" ++ newline ++ currentMemory
   ++ newline ++ newline ++ "EXISTING SUMMARY:" ++ newline ++ currentSummary ++ newline ++ newline ++ "NEW RAW INPUT:" ++ newline ++ raw)%string.

(** The agent that the worker is. *)
Definition ConsolidateAgent (hasModel : bool) (diff : ConsolidationDiff) (currentMemory currentSummary raw : string) : pprog (result ProjectionErr (string * string)) :=
  if negb hasModel then Return _ (Err PErrNoModel)
  else
    ask reply := PChat (consolidationPrompt diff currentMemory currentSummary raw) in
    Return _ (match reply with
    | Err e => Err e
    | Ok content =>
      match unmarshalConsolidation (extractDurableJSON content) with
      | Err e => Err (PErrDecode e)
      | Ok (m, s) =>
        let s := TrimSpace s in
        if (s =? "")%string then Err PErrEmptySummary else Ok (orElse (TrimSpace m) raw, s)
      end
    end).

(** The calls of [Project] to its agent are the worker's own. *)
Fixpoint withAgent {A} (hasModel : bool) (p : pprog A) : pprog A :=
  match p with
  | Return _ a => Return _ a
  | Ask _ c k =>
    match c in pcall X return ((X → pprog A) → pprog A) with
    | PAgent o diff h s raw => λ k, run answer := ConsolidateAgent hasModel diff h s raw in k answer
    | c => λ k, Ask _ c k
    end (λ x, withAgent hasModel (k x))
  end.

Definition consolidate (hasModel hasSources hasProjection : bool) (ownerID : Z) : pprog (option ProjectionErr) :=
  ask lockErr := PLock in
  match lockErr with
  | Some e => Return _ (Some e)
  | None =>
    run inputs := gatherConsolidationInputs hasSources ownerID in
    run err := match inputs with
      | Err e => Return _ (Some e)
      | Ok [] => Return _ None
      | Ok inputs =>
        if negb hasProjection then Return _ (Some (PErrText "durable memory consolidation projection is not configured"))
        else run out := withAgent hasModel (Project unmarshalRefs marshalRefs sha256_hex ownerID inputs) in
             Return _ (match out with Err e => Some e | Ok _ => None end)
      end in
    ask _ := PUnlock in Return _ err
  end.
End Consolidate.

(** ** What is selected *)

Lemma selectProjectionInputs_snoc inputs input previous now :
  selectProjectionInputs (inputs ++ [input]) previous now = selectInput previous (now - consolidationColdWindow) (selectProjectionInputs inputs previous now) input.
Proof. unfold selectProjectionInputs. by rewrite foldl_app. Qed.

(** An input is kept when a previous version protects it or it is not cold. *)
Definition kept_input (previous : gmap string ProjectionSourceRef) (now : Z) (input : ProjectionInput) : Prop :=
  is_Some (previous !! key (in_SourceRef input)) ∨ in_SourceAt input = 0 ∨ now - consolidationColdWindow ≤ in_SourceAt input.

Lemma selected_keyed inputs previous now k input : selectProjectionInputs inputs previous now !! k = Some input → key (in_SourceRef input) = k ∧ input ∈ inputs.
Proof.
  induction inputs as [|x inputs IH] using rev_ind; [cbn; by rewrite lookup_empty|]. rewrite selectProjectionInputs_snoc. unfold selectInput.
  case_match; [intros Hi; destruct (IH Hi); set_solver|]. rewrite lookup_insert_Some. intros [[<- <-]|[_ Hi]]; [set_solver|destruct (IH Hi); set_solver].
Qed.

Lemma selected_iff inputs previous now k : is_Some (selectProjectionInputs inputs previous now !! k) ↔
  ∃ input, input ∈ inputs ∧ key (in_SourceRef input) = k ∧ kept_input previous now input.
Proof.
  induction inputs as [|x inputs IH] using rev_ind.
  { change (selectProjectionInputs [] previous now) with (∅ : gmap string ProjectionInput). rewrite lookup_empty. split; [by intros []|intros (? & Hin & _); set_solver]. }
  rewrite selectProjectionInputs_snoc. unfold selectInput.
  assert (∀ P : ProjectionInput → Prop, (∃ input, input ∈ inputs ++ [x] ∧ P input) ↔ (∃ input, input ∈ inputs ∧ P input) ∨ P x) as Hsnoc.
  { intros P. split; [intros (i & [Hin| ->%list_elem_of_singleton]%elem_of_app & HP); eauto|].
    intros [(i & Hin & HP)|HP]; [exists i|exists x]; (split; [|done]); apply elem_of_app; [by left|right; by apply list_elem_of_singleton]. }
  rewrite (Hsnoc (λ input, key (in_SourceRef input) = k ∧ kept_input previous now input)), <- IH. destruct (_ && _) eqn:Hc.
  - assert (¬ kept_input previous now x) as Hcold; [|tauto]. rewrite !andb_true_iff, !negb_true_iff, bool_decide_eq_false, Z.eqb_neq, Z.ltb_lt in Hc.
    destruct Hc as [[Hp Hz] Hlt]. intros [?|[?|?]]; [done|lia|lia].
  - assert (kept_input previous now x) as Hk.
    { unfold kept_input. destruct (decide (is_Some (previous !! key (in_SourceRef x)))) as [?|Hn]; [by left|right]. rewrite bool_decide_eq_false_2 in Hc by done. cbn in Hc.
      destruct (Z.eqb_spec (in_SourceAt x) 0); [by left|right]. cbn in Hc. by apply Z.ltb_ge in Hc. }
    destruct (decide (key (in_SourceRef x) = k)) as [<-|Hne]; [rewrite lookup_insert_eq; split; [by right|by eexists]|]. rewrite lookup_insert_ne by done. tauto.
Qed.

Lemma addRef_spec st ref : (∀ k, k ∈ st.1 ↔ k ∈ key <$> st.2) → NoDup (key <$> st.2) →
  (∀ k, k ∈ (addRef st ref).1 ↔ k ∈ key <$> (addRef st ref).2) ∧ NoDup (key <$> (addRef st ref).2) ∧
  ∀ k, k ∈ key <$> (addRef st ref).2 ↔ k ∈ key <$> st.2 ∨ k = key ref.
Proof.
  intros Hset Hnd. unfold addRef. case_bool_decide as Hin; cbn.
  - split_and!; [done..|]. intros k. rewrite Hset in Hin. naive_solver.
  - rewrite fmap_app. cbn. split_and!.
    + intros k. rewrite elem_of_union, elem_of_singleton, elem_of_app, list_elem_of_singleton, Hset. tauto.
    + apply NoDup_app. split_and!; [done| |apply NoDup_singleton]. intros k Hk. rewrite list_elem_of_singleton. intros ->. by apply Hin, Hset.
    + intros k. by rewrite elem_of_app, list_elem_of_singleton.
Qed.

Lemma addRefs_spec refs : NoDup (key <$> addRefs refs) ∧ ∀ k, k ∈ key <$> addRefs refs ↔ k ∈ key <$> refs.
Proof.
  unfold addRefs. assert ((∀ k, k ∈ (foldl addRef (∅, []) refs).1 ↔ k ∈ key <$> (foldl addRef (∅, []) refs).2) ∧ NoDup (key <$> (foldl addRef (∅, []) refs).2) ∧
    ∀ k, k ∈ key <$> (foldl addRef (∅, []) refs).2 ↔ k ∈ key <$> refs) as (_ & ? & ?); [|done].
  induction refs as [|ref refs IH] using rev_ind; [cbn; split_and!; [set_solver|constructor|done]|]. destruct IH as (H1 & H2 & H3). rewrite foldl_app. cbn [foldl].
  destruct (addRef_spec _ ref H1 H2) as (H4 & H5 & H6). split_and!; [done..|]. intros k. rewrite H6, H3, fmap_app, elem_of_app. cbn. by rewrite list_elem_of_singleton.
Qed.

Lemma addRefs_sub refs ref : ref ∈ addRefs refs → ref ∈ refs.
Proof.
  unfold addRefs. assert (∀ st, ref ∈ (foldl addRef st refs).2 → ref ∈ st.2 ∨ ref ∈ refs) as H.
  { induction refs as [|x refs IH]; intros st; [by left|]. cbn. intros [Hin|Hin]%IH; [|set_solver]. unfold addRef in Hin. case_match; [by left|]. cbn in Hin. set_solver. }
  intros Hin. destruct (H _ Hin) as [Hx|?]; [set_solver|done].
Qed.

Definition keyed (previous : gmap string ProjectionSourceRef) : Prop := ∀ k ref, previous !! k = Some ref → key ref = k.

Lemma refs_of_previous (previous : gmap string ProjectionSourceRef) (P : string * ProjectionSourceRef → Prop) `{∀ x, Decision (P x)} k : keyed previous →
  k ∈ key <$> (snd <$> filter P (map_to_list previous)) ↔ ∃ ref, previous !! k = Some ref ∧ P (k, ref).
Proof.
  intros Hk. rewrite <- list_fmap_compose, list_elem_of_fmap. setoid_rewrite list_elem_of_filter. split.
  - intros ([k' ref] & -> & HP & Hin). apply elem_of_map_to_list in Hin. cbn. exists ref. by rewrite (Hk _ _ Hin).
  - intros (ref & Hr & HP). exists (k, ref). cbn. split; [by rewrite (Hk _ _ Hr)|]. split; [done|]. by apply elem_of_map_to_list.
Qed.

Lemma keys_sorted refs k : k ∈ key <$> sortProjectionRefs refs ↔ k ∈ key <$> refs.
Proof. unfold sortProjectionRefs. by rewrite sort_stable_perm. Qed.

Lemma newRefs_keys previous inputs now : keyed previous →
  NoDup (key <$> newRefsOf previous (selectProjectionInputs inputs previous now)) ∧
  ∀ k, k ∈ key <$> newRefsOf previous (selectProjectionInputs inputs previous now) ↔ is_Some (selectProjectionInputs inputs previous now !! k).
Proof.
  intros Hk. set (selected := selectProjectionInputs inputs previous now). unfold newRefsOf. set (all := _ ++ _). destruct (addRefs_spec all) as [Hnd Hin]. split.
  { unfold sortProjectionRefs. by rewrite sort_stable_perm. }
  intros k. rewrite keys_sorted, Hin. subst all. rewrite fmap_app, elem_of_app, refs_of_previous by done. rewrite <- list_fmap_compose, list_elem_of_fmap. cbn. split.
  - intros [(ref & _ & Hs)|([k' input] & -> & Hi)]; [done|]. apply elem_of_map_to_list in Hi. destruct (selected_keyed _ _ _ _ _ Hi) as [E _]. cbn. rewrite E. by eexists.
  - intros [input Hi]. right. exists (k, input). destruct (selected_keyed _ _ _ _ _ Hi) as [E _]. cbn. split; [done|]. by apply elem_of_map_to_list.
Qed.

Lemma previousRefsOf_keyed unmarshalRefs handbook summary : keyed (previousRefsOf unmarshalRefs handbook summary).
Proof.
  unfold previousRefsOf. generalize (decodeRefs unmarshalRefs handbook ++ decodeRefs unmarshalRefs summary). intros refs.
  induction refs as [|ref refs IH] using rev_ind; [intros k ref; cbn; by rewrite lookup_empty|]. rewrite foldl_app. cbn. intros k r. rewrite lookup_insert_Some. intros [[<- <-]|[_ Hr]]; [done|by apply IH].
Qed.

Lemma diff_keys previous current : keyed previous →
  (∀ k, k ∈ key <$> diff_Added (projectionDiff previous current) ↔ k ∈ key <$> current ∧ previous !! k = None) ∧
  (∀ k, k ∈ key <$> diff_Removed (projectionDiff previous current) ↔ is_Some (previous !! k) ∧ k ∉ key <$> current).
Proof.
  intros Hk. unfold projectionDiff. cbn [diff_Added diff_Removed]. split; intros k; rewrite keys_sorted.
  - rewrite !list_elem_of_fmap. setoid_rewrite list_elem_of_filter. naive_solver.
  - rewrite refs_of_previous by done. split; [intros (ref & Hr & Hn); cbn in Hn; split; [by eexists|done]|intros [[ref Hr] Hn]; by exists ref].
Qed.

(** The consolidation selects exactly what it should: the references of the new artifact
    version are, once each, those of the inputs that the previous version protects or that
    are not older than the cold window; the diff shown to the agent adds exactly the new ones
    and removes exactly the previous ones that no input stands for any more. *)
Theorem projection_selects (unmarshalRefs : RawMessage → option (list ProjectionSourceRef)) (handbook summary : option MemoryArtifact) (inputs : list ProjectionInput) (now : Z) :
  let previous := previousRefsOf unmarshalRefs handbook summary in
  let refs := newRefsOf previous (selectProjectionInputs inputs previous now) in
  let diff := projectionDiff previous refs in
  NoDup (key <$> refs) ∧
  (∀ k, k ∈ key <$> refs ↔ ∃ input, input ∈ inputs ∧ key (in_SourceRef input) = k ∧
     (is_Some (previous !! k) ∨ in_SourceAt input = 0 ∨ now - consolidationColdWindow ≤ in_SourceAt input)) ∧
  (∀ k, k ∈ key <$> diff_Added diff ↔ k ∈ key <$> refs ∧ previous !! k = None) ∧
  (∀ k, k ∈ key <$> diff_Removed diff ↔ is_Some (previous !! k) ∧ ¬ ∃ input, input ∈ inputs ∧ key (in_SourceRef input) = k).
Proof.
  intros previous refs diff. pose proof (previousRefsOf_keyed unmarshalRefs handbook summary) as Hk. fold previous in Hk.
  destruct (newRefs_keys previous inputs now Hk) as [Hnd Hin]. destruct (diff_keys previous refs Hk) as [Ha Hr].
  split_and!; [done| |done|].
  - intros k. unfold refs. rewrite Hin, selected_iff. unfold kept_input. naive_solver.
  - intros k. unfold diff. rewrite Hr. unfold refs. rewrite Hin, selected_iff. unfold kept_input. naive_solver.
Qed.

(** ** Versions *)

Lemma newer_false a b : newer a b = false ↔ art_Version a.2 < art_Version b.2 ∨ (art_Version a.2 = art_Version b.2 ∧ a.1 ≤ b.1).
Proof. unfold newer. destruct (Z.eqb_spec (art_Version a.2) (art_Version b.2)); rewrite Z.ltb_ge; lia. Qed.

Lemma newest_first l x : head (sort_stable newer l) = Some x → x ∈ l ∧ ∀ y, y ∈ l → newer y x = false.
Proof.
  intros Hh. assert (StronglySorted (λ x y, newer y x = false) (sort_stable newer l)) as Hs.
  { apply sort_stable_sorted; [|intros a b c; rewrite !newer_false; lia]. intros a b Hab. apply newer_false.
    destruct (newer a b) eqn:E; [|done]. unfold newer in E. destruct (Z.eqb_spec (art_Version a.2) (art_Version b.2)); rewrite Z.ltb_lt in E; lia. }
  destruct (sort_stable newer l) as [|z rest] eqn:E; [done|]. cbn in Hh. injection Hh as ->. assert (∀ y, y ∈ l ↔ y ∈ x :: rest) as Hin by (intros y; by rewrite <- E, elem_of_sort_stable).
  split; [apply Hin; left|]. intros y Hy. apply Hin, elem_of_cons in Hy as [->|Hy]; [apply newer_false; lia|].
  inversion Hs as [|? ? _ Hf]. rewrite Forall_forall in Hf. by apply Hf.
Qed.

(** Versions, then ids, determine the newest row. *)
Lemma newest_iff P (d : gmap Z MemoryArtifact) x : head (sort_stable newer (rowsWhere P d)) = Some x ↔
  x ∈ rowsWhere P d ∧ ∀ y, y ∈ rowsWhere P d → newer y x = false.
Proof.
  split; [apply newest_first|]. intros [Hx Hall]. destruct (head (sort_stable newer (rowsWhere P d))) as [z|] eqn:Hh.
  - destruct (newest_first _ _ Hh) as [Hz Hmax]. pose proof (Hall _ Hz) as H1. pose proof (Hmax _ Hx) as H2. rewrite newer_false in H1, H2.
    destruct x as [k a], z as [k' b]. apply elem_of_rowsWhere in Hx as [Hx _], Hz as [Hz _]. cbn in *. assert (k = k') as -> by lia. by simplify_eq.
  - apply (elem_of_sort_stable newer) in Hx. destruct (sort_stable newer _); [set_solver|done].
Qed.

Lemma latest_bounds o kind d id a : d !! id = Some a → ofKind o kind a = true → art_Version a ≤ priorVersion (LatestArtifact o kind d).
Proof.
  intros Ha Hk. assert ((id, a) ∈ rowsWhere (ofKind o kind) d) as Hin by (by apply elem_of_rowsWhere). unfold LatestArtifact, priorVersion.
  destruct (head (sort_stable newer (rowsWhere (ofKind o kind) d))) as [x|] eqn:Hh.
  - destruct (newest_first _ _ Hh) as [_ Hall]. specialize (Hall _ Hin). rewrite newer_false in Hall. cbn in *. lia.
  - apply (elem_of_sort_stable newer) in Hin. destruct (sort_stable newer _); [set_solver|done].
Qed.

(** After a higher version is created, it is the latest of its kind, and the latest of the
    others stays. *)
Lemma latest_created a d d' : CreateArtifact a d = (None, d') → priorVersion (LatestArtifact (art_OwnerID a) (art_Kind a) d) < art_Version a →
  (∃ id, LatestArtifact (art_OwnerID a) (art_Kind a) d' = Some (art_setID id a)) ∧ ∀ kind, kind ≠ art_Kind a → ∀ o, LatestArtifact o kind d' = LatestArtifact o kind d.
Proof.
  unfold CreateArtifact. case_match; [done|]. case_match; [|done]. intros [= <-] Hv. pose proof (rowID_fresh d) as Hf. set (id := nextID d) in *.
  assert (∀ kind o x, kind ≠ art_Kind a → x ∈ rowsWhere (ofKind o kind) (<[id := art_setID id a]> d) ↔ x ∈ rowsWhere (ofKind o kind) d) as Hrows'.
  { intros kind o [k b] Hne. rewrite !elem_of_rowsWhere, lookup_insert_Some. split; [|intros [Hb ?]; split; [right; split; [congruence|done]|done]].
    intros [[[<- <-]|[_ Hb]] Hk]; [|done]. unfold ofKind in Hk. cbn in Hk. bool_prop. congruence. }
  split.
  - exists id. unfold LatestArtifact. set (a' := art_setID id a). assert ((id, a') ∈ rowsWhere (ofKind (art_OwnerID a) (art_Kind a)) (<[id := a']> d)) as Hin.
    { apply elem_of_rowsWhere. rewrite lookup_insert_eq. split; [done|]. unfold ofKind. cbn. by rewrite Z.eqb_refl, String.eqb_refl. }
    destruct (head (sort_stable newer (rowsWhere (ofKind (art_OwnerID a) (art_Kind a)) (<[id := a']> d)))) as [[k b]|] eqn:Hh.
    2: { apply (elem_of_sort_stable newer) in Hin. destruct (sort_stable newer _); [set_solver|done]. }
    destruct (newest_first _ _ Hh) as [Hb Hall]. apply elem_of_rowsWhere in Hb as [Hb Hk]. specialize (Hall _ Hin). rewrite newer_false in Hall. cbn in Hall.
    rewrite lookup_insert_Some in Hb. destruct Hb as [[<- <-]|[Hne Hb]]; [done|]. pose proof (latest_bounds _ _ _ _ _ Hb Hk). lia.
  - intros kind Hne o. pose proof (λ x, Hrows' kind o x Hne) as Hrows. unfold LatestArtifact. f_equal. apply option_eq. intros x. rewrite !newest_iff. split; intros [Hin Hall].
    + split; [by apply Hrows|]. intros y Hy. by apply Hall, Hrows.
    + split; [by apply Hrows|]. intros y Hy. by apply Hall, Hrows.
Qed.

(** ** Projecting again *)

(** encoding/json on lists of references: texts are decoded as valid UTF-8, and valid texts
    come back. *)
Class RefsCodec (unmarshalRefs : RawMessage → option (list ProjectionSourceRef)) (marshalRefs : list ProjectionSourceRef → option RawMessage) := {
  refs_roundtrip : ∀ refs, Forall (λ r, validText (ref_Kind r)) refs → ∃ raw, marshalRefs refs = Some raw ∧ raw ≠ ""%string ∧ unmarshalRefs raw = Some refs;
  refs_valid : ∀ raw refs, unmarshalRefs raw = Some refs → Forall (λ r, validText (ref_Kind r)) refs
}.

(** A projection without other writers: the clock, the agent and the writes that fail are
    given. *)
Definition execP (now : Z) (agent : ConsolidationDiff → result ProjectionErr (string * string)) (down : string → bool) (X : Type) (c : pcall X) : ArtifactDB → X * ArtifactDB :=
  match c in pcall X return ArtifactDB → X * ArtifactDB with
  | PClock => λ d, (now, d)
  | PLatest o kind => λ d, (Ok (LatestArtifact o kind d), d)
  | PCreate a => λ d, if down (art_Kind a) then (Some (PErrText "unavailable"), d) else CreateArtifact a d
  | PAgent _ diff _ _ _ => λ d, (agent diff, d)
  | PSources _ => λ d, (Ok [], d)
  | PLock => λ d, (None, d)
  | PUnlock => λ d, (tt, d)
  | PChat _ => λ d, (Ok ""%string, d)
  end.

Lemma execP_performs now agent down X (c : pcall X) d : performP _ c d (execP now agent down _ c d).1 (execP now agent down _ c d).2.
Proof.
  destruct c as [|o kind|a|o diff h s raw|o| | |prompt]; cbn; try done; [by left|]. destruct (down (art_Kind a)); [right; eexists; by split; [|left]|]. left. symmetry. apply surjective_pairing.
Qed.

Section Again.
Context {unmarshalRefs : RawMessage → option (list ProjectionSourceRef)} {marshalRefs : list ProjectionSourceRef → option RawMessage} `{!RefsCodec unmarshalRefs marshalRefs}.
Context (sha256_hex : string → string).
Notation Project := (Project unmarshalRefs marshalRefs sha256_hex).
Notation previousRefsOf := (previousRefsOf unmarshalRefs).

Lemma runAlone_bind {call State A B} (exec : ∀ X, call X → State → X * State) (p : program call A) (f : A → program call B) s :
  runAlone exec (bindProg p f) s = let '(a, s') := runAlone exec p s in runAlone exec (f a) s'.
Proof. revert s. induction p as [a|X c k IH]; intros s; cbn; [done|]. destruct (exec X c s) as [x s']. apply IH. Qed.

Notation agentOf := (ConsolidationDiff → result ProjectionErr (string * string)).

(** What a successful projection has done. *)
Lemma project_written now (agent : agentOf) down o inputs d h s d' : runAlone (execP now agent down) (Project o inputs) d = (Ok (Written h s), d') →
  let priorHandbook := LatestArtifact o ArtifactKindHandbook d in let priorSummary := LatestArtifact o ArtifactKindSummary d in
  let previous := previousRefsOf priorHandbook priorSummary in let refs := newRefsOf previous (selectProjectionInputs inputs previous now) in
  ∃ handbookText summaryText d1,
    h = artifactOf marshalRefs sha256_hex o now ArtifactKindHandbook handbookText priorHandbook refs ∧
    s = artifactOf marshalRefs sha256_hex o now ArtifactKindSummary summaryText priorSummary refs ∧
    CreateArtifact h d = (None, d1) ∧ CreateArtifact s d1 = (None, d') ∧ 0 < o.
Proof.
  intros Hrun priorHandbook priorSummary previous refs. unfold Project in Hrun. destruct (o <=? 0) eqn:Ho; [done|]. apply Z.leb_gt in Ho.
  cbn [runAlone execP loadPrior bindProg] in Hrun. fold priorHandbook priorSummary in Hrun. fold previous in Hrun. fold refs in Hrun.
  destruct (_ && _) in Hrun; [by cbn in Hrun|].
  cbn [runAlone execP] in Hrun. destruct (agent _) as [[ht st]|e]; [|by cbn in Hrun]. cbn [runAlone execP] in Hrun. rewrite runAlone_bind in Hrun.
  unfold writeArtifacts in Hrun. cbn [runAlone execP] in Hrun. set (h0 := artifactOf _ _ _ _ ArtifactKindHandbook _ _ _) in Hrun. set (s0 := artifactOf _ _ _ _ ArtifactKindSummary _ _ _) in Hrun.
  destruct (down (art_Kind h0)); [by cbn in Hrun|]. destruct (CreateArtifact h0 d) as [[e|] d1] eqn:Hh; cbn [runAlone execP] in Hrun; [done|].
  destruct (down (art_Kind s0)); [by cbn in Hrun|]. destruct (CreateArtifact s0 d1) as [[e|] d2] eqn:Hs; cbn [runAlone] in Hrun; [done|]. injection Hrun as <- <- <-.
  eexists _, _, d1. split_and!; [reflexivity|reflexivity|exact Hh|exact Hs|exact Ho].
Qed.

Lemma previous_of_refs h s refs k : decodeRefs unmarshalRefs (Some h) = refs → decodeRefs unmarshalRefs (Some s) = refs →
  is_Some (previousRefsOf (Some h) (Some s) !! k) ↔ k ∈ key <$> refs.
Proof.
  intros Hh Hs. unfold previousRefsOf. rewrite Hh, Hs. assert (∀ l, is_Some (foldl (λ m ref, <[key ref := ref]> m) (∅ : gmap string ProjectionSourceRef) l !! k) ↔ k ∈ key <$> l) as Hl.
  { induction l as [|r l IH] using rev_ind; [cbn; rewrite lookup_empty; split; [by intros []|set_solver]|]. rewrite foldl_app, fmap_app, elem_of_app, <- IH. cbn. rewrite list_elem_of_singleton.
    destruct (decide (key r = k)) as [<-|Hne]; [rewrite lookup_insert_eq; split; [by right|by eexists]|]. rewrite lookup_insert_ne by done. naive_solver. }
  rewrite Hl, fmap_app, elem_of_app. tauto.
Qed.

Lemma decodeRefs_valid a : Forall (λ r, validText (ref_Kind r)) (decodeRefs unmarshalRefs a).
Proof. unfold decodeRefs. destruct a as [a|]; [|constructor]. case_match; [constructor|]. destruct (unmarshalRefs _) eqn:Hu; [by eapply refs_valid|constructor]. Qed.

Lemma newRefs_valid handbook summary inputs now : Forall (λ i, validText (ref_Kind (in_SourceRef i))) inputs →
  let previous := previousRefsOf handbook summary in Forall (λ r, validText (ref_Kind r)) (newRefsOf previous (selectProjectionInputs inputs previous now)).
Proof.
  intros Hi previous. apply Forall_forall. intros ref Hin. unfold newRefsOf in Hin. unfold sortProjectionRefs in Hin. rewrite elem_of_sort_stable in Hin.
  apply addRefs_sub, elem_of_app in Hin as [Hin|Hin]; apply list_elem_of_fmap in Hin as ([k x] & -> & Hx).
  - apply list_elem_of_filter in Hx as [_ Hx]. apply elem_of_map_to_list in Hx. cbn. unfold previous, previousRefsOf in Hx.
    assert (∀ l, Forall (λ r, validText (ref_Kind r)) l → ∀ k x, foldl (λ m ref, <[key ref := ref]> m) (∅ : gmap string ProjectionSourceRef) l !! k = Some x → validText (ref_Kind x)) as Hl.
    { clear. induction l as [|r l IH] using rev_ind; intros Hl k x; [cbn; by rewrite lookup_empty|]. apply Forall_app in Hl as [Hl Hr]. inversion Hr; subst.
      rewrite foldl_app. cbn. rewrite lookup_insert_Some. intros [[_ <-]|[_ Hx]]; [done|by eapply IH]. }
    eapply Hl; [|exact Hx]. apply Forall_app. split; apply decodeRefs_valid.
  - apply elem_of_map_to_list in Hx. destruct (selected_keyed _ _ _ _ _ Hx) as [_ Hin]. rewrite Forall_forall in Hi. by apply Hi.
Qed.

(** C25. A projection that was written is not repeated: after a projection wrote its two
    versions, projecting the same inputs at any later time finds the diff empty, asks no
    agent and writes nothing, whatever the agent or the database would answer; cold inputs
    stay out and what is in the artifacts is protected although it grows cold. *)
Theorem project_idempotent (now now' ownerID : Z) (agent agent' : agentOf) (down down' : string → bool) (inputs : list ProjectionInput) (d d' : ArtifactDB) (h s : MemoryArtifact) :
  Forall (λ i, validText (ref_Kind (in_SourceRef i))) inputs → now ≤ now' →
  runAlone (execP now agent down) (Project ownerID inputs) d = (Ok (Written h s), d') →
  runAlone (execP now' agent' down') (Project ownerID inputs) d' = (Ok Unchanged, d').
Proof.
  intros Hvalid Hnow Hrun. destruct (project_written _ _ _ _ _ _ _ _ _ Hrun) as (ht & st & d1 & Hh & Hs & Hc1 & Hc2 & Ho).
  set (previous := previousRefsOf (LatestArtifact ownerID ArtifactKindHandbook d) (LatestArtifact ownerID ArtifactKindSummary d)) in *.
  set (refs := newRefsOf previous (selectProjectionInputs inputs previous now)) in *.
  assert (art_OwnerID h = ownerID ∧ art_Kind h = ArtifactKindHandbook ∧ art_OwnerID s = ownerID ∧ art_Kind s = ArtifactKindSummary) as (Eo & Ek & Eo' & Ek') by (by rewrite Hh, Hs).
  destruct (latest_created h d d1 Hc1) as [[id1 Hl1] Hkeep1]; [rewrite Eo, Ek, Hh; cbn; lia|]. rewrite Eo, Ek in Hl1.
  assert (LatestArtifact ownerID ArtifactKindSummary d1 = LatestArtifact ownerID ArtifactKindSummary d) as Hs1 by (apply Hkeep1; by rewrite Ek).
  destruct (latest_created s d1 d' Hc2) as [[id2 Hl2] Hkeep2]; [rewrite Eo', Ek', Hs1, Hs; cbn; lia|]. rewrite Eo', Ek' in Hl2.
  assert (LatestArtifact ownerID ArtifactKindHandbook d' = Some (art_setID id1 h)) as Hl1' by (rewrite Hkeep2; [done|by rewrite Ek']).
  destruct (refs_roundtrip refs (newRefs_valid _ _ _ now Hvalid)) as (raw & Hm & Hne & Hu).
  assert (∀ id a, art_SourceRefsJSON a = marshalProjectionRefs marshalRefs refs → decodeRefs unmarshalRefs (Some (art_setID id a)) = refs) as Hdec.
  { intros id a Ha. unfold decodeRefs. cbn [art_SourceRefsJSON art_setID]. rewrite Ha. unfold marshalProjectionRefs. rewrite Hm. cbn. by rewrite (proj2 (String.eqb_neq _ _) Hne), Hu. }
  unfold Project. rewrite (proj2 (Z.leb_gt _ _) Ho). cbn [runAlone execP loadPrior bindProg]. rewrite Hl1', Hl2.
  pose proof (λ k, previous_of_refs (art_setID id1 h) (art_setID id2 s) refs k (Hdec id1 h ltac:(by rewrite Hh)) (Hdec id2 s ltac:(by rewrite Hs))) as Hprev.
  set (previous' := previousRefsOf (Some (art_setID id1 h)) (Some (art_setID id2 s))) in *.
  assert (diff_Added (projectionDiff previous' (newRefsOf previous' (selectProjectionInputs inputs previous' now'))) = [] ∧
          diff_Removed (projectionDiff previous' (newRefsOf previous' (selectProjectionInputs inputs previous' now'))) = []) as [-> ->]; [|done].
  assert (∀ k, k ∈ key <$> refs ↔ ∃ input, input ∈ inputs ∧ key (in_SourceRef input) = k ∧ kept_input previous now input) as Hrefs.
  { intros k. unfold refs. destruct (newRefs_keys previous inputs now (previousRefsOf_keyed _ _ _)) as [_ Hin]. rewrite Hin. apply selected_iff. }
  assert (∀ l : list ProjectionSourceRef, (∀ k, k ∉ key <$> l) → l = []) as Hnil by (intros [|r l] Hl; [done|]; destruct (Hl (key r)); left).
  pose proof (previousRefsOf_keyed unmarshalRefs (Some (art_setID id1 h)) (Some (art_setID id2 s)) : keyed previous') as Hk.
  destruct (newRefs_keys previous' inputs now' Hk) as [_ Hin]. destruct (diff_keys previous' (newRefsOf previous' (selectProjectionInputs inputs previous' now')) Hk) as [Ha Hr].
  split; apply Hnil; intros k Hink.
  - apply Ha in Hink as [Hink Hnone]. apply Hin, selected_iff in Hink as (i & Hi & <- & Hkept). apply eq_None_not_Some in Hnone. apply Hnone, Hprev, Hrefs.
    exists i. split_and!; [done..|]. destruct Hkept as [?|[?|?]]; [done|by right; left|right; right; lia].
  - apply Hr in Hink as [Hsome Hnot]. apply Hnot, Hin, selected_iff. pose proof (proj1 (Hprev k) Hsome) as Hk'. apply Hrefs in Hk' as (i & Hi & Ek'' & _).
    exists i. split_and!; [done..|]. left. by rewrite Ek''.
Qed.
End Again.

(** ** Sample runs *)

Module ProjectionSamples.
Import Samples.

#[local] Instance ref_eq_dec : EqDecision ProjectionSourceRef.
Proof. solve_decision. Defined.
#[local] Instance ref_countable : Countable ProjectionSourceRef.
Proof. by apply (inj_countable' (λ r, (ref_SourceID r, ref_Kind r, ref_ConversationID r)) (λ '(i, k, c), mkRef i k c)); intros []. Defined.
#[local] Instance validKind_dec (r : ProjectionSourceRef) : Decision (validText (ref_Kind r)).
Proof. unfold validText. apply _. Defined.

Definition marshalSample (refs : list ProjectionSourceRef) : option RawMessage := Some (digits (encode refs)).
Definition unmarshalSample (raw : RawMessage) : option (list ProjectionSourceRef) :=
  refs ← decode (number raw); if bool_decide (Forall (λ r, validText (ref_Kind r)) refs) then Some refs else None.

#[export] Instance sampleRefsCodec : RefsCodec unmarshalSample marshalSample.
Proof.
  split.
  - intros refs Hv. exists (digits (encode refs)). split_and!; [done|by destruct (encode refs)|]. unfold unmarshalSample. rewrite number_digits, countable.decode_encode. cbn.
    by rewrite bool_decide_eq_true_2.
  - intros raw refs. unfold unmarshalSample. intros (l & _ & H)%bind_Some. case_bool_decide; by simplify_eq.
Qed.

Definition note (id at_ : Z) : ProjectionInput := mkInput (mkRef id "ad_hoc" 3) "use tabs" "" at_.
Definition answer (_ : ConsolidationDiff) : result ProjectionErr (string * string) := Ok ("handbook", "summary")%string.
Definition projectSample (o : Z) (inputs : list ProjectionInput) : program pcall (result ProjectionErr Projected) :=
  Project unmarshalSample marshalSample (λ _, "sum"%string) o inputs.
Definition inputs : list ProjectionInput := [note 1 (100 * 24 * hour); note 2 (10 * 24 * hour)].
Definition today : Z := 100 * 24 * hour.

Definition outcome (r : result ProjectionErr Projected) : option (Z * Z) := match r with Ok (Written h s) => Some (art_Version h, art_Version s) | _ => None end.

(** Much later, when the first note has grown cold too. *)
Lemma project_idempotent_witness :
  outcome (runAlone (execP today answer (λ _, false)) (projectSample 7 inputs) ∅).1 = Some (1, 1) ∧
  let d' := (runAlone (execP today answer (λ _, false)) (projectSample 7 inputs) ∅).2 in
  runAlone (execP (10 * today) answer (λ _, true)) (projectSample 7 inputs) d' = (Ok Unchanged, d').
Proof.
  assert (outcome (runAlone (execP today answer (λ _, false)) (projectSample 7 inputs) ∅).1 = Some (1, 1)) as Hout by (vm_compute; reflexivity). split; [done|].
  destruct (runAlone (execP today answer (λ _, false)) (projectSample 7 inputs) ∅) as [r d'] eqn:Hrun. cbn [fst snd] in *. destruct r as [[|h s]|e]; [done| |done].
  apply (project_idempotent (λ _, "sum"%string) today (10 * today) 7 answer answer (λ _, false) (λ _, true) inputs ∅ d' h s); [|vm_compute; discriminate|exact Hrun].
  repeat (apply Forall_cons_2; [apply (bool_decide_eq_true_1 _); vm_compute; reflexivity|]). apply Forall_nil_2.
Defined.

(** ** What goes another way *)

(** The handbook is stored and the summary is not: the error makes the caller retry, but the
    retry finds the references of the handbook, takes them for the previous version of both
    and writes nothing.  The summary stays missing until a source changes. *)
Theorem failed_summary_never_retried :
  let first := runAlone (execP today answer (λ kind, (kind =? ArtifactKindSummary)%string)) (projectSample 7 inputs) ∅ in
  first.1 = Err (PErrPersist ArtifactKindSummary (PErrText "unavailable")) ∧
  (runAlone (execP today answer (λ _, false)) (projectSample 7 inputs) first.2).1 = Ok Unchanged ∧
  LatestArtifact 7 ArtifactKindSummary (runAlone (execP today answer (λ _, false)) (projectSample 7 inputs) first.2).2 = None ∧
  is_Some (LatestArtifact 7 ArtifactKindHandbook first.2).
Proof. split_and!; try (vm_compute; reflexivity). apply (bool_decide_eq_true_1 _). vm_compute. reflexivity. Qed.

(** A table of many notes of one owner. *)
Definition memoryRow (id : Z) : Memory :=
  mkMemory id 7 None false (Some 3) None ScopeUser 7 StatusActive TypeArchival TierLongTerm "" "use tabs" (float_of_Z 1) 0 "ad_hoc" None "" None None today today.
Definition manyNotes (n : nat) : gmap Z Memory := list_to_map ((λ i, (Z.of_nat i, memoryRow (Z.of_nat i))) <$> seq 1 n).

(** The sources are listed by ascending id with a limit of 256 that the caller cannot raise:
    of an owner with more rows the newest are never consolidated. *)
Theorem newest_sources_cut_off :
  (mem_ID <$> ListBySources today 7 ["ad_hoc"; "extraction"]%string 0 (manyNotes 300)) = (Z.of_nat <$> seq 1 256).
Proof. vm_compute. reflexivity. Qed.
End ProjectionSamples.
