(* ===== verification/Documents.v ===== *)
(** Uploaded documents (internal/infrastructure/parser: parser.go, registry.go and the
    OCR parser of pdf_ocr_parser.go; internal/pkg/textutil/faq.go): from the bytes of a
    file to typed blocks.

    The OCR service and the PDF extraction are outside, their blocks are arguments.  A nil
    metadata map is the empty one. *)
From Stdlib Require Import Ascii.
From S2P Require Import Prelude GoStr Json Stream Fuzzy.
Open Scope Z_scope.

(** ** Data *)

Record BBox := mkBBox { box_X : float64; box_Y : float64; box_Width : float64; box_Height : float64 }.

(** The dynamic types of metadata values; [AnyOther] is what comes decoded from outside. *)
Inductive any :=
| AnyString (s : string)
| AnyInt (n : Z)
| AnyStrings (l : list string)
| AnyBox (b : BBox)
| AnyOther (v : json).

Notation metadata := (gmap string any).

Record DocumentBlock := mkBlock {
  block_ID : string;
  block_Type : string;
  block_Text : string;
  block_PageNo : option Z;
  block_BBox : option BBox;
  block_Metadata : metadata
}.

Record ParsedDocument := mkDocument { doc_Text : string; doc_FileType : string; doc_Blocks : list DocumentBlock }.

(** ** Questions and answers *)

Record FAQ := mkFAQ { faq_Question : string; faq_Answer : string; faq_Aliases : list string; faq_Category : string }.

Definition trimPrefixes (line : string) (prefixes : list string) : string :=
  TrimSpace (foldl TrimPrefix (TrimSpace line) prefixes).

Definition IsQuestionLine (line : string) : bool :=
  let line := TrimSpace line in
  HasPrefix line "Q:" || HasPrefix line "问:" || HasSuffix line "?" || HasSuffix line "？".

(** [strings.FieldsFunc]: the maximal runs of runes that are no separators. *)
Fixpoint fieldsFunc_of (sep : Z → bool) (cur : list (Z * list ascii)) (l : list (Z * list ascii)) : list string :=
  match l with
  | [] => match cur with [] => [] | _ => [unsegment (reverse cur)] end
  | x :: l =>
    if sep x.1 then match cur with [] => fieldsFunc_of sep [] l | _ => unsegment (reverse cur) :: fieldsFunc_of sep [] l end
    else fieldsFunc_of sep (x :: cur) l
  end.
Definition FieldsFunc (s : string) (sep : Z → bool) : list string := fieldsFunc_of sep [] (segments s).

(** Comma and semicolon, ASCII and full-width. *)
Definition is_separator (r : Z) : bool := (r =? 44) || (r =? 65292) || (r =? 59) || (r =? 65307).

Section Parser.
Context `{UnicodeTables}.

(** [None] when the line has none of the prefixes. *)
Fixpoint metadataValues (line : string) (prefixes : list string) : option (list string) :=
  match prefixes with
  | [] => None
  | prefix :: rest =>
    if HasPrefix (ToLower (TrimSpace line)) prefix then
      let value := TrimSpace (str_drop (String.length prefix) line) in
      Some (if (value =? "")%string then []
            else filter (λ part, part ≠ ""%string) (TrimSpace <$> FieldsFunc value is_separator))
    else metadataValues line rest
  end.

(** The lines after a question: its fields, the parts of the answer and the lines that are
    left. *)
Fixpoint collectAnswer (lines : list string) (faq : FAQ) (answerParts : list string) : FAQ * list string * list string :=
  match lines with
  | [] => (faq, answerParts, [])
  | raw :: rest =>
    let line := TrimSpace raw in
    if (line =? "")%string then
      match answerParts with [] => collectAnswer rest faq answerParts | _ => (faq, answerParts, lines) end
    else if IsQuestionLine line then (faq, answerParts, lines)
    else
      match metadataValues line ["aliases:"; "alias:"; "别名:"]%string with
      | Some values => collectAnswer rest (mkFAQ (faq_Question faq) (faq_Answer faq) (faq_Aliases faq ++ values) (faq_Category faq)) answerParts
      | None =>
        match metadataValues line ["category:"; "分类:"]%string with
        | Some values =>
          collectAnswer rest (mkFAQ (faq_Question faq) (faq_Answer faq) (faq_Aliases faq) (match values with v :: _ => v | [] => faq_Category faq end)) answerParts
        | None => collectAnswer rest faq (answerParts ++ [trimPrefixes line ["A:"; "答:"]%string])
        end
      end
  end.

(** Every round takes a line at least. *)
Fixpoint parseLines (fuel : nat) (lines : list string) : list FAQ :=
  match fuel, lines with
  | S fuel, raw :: rest =>
    let question := TrimSpace raw in
    if negb (IsQuestionLine question) then parseLines fuel rest
    else
      let '(faq, answerParts, after) := collectAnswer rest (mkFAQ (trimPrefixes question ["Q:"; "问:"]%string) "" [] "") [] in
      if negb (faq_Question faq =? "")%string && bool_decide (answerParts ≠ []) then
        mkFAQ (faq_Question faq) (TrimSpace (Join answerParts nl)) (faq_Aliases faq) (faq_Category faq) :: parseLines fuel after
      else parseLines fuel after
  | _, _ => []
  end.
Definition ParseFAQs (text : string) : list FAQ := let lines := Split text newline in parseLines (length lines) lines.

Definition faqMetadata (faq : FAQ) : metadata :=
  let base : metadata := list_to_map [("faq_question", AnyString (faq_Question faq)); ("faq_answer", AnyString (faq_Answer faq));
    ("faq_aliases", AnyStrings (faq_Aliases faq)); ("chunk_hint", AnyString "single_faq"); ("block_type", AnyString "faq"); ("parser_version", AnyString "faq_v1")]%string in
  if (faq_Category faq =? "")%string then base else <["faq_category"%string := AnyString (faq_Category faq)]> base.

Definition faqBlocks (text : string) : list DocumentBlock :=
  imap (λ i faq, mkBlock ("faq" ++ Itoa (Z.of_nat i + 1)) "faq" (faq_Question faq ++ nl ++ faq_Answer faq) None None (faqMetadata faq)) (ParseFAQs text).

(** ** Text files *)

Definition trimHashes (s : string) : string := of_bytes (drop_while (Ascii.eqb "#"%char) (bytes s)).

(** The blocks so far and the paragraph being read. *)
Definition flushParagraph (st : list DocumentBlock * string) : list DocumentBlock * string :=
  let content := TrimSpace st.2 in
  if (content =? "")%string then (st.1, ""%string)
  else (st.1 ++ [mkBlock ("b" ++ Itoa (zlen st.1 + 1)) "paragraph" content None None ∅], ""%string).

Definition addLine (st : list DocumentBlock * string) (line : string) : list DocumentBlock * string :=
  let trimmed := TrimSpace line in
  if (trimmed =? "")%string then flushParagraph st
  else if HasPrefix trimmed "#" then
    let blocks := (flushParagraph st).1 in
    (blocks ++ [mkBlock ("b" ++ Itoa (zlen blocks + 1)) "heading" trimmed None None {["title"%string := AnyString (TrimSpace (trimHashes trimmed))]}], ""%string)
  else (st.1, if (st.2 =? "")%string then line else (st.2 ++ nl ++ line)%string).

Definition textBlocks (text : string) : list DocumentBlock :=
  match faqBlocks text with
  | [] => (flushParagraph (foldl addLine ([], ""%string) (Split text newline))).1
  | blocks => blocks
  end.

(** [filepath.Ext]: from the last dot of the last element of the path. *)
Fixpoint ext_of (cur : list ascii) (reversed : list ascii) : string :=
  match reversed with
  | [] => ""
  | c :: rest => if Ascii.eqb c "/"%char then "" else if Ascii.eqb c "."%char then of_bytes (c :: cur) else ext_of (c :: cur) rest
  end.
Definition Ext (path : string) : string := ext_of [] (reverse (bytes path)).

Definition normalizeFileType (ext : string) : string := if (ext =? "markdown")%string then "md" else ext.

Inductive ParseErr :=
| PErrContext (e : string)
| PErrUnsupported (ext : string)
| PErrRead (e : string)
| PErrNoOCR
| PErrOCR (e : string).

(** The byte order mark U+FEFF. *)
Definition bom : string := of_runes [65279].

(** [ctx] is the error of a context that is done; [data] what the reader gives. *)
Definition TextParse (ctx : option string) (filename : string) (data : result string string) : result ParseErr ParsedDocument :=
  match ctx with
  | Some e => Err (PErrContext e)
  | None =>
    let ext := TrimPrefix (ToLower (Ext filename)) "." in
    if negb (bool_decide (ext ∈ ["txt"; "md"; "markdown"]%string)) then Err (PErrUnsupported ext)
    else
      match data with
      | Err e => Err (PErrRead e)
      | Ok data => let text := TrimPrefix data bom in Ok (mkDocument text (normalizeFileType ext) (textBlocks text))
      end
  end.

(** ** Images *)

Definition markOCR (block : DocumentBlock) : DocumentBlock :=
  let m := <["block_type"%string := AnyString (block_Type block)]> (<["parser_version"%string := AnyString "ocr_v1"]> (<["parser"%string := AnyString "ocr"]> (block_Metadata block))) in
  let m := match block_PageNo block with Some n => <["page_no"%string := AnyInt n]> m | None => m end in
  let m := match block_BBox block with Some b => <["bbox"%string := AnyBox b]> m | None => m end in
  mkBlock (block_ID block) (block_Type block) (block_Text block) (block_PageNo block) (block_BBox block) m.

(** [client] is the answer of the OCR service, when one is configured. *)
Definition OCRParse (client : option (result string (list DocumentBlock))) (filename : string) : result ParseErr ParsedDocument :=
  match client with
  | None => Err PErrNoOCR
  | Some (Err e) => Err (PErrOCR e)
  | Some (Ok blocks) =>
    let blocks := markOCR <$> blocks in
    Ok (mkDocument (Join (filter (λ t, TrimSpace t ≠ ""%string) (block_Text <$> blocks)) nl) (normalizeFileType (TrimPrefix (Ext filename) ".")) blocks)
  end.

(** ** The registry *)

Definition registryKey (ext : string) : string := TrimPrefix (ToLower (TrimSpace ext)) ".".
Definition RegisterParser {P} (items : gmap string P) (ext : string) (parser : P) : gmap string P :=
  if (registryKey ext =? "")%string then items else <[registryKey ext := parser]> items.

Definition RegistryParse {P} (run : P → string → result ParseErr ParsedDocument) (items : gmap string P) (filename : string) : result ParseErr ParsedDocument :=
  let ext := TrimPrefix (ToLower (Ext filename)) "." in
  if (ext =? "")%string then Err (PErrUnsupported ext)
  else match items !! ext with None => Err (PErrUnsupported ext) | Some item => run item filename end.
End Parser.
(** ** Where runes begin *)

(** The string begins a rune: it is empty or its first byte is no continuation byte. *)
Definition begins (l : list ascii) : Prop := ∀ c, head l = Some c → is_cont c = false.

Lemma decode_begins l t : l ≠ [] → begins t → decode_rune (l ++ t) = decode_rune l.
Proof.
  intros Hl Ht. destruct t as [|c t]; [by rewrite app_nil_r|]. specialize (Ht c eq_refl). unfold is_cont in Ht.
  destruct l as [|a [|b [|d [|e l]]]]; [done| | | |]; simpl; unfold decode_rune, is_cont in *;
    repeat (case_match; simplify_eq/=; try done); bool_prop; try done;
    unfold in_range in *; bool_prop; repeat case_match; bool_prop; destruct_or?; bool_prop; lia.
Qed.

Lemma decoded_app l k segs segs' : begins k → decoded l segs → decoded k segs' → decoded (l ++ k) (segs ++ segs').
Proof.
  intros Hk Hl Hd. induction Hl as [|r bs rest segs Hne Hdec Hl IH]; [done|]. rewrite <- (assoc_L (++)). simpl. constructor; [done| |done].
  rewrite (assoc_L (++)), decode_begins; [done|by destruct bs|done].
Qed.

Lemma segments_app s t : begins (bytes t) → segments (s ++ t)%string = segments s ++ segments t.
Proof.
  intros Ht. unfold segments at 1. rewrite bytes_app. apply decoded_det; [|done].
  apply decoded_app; [done|by apply segments_decoded..].
Qed.
Lemma runes_begins s t : begins (bytes t) → runes (s ++ t)%string = runes s ++ runes t.
Proof. intros Ht. unfold runes. by rewrite segments_app, fmap_app. Qed.

(** ** The ink of a text *)

(** The runes of a text that are no white space. *)
Definition ink (s : string) : list Z := filter (λ r, is_space r = false) (runes s).

Lemma filter_drop_while l : filter (λ r, is_space r = false) (drop_while is_space l) = filter (λ r, is_space r = false) l.
Proof. induction l as [|r l IH]; [done|]. cbn [drop_while]. destruct (is_space r) eqn:E; [|done]. rewrite filter_cons_False by (by rewrite E). done. Qed.
Lemma fmap_drop_while {A} (l : list (Z * A)) : (drop_while (λ p, is_space p.1) l).*1 = drop_while is_space l.*1.
Proof. induction l as [|[r a] l IH]; [done|]. cbn. by destruct (is_space r). Qed.
Lemma runes_TrimSpace s : runes (TrimSpace s) = trim_by is_space (runes s).
Proof. unfold runes. rewrite segments_TrimSpace. unfold trim_by. by rewrite fmap_reverse, fmap_drop_while, fmap_reverse, fmap_drop_while. Qed.

Lemma ink_TrimSpace s : ink (TrimSpace s) = ink s.
Proof.
  unfold ink. rewrite runes_TrimSpace. unfold trim_by.
  rewrite filter_reverse, filter_drop_while, filter_reverse, filter_drop_while. apply reverse_involutive.
Qed.

Lemma ink_empty s : TrimSpace s = ""%string → ink s = [].
Proof. intros E. by rewrite <- ink_TrimSpace, E. Qed.

(** A separator: a valid text that begins a rune. *)
Definition separator (s : string) : Prop := valid_utf8 s ∧ begins (bytes s) ∧ s ≠ ""%string.

Lemma runes_separated a sep b : separator sep → runes (a ++ sep ++ b)%string = runes a ++ runes sep ++ runes b.
Proof.
  intros (Hv & Hb & Hne). rewrite runes_begins, runes_app; [done..|]. rewrite bytes_app.
  destruct sep; [done|]. intros c Hc. by apply Hb.
Qed.

Lemma separator_decide s : bool_decide (of_runes (runes s) = s) && bool_decide (s ≠ ""%string) && match bytes s with c :: _ => negb (is_cont c) | [] => true end = true → separator s.
Proof. intros ?. bool_prop. split_and!; [done| |done]. intros c Hc. destruct (bytes s); simplify_eq/=. by bool_prop. Qed.
Lemma separator_nl : separator nl.
Proof. apply separator_decide. vm_compute. reflexivity. Qed.

Lemma ink_line a b : ink (a ++ nl ++ b)%string = ink a ++ ink b.
Proof. unfold ink. rewrite (runes_separated a nl b separator_nl), !filter_app. done. Qed.

Lemma ink_Join lines : ink (Join lines nl) = lines ≫= ink.
Proof.
  induction lines as [|l [|l' lines] IH]; [done| |].
  - cbn. by rewrite app_nil_r.
  - change (Join (l :: l' :: lines) nl) with (l ++ nl ++ Join (l' :: lines) nl)%string. rewrite ink_line, IH. done.
Qed.

Lemma Join_Split_lines s : Join (Split s newline) nl = s.
Proof. apply bytes_inj. by rewrite bytes_Join, Split_bytes, join_split. Qed.

Lemma ink_Split s : Split s newline ≫= ink = ink s.
Proof. by rewrite <- ink_Join, Join_Split_lines. Qed.

(** ** Text files keep their text *)

Section TextBlocks.
Context `{UnicodeTables}.

Definition blockInk (blocks : list DocumentBlock) : list Z := blocks ≫= λ b, ink (block_Text b).
Definition stateInk (st : list DocumentBlock * string) : list Z := blockInk st.1 ++ ink st.2.

(** Blocks are numbered from 1, and their texts are trimmed and not empty. *)
Definition orderly (blocks : list DocumentBlock) : Prop :=
  block_ID <$> blocks = imap (λ i _, ("b" ++ Itoa (Z.of_nat i + 1))%string) blocks ∧ Forall (λ b, TrimSpace (block_Text b) = block_Text b ∧ block_Text b ≠ ""%string) blocks.

Lemma orderly_snoc blocks t text m : orderly blocks → TrimSpace text = text → text ≠ ""%string →
  orderly (blocks ++ [mkBlock ("b" ++ Itoa (zlen blocks + 1)) t text None None m]).
Proof.
  intros [Hi Hf] Ht Hne. split.
  - rewrite fmap_app, imap_app, Hi. cbn. unfold zlen. by rewrite Nat.add_0_r.
  - apply Forall_app. by repeat constructor.
Qed.

Lemma flushParagraph_ok st : orderly st.1 → orderly (flushParagraph st).1 ∧ blockInk (flushParagraph st).1 = stateInk st ∧ (flushParagraph st).2 = ""%string.
Proof.
  intros Ho. unfold flushParagraph. case_match eqn:E; bool_prop; cbn.
  - split_and!; [done| |done]. unfold stateInk. by rewrite (ink_empty _ E), app_nil_r.
  - split_and!; [by apply orderly_snoc; [|apply TrimSpace_idem|]| |done]. unfold stateInk, blockInk.
    rewrite bind_app. cbn. by rewrite ink_TrimSpace, app_nil_r.
Qed.

Lemma addLine_ok st line : orderly st.1 → orderly (addLine st line).1 ∧ stateInk (addLine st line) = stateInk st ++ ink line.
Proof.
  intros Ho. destruct (flushParagraph_ok st Ho) as (Hfo & Hfi & Hfe). unfold addLine. case_match eqn:E; bool_prop.
  { split; [done|]. unfold stateInk at 1. rewrite Hfi, Hfe, (ink_empty _ E). done. }
  case_match; cbn.
  - split; [by apply orderly_snoc; [|apply TrimSpace_idem|]|]. unfold stateInk at 1, blockInk. cbn. rewrite bind_app. fold (blockInk (flushParagraph st).1).
    rewrite Hfi. cbn. by rewrite ink_TrimSpace, !app_nil_r.
  - split; [done|]. unfold stateInk. cbn. case_match eqn:E'; bool_prop.
    + by rewrite E', app_nil_r.
    + by rewrite ink_line, (assoc_L (++)).
Qed.

Lemma addLines_ok lines st : orderly st.1 → orderly (foldl addLine st lines).1 ∧ stateInk (foldl addLine st lines) = stateInk st ++ (lines ≫= ink).
Proof.
  revert st. induction lines as [|line lines IH]; intros st Ho; cbn; [by rewrite app_nil_r|].
  destruct (addLine_ok st line Ho) as [Ho' Hi']. destruct (IH _ Ho') as [Ho'' Hi'']. split; [done|]. by rewrite Hi'', Hi', <- (assoc_L (++)).
Qed.

(** A text without questions is parsed without loss: the blocks, numbered from 1, hold
    its runes other than white space, in order and once each; their texts are trimmed and
    not empty. *)
Theorem text_blocks_complete (text : string) : ParseFAQs text = [] →
  blockInk (textBlocks text) = ink text ∧ orderly (textBlocks text).
Proof.
  intros Hq. unfold textBlocks, faqBlocks. rewrite Hq. cbn [imap].
  destruct (addLines_ok (Split text newline) ([], ""%string)) as [Ho Hi]; [by split; [|constructor]|].
  destruct (flushParagraph_ok _ Ho) as (Hfo & Hfi & _). split; [|done]. rewrite Hfi, Hi. cbn. apply ink_Split.
Qed.
End TextBlocks.

Definition sampleText : string := ("# Guide" ++ nl ++ "Install it. " ++ nl ++ "Run it." ++ nl ++ nl ++ "Done.")%string.

Lemma text_blocks_complete_witness :
  block_Text <$> @textBlocks AsciiTables sampleText = ["# Guide"; "Install it. " ++ nl ++ "Run it."; "Done."]%string ∧
  blockInk (@textBlocks AsciiTables sampleText) = ink sampleText ∧ orderly (@textBlocks AsciiTables sampleText).
Proof. split; [vm_compute; reflexivity|]. apply (@text_blocks_complete AsciiTables sampleText). vm_compute. reflexivity. Defined.

(** One line that ends in a question mark makes a text a list of questions: everything but
    the questions and what follows them is dropped. *)
Theorem question_hides_document :
  block_Text <$> @textBlocks AsciiTables ("Install it first." ++ nl ++ nl ++ "What then?" ++ nl ++ "Run it." ++ nl ++ nl ++ "Never delete the data.")%string
  = [("What then?" ++ nl ++ "Run it.")%string].
Proof. vm_compute. reflexivity. Qed.
