(* ===== verification/Chunker.v ===== *)
(** Chunking of parsed documents (internal/infrastructure/chunker): the tokenizer
    (tokenizer.go), the fixed token chunker (fixed_token_chunker.go), the recursive chunker
    (recursive_chunker.go), the registry (types.go) and the comparison of a shadow chunker
    (shadow.go).

    A tokenizer is an interface of the source: the class [Tokenizer], with the laws that the
    theorems need in [TokenizerLaws]. *)
From Stdlib Require Import Ascii.
From S2P Require Import Prelude GoStr Json Stream Fuzzy Documents.
Open Scope Z_scope.

(** ** Data *)

Record Chunk := mkChunk {
  chunk_Index : Z;
  chunk_Content : string;
  chunk_TokenCount : Z;
  chunk_CharCount : Z;
  chunk_SectionTitle : string;
  chunk_PageNumber : option Z;
  chunk_Metadata : metadata
}.

Record Policy := mkPolicy { ChunkSize : Z; Overlap : Z }.

Class Tokenizer := { tokenizerName : string; Count : string → Z }.

Definition MethodFixedToken : string := "fixed_token".
Definition MethodRecursive : string := "recursive".

(** Four ASCII characters are a token, and every other rune is one. *)
Definition estimate (rs : list Z) : Z :=
  match rs with
  | [] => 0
  | _ =>
    let ascii := zlen (filter (λ r, r ≤ 127) rs) in
    let nonASCII := zlen (filter (λ r, ¬ r ≤ 127) rs) in
    let estimate := nonASCII + ascii `quot` 4 in
    let estimate := if ascii `rem` 4 =? 0 then estimate else estimate + 1 in
    if estimate =? 0 then 1 else estimate
  end.
Definition EstimatedTokenizer : Tokenizer := {| tokenizerName := "estimated"; Count text := estimate (runes text) |}.

(** The policy that both chunkers use. *)
Definition chunkSizeOf (policy : Policy) : Z := if ChunkSize policy <=? 0 then 800 else ChunkSize policy.
Definition overlapOf (policy : Policy) : Z :=
  let size := chunkSizeOf policy in
  let overlap := if Overlap policy <? 0 then 0 else Overlap policy in
  if size <=? overlap then size `quot` 4 else overlap.

Fixpoint firstTitle (lines : list string) : string :=
  match lines with
  | [] => ""
  | line :: rest =>
    let line := TrimSpace line in
    if HasPrefix line "#" then
      let title := TrimSpace (trimHashes line) in
      if (title =? "")%string then firstTitle rest else title
    else firstTitle rest
  end.
Definition inferSectionTitle (content : string) : string := firstTitle (Split content newline).

(** [runes[start:stop]]. *)
Definition window (rs : list Z) (start stop : nat) : list Z := take (stop - start) (drop start rs).
Definition trimmed (rs : list Z) (start stop : nat) : string := TrimSpace (of_runes (window rs start stop)).

Section Chunkers.
Context `{Tokenizer}.

(** ** The fixed token chunker *)

Fixpoint budgetLoop (fuel : nat) (rs : list Z) (start : nat) (budget : Z) (stop lastValidEnd : nat) : nat :=
  match fuel with
  | O => lastValidEnd
  | S fuel =>
    if (stop <? length rs)%nat then
      let candidate := trimmed rs start (S stop) in
      if (candidate =? "")%string then budgetLoop fuel rs start budget (S stop) lastValidEnd
      else if budget <? Count candidate then lastValidEnd
      else budgetLoop fuel rs start budget (S stop) (S stop)
    else lastValidEnd
  end.
Definition tokenBudgetEnd (rs : list Z) (start : nat) (budget : Z) : nat :=
  let lastValidEnd := budgetLoop (length rs - start) rs start budget start start in
  if (lastValidEnd =? start)%nat then S start else lastValidEnd.

(** [n] positions from [start] are left to look at. *)
Fixpoint overlapLoop (n : nat) (rs : list Z) (start stop : nat) (overlap : Z) : nat :=
  match n with
  | O => start
  | S n =>
    let i := (start + n)%nat in
    let candidate := trimmed rs i stop in
    if (candidate =? "")%string then overlapLoop n rs start stop overlap
    else if overlap <? Count candidate then S i
    else overlapLoop n rs start stop overlap
  end.
Definition tokenOverlapStart (rs : list Z) (start stop : nat) (overlap : Z) : nat :=
  if overlap <=? 0 then stop else overlapLoop (stop - start) rs start stop overlap.

Definition fixedChunk (index : Z) (content : string) : Chunk :=
  mkChunk index content (Count content) (rune_count content) (inferSectionTitle content) None
    (list_to_map [("chunk_method", AnyString MethodFixedToken); ("tokenizer", AnyString tokenizerName)]%string).

(** Every round starts further on. *)
Fixpoint fixedLoop (fuel : nat) (rs : list Z) (chunkSize overlap : Z) (start : nat) (chunks : list Chunk) : list Chunk :=
  match fuel with
  | O => chunks
  | S fuel =>
    if (start <? length rs)%nat then
      let stop := tokenBudgetEnd rs start chunkSize in
      let content := trimmed rs start stop in
      let chunks := if (content =? "")%string then chunks else chunks ++ [fixedChunk (zlen chunks) content] in
      if (stop =? length rs)%nat then chunks
      else
        let nextStart := tokenOverlapStart rs start stop overlap in
        let nextStart := if (nextStart <=? start)%nat then stop else nextStart in
        fixedLoop fuel rs chunkSize overlap nextStart chunks
    else chunks
  end.

Definition FixedChunk (text : string) (policy : Policy) : list Chunk :=
  let rs := runes (TrimSpace text) in fixedLoop (length rs) rs (chunkSizeOf policy) (overlapOf policy) 0 [].

(** ** The recursive chunker *)

Record chunkSegment := mkSegment {
  seg_text : string;
  seg_sectionTitle : string;
  seg_pageNo : option Z;
  seg_blockID : string;
  seg_metadata : metadata;
  seg_singleChunk : bool
}.

Record segmentBuffer := mkBuffer {
  buf_content : string;
  buf_sectionTitle : string;
  buf_pageNo : option Z;
  buf_blockIDs : list string;
  buf_metadata : metadata
}.
Definition emptyBuffer : segmentBuffer := mkBuffer "" "" None [] ∅.

Definition separators : list string := [(nl ++ nl)%string; nl; "。"; "！"; "？"; ". "; "! "; "? "; "；"; ";"; "，"; ","; " "]%string.

Definition shouldKeepSingleChunk (block : DocumentBlock) : bool :=
  match block_Metadata block !! "chunk_hint"%string with
  | Some (AnyString hint) => (hint =? "single_faq")%string
  | _ => false
  end || bool_decide (block_Type block ∈ ["faq"; "table"; "list"; "caption"]%string).

(** The title of the section so far, and the segments. *)
Fixpoint blockSegments (sectionTitle : string) (blocks : list DocumentBlock) : list chunkSegment :=
  match blocks with
  | [] => []
  | block :: rest =>
    let text := TrimSpace (block_Text block) in
    if (text =? "")%string then blockSegments sectionTitle rest
    else if (block_Type block =? "scrap")%string then blockSegments sectionTitle rest
    else if (block_Type block =? "heading")%string then blockSegments (TrimSpace (trimHashes text)) rest
    else
      mkSegment text sectionTitle (block_PageNo block) (block_ID block) (block_Metadata block) (shouldKeepSingleChunk block)
        :: blockSegments sectionTitle rest
  end.

Definition documentSegments (doc : ParsedDocument) : list chunkSegment :=
  match doc_Blocks doc with
  | [] =>
    let text := TrimSpace (doc_Text doc) in
    if (text =? "")%string then [] else [mkSegment text (inferSectionTitle text) None "" ∅ false]
  | blocks => blockSegments "" blocks
  end.

(** [strings.Split] with a separator that is not empty: one piece per occurrence at most. *)
Fixpoint splitOn (fuel : nat) (s sep : string) : list string :=
  match fuel with
  | O => [s]
  | S fuel =>
    match Index s sep with
    | None => [s]
    | Some m => str_take m s :: splitOn fuel (str_drop (m + String.length sep) s) sep
    end
  end.
Definition SplitString (s sep : string) : list string := splitOn (String.length s) s sep.

(** [last]: the part is the last one. *)
Fixpoint keepSeparators (sep : string) (parts : list string) : list string :=
  match parts with
  | [] => []
  | part :: rest =>
    if (TrimSpace part =? "")%string then keepSeparators sep rest
    else
      let blank := (sep =? nl ++ nl)%string || (sep =? nl)%string || (sep =? " ")%string in
      (if bool_decide (rest ≠ []) && negb blank then (part ++ sep)%string else part) :: keepSeparators sep rest
  end.
Definition splitKeepSeparator (text sep : string) : list string :=
  if (sep =? "")%string || negb (Contains text sep) then [text] else keepSeparators sep (SplitString text sep).

(** The longest start of the runes within the budget, one rune at least: [stop - 1] runes fit. *)
Fixpoint runeBudget (fuel : nat) (rs : list Z) (budget : Z) (last stop : nat) : nat :=
  match fuel with
  | O => last
  | S fuel =>
    if (stop <=? length rs)%nat then
      if budget <? Count (of_runes (take stop rs)) then last else runeBudget fuel rs budget stop (S stop)
    else last
  end.
Fixpoint splitRunes (fuel : nat) (rs : list Z) (budget : Z) : list string :=
  match fuel, rs with
  | S fuel, _ :: _ =>
    let last := runeBudget (length rs) rs budget 1 1 in
    TrimSpace (of_runes (take last rs)) :: splitRunes fuel (drop last rs) budget
  | _, _ => []
  end.
Definition splitByRuneBudget (text : string) (budget : Z) : list string := let rs := runes text in splitRunes (length rs) rs budget.

(** The pieces and the buffer; [split] cuts a part that is too long. *)
Definition mergePart (split : string → list string) (budget : Z) (st : list string * string) (part : string) : list string * string :=
  let '(merged, buffer) := st in
  let part := TrimSpace part in
  if (part =? "")%string then st
  else if budget <? Count part then
    let '(merged, buffer) := if (TrimSpace buffer =? "")%string then (merged, buffer) else (merged ++ [TrimSpace buffer], ""%string) in
    (merged ++ split part, buffer)
  else
    let candidate := if (buffer =? "")%string then part else (buffer ++ " " ++ part)%string in
    if budget <? Count candidate then (merged ++ [TrimSpace buffer], part) else (merged, candidate).
Definition mergePieces (split : string → list string) (budget : Z) (parts : list string) : list string :=
  let '(merged, buffer) := foldl (mergePart split budget) ([], ""%string) parts in
  if (TrimSpace buffer =? "")%string then merged else merged ++ [TrimSpace buffer].

Fixpoint splitRecursive (separators : list string) (budget : Z) (text : string) : list string :=
  let text := TrimSpace text in
  if (text =? "")%string then []
  else if Count text <=? budget then [text]
  else
    match separators with
    | [] => splitByRuneBudget text budget
    | sep :: rest =>
      let parts := splitKeepSeparator text sep in
      if (length parts <=? 1)%nat then splitRecursive rest budget text
      else mergePieces (splitRecursive rest budget) budget parts
    end.

(** [start] runs down while the tail fits. *)
Fixpoint tailStart (start : nat) (rs : list Z) (overlap : Z) : nat :=
  match start with
  | O => O
  | S before => if Count (of_runes (drop before rs)) <=? overlap then tailStart before rs overlap else start
  end.
Definition overlapBuffer (content : string) (overlap : Z) (sectionTitle : string) (pageNo : option Z) : segmentBuffer :=
  if overlap <=? 0 then mkBuffer "" sectionTitle pageNo [] ∅
  else
    let rs := runes content in
    let start := tailStart (length rs) rs overlap in
    if (start <? length rs)%nat then mkBuffer (TrimSpace (of_runes (drop start rs))) sectionTitle pageNo [] ∅
    else mkBuffer "" sectionTitle pageNo [] ∅.

(** The keys of [extra] win over the fixed ones, the page number over both. *)
Definition chunkMetadata (method tokenizer : string) (blockIDs : list string) (extra : metadata) (pageNo : option Z) : metadata :=
  let base : metadata := list_to_map [("chunk_method", AnyString method); ("tokenizer", AnyString tokenizer); ("block_ids", AnyStrings blockIDs)]%string in
  let m := extra ∪ base in
  match pageNo with Some n => <["page_no"%string := AnyInt n]> m | None => m end.
Definition mergeMetadata (current next : metadata) : metadata := current ∪ next.

Definition recursiveChunk (index : Z) (content sectionTitle : string) (pageNo : option Z) (blockIDs : list string) (extra : metadata) : Chunk :=
  mkChunk index content (Count content) (rune_count content) sectionTitle pageNo (chunkMetadata MethodRecursive tokenizerName blockIDs extra pageNo).

Notation chunking := (list Chunk * segmentBuffer)%type.

Definition flush (overlap : Z) (st : chunking) : chunking :=
  let '(chunks, buffer) := st in
  let content := TrimSpace (buf_content buffer) in
  if (content =? "")%string then (chunks, emptyBuffer)
  else
    (chunks ++ [recursiveChunk (zlen chunks) content (buf_sectionTitle buffer) (buf_pageNo buffer) (buf_blockIDs buffer) (buf_metadata buffer)],
     overlapBuffer content overlap (buf_sectionTitle buffer) (buf_pageNo buffer)).

Definition addPiece (size overlap : Z) (segment : chunkSegment) (st : chunking) (piece : string) : chunking :=
  let piece := TrimSpace piece in
  if (piece =? "")%string then st
  else
    let '(chunks, buffer) := st in
    let current := TrimSpace (buf_content buffer) in
    let candidate := if (current =? "")%string then piece else (current ++ (nl ++ nl) ++ piece)%string in
    let '(chunks, buffer) :=
      if negb (buf_content buffer =? "")%string && (size <? Count candidate) then
        let '(chunks, buffer) := flush overlap (chunks, buffer) in
        if negb (buf_content buffer =? "")%string && (size <? Count (buf_content buffer ++ (nl ++ nl) ++ piece)%string)
        then (chunks, mkBuffer "" (buf_sectionTitle buffer) (buf_pageNo buffer) [] ∅) else (chunks, buffer)
      else (chunks, buffer) in
    (chunks, mkBuffer
      (if (buf_content buffer =? "")%string then piece else (buf_content buffer ++ (nl ++ nl) ++ piece)%string)
      (if (seg_sectionTitle segment =? "")%string then buf_sectionTitle buffer else seg_sectionTitle segment)
      (match buf_pageNo buffer with None => seg_pageNo segment | Some n => Some n end)
      (if (seg_blockID segment =? "")%string then buf_blockIDs buffer else buf_blockIDs buffer ++ [seg_blockID segment])
      (mergeMetadata (buf_metadata buffer) (seg_metadata segment))).

Definition addSegment (size overlap : Z) (st : chunking) (segment : chunkSegment) : chunking :=
  if seg_singleChunk segment then
    let '(chunks, buffer) := flush overlap st in
    let content := TrimSpace (seg_text segment) in
    if (content =? "")%string then (chunks, buffer)
    else (chunks ++ [recursiveChunk (zlen chunks) content (seg_sectionTitle segment) (seg_pageNo segment) [seg_blockID segment] (seg_metadata segment)], buffer)
  else foldl (addPiece size overlap segment) st (splitRecursive separators size (seg_text segment)).

Definition chunkSegments (size overlap : Z) (segments : list chunkSegment) : list Chunk :=
  imap (λ i c, mkChunk (Z.of_nat i) (chunk_Content c) (chunk_TokenCount c) (chunk_CharCount c) (chunk_SectionTitle c) (chunk_PageNumber c) (chunk_Metadata c))
    (flush overlap (foldl (addSegment size overlap) ([], emptyBuffer) segments)).1.

Definition RecursiveChunkDocument (doc : ParsedDocument) (policy : Policy) : list Chunk :=
  chunkSegments (chunkSizeOf policy) (overlapOf policy) (documentSegments doc).

(** ** The registry *)

Inductive ChunkErr := CErrContext (e : string) | CErrMethod (method : string) | CErrNoPrimary.

(** [ctx] is the error of a context that is done. *)
Definition ChunkDocument (ctx : option string) (method : string) (doc : ParsedDocument) (policy : Policy) : result ChunkErr (list Chunk) :=
  match ctx with
  | Some e => Err (CErrContext e)
  | None => Ok (if (method =? MethodFixedToken)%string then FixedChunk (doc_Text doc) policy else RecursiveChunkDocument doc policy)
  end.

Definition RegisterChunker (items : gset string) (method : string) : gset string :=
  let method := TrimSpace method in if (method =? "")%string then items else {[method]} ∪ items.
Definition NewDefaultRegistry : gset string := RegisterChunker (RegisterChunker ∅ MethodFixedToken) MethodRecursive.

Definition SelectChunker (items : gset string) (method : string) : result ChunkErr string :=
  let method := TrimSpace method in
  let method := if (method =? "")%string then MethodFixedToken else method in
  if bool_decide (method ∈ items) then Ok method else Err (CErrMethod method).

Definition RegistryChunk (items : gset string) (ctx : option string) (method : string) (doc : ParsedDocument) (policy : Policy) : result ChunkErr (list Chunk) :=
  rbind (SelectChunker items method) (λ method, ChunkDocument ctx method doc policy).
End Chunkers.

(** ** The shadow chunker *)

Definition samePage (left right : option Z) : bool := bool_decide (left = right).

Definition sameChunk (p s : Chunk) : bool :=
  (chunk_Content p =? chunk_Content s)%string && (chunk_SectionTitle p =? chunk_SectionTitle s)%string && samePage (chunk_PageNumber p) (chunk_PageNumber s).

(** The longest end of [left] that begins [right]. *)
Fixpoint longestOverlap (size : nat) (left right : list Z) : nat :=
  match size with
  | O => O
  | S smaller => if bool_decide (drop (length left - size) left = take size right) then size else longestOverlap smaller left right
  end.
Fixpoint overlapCharacters (chunks : list Chunk) : Z :=
  match chunks with
  | a :: (b :: _) as rest =>
    let left := runes (chunk_Content a) in
    let right := runes (chunk_Content b) in
    Z.of_nat (longestOverlap (Nat.min (length left) (length right)) left right) + overlapCharacters rest
  | _ => 0
  end.

Definition metadataChunks (chunks : list Chunk) : Z := zlen (filter (λ c, chunk_Metadata c ≠ ∅) chunks).

(** The ratio of the boundaries is a pair of the matched chunks and the larger count. *)
Record ShadowMetrics := mkMetrics {
  shadow_chunks : Z;
  boundary_match : Z * Z;
  primary_token_count : Z;
  shadow_token_count : Z;
  primary_overlap_chars : Z;
  shadow_overlap_chars : Z;
  primary_metadata_chunks : Z;
  shadow_metadata_chunks : Z
}.
Definition compareChunks (primary shadow : list Chunk) : ShadowMetrics :=
  let matched := zlen (filter (λ ps, sameChunk ps.1 ps.2 = true) (zip primary shadow)) in
  let denominator := Z.max (zlen primary) (zlen shadow) in
  mkMetrics (zlen shadow) (if 0 <? denominator then (matched, denominator) else (1, 1))
    (sum_by chunk_TokenCount primary) (sum_by chunk_TokenCount shadow)
    (overlapCharacters primary) (overlapCharacters shadow) (metadataChunks primary) (metadataChunks shadow).

(** The primary result, and what is logged of the comparison. *)
Definition ShadowChunkDocument (primary : option (result ChunkErr (list Chunk))) (shadow : option (result ChunkErr (list Chunk))) :
    result ChunkErr (list Chunk) * option (result ChunkErr ShadowMetrics) :=
  match primary with
  | None => (Err CErrNoPrimary, None)
  | Some (Err e) => (Err e, None)
  | Some (Ok chunks) =>
    (Ok chunks, match shadow with None => None | Some (Err e) => Some (Err e) | Some (Ok other) => Some (Ok (compareChunks chunks other)) end)
  end.

(** ** Tokenizers *)

(** Trimming adds no tokens, and a rune is one token at most. *)
Class TokenizerLaws `{Tokenizer} : Prop := {
  Count_TrimSpace s : Count (TrimSpace s) ≤ Count s;
  Count_rune r : Count (of_runes [r]) ≤ 1
}.

Lemma estimate_eq rs : estimate rs = zlen (filter (λ r, ¬ r ≤ 127) rs) + (zlen (filter (λ r, r ≤ 127) rs) + 3) `div` 4.
Proof.
  unfold estimate. destruct rs as [|r rs']; [done|]. set (rs := r :: rs').
  assert (zlen (filter (λ r, r ≤ 127) rs) + zlen (filter (λ r, ¬ r ≤ 127) rs) = zlen rs) as Hl.
  { unfold zlen. rewrite <- Nat2Z.inj_add. f_equal. clear. induction rs as [|x l IH]; [done|]. rewrite !filter_cons. repeat case_decide; cbn; lia. }
  assert (0 < zlen rs) by (unfold zlen, rs; cbn; lia). set (a := zlen (filter (λ r, r ≤ 127) rs)) in *. set (n := zlen (filter (λ r, ¬ r ≤ 127) rs)) in *.
  assert (0 ≤ a) by (unfold a, zlen; lia). assert (0 ≤ n) by (unfold n, zlen; lia). cbv zeta.
  rewrite Z.quot_div_nonneg, Z.rem_mod_nonneg by lia. pose proof (Z.div_mod a 4). pose proof (Z.mod_pos_bound a 4). pose proof (Z.div_mod (a + 3) 4). pose proof (Z.mod_pos_bound (a + 3) 4).
  repeat (case_match; bool_prop); lia.
Qed.

Lemma zlen_app {A} (l k : list A) : zlen (l ++ k) = zlen l + zlen k.
Proof. unfold zlen. rewrite length_app. lia. Qed.

Lemma estimate_infix pre mid post : estimate mid ≤ estimate (pre ++ mid ++ post).
Proof.
  rewrite !estimate_eq, !filter_app, !zlen_app.
  assert (∀ l : list Z, 0 ≤ zlen l) as Hp by (intros l; unfold zlen; lia).
  set (m := zlen (filter (λ r, r ≤ 127) mid)). 
  pose proof (Hp (filter (λ r, r ≤ 127) pre)). pose proof (Hp (filter (λ r, r ≤ 127) post)).
  pose proof (Hp (filter (λ r, ¬ r ≤ 127) pre)). pose proof (Hp (filter (λ r, ¬ r ≤ 127) post)).
  assert ((m + 3) `div` 4 ≤ (zlen (filter (λ r, r ≤ 127) pre) + (m + zlen (filter (λ r, r ≤ 127) post)) + 3) `div` 4) by (apply Z.div_le_mono; lia). lia.
Qed.

#[export] Instance EstimatedTokenizer_laws : @TokenizerLaws EstimatedTokenizer.
Proof.
  split; cbn.
  - intros s. rewrite runes_TrimSpace. destruct (trim_by_infix is_space (runes s)) as (pre & post & E). rewrite E at 2. apply estimate_infix.
  - intros r. rewrite estimate_eq. assert (length (runes (of_runes [r])) = 1%nat) as Hl.
    { destruct (scalar r) eqn:E; [by rewrite runes_of_runes; [|repeat constructor]|].
      assert (of_runes [r] = of_runes [RuneError]) as ->; [|vm_compute; reflexivity]. unfold of_runes. cbn. do 2 f_equal. unfold encode_rune, scalar in *. by rewrite E. }
    destruct (runes _) as [|x [|]]; [done| |done]. rewrite !filter_cons, !filter_nil. repeat case_decide; try lia; cbn; done.
Qed.
(** ** Windows of runes *)

Notation scalars := (Forall (λ r, scalar r = true)).

Lemma TrimSpace_of_runes l : scalars l → TrimSpace (of_runes l) = of_runes (trim_by is_space l).
Proof.
  intros Hl. assert (segments (of_runes l) = (λ r, (r, encode_rune r)) <$> l) as E.
  { unfold segments, of_runes. rewrite bytes_of_bytes. by apply segments_encode. }
  assert (∀ k : list Z, drop_while (λ p, is_space p.1) ((λ r, (r, encode_rune r)) <$> k) = (λ r, (r, encode_rune r)) <$> drop_while is_space k) as Hd.
  { induction k as [|r k IH]; [done|]. cbn. by destruct (is_space r). }
  unfold TrimSpace. rewrite E. unfold trim_by, unsegment, of_runes.
  rewrite Hd, <- fmap_reverse, Hd, <- fmap_reverse, <- list_fmap_compose. done.
Qed.

Lemma of_runes_empty l : of_runes l = ""%string ↔ l = [].
Proof.
  split; [|by intros ->]. intros E. apply (f_equal bytes) in E. unfold of_runes in E. rewrite bytes_of_bytes in E.
  destruct l as [|r l]; [done|]. cbn in E. apply app_nil in E as [E _]. by apply encode_rune_nonempty in E.
Qed.

Lemma drop_while_nil l : drop_while is_space l = [] ↔ Forall (λ r, is_space r = true) l.
Proof.
  induction l as [|r l IH]; cbn; [by split; [constructor|]|]. destruct (is_space r) eqn:E; rewrite Forall_cons; [rewrite IH; by intuition|]. split; [done|]. intros [? _]. congruence.
Qed.
Lemma trim_nil l : trim_by is_space l = [] ↔ Forall (λ r, is_space r = true) l.
Proof.
  unfold trim_by. split.
  - intros E%(f_equal reverse). rewrite reverse_involutive in E. change (reverse []) with (@nil Z) in E. apply drop_while_nil in E. rewrite Forall_reverse in E.
    apply drop_while_nil. destruct (drop_while is_space l) as [|r l'] eqn:Hd; [done|]. apply drop_while_head in Hd. apply Forall_cons in E as [E _]. congruence.
  - intros E. apply drop_while_nil in E. by rewrite E.
Qed.
Lemma trim_one l r : Forall (λ r, is_space r = true) l → is_space r = false → trim_by is_space (l ++ [r]) = [r].
Proof.
  intros Hl Hr. unfold trim_by. assert (drop_while is_space (l ++ [r]) = [r]) as ->.
  { induction Hl as [|x l Hx Hl IH]; cbn; [by rewrite Hr|]. by rewrite Hx. }
  cbn. by rewrite Hr.
Qed.

Lemma window_scalars rs a b : scalars rs → scalars (window rs a b).
Proof. intros. unfold window. by apply Forall_take, Forall_drop. Qed.
Lemma trimmed_eq rs a b : scalars rs → trimmed rs a b = of_runes (trim_by is_space (window rs a b)).
Proof. intros. unfold trimmed. by rewrite TrimSpace_of_runes by (by apply window_scalars). Qed.
Lemma trimmed_empty rs a b : scalars rs → trimmed rs a b = ""%string ↔ Forall (λ r, is_space r = true) (window rs a b).
Proof. intros. by rewrite trimmed_eq, of_runes_empty, trim_nil. Qed.
Lemma window_snoc rs a b r : (a ≤ b)%nat → rs !! b = Some r → window rs a (S b) = window rs a b ++ [r].
Proof.
  intros Hab Hr. unfold window. replace (S b - a)%nat with (S (b - a)) by lia. rewrite (take_S_r _ _ r); [done|].
  rewrite lookup_drop. replace (a + (b - a))%nat with b by lia. done.
Qed.
Lemma window_last rs a : (a < length rs)%nat → last (window rs a (length rs)) = last rs.
Proof.
  intros Ha. unfold window. rewrite take_ge by (rewrite length_drop; lia). rewrite <- (take_drop a rs) at 2. rewrite last_app.
  destruct (last (drop a rs)) eqn:E; [done|]. apply last_None in E. apply (f_equal length) in E. rewrite length_drop in E. cbn in E. lia.
Qed.

Section FixedTheorems.
Context `{TokenizerLaws}.
Context (rs : list Z) (Hrs : scalars rs).

(** A window that holds text within the budget. *)
Definition fits (budget : Z) (start stop : nat) : Prop :=
  (start < stop ≤ length rs)%nat ∧ trimmed rs start stop ≠ ""%string ∧ Count (trimmed rs start stop) ≤ budget.

Lemma first_rune_fits budget start stop r : 1 ≤ budget → (start ≤ stop)%nat → rs !! stop = Some r →
  Forall (λ r, is_space r = true) (window rs start stop) → trimmed rs start (S stop) ≠ ""%string → Count (trimmed rs start (S stop)) ≤ budget.
Proof.
  intros Hb Hs Hr Hw Hne. rewrite trimmed_empty, (window_snoc _ _ _ _ Hs Hr) in Hne by done. rewrite trimmed_eq, (window_snoc _ _ _ _ Hs Hr) by done.
  destruct (is_space r) eqn:E; [destruct Hne; apply Forall_app; by repeat constructor|]. rewrite trim_one by done. pose proof (Count_rune r). lia.
Qed.

Lemma budgetLoop_spec budget start : 1 ≤ budget → ∀ fuel stop lastValidEnd,
  (start ≤ stop ≤ length rs)%nat → (length rs - stop ≤ fuel)%nat →
  (lastValidEnd = stop ∧ fits budget start stop) ∨ (lastValidEnd = start ∧ Forall (λ r, is_space r = true) (window rs start stop)) →
  let e := budgetLoop fuel rs start budget stop lastValidEnd in
  (e = start ∧ Forall (λ r, is_space r = true) (window rs start (length rs))) ∨
  (fits budget start e ∧ (e = length rs ∨ (e < length rs)%nat ∧ budget < Count (trimmed rs start (S e)))).
Proof.
  intros Hb. induction fuel as [|fuel IH]; intros stop lv Hs Hf Hinv; cbn [budgetLoop].
  { assert (stop = length rs) as -> by lia. destruct Hinv as [[-> Hv]|[-> Hw]]; [right; by split; [|left]|by left]. }
  destruct (Nat.ltb_spec stop (length rs)) as [Hlt|Hge].
  2: { assert (stop = length rs) as -> by lia. destruct Hinv as [[-> Hv]|[-> Hw]]; [right; by split; [|left]|by left]. }
  destruct (lookup_lt_is_Some_2 rs stop Hlt) as [r Hr]. pose proof (window_snoc rs start stop r ltac:(lia) Hr) as Ew.
  case_match eqn:Hc; [apply String.eqb_eq in Hc|apply String.eqb_neq in Hc].
  - apply IH; [lia|lia|]. rewrite trimmed_empty in Hc by done. right. split; [|done]. destruct Hinv as [[-> (Hv1 & Hv2 & _)]|[-> _]]; [|done].
    destruct Hv2. apply trimmed_empty; [done|]. rewrite Ew in Hc. by apply Forall_app in Hc as [? _].
  - case_match eqn:Hg; bool_prop.
    + right. destruct Hinv as [[-> Hv]|[-> Hw]]; [split; [done|by right]|].
      pose proof (first_rune_fits budget start stop r Hb ltac:(lia) Hr Hw Hc). lia.
    + apply IH; [lia|lia|]. left. split; [done|]. split_and!; [lia|lia|done|lia].
Qed.

Context (Htrim : ∀ r, last rs = Some r → is_space r = false).

Lemma tokenBudgetEnd_spec budget start : 1 ≤ budget → (start < length rs)%nat →
  let e := tokenBudgetEnd rs start budget in
  fits budget start e ∧ (e = length rs ∨ (e < length rs)%nat ∧ budget < Count (trimmed rs start (S e))).
Proof.
  intros Hb Hs. unfold tokenBudgetEnd. destruct (budgetLoop_spec budget start Hb (length rs - start) start start) as [[_ Hw]|Hok]; [lia|lia|..].
  - right. split; [done|]. unfold window. by rewrite Nat.sub_diag.
  - exfalso. pose proof (window_last rs start Hs) as Hl. destruct (last rs) as [r|] eqn:Hr; [|apply last_None in Hr; subst rs; cbn in Hs; lia].
    apply last_Some_elem_of in Hl. rewrite Forall_forall in Hw. specialize (Hw r Hl). by rewrite (Htrim r eq_refl) in Hw.
  - cbv zeta in *. destruct (Nat.eqb_spec (budgetLoop (length rs - start) rs start budget start start) start) as [E|]; [|done].
    rewrite E in Hok. destruct Hok as [[? _] _]. lia.
Qed.

(** What a window shares with the next: nothing to see, or a few tokens. *)
Definition shares (overlap : Z) (start stop : nat) : Prop := trimmed rs start stop = ""%string ∨ Count (trimmed rs start stop) ≤ overlap.

Lemma overlapLoop_spec overlap start stop n : (start + n ≤ stop)%nat → shares overlap (start + n) stop →
  let o := overlapLoop n rs start stop overlap in (start ≤ o ≤ stop)%nat ∧ shares overlap o stop.
Proof.
  induction n as [|n IH]; intros Hn Hsh; cbn [overlapLoop]; [rewrite Nat.add_0_r in *; split; [lia|done]|].
  case_match eqn:Hc; bool_prop; [apply IH; [lia|by left]|]. case_match; bool_prop.
  - split; [lia|]. by rewrite Nat.add_succ_r in Hsh.
  - apply IH; [lia|by right].
Qed.

Lemma tokenOverlapStart_spec overlap start stop : (start ≤ stop)%nat →
  let o := tokenOverlapStart rs start stop overlap in (start ≤ o ≤ stop)%nat ∧ shares overlap o stop.
Proof.
  intros Hs. assert (shares overlap stop stop) as Hz by (left; apply trimmed_empty; [done|]; unfold window; by rewrite Nat.sub_diag).
  unfold tokenOverlapStart. case_match; [split; [lia|done]|]. apply overlapLoop_spec; [lia|]. by replace (start + (stop - start))%nat with stop by lia.
Qed.

(** The windows from [start] on: each fits and cannot take one rune more; the next begins
    after it, not behind its end, and shares a few tokens with it; the last ends the text. *)
Inductive windows (size overlap : Z) : nat → list (nat * nat) → Prop :=
| windows_last start : fits size start (length rs) → windows size overlap start [(start, length rs)]
| windows_next start stop next ws : fits size start stop → (stop < length rs)%nat → size < Count (trimmed rs start (S stop)) →
    (start < next ≤ stop)%nat → shares overlap next stop → windows size overlap next ws → windows size overlap start ((start, stop) :: ws).

Lemma fixedLoop_windows size overlap : 1 ≤ size → ∀ fuel start chunks, (start < length rs)%nat → (length rs - start ≤ fuel)%nat →
  ∃ ws, windows size overlap start ws ∧
    fixedLoop fuel rs size overlap start chunks = chunks ++ imap (λ i w, fixedChunk (zlen chunks + Z.of_nat i) (trimmed rs w.1 w.2)) ws.
Proof.
  intros Hz. induction fuel as [|fuel IH]; intros start chunks Hs Hf; [lia|]. cbn [fixedLoop].
  destruct (Nat.ltb_spec start (length rs)) as [_|]; [|lia]. destruct (tokenBudgetEnd_spec size start Hz Hs) as [Hfit Hmax].
  set (e := tokenBudgetEnd rs start size) in *. destruct Hfit as (He & Hne & Hc) eqn:Hfit'. clear Hfit'. cbv zeta.
  rewrite (proj2 (String.eqb_neq _ _) Hne). destruct (Nat.eqb_spec e (length rs)) as [E|E].
  { exists [(start, length rs)]. rewrite E in *. split; [by constructor|]. cbn [imap fst snd]. by rewrite Z.add_0_r. }
  destruct Hmax as [?|[Hlt Hmax]]; [done|]. destruct (tokenOverlapStart_spec overlap start e ltac:(lia)) as [Hr Hsh].
  set (o := tokenOverlapStart rs start e overlap) in *. set (next := if (o <=? start)%nat then e else o).
  assert ((start < next ≤ e)%nat ∧ shares overlap next e) as [Hn Hsh'].
  { subst next. destruct (Nat.leb_spec o start); [|split; [lia|done]]. split; [lia|]. left. apply trimmed_empty; [done|]. unfold window. by rewrite Nat.sub_diag. }
  destruct (IH next (chunks ++ [fixedChunk (zlen chunks) (trimmed rs start e)])) as (ws & Hws & ->); [lia|lia|].
  exists ((start, e) :: ws). split; [by econstructor|]. rewrite <- (assoc_L (++)). f_equal. rewrite imap_cons. cbn [app fst snd]. f_equal; [by rewrite Z.add_0_r|].
  apply imap_ext. intros i w _. cbn [compose]. f_equal. rewrite zlen_app. change (zlen [_]) with 1. lia.
Qed.
End FixedTheorems.

Lemma chunkSizeOf_pos policy : 1 ≤ chunkSizeOf policy.
Proof. unfold chunkSizeOf. case_match; bool_prop; lia. Qed.

(** Fixed chunks cover the text: of a text that is not blank, the chunks are those of a
    sequence of windows from its first rune to its last without a gap; each chunk is
    within its budget of tokens and would exceed it with one rune more, and it shares no more
    tokens with the next than the overlap; chunks are numbered from 0. *)
Theorem fixed_chunks_cover `{TokenizerLaws} (text : string) (policy : Policy) : TrimSpace text ≠ ""%string →
  let rs := runes (TrimSpace text) in
  ∃ ws, windows rs (chunkSizeOf policy) (overlapOf policy) 0 ws ∧
    FixedChunk text policy = imap (λ i w, fixedChunk (Z.of_nat i) (trimmed rs w.1 w.2)) ws.
Proof.
  intros Hne rs. assert (rs ≠ []) as Hrs.
  { intros E. apply Hne. rewrite <- (unsegment_segments (TrimSpace text)). subst rs. unfold runes in E. apply fmap_nil_inv in E. by rewrite E. }
  destruct (fixedLoop_windows rs (runes_scalar _)) with (size := chunkSizeOf policy) (overlap := overlapOf policy) (fuel := length rs) (start := 0%nat) (chunks := @nil Chunk) as (ws & Hws & E).
  - intros r Hr. pose proof (proj1 (TrimSpace_id_iff (TrimSpace text)) (TrimSpace_idem text)) as Hi. apply Hi. by right.
  - apply chunkSizeOf_pos.
  - destruct rs; [done|cbn; lia].
  - lia.
  - exists ws. split; [done|]. unfold FixedChunk. fold rs. rewrite E. done.
Qed.

(** ** Splitting *)

(** The letters of a text: its runes but for white space and the separators. *)
Definition separatorRunes : list Z := [12290; 65281; 65311; 46; 33; 63; 65307; 59; 65292; 44].
Definition letter (r : Z) : bool := negb (is_space r) && negb (bool_decide (r ∈ separatorRunes)).
Definition lettersOf (rs : list Z) : list Z := filter (λ r, letter r = true) rs.
Definition letters (s : string) : list Z := lettersOf (runes s).

Lemma lettersOf_app l k : lettersOf (l ++ k) = lettersOf l ++ lettersOf k.
Proof. apply filter_app. Qed.
Lemma lettersOf_ink l : lettersOf (filter (λ r, is_space r = false) l) = lettersOf l.
Proof.
  unfold lettersOf. induction l as [|r l IH]; [done|]. rewrite !filter_cons. case_decide as E; [|case_decide as E'; [|done]].
  - rewrite filter_cons. by case_decide; rewrite IH.
  - unfold letter in E'. apply not_false_is_true in E. by rewrite E in E'.
Qed.
Lemma letters_ink s : letters s = lettersOf (ink s).
Proof. unfold letters, ink. by rewrite lettersOf_ink. Qed.
Lemma letters_TrimSpace s : letters (TrimSpace s) = letters s.
Proof. by rewrite !letters_ink, ink_TrimSpace. Qed.
Lemma letters_blank s : TrimSpace s = ""%string → letters s = [].
Proof. intros E. by rewrite letters_ink, ink_empty. Qed.

(** Separators that hold no letter. *)
Definition cuts (sep : string) : Prop := separator sep ∧ letters sep = [].

Lemma letters_cut a sep b : cuts sep → letters (a ++ sep ++ b)%string = letters a ++ letters b.
Proof. intros [Hs Hl]. unfold letters in *. rewrite runes_separated by done. by rewrite !lettersOf_app, Hl. Qed.
Lemma letters_end a sep : cuts sep → letters (a ++ sep)%string = letters a.
Proof. intros Hs. rewrite <- (str_app_nil sep), letters_cut by done. cbn. by rewrite app_nil_r. Qed.

Lemma separators_cut : Forall cuts separators.
Proof. repeat constructor; try (apply separator_decide; vm_compute; reflexivity); vm_compute; reflexivity. Qed.
Lemma space_cuts : cuts " ".
Proof. split; [apply separator_decide; vm_compute; reflexivity|vm_compute; reflexivity]. Qed.
Lemma blank_line_cuts : cuts (nl ++ nl).
Proof. split; [apply separator_decide; vm_compute; reflexivity|vm_compute; reflexivity]. Qed.

Lemma splitOn_letters fuel s sep : cuts sep → splitOn fuel s sep ≫= letters = letters s.
Proof.
  intros Hs. revert s. induction fuel as [|fuel IH]; intros s; cbn [splitOn]; [cbn; by rewrite app_nil_r|].
  destruct (Index s sep) as [m|] eqn:Hi; [|cbn; by rewrite app_nil_r]. apply Index_spec in Hi as (pre & post & -> & ->). cbn. rewrite IH.
  destruct (str_split_at pre (sep ++ post)%string) as [-> _]. rewrite letters_cut by done. do 2 f_equal.
  rewrite <- str_app_assoc, <- length_str_app. apply str_split_at.
Qed.

Lemma keepSeparators_letters sep parts : cuts sep → keepSeparators sep parts ≫= letters = parts ≫= letters.
Proof.
  intros Hs. induction parts as [|part rest IH]; [done|]. cbn [keepSeparators]. case_match eqn:E; bool_prop.
  - rewrite bind_cons, letters_blank by done. done.
  - rewrite !bind_cons, IH. f_equal. case_match; [by apply letters_end|done].
Qed.

Lemma splitKeepSeparator_letters text sep : cuts sep → splitKeepSeparator text sep ≫= letters = letters text.
Proof.
  intros Hs. unfold splitKeepSeparator. case_match; [cbn; by rewrite app_nil_r|]. unfold SplitString. by rewrite keepSeparators_letters, splitOn_letters.
Qed.

Section SplitTheorems.
Context `{TokenizerLaws}.

(** Pieces that hold the letters of a text, each within the budget. *)
Definition splits (budget : Z) (text : string) (pieces : list string) : Prop :=
  pieces ≫= letters = letters text ∧ Forall (λ p, Count p ≤ budget) pieces.

Lemma runeBudget_spec rs budget : 1 ≤ budget → ∀ fuel last stop, (1 ≤ last)%nat → (stop = last ∨ stop = S last)%nat →
  (last = 1%nat ∨ Count (of_runes (take last rs)) ≤ budget) →
  let e := runeBudget fuel rs budget last stop in (1 ≤ e)%nat ∧ (e = 1%nat ∨ Count (of_runes (take e rs)) ≤ budget).
Proof.
  intros Hb. induction fuel as [|fuel IH]; intros last stop Hl Hs Hc; cbn [runeBudget]; [done|]. case_match; [|done]. case_match; [done|]. bool_prop.
  apply IH; [lia|lia|by right].
Qed.

Lemma splitRunes_spec budget : 1 ≤ budget → ∀ fuel rs, scalars rs → (length rs ≤ fuel)%nat →
  splitRunes fuel rs budget ≫= letters = lettersOf rs ∧ Forall (λ p, Count p ≤ budget) (splitRunes fuel rs budget).
Proof.
  intros Hb. induction fuel as [|fuel IH]; intros rs Hs Hl; destruct rs as [|r rs]; try done; [cbn in Hl; lia|]. cbn [splitRunes].
  destruct (runeBudget_spec (r :: rs) budget Hb (length (r :: rs)) 1 1) as [He Hc]; [done|by left|by left|].
  set (e := runeBudget _ _ _ _ _) in *. destruct (IH (drop e (r :: rs))) as [IHl IHc]; [by apply Forall_drop|rewrite length_drop; cbn in *; lia|]. split.
  - rewrite bind_cons, IHl, letters_TrimSpace. unfold letters. rewrite runes_of_runes by (by apply Forall_take). rewrite <- lettersOf_app. by rewrite take_drop.
  - constructor; [|done]. etrans; [apply Count_TrimSpace|]. destruct Hc as [->|]; [|done]. cbn [take]. rewrite take_0. pose proof (Count_rune r). lia.
Qed.

Lemma splitByRuneBudget_spec budget text : 1 ≤ budget → splits budget text (splitByRuneBudget text budget).
Proof. intros Hb. apply splitRunes_spec; [done|apply runes_scalar|done]. Qed.

(** The pieces and the buffer so far hold the letters [ls]. *)
Definition merging (budget : Z) (st : list string * string) (ls : list Z) : Prop :=
  (st.1 ≫= letters) ++ letters st.2 = ls ∧ Forall (λ p, Count p ≤ budget) st.1 ∧ (st.2 = ""%string ∨ Count st.2 ≤ budget).

Lemma mergePart_spec split budget st ls part : (∀ t, splits budget t (split t)) → merging budget st ls →
  merging budget (mergePart split budget st part) (ls ++ letters part).
Proof.
  destruct st as [merged buffer]. intros Hsp (Hl & Hf & Hb). unfold mergePart. cbn [fst snd] in *. rewrite <- (letters_TrimSpace part). set (t := TrimSpace part).
  destruct (t =? "")%string eqn:Et; bool_prop; [rewrite Et; cbn; by rewrite app_nil_r|].
  assert (Count (TrimSpace buffer) ≤ budget ∨ buffer = ""%string) as Htb.
  { destruct Hb as [->|Hb]; [by right|left]. etrans; [apply Count_TrimSpace|done]. }
  destruct (budget <? Count t) eqn:Hc; bool_prop.
  - destruct (Hsp t) as [Hsl Hsf]. destruct (TrimSpace buffer =? "")%string eqn:Eb; bool_prop; split_and!; cbn [fst snd].
    + rewrite bind_app, Hsl, (letters_blank buffer Eb), app_nil_r, <- Hl, (letters_blank buffer Eb), app_nil_r. done.
    + by apply Forall_app.
    + done.
    + rewrite !bind_app, Hsl. cbn. by rewrite letters_TrimSpace, !app_nil_r, Hl.
    + repeat apply Forall_app_2; [done| |done]. repeat constructor. destruct Htb as [|E]; [done|]. by rewrite E in Eb.
    + by left.
  - destruct (buffer =? "")%string eqn:Eb; bool_prop.
    + subst buffer. destruct (budget <? Count t) eqn:Hc'; bool_prop; [lia|]. split_and!; cbn [fst snd]; [|done|by right].
      rewrite <- Hl. cbn. by rewrite app_nil_r.
    + destruct (budget <? Count _) eqn:Hc'; bool_prop; split_and!; cbn [fst snd].
      * rewrite bind_app. cbn. by rewrite letters_TrimSpace, app_nil_r, Hl.
      * apply Forall_app_2; [done|]. repeat constructor. by destruct Htb.
      * by right.
      * by rewrite (letters_cut _ _ _ space_cuts), (assoc_L (++)), Hl.
      * done.
      * by right.
Qed.

Lemma mergePieces_spec split budget parts : (∀ t, splits budget t (split t)) →
  mergePieces split budget parts ≫= letters = parts ≫= letters ∧ Forall (λ p, Count p ≤ budget) (mergePieces split budget parts).
Proof.
  intros Hsp. unfold mergePieces.
  assert (∀ st ls, merging budget st ls → merging budget (foldl (mergePart split budget) st parts) (ls ++ (parts ≫= letters))) as Hfold.
  { induction parts as [|part parts IH]; intros st ls Hm; [by rewrite app_nil_r|]. cbn [foldl]. rewrite bind_cons, (assoc_L (++)). by apply IH, mergePart_spec. }
  specialize (Hfold ([], ""%string) []). destruct (foldl _ _ parts) as [merged buffer]. destruct Hfold as (Hl & Hf & Hb); [split_and!; [done|constructor|by left]|].
  cbn [fst snd app] in *. destruct (TrimSpace buffer =? "")%string eqn:Eb; bool_prop.
  - split; [|done]. by rewrite <- Hl, (letters_blank buffer Eb), app_nil_r.
  - split; [rewrite bind_app; cbn; by rewrite letters_TrimSpace, app_nil_r|]. apply Forall_app_2; [done|]. repeat constructor.
    destruct Hb as [->|]; [done|]. etrans; [apply Count_TrimSpace|done].
Qed.

Lemma splitRecursive_spec seps budget text : Forall cuts seps → 1 ≤ budget → splits budget text (splitRecursive seps budget text).
Proof.
  intros Hs Hb. revert text. induction Hs as [|sep seps Hsep Hs IH]; intros text; cbn [splitRecursive].
  all: destruct (TrimSpace text =? "")%string eqn:E; bool_prop; [split; [by rewrite (letters_blank text E)|constructor]|].
  all: destruct (Count (TrimSpace text) <=? budget) eqn:Hc; bool_prop; [split; [cbn; by rewrite app_nil_r, letters_TrimSpace|by repeat constructor]|].
  - destruct (splitByRuneBudget_spec budget (TrimSpace text) Hb). split; [|done]. by rewrite <- (letters_TrimSpace text).
  - case_match.
    + destruct (IH (TrimSpace text)). split; [|done]. by rewrite <- (letters_TrimSpace text).
    + destruct (mergePieces_spec (splitRecursive seps budget) budget (splitKeepSeparator (TrimSpace text) sep) IH). split; [|done].
      rewrite <- (letters_TrimSpace text), <- (splitKeepSeparator_letters _ sep) by done. done.
Qed.
End SplitTheorems.

(** ** Chunks of segments *)

Lemma TrimSpace_joined a b : TrimSpace a = a → TrimSpace b = b → a ≠ ""%string → b ≠ ""%string → TrimSpace (a ++ (nl ++ nl) ++ b)%string = (a ++ (nl ++ nl) ++ b)%string.
Proof.
  intros Ha Hb Hna Hnb. apply TrimSpace_id_iff. rewrite (runes_separated _ _ _ (proj1 blank_line_cuts)).
  assert (∀ s, s ≠ ""%string → runes s ≠ []) as Hne.
  { intros s Hs E. apply Hs. rewrite <- (unsegment_segments s). unfold runes in E. apply fmap_nil_inv in E. by rewrite E. }
  pose proof (Hne a Hna) as Hra. pose proof (Hne b Hnb) as Hrb. intros r [Hr|Hr].
  - apply (proj1 (TrimSpace_id_iff a) Ha). left. by destruct (runes a).
  - apply (proj1 (TrimSpace_id_iff b) Hb). right. rewrite !last_app in Hr. destruct (last (runes b)) eqn:E; [done|]. by apply last_None in E.
Qed.

Section RecursiveTheorems.
Context `{TokenizerLaws}.
Context (size overlap : Z) (segs : list chunkSegment).
Context (Hsize : 1 ≤ size) (Hoverlap : overlap ≤ size).

(** Letters repeated from the end of an earlier chunk, of a few tokens. *)
Definition repeats (earlier : list Chunk) (o : list Z) : Prop :=
  o = [] ∨ ∃ c k, c ∈ earlier ∧ o = lettersOf (drop k (runes (chunk_Content c))) ∧ Count (of_runes (drop k (runes (chunk_Content c)))) ≤ overlap.

(** A chunk that brings the letters [new]. *)
Definition brings (earlier : list Chunk) (c : Chunk) (new : list Z) : Prop :=
  chunk_TokenCount c = Count (chunk_Content c) ∧ chunk_CharCount c = rune_count (chunk_Content c) ∧
  (∃ o, letters (chunk_Content c) = o ++ new ∧ repeats earlier o) ∧
  (Count (chunk_Content c) ≤ size ∨ ∃ segment, segment ∈ segs ∧ seg_singleChunk segment = true ∧ chunk_Content c = TrimSpace (seg_text segment)).

Definition placed (chunks : list Chunk) (news : list (list Z)) : Prop :=
  length news = length chunks ∧ ∀ i c new, chunks !! i = Some c → news !! i = Some new → brings (take i chunks) c new.

Lemma placed_snoc chunks news c new : placed chunks news → brings chunks c new → placed (chunks ++ [c]) (news ++ [new]).
Proof.
  intros [Hl Hp] Hb. split; [by rewrite !length_app, Hl|]. intros i c' new' Hc Hn.
  apply lookup_snoc_Some in Hc as [[Hi Hc]|[-> ->]].
  - rewrite take_app_le by lia. rewrite lookup_app_l in Hn by lia. by apply Hp.
  - rewrite take_app_length. rewrite <- Hl in Hn. rewrite list_lookup_middle in Hn by done. by injection Hn as <-.
Qed.

Definition bufferOk (chunks : list Chunk) (content : string) (new : list Z) : Prop :=
  TrimSpace content = content ∧ (content = ""%string ∨ Count content ≤ size) ∧ ∃ o, letters content = o ++ new ∧ repeats chunks o.

(** Chunks and buffer hold the letters [ls]. *)
Definition holds (st : list Chunk * segmentBuffer) (ls : list Z) : Prop :=
  ∃ news new, placed st.1 news ∧ concat news ++ new = ls ∧ bufferOk st.1 (buf_content st.2) new.

Lemma tailStart_spec rs n : (tailStart n rs overlap ≤ n)%nat ∧ ((tailStart n rs overlap < n)%nat → Count (of_runes (drop (tailStart n rs overlap) rs)) ≤ overlap).
Proof.
  induction n as [|n [IH1 IH2]]; cbn [tailStart]; [lia|]. case_match eqn:E; bool_prop; [|lia]. split; [lia|]. intros _.
  destruct (decide (tailStart n rs overlap = n)) as [->|]; [done|]. apply IH2. lia.
Qed.

Lemma bufferOk_empty chunks : bufferOk chunks "" [].
Proof. split_and!; [done|by left|]. exists []. split; [done|by left]. Qed.

Lemma overlapBuffer_ok chunks c title page : c ∈ chunks → bufferOk chunks (buf_content (overlapBuffer (chunk_Content c) overlap title page)) [].
Proof.
  intros Hc. unfold overlapBuffer. case_match; [apply bufferOk_empty|]. case_match eqn:Hlt; [|apply bufferOk_empty]. apply Nat.ltb_lt in Hlt. cbn [buf_content].
  set (rs := runes (chunk_Content c)) in *. set (k := tailStart (length rs) rs overlap) in *. pose proof (proj2 (tailStart_spec rs (length rs)) Hlt) as Hk. fold k in Hk.
  split_and!; [apply TrimSpace_idem| |].
  - right. etrans; [apply Count_TrimSpace|]. lia.
  - eexists. rewrite app_nil_r. split; [done|]. right. exists c, k. split_and!; [done| |done].
    rewrite letters_TrimSpace. unfold letters. rewrite runes_of_runes; [done|]. apply Forall_drop, runes_scalar.
Qed.

(** Nothing but repeated letters is in the buffer. *)
Definition flushed (st : list Chunk * segmentBuffer) (ls : list Z) : Prop :=
  ∃ news, placed st.1 news ∧ concat news = ls ∧ bufferOk st.1 (buf_content st.2) [].

Lemma flushed_holds st ls : flushed st ls → holds st ls.
Proof. intros (news & Hp & Hl & Hb). exists news, []. by rewrite app_nil_r. Qed.

Lemma flush_flushed st ls : holds st ls → flushed (flush overlap st) ls.
Proof.
  destruct st as [chunks buffer]. intros (news & new & Hp & Hl & Ht & Hc & o & Ho & Hr). cbn [fst snd] in *. unfold flush.
  rewrite Ht. destruct (buf_content buffer =? "")%string eqn:E; bool_prop.
  - rewrite E in Ho. symmetry in Ho. apply app_nil in Ho as [-> ->]. rewrite app_nil_r in Hl. exists news. split_and!; [done..|apply bufferOk_empty].
  - set (c := recursiveChunk _ _ _ _ _ _). exists (news ++ [new]). cbn [fst snd]. split_and!.
    + apply placed_snoc; [done|]. split_and!; [done|done|by exists o|]. left. by destruct Hc.
    + rewrite concat_app. cbn. by rewrite app_nil_r.
    + apply (overlapBuffer_ok (chunks ++ [c]) c). apply elem_of_app. right. by apply list_elem_of_singleton.
Qed.

(** A piece goes into a buffer that has room for it. *)
Lemma bufferOk_add chunks content new piece : bufferOk chunks content new → TrimSpace piece = piece → piece ≠ ""%string → Count piece ≤ size →
  (content = ""%string ∨ Count (content ++ (nl ++ nl) ++ piece)%string ≤ size) →
  bufferOk chunks (if (content =? "")%string then piece else (content ++ (nl ++ nl) ++ piece)%string) (new ++ letters piece).
Proof.
  intros (Ht & Hc & o & Ho & Hr) Hp Hne Hs Hroom. case_match eqn:E; bool_prop.
  - rewrite E in Ho. symmetry in Ho. apply app_nil in Ho as [-> ->]. split_and!; [done|by right|]. exists []. split; [done|by left].
  - split_and!; [by apply TrimSpace_joined|right; by destruct Hroom|]. exists o. split; [|done]. by rewrite (letters_cut _ _ _ blank_line_cuts), Ho, (assoc_L (++)).
Qed.

Lemma addPiece_holds segment st ls piece : holds st ls → Count piece ≤ size → holds (addPiece size overlap segment st piece) (ls ++ letters piece).
Proof.
  intros Hst Hc. unfold addPiece. destruct (TrimSpace piece =? "")%string eqn:E; bool_prop; [by rewrite (letters_blank piece E), app_nil_r|].
  rewrite <- (letters_TrimSpace piece). pose proof (Count_TrimSpace piece). pose proof (TrimSpace_idem piece) as Hti. set (p := TrimSpace piece) in *.
  pose proof (flush_flushed st ls Hst) as Hfl. destruct st as [chunks buffer]. destruct Hst as (news & new & Hp & Hl & Hb). pose proof Hb as (Ht & _). cbn [fst snd] in *.
  rewrite Ht. destruct (_ && _) eqn:Hover.
  - destruct (flush overlap (chunks, buffer)) as [chunks' buffer']. destruct Hfl as (news' & Hp' & Hl' & Hb'). cbn [fst snd] in *.
    destruct (negb (buf_content buffer' =? "")%string && _) eqn:Hover'; exists news', (letters p); cbn [fst snd]; (split_and!; [done|by rewrite Hl'|]).
    + cbn [buf_content]. rewrite String.eqb_refl. apply (bufferOk_add chunks' "" []); [apply bufferOk_empty|done|done|lia|by left].
    + cbn [buf_content]. apply (bufferOk_add chunks' _ []); [done|done|done|lia|]. bool_prop. destruct Hover'; bool_prop; [by left|right; lia].
  - exists news, (new ++ letters p). cbn [fst snd buf_content]. split_and!; [done|by rewrite (assoc_L (++)), Hl|].
    apply bufferOk_add; [done|done|done|lia|]. bool_prop. destruct Hover as [Hover|Hover]; bool_prop; [by left|].
    destruct (buf_content buffer =? "")%string eqn:Eb; bool_prop; [by left|right; lia].
Qed.

Lemma addSegment_holds st ls segment : segment ∈ segs → holds st ls → holds (addSegment size overlap st segment) (ls ++ letters (seg_text segment)).
Proof.
  intros Hin Hst. unfold addSegment. destruct (seg_singleChunk segment) eqn:Hsingle.
  - pose proof (flush_flushed st ls Hst) as (news & Hp & Hl & Hb). destruct (flush overlap st) as [chunks buffer]. cbn [fst snd] in *.
    case_match eqn:E; bool_prop; [exists news, []; cbn [fst snd]; by rewrite (letters_blank _ E), !app_nil_r|].
    exists (news ++ [letters (seg_text segment)]), []. cbn [fst snd]. split_and!.
    + apply placed_snoc; [done|]. split_and!; [done|done| |right; by exists segment]. exists []. cbn. rewrite letters_TrimSpace. split; [done|by left].
    + rewrite concat_app. cbn. by rewrite !app_nil_r, Hl.
    + destruct Hb as (Ht & Hc & o & Ho & Hr). split_and!; [done..|]. exists o. split; [done|]. destruct Hr as [->|(c & k & Hc' & Hr)]; [by left|right].
      exists c, k. split; [|done]. apply elem_of_app. by left.
  - destruct (splitRecursive_spec separators size (seg_text segment) separators_cut Hsize) as [<- Hf].
    revert st ls Hst. induction Hf as [|p ps Hp Hf IH]; intros st ls Hst; [cbn; by rewrite app_nil_r|]. cbn [foldl]. rewrite bind_cons, (assoc_L (++)). by apply IH, addPiece_holds.
Qed.

Lemma addSegments_holds rest st ls : rest ⊆ segs → holds st ls → holds (foldl (addSegment size overlap) st rest) (ls ++ (rest ≫= λ s, letters (seg_text s))).
Proof.
  revert st ls. induction rest as [|segment rest IH]; intros st ls Hsub Hst; [by rewrite app_nil_r|]. cbn [foldl]. rewrite bind_cons, (assoc_L (++)).
  apply IH; [|apply addSegment_holds; [|done]]; [intros s Hs; apply Hsub; by right|apply Hsub; by left].
Qed.
End RecursiveTheorems.

Lemma overlapOf_le policy : overlapOf policy ≤ chunkSizeOf policy.
Proof.
  pose proof (chunkSizeOf_pos policy). unfold overlapOf. repeat (case_match; bool_prop); try lia; rewrite Z.quot_div_nonneg by lia; apply Z.div_le_upper_bound; lia.
Qed.

(** C29. Recursive chunking loses no letter: the chunks are numbered from 0, and each brings new
    letters of the segments, in their order and all of them in the end, after the few tokens it
    may repeat from the end of an earlier chunk; it is within the budget of tokens, unless it is
    a block that must not be cut.  White space and separators between pieces are not kept. *)
Theorem recursive_chunks_complete `{TokenizerLaws} (doc : ParsedDocument) (policy : Policy) :
  let segs := documentSegments doc in
  let chunks := RecursiveChunkDocument doc policy in
  ∃ news, length news = length chunks ∧ concat news = (segs ≫= λ s, letters (seg_text s)) ∧
    ∀ i c new, chunks !! i = Some c → news !! i = Some new →
      chunk_Index c = Z.of_nat i ∧ brings (chunkSizeOf policy) (overlapOf policy) segs (take i chunks) c new.
Proof.
  intros segs chunks.
  assert (flushed (chunkSizeOf policy) (overlapOf policy) segs (flush (overlapOf policy) (foldl (addSegment (chunkSizeOf policy) (overlapOf policy)) ([], emptyBuffer) segs)) (segs ≫= λ s, letters (seg_text s))) as (news & [Hl Hp] & Hn & _).
  { apply flush_flushed; [apply overlapOf_le|].
    apply (addSegments_holds _ _ _ (chunkSizeOf_pos policy) (overlapOf_le policy) segs _ []); [done|].
    exists [], []. split_and!; [split; [done|]; intros i c new Hc; cbn in Hc; by rewrite lookup_nil in Hc|done|apply bufferOk_empty]. }
  subst chunks. unfold RecursiveChunkDocument, chunkSegments. fold segs. set (cs := (flush _ _).1) in *. set (number := λ (i : nat) (c : Chunk), mkChunk _ _ _ _ _ _ _).
  exists news. split_and!; [by rewrite length_imap|done|]. intros i c new Hc Hnew. rewrite list_lookup_imap in Hc. apply fmap_Some in Hc as (c' & Hc' & ->).
  split; [done|]. destruct (Hp i c' new Hc' Hnew) as (H1 & H2 & (o & Ho & Hr) & H4). split_and!; [done|done| |done]. exists o. split; [done|].
  destruct Hr as [->|(e & k & He & Hr)]; [by left|right]. apply list_elem_of_lookup in He as [j Hj]. exists (number j e), k. split; [|done].
  apply list_elem_of_lookup. exists j. rewrite lookup_take in Hj |- *. case_decide; [|done]. rewrite list_lookup_imap, Hj. done.
Qed.

(** ** Samples *)

Definition words : string := "alpha beta gamma delta epsilon zeta eta theta".

Lemma fixed_chunks_cover_witness :
  chunk_Content <$> @FixedChunk EstimatedTokenizer words (mkPolicy 4 1) = ["alpha beta gamma"; "amma delta epsil"; "psilon zeta eta"; "eta theta"]%string ∧
  ∃ ws, @windows EstimatedTokenizer (runes (TrimSpace words)) 4 1 0 ws ∧
    @FixedChunk EstimatedTokenizer words (mkPolicy 4 1) = imap (λ i w, @fixedChunk EstimatedTokenizer (Z.of_nat i) (trimmed (runes (TrimSpace words)) w.1 w.2)) ws.
Proof.
  split; [vm_compute; reflexivity|]. apply (@fixed_chunks_cover EstimatedTokenizer EstimatedTokenizer_laws words (mkPolicy 4 1)). vm_compute. discriminate.
Defined.

Definition block (id t text : string) : DocumentBlock := mkBlock id t text None None ∅.
Definition guide : ParsedDocument :=
  mkDocument "" "md" [block "b1" "heading" "# Guide"; block "b2" "paragraph" "Install it first. Run it then. Stop it at last."; block "b3" "table" "port|8080"]%string.

Lemma recursive_chunks_complete_witness :
  chunk_SectionTitle <$> @RecursiveChunkDocument EstimatedTokenizer guide (mkPolicy 8 0) = ["Guide"; "Guide"; "Guide"]%string ∧
  ∃ news, concat news = (documentSegments guide ≫= λ s, letters (seg_text s)).
Proof.
  split; [vm_compute; reflexivity|].
  destruct (@recursive_chunks_complete EstimatedTokenizer EstimatedTokenizer_laws guide (mkPolicy 8 0)) as (news & _ & Hn & _). by exists news.
Defined.

(** ** What goes another way *)

(** A block that must not be cut flushes the buffer, whose overlap stays there: it becomes a
    chunk of its own after the block, with nothing in it that is not in an earlier one. *)
Theorem overlap_becomes_chunk :
  chunk_Content <$> @RecursiveChunkDocument EstimatedTokenizer guide (mkPolicy 8 2)
  = ["Install it first. Run it then."; "it then." ++ nl ++ nl ++ "Stop it at last."; "port|8080"; "at last."]%string.
Proof. vm_compute. reflexivity. Qed.

(** The separators after empty parts are dropped with them: empty fields disappear from a row
    that is cut at its commas. *)
Theorem empty_fields_dropped :
  chunk_Content <$> @RecursiveChunkDocument EstimatedTokenizer (mkDocument "alpha beta,,,gamma delta;;epsilon" "txt" []) (mkPolicy 5 0)
  = ["alpha beta,"; "gamma delta;"; "epsilon"]%string.
Proof. vm_compute. reflexivity. Qed.
