(* ===== verification/Ingestion.v ===== *)
(** Ingestion of documents (internal/application/ingestion_usecase/service.go) over the tables
    of documents, knowledge bases, chunks and jobs (internal/infrastructure/mysql:
    document_repo.go, knowledge_repo.go, chunk_repo.go, ingestion_job_repo.go) and the
    retrieval indexes: a claimed job parses a document, cuts it into chunks, stores and
    indexes them as a new generation, activates it, and leaves the removal of the old one to
    a job of its own.

    Handlers are programs of [Threads].  Storage, parser, embedding provider, job queue and
    the index backends are outside: storage, parser and provider answer anything; an index
    call that fails may have been carried out in part.  Chunking is [Chunker] or any other
    function; JSON and SHA-256 are parameters.  Columns that are only carried along (MIME
    type, size, hash of the file, time stamps of rows) are left out. *)
From S2P Require Import Prelude GoStr Json Documents Chunker Threads.
Open Scope Z_scope.
Open Scope calls_scope.

(** ** Rows *)

Record Document := mkDoc {
  d_ID : Z; d_OwnerID : Z; d_DeletedAt : option Z; d_KnowledgeBaseID : Z; d_Name : string; d_OriginalFilename : string; d_FileType : string;
  d_StorageObjectKey : string; d_ActiveGenerationID : string; d_IngestionStatus : string; d_IngestionError : string; d_Enabled : bool;
  d_ChunkCount : Z; d_TokenCount : Z; d_IndexedAt : option Z
}.

Record KnowledgeBase := mkKB {
  kb_ID : Z; kb_OwnerID : Z; kb_DeletedAt : option Z; kb_RetrievalBackend : string; kb_RetrievalMode : string;
  kb_EmbeddingProviderID : option Z; kb_EmbeddingModel : string; kb_EmbeddingDimensions : Z; kb_EmbeddingMetric : string;
  kb_ChunkMethod : string; kb_ChunkSize : Z; kb_ChunkOverlap : Z; kb_DocumentCount : Z; kb_ChunkCount : Z
}.

Notation RawMessage := string (only parsing).

Record DocumentChunk := mkDocumentChunk {
  ch_ID : Z; ch_OwnerID : Z; ch_KnowledgeBaseID : Z; ch_DocumentID : Z; ch_GenerationID : string; ch_ChunkIndex : Z; ch_Content : string;
  ch_ContentHash : string; ch_TokenCount : Z; ch_CharCount : Z; ch_PageNumber : option Z; ch_SectionTitle : string; ch_MetadataJSON : RawMessage
}.

Record IngestionJob := mkIngestionJob {
  ij_ID : Z; ij_OwnerID : Z; ij_KnowledgeBaseID : Z; ij_DocumentID : Z; ij_JobType : string; ij_Status : string; ij_Priority : Z;
  ij_AttemptCount : Z; ij_MaxAttempts : Z; ij_RetryAt : option Z; ij_ErrorMessage : string; ij_LockedBy : string; ij_LockedAt : option Z;
  ij_StartedAt : option Z; ij_FinishedAt : option Z; ij_CreatedAt : Z
}.

Notation vector := (list float64).

Record ChunkIndexDocument := mkIndexDoc {
  ix_OwnerID : Z; ix_KnowledgeBaseID : Z; ix_DocumentID : Z; ix_GenerationID : string; ix_ChunkID : Z; ix_ChunkIndex : Z; ix_DocumentName : string;
  ix_FileType : string; ix_SectionTitle : string; ix_Content : string; ix_ContentHash : string; ix_Enabled : bool; ix_EmbeddingModel : string;
  ix_EmbeddingDimensions : Z; ix_EmbeddingProviderID : Z; ix_EmbeddingMetric : string; ix_EmbeddingProfile : string; ix_PageNumber : option Z;
  ix_TokenCount : Z; ix_Metadata : metadata; ix_EmbeddingVector : option vector
}.

Definition DocumentStatusPending : string := "pending".
Definition DocumentStatusParsing : string := "parsing".
Definition DocumentStatusChunking : string := "chunking".
Definition DocumentStatusIndexing : string := "indexing".
Definition DocumentStatusCompleted : string := "completed".
Definition DocumentStatusFailed : string := "failed".
Definition JobTypeDocument : string := "document_ingestion".
Definition JobTypeCleanup : string := "document_generation_cleanup".
Definition JobPending : string := "pending".
Definition JobProcessing : string := "processing".
Definition JobCompleted : string := "completed".
Definition JobFailed : string := "failed".
Definition EmbeddingMetricCosine : string := "COSINE".

Definition doc_setStatus (status error : string) (d : Document) : Document :=
  mkDoc (d_ID d) (d_OwnerID d) (d_DeletedAt d) (d_KnowledgeBaseID d) (d_Name d) (d_OriginalFilename d) (d_FileType d) (d_StorageObjectKey d)
    (d_ActiveGenerationID d) status error (d_Enabled d) (d_ChunkCount d) (d_TokenCount d) (d_IndexedAt d).

Record EmbeddingProfile := mkProfile { prof_ProviderID : Z; prof_Model : string; prof_Dimensions : Z; prof_Metric : string }.

(** ** Tables *)

(** The ids that the next chunk and the next job get; the index of each backend, by chunk. *)
Record IngestionDB := mkIngestionDB {
  db_docs : gmap Z Document;
  db_kbs : gmap Z KnowledgeBase;
  db_chunks : gmap Z DocumentChunk;
  db_chunkSequence : Z;
  db_ijobs : gmap Z IngestionJob;
  db_jobSequence : Z;
  db_index : gmap string (gmap Z ChunkIndexDocument)
}.
Definition set_docs (x : gmap Z Document) (d : IngestionDB) := mkIngestionDB x (db_kbs d) (db_chunks d) (db_chunkSequence d) (db_ijobs d) (db_jobSequence d) (db_index d).
Definition set_kbs (x : gmap Z KnowledgeBase) (d : IngestionDB) := mkIngestionDB (db_docs d) x (db_chunks d) (db_chunkSequence d) (db_ijobs d) (db_jobSequence d) (db_index d).
Definition set_chunks (x : gmap Z DocumentChunk) (next : Z) (d : IngestionDB) := mkIngestionDB (db_docs d) (db_kbs d) x next (db_ijobs d) (db_jobSequence d) (db_index d).
Definition set_ijobs (x : gmap Z IngestionJob) (next : Z) (d : IngestionDB) := mkIngestionDB (db_docs d) (db_kbs d) (db_chunks d) (db_chunkSequence d) x next (db_index d).
Definition set_index (backend : string) (x : gmap Z ChunkIndexDocument) (d : IngestionDB) :=
  mkIngestionDB (db_docs d) (db_kbs d) (db_chunks d) (db_chunkSequence d) (db_ijobs d) (db_jobSequence d) (<[backend := x]> (db_index d)).
Definition indexOf (backend : string) (d : IngestionDB) : gmap Z ChunkIndexDocument := default ∅ (db_index d !! backend).

Inductive IngestErr :=
| IErrNotFound
| IErrLeaseLost
| IErrDatabase (msg : string)
| IErrOutside (msg : string)
| IErrJobType (t : string)
| IErrNoIndexer (backend : string)
| IErrChunk (msg : string)
| IErrNoText
| IErrEmbedding (msg : string)
| IErrNoCommitter
| IErrNoGeneration
| IErrPayload.

Definition FindDocument (ownerID id : Z) (d : IngestionDB) : result IngestErr Document :=
  match db_docs d !! id with
  | Some doc => if (d_OwnerID doc =? ownerID) && bool_decide (d_DeletedAt doc = None) then Ok doc else Err IErrNotFound
  | None => Err IErrNotFound
  end.
(** [Save] writes every column. *)
Definition UpdateDocument (doc : Document) (d : IngestionDB) : IngestionDB := set_docs (<[d_ID doc := doc]> (db_docs d)) d.

Definition doc_setEnabled (enabled : bool) (d : Document) : Document :=
  mkDoc (d_ID d) (d_OwnerID d) (d_DeletedAt d) (d_KnowledgeBaseID d) (d_Name d) (d_OriginalFilename d) (d_FileType d) (d_StorageObjectKey d)
    (d_ActiveGenerationID d) (d_IngestionStatus d) (d_IngestionError d) enabled (d_ChunkCount d) (d_TokenCount d) (d_IndexedAt d).
Definition doc_setDeleted (now : Z) (d : Document) : Document :=
  mkDoc (d_ID d) (d_OwnerID d) (Some now) (d_KnowledgeBaseID d) (d_Name d) (d_OriginalFilename d) (d_FileType d) (d_StorageObjectKey d)
    (d_ActiveGenerationID d) (d_IngestionStatus d) (d_IngestionError d) (d_Enabled d) (d_ChunkCount d) (d_TokenCount d) (d_IndexedAt d).
Definition SetEnabled (ownerID id : Z) (enabled : bool) (d : IngestionDB) : IngestionDB :=
  match FindDocument ownerID id d with Ok doc => UpdateDocument (doc_setEnabled enabled doc) d | Err _ => d end.
Definition SoftDelete (now ownerID id : Z) (d : IngestionDB) : IngestionDB :=
  match FindDocument ownerID id d with Ok doc => UpdateDocument (doc_setDeleted now doc) d | Err _ => d end.

Definition FindKB (ownerID id : Z) (d : IngestionDB) : result IngestErr KnowledgeBase :=
  match db_kbs d !! id with
  | Some kb => if (kb_OwnerID kb =? ownerID) && bool_decide (kb_DeletedAt kb = None) then Ok kb else Err IErrNotFound
  | None => Err IErrNotFound
  end.
Definition UpdateKB (kb : KnowledgeBase) (d : IngestionDB) : IngestionDB := set_kbs (<[kb_ID kb := kb]> (db_kbs d)) d.

Definition kb_adjusted (documentDelta chunkDelta : Z) (kb : KnowledgeBase) : KnowledgeBase :=
  mkKB (kb_ID kb) (kb_OwnerID kb) (kb_DeletedAt kb) (kb_RetrievalBackend kb) (kb_RetrievalMode kb) (kb_EmbeddingProviderID kb) (kb_EmbeddingModel kb)
    (kb_EmbeddingDimensions kb) (kb_EmbeddingMetric kb) (kb_ChunkMethod kb) (kb_ChunkSize kb) (kb_ChunkOverlap kb)
    (Z.max (kb_DocumentCount kb + documentDelta) 0) (Z.max (kb_ChunkCount kb + chunkDelta) 0).
Definition AdjustCounts (ownerID id documentDelta chunkDelta : Z) (d : IngestionDB) : IngestionDB :=
  match FindKB ownerID id d with Ok kb => UpdateKB (kb_adjusted documentDelta chunkDelta kb) d | Err _ => d end.

Definition ofDocument (ownerID documentID : Z) (c : DocumentChunk) : bool := (ch_OwnerID c =? ownerID) && (ch_DocumentID c =? documentID).
Definition ListChunks (ownerID documentID : Z) (d : IngestionDB) : list DocumentChunk :=
  sort_stable (λ a b, ch_ChunkIndex a <? ch_ChunkIndex b) (filter (λ c, ofDocument ownerID documentID c = true) (map_to_list (db_chunks d)).*2).
Definition DeleteChunks (ownerID documentID : Z) (d : IngestionDB) : IngestionDB :=
  set_chunks (filter (λ kv, ofDocument ownerID documentID kv.2 = false) (db_chunks d)) (db_chunkSequence d) d.
Definition DeleteInactiveChunks (ownerID documentID : Z) (generation : string) (d : IngestionDB) : IngestionDB :=
  set_chunks (filter (λ kv, ofDocument ownerID documentID kv.2 && negb (ch_GenerationID kv.2 =? generation)%string = false) (db_chunks d)) (db_chunkSequence d) d.

Definition ch_setID (id : Z) (c : DocumentChunk) : DocumentChunk :=
  mkDocumentChunk id (ch_OwnerID c) (ch_KnowledgeBaseID c) (ch_DocumentID c) (ch_GenerationID c) (ch_ChunkIndex c) (ch_Content c)
    (ch_ContentHash c) (ch_TokenCount c) (ch_CharCount c) (ch_PageNumber c) (ch_SectionTitle c) (ch_MetadataJSON c).
Fixpoint numbered (next : Z) (chunks : list DocumentChunk) : list DocumentChunk :=
  match chunks with [] => [] | c :: rest => ch_setID next c :: numbered (next + 1) rest end.
(** [CreateInBatches]: one transaction for all batches; the rows get their ids. *)
Definition CreateBatch (chunks : list DocumentChunk) (d : IngestionDB) : list DocumentChunk * IngestionDB :=
  let created := numbered (db_chunkSequence d) chunks in
  (created, set_chunks (foldl (λ rows c, <[ch_ID c := c]> rows) (db_chunks d) created) (db_chunkSequence d + zlen chunks) d).

(** *** Jobs *)

Definition second : Z := 10 ^ 9.
Definition staleIngestionJobLockAfter : Z := 600 * second.

Definition ij_with (status : string) (attempts : Z) (retryAt : option Z) (message lockedBy : string) (lockedAt startedAt finishedAt : option Z) (j : IngestionJob) : IngestionJob :=
  mkIngestionJob (ij_ID j) (ij_OwnerID j) (ij_KnowledgeBaseID j) (ij_DocumentID j) (ij_JobType j) status (ij_Priority j) attempts (ij_MaxAttempts j)
    retryAt message lockedBy lockedAt startedAt finishedAt (ij_CreatedAt j).
Definition set_ijob (j : IngestionJob) (d : IngestionDB) : IngestionDB := set_ijobs (<[ij_ID j := j]> (db_ijobs d)) (db_jobSequence d) d.

Definition CreateIngestionJob (now : Z) (job : IngestionJob) (d : IngestionDB) : IngestionJob * IngestionDB :=
  let job := mkIngestionJob (db_jobSequence d) (ij_OwnerID job) (ij_KnowledgeBaseID job) (ij_DocumentID job) (ij_JobType job) (ij_Status job) (ij_Priority job)
    (ij_AttemptCount job) (ij_MaxAttempts job) (ij_RetryAt job) (ij_ErrorMessage job) (ij_LockedBy job) (ij_LockedAt job) (ij_StartedAt job) (ij_FinishedAt job) now in
  (job, set_ijobs (<[ij_ID job := job]> (db_ijobs d)) (db_jobSequence d + 1) d).

Definition claimed (now : Z) (workerID : string) (j : IngestionJob) : IngestionJob :=
  ij_with JobProcessing (ij_AttemptCount j + 1) None (ij_ErrorMessage j) workerID (Some now)
    (match ij_StartedAt j with Some t => Some t | None => Some now end) (ij_FinishedAt j) j.

Definition claimableNext (now : Z) (j : IngestionJob) : bool :=
  (((ij_Status j =? JobPending)%string && match ij_RetryAt j with None => true | Some t => t <=? now end) ||
   ((ij_Status j =? JobProcessing)%string && match ij_LockedAt j with Some t => t <? now - staleIngestionJobLockAfter | None => false end)) &&
  ((ij_MaxAttempts j <=? 0) || (ij_AttemptCount j <? ij_MaxAttempts j)).

(** By priority, then by age; equals in the order of their ids. *)
Definition jobBefore (a b : IngestionJob) : bool :=
  if ij_Priority a =? ij_Priority b then ij_CreatedAt a <? ij_CreatedAt b else ij_Priority b <? ij_Priority a.
Definition ClaimNext (now : Z) (workerID : string) (d : IngestionDB) : result IngestErr IngestionJob * IngestionDB :=
  match sort_stable jobBefore (filter (λ j, claimableNext now j = true) (sort_stable (λ a b, ij_ID a <? ij_ID b) (map_to_list (db_ijobs d)).*2)) with
  | [] => (Err IErrNotFound, d)
  | j :: _ => let j := claimed now workerID j in (Ok j, set_ijob j d)
  end.

(** The job as it was read or saved, and whether it was claimed. *)
Definition ClaimByID (now ownerID id : Z) (workerID : string) (d : IngestionDB) : result IngestErr (IngestionJob * bool) * IngestionDB :=
  match db_ijobs d !! id with
  | Some j =>
    if negb (ij_OwnerID j =? ownerID) then (Err IErrNotFound, d)
    else if (ij_Status j =? JobCompleted)%string || (ij_Status j =? JobFailed)%string then (Ok (j, false), d)
    else if (0 <? ij_MaxAttempts j) && (ij_MaxAttempts j <=? ij_AttemptCount j) then
      let j := ij_with JobFailed (ij_AttemptCount j) (ij_RetryAt j) (ij_ErrorMessage j) "" None (ij_StartedAt j) (Some now) j in (Ok (j, false), set_ijob j d)
    else
      let stale := match ij_LockedAt j with None => true | Some t => t <? now - staleIngestionJobLockAfter end in
      let waiting := match ij_RetryAt j with Some t => now <? t | None => false end in
      if ((ij_Status j =? JobPending)%string && negb waiting) || ((ij_Status j =? JobProcessing)%string && stale) then
        let j := claimed now workerID j in (Ok (j, true), set_ijob j d)
      else (Ok (j, false), d)
  | None => (Err IErrNotFound, d)
  end.

(** The row under a lease; an empty worker asks for no lease. *)
Definition ownedJob (id : Z) (workerID : string) (d : IngestionDB) : option IngestionJob :=
  match db_ijobs d !! id with
  | Some j => if (workerID =? "")%string || ((ij_Status j =? JobProcessing)%string && (ij_LockedBy j =? workerID)%string) then Some j else None
  | None => None
  end.

Definition RenewLock (lockedAt id : Z) (workerID : string) (d : IngestionDB) : option IngestErr * IngestionDB :=
  match db_ijobs d !! id with
  | Some j =>
    if (ij_Status j =? JobProcessing)%string && (ij_LockedBy j =? workerID)%string then
      (None, set_ijob (ij_with (ij_Status j) (ij_AttemptCount j) (ij_RetryAt j) (ij_ErrorMessage j) (ij_LockedBy j) (Some lockedAt) (ij_StartedAt j) (ij_FinishedAt j) j) d)
    else (Some IErrLeaseLost, d)
  | None => (Some IErrLeaseLost, d)
  end.

Definition completedJob (now : Z) (j : IngestionJob) : IngestionJob :=
  ij_with JobCompleted (ij_AttemptCount j) None (ij_ErrorMessage j) "" None (ij_StartedAt j) (Some now) j.
(** [MarkCompletedOwned] of a worker, [MarkCompleted] without one. *)
Definition MarkCompleted (now id : Z) (workerID : string) (d : IngestionDB) : option IngestErr * IngestionDB :=
  match ownedJob id workerID d with
  | Some j => (None, set_ijob (completedJob now j) d)
  | None => (if (workerID =? "")%string then None else Some IErrLeaseLost, d)
  end.

(** [MarkFailedOwned] of a worker, [MarkFailed] without one: whether this was the last
    attempt. *)
Definition MarkFailed (now id : Z) (workerID message : string) (d : IngestionDB) : result IngestErr bool * IngestionDB :=
  match ownedJob id workerID d with
  | Some j =>
    let maxAttempts := if ij_MaxAttempts j <=? 0 then 1 else ij_MaxAttempts j in
    let final := maxAttempts <=? ij_AttemptCount j in
    let attempt := Z.max (ij_AttemptCount j) 1 in
    let j := if final then ij_with JobFailed (ij_AttemptCount j) None message "" None (ij_StartedAt j) (Some now) j
             else ij_with JobPending (ij_AttemptCount j) (Some (now + second * 2 ^ Z.min (attempt - 1) 6)) message "" None (ij_StartedAt j) None j in
    (Ok final, set_ijob j d)
  | None => (Err (if (workerID =? "")%string then IErrNotFound else IErrLeaseLost), d)
  end.

(** [GenerationCommitter.Activate]: the document, the counter and the cleanup job at once. *)
Definition Activate (now : Z) (doc : Document) (cleanup : IngestionJob) (chunkDelta : Z) (d : IngestionDB) : option IngestErr * IngestionDB :=
  match FindDocument (d_OwnerID doc) (d_ID doc) d with
  | Err _ => (Some IErrNotFound, d)
  | Ok _ =>
    let d1 := UpdateDocument doc d in
    match FindKB (d_OwnerID doc) (d_KnowledgeBaseID doc) d1 with
    | Err _ => (Some IErrNotFound, d)
    | Ok kb => (None, (CreateIngestionJob now cleanup (UpdateKB (kb_adjusted 0 chunkDelta kb) d1)).2)
    end
  end.

(** *** Indexes *)

Definition IndexChunks (docs : list ChunkIndexDocument) (ix : gmap Z ChunkIndexDocument) : gmap Z ChunkIndexDocument :=
  foldl (λ ix e, <[ix_ChunkID e := e]> ix) ix docs.
Definition indexed (ownerID documentID : Z) (e : ChunkIndexDocument) : bool := (ix_OwnerID e =? ownerID) && (ix_DocumentID e =? documentID).
Definition IndexDeleteDocument (ownerID documentID : Z) (ix : gmap Z ChunkIndexDocument) : gmap Z ChunkIndexDocument :=
  filter (λ kv, indexed ownerID documentID kv.2 = false) ix.
Definition IndexDeleteInactive (ownerID documentID : Z) (generation : string) (ix : gmap Z ChunkIndexDocument) : gmap Z ChunkIndexDocument :=
  filter (λ kv, indexed ownerID documentID kv.2 && negb (ix_GenerationID kv.2 =? generation)%string = false) ix.

Definition ix_setEnabled (enabled : bool) (e : ChunkIndexDocument) : ChunkIndexDocument :=
  mkIndexDoc (ix_OwnerID e) (ix_KnowledgeBaseID e) (ix_DocumentID e) (ix_GenerationID e) (ix_ChunkID e) (ix_ChunkIndex e) (ix_DocumentName e) (ix_FileType e)
    (ix_SectionTitle e) (ix_Content e) (ix_ContentHash e) enabled (ix_EmbeddingModel e) (ix_EmbeddingDimensions e) (ix_EmbeddingProviderID e) (ix_EmbeddingMetric e)
    (ix_EmbeddingProfile e) (ix_PageNumber e) (ix_TokenCount e) (ix_Metadata e) (ix_EmbeddingVector e).
Definition IndexSetEnabled (ownerID documentID : Z) (enabled : bool) (ix : gmap Z ChunkIndexDocument) : gmap Z ChunkIndexDocument :=
  (λ e, if indexed ownerID documentID e then ix_setEnabled enabled e else e) <$> ix.

(** ** Calls *)

Record Provider := mkProvider { pr_Enabled : bool; pr_DefaultEmbeddingModel : string; pr_EncryptedAPIKey : string }.
(** A claimed message of the queue: its id, its type, and the numbers of its payload. *)
Record QueueJob := mkQueueJob { q_ID : string; q_Type : string; q_Payload : string → Z }.

Inductive icall : Type → Type :=
| IClock : icall Z
| IClaimNext (workerID : string) : icall (result IngestErr IngestionJob)
| IClaimByID (ownerID id : Z) (workerID : string) : icall (result IngestErr (IngestionJob * bool))
| IRenewLock (id : Z) (workerID : string) : icall (option IngestErr)
| IMarkCompleted (id : Z) (workerID : string) : icall (option IngestErr)
| IMarkFailed (id : Z) (workerID message : string) : icall (result IngestErr bool)
| IFindDocument (ownerID id : Z) : icall (result IngestErr Document)
| IUpdateDocument (doc : Document) : icall (option IngestErr)
| ISetEnabled (ownerID id : Z) (enabled : bool) : icall (option IngestErr)
| ISoftDelete (ownerID id : Z) : icall (option IngestErr)
| IIndexSetEnabled (backend : string) (ownerID documentID : Z) (enabled : bool) : icall (option IngestErr)
| IFindKB (ownerID id : Z) : icall (result IngestErr KnowledgeBase)
| IUpdateKB (kb : KnowledgeBase) : icall (option IngestErr)
| IAdjustCounts (ownerID id documentDelta chunkDelta : Z) : icall (option IngestErr)
| IListChunks (ownerID documentID : Z) : icall (result IngestErr (list DocumentChunk))
| IDeleteChunks (ownerID documentID : Z) : icall (option IngestErr)
| IDeleteInactiveChunks (ownerID documentID : Z) (generation : string) : icall (option IngestErr)
| ICreateBatch (chunks : list DocumentChunk) : icall (result IngestErr (list DocumentChunk))
| IActivate (doc : Document) (cleanup : IngestionJob) (chunkDelta : Z) : icall (option IngestErr)
| IIndexChunks (backend : string) (docs : list ChunkIndexDocument) : icall (option IngestErr)
| IIndexDeleteDocument (backend : string) (ownerID documentID : Z) : icall (option IngestErr)
| IIndexDeleteInactive (backend : string) (ownerID documentID : Z) (generation : string) : icall (option IngestErr)
| IEnsureIndex (backend : string) : icall (option IngestErr)
| IStorageGet (key : string) : icall (result IngestErr string)
| IParse (filename data : string) : icall (result IngestErr ParsedDocument)
| IFindProvider (ownerID id : Z) : icall (result IngestErr Provider)
| IDecrypt (secret : string) : icall (result IngestErr string)
| IEmbed (model : string) (input : list string) : icall (result IngestErr (list vector))
| IQueueClaim (workerID : string) : icall (result IngestErr (list QueueJob))
| IQueueAck (id : string) : icall (option IngestErr)
| IQueueNack (id : string) : icall (option IngestErr).

(** A call to an index: done, or failed after a part of it. *)
Definition indexCall (backend : string) (f : gmap Z ChunkIndexDocument → gmap Z ChunkIndexDocument) (d : IngestionDB) (x : option IngestErr) (d' : IngestionDB) : Prop :=
  (x = None ∧ d' = set_index backend (f (indexOf backend d)) d) ∨
  ∃ msg ix, x = Some (IErrOutside msg) ∧ d' = set_index backend ix d ∧ ∀ id, ix !! id = indexOf backend d !! id ∨ ix !! id = f (indexOf backend d) !! id.

Definition statement (answer : option IngestErr * IngestionDB) := transaction answer (λ msg, Some (IErrDatabase msg)).
Definition query {X} (answer : result IngestErr X * IngestionDB) := transaction answer (λ msg, Err (IErrDatabase msg)).

(** What the clock may show. *)
Section Perform.
Context (clock : IngestionDB → Z → Prop).

Definition performI (X : Type) (c : icall X) : IngestionDB → X → IngestionDB → Prop :=
  match c in icall X return IngestionDB → X → IngestionDB → Prop with
  | IClock => λ d now d', d' = d ∧ clock d now
  | IClaimNext w => λ d x d', ∃ now, query (ClaimNext now w d) d x d'
  | IClaimByID o id w => λ d x d', ∃ now, query (ClaimByID now o id w d) d x d'
  | IRenewLock id w => λ d x d', ∃ now, statement (RenewLock now id w d) d x d'
  | IMarkCompleted id w => λ d x d', ∃ now, statement (MarkCompleted now id w d) d x d'
  | IMarkFailed id w m => λ d x d', ∃ now, query (MarkFailed now id w m d) d x d'
  | IFindDocument o id => λ d, query (FindDocument o id d, d) d
  | IUpdateDocument doc => λ d, statement (None, UpdateDocument doc d) d
  | ISetEnabled o id enabled => λ d, statement (None, SetEnabled o id enabled d) d
  | ISoftDelete o id => λ d x d', ∃ now, statement (None, SoftDelete now o id d) d x d'
  | IIndexSetEnabled b o id enabled => indexCall b (IndexSetEnabled o id enabled)
  | IFindKB o id => λ d, query (FindKB o id d, d) d
  | IUpdateKB kb => λ d, statement (None, UpdateKB kb d) d
  | IAdjustCounts o id a b => λ d, statement (None, AdjustCounts o id a b d) d
  | IListChunks o id => λ d, query (Ok (ListChunks o id d), d) d
  | IDeleteChunks o id => λ d, statement (None, DeleteChunks o id d) d
  | IDeleteInactiveChunks o id g => λ d, statement (None, DeleteInactiveChunks o id g d) d
  | ICreateBatch cs => λ d, query (Ok (CreateBatch cs d).1, (CreateBatch cs d).2) d
  | IActivate doc cleanup delta => λ d x d', ∃ now, statement (Activate now doc cleanup delta d) d x d'
  | IIndexChunks b docs => indexCall b (IndexChunks docs)
  | IIndexDeleteDocument b o id => indexCall b (IndexDeleteDocument o id)
  | IIndexDeleteInactive b o id g => indexCall b (IndexDeleteInactive o id g)
  | _ => λ d _ d', d' = d
  end.
End Perform.

Notation prog := (program icall).

(** ** The service *)

Section Service.
(** unicode.ToUpper. *)
Context (to_upper : Z → Z).
(** The chunkers, JSON and SHA-256. *)
Context (chunkDocument : string → ParsedDocument → Policy → result string (list Chunk)).
Context (sha256_hex : string → string) (marshalMetadata : metadata → result string RawMessage) (indexMetadata : RawMessage → metadata).
Context (profileKey : EmbeddingProfile → string).
(** The configured backends, the one of the constructor, and what else is configured. *)
Context (indexers : list string) (defaultIndexer : option string) (hasEmbedder hasCommitter : bool).
(** [err.Error()]. *)
Context (errText : IngestErr → string).

Definition ToUpper (s : string) : string := of_runes (to_upper <$> runes s).
Definition NormalizeEmbeddingMetric (metric : string) : string :=
  let metric := ToUpper (TrimSpace metric) in if (metric =? "")%string then EmbeddingMetricCosine else metric.
Definition profileOf (kb : KnowledgeBase) : EmbeddingProfile :=
  mkProfile (default 0 (kb_EmbeddingProviderID kb)) (TrimSpace (kb_EmbeddingModel kb)) (kb_EmbeddingDimensions kb) (NormalizeEmbeddingMetric (kb_EmbeddingMetric kb)).

Definition indexerFor (kb : KnowledgeBase) : option string :=
  let name := TrimSpace (kb_RetrievalBackend kb) in
  if bool_decide (name ∈ indexers) then Some name else match indexers with [] => defaultIndexer | _ => None end.

Definition chunkMetadataJSON (m : metadata) : RawMessage := match marshalMetadata m with Ok data => data | Err _ => "{}"%string end.

Definition chunkRow (job : IngestionJob) (generation : string) (part : Chunk) : DocumentChunk :=
  mkDocumentChunk 0 (ij_OwnerID job) (ij_KnowledgeBaseID job) (ij_DocumentID job) generation (chunk_Index part) (chunk_Content part)
    (sha256_hex (chunk_Content part)) (chunk_TokenCount part) (chunk_CharCount part) (chunk_PageNumber part) (chunk_SectionTitle part) (chunkMetadataJSON (chunk_Metadata part)).

(** The dimensions that all vectors share. *)
Fixpoint commonDimensions (dimensions : Z) (vectors : list vector) : result IngestErr Z :=
  match vectors with
  | [] => Ok dimensions
  | v :: rest =>
    match v with
    | [] => Err (IErrEmbedding "embedding vector is empty")
    | _ =>
      let dimensions := if dimensions =? 0 then zlen v else dimensions in
      if zlen v =? dimensions then commonDimensions dimensions rest else Err (IErrEmbedding "embedding dimensions are inconsistent")
    end
  end.

(** The vectors, the model and the dimensions. *)
Definition embedChunks (kb : KnowledgeBase) (chunks : list DocumentChunk) : prog (result IngestErr (list vector * string * Z)) :=
  if negb ((kb_RetrievalMode kb =? "vector")%string || (kb_RetrievalMode kb =? "hybrid")%string) then Return _ (Ok ([], ""%string, 0))
  else match kb_EmbeddingProviderID kb with
  | Some providerID =>
    if negb hasEmbedder then Return _ (Err (IErrEmbedding "embedding provider is required"))
    else
      ask found := IFindProvider (kb_OwnerID kb) providerID in
      match found with
      | Err e => Return _ (Err e)
      | Ok provider =>
        if negb (pr_Enabled provider) then Return _ (Err (IErrEmbedding "embedding provider is disabled"))
        else
          let model := TrimSpace (kb_EmbeddingModel kb) in
          let model := if (model =? "")%string then TrimSpace (pr_DefaultEmbeddingModel provider) else model in
          if (model =? "")%string then Return _ (Err (IErrEmbedding "embedding model is required"))
          else
            ask key := IDecrypt (pr_EncryptedAPIKey provider) in
            match key with
            | Err e => Return _ (Err e)
            | Ok _ =>
              ask embedded := IEmbed model (ch_Content <$> chunks) in
              match embedded with
              | Err e => Return _ (Err e)
              | Ok vectors =>
                if negb (zlen vectors =? zlen chunks) then Return _ (Err (IErrEmbedding "embedding count mismatch"))
                else match commonDimensions 0 vectors with
                | Err e => Return _ (Err e)
                | Ok dimensions =>
                  if (0 <? kb_EmbeddingDimensions kb) && negb (dimensions =? kb_EmbeddingDimensions kb) then Return _ (Err (IErrEmbedding "embedding dimensions mismatch"))
                  else Return _ (Ok (vectors, model, dimensions))
                end
              end
            end
      end
  | None => Return _ (Err (IErrEmbedding "embedding provider is required"))
  end.

(** The knowledge base with the profile of its first vectors, and whether it changed. *)
Definition profiled (dimensions : Z) (kb : KnowledgeBase) : KnowledgeBase * bool :=
  let newDimensions := (0 <? dimensions) && (kb_EmbeddingDimensions kb =? 0) in
  let newMetric := (TrimSpace (kb_EmbeddingMetric kb) =? "")%string in
  (mkKB (kb_ID kb) (kb_OwnerID kb) (kb_DeletedAt kb) (kb_RetrievalBackend kb) (kb_RetrievalMode kb) (kb_EmbeddingProviderID kb) (kb_EmbeddingModel kb)
     (if newDimensions then dimensions else kb_EmbeddingDimensions kb) (if newMetric then EmbeddingMetricCosine else kb_EmbeddingMetric kb)
     (kb_ChunkMethod kb) (kb_ChunkSize kb) (kb_ChunkOverlap kb) (kb_DocumentCount kb) (kb_ChunkCount kb), newDimensions || newMetric).

Definition indexDocument (doc : Document) (kb : KnowledgeBase) (model : string) (dimensions : Z) (vectors : list vector) (i : nat) (c : DocumentChunk) : ChunkIndexDocument :=
  mkIndexDoc (ch_OwnerID c) (ch_KnowledgeBaseID c) (ch_DocumentID c) (ch_GenerationID c) (ch_ID c) (ch_ChunkIndex c) (d_Name doc) (d_FileType doc)
    (ch_SectionTitle c) (ch_Content c) (ch_ContentHash c) (d_Enabled doc) model dimensions (default 0 (kb_EmbeddingProviderID kb))
    (NormalizeEmbeddingMetric (kb_EmbeddingMetric kb)) (if 0 <? dimensions then profileKey (profileOf kb) else "") (ch_PageNumber c) (ch_TokenCount c)
    (indexMetadata (ch_MetadataJSON c)) (vectors !! i).

Definition completedDocument (generation : string) (chunks : Z) (tokens indexedAt : Z) (d : Document) : Document :=
  mkDoc (d_ID d) (d_OwnerID d) (d_DeletedAt d) (d_KnowledgeBaseID d) (d_Name d) (d_OriginalFilename d) (d_FileType d) (d_StorageObjectKey d)
    generation DocumentStatusCompleted "" (d_Enabled d) chunks tokens (Some indexedAt).

Definition cleanupJob (job : IngestionJob) : IngestionJob :=
  mkIngestionJob 0 (ij_OwnerID job) (ij_KnowledgeBaseID job) (ij_DocumentID job) JobTypeCleanup JobPending (-10) 0 5 None "" "" None None None 0.

(** [markJobCompleted], [failJob]: under the lease when the job has one. *)
Definition lease (job : IngestionJob) : string := if (TrimSpace (ij_LockedBy job) =? "")%string then ""%string else ij_LockedBy job.
Definition finish (job : IngestionJob) (markDBComplete : bool) : prog (option IngestErr) :=
  if markDBComplete then ask err := IMarkCompleted (ij_ID job) (lease job) in Return _ err else Return _ None.

(** *** A document *)

(** The new generation is stored and indexed: now it becomes the active one. *)
Definition activate (job : IngestionJob) (markDBComplete : bool) (doc : Document) (generation : string) (existing chunks : list DocumentChunk) (tokens : Z) : prog (option IngestErr) :=
  ask indexedAt := IClock in
  let safeGeneration := negb (d_ActiveGenerationID doc =? "")%string in
  let oldChunkCount := if safeGeneration then zlen (filter (λ c, ch_GenerationID c = d_ActiveGenerationID doc) existing) else zlen existing in
  let completed := completedDocument (if safeGeneration then generation else d_ActiveGenerationID doc) (zlen chunks) tokens indexedAt doc in
  let chunkDelta := zlen chunks - oldChunkCount in
  if safeGeneration then
    if negb hasCommitter then Return _ (Some IErrNoCommitter)
    else
      ask err := IActivate completed (cleanupJob job) chunkDelta in
      match err with Some e => Return _ (Some e) | None => finish job markDBComplete end
  else
    ask err := IUpdateDocument completed in
    match err with
    | Some e => Return _ (Some e)
    | None =>
      ask err := IAdjustCounts (ij_OwnerID job) (ij_KnowledgeBaseID job) 0 chunkDelta in
      match err with Some e => Return _ (Some e) | None => finish job markDBComplete end
    end.

Definition indexGeneration (backend : string) (job : IngestionJob) (markDBComplete : bool) (doc : Document) (kb : KnowledgeBase) (generation : string)
    (existing chunks : list DocumentChunk) (tokens : Z) : prog (option IngestErr) :=
  let doc := doc_setStatus DocumentStatusIndexing (d_IngestionError doc) doc in
  ask err := IUpdateDocument doc in
  match err with
  | Some e => Return _ (Some e)
  | None =>
    ask err := IEnsureIndex backend in
    match err with
    | Some e => Return _ (Some e)
    | None =>
      run embedded := embedChunks kb chunks in
      match embedded with
      | Err e => Return _ (Some e)
      | Ok (vectors, model, dimensions) =>
        let '(kb, profileChanged) := profiled dimensions kb in
        run err := (if profileChanged then ask err := IUpdateKB kb in Return _ err else Return _ None) in
        match err with
        | Some e => Return _ (Some e)
        | None =>
          ask err := IIndexChunks backend (imap (indexDocument doc kb model dimensions vectors) chunks) in
          match err with
          | Some e => Return _ (Some e)
          | None => activate job markDBComplete doc generation existing chunks tokens
          end
        end
      end
    end
  end.

(** Without generations the old chunks go first. *)
Definition storeParts (backend : string) (job : IngestionJob) (markDBComplete : bool) (doc : Document) (kb : KnowledgeBase) (parts : list Chunk) : prog (option IngestErr) :=
  ask listed := IListChunks (ij_OwnerID job) (ij_DocumentID job) in
  match listed with
  | Err e => Return _ (Some e)
  | Ok existing =>
    let safeGeneration := negb (d_ActiveGenerationID doc =? "")%string in
    run err := (if safeGeneration then Return _ None
      else
        ask err := IDeleteChunks (ij_OwnerID job) (ij_DocumentID job) in
        match err with Some e => Return _ (Some e) | None => ask err := IIndexDeleteDocument backend (ij_OwnerID job) (ij_DocumentID job) in Return _ err end) in
    match err with
    | Some e => Return _ (Some e)
    | None =>
      ask now := IClock in
      let generation := if safeGeneration then ("gen-" ++ Itoa now)%string else d_ActiveGenerationID doc in
      ask created := ICreateBatch (chunkRow job generation <$> parts) in
      match created with
      | Err e => Return _ (Some e)
      | Ok chunks => indexGeneration backend job markDBComplete doc kb generation existing chunks (sum_by chunk_TokenCount parts)
      end
    end
  end.

Definition processDocument (job : IngestionJob) (markDBComplete : bool) : prog (option IngestErr) :=
  ask found := IFindDocument (ij_OwnerID job) (ij_DocumentID job) in
  match found with
  | Err e => Return _ (Some e)
  | Ok doc =>
    ask found := IFindKB (ij_OwnerID job) (ij_KnowledgeBaseID job) in
    match found with
    | Err e => Return _ (Some e)
    | Ok kb =>
      match indexerFor kb with
      | None => Return _ (Some (IErrNoIndexer (kb_RetrievalBackend kb)))
      | Some backend =>
        let doc := doc_setStatus DocumentStatusParsing "" doc in
        ask err := IUpdateDocument doc in
        match err with
        | Some e => Return _ (Some e)
        | None =>
          ask data := IStorageGet (d_StorageObjectKey doc) in
          match data with
          | Err e => Return _ (Some e)
          | Ok data =>
            ask parsed := IParse (d_OriginalFilename doc) data in
            match parsed with
            | Err e => Return _ (Some e)
            | Ok parsed =>
              let doc := doc_setStatus DocumentStatusChunking (d_IngestionError doc) doc in
              ask err := IUpdateDocument doc in
              match err with
              | Some e => Return _ (Some e)
              | None =>
                match chunkDocument (kb_ChunkMethod kb) parsed (mkPolicy (kb_ChunkSize kb) (kb_ChunkOverlap kb)) with
                | Err e => Return _ (Some (IErrChunk e))
                | Ok [] => Return _ (Some IErrNoText)
                | Ok parts => storeParts backend job markDBComplete doc kb parts
                end
              end
            end
          end
        end
      end
    end
  end.

(** *** The removal of old generations *)

Definition processGenerationCleanup (job : IngestionJob) (markDBComplete : bool) : prog (option IngestErr) :=
  ask found := IFindDocument (ij_OwnerID job) (ij_DocumentID job) in
  match found with
  | Err e => Return _ (Some e)
  | Ok doc =>
    let activeGeneration := TrimSpace (d_ActiveGenerationID doc) in
    if (activeGeneration =? "")%string then Return _ (Some IErrNoGeneration)
    else
      ask found := IFindKB (ij_OwnerID job) (ij_KnowledgeBaseID job) in
      match found with
      | Err e => Return _ (Some e)
      | Ok kb =>
        match indexerFor kb with
        | None => Return _ (Some (IErrNoIndexer (kb_RetrievalBackend kb)))
        | Some backend =>
          ask err := IIndexDeleteInactive backend (ij_OwnerID job) (ij_DocumentID job) activeGeneration in
          match err with
          | Some e => Return _ (Some e)
          | None =>
            ask err := IDeleteInactiveChunks (ij_OwnerID job) (ij_DocumentID job) activeGeneration in
            match err with Some e => Return _ (Some e) | None => finish job markDBComplete end
          end
        end
      end
  end.

Definition processJob (job : IngestionJob) (markDBComplete : bool) : prog (option IngestErr) :=
  if (ij_JobType job =? "")%string || (ij_JobType job =? JobTypeDocument)%string then processDocument job markDBComplete
  else if (ij_JobType job =? JobTypeCleanup)%string then processGenerationCleanup job markDBComplete
  else Return _ (Some (IErrJobType (ij_JobType job))).

(** *** Workers *)

Definition failJob (job : IngestionJob) (cause : IngestErr) : prog (option IngestErr) :=
  ask failed := IMarkFailed (ij_ID job) (lease job) (errText cause) in
  match failed with
  | Err e => Return _ (Some e)
  | Ok final =>
    if (ij_JobType job =? JobTypeCleanup)%string then Return _ None
    else
      ask found := IFindDocument (ij_OwnerID job) (ij_DocumentID job) in
      match found with
      | Err e => Return _ (Some e)
      | Ok doc => ask err := IUpdateDocument (doc_setStatus (if (final : bool) then DocumentStatusFailed else DocumentStatusPending) (errText cause) doc) in Return _ err
      end
  end.

(** Whether there was a job, and the errors. *)
Definition ProcessNext (workerID : string) : prog (bool * list IngestErr) :=
  ask found := IClaimNext workerID in
  match found with
  | Err IErrNotFound => Return _ (false, [])
  | Err e => Return _ (false, [e])
  | Ok job =>
    run err := processJob job true in
    match err with
    | None => Return _ (true, [])
    | Some e => run err' := failJob job e in Return _ (true, e :: option_list err')
    end
  end.

Definition heartbeatJob (id : Z) (workerID : string) : prog (option IngestErr) := ask err := IRenewLock id workerID in Return _ err.

(** The job, whether it is a row of the table, and whether it was claimed. *)
Definition ingestionJobFromQueue (job : QueueJob) (workerID : string) : prog (result IngestErr (IngestionJob * bool * bool)) :=
  let ownerID := q_Payload job "owner_id" in
  let jobID := q_Payload job "ingestion_job_id" in
  let jobID := if jobID =? 0 then q_Payload job "job_id" else jobID in
  if (0 <? ownerID) && (0 <? jobID) then
    ask found := IClaimByID ownerID jobID workerID in
    Return _ (match found with Err e => Err e | Ok (item, wasClaimed) => Ok (item, true, wasClaimed) end)
  else
    let item := mkIngestionJob 0 ownerID (q_Payload job "knowledge_base_id") (q_Payload job "document_id")
                  (if (q_Type job =? "")%string then JobTypeDocument else q_Type job) "" 0 0 0 None "" "" None None None 0 in
    if (ij_OwnerID item =? 0) || (ij_KnowledgeBaseID item =? 0) || (ij_DocumentID item =? 0) then Return _ (Err IErrPayload)
    else Return _ (Ok (item, false, true)).

Definition ProcessNextFromQueue (workerID : string) : prog (bool * list IngestErr) :=
  ask messages := IQueueClaim workerID in
  match messages with
  | Err IErrNotFound => Return _ (false, [])
  | Err e => Return _ (false, [e])
  | Ok [] => Return _ (false, [])
  | Ok (message :: _) =>
    let ack := ask err := IQueueAck (q_ID message) in Return _ (true, option_list err) in
    run found := ingestionJobFromQueue message workerID in
    match found with
    | Err IErrNotFound => ack
    | Err e => ask err := IQueueNack (q_ID message) in Return _ (true, e :: option_list err)
    | Ok (job, markDBComplete, businessClaimed) =>
      if negb businessClaimed then ack
      else
        run err := processJob job markDBComplete in
        match err with
        | None => ack
        | Some e =>
          run stateErr := (if markDBComplete then failJob job e else Return _ None) in
          ask err := IQueueNack (q_ID message) in
          Return _ (true, e :: option_list stateErr ++ option_list err)
        end
    end
  end.
End Service.

(** ** The documents of a knowledge base *)

(** [knowledge_usecase]: the indexer of the service is [backend]; audit records are left out. *)
Definition DeleteDocument (backend : string) (ownerID id : Z) : prog (option IngestErr) :=
  ask found := IFindDocument ownerID id in
  match found with
  | Err e => Return _ (Some e)
  | Ok doc =>
    ask err := IIndexDeleteDocument backend ownerID id in
    match err with
    | Some e => Return _ (Some e)
    | None =>
      ask err := IDeleteChunks ownerID id in
      match err with
      | Some e => Return _ (Some e)
      | None =>
        ask err := ISoftDelete ownerID id in
        match err with
        | Some e => Return _ (Some e)
        | None => ask err := IAdjustCounts ownerID (d_KnowledgeBaseID doc) (-1) (- d_ChunkCount doc) in Return _ err
        end
      end
    end
  end.

(** When the index fails the row is set back. *)
Definition SetDocumentEnabled (backend : string) (ownerID id : Z) (enabled : bool) : prog (result (list IngestErr) Document) :=
  ask found := IFindDocument ownerID id in
  match found with
  | Err e => Return _ (Err [e])
  | Ok doc =>
    if Bool.eqb (d_Enabled doc) enabled then Return _ (Ok doc)
    else
      ask err := ISetEnabled ownerID id enabled in
      match err with
      | Some e => Return _ (Err [e])
      | None =>
        ask err := IIndexSetEnabled backend ownerID id enabled in
        match err with
        | Some e => ask err := ISetEnabled ownerID id (d_Enabled doc) in Return _ (Err (e :: option_list err))
        | None => Return _ (Ok (doc_setEnabled enabled doc))
        end
      end
  end.

(** ** What a search sees *)

(** The filter of [ActiveGenerationIDs] (elasticsearch/retrieval.go, milvus/store.go): when any
    document has a generation, an entry must belong to one of them. *)
Definition activeGenerations (ownerID kbID : Z) (d : IngestionDB) : gmap Z string :=
  d_ActiveGenerationID <$> filter (λ kv, d_OwnerID kv.2 = ownerID ∧ d_KnowledgeBaseID kv.2 = kbID ∧ d_DeletedAt kv.2 = None ∧ TrimSpace (d_ActiveGenerationID kv.2) ≠ ""%string) (db_docs d).
Definition searchable (ownerID kbID : Z) (generations : gmap Z string) (e : ChunkIndexDocument) : bool :=
  (ix_OwnerID e =? ownerID) && (ix_KnowledgeBaseID e =? kbID) &&
  (bool_decide (generations = ∅) || bool_decide (generations !! ix_DocumentID e = Some (ix_GenerationID e))) && ix_Enabled e.
Definition SearchEntries (backend : string) (ownerID kbID : Z) (d : IngestionDB) : gmap Z ChunkIndexDocument :=
  filter (λ kv, searchable ownerID kbID (activeGenerations ownerID kbID d) kv.2 = true) (indexOf backend d).
