(* ===== verification/IngestionView.v ===== *)
(** What the ingestion of documents ([Ingestion]) guarantees: a worker changes a document over to
    its new generation at once.  [always] follows a run through every answer and failure of its
    calls; the view of a document is its active generation with the rows and index entries that
    belong to it.  At the end, interleavings in which documents get lost or come back. *)
From S2P Require Import Prelude GoStr Json Documents Chunker Threads Ingestion.
Open Scope Z_scope.
Section IngestionTheorems.
Context (clock : IngestionDB → Z → Prop).

(** ** Every moment of a run *)

(** [P] holds at every moment, whatever the calls answer; [Q] holds at the end. *)
Fixpoint always {A} (P : IngestionDB → Prop) (Q : A → IngestionDB → Prop) (p : program icall A) (d : IngestionDB) : Prop :=
  P d ∧ match p with
  | Return _ a => Q a d
  | Ask _ c k => ∀ x d', performI clock _ c d x d' → always P Q (k x) d'
  end.

Lemma always_now {A} P Q (p : program icall A) d : always P Q p d → P d.
Proof. by destruct p; intros [? _]. Qed.
Lemma always_bind {A B} P (Q : B → IngestionDB → Prop) (p : program icall A) (f : A → program icall B) d :
  always P (λ a d, always P Q (f a) d) p d → always P Q (bindProg p f) d.
Proof.
  revert d. induction p as [a|X c k IH]; intros d [HP Hp]; cbn in *; [done|]. split; [done|]. intros x d' Hc. by apply IH, Hp.
Qed.
Lemma always_mono {A} P (Q Q' : A → IngestionDB → Prop) (p : program icall A) d : (∀ a d, P d → Q a d → Q' a d) → always P Q p d → always P Q' p d.
Proof.
  intros HQ. revert d. induction p as [a|X c k IH]; intros d [HP Hp]; cbn in *; split; [done|by apply HQ|done|]. intros x d' Hc. by apply IH, Hp.
Qed.
Lemma always_ask {A X} P Q (c : icall X) (k : X → program icall A) d : P d → (∀ x d', performI clock _ c d x d' → always P Q (k x) d') → always P Q (Ask _ c k) d.
Proof. done. Qed.
End IngestionTheorems.

(** ** Inserting rows *)

Section Inserts.
Context {A : Type} (key : A → Z).
Notation inserts m es := (foldl (λ m e, <[key e := e]> m) m es).

Lemma inserts_other (m : gmap Z A) es id : id ∉ key <$> es → inserts m es !! id = m !! id.
Proof.
  revert m. induction es as [|e es IH]; intros m Hn; [done|]. cbn. rewrite fmap_cons, not_elem_of_cons in Hn. destruct Hn as [Hne Hn].
  rewrite IH by done. by rewrite lookup_insert_ne.
Qed.
Lemma inserts_in (m : gmap Z A) es e : NoDup (key <$> es) → e ∈ es → inserts m es !! key e = Some e.
Proof.
  revert m. induction es as [|x es IH]; intros m Hnd He; [by apply elem_of_nil in He|]. rewrite fmap_cons, NoDup_cons in Hnd. destruct Hnd as [Hx Hnd]. cbn.
  apply elem_of_cons in He as [->|He]; [|by apply IH]. rewrite inserts_other by done. by rewrite lookup_insert_eq.
Qed.
Lemma inserts_Some (m : gmap Z A) es id e : NoDup (key <$> es) →
  inserts m es !! id = Some e ↔ (e ∈ es ∧ key e = id) ∨ (id ∉ key <$> es ∧ m !! id = Some e).
Proof.
  intros Hnd. destruct (decide (id ∈ key <$> es)) as [Hin|Hn].
  - apply list_elem_of_fmap in Hin as (x & -> & Hx). rewrite (inserts_in m es x Hnd Hx). split.
    + intros [= <-]. by left.
    + intros [[He Hk]|[Hn _]]; [|destruct Hn; by apply list_elem_of_fmap_2]. pose proof (inserts_in m es e Hnd He) as E. rewrite Hk, inserts_in in E by done. done.
  - rewrite inserts_other by done. split; [by right|]. intros [[He <-]|[_ ?]]; [|done]. destruct Hn. by apply list_elem_of_fmap_2.
Qed.
End Inserts.

Lemma numbered_ids n cs : ch_ID <$> numbered n cs = seqZ n (zlen cs).
Proof.
  revert n. induction cs as [|c cs IH]; intros n; [done|]. cbn [numbered]. rewrite fmap_cons, IH. unfold zlen. cbn [length]. rewrite Nat2Z.inj_succ.
  rewrite (seqZ_cons n) by lia. cbn. do 2 f_equal; lia.
Qed.
Lemma numbered_rows n cs c : c ∈ numbered n cs → ∃ c', c' ∈ cs ∧ c = ch_setID (ch_ID c) c'.
Proof.
  revert n. induction cs as [|c' cs IH]; intros n; [by intros ?%elem_of_nil|]. cbn [numbered]. intros [->|Hc]%elem_of_cons; [exists c'; split; [left|done]|].
  destruct (IH _ Hc) as (x & Hx & E). exists x. split; [by right|done].
Qed.
Lemma numbered_unnumbered n cs : (∀ c, c ∈ cs → ch_ID c = 0) → ch_setID 0 <$> numbered n cs = cs.
Proof.
  revert n. induction cs as [|c cs IH]; intros n Hz; [done|]. cbn [numbered]. rewrite fmap_cons, IH by (intros x Hx; apply Hz; by right). f_equal.
  specialize (Hz c ltac:(left)). destruct c. cbn in *. by subst.
Qed.

(** ** The view of a document *)

Section View.
Context (to_upper : Z → Z) (chunkDocument : string → ParsedDocument → Policy → result string (list Chunk)).
Context (sha256_hex : string → string) (marshalMetadata : metadata → result string string) (indexMetadata : string → metadata).
Context (profileKey : EmbeddingProfile → string) (indexers : list string) (defaultIndexer : option string) (hasEmbedder hasCommitter : bool) (errText : IngestErr → string).
Context (clock : IngestionDB → Z → Prop).

Definition genChunks (O D : Z) (g : string) (d : IngestionDB) : gmap Z DocumentChunk :=
  filter (λ kv, ofDocument O D kv.2 = true ∧ ch_GenerationID kv.2 = g) (db_chunks d).
Definition genEntries (b : string) (O D : Z) (g : string) (d : IngestionDB) : gmap Z ChunkIndexDocument :=
  filter (λ kv, indexed O D kv.2 = true ∧ ix_GenerationID kv.2 = g) (indexOf b d).

(** Documents and entries are found under their keys; ids of chunks come from the sequence. *)
Definition kept (d : IngestionDB) : Prop :=
  (∀ id doc, db_docs d !! id = Some doc → d_ID doc = id) ∧ (∀ id c, db_chunks d !! id = Some c → id < db_chunkSequence d) ∧
  (∀ b id e, indexOf b d !! id = Some e → id < db_chunkSequence d).

(** The row of the document has this owner and this active generation. *)
Definition rowIs (O D : Z) (g : string) (d : IngestionDB) : Prop := ∃ doc, db_docs d !! D = Some doc ∧ d_OwnerID doc = O ∧ d_ActiveGenerationID doc = g.

(** A row or an entry of the document has this generation. *)
Definition usedGeneration (O D : Z) (d : IngestionDB) (generation : string) : Prop :=
  (∃ id c, db_chunks d !! id = Some c ∧ ofDocument O D c = true ∧ ch_GenerationID c = generation) ∨
  (∃ b id e, indexOf b d !! id = Some e ∧ indexed O D e = true ∧ ix_GenerationID e = generation) ∨ rowIs O D generation d.
(** A time after the times that name generations of the document. *)
Definition afterGenerations (O D : Z) (d : IngestionDB) (now : Z) : Prop := ∀ n, usedGeneration O D d ("gen-" ++ Itoa n) → n < now.

(** The rows and the entries of a whole generation. *)
Definition whole (b : string) (O D : Z) (g : string) (created : list DocumentChunk) (d : IngestionDB) : Prop :=
  (∀ id c, genChunks O D g d !! id = Some c ↔ c ∈ created ∧ ch_ID c = id) ∧
  (∀ id, is_Some (genEntries b O D g d !! id) ↔ id ∈ ch_ID <$> created) ∧
  (∀ id e, genEntries b O D g d !! id = Some e → ∃ c, c ∈ created ∧ ch_ID c = id ∧ ix_ChunkIndex e = ch_ChunkIndex c ∧ ix_Content e = ch_Content c).

Section Document.
Context (O D : Z) (g : string) (d0 : IngestionDB) (Hg : g ≠ ""%string) (Hgt : TrimSpace g = g).
Context (Hclock : ∀ d now, clock d now → afterGenerations O D d now).

(** As before. *)
Definition oldView (d : IngestionDB) : Prop :=
  rowIs O D g d ∧ genChunks O D g d = genChunks O D g d0 ∧ ∀ b, genEntries b O D g d = genEntries b O D g d0.
(** The chunks of a parsed document, stored and indexed, are the active generation. *)
Definition newView (d : IngestionDB) : Prop :=
  ∃ b job g' method parsed policy parts created, ij_OwnerID job = O ∧ ij_DocumentID job = D ∧ chunkDocument method parsed policy = Ok parts ∧ parts ≠ [] ∧
    rowIs O D g' d ∧ ch_setID 0 <$> created = chunkRow sha256_hex marshalMetadata job g' <$> parts ∧ whole b O D g' created d.
Definition view (d : IngestionDB) : Prop := kept d ∧ (oldView d ∨ newView d).

(** *** Steps that the view does not notice *)

Record quiet (d d' : IngestionDB) : Prop := mkQuiet {
  quiet_chunks : db_chunks d' = db_chunks d;
  quiet_sequence : db_chunkSequence d' = db_chunkSequence d;
  quiet_index : ∀ b, indexOf b d' = indexOf b d;
  quiet_rows : ∀ a, rowIs O D a d → rowIs O D a d';
  quiet_keyed : (∀ id doc, db_docs d !! id = Some doc → d_ID doc = id) → ∀ id doc, db_docs d' !! id = Some doc → d_ID doc = id
}.

Lemma quiet_refl d : quiet d d.
Proof. by split. Qed.

Lemma quiet_gen d d' : quiet d d' → (∀ g', genChunks O D g' d' = genChunks O D g' d) ∧ ∀ b g', genEntries b O D g' d' = genEntries b O D g' d.
Proof. intros [H1 H2 H3 _ _]. unfold genChunks, genEntries. split; intros; by rewrite ?H1, ?H3. Qed.

Lemma kept_quiet d d' : quiet d d' → kept d → kept d'.
Proof. intros [H1 H2 H3 _ H5] (K1 & K2 & K3). split_and!; [by apply H5|rewrite H1, H2; done|]. intros b. rewrite H3, H2. apply K3. Qed.
Lemma oldView_quiet d d' : quiet d d' → oldView d → oldView d'.
Proof. intros Hq (Hr & Hc & He). destruct (quiet_gen _ _ Hq) as [Ec Ee]. split_and!; [by apply Hq|by rewrite Ec|]. intros b. by rewrite Ee. Qed.
Lemma newView_quiet d d' : quiet d d' → newView d → newView d'.
Proof.
  intros Hq (b & job & g' & m & pa & po & parts & created & H1 & H2 & H3 & H4 & H5 & H6 & W1 & W2 & W3). destruct (quiet_gen _ _ Hq) as [Ec Ee].
  exists b, job, g', m, pa, po, parts, created. split_and!; try done; [by apply Hq|]. split_and!; [by rewrite Ec|by rewrite Ee|by rewrite Ee].
Qed.
Lemma view_quiet d d' : quiet d d' → view d → view d'.
Proof. intros Hq [Hk Hv]. split; [by eapply kept_quiet|]. destruct Hv as [Hv|Hv]; [left; by eapply oldView_quiet|right; by eapply newView_quiet]. Qed.

(** Steps that leave documents, chunks and indexes alone. *)
Definition unchanged (d d' : IngestionDB) : Prop :=
  db_docs d' = db_docs d ∧ db_chunks d' = db_chunks d ∧ db_chunkSequence d' = db_chunkSequence d ∧ db_index d' = db_index d.
Lemma unchanged_quiet d d' : unchanged d d' → quiet d d'.
Proof. intros (H1 & H2 & H3 & H4). split; [done|done|intros b; unfold indexOf; by rewrite H4|intros a; unfold rowIs; by rewrite H1|by rewrite H1]. Qed.

Definition isQuiet {X} (c : icall X) : bool :=
  match c with
  | IUpdateDocument _ | ISetEnabled _ _ _ | ISoftDelete _ _ | IIndexSetEnabled _ _ _ _ | IDeleteChunks _ _ | IDeleteInactiveChunks _ _ _ | ICreateBatch _ | IActivate _ _ _ | IIndexChunks _ _
  | IIndexDeleteDocument _ _ _ | IIndexDeleteInactive _ _ _ _ => false
  | _ => true
  end.

Lemma transaction_unchanged {X} (answer : X * IngestionDB) fail d x d' : unchanged d answer.2 → transaction answer fail d x d' → unchanged d d'.
Proof. destruct answer as [y dy]. intros Hu [[= -> ->]|(msg & _ & [->| ->])]; done. Qed.

Lemma quiet_call {X} (c : icall X) d x d' : isQuiet c = true → performI clock _ c d x d' → unchanged d d'.
Proof.
  destruct c; intros Hq Hp; try done; cbn in Hp; unfold query, statement in Hp; try (by subst d'); try (by destruct Hp as [-> _]); try (destruct Hp as [now Hp]).
  all: eapply transaction_unchanged; [|exact Hp]; unfold ClaimNext, ClaimByID, RenewLock, MarkCompleted, MarkFailed, AdjustCounts, UpdateKB, set_ijob; repeat case_match; simplify_eq/=; done.
Qed.

(** *** The row that a handler has read *)

Definition knows (doc : Document) (d : IngestionDB) : Prop :=
  ∃ row, db_docs d !! d_ID doc = Some row ∧ d_OwnerID row = d_OwnerID doc ∧ d_ActiveGenerationID row = d_ActiveGenerationID doc.

Lemma UpdateDocument_quiet doc d : knows doc d → quiet d (UpdateDocument doc d) ∧ knows doc (UpdateDocument doc d).
Proof.
  intros (row & Hrow & Ho & Ha). split.
  - split; try done.
    + intros a (r & Hr & Hro & Hra). unfold rowIs. cbn. destruct (decide (d_ID doc = D)) as [E|E].
      * exists doc. rewrite E, lookup_insert_eq. rewrite E, Hr in Hrow. injection Hrow as ->. split_and!; [done|by rewrite <- Ho|by rewrite <- Ha].
      * exists r. by rewrite lookup_insert_ne.
    + intros Hk id x. cbn. rewrite lookup_insert_Some. intros [[<- <-]|[_ Hx]]; [done|by apply Hk].
  - exists doc. cbn. by rewrite lookup_insert_eq.
Qed.

Lemma update_call doc d x d' : knows doc d → performI clock _ (IUpdateDocument doc) d x d' → quiet d d' ∧ knows doc d'.
Proof.
  intros Hk Hp. destruct (UpdateDocument_quiet doc d Hk) as [Hq Hk']. destruct Hp as [[= _ ->]|(msg & _ & [->| ->])]; [done|split; [apply quiet_refl|done]|done].
Qed.

Lemma find_call o id d x d' : performI clock _ (IFindDocument o id) d x d' → kept d →
  d' = d ∧ ∀ doc, x = Ok doc → knows doc d ∧ d_ID doc = id ∧ d_OwnerID doc = o.
Proof.
  intros Hp (Hk & _). cbn in Hp. unfold query in Hp.
  destruct Hp as [[= -> ->]|(msg & -> & [->| ->])]; (split; [done|]); [|done..]. intros doc. unfold FindDocument. case_match eqn:Hd; [|done]. case_match; [|done]. intros [= ->]. bool_prop.
  pose proof (Hk _ _ Hd) as E. split_and!; [|done|done]. exists doc. by rewrite E.
Qed.

(** What is known along a run, and survives calls that do not concern it. *)
Record steady (R : IngestionDB → Prop) : Prop := mkSteady { steady_view : ∀ d, R d → view d; steady_step : ∀ d d', unchanged d d' → R d → R d' }.

Lemma ask_quiet {A X} R (Q : A → IngestionDB → Prop) (c : icall X) (k : X → program icall A) d :
  steady R → isQuiet c = true → R d → (∀ x d', performI clock _ c d x d' → R d' → always clock view Q (k x) d') → always clock view Q (Ask _ c k) d.
Proof. intros [HV HS] Hc HR Hk. split; [by apply HV|]. intros x d' Hp. apply Hk; [done|]. eapply HS; [|done]. by eapply quiet_call. Qed.
Lemma return_steady {A} R (Q : A → IngestionDB → Prop) a d : steady R → R d → Q a d → always clock view Q (Return _ a) d.
Proof. intros [HV _] HR HQ. split; [by apply HV|done]. Qed.

Lemma view_steady : steady view.
Proof. split; [done|]. intros d d' Hu. by apply view_quiet, unchanged_quiet. Qed.

Definition pre (doc : Document) (d : IngestionDB) : Prop := kept d ∧ oldView d ∧ knows doc d.

Lemma knows_unchanged doc d d' : unchanged d d' → knows doc d → knows doc d'.
Proof. intros (H1 & _) Hk. unfold knows. by rewrite H1. Qed.
Lemma pre_steady doc : steady (pre doc).
Proof.
  split; [intros d (Hk & Ho & _); split; [done|by left]|]. intros d d' Hu (Hk & Ho & Hn). pose proof (unchanged_quiet _ _ Hu) as Hq.
  split_and!; [by eapply kept_quiet|by eapply oldView_quiet|by eapply knows_unchanged].
Qed.

Lemma pre_active doc d : pre doc d → d_ID doc = D → d_OwnerID doc = O ∧ d_ActiveGenerationID doc = g.
Proof.
  intros (_ & ((r & Hr & Ho & Ha) & _) & (row & Hrow & Ho' & Ha')) E. rewrite E, Hr in Hrow. injection Hrow as <-. by rewrite <- Ho', <- Ha'.
Qed.

(** The document is stored with another status. *)
Lemma ask_update {A} (Q : A → IngestionDB → Prop) doc (k : option IngestErr → program icall A) d :
  pre doc d → (∀ x d', pre doc d' → quiet d d' → always clock view Q (k x) d') → always clock view Q (Ask _ (IUpdateDocument doc) k) d.
Proof.
  intros Hp Hk. split; [by apply (pre_steady doc)|]. intros x d' Hc. destruct Hp as (Hke & Ho & Hn). destruct (update_call doc d x d' Hn Hc) as [Hq Hn'].
  apply Hk; [|done]. split_and!; [by eapply kept_quiet|by eapply oldView_quiet|done].
Qed.

(** *** Failing and finishing *)

Lemma finish_always job mark d : view d → always clock view (λ _, view) (finish job mark) d.
Proof.
  intros Hv. unfold finish. destruct mark; [|done]. eapply (ask_quiet view); [apply view_steady|done|done|]. intros x d' _ Hv'. done.
Qed.

Lemma failJob_always job cause d : view d → always clock view (λ _, view) (failJob errText job cause) d.
Proof.
  intros Hv. unfold failJob. eapply (ask_quiet view); [apply view_steady|done|done|]. intros x d1 _ Hv1. destruct x as [final|e]; [|done]. case_match; [done|].
  split; [done|]. intros y d2 Hp. destruct (find_call _ _ _ _ _ Hp (proj1 Hv1)) as [-> Hf]. destruct y as [doc|e]; [|done]. destruct (Hf doc eq_refl) as (Hk & _).
  split; [done|]. intros z d3 Hp'. destruct (update_call (doc_setStatus _ _ doc) d1 z d3 Hk Hp') as [Hq _]. pose proof (view_quiet _ _ Hq Hv1). done.
Qed.

(** *** The removal of old generations *)

Lemma genChunks_ext d d' g' : (∀ id c, ofDocument O D c = true → ch_GenerationID c = g' → db_chunks d' !! id = Some c ↔ db_chunks d !! id = Some c) → genChunks O D g' d' = genChunks O D g' d.
Proof.
  intros Hx. apply map_eq. intros id. apply option_eq. intros c. unfold genChunks. rewrite !map_lookup_filter_Some. cbn. naive_solver.
Qed.
Lemma genEntries_ext b d d' g' : (∀ id e, indexed O D e = true → ix_GenerationID e = g' → indexOf b d' !! id = Some e ↔ indexOf b d !! id = Some e) → genEntries b O D g' d' = genEntries b O D g' d.
Proof.
  intros Hx. apply map_eq. intros id. apply option_eq. intros e. unfold genEntries. rewrite !map_lookup_filter_Some. cbn. naive_solver.
Qed.

Lemma indexOf_set b b' ix d : indexOf b' (set_index b ix d) = if decide (b' = b) then ix else indexOf b' d.
Proof. unfold indexOf. cbn. case_decide as E; [subst; by rewrite lookup_insert_eq|by rewrite lookup_insert_ne]. Qed.

(** What an index call leaves: entries of the ones before or of the ones it writes. *)
Lemma indexCall_entries b f d x d' : indexCall b f d x d' →
  ∃ ix, d' = set_index b ix d ∧ (x = None → ix = f (indexOf b d)) ∧ ∀ id, ix !! id = indexOf b d !! id ∨ ix !! id = f (indexOf b d) !! id.
Proof. intros [[-> ->]|(msg & ix & -> & -> & Hi)]; [exists (f (indexOf b d)); split_and!; [done|done|by right]|]. by exists ix. Qed.

(** An index call that keeps the entries of the active generation, and brings none but to
    ids of the sequence. *)
Lemma indexCall_pre b f d x d' doc : pre doc d → indexCall b f d x d' →
  (∀ id e, indexed O D e = true → ix_GenerationID e = g → f (indexOf b d) !! id = Some e ↔ indexOf b d !! id = Some e) →
  (∀ id e, f (indexOf b d) !! id = Some e → id < db_chunkSequence d) → pre doc d'.
Proof.
  intros ((K1 & K2 & K3) & (Hr & Hc & He) & Hn) Hcall Hkeep Hseq. destruct (indexCall_entries _ _ _ _ _ Hcall) as (ix & -> & _ & Hix). split_and!.
  - split_and!; [done|done|]. intros b' id e. rewrite indexOf_set. case_decide; [|apply K3]. destruct (Hix id) as [->| ->]; [apply K3|apply Hseq].
  - split_and!; [done|done|]. intros b'. rewrite <- (He b'). apply genEntries_ext. intros id e H1 H2. rewrite indexOf_set. case_decide as E; [|done]. subst b'.
    destruct (Hix id) as [->| ->]; [done|by apply Hkeep].
  - done.
Qed.

Lemma indexed_document o id O' D' e : indexed o id e = true → indexed O' D' e = true → id = D' ∧ o = O'.
Proof. unfold indexed. intros. bool_prop. lia. Qed.
Lemma of_document o id O' D' c : ofDocument o id c = true → ofDocument O' D' c = true → id = D' ∧ o = O'.
Proof. unfold ofDocument. intros. bool_prop. lia. Qed.

Lemma filter_entry (P : Z * ChunkIndexDocument → Prop) `{!∀ x, Decision (P x)} (ix : gmap Z ChunkIndexDocument) id e : (indexed O D e = true → ix_GenerationID e = g → P (id, e)) →
  indexed O D e = true → ix_GenerationID e = g → filter P ix !! id = Some e ↔ ix !! id = Some e.
Proof. intros HP H1 H2. rewrite map_lookup_filter_Some. naive_solver. Qed.

Lemma set_chunks_pre doc rows next d : pre doc d → db_chunkSequence d ≤ next →
  (∀ id c, ofDocument O D c = true → ch_GenerationID c = g → rows !! id = Some c ↔ db_chunks d !! id = Some c) →
  (∀ id c, rows !! id = Some c → id < next) → pre doc (set_chunks rows next d).
Proof.
  intros ((K1 & K2 & K3) & (Hr & Hc & He) & Hn) Hle Hkeep Hseq. split_and!; [|split_and!|done]; [|done| |done].
  - split_and!; [done|done|]. intros b id e Hi. specialize (K3 b id e Hi). cbn. lia.
  - rewrite <- Hc. by apply genChunks_ext.
Qed.

Lemma processGenerationCleanup_always job mark d : view d → oldView d → always clock view (λ _, view) (processGenerationCleanup indexers defaultIndexer job mark) d.
Proof.
  intros Hv Hold. unfold processGenerationCleanup. split; [done|]. intros x d1 Hp. destruct (find_call _ _ _ _ _ Hp (proj1 Hv)) as [-> Hf]. destruct x as [doc|e]; [|done].
  destruct (Hf doc eq_refl) as (Hk & Hid & Ho). assert (pre doc d) as Hpre by (split_and!; [apply Hv|done|done]). case_match; [done|].
  eapply (ask_quiet (pre doc)); [apply pre_steady|done|done|]. intros y d1 _ Hpre1. destruct y as [kb|e]; [|by apply (return_steady (pre doc)); [apply pre_steady|done|apply (pre_steady doc)]].
  destruct (indexerFor _ _ kb) as [b|]; [|by apply (return_steady (pre doc)); [apply pre_steady|done|apply (pre_steady doc)]].
  assert (∀ {B} (a : B) d', pre doc d' → always clock view (λ _, view) (Return B a) d') as Hret by (intros B a d' Hd'; apply (return_steady (pre doc)); [apply pre_steady|done|by apply (pre_steady doc)]).
  (* the generation that stays is the active one *)
  assert (∀ d', pre doc d' → ij_OwnerID job = O → ij_DocumentID job = D → TrimSpace (d_ActiveGenerationID doc) = g) as Hact.
  { intros d' Hd' _ Ed. destruct (pre_active doc d' Hd') as [_ ->]; [by rewrite Hid|done]. }
  split; [by apply (pre_steady doc)|]. intros err d2 Hcall. assert (pre doc d2) as Hpre2.
  { eapply indexCall_pre; [done|exact Hcall|..].
    - intros id e. apply filter_entry. intros Hi Hg'. cbn. apply andb_false_iff. destruct (indexed (ij_OwnerID job) (ij_DocumentID job) e) eqn:Hi'; [|by left]. right.
      destruct (indexed_document _ _ _ _ _ Hi' Hi) as [Ed Eo]. rewrite (Hact d1) by done. by rewrite Hg', String.eqb_refl.
    - intros id e [Hi _]%map_lookup_filter_Some. by apply (proj2 (proj2 (proj1 Hpre1))) in Hi. }
  destruct err as [e|]; [by apply Hret|]. split; [by apply (pre_steady doc)|]. intros err d3 Hcall3. assert (pre doc d3) as Hpre3.
  { assert (pre doc (DeleteInactiveChunks (ij_OwnerID job) (ij_DocumentID job) (TrimSpace (d_ActiveGenerationID doc)) d2)) as Hdel.
    { apply set_chunks_pre; [done|lia|..].
      - intros id c Hi Hg'. rewrite map_lookup_filter_Some. split; [by intros [? _]|]. intros Hc. split; [done|]. cbn. apply andb_false_iff.
        destruct (ofDocument (ij_OwnerID job) (ij_DocumentID job) c) eqn:Hi'; [|by left]. right. destruct (of_document _ _ _ _ _ Hi' Hi) as [Ed Eo].
        rewrite (Hact d2) by done. by rewrite Hg', String.eqb_refl.
      - intros id c [Hc _]%map_lookup_filter_Some. by apply (proj1 (proj2 (proj1 Hpre2))) in Hc. }
    destruct Hcall3 as [[= _ ->]|(msg & _ & [->| ->])]; done. }
  destruct err as [e|]; [by apply Hret|]. apply finish_always. by apply (pre_steady doc).
Qed.

(** *** A new generation *)

Lemma always_return {A} R (a : A) d : steady R → R d → always clock view (λ _, view) (Return _ a) d.
Proof. intros HR Hd. apply (return_steady R); [done|done|by apply HR]. Qed.

Lemma pre_quiet doc d d' : quiet d d' → knows doc d' → pre doc d → pre doc d'.
Proof. intros Hq Hn (Hk & Ho & _). split_and!; [by eapply kept_quiet|by eapply oldView_quiet|done]. Qed.

Section Generation.
Context (job : IngestionJob) (gen : string) (created : list DocumentChunk).

(** The rows of the new generation are stored, and nothing else has their ids. *)
Record made (doc : Document) (d : IngestionDB) : Prop := mkMade {
  made_pre : pre doc d;
  made_nodup : NoDup (ch_ID <$> created);
  made_rows : Forall (λ c, ch_OwnerID c = ij_OwnerID job ∧ ch_DocumentID c = ij_DocumentID job ∧ ch_GenerationID c = gen ∧ ch_ID c < db_chunkSequence d) created;
  made_free : ∀ b id, id ∈ ch_ID <$> created → indexOf b d !! id = None;
  made_own : ij_DocumentID job = D → gen ≠ g ∧ (∀ id c, genChunks O D gen d !! id = Some c ↔ c ∈ created ∧ ch_ID c = id) ∧ ∀ b, genEntries b O D gen d = ∅
}.

Lemma made_quiet doc d d' : quiet d d' → knows doc d' → made doc d → made doc d'.
Proof.
  intros Hq Hn [H1 H2 H3 H4 H5]. destruct (quiet_gen _ _ Hq) as [Ec Ee]. pose proof Hq as [_ Es Ei _ _]. split; [by eapply pre_quiet|done| | |].
  - by rewrite Es.
  - intros b. rewrite Ei. apply H4.
  - intros E. destruct (H5 E) as (Hne & Hc & He). split_and!; [done|by rewrite Ec|]. intros b. by rewrite Ee.
Qed.
Lemma made_status status error doc d : made doc d → made (doc_setStatus status error doc) d.
Proof. intros [H1 H2 H3 H4 H5]. split; [exact H1|done..]. Qed.
Lemma made_steady doc : steady (made doc).
Proof.
  split; [intros d Hm; apply (pre_steady doc), Hm|]. intros d d' Hu Hm. eapply made_quiet; [by apply unchanged_quiet| |done].
  eapply knows_unchanged; [done|]. apply Hm.
Qed.

(** Stored and indexed. *)
Definition ready (b : string) (doc : Document) (d : IngestionDB) : Prop := pre doc d ∧ (ij_DocumentID job = D → whole b O D gen created d).

Lemma whole_quiet b d d' : quiet d d' → whole b O D gen created d → whole b O D gen created d'.
Proof. intros Hq (W1 & W2 & W3). destruct (quiet_gen _ _ Hq) as [Ec Ee]. split_and!; [by rewrite Ec|by rewrite Ee|by rewrite Ee]. Qed.
Lemma ready_steady b doc : steady (ready b doc).
Proof.
  split; [intros d [Hp _]; by apply (pre_steady doc)|]. intros d d' Hu [Hp Hw]. split; [by eapply (pre_steady doc)|]. intros E.
  eapply whole_quiet; [by apply unchanged_quiet|by apply Hw].
Qed.

Lemma indexing b doc doc' kb model dims vectors d x d' : made doc d → d_OwnerID doc = ij_OwnerID job → d_ID doc = ij_DocumentID job →
  performI clock _ (IIndexChunks b (imap (indexDocument to_upper indexMetadata profileKey doc' kb model dims vectors) created)) d x d' →
  pre doc d' ∧ (x = None → ready b doc d').
Proof.
  intros [H1 H2 H3 H4 H5] Eo Eid Hcall. set (es := imap _ created) in *. cbn in Hcall.
  assert (ix_ChunkID <$> es = ch_ID <$> created) as Ek by (subst es; rewrite fmap_imap; apply imap_const). 
  assert (NoDup (ix_ChunkID <$> es)) as Hnd by (by rewrite Ek).
  assert (∀ e, e ∈ es → ∃ c, c ∈ created ∧ ch_ID c = ix_ChunkID e ∧ ix_OwnerID e = ch_OwnerID c ∧ ix_DocumentID e = ch_DocumentID c ∧ ix_GenerationID e = ch_GenerationID c ∧
    ix_ChunkIndex e = ch_ChunkIndex c ∧ ix_Content e = ch_Content c) as Hes.
  { intros e He. subst es. apply elem_of_lookup_imap in He as (i & c & -> & Hc). exists c. split; [by eapply list_elem_of_lookup_2|done]. }
  rewrite Forall_forall in H3. assert (pre doc d') as Hp'.
  { eapply indexCall_pre; [done|exact Hcall|..].
    - intros id e Hi Hg'. unfold IndexChunks. rewrite (inserts_Some ix_ChunkID _ _ _ _ Hnd). split; [|intros He; right; split; [|done]].
      + intros [[He _]|[_ He]]; [|done]. destruct (Hes e He) as (c & Hc & _ & _ & Ed & Egen & _). destruct (H3 c Hc) as (_ & Hcd & Hcg & _).
        unfold indexed in Hi. bool_prop. destruct (H5 ltac:(congruence)) as [Hne _]. congruence.
      + rewrite Ek. intros Hin. by rewrite (H4 b id Hin) in He.
    - intros id e. unfold IndexChunks. rewrite (inserts_Some ix_ChunkID _ _ _ _ Hnd). intros [[He <-]|[_ He]].
      + destruct (Hes e He) as (c & Hc & <- & _). by apply (H3 c).
      + destruct H1 as ((_ & _ & K3) & _). by eapply K3. }
  split; [done|]. intros ->. split; [done|]. intros ED. destruct (H5 ED) as (Hne & Hc & He).
  assert (ij_OwnerID job = O) as EO by (rewrite <- Eo; apply (pre_active doc d H1); by rewrite Eid).
  destruct (indexCall_entries _ _ _ _ _ Hcall) as (ix & -> & Hix & _). specialize (Hix eq_refl).
  assert (∀ id e, genEntries b O D gen (set_index b ix d) !! id = Some e ↔ e ∈ es ∧ ix_ChunkID e = id) as Hent.
  { intros id e. unfold genEntries. rewrite indexOf_set, decide_True by done. rewrite map_lookup_filter_Some, Hix. unfold IndexChunks. rewrite (inserts_Some ix_ChunkID _ _ _ _ Hnd). cbn. split.
    - intros [[Hin|[_ Hold]] [Hi Hg']]; [done|]. exfalso. assert (genEntries b O D gen d !! id = Some e) as Hx by (unfold genEntries; by apply map_lookup_filter_Some).
      by rewrite He, lookup_empty in Hx.
    - intros Hin. split; [by left|]. destruct (Hes e (proj1 Hin)) as (c & Hcc & _ & E1 & E2 & E3 & _). destruct (H3 c Hcc) as (F1 & F2 & F3 & _).
      unfold indexed. rewrite E1, E2, F1, F2, EO, ED, !Z.eqb_refl. by rewrite E3. }
  split_and!; [exact Hc| |].
  - intros id. rewrite <- Ek. split.
    + intros [e He']. apply Hent in He' as [He' <-]. by apply list_elem_of_fmap_2.
    + intros (e & -> & He')%list_elem_of_fmap. exists e. by apply Hent.
  - intros id e He'%Hent. destruct He' as [He' <-]. destruct (Hes e He') as (c & Hcc & E & _ & _ & _ & E1 & E2). by exists c.
Qed.

Lemma Activate_view b mark doc now' delta tokens d method parsed policy parts now :
  chunkDocument method parsed policy = Ok parts → parts ≠ [] → ch_setID 0 <$> created = chunkRow sha256_hex marshalMetadata job gen <$> parts →
  d_OwnerID doc = ij_OwnerID job → d_ID doc = ij_DocumentID job → ready b doc d →
  view (Activate now (completedDocument gen mark tokens now' doc) (cleanupJob job) delta d).2.
Proof.
  intros Hparts Hne Hrows Eo Eid [Hp Hw]. pose proof (steady_view _ (pre_steady doc) d Hp) as Hv. unfold Activate. case_match; [|done]. case_match; [|done]. cbn [snd].
  set (d1 := UpdateDocument (completedDocument gen mark tokens now' doc) d).
  assert (view d1) as Hv1.
  { destruct Hp as ((K1 & K2 & K3) & (Hr & Hc & He) & Hn). destruct (decide (d_ID doc = D)) as [ED|ED].
    - split; [split_and!; [|done|done]|].
      + intros id x. cbn. rewrite lookup_insert_Some. intros [[<- <-]|[_ Hx]]; [done|by apply K1].
      + right. assert (d_OwnerID doc = O) as EO by (eapply (pre_active doc d); [split_and!; [split_and!|split_and!|]; done|done]).
        exists b, job, gen, method, parsed, policy, parts, created. split_and!; try done; [congruence|congruence| |apply Hw; congruence].
        exists (completedDocument gen mark tokens now' doc). cbn. by rewrite ED, lookup_insert_eq.
    - split; [split_and!; [|done|done]|left; split_and!; [|done|done]].
      + intros id x. cbn. rewrite lookup_insert_Some. intros [[<- <-]|[_ Hx]]; [done|by apply K1].
      + destruct Hr as (r & Hr & Hr'). exists r. cbn. by rewrite lookup_insert_ne. }
  eapply (steady_step _ view_steady); [|exact Hv1]. done.
Qed.

Lemma activate_always b mark doc existing tokens d method parsed policy parts :
  chunkDocument method parsed policy = Ok parts → parts ≠ [] → ch_setID 0 <$> created = chunkRow sha256_hex marshalMetadata job gen <$> parts →
  d_OwnerID doc = ij_OwnerID job → d_ID doc = ij_DocumentID job → ready b doc d →
  always clock view (λ _, view) (activate hasCommitter job mark doc gen existing created tokens) d.
Proof.
  intros Hparts Hne Hrows Eo Eid Hr. unfold activate. eapply (ask_quiet (ready b doc)); [apply ready_steady|done|done|]. intros indexedAt d1 _ Hr1. clear d Hr.
  destruct (d_ActiveGenerationID doc =? "")%string eqn:Ha; cbn [negb]; bool_prop.
  - assert (pre doc d1) as Hp by apply Hr1. split; [by apply (pre_steady doc)|]. intros err d2 Hcall.
    destruct (update_call (completedDocument (d_ActiveGenerationID doc) (zlen created) tokens indexedAt doc) d1 err d2) as [Hq Hn]; [apply Hp|done|].
    pose proof (pre_quiet doc _ _ Hq Hn Hp) as Hp2. destruct err as [e|]; [by apply (always_return (pre doc)); [apply pre_steady|]|].
    eapply (ask_quiet (pre doc)); [apply pre_steady|done|done|]. intros err d3 _ Hp3. destruct err as [e|]; [by apply (always_return (pre doc)); [apply pre_steady|]|].
    apply finish_always. by apply (pre_steady doc).
  - destruct hasCommitter; cbn [negb]; [|by apply (always_return (ready b doc)); [apply ready_steady|]].
    split; [by apply (ready_steady b doc)|]. intros err d2 [now Hcall].
    assert (view d2) as Hv2.
    { pose proof (steady_view _ (ready_steady b doc) d1 Hr1) as Hv1.
      pose proof (Activate_view b (zlen created) doc indexedAt (zlen created - zlen (filter (λ c, ch_GenerationID c = d_ActiveGenerationID doc) existing)) tokens d1 method parsed policy parts now Hparts Hne Hrows Eo Eid Hr1) as Hv.
      destruct Hcall as [E|(msg & _ & [->| ->])]; [|done|done]. apply (f_equal snd) in E. cbn in E. by subst d2. }
    destruct err as [e|]; [by apply (always_return view); [apply view_steady|]|]. by apply finish_always.
Qed.

Lemma embedChunks_always R kb chunks d : steady R → R d → always clock view (λ _, R) (embedChunks hasEmbedder kb chunks) d.
Proof.
  intros HR Hd. unfold embedChunks.
  repeat first [ by apply (return_steady R) | eapply (ask_quiet R); [done|done|done|]; let d1 := fresh in let Hd1 := fresh in intros ? d1 _ Hd1; clear d Hd; rename d1 into d, Hd1 into Hd | progress cbv zeta | case_match ].
Qed.

Lemma indexGeneration_always b mark doc kb existing tokens d method parsed policy parts :
  chunkDocument method parsed policy = Ok parts → parts ≠ [] → ch_setID 0 <$> created = chunkRow sha256_hex marshalMetadata job gen <$> parts →
  d_OwnerID doc = ij_OwnerID job → d_ID doc = ij_DocumentID job → made doc d →
  always clock view (λ _, view) (indexGeneration to_upper indexMetadata profileKey hasEmbedder hasCommitter b job mark doc kb gen existing created tokens) d.
Proof.
  intros Hparts Hne Hrows Eo Eid Hm. unfold indexGeneration. set (doc' := doc_setStatus _ _ doc).
  assert (∀ {B} (a : B) d, made doc' d → always clock view (λ _, view) (Return B a) d) as Hret by (intros B a d' Hd'; by apply (always_return (made doc')); [apply made_steady|]).
  split; [exact (steady_view _ (made_steady doc) d Hm)|]. intros err d1 Hcall. destruct (update_call doc' d err d1) as [Hq Hn]; [exact (proj2 (proj2 (made_pre _ _ Hm)))|done|].
  assert (made doc' d1) as Hm1 by (eapply (made_quiet doc' d); [done|done|by apply made_status]). clear d Hm Hcall Hq Hn. destruct err as [e|]; [by apply Hret|].
  eapply (ask_quiet (made doc')); [apply made_steady|done|done|]. intros err d2 _ Hm2. destruct err as [e|]; [by apply Hret|].
  apply always_bind. eapply always_mono; [|by apply (embedChunks_always (made doc')); [apply made_steady|]]. clear d1 Hm1 d2 Hm2. intros embedded d _ Hm. cbv beta.
  destruct embedded as [[[vectors model] dims]|e]; [|by apply Hret]. destruct (profiled dims kb) as [kb' changed].
  apply always_bind. eapply (always_mono _ _ (λ _, made doc')).
  { clear d Hm. intros err d _ Hm. destruct err as [e|]; [by apply Hret|]. split; [exact (steady_view _ (made_steady doc') d Hm)|]. intros err d1 Hcall.
    destruct (indexing b doc' _ _ _ _ _ _ _ _ Hm Eo Eid Hcall) as [Hp Hr]. destruct err as [e|]; [by apply (always_return (pre doc')); [apply pre_steady|]|].
    eapply activate_always; try done. by apply Hr. }
  destruct changed; [|by apply (return_steady (made doc')); [apply made_steady|done|]].
  eapply (ask_quiet (made doc')); [apply made_steady|done|done|]. intros err d1 _ Hm1. by apply (return_steady (made doc')); [apply made_steady|done|].
Qed.
End Generation.

Lemma CreateBatch_made job gen doc parts d :
  pre doc d →
  (ij_DocumentID job = D → gen ≠ g ∧ (∀ id c, db_chunks d !! id = Some c → ofDocument O D c = true → ch_GenerationID c ≠ gen) ∧
    ∀ b id e, indexOf b d !! id = Some e → indexed O D e = true → ix_GenerationID e ≠ gen) →
  (ij_DocumentID job = D → ij_OwnerID job = O) →
  let rows := chunkRow sha256_hex marshalMetadata job gen <$> parts in
  made job gen (CreateBatch rows d).1 doc (CreateBatch rows d).2.
Proof.
  intros Hp Hfresh Howner rows. unfold CreateBatch. cbn [fst snd]. set (n := db_chunkSequence d). set (created := numbered n rows).
  assert (NoDup (ch_ID <$> created)) as Hnd by (subst created; rewrite numbered_ids; apply NoDup_seqZ).
  assert (∀ id, id ∈ ch_ID <$> created → n ≤ id < n + zlen rows) as Hids by (intros id; subst created; rewrite numbered_ids, elem_of_seqZ; done).
  assert (∀ c, c ∈ created → ch_OwnerID c = ij_OwnerID job ∧ ch_DocumentID c = ij_DocumentID job ∧ ch_GenerationID c = gen) as Hrow.
  { intros c Hc. apply numbered_rows in Hc as (c' & Hc' & ->). apply list_elem_of_fmap in Hc' as (part & -> & _). done. }
  assert (∀ id c, db_chunks d !! id = Some c → id < n) as Hold by apply Hp.
  assert (∀ b id e, indexOf b d !! id = Some e → id < n) as Holdi by apply Hp.
  assert (0 ≤ zlen rows) by (unfold zlen; lia).
  split.
  - apply set_chunks_pre; [done|lia|..].
    + intros id c Hi Hg'. rewrite (inserts_Some ch_ID _ _ _ _ Hnd). split.
      * intros [[Hc _]|[_ Hc]]; [|done]. destruct (Hrow c Hc) as (_ & Hd & Hgen). unfold ofDocument in Hi. bool_prop. destruct (Hfresh ltac:(congruence)) as [Hne _]. congruence.
      * intros Hc. right. split; [|done]. intros Hin%Hids. apply Hold in Hc. lia.
    + intros id c. rewrite (inserts_Some ch_ID _ _ _ _ Hnd). intros [[Hc <-]|[_ Hc]]; [|apply Hold in Hc; lia].
      assert (ch_ID c ∈ ch_ID <$> created) as Hin%Hids by (by apply list_elem_of_fmap_2). lia.
  - done.
  - apply Forall_forall. intros c Hc. destruct (Hrow c Hc) as (H1 & H2 & H3). split_and!; [done..|]. cbn.
    assert (ch_ID c ∈ ch_ID <$> created) as Hin%Hids by (by apply list_elem_of_fmap_2). lia.
  - intros b id Hin%Hids. change (indexOf b (set_chunks _ _ d)) with (indexOf b d). destruct (indexOf b d !! id) as [e|] eqn:He; [|done]. apply Holdi in He. lia.
  - intros ED. destruct (Hfresh ED) as (Hne & Hc & He). split_and!; [done| |].
    + intros id c. unfold genChunks. rewrite map_lookup_filter_Some. cbn. rewrite (inserts_Some ch_ID _ _ _ _ Hnd). split.
      * intros [[Hin|[_ Hin]] [Hi Hgen]]; [done|]. by apply Hc in Hin.
      * intros Hin. split; [by left|]. destruct (Hrow c (proj1 Hin)) as (H1 & H2 & H3). unfold ofDocument. rewrite H1, H2, (Howner ED), ED, !Z.eqb_refl. done.
    + intros b. apply map_empty. intros id. unfold genEntries. apply map_lookup_filter_None. right. change (indexOf b (set_chunks _ _ d)) with (indexOf b d).
      intros e Hin [Hi Hgen]. by apply He in Hin.
Qed.

(** The old rows go first when the document has no generations; it is not this one. *)
Lemma legacy_always b job doc d : d_ID doc = ij_DocumentID job → d_ActiveGenerationID doc = ""%string → pre doc d →
  always clock view (λ _, pre doc)
    (Ask _ (IDeleteChunks (ij_OwnerID job) (ij_DocumentID job)) (λ err, match err with Some e => Return _ (Some e) | None => Ask _ (IIndexDeleteDocument b (ij_OwnerID job) (ij_DocumentID job)) (λ err, Return _ err) end)) d.
Proof.
  intros Eid Ha Hp. assert (ij_DocumentID job ≠ D) as HD.
  { intros E. destruct (pre_active doc d Hp) as [_ Hx]; [congruence|]. apply Hg. by rewrite <- Hx. }
  split; [by apply (pre_steady doc)|]. intros err d1 Hcall. assert (pre doc d1) as Hp1.
  { assert (pre doc (DeleteChunks (ij_OwnerID job) (ij_DocumentID job) d)) as Hdel.
    { apply set_chunks_pre; [done|lia|..].
      - intros id c Hi _. rewrite map_lookup_filter_Some. split; [by intros [? _]|]. intros Hc. split; [done|]. cbn.
        destruct (ofDocument (ij_OwnerID job) (ij_DocumentID job) c) eqn:Hi'; [|done]. by destruct (of_document _ _ _ _ _ Hi' Hi).
      - intros id c [Hc _]%map_lookup_filter_Some. by apply (proj1 (proj2 (proj1 Hp))) in Hc. }
    destruct Hcall as [[= _ ->]|(msg & _ & [->| ->])]; done. }
  destruct err as [e|]; [by apply (return_steady (pre doc)); [apply pre_steady|done|]|]. split; [by apply (pre_steady doc)|]. intros err d2 Hcall2.
  apply (return_steady (pre doc)); [apply pre_steady|..]; (eapply indexCall_pre; [exact Hp1|exact Hcall2|..]).
  1,3: intros id e; apply filter_entry; intros Hi _; cbn; destruct (indexed (ij_OwnerID job) (ij_DocumentID job) e) eqn:Hi'; [|done]; by destruct (indexed_document _ _ _ _ _ Hi' Hi).
  all: intros id e [Hi _]%map_lookup_filter_Some; by apply (proj2 (proj2 (proj1 Hp1))) in Hi.
Qed.

Lemma storeParts_always b job mark doc kb parts d method parsed policy :
  chunkDocument method parsed policy = Ok parts → parts ≠ [] → d_OwnerID doc = ij_OwnerID job → d_ID doc = ij_DocumentID job → pre doc d →
  always clock view (λ _, view) (storeParts to_upper sha256_hex marshalMetadata indexMetadata profileKey hasEmbedder hasCommitter b job mark doc kb parts) d.
Proof.
  intros Hparts Hne Eo Eid Hp. unfold storeParts.
  assert (∀ {B} (a : B) d, pre doc d → always clock view (λ _, view) (Return B a) d) as Hret by (intros B a d' Hd'; by apply (always_return (pre doc)); [apply pre_steady|]).
  eapply (ask_quiet (pre doc)); [apply pre_steady|done|done|]. intros listed d1 _ Hp1. clear d Hp. destruct listed as [existing|e]; [|by apply Hret].
  apply always_bind. eapply (always_mono _ _ (λ _, pre doc)).
  2: { destruct (d_ActiveGenerationID doc =? "")%string eqn:Ha; cbn [negb]; bool_prop; [by apply legacy_always|by apply (return_steady (pre doc)); [apply pre_steady|done|]]. }
  clear d1 Hp1. intros err d _ Hp. destruct err as [e|]; [by apply Hret|].
  split; [by apply (pre_steady doc)|]. intros now d1 [-> Hnow]. assert (¬ usedGeneration O D d ("gen-" ++ Itoa now)) as Hunused by (intros Hused; specialize (Hclock d now Hnow now Hused); lia).
  set (gen := if negb _ then _ else _). split; [by apply (pre_steady doc)|]. intros x d1 Hcall.
  assert (made job gen (CreateBatch (chunkRow sha256_hex marshalMetadata job gen <$> parts) d).1 doc (CreateBatch (chunkRow sha256_hex marshalMetadata job gen <$> parts) d).2) as Hm.
  { apply CreateBatch_made; [done| |].
    - intros ED. destruct (pre_active doc d Hp) as [_ Ha]; [congruence|]. assert (gen = ("gen-" ++ Itoa now)%string) as ->.
      { subst gen. rewrite Ha. by rewrite (proj2 (String.eqb_neq _ _) Hg). }
      split_and!.
      + intros E. apply Hunused. right. right. rewrite E. apply Hp.
      + intros id c Hc Hi E. apply Hunused. left. by exists id, c.
      + intros b' id e He Hi E. apply Hunused. right. left. by exists b', id, e.
    - intros ED. destruct (pre_active doc d Hp) as [Ho _]; congruence. }
  destruct Hcall as [[= -> ->]|(msg & -> & [->| ->])]; [|by apply Hret|apply Hret, Hm].
  eapply indexGeneration_always; try done. cbn [CreateBatch fst]. apply numbered_unnumbered. intros c (part & -> & _)%list_elem_of_fmap. done.
Qed.

Lemma processDocument_always job mark d : view d → oldView d →
  always clock view (λ _, view) (processDocument to_upper chunkDocument sha256_hex marshalMetadata indexMetadata profileKey indexers defaultIndexer hasEmbedder hasCommitter job mark) d.
Proof.
  intros Hv Hold. unfold processDocument. split; [done|]. intros x d1 Hcall. destruct (find_call _ _ _ _ _ Hcall (proj1 Hv)) as [-> Hf]. destruct x as [doc0|e]; [|done].
  destruct (Hf doc0 eq_refl) as (Hk & Eid & Eo). assert (pre doc0 d) as Hp by (split_and!; [apply Hv|done|done]). clear Hv Hold Hf Hcall Hk.
  assert (∀ doc {B} (a : B) d, pre doc d → always clock view (λ _, view) (Return B a) d) as Hret by (intros doc B a d' Hd'; by apply (always_return (pre doc)); [apply pre_steady|]).
  eapply (ask_quiet (pre doc0)); [apply pre_steady|done|done|]. intros found d1 _ Hp1. clear d Hp. destruct found as [kb|e]; [|by eapply Hret].
  destruct (indexerFor _ _ kb) as [b|]; [|by eapply Hret]. cbv zeta. set (doc := doc_setStatus DocumentStatusParsing "" doc0). assert (pre doc d1) as Hp by exact Hp1.
  apply (ask_update _ doc); [done|]. intros err d Hpd _. clear d1 Hp1 Hp. destruct err as [e|]; [by eapply Hret|].
  eapply (ask_quiet (pre doc)); [apply pre_steady|done|done|]. intros data d1 _ Hp1. clear d Hpd. destruct data as [data|e]; [|by eapply Hret].
  eapply (ask_quiet (pre doc)); [apply pre_steady|done|done|]. intros parsed d _ Hp. clear d1 Hp1. destruct parsed as [parsed|e]; [|by eapply Hret].
  set (doc' := doc_setStatus DocumentStatusChunking (d_IngestionError doc) doc). assert (pre doc' d) as Hp' by exact Hp.
  apply (ask_update _ doc'); [done|]. intros err d1 Hp1 _. clear d Hp Hp'. destruct err as [e|]; [by eapply Hret|].
  destruct (chunkDocument (kb_ChunkMethod kb) parsed _) as [[|part parts]|e] eqn:Hc; [by eapply Hret| |by eapply Hret].
  eapply storeParts_always; done.
Qed.

Lemma processJob_always job mark d : view d → oldView d →
  always clock view (λ _, view) (processJob to_upper chunkDocument sha256_hex marshalMetadata indexMetadata profileKey indexers defaultIndexer hasEmbedder hasCommitter job mark) d.
Proof.
  intros Hv Hold. unfold processJob. case_match; [by apply processDocument_always|]. case_match; [by apply processGenerationCleanup_always|done].
Qed.

Lemma always_weaken {A} (P P' : IngestionDB → Prop) (Q : A → IngestionDB → Prop) p d : (∀ d, P d → P' d) → always clock P Q p d → always clock P' (λ _ _, True) p d.
Proof.
  intros HP. revert d. induction p as [a|X c k IH]; intros d [Hd Hp]; (split; [by apply HP|]); [done|]. intros x d' Hc. by apply IH, Hp.
Qed.

End Document.

(** C14. One worker switches a document over to a new generation at once, if the clock that
    names generations runs ahead of them: at each call it shows a time after those in the
    names of the generations that the document's rows and index entries have (the code
    takes the clock's nanoseconds for a name and does not look whether it is taken).  While
    the worker takes its next job, of whatever kind and for whatever document, and nobody
    else works on the tables, whatever its calls answer and wherever they fail, in part or
    after their commit, at every moment a document with an active generation has the rows
    and the index entries of that generation as they were, or its active generation is a
    new one that is complete: its rows are the chunks of a parsed document, and each has
    its entry.  With a second worker this fails: [cleanup_removes_new_generation]. *)
Theorem generation_switched_at_once (O D : Z) (g workerID : string) (d : IngestionDB) :
  (∀ d now, clock d now → afterGenerations O D d now) →
  kept d → rowIs O D g d → g ≠ ""%string → TrimSpace g = g →
  always clock (λ d', oldView O D g d d' ∨ newView O D d') (λ _ _, True)
    (ProcessNext to_upper chunkDocument sha256_hex marshalMetadata indexMetadata profileKey indexers defaultIndexer hasEmbedder hasCommitter errText workerID) d.
Proof.
  intros Hclock Hk Hr Hg Hgt. assert (oldView O D g d d) as Hold by done. eapply (always_weaken (view O D g d) _ (λ _, view O D g d)); [by intros d' [_ Hv]|].
  unfold ProcessNext. split; [by split; [|left]|]. intros x d1 Hcall. pose proof (quiet_call (IClaimNext workerID) d x d1 eq_refl Hcall) as Hu.
  assert (oldView O D g d d1) as Hold1 by (eapply oldView_quiet; [by apply unchanged_quiet|done]). assert (view O D g d d1) as Hv1 by (split; [eapply (kept_quiet O D); [by apply unchanged_quiet|done]|by left]).
  destruct x as [job|e]; [|by destruct e]. apply always_bind. eapply always_mono; [|by apply processJob_always]. intros err d2 _ Hv2. destruct err as [e|]; [|done].
  apply always_bind. eapply (always_mono _ _ (λ _, view O D g d)); [done|]. by apply failJob_always.
Qed.

(** What a search finds of a document with an active generation is in that generation. *)
Lemma search_sees_active b O D kb g d id e : rowIs O D g d → TrimSpace g ≠ ""%string →
  SearchEntries b O kb d !! id = Some e → ix_DocumentID e = D → (∀ doc, db_docs d !! D = Some doc → d_KnowledgeBaseID doc = kb ∧ d_DeletedAt doc = None) →
  genEntries b O D g d !! id = Some e.
Proof.
  intros (doc & Hdoc & Ho & Ha) Hg Hs HD Hkb. destruct (Hkb doc Hdoc) as [Hk Hdel]. unfold SearchEntries in Hs. apply map_lookup_filter_Some in Hs as [Hi Hs]. cbn in Hs.
  unfold searchable in Hs. bool_prop. assert (activeGenerations O kb d !! D = Some g) as Hgen.
  { unfold activeGenerations. rewrite lookup_fmap, (proj2 (map_lookup_filter_Some _ _ _ doc)); [cbn; by rewrite Ha|]. split; [done|]. cbn. by rewrite Ha. }
  unfold genEntries. apply map_lookup_filter_Some. split; [done|]. cbn. unfold indexed. split; [by apply andb_true_iff; split; apply Z.eqb_eq|].
  destruct_or!; bool_prop; [|congruence]. match goal with H : activeGenerations O kb d = ∅ |- _ => by rewrite H, lookup_empty in Hgen end.
Qed.
End View.

(** ** Samples *)

Module IngestionSamples.

(** Calls that succeed; the text of a file is its only chunk. *)
Definition exec (data : string) (X : Type) (c : icall X) (d : IngestionDB) : X * IngestionDB :=
  match c in icall X return X * IngestionDB with
  | IClock => (100 + Z.of_nat (size (db_chunks d)), d)
  | IClaimNext w => ClaimNext 1000 w d
  | IClaimByID o id w => ClaimByID 1000 o id w d
  | IRenewLock id w => RenewLock 1000 id w d
  | IMarkCompleted id w => MarkCompleted 1000 id w d
  | IMarkFailed id w m => MarkFailed 1000 id w m d
  | IFindDocument o id => (FindDocument o id d, d)
  | IUpdateDocument doc => (None, UpdateDocument doc d)
  | ISetEnabled o id enabled => (None, SetEnabled o id enabled d)
  | ISoftDelete o id => (None, SoftDelete 1000 o id d)
  | IIndexSetEnabled b o id enabled => (None, set_index b (IndexSetEnabled o id enabled (indexOf b d)) d)
  | IFindKB o id => (FindKB o id d, d)
  | IUpdateKB kb => (None, UpdateKB kb d)
  | IAdjustCounts o id a b => (None, AdjustCounts o id a b d)
  | IListChunks o id => (Ok (ListChunks o id d), d)
  | IDeleteChunks o id => (None, DeleteChunks o id d)
  | IDeleteInactiveChunks o id g => (None, DeleteInactiveChunks o id g d)
  | ICreateBatch cs => (Ok (CreateBatch cs d).1, (CreateBatch cs d).2)
  | IActivate doc cleanup delta => Activate 1000 doc cleanup delta d
  | IIndexChunks b docs => (None, set_index b (IndexChunks docs (indexOf b d)) d)
  | IIndexDeleteDocument b o id => (None, set_index b (IndexDeleteDocument o id (indexOf b d)) d)
  | IIndexDeleteInactive b o id g => (None, set_index b (IndexDeleteInactive o id g (indexOf b d)) d)
  | IEnsureIndex _ => (None, d)
  | IStorageGet _ => (Ok data, d)
  | IParse _ data => (Ok (mkDocument data "txt" []), d)
  | IFindProvider _ _ => (Err IErrNotFound, d)
  | IDecrypt _ => (Err IErrNotFound, d)
  | IEmbed _ _ => (Err IErrNotFound, d)
  | IQueueClaim _ => (Ok [], d)
  | IQueueAck _ => (None, d)
  | IQueueNack _ => (None, d)
  end.

(** The rest of a program after some calls. *)
Fixpoint after {A} (data : string) (n : nat) (p : program icall A) (d : IngestionDB) : program icall A * IngestionDB :=
  match n, p with
  | S n, Ask _ c k => let '(x, d') := exec data _ c d in after data n (k x) d'
  | _, _ => (p, d)
  end.

Definition chunkAll (method : string) (doc : ParsedDocument) (policy : Policy) : result string (list Chunk) :=
  match @RegistryChunk EstimatedTokenizer NewDefaultRegistry None method doc policy with Ok cs => Ok cs | Err _ => Err "chunk"%string end.
Notation worker := (ProcessNext (λ r, r) chunkAll (λ s, s) (λ _, Ok ""%string) (λ _, ∅) prof_Model ["elasticsearch"%string] None false true (λ _, "failed"%string)).

Definition sampleKB : KnowledgeBase := mkKB 1 7 None "elasticsearch" "keyword" None "" 0 "COSINE" "" 100 0 1 1.
Definition documentRow (id : Z) (generation : string) : Document := mkDoc id 7 None 1 "guide" "guide.txt" "txt" "key" generation "completed" "" true 1 2 None.
Definition jobRow (id : Z) (t : string) (doc priority : Z) : IngestionJob := mkIngestionJob id 7 1 doc t "pending" priority 0 3 None "" "" None None None id.
Definition entryOf (c : DocumentChunk) : ChunkIndexDocument :=
  mkIndexDoc (ch_OwnerID c) (ch_KnowledgeBaseID c) (ch_DocumentID c) (ch_GenerationID c) (ch_ID c) (ch_ChunkIndex c) "guide" "txt" "" (ch_Content c) "" true "" 0 0 "COSINE" "" None 2 ∅ None.
Definition oldChunk (id doc : Z) (generation : string) : DocumentChunk := mkDocumentChunk id 7 1 doc generation 0 "old text" "" 2 8 None "" "".

(** A document with an active generation, and jobs to ingest it again and to clean up. *)
Definition start : IngestionDB :=
  mkIngestionDB {[1 := documentRow 1 "gen-1"]} {[1 := sampleKB]} {[1 := oldChunk 1 1 "gen-1"]} 2
    (list_to_map [(1, jobRow 1 JobTypeDocument 1 5); (2, jobRow 2 JobTypeCleanup 1 0)]) 3 {["elasticsearch"%string := {[1 := entryOf (oldChunk 1 1 "gen-1")]}]}.

Definition contents (d : IngestionDB) : list string := ix_Content <$> (map_to_list (SearchEntries "elasticsearch" 7 1 d)).*2.

Lemma generation_switched_at_once_witness :
  contents (runAlone (exec "new text") (worker "w") start).2 = ["new text"%string] ∧
  (∀ n, (n ≤ 14)%nat → contents (after "new text" n (worker "w") start).2 = ["old text"%string]) ∧
  always (afterGenerations 7 1) (λ d', oldView 7 1 "gen-1" start d' ∨ newView chunkAll (λ s, s) (λ _, Ok ""%string) 7 1 d') (λ _ _, True) (worker "w") start.
Proof.
  split; [vm_compute; reflexivity|]. split.
  { intros n Hn. do 15 (destruct n as [|n]; [vm_compute; reflexivity|]). lia. }
  apply (generation_switched_at_once (λ r, r) chunkAll (λ s, s) (λ _, Ok ""%string) (λ _, ∅) prof_Model ["elasticsearch"%string] None false true (λ _, "failed"%string) (afterGenerations 7 1)).
  - done.
  - split_and!.
    + intros id doc Hd. unfold start in Hd. cbn [db_docs] in Hd. apply lookup_singleton_Some in Hd as [<- <-]. reflexivity.
    + intros id c Hc. unfold start in Hc. cbn [db_chunks] in Hc. apply lookup_singleton_Some in Hc as [<- _]. vm_compute. reflexivity.
    + intros b id e He. unfold indexOf, start in He. cbn [db_index] in He. destruct (decide (b = "elasticsearch"%string)) as [->|Hne].
      * rewrite lookup_singleton_eq in He. cbn [default Datatypes.id] in He. apply lookup_singleton_Some in He as [<- _]. vm_compute. reflexivity.
      * rewrite lookup_singleton_ne in He by done. cbn [default] in He. by rewrite lookup_empty in He.
  - exists (documentRow 1 "gen-1"). split_and!; reflexivity.
  - discriminate.
  - vm_compute. reflexivity.
Defined.

(** ** Interleavings *)

(** A cleanup job between the storing of a new generation and its activation removes it: the
    document is completed and found by no search. *)
Theorem cleanup_removes_new_generation :
  let '(rest, d1) := after "new text" 13 (worker "w1") start in
  let d2 := (runAlone (exec "new text") (worker "w2") d1).2 in
  let '(result, d3) := runAlone (exec "new text") rest d2 in
  result = (true, []) ∧ (d_IngestionStatus <$> db_docs d3 !! 1) = Some DocumentStatusCompleted ∧ contents d3 = [].
Proof. vm_compute. split_and!; reflexivity. Qed.

(** A document that is deleted while it is ingested comes back: the row is saved with all of its
    columns, the time of its deletion among them. *)
Theorem ingestion_restores_deleted :
  let '(rest, d1) := after "new text" 4 (worker "w1") start in
  let '(deleted, d2) := runAlone (exec "new text") (DeleteDocument "elasticsearch" 7 1) d1 in
  let d3 := (runAlone (exec "new text") rest d2).2 in
  deleted = None ∧ FindDocument 7 1 d2 = Err IErrNotFound ∧ (is_Ok (FindDocument 7 1 d3)) ∧ contents d3 = ["new text"%string].
Proof. vm_compute. split_and!; try reflexivity. eexists. reflexivity. Qed.

(** A document that is disabled while it is ingested is enabled again. *)
Theorem ingestion_enables_again :
  let '(rest, d1) := after "new text" 4 (worker "w1") start in
  let d2 := (runAlone (exec "new text") (SetDocumentEnabled "elasticsearch" 7 1 false) d1).2 in
  let d3 := (runAlone (exec "new text") rest d2).2 in
  (d_Enabled <$> db_docs d2 !! 1) = Some false ∧ contents d2 = [] ∧ (d_Enabled <$> db_docs d3 !! 1) = Some true ∧ contents d3 = ["new text"%string].
Proof. vm_compute. split_and!; reflexivity. Qed.

(** Documents are uploaded without a generation.  Once one document of the knowledge base has
    one, those without are found by no search. *)
Theorem uploads_hidden_by_generations :
  let uploaded := mkIngestionDB {[2 := documentRow 2 ""]} {[1 := sampleKB]} {[2 := oldChunk 2 2 ""]} 3 ∅ 3 {["elasticsearch"%string := {[2 := entryOf (oldChunk 2 2 "")]}]} in
  let both := set_docs (<[1 := documentRow 1 "gen-1"]> (db_docs uploaded)) uploaded in
  contents uploaded = ["old text"%string] ∧ contents both = [].
Proof. vm_compute. split; reflexivity. Qed.
End IngestionSamples.
