(* ===== verification/Jwt.v ===== *)
(** Access tokens (internal/infrastructure/crypto/jwt.go) and the random tokens of
    internal/domain/auth/token.go: base64url without padding, HS256 signatures over two
    encoded parts, expiry in whole seconds.  HMAC-SHA256 and the JSON decoder are
    parameters; the JSON of the two structs is written out. *)
From Stdlib Require Import Ascii DecimalString DecimalPos.
From S2P Require Import Prelude GoStr Fuzzy MemoryDomain.
Open Scope Z_scope.

(** ** base64.RawURLEncoding *)

Definition b64char (i : Z) : ascii :=
  byte_of (if i <? 26 then 65 + i else if i <? 52 then 71 + i else if i <? 62 then i - 4 else if i =? 62 then 45 else 95).

Definition b64val (c : ascii) : option Z :=
  let v := byte_val c in
  if in_range 65 90 v then Some (v - 65) else if in_range 97 122 v then Some (v - 71) else if in_range 48 57 v then Some (v + 4)
  else if v =? 45 then Some 62 else if v =? 95 then Some 63 else None.

Fixpoint encodeBytes (l : list ascii) : list ascii :=
  match l with
  | a :: b :: c :: rest =>
    let v := byte_val a * 65536 + byte_val b * 256 + byte_val c in
    b64char (v / 262144) :: b64char ((v / 4096) `mod` 64) :: b64char ((v / 64) `mod` 64) :: b64char (v `mod` 64) :: encodeBytes rest
  | [a; b] =>
    let v := byte_val a * 1024 + byte_val b * 4 in [b64char (v / 4096); b64char ((v / 64) `mod` 64); b64char (v `mod` 64)]
  | [a] => let v := byte_val a * 16 in [b64char (v / 64); b64char (v `mod` 64)]
  | [] => []
  end.

(** Four characters are three bytes; two or three at the end are one or two, and what their
    last bits say does not matter. *)
Fixpoint decodeQuanta (l : list Z) : option (list ascii) :=
  match l with
  | a :: b :: c :: d :: rest =>
    let v := a * 262144 + b * 4096 + c * 64 + d in
    (λ out, byte_of (v / 65536) :: byte_of (v / 256) :: byte_of v :: out) <$> decodeQuanta rest
  | [a; b; c] => let v := a * 4096 + b * 64 + c in Some [byte_of (v / 1024); byte_of (v / 4)]
  | [a; b] => Some [byte_of ((a * 64 + b) / 16)]
  | [_] => None
  | [] => Some []
  end.

(** Line ends are skipped. *)
Definition decodeBytes (l : list ascii) : option (list ascii) :=
  vs ← mapM b64val (filter (λ c, byte_val c ≠ 10 ∧ byte_val c ≠ 13) l); decodeQuanta vs.

Definition EncodeToString (data : list ascii) : string := of_bytes (encodeBytes data).
Definition DecodeString (s : string) : option (list ascii) := decodeBytes (bytes s).

(** ** strconv *)

Lemma fold_digits_pos d v : 0 < v →
  foldl (λ acc c, v ← acc; let d := byte_val c - 48 in if in_range 0 9 d then Some (v * 10 + d) else None) (Some v) (bytes (NilEmpty.string_of_uint d)) =
  Some (Zpos (Pos.of_uint_acc d (Z.to_pos v))).
Proof.
  revert v. induction d as [|d IH|d IH|d IH|d IH|d IH|d IH|d IH|d IH|d IH|d IH]; intros v Hv; cbn [NilEmpty.string_of_uint bytes String.list_ascii_of_string foldl Pos.of_uint_acc];
    [by rewrite Z2Pos.id|..]; cbn [mbind option_bind]; match goal with |- foldl _ (if ?b then _ else _) _ = _ => change b with true; cbn match end.
  all: unfold bytes in IH; rewrite IH by (vm_compute byte_val; lia); do 3 f_equal; vm_compute byte_val; lia.
Qed.

Lemma fold_digits_zero d :
  foldl (λ acc c, v ← acc; let d := byte_val c - 48 in if in_range 0 9 d then Some (v * 10 + d) else None) (Some 0) (bytes (NilEmpty.string_of_uint d)) =
  Some (Z.of_N (Pos.of_uint d)).
Proof.
  induction d as [|d IH|d IH|d IH|d IH|d IH|d IH|d IH|d IH|d IH|d IH]; cbn [NilEmpty.string_of_uint bytes String.list_ascii_of_string foldl Pos.of_uint]; [done|exact IH|..].
  all: cbn [mbind option_bind]; match goal with |- foldl _ (if ?b then _ else _) _ = _ => change b with true; cbn match end.
  all: rewrite fold_digits_pos by (vm_compute; done); reflexivity.
Qed.

Lemma parseDigits_uint p : parseDigits (bytes (NilZero.string_of_uint (Pos.to_uint p))) = Some (Zpos p).
Proof.
  pose proof (Unsigned.of_to p) as E. unfold parseDigits. destruct (Pos.to_uint p) as [|d|d|d|d|d|d|d|d|d|d] eqn:Ep; [done|..];
    (etrans; [apply (fold_digits_zero (_ d))|]); by rewrite E.
Qed.

Lemma uint_head p : ∃ c l, bytes (NilZero.string_of_uint (Pos.to_uint p)) = c :: l ∧ 48 ≤ byte_val c.
Proof.
  pose proof (Unsigned.of_to p) as E. destruct (Pos.to_uint p) as [|d|d|d|d|d|d|d|d|d|d]; [done|..]; (eexists _, _; split; [reflexivity|]); vm_compute; done.
Qed.

(** What [FormatInt] writes [ParseInt] reads. *)
Lemma ParseInt_Itoa n : - 2 ^ 63 ≤ n < 2 ^ 63 → ParseInt (Itoa n) = Some n.
Proof.
  intros Hn. assert ((- 2 ^ 63 <=? n) && (n <? 2 ^ 63) = true) as Hr by (apply andb_true_iff; split; [apply Z.leb_le|apply Z.ltb_lt]; lia).
  destruct n as [|p|p]; [done|..]; unfold ParseInt, Itoa; cbn [Z.to_int NilZero.string_of_int].
  - destruct (uint_head p) as (c & l & E & Hc). rewrite E. rewrite !(proj2 (Z.eqb_neq (byte_val c) _)) by lia. rewrite <- E, parseDigits_uint. cbn [mbind option_bind].
    by rewrite Hr.
  - cbn [bytes String.list_ascii_of_string]. change (byte_val "-" =? 45) with true. cbn match. change (String.list_ascii_of_string ?s) with (bytes s).
    rewrite parseDigits_uint. cbn [fmap option_fmap option_map mbind option_bind]. change (- Z.pos p) with (Z.neg p). by rewrite Hr.
Qed.

(** ** The encoding *)

Lemma b64_char_val i : 0 ≤ i < 64 → b64val (b64char i) = Some i.
Proof.
  intros Hi. unfold b64val, b64char. repeat case_match; bool_prop; subst; rewrite ?byte_val_of_small in * by lia; unfold in_range in *; bool_prop; try (f_equal; lia); exfalso; lia.
Qed.

(** No line ends, and no dots. *)
Definition b64safe (c : ascii) : Prop := byte_val c ≠ 10 ∧ byte_val c ≠ 13 ∧ byte_val c ≠ 46 ∧ is_space (byte_val c) = false ∧ byte_val c < 128.
Lemma b64char_safe i : 0 ≤ i < 64 → b64safe (b64char i).
Proof.
  intros Hi. unfold b64safe, b64char. rewrite byte_val_of_small by (repeat case_match; bool_prop; lia).
  split_and!; repeat case_match; bool_prop; try lia; try done; unfold is_space, in_range; rewrite ?orb_false_iff, ?andb_false_iff, ?Z.leb_gt, ?Z.eqb_neq; lia.
Qed.

Lemma three_ind {A} (P : list A → Prop) : P [] → (∀ a, P [a]) → (∀ a b, P [a; b]) → (∀ a b c l, P l → P (a :: b :: c :: l)) → ∀ l, P l.
Proof. intros H0 H1 H2 H3. fix IH 1. intros [|a [|b [|c l]]]; [done|apply H1|apply H2|apply H3, IH]. Qed.

Ltac byte_bounds := repeat match goal with a : ascii |- _ =>
  lazymatch goal with H : 0 ≤ byte_val a < 256 |- _ => fail | _ => pose proof (byte_val_bound a) end end.
Ltac b64_lia := byte_bounds; Z.div_mod_to_equations; lia.

Lemma encode_safe l : Forall b64safe (encodeBytes l).
Proof.
  induction l as [|a|a b|a b c l IH] using three_ind; cbn [encodeBytes]; [constructor|..]; repeat (constructor; [apply b64char_safe; b64_lia|]); first [done|constructor].
Qed.

Lemma decode_encode_bytes l : decodeBytes (encodeBytes l) = Some l.
Proof.
  unfold decodeBytes. assert (filter (λ c, byte_val c ≠ 10 ∧ byte_val c ≠ 13) (encodeBytes l) = encodeBytes l) as ->.
  { pose proof (encode_safe l) as Hs. induction Hs as [|c k Hc _ IH]; [done|]. rewrite filter_cons_True by (split; apply Hc). by rewrite IH. }
  induction l as [|a|a b|a b c l IH] using three_ind; cbn [encodeBytes mapM]; [done|..]; rewrite !b64_char_val by b64_lia; cbn [mbind option_bind mret option_ret decodeQuanta].
  - do 2 f_equal. apply byte_val_inj. rewrite byte_val_of. b64_lia.
  - f_equal. f_equal; [|f_equal]; apply byte_val_inj; rewrite byte_val_of; b64_lia.
  - destruct (mapM b64val (encodeBytes l)) as [vs|]; [|done]. cbn [mbind option_bind mret option_ret decodeQuanta] in *. rewrite IH. cbn [fmap option_fmap option_map].
    f_equal. f_equal; [|f_equal; [|f_equal]]; apply byte_val_inj; rewrite byte_val_of; b64_lia.
Qed.

Lemma DecodeString_EncodeToString l : DecodeString (EncodeToString l) = Some l.
Proof. unfold DecodeString, EncodeToString. rewrite bytes_of_bytes. apply decode_encode_bytes. Qed.

(** ** Random tokens *)

(** [RandomURLToken] of the bytes that the system gives. *)
Definition RandomURLToken (random : list ascii) : string := EncodeToString random.

(** ** JWT *)

Record jwtPayload := mkPayload { jwt_Sub : string; jwt_Iat : Z; jwt_Exp : Z; jwt_Typ : string }.
Record AccessTokenClaims := mkClaims { claims_UserID : Z; claims_ExpiresAt : Z }.

Inductive JWTErr := ErrInvalidToken | ErrSignature | ErrEncoding | ErrPayload | ErrTokenType | ErrTokenExpired | ErrSubject.

(** Times are nanoseconds since the epoch; [Unix()] is in seconds. *)
Definition Unix (t : Z) : Z := t / 10 ^ 9.

Definition dq : string := of_bytes [byte_of 34].
Definition quoted (s : string) : string := dq ++ s ++ dq.
(** [json.Marshal] of the header, and of a payload with text that needs no escapes. *)
Definition headerJSON : string := "{" ++ quoted "alg" ++ ":" ++ quoted "HS256" ++ "," ++ quoted "typ" ++ ":" ++ quoted "JWT" ++ "}".
Definition payloadJSON (p : jwtPayload) : string :=
  "{" ++ quoted "sub" ++ ":" ++ quoted (jwt_Sub p) ++ "," ++ quoted "iat" ++ ":" ++ Itoa (jwt_Iat p) ++ "," ++
  quoted "exp" ++ ":" ++ Itoa (jwt_Exp p) ++ "," ++ quoted "typ" ++ ":" ++ quoted (jwt_Typ p) ++ "}".

Definition dot : ascii := byte_of 46.

Section JWT.
(** HMAC-SHA256 under the secret, and [json.Unmarshal] into a payload. *)
Context (hmac : string → list ascii) (unmarshalPayload : list ascii → option jwtPayload) (ttl : Z).

Definition sign (unsigned : string) : string := EncodeToString (hmac unsigned).

Definition accessPayload (now userID : Z) : jwtPayload := mkPayload (Itoa userID) (Unix now) (Unix (now + ttl)) "access".

(** The token, and when it expires. *)
Definition IssueAccessToken (now userID : Z) : string * Z :=
  let expiresAt := now + ttl in
  let unsigned := (EncodeToString (bytes headerJSON) ++ String dot (EncodeToString (bytes (payloadJSON (accessPayload now userID)))))%string in
  (unsigned ++ String dot (sign unsigned), expiresAt)%string.

Definition VerifyAccessToken (now : Z) (token : string) : result JWTErr AccessTokenClaims :=
  match Split token dot with
  | [header; body; signature] =>
    let unsigned := (header ++ String dot body)%string in
    if negb (sign unsigned =? signature)%string then Err ErrSignature
    else match DecodeString body with
    | None => Err ErrEncoding
    | Some data =>
      match unmarshalPayload data with
      | None => Err ErrPayload
      | Some payload =>
        if negb (jwt_Typ payload =? "access")%string then Err ErrTokenType
        else if jwt_Exp payload <=? Unix now then Err ErrTokenExpired
        else match ParseInt (jwt_Sub payload) with
        | None => Err ErrSubject
        | Some userID => Ok (mkClaims userID (jwt_Exp payload * 10 ^ 9))
        end
      end
    end
  | _ => Err ErrInvalidToken
  end.

Lemma encoded_free l : dot ∉ bytes (EncodeToString l).
Proof.
  unfold EncodeToString. rewrite bytes_of_bytes. intros Hd. pose proof (proj1 (Forall_forall _ _) (encode_safe l) _ Hd) as (_ & _ & Hn & _). by apply Hn.
Qed.

Lemma token_parts a b c : ((a ++ String dot b) ++ String dot c = a ++ String dot (b ++ String dot c))%string.
Proof. apply bytes_inj. rewrite !bytes_app. change (bytes (String dot ?s)) with (dot :: bytes s). rewrite bytes_app, <- app_assoc. done. Qed.

Lemma Split_three a b c : dot ∉ bytes a → dot ∉ bytes b → dot ∉ bytes c → Split (a ++ String dot (b ++ String dot c))%string dot = [a; b; c].
Proof.
  intros Ha Hb Hc. unfold Split. rewrite bytes_app. change (bytes (String dot ?s)) with (dot :: bytes s). rewrite split_app_free by done.
  rewrite bytes_app. change (bytes (String dot ?s)) with (dot :: bytes s). rewrite split_app_free, split_word by done. cbn. by rewrite !of_bytes_bytes.
Qed.

(** A token without dots is not an access token. *)
Lemma Verify_no_dot now s : dot ∉ bytes s → VerifyAccessToken now s = Err ErrInvalidToken.
Proof. intros Hs. unfold VerifyAccessToken, Split. by rewrite split_word. Qed.

(** What is accepted carries the signature of its first two parts, is of type access and has
    not expired. *)
Lemma Verify_sound now token claims : VerifyAccessToken now token = Ok claims →
  ∃ header body payload data, token = (header ++ String dot (body ++ String dot (sign (header ++ String dot body))))%string ∧
    DecodeString body = Some data ∧ unmarshalPayload data = Some payload ∧ jwt_Typ payload = "access"%string ∧
    Unix now < jwt_Exp payload ∧ ParseInt (jwt_Sub payload) = Some (claims_UserID claims).
Proof.
  unfold VerifyAccessToken. pose proof (join_split dot (bytes token)) as Hj. unfold Split. destruct (split_bytes dot (bytes token)) as [|h [|b [|g [|]]]] eqn:E; [done..| |done].
  cbn [fmap list_fmap]. case_match eqn:Hs; [done|]. case_match eqn:Hd; [|done]. case_match eqn:Hu; [|done]. case_match eqn:Ht; [done|]. case_match eqn:He; [done|]. case_match eqn:Hp; [|done].
  intros [= <-]. bool_prop. eexists (of_bytes h), (of_bytes b), _, _. split_and!; [|done..|lia|done].
  apply bytes_inj. rewrite <- Hj, bytes_app. change (bytes (String dot ?s)) with (dot :: bytes s). rewrite bytes_app. change (bytes (String dot ?s)) with (dot :: bytes s).
  rewrite Hs, !bytes_of_bytes. done.
Qed.

Definition int64 (z : Z) : Prop := - 2 ^ 63 ≤ z < 2 ^ 63.
Context (Hunmarshal : ∀ n iat exp, int64 n → int64 iat → int64 exp →
  unmarshalPayload (bytes (payloadJSON (mkPayload (Itoa n) iat exp "access"))) = Some (mkPayload (Itoa n) iat exp "access")).

(** C39. An access token says who its user is until it expires: what was issued for a user verifies,
    at every later time, as a token of that user before the second of its expiry, and as expired from
    then on. *)
Theorem access_token_roundtrip now now' userID : int64 userID → int64 (Unix now) → int64 (Unix (now + ttl)) →
  VerifyAccessToken now' (IssueAccessToken now userID).1 =
    (if Unix (now + ttl) <=? Unix now' then Err ErrTokenExpired else Ok (mkClaims userID (Unix (now + ttl) * 10 ^ 9))).
Proof.
  intros Hu Hn He. unfold VerifyAccessToken, IssueAccessToken. cbn [fst]. rewrite token_parts. rewrite Split_three by apply encoded_free. rewrite String.eqb_refl. cbn [negb].
  rewrite DecodeString_EncodeToString. unfold accessPayload at 1. rewrite Hunmarshal by done. cbn [jwt_Typ jwt_Exp jwt_Sub String.eqb]. by rewrite ParseInt_Itoa.
Qed.
End JWT.

(** ** Samples *)

Module JwtSamples.

(** A decoder for payloads as they are written: the words between quotes. *)
Definition number (w : list ascii) : option Z := ParseInt (of_bytes (reverse (tail (reverse (tail w))))).
Definition decodePayload (l : list ascii) : option jwtPayload :=
  match split_bytes (byte_of 34) l with
  | [_; _; _; sub; _; _; iat; _; exp; _; _; typ; _] => iat ← number iat; exp ← number exp; Some (mkPayload (of_bytes sub) iat exp (of_bytes typ))
  | _ => None
  end.

Lemma number_Itoa a b n : int64 n → number (a :: bytes (Itoa n) ++ [b]) = Some n.
Proof.
  intros Hn. unfold number. cbn [tail]. rewrite reverse_app. change (reverse [b]) with [b]. cbn [app tail]. rewrite reverse_involutive, of_bytes_bytes. by apply ParseInt_Itoa.
Qed.
Lemma Itoa_unquoted n : byte_of 34 ∉ bytes (Itoa n).
Proof.
  assert (∀ m, 0 ≤ m → byte_of 34 ∉ bytes (Itoa m)) as Hd by (intros m Hm Hin; apply Itoa_digits in Hin as [Hin _]; [|done]; by apply Hin).
  destruct n as [|p|p]; [by apply Hd|by apply Hd|]. change (bytes (Itoa (Z.neg p))) with ("-"%char :: bytes (Itoa (Z.pos p))).
  apply not_elem_of_cons. split; [done|by apply Hd].
Qed.

Definition words (n iat exp : Z) : list (list ascii) :=
  [bytes "{"; bytes "sub"; bytes ":"; bytes (Itoa n); bytes ","; bytes "iat"; ":"%char :: bytes (Itoa iat) ++ [","%char]; bytes "exp";
   ":"%char :: bytes (Itoa exp) ++ [","%char]; bytes "typ"; bytes ":"; bytes "access"; bytes "}"].
Lemma words_unquoted n iat exp : Forall (λ w, byte_of 34 ∉ w) (words n iat exp).
Proof.
  pose proof Itoa_unquoted as Hi. repeat constructor; try apply Hi; try (by apply (bool_decide_eq_true_1 _)); apply not_elem_of_cons; (split; [done|]);
    apply not_elem_of_app; (split; [apply Hi|by apply (bool_decide_eq_true_1 _)]).
Qed.

Lemma decodePayload_written n iat exp : int64 n → int64 iat → int64 exp →
  decodePayload (bytes (payloadJSON (mkPayload (Itoa n) iat exp "access"))) = Some (mkPayload (Itoa n) iat exp "access").
Proof.
  intros Hn Hi He. assert (bytes (payloadJSON (mkPayload (Itoa n) iat exp "access")) = join_bytes (byte_of 34) (words n iat exp)) as ->.
  { unfold payloadJSON, quoted. cbn [jwt_Sub jwt_Iat jwt_Exp jwt_Typ]. rewrite !bytes_app. cbn. rewrite <- !app_assoc. cbn. done. }
  unfold decodePayload. rewrite split_join by (done || apply words_unquoted). unfold words. rewrite !number_Itoa by done. cbn. by rewrite of_bytes_bytes.
Qed.

Definition sampleMAC (s : string) : list ascii := take 8 (reverse (bytes s)).
Lemma access_token_roundtrip_witness :
  VerifyAccessToken sampleMAC decodePayload (160 * 10 ^ 9) (IssueAccessToken sampleMAC (60 * 10 ^ 9) (100 * 10 ^ 9) 7).1 = Err ErrTokenExpired ∧
  VerifyAccessToken sampleMAC decodePayload (159 * 10 ^ 9) (IssueAccessToken sampleMAC (60 * 10 ^ 9) (100 * 10 ^ 9) 7).1 = Ok (mkClaims 7 (160 * 10 ^ 9)).
Proof.
  split; (etrans; [apply (access_token_roundtrip sampleMAC decodePayload _ decodePayload_written); vm_compute; split; congruence|vm_compute; reflexivity]).
Defined.
End JwtSamples.
