(* ===== verification/Auth.v ===== *)
(** Accounts, sessions and API tokens: the service of
    internal/application/auth_usecase/service.go over the tables of users, sessions, OAuth
    accounts, API tokens and audit logs (internal/infrastructure/mysql) and the keys it
    keeps in Redis; the middleware that admits requests
    (internal/interface/http/middleware/auth.go), and the HTTP handlers around them
    (internal/interface/http/handler/auth_handler.go, oauth_handler.go).

    Handlers are programs of [Threads].  The collation of the database, bcrypt, SHA-256,
    GitHub and the JSON decoder are parameters or calls with any answer.  Strings in the
    database are compared by their collation keys; the unique keys of the tables refuse a
    second row. *)
From Stdlib Require Import Ascii.
From S2P Require Import Prelude GoStr Threads MemoryDomain Jwt.
Open Scope Z_scope.
Open Scope calls_scope.

(** ** Rows *)

Record User := mkUser {
  u_ID : Z; u_Username : string; u_Email : string; u_PasswordHash : string; u_AvatarURL : string; u_LoginType : string; u_Status : Z;
  u_LastLoginAt : option Z; u_CreatedAt : Z; u_UpdatedAt : Z; u_DeletedAt : option Z
}.
Definition LoginTypePassword : string := "password".
Definition LoginTypeGithub : string := "github".
Definition StatusDisabled : Z := 0.
Definition StatusActive : Z := 1.

Record OAuthAccount := mkOAuthAccount { oa_ID : Z; oa_UserID : Z; oa_Provider : string; oa_ProviderUserID : string; oa_CreatedAt : Z }.
Record Session := mkSession {
  s_ID : Z; s_UserID : Z; s_RefreshTokenHash : string; s_ExpiresAt : Z; s_RevokedAt : option Z; s_CreatedAt : Z; s_UpdatedAt : Z
}.
Record APIToken := mkAPIToken {
  t_ID : Z; t_OwnerID : Z; t_Name : string; t_TokenHash : string; t_TokenPrefix : string; t_Scopes : string; t_ExpiresAt : option Z; t_RevokedAt : option Z;
  t_CreatedAt : Z; t_UpdatedAt : Z
}.
Record Log := mkLog {
  l_ID : Z; l_OwnerID : Z; l_CreatedAt : Z; l_ActorID : Z; l_Action : string; l_ResourceType : string; l_ResourceID : string; l_DetailJSON : string;
  l_IPAddress : string; l_UserAgent : string
}.

(** Rows in the order of their ids; one sequence gives new ids to all tables; keys in Redis with
    their value and the time at which they go away. *)
Record AuthDB := mkAuthDB {
  db_users : list User; db_oauth : list OAuthAccount; db_sessions : list Session; db_tokens : list APIToken; db_logs : list Log;
  db_nextID : Z; db_redis : gmap string (string * Z)
}.
Definition set_users (x : list User) (d : AuthDB) := mkAuthDB x (db_oauth d) (db_sessions d) (db_tokens d) (db_logs d) (db_nextID d) (db_redis d).
Definition set_oauth (x : list OAuthAccount) (d : AuthDB) := mkAuthDB (db_users d) x (db_sessions d) (db_tokens d) (db_logs d) (db_nextID d) (db_redis d).
Definition set_sessions (x : list Session) (d : AuthDB) := mkAuthDB (db_users d) (db_oauth d) x (db_tokens d) (db_logs d) (db_nextID d) (db_redis d).
Definition set_tokens (x : list APIToken) (d : AuthDB) := mkAuthDB (db_users d) (db_oauth d) (db_sessions d) x (db_logs d) (db_nextID d) (db_redis d).
Definition set_logs (x : list Log) (d : AuthDB) := mkAuthDB (db_users d) (db_oauth d) (db_sessions d) (db_tokens d) x (db_nextID d) (db_redis d).
Definition set_nextID (x : Z) (d : AuthDB) := mkAuthDB (db_users d) (db_oauth d) (db_sessions d) (db_tokens d) (db_logs d) x (db_redis d).
Definition set_redis (x : gmap string (string * Z)) (d : AuthDB) := mkAuthDB (db_users d) (db_oauth d) (db_sessions d) (db_tokens d) (db_logs d) (db_nextID d) x.

Inductive AuthErr :=
| AErrInvalidInput
| AErrConflict
| AErrUnauthorized
| AErrForbidden
| AErrNotFound
| AErrRecordNotFound
| AErrDuplicateKey
| AErrDatabase (msg : string)
| AErrOutside (msg : string)
| AErrNotConfigured
| AErrUnsupportedScope (scope : string)
| AErrNoScope
| AErrBinding (msg : string).
#[export] Instance AuthErr_eq_dec : EqDecision AuthErr.
Proof. solve_decision. Defined.

(** ** Tables *)

Section Tables.
(** The key by which the database compares strings. *)
Context (collate : string → string).
Definition columnEq (s t : string) : bool := (collate s =? collate t)%string.

(** [First]: the row with the lowest id. *)
Definition First {A} (p : A → bool) (rows : list A) : result AuthErr A :=
  match filter (λ x, p x = true) rows with x :: _ => Ok x | [] => Err AErrRecordNotFound end.

Definition live (u : User) : bool := bool_decide (u_DeletedAt u = None).
Definition FindUserByID (id : Z) (d : AuthDB) : result AuthErr User := First (λ u, (u_ID u =? id) && live u) (db_users d).
Definition FindByEmail (email : string) (d : AuthDB) : result AuthErr User := First (λ u, columnEq (u_Email u) email && live u) (db_users d).
Definition FindByUsername (username : string) (d : AuthDB) : result AuthErr User := First (λ u, columnEq (u_Username u) username && live u) (db_users d).

Definition u_with (id created updated : Z) (lastLogin : option Z) (u : User) : User :=
  mkUser id (u_Username u) (u_Email u) (u_PasswordHash u) (u_AvatarURL u) (u_LoginType u) (u_Status u) lastLogin created updated (u_DeletedAt u).
(** Unique keys on [username] and on [email]; an empty email is a value like others. *)
Definition CreateUser (now : Z) (u : User) (d : AuthDB) : result AuthErr User * AuthDB :=
  if existsb (λ v, columnEq (u_Username v) (u_Username u) || columnEq (u_Email v) (u_Email u)) (db_users d) then (Err AErrDuplicateKey, d)
  else let u := u_with (db_nextID d) now now (u_LastLoginAt u) u in
    (Ok u, set_nextID (db_nextID d + 1) (set_users (db_users d ++ [u]) d)).
Definition UpdateLastLogin (now id t : Z) (d : AuthDB) : AuthDB :=
  set_users ((λ u, if (u_ID u =? id) && live u then u_with (u_ID u) (u_CreatedAt u) now (Some t) u else u) <$> db_users d) d.

(** Unique key on [refresh_token_hash]. *)
Definition CreateSession (now : Z) (s : Session) (d : AuthDB) : option AuthErr * AuthDB :=
  if existsb (λ v, columnEq (s_RefreshTokenHash v) (s_RefreshTokenHash s)) (db_sessions d) then (Some AErrDuplicateKey, d)
  else let s := mkSession (db_nextID d) (s_UserID s) (s_RefreshTokenHash s) (s_ExpiresAt s) (s_RevokedAt s) now now in
    (None, set_nextID (db_nextID d + 1) (set_sessions (db_sessions d ++ [s]) d)).
Definition FindActiveByRefreshHash (hash : string) (now : Z) (d : AuthDB) : result AuthErr Session :=
  First (λ s, columnEq (s_RefreshTokenHash s) hash && bool_decide (s_RevokedAt s = None) && (now <? s_ExpiresAt s)) (db_sessions d).
Definition RevokeByRefreshHash (hash : string) (revokedAt now : Z) (d : AuthDB) : AuthDB :=
  set_sessions ((λ s, if columnEq (s_RefreshTokenHash s) hash && bool_decide (s_RevokedAt s = None)
    then mkSession (s_ID s) (s_UserID s) (s_RefreshTokenHash s) (s_ExpiresAt s) (Some revokedAt) (s_CreatedAt s) now else s) <$> db_sessions d) d.

(** Unique key on [token_hash]. *)
Definition CreateToken (now : Z) (t : APIToken) (d : AuthDB) : result AuthErr APIToken * AuthDB :=
  if existsb (λ v, columnEq (t_TokenHash v) (t_TokenHash t)) (db_tokens d) then (Err AErrDuplicateKey, d)
  else let t := mkAPIToken (db_nextID d) (t_OwnerID t) (t_Name t) (t_TokenHash t) (t_TokenPrefix t) (t_Scopes t) (t_ExpiresAt t) (t_RevokedAt t) now now in
    (Ok t, set_nextID (db_nextID d + 1) (set_tokens (db_tokens d ++ [t]) d)).
Definition ListByOwner (ownerID : Z) (d : AuthDB) : list APIToken := reverse (filter (λ t, t_OwnerID t = ownerID) (db_tokens d)).
Definition unexpired (now : Z) (t : APIToken) : bool := match t_ExpiresAt t with None => true | Some e => now <? e end.
Definition FindActiveByHash (hash : string) (now : Z) (d : AuthDB) : result AuthErr APIToken :=
  First (λ t, columnEq (t_TokenHash t) hash && bool_decide (t_RevokedAt t = None) && unexpired now t) (db_tokens d).
Definition RevokeByID (ownerID id revokedAt now : Z) (d : AuthDB) : AuthDB :=
  set_tokens ((λ t, if (t_ID t =? id) && (t_OwnerID t =? ownerID) && bool_decide (t_RevokedAt t = None)
    then mkAPIToken (t_ID t) (t_OwnerID t) (t_Name t) (t_TokenHash t) (t_TokenPrefix t) (t_Scopes t) (t_ExpiresAt t) (Some revokedAt) (t_CreatedAt t) now
    else t) <$> db_tokens d) d.

Definition sameAccount (provider providerUserID : string) (a : OAuthAccount) : bool :=
  columnEq (oa_Provider a) provider && columnEq (oa_ProviderUserID a) providerUserID.
(** Unique key on the provider and its id of the user. *)
Definition CreateOAuth (now : Z) (a : OAuthAccount) (d : AuthDB) : result AuthErr OAuthAccount * AuthDB :=
  if existsb (sameAccount (oa_Provider a) (oa_ProviderUserID a)) (db_oauth d) then (Err AErrDuplicateKey, d)
  else let a := mkOAuthAccount (db_nextID d) (oa_UserID a) (oa_Provider a) (oa_ProviderUserID a) now in
    (Ok a, set_nextID (db_nextID d + 1) (set_oauth (db_oauth d ++ [a]) d)).
Definition FindByProviderUserID (provider providerUserID : string) (d : AuthDB) : result AuthErr OAuthAccount :=
  First (sameAccount provider providerUserID) (db_oauth d).
Definition DeleteByProviderUserID (provider providerUserID : string) (d : AuthDB) : AuthDB :=
  set_oauth (filter (λ a, sameAccount provider providerUserID a = false) (db_oauth d)) d.

Definition CreateLog (now : Z) (l : Log) (d : AuthDB) : AuthDB :=
  set_nextID (db_nextID d + 1) (set_logs (db_logs d ++ [mkLog (db_nextID d) (l_OwnerID l) (if l_CreatedAt l =? 0 then now else l_CreatedAt l) (l_ActorID l) (l_Action l)
    (l_ResourceType l) (l_ResourceID l) (l_DetailJSON l) (l_IPAddress l) (l_UserAgent l)]) d).

(** Redis. *)
Definition RedisSet (key value : string) (ttl now : Z) (d : AuthDB) : AuthDB := set_redis (<[key := (value, now + ttl)]> (db_redis d)) d.
Definition RedisGet (key : string) (now : Z) (d : AuthDB) : result AuthErr string :=
  match db_redis d !! key with Some (v, e) => if now <? e then Ok v else Err AErrRecordNotFound | None => Err AErrRecordNotFound end.
Definition RedisDel (key : string) (d : AuthDB) : AuthDB := set_redis (delete key (db_redis d)) d.
End Tables.

(** ** Calls *)

Record GitHubUser := mkGitHubUser { gh_ID : Z; gh_Login : string; gh_Email : string; gh_AvatarURL : string }.

Inductive acall : Type → Type :=
| AClock : acall Z
| ARandom (n : nat) : acall (result AuthErr (list ascii))
| AHashPassword (password : string) : acall (result AuthErr string)
| ACreateUser (u : User) : acall (result AuthErr User)
| AFindUserByID (id : Z) : acall (result AuthErr User)
| AFindByEmail (email : string) : acall (result AuthErr User)
| AFindByUsername (username : string) : acall (result AuthErr User)
| AUpdateLastLogin (id t : Z) : acall (option AuthErr)
| ACreateSession (s : Session) : acall (option AuthErr)
| AFindSession (hash : string) (now : Z) : acall (result AuthErr Session)
| ARevokeSession (hash : string) (now : Z) : acall (option AuthErr)
| ACreateToken (t : APIToken) : acall (result AuthErr APIToken)
| AListTokens (ownerID : Z) : acall (result AuthErr (list APIToken))
| AFindToken (hash : string) (now : Z) : acall (result AuthErr APIToken)
| ARevokeToken (ownerID id now : Z) : acall (option AuthErr)
| ACreateOAuth (a : OAuthAccount) : acall (result AuthErr OAuthAccount)
| AFindOAuth (provider providerUserID : string) : acall (result AuthErr OAuthAccount)
| ADeleteOAuth (provider providerUserID : string) : acall (option AuthErr)
| ACreateLog (l : Log) : acall (option AuthErr)
| ARedisSet (key value : string) (ttl : Z) : acall (option AuthErr)
| ARedisGet (key : string) : acall (result AuthErr string)
| ARedisDel (key : string) : acall (option AuthErr)
| AAuthCodeURL (state : string) : acall (result AuthErr string)
| AExchangeCode (code : string) : acall (result AuthErr string)
| AGetUser (token : string) : acall (result AuthErr GitHubUser).

Section Perform.
Context (collate : string → string).

Definition authStatement (answer : option AuthErr * AuthDB) := transaction answer (λ msg, Some (AErrDatabase msg)).
Definition authQuery {X} (answer : result AuthErr X * AuthDB) := transaction answer (λ msg, Err (AErrDatabase msg)).

(** The random bytes and the answers of bcrypt and GitHub can be any. *)
Definition performA (X : Type) (c : acall X) : AuthDB → X → AuthDB → Prop :=
  match c in acall X return AuthDB → X → AuthDB → Prop with
  | AClock => λ d now d', d' = d
  | ARandom n => λ d x d', d' = d ∧ ∀ l, x = Ok l → length l = n
  | ACreateUser u => λ d x d', ∃ now, authQuery (CreateUser collate now u d) d x d'
  | AFindUserByID id => λ d, authQuery (FindUserByID id d, d) d
  | AFindByEmail e => λ d, authQuery (FindByEmail collate e d, d) d
  | AFindByUsername n => λ d, authQuery (FindByUsername collate n d, d) d
  | AUpdateLastLogin id t => λ d x d', ∃ now, authStatement (None, UpdateLastLogin now id t d) d x d'
  | ACreateSession s => λ d x d', ∃ now, authStatement (CreateSession collate now s d) d x d'
  | AFindSession hash now => λ d, authQuery (FindActiveByRefreshHash collate hash now d, d) d
  | ARevokeSession hash now => λ d x d', ∃ now', authStatement (None, RevokeByRefreshHash collate hash now now' d) d x d'
  | ACreateToken t => λ d x d', ∃ now, authQuery (CreateToken collate now t d) d x d'
  | AListTokens o => λ d, authQuery (Ok (ListByOwner o d), d) d
  | AFindToken hash now => λ d, authQuery (FindActiveByHash collate hash now d, d) d
  | ARevokeToken o id now => λ d x d', ∃ now', authStatement (None, RevokeByID o id now now' d) d x d'
  | ACreateOAuth a => λ d x d', ∃ now, authQuery (CreateOAuth collate now a d) d x d'
  | AFindOAuth p id => λ d, authQuery (FindByProviderUserID collate p id d, d) d
  | ADeleteOAuth p id => λ d, authStatement (None, DeleteByProviderUserID collate p id d) d
  | ACreateLog l => λ d x d', ∃ now, authStatement (None, CreateLog now l d) d x d'
  | ARedisSet k v ttl => λ d x d', ∃ now, authStatement (None, RedisSet k v ttl now d) d x d'
  | ARedisGet k => λ d x d', ∃ now, authQuery (RedisGet k now d, d) d x d'
  | ARedisDel k => λ d, authStatement (None, RedisDel k d) d
  | _ => λ d _ d', d' = d
  end.
End Perform.

Notation prog := (program acall).

(** ** The service *)

Record ClientInfo := mkClientInfo { ci_UserAgent : string; ci_IPAddress : string }.
Record RegisterRequest := mkRegister { reg_Username : string; reg_Email : string; reg_Password : string }.
Record LoginRequest := mkLogin { login_Email : string; login_Password : string }.
Record CreateAPITokenRequest := mkTokenRequest { tr_Name : string; tr_Scopes : list string; tr_ExpiresAt : option Z }.
Record UserDTO := mkUserDTO {
  dto_ID : Z; dto_Username : string; dto_Email : option string; dto_AvatarURL : string; dto_LoginType : string; dto_Status : Z; dto_LastLoginAt : option Z; dto_CreatedAt : Z
}.
Record TokenPair := mkTokenPair { tp_AccessToken : string; tp_RefreshToken : string; tp_TokenType : string; tp_ExpiresAt : Z }.
Record AuthResponse := mkAuthResponse { ar_User : UserDTO; ar_Tokens : TokenPair }.
Record APITokenCreated := mkTokenCreated {
  tc_ID : Z; tc_Name : string; tc_Token : string; tc_TokenPrefix : string; tc_Scopes : list string; tc_ExpiresAt : option Z; tc_CreatedAt : Z
}.

Definition toUserDTO (u : User) : UserDTO :=
  mkUserDTO (u_ID u) (u_Username u) (if (u_Email u =? "")%string then None else Some (u_Email u)) (u_AvatarURL u) (u_LoginType u) (u_Status u) (u_LastLoginAt u) (u_CreatedAt u).
Definition u_setLastLogin (t : Z) (u : User) : User := u_with (u_ID u) (u_CreatedAt u) (u_UpdatedAt u) (Some t) u.

Definition apiTokenScopes : list string :=
  ["agent:read"; "agent:write"; "run:read"; "run:write"; "resource:read"; "resource:write"; "memory:read"; "memory:write"; "admin"; "*"]%string.

(** The loop over the requested scopes. *)
Fixpoint collectScopes (scopes : list string) (raws : list string) : result AuthErr (list string) :=
  match raws with
  | [] => Ok scopes
  | raw :: rest =>
    let scope := TrimSpace raw in
    if (scope =? "")%string then collectScopes scopes rest
    else if negb (bool_decide (scope ∈ apiTokenScopes)) then Err (AErrUnsupportedScope scope)
    else collectScopes (if bool_decide (scope ∈ scopes) then scopes else scopes ++ [scope]) rest
  end.

Section Service.
Context {UT : UnicodeTables}.
(** The hash of tokens, the check of passwords, JWT signatures and JSON. *)
Context (tokenHash : string → string) (verifyPassword : string → string → bool).
Context (hmac : string → list ascii) (unmarshalPayload : list ascii → option jwtPayload).
Context (marshalDetail : list (string * string) → option string) (marshalScopes : list string → string) (unmarshalScopes : string → option (list string)).
Context (marshalResponse : AuthResponse → result AuthErr string) (unmarshalResponse : string → result AuthErr AuthResponse).
(** What is configured, and the lifetimes of the tokens. *)
Context (hasRedis hasGitHub : bool) (accessTTL refreshTTL : Z).

Definition NewLog (ownerID actorID : Z) (action resourceType resourceID : string) (detail : option (list (string * string))) (ipAddress userAgent : string) : Log :=
  mkLog 0 ownerID 0 actorID action resourceType resourceID (match detail with Some fields => default "{}"%string (marshalDetail fields) | None => "{}"%string end) ipAddress userAgent.
Definition audit (ownerID actorID : Z) (action resourceType resourceID : string) (detail : option (list (string * string))) (client : ClientInfo) : prog (option AuthErr) :=
  ask err := ACreateLog (NewLog ownerID actorID action resourceType resourceID detail (ci_IPAddress client) (ci_UserAgent client)) in Return _ err.

Definition issueTokens (userID : Z) (client : ClientInfo) : prog (result AuthErr TokenPair) :=
  ask now := AClock in
  let '(access, accessExpiresAt) := IssueAccessToken hmac accessTTL now userID in
  ask random := ARandom 48 in
  match random with
  | Err e => Return _ (Err e)
  | Ok random =>
    let refresh := RandomURLToken random in
    ask now := AClock in
    ask err := ACreateSession (mkSession 0 userID (tokenHash refresh) (now + refreshTTL) None 0 0) in
    match err with
    | Some e => Return _ (Err e)
    | None => Return _ (Ok (mkTokenPair access refresh "Bearer" accessExpiresAt))
    end
  end.

(** The response of a login, after [issueTokens]. *)
Definition respond (u : User) (client : ClientInfo) : prog (result AuthErr AuthResponse) :=
  run tokens := issueTokens (u_ID u) client in
  Return _ (rmap (mkAuthResponse (toUserDTO u)) tokens).

Definition Register (req : RegisterRequest) (client : ClientInfo) : prog (result AuthErr AuthResponse) :=
  let email := TrimSpace (ToLower (reg_Email req)) in
  let username := TrimSpace (reg_Username req) in
  if (username =? "")%string || (email =? "")%string || (slen (reg_Password req) <? 8) then Return _ (Err AErrInvalidInput)
  else
    ask found := AFindByEmail email in
    match found with
    | Ok _ => Return _ (Err AErrConflict)
    | Err e =>
      if negb (bool_decide (e = AErrRecordNotFound)) then Return _ (Err e)
      else
        ask found := AFindByUsername username in
        match found with
        | Ok _ => Return _ (Err AErrConflict)
        | Err e =>
          if negb (bool_decide (e = AErrRecordNotFound)) then Return _ (Err e)
          else
            ask hashed := AHashPassword (reg_Password req) in
            match hashed with
            | Err e => Return _ (Err e)
            | Ok passwordHash =>
              ask created := ACreateUser (mkUser 0 username email passwordHash "" LoginTypePassword StatusActive None 0 0 None) in
              match created with
              | Err e => Return _ (Err e)
              | Ok u =>
                run err := audit (u_ID u) (u_ID u) "auth.register" "user" (Itoa (u_ID u)) None client in
                match err with
                | Some e => Return _ (Err e)
                | None => respond u client
                end
              end
            end
        end
    end.

Definition Login (req : LoginRequest) (client : ClientInfo) : prog (result AuthErr AuthResponse) :=
  let email := TrimSpace (ToLower (login_Email req)) in
  ask found := AFindByEmail email in
  match found with
  | Err e => Return _ (Err (if bool_decide (e = AErrRecordNotFound) then AErrUnauthorized else e))
  | Ok u =>
    if negb (u_Status u =? StatusActive) || (u_PasswordHash u =? "")%string || negb (verifyPassword (u_PasswordHash u) (login_Password req)) then Return _ (Err AErrUnauthorized)
    else
      ask now := AClock in
      ask _ := AUpdateLastLogin (u_ID u) now in
      run _ := audit (u_ID u) (u_ID u) "auth.login" "user" (Itoa (u_ID u)) None client in
      respond (u_setLastLogin now u) client
  end.

Definition Refresh (refreshToken : string) (client : ClientInfo) : prog (result AuthErr TokenPair) :=
  let hash := tokenHash refreshToken in
  ask now := AClock in
  ask found := AFindSession hash now in
  match found with
  | Err e => Return _ (Err (if bool_decide (e = AErrRecordNotFound) then AErrUnauthorized else e))
  | Ok session =>
    ask now := AClock in
    ask err := ARevokeSession hash now in
    match err with
    | Some e => Return _ (Err e)
    | None => issueTokens (s_UserID session) client
    end
  end.

Definition Logout (refreshToken : string) : prog (option AuthErr) :=
  ask now := AClock in
  ask err := ARevokeSession (tokenHash refreshToken) now in
  Return _ err.

Definition Me (userID : Z) : prog (result AuthErr UserDTO) :=
  ask found := AFindUserByID userID in
  match found with
  | Err e => Return _ (Err (if bool_decide (e = AErrRecordNotFound) then AErrNotFound else e))
  | Ok u => Return _ (Ok (toUserDTO u))
  end.

(** *** GitHub *)

Definition minute : Z := 60 * 10 ^ 9.
Definition stateKey (state : string) : string := "oauth:github:state:" ++ state.
Definition loginCodeKey (code : string) : string := "oauth:login_code:" ++ code.

Definition BeginGitHubOAuth : prog (result AuthErr string) :=
  if negb hasRedis || negb hasGitHub then Return _ (Err AErrNotConfigured)
  else
    ask random := ARandom 32 in
    match random with
    | Err e => Return _ (Err e)
    | Ok random =>
      let state := RandomURLToken random in
      ask err := ARedisSet (stateKey state) "1" (10 * minute) in
      match err with
      | Some e => Return _ (Err e)
      | None => ask url := AAuthCodeURL state in Return _ url
      end
    end.

(** The account is a second result that the callback drops. *)
Definition createGitHubUser (gh : GitHubUser) (providerUserID : string) : prog (result AuthErr User) :=
  let username := TrimSpace (gh_Login gh) in
  let username := if (username =? "")%string then ("github_" ++ providerUserID)%string else username in
  ask found := AFindByUsername username in
  match match found with
        | Ok _ => Ok (username ++ "_" ++ providerUserID)%string
        | Err e => if bool_decide (e = AErrRecordNotFound) then Ok username else Err e
        end with
  | Err e => Return _ (Err e)
  | Ok username =>
    let create :=
      ask created := ACreateUser (mkUser 0 username (gh_Email gh) "" (gh_AvatarURL gh) LoginTypeGithub StatusActive None 0 0 None) in
      match created with
      | Err e => Return _ (Err e)
      | Ok u =>
        ask linked := ACreateOAuth (mkOAuthAccount 0 (u_ID u) "github" providerUserID 0) in
        match linked with Err e => Return _ (Err e) | Ok _ => Return _ (Ok u) end
      end in
    if (gh_Email gh =? "")%string then create
    else
      ask found := AFindByEmail (ToLower (gh_Email gh)) in
      match found with
      | Ok existing =>
        ask linked := ACreateOAuth (mkOAuthAccount 0 (u_ID existing) "github" providerUserID 0) in
        match linked with Err e => Return _ (Err e) | Ok _ => Return _ (Ok existing) end
      | Err e => if negb (bool_decide (e = AErrRecordNotFound)) then Return _ (Err e) else create
      end
  end.

(** The user of a GitHub account, created when there is none. *)
Definition githubUser (gh : GitHubUser) (providerUserID : string) : prog (result AuthErr User) :=
  ask account := AFindOAuth "github" providerUserID in
  match account with
  | Ok account =>
    ask found := AFindUserByID (oa_UserID account) in
    match found with
    | Ok u => Return _ (Ok u)
    | Err e =>
      if negb (bool_decide (e = AErrRecordNotFound)) then Return _ (Err e)
      else
        ask deleted := ADeleteOAuth "github" providerUserID in
        match deleted with
        | Some e => Return _ (Err e)
        | None => createGitHubUser gh providerUserID
        end
    end
  | Err e => if bool_decide (e = AErrRecordNotFound) then createGitHubUser gh providerUserID else Return _ (Err e)
  end.

Definition HandleGitHubCallback (code state : string) (client : ClientInfo) : prog (result AuthErr AuthResponse) :=
  if negb hasRedis || negb hasGitHub then Return _ (Err AErrNotConfigured)
  else if (code =? "")%string || (state =? "")%string then Return _ (Err AErrInvalidInput)
  else
    ask stored := ARedisGet (stateKey state) in
    match stored with
    | Err _ => Return _ (Err AErrUnauthorized)
    | Ok _ =>
      ask _ := ARedisDel (stateKey state) in
      ask token := AExchangeCode code in
      match token with
      | Err e => Return _ (Err e)
      | Ok accessToken =>
        ask gh := AGetUser accessToken in
        match gh with
        | Err e => Return _ (Err e)
        | Ok gh =>
          let providerUserID := Itoa (gh_ID gh) in
          run found := githubUser gh providerUserID in
          match found with
          | Err e => Return _ (Err e)
          | Ok u =>
            ask now := AClock in
            ask _ := AUpdateLastLogin (u_ID u) now in
            run _ := audit (u_ID u) (u_ID u) "auth.github_login" "user" (Itoa (u_ID u)) (Some [("github_user_id"%string, providerUserID)]) client in
            respond (u_setLastLogin now u) client
          end
        end
      end
    end.

Definition HandleGitHubCallbackCode (code state : string) (client : ClientInfo) : prog (result AuthErr string) :=
  run resp := HandleGitHubCallback code state client in
  match resp with
  | Err e => Return _ (Err e)
  | Ok resp =>
    ask random := ARandom 32 in
    match random with
    | Err e => Return _ (Err e)
    | Ok random =>
      let loginCode := RandomURLToken random in
      match marshalResponse resp with
      | Err e => Return _ (Err e)
      | Ok payload =>
        ask err := ARedisSet (loginCodeKey loginCode) payload (2 * minute) in
        Return _ (match err with Some e => Err e | None => Ok loginCode end)
      end
    end
  end.

Definition ExchangeOAuthCode (code : string) : prog (result AuthErr AuthResponse) :=
  if negb hasRedis then Return _ (Err AErrNotConfigured)
  else
    let code := TrimSpace code in
    if (code =? "")%string then Return _ (Err AErrInvalidInput)
    else
      ask data := ARedisGet (loginCodeKey code) in
      match data with
      | Err _ => Return _ (Err AErrUnauthorized)
      | Ok data =>
        ask _ := ARedisDel (loginCodeKey code) in
        Return _ (unmarshalResponse data)
      end.

(** *** API tokens *)

Definition CreateAPIToken (ownerID : Z) (req : CreateAPITokenRequest) : prog (result AuthErr APITokenCreated) :=
  let name := TrimSpace (tr_Name req) in
  if (name =? "")%string then Return _ (Err AErrInvalidInput)
  else match collectScopes [] (tr_Scopes req) with
  | Err e => Return _ (Err e)
  | Ok [] => Return _ (Err AErrNoScope)
  | Ok scopes =>
    ask random := ARandom 32 in
    match random with
    | Err e => Return _ (Err e)
    | Ok random =>
      let fullToken := ("ac_" ++ RandomURLToken random)%string in
      ask created := ACreateToken (mkAPIToken 0 ownerID name (tokenHash fullToken) (str_take 12 fullToken) (marshalScopes scopes) (tr_ExpiresAt req) None 0 0) in
      match created with
      | Err e => Return _ (Err e)
      | Ok token => Return _ (Ok (mkTokenCreated (t_ID token) (t_Name token) fullToken (t_TokenPrefix token) scopes (t_ExpiresAt token) (t_CreatedAt token)))
      end
    end
  end.

Definition ListAPITokens (ownerID : Z) : prog (result AuthErr (list APIToken)) := ask tokens := AListTokens ownerID in Return _ tokens.
Definition RevokeAPIToken (ownerID id : Z) : prog (option AuthErr) :=
  ask now := AClock in
  ask err := ARevokeToken ownerID id now in
  Return _ err.

(** ** Requests *)

(** A request as gin hands it on; [rq_ClientIP] is what [c.ClientIP()] answers. *)
Record Request := mkRequest {
  rq_Method : string; rq_Path : string; rq_Authorization : string; rq_ForwardedFor : string; rq_RealIP : string; rq_RemoteAddr : string; rq_UserAgent : string; rq_ClientIP : string
}.
Record Principal := mkPrincipal { pr_UserID : Z; pr_Kind : string; pr_Scopes : list string }.
Definition authKindJWT : string := "jwt".
Definition authKindAPIToken : string := "api_token".

Inductive Data :=
| DAuth (r : AuthResponse)
| DTokens (t : TokenPair)
| DUser (u : UserDTO)
| DAPITokens (l : list APIToken)
| DAPIToken (t : APITokenCreated)
| DRedirectURL (url : string)
| DSuccess.
(** A JSON body with its status, or a redirect. *)
Inductive Reply :=
| ReplyOK (data : Data)
| ReplyError (status code : Z) (message : string)
| ReplyRedirect (target : string).

Definition CodeBadRequest : Z := 44000.
Definition CodeUnauthorized : Z := 44001.
Definition CodeForbidden : Z := 44002.
Definition CodeNotFound : Z := 44003.
Definition CodeInternal : Z := 44005.

Context (errText : AuthErr → string) (hasAudits : bool).

Definition unauthorized : Reply := ReplyError 401 CodeUnauthorized (errText AErrUnauthorized).

(** [strings.SplitN(s, " ", 2)] with both parts. *)
Definition splitSpace (s : string) : option (string * string) :=
  match IndexByte s " " with Some i => Some (str_take i s, str_drop (S i) s) | None => None end.

(** *** The middleware *)

Definition storedScopes (t : APIToken) : option (list string) :=
  let raw := TrimSpace (t_Scopes t) in if (raw =? "")%string then Some [] else unmarshalScopes raw.

(** The token of an authorization header. *)
Definition bearerToken (rq : Request) : option string :=
  let authorization := TrimSpace (rq_Authorization rq) in
  if (authorization =? "")%string then None
  else match splitSpace authorization with
  | None => None
  | Some (scheme, rest) =>
    if negb (EqualFold scheme "Bearer") then None
    else let token := TrimSpace rest in if (token =? "")%string then None else Some token
  end.

Definition AuthMiddleware (rq : Request) : prog (result Reply Principal) :=
  match bearerToken rq with
  | None => Return _ (Err unauthorized)
  | Some token =>
    ask now := AClock in
    match VerifyAccessToken hmac unmarshalPayload now token with
    | Ok claims => Return _ (Ok (mkPrincipal (claims_UserID claims) authKindJWT []))
    | Err _ =>
      if HasPrefix token "ac_" then
        ask now := AClock in
        ask found := AFindToken (tokenHash token) now in
        match found with
        | Ok apiToken =>
          match storedScopes apiToken with
          | None => Return _ (Err unauthorized)
          | Some scopes => Return _ (Ok (mkPrincipal (t_OwnerID apiToken) authKindAPIToken scopes))
          end
        | Err e => Return _ (Err (if negb (bool_decide (e = AErrRecordNotFound)) then ReplyError 500 CodeInternal (errText e) else unauthorized))
        end
      else Return _ (Err unauthorized)
    end
  end.

Definition routeScope (method path : string) : string :=
  let access := if negb (method =? "GET")%string && negb (method =? "HEAD")%string && negb (method =? "OPTIONS")%string then "write"%string else "read"%string in
  if HasPrefix path "/api/v1/runs" || HasPrefix path "/api/v1/agent-turns" then ("run:" ++ access)%string
  else if HasPrefix path "/api/v1/agents" || HasPrefix path "/api/v1/workspaces" then ("agent:" ++ access)%string
  else if HasPrefix path "/api/v1/memories" || HasPrefix path "/api/v1/memory-" then ("memory:" ++ access)%string
  else if HasPrefix path "/api/v1/provider-catalog" || HasPrefix path "/api/v1/model-providers" then ("resource:" ++ access)%string
  else if HasPrefix path "/api/v1/api-tokens" then "admin"%string
  else ("resource:" ++ access)%string.

Definition recordScopeDenied (principal : Principal) (rq : Request) (required : string) : prog unit :=
  if negb hasAudits || (pr_UserID principal <=? 0) then Return _ tt
  else
    ask _ := ACreateLog (NewLog (pr_UserID principal) (pr_UserID principal) "auth.scope_denied" "http" (rq_Path rq)
      (Some [("method"%string, rq_Method rq); ("path"%string, rq_Path rq); ("required_scope"%string, required)]) (rq_ClientIP rq) (rq_UserAgent rq)) in
    Return _ tt.

(** Whether the principal may go on. *)
Definition scopeAllows (principal : Principal) (required : string) : bool :=
  negb (pr_Kind principal =? authKindAPIToken)%string || existsb (λ scope, (scope =? "*")%string || (scope =? "admin")%string || (scope =? required)%string) (pr_Scopes principal).
Definition RequireRouteScope (principal : Principal) (rq : Request) : prog (option Reply) :=
  let required := routeScope (rq_Method rq) (rq_Path rq) in
  if scopeAllows principal required then Return _ None
  else
    run _ := recordScopeDenied principal rq required in
    Return _ (Some (ReplyError 403 CodeForbidden (errText AErrForbidden))).

(** The group of protected routes of the router: both checks, then the handler. *)
Definition admission (rq : Request) : prog (result Reply Principal) :=
  run admitted := AuthMiddleware rq in
  match admitted with
  | Err reply => Return _ (Err reply)
  | Ok principal =>
    run denied := RequireRouteScope principal rq in
    Return _ (match denied with Some reply => Err reply | None => Ok principal end)
  end.
Definition protected (rq : Request) (handler : Principal → prog Reply) : prog Reply :=
  run admitted := admission rq in
  match admitted with Err reply => Return _ reply | Ok principal => handler principal end.

(** *** Handlers *)

Definition writeAppError (e : AuthErr) : Reply :=
  match e with
  | AErrInvalidInput => ReplyError 400 CodeBadRequest (errText e)
  | AErrUnauthorized => ReplyError 401 CodeUnauthorized (errText e)
  | AErrForbidden => ReplyError 403 CodeForbidden (errText e)
  | AErrNotFound => ReplyError 404 CodeNotFound (errText e)
  | AErrConflict => ReplyError 409 CodeBadRequest (errText e)
  | _ => ReplyError 500 CodeInternal (errText e)
  end.
Definition reply {A} (data : A → Data) (r : result AuthErr A) : Reply := match r with Ok a => ReplyOK (data a) | Err e => writeAppError e end.
Definition replySuccess (err : option AuthErr) : Reply := match err with None => ReplyOK DSuccess | Some e => writeAppError e end.

(** [net.SplitHostPort], its host. *)
Definition splitHost (hostport : string) : option string :=
  match LastIndexByte hostport ":" with
  | None => None
  | Some i =>
    if HasPrefix hostport "[" then
      match IndexByte hostport "]" with
      | None => None
      | Some e =>
        if (S e =? i)%nat && negb (Contains (str_drop 1 hostport) "[") && negb (Contains (str_drop (S e) hostport) "]") then Some (str_take (e - 1) (str_drop 1 hostport))
        else None
      end
    else
      let host := str_take i hostport in
      if Contains host ":" || Contains hostport "[" || Contains hostport "]" then None else Some host
  end.

Definition realIP (rq : Request) : string :=
  let forwarded := TrimSpace (rq_ForwardedFor rq) in
  let forwarded := if (forwarded =? "")%string then ""%string else TrimSpace (default ""%string (head (Split forwarded ","))) in
  if negb (forwarded =? "")%string then forwarded
  else
    let real := TrimSpace (rq_RealIP rq) in
    if negb (real =? "")%string then real
    else match splitHost (TrimSpace (rq_RemoteAddr rq)) with Some host => host | None => TrimSpace (rq_RemoteAddr rq) end.
Definition clientInfo (rq : Request) : ClientInfo := mkClientInfo (rq_UserAgent rq) (realIP rq).

(** The bodies as [ShouldBindJSON] reads them. *)
Definition binding {A} (body : result string A) (k : A → prog Reply) : prog Reply :=
  match body with Err msg => Return _ (writeAppError (AErrBinding msg)) | Ok req => k req end.

Definition HTTPRegister (rq : Request) (body : result string RegisterRequest) : prog Reply :=
  binding body (λ req, run r := Register req (clientInfo rq) in Return _ (reply DAuth r)).
Definition HTTPLogin (rq : Request) (body : result string LoginRequest) : prog Reply :=
  binding body (λ req, run r := Login req (clientInfo rq) in Return _ (reply DAuth r)).
Definition HTTPRefresh (rq : Request) (body : result string string) : prog Reply :=
  binding body (λ token, run r := Refresh token (clientInfo rq) in Return _ (reply DTokens r)).
Definition HTTPLogout (body : result string string) : prog Reply :=
  binding body (λ token, run err := Logout token in Return _ (replySuccess err)).
Definition HTTPMe (rq : Request) : prog Reply :=
  protected rq (λ principal, run r := Me (pr_UserID principal) in Return _ (reply DUser r)).
Definition HTTPListAPITokens (rq : Request) : prog Reply :=
  protected rq (λ principal, run r := ListAPITokens (pr_UserID principal) in Return _ (reply DAPITokens r)).
Definition HTTPCreateAPIToken (rq : Request) (body : result string CreateAPITokenRequest) : prog Reply :=
  protected rq (λ principal, binding body (λ req, run r := CreateAPIToken (pr_UserID principal) req in Return _ (reply DAPIToken r))).
Definition HTTPDeleteAPIToken (rq : Request) (id : string) : prog Reply :=
  protected rq (λ principal, match ParseInt id with
    | None => Return _ (writeAppError AErrInvalidInput)
    | Some id => run err := RevokeAPIToken (pr_UserID principal) id in Return _ (replySuccess err)
    end).

(** [url.QueryEscape]. *)
Definition hexUpper (d : Z) : ascii := byte_of (if d <? 10 then 48 + d else 55 + d).
Definition escapeByte (c : ascii) : list ascii :=
  let v := byte_val c in
  if in_range 48 57 v || in_range 65 90 v || in_range 97 122 v || (v =? 45) || (v =? 95) || (v =? 46) || (v =? 126) then [c]
  else if v =? 32 then [byte_of 43] else [byte_of 37; hexUpper (v / 16); hexUpper (v `mod` 16)].
Definition QueryEscape (s : string) : string := of_bytes (concat (escapeByte <$> bytes s)).

Definition GitHubRedirect : prog Reply := run r := BeginGitHubOAuth in Return _ (reply DRedirectURL r).
Definition GitHubCallback (rq : Request) (code state : string) : prog Reply :=
  run r := HandleGitHubCallbackCode code state (clientInfo rq) in
  Return _ (ReplyRedirect (match r with Err e => "/login?error=" ++ QueryEscape (errText e) | Ok loginCode => "/login?oauth_code=" ++ QueryEscape loginCode end)%string).
Definition HTTPExchangeCode (body : result string string) : prog Reply :=
  binding body (λ code, run r := ExchangeOAuthCode code in Return _ (reply DAuth r)).
End Service.
