(* ===== verification/AuthSafety.v ===== *)
(** What [Auth] guarantees, whatever other handlers do in between: a refresh token that was
    used or logged out is spent; a password login needs the password of an active account;
    an API token is admitted where its scopes allow, and nowhere else, until it is revoked.
    [ends] follows a handler through every answer of its calls, with calls of others between
    any two.  At the end, what concurrent or partial runs can do. *)
From Stdlib Require Import Ascii.
From S2P Require Import Prelude GoStr Fuzzy PatchText Threads MemoryDomain Jwt Auth.
Open Scope Z_scope.

(** ** Runs among others *)

Section Runs.
Context (collate : string → string).

(** A call of any handler. *)
Definition anyCall (d d' : AuthDB) : Prop := ∃ X (c : acall X) x, performA collate X c d x d'.

(** What the clock shows to the handler. *)
Definition shows (clock : Z → Prop) {X} (c : acall X) : X → Prop :=
  match c in acall X return X → Prop with AClock => clock | _ => λ _, True end.
Definition anyTime (t : Z) : Prop := True.

(** A run of [p] returns [a]: before each of its calls, and after the last, others took theirs. *)
Fixpoint ends (clock : Z → Prop) {A} (p : program acall A) (d : AuthDB) (a : A) (d' : AuthDB) : Prop :=
  match p with
  | Return _ b => a = b ∧ rtc anyCall d d'
  | Ask _ c k => ∃ d0 x d1, rtc anyCall d d0 ∧ (performA collate _ c d0 x d1 ∧ shows clock c x) ∧ ends clock (k x) d1 a d'
  end.

Lemma call_rtc {X} (c : acall X) d x d' : performA collate X c d x d' → rtc anyCall d d'.
Proof. intros Hc. apply rtc_once. by exists X, c, x. Qed.
Lemma ends_rtc clock {A} (p : program acall A) d a d' : ends clock p d a d' → rtc anyCall d d'.
Proof.
  revert d. induction p as [b|X c k IH]; intros d; cbn; [by intros [_ ?]|]. intros (d0 & x & d1 & Hr & [Hc _] & He). etrans; [exact Hr|]. etrans; [by eapply call_rtc|by eapply IH].
Qed.
Lemma ends_others clock {A} (p : program acall A) d d0 a d' : rtc anyCall d d0 → ends clock p d0 a d' → ends clock p d a d'.
Proof.
  intros Hr. destruct p as [b|X c k]; cbn; [intros [-> ?]; split; [done|by etrans]|]. intros (d1 & x & d2 & Hr' & Hc & He). exists d1, x, d2. split_and!; [by etrans|apply Hc..|done].
Qed.
Lemma ends_bind clock {A B} (p : program acall A) (f : A → program acall B) d b d' : ends clock (bindProg p f) d b d' ↔ ∃ a d1, ends clock p d a d1 ∧ ends clock (f a) d1 b d'.
Proof.
  revert d. induction p as [a|X c k IH]; intros d; cbn.
  - split; [intros He; by exists a, d|]. intros (a' & d1 & [-> Hr] & He). by eapply ends_others.
  - split.
    + intros (d0 & x & d1 & Hr & Hc & He). apply IH in He as (a & d2 & H1 & H2). exists a, d2. split; [by exists d0, x, d1|done].
    + intros (a & d2 & (d0 & x & d1 & Hr & Hc & H1) & H2). exists d0, x, d1. split; [done|]. split; [done|]. apply IH. by exists a, d2.
Qed.

(** ** What no call undoes *)

(** A property of the tables that calls keep. *)
Definition preserved (P : AuthDB → Prop) : Prop := ∀ d d', P d → anyCall d d' → P d'.
Lemma preserved_rtc P d d' : preserved P → rtc anyCall d d' → P d → P d'.
Proof. intros HP. induction 1 as [|d d1 d2 Hs _ IH]; [done|]. intros Hd. by eapply IH, HP. Qed.

(** To keep a property of one table, the committed effects of its calls have to. *)
Lemma commit_keeps {X} (P : AuthDB → Prop) (answer : X * AuthDB) fail d x d' : P d → P answer.2 → transaction answer fail d x d' → P d'.
Proof. destruct answer. intros H1 H2 [[= -> ->]|(msg & _ & [->| ->])]; done. Qed.

Definition sessionsOf (P : list Session → Prop) (d : AuthDB) : Prop := P (db_sessions d).
Lemma sessions_preserved P :
  (∀ now s d, P (db_sessions d) → P (db_sessions (CreateSession collate now s d).2)) →
  (∀ h t now d, P (db_sessions d) → P (db_sessions (RevokeByRefreshHash collate h t now d))) → preserved (sessionsOf P).
Proof.
  intros H1 H2 d d' Hd (X & c & x & Hp). destruct c; cbn in Hp; try (by subst d'); try (by destruct Hp as [-> _]); try destruct Hp as [now' Hp];
    unfold authStatement, authQuery in Hp; (eapply (commit_keeps (sessionsOf P)); [exact Hd| |exact Hp]); unfold sessionsOf in *; cbn [fst snd]; auto; unfold CreateUser, CreateToken, CreateOAuth; try case_match; cbn; auto.
Qed.

Definition tokensOf (P : list APIToken → Prop) (d : AuthDB) : Prop := P (db_tokens d).
Lemma tokens_preserved P :
  (∀ now t d, P (db_tokens d) → P (db_tokens (CreateToken collate now t d).2)) →
  (∀ o id t now d, P (db_tokens d) → P (db_tokens (RevokeByID o id t now d))) → preserved (tokensOf P).
Proof.
  intros H1 H2 d d' Hd (X & c & x & Hp). destruct c; cbn in Hp; try (by subst d'); try (by destruct Hp as [-> _]); try destruct Hp as [now' Hp];
    unfold authStatement, authQuery in Hp; (eapply (commit_keeps (tokensOf P)); [exact Hd| |exact Hp]); unfold tokensOf in *; cbn [fst snd]; auto; unfold CreateUser, CreateSession, CreateOAuth; try case_match; cbn; auto.
Qed.

Lemma columnEq_spec s t : columnEq collate s t = true ↔ collate s = collate t.
Proof. unfold columnEq. apply String.eqb_eq. Qed.

Lemma First_ok {A} (p : A → bool) rows x : First p rows = Ok x → x ∈ rows ∧ p x = true.
Proof.
  unfold First. destruct (filter _ rows) as [|y l] eqn:E; [done|]. intros [= <-].
  assert (y ∈ filter (λ x, p x = true) rows) as Hy by (rewrite E; left). by apply list_elem_of_filter in Hy as [? ?].
Qed.
Lemma First_none {A} (p : A → bool) rows : (∀ x, x ∈ rows → p x = false) → First p rows = Err AErrRecordNotFound.
Proof.
  intros Hn. unfold First. destruct (filter _ rows) as [|y l] eqn:E; [done|].
  assert (y ∈ filter (λ x, p x = true) rows) as Hy by (rewrite E; left). apply list_elem_of_filter in Hy as [Hp Hy]. by rewrite Hn in Hp.
Qed.

Lemma First_some {A} (p : A → bool) rows x : x ∈ rows → p x = true → ∃ y, First p rows = Ok y.
Proof.
  intros Hx Hp. unfold First. destruct (filter _ rows) as [|y l] eqn:E; [|by exists y]. assert (x ∈ filter (λ x, p x = true) rows) as Hin by by apply list_elem_of_filter.
  rewrite E in Hin. by apply elem_of_nil in Hin.
Qed.

(** *** Sessions *)

Definition hasSession (h : string) (l : list Session) : Prop := ∃ s, s ∈ l ∧ columnEq collate (s_RefreshTokenHash s) h = true.
Definition spent (h : string) (l : list Session) : Prop :=
  hasSession h l ∧ ∀ s, s ∈ l → columnEq collate (s_RefreshTokenHash s) h = true → s_RevokedAt s ≠ None.

Lemma Create_hasSession h now s d : hasSession h (db_sessions d) → hasSession h (db_sessions (CreateSession collate now s d).2).
Proof. intros (r & Hr & E). unfold CreateSession. case_match; cbn; exists r; split; try done. apply elem_of_app. by left. Qed.
Lemma Revoke_session h t now d s : s ∈ db_sessions (RevokeByRefreshHash collate h t now d) →
  ∃ r, r ∈ db_sessions d ∧ s_RefreshTokenHash r = s_RefreshTokenHash s ∧ s_UserID r = s_UserID s ∧ (s_RevokedAt r ≠ None → s_RevokedAt s ≠ None) ∧
    (columnEq collate (s_RefreshTokenHash s) h = true → s_RevokedAt s ≠ None).
Proof.
  cbn. intros (r & -> & Hr)%list_elem_of_fmap. exists r. split; [done|]. destruct (columnEq collate (s_RefreshTokenHash r) h) eqn:E; cbn [andb]; [|by rewrite E].
  case_bool_decide as Hn; cbn; [done|]. by rewrite E.
Qed.
Lemma Revoke_hasSession h h' t now d : hasSession h (db_sessions d) → hasSession h (db_sessions (RevokeByRefreshHash collate h' t now d)).
Proof. intros (r & Hr & E). eexists. split; [by apply list_elem_of_fmap_2|]. by case_match. Qed.

(** The unique key keeps others away from the hash of a session. *)
Lemma newSession_keeps (P : Session → Prop) h now s d : hasSession h (db_sessions d) → (∀ r, r ∈ db_sessions d → columnEq collate (s_RefreshTokenHash r) h = true → P r) →
  ∀ r, r ∈ db_sessions (CreateSession collate now s d).2 → columnEq collate (s_RefreshTokenHash r) h = true → P r.
Proof.
  intros (r0 & Hr0 & E0) Hall. unfold CreateSession. case_match eqn:Hdup; [done|]. cbn. intros r [Hr|Hr]%elem_of_app; [by apply Hall|].
  apply list_elem_of_singleton in Hr as ->. cbn. intros E. exfalso. apply not_true_iff_false in Hdup. apply Hdup, existsb_exists.
  exists r0. split; [by apply list_elem_of_In|]. apply columnEq_spec in E, E0. apply columnEq_spec. congruence.
Qed.

Lemma spent_preserved h : preserved (sessionsOf (spent h)).
Proof.
  apply sessions_preserved.
  - intros now s d [Hex Hall]. split; [by apply Create_hasSession|]. by apply (newSession_keeps (λ s, s_RevokedAt s ≠ None)).
  - intros h' t now d [Hex Hall]. split; [by apply Revoke_hasSession|]. intros s (r & Hr & Eh & _ & Hrev & _)%Revoke_session E. apply Hrev, (Hall r Hr). by rewrite Eh.
Qed.
Lemma hasSession_preserved h : preserved (sessionsOf (hasSession h)).
Proof. apply sessions_preserved; intros; [by apply Create_hasSession|by apply Revoke_hasSession]. Qed.

Lemma Revoke_spent h t now d : hasSession h (db_sessions d) → spent h (db_sessions (RevokeByRefreshHash collate h t now d)).
Proof. intros Hex. split; [by apply Revoke_hasSession|]. by intros s (r & _ & _ & _ & _ & Hrev)%Revoke_session. Qed.
Lemma spent_inactive h now d : spent h (db_sessions d) → FindActiveByRefreshHash collate h now d = Err AErrRecordNotFound.
Proof.
  intros [_ Hall]. apply First_none. intros s Hs. destruct (columnEq _ _ h) eqn:E; [|done]. cbn [andb]. by rewrite bool_decide_eq_false_2 by by apply Hall.
Qed.

(** The session of a user. *)
Definition sessionOf (h : string) (user : Z) (l : list Session) : Prop :=
  hasSession h l ∧ ∀ s, s ∈ l → columnEq collate (s_RefreshTokenHash s) h = true → s_UserID s = user.
Lemma sessionOf_preserved h user : preserved (sessionsOf (sessionOf h user)).
Proof.
  apply sessions_preserved.
  - intros now s d [Hex Hall]. split; [by apply Create_hasSession|]. intros r. by apply (newSession_keeps (λ s, s_UserID s = user) h now s d Hex Hall).
  - intros h' t now d [Hex Hall]. split; [by apply Revoke_hasSession|]. intros s (r & Hr & Eh & <- & _)%Revoke_session E. apply (Hall r Hr). by rewrite Eh.
Qed.
Lemma Create_sessionOf now s d d' : (None, d') = CreateSession collate now s d → sessionOf (s_RefreshTokenHash s) (s_UserID s) (db_sessions d').
Proof.
  unfold CreateSession. case_match eqn:Hdup; [done|]. intros [= ->]. cbn. split.
  - eexists. split; [apply elem_of_app; right; by apply list_elem_of_singleton|]. by apply columnEq_spec.
  - intros r [Hr|Hr]%elem_of_app E; [|by apply list_elem_of_singleton in Hr as ->]. exfalso. apply not_true_iff_false in Hdup. apply Hdup, existsb_exists.
    exists r. split; [by apply list_elem_of_In|done].
Qed.

(** What a call that succeeded did. *)
Lemma statement_done answer d d' : authStatement answer d None d' → (None, d') = answer.
Proof. intros [?|(msg & [=] & _)]. done. Qed.
Lemma query_done {X} (answer : result AuthErr X * AuthDB) a d d' : authQuery answer d (Ok a) d' → (Ok a, d') = answer.
Proof. intros [?|(msg & [=] & _)]. done. Qed.
Lemma query_reads {X} (answer : result AuthErr X) x d d' : authQuery (answer, d) d x d' → d' = d ∧ (x = answer ∨ ∃ msg, x = Err (AErrDatabase msg)).
Proof. intros [[= -> ->]|(msg & -> & [->| ->])]; eauto. Qed.
End Runs.

(** ** Sessions *)

Section Sessions.
Context {UT : UnicodeTables} (collate tokenHash : string → string) (verifyPassword : string → string → bool).
Context (hmac : string → list ascii) (accessTTL refreshTTL : Z) (marshalDetail : list (string * string) → option string).
Notation Refresh := (Refresh tokenHash hmac accessTTL refreshTTL).
Notation Logout := (Logout tokenHash).
Notation ends := (ends collate anyTime).
Notation holds P := (preserved_rtc collate _ _ _ P).

Lemma Logout_spends token d d' : hasSession collate (tokenHash token) (db_sessions d) → ends (Logout token) d None d' → spent collate (tokenHash token) (db_sessions d').
Proof.
  intros Hex. cbn. intros (d0 & now & d1 & R0 & [-> _] & d2 & err & d3 & R1 & [[now' Hc] _] & E & R2). subst err. apply statement_done in Hc. injection Hc as ->.
  apply (holds (spent_preserved collate _) R2), Revoke_spent, (holds (hasSession_preserved collate _) R1), (holds (hasSession_preserved collate _) R0), Hex.
Qed.

Lemma Refresh_spends token client pair d d' : ends (Refresh token client) d (Ok pair) d' → spent collate (tokenHash token) (db_sessions d').
Proof.
  cbn [Auth.Refresh AuthSafety.ends]. intros (d0 & now & d1 & R0 & [-> _] & d2 & found & d3 & R1 & [Hf _] & He). apply query_reads in Hf as [-> Hf].
  destruct found as [session|e]; [|by destruct He]. destruct Hf as [Hf|[? [=]]]. symmetry in Hf. apply First_ok in Hf as [Hs Hp]. bool_prop.
  assert (hasSession collate (tokenHash token) (db_sessions d2)) as Hex by (exists session; done).
  destruct He as (d4 & t & d5 & R2 & [-> _] & d6 & err & d7 & R3 & [[now' Hc] _] & He). destruct err as [e|]; [by destruct He|]. apply statement_done in Hc. injection Hc as ->.
  eapply (holds (spent_preserved collate _)); [by eapply ends_rtc|]. apply Revoke_spent, (holds (hasSession_preserved collate _) R3), (holds (hasSession_preserved collate _) R2), Hex.
Qed.

(** C16. A refresh token is good for one use: once it was exchanged or logged out, and whatever
    handlers did before and after, a refresh with it is refused or fails in the database, and
    gives no tokens. *)
Theorem refresh_token_spent token client client' pair d0 d1 d2 r d3 :
  (hasSession collate (tokenHash token) (db_sessions d0) ∧ ends (Logout token) d0 None d1) ∨ ends (Refresh token client') d0 (Ok pair) d1 →
  rtc (anyCall collate) d1 d2 → ends (Refresh token client) d2 r d3 →
  r = Err AErrUnauthorized ∨ ∃ msg, r = Err (AErrDatabase msg).
Proof.
  intros Hspend R He. assert (spent collate (tokenHash token) (db_sessions d2)) as Hs.
  { apply (holds (spent_preserved collate _) R). destruct Hspend as [[Hex Hl]|Hr]; [by apply (Logout_spends token d0)|by eapply Refresh_spends]. }
  cbn [Auth.Refresh AuthSafety.ends] in He. destruct He as (d4 & now & d5 & R0 & [-> _] & d6 & found & d7 & R1 & [Hf _] & He). apply query_reads in Hf as [-> Hf].
  rewrite spent_inactive in Hf by (apply (holds (spent_preserved collate _) R1), (holds (spent_preserved collate _) R0), Hs).
  destruct Hf as [->|[msg ->]]; cbn in He; destruct He as [-> _]; eauto.
Qed.

(** The tokens of a user: the access token was issued for it, the refresh token opens a session of
    it. *)
Definition tokensFor (user : Z) (pair : TokenPair) (d : AuthDB) : Prop :=
  (∃ now, (tp_AccessToken pair, tp_ExpiresAt pair) = IssueAccessToken hmac accessTTL now user) ∧ sessionOf collate (tokenHash (tp_RefreshToken pair)) user (db_sessions d).

Lemma issueTokens_for user client pair d d' : ends (issueTokens tokenHash hmac accessTTL refreshTTL user client) d (Ok pair) d' → tokensFor user pair d'.
Proof.
  unfold issueTokens. cbn [AuthSafety.ends]. intros (d0 & now & d1 & R0 & [-> _] & He). destruct (IssueAccessToken hmac accessTTL now user) as [access expires] eqn:Ei. cbn [AuthSafety.ends] in He.
  destruct He as (d2 & random & d3 & R1 & [[-> _] _] & He). destruct random as [random|e]; [|by destruct He].
  destruct He as (d4 & now2 & d5 & R2 & [-> _] & d6 & err & d7 & R3 & [[now' Hc] _] & He). destruct err as [e|]; [by destruct He|]. destruct He as [[= ->] R4]. apply statement_done in Hc.
  split; [exists now; by rewrite Ei|]. apply (holds (sessionOf_preserved collate _ _) R4). by apply Create_sessionOf in Hc.
Qed.
Lemma respond_for u client resp d d' : ends (respond tokenHash hmac accessTTL refreshTTL u client) d (Ok resp) d' → ar_User resp = toUserDTO u ∧ tokensFor (u_ID u) (ar_Tokens resp) d'.
Proof.
  intros (tokens & d1 & Ht & [E R])%ends_bind. destruct tokens as [pair|e]; [|done]. injection E as ->. cbn. split; [done|]. apply issueTokens_for in Ht as [Ha Hs].
  split; [done|]. by apply (holds (sessionOf_preserved collate _ _) R).
Qed.

(** C23. A password login needs the password of an active account: when it gives tokens, there was, while
    it ran, a user with that email, active and not deleted, whose password hash accepts the
    password; and the response, the access token and the session of the refresh token are of that
    user. *)
Theorem login_authenticates req client resp d d' :
  ends (Login tokenHash verifyPassword hmac marshalDetail accessTTL refreshTTL req client) d (Ok resp) d' →
  ∃ u d1, rtc (anyCall collate) d d1 ∧ u ∈ db_users d1 ∧ collate (u_Email u) = collate (TrimSpace (ToLower (login_Email req))) ∧ u_DeletedAt u = None ∧
    u_Status u = StatusActive ∧ u_PasswordHash u ≠ ""%string ∧ verifyPassword (u_PasswordHash u) (login_Password req) = true ∧
    dto_ID (ar_User resp) = u_ID u ∧ tokensFor (u_ID u) (ar_Tokens resp) d'.
Proof.
  unfold Login. cbn [AuthSafety.ends]. intros (d1 & found & d2 & R0 & [Hf _] & He). apply query_reads in Hf as [-> Hf]. destruct found as [u|e]; [|by destruct He].
  destruct Hf as [Hf|[? [=]]]. symmetry in Hf. apply First_ok in Hf as [Hu Hp]. unfold live in Hp. bool_prop. case_match eqn:Hg; [by destruct He|]. bool_prop.
  destruct He as (d3 & now & d4 & R1 & [-> _] & d5 & x & d6 & R2 & _ & He). apply ends_bind in He as (a & d7 & _ & He). apply respond_for in He as [-> Ht].
  exists u, d1. split_and!; try done. by apply columnEq_spec.
Qed.

(** A refresh carries on the session of its user. *)
Lemma refresh_same_user token client pair user d d' : sessionOf collate (tokenHash token) user (db_sessions d) → ends (Refresh token client) d (Ok pair) d' → tokensFor user pair d'.
Proof.
  intros Hs. cbn [Auth.Refresh AuthSafety.ends]. intros (d0 & now & d1 & R0 & [-> _] & d2 & found & d3 & R1 & [Hf _] & He). apply query_reads in Hf as [-> Hf].
  destruct found as [session|e]; [|by destruct He]. destruct Hf as [Hf|[? [=]]]. symmetry in Hf. apply First_ok in Hf as [Hin Hp]. bool_prop.
  assert (sessionsOf (sessionOf collate (tokenHash token) user) d2) as [_ Hall] by (apply (holds (sessionOf_preserved collate _ _) R1), (holds (sessionOf_preserved collate _ _) R0), Hs).
  rewrite (Hall session Hin) in He by done. destruct He as (d4 & t & d5 & R2 & [-> _] & d6 & err & d7 & R3 & _ & He). destruct err as [e|]; [by destruct He|]. by apply issueTokens_for in He.
Qed.
End Sessions.

(** ** API tokens *)

Lemma collectScopes_ok acc raws scopes : collectScopes acc raws = Ok scopes →
  ∀ s, s ∈ scopes ↔ s ∈ acc ∨ ∃ raw, raw ∈ raws ∧ TrimSpace raw = s ∧ s ≠ ""%string ∧ s ∈ apiTokenScopes.
Proof.
  revert acc. induction raws as [|raw raws IH]; intros acc; cbn [collectScopes].
  - intros [= ->] s. split; [by left|]. intros [?|(raw & Hr & _)]; [done|by apply elem_of_nil in Hr].
  - case_match eqn:He; bool_prop.
    + intros Hc s. rewrite (IH _ Hc). split; intros [?|(x & Hx & Ex & Hne & Ha)]; try (by left); right; exists x; split_and!; try done; [by right|].
      apply elem_of_cons in Hx as [->|?]; [by rewrite He in Ex|done].
    + case_bool_decide as Hin; cbn [negb]; [|done]. intros Hc s. rewrite (IH _ Hc). split.
      * intros [Hs|(x & Hx & ?)]; [|right; exists x; split; [by right|done]]. case_bool_decide; [by left|]. apply elem_of_app in Hs as [?|Hs]; [by left|].
        apply list_elem_of_singleton in Hs as ->. right. exists raw. split_and!; [left|done..].
      * intros [Hs|(x & Hx & Ex & ?)]; [left; case_bool_decide; [done|]; apply elem_of_app; by left|].
        apply elem_of_cons in Hx as [->|Hx]; [|right; by exists x]. left. case_bool_decide; [by rewrite <- Ex|]. apply elem_of_app. right. rewrite Ex. by apply list_elem_of_singleton.
Qed.

Section Tokens.
Context (collate : string → string).

(** The rows with the hash of a token are of this owner, with these scopes and this expiry. *)
Definition isToken (h : string) (o : Z) (sc : string) (e : option Z) (l : list APIToken) : Prop :=
  (∃ t, t ∈ l ∧ columnEq collate (t_TokenHash t) h = true) ∧
  ∀ t, t ∈ l → columnEq collate (t_TokenHash t) h = true → t_OwnerID t = o ∧ t_Scopes t = sc ∧ t_ExpiresAt t = e.
(** One of them is not revoked. *)
Definition usable (h : string) (l : list APIToken) : Prop := Exists (λ t, columnEq collate (t_TokenHash t) h = true ∧ t_RevokedAt t = None) l.
Definition revoked (h : string) (l : list APIToken) : Prop :=
  (∃ t, t ∈ l ∧ columnEq collate (t_TokenHash t) h = true) ∧ ∀ t, t ∈ l → columnEq collate (t_TokenHash t) h = true → t_RevokedAt t ≠ None.

Lemma revoke_token o id t now d r : r ∈ db_tokens (RevokeByID o id t now d) →
  ∃ r0, r0 ∈ db_tokens d ∧ t_TokenHash r = t_TokenHash r0 ∧ t_OwnerID r = t_OwnerID r0 ∧ t_Scopes r = t_Scopes r0 ∧ t_ExpiresAt r = t_ExpiresAt r0 ∧
    (t_RevokedAt r0 ≠ None → t_RevokedAt r ≠ None).
Proof. cbn. intros (r0 & -> & Hr)%list_elem_of_fmap. exists r0. split; [done|]. by case_match. Qed.
Lemma revoke_row h o id t now d : (∃ r, r ∈ db_tokens d ∧ columnEq collate (t_TokenHash r) h = true) →
  ∃ r, r ∈ db_tokens (RevokeByID o id t now d) ∧ columnEq collate (t_TokenHash r) h = true.
Proof. intros (r & Hr & E). eexists. split; [by apply list_elem_of_fmap_2|]. by case_match. Qed.

(** The unique key keeps others away from the hash of a token. *)
Lemma create_other (P : APIToken → Prop) h now t d : (∃ r, r ∈ db_tokens d ∧ columnEq collate (t_TokenHash r) h = true) →
  (∀ r, r ∈ db_tokens d → columnEq collate (t_TokenHash r) h = true → P r) →
  (∃ r, r ∈ db_tokens (CreateToken collate now t d).2 ∧ columnEq collate (t_TokenHash r) h = true) ∧
  ∀ r, r ∈ db_tokens (CreateToken collate now t d).2 → columnEq collate (t_TokenHash r) h = true → P r.
Proof.
  intros (r0 & Hr0 & E0) Hall. unfold CreateToken. case_match eqn:Hdup; cbn; [split; [by exists r0|done]|].
  split; [exists r0; split; [apply elem_of_app; by left|done]|]. intros r [Hr|Hr]%elem_of_app; [by apply Hall|]. apply list_elem_of_singleton in Hr as ->. cbn. intros E. exfalso.
  apply not_true_iff_false in Hdup. apply Hdup, existsb_exists. exists r0. split; [by apply list_elem_of_In|]. apply columnEq_spec in E, E0. apply columnEq_spec. congruence.
Qed.

Lemma isToken_preserved h o sc e : preserved collate (tokensOf (isToken h o sc e)).
Proof.
  apply tokens_preserved.
  - intros now t d [Hex Hall]. by apply (create_other (λ t, t_OwnerID t = o ∧ t_Scopes t = sc ∧ t_ExpiresAt t = e)).
  - intros o' id t now d [Hex Hall]. split; [by apply revoke_row|]. intros r (r0 & Hr0 & E1 & -> & -> & -> & _)%revoke_token E. apply (Hall r0 Hr0). by rewrite <- E1.
Qed.
Lemma revoked_preserved h : preserved collate (tokensOf (revoked h)).
Proof.
  apply tokens_preserved.
  - intros now t d [Hex Hall]. by apply (create_other (λ t, t_RevokedAt t ≠ None)).
  - intros o' id t now d [Hex Hall]. split; [by apply revoke_row|]. intros r (r0 & Hr0 & E1 & _ & _ & _ & Hr)%revoke_token E. apply Hr, (Hall r0 Hr0). by rewrite <- E1.
Qed.

(** A token that is found has not expired, and was usable before. *)
Lemma found_usable h o sc e now t d d' : tokensOf (isToken h o sc e) d → rtc (anyCall collate) d d' → FindActiveByHash collate h now d' = Ok t →
  usable h (db_tokens d) ∧ (∀ x, e = Some x → now < x) ∧ t_OwnerID t = o ∧ t_Scopes t = sc.
Proof.
  intros Ht R Hf. apply First_ok in Hf as [Hin Hp]. bool_prop. pose proof (preserved_rtc collate _ _ _ (isToken_preserved h o sc e) R Ht) as [_ Ht'].
  destruct (Ht' t Hin) as (Ho & Hs & He); [done|]. split_and!; [|intros x ->; unfold unexpired in *; rewrite He in *; by apply Z.ltb_lt|done..].
  destruct (decide (Exists (λ t, columnEq collate (t_TokenHash t) h = true ∧ t_RevokedAt t = None) (db_tokens d))) as [Hu|Hn]; [done|]. exfalso.
  assert (tokensOf (revoked h) d) as Hrev.
  { split; [apply Ht|]. intros r Hr E En. apply Hn, Exists_exists. by exists r. }
  pose proof (preserved_rtc collate _ _ _ (revoked_preserved h) R Hrev) as [_ Hall]. by apply (Hall t Hin).
Qed.
(** And a usable one is found until it expires. *)
Lemma usable_found h o sc e now d : tokensOf (isToken h o sc e) d → usable h (db_tokens d) → (∀ x, e = Some x → now < x) →
  ∃ t, FindActiveByHash collate h now d = Ok t ∧ t_OwnerID t = o ∧ t_Scopes t = sc.
Proof.
  intros [_ Hall] (t & Ht & E & Hn)%Exists_exists Hnow. unfold FindActiveByHash.
  edestruct (First_some (λ t, columnEq collate (t_TokenHash t) h && bool_decide (t_RevokedAt t = None) && unexpired now t) (db_tokens d) t) as [x Hf]; [done| |].
  - destruct (Hall t Ht E) as (_ & _ & He). rewrite E, bool_decide_eq_true_2 by done. cbn [andb]. unfold unexpired. rewrite He. destruct e; [|done]. by apply Z.ltb_lt, Hnow.
  - exists x. split; [done|]. apply First_ok in Hf as [Hx Hp]. bool_prop. by destruct (Hall x Hx) as (? & ? & _).
Qed.
End Tokens.

Section Admission.
Context {UT : UnicodeTables} (collate tokenHash : string → string).
Context (hmac : string → list ascii) (unmarshalPayload : list ascii → option jwtPayload).
Context (marshalDetail : list (string * string) → option string) (marshalScopes : list string → string) (unmarshalScopes : string → option (list string)).
Context (errText : AuthErr → string) (hasAudits : bool).
Context (Hscopes : ∀ scopes, scopes ⊆ apiTokenScopes → TrimSpace (marshalScopes scopes) = marshalScopes scopes ∧ marshalScopes scopes ≠ ""%string ∧
  unmarshalScopes (marshalScopes scopes) = Some scopes).
Notation ends := (ends collate).
Notation at_ now := (λ t : Z, t = now).
Notation admission := (admission tokenHash hmac unmarshalPayload marshalDetail unmarshalScopes errText hasAudits).
Notation CreateAPIToken := (CreateAPIToken tokenHash marshalScopes).

Lemma created_token owner req created d d' : ends anyTime (CreateAPIToken owner req) d (Ok created) d' →
  (∀ s, s ∈ tc_Scopes created ↔ ∃ raw, raw ∈ tr_Scopes req ∧ TrimSpace raw = s ∧ s ≠ ""%string ∧ s ∈ apiTokenScopes) ∧
  (∃ random, tc_Token created = ("ac_" ++ RandomURLToken random)%string) ∧
  tokensOf (isToken collate (tokenHash (tc_Token created)) owner (marshalScopes (tc_Scopes created)) (tr_ExpiresAt req)) d'.
Proof.
  unfold Auth.CreateAPIToken. case_match; [by intros [? _]|]. destruct (collectScopes [] (tr_Scopes req)) as [[|sc scs]|e] eqn:Hc; [by intros [? _]| |by intros [? _]].
  cbn [AuthSafety.ends]. intros (d0 & random & d1 & R0 & [[-> _] _] & He). destruct random as [random|e]; [|by destruct He].
  destruct He as (d2 & x & d3 & R1 & [[now Hq] _] & He). destruct x as [t|e]; [|by destruct He]. destruct He as [[= ->] R2]. cbn [tc_Scopes tc_Token].
  split_and!; [|by exists random|].
  - intros s. rewrite (collectScopes_ok _ _ _ Hc). split; [intros [?%elem_of_nil|?]; done|by right].
  - apply (preserved_rtc collate _ _ _ (isToken_preserved collate _ _ _ _) R2). apply query_done in Hq. unfold CreateToken in Hq. case_match eqn:Hdup; [done|]. injection Hq as _ ->.
    unfold tokensOf. cbn. split.
    + eexists. split; [apply elem_of_app; right; by apply list_elem_of_singleton|]. cbn. by apply columnEq_spec.
    + intros r [Hr|Hr]%elem_of_app E; [|apply list_elem_of_singleton in Hr as ->; done]. exfalso. apply not_true_iff_false in Hdup. apply Hdup, existsb_exists.
      exists r. split; [by apply list_elem_of_In|done].
Qed.

Lemma api_token_no_dot random : dot ∉ bytes ("ac_" ++ RandomURLToken random)%string.
Proof.
  rewrite bytes_app, elem_of_app. intros [Hd|Hd]; [|by apply encoded_free in Hd]. unfold bytes in Hd. cbn in Hd. repeat (apply elem_of_cons in Hd as [Hd|Hd]; [by vm_compute in Hd|]). by apply elem_of_nil in Hd.
Qed.

Lemma api_token_prefix random : HasPrefix ("ac_" ++ RandomURLToken random)%string "ac_" = true.
Proof. unfold HasPrefix. apply prefix_refl_app. Qed.

(** What [RequireRouteScope] answers. *)
Lemma scope_checked clock principal rq denied d d' :
  ends clock (RequireRouteScope marshalDetail errText hasAudits principal rq) d denied d' → denied = None ↔ scopeAllows principal (routeScope (rq_Method rq) (rq_Path rq)) = true.
Proof.
  unfold RequireRouteScope. destruct (scopeAllows _ _); [by intros [-> _]|]. intros (a & d1 & _ & [-> _])%ends_bind. done.
Qed.
Lemma scope_passes clock principal rq d : scopeAllows principal (routeScope (rq_Method rq) (rq_Path rq)) = true → ends clock (RequireRouteScope marshalDetail errText hasAudits principal rq) d None d.
Proof. unfold RequireRouteScope. intros ->. done. Qed.

Lemma scopeAllows_api owner scopes required :
  scopeAllows (mkPrincipal owner authKindAPIToken scopes) required = true ↔ ∃ s, s ∈ scopes ∧ s ∈ ["*"; "admin"; required]%string.
Proof.
  unfold scopeAllows. cbn [pr_Kind pr_Scopes]. rewrite String.eqb_refl. cbn [negb orb]. rewrite existsb_exists. split; intros (s & Hs & Hp); exists s.
  - split; [by apply list_elem_of_In|]. rewrite !orb_true_iff, !String.eqb_eq in Hp. set_solver.
  - split; [by apply list_elem_of_In|]. rewrite !orb_true_iff, !String.eqb_eq. set_solver.
Qed.

Lemma routeScope_known method path : routeScope method path ∈ apiTokenScopes.
Proof. apply (bool_decide_eq_true_1 _). unfold routeScope. repeat case_match; vm_compute; reflexivity. Qed.
Lemma scopes_named s : s ∈ apiTokenScopes → s ≠ ""%string.
Proof. intros Hs ->. by apply (bool_decide_eq_true_2 _) in Hs. Qed.

(** The middleware on a token that was created. *)
Section Created.
Context (rq : Request) (random : list ascii) (owner : Z) (scopes : list string) (e : option Z).
Notation token := ("ac_" ++ RandomURLToken random)%string.
Notation middleware := (AuthMiddleware tokenHash hmac unmarshalPayload unmarshalScopes errText rq).
Context (Hbearer : bearerToken rq = Some token) (Hknown : scopes ⊆ apiTokenScopes).

Lemma stored_scopes t : t_Scopes t = marshalScopes scopes → storedScopes unmarshalScopes t = Some scopes.
Proof. intros E. unfold storedScopes. destruct (Hscopes scopes Hknown) as (Et & Hne & Hu). rewrite E, Et. by rewrite (proj2 (String.eqb_neq _ _) Hne). Qed.

Lemma middleware_admits now p d d' : tokensOf (isToken collate (tokenHash token) owner (marshalScopes scopes) e) d → ends (at_ now) middleware d (Ok p) d' →
  p = mkPrincipal owner authKindAPIToken scopes ∧ usable collate (tokenHash token) (db_tokens d) ∧ ∀ x, e = Some x → now < x.
Proof.
  intros Ht. unfold AuthMiddleware. rewrite Hbearer. cbn [AuthSafety.ends]. intros (d1 & t1 & d2 & R0 & [-> _] & He). rewrite Verify_no_dot in He by apply api_token_no_dot.
  rewrite api_token_prefix in He. cbn [AuthSafety.ends] in He. destruct He as (d2 & now' & d3 & R1 & [-> ->] & d4 & x & d5 & R2 & [Hq _] & He). apply query_reads in Hq as [-> Hq].
  destruct x as [t|er]; [|by destruct He]. destruct Hq as [Hq|[? [=]]]. symmetry in Hq.
  assert (rtc (anyCall collate) d d4) as R by (etrans; [exact R0|etrans; [exact R1|exact R2]]). destruct (found_usable collate _ _ _ _ now t d d4 Ht R Hq) as (Hu & Hx & Ho & Es).
  rewrite (stored_scopes t Es) in He. destruct He as [[= ->] _]. by rewrite Ho.
Qed.
Lemma middleware_accepts now d : tokensOf (isToken collate (tokenHash token) owner (marshalScopes scopes) e) d → usable collate (tokenHash token) (db_tokens d) → (∀ x, e = Some x → now < x) →
  ends (at_ now) middleware d (Ok (mkPrincipal owner authKindAPIToken scopes)) d.
Proof.
  intros Ht Hu Hx. destruct (usable_found collate _ _ _ _ now d Ht Hu Hx) as (t & Hf & Ho & Es). unfold AuthMiddleware. rewrite Hbearer. cbn [AuthSafety.ends].
  exists d, now, d. split_and!; [done..|]. rewrite Verify_no_dot by apply api_token_no_dot. rewrite api_token_prefix. cbn [AuthSafety.ends].
  exists d, now, d. split_and!; [done..|]. exists d, (Ok t), d. split_and!; [done|left; by rewrite Hf|done|]. rewrite (stored_scopes t Es). by rewrite Ho.
Qed.
End Created.

(** C15. An API token opens what its scopes allow, and nothing else: once it was created, whatever
    handlers did since, a request with it, while the clock shows [now], can be admitted if and only if
    the token is not revoked, the expiry asked for at its creation, if any, lies after [now], and one of
    the scopes asked for is the scope of the route, [admin] or [*]; and it is admitted as its owner. *)
Theorem api_token_admitted_iff owner req created rq now d0 d1 d2 :
  ends anyTime (CreateAPIToken owner req) d0 (Ok created) d1 → rtc (anyCall collate) d1 d2 → bearerToken rq = Some (tc_Token created) →
  (∀ p d3, ends (λ t, t = now) (admission rq) d2 (Ok p) d3 → pr_UserID p = owner) ∧
  ((∃ p d3, ends (λ t, t = now) (admission rq) d2 (Ok p) d3) ↔
    usable collate (tokenHash (tc_Token created)) (db_tokens d2) ∧ (∀ expiry, tr_ExpiresAt req = Some expiry → now < expiry) ∧
    ∃ raw, raw ∈ tr_Scopes req ∧ TrimSpace raw ∈ ["*"; "admin"; routeScope (rq_Method rq) (rq_Path rq)]%string).
Proof.
  intros Hc R Hb. destruct (created_token _ _ _ _ _ Hc) as (Hsc & (random & Etok) & Ht1). rewrite Etok in *.
  pose proof (preserved_rtc collate _ _ _ (isToken_preserved collate _ _ _ _) R Ht1) as Ht. clear Ht1 R Hc.
  assert (tc_Scopes created ⊆ apiTokenScopes) as Hk by (intros s (? & _ & _ & _ & ?)%Hsc; done).
  assert (∀ p d3, ends (λ t, t = now) (admission rq) d2 (Ok p) d3 → p = mkPrincipal owner authKindAPIToken (tc_Scopes created) ∧
    usable collate (tokenHash ("ac_" ++ RandomURLToken random)) (db_tokens d2) ∧ (∀ expiry, tr_ExpiresAt req = Some expiry → now < expiry) ∧
    scopeAllows p (routeScope (rq_Method rq) (rq_Path rq)) = true) as Hin.
  { intros p d3 (a & d4 & Ha & He)%ends_bind. destruct a as [p'|r]; [|by destruct He]. destruct (middleware_admits rq random owner _ _ Hb Hk now p' d2 d4 Ht Ha) as (-> & Hu & Hx).
    apply ends_bind in He as (denied & d5 & Hd & [Ep _]). destruct denied as [r|]; [done|]. injection Ep as ->. split_and!; [done..|]. by apply (scope_checked _ _ _ _ _ _ Hd). }
  split; [intros p d3 Hp; by destruct (Hin p d3 Hp) as [-> _]|]. split.
  - intros (p & d3 & Hp). destruct (Hin p d3 Hp) as (-> & Hu & Hx & (s & Hs & Ha)%scopeAllows_api). split_and!; [done..|]. apply Hsc in Hs as (raw & Hraw & <- & _). by exists raw.
  - intros (Hu & Hx & raw & Hraw & Ha). exists (mkPrincipal owner authKindAPIToken (tc_Scopes created)), d2. apply ends_bind. eexists _, d2. split; [by eapply middleware_accepts|]. cbn match.
    apply ends_bind. exists None, d2. split; [|done]. apply scope_passes, scopeAllows_api. exists (TrimSpace raw). split; [|done].
    assert (TrimSpace raw ∈ apiTokenScopes) as Hkn by (rewrite !elem_of_cons in Ha; destruct Ha as [->|[->|[->|Ha]]]; [| |apply routeScope_known|by apply elem_of_nil in Ha]; by apply (bool_decide_eq_true_1 _)).
    apply Hsc. exists raw. split_and!; [done..|by apply scopes_named|done].
Qed.
End Admission.

(** ** Samples *)

Module AuthSamples.
#[local] Existing Instance AsciiTables.

(** Calls that succeed, [gh] at GitHub; random bytes come from the sequence. *)
Definition exec (gh : GitHubUser) (X : Type) (c : acall X) (d : AuthDB) : X * AuthDB :=
  match c in acall X return X * AuthDB with
  | AClock => (100 * 10 ^ 9, d)
  | ARandom n => (Ok (replicate n (byte_of (db_nextID d))), d)
  | AHashPassword p => (Ok ("bcrypt:" ++ p)%string, d)
  | ACreateUser u => CreateUser (λ s, s) 100 u d
  | AFindUserByID id => (FindUserByID id d, d)
  | AFindByEmail e => (FindByEmail (λ s, s) e d, d)
  | AFindByUsername n => (FindByUsername (λ s, s) n d, d)
  | AUpdateLastLogin id t => (None, UpdateLastLogin 100 id t d)
  | ACreateSession s => CreateSession (λ s, s) 100 s d
  | AFindSession h now => (FindActiveByRefreshHash (λ s, s) h now d, d)
  | ARevokeSession h now => (None, RevokeByRefreshHash (λ s, s) h now 100 d)
  | ACreateToken t => CreateToken (λ s, s) 100 t d
  | AListTokens o => (Ok (ListByOwner o d), d)
  | AFindToken h now => (FindActiveByHash (λ s, s) h now d, d)
  | ARevokeToken o id now => (None, RevokeByID o id now 100 d)
  | ACreateOAuth a => CreateOAuth (λ s, s) 100 a d
  | AFindOAuth p id => (FindByProviderUserID (λ s, s) p id d, d)
  | ADeleteOAuth p id => (None, DeleteByProviderUserID (λ s, s) p id d)
  | ACreateLog l => (None, CreateLog 100 l d)
  | ARedisSet k v ttl => (None, RedisSet k v ttl 100 d)
  | ARedisGet k => (RedisGet k 100 d, d)
  | ARedisDel k => (None, RedisDel k d)
  | AAuthCodeURL s => (Ok s, d)
  | AExchangeCode c => (Ok c, d)
  | AGetUser _ => (Ok gh, d)
  end.

Lemma exec_performs gh X (c : acall X) d : performA (λ s, s) X c d (exec gh X c d).1 (exec gh X c d).2.
Proof.
  destruct c; cbn [exec performA fst snd]; try reflexivity; unfold authQuery, authStatement; try (left; reflexivity).
  1: { split; [done|]. intros l [= <-]. by rewrite length_replicate. }
  all: eexists; left; first [reflexivity|by symmetry; apply surjective_pairing].
Qed.
Lemma runs_end {A} gh (p : program acall A) d : ends (λ s, s) anyTime p d (runAlone (exec gh) p d).1 (runAlone (exec gh) p d).2.
Proof.
  revert d. induction p as [a|X c k IH]; intros d; cbn; [done|]. pose proof (exec_performs gh X c d) as Hp. destruct (exec gh X c d) as [x d1] eqn:E. cbn in Hp.
  exists d, x, d1. split_and!; [done|done|by destruct c|apply IH].
Qed.

Lemma runs_give {A} gh (p : program acall A) d a : (runAlone (exec gh) p d).1 = a → ends (λ s, s) anyTime p d a (runAlone (exec gh) p d).2.
Proof. intros <-. apply runs_end. Qed.

Definition emptyDB : AuthDB := mkAuthDB [] [] [] [] [] 1 ∅.
Definition octocat : GitHubUser := mkGitHubUser 583 "octocat" "" "".
Definition client : ClientInfo := mkClientInfo "curl" "10.0.0.1".
Definition bcryptVerify (hash password : string) : bool := (hash =? "bcrypt:" ++ password)%string.

(** A code for lists of scopes: their places in brackets. *)
Definition scopeCode (s : string) : Z := match list_find (eq s) apiTokenScopes with Some (i, _) => 48 + Z.of_nat i | None => 63 end.
Definition codeScopes (scopes : list string) : string := of_runes (91 :: (scopeCode <$> scopes) ++ [93]).
Definition decodeScopes (s : string) : option (list string) :=
  mapM (λ r, apiTokenScopes !! Z.to_nat (r - 48)) (reverse (tail (reverse (tail (runes s))))).
Lemma scopes_coded s : s ∈ apiTokenScopes → scalar (scopeCode s) = true ∧ apiTokenScopes !! Z.to_nat (scopeCode s - 48) = Some s.
Proof. intros Hs. unfold apiTokenScopes in Hs. repeat (apply elem_of_cons in Hs as [->|Hs]; [vm_compute; split; reflexivity|]). by apply elem_of_nil in Hs. Qed.
Lemma codeScopes_runes scopes : scopes ⊆ apiTokenScopes → runes (codeScopes scopes) = 91 :: (scopeCode <$> scopes) ++ [93].
Proof.
  intros Hk. apply runes_of_runes. constructor; [done|]. apply Forall_app. split; [|by repeat constructor]. apply Forall_fmap, Forall_forall. intros s Hs. by apply scopes_coded, Hk.
Qed.
Lemma codeScopes_decoded scopes : scopes ⊆ apiTokenScopes →
  TrimSpace (codeScopes scopes) = codeScopes scopes ∧ codeScopes scopes ≠ ""%string ∧ decodeScopes (codeScopes scopes) = Some scopes.
Proof.
  intros Hk. pose proof (codeScopes_runes scopes Hk) as Er. split_and!.
  - apply TrimSpace_id_iff. rewrite Er. intros r [[= <-]|Hl]; [done|]. rewrite app_comm_cons, last_snoc in Hl. by injection Hl as <-.
  - intros E. by rewrite E in Er.
  - unfold decodeScopes. rewrite Er. cbn [tail]. rewrite reverse_app. change (reverse [93]) with [93]. cbn [app tail]. rewrite reverse_involutive.
    clear Er. induction scopes as [|s scopes IH]; [done|]. cbn [fmap list_fmap mapM]. rewrite (proj2 (scopes_coded s (Hk s ltac:(left)))). cbn [mbind option_bind].
    change (list_fmap _ _ scopeCode scopes) with (scopeCode <$> scopes). rewrite IH by (intros x Hx; apply Hk; by right). done.
Qed.

Notation register := (Register (λ s, s) JwtSamples.sampleMAC (λ _, None) 60 3600000000000 (mkRegister "ada" "Ada@example.org" "correct horse") client).
Notation login p := (Login (λ s, s) bcryptVerify JwtSamples.sampleMAC (λ _, None) 60 3600000000000 (mkLogin "ada@example.org" p) client).
Notation refresh t := (Refresh (λ s, s) JwtSamples.sampleMAC 60 3600000000000 t client).
Notation callback := (HandleGitHubCallback (λ s, s) JwtSamples.sampleMAC (λ _, None) true true 60 3600000000000 "code" "state" client).
Notation runs p d := (runAlone (exec octocat) p d).
Definition refreshOf (r : result AuthErr AuthResponse) : string := match r with Ok resp => tp_RefreshToken (ar_Tokens resp) | Err _ => "" end.

Definition registered : AuthDB := (runs register emptyDB).2.
Definition adaToken : string := refreshOf (runs register emptyDB).1.
Definition failed {A} (r : result AuthErr A) : option AuthErr := match r with Ok _ => None | Err e => Some e end.

Example register_then_login :
  failed (runs register registered).1 = Some AErrConflict ∧ failed (runs (login "correct horse") registered).1 = None ∧ failed (runs (login "wrong") registered).1 = Some AErrUnauthorized.
Proof. vm_compute. split_and!; reflexivity. Qed.

Definition response (r : result AuthErr AuthResponse) : AuthResponse := match r with Ok resp => resp | Err _ => mkAuthResponse (mkUserDTO 0 "" None "" "" 0 None 0) (mkTokenPair "" "" "" 0) end.
Definition tokenPair (r : result AuthErr TokenPair) : TokenPair := match r with Ok tokens => tokens | Err _ => mkTokenPair "" "" "" 0 end.

Lemma login_authenticates_witness :
  ∃ u d1, u ∈ db_users d1 ∧ u_Status u = StatusActive ∧ bcryptVerify (u_PasswordHash u) "correct horse" = true ∧
    dto_ID (ar_User (response (runs (login "correct horse") registered).1)) = u_ID u.
Proof.
  assert ((runs (login "correct horse") registered).1 = Ok (response (runs (login "correct horse") registered).1)) as E by (vm_compute; reflexivity).
  pose proof (runs_give octocat (login "correct horse") registered _ E) as He.
  destruct (login_authenticates _ _ _ _ _ _ _ _ _ _ _ _ He) as (u & d1 & _ & H1 & _ & _ & H2 & _ & H3 & H4 & _).
  exists u, d1. split; [exact H1|]. split; [exact H2|]. split; [exact H3|exact H4].
Defined.

Definition rotated : AuthDB := (runs (refresh adaToken) registered).2.
Lemma refresh_token_spent_witness :
  failed (runs (refresh adaToken) registered).1 = None ∧
  ((runs (refresh adaToken) rotated).1 = Err AErrUnauthorized ∨ ∃ msg, (runs (refresh adaToken) rotated).1 = Err (AErrDatabase msg)).
Proof.
  split; [vm_compute; reflexivity|]. pose proof (runs_end octocat (refresh adaToken) rotated) as H2.
  assert ((runs (refresh adaToken) registered).1 = Ok (tokenPair (runs (refresh adaToken) registered).1)) as E by (vm_compute; reflexivity).
  pose proof (runs_give octocat (refresh adaToken) registered _ E) as H1.
  apply (refresh_token_spent (λ s, s) (λ s, s) JwtSamples.sampleMAC 60 3600000000000 adaToken client client _ registered rotated rotated _ _ (or_intror H1) (rtc_refl _ _) H2).
Defined.

Notation createToken := (CreateAPIToken (λ s, s) codeScopes 1 (mkTokenRequest "ci" [" agent:read"; "run:write"]%string (Some 1000))).
Definition withToken : AuthDB := (runs createToken registered).2.
Definition ciToken : APITokenCreated := match (runs createToken registered).1 with Ok t => t | Err _ => mkTokenCreated 0 "" "" "" [] None 0 end.
Definition requestOf (method path token : string) : Request := mkRequest method path ("Bearer " ++ token) "" "" "" "" "".
Notation admitting rq := (admission (λ s, s) JwtSamples.sampleMAC JwtSamples.decodePayload (λ _, None) decodeScopes (λ _, ""%string) true rq).
Notation admitted now rq d := (∃ p d3, ends (λ s, s) (λ t, t = now) (admitting rq) d (Ok p) d3).

Lemma api_token_admitted_iff_witness :
  admitted 999 (requestOf "GET" "/api/v1/agents/7" (tc_Token ciToken)) withToken ∧ ¬ admitted 1000 (requestOf "GET" "/api/v1/agents/7" (tc_Token ciToken)) withToken ∧
  ¬ admitted 999 (requestOf "POST" "/api/v1/agents" (tc_Token ciToken)) withToken ∧
  ¬ admitted 999 (requestOf "GET" "/api/v1/agents/7" (tc_Token ciToken)) (runs (RevokeAPIToken 1 (tc_ID ciToken)) withToken).2.
Proof.
  assert ((runs createToken registered).1 = Ok ciToken) as E by (vm_compute; reflexivity). pose proof (runs_give octocat createToken registered _ E) as Hc.
  assert (∀ rq now d2, rtc (anyCall (λ s, s)) withToken d2 → bearerToken rq = Some (tc_Token ciToken) →
    admitted now rq d2 ↔ usable (λ s, s) (tc_Token ciToken) (db_tokens d2) ∧ (∀ expiry, Some 1000 = Some expiry → now < expiry) ∧
      ∃ raw, raw ∈ [" agent:read"; "run:write"]%string ∧ TrimSpace raw ∈ ["*"; "admin"; routeScope (rq_Method rq) (rq_Path rq)]%string) as Hiff.
  { intros rq now d2 R Hb. apply (api_token_admitted_iff (λ s, s) (λ s, s) JwtSamples.sampleMAC JwtSamples.decodePayload (λ _, None) codeScopes decodeScopes (λ _, ""%string) true codeScopes_decoded
      _ _ _ rq now _ _ d2 Hc R Hb). }
  split_and!.
  - apply Hiff; [done|vm_compute; reflexivity|]. split_and!.
    + apply (bool_decide_eq_true_1 _). vm_compute. reflexivity.
    + intros expiry [= <-]. lia.
    + exists " agent:read"%string. split; [left|]. apply (bool_decide_eq_true_1 _). vm_compute. reflexivity.
  - intros (_ & Hx & _)%Hiff; [|done|vm_compute; reflexivity]. specialize (Hx 1000 eq_refl). lia.
  - intros (_ & _ & raw & Hraw & Hin)%Hiff; [|done|vm_compute; reflexivity]. rewrite !elem_of_cons in Hraw. destruct Hraw as [->|[->|Hraw]]; [..|by apply elem_of_nil in Hraw];
      apply (bool_decide_eq_true_2 _) in Hin; vm_compute in Hin; discriminate Hin.
  - intros [Hu _]%Hiff; [|eapply (ends_rtc (λ s, s)), (runs_end octocat)|vm_compute; reflexivity]. apply (bool_decide_eq_true_2 _) in Hu. vm_compute in Hu. discriminate Hu.
Defined.

(** ** What else can happen *)

(** The rest of a program after some calls. *)
Fixpoint after {A} (n : nat) (p : program acall A) (d : AuthDB) : program acall A * AuthDB :=
  match n, p with
  | S n, Ask _ c k => let '(x, d') := exec octocat _ c d in after n (k x) d'
  | _, _ => (p, d)
  end.
Definition activeSessions (d : AuthDB) : list Z := s_UserID <$> filter (λ s, s_RevokedAt s = None) (db_sessions d).

(** Two refreshes at once with one token both succeed: each has found the session before the other
    revokes it, and nobody looks whether the revocation changed a row. *)
Theorem refreshed_twice :
  let '(rest, d1) := after 2 (refresh adaToken) registered in
  let '(r2, d2) := runs (refresh adaToken) d1 in
  let '(r1, d3) := runs rest d2 in
  activeSessions registered = [1] ∧ failed r1 = None ∧ failed r2 = None ∧ activeSessions d3 = [1; 1].
Proof. vm_compute. split_and!; reflexivity. Qed.

(** A login code from GitHub can be exchanged twice, in the same way. *)
Theorem login_code_exchanged_twice :
  let d := RedisSet (loginCodeKey "code") "response" (2 * minute) 0 registered in
  let exchange := ExchangeOAuthCode (λ _, Ok (response (runs register emptyDB).1)) true "code" in
  let '(rest, d1) := after 1 exchange d in
  let '(r2, d2) := runs exchange d1 in
  failed r2 = None ∧ failed (runs rest d2).1 = None ∧ failed (runs exchange d2).1 = Some AErrUnauthorized.
Proof. vm_compute. split_and!; reflexivity. Qed.

(** A disabled account cannot log in with its password, but it goes on refreshing its sessions, and
    it can log in through GitHub. *)
Definition disabled : AuthDB :=
  set_redis {[stateKey "state" := ("1"%string, 1000)]} (set_oauth [mkOAuthAccount 9 1 "github" "583" 0]
    (set_users ((λ u, mkUser (u_ID u) (u_Username u) (u_Email u) (u_PasswordHash u) (u_AvatarURL u) (u_LoginType u) StatusDisabled None 0 0 None) <$> db_users registered) registered)).
Theorem disabled_account_refreshes :
  failed (runs (login "correct horse") disabled).1 = Some AErrUnauthorized ∧ failed (runs (refresh adaToken) disabled).1 = None ∧ failed (runs callback disabled).1 = None.
Proof. vm_compute. split_and!; reflexivity. Qed.

(** GitHub users without a public email all have the empty email, and the key on emails admits it once:
    the second of them cannot log in. *)
Theorem second_user_without_email :
  let states := set_redis {[stateKey "state" := ("1"%string, 1000)]} in
  let '(r1, d1) := runAlone (exec octocat) callback (states emptyDB) in
  let '(r2, _) := runAlone (exec (mkGitHubUser 584 "hubot" "" "")) callback (states d1) in
  failed r1 = None ∧ failed r2 = Some AErrDuplicateKey.
Proof. vm_compute. split_and!; reflexivity. Qed.

(** A registration whose audit record fails reports an error and leaves the account: the same
    registration is refused from then on. *)
Definition execNoAudit (X : Type) (c : acall X) (d : AuthDB) : X * AuthDB :=
  match c in acall X return X * AuthDB with
  | ACreateLog _ => (Some (AErrDatabase "lock wait timeout"), d)
  | c => exec octocat _ c d
  end.
Theorem registration_half_done :
  let '(r, d) := runAlone execNoAudit register emptyDB in
  failed r = Some (AErrDatabase "lock wait timeout") ∧ failed (runs register d).1 = Some AErrConflict ∧ failed (runs (login "correct horse") d).1 = None.
Proof. vm_compute. split_and!; reflexivity. Qed.

(** A body that cannot be read, and a scope that does not exist, are answered as internal errors. *)
Theorem client_errors_are_internal errText msg scope :
  writeAppError errText (AErrBinding msg) = ReplyError 500 CodeInternal (errText (AErrBinding msg)) ∧
  writeAppError errText (AErrUnsupportedScope scope) = ReplyError 500 CodeInternal (errText (AErrUnsupportedScope scope)) ∧
  HTTPLogout (λ s, s) errText (Err msg) = Return _ (ReplyError 500 CodeInternal (errText (AErrBinding msg))).
Proof. done. Qed.
End AuthSamples.
